(* ===== verification/_CoqProject ===== *)
-Q . S2P
Prelude.v
Parms.v
Timing.v
Decisions.v
Disputed.v
Proposal.v
Censorship.v
Ledgers.v
Trie.v
TrieFacts.v
TrieSpec.v
TriePreferred.v
TrieKnown.v
Validations.v
ValidationsFacts.v
ValidationsSpec.v
EngineState.v
Pause.v
Engine.v
EngineFacts.v
EngineRounds.v
EngineSpec.v
EngineProgress.v
Thresholds.v
EngineSample.v
Composition.v
Digits.v
Base58.v
Base58Facts.v
Base58Parse.v
Base58Spec.v
HashPrefix.v
Serializer.v
SerializerFacts.v
SerializerSpec.v
LedgerHeader.v
NodeID.v
ShaMap.v
ShaMapFacts.v
ShaMapSpec.v
ShaMapDelta.v
ShaMapIter.v
TxSets.v
ShaMapWire.v
ShaMapWireSpec.v
ShaMapProof.v
Number.v
NumberSpec.v
NumberNorm.v
NumberAdd.v
NumberClaims.v
SField.v
Formats.v
Amounts.v
STTypes.v
STObject.v
AmountFacts.v
STTypesFacts.v
Parsing.v
STObjectFacts.v
STObjectSpec.v
STAccess.v
STAccessFacts.v
Views.v
StateTables.v
StateTablesFacts.v
ApplyViewFacts.v
ViewSpec.v
LedgerView.v
LedgerViewFacts.v
ViewClaims.v
Directory.v
DirectoryFacts.v
DirectorySpec.v
DirectoryClaims.v
LedgerBuild.v
LedgerEntries.v
LedgerBuildFacts.v
LedgerClaims.v
