(* ===== verification/Prelude.v ===== *)
(** * Verification of the consensus core and the data formats of the XRP Ledger server

    The server (xrpld) agrees with its peers, every few seconds, on the next ledger:
    the transactions it contains and its close time.  This library models the code that
    decides this, the Merkle tree that holds transactions and state, and the formats in
    which tokens, headers and nodes are written, and proves what they promise.

    ** The program

    - [Consensus] (include/xrpl/consensus/Consensus.h) is the state machine of one
      round: an open phase that collects peers' proposals, an establish phase in which
      positions are exchanged and disputed transactions voted on, and an accepted
      phase until [startRound] begins the next round.  It calls the decision functions
      of src/libxrpl/consensus/Consensus.cpp, the parameters of ConsensusParms.h, the
      disputes of DisputedTx.h, the proposals of ConsensusProposal.h and the close
      times of ledger/LedgerTiming.h, and talks to the rest of the server through an
      adaptor (src/xrpld/app/consensus/RCLConsensus.cpp).
    - [Validations] (include/xrpl/consensus/Validations.h) collects the signed
      validations of other servers and keeps in a [LedgerTrie] (LedgerTrie.h) which
      ledger each trusted validator supports.  The preferred ledger of the trie is what
      the adaptor names as the previous ledger when the state machine asks.
    - [CensorshipDetector] (CensorshipDetector.h) tracks proposed transactions that do
      not make it into ledgers.
    - [SHAMap] (src/libxrpl/shamap) is the Merkle radix tree with sixteen branches in
      which transaction sets and ledgers are kept; its root hash identifies the contents,
      nodes are sent and stored as bytes, and a path of nodes proves that a key is there.
      [RCLTxSet] (src/xrpld/app/consensus/RCLCxTx.h) is the transaction set of consensus
      on such a tree.
    - [Serializer] and [SerialIter] (src/libxrpl/protocol/Serializer.cpp) write and read
      binary fields; [LedgerHeader] is written with them; identifiers are shown to users
      as base58 tokens (src/libxrpl/protocol/tokens.cpp).
    - [Number] (src/libxrpl/basics/Number.cpp) is the decimal arithmetic of amounts;
      [STAmount] holds an amount of XRP, of an issued currency or of a token.
    - [STObject] (src/libxrpl/protocol/STObject.cpp) is a list of fields, with a template
      ([SOTemplate]) of the registries of formats; transactions and ledger entries
      ([STLedgerEntry]) are such objects, written with [Serializer].
    - [Ledger] (src/libxrpl/ledger/Ledger.cpp) keeps its entries in a SHAMap.  Transactions
      see them through layers of views: an [OpenView] records changes to a ledger in a
      [RawStateTable], a [Sandbox] records changes to any view in an [ApplyStateTable], and
      each layer can be applied to the one below.  Lists of entries (what an account owns,
      the offers of a price) are directories: chains of pages, changed by the members of
      [ApplyView] (src/libxrpl/ledger/ApplyView.cpp).

    ** The files

    - Prelude: machine integers with their wrap-around ([u32], [u64], [i32], [i64] and
      the notations [+32], [-32], [+64]), the tactics [breflect] and [bcase], the hint
      database [xrpl], sums, ordered maps, big-endian bytes, lists and left folds.
    - Parms, Timing, Decisions: ConsensusParms.h, LedgerTiming.h and Consensus.cpp, as
      functions on integers (close times are unsigned 32-bit seconds, durations
      milliseconds, counts unsigned 64-bit).
    - Disputed, Proposal: the classes [DisputedTx], [ConsensusProposal],
      [ConsensusTimer] and [ConsensusCloseTimes] as records with one function per
      member; the SHA-512 hash is an argument of [getSigningHash].
    - Censorship: the detector, with the two algorithms of basics/algorithm.h.
    - Ledgers: the interface between validations and ledgers: the class [LedgerOps]
      (identifier, sequence, ancestors and [mismatch]), its laws [LedgerLaws] when a ledger
      knows all its ancestors, and [KnownLedgers] when it knows only the last ones, at least
      those in play; and the instances for [RCLValidatedLedger] of RCLValidations.cpp, which
      carries the hashes of 256 ancestors.
    - Trie: [LedgerTrie] with nodes as a tree and positions as paths.  TrieFacts: the
      invariant and its preservation.  TrieSpec: refinement to a bag of ledgers.
      TriePreferred: the preferred ledger.  TrieKnown: the same for ledgers that know their
      last ancestors.
    - Validations: the class with all its members, on any ledger type with
      [LedgerOps].  ValidationsFacts, ValidationsSpec: its invariant over all sequences
      of calls, outcomes of [add], conflicts, expiry.
    - EngineState, Pause, Engine: the state of [Consensus] as a record with one setter
      per member, the adaptor as a record of its answers during a call and a log of
      what it is told, and one function per member function.  Long member functions
      are split at their loops and blocks.
    - EngineFacts, EngineRounds: the invariant of the engine through disputes, peers,
      closing, establishing and the start of rounds, and what each operation leaves
      alone.  EngineSpec, EngineProgress, Thresholds: the
      theorems.  EngineSample: a concrete round, and the theorems at it.  Composition:
      the engine with the answers of [Validations].
    - Digits: numbers as lists of digits in a base.  Base58: the two codecs, Modules
      [Ref] and [Fast].  Base58Facts, Base58Parse: what each computes.
      Base58Spec: the theorems.
    - HashPrefix: the prefixes of hashed strings.  Serializer: writers on a list of
      bytes, readers as a state monad on an iterator with the exceptions as values.
      SerializerFacts: what a reader consumes.  SerializerSpec: the theorems.
      LedgerHeader: the header and its hash.
    - NodeID: positions in the tree.  ShaMap: the tree as an inductive type and one
      function per member function, with the path stack of the code.  ShaMapFacts: the
      shape of trees, its preservation, and the hash of a tree.  ShaMapSpec,
      ShaMapDelta, ShaMapIter: the tree as a finite map, its comparison and its order.
      TxSets: transaction sets on the tree and the sets of the consensus model.
      ShaMapWire, ShaMapWireSpec: the formats of nodes.  ShaMapProof: proof paths.
    - Number: the decimal arithmetic with its guard digits.  NumberSpec,
      NumberNorm, NumberAdd: rounding and each operation.
      NumberClaims: the theorems.
    - SField, Formats: the table of fields, templates, and the formats of ledger entries,
      transactions and inner objects, one definition per entry of the .macro files.
    - Amounts, AmountFacts: [STAmount] with [Issue], [Asset], [IOUAmount].  STTypes: the
      values of fields, with their bytes.  STObject: objects and arrays, with writing and
      parsing.  STTypesFacts, STObjectFacts: what is written.  Parsing: a triple for
      readers of arbitrary bytes.  STObjectSpec: the theorems.
    - STAccess: getters, setters, proxies and ledger entries.  STAccessFacts: the theorems.
    - Views: the interfaces [ReadView] and [RawView] and their laws, [ReadLaws] and
      [RawLaws], against which every layer is proved.  StateTables: the two tables of
      changes and the views on them; entries that clients hold are cells of a heap, because
      the code compares pointers.  StateTablesFacts, ApplyViewFacts, ViewSpec:
      the tables obey the laws over any base.  LedgerView, LedgerViewFacts: the ledger does.
      ViewClaims: the theorems.
    - Directory: the members of [ApplyView] on directories, in a monad of views with
      exceptions, and the readers of DirectoryHelpers.cpp.  DirectoryFacts: pages as records,
      linked chains of them, the page entries of a view and one step of each kind.
      DirectorySpec: what [dirAdd] and [dirRemove] do to the chain.  DirectoryClaims: the
      theorems.
    - LedgerBuild: the skip list, the negative UNL and the acceptance of a ledger,
      [buildLedgerImpl] (src/xrpld/app/ledger/detail/BuildLedger.cpp) and [hashOfSeq]
      (src/libxrpl/ledger/View.cpp).  LedgerEntries: the entries they write.
      LedgerBuildFacts: each step on the entries of a ledger.  LedgerClaims: chains of
      ledgers and the theorems.

    ** What is proved

    - Decisions: [Yes] needs an 80% supermajority, so two positions are never both
      declared; the answer is definite after the time limits; closing is stable.
    - Times: rounding to the nearest resolution, increasing close times, closed set of
      resolutions, the weighted median of the close times, the plurality choice.
    - Disputes: tallies count the votes in every reachable state; our vote follows the
      avalanche percentage exactly; stalling needs rounds and a supermajority.
    - Trie: it implements a bag of ledgers, passes its own invariant check, and its
      preferred ledger cannot be overtaken by uncommitted validators.  A ledger whose
      ancestors in play are not all known is not a descendant of them for the code
      ([unknown_ancestor_unrelated]).
    - Validations: the trie counts the nodes by their last acquired ledger whatever
      members are called; what [add] does on every outcome; conflicts are detected.
    - Engine: in every state reachable by the public members the disputes reflect the
      positions and the round is well formed; a round is accepted only for a reason;
      the timer returns; an establish phase comes to a decision; only [startRound]
      makes us propose; a peer's positions are taken in in order.
      With the validations as the adaptor, the timer returns in any of their states.
    - Tokens: the two codecs agree, decoding inverts encoding, a token has one text.
    - Fields: what is written is read back, what is read is the one encoding of its
      value, and the iterator stays in its buffer.  A header survives its format, and
      its hash determines it.
    - Tree: any operations do what they do on a finite map; the root hash is equal
      exactly for equal contents; comparison finds exactly the differences; iteration is
      in the order of the keys and the bounds are neighbours; transaction sets on the
      tree are the sets of the consensus model.
    - Nodes: either format reads back, the stored bytes are the hashed ones and have one
      form, and every input is rejected or read; only a compressed inner node with two
      chunks for one branch gives a node that is not well formed.  Proof paths are complete
      and sound.
    - Numbers, in the scale [Large330]: the four operations are correctly rounded in every
      mode, conversions too; what is below the smallest number is zero, or for a product
      rounded to a whole unit first.
      Amounts: operators compare values, integral sums are exact within 2^63 - 1, and
      otherwise refused but for one value, -2^63, whose last digit is lost.
    - Objects: what is written is read back; the parser refuses or returns an object of
      its template on any bytes; setters and proxies keep the template.  The objects are those
      within the limits of the format ([wfBase]): nesting of at most ten, templates where the
      parser puts them, strings of at most 918744 bytes, canonical amounts.
    - Views: a sandbox and an open view over any view are maps with local changes, also for
      successors and iteration; applied down to a ledger, a transaction leaves the state tree
      with exactly the entries asked for.  A directory stays linked both ways and does what a
      set of pairs of a page and a key does, to the page a key goes to and the errors; its
      readers visit all keys.  In a chain of ledgers built on one another the skip list gives
      the hashes of the last 256 ledgers and of every 256th one; building fails only when a
      tree is not valid, and the hash of a ledger identifies it.
    - Where the code does not do what its comments say, a closed theorem evaluates the
      model at the case in point ([untrusted_support_stays], [kept_range_expires],
      [pause_on_threshold], [compressed_inner_ambiguous], [null_path_element],
      [mpt_sum_changes], [free_field_stays_absent]) or states what it does instead
      ([isCurrent_past_seen], [accepted_inert]).

    ** Conventions and bounds

    A [HashMap] is a [gmap] iterated by [map_to_list]; a [std::map] is a [gmap] iterated
    by [sortedEntries]; identifiers (hashes, node identifiers, keys) are integers.
    Assertions are the branches that leave the state as it is; the theorems on
    reachable states show that the asserted conditions hold there.  Logging, JSON
    reports and locking are omitted.

    Fuel: [preferredLoop] runs with the height of the trie, which [getPreferred_total]
    shows to be enough.  [timerEntry] and [startRound] pass fuel through their mutual
    recursion; [engine_terminates] shows that two levels are enough when the adaptor,
    asked again on the ledger it named, names the same one.  Walks in the tree have the
    depth of the tree as fuel, 64 levels, and comparison the size of the two trees;
    running out is a failure value, and the theorems show that it does not occur.  Walks
    over a directory have the number of its pages as fuel, shown to be enough as well.

    Assumptions: sets of the transactions offered in a run with equal identifiers are equal
    ([collisionFree], no collisions of the tree hash), fewer than 2^32 validators support
    ledgers (the width of the counters), and ledgers know at least their ancestors in play
    ([KnownLedgers]; for the preferred ledger all of them, [LedgerLaws]).  One comparison
    of sets reports at most 65536 differences, and the theorem on disputes says so.  The
    samples in Ledgers, TrieKnown, ValidationsSpec and EngineSample show that the
    assumptions can be met.  The pause
    thresholds are checked for up to 35 validators, by evaluation in the
    standard library's model of floating-point numbers.  The digests (SHA-256,
    SHA-512Half) are parameters; where a theorem needs that they do not collide, it is
    assumed of the finitely many strings hashed in the case at hand ([noCollision],
    [leavesDiffer]).

    ** Not modelled, and plan

    The adaptors themselves (job queue, network, storage), JSON, cryptography, RPC,
    overlay and databases are input and output.  A SHAMap is a value: sharing between
    snapshots (copy on write), nodes not yet loaded and the acquisition of nodes from
    peers are not modelled.  Of the views the metadata of transactions and the transaction
    types built on them are not modelled, of ledgers the setup of fees and rules, and of
    directories the iterator class [Dir].  Of Number roots and text, of amounts multiplication
    and text, and of objects JSON and text are left out. *)

From stdpp Require Export base gmap sets list option numbers sorting.
From Stdlib Require Export ZArith Lia Bool.

#[global] Open Scope Z_scope.

(** ** Machine integers

    A fixed-width integer is a [Z]; the width is written out by the wrapping
    functions at the points where the C++ arithmetic is performed. *)

Declare Scope xrpl_scope.
Delimit Scope xrpl_scope with xrpl.

Definition u32 (x : Z) : Z := x mod 2 ^ 32.
Definition u64 (x : Z) : Z := x mod 2 ^ 64.
(** Reinterpret an unsigned value as a signed one of the same width. *)
Definition i32 (x : Z) : Z :=
  let y := u32 x in if y <? 2 ^ 31 then y else y - 2 ^ 32.
Definition i64 (x : Z) : Z :=
  let y := u64 x in if y <? 2 ^ 63 then y else y - 2 ^ 64.

Notation "x +32 y" := (u32 (x + y)) (at level 50, left associativity) : xrpl_scope.
Notation "x -32 y" := (u32 (x - y)) (at level 50, left associativity) : xrpl_scope.
Notation "x +64 y" := (u64 (x + y)) (at level 50, left associativity) : xrpl_scope.
#[global] Open Scope xrpl_scope.

Create HintDb xrpl discriminated.

(** Reflect boolean tests of the code into propositions. *)
Ltac breflect :=
  repeat match goal with
  | H : _ && _ = true |- _ => apply andb_true_iff in H as [? ?]
  | H : _ || _ = false |- _ => apply orb_false_iff in H as [? ?]
  | H : negb _ = true |- _ => apply negb_true_iff in H
  | H : negb _ = false |- _ => apply negb_false_iff in H
  | H : (_ <? _) = true |- _ => apply Z.ltb_lt in H
  | H : (_ <? _) = false |- _ => apply Z.ltb_ge in H
  | H : (_ <=? _) = true |- _ => apply Z.leb_le in H
  | H : (_ <=? _) = false |- _ => apply Z.leb_gt in H
  | H : (_ =? _) = true |- _ => apply Z.eqb_eq in H
  | H : (_ =? _) = false |- _ => apply Z.eqb_neq in H
  | H : bool_decide _ = true |- _ => apply bool_decide_eq_true in H
  | H : bool_decide _ = false |- _ => apply bool_decide_eq_false in H
  end.

(** Split on every boolean scrutinee of the goal, reflecting the tests. *)
Ltac bcase :=
  repeat match goal with
  | |- context [if ?b then _ else _] => destruct b eqn:?
  end; breflect.

Lemma u32_id x : 0 <= x < 2 ^ 32 -> u32 x = x.
Proof. intros. unfold u32. by rewrite Z.mod_small. Qed.

Lemma u64_id x : 0 <= x < 2 ^ 64 -> u64 x = x.
Proof. intros. unfold u64. by rewrite Z.mod_small. Qed.

Lemma u32_range x : 0 <= u32 x < 2 ^ 32.
Proof. unfold u32. apply Z.mod_pos_bound. lia. Qed.

Lemma u64_range x : 0 <= u64 x < 2 ^ 64.
Proof. unfold u64. apply Z.mod_pos_bound. lia. Qed.

Lemma i64_id x : - 2 ^ 63 <= x < 2 ^ 63 -> i64 x = x.
Proof.
  intros [Hlo Hhi]. unfold i64, u64. destruct (Z.ltb_spec (x mod 2 ^ 64) (2 ^ 63)) as [H|H];
    destruct (Z.lt_ge_cases x 0).
  - rewrite <-(Z.mod_add x 1 (2 ^ 64)) in H by lia. rewrite Z.mod_small in H; lia.
  - apply Z.mod_small; lia.
  - rewrite <-(Z.mod_add x 1 (2 ^ 64)) by lia. rewrite Z.mod_small; lia.
  - rewrite Z.mod_small in H; lia.
Qed.

#[export] Hint Resolve u32_id u64_id i64_id u32_range u64_range : xrpl.

(** ** Sums *)

Definition sumZ (l : list Z) : Z := foldr Z.add 0 l.

Lemma sumZ_app l k : sumZ (l ++ k) = sumZ l + sumZ k.
Proof. unfold sumZ. induction l; simpl in *; lia. Qed.

Lemma sumZ_perm l k : l ≡ₚ k -> sumZ l = sumZ k.
Proof. unfold sumZ. induction 1; simpl in *; lia. Qed.

Lemma sumZ_nonneg l : Forall (fun x => 0 <= x) l -> 0 <= sumZ l.
Proof. unfold sumZ. induction 1; simpl in *; lia. Qed.

#[export] Instance sumZ_proper : Proper ((≡ₚ) ==> (=)) sumZ.
Proof. intros ???. by apply sumZ_perm. Qed.

(** ** Ordered maps

    A [std::map] keyed by integers is a [gmap]; iterating it visits the entries in
    key order. *)

Definition keyLe {A} (x y : Z * A) : Prop := x.1 <= y.1.

#[export] Instance keyLe_dec {A} (x y : Z * A) : Decision (keyLe x y).
Proof. unfold keyLe. apply _. Defined.
#[export] Instance keyLe_total {A} : Total (@keyLe A).
Proof. intros x y. unfold keyLe. lia. Qed.
#[export] Instance keyLe_trans {A} : Transitive (@keyLe A).
Proof. intros x y z. unfold keyLe. lia. Qed.

Definition sortedEntries {A} (m : gmap Z A) : list (Z * A) := merge_sort keyLe (map_to_list m).

Lemma sortedEntries_perm {A} (m : gmap Z A) : sortedEntries m ≡ₚ map_to_list m.
Proof. apply merge_sort_Permutation. Qed.

Lemma sortedEntries_sorted {A} (m : gmap Z A) : StronglySorted keyLe (sortedEntries m).
Proof. apply (StronglySorted_merge_sort keyLe). Qed.

Lemma elem_of_sortedEntries {A} (m : gmap Z A) k x :
  (k, x) ∈ sortedEntries m <-> m !! k = Some x.
Proof. rewrite sortedEntries_perm. apply elem_of_map_to_list. Qed.

Lemma forallb_seqZ (f : Z -> bool) m n x :
  forallb f (seqZ m n) = true -> m <= x < m + n -> f x = true.
Proof. rewrite forallb_forall. intros Hf Hx. apply Hf, list_elem_of_In, elem_of_seqZ. done. Qed.

(** ** Big-endian bytes *)

(** The [n] low-order bytes of [x], most significant first. *)
Fixpoint beBytes (n : nat) (x : Z) : list Z :=
  match n with
  | O => []
  | S k => (Z.shiftr x (8 * Z.of_nat k)) mod 256 :: beBytes k x
  end.

Fixpoint beValue (l : list Z) : Z :=
  match l with
  | [] => 0
  | b :: l' => b * 2 ^ (8 * Z.of_nat (length l')) + beValue l'
  end.

Lemma length_beBytes n x : length (beBytes n x) = n.
Proof. induction n; simpl; auto. Qed.

Lemma beValue_beBytes n x : beValue (beBytes n x) = x mod 2 ^ (8 * Z.of_nat n).
Proof.
  induction n as [|n IH]; cbn [beBytes beValue]; [by rewrite Z.mod_1_r|].
  rewrite IH, length_beBytes, Z.shiftr_div_pow2 by lia.
  replace (8 * Z.of_nat (S n)) with (8 * Z.of_nat n + 8) by lia.
  rewrite Z.pow_add_r by lia. change (2 ^ 8) with 256.
  rewrite Z.rem_mul_r by lia. lia.
Qed.

Lemma beBytes_inj n x y :
  0 <= x < 2 ^ (8 * Z.of_nat n) -> 0 <= y < 2 ^ (8 * Z.of_nat n) ->
  beBytes n x = beBytes n y -> x = y.
Proof.
  intros Hx Hy E%(f_equal beValue). rewrite !beValue_beBytes in E.
  by rewrite !Z.mod_small in E.
Qed.

(** ** Lists *)

Lemma filter_ext_in {A} (P Q : A -> Prop) `{!forall x, Decision (P x), !forall x, Decision (Q x)} (l : list A) :
  (forall x, x ∈ l -> P x <-> Q x) -> filter P l = filter Q l.
Proof.
  induction l as [|x l IH]; intros Hl; [done|]. rewrite !filter_cons.
  rewrite IH by (intros; apply Hl; by right).
  pose proof (Hl x (list_elem_of_here _ _)). repeat case_decide; tauto.
Qed.

Lemma sumZ_map_ext {A} (f g : A -> Z) l :
  (forall x, x ∈ l -> f x = g x) -> sumZ (map f l) = sumZ (map g l).
Proof.
  induction l as [|x l IH]; intros E; [done|]. cbn.
  rewrite E by apply list_elem_of_here. unfold sumZ in IH. rewrite IH; [done|].
  intros; apply E; by right.
Qed.

Lemma sumZ_map_zero {A} (f : A -> Z) l : (forall x, x ∈ l -> f x = 0) -> sumZ (map f l) = 0.
Proof.
  intros E. rewrite (sumZ_map_ext f (fun _ => 0)) by done. clear E.
  induction l; cbn in *; [done|]. unfold sumZ in IHl. lia.
Qed.

(** Only the entry at [i] contributes. *)
Lemma sumZ_map_single {A} (f : A -> Z) (l : list A) i x :
  l !! i = Some x -> (forall j y, l !! j = Some y -> j <> i -> f y = 0) ->
  sumZ (map f l) = f x.
Proof.
  intros Hi Hz. rewrite <-(take_drop_middle l i x Hi), map_app, sumZ_app. cbn.
  fold (sumZ (map f (drop (S i) l))).
  rewrite !sumZ_map_zero; [lia| |].
  - intros y [j Hj]%list_elem_of_lookup. rewrite lookup_drop in Hj. eapply Hz; [exact Hj|lia].
  - intros y [j Hj]%list_elem_of_lookup. apply lookup_take_Some in Hj as [Hj ?].
    eapply Hz; [exact Hj|lia].
Qed.

(** Updating an entry changes the sum by the difference. *)
Lemma sumZ_map_insert {A} (f : A -> Z) (l : list A) i x y :
  l !! i = Some x -> sumZ (map f (<[i := y]> l)) = sumZ (map f l) - f x + f y.
Proof.
  intros Hi. pose proof (lookup_lt_Some l i x Hi).
  rewrite <-(take_drop_middle l i x Hi) at 2.
  rewrite (insert_take_drop l i y) by done. rewrite !map_app, !sumZ_app. cbn. lia.
Qed.

Lemma list_alter_lookup {A} (f : A -> A) (l : list A) i x :
  l !! i = Some x -> alter f i l = <[i := f x]> l.
Proof. intros Hi. rewrite list_insert_alter. apply list_alter_ext; [|done]. naive_solver. Qed.

(** A term of a sum of non-negative terms. *)
Lemma sumZ_map_elem {A} (f : A -> Z) l x :
  Forall (fun y => 0 <= f y) l -> x ∈ l -> f x <= sumZ (map f l).
Proof.
  intros Hall. induction Hall as [|y l Hy Hall IH]; [by intros ?%elem_of_nil|].
  assert (0 <= sumZ (map f l)) by (by apply sumZ_nonneg, Forall_map).
  intros [->|Hx]%elem_of_cons; cbn; [|specialize (IH Hx)]; unfold sumZ in *; lia.
Qed.

Lemma list_delete_insert_same {A} (l : list A) i x : delete i (<[i := x]> l) = delete i l.
Proof. revert i. induction l as [|y l IH]; intros [|i]; cbn; [done..|]. by rewrite IH. Qed.

(** ** Left folds *)

(** An invariant along a left fold. *)
Lemma foldl_ind_in {A B} (P : A -> Prop) (f : A -> B -> A) l a :
  (forall a x, P a -> x ∈ l -> P (f a x)) -> P a -> P (foldl f a l).
Proof.
  revert a. induction l as [|x l IH]; intros a Hf Ha; [done|]. cbn. apply IH.
  - intros b y Hb Hy. apply Hf; [done|]. by right.
  - apply Hf; [done|]. apply list_elem_of_here.
Qed.

(** An invariant indexed by what has been processed. *)
Lemma foldl_prefix {A B} (P : list B -> A -> Prop) (f : A -> B -> A) l a :
  (forall pre x a, x ∈ l -> P pre a -> P (pre ++ [x]) (f a x)) -> P [] a -> P l (foldl f a l).
Proof.
  intros Hf Ha. cut (forall pre a, P pre a -> P (pre ++ l) (foldl f a l)); [intros Hc; by apply (Hc [])|].
  clear Ha a. induction l as [|x l IH]; intros pre a Ha; cbn; [by rewrite app_nil_r|].
  specialize (IH ltac:(intros; apply Hf; [by right|done]) (pre ++ [x])).
  rewrite <-app_assoc in IH. apply IH. apply Hf; [apply list_elem_of_here|done].
Qed.

(** The same, with the rest of the list. *)
Lemma foldl_split {A B} (P : list B -> A -> Prop) (f : A -> B -> A) l a :
  (forall pre x post a, l = pre ++ x :: post -> P pre a -> P (pre ++ [x]) (f a x)) ->
  P [] a -> P l (foldl f a l).
Proof.
  intros Hf Ha.
  cut (forall pre post a, l = pre ++ post -> P pre a -> P l (foldl f a post)); [intros Hc; by apply (Hc [])|].
  clear Ha a. intros pre post. revert pre. induction post as [|x post IH]; intros pre a Hl Ha; cbn.
  - by rewrite Hl, app_nil_r.
  - apply (IH (pre ++ [x])); [by rewrite <-app_assoc|]. by eapply Hf.
Qed.
