(* ===== verification/Parms.v ===== *)
(** * Consensus parameters and the avalanche state machine

    [ConsensusParms] and [getNeededWeight] of
    include/xrpl/consensus/ConsensusParms.h.  Durations are kept in the unit of
    their C++ type: [std::chrono::seconds] fields in seconds, the
    [std::chrono::milliseconds] ones in milliseconds. *)
From S2P Require Import Prelude.

(** ** Data *)

Inductive AvalancheState := Init | Mid | Late | Stuck.

#[export] Instance AvalancheState_eq_dec : EqDecision AvalancheState.
Proof. solve_decision. Defined.

Record AvalancheCutoff := mkCutoff {
  consensusTime : Z;
  consensusPct : Z;
  next : AvalancheState
}.

(** [avalancheCutoffs] is a [std::map] literal with an entry for each of the four
    states, so [at] is a total function. *)
Record ConsensusParms := mkConsensusParms {
  validationValidWall : Z;
  validationValidLocal : Z;
  validationValidEarly : Z;
  proposeFRESHNESS : Z;
  proposeINTERVAL : Z;
  minConsensusPct : Z;
  ledgerIdleInterval : Z;
  ledgerMinConsensus : Z;
  ledgerMaxConsensus : Z;
  ledgerMinClose : Z;
  ledgerGRANULARITY : Z;
  ledgerAbandonConsensusFactor : Z;
  ledgerAbandonConsensus : Z;
  avMinConsensusTime : Z;
  avalancheCutoffs : AvalancheState -> AvalancheCutoff;
  avCtConsensusPct : Z;
  avMinRounds : Z;
  avStalledRounds : Z
}.

Definition defaultCutoffs (s : AvalancheState) : AvalancheCutoff :=
  match s with
  | Init => mkCutoff 0 50 Mid
  | Mid => mkCutoff 50 65 Late
  | Late => mkCutoff 85 70 Stuck
  | Stuck => mkCutoff 200 95 Stuck
  end.

(** The default member initialisers: the only [ConsensusParms] value the server
    constructs. *)
Definition defaultParms : ConsensusParms := {|
  validationValidWall := 5 * 60;
  validationValidLocal := 3 * 60;
  validationValidEarly := 3 * 60;
  proposeFRESHNESS := 20;
  proposeINTERVAL := 12;
  minConsensusPct := 80;
  ledgerIdleInterval := 15000;
  ledgerMinConsensus := 1950;
  ledgerMaxConsensus := 15000;
  ledgerMinClose := 2000;
  ledgerGRANULARITY := 1000;
  ledgerAbandonConsensusFactor := 10;
  ledgerAbandonConsensus := 120000;
  avMinConsensusTime := 5000;
  avalancheCutoffs := defaultCutoffs;
  avCtConsensusPct := 75;
  avMinRounds := 2;
  avStalledRounds := 4
|}.

(** ** Operations *)

Definition getNeededWeight (p : ConsensusParms) (currentState : AvalancheState)
    (percentTime currentRounds minimumRounds : Z) : Z * option AvalancheState :=
  let currentCutoff := avalancheCutoffs p currentState in
  if negb (bool_decide (next currentCutoff = currentState))
     && (minimumRounds <=? currentRounds)
  then
    let nextCutoff := avalancheCutoffs p (next currentCutoff) in
    if consensusTime nextCutoff <=? percentTime
    then (consensusPct nextCutoff, Some (next currentCutoff))
    else (consensusPct currentCutoff, None)
  else (consensusPct currentCutoff, None).

(** ** Facts shared by the clients of the state machine *)

(** The state reached after a call: the new state, or the current one. *)
Definition stateAfter (p : ConsensusParms) (s : AvalancheState)
    (percentTime rounds minRounds : Z) : AvalancheState :=
  default s (getNeededWeight p s percentTime rounds minRounds).2.

(** The percentage returned is that of the state reached. *)
Lemma getNeededWeight_pct p s t r m :
  (getNeededWeight p s t r m).1 = consensusPct (avalancheCutoffs p (stateAfter p s t r m)).
Proof. unfold stateAfter, getNeededWeight. by bcase. Qed.

Lemma getNeededWeight_some p s t r m s' :
  (getNeededWeight p s t r m).2 = Some s' ->
  s' = next (avalancheCutoffs p s) /\ s' <> s /\ m <= r /\
  consensusTime (avalancheCutoffs p s') <= t.
Proof.
  unfold getNeededWeight. bcase; intros; simplify_eq/=. auto.
Qed.

Definition avRank (s : AvalancheState) : Z :=
  match s with Init => 0 | Mid => 1 | Late => 2 | Stuck => 3 end.

(** With the built-in cutoffs a call advances by at most one state, never goes
    back, and never lowers the required percentage. *)
Lemma stateAfter_rank s t r m :
  avRank s <= avRank (stateAfter defaultParms s t r m) <= avRank s + 1.
Proof.
  unfold stateAfter, getNeededWeight; destruct s; simpl; bcase; simpl; lia.
Qed.

Lemma defaultCutoffs_mono s s' :
  avRank s <= avRank s' ->
  consensusPct (defaultCutoffs s) <= consensusPct (defaultCutoffs s') /\
  consensusTime (defaultCutoffs s) <= consensusTime (defaultCutoffs s').
Proof. destruct s, s'; simpl; lia. Qed.

#[export] Hint Resolve stateAfter_rank defaultCutoffs_mono : xrpl.
