(* ===== verification/Timing.v ===== *)
(** * Ledger close times

    include/xrpl/ledger/LedgerTiming.h.  A [NetClock] time point or duration is a
    32-bit unsigned number of seconds; the arithmetic wraps at that width where
    the C++ stores its result in a [NetClock] type. *)
From S2P Require Import Prelude.

(** ** Data *)

Definition kLedgerPossibleTimeResolutions : list Z := [10; 20; 30; 60; 90; 120].

Definition kLedgerDefaultTimeResolution : Z := 30.
Definition kLedgerGenesisTimeResolution : Z := 10.
Definition kIncreaseLedgerTimeResolutionEvery : Z := 8.
Definition kDecreaseLedgerTimeResolutionEvery : Z := 1.

(** ** Operations *)

(** [std::find] over an array: the index of the first match, or the length
    ([std::end]) when there is none. *)
Fixpoint findIndex (l : list Z) (x : Z) : nat :=
  match l with
  | [] => 0
  | y :: l' => if y =? x then 0%nat else S (findIndex l' x)
  end.

(** The iterator [iter] is the index of the resolution in the array.  In the last
    branch [iter--] is compared before it is decremented, and the value returned
    is the one before [iter]. *)
Definition getNextLedgerTimeResolution
    (previousResolution : Z) (previousAgree : bool) (ledgerSeq : Z) : Z :=
  let l := kLedgerPossibleTimeResolutions in
  let iter := findIndex l previousResolution in
  if (iter =? length l)%nat then previousResolution
  else if negb previousAgree && (ledgerSeq mod kDecreaseLedgerTimeResolutionEvery =? 0)
          && negb (S iter =? length l)%nat
  then default previousResolution (l !! S iter)
  else if previousAgree && (ledgerSeq mod kIncreaseLedgerTimeResolutionEvery =? 0)
          && negb (iter =? 0)%nat
  then default previousResolution (l !! pred iter)
  else previousResolution.

Definition roundCloseTime (closeTime closeResolution : Z) : Z :=
  if closeTime =? 0 then closeTime
  else
    let closeTime := closeTime +32 (closeResolution / 2) in
    closeTime -32 (closeTime mod closeResolution).

Definition effCloseTime (closeTime resolution priorCloseTime : Z) : Z :=
  if closeTime =? 0 then closeTime
  else Z.max (roundCloseTime closeTime resolution) (priorCloseTime +32 1).

(** ** Theorems *)

(** Being one of the six bins the protocol allows. *)
Definition validResolution (r : Z) : Prop := r ∈ kLedgerPossibleTimeResolutions.

Lemma validResolution_cases r :
  validResolution r -> r = 10 \/ r = 20 \/ r = 30 \/ r = 60 \/ r = 90 \/ r = 120.
Proof. unfold validResolution, kLedgerPossibleTimeResolutions. rewrite !elem_of_cons, elem_of_nil. tauto. Qed.

Lemma validResolution_pos r : validResolution r -> 10 <= r <= 120.
Proof. intros []%validResolution_cases; lia. Qed.

(** The resolution bins are closed under the adjustment: from an allowed bin
    the next resolution is an allowed bin; disagreement on the previous close time
    never makes the resolution finer, agreement never makes it coarser, and without
    disagreement or an eighth ledger the resolution is kept. *)
Theorem nextResolution_correct r agree seq :
  validResolution r ->
  let r' := getNextLedgerTimeResolution r agree seq in
  validResolution r' /\
  (agree = false -> r <= r' /\ (r < 120 -> r < r')) /\
  (agree = true -> r' <= r /\ (seq mod 8 <> 0 -> r' = r) /\ (seq mod 8 = 0 -> 10 < r -> r' < r)).
Proof.
  intros Hr. unfold getNextLedgerTimeResolution, kDecreaseLedgerTimeResolutionEvery,
    kIncreaseLedgerTimeResolutionEvery. rewrite Z.mod_1_r.
  destruct agree; destruct (Z.eqb_spec (seq mod 8) 0);
  destruct (validResolution_cases r Hr) as [->|[->|[->|[->|[->| ->]]]]]; vm_compute findIndex;
  (split; [apply (bool_decide_unpack _); vm_compute; exact I | simpl; split; intros; lia || congruence]).
Qed.

Lemma nextResolution_correct_witness :
  validResolution 30 /\ getNextLedgerTimeResolution 30 false 7 = 60 /\ 30 < 60.
Proof.
  assert (Hv : validResolution 30) by (apply (bool_decide_unpack _); vm_compute; exact I).
  split; [exact Hv|]. split; [reflexivity|].
  exact (proj2 (proj1 (proj2 (nextResolution_correct 30 false 7 Hv)) eq_refl) eq_refl).
Defined.

Lemma roundCloseTime_eq t r :
  0 < t -> 0 < r -> t + r / 2 < 2 ^ 32 ->
  roundCloseTime t r = r * ((t + r / 2) / r).
Proof.
  intros Ht Hr Hb. unfold roundCloseTime.
  destruct (Z.eqb_spec t 0); [lia|].
  assert (0 <= r / 2) by (apply Z.div_pos; lia).
  rewrite (u32_id (t + r / 2)) by lia.
  pose proof (Z.mod_pos_bound (t + r / 2) r Hr).
  pose proof (Z.mod_le (t + r / 2) r).
  rewrite u32_id by lia. rewrite Z.mod_eq; lia.
Qed.

(** [roundCloseTime] rounds to the nearest multiple of the resolution, ties
    upwards, for every time whose rounding does not leave the 32-bit range. *)
Theorem roundCloseTime_nearest t r :
  0 < t -> 0 < r -> t + r / 2 < 2 ^ 32 ->
  (r | roundCloseTime t r) /\
  (forall m, (r | m) -> Z.abs (t - roundCloseTime t r) <= Z.abs (t - m)) /\
  (forall m, (r | m) -> Z.abs (t - roundCloseTime t r) = Z.abs (t - m) -> m <= roundCloseTime t r).
Proof.
  intros Ht Hr Hb. rewrite roundCloseTime_eq by done.
  set (q := (t + r / 2) / r).
  assert (Hq : r * q <= t + r / 2 < r * q + r).
  { unfold q. pose proof (Z.mod_pos_bound (t + r / 2) r Hr).
    pose proof (Z.div_mod (t + r / 2) r). lia. }
  assert (Hh : 2 * (r / 2) <= r <= 2 * (r / 2) + 1).
  { pose proof (Z.mod_pos_bound r 2). pose proof (Z.div_mod r 2). lia. }
  split; [by exists q; lia|].
  split; intros m [k ->]; destruct (Z.lt_trichotomy k q) as [?|[->|?]]; try nia.
Qed.

Lemma roundCloseTime_nearest_witness :
  roundCloseTime 715 30 = 720 /\ (30 | roundCloseTime 715 30).
Proof.
  split; [reflexivity|].
  exact (proj1 (roundCloseTime_nearest 715 30 eq_refl eq_refl eq_refl)).
Defined.

(** The effective close time of a ledger with a close time is strictly later
    than its parent's, so close times increase along a chain. *)
Theorem effCloseTime_increasing t r prior :
  t <> 0 -> 0 <= prior < 2 ^ 32 - 1 -> prior < effCloseTime t r prior.
Proof.
  intros Ht Hp. unfold effCloseTime. destruct (Z.eqb_spec t 0); [lia|].
  rewrite u32_id by lia. lia.
Qed.

Lemma effCloseTime_increasing_witness : 1000 < effCloseTime 700 30 1000.
Proof. apply (effCloseTime_increasing 700 30 1000); lia. Defined.
