(* ===== verification/Decisions.v ===== *)
(** * The decision functions of consensus

    src/libxrpl/consensus/Consensus.cpp: when to close the open ledger, and
    whether the establish phase has reached consensus.  [std::size_t] counts wrap
    at 64 bits; durations are signed milliseconds ([Z], with the truncating
    division of C++ written [Z.quot]).  Logging is omitted. *)
From S2P Require Import Prelude Parms.

(** ** Data *)

Inductive ConsensusState := No | MovedOn | Expired | Yes.

#[export] Instance ConsensusState_eq_dec : EqDecision ConsensusState.
Proof. solve_decision. Defined.

(** ** Operations *)

Definition shouldCloseLedger (anyTransactions : bool)
    (prevProposers proposersClosed proposersValidated : Z)
    (prevRoundTime timeSincePrevClose openTime idleInterval : Z)
    (parms : ConsensusParms) : bool :=
  if (prevRoundTime <? -1000) || (600000 <? prevRoundTime) || (600000 <? timeSincePrevClose)
  then true
  else if (prevProposers / 2) <? (proposersClosed +64 proposersValidated)
  then true
  else if negb anyTransactions
  then idleInterval <=? timeSincePrevClose
  else if openTime <? ledgerMinClose parms
  then false
  else if openTime <? Z.quot prevRoundTime 2
  then false
  else true.

Definition checkConsensusReached (agreeing total : Z) (countSelf : bool)
    (minConsensusPct : Z) (reachedMax stalled : bool) : bool :=
  if total =? 0 then reachedMax
  else if stalled then true
  else
    let '(agreeing, total) :=
      if countSelf then (agreeing +64 1, total +64 1) else (agreeing, total) in
    let currentPercentage := u64 (agreeing * 100) / total in
    minConsensusPct <=? currentPercentage.

(** [std::clamp] *)
Definition clamp (v lo hi : Z) : Z :=
  if v <? lo then lo else if hi <? v then hi else v.

(** [previousAgreeTime * ledgerAbandonConsensusFactor] multiplies a signed
    duration by a [std::size_t]: the product is computed in the unsigned 64-bit
    common type and converted back to [milliseconds]. *)
Definition checkConsensus (prevProposers currentProposers currentAgree currentFinished : Z)
    (previousAgreeTime currentAgreeTime : Z) (stalled : bool)
    (parms : ConsensusParms) (proposing : bool) : ConsensusState :=
  if currentAgreeTime <=? ledgerMinConsensus parms then No
  else if (currentProposers <? u64 (prevProposers * 3) / 4)
          && (currentAgreeTime <? previousAgreeTime + ledgerMinConsensus parms)
  then No
  else if checkConsensusReached currentAgree currentProposers proposing (minConsensusPct parms)
            (ledgerMaxConsensus parms <? currentAgreeTime) stalled
  then Yes
  else if checkConsensusReached currentFinished currentProposers false (minConsensusPct parms)
            (ledgerMaxConsensus parms <? currentAgreeTime) false
  then MovedOn
  else
    let maxAgreeTime := i64 (previousAgreeTime * ledgerAbandonConsensusFactor parms) in
    if clamp maxAgreeTime (ledgerMaxConsensus parms) (ledgerAbandonConsensus parms)
         <? currentAgreeTime
    then Expired
    else No.

(** ** Theorems *)

(** Participants counted, ourselves included when [countSelf]. *)
Definition withSelf (countSelf : bool) (n : Z) : Z := n + (if countSelf then 1 else 0).

(** Counts of validators are far below the width of [std::size_t]. *)
Definition smallCount (n : Z) : Prop := 0 <= n < 2 ^ 56.

(** With someone else proposing and no stall, the percentage test is exactly the
    comparison of the cross products: no vote is lost to the rounding division. *)
Lemma checkConsensusReached_exact agreeing total countSelf pct reachedMax :
  smallCount agreeing -> smallCount total -> total <> 0 ->
  checkConsensusReached agreeing total countSelf pct reachedMax false = true <->
  pct * withSelf countSelf total <= 100 * withSelf countSelf agreeing.
Proof.
  unfold smallCount, withSelf, checkConsensusReached. intros Ha Ht Hn.
  destruct (Z.eqb_spec total 0); [done|].
  assert (Hdiv : forall a t, 0 < t -> pct <= a * 100 / t <-> pct * t <= 100 * a).
  { intros a t Hpos. split; intros H.
    - pose proof (Z.mul_div_le (a * 100) t Hpos). nia.
    - apply Z.div_le_lower_bound; lia. }
  destruct countSelf; rewrite ?(u64_id (_ + 1)), u64_id by lia;
    rewrite Z.leb_le, Hdiv by lia; by rewrite ?Z.add_0_r.
Qed.

(** Two disjoint groups of participants cannot both be a consensus majority:
    agreement on two different positions is never declared from one view of the
    proposers. *)
Lemma majorities_intersect a1 a2 total countSelf r1 r2 :
  smallCount a1 -> smallCount a2 -> smallCount total -> total <> 0 ->
  withSelf countSelf a1 + withSelf countSelf a2 <= withSelf countSelf total ->
  checkConsensusReached a1 total countSelf (minConsensusPct defaultParms) r1 false = true ->
  checkConsensusReached a2 total countSelf (minConsensusPct defaultParms) r2 false = true ->
  False.
Proof.
  intros H1 H2 H3 Hn Hle C1%checkConsensusReached_exact C2%checkConsensusReached_exact; auto.
  unfold withSelf, smallCount in *. simpl in *. destruct countSelf; lia.
Qed.

(** C35: with proposers present and no stall, [checkConsensus] answers [Yes] only
    with an 80% supermajority of the participants behind our position, so two
    positions with disjoint supporters are never both declared from one view. *)
Theorem checkConsensus_yes_supermajority
    prevProposers total agree1 agree2 fin1 fin2 prevT curT proposing :
  smallCount total -> smallCount agree1 -> smallCount agree2 -> total <> 0 ->
  checkConsensus prevProposers total agree1 fin1 prevT curT false defaultParms proposing = Yes ->
  80 * withSelf proposing total <= 100 * withSelf proposing agree1 /\
  (withSelf proposing agree1 + withSelf proposing agree2 <= withSelf proposing total ->
   checkConsensus prevProposers total agree2 fin2 prevT curT false defaultParms proposing <> Yes).
Proof.
  intros Ht H1 H2 Hn. unfold checkConsensus.
  destruct (_ <=? _) eqn:?; [done|]. destruct (_ && _) eqn:?; [done|].
  destruct (checkConsensusReached agree1 _ _ _ _ _) eqn:E1; [|bcase; discriminate].
  intros _. split; [by apply checkConsensusReached_exact in E1|].
  intros Hdis. destruct (checkConsensusReached agree2 _ _ _ _ _) eqn:E2.
  - by destruct (majorities_intersect _ _ _ _ _ _ H1 H2 Ht Hn Hdis E1 E2).
  - bcase; discriminate.
Qed.

Lemma checkConsensus_yes_supermajority_witness :
  checkConsensus 5 9 8 0 3000 2500 false defaultParms true = Yes /\
  80 * withSelf true 9 <= 100 * withSelf true 8.
Proof.
  split; [reflexivity|].
  apply (checkConsensus_yes_supermajority 5 9 8 0 0 0 3000 2500 true);
    unfold smallCount; lia || reflexivity.
Defined.

Lemma clamp_max_min v lo hi : lo <= hi -> clamp v lo hi = Z.max lo (Z.min v hi).
Proof. unfold clamp. intros. bcase; lia. Qed.

(** Having waited longer only helps: a failed test also fails with [reachedMax]
    when somebody is proposing. *)
Lemma checkConsensusReached_max agreeing total countSelf pct r stalled :
  total <> 0 ->
  checkConsensusReached agreeing total countSelf pct r stalled =
  checkConsensusReached agreeing total countSelf pct true stalled.
Proof. unfold checkConsensusReached. by destruct (Z.eqb_spec total 0). Qed.

(** Past the abandon limit the answer is definite. *)
Lemma checkConsensus_late prevProposers total agree fin prevT curT stalled proposing :
  0 <= prevT < 2 ^ 58 -> 120000 < curT -> prevT + 1950 <= curT ->
  checkConsensus prevProposers total agree fin prevT curT stalled defaultParms proposing <> No.
Proof.
  intros Hp H1 H2. unfold checkConsensus. rewrite clamp_max_min by (simpl; lia).
  simpl ledgerAbandonConsensusFactor. rewrite i64_id by lia. simpl. bcase; try done; lia.
Qed.

(** An establish phase cannot stay undecided for ever: once the round has run
    past the abandon limit (and, when too few proposers returned, past the previous
    round's time), the answer is never [No]; and [Expired] is never given before
    the 15 second limit, nor while the supermajority agrees. *)
Theorem checkConsensus_time_limits
    prevProposers total agree fin prevT curT stalled proposing :
  0 <= prevT < 2 ^ 58 ->
  let r := checkConsensus prevProposers total agree fin prevT curT stalled defaultParms proposing in
  (120000 < curT -> prevT + 1950 <= curT -> r <> No) /\
  (r = Expired -> 15000 < curT /\ Z.min 120000 (10 * prevT) < curT /\
     checkConsensusReached agree total proposing 80 true stalled = false).
Proof.
  intros Hp r. split; [intros; by apply checkConsensus_late|]. subst r. unfold checkConsensus.
  rewrite clamp_max_min by (simpl; lia).
  simpl ledgerAbandonConsensusFactor. rewrite i64_id by lia. simpl.
  bcase; try done; intros _; (split; [lia|]; split; [lia|]).
  all: destruct (Z.eq_dec total 0) as [->|Hn];
    [unfold checkConsensusReached in *; simpl in *; breflect; lia|].
  all: erewrite <-checkConsensusReached_max; eassumption.
Qed.

Lemma checkConsensus_time_limits_witness :
  checkConsensus 10 10 5 0 3000 120001 false defaultParms true = Expired /\ 15000 < 120001.
Proof.
  split; [reflexivity|].
  refine (proj1 (proj2 (checkConsensus_time_limits 10 10 5 0 3000 120001 false true _) eq_refl)).
  lia.
Defined.

(** The decision in the ordinary range of times. *)
Lemma shouldCloseLedger_iff anyTx prevP closed validated prevRound since opent idle parms :
  -1000 <= prevRound <= 600000 -> since <= 600000 ->
  smallCount closed -> smallCount validated ->
  shouldCloseLedger anyTx prevP closed validated prevRound since opent idle parms = true <->
  prevP / 2 < closed + validated \/
  (if anyTx then ledgerMinClose parms <= opent /\ Z.quot prevRound 2 <= opent
   else idle <= since).
Proof.
  unfold smallCount. intros H1 H2 H3 H4. unfold shouldCloseLedger.
  rewrite u64_id by lia.
  destruct (_ || _) eqn:E; breflect.
  { apply orb_true_iff in E as [E%orb_true_iff|E]; [destruct E|]; breflect; lia. }
  destruct anyTx; simpl; bcase; rewrite ?Z.leb_le; try (split; [done|lia]); try tauto; try lia.
Qed.

(** Closing is a stable decision: once the open ledger should close it should
    still close when time passes and more peers close or validate; so a ledger kept
    open by the rule is kept open only by the waiting times. *)
Theorem shouldCloseLedger_stable anyTx prevP closed validated prevRound since opent idle parms
    closed' validated' since' opent' :
  -1000 <= prevRound <= 600000 ->
  smallCount closed -> smallCount validated -> smallCount closed' -> smallCount validated' ->
  closed <= closed' -> validated <= validated' -> since <= since' -> opent <= opent' ->
  shouldCloseLedger anyTx prevP closed validated prevRound since opent idle parms = true ->
  shouldCloseLedger anyTx prevP closed' validated' prevRound since' opent' idle parms = true.
Proof.
  intros Hr Hc Hv Hc' Hv' L1 L2 L3 L4 Hclose.
  destruct (Z.le_gt_cases since' 600000) as [Hs|Hs].
  - apply shouldCloseLedger_iff; auto. apply shouldCloseLedger_iff in Hclose; auto; [|lia].
    destruct Hclose; [left; lia|right]. destruct anyTx; lia.
  - unfold shouldCloseLedger. destruct (Z.ltb_spec 600000 since'); [|lia].
    by rewrite orb_true_r.
Qed.

Lemma shouldCloseLedger_stable_witness :
  shouldCloseLedger true 4 0 0 4000 9000 2000 15000 defaultParms = true /\
  shouldCloseLedger true 4 0 1 4000 9500 2500 15000 defaultParms = true.
Proof.
  split; [reflexivity|].
  apply (shouldCloseLedger_stable true 4 0 0 4000 9000 2000 15000);
    unfold smallCount; lia || reflexivity.
Defined.
