(* ===== verification/Disputed.v ===== *)
(** * Disputed transactions

    The class template [DisputedTx] of include/xrpl/consensus/DisputedTx.h: one
    transaction on which the peers of a consensus round disagree, the peers' votes
    on it, and the avalanche rule by which our own vote follows theirs.

    [NodeId] and the transaction identifier are the integers of their hash types;
    [votes_] is a finite map.  The [int] tallies [yays_] and [nays_] are unbounded
    here: [dispute_wf] shows them equal to the number of votes in [votes_].  The
    [std::size_t] counters wrap at 64 bits.  Logging and [getJson] are omitted. *)
From S2P Require Import Prelude Parms.

(** ** Data *)

Record Tx := mkTx { tx_id : Z; tx_blob : Z }.

#[export] Instance Tx_eq_dec : EqDecision Tx.
Proof. solve_decision. Defined.

Record DisputedTx := mkDisputed {
  yays : Z;
  nays : Z;
  ourVote : bool;
  tx : Tx;
  votes : gmap Z bool;
  currentVoteCounter : Z;
  avalancheState : AvalancheState;
  avalancheCounter : Z
}.

(** ** Operations *)

(** The constructor. *)
Definition newDisputedTx (t : Tx) (ourVote : bool) : DisputedTx :=
  mkDisputed 0 0 ourVote t ∅ 0 Init 0.

Definition setTally (d : DisputedTx) (y n : Z) (v : gmap Z bool) : DisputedTx :=
  mkDisputed y n (ourVote d) (tx d) v (currentVoteCounter d) (avalancheState d) (avalancheCounter d).

(** [setVote] returns whether the peer changed its vote. *)
Definition setVote (d : DisputedTx) (peer : Z) (votesYes : bool) : bool * DisputedTx :=
  match votes d !! peer with
  | None =>
      let v := <[peer := votesYes]> (votes d) in
      if votesYes then (true, setTally d (yays d + 1) (nays d) v)
      else (true, setTally d (yays d) (nays d + 1) v)
  | Some second =>
      if votesYes && negb second
      then (true, setTally d (yays d + 1) (nays d - 1) (<[peer := true]> (votes d)))
      else if negb votesYes && second
      then (true, setTally d (yays d - 1) (nays d + 1) (<[peer := false]> (votes d)))
      else (false, d)
  end.

Definition unVote (d : DisputedTx) (peer : Z) : DisputedTx :=
  match votes d !! peer with
  | Some true => setTally d (yays d - 1) (nays d) (delete peer (votes d))
  | Some false => setTally d (yays d) (nays d - 1) (delete peer (votes d))
  | None => d
  end.

(** [weight > requiredPct] compares an [int] with a [std::size_t]: the weight is
    converted to the unsigned type. *)
Definition updateVote (d : DisputedTx) (percentTime : Z) (proposing : bool)
    (p : ConsensusParms) : bool * DisputedTx :=
  if ourVote d && (nays d =? 0) then (false, d)
  else if negb (ourVote d) && (yays d =? 0) then (false, d)
  else
    let counter := avalancheCounter d +64 1 in
    let '(requiredPct, newState) :=
      getNeededWeight p (avalancheState d) percentTime counter (avMinRounds p) in
    let '(state, counter) :=
      match newState with Some s => (s, 0) | None => (avalancheState d, counter) end in
    let newPosition :=
      if proposing then
        let weight := Z.quot (yays d * 100 + (if ourVote d then 100 else 0))
                             (nays d + yays d + 1) in
        requiredPct <? u64 weight
      else nays d <? yays d in
    if Bool.eqb newPosition (ourVote d)
    then (false, mkDisputed (yays d) (nays d) (ourVote d) (tx d) (votes d)
                   (currentVoteCounter d +64 1) state counter)
    else (true, mkDisputed (yays d) (nays d) newPosition (tx d) (votes d) 0 state counter).

(** [stalled]: [peersUnchanged] is an [int] and is compared with a [std::size_t]. *)
Definition stalled (d : DisputedTx) (p : ConsensusParms) (proposing : bool)
    (peersUnchanged : Z) : bool :=
  let currentCutoff := avalancheCutoffs p (avalancheState d) in
  let nextCutoff := avalancheCutoffs p (next currentCutoff) in
  if (consensusTime currentCutoff <? consensusTime nextCutoff)
     || (avalancheCounter d <? avMinRounds p)
  then false
  else if proposing && (currentVoteCounter d <? avMinRounds p)
  then false
  else if (u64 peersUnchanged <? avStalledRounds p)
          && (proposing && (currentVoteCounter d <? avStalledRounds p))
  then false
  else
    let support := (yays d + (if proposing && ourVote d then 1 else 0)) * 100 in
    let total := nays d + yays d + (if proposing then 1 else 0) in
    if total =? 0 then false
    else
      let weight := Z.quot support total in
      (minConsensusPct p <? u64 weight) || (u64 weight <? u64 (100 - minConsensusPct p)).

(** ** Well-formedness: the tallies count the recorded votes *)

Definition countVotes (b : bool) (v : gmap Z bool) : Z :=
  Z.of_nat (size (filter (fun kv : Z * bool => kv.2 = b) v)).

Definition dispute_wf (d : DisputedTx) : Prop :=
  yays d = countVotes true (votes d) /\ nays d = countVotes false (votes d).

Lemma countVotes_nonneg b v : 0 <= countVotes b v.
Proof. unfold countVotes. lia. Qed.

Lemma countVotes_empty b : countVotes b ∅ = 0.
Proof. unfold countVotes. by rewrite map_filter_empty, map_size_empty. Qed.

Lemma countVotes_insert_new b v k x :
  v !! k = None -> countVotes b (<[k := x]> v) = countVotes b v + (if Bool.eqb x b then 1 else 0).
Proof.
  intros Hk. unfold countVotes. destruct (Bool.eqb x b) eqn:E.
  - apply eqb_prop in E. rewrite map_filter_insert_True by done.
    rewrite map_size_insert_None; [lia|]. apply map_lookup_filter_None. by left.
  - apply eqb_false_iff in E. rewrite map_filter_insert_False by done.
    rewrite delete_id by done. lia.
Qed.

Lemma countVotes_delete b v k x :
  v !! k = Some x -> countVotes b (delete k v) = countVotes b v - (if Bool.eqb x b then 1 else 0).
Proof.
  intros Hk. rewrite <-(insert_delete_id v k x Hk) at 2.
  rewrite countVotes_insert_new by apply lookup_delete_eq. lia.
Qed.

Lemma countVotes_insert b v k x y :
  v !! k = Some y ->
  countVotes b (<[k := x]> v) =
  countVotes b v - (if Bool.eqb y b then 1 else 0) + (if Bool.eqb x b then 1 else 0).
Proof.
  intros Hk. rewrite <-(insert_delete_eq v k x).
  rewrite countVotes_insert_new, (countVotes_delete _ _ _ y) by (done || apply lookup_delete_eq). lia.
Qed.

Lemma newDisputedTx_wf t v : dispute_wf (newDisputedTx t v).
Proof. split; simpl; by rewrite countVotes_empty. Qed.

(** ** Functional behaviour of the votes *)

(** [setVote] records exactly the new vote and reports whether the recorded vote
    changed (a first vote counts as a change), touching nothing else. *)
Lemma setVote_spec d peer v :
  dispute_wf d ->
  let '(changed, d') := setVote d peer v in
  dispute_wf d' /\ votes d' = <[peer := v]> (votes d) /\
  (changed = true <-> votes d !! peer <> Some v) /\
  ourVote d' = ourVote d /\ tx d' = tx d /\ avalancheState d' = avalancheState d /\
  avalancheCounter d' = avalancheCounter d /\ currentVoteCounter d' = currentVoteCounter d.
Proof.
  intros [Hy Hn]. unfold setVote, dispute_wf.
  destruct (votes d !! peer) as [[]|] eqn:E; destruct v; simpl;
    rewrite ?Hy, ?Hn, ?(countVotes_insert_new _ _ _ _ E), ?(countVotes_insert _ _ _ _ _ E); simpl;
    rewrite ?insert_id by done; repeat split; simpl; try lia; try done; congruence.
Qed.

Lemma unVote_spec d peer :
  dispute_wf d ->
  dispute_wf (unVote d peer) /\ votes (unVote d peer) = delete peer (votes d) /\
  ourVote (unVote d peer) = ourVote d /\ tx (unVote d peer) = tx d.
Proof.
  intros [Hy Hn]. unfold unVote, dispute_wf.
  destruct (votes d !! peer) as [[]|] eqn:E; simpl;
    rewrite ?(countVotes_delete _ _ _ _ E), ?delete_id by done; simpl;
    repeat split; try done; lia.
Qed.

Lemma updateVote_votes d pt proposing p :
  let d' := (updateVote d pt proposing p).2 in
  yays d' = yays d /\ nays d' = nays d /\ votes d' = votes d /\ tx d' = tx d.
Proof.
  unfold updateVote. destruct (_ && _); [done|]. destruct (_ && _); [done|].
  destruct (getNeededWeight _ _ _ _ _) as [? []]; destruct (Bool.eqb _ _); done.
Qed.

Lemma updateVote_wf d pt proposing p :
  dispute_wf d -> dispute_wf (updateVote d pt proposing p).2.
Proof.
  unfold dispute_wf. destruct (updateVote_votes d pt proposing p) as (-> & -> & -> & _). done.
Qed.

(** [updateVote] reports exactly the changes of our vote. *)
Lemma updateVote_reports d pt proposing p :
  ((updateVote d pt proposing p).1 = true <->
   ourVote (updateVote d pt proposing p).2 <> ourVote d).
Proof.
  unfold updateVote. destruct (_ && _); [done|]. destruct (_ && _); [done|].
  destruct (getNeededWeight _ _ _ _ _) as [? []]; destruct (Bool.eqb _ _) eqn:E; simpl;
    try done; apply eqb_false_iff in E; done.
Qed.

(** ** The threshold of our vote *)

(** Whether a vote against ours has been recorded; without one [updateVote] returns
    at once. *)
Definition opposed (d : DisputedTx) : Prop :=
  if ourVote d then nays d <> 0 else yays d <> 0.

#[export] Instance opposed_dec d : Decision (opposed d).
Proof. unfold opposed. destruct (ourVote d); apply _. Defined.

Lemma updateVote_unopposed d pt proposing p :
  ~ opposed d -> updateVote d pt proposing p = (false, d).
Proof.
  unfold opposed, updateVote. destruct (ourVote d); simpl; intros.
  - by replace (nays d) with 0 by lia.
  - by replace (yays d) with 0 by lia.
Qed.

(** With opposition, the avalanche state and counter of the result. *)
Lemma updateVote_opposed d pt proposing p :
  opposed d ->
  let d' := (updateVote d pt proposing p).2 in
  let c := avalancheCounter d +64 1 in
  avalancheState d' = stateAfter p (avalancheState d) pt c (avMinRounds p) /\
  avalancheCounter d' =
    (if (getNeededWeight p (avalancheState d) pt c (avMinRounds p)).2 is Some _ then 0 else c) /\
  ourVote d' =
    (if proposing then
       consensusPct (avalancheCutoffs p (avalancheState d')) <?
       u64 (Z.quot (yays d * 100 + (if ourVote d then 100 else 0)) (nays d + yays d + 1))
     else nays d <? yays d).
Proof.
  intros Ho. unfold updateVote, opposed in *.
  destruct (ourVote d && (nays d =? 0)) eqn:E1; breflect.
  { rewrite H in Ho. lia. }
  destruct (negb (ourVote d) && (yays d =? 0)) eqn:E2; breflect.
  { rewrite H in Ho. lia. }
  pose proof (getNeededWeight_pct p (avalancheState d) pt (avalancheCounter d +64 1) (avMinRounds p)) as Hp.
  unfold stateAfter in *.
  destruct (getNeededWeight p (avalancheState d) pt (avalancheCounter d +64 1) (avMinRounds p)) as [pct ns].
  simpl in Hp. subst pct.
  destruct ns; destruct proposing; destruct (Bool.eqb _ _) eqn:E; simpl;
    repeat split; try done; symmetry; by apply eqb_prop in E.
Qed.

Lemma quot_gt_iff a b q : 0 <= a -> 0 < b -> q < Z.quot a b <-> (q + 1) * b <= a.
Proof.
  intros Ha Hb. rewrite Z.quot_div_nonneg by done. split; intros H.
  - pose proof (Z.mul_div_le a b Hb). nia.
  - assert (q + 1 <= a / b) by (apply Z.div_le_lower_bound; lia). lia.
Qed.

(** A proposing node with opposition votes for the transaction exactly when the
    share of yes votes, its own included, exceeds the percentage of the avalanche
    state it has reached (no vote is lost to rounding); an observing node follows
    the plain majority of its peers. *)
Theorem updateVote_threshold d pt proposing p :
  dispute_wf d -> opposed d -> Z.of_nat (size (votes d)) < 2 ^ 50 ->
  let d' := (updateVote d pt proposing p).2 in
  let pct := consensusPct (avalancheCutoffs p (avalancheState d')) in
  ourVote d' = true <->
  if proposing
  then (pct + 1) * (yays d + nays d + 1) <= 100 * (yays d + (if ourVote d then 1 else 0))
  else nays d < yays d.
Proof.
  intros [Hy Hn] Ho Hs d' pct. subst d' pct.
  destruct (updateVote_opposed d pt proposing p Ho) as (_ & _ & ->).
  destruct proposing; [|apply Z.ltb_lt].
  assert (Hle : forall b, countVotes b (votes d) <= Z.of_nat (size (votes d))).
  { intros b. unfold countVotes. apply inj_le, map_size_filter. }
  pose proof (Hle true). pose proof (Hle false).
  pose proof (countVotes_nonneg true (votes d)). pose proof (countVotes_nonneg false (votes d)).
  set (a := yays d * 100 + (if ourVote d then 100 else 0)).
  assert (0 <= a < 2 ^ 60) by (unfold a; destruct (ourVote d); lia).
  rewrite u64_id, Z.ltb_lt, quot_gt_iff; try lia.
  - unfold a. destruct (ourVote d); nia.
  - split; [apply Z.quot_pos; lia|].
    apply Z.le_lt_trans with a; [|lia]. apply Z.quot_le_upper_bound; nia.
Qed.

Lemma updateVote_threshold_witness :
  let d := mkDisputed 3 1 false (mkTx 7 0) (list_to_map [(1, true); (2, true); (3, true); (4, false)])
             0 Init 0 in
  ourVote (updateVote d 10 true defaultParms).2 = true /\
  (50 + 1) * (3 + 1 + 1) <= 100 * (3 + 0).
Proof.
  split; [vm_compute; reflexivity|].
  refine (proj1 (updateVote_threshold
    (mkDisputed 3 1 false (mkTx 7 0) (list_to_map [(1, true); (2, true); (3, true); (4, false)])
       0 Init 0) 10 true defaultParms _ _ _) eq_refl);
    [split; vm_compute; reflexivity | unfold opposed; simpl; lia | vm_compute; reflexivity].
Defined.

(** ** A dispute through a round *)

(** The states of a dispute reachable by the operations, indexed by the number of
    [updateVote] calls (one per establish round). *)
Inductive disputeReach : Z -> DisputedTx -> Prop :=
| dr_new t v : disputeReach 0 (newDisputedTx t v)
| dr_setVote n d peer v : disputeReach n d -> disputeReach n (setVote d peer v).2
| dr_unVote n d peer : disputeReach n d -> disputeReach n (unVote d peer)
| dr_updateVote n d pt proposing :
    disputeReach n d -> disputeReach (n + 1) (updateVote d pt proposing defaultParms).2.

Lemma disputeReach_wf n d : disputeReach n d -> 0 <= n /\ dispute_wf d.
Proof.
  induction 1 as [|n d peer v _ [? IH]|n d peer _ [? IH]|n d pt pr _ [? IH]]; (split; [lia|]).
  - apply newDisputedTx_wf.
  - pose proof (setVote_spec d peer v IH). by destruct (setVote d peer v) as [? ?]; destruct_and!.
  - by apply unVote_spec.
  - by apply updateVote_wf.
Qed.

(** In every reachable state of a dispute the tallies [yays_] and [nays_] are the
    numbers of yes and no votes recorded, whatever the peers' sequence of first
    votes, changes and withdrawals; a further vote is recorded exactly, and reported
    as a change exactly when the recorded vote differs. *)
Theorem dispute_tallies n d peer v :
  disputeReach n d ->
  yays d = countVotes true (votes d) /\ nays d = countVotes false (votes d) /\
  votes (setVote d peer v).2 = <[peer := v]> (votes d) /\
  ((setVote d peer v).1 = true <-> votes d !! peer <> Some v).
Proof.
  intros [_ Hwf]%disputeReach_wf. pose proof (setVote_spec d peer v Hwf).
  destruct Hwf. destruct (setVote d peer v). simpl. tauto.
Qed.

Lemma dispute_tallies_witness :
  let d := (setVote (setVote (newDisputedTx (mkTx 7 0) true) 1 false).2 2 true).2 in
  disputeReach 0 d /\ yays d = 1 /\ nays d = countVotes false (votes d).
Proof.
  assert (Hr : disputeReach 0 (setVote (setVote (newDisputedTx (mkTx 7 0) true) 1 false).2 2 true).2)
    by (repeat constructor).
  split; [exact Hr|]. split; [reflexivity|].
  exact (proj1 (proj2 (dispute_tallies 0 _ 3 true Hr))).
Defined.

Lemma setVote_avalanche d peer v :
  avalancheState (setVote d peer v).2 = avalancheState d /\
  avalancheCounter (setVote d peer v).2 = avalancheCounter d.
Proof. unfold setVote. destruct (votes d !! peer) as [[]|]; by destruct v. Qed.

Lemma unVote_avalanche d peer :
  avalancheState (unVote d peer) = avalancheState d /\
  avalancheCounter (unVote d peer) = avalancheCounter d.
Proof. unfold unVote. by destruct (votes d !! peer) as [[]|]. Qed.

Lemma disputeReach_rounds n d :
  disputeReach n d -> n < 2 ^ 63 ->
  0 <= avalancheCounter d /\ 2 * avRank (avalancheState d) + avalancheCounter d <= n.
Proof.
  induction 1 as [|n d peer v _ IH|n d peer _ IH|n d pt pr Hr IH]; intros Hn.
  - simpl. lia.
  - destruct (setVote_avalanche d peer v) as [-> ->]. auto.
  - destruct (unVote_avalanche d peer) as [-> ->]. auto.
  - destruct IH as [IH1 IH2]; [lia|].
    destruct (decide (opposed d)) as [Ho|Ho];
      [|rewrite updateVote_unopposed by done; simpl; lia].
    destruct (updateVote_opposed d pt pr defaultParms Ho) as (-> & -> & _).
    pose proof (disputeReach_wf n d Hr) as [? _].
    rewrite u64_id by (destruct (avalancheState d); simpl in IH2; lia).
    pose proof (stateAfter_rank (avalancheState d) pt (avalancheCounter d + 1) 2).
    unfold stateAfter in *. simpl avMinRounds.
    destruct (getNeededWeight _ _ _ _ _).2 as [s|] eqn:E; simpl in *; [|lia].
    apply getNeededWeight_some in E as (_ & _ & ? & _). lia.
Qed.

(** A dispute counts as stalled only after at least eight establish rounds (the
    minimum [haveConsensus] also imposes before giving up), in the final avalanche
    state, and with more than 80% of the counted votes on one side. *)
Theorem stalled_needs_rounds_and_supermajority n d proposing peersUnchanged :
  disputeReach n d -> n < 2 ^ 63 -> Z.of_nat (size (votes d)) < 2 ^ 50 ->
  stalled d defaultParms proposing peersUnchanged = true ->
  let yes := yays d + (if proposing && ourVote d then 1 else 0) in
  let total := nays d + yays d + (if proposing then 1 else 0) in
  8 <= n /\ avalancheState d = Stuck /\
  (81 * total <= 100 * yes \/ 100 * yes < 20 * total).
Proof.
  intros Hr Hn Hs Hst yes total.
  destruct (disputeReach_rounds n d Hr Hn) as [Hc Hrank].
  destruct (disputeReach_wf n d Hr) as [Hn0 [Hy Hna]].
  unfold stalled in Hst. fold yes total in Hst.
  destruct (_ || _) eqn:E1; [done|].
  destruct (proposing && (currentVoteCounter d <? avMinRounds _)) eqn:E2; [done|].
  destruct (_ && (proposing && _)) eqn:E3; [done|].
  breflect. simpl in *.
  assert (Hstk : avalancheState d = Stuck).
  { destruct (avalancheState d) eqn:Es; rewrite ?Es in *; simpl in *; lia || done. }
  rewrite Hstk in *. simpl in *. split; [lia|]. split; [done|].
  pose proof (countVotes_nonneg true (votes d)). pose proof (countVotes_nonneg false (votes d)).
  assert (Hle : forall b, countVotes b (votes d) <= Z.of_nat (size (votes d))).
  { intros b. unfold countVotes. apply inj_le, map_size_filter. }
  pose proof (Hle true). pose proof (Hle false).
  assert (0 <= yes < 2 ^ 51 /\ 0 <= total) by (unfold yes, total; destruct proposing, (ourVote d); simpl; lia).
  destruct (Z.eqb_spec total 0); [done|].
  assert (Hw : 0 <= Z.quot (yes * 100) total < 2 ^ 64).
  { split; [apply Z.quot_pos; lia|].
    apply Z.le_lt_trans with (yes * 100); [|lia]. apply Z.quot_le_upper_bound; nia. }
  rewrite (u64_id (Z.quot _ _)) in Hst by done.
  rewrite u64_id in Hst by lia.
  apply orb_true_iff in Hst as [Hst|Hst]; breflect.
  - left. apply quot_gt_iff in Hst; lia.
  - right. rewrite Z.quot_div_nonneg in Hst by lia.
    pose proof (Z.mul_succ_div_gt (yes * 100) total). nia.
Qed.

Lemma stalled_needs_rounds_and_supermajority_witness :
  let d0 := (setVote (newDisputedTx (mkTx 7 0) false) 1 true).2 in
  let d := Nat.iter 8 (fun d => (updateVote (unVote (setVote d 2 false).2 2) 300 false defaultParms).2)
             (setVote (setVote (setVote (setVote (setVote d0 3 true).2 4 true).2 5 true).2 6 true).2 7 false).2 in
  stalled d defaultParms false 4 = true /\ 8 <= 8.
Proof.
  split; [vm_compute; reflexivity|].
  refine (proj1 (stalled_needs_rounds_and_supermajority 8
    (Nat.iter 8 (fun d => (updateVote (unVote (setVote d 2 false).2 2) 300 false defaultParms).2)
       (setVote (setVote (setVote (setVote (setVote
          (setVote (newDisputedTx (mkTx 7 0) false) 1 true).2 3 true).2 4 true).2 5 true).2 6 true).2 7 false).2)
    false 4 _ _ _ _)).
  - change 8 with (0 + 1 + 1 + 1 + 1 + 1 + 1 + 1 + 1)%Z. cbn [Nat.iter nat_rect].
    do 8 apply dr_updateVote, dr_unVote, dr_setVote. do 6 apply dr_setVote. apply dr_new.
  - lia.
  - vm_compute; reflexivity.
  - vm_compute; reflexivity.
Defined.
