(* ===== verification/Proposal.v ===== *)
(** * Proposals, timers and close times

    The class template [ConsensusProposal] of
    include/xrpl/consensus/ConsensusProposal.h, and [ConsensusTimer],
    [ConsensusCloseTimes] and [medianCloseOffset] of
    include/xrpl/consensus/ConsensusTypes.h.

    Steady-clock time points are integers in nanoseconds, [NetClock] time points
    32-bit seconds.  The digest of a proposal is over the big-endian bytes of its
    fields; the hash function itself (OpenSSL's SHA-512, truncated) is a parameter. *)
From S2P Require Import Prelude.

(** ** ConsensusProposal *)

Record ConsensusProposal := mkProposal {
  previousLedger : Z;
  position : Z;
  closeTime : Z;
  seenTime : Z;
  proposeSeq : Z;
  nodeID : Z;
  signingHash : option Z
}.

#[export] Instance ConsensusProposal_eq_dec : EqDecision ConsensusProposal.
Proof. solve_decision. Defined.

Definition kSeqJoin : Z := 0.
Definition kSeqLeave : Z := 0xffffffff.

Definition newProposal (prevLedger seq pos closeT now node : Z) : ConsensusProposal :=
  mkProposal prevLedger pos closeT now seq node None.

Definition isInitial (p : ConsensusProposal) : bool := proposeSeq p =? kSeqJoin.
Definition isBowOut (p : ConsensusProposal) : bool := proposeSeq p =? kSeqLeave.
Definition isStale (p : ConsensusProposal) (cutoff : Z) : bool := seenTime p <=? cutoff.

Definition changePosition (p : ConsensusProposal) (newPosition newCloseTime now : Z)
    : ConsensusProposal :=
  mkProposal (previousLedger p) newPosition newCloseTime now
    (if negb (proposeSeq p =? kSeqLeave) then proposeSeq p +32 1 else proposeSeq p)
    (nodeID p) None.

Definition bowOut (p : ConsensusProposal) (now : Z) : ConsensusProposal :=
  mkProposal (previousLedger p) (position p) (closeTime p) now kSeqLeave (nodeID p) None.

(** [operator==] *)
Definition proposalEq (a b : ConsensusProposal) : bool :=
  (nodeID a =? nodeID b) && (proposeSeq a =? proposeSeq b) &&
  (previousLedger a =? previousLedger b) && (position a =? position b) &&
  (closeTime a =? closeTime b) && (seenTime a =? seenTime b).

(** [HashPrefix::Proposal] *)
Definition hashPrefixProposal : Z := 0x50525000.

(** The bytes given to [sha512Half] by [signingHash()]. *)
Definition signingBytes (p : ConsensusProposal) : list Z :=
  beBytes 4 hashPrefixProposal ++ beBytes 4 (proposeSeq p) ++ beBytes 4 (closeTime p) ++
  beBytes 32 (previousLedger p) ++ beBytes 32 (position p).

(** [signingHash()] fills the [mutable] cache on first use. *)
Definition getSigningHash (sha512Half : list Z -> Z) (p : ConsensusProposal)
    : Z * ConsensusProposal :=
  match signingHash p with
  | Some h => (h, p)
  | None =>
      let h := sha512Half (signingBytes p) in
      (h, mkProposal (previousLedger p) (position p) (closeTime p) (seenTime p)
            (proposeSeq p) (nodeID p) (Some h))
  end.

(** The fields have the ranges of their C++ types. *)
Definition proposal_wf (p : ConsensusProposal) : Prop :=
  0 <= previousLedger p < 2 ^ 256 /\ 0 <= position p < 2 ^ 256 /\
  0 <= closeTime p < 2 ^ 32 /\ 0 <= proposeSeq p < 2 ^ 32.

Section SigningHash.
Context (sha512Half : list Z -> Z).

(** A cached signing hash is the hash of the current fields. *)
Definition hashCoherent (p : ConsensusProposal) : Prop :=
  match signingHash p with Some h => h = sha512Half (signingBytes p) | None => True end.

(** The operations on a proposal, as the life of one object. *)
Inductive proposalReach : ConsensusProposal -> Prop :=
| pr_new prevLedger seq pos ct now node :
    proposalReach (newProposal prevLedger seq pos ct now node)
| pr_change p pos ct now : proposalReach p -> proposalReach (changePosition p pos ct now)
| pr_bowOut p now : proposalReach p -> proposalReach (bowOut p now)
| pr_hash p : proposalReach p -> proposalReach (getSigningHash sha512Half p).2.

Lemma proposalReach_coherent p : proposalReach p -> hashCoherent p.
Proof.
  induction 1 as [| | |p _ IH]; try done.
  unfold getSigningHash. by destruct (signingHash p) eqn:E.
Qed.

End SigningHash.

(** Whatever the sequence of position changes, bow-outs and earlier calls,
    [signingHash()] returns the hash of the proposal's current fields (the cache is
    never stale), and those bytes determine the sequence number, close time, previous
    ledger and position that are being signed. *)
Theorem signingHash_binds sha512Half p q :
  proposalReach sha512Half p -> proposal_wf p -> proposal_wf q ->
  (getSigningHash sha512Half p).1 = sha512Half (signingBytes p) /\
  (signingBytes p = signingBytes q ->
   proposeSeq p = proposeSeq q /\ closeTime p = closeTime q /\
   previousLedger p = previousLedger q /\ position p = position q).
Proof.
  intros Hr (Hp1 & Hp2 & Hp3 & Hp4) (Hq1 & Hq2 & Hq3 & Hq4). split.
  - apply proposalReach_coherent in Hr. unfold getSigningHash, hashCoherent in *.
    by destruct (signingHash p).
  - unfold signingBytes. intros E.
    apply app_inj_1 in E as [_ E]; [|by rewrite !length_beBytes].
    apply app_inj_1 in E as [E1 E]; [|by rewrite !length_beBytes].
    apply app_inj_1 in E as [E2 E]; [|by rewrite !length_beBytes].
    apply app_inj_1 in E as [E3 E4]; [|by rewrite !length_beBytes].
    apply beBytes_inj in E1, E2, E3, E4; done.
Qed.

Lemma signingHash_binds_witness :
  let p := bowOut (getSigningHash sumZ (newProposal 5 0 9 100 90 1)).2 95 in
  (getSigningHash sumZ p).1 = sumZ (signingBytes p) /\ isBowOut p = true.
Proof.
  split; [|reflexivity].
  refine (proj1 (signingHash_binds sumZ (bowOut (getSigningHash sumZ (newProposal 5 0 9 100 90 1)).2 95)
    (newProposal 5 0 9 100 90 1) _ _ _)).
  - apply pr_bowOut, pr_hash, pr_new.
  - unfold proposal_wf; simpl; unfold kSeqLeave; lia.
  - unfold proposal_wf; simpl; lia.
Defined.

(** Bowing out is final, and short of [kSeqLeave] each change of position raises the
    sequence number by one. *)
Lemma changePosition_seq p pos ct now :
  0 <= proposeSeq p < kSeqLeave -> proposeSeq (changePosition p pos ct now) = proposeSeq p + 1.
Proof.
  unfold changePosition, kSeqLeave. intros H. simpl.
  destruct (Z.eqb_spec (proposeSeq p) 0xffffffff); [lia|]. simpl. rewrite u32_id; lia.
Qed.

Lemma changePosition_bowedOut p pos ct now :
  isBowOut p = true -> isBowOut (changePosition p pos ct now) = true.
Proof.
  unfold isBowOut, changePosition. simpl. intros H. by rewrite H.
Qed.

(** ** ConsensusTimer *)

Record ConsensusTimer := mkTimer { timer_start : Z; timer_dur : Z }.

Definition newTimer : ConsensusTimer := mkTimer 0 0.
(** [tick(milliseconds)] *)
Definition tickFixed (t : ConsensusTimer) (fixed : Z) : ConsensusTimer :=
  mkTimer (timer_start t) (timer_dur t + fixed).
(** [reset] *)
Definition resetTimer (t : ConsensusTimer) (tp : Z) : ConsensusTimer := mkTimer tp 0.
(** [tick(time_point)]: a [duration_cast] from nanoseconds to milliseconds. *)
Definition tickAt (t : ConsensusTimer) (tp : Z) : ConsensusTimer :=
  mkTimer (timer_start t) (Z.quot (tp - timer_start t) 1000000).
(** [read] *)
Definition readTimer (t : ConsensusTimer) : Z := timer_dur t.

(** ** ConsensusCloseTimes *)

Record ConsensusCloseTimes := mkCloseTimes { ct_peers : gmap Z Z; ct_self : Z }.

Definition emptyCloseTimes : ConsensusCloseTimes := mkCloseTimes ∅ 0.

(** The loop over [times.peers] in key order: the running [median], [tally] and
    [selfPlaced].  The lambda [step] is inlined, a [break] ends the recursion. *)
Fixpoint medianLoop (peers : list (Z * Z)) (self halfWeight tally : Z) (selfPlaced : bool)
    : option Z * Z * bool :=
  match peers with
  | [] => (None, tally, selfPlaced)
  | (t, w) :: rest =>
      if negb selfPlaced && (self <=? t) then
        if halfWeight <=? tally + 1 then (Some self, tally + 1, true)
        else if halfWeight <=? tally + 1 + w then (Some t, tally + 1 + w, true)
        else medianLoop rest self halfWeight (tally + 1 + w) true
      else if halfWeight <=? tally + w then (Some t, tally + w, selfPlaced)
      else medianLoop rest self halfWeight (tally + w) selfPlaced
  end.

Definition totalWeight (peers : list (Z * Z)) : Z := 1 + sumZ (peers.*2).

(** The median found, before the fallback for the unreachable case. *)
Definition medianCloseTime (peers : list (Z * Z)) (self : Z) : option Z :=
  let halfWeight := (totalWeight peers + 1) / 2 in
  let '(median, tally, selfPlaced) := medianLoop peers self halfWeight 0 false in
  match median with
  | Some m => Some m
  | None => if negb selfPlaced && (halfWeight <=? tally + 1) then Some self else None
  end.

Definition medianCloseOffset (times : ConsensusCloseTimes) : Z :=
  default (ct_self times) (medianCloseTime (sortedEntries (ct_peers times)) (ct_self times))
  - ct_self times.

(** *** The weighted median *)

(** The weight of the samples satisfying a test on their time. *)
Definition weightOf (P : Z -> bool) (samples : list (Z * Z)) : Z :=
  sumZ (map (fun s => if P s.1 then s.2 else 0) samples).

(** [m] is the lower weighted median of the samples: the samples no later than [m]
    carry at least half of the weight, those strictly earlier carry less. *)
Definition lowerMedian (m : Z) (samples : list (Z * Z)) : Prop :=
  let half := (sumZ (samples.*2) + 1) / 2 in
  weightOf (fun t => t <? m) samples < half <= weightOf (fun t => t <=? m) samples.

Lemma weightOf_cons P t w l :
  weightOf P ((t, w) :: l) = (if P t then w else 0) + weightOf P l.
Proof. done. Qed.

Lemma weightOf_app P l k : weightOf P (l ++ k) = weightOf P l + weightOf P k.
Proof. unfold weightOf. by rewrite map_app, sumZ_app. Qed.

Lemma weightOf_all P l :
  Forall (fun s => P s.1 = true) l -> weightOf P l = sumZ (l.*2).
Proof.
  unfold weightOf, sumZ. induction 1 as [|[t w] l H _ IH]; simpl in *; [done|].
  rewrite H, IH. done.
Qed.

Lemma weightOf_none P l : Forall (fun s => P s.1 = false) l -> weightOf P l = 0.
Proof.
  unfold weightOf, sumZ. induction 1 as [|[t w] l H _ IH]; simpl in *; [done|].
  rewrite H, IH. done.
Qed.

Lemma weightOf_nonneg P l : Forall (fun s => 0 < s.2) l -> 0 <= weightOf P l.
Proof.
  unfold weightOf, sumZ. induction 1 as [|[t w] l H _ IH]; simpl in *; [done|].
  destruct (P t); lia.
Qed.

(** Weights below and up to a key of a strictly sorted list. *)
Lemma weightOf_split pre t w post m :
  Forall (fun s : Z * Z => s.1 < t) pre -> Forall (fun s : Z * Z => t < s.1) post ->
  Forall (fun s : Z * Z => 0 < s.2) post -> m = t ->
  weightOf (fun x => x <? m) (pre ++ (t, w) :: post) = sumZ (pre.*2) /\
  sumZ (pre.*2) + w <= weightOf (fun x => x <=? m) (pre ++ (t, w) :: post).
Proof.
  intros Hpre Hpost Hpos ->. rewrite !weightOf_app. split.
  - rewrite weightOf_all by (eapply Forall_impl; [exact Hpre|]; intros s; simpl; lia).
    rewrite weightOf_cons, Z.ltb_irrefl.
    rewrite weightOf_none; [lia|]. eapply Forall_impl; [exact Hpost|]; intros s; simpl; lia.
  - rewrite (weightOf_all _ pre) by (eapply Forall_impl; [exact Hpre|]; intros s; simpl; lia).
    rewrite weightOf_cons, Z.leb_refl.
    pose proof (weightOf_nonneg (fun x => x <=? t) post Hpos). lia.
Qed.

(** Keys strictly increasing, weights positive: the entries of [times.peers]. *)
Definition peersOk (l : list (Z * Z)) : Prop :=
  StronglySorted (fun x y : Z * Z => x.1 < y.1) l /\ Forall (fun s : Z * Z => 0 < s.2) l.

Lemma peersOk_split pre t w post :
  peersOk (pre ++ (t, w) :: post) ->
  Forall (fun s : Z * Z => s.1 < t) pre /\ Forall (fun s : Z * Z => t < s.1) post /\
  0 < w /\ Forall (fun s : Z * Z => 0 < s.2) pre /\ Forall (fun s : Z * Z => 0 < s.2) post.
Proof.
  intros [Hs Hw]. apply Forall_app in Hw as [Hw1 Hw2]. inversion Hw2; subst.
  apply StronglySorted_app in Hs as (Hrel & _ & Hs2). inversion Hs2; subst.
  repeat split; auto. apply Forall_forall. intros s Hin.
  apply (Hrel s (t, w)); [done|apply list_elem_of_here].
Qed.

(** What the loop has established with [pre] consumed. *)
Definition loopInv (pre : list (Z * Z)) (self halfWeight tally : Z) (selfPlaced : bool) : Prop :=
  tally = sumZ (pre.*2) + (if selfPlaced then 1 else 0) /\ tally < halfWeight /\
  (selfPlaced = false -> Forall (fun s : Z * Z => s.1 < self) pre).

Lemma medianLoop_spec rest : forall pre self half tally placed,
  peersOk (pre ++ rest) -> loopInv pre self half tally placed ->
  (placed = true -> Forall (fun s : Z * Z => self <= s.1) rest) ->
  let samples := (self, 1) :: pre ++ rest in
  match medianLoop rest self half tally placed with
  | (Some m, _, _) =>
      weightOf (fun t => t <? m) samples < half <= weightOf (fun t => t <=? m) samples
  | (None, tally', placed') => loopInv (pre ++ rest) self half tally' placed'
  end.
Proof.
  induction rest as [|[t w] rest IH]; intros pre self half tally placed Hok (Ht & Hlt & Hns) Hpl samples.
  { rewrite app_nil_r. simpl. done. }
  destruct (peersOk_split _ _ _ _ Hok) as (Hpre & Hpost & Hw & Hwp & Hwr).
  pose proof (weightOf_split pre t w rest t Hpre Hpost Hwr eq_refl) as [Hlt_t Hle_t].
  assert (Hsum : sumZ ((pre ++ [(t, w)]).*2) = sumZ (pre.*2) + w).
  { rewrite fmap_app, sumZ_app. simpl. lia. }
  assert (Hcons : forall (P : Z -> bool), weightOf P samples =
    (if P self then 1 else 0) + weightOf P (pre ++ (t, w) :: rest)) by done.
  assert (Happ : pre ++ (t, w) :: rest = (pre ++ [(t, w)]) ++ rest) by by rewrite <-app_assoc.
  cbn [medianLoop].
  destruct (negb placed && (self <=? t)) eqn:E1.
  - breflect. subst placed. specialize (Hns eq_refl).
    destruct (Z.leb_spec half (tally + 1)) as [Hh|Hh].
    + rewrite !Hcons, Z.ltb_irrefl, Z.leb_refl.
      assert (weightOf (fun x => x <? self) (pre ++ (t, w) :: rest) = sumZ (pre.*2)) as ->.
      { rewrite weightOf_app, weightOf_all by (eapply Forall_impl; [exact Hns|]; intros s; simpl; lia).
        rewrite weightOf_none; [lia|]. constructor; [simpl; lia|].
        eapply Forall_impl; [exact Hpost|]; intros s; simpl; lia. }
      assert (sumZ (pre.*2) <= weightOf (fun x => x <=? self) (pre ++ (t, w) :: rest)).
      { rewrite weightOf_app, weightOf_all by (eapply Forall_impl; [exact Hns|]; intros s; simpl; lia).
        pose proof (weightOf_nonneg (fun x => x <=? self) ((t, w) :: rest) ltac:(by constructor)). lia. }
      lia.
    + destruct (Z.leb_spec half (tally + 1 + w)) as [Hh2|Hh2].
      * rewrite !Hcons. bcase; lia.
      * unfold samples. rewrite Happ. apply IH; [by rewrite <-Happ| |].
        -- split; [lia|]. split; [lia|done].
        -- intros _. eapply Forall_impl; [exact Hpost|]; intros s; simpl; lia.
  - destruct (Z.leb_spec half (tally + w)) as [Hh2|Hh2].
    + rewrite !Hcons. apply andb_false_iff in E1 as [E1|E1]; breflect.
      * subst placed. specialize (Hpl eq_refl). inversion Hpl; subst; simpl in *. bcase; lia.
      * destruct placed; [specialize (Hpl eq_refl); inversion Hpl; subst; simpl in *; bcase; lia|].
        bcase; lia.
    + unfold samples. rewrite Happ. apply IH; [by rewrite <-Happ| |].
      * split; [lia|]. split; [lia|]. intros ->. apply Forall_app; split; [by apply Hns|].
        constructor; [|constructor]. simpl in *. destruct (Z.leb_spec self t); [done|lia].
      * intros ->. specialize (Hpl eq_refl). by inversion Hpl.
Qed.

Lemma sortedEntries_peersOk (m : gmap Z Z) :
  map_Forall (fun _ w => 0 < w) m -> peersOk (sortedEntries m).
Proof.
  intros Hm. split.
  - pose proof (sortedEntries_sorted m) as Hs.
    assert (Hnd : NoDup ((sortedEntries m).*1)).
    { rewrite sortedEntries_perm. apply NoDup_fst_map_to_list. }
    induction Hs as [|x l Hs IH Hall]; [constructor|].
    cbn in Hnd. apply NoDup_cons in Hnd as [Hx Hnd]. constructor; [by apply IH|].
    apply Forall_forall. intros y Hy. rewrite Forall_forall in Hall.
    specialize (Hall y Hy). unfold keyLe in Hall.
    assert (y.1 <> x.1). { intros E. apply Hx. rewrite <-E. apply list_elem_of_fmap. eauto. }
    lia.
  - apply Forall_forall. intros [k w] H%elem_of_sortedEntries. by apply (Hm k).
Qed.

Lemma medianCloseTime_spec peers self :
  peersOk peers ->
  exists m, medianCloseTime peers self = Some m /\ lowerMedian m ((self, 1) :: peers).
Proof.
  intros Hok. unfold medianCloseTime, lowerMedian.
  change (sumZ (((self, 1) :: peers).*2)) with (totalWeight peers).
  set (half := (totalWeight peers + 1) / 2).
  assert (Hsum : 0 <= sumZ (peers.*2)).
  { apply sumZ_nonneg. destruct Hok as [_ Hw]. apply Forall_fmap.
    eapply Forall_impl; [exact Hw|]; intros s; simpl; lia. }
  assert (Hhalf : 0 < half <= totalWeight peers).
  { unfold half, totalWeight in *.
    pose proof (Z.mod_pos_bound (1 + sumZ (peers.*2) + 1) 2).
    pose proof (Z.div_mod (1 + sumZ (peers.*2) + 1) 2). lia. }
  pose proof (medianLoop_spec peers [] self half 0 false Hok) as Hl. simpl in Hl.
  destruct (medianLoop peers self half 0 false) as [[[m|] tally] placed].
  - eexists; split; [done|]. apply Hl; done || (split; [done|]; split; [lia|constructor]).
  - destruct Hl as (Ht & Hlt & Hns); [split; [done|]; split; [lia|constructor]|done|].
    unfold totalWeight in *. destruct placed; [simpl in *; lia|].
    cbn [negb andb]. destruct (Z.leb_spec half (tally + 1)); [|lia].
    exists self. split; [done|]. specialize (Hns eq_refl).
    rewrite !weightOf_cons, Z.ltb_irrefl, Z.leb_refl.
    rewrite !weightOf_all by (eapply Forall_impl; [exact Hns|]; intros s; simpl; lia). lia.
Qed.

(** [medianCloseOffset] is the lower weighted median of our own close time
    (weight one) and the peers' close times (each with its number of reporters),
    relative to ours; the branch marked unreachable in the code is never taken. *)
Theorem medianCloseOffset_median times :
  map_Forall (fun _ w => 0 < w) (ct_peers times) ->
  exists m, medianCloseTime (sortedEntries (ct_peers times)) (ct_self times) = Some m /\
    medianCloseOffset times = m - ct_self times /\
    lowerMedian m ((ct_self times, 1) :: sortedEntries (ct_peers times)).
Proof.
  intros Hw. destruct (medianCloseTime_spec _ (ct_self times) (sortedEntries_peersOk _ Hw))
    as (m & Hm & Hmed).
  exists m. unfold medianCloseOffset. by rewrite Hm.
Qed.

Lemma medianCloseOffset_median_witness :
  let times := mkCloseTimes (list_to_map [(100, 3); (110, 1); (130, 3)]) 120 in
  medianCloseOffset times = -10 /\
  exists m, medianCloseOffset times = m - 120 /\
    lowerMedian m ((120, 1) :: sortedEntries (ct_peers times)).
Proof.
  split; [vm_compute; reflexivity|].
  destruct (medianCloseOffset_median (mkCloseTimes (list_to_map [(100, 3); (110, 1); (130, 3)]) 120))
    as (m & _ & H1 & H2); [|exists m; split; [exact H1|exact H2]].
  apply map_Forall_to_list. vm_compute map_to_list. repeat constructor.
Defined.
