(* ===== verification/Censorship.v ===== *)
(** * The censorship detector

    The sorted-range algorithms of include/xrpl/basics/algorithm.h and the class
    template [CensorshipDetector] of include/xrpl/consensus/CensorshipDetector.h,
    with the refinement of the sorted vector it keeps to a finite map from
    transaction to the ledger sequence at which it was first proposed. *)
From S2P Require Import Prelude.

(** ** Algorithms on ordered ranges *)

Section Ranges.
Context {A B : Type}.
(** [comp] on an element of the first and of the second range, and the converse. *)
Context (compAB : A -> B -> bool) (compBA : B -> A -> bool).

(** [generalizedSetIntersection]: the first range after the actions.  The recursion
    on the first range and the inner one on the second follow the two iterators. *)
Fixpoint generalizedSetIntersection (action : A -> B -> A) (l1 : list A) : list B -> list A :=
  match l1 with
  | [] => fun _ => []
  | x :: l1' =>
      fix advance2 (l2 : list B) : list A :=
        match l2 with
        | [] => x :: l1'
        | y :: l2' =>
            if compAB x y then x :: generalizedSetIntersection action l1' (y :: l2')
            else if negb (compBA y x) then action x y :: generalizedSetIntersection action l1' l2'
            else advance2 l2'
        end
  end.

(** [removeIfIntersectOrMatch]: the elements that are preserved. *)
Fixpoint removeIfIntersectOrMatch (pred : A -> bool) (l1 : list A) : list B -> list A :=
  match l1 with
  | [] => fun _ => []
  | x :: l1' =>
      fix advance2 (l2 : list B) : list A :=
        match l2 with
        | [] =>
            if negb (pred x) then x :: removeIfIntersectOrMatch pred l1' []
            else removeIfIntersectOrMatch pred l1' []
        | y :: l2' =>
            if compAB x y then
              if negb (pred x) then x :: removeIfIntersectOrMatch pred l1' (y :: l2')
              else removeIfIntersectOrMatch pred l1' (y :: l2')
            else if negb (compBA y x) then removeIfIntersectOrMatch pred l1' l2'
            else advance2 l2'
        end
  end.

(** The comparisons are those of integer keys. *)
Context (keyA : A -> Z) (keyB : B -> Z).
Context (HAB : forall x y, compAB x y = (keyA x <? keyB y)).
Context (HBA : forall x y, compBA y x = (keyB y <? keyA x)).

Lemma removeIf_filter pred l1 : forall l2,
  StronglySorted (fun x y => keyA x < keyA y) l1 ->
  StronglySorted (fun x y => keyB x <= keyB y) l2 ->
  removeIfIntersectOrMatch pred l1 l2 =
  filter (fun x => (keyA x ∉ (keyB <$> l2)) /\ pred x = false) l1.
Proof.
  induction l1 as [|x l1 IH]; intros l2 H1 H2; [by destruct l2|].
  apply StronglySorted_inv in H1 as [H1 Hx].
  induction l2 as [|y l2 IH2].
  { cbn [removeIfIntersectOrMatch]. rewrite IH, filter_cons by (done || constructor).
    destruct (pred x) eqn:E; cbn [negb].
    - rewrite decide_False; [done|]. by intros [_ ?].
    - rewrite decide_True; [done|]. split; [apply not_elem_of_nil|done]. }
  apply StronglySorted_inv in H2 as [H2 Hy]. cbn [removeIfIntersectOrMatch].
  rewrite HAB, HBA.
  destruct (Z.ltb_spec (keyA x) (keyB y)) as [Hlt|Hge].
  - rewrite IH by (done || by constructor). rewrite filter_cons.
    assert (keyA x ∉ (keyB <$> y :: l2)).
    { rewrite fmap_cons, not_elem_of_cons. split; [lia|].
      intros (z & Hz & Hin)%list_elem_of_fmap. rewrite Forall_forall in Hy. specialize (Hy z Hin). lia. }
    destruct (pred x) eqn:E; cbn [negb].
    + rewrite decide_False; [done|]. by intros [_ ?].
    + by rewrite decide_True.
  - destruct (Z.ltb_spec (keyB y) (keyA x)) as [Hlt|Hge2]; cbn [negb].
    + (* y is below everything left in the first range *)
      change (removeIfIntersectOrMatch pred (x :: l1) l2 =
        filter (fun x => (keyA x ∉ (keyB <$> y :: l2)) /\ pred x = false) (x :: l1)).
      etransitivity; [by apply IH2|]. apply filter_ext_in.
      intros z Hz. rewrite fmap_cons, not_elem_of_cons.
      assert (keyA z <> keyB y); [|tauto].
      apply elem_of_cons in Hz as [->|Hz]; [lia|].
      rewrite Forall_forall in Hx. specialize (Hx z Hz). lia.
    + (* an intersection: x is removed *)
      rewrite filter_cons, decide_False by (intros [Hn _]; apply Hn; rewrite fmap_cons, elem_of_cons; left; lia).
      rewrite IH by done. apply filter_ext_in.
      intros z Hz. rewrite fmap_cons, not_elem_of_cons.
      rewrite Forall_forall in Hx. specialize (Hx z Hz).
      assert (keyA z <> keyB y) by lia. tauto.
Qed.

(** The element of [l2] with a given key. *)
Fixpoint findKey (l2 : list B) (k : Z) : option B :=
  match l2 with
  | [] => None
  | y :: l2' => if keyB y =? k then Some y else findKey l2' k
  end.

Lemma findKey_above l2 k :
  Forall (fun y => k < keyB y) l2 -> findKey l2 k = None.
Proof.
  induction 1 as [|y l2 Hy _ IH]; [done|]. simpl. by destruct (Z.eqb_spec (keyB y) k); [lia|].
Qed.

Lemma findKey_skip y l2 k : keyB y <> k -> findKey (y :: l2) k = findKey l2 k.
Proof. intros. simpl. by destruct (Z.eqb_spec (keyB y) k). Qed.

Definition actOn (action : A -> B -> A) (l2 : list B) (x : A) : A :=
  match findKey l2 (keyA x) with Some y => action x y | None => x end.

Lemma setIntersection_map action l1 : forall l2,
  StronglySorted (fun x y => keyA x < keyA y) l1 ->
  StronglySorted (fun x y => keyB x < keyB y) l2 ->
  generalizedSetIntersection action l1 l2 = actOn action l2 <$> l1.
Proof.
  induction l1 as [|x l1 IH]; intros l2 H1 H2; [by destruct l2|].
  apply StronglySorted_inv in H1 as [H1 Hx]. rewrite Forall_forall in Hx.
  induction l2 as [|y l2 IH2].
  { cbn [generalizedSetIntersection]. symmetry. apply list_fmap_id. }
  apply StronglySorted_inv in H2 as [H2 Hy]. cbn [generalizedSetIntersection].
  rewrite HAB, HBA, fmap_cons.
  destruct (Z.ltb_spec (keyA x) (keyB y)) as [Hlt|Hge].
  - rewrite IH by (done || by constructor). f_equal.
    unfold actOn. rewrite findKey_above; [done|]. constructor; [done|].
    eapply Forall_impl; [exact Hy|]. simpl. lia.
  - destruct (Z.ltb_spec (keyB y) (keyA x)) as [Hlt|Hge2]; cbn [negb].
    + change (generalizedSetIntersection action (x :: l1) l2 =
        actOn action (y :: l2) x :: (actOn action (y :: l2) <$> l1)).
      rewrite IH2, fmap_cons by done. unfold actOn at 1 3. rewrite findKey_skip by lia.
      f_equal. apply list_fmap_ext. intros i z Hz%list_elem_of_lookup_2.
      unfold actOn. rewrite findKey_skip; [done|]. specialize (Hx z Hz). lia.
    + rewrite IH by done. unfold actOn at 2. simpl.
      destruct (Z.eqb_spec (keyB y) (keyA x)); [|lia]. f_equal.
      apply list_fmap_ext. intros i z Hz%list_elem_of_lookup_2.
      unfold actOn. rewrite findKey_skip; [done|]. specialize (Hx z Hz). lia.
Qed.
End Ranges.

(** ** CensorshipDetector *)

(** [TxIDSeq]: a transaction and the ledger sequence of its first proposal. *)
Record TxIDSeq := mkTxIDSeq { txid : Z; tseq : Z }.

(** [operator<] on two entries: by transaction, then by sequence.  [std::sort] by
    it is a total order, so sorting is a function of the elements. *)
Definition txIDSeqLess (l r : TxIDSeq) : bool :=
  if negb (txid l =? txid r) then txid l <? txid r else tseq l <? tseq r.

Definition txIDSeqLe (l r : TxIDSeq) : Prop := txIDSeqLess r l = false.

#[export] Instance txIDSeqLe_dec l r : Decision (txIDSeqLe l r).
Proof. unfold txIDSeqLe. apply _. Defined.

Lemma txIDSeqLe_spec l r :
  txIDSeqLe l r <-> txid l < txid r \/ (txid l = txid r /\ tseq l <= tseq r).
Proof.
  unfold txIDSeqLe, txIDSeqLess. destruct (Z.eqb_spec (txid r) (txid l)); simpl;
    rewrite Z.ltb_ge; lia.
Qed.

#[export] Instance txIDSeqLe_total : Total txIDSeqLe.
Proof. intros x y. rewrite !txIDSeqLe_spec. lia. Qed.
#[export] Instance txIDSeqLe_trans : Transitive txIDSeqLe.
Proof. intros x y z. rewrite !txIDSeqLe_spec. lia. Qed.

Definition propose (tracker proposed : list TxIDSeq) : list TxIDSeq :=
  let proposed := merge_sort txIDSeqLe proposed in
  generalizedSetIntersection (fun x y => txid x <? txid y) (fun y x => txid y <? txid x)
    (fun x y => mkTxIDSeq (txid x) (tseq y)) proposed tracker.

Definition check (tracker : list TxIDSeq) (accepted : list Z) (pred : Z -> Z -> bool)
    : list TxIDSeq :=
  let accepted := merge_sort Z.le accepted in
  removeIfIntersectOrMatch (fun x y => txid x <? y) (fun y x => y <? txid x)
    (fun x => pred (txid x) (tseq x)) tracker accepted.

Definition reset (tracker : list TxIDSeq) : list TxIDSeq := [].

(** ** Refinement to a finite map *)

(** The calls made by a consensus round. *)
Inductive DetectorOp :=
| OpPropose (proposed : list TxIDSeq)
| OpCheck (accepted : list Z) (pred : Z -> Z -> bool)
| OpReset.

Definition detectorStep (tracker : list TxIDSeq) (op : DetectorOp) : list TxIDSeq :=
  match op with
  | OpPropose p => propose tracker p
  | OpCheck a pred => check tracker a pred
  | OpReset => reset tracker
  end.

(** A proposed set of transactions names each transaction once. *)
Definition op_ok (op : DetectorOp) : Prop :=
  match op with OpPropose p => NoDup (txid <$> p) | _ => True end.

Definition entries (l : list TxIDSeq) : list (Z * Z) := (fun e => (txid e, tseq e)) <$> l.
Definition trackerMap (l : list TxIDSeq) : gmap Z Z := list_to_map (entries l).

(** What the detector promises: a map from the transactions proposed and not yet
    included to the sequence at which their current run of proposals began. *)
Definition specStep (m : gmap Z Z) (op : DetectorOp) : gmap Z Z :=
  match op with
  | OpPropose p => map_imap (fun id s => Some (default s (m !! id))) (trackerMap p)
  | OpCheck a pred => filter (fun e : Z * Z => (e.1 ∉ a) /\ pred e.1 e.2 = false) m
  | OpReset => ∅
  end.

Definition tracker_wf (l : list TxIDSeq) : Prop :=
  StronglySorted (fun x y => txid x < txid y) l.

Lemma tracker_wf_nodup l : tracker_wf l -> NoDup (txid <$> l).
Proof.
  induction 1 as [|x l Hs IH Hall]; [constructor|]. rewrite fmap_cons. constructor; [|done].
  intros (y & Hy & Hin)%list_elem_of_fmap. rewrite Forall_forall in Hall.
  specialize (Hall y Hin). lia.
Qed.

Lemma entries_fst l : (entries l).*1 = txid <$> l.
Proof. unfold entries. rewrite <-list_fmap_compose. done. Qed.

Lemma trackerMap_lookup l id s :
  NoDup (txid <$> l) -> trackerMap l !! id = Some s <-> mkTxIDSeq id s ∈ l.
Proof.
  intros Hnd. unfold trackerMap. rewrite <-elem_of_list_to_map by by rewrite entries_fst.
  unfold entries. rewrite list_elem_of_fmap. split.
  - intros ([i t] & Heq & Hin). by simplify_eq/=.
  - intros Hin. by exists (mkTxIDSeq id s).
Qed.

(** Two maps of trackers agree when they have the same entries. *)
Lemma trackerMap_ext l (m : gmap Z Z) :
  NoDup (txid <$> l) -> (forall id s, mkTxIDSeq id s ∈ l <-> m !! id = Some s) -> trackerMap l = m.
Proof.
  intros Hnd Hl. apply map_eq. intros id. apply option_eq. intros s.
  rewrite trackerMap_lookup by done. apply Hl.
Qed.

Lemma sorted_proposed p :
  NoDup (txid <$> p) -> tracker_wf (merge_sort txIDSeqLe p).
Proof.
  intros Hnd. pose proof (StronglySorted_merge_sort txIDSeqLe p) as Hs.
  rewrite <-(merge_sort_Permutation txIDSeqLe p) in Hnd.
  induction Hs as [|x l Hs IH Hall]; [constructor|].
  rewrite fmap_cons in Hnd. apply NoDup_cons in Hnd as [Hx Hnd].
  constructor; [by apply IH|]. apply Forall_forall. intros y Hy.
  rewrite Forall_forall in Hall. specialize (Hall y Hy). apply txIDSeqLe_spec in Hall.
  assert (txid y <> txid x). { intros E. apply Hx. rewrite <-E. by apply list_elem_of_fmap_2. }
  lia.
Qed.

Lemma findKey_lookup l k :
  NoDup (txid <$> l) ->
  tseq <$> findKey txid l k = trackerMap l !! k.
Proof.
  induction l as [|[i s] l IH]; intros Hnd; [done|].
  rewrite fmap_cons in Hnd. apply NoDup_cons in Hnd as [Hx Hnd]. simpl.
  unfold trackerMap, entries. simpl. fold (trackerMap l) (entries l).
  destruct (Z.eqb_spec i k) as [->|]; [by rewrite lookup_insert_eq|].
  rewrite lookup_insert_ne by done. by apply IH.
Qed.

Lemma propose_refines tracker p :
  tracker_wf tracker -> NoDup (txid <$> p) ->
  tracker_wf (propose tracker p) /\
  trackerMap (propose tracker p) = specStep (trackerMap tracker) (OpPropose p).
Proof.
  intros Ht Hp. pose proof (sorted_proposed p Hp) as Hs. unfold propose.
  rewrite (setIntersection_map _ _ txid txid) by done.
  set (act := actOn txid txid _ tracker).
  assert (Hid : forall x, txid (act x) = txid x).
  { intros x. unfold act, actOn. by destruct (findKey _ _ _). }
  assert (Hseq : forall x, tseq (act x) = default (tseq x) (trackerMap tracker !! txid x)).
  { intros x. unfold act, actOn. rewrite <-findKey_lookup by by apply tracker_wf_nodup.
    by destruct (findKey _ _ _). }
  assert (Hwf : tracker_wf (act <$> merge_sort txIDSeqLe p)).
  { clear Hseq. induction Hs as [|x l Hs IH Hall]; [constructor|]. rewrite fmap_cons.
    constructor; [done|]. apply Forall_fmap. eapply Forall_impl; [exact Hall|].
    intros y. simpl. by rewrite !Hid. }
  split; [done|]. apply trackerMap_ext; [by apply tracker_wf_nodup|].
  intros id s. cbn [specStep]. rewrite map_lookup_imap, list_elem_of_fmap.
  setoid_rewrite (merge_sort_Permutation txIDSeqLe p). split.
  - intros (x & Hx & Hin). assert (id = txid x /\ s = tseq (act x)) as [-> ->].
    { by rewrite <-(Hid x), <-Hx. }
    destruct x as [id s0]. apply trackerMap_lookup in Hin; [|done]. simpl in *.
    rewrite Hin. simpl. by rewrite Hseq.
  - destruct (trackerMap p !! id) as [s0|] eqn:E; [|done]. simpl. intros [= <-].
    apply trackerMap_lookup in E; [|done]. exists (mkTxIDSeq id s0). split; [|done].
    pose proof (Hid (mkTxIDSeq id s0)). pose proof (Hseq (mkTxIDSeq id s0)).
    destruct (act _). simpl in *. congruence.
Qed.

Lemma check_refines tracker accepted pred :
  tracker_wf tracker ->
  check tracker accepted pred =
    filter (fun x => (txid x ∉ accepted) /\ pred (txid x) (tseq x) = false) tracker /\
  tracker_wf (check tracker accepted pred) /\
  trackerMap (check tracker accepted pred) = specStep (trackerMap tracker) (OpCheck accepted pred).
Proof.
  intros Ht.
  assert (Hf : check tracker accepted pred =
    filter (fun x => (txid x ∉ accepted) /\ pred (txid x) (tseq x) = false) tracker).
  { unfold check. rewrite (removeIf_filter _ _ txid id); try done.
    - apply filter_ext_in. intros x _. rewrite list_fmap_id.
      by rewrite (merge_sort_Permutation Z.le accepted).
    - apply (StronglySorted_merge_sort Z.le). }
  assert (Hwf : tracker_wf (check tracker accepted pred)).
  { rewrite Hf. clear Hf. induction Ht as [|x l Hs IH Hall]; [constructor|].
    rewrite filter_cons. case_decide; [|done]. constructor; [done|]. rewrite Forall_forall in *.
    intros y [_ Hy]%list_elem_of_filter. by apply Hall. }
  split; [done|]. split; [done|]. apply trackerMap_ext; [by apply tracker_wf_nodup|].
  intros i s. cbn [specStep]. rewrite Hf, list_elem_of_filter, map_lookup_filter_Some. simpl.
  rewrite trackerMap_lookup by by apply tracker_wf_nodup. tauto.
Qed.

Lemma detectorStep_refines tracker op :
  tracker_wf tracker -> op_ok op ->
  tracker_wf (detectorStep tracker op) /\
  trackerMap (detectorStep tracker op) = specStep (trackerMap tracker) op.
Proof.
  intros Ht Hop. destruct op as [p|a pred|].
  - by apply propose_refines.
  - by apply check_refines.
  - split; [constructor|done].
Qed.

(** Over any sequence of rounds the sorted vector kept by the detector
    implements the abstract map: proposing keeps the first sequence of a transaction
    already tracked, adds the new ones and drops the rest; checking removes exactly
    the accepted transactions and those the predicate selects; no accepted
    transaction is tracked after the check. *)
Theorem detector_refines_map ops :
  Forall op_ok ops ->
  let tracker := foldl detectorStep [] ops in
  trackerMap tracker = foldl specStep ∅ ops /\ tracker_wf tracker.
Proof.
  intros Hops. cbn zeta.
  change (∅ : gmap Z Z) with (trackerMap []).
  assert (Hwf : tracker_wf []) by constructor. revert Hwf. generalize (@nil TxIDSeq).
  induction Hops as [|op ops Hop _ IH]; intros t Hwf; simpl; [done|].
  destruct (detectorStep_refines t op Hwf Hop) as [Hwf' <-]. by apply IH.
Qed.

Lemma detector_refines_map_witness :
  let ops := [OpPropose [mkTxIDSeq 7 100; mkTxIDSeq 3 100; mkTxIDSeq 5 100];
              OpCheck [3] (fun _ _ => false);
              OpPropose [mkTxIDSeq 9 101; mkTxIDSeq 7 101]] in
  foldl detectorStep [] ops = [mkTxIDSeq 7 100; mkTxIDSeq 9 101] /\
  trackerMap (foldl detectorStep [] ops) = foldl specStep ∅ ops.
Proof.
  split; [vm_compute; reflexivity|].
  apply (detector_refines_map [OpPropose [mkTxIDSeq 7 100; mkTxIDSeq 3 100; mkTxIDSeq 5 100];
              OpCheck [3] (fun _ _ => false);
              OpPropose [mkTxIDSeq 9 101; mkTxIDSeq 7 101]]).
  repeat constructor; apply (bool_decide_unpack _); vm_compute; exact I.
Defined.
