(* ===== verification/Ledgers.v ===== *)
(** * Ledgers as histories

    The template requirement on [Ledger] stated by
    include/xrpl/consensus/LedgerTrie.h, as an interface: the operations the trie
    and the validations use ([LedgerOps]) and the contract the documentation of the
    class gives for them: [LedgerLaws] for ledgers that know their complete ancestry,
    and [KnownLedgers] for ledgers that know the recent part of it.  The server's
    instance is [RCLValidatedLedger] of src/xrpld/app/consensus/RCLValidations.cpp,
    which carries its last 256 ancestors; the first contract is proved for it where
    the ancestry is complete, the second where all ledgers in play descend from one
    ledger that each of them still knows.

    Ledger identifiers are 256-bit hashes, sequence numbers 32-bit integers. *)
From S2P Require Import Prelude.

Class LedgerOps (L : Type) := {
  (** [Ledger(MakeGenesis{})] *)
  makeGenesis : L;
  (** [seq()] *)
  lseq : L -> Z;
  (** [id()] *)
  lid : L -> Z;
  (** [operator\[\](Seq)]: the identifier of the ancestor with that sequence *)
  ancestorAt : L -> Z -> Z;
  (** [mismatch(a, b)] *)
  mismatch : L -> L -> Z
}.

(** The contract, for the ledgers satisfying [valid].  The first three laws fix the
    genesis ledger and the identifiers; [mismatch] is the first sequence at which two
    histories differ, and they differ from there on (the unique-history invariant);
    an identifier occurs at one sequence only. *)
Class LedgerLaws (L : Type) `{LedgerOps L} (valid : L -> Prop) := {
  genesis_valid : valid makeGenesis;
  genesis_seq : lseq makeGenesis = 0;
  lseq_range : forall l, valid l -> 0 <= lseq l < 2 ^ 32 - 1;
  lid_ancestorAt : forall l, valid l -> lid l = ancestorAt l (lseq l);
  mismatch_range : forall a b, valid a -> valid b ->
    1 <= mismatch a b <= Z.min (lseq a) (lseq b) + 1;
  mismatch_agree : forall a b s, valid a -> valid b ->
    0 <= s < mismatch a b -> ancestorAt a s = ancestorAt b s;
  mismatch_differ : forall a b s, valid a -> valid b ->
    mismatch a b <= s -> s <= lseq a -> s <= lseq b -> ancestorAt a s <> ancestorAt b s;
  ancestorAt_seq : forall a b s t, valid a -> valid b ->
    0 <= s <= lseq a -> 0 <= t <= lseq b -> ancestorAt a s = ancestorAt b t -> s = t
}.

(** ** Partial knowledge *)

(** The same ledgers with another account of their ancestors. *)
Definition withHistory {L : Type} (ops : LedgerOps L) (history : L -> Z -> Z) : LedgerOps L := {|
  makeGenesis := makeGenesis;
  lseq := lseq;
  lid := lid;
  ancestorAt := history;
  mismatch := mismatch
|}.

(** Ledgers in play that know only part of their ancestry.  [history] is the complete
    ancestry, which no code can see: [mismatch] is right about it.  The operator
    returns the identifier of an ancestor or, where it is not known, [ID{0}]; it knows
    every ancestor that is itself in play; and ledgers with one identifier know the
    same (what a ledger knows is read from its own contents). *)
Class KnownLedgers (L : Type) `{ops : LedgerOps L} (valid : L -> Prop) := {
  history : L -> Z -> Z;
  history_laws :: @LedgerLaws L (withHistory ops history) valid;
  genesis_id : lid makeGenesis = 0;
  known_or_unknown : forall l s, valid l -> 0 <= s <= lseq l ->
    ancestorAt l s = history l s \/ ancestorAt l s = 0;
  known_in_play : forall a l, valid a -> valid l -> lseq a <= lseq l ->
    history l (lseq a) = lid a -> ancestorAt l (lseq a) = lid a;
  known_same : forall a b s, valid a -> valid b -> lid a = lid b ->
    0 <= s <= lseq a -> ancestorAt a s = ancestorAt b s
}.

(** Complete knowledge is the special case in which the operator is the history. *)
Section Complete.
Context {L : Type} `{LedgerOps L} (valid : L -> Prop) `{!LedgerLaws L valid}.

Lemma same_id_agree a b s :
  valid a -> valid b -> lid a = lid b -> 0 <= s <= lseq a -> ancestorAt a s = ancestorAt b s.
Proof.
  intros Ha Hb E Hs. pose proof (lseq_range a Ha). pose proof (lseq_range b Hb).
  rewrite (lid_ancestorAt a Ha), (lid_ancestorAt b Hb) in E.
  assert (Es : lseq a = lseq b) by (apply (ancestorAt_seq a b); try done; lia).
  apply mismatch_agree; [done..|]. destruct (Z.le_gt_cases (mismatch a b) s) as [Hle|]; [exfalso|lia].
  apply (mismatch_differ a b (lseq a) Ha Hb); [lia..|]. by rewrite E, Es.
Qed.

Definition completeKnown (Hgenesis : lid makeGenesis = 0) : KnownLedgers L valid.
Proof.
  refine {| history := ancestorAt |}.
  - constructor; cbn [withHistory lseq lid ancestorAt makeGenesis mismatch];
      [apply genesis_valid|apply genesis_seq|apply lseq_range|apply lid_ancestorAt|apply mismatch_range|
       apply mismatch_agree|apply mismatch_differ|apply ancestorAt_seq].
  - done.
  - tauto.
  - done.
  - apply same_id_agree.
Defined.
End Complete.

(** ** RCLValidatedLedger *)

Record RCLValidatedLedger := mkRCLLedger {
  ledgerID : Z;
  ledgerSeq : Z;
  ancestors : list Z
}.

#[export] Instance RCLValidatedLedger_eq_dec : EqDecision RCLValidatedLedger.
Proof. solve_decision. Defined.

(** [RCLValidatedLedger(MakeGenesis)] *)
Definition rclGenesis : RCLValidatedLedger := mkRCLLedger 0 0 [].

Definition minSeq (l : RCLValidatedLedger) : Z :=
  ledgerSeq l - Z.min (ledgerSeq l) (u32 (Z.of_nat (length (ancestors l)))).

(** [operator\[\]]: the default identifier 0 outside the known range. *)
Definition rclAncestor (l : RCLValidatedLedger) (s : Z) : Z :=
  if (minSeq l <=? s) && (s <=? ledgerSeq l) then
    if s =? ledgerSeq l then ledgerID l
    else
      let diff := ledgerSeq l - s in
      default 0 (ancestors l !! Z.to_nat (Z.of_nat (length (ancestors l)) - diff))
  else 0.

(** The loop of [mismatch]: [curr] counts down to zero. *)
Fixpoint mismatchLoop (a b : RCLValidatedLedger) (lower : Z) (curr : nat) : nat :=
  match curr with
  | O => O
  | S n =>
      if negb (rclAncestor a (Z.of_nat curr) =? rclAncestor b (Z.of_nat curr))
         && (lower <=? Z.of_nat curr)
      then mismatchLoop a b lower n
      else curr
  end.

Definition rclMismatch (a b : RCLValidatedLedger) : Z :=
  let lower := Z.max (minSeq a) (minSeq b) in
  let upper := Z.min (ledgerSeq a) (ledgerSeq b) in
  let curr := Z.of_nat (mismatchLoop a b lower (Z.to_nat upper)) in
  if curr <? lower then 1 else curr +32 1.

#[export] Instance RCLValidatedLedger_ops : LedgerOps RCLValidatedLedger := {|
  makeGenesis := rclGenesis;
  lseq := ledgerSeq;
  lid := ledgerID;
  ancestorAt := rclAncestor;
  mismatch := rclMismatch
|}.

(** The loop stops at the highest sequence, within the bounds, where the histories
    agree, or below [lower]. *)
Lemma mismatchLoop_spec a b lower n :
  let r := mismatchLoop a b lower n in
  (r <= n)%nat /\
  (forall s, (r < s <= n)%nat -> rclAncestor a (Z.of_nat s) <> rclAncestor b (Z.of_nat s)) /\
  (r = 0%nat \/ Z.of_nat r < lower \/ rclAncestor a (Z.of_nat r) = rclAncestor b (Z.of_nat r)).
Proof.
  induction n as [|n IH]; cbn [mismatchLoop]; [simpl; split; [lia|]; split; [lia|tauto]|].
  destruct (_ && _) eqn:E.
  - breflect. destruct IH as (H1 & H2 & H3). split; [lia|]. split; [|done].
    intros s Hs. destruct (decide (s = S n)) as [->|]; [done|]. apply H2. lia.
  - split; [lia|]. split; [lia|]. apply andb_false_iff in E as [E|E]; breflect; tauto.
Qed.

(** ** The contract for complete histories

    A ledger's hash commits to its parent's hash and to its sequence: [parentOf] and
    [seqOf] are functions of the identifier.  A ledger is on that chain with its
    complete ancestry when its vector holds the hashes of the ledgers 1 up to its
    parent. *)

Section Chain.
Context (parentOf seqOf : Z -> Z).

Definition onChain (l : RCLValidatedLedger) : Prop :=
  l = rclGenesis \/
  (1 <= ledgerSeq l < 2 ^ 32 - 1 /\ Z.of_nat (length (ancestors l)) = ledgerSeq l - 1 /\
   (forall s, 1 <= s <= ledgerSeq l -> rclAncestor l s <> 0 /\ seqOf (rclAncestor l s) = s) /\
   (forall s, 1 < s <= ledgerSeq l -> rclAncestor l (s - 1) = parentOf (rclAncestor l s))).

Lemma rclAncestor_self l : 0 <= ledgerSeq l -> rclAncestor l (ledgerSeq l) = ledgerID l.
Proof.
  intros Hs. unfold rclAncestor, minSeq.
  pose proof (u32_range (Z.of_nat (length (ancestors l)))).
  destruct (_ && _) eqn:E; [by rewrite Z.eqb_refl|].
  apply andb_false_iff in E as [E|E]; breflect; lia.
Qed.

Lemma onChain_seq l : onChain l -> 0 <= ledgerSeq l < 2 ^ 32 - 1.
Proof. intros [->|(? & _)]; simpl; lia. Qed.

Lemma onChain_minSeq l : onChain l -> minSeq l = Z.min 1 (ledgerSeq l).
Proof.
  intros [->|(Hs & Hl & _)]; [done|]. unfold minSeq. rewrite u32_id by lia. lia.
Qed.

Lemma onChain_below l s : onChain l -> s <= 0 -> rclAncestor l s = 0.
Proof.
  intros [->|H] Hs.
  - unfold rclAncestor. simpl. bcase; try done; lia.
  - unfold rclAncestor. rewrite onChain_minSeq by (by right). destruct H as (? & _).
    destruct (Z.leb_spec (Z.min 1 (ledgerSeq l)) s); [lia|done].
Qed.

Lemma onChain_seqOf l s :
  onChain l -> 1 <= s <= ledgerSeq l -> rclAncestor l s <> 0 /\ seqOf (rclAncestor l s) = s.
Proof. intros [->|(_ & _ & H & _)] Hs; [simpl in *; lia|by apply H]. Qed.

Lemma onChain_parent l s :
  onChain l -> 1 < s <= ledgerSeq l -> rclAncestor l (s - 1) = parentOf (rclAncestor l s).
Proof. intros [->|(_ & _ & _ & H)] Hs; [simpl in *; lia|by apply H]. Qed.

(** Agreement at a sequence extends to everything below it. *)
Lemma onChain_agree_below a b s :
  onChain a -> onChain b -> s <= ledgerSeq a -> s <= ledgerSeq b ->
  rclAncestor a s = rclAncestor b s -> forall t, t <= s -> rclAncestor a t = rclAncestor b t.
Proof.
  intros Ha Hb H1 H2 E.
  assert (Hn : forall n : nat, rclAncestor a (s - Z.of_nat n) = rclAncestor b (s - Z.of_nat n)).
  { induction n as [|n IH]; [by rewrite Z.sub_0_r|].
    replace (s - Z.of_nat (S n)) with (s - Z.of_nat n - 1) by lia.
    destruct (Z.le_gt_cases (s - Z.of_nat n) 1).
    - by rewrite !onChain_below by (done || lia).
    - by rewrite !onChain_parent, IH by (done || lia). }
  intros t Ht. specialize (Hn (Z.to_nat (s - t))). by replace (s - Z.of_nat (Z.to_nat (s - t))) with t in Hn by lia.
Qed.

Lemma rclMismatch_eq a b :
  onChain a -> onChain b ->
  rclMismatch a b =
  Z.of_nat (mismatchLoop a b 1 (Z.to_nat (Z.min (ledgerSeq a) (ledgerSeq b)))) + 1.
Proof.
  intros Ha Hb. unfold rclMismatch. rewrite !onChain_minSeq by done.
  pose proof (onChain_seq a Ha). pose proof (onChain_seq b Hb).
  destruct (decide (ledgerSeq a = 0 /\ ledgerSeq b = 0)) as [[Ea Eb]|Hn].
  { by rewrite Ea, Eb. }
  replace (Z.max _ _) with 1 by lia.
  destruct (mismatchLoop_spec a b 1 (Z.to_nat (Z.min (ledgerSeq a) (ledgerSeq b)))) as (H1 & _ & _).
  destruct (mismatchLoop _ _ _ _) as [|r]; [done|].
  destruct (Z.ltb_spec (Z.of_nat (S r)) 1); [lia|]. rewrite u32_id; lia.
Qed.

#[export] Instance RCLValidatedLedger_laws : LedgerLaws RCLValidatedLedger onChain.
Proof.
  constructor; simpl.
  - by left.
  - done.
  - apply onChain_seq.
  - intros l Hl. symmetry. apply rclAncestor_self. by apply onChain_seq.
  - intros a b Ha Hb. rewrite rclMismatch_eq by done.
    pose proof (onChain_seq a Ha). pose proof (onChain_seq b Hb).
    destruct (mismatchLoop_spec a b 1 (Z.to_nat (Z.min (ledgerSeq a) (ledgerSeq b)))) as (H1 & _). lia.
  - intros a b s Ha Hb. rewrite rclMismatch_eq by done.
    pose proof (onChain_seq a Ha). pose proof (onChain_seq b Hb).
    destruct (mismatchLoop_spec a b 1 (Z.to_nat (Z.min (ledgerSeq a) (ledgerSeq b)))) as (H1 & _ & H3).
    set (r := mismatchLoop _ _ _ _) in *. intros Hs.
    destruct (decide (r = 0%nat)); [by rewrite !onChain_below by (done || lia)|].
    apply (onChain_agree_below a b (Z.of_nat r)); try done; lia || (destruct H3 as [?|[?|?]]; [lia|lia|done]).
  - intros a b s Ha Hb. rewrite rclMismatch_eq by done.
    pose proof (onChain_seq a Ha). pose proof (onChain_seq b Hb).
    destruct (mismatchLoop_spec a b 1 (Z.to_nat (Z.min (ledgerSeq a) (ledgerSeq b)))) as (_ & H2 & _).
    intros Hs Hsa Hsb. specialize (H2 (Z.to_nat s)). rewrite Z2Nat.id in H2 by lia. apply H2. lia.
  - intros a b s t Ha Hb Hs Ht E.
    destruct (decide (s = 0)) as [->|]; destruct (decide (t = 0)) as [->|]; try done.
    + rewrite onChain_below in E by (done || lia).
      destruct (onChain_seqOf b t Hb) as [Hz _]; [lia|]. congruence.
    + rewrite (onChain_below b) in E by (done || lia).
      destruct (onChain_seqOf a s Ha) as [Hz _]; [lia|]. congruence.
    + destruct (onChain_seqOf a s Ha) as [_ <-]; [lia|].
      destruct (onChain_seqOf b t Hb) as [_ <-]; [lia|]. congruence.
Qed.

#[export] Instance RCLValidatedLedger_complete : KnownLedgers RCLValidatedLedger onChain :=
  completeKnown onChain eq_refl.
End Chain.

(** ** The contract for partial histories

    A ledger carries the hashes of its last [depth] ancestors (256 in the server, the
    length of the skip list it is read from).  The ledgers in play all descend from,
    or are, the ledger [base] of sequence [lo], and all still know it. *)

Section Window.
Context (parentOf seqOf : Z -> Z) (depth lo base : Z).

Fixpoint back (n : nat) (id : Z) : Z :=
  match n with O => id | S n' => parentOf (back n' id) end.

(** The complete ancestry, by the parent hashes. *)
Definition rclHistory (l : RCLValidatedLedger) (s : Z) : Z :=
  if (1 <=? s) && (s <=? ledgerSeq l) then back (Z.to_nat (ledgerSeq l - s)) (ledgerID l) else 0.

Record window (l : RCLValidatedLedger) : Prop := mkWindow {
  window_seq : 1 <= ledgerSeq l < 2 ^ 32 - 1;
  window_length : Z.of_nat (length (ancestors l)) = Z.min depth (ledgerSeq l - 1);
  window_ids : forall s, 1 <= s <= ledgerSeq l ->
    rclHistory l s <> 0 /\ seqOf (rclHistory l s) = s;
  window_known : forall s, minSeq l <= s <= ledgerSeq l -> rclAncestor l s = rclHistory l s;
  window_base : minSeq l <= lo <= ledgerSeq l /\ rclHistory l lo = base
}.

Definition inWindow (l : RCLValidatedLedger) : Prop := l = rclGenesis \/ window l.

Lemma rclHistory_low l s : s <= 0 -> rclHistory l s = 0.
Proof. intros Hs. unfold rclHistory. by destruct (Z.leb_spec 1 s); [lia|]. Qed.

Lemma rclHistory_self l : 1 <= ledgerSeq l -> rclHistory l (ledgerSeq l) = ledgerID l.
Proof.
  intros Hs. unfold rclHistory. rewrite Z.leb_refl, Z.sub_diag.
  by destruct (Z.leb_spec 1 (ledgerSeq l)); [|lia].
Qed.

Lemma rclHistory_parent l s :
  1 < s <= ledgerSeq l -> rclHistory l (s - 1) = parentOf (rclHistory l s).
Proof.
  intros Hs. unfold rclHistory.
  replace (Z.to_nat (ledgerSeq l - (s - 1))) with (S (Z.to_nat (ledgerSeq l - s))) by lia.
  bcase; try done; lia.
Qed.

Lemma rclHistory_agree_below a b s :
  s <= ledgerSeq a -> s <= ledgerSeq b -> rclHistory a s = rclHistory b s ->
  forall t, t <= s -> rclHistory a t = rclHistory b t.
Proof.
  intros H1 H2 E.
  assert (Hn : forall n : nat, rclHistory a (s - Z.of_nat n) = rclHistory b (s - Z.of_nat n)).
  { induction n as [|n IH]; [by rewrite Z.sub_0_r|].
    replace (s - Z.of_nat (S n)) with (s - Z.of_nat n - 1) by lia.
    destruct (Z.le_gt_cases (s - Z.of_nat n) 1).
    - by rewrite !rclHistory_low by lia.
    - by rewrite !rclHistory_parent, IH by lia. }
  intros t Ht. specialize (Hn (Z.to_nat (s - t))). by replace (s - Z.of_nat (Z.to_nat (s - t))) with t in Hn by lia.
Qed.

Lemma window_minSeq l : window l -> 1 <= minSeq l <= ledgerSeq l.
Proof. intros [Hs Hl _ _ _]. unfold minSeq. rewrite Hl, u32_id; lia. Qed.

Lemma rclAncestor_unknown l s : s < minSeq l -> rclAncestor l s = 0.
Proof. intros Hs. unfold rclAncestor. by destruct (Z.leb_spec (minSeq l) s); [lia|]. Qed.

Lemma inWindow_seq l : inWindow l -> 0 <= ledgerSeq l < 2 ^ 32 - 1.
Proof. intros [->|[? _ _ _ _]]; simpl; lia. Qed.

(** What the loop of [mismatch] finds: the last sequence at which the complete
    histories agree. *)
Lemma rclMismatch_window a b :
  inWindow a -> inWindow b ->
  let m := rclMismatch a b in
  1 <= m <= Z.min (ledgerSeq a) (ledgerSeq b) + 1 /\
  (forall s, 0 <= s < m -> rclHistory a s = rclHistory b s) /\
  (forall s, m <= s -> s <= ledgerSeq a -> s <= ledgerSeq b -> rclHistory a s <> rclHistory b s).
Proof.
  intros Ha Hb m. pose proof (inWindow_seq a Ha) as Hsa. pose proof (inWindow_seq b Hb) as Hsb.
  destruct (decide (Z.min (ledgerSeq a) (ledgerSeq b) = 0)) as [E|E].
  { assert (m = 1) as ->.
    { unfold m, rclMismatch. rewrite E. cbn. by case_match. }
    split; [lia|]. split; [|lia]. intros s Hs. by rewrite !rclHistory_low by lia. }
  destruct Ha as [->|Ha]; [cbn in E; lia|]. destruct Hb as [->|Hb]; [cbn in E; lia|].
  pose proof (window_minSeq a Ha). pose proof (window_minSeq b Hb).
  destruct (window_base a Ha) as [Hla Eba], (window_base b Hb) as [Hlb Ebb].
  unfold m, rclMismatch. set (lower := Z.max _ _). set (upper := Z.min _ _) in *.
  destruct (mismatchLoop_spec a b lower (Z.to_nat upper)) as (H1 & H2 & H3).
  set (r := mismatchLoop _ _ _ _) in *.
  assert (Hr : lo <= Z.of_nat r).
  { destruct (Z.le_gt_cases lo (Z.of_nat r)) as [|Hlt]; [done|exfalso].
    apply (H2 (Z.to_nat lo)); [lia|]. rewrite Z2Nat.id by lia.
    rewrite !window_known by (done || lia). congruence. }
  destruct (Z.ltb_spec (Z.of_nat r) lower); [lia|]. rewrite u32_id by lia.
  split; [lia|]. split; intros s Hs.
  - apply (rclHistory_agree_below a b (Z.of_nat r)); try lia.
    destruct H3 as [?|[?|E3]]; [lia|lia|]. by rewrite !window_known in E3 by (done || lia).
  - intros Hs1 Hs2. specialize (H2 (Z.to_nat s) ltac:(lia)). rewrite Z2Nat.id in H2 by lia.
    by rewrite !window_known in H2 by (done || lia).
Qed.

Lemma inWindow_id l s : inWindow l -> 1 <= s <= ledgerSeq l ->
  rclHistory l s <> 0 /\ seqOf (rclHistory l s) = s.
Proof. intros [->|H] Hs; [cbn in Hs; lia|by apply window_ids]. Qed.

Lemma inWindow_self l : inWindow l -> rclHistory l (ledgerSeq l) = ledgerID l.
Proof. intros [->|H]; [done|]. apply rclHistory_self, H. Qed.

Lemma inWindow_history_seq a b s t :
  inWindow a -> inWindow b -> 0 <= s <= ledgerSeq a -> 0 <= t <= ledgerSeq b ->
  rclHistory a s = rclHistory b t -> s = t.
Proof.
  intros Ha Hb Hs Ht E.
  destruct (decide (s = 0)) as [->|]; destruct (decide (t = 0)) as [->|]; try done.
  - rewrite rclHistory_low in E by lia. destruct (inWindow_id b t Hb) as [Hz _]; [lia|]. congruence.
  - rewrite (rclHistory_low b) in E by lia. destruct (inWindow_id a s Ha) as [Hz _]; [lia|]. congruence.
  - destruct (inWindow_id a s Ha) as [_ <-]; [lia|].
    destruct (inWindow_id b t Hb) as [_ <-]; [lia|]. congruence.
Qed.

Lemma inWindow_known l s : inWindow l -> 0 <= s <= ledgerSeq l ->
  rclAncestor l s = rclHistory l s \/ (s < minSeq l /\ rclAncestor l s = 0).
Proof.
  intros [->|H] Hs; [left; cbn in Hs; by assert (s = 0) as -> by lia|].
  destruct (Z.le_gt_cases (minSeq l) s).
  - left. apply window_known; [done|lia].
  - right. split; [done|]. by apply rclAncestor_unknown.
Qed.

#[export] Instance RCLValidatedLedger_known : KnownLedgers RCLValidatedLedger inWindow.
Proof.
  refine {| history := rclHistory |}; cbn [lseq lid ancestorAt makeGenesis RCLValidatedLedger_ops].
  - constructor; cbn [withHistory lseq lid ancestorAt makeGenesis mismatch RCLValidatedLedger_ops].
    + by left.
    + done.
    + apply inWindow_seq.
    + intros l Hl. symmetry. by apply inWindow_self.
    + intros a b Ha Hb. by apply rclMismatch_window.
    + intros a b s Ha Hb. by apply rclMismatch_window.
    + intros a b s Ha Hb. by apply rclMismatch_window.
    + intros a b s t. apply inWindow_history_seq.
  - done.
  - intros l s Hl Hs. destruct (inWindow_known l s Hl Hs) as [|[]]; tauto.
  - intros a l Ha Hl Hle E.
    destruct (inWindow_known l (ledgerSeq a) Hl) as [->|[Hlt E0]]; [pose proof (inWindow_seq a Ha); lia|done|].
    rewrite E0. destruct Ha as [->|Ha]; [done|]. destruct (window_base a Ha) as [Hlo _].
    destruct Hl as [->|Hl]; [pose proof (window_seq a Ha); cbn in Hle; lia|].
    destruct (window_base l Hl). lia.
  - intros a b s Ha Hb E Hs.
    assert (Es : ledgerSeq a = ledgerSeq b).
    { pose proof (inWindow_seq a Ha). pose proof (inWindow_seq b Hb).
      apply (inWindow_history_seq a b); try done; try lia. by rewrite !inWindow_self. }
    destruct Ha as [->|Ha], Hb as [->|Hb]; [done|pose proof (window_seq b Hb); cbn in Es; lia|
      pose proof (window_seq a Ha); cbn in Es; lia|].
    assert (Em : minSeq a = minSeq b) by (unfold minSeq; by rewrite !window_length, Es).
    destruct (Z.le_gt_cases (minSeq a) s).
    + rewrite !window_known by (done || lia). apply (rclHistory_agree_below a b (ledgerSeq a)); try lia.
      rewrite Es at 2. rewrite !rclHistory_self by (pose proof (window_seq a Ha); lia). done.
    + by rewrite !rclAncestor_unknown by lia.
Qed.
End Window.

(** ** Partial histories

    The server keeps the last 256 ancestors only; what [mismatch] returns then. *)

(** [mismatch] of two ledgers that know only part of their ancestry: the result
    is between 1 and one past the shorter ledger; at every known sequence from the
    result on the two ledgers differ; and unless it is 1, the sequence before it is a
    known one at which they agree.  So it is the first known difference when the
    known parts meet, and 1 (just after genesis) when they do not. *)
Theorem rclMismatch_first_difference a b :
  0 <= ledgerSeq a < 2 ^ 32 - 1 -> 0 <= ledgerSeq b < 2 ^ 32 - 1 ->
  let lower := Z.max (minSeq a) (minSeq b) in
  let upper := Z.min (ledgerSeq a) (ledgerSeq b) in
  let m := rclMismatch a b in
  1 <= m <= upper + 1 /\
  (forall s, lower <= s -> m <= s <= upper -> rclAncestor a s <> rclAncestor b s) /\
  (m <> 1 -> lower <= m - 1 /\ rclAncestor a (m - 1) = rclAncestor b (m - 1)).
Proof.
  intros Ha Hb lower upper m.
  destruct (mismatchLoop_spec a b lower (Z.to_nat upper)) as (H1 & H2 & H3).
  assert (Hd : forall s, lower <= s <= upper ->
    Z.of_nat (mismatchLoop a b lower (Z.to_nat upper)) < s -> rclAncestor a s <> rclAncestor b s).
  { intros s Hs Hlt. specialize (H2 (Z.to_nat s)). rewrite Z2Nat.id in H2 by lia. apply H2. lia. }
  unfold m, rclMismatch. fold lower upper. set (r := mismatchLoop _ _ _ _) in *.
  destruct (Z.ltb_spec (Z.of_nat r) lower) as [Hlt|Hge].
  - split; [lia|]. split; [|done]. intros s Hs1 Hs2. apply Hd; lia.
  - rewrite u32_id by lia. split; [lia|]. split; [intros s Hs1 Hs2; apply Hd; lia|].
    intros Hne. rewrite Z.add_simpl_r. split; [done|]. destruct H3 as [?|[?|?]]; [lia|lia|done].
Qed.

Lemma rclMismatch_first_difference_witness :
  let a := mkRCLLedger 51 5 [31; 41] in
  let b := mkRCLLedger 62 6 [31; 41; 52] in
  rclMismatch a b = 5 /\ 1 <= rclMismatch a b <= 6 /\
  rclAncestor a (rclMismatch a b - 1) = rclAncestor b (rclMismatch a b - 1).
Proof.
  intros a b.
  destruct (rclMismatch_first_difference a b ltac:(done) ltac:(done)) as (H1 & _ & H3).
  split; [reflexivity|]. split; [exact H1|]. apply H3. discriminate.
Defined.

(** ** A sample chain

    Identifiers are two digits, the first the sequence; 11 has the children 21 and
    22, and 21 the children 31 and 32. *)
Module Sample.

Definition seqOf (id : Z) : Z := id / 10.
Definition parentOf (id : Z) : Z := if id =? 31 then 21 else if id =? 32 then 21 else 11.

Definition L11 := mkRCLLedger 11 1 [].
Definition L21 := mkRCLLedger 21 2 [11].
Definition L22 := mkRCLLedger 22 2 [11].
Definition L31 := mkRCLLedger 31 3 [11; 21].
Definition L32 := mkRCLLedger 32 3 [11; 21].

Abbreviation chain := (onChain parentOf seqOf).

Ltac sample_chain :=
  right; split; [cbn; lia|]; split; [reflexivity|]; split; intros s Hs; cbn in Hs;
  assert (Hc : s = 1 \/ s = 2 \/ s = 3) by lia; destruct Hc as [Hc|[Hc|Hc]]; subst s;
  solve [lia | split; [discriminate|reflexivity] | reflexivity].

Lemma L11_chain : chain L11.
Proof. sample_chain. Qed.
Lemma L21_chain : chain L21.
Proof. sample_chain. Qed.
Lemma L22_chain : chain L22.
Proof. sample_chain. Qed.
Lemma L31_chain : chain L31.
Proof. sample_chain. Qed.
Lemma L32_chain : chain L32.
Proof. sample_chain. Qed.

(** Ledgers that know two ancestors, all of them descendants of the ledger 41. *)
Definition windowParent (id : Z) : Z := if id =? 61 then 51 else if 50 <? id then 41 else id - 10.
Definition L51 := mkRCLLedger 51 5 [31; 41].
Definition L52 := mkRCLLedger 52 5 [31; 41].
Definition L61 := mkRCLLedger 61 6 [41; 51].

Abbreviation known := (inWindow windowParent seqOf 2 4 41).

Ltac sample_window :=
  right; constructor;
  [cbn; lia|reflexivity| | |split; [vm_compute; split; discriminate|reflexivity]];
  intros s Hs;
  try match type of Hs with
      | minSeq ?l <= _ <= _ => let m := eval vm_compute in (minSeq l) in change (minSeq l) with m in Hs
      end; cbn in Hs;
  assert (Hc : s = 1 \/ s = 2 \/ s = 3 \/ s = 4 \/ s = 5 \/ s = 6) by lia;
  destruct Hc as [Hc|[Hc|[Hc|[Hc|[Hc|Hc]]]]]; subst s;
  solve [lia | split; [discriminate|reflexivity] | reflexivity].

Lemma L51_known : known L51.
Proof. sample_window. Qed.
Lemma L52_known : known L52.
Proof. sample_window. Qed.
Lemma L61_known : known L61.
Proof. sample_window. Qed.

End Sample.
