(* ===== verification/Trie.v ===== *)
(** * The trie of validated ledgers

    [SpanTip], [Span], [Node] and [LedgerTrie] of
    include/xrpl/consensus/LedgerTrie.h, over any ledger type with the operations of
    [LedgerOps].

    The tree of [unique_ptr]s is an inductive tree.  A [Node*] into it is the path
    of child indices from the root, so a node's parent pointer is its path without
    the last index, and a loop that climbs parent pointers is a recursion on the
    path.  Supports are 32-bit counters and wrap.  [std::map] is [gmap]; iterating it
    goes through [sortedEntries].  Printing and JSON are omitted. *)
From S2P Require Import Prelude Ledgers.

Section Trie.
Context {L : Type} `{LedgerOps L}.

(** ** SpanTip and Span *)

Record SpanTip := mkSpanTip { st_seq : Z; st_id : Z; st_ledger : L }.

(** [SpanTip::ancestor] *)
Definition tipAncestor (t : SpanTip) (s : Z) : Z := ancestorAt (st_ledger t) s.

(** The half-open interval [start, end) of the history of a ledger. *)
Record Span := mkSpan { sp_start : Z; sp_end : Z; sp_ledger : L }.

(** [Span()] and [Span(Ledger)] *)
Definition spanGenesis : Span := mkSpan 0 1 makeGenesis.
Definition spanOf (l : L) : Span := mkSpan 0 (lseq l +32 1) l.

Definition spanClamp (s : Span) (val : Z) : Z := Z.min (Z.max (sp_start s) val) (sp_end s).

Definition spanSub (s : Span) (from to : Z) : option Span :=
  let newFrom := spanClamp s from in
  let newTo := spanClamp s to in
  if newFrom <? newTo then Some (mkSpan newFrom newTo (sp_ledger s)) else None.

(** [Span::from] and [Span::before] *)
Definition spanFrom (s : Span) (spot : Z) : option Span := spanSub s spot (sp_end s).
Definition spanBefore (s : Span) (spot : Z) : option Span := spanSub s (sp_start s) spot.

Definition startID (s : Span) : Z := ancestorAt (sp_ledger s) (sp_start s).

(** [Span::diff] *)
Definition spanDiff (s : Span) (o : L) : Z := spanClamp s (mismatch (sp_ledger s) o).

(** [Span::tip] *)
Definition spanTip (s : Span) : SpanTip :=
  let tipSeq := sp_end s -32 1 in mkSpanTip tipSeq (ancestorAt (sp_ledger s) tipSeq) (sp_ledger s).

(** [merge] *)
Definition spanMerge (a b : Span) : Span :=
  if sp_end a <? sp_end b then mkSpan (Z.min (sp_start a) (sp_start b)) (sp_end b) (sp_ledger b)
  else mkSpan (Z.min (sp_start a) (sp_start b)) (sp_end a) (sp_ledger a).

(** ** Node *)

#[warnings="-register-all"]
Inductive Node := mkNode {
  n_span : Span;
  n_tip : Z;
  n_branch : Z;
  n_children : list Node
}.

(** [Node()] *)
Definition newRoot : Node := mkNode spanGenesis 0 0 [].

(** [Node::erase]: swap with the last child and drop it. *)
Definition eraseChild (i : nat) (cs : list Node) : list Node :=
  match last cs with
  | Some back => take (length cs - 1) (<[i := back]> cs)
  | None => cs
  end.

Definition setChildren (n : Node) (cs : list Node) : Node :=
  mkNode (n_span n) (n_tip n) (n_branch n) cs.

(** Dereferencing and updating through a path. *)
Fixpoint nodeAt (n : Node) (p : list nat) : option Node :=
  match p with
  | [] => Some n
  | i :: p' => match n_children n !! i with Some c => nodeAt c p' | None => None end
  end.

Fixpoint modifyAt (f : Node -> Node) (p : list nat) (n : Node) : Node :=
  match p with
  | [] => f n
  | i :: p' => setChildren n (alter (modifyAt f p') i (n_children n))
  end.

(** Apply [f] to the node at the path and to all its ancestors: the loops
    [while (node) { ...; node = node->parent; }]. *)
Fixpoint modifyUpward (f : Node -> Node) (p : list nat) (n : Node) : Node :=
  match p with
  | [] => f n
  | i :: p' => f (setChildren n (alter (modifyUpward f p') i (n_children n)))
  end.

(** ** LedgerTrie *)

Record LedgerTrie := mkTrie { root : Node; seqSupport : gmap Z Z }.

Definition emptyTrie : LedgerTrie := mkTrie newRoot ∅.

(** [find]: descend while the current position matches the entire span, into the
    first child matching further.  Returns the node's path and the first
    difference. *)
Fixpoint findFrom (ledger : L) (curr : Node) (pos : Z) : list nat * Z :=
  if pos =? sp_end (n_span curr) then
    (fix overChildren (i : nat) (cs : list Node) : list nat * Z :=
       match cs with
       | [] => ([], pos)
       | child :: cs' =>
           let childPos := spanDiff (n_span child) ledger in
           if pos <? childPos then
             let '(p, d) := findFrom ledger child childPos in (i :: p, d)
           else overChildren (S i) cs'
       end) 0%nat (n_children curr)
  else ([], pos).

Definition find (t : LedgerTrie) (ledger : L) : list nat * Z :=
  findFrom ledger (root t) (spanDiff (n_span (root t)) ledger).

(** [findByLedgerID]: depth-first, the node itself before its children. *)
Fixpoint findIDFrom (id : Z) (parent : Node) : option (list nat) :=
  if id =? st_id (spanTip (n_span parent)) then Some []
  else
    (fix overChildren (i : nat) (cs : list Node) : option (list nat) :=
       match cs with
       | [] => None
       | child :: cs' =>
           match findIDFrom id child with
           | Some p => Some (i :: p)
           | None => overChildren (S i) cs'
           end
       end) 0%nat (n_children parent).

Definition findByLedgerID (t : LedgerTrie) (ledger : L) : option (list nat) :=
  findIDFrom (lid ledger) (root t).

(** The changes [insert] makes at [loc]: split off the old suffix, add the new one,
    and add the support to [incNode] (the new node, or [loc]). *)
Definition insertHere (ledger : L) (diffSeq count : Z) (loc : Node) : Node :=
  let prefix := spanBefore (n_span loc) diffSeq in
  let oldSuffix := spanFrom (n_span loc) diffSeq in
  let newSuffix := spanFrom (spanOf ledger) diffSeq in
  let loc :=
    match oldSuffix with
    | Some os =>
        mkNode (default (n_span loc) prefix) 0 (n_branch loc)
          [mkNode os (n_tip loc) (n_branch loc) (n_children loc)]
    | None => loc
    end in
  match newSuffix with
  | Some ns =>
      mkNode (n_span loc) (n_tip loc) (n_branch loc)
        (n_children loc ++ [mkNode ns (0 +32 count) (0 +32 count) []])
  | None => mkNode (n_span loc) (n_tip loc +32 count) (n_branch loc) (n_children loc)
  end.

Definition addBranch (count : Z) (n : Node) : Node :=
  mkNode (n_span n) (n_tip n) (n_branch n +32 count) (n_children n).

(** [insert].  A new node starts with its full branch support ([insertHere]); the
    loop over the parents then starts at [loc]. *)
Definition insert (t : LedgerTrie) (ledger : L) (count : Z) : LedgerTrie :=
  let '(loc, diffSeq) := find t ledger in
  let r := modifyAt (insertHere ledger diffSeq count) loc (root t) in
  let r := modifyUpward (addBranch count) loc r in
  mkTrie r (<[lseq ledger := default 0 (seqSupport t !! lseq ledger) +32 count]> (seqSupport t)).

Definition subBranch (count : Z) (n : Node) : Node :=
  mkNode (n_span n) (n_tip n) (n_branch n -32 count) (n_children n).

Definition subTip (count : Z) (n : Node) : Node :=
  mkNode (n_span n) (n_tip n -32 count) (n_branch n) (n_children n).

(** The last loop of [remove]: erase or merge [loc] while it has no tip support and
    is not the root, then go to its parent.  The path is given from [loc] upwards. *)
Fixpoint compressUp (up : list nat) (r : Node) : Node :=
  match up with
  | [] => r
  | i :: up' =>
      match nodeAt r (rev up) with
      | Some loc =>
          if n_tip loc =? 0 then
            match n_children loc with
            | [] =>
                compressUp up'
                  (modifyAt (fun parent => setChildren parent (eraseChild i (n_children parent)))
                     (rev up') r)
            | [child] =>
                let child := mkNode (spanMerge (n_span loc) (n_span child)) (n_tip child)
                               (n_branch child) (n_children child) in
                compressUp up'
                  (modifyAt (fun parent =>
                     setChildren parent (eraseChild i (n_children parent ++ [child]))) (rev up') r)
            | _ => r
            end
          else r
      | None => r
      end
  end.

Definition seqRemove (m : gmap Z Z) (s count : Z) : gmap Z Z :=
  match m !! s with
  | Some v => if v -32 count =? 0 then delete s m else <[s := v -32 count]> m
  | None => m
  end.

Definition remove (t : LedgerTrie) (ledger : L) (count : Z) : bool * LedgerTrie :=
  match findByLedgerID t ledger with
  | None => (false, t)
  | Some path =>
      match nodeAt (root t) path with
      | None => (false, t)
      | Some loc =>
          if n_tip loc =? 0 then (false, t)
          else
            let count := Z.min count (n_tip loc) in
            let r := modifyAt (subTip count) path (root t) in
            let seqs := seqRemove (seqSupport t) (lseq ledger) count in
            let r := modifyUpward (subBranch count) path r in
            (true, mkTrie (compressUp (rev path) r) seqs)
      end
  end.

Definition nodeByID (t : LedgerTrie) (ledger : L) : option Node :=
  match findByLedgerID t ledger with Some p => nodeAt (root t) p | None => None end.

Definition tipSupport (t : LedgerTrie) (ledger : L) : Z :=
  match nodeByID t ledger with Some loc => n_tip loc | None => 0 end.

Definition branchSupport (t : LedgerTrie) (ledger : L) : Z :=
  match nodeByID t ledger with
  | Some loc => n_branch loc
  | None =>
      let '(p, diffSeq) := find t ledger in
      match nodeAt (root t) p with
      | Some loc =>
          if (lseq ledger <? diffSeq) && (lseq ledger <? sp_end (n_span loc))
          then n_branch loc else 0
      | None => 0
      end
  end.

Definition empty (t : LedgerTrie) : bool := n_branch (root t) =? 0.

(** ** getPreferred *)

(** The first inner loop: uncommitted support below [bound]. *)
Fixpoint addUncommitted (bound : Z) (it : list (Z * Z)) (uncommitted : Z)
    : Z * list (Z * Z) :=
  match it with
  | (s, c) :: it' =>
      if s <? bound then addUncommitted bound it' (uncommitted +32 c) else (uncommitted, it)
  | [] => (uncommitted, [])
  end.

(** The second inner loop: advance [nextSeq] along the span. *)
Fixpoint advanceSpan (spanEnd branch : Z) (it : list (Z * Z)) (nextSeq uncommitted : Z)
    : Z * Z * list (Z * Z) :=
  if (nextSeq <? spanEnd) && (uncommitted <? branch) then
    match it with
    | (s, c) :: it' =>
        if s <? spanEnd then advanceSpan spanEnd branch it' (s +32 1) (uncommitted +32 c)
        else (spanEnd, uncommitted, it)
    | [] => (spanEnd, uncommitted, [])
    end
  else (nextSeq, uncommitted, it).

(** The comparison given to [std::partial_sort]: larger branch support first, ties
    by the larger starting identifier. *)
Definition childBefore (a b : Node) : bool :=
  if n_branch a =? n_branch b then startID (n_span b) <? startID (n_span a)
  else n_branch b <? n_branch a.

Definition childLe (a b : Node) : Prop := childBefore b a = false.

#[export] Instance childLe_dec a b : Decision (childLe a b).
Proof. unfold childLe. apply _. Defined.

(** [std::partial_sort] with its middle at two brings the two first children to the
    front and leaves the order of the others unspecified; sorting all of them is one
    of its outcomes. *)
Definition partialSort (cs : list Node) : list Node := merge_sort childLe cs.

(** The best child and its margin, with the children as the sort leaves them. *)
Definition bestChild (cs : list Node) : option (Node * Z) * list Node :=
  match cs with
  | [] => (None, [])
  | [c] => (Some (c, n_branch c), cs)
  | _ =>
      let cs := partialSort cs in
      match cs with
      | c0 :: c1 :: _ =>
          let margin := n_branch c0 -32 n_branch c1 in
          let margin := if startID (n_span c1) <? startID (n_span c0) then margin +32 1 else margin in
          (Some (c0, margin), cs)
      | _ => (None, cs)
      end
  end.

(** The outer loop, with fuel for its iterations (one per level of the tree).
    [getPreferred] is a [const] member but sorts the children it visits, so the
    subtree is returned as well. *)
Fixpoint preferredLoop (fuel : nat) (largestIssued : Z) (curr : Node)
    (it : list (Z * Z)) (uncommitted : Z) : option (SpanTip * Node) :=
  match fuel with
  | O => None
  | S fuel' =>
      let span := n_span curr in
      let nextSeq := sp_start span +32 1 in
      let '(uncommitted, it) := addUncommitted (Z.max nextSeq largestIssued) it uncommitted in
      let '(nextSeq, uncommitted, it) :=
        advanceSpan (sp_end span) (n_branch curr) it nextSeq uncommitted in
      if nextSeq <? sp_end span then
        Some (spanTip (default span (spanBefore span nextSeq)), curr)
      else
        let '(best, cs) := bestChild (n_children curr) in
        match best with
        | Some (c, margin) =>
            if (uncommitted <? margin) || (uncommitted =? 0) then
              match preferredLoop fuel' largestIssued c it uncommitted with
              | Some (tip, c') => Some (tip, setChildren curr (c' :: tail cs))
              | None => None
              end
            else Some (spanTip span, setChildren curr cs)
        | None => Some (spanTip span, setChildren curr cs)
        end
  end.

Fixpoint height (n : Node) : nat :=
  S ((fix overChildren (cs : list Node) : nat :=
        match cs with [] => 0%nat | c :: cs' => Nat.max (height c) (overChildren cs') end)
       (n_children n)).

Definition getPreferred (t : LedgerTrie) (largestIssued : Z) : option SpanTip * LedgerTrie :=
  if empty t then (None, t)
  else
    match preferredLoop (height (root t)) largestIssued (root t)
            (sortedEntries (seqSupport t)) 0 with
    | Some (tip, r) => (Some tip, mkTrie r (seqSupport t))
    | None => (None, t)
    end.

(** ** checkInvariants *)

(** One node's checks, then its children's.  The test [child->parent != curr] has no
    counterpart: parents are implicit in the tree. *)
Fixpoint checkNode (isRoot : bool) (n : Node) : bool :=
  (isRoot || negb ((n_tip n =? 0) && (length (n_children n) <? 2)%nat)) &&
  (n_tip n + sumZ (map n_branch (n_children n)) =? n_branch n) &&
  forallb (checkNode false) (n_children n).

Fixpoint expectedSeqSupport (n : Node) (m : gmap Z Z) : gmap Z Z :=
  let m :=
    if n_tip n =? 0 then m
    else let s := sp_end (n_span n) -32 1 in <[s := default 0 (m !! s) +32 n_tip n]> m in
  (fix overChildren (cs : list Node) (m : gmap Z Z) : gmap Z Z :=
     match cs with
     | [] => m
     | c :: cs' => overChildren cs' (expectedSeqSupport c m)
     end) (n_children n) m.

Definition checkInvariants (t : LedgerTrie) : bool :=
  checkNode true (root t) && bool_decide (expectedSeqSupport (root t) ∅ = seqSupport t).

End Trie.

Arguments Node L : clear implicits.
Arguments Span L : clear implicits.
Arguments SpanTip L : clear implicits.
Arguments LedgerTrie L : clear implicits.
