(* ===== verification/TrieFacts.v ===== *)
(** * The trie of validated ledgers: invariant and refinement

    The well-formedness invariant of [LedgerTrie] (the compressed-trie and support
    invariants of its documentation), its preservation by [insert] and [remove], and
    the refinement of the trie to a multiset of supported ledgers: what [tipSupport]
    and [branchSupport] return is the number of validations of the ledger, and of the
    ledger and its descendants. *)
From S2P Require Import Prelude Ledgers Trie.

(** ** Induction on trees *)

Section NodeInd.
Context {L : Type} (P : Node L -> Prop).
Context (HP : forall n, Forall P (n_children n) -> P n).

Fixpoint node_ind' (n : Node L) : P n :=
  HP n ((fix go (cs : list (Node L)) : Forall P cs :=
           match cs with
           | [] => Forall_nil_2 P
           | c :: cs' => Forall_cons_2 P c cs' (node_ind' c) (go cs')
           end) (n_children n)).
End NodeInd.

Section Facts.
Context {L : Type} `{LedgerOps L} (valid : L -> Prop) `{!LedgerLaws L valid}.
Abbreviation Node := (Node L).
Abbreviation Span := (Span L).

(** ** Histories *)

Lemma agree_mismatch a b s :
  valid a -> valid b -> 0 <= s -> s <= lseq a -> s <= lseq b ->
  ancestorAt a s = ancestorAt b s <-> s < mismatch a b.
Proof.
  intros Ha Hb H0 H1 H2. split; intros Hs.
  - destruct (Z.lt_ge_cases s (mismatch a b)); [done|].
    by destruct (mismatch_differ a b s Ha Hb).
  - by apply mismatch_agree.
Qed.

Lemma agree_below a b s t :
  valid a -> valid b -> s <= lseq a -> s <= lseq b -> 0 <= t <= s ->
  ancestorAt a s = ancestorAt b s -> ancestorAt a t = ancestorAt b t.
Proof.
  intros Ha Hb H1 H2 Ht E. apply mismatch_agree; [done..|].
  apply agree_mismatch in E; try done; lia.
Qed.

(** ** Spans *)

Definition span_ok (s : Span) : Prop :=
  valid (sp_ledger s) /\ 0 <= sp_start s < sp_end s /\ sp_end s <= lseq (sp_ledger s) + 1.

Lemma span_ok_end s : span_ok s -> 1 <= sp_end s < 2 ^ 32.
Proof. intros (Hv & ? & ?). pose proof (lseq_range _ Hv). lia. Qed.

Lemma spanTip_ok s :
  span_ok s ->
  st_seq (spanTip s) = sp_end s - 1 /\ st_ledger (spanTip s) = sp_ledger s /\
  st_id (spanTip s) = ancestorAt (sp_ledger s) (sp_end s - 1).
Proof.
  intros Hs%span_ok_end. unfold spanTip. simpl. rewrite u32_id by lia. done.
Qed.

Lemma spanOf_ok l : valid l -> span_ok (spanOf l) /\ sp_end (spanOf l) = lseq l + 1.
Proof.
  intros Hv. pose proof (lseq_range l Hv). unfold span_ok, spanOf. simpl. rewrite u32_id by lia.
  split; [split; [done|]|]; lia.
Qed.

Lemma spanFrom_eq (s : Span) d :
  sp_start s <= sp_end s ->
  spanFrom s d =
  if Z.max (sp_start s) d <? sp_end s
  then Some (mkSpan (Z.max (sp_start s) d) (sp_end s) (sp_ledger s)) else None.
Proof.
  intros Hs. unfold spanFrom, spanSub, spanClamp.
  rewrite (Z.max_r (sp_start s) (sp_end s)), Z.min_id by lia.
  destruct (Z.ltb_spec (Z.max (sp_start s) d) (sp_end s)) as [Hlt|Hge].
  - rewrite Z.min_l by lia. by destruct (Z.ltb_spec (Z.max (sp_start s) d) (sp_end s)); [|lia].
  - rewrite Z.min_r by lia. by rewrite Z.ltb_irrefl.
Qed.

Lemma spanBefore_eq (s : Span) d :
  sp_start s < sp_end s -> sp_start s < d <= sp_end s ->
  spanBefore s d = Some (mkSpan (sp_start s) d (sp_ledger s)).
Proof.
  intros Hs Hd. unfold spanBefore, spanSub, spanClamp.
  rewrite Z.max_id, Z.max_r, !Z.min_l by lia. by destruct (Z.ltb_spec (sp_start s) d); [|lia].
Qed.

Lemma spanDiff_eq (s : Span) l :
  sp_start s < mismatch (sp_ledger s) l ->
  spanDiff s l = Z.min (mismatch (sp_ledger s) l) (sp_end s).
Proof. intros Hs. unfold spanDiff, spanClamp. lia. Qed.

(** ** The invariant *)

(** A child continues its parent's span, on the parent's history. *)
Definition childFits (n c : Node) : Prop :=
  sp_start (n_span c) = sp_end (n_span n) /\
  ancestorAt (sp_ledger (n_span c)) (sp_end (n_span n) - 1) =
  ancestorAt (sp_ledger (n_span n)) (sp_end (n_span n) - 1).

Definition childStart (c : Node) : Z := startID (n_span c).

(** [top] is set for the root, which may break the compression rule. *)
#[warnings="-register-all"]
Inductive node_ok : bool -> Node -> Prop :=
| node_ok_intro top n :
    span_ok (n_span n) -> 0 <= n_tip n ->
    n_branch n = n_tip n + sumZ (map n_branch (n_children n)) ->
    (top = false -> n_tip n = 0 -> (2 <= length (n_children n))%nat) ->
    Forall (node_ok false) (n_children n) ->
    Forall (childFits n) (n_children n) ->
    NoDup (childStart <$> n_children n) ->
    node_ok top n.

Lemma node_ok_inv top n :
  node_ok top n ->
  span_ok (n_span n) /\ 0 <= n_tip n /\
  n_branch n = n_tip n + sumZ (map n_branch (n_children n)) /\
  (top = false -> n_tip n = 0 -> (2 <= length (n_children n))%nat) /\
  Forall (node_ok false) (n_children n) /\
  Forall (childFits n) (n_children n) /\
  NoDup (childStart <$> n_children n).
Proof. by inversion 1. Qed.

Lemma node_ok_top top n : node_ok top n -> node_ok true n.
Proof. intros (?&?&?&?&?&?&?)%node_ok_inv. by constructor. Qed.

Lemma node_ok_branch top n : node_ok top n -> 0 <= n_branch n /\ (top = false -> 0 < n_branch n).
Proof.
  revert top. induction n as [n IH] using node_ind'. intros top
    (_ & Ht & Hb & Hc & Hok & _ & _)%node_ok_inv.
  assert (Hpos : Forall (fun c => 0 < n_branch c) (n_children n)).
  { apply Forall_forall. intros c Hin. rewrite Forall_forall in IH, Hok.
    by apply (IH c Hin false (Hok c Hin)). }
  assert (0 <= sumZ (map n_branch (n_children n))).
  { apply sumZ_nonneg. apply Forall_map. eapply Forall_impl; [exact Hpos|]. simpl. lia. }
  split; [lia|]. intros Htop. destruct (decide (n_tip n = 0)) as [E|]; [|lia].
  specialize (Hc Htop E). destruct (n_children n) as [|c cs]; [simpl in Hc; lia|].
  apply Forall_cons in Hpos as [? Hpos]. rewrite Hb. cbn.
  assert (0 <= sumZ (map n_branch cs)).
  { apply sumZ_nonneg, Forall_map. eapply Forall_impl; [exact Hpos|]. simpl. lia. }
  unfold sumZ in *. lia.
Qed.

Lemma child_branch top n c : node_ok top n -> c ∈ n_children n -> n_branch c <= n_branch n.
Proof.
  intros (_ & Ht & -> & _ & Hok & _)%node_ok_inv Hc.
  assert (Hall : Forall (fun c => 0 <= n_branch c) (n_children n)).
  { eapply Forall_impl; [exact Hok|]. intros x Hx. by apply (node_ok_branch false). }
  pose proof (sumZ_map_elem n_branch _ _ Hall Hc). lia.
Qed.

Lemma tip_branch top n : node_ok top n -> n_tip n <= n_branch n.
Proof.
  intros (_ & _ & -> & _ & Hok & _)%node_ok_inv.
  assert (0 <= sumZ (map n_branch (n_children n))); [|lia].
  apply sumZ_nonneg, Forall_map. eapply Forall_impl; [exact Hok|].
  intros c Hc. by apply (node_ok_branch false).
Qed.

(** ** The denotation of a tree

    A question about the tips of a tree: a test on the sequence of a tip and on its
    history, which may look at the history up to the tip only. *)

Definition Question := Z -> (Z -> Z) -> bool.

Definition respects (Q : Question) : Prop :=
  forall s f g, 0 <= s -> (forall t, 0 <= t <= s -> f t = g t) -> Q s f = Q s g.

Definition ask (Q : Question) (s : Span) : bool :=
  Q (sp_end s - 1) (ancestorAt (sp_ledger s)).

(** The support of the tips that answer yes. *)
Fixpoint weight (Q : Question) (n : Node) : Z :=
  (if ask Q (n_span n) then n_tip n else 0) +
  (fix over (cs : list Node) : Z :=
     match cs with [] => 0 | c :: cs' => weight Q c + over cs' end) (n_children n).

Lemma weight_eq Q n :
  weight Q n = (if ask Q (n_span n) then n_tip n else 0) + sumZ (map (weight Q) (n_children n)).
Proof.
  destruct n as [s t b cs]. cbn. f_equal. induction cs as [|c cs IH]; [done|]. cbn. by rewrite IH.
Qed.

(** The three questions: is the tip this ledger; has it this sequence; does it
    descend from (or equal) this ledger; and the one that always answers yes. *)
Definition qTip (id : Z) : Question := fun s f => f s =? id.
Definition qSeq (k : Z) : Question := fun s _ => s =? k.
Definition qDesc (l : L) : Question := fun s f => (lseq l <=? s) && (f (lseq l) =? lid l).
Definition qAll : Question := fun _ _ => true.

Lemma respects_qTip id : respects (qTip id).
Proof. intros s f g Hs E. unfold qTip. by rewrite E by lia. Qed.
Lemma respects_qSeq k : respects (qSeq k).
Proof. done. Qed.
Lemma respects_qDesc l : valid l -> respects (qDesc l).
Proof.
  intros Hv s f g Hs E. unfold qDesc. pose proof (lseq_range l Hv).
  destruct (Z.leb_spec (lseq l) s); [|done]. by rewrite E by lia.
Qed.
Lemma respects_qAll : respects qAll.
Proof. done. Qed.



Lemma weight_all top n : node_ok top n -> weight qAll n = n_branch n.
Proof.
  revert top. induction n as [n IH] using node_ind'. intros top
    (_ & _ & Hb & _ & Hok & _ & _)%node_ok_inv.
  rewrite weight_eq, Hb. cbn. f_equal. apply sumZ_map_ext. intros c Hin.
  rewrite Forall_forall in IH, Hok. by apply (IH c Hin false), Hok.
Qed.

(** ** Subtrees *)

Inductive inTree : Node -> Node -> Prop :=
| in_here n : inTree n n
| in_child m c n : c ∈ n_children n -> inTree m c -> inTree m n.

Lemma weight_ext Q Q' n :
  (forall m, inTree m n -> ask Q (n_span m) = ask Q' (n_span m)) -> weight Q n = weight Q' n.
Proof.
  induction n as [n IH] using node_ind'. intros E. rewrite !weight_eq, E by constructor. f_equal.
  apply sumZ_map_ext. intros c Hc. rewrite Forall_forall in IH. apply IH; [done|].
  intros m Hm. apply E. by eapply in_child.
Qed.

Lemma weight_zero Q n :
  (forall m, inTree m n -> ask Q (n_span m) = false) -> weight Q n = 0.
Proof.
  induction n as [n IH] using node_ind'. intros E. rewrite weight_eq, E by constructor.
  rewrite sumZ_map_zero; [done|]. intros c Hc. rewrite Forall_forall in IH. apply IH; [done|].
  intros m Hm. apply E. by eapply in_child.
Qed.

(** A node of the tree has the history of the top node below the end of its span. *)
Lemma inTree_history m n :
  inTree m n -> forall top, node_ok top n ->
  span_ok (n_span m) /\ (m = n \/ sp_end (n_span n) < sp_end (n_span m)) /\
  forall t, 0 <= t < sp_end (n_span n) ->
    ancestorAt (sp_ledger (n_span m)) t = ancestorAt (sp_ledger (n_span n)) t.
Proof.
  induction 1 as [n|m c n Hc Hm IH]; intros top Hok; apply node_ok_inv in Hok as Hinv;
    destruct Hinv as (Hs & _ & _ & _ & Hch & Hfit & _).
  { split; [done|]. split; [by left|done]. }
  rewrite Forall_forall in Hch, Hfit. specialize (Hch c Hc). specialize (Hfit c Hc).
  destruct (IH false Hch) as (Hms & Hle & Hag). destruct Hfit as [Hst Heq].
  apply node_ok_inv in Hch as (Hcs & _). pose proof Hcs as (Hcv & Hc1 & Hc2).
  pose proof Hs as (Hnv & Hn1 & Hn2).
  split; [done|]. split; [right; destruct Hle as [->|]; lia|].
  intros t Ht. rewrite Hag by lia. by apply (agree_below _ _ (sp_end (n_span n) - 1)); try lia.
Qed.

(** Children of one node are told apart by their first ledger. *)
Lemma child_unique top n i j ci cj mi mj s :
  node_ok top n -> n_children n !! i = Some ci -> n_children n !! j = Some cj ->
  inTree mi ci -> inTree mj cj -> s = sp_end (n_span n) ->
  ancestorAt (sp_ledger (n_span mi)) s = ancestorAt (sp_ledger (n_span mj)) s -> i = j.
Proof.
  intros (_ & _ & _ & _ & Hch & Hfit & Hnd)%node_ok_inv Hi Hj Hmi Hmj -> E.
  rewrite Forall_forall in Hch, Hfit.
  assert (Hone : forall k c m, n_children n !! k = Some c -> inTree m c ->
    ancestorAt (sp_ledger (n_span m)) (sp_end (n_span n)) = childStart c).
  { intros k c m Hk Hm. apply list_elem_of_lookup_2 in Hk.
    destruct (inTree_history m c Hm false (Hch c Hk)) as (_ & _ & Hag).
    destruct (Hfit c Hk) as [Hst _]. specialize (Hch c Hk).
    apply node_ok_inv in Hch as ((_ & Hcs & _) & _).
    unfold childStart, startID. rewrite <-Hst. apply Hag. lia. }
  rewrite (Hone i ci mi), (Hone j cj mj) in E by done.
  apply (NoDup_lookup _ i j (childStart ci) Hnd); rewrite list_lookup_fmap.
  - by rewrite Hi.
  - by rewrite Hj, E.
Qed.

(** ** find *)

(** The course of [find] from a node down to its result. *)
Inductive finds (l : L) : Node -> list nat -> Z -> Prop :=
| finds_stop n d :
    d = spanDiff (n_span n) l ->
    (d = sp_end (n_span n) -> Forall (fun c => spanDiff (n_span c) l <= d) (n_children n)) ->
    finds l n [] d
| finds_child n i c p d :
    spanDiff (n_span n) l = sp_end (n_span n) -> n_children n !! i = Some c ->
    sp_end (n_span n) < spanDiff (n_span c) l -> finds l c p d ->
    finds l n (i :: p) d.

Lemma findFrom_finds l n p d :
  findFrom l n (spanDiff (n_span n) l) = (p, d) -> finds l n p d.
Proof.
  revert p d. induction n as [n IH] using node_ind'. intros p d.
  destruct n as [s t b cs]. cbn [findFrom n_span n_children] in *.
  destruct (Z.eqb_spec (spanDiff s l) (sp_end s)) as [E|E].
  2: { intros [= <- <-]. constructor; [done|]. done. }
  assert (Hgo : forall i0 pre, cs = pre ++ drop i0 cs -> length pre = i0 ->
    Forall (fun c => spanDiff (n_span c) l <= spanDiff s l) pre ->
    (fix overChildren (i : nat) (cs : list Node) : list nat * Z :=
       match cs with
       | [] => ([], spanDiff s l)
       | child :: cs' =>
           let childPos := spanDiff (n_span child) l in
           if spanDiff s l <? childPos then
             let '(p, d) := findFrom l child childPos in (i :: p, d)
           else overChildren (S i) cs'
       end) i0 (drop i0 cs) = (p, d) -> finds l (mkNode s t b cs) p d).
  { intros i0 pre. remember (drop i0 cs) as rest eqn:Er. revert i0 pre Er.
    induction rest as [|c rest IHr]; intros i0 pre Er Hcs Hlen Hpre Hgo.
    - injection Hgo as <- <-. constructor; [done|]. intros _. cbn. by rewrite Hcs, app_nil_r.
    - assert (Hi : cs !! i0 = Some c).
      { rewrite Hcs, lookup_app_r by lia. by replace (i0 - length pre)%nat with 0%nat by lia. }
      cbn zeta in Hgo. destruct (Z.ltb_spec (spanDiff s l) (spanDiff (n_span c) l)) as [Hlt|Hge].
      + destruct (findFrom l c _) as [p' d'] eqn:Ef. injection Hgo as <- <-.
        apply (finds_child l (mkNode s t b cs) i0 c); [done|done|cbn; lia|].
        rewrite Forall_forall in IH. apply IH; [|done]. by eapply list_elem_of_lookup_2.
      + apply (IHr (S i0) (pre ++ [c])).
        * by erewrite drop_S in Er by done; simplify_eq.
        * by rewrite <-app_assoc.
        * rewrite length_app. cbn. lia.
        * apply Forall_app; split; [done|]. by constructor.
        * done. }
  apply (Hgo 0%nat []); done.
Qed.

Lemma find_finds t l p d : find t l = (p, d) -> finds l (root t) p d.
Proof. apply findFrom_finds. Qed.

(** ** Descendants *)

Lemma ask_desc_false_below l n : sp_end (n_span n) <= lseq l -> ask (qDesc l) (n_span n) = false.
Proof. intros Hle. unfold ask, qDesc. destruct (Z.leb_spec (lseq l) (sp_end (n_span n) - 1)); [lia|done]. Qed.

(** A tip descends from [l] exactly when its history has not parted from [l]. *)
Lemma ask_desc_spec l n :
  valid l -> span_ok (n_span n) ->
  ask (qDesc l) (n_span n) = true <->
  lseq l < sp_end (n_span n) /\ lseq l < mismatch (sp_ledger (n_span n)) l.
Proof.
  intros Hl (Hv & Hs1 & Hs2). pose proof (lseq_range l Hl).
  unfold ask, qDesc. rewrite andb_true_iff, Z.leb_le, Z.eqb_eq.
  split; intros [H1 H2]; (split; [lia|]).
  - rewrite lid_ancestorAt in H2 by done. apply agree_mismatch in H2; try done; lia.
  - rewrite lid_ancestorAt by done. apply agree_mismatch; try done; lia.
Qed.

(** Within the span of [n] the whole tree descends from [l], or none of it. *)
Lemma weight_desc_within top l n :
  valid l -> node_ok top n -> lseq l < sp_end (n_span n) ->
  weight (qDesc l) n =
  if lseq l <? mismatch (sp_ledger (n_span n)) l then n_branch n else 0.
Proof.
  intros Hl Hok Hlt. pose proof (node_ok_inv _ _ Hok) as ((Hv & Hs1 & Hs2) & _).
  pose proof (lseq_range l Hl).
  assert (Hm : forall m, inTree m n -> ask (qDesc l) (n_span m) =
    (lseq l <? mismatch (sp_ledger (n_span n)) l)).
  { intros m Hm. destruct (inTree_history m n Hm top Hok) as (Hms & Hle & Hag).
    pose proof Hms as (Hmv & Hm1 & Hm2).
    assert (Hme : sp_end (n_span n) <= sp_end (n_span m)) by (destruct Hle as [->|]; lia).
    apply eq_bool_prop_intro. rewrite Is_true_true, ask_desc_spec by done.
    rewrite Is_true_true, Z.ltb_lt, <-!agree_mismatch by (done || lia).
    rewrite Hag by lia. intuition lia. }
  destruct (Z.ltb_spec (lseq l) (mismatch (sp_ledger (n_span n)) l)) as [Hd|Hd].
  - rewrite <-(weight_all top n Hok). apply weight_ext. intros m Hi. by rewrite Hm.
  - apply weight_zero. intros m Hi. by rewrite Hm.
Qed.

(** A tip below child [c] descending from a ledger at or above the child's start puts
    the child's first ledger on the history of that ledger. *)
Lemma desc_in_child top l n c m :
  valid l -> node_ok top n -> c ∈ n_children n -> inTree m c ->
  ask (qDesc l) (n_span m) = true -> sp_end (n_span n) <= lseq l ->
  sp_end (n_span n) < spanDiff (n_span c) l /\
  ancestorAt (sp_ledger (n_span m)) (sp_end (n_span n)) = ancestorAt l (sp_end (n_span n)) /\
  sp_end (n_span n) <= mismatch (sp_ledger (n_span n)) l.
Proof.
  intros Hl Hok Hc Hm Hask Hle. pose proof (lseq_range l Hl).
  assert (Hmn : inTree m n) by (by eapply in_child).
  destruct (inTree_history m n Hmn top Hok) as (Hms & _ & Hagn).
  pose proof (node_ok_inv _ _ Hok) as ((Hnv & Hn1 & Hn2) & _ & _ & _ & Hch & Hfit & _).
  rewrite Forall_forall in Hch, Hfit. specialize (Hch c Hc). destruct (Hfit c Hc) as [Hst _].
  destruct (inTree_history m c Hm false Hch) as (_ & _ & Hagc).
  apply node_ok_inv in Hch as ((Hcv & Hc1 & Hc2) & _).
  pose proof Hms as (Hmv & Hm1 & Hm2).
  apply ask_desc_spec in Hask as [Hlt Hmm]; [|done..].
  assert (Heq : ancestorAt (sp_ledger (n_span m)) (sp_end (n_span n)) = ancestorAt l (sp_end (n_span n))).
  { apply agree_mismatch; try done; lia. }
  split; [|split; [done|]].
  - assert (sp_end (n_span n) < mismatch (sp_ledger (n_span c)) l).
    { apply agree_mismatch; try done; try lia. rewrite <-Hagc by lia. done. }
    rewrite spanDiff_eq by lia. lia.
  - assert (sp_end (n_span n) - 1 < mismatch (sp_ledger (n_span n)) l); [|lia].
    apply agree_mismatch; try done; try lia. rewrite <-Hagn by lia.
    apply agree_mismatch; try done; lia.
Qed.

Lemma finds_weight_desc l n p d :
  finds l n p d -> forall top, valid l -> node_ok top n ->
  sp_start (n_span n) < mismatch (sp_ledger (n_span n)) l ->
  exists loc, nodeAt n p = Some loc /\
    weight (qDesc l) n =
    if (lseq l <? d) && (lseq l <? sp_end (n_span loc)) then n_branch loc else 0.
Proof.
  induction 1 as [n d Hd Hstop|n i c p d Hd Hi Hc Hf IH]; intros top Hl Hok Hst.
  - exists n. split; [done|]. rewrite spanDiff_eq in Hd by done.
    destruct (Z.ltb_spec (lseq l) (sp_end (n_span n))) as [Hlt|Hge].
    + rewrite (weight_desc_within top) by done. rewrite andb_true_r.
      destruct (Z.ltb_spec (lseq l) d), (Z.ltb_spec (lseq l) (mismatch (sp_ledger (n_span n)) l)); lia.
    + rewrite andb_false_r. rewrite weight_eq, ask_desc_false_below by done.
      rewrite sumZ_map_zero; [done|]. intros c Hc. apply weight_zero. intros m Hm.
      destruct (ask (qDesc l) (n_span m)) eqn:E; [exfalso|done].
      destruct (desc_in_child top l n c m) as (H1 & _ & H3); try done.
      assert (d = sp_end (n_span n)) by lia.
      specialize (Hstop H0). rewrite Forall_forall in Hstop. specialize (Hstop c Hc). lia.
  - pose proof (node_ok_inv _ _ Hok) as ((Hnv & Hn1 & Hn2) & _ & _ & _ & Hch & Hfit & _).
    rewrite Forall_forall in Hch, Hfit. pose proof (list_elem_of_lookup_2 _ _ _ Hi) as Hin.
    destruct (Hfit c Hin) as [Hcs _].
    assert (Hcm : sp_end (n_span n) < mismatch (sp_ledger (n_span c)) l).
    { unfold spanDiff, spanClamp in Hc. pose proof (Hch c Hin) as Hcok.
      apply node_ok_inv in Hcok as ((? & ? & ?) & _). lia. }
    destruct (IH false Hl (Hch c Hin)) as (loc & Hloc & Hw); [lia|].
    exists loc. split; [cbn; by rewrite Hi|]. rewrite <-Hw.
    assert (Hle : sp_end (n_span n) <= lseq l).
    { pose proof (Hch c Hin) as Hcok. apply node_ok_inv in Hcok as ((Hcv & _) & _).
      pose proof (mismatch_range _ _ Hcv Hl). lia. }
    rewrite weight_eq, ask_desc_false_below, Z.add_0_l by done.
    apply (sumZ_map_single _ _ i c Hi). intros j cj Hj Hne. apply weight_zero. intros m Hm.
    destruct (ask (qDesc l) (n_span m)) eqn:E; [exfalso|done].
    pose proof (list_elem_of_lookup_2 _ _ _ Hj) as Hjn.
    destruct (desc_in_child top l n cj m) as (_ & Heq & _); try done.
    apply Hne. apply (child_unique top n j i cj c m c (sp_end (n_span n))); try done; [constructor|].
    rewrite Heq. symmetry. pose proof (Hch c Hin) as Hcok.
    apply node_ok_inv in Hcok as ((Hcv & Hc1 & Hc2) & _).
    apply agree_mismatch; try done; lia.
Qed.

(** ** findByLedgerID *)

Inductive hasID (id : Z) : Node -> list nat -> Prop :=
| hasID_here n : st_id (spanTip (n_span n)) = id -> hasID id n []
| hasID_child n i c p : n_children n !! i = Some c -> hasID id c p -> hasID id n (i :: p).

Lemma findIDFrom_spec id n :
  match findIDFrom id n with
  | Some p => hasID id n p
  | None => forall m, inTree m n -> st_id (spanTip (n_span m)) <> id
  end.
Proof.
  induction n as [n IH] using node_ind'. destruct n as [s t b cs].
  cbn [findIDFrom n_span n_children] in *.
  destruct (Z.eqb_spec id (st_id (spanTip s))) as [E|E]; [by apply hasID_here|].
  assert (Hgo : forall rest i0, drop i0 cs = rest ->
    match (fix overChildren (i : nat) (cs : list Node) : option (list nat) :=
       match cs with
       | [] => None
       | child :: cs' =>
           match findIDFrom id child with
           | Some p => Some (i :: p)
           | None => overChildren (S i) cs'
           end
       end) i0 rest with
    | Some p => hasID id (mkNode s t b cs) p
    | None => Forall (fun c => forall m, inTree m c -> st_id (spanTip (n_span m)) <> id) rest
    end).
  { induction rest as [|c rest IHr]; intros i0 Er; [constructor|].
    assert (Hi : cs !! i0 = Some c) by by rewrite <-(Nat.add_0_r i0), <-lookup_drop, Er.
    rewrite Forall_forall in IH. pose proof (IH c (list_elem_of_lookup_2 _ _ _ Hi)) as IHc.
    destruct (findIDFrom id c) as [p|]; [by eapply hasID_child|].
    specialize (IHr (S i0)). erewrite drop_S in Er by done. simplify_eq.
    specialize (IHr eq_refl). destruct (_ (S i0) _); [done|]. by constructor. }
  specialize (Hgo cs 0%nat eq_refl). destruct (_ 0%nat cs) eqn:Ego; [done|].
  intros m Hm. inversion Hm; subst; [intros E'; by apply E|].
  rewrite Forall_forall in Hgo. by eapply Hgo.
Qed.

Lemma weight_tip_absent top id n :
  node_ok top n -> (forall m, inTree m n -> st_id (spanTip (n_span m)) <> id) ->
  weight (qTip id) n = 0.
Proof.
  intros Hok Hno. apply weight_zero. intros m Hm. specialize (Hno m Hm).
  destruct (inTree_history m n Hm top Hok) as (Hs & _).
  destruct (spanTip_ok _ Hs) as (_ & _ & Hid). unfold ask, qTip.
  destruct (Z.eqb_spec (ancestorAt (sp_ledger (n_span m)) (sp_end (n_span m) - 1)) id); congruence.
Qed.

Lemma hasID_nodeAt id n p :
  hasID id n p -> exists loc, nodeAt n p = Some loc /\ inTree loc n /\ st_id (spanTip (n_span loc)) = id.
Proof.
  induction 1 as [n Hn|n i c p Hi _ (loc & H1 & H2 & H3)].
  - exists n. repeat split; [constructor|done].
  - exists loc. cbn. rewrite Hi. repeat split; try done.
    eapply in_child; [|done]. by eapply list_elem_of_lookup_2.
Qed.

(** The identifier of a tip determines the tip: below another node there is no tip
    with the same identifier. *)
Lemma tip_differs id top n c m :
  node_ok top n -> ancestorAt (sp_ledger (n_span n)) (sp_end (n_span n) - 1) = id ->
  c ∈ n_children n -> inTree m c -> ask (qTip id) (n_span m) = false.
Proof.
  intros Hok Hn Hc Hm. pose proof (node_ok_inv _ _ Hok) as ((Hv & Hs1 & Hs2) & _ & _ & _ & Hch & Hfit & _).
  rewrite Forall_forall in Hch, Hfit. destruct (Hfit c Hc) as [Hst _].
  destruct (inTree_history m c Hm false (Hch c Hc)) as ((Hmv & Hm1 & Hm2) & Hle & _).
  pose proof (Hch c Hc) as Hcok. apply node_ok_inv in Hcok as ((_ & Hc1 & _) & _).
  unfold ask, qTip. apply Z.eqb_neq. intros E.
  assert (sp_end (n_span m) - 1 = sp_end (n_span n) - 1); [|destruct Hle as [->|]; lia].
  apply (ancestorAt_seq (sp_ledger (n_span m)) (sp_ledger (n_span n))); try done; try lia; congruence.
Qed.

(** Two tips with the same identifier are below the same child. *)
Lemma tip_same_child top n i j ci cj mi mj :
  node_ok top n -> n_children n !! i = Some ci -> n_children n !! j = Some cj ->
  inTree mi ci -> inTree mj cj ->
  ancestorAt (sp_ledger (n_span mi)) (sp_end (n_span mi) - 1) =
  ancestorAt (sp_ledger (n_span mj)) (sp_end (n_span mj) - 1) -> i = j.
Proof.
  intros Hok Hi Hj Hmi Hmj E.
  pose proof (node_ok_inv _ _ Hok) as ((_ & Hn & _) & _ & _ & _ & Hch & Hfit & _).
  rewrite Forall_forall in Hch, Hfit.
  pose proof (list_elem_of_lookup_2 _ _ _ Hi) as Hii. pose proof (list_elem_of_lookup_2 _ _ _ Hj) as Hjj.
  destruct (inTree_history mi ci Hmi false (Hch ci Hii)) as ((Hv & ? & ?) & Hle & _).
  destruct (inTree_history mj cj Hmj false (Hch cj Hjj)) as ((Hv' & ? & ?) & Hle' & _).
  destruct (Hfit ci Hii) as [Hsi _].
  specialize (Hch ci Hii). apply node_ok_inv in Hch as ((_ & Hc1 & _) & _).
  assert (sp_end (n_span ci) <= sp_end (n_span mi)) by (destruct Hle as [->|]; lia).
  assert (Heq : sp_end (n_span mi) - 1 = sp_end (n_span mj) - 1)
    by (apply (ancestorAt_seq (sp_ledger (n_span mi)) (sp_ledger (n_span mj))); try done; lia).
  apply (child_unique top n i j ci cj mi mj (sp_end (n_span n))); try done.
  apply (agree_below _ _ (sp_end (n_span mi) - 1)); try done; try lia. by rewrite E, Heq.
Qed.

(** The tip's support is the weight of its identifier ... *)
Lemma hasID_weight_tip id n p :
  hasID id n p -> forall top loc, node_ok top n -> nodeAt n p = Some loc ->
  weight (qTip id) n = n_tip loc.
Proof.
  induction 1 as [n Hn|n i c p Hi Hp IH]; intros top loc Hok Hloc.
  - injection Hloc as <-. pose proof (node_ok_inv _ _ Hok) as (Hs & _).
    destruct (spanTip_ok _ Hs) as (_ & _ & Hid). rewrite Hid in Hn.
    rewrite weight_eq. unfold ask at 1, qTip at 1. rewrite Hn, Z.eqb_refl.
    rewrite sumZ_map_zero; [lia|]. intros c Hc. apply weight_zero. intros m Hm.
    by apply (tip_differs id top n c).
  - cbn in Hloc. rewrite Hi in Hloc. pose proof (list_elem_of_lookup_2 _ _ _ Hi) as Hin.
    pose proof (node_ok_inv _ _ Hok) as (Hs & _ & _ & _ & Hch & _).
    rewrite Forall_forall in Hch. specialize (IH false loc (Hch c Hin) Hloc).
    destruct (hasID_nodeAt _ _ _ Hp) as (loc' & Hloc' & Hlin & Hlid). simplify_eq.
    destruct (inTree_history loc c Hlin false (Hch c Hin)) as (Hls & _).
    destruct (spanTip_ok _ Hls) as (_ & _ & Hid).
    rewrite weight_eq, <-IH. replace (ask _ _) with false.
    + rewrite Z.add_0_l. apply (sumZ_map_single _ _ i c Hi).
      intros j cj Hj Hne. apply weight_zero. intros m Hm. unfold ask, qTip.
      apply Z.eqb_neq. rewrite Hid. intros E. by apply Hne, (tip_same_child top n j i cj c m loc).
    + symmetry. unfold ask, qTip. apply Z.eqb_neq. intros E.
      pose proof (tip_differs _ _ _ c loc Hok E Hin Hlin) as Hf. unfold ask, qTip in Hf.
      apply Z.eqb_neq in Hf. congruence.
Qed.

(** ... and its branch support the weight of its descendants. *)
Lemma hasID_weight_desc l n p :
  hasID (lid l) n p -> forall top loc, valid l -> node_ok top n -> nodeAt n p = Some loc ->
  weight (qDesc l) n = n_branch loc.
Proof.
  induction 1 as [n Hn|n i c p Hi Hp IH]; intros top loc Hl Hok Hloc;
    pose proof (lseq_range l Hl);
    pose proof (node_ok_inv _ _ Hok) as (Hs & _ & _ & _ & Hch & Hfit & _).
  - injection Hloc as <-. destruct (spanTip_ok _ Hs) as (_ & _ & Hid).
    destruct Hs as (Hv & Hs1 & Hs2). rewrite Hid, lid_ancestorAt in Hn by done.
    assert (Hseq : sp_end (n_span n) - 1 = lseq l)
      by (apply (ancestorAt_seq (sp_ledger (n_span n)) l); try done; lia).
    rewrite (weight_desc_within top) by (done || lia).
    destruct (Z.ltb_spec (lseq l) (mismatch (sp_ledger (n_span n)) l)) as [|Hge]; [done|].
    assert (lseq l < mismatch (sp_ledger (n_span n)) l); [|lia].
    apply agree_mismatch; try done; try lia; congruence.
  - cbn in Hloc. rewrite Hi in Hloc. pose proof (list_elem_of_lookup_2 _ _ _ Hi) as Hin.
    rewrite Forall_forall in Hch, Hfit. destruct (Hfit c Hin) as [Hst _].
    specialize (IH false loc Hl (Hch c Hin) Hloc).
    destruct (hasID_nodeAt _ _ _ Hp) as (loc' & Hloc' & Hlin & Hlid). simplify_eq.
    destruct (inTree_history loc c Hlin false (Hch c Hin)) as (Hls & Hle & _).
    pose proof (Hch c Hin) as Hcok. apply node_ok_inv in Hcok as ((Hcv & Hc1 & Hc2) & _).
    destruct (spanTip_ok _ Hls) as (_ & _ & Hid). destruct Hls as (Hlv & Hl1 & Hl2), Hs as (Hnv & Hn1 & Hn2).
    assert (Hend : sp_end (n_span n) < sp_end (n_span loc)) by (destruct Hle as [->|]; lia).
    rewrite Hid, lid_ancestorAt in Hlid by done.
    assert (Hseq : sp_end (n_span loc) - 1 = lseq l)
      by (apply (ancestorAt_seq (sp_ledger (n_span loc)) l); try done; lia).
    rewrite <-IH, weight_eq, ask_desc_false_below, Z.add_0_l by lia.
    apply (sumZ_map_single _ _ i c Hi). intros j cj Hj Hne. apply weight_zero. intros m Hm.
    destruct (ask (qDesc l) (n_span m)) eqn:E; [exfalso|done].
    pose proof (list_elem_of_lookup_2 _ _ _ Hj) as Hjn.
    destruct (desc_in_child top l n cj m) as (_ & Heq & _); try done; [lia|].
    apply Hne. apply (child_unique top n j i cj c m loc (sp_end (n_span n))); try done.
    rewrite Heq. symmetry. apply (agree_below _ _ (lseq l)); try done; try lia; congruence.
Qed.

(** ** insert *)

(** [modifyAt] followed by [modifyUpward] on the same path, in one pass. *)
Fixpoint modifyPath (f g : Node -> Node) (p : list nat) (n : Node) : Node :=
  match p with
  | [] => f (g n)
  | i :: p' => f (setChildren n (alter (modifyPath f g p') i (n_children n)))
  end.

Lemma modifyPath_eq f g p n : modifyUpward f p (modifyAt g p n) = modifyPath f g p n.
Proof.
  revert n. induction p as [|i p IH]; intros n; [done|]. cbn. f_equal. f_equal.
  rewrite list_alter_alter_eq. apply list_alter_ext; [|done]. intros c _. apply IH.
Qed.

(** The weight a ledger contributes. *)
Definition contrib (Q : Question) (l : L) (count : Z) : Z :=
  if Q (lseq l) (ancestorAt l) then count else 0.

(** What a rewriting of a subtree must keep for the surrounding tree. *)
Definition keepsTop (n n' : Node) : Prop :=
  sp_start (n_span n') = sp_start (n_span n) /\ sp_ledger (n_span n') = sp_ledger (n_span n).

Lemma keepsTop_child n n' parent :
  keepsTop n n' -> childFits parent n -> childFits parent n' /\ childStart n' = childStart n.
Proof.
  unfold keepsTop, childFits, childStart, startID. intros [-> ->]. done.
Qed.

(** Replacing a child by one in the same place. *)
Lemma node_ok_replace top n i c c' delta :
  node_ok top n -> n_children n !! i = Some c -> node_ok false c' ->
  childFits n c' -> childStart c' = childStart c -> n_branch c' = n_branch c + delta ->
  node_ok top (mkNode (n_span n) (n_tip n) (n_branch n + delta) (<[i := c']> (n_children n))).
Proof.
  intros (Hs & Ht & Hb & Hcmp & Hch & Hfit & Hnd)%node_ok_inv Hi Hc' Hf Hst Hbr.
  constructor; cbn; try done.
  - rewrite (sumZ_map_insert _ _ _ _ _ Hi). lia.
  - rewrite length_insert. done.
  - by apply Forall_insert.
  - by apply Forall_insert.
  - rewrite list_fmap_insert, Hst, list_insert_id; [done|]. by rewrite list_lookup_fmap, Hi.
Qed.

Lemma child_fits top n c : node_ok top n -> c ∈ n_children n -> node_ok false c /\ childFits n c.
Proof.
  intros (_ & _ & _ & _ & Hch & Hfit & _)%node_ok_inv Hc. rewrite Forall_forall in Hch, Hfit. auto.
Qed.

Lemma mkNode_eta (n : Node) : mkNode (n_span n) (n_tip n) (n_branch n) (n_children n) = n.
Proof. by destruct n. Qed.

(** The result of the insertion at the node [find] returns. *)
Definition insertedAt (top : bool) (l : L) (count : Z) (n n' : Node) : Prop :=
  node_ok top n' /\ keepsTop n n' /\ n_branch n' = n_branch n + count /\
  sp_end (n_span n') <= sp_end (n_span n) /\
  forall Q, respects Q -> weight Q n' = weight Q n + contrib Q l count.

(** The new leaf for the suffix of a ledger. *)
Lemma leaf_ok l d count :
  valid l -> 0 <= d <= lseq l -> 0 < count ->
  node_ok false (mkNode (mkSpan d (lseq l + 1) l) count count []).
Proof.
  intros Hl Hd Hc. constructor; cbn; try done; try lia; [split; [done|cbn; lia]|constructor].
Qed.

Lemma weight_leaf Q l d b count :
  weight Q (mkNode (mkSpan d (lseq l + 1) l) count b []) = contrib Q l count.
Proof.
  rewrite weight_eq. unfold ask, contrib. cbn. rewrite Z.add_simpl_r. destruct (Q _ _); lia.
Qed.

(** The history splits inside the span: the node keeps the prefix. *)
Lemma insertHere_split top n l d count :
  valid l -> node_ok top n -> (top = true -> sp_end (n_span n) = 1) ->
  0 < count -> n_branch n + count < 2 ^ 32 ->
  d = mismatch (sp_ledger (n_span n)) l -> sp_start (n_span n) < d < sp_end (n_span n) ->
  insertedAt top l count n (addBranch count (insertHere l d count n)).
Proof.
  intros Hl Hok Htop Hc Hsmall Hd Hrng. pose proof (lseq_range l Hl).
  pose proof (node_ok_branch _ _ Hok) as [Hbr _].
  apply node_ok_inv in Hok as (Hs & Ht & Hb & Hcmp & Hch & Hfit & Hnd).
  pose proof Hs as (Hv & Hs1 & Hs2). destruct (spanOf_ok l Hl) as [(_ & [_ Hso] & _) Hle].
  assert (top = false) as -> by (destruct top; [specialize (Htop eq_refl); lia|done]).
  pose proof (mismatch_range _ _ Hv Hl) as Hmr.
  unfold insertHere. rewrite spanBefore_eq, !spanFrom_eq by lia. rewrite Hle.
  cbn [sp_start spanOf]. rewrite (Z.max_r 0 d), (Z.max_r (sp_start _) d) by lia.
  destruct (Z.ltb_spec d (sp_end (n_span n))); [|lia].
  set (old := mkNode (mkSpan d (sp_end (n_span n)) (sp_ledger (n_span n))) (n_tip n) (n_branch n) (n_children n)).
  assert (Hold : node_ok false old).
  { constructor; cbn; try done. split; [done|]. cbn. lia. }
  assert (Hwold : forall Q, weight Q old = weight Q n) by (intros Q; by rewrite !weight_eq).
  destruct (Z.ltb_spec d (lseq l + 1)) as [Hnew|Hnone]; unfold addBranch; cbn.
  - (* both histories continue *)
    rewrite !u32_id by lia. rewrite Z.add_0_l. split; [|split; [by split|]; split; [done|]; split; [cbn; lia|]].
    + constructor; cbn; try done; try lia.
      * split; [done|]. cbn. lia.
      * constructor; [done|]. constructor; [|constructor]. apply leaf_ok; done || lia.
      * constructor; [done|]. constructor; [|constructor]. split; cbn; [done|].
        symmetry. apply mismatch_agree; try done; lia.
      * unfold childStart, startID. cbn. apply NoDup_cons. split; [|apply NoDup_singleton].
        intros E%list_elem_of_singleton. revert E. apply mismatch_differ; try done; lia.
    + intros Q HQ. rewrite weight_eq. cbn [n_span n_tip n_children map sumZ foldr].
      rewrite weight_leaf, Hwold. destruct (ask Q _); lia.
  - (* the ledger ends here *)
    rewrite !u32_id by lia. rewrite Z.add_0_l. split; [|split; [by split|]; split; [done|]; split; [cbn; lia|]].
    + constructor; cbn; try done; try lia.
      * split; [done|]. cbn. lia.
      * constructor; [done|constructor].
      * constructor; [done|constructor].
      * apply NoDup_singleton.
    + intros Q HQ. rewrite weight_eq. cbn [n_span n_tip n_children map sumZ foldr].
      rewrite Hwold. unfold ask, contrib. cbn [sp_end sp_ledger].
      assert (d - 1 = lseq l) as -> by lia.
      rewrite (HQ (lseq l) (ancestorAt (sp_ledger (n_span n))) (ancestorAt l)) by
        (done || lia || (intros; apply mismatch_agree; try done; lia)).
      destruct (Q _ _); lia.
Qed.

(** The whole span matches and no child continues. *)
Lemma insertHere_end top n l count :
  valid l -> node_ok top n -> 0 < count -> n_branch n + count < 2 ^ 32 ->
  sp_end (n_span n) <= mismatch (sp_ledger (n_span n)) l ->
  Forall (fun c => spanDiff (n_span c) l <= sp_end (n_span n)) (n_children n) ->
  insertedAt top l count n (addBranch count (insertHere l (sp_end (n_span n)) count n)).
Proof.
  intros Hl Hok Hc Hsmall Hm Hstop. pose proof (lseq_range l Hl).
  pose proof (node_ok_branch _ _ Hok) as [Hbr _].
  pose proof (node_ok_inv _ _ Hok) as (Hs & Ht & Hb & Hcmp & Hch & Hfit & Hnd).
  pose proof Hs as (Hv & Hs1 & Hs2). destruct (spanOf_ok l Hl) as [(_ & [_ Hso] & _) Hle].
  pose proof (mismatch_range _ _ Hv Hl) as Hmr.
  pose proof (tip_branch _ _ Hok) as Htb.
  unfold insertHere. rewrite !spanFrom_eq by lia. rewrite Hle.
  cbn [sp_start spanOf]. rewrite (Z.max_r 0), (Z.max_r (sp_start _)), Z.ltb_irrefl by lia.
  destruct (Z.ltb_spec (sp_end (n_span n)) (lseq l + 1)) as [Hnew|Hnone]; unfold addBranch; cbn.
  - rewrite !u32_id by lia. rewrite Z.add_0_l.
    split; [|split; [by split|]; split; [done|]; split; [cbn; lia|]].
    + constructor; cbn; try done; try lia.
      * rewrite map_app, sumZ_app. cbn. lia.
      * rewrite length_app. cbn. intros H1 H2. specialize (Hcmp H1 H2). lia.
      * apply Forall_app. split; [done|]. constructor; [|constructor]. apply leaf_ok; done || lia.
      * apply Forall_app. split; [done|]. constructor; [|constructor]. split; cbn; [done|].
        symmetry. apply mismatch_agree; try done; lia.
      * rewrite fmap_app. apply NoDup_app. split; [done|]. split; [|apply NoDup_singleton].
        intros x (c & -> & Hcin)%list_elem_of_fmap Hx%list_elem_of_singleton. revert Hx.
        rewrite Forall_forall in Hstop, Hch, Hfit. specialize (Hstop c Hcin).
        destruct (Hfit c Hcin) as [Hst _].
        specialize (Hch c Hcin). apply node_ok_inv in Hch as ((Hcv & Hc1 & Hc2) & _).
        unfold childStart, startID. cbn. rewrite Hst.
        unfold spanDiff, spanClamp in Hstop.
        apply mismatch_differ; try done; lia.
    + intros Q HQ. rewrite (weight_eq Q n), weight_eq. cbn [n_span n_tip n_children].
      rewrite map_app, sumZ_app. cbn [map sumZ foldr]. rewrite weight_leaf. lia.
  - rewrite !u32_id by lia.
    split; [|split; [by split|]; split; [done|]; split; [cbn; lia|]].
    + constructor; cbn; try done; try lia. unfold sumZ in Hb. lia.
    + intros Q HQ. rewrite (weight_eq Q (mkNode _ _ _ _)), (weight_eq Q n).
      cbn [n_span n_tip n_children]. unfold ask, contrib.
      assert (sp_end (n_span n) - 1 = lseq l) as -> by lia.
      rewrite (HQ (lseq l) (ancestorAt (sp_ledger (n_span n))) (ancestorAt l)) by
        (done || lia || (intros; apply mismatch_agree; try done; lia)).
      destruct (Q _ _); lia.
Qed.

Lemma insert_node l n p d count :
  finds l n p d -> forall top, valid l -> node_ok top n -> (top = true -> sp_end (n_span n) = 1) ->
  0 < count -> n_branch n + count < 2 ^ 32 ->
  sp_start (n_span n) < mismatch (sp_ledger (n_span n)) l ->
  insertedAt top l count n (modifyPath (addBranch count) (insertHere l d count) p n).
Proof.
  induction 1 as [n d Hd Hstop|n i c p d Hd Hi Hc Hf IH]; intros top Hl Hok Htop Hpos Hsmall Hst; cbn.
  - rewrite spanDiff_eq in Hd by done.
    destruct (Z.lt_ge_cases d (sp_end (n_span n))).
    + apply insertHere_split; try done; lia.
    + assert (d = sp_end (n_span n)) as -> by lia. apply insertHere_end; try done; try lia.
      by apply Hstop.
  - rewrite (list_alter_lookup _ _ _ _ Hi). pose proof (list_elem_of_lookup_2 _ _ _ Hi) as Hin.
    pose proof (node_ok_branch _ _ Hok) as [Hbr _].
    pose proof (node_ok_inv _ _ Hok) as (Hs & Ht & Hb & _ & Hch & Hfit & _).
    rewrite Forall_forall in Hfit. destruct (Hfit c Hin) as [Hcs _].
    pose proof (child_branch _ _ _ Hok Hin) as Hcb.
    rewrite Forall_forall in Hch.
    destruct (IH false Hl (Hch c Hin)) as (H1 & H2 & H3 & _ & H5); try done; try lia.
    { unfold spanDiff, spanClamp in Hc. pose proof (Hch c Hin) as Hcok.
      apply node_ok_inv in Hcok as ((? & ? & ?) & _). lia. }
    split; [|split; [by split|]; split; [|split; [done|]]].
    + unfold addBranch, setChildren. cbn. rewrite u32_id by lia.
      destruct (keepsTop_child _ _ n H2 (Hfit c Hin)). by apply (node_ok_replace _ _ _ c).
    + cbn. apply u32_id. lia.
    + intros Q HQ. unfold addBranch, setChildren. rewrite (weight_eq Q (mkNode _ _ _ _)), (weight_eq Q n).
      cbn [n_span n_tip n_children]. rewrite (sumZ_map_insert _ _ _ _ _ Hi), H5 by done. lia.
Qed.

(** ** The trie and its queries *)

(** An entry of [seqSupport]: absent rather than zero. *)
Definition optSupport (w : Z) : option Z := if w =? 0 then None else Some w.

Lemma default_optSupport w : default 0 (optSupport w) = w.
Proof. unfold optSupport. by destruct (Z.eqb_spec w 0). Qed.

Lemma optSupport_pos w : 0 < w -> optSupport w = Some w.
Proof. intros Hw. unfold optSupport. by destruct (Z.eqb_spec w 0); [lia|]. Qed.

Definition trie_ok (t : LedgerTrie L) : Prop :=
  node_ok true (root t) /\ sp_start (n_span (root t)) = 0 /\ sp_end (n_span (root t)) = 1 /\
  n_branch (root t) < 2 ^ 32 /\
  forall s, seqSupport t !! s = optSupport (weight (qSeq s) (root t)).

Lemma emptyTrie_ok : trie_ok emptyTrie.
Proof.
  split; [|split; [done|]; split; [done|]; split; [done|]].
  - constructor; cbn; try done; try lia; try constructor; try lia; [apply genesis_valid|].
    cbn. rewrite genesis_seq. lia.
  - intros s. cbn. unfold ask. cbn. by destruct (qSeq _ _ _).
Qed.

Lemma root_mismatch t l : trie_ok t -> valid l ->
  sp_start (n_span (root t)) < mismatch (sp_ledger (n_span (root t))) l.
Proof.
  intros (Hok & -> & _) Hl. apply node_ok_inv in Hok as ((Hv & _) & _).
  pose proof (mismatch_range _ _ Hv Hl). lia.
Qed.

Lemma tipSupport_weight t l : trie_ok t -> tipSupport t l = weight (qTip (lid l)) (root t).
Proof.
  intros (Hok & _). unfold tipSupport, nodeByID, findByLedgerID.
  pose proof (findIDFrom_spec (lid l) (root t)) as Hf. destruct (findIDFrom _ _) as [p|].
  - destruct (hasID_nodeAt _ _ _ Hf) as (loc & Hloc & _). rewrite Hloc.
    symmetry. by apply (hasID_weight_tip _ _ p Hf true).
  - symmetry. by apply (weight_tip_absent true).
Qed.

Lemma branchSupport_weight t l : trie_ok t -> valid l ->
  branchSupport t l = weight (qDesc l) (root t).
Proof.
  intros Ht Hl. pose proof (root_mismatch t l Ht Hl) as Hm. destruct Ht as (Hok & _).
  unfold branchSupport, nodeByID, findByLedgerID.
  pose proof (findIDFrom_spec (lid l) (root t)) as Hf. destruct (findIDFrom _ _) as [p|].
  - destruct (hasID_nodeAt _ _ _ Hf) as (loc & Hloc & _). rewrite Hloc.
    symmetry. by apply (hasID_weight_desc l _ p Hf true).
  - destruct (find t l) as [p d] eqn:Ef. apply find_finds in Ef.
    destruct (finds_weight_desc l _ _ _ Ef true Hl Hok Hm) as (loc & -> & ->). done.
Qed.

Lemma weight_nonneg Q top n : node_ok top n -> 0 <= weight Q n <= n_branch n.
Proof.
  revert top. induction n as [n IH] using node_ind'. intros top
    (_ & Ht & Hb & _ & Hok & _ & _)%node_ok_inv.
  assert (0 <= sumZ (map (weight Q) (n_children n)) <= sumZ (map n_branch (n_children n))).
  { clear Hb. induction (n_children n) as [|c cs IHc]; [done|].
    apply Forall_cons in IH as [IH0 IH], Hok as [Hok0 Hok]. specialize (IH0 _ Hok0).
    specialize (IHc IH Hok). cbn. unfold sumZ in *. lia. }
  rewrite weight_eq, Hb. destruct (ask Q _); lia.
Qed.

(** [insert] on the whole trie. *)
Lemma insert_ok t l count :
  trie_ok t -> valid l -> 0 < count -> n_branch (root t) + count < 2 ^ 32 ->
  trie_ok (insert t l count) /\
  forall Q, respects Q -> weight Q (root (insert t l count)) = weight Q (root t) + contrib Q l count.
Proof.
  intros Ht Hl Hc Hsmall. pose proof (root_mismatch t l Ht Hl) as Hm.
  destruct Ht as (Hok & Hs0 & He1 & Hb & Hseq). unfold insert.
  destruct (find t l) as [p d] eqn:Ef. apply find_finds in Ef. cbn [root seqSupport].
  rewrite modifyPath_eq.
  destruct (insert_node l _ _ _ count Ef true Hl Hok) as (H1 & (H2 & _) & H3 & H4 & H5); try done.
  split; [|done]. unfold trie_ok. cbn [root seqSupport].
  split; [done|]. split; [congruence|]. split.
  { apply node_ok_inv in H1 as ((_ & ? & _) & _). lia. }
  split; [lia|]. intros s. rewrite H5 by done.
  change (contrib (qSeq s) l count) with (if lseq l =? s then count else 0).
  pose proof (weight_nonneg (qSeq s) true _ Hok).
  destruct (Z.eqb_spec (lseq l) s) as [->|Hne].
  - rewrite lookup_insert_eq, Hseq, default_optSupport, u32_id by lia.
    by rewrite optSupport_pos by lia.
  - by rewrite lookup_insert_ne, Hseq, Z.add_0_r by done.
Qed.

(** ** remove *)

Lemma eraseChild_perm i (cs : list Node) :
  (i < length cs)%nat -> eraseChild i cs ≡ₚ delete i cs.
Proof.
  induction cs as [|back cs _] using rev_ind; [cbn; lia|].
  unfold eraseChild. rewrite last_snoc, length_app. cbn. intros Hi.
  replace (length cs + 1 - 1)%nat with (length cs) by lia.
  destruct (decide (i = length cs)) as [->|Hne].
  - rewrite insert_app_r_alt, Nat.sub_diag by lia. cbn. rewrite take_app_length.
    by rewrite delete_middle, app_nil_r.
  - assert (i < length cs)%nat as Hlt by lia. rewrite insert_app_l by done.
    rewrite take_app_length' by by rewrite length_insert.
    destruct (lookup_lt_is_Some_2 cs i Hlt) as [x Hx].
    rewrite <-(take_drop_middle cs i x Hx) at 2.
    assert (length (take i cs) = i) as Hl by (rewrite length_take; lia).
    rewrite <-app_assoc. cbn. rewrite <-Hl at 2. rewrite delete_middle.
    rewrite insert_take_drop by done.
    apply Permutation_app_head, Permutation_cons_append.
Qed.

(** Replacing an entry by a new last one. *)
Lemma eraseChild_snoc i (cs : list Node) c :
  (i < length cs)%nat -> eraseChild i (cs ++ [c]) = <[i := c]> cs.
Proof.
  intros Hi. unfold eraseChild. rewrite last_snoc, length_app, insert_app_l by done. cbn.
  rewrite take_app_length'; [done|]. rewrite length_insert. lia.
Qed.

Definition mergeChild (loc child : Node) : Node :=
  mkNode (spanMerge (n_span loc) (n_span child)) (n_tip child) (n_branch child) (n_children child).

(** One iteration of the loop, seen from the parent; the flag tells whether the loop
    goes on there. *)
Definition compressStep (i : nat) (loc parent : Node) : Node * bool :=
  if n_tip loc =? 0 then
    match n_children loc with
    | [] => (setChildren parent (eraseChild i (n_children parent)), true)
    | [child] => (setChildren parent (eraseChild i (n_children parent ++ [mergeChild loc child])), true)
    | _ => (parent, false)
    end
  else (parent, false).

(** The loop as a recursion from the top. *)
Fixpoint compressPath (p : list nat) (n : Node) : Node * bool :=
  match p with
  | [] => (n, true)
  | i :: p' =>
      match n_children n !! i with
      | Some c =>
          let '(c', go) := compressPath p' c in
          let n' := setChildren n (<[i := c']> (n_children n)) in
          if go then compressStep i c' n' else (n', false)
      | None => (n, false)
      end
  end.

Lemma setChildren_id (n : Node) : setChildren n (n_children n) = n.
Proof. by destruct n. Qed.

Lemma setChildren_twice (n : Node) a b : setChildren (setChildren n a) b = setChildren n b.
Proof. done. Qed.

Lemma nodeAt_app (n : Node) p i :
  nodeAt n (p ++ [i]) =
  match nodeAt n p with Some q => n_children q !! i | None => None end.
Proof.
  revert n. induction p as [|j p IH]; intros n; cbn; [by destruct (n_children n !! i)|].
  by destruct (n_children n !! j).
Qed.

(** The recursion for a longer path: the last node's iteration, then the rest. *)
Lemma compressPath_snoc p i n q c :
  nodeAt n p = Some q -> n_children q !! i = Some c ->
  compressPath (p ++ [i]) n =
  let '(q', go) := compressStep i c q in
  if go then compressPath p (modifyAt (fun _ => q') p n) else (n, false).
Proof.
  revert n. induction p as [|j p IH]; intros n Hq Hc.
  - injection Hq as ->. cbn. rewrite Hc, list_insert_id, setChildren_id by done.
    unfold compressStep. by destruct (n_tip c =? 0), (n_children c) as [|? [|]].
  - cbn in Hq. cbn. destruct (n_children n !! j) as [m|] eqn:Hj; [|done]. rewrite (IH m Hq Hc).
    destruct (compressStep i c q) as [q' []].
    + rewrite (list_alter_lookup _ _ _ _ Hj), list_lookup_insert_eq by by eapply lookup_lt_Some.
      destruct (compressPath p _) as [m' go]. cbn. by rewrite list_insert_insert_eq.
    + by rewrite list_insert_id, setChildren_id by done.
Qed.

Lemma compressUp_path p n :
  is_Some (nodeAt n p) -> compressUp (rev p) n = (compressPath p n).1.
Proof.
  revert n. induction p as [|i p IH] using rev_ind; intros n [c Hc]; [done|].
  rewrite nodeAt_app in Hc. destruct (nodeAt n p) as [q|] eqn:Hq; [|done].
  rewrite (compressPath_snoc _ _ _ _ _ Hq Hc), rev_app_distr. cbn [rev app compressUp].
  change (rev (i :: rev p)) with (rev (rev p) ++ [i]). rewrite !rev_involutive.
  rewrite nodeAt_app, Hq, Hc.
  assert (Hmod : forall f, modifyAt f p n = modifyAt (fun _ => f q) p n).
  { intros f. clear IH Hc. revert n Hq. induction p as [|j p IHp]; intros n Hq; [by injection Hq as ->|].
    cbn in *. destruct (n_children n !! j) as [m|] eqn:Hj; [|done].
    by rewrite !(list_alter_lookup _ _ _ _ Hj), IHp. }
  assert (Hsome : forall f, is_Some (nodeAt (modifyAt f p n) p)).
  { intros f. clear IH Hc Hmod. revert n Hq. induction p as [|j p IHp]; intros n Hq; [by eexists|].
    cbn in *. destruct (n_children n !! j) as [m|] eqn:Hj; [|done].
    rewrite (list_alter_lookup _ _ _ _ Hj), list_lookup_insert_eq by by eapply lookup_lt_Some.
    by apply IHp. }
  unfold compressStep. destruct (n_tip c =? 0); [|done].
  destruct (n_children c) as [|ch [|]]; [| |done]; rewrite Hmod; apply IH, Hsome.
Qed.

(** Merging a node without tip support with its only child. *)
Lemma merge_ok top n loc ch :
  node_ok top loc -> childFits n loc -> 1 <= sp_end (n_span n) -> valid (sp_ledger (n_span n)) ->
  sp_end (n_span n) <= lseq (sp_ledger (n_span n)) + 1 ->
  n_tip loc = 0 -> n_children loc = [ch] ->
  node_ok false (mergeChild loc ch) /\ childFits n (mergeChild loc ch) /\
  childStart (mergeChild loc ch) = childStart loc /\ n_branch (mergeChild loc ch) = n_branch loc /\
  forall Q, weight Q (mergeChild loc ch) = weight Q loc.
Proof.
  intros Hok [Hst Heq] Hn1 Hnv Hn2 Htip Hch.
  assert (Hin : ch ∈ n_children loc) by (rewrite Hch; by apply list_elem_of_singleton).
  destruct (child_fits _ _ _ Hok Hin) as [Hcok [Hcs Hceq]].
  pose proof (node_ok_inv _ _ Hok) as ((Hv & Hs1 & Hs2) & _ & Hb & _).
  pose proof (node_ok_inv _ _ Hcok) as ((Hcv & Hc1 & Hc2) & Ht & Hcb & Hcmp & Hcch & Hcfit & Hcnd).
  assert (Hag : forall t, 0 <= t < sp_end (n_span loc) ->
    ancestorAt (sp_ledger (n_span ch)) t = ancestorAt (sp_ledger (n_span loc)) t).
  { intros t Htt. by apply (agree_below _ _ (sp_end (n_span loc) - 1)); try lia. }
  assert (Hsp : spanMerge (n_span loc) (n_span ch) =
    mkSpan (sp_start (n_span loc)) (sp_end (n_span ch)) (sp_ledger (n_span ch))).
  { unfold spanMerge. destruct (Z.ltb_spec (sp_end (n_span loc)) (sp_end (n_span ch))); [|lia].
    by rewrite Z.min_l by lia. }
  unfold mergeChild. rewrite Hsp. split; [|split; [split; [done|]|split; [|split]]]; cbn [n_span n_tip n_branch n_children sp_start sp_end sp_ledger].
  - constructor; cbn; try done. split; [done|]. cbn. lia.
  - rewrite Hag by lia. done.
  - unfold childStart, startID. cbn. apply Hag. lia.
  - rewrite Hb, Hch, Htip. cbn. lia.
  - intros Q. rewrite (weight_eq Q loc), Hch, Htip, (weight_eq Q (mkNode _ _ _ _)).
    cbn [n_span n_tip n_children map]. unfold sumZ at 2. cbn [foldr].
    rewrite (weight_eq Q ch). unfold ask. cbn [sp_end sp_ledger]. destruct (Q _ _), (Q _ _); lia.
Qed.

(** Erasing a child. *)
Lemma erase_ok top n i c c' :
  node_ok top n -> n_children n !! i = Some c -> 
  node_ok true (mkNode (n_span n) (n_tip n) (n_branch n - n_branch c)
                  (eraseChild i (<[i := c']> (n_children n)))) /\
  forall Q b, weight Q (mkNode (n_span n) (n_tip n) b (eraseChild i (<[i := c']> (n_children n)))) =
    weight Q n - weight Q c.
Proof.
  intros (Hs & Ht & Hb & Hcmp & Hch & Hfit & Hnd)%node_ok_inv Hi.
  pose proof (lookup_lt_Some _ _ _ Hi) as Hlt.
  assert (Hp : eraseChild i (<[i := c']> (n_children n)) ≡ₚ delete i (n_children n)).
  { rewrite eraseChild_perm by by rewrite length_insert.
    by rewrite list_delete_insert_same. }
  assert (Hd : n_children n ≡ₚ c :: delete i (n_children n)) by by apply delete_Permutation.
  assert (Hsum : forall f : Node -> Z, sumZ (map f (eraseChild i (<[i := c']> (n_children n)))) =
    sumZ (map f (n_children n)) - f c).
  { intros f. rewrite Hp. assert (E : sumZ (map f (n_children n)) = sumZ (map f (c :: delete i (n_children n))))
      by by rewrite <-Hd.
    rewrite E. cbn. unfold sumZ. lia. }
  split.
  - constructor; cbn [n_span n_tip n_branch n_children]; try done.
    + rewrite Hsum. lia.
    + rewrite Hp. rewrite Hd in Hch. by apply Forall_cons in Hch as [_ ?].
    + change (Forall (childFits n) (eraseChild i (<[i := c']> (n_children n)))). rewrite Hp.
      assert (Hfit' : Forall (childFits n) (c :: delete i (n_children n))) by by rewrite <-Hd.
      by apply Forall_cons in Hfit' as [_ ?].
    + rewrite Hp. rewrite Hd in Hnd. rewrite fmap_cons in Hnd. by apply NoDup_cons in Hnd as [_ ?].
  - intros Q b. rewrite !(weight_eq Q (mkNode _ _ _ _)), (weight_eq Q n).
    cbn [n_span n_tip n_children]. rewrite Hsum. lia.
Qed.

(** What the removal of [count] validations of [loc] makes of a node above it. *)
Definition removedFrom (top : bool) (loc : Node) (count : Z) (n n' : Node) : Prop :=
  node_ok top n' /\ n_span n' = n_span n /\ n_branch n' = n_branch n - count /\
  forall Q, weight Q n' = weight Q n - (if ask Q (n_span loc) then count else 0).

(** One level of the removal: the child [c] became [c'], and the loop is at [c']. *)
Lemma compressStep_ok top loc count n i c c' n' go :
  node_ok top n -> n_children n !! i = Some c -> removedFrom true loc count c c' ->
  compressStep i c' (mkNode (n_span n) (n_tip n) (n_branch n - count) (<[i := c']> (n_children n)))
    = (n', go) ->
  removedFrom (top || go) loc count n n'.
Proof.
  intros Hok Hi (Hc' & Hsp & Hbr & Hw) Hstep.
  pose proof (list_elem_of_lookup_2 _ _ _ Hi) as Hin. pose proof (lookup_lt_Some _ _ _ Hi) as Hlt.
  destruct (child_fits _ _ _ Hok Hin) as [_ Hfit].
  assert (Hfit' : childFits n c') by (unfold childFits; by rewrite Hsp).
  assert (Hst' : childStart c' = childStart c) by (unfold childStart; by rewrite Hsp).
  pose proof (node_ok_inv _ _ Hok) as ((Hnv & Hn1 & Hn2) & _).
  (* replacing [c] by a well-formed node in its place *)
  assert (Hrep : forall m, node_ok false m -> childFits n m -> childStart m = childStart c ->
    n_branch m = n_branch c' -> (forall Q, weight Q m = weight Q c') ->
    removedFrom top loc count n
      (mkNode (n_span n) (n_tip n) (n_branch n - count) (<[i := m]> (n_children n)))).
  { intros m Hm Hmf Hms Hmb Hmw. split; [|split; [done|]; split; [done|]].
    - rewrite <-Z.add_opp_r. apply (node_ok_replace _ _ _ c); try done. lia.
    - intros Q. rewrite (weight_eq Q (mkNode _ _ _ _)), (weight_eq Q n). cbn [n_span n_tip n_children].
      rewrite (sumZ_map_insert _ _ _ _ _ Hi), Hmw, Hw. lia. }
  unfold compressStep in Hstep. cbn [n_children setChildren] in Hstep.
  destruct (Z.eqb_spec (n_tip c') 0) as [Ht|Ht].
  2: { injection Hstep as <- <-. rewrite orb_false_r. apply Hrep; try done.
       apply node_ok_inv in Hc' as (?&?&?&?&?&?&?). by constructor. }
  destruct (n_children c') as [|ch [|ch2 chs]] eqn:Ech; injection Hstep as <- <-.
  - (* erased *)
    rewrite orb_true_r. destruct (erase_ok top n i c c' Hok Hi) as [He Hwe].
    pose proof (node_ok_inv _ _ Hc') as (_ & _ & Hb' & _). rewrite Ech, Ht in Hb'. cbn in Hb'.
    assert (Hcc : count = n_branch c) by lia.
    split; [by rewrite Hcc|]. split; [done|]. split; [done|]. intros Q.
    unfold setChildren. cbn [n_span n_tip n_branch]. rewrite Hwe.
    specialize (Hw Q). rewrite (weight_eq Q c'), Ech, Ht in Hw. cbn in Hw. destruct (ask Q (n_span c')); lia.
  - (* merged *)
    rewrite orb_true_r. rewrite eraseChild_snoc by by rewrite length_insert.
    rewrite list_insert_insert_eq. unfold setChildren. cbn [n_span n_tip n_branch].
    destruct (merge_ok true n c' ch) as (H1 & H2 & H3 & H4 & H5); try done; try lia.
    destruct (Hrep (mergeChild c' ch)) as (?%node_ok_top & ?); try done. congruence.
  - rewrite orb_false_r. apply Hrep; try done.
    apply node_ok_inv in Hc' as (?&?&?&?&?&?&?). constructor; try done. rewrite Ech. cbn. lia.
Qed.

Lemma nodeAt_tip top n p loc : node_ok top n -> nodeAt n p = Some loc -> n_tip loc <= n_branch n.
Proof.
  revert top n. induction p as [|j p IHp]; intros top n Hok Hloc.
  - injection Hloc as <-. by apply (tip_branch top).
  - cbn in Hloc. destruct (n_children n !! j) as [d|] eqn:Hj; [|done].
    apply list_elem_of_lookup_2 in Hj. pose proof (child_branch _ _ _ Hok Hj).
    destruct (child_fits _ _ _ Hok Hj) as [Hd _]. specialize (IHp false d Hd Hloc). lia.
Qed.

Lemma remove_node p count : forall n top loc n' go,
  node_ok top n -> n_branch n < 2 ^ 32 -> nodeAt n p = Some loc -> 0 < count <= n_tip loc ->
  compressPath p (modifyPath (subBranch count) (subTip count) p n) = (n', go) ->
  removedFrom (top || go) loc count n n'.
Proof.
  induction p as [|i p IH]; intros n top loc n' go Hok Hsmall Hloc Hcount Hrun;
    pose proof (tip_branch _ _ Hok) as Htb.
  - injection Hloc as <-. injection Hrun as <- <-.
    pose proof (node_ok_inv _ _ Hok) as (Hs & Ht & Hb & _ & Hch & Hfit & Hnd).
    rewrite orb_true_r. unfold subBranch, subTip. cbn [n_span n_tip n_branch n_children].
    rewrite !u32_id by lia. split; [|split; [done|]; split; [done|]].
    + constructor; cbn [n_span n_tip n_branch n_children]; try done; lia.
    + intros Q. rewrite (weight_eq Q (mkNode _ _ _ _)), (weight_eq Q n). cbn [n_span n_tip n_children].
      destruct (ask Q _); lia.
  - cbn in Hloc. destruct (n_children n !! i) as [c|] eqn:Hi; [|done].
    pose proof (list_elem_of_lookup_2 _ _ _ Hi) as Hin.
    pose proof (child_branch _ _ _ Hok Hin) as Hcb. destruct (child_fits _ _ _ Hok Hin) as [Hcok Hfit].
    cbn in Hrun. rewrite (list_alter_lookup _ _ _ _ Hi) in Hrun.
    rewrite list_lookup_insert_eq in Hrun by by eapply lookup_lt_Some.
    destruct (compressPath p _) as [c' goc] eqn:Ec.
    pose proof (IH c false loc c' goc Hcok ltac:(lia) Hloc Hcount Ec) as Hc.
    rewrite list_insert_insert_eq in Hrun. unfold setChildren, subBranch in Hrun. cbn in Hrun.
    pose proof (nodeAt_tip _ _ _ _ Hcok Hloc).
    rewrite u32_id in Hrun by lia. destruct goc.
    + by apply (compressStep_ok top loc count n i c c').
    + injection Hrun as <- <-. rewrite orb_false_r. destruct Hc as (H1 & H2 & H3 & H4).
      split; [|split; [done|]; split; [done|]].
      * rewrite <-Z.add_opp_r. apply (node_ok_replace _ _ _ c); try done; try lia.
        -- unfold childFits. by rewrite H2.
        -- unfold childStart. by rewrite H2.
      * intros Q. rewrite (weight_eq Q (mkNode _ _ _ _)), (weight_eq Q n). cbn [n_span n_tip n_children].
        rewrite (sumZ_map_insert _ _ _ _ _ Hi), H4. lia.
Qed.

Lemma nodeAt_modifyPath f g p n : 
  (forall m, n_children (f m) = n_children m) -> is_Some (nodeAt n p) ->
  is_Some (nodeAt (modifyPath f g p n) p).
Proof.
  intros Hf. revert n. induction p as [|i p IH]; intros n Hn; [by eexists|].
  cbn in *. rewrite Hf. cbn. destruct (n_children n !! i) as [c|] eqn:Hi; [|by destruct Hn].
  rewrite (list_alter_lookup _ _ _ _ Hi), list_lookup_insert_eq by by eapply lookup_lt_Some.
  by apply IH.
Qed.

(** The bookkeeping of [seqSupport] when [k] validations at [s0] go. *)
Lemma seqRemove_ok m s0 k (f f' : Z -> Z) :
  0 < k -> (forall s, m !! s = optSupport (f s)) ->
  (forall s, f' s = f s - (if s0 =? s then k else 0) /\ 0 <= f' s /\ f s < 2 ^ 32) ->
  forall s, seqRemove m s0 k !! s = optSupport (f' s).
Proof.
  intros Hk Hm Hf s. pose proof (Hf s0) as (H1 & H2 & H3). rewrite Z.eqb_refl in H1.
  unfold seqRemove. rewrite Hm, optSupport_pos, u32_id by lia. rewrite <-H1.
  destruct (Hf s) as (H4 & _). destruct (Z.eqb_spec s0 s) as [<-|Hne].
  - unfold optSupport. destruct (Z.eqb_spec (f' s0) 0).
    + by rewrite lookup_delete_eq.
    + by rewrite lookup_insert_eq.
  - rewrite Z.sub_0_r in H4. rewrite H4, <-Hm. destruct (f' s0 =? 0).
    + by rewrite lookup_delete_ne.
    + by rewrite lookup_insert_ne.
Qed.

(** A tip with the identifier of [l] answers questions as [l] does. *)
Lemma ask_same_id Q l sp :
  respects Q -> valid l -> span_ok sp -> st_id (spanTip sp) = lid l ->
  ask Q sp = Q (lseq l) (ancestorAt l).
Proof.
  intros HQ Hl Hs Hid. destruct (spanTip_ok _ Hs) as (_ & _ & Htip).
  rewrite Htip, lid_ancestorAt in Hid by done. destruct Hs as (Hv & Hs1 & Hs2).
  pose proof (lseq_range l Hl).
  assert (Hseq : sp_end sp - 1 = lseq l)
    by (apply (ancestorAt_seq (sp_ledger sp) l); try done; lia).
  unfold ask. rewrite Hseq in *. apply HQ; [lia|]. intros t Ht.
  by apply (agree_below _ _ (lseq l)); try lia.
Qed.

(** [remove] on the whole trie. *)
Lemma remove_ok t l count b t' :
  trie_ok t -> valid l -> 0 < count -> remove t l count = (b, t') ->
  b = negb (tipSupport t l =? 0) /\ trie_ok t' /\
  forall Q, respects Q ->
    weight Q (root t') = weight Q (root t) - contrib Q l (Z.min count (tipSupport t l)).
Proof.
  intros Ht Hl Hcount Hrun. assert (Hz : forall Q, contrib Q l 0 = 0) by (intros Q; unfold contrib; by destruct (Q _ _)).
  unfold remove in Hrun. unfold tipSupport, nodeByID, findByLedgerID in *.
  pose proof (findIDFrom_spec (lid l) (root t)) as Hf. destruct (findIDFrom _ _) as [p|].
  2: { injection Hrun as <- <-. rewrite Z.min_r by lia. do 2 (split; [done|]). intros Q _. rewrite Hz. lia. }
  destruct (hasID_nodeAt _ _ _ Hf) as (loc & Hloc & Hin & Hid). rewrite Hloc in *.
  destruct Ht as (Hok & Hs0 & He1 & Hb & Hseq).
  destruct (inTree_history loc _ Hin true Hok) as (Hls & _).
  assert (Htip : 0 <= n_tip loc).
  { rewrite <-(hasID_weight_tip _ _ _ Hf true loc) by done. by apply (weight_nonneg _ true). }
  destruct (Z.eqb_spec (n_tip loc) 0) as [E|E].
  { injection Hrun as <- <-. rewrite Z.min_r by lia. split; [done|]. split; [done|].
    intros Q _. rewrite E, Hz. lia. }
  injection Hrun as <- <-. split; [done|]. cbn [root seqSupport].
  assert (Hsome : is_Some (nodeAt (modifyPath (subBranch (Z.min count (n_tip loc)))
    (subTip (Z.min count (n_tip loc))) p (root t)) p)) by by apply nodeAt_modifyPath.
  rewrite modifyPath_eq, compressUp_path by done.
  destruct (compressPath p _) as [r' go] eqn:Er. cbn [fst].
  destruct (remove_node p (Z.min count (n_tip loc)) (root t) true loc r' go)
    as (H1 & H2 & H3 & H4); try done; try lia.
  assert (Hw : forall Q, respects Q -> weight Q r' = weight Q (root t) - contrib Q l (Z.min count (n_tip loc))).
  { intros Q HQ. rewrite H4, (ask_same_id Q l) by done. done. }
  split; [|done]. unfold trie_ok. cbn [root seqSupport]. rewrite H2, H3.
  split; [done|]. split; [done|]. split; [done|]. split; [lia|].
  apply (seqRemove_ok _ _ _ (fun s => weight (qSeq s) (root t))); try done; [lia|].
  intros s. pose proof (weight_nonneg (qSeq s) true r' H1) as Hn.
  pose proof (weight_nonneg (qSeq s) true _ Hok). rewrite Hw in * by done.
  split; [done|lia].
Qed.

End Facts.
