(* ===== verification/TrieSpec.v ===== *)
(** * The trie of validated ledgers: specification

    The abstract state of a [LedgerTrie] is the multiset of the ledgers it was told
    to support.  Every trie reached by [insert] and [remove] answers [tipSupport],
    [branchSupport] and [empty] as that multiset does and passes the
    [checkInvariants] of the code. *)
From S2P Require Import Prelude Ledgers Trie TrieFacts.

Section Spec.
Context {L : Type} `{LedgerOps L} (valid : L -> Prop) `{!LedgerLaws L valid}.

(** ** Ancestry *)

(** [a] is [l] or an ancestor of [l]. *)
Definition isAncestor (a l : L) : bool := (lseq a <=? lseq l) && (ancestorAt l (lseq a) =? lid a).

Definition sameLedger (a l : L) : bool := lid l =? lid a.

Lemma contrib_desc a l count : contrib (qDesc a) l count = if isAncestor a l then count else 0.
Proof. done. Qed.

Lemma contrib_tip a l count :
  valid l -> contrib (qTip (lid a)) l count = if sameLedger a l then count else 0.
Proof. intros Hl. unfold contrib, qTip, sameLedger. by rewrite <-lid_ancestorAt. Qed.

(** ** insert and remove *)

(** Inserting [count] validations of a ledger keeps the trie well formed, raises
    the tip support of exactly that ledger by [count], and raises the branch support
    of exactly the ledger and its ancestors by [count]. *)
Theorem insert_supports t l count :
  trie_ok valid t -> valid l -> 0 < count -> n_branch (root t) + count < 2 ^ 32 ->
  trie_ok valid (insert t l count) /\
  (forall a, valid a ->
     tipSupport (insert t l count) a = tipSupport t a + (if sameLedger a l then count else 0)) /\
  (forall a, valid a ->
     branchSupport (insert t l count) a = branchSupport t a + (if isAncestor a l then count else 0)).
Proof.
  intros Ht Hl Hc Hsmall. destruct (insert_ok valid t l count Ht Hl Hc Hsmall) as [Hok Hw].
  split; [done|]. split; intros a Ha.
  - by rewrite !(tipSupport_weight valid), Hw, contrib_tip by (done || apply respects_qTip).
  - by rewrite !(branchSupport_weight valid), Hw by (done || by apply (respects_qDesc valid)).
Qed.

(** Removing validations of a ledger succeeds exactly when it has tip support,
    keeps the trie well formed (compressed again), and lowers the tip support of the
    ledger and the branch support of the ledger and its ancestors by the number of
    validations removed, which is at most the tip support. *)
Theorem remove_supports t l count :
  trie_ok valid t -> valid l -> 0 < count ->
  let k := Z.min count (tipSupport t l) in
  let t' := snd (remove t l count) in
  fst (remove t l count) = negb (tipSupport t l =? 0) /\
  trie_ok valid t' /\
  (forall a, valid a -> tipSupport t' a = tipSupport t a - (if sameLedger a l then k else 0)) /\
  (forall a, valid a -> branchSupport t' a = branchSupport t a - (if isAncestor a l then k else 0)).
Proof.
  intros Ht Hl Hc k t'. destruct (remove t l count) as [b t0] eqn:Er. cbn in t'. subst t'.
  destruct (remove_ok valid t l count b t0 Ht Hl Hc Er) as (Hb & Hok & Hw).
  split; [done|]. split; [done|]. split; intros a Ha.
  - by rewrite !(tipSupport_weight valid _ a), Hw, contrib_tip by (done || apply respects_qTip).
  - by rewrite !(branchSupport_weight valid _ a), Hw by (done || by apply (respects_qDesc valid)).
Qed.

(** ** checkInvariants *)

Lemma checkNode_ok n : forall top, node_ok valid top n -> checkNode top n = true.
Proof.
  induction n as [n IH] using node_ind'. intros top
    (_ & Ht & Hb & Hcmp & Hok & _ & _)%node_ok_inv.
  destruct n as [sp tip br cs]. cbn [checkNode n_tip n_branch n_children] in *.
  rewrite !andb_true_iff. split; [split|].
  - destruct top; [done|]. destruct (Z.eqb_spec tip 0) as [E|]; [|done].
    specialize (Hcmp eq_refl E). destruct (Nat.ltb_spec (length cs) 2); [lia|done].
  - apply Z.eqb_eq. by rewrite Hb.
  - apply forallb_forall. intros c Hc%list_elem_of_In. rewrite Forall_forall in IH, Hok. auto.
Qed.

Lemma expectedSeqSupport_ok n : forall top m (f : Z -> Z),
  node_ok valid top n -> (forall s, 0 <= f s) -> (forall s, f s + weight (qSeq s) n < 2 ^ 32) ->
  (forall s, m !! s = optSupport (f s)) ->
  forall s, expectedSeqSupport n m !! s = optSupport (f s + weight (qSeq s) n).
Proof.
  induction n as [n IH] using node_ind'. intros top m f Hok Hf Hsmall Hm.
  pose proof (node_ok_inv _ _ _ Hok) as (Hs & Ht & _ & _ & Hch & _).
  pose proof (span_ok_end _ _ Hs) as Hend. destruct n as [sp tip br cs]. cbn [n_span n_tip n_children] in *.
  set (f1 := fun s => f s + (if ask (qSeq s) sp then tip else 0)).
  assert (Hf1 : forall s, f1 s = f s + (if sp_end sp - 1 =? s then tip else 0)) by done.
  assert (Hf1n : forall s, 0 <= f1 s) by (intros s; rewrite Hf1; specialize (Hf s); destruct (_ =? s); lia).
  assert (Hw : forall s, f1 s + sumZ (map (weight (qSeq s)) cs) = f s + weight (qSeq s) (mkNode sp tip br cs)).
  { intros s. rewrite weight_eq. cbn [n_span n_tip n_children]. unfold f1. lia. }
  assert (Hnn : forall s, 0 <= sumZ (map (weight (qSeq s)) cs)).
  { intros s. apply sumZ_nonneg, Forall_map. eapply Forall_impl; [exact Hch|].
    intros c Hc. by apply (weight_nonneg valid _ false). }
  cbn [expectedSeqSupport n_span n_tip n_children].
  set (m1 := if tip =? 0 then m else _).
  assert (Hm1 : forall s, m1 !! s = optSupport (f1 s)).
  { intros s. subst m1. rewrite Hf1. specialize (Hsmall (sp_end sp - 1)). rewrite <-Hw, Hf1, Z.eqb_refl in Hsmall.
    specialize (Hf (sp_end sp - 1)). specialize (Hnn (sp_end sp - 1)).
    destruct (Z.eqb_spec tip 0) as [->|Hne].
    - rewrite Hm. by destruct (_ =? s); rewrite Z.add_0_r.
    - rewrite (u32_id (sp_end sp - 1)) by lia. destruct (Z.eqb_spec (sp_end sp - 1) s) as [<-|Hs'].
      + by rewrite lookup_insert_eq, Hm, default_optSupport, u32_id, optSupport_pos by lia.
      + by rewrite lookup_insert_ne, Hm, Z.add_0_r by done. }
  assert (Hsm : forall s, f1 s + sumZ (map (weight (qSeq s)) cs) < 2 ^ 32) by (intros s; by rewrite Hw).
  clearbody m1 f1. intros s. rewrite <-Hw. clear Hw Hm Hf Hsmall Hf1 m f Hok.
  revert m1 f1 Hm1 Hf1n Hsm. induction cs as [|c cs IHc]; intros m1 f1 Hm1 Hf1n Hsm.
  { by rewrite Hm1, Z.add_0_r. }
  apply Forall_cons in IH as [IHn IH], Hch as [Hc Hch].
  assert (Hnn' : forall s, 0 <= sumZ (map (weight (qSeq s)) cs)).
  { intros s'. apply sumZ_nonneg, Forall_map. eapply Forall_impl; [exact Hch|].
    intros x Hx. by apply (weight_nonneg valid _ false). }
  rewrite (IHc IH Hch Hnn' (expectedSeqSupport c m1) (fun s => f1 s + weight (qSeq s) c)).
  - cbn. f_equal. unfold sumZ. lia.
  - apply (IHn false); try done. intros s'. specialize (Hsm s'). specialize (Hnn' s'). cbn in Hsm. unfold sumZ in *. lia.
  - intros s'. pose proof (weight_nonneg valid (qSeq s') false c Hc). specialize (Hf1n s'). lia.
  - intros s'. specialize (Hsm s'). cbn in Hsm. unfold sumZ in *. lia.
Qed.

Lemma checkInvariants_ok t : trie_ok valid t -> checkInvariants t = true.
Proof.
  intros (Hok & _ & _ & Hb & Hseq). unfold checkInvariants. rewrite (checkNode_ok _ true Hok). cbn.
  apply bool_decide_eq_true. apply map_eq. intros s. rewrite Hseq.
  rewrite (expectedSeqSupport_ok _ true ∅ (fun _ => 0)); try done.
  intros s'. pose proof (weight_nonneg valid (qSeq s') true _ Hok). lia.
Qed.

(** ** The multiset of supported ledgers *)

(** Take at most [count] copies of the ledger [id] out. *)
Fixpoint dropCopies (count : nat) (id : Z) (bag : list L) : list L :=
  match count, bag with
  | O, _ | _, [] => bag
  | S count', l :: bag' =>
      if lid l =? id then dropCopies count' id bag' else l :: dropCopies count id bag'
  end.

Definition countIn (f : L -> bool) (bag : list L) : Z :=
  sumZ (map (fun l => if f l then 1 else 0) bag).

(** The tries reached by insertions and removals, with the multiset they stand for. *)
Inductive trieRun : LedgerTrie L -> list L -> Prop :=
| run_empty : trieRun emptyTrie []
| run_insert t bag l count :
    trieRun t bag -> valid l -> 0 < count -> Z.of_nat (length bag) + count < 2 ^ 32 ->
    trieRun (insert t l count) (replicate (Z.to_nat count) l ++ bag)
| run_remove t bag l count :
    trieRun t bag -> valid l -> 0 < count ->
    trieRun (snd (remove t l count)) (dropCopies (Z.to_nat count) (lid l) bag).

Definition asks (Q : Question) (l : L) : bool := Q (lseq l) (ancestorAt l).

Definition represents (t : LedgerTrie L) (bag : list L) : Prop :=
  trie_ok valid t /\ Forall valid bag /\
  forall Q, respects Q -> weight Q (root t) = countIn (asks Q) bag.

Lemma countIn_replicate f n l : countIn f (replicate n l) = if f l then Z.of_nat n else 0.
Proof.
  induction n as [|n IH]; cbn [replicate countIn map]; [by destruct (f l)|].
  change (countIn f (l :: replicate n l)) with ((if f l then 1 else 0) + countIn f (replicate n l)).
  rewrite IH. destruct (f l); lia.
Qed.

Lemma countIn_nonneg f bag : 0 <= countIn f bag.
Proof. apply sumZ_nonneg, Forall_map, Forall_forall. intros x _. cbn. destruct (f x); lia. Qed.

(** Two valid ledgers with one identifier have the same history. *)
Lemma asks_same_id Q a b :
  respects Q -> valid a -> valid b -> lid a = lid b -> asks Q a = asks Q b.
Proof.
  intros HQ Ha Hb E. pose proof (lseq_range a Ha). pose proof (lseq_range b Hb).
  rewrite (lid_ancestorAt a Ha), (lid_ancestorAt b Hb) in E.
  assert (Hs : lseq a = lseq b) by (apply (ancestorAt_seq a b); try done; lia).
  unfold asks. rewrite Hs in *. apply HQ; [lia|]. intros s Hr.
  apply (agree_below valid a b (lseq b)); try done; lia.
Qed.

Lemma dropCopies_count Q count l bag :
  respects Q -> valid l -> Forall valid bag ->
  countIn (asks Q) (dropCopies count (lid l) bag) =
  countIn (asks Q) bag -
  (if asks Q l then Z.min (Z.of_nat count) (countIn (sameLedger l) bag) else 0).
Proof.
  intros HQ Hl Hv. revert count. induction Hv as [|x bag Hx Hv IH]; intros count.
  { replace (dropCopies count (lid l) []) with ([] : list L) by by destruct count.
    cbn. destruct (asks Q l); lia. }
  assert (Hcons : forall f, countIn f (x :: bag) = (if f x then 1 else 0) + countIn f bag) by done.
  pose proof (countIn_nonneg (sameLedger l) bag) as Hnn.
  destruct count as [|count]; cbn [dropCopies].
  { rewrite !Hcons. destruct (asks Q l), (sameLedger l x); lia. }
  rewrite !Hcons. unfold sameLedger at 1. destruct (Z.eqb_spec (lid x) (lid l)) as [E|E].
  - rewrite IH, (asks_same_id Q x l) by done. destruct (asks Q l); lia.
  - change (countIn (asks Q) (x :: dropCopies (S count) (lid l) bag)) with
      ((if asks Q x then 1 else 0) + countIn (asks Q) (dropCopies (S count) (lid l) bag)).
    rewrite IH. destruct (asks Q l); lia.
Qed.

Lemma dropCopies_valid count id bag : Forall valid bag -> Forall valid (dropCopies count id bag).
Proof.
  intros Hv. revert count. induction Hv as [|x bag Hx Hv IH]; intros [|count]; cbn; try by constructor.
  destruct (_ =? _); [done|by constructor].
Qed.

(** The weights of the three questions, in terms of the multiset. *)
Lemma represents_tip t bag l : represents t bag -> valid l -> tipSupport t l = countIn (sameLedger l) bag.
Proof.
  intros (Ht & Hv & Hw) Hl. rewrite (tipSupport_weight valid), Hw by (done || apply respects_qTip).
  apply sumZ_map_ext. intros x Hx. rewrite Forall_forall in Hv. unfold asks, qTip, sameLedger.
  by rewrite <-lid_ancestorAt by auto.
Qed.

Lemma represents_branch t bag : represents t bag -> n_branch (root t) = Z.of_nat (length bag).
Proof.
  intros (Ht & _ & Hw). destruct Ht as (Hok & _). rewrite <-(weight_all valid true _ Hok), Hw by done.
  clear. induction bag as [|x bag IH]; [done|].
  change (countIn (asks qAll) (x :: bag)) with (1 + countIn (asks qAll) bag).
  rewrite IH. cbn [length]. lia.
Qed.

Lemma represents_empty : represents emptyTrie [].
Proof.
  split; [by apply emptyTrie_ok|]. split; [constructor|]. intros Q _. rewrite weight_eq. cbn.
  by destruct (ask _ _).
Qed.

Lemma represents_insert t bag l count :
  represents t bag -> valid l -> 0 < count -> Z.of_nat (length bag) + count < 2 ^ 32 ->
  represents (insert t l count) (replicate (Z.to_nat count) l ++ bag).
Proof.
  intros Hr Hl Hc Hsmall. pose proof (represents_branch _ _ Hr) as Hb. destruct Hr as (Ht & Hv & Hw).
  destruct (insert_ok valid t l count) as [Hok Hw']; try done; [lia|].
  split; [done|]. split; [apply Forall_app; split; [by apply Forall_replicate|done]|].
  intros Q HQ. rewrite Hw', Hw by done. unfold countIn at 2. rewrite map_app, sumZ_app.
  fold (countIn (asks Q) (replicate (Z.to_nat count) l)). rewrite countIn_replicate.
  fold (countIn (asks Q) bag). unfold contrib, asks. destruct (Q _ _); lia.
Qed.

Lemma represents_remove t bag l count :
  represents t bag -> valid l -> 0 < count ->
  represents (snd (remove t l count)) (dropCopies (Z.to_nat count) (lid l) bag).
Proof.
  intros Hr Hl Hc. pose proof (represents_tip _ _ l Hr Hl) as Htip. destruct Hr as (Ht & Hv & Hw).
  destruct (remove t l count) as [b t'] eqn:Er.
  destruct (remove_ok valid t l count b t' Ht Hl Hc Er) as (_ & Hok & Hw').
  split; [done|]. split; [by apply dropCopies_valid|]. intros Q HQ. cbn [snd].
  rewrite Hw', Hw, dropCopies_count, Htip, Z2Nat.id by (done || lia). done.
Qed.

Lemma represents_perm t bag bag' : bag ≡ₚ bag' -> represents t bag -> represents t bag'.
Proof.
  intros Hp (Ht & Hv & Hw). split; [done|]. split; [by rewrite <-Hp|]. intros Q HQ.
  rewrite Hw by done. unfold countIn. by rewrite Hp.
Qed.

Lemma represents_remove_one t bag l :
  represents t (l :: bag) -> represents (snd (remove t l 1)) bag.
Proof.
  intros Hr. pose proof Hr as (_ & [Hl _]%Forall_cons & _).
  pose proof (represents_remove t (l :: bag) l 1 Hr Hl ltac:(lia)) as Hr'.
  cbn in Hr'. rewrite Z.eqb_refl in Hr'. by destruct bag.
Qed.

Lemma trieRun_represents t bag : trieRun t bag -> represents t bag.
Proof.
  induction 1.
  - apply represents_empty.
  - by apply represents_insert.
  - by apply represents_remove.
Qed.

End Spec.

(** ** The server's ledgers *)

Section Sample.
Import Ledgers.Sample.

Lemma insert_supports_witness :
  trie_ok chain (insert emptyTrie L31 2) /\
  tipSupport (insert emptyTrie L31 2) L31 = tipSupport emptyTrie L31 + 2 /\
  branchSupport (insert emptyTrie L31 2) L21 = branchSupport emptyTrie L21 + 2.
Proof.
  destruct (insert_supports chain emptyTrie L31 2) as (H1 & H2 & H3).
  - apply emptyTrie_ok, _.
  - apply L31_chain.
  - lia.
  - cbn. lia.
  - split; [exact H1|]. split; [exact (H2 L31 L31_chain)|exact (H3 L21 L21_chain)].
Defined.

Definition sampleTrie : LedgerTrie RCLValidatedLedger := insert (insert emptyTrie L31 3) L22 1.

Lemma sampleTrie_run : trieRun chain sampleTrie [L22; L31; L31; L31].
Proof.
  apply (run_insert chain _ [L31; L31; L31] L22 1); try done; [|apply L22_chain].
  apply (run_insert chain _ [] L31 3); try done; [constructor|apply L31_chain].
Qed.

Lemma sampleTrie_ok : trie_ok chain sampleTrie.
Proof. apply (trieRun_represents chain _ _ sampleTrie_run). Qed.

Lemma remove_supports_witness :
  fst (remove sampleTrie L22 5) = true /\ trie_ok chain (snd (remove sampleTrie L22 5)) /\
  tipSupport (snd (remove sampleTrie L22 5)) L22 = 0 /\
  branchSupport (snd (remove sampleTrie L22 5)) L11 = 3.
Proof.
  destruct (remove_supports chain sampleTrie L22 5) as (H1 & H2 & H3 & H4).
  - apply sampleTrie_ok.
  - apply L22_chain.
  - lia.
  - split; [exact H1|]. split; [exact H2|].
    split; [exact (H3 L22 L22_chain)|exact (H4 L11 L11_chain)].
Defined.

End Sample.
