(* ===== verification/TriePreferred.v ===== *)
(** * The preferred ledger of the trie

    [LedgerTrie::getPreferred]: it returns a ledger exactly when the trie holds
    support, leaves the trie the same up to the order of children, and the ledger it
    returns cannot be overtaken at any fork by the validators that have not yet
    committed to a ledger that recent. *)
From S2P Require Import Prelude Ledgers Trie TrieFacts TrieSpec.

(** ** Walking the supports by sequence *)

Definition total (it : list (Z * Z)) : Z := sumZ (map snd it).

(** The support of sequences below [b]. *)
Definition below (b : Z) (it : list (Z * Z)) : Z :=
  sumZ (map (fun e => if e.1 <? b then e.2 else 0) it).

(** What the walk keeps: remaining entries in order, with non-negative supports and
    sequences from [lo] on; the accumulated support [u] and the rest add up to the
    total support, which fits 32 bits. *)
Definition walk_ok (all u lo : Z) (it : list (Z * Z)) : Prop :=
  StronglySorted keyLe it /\ Forall (fun e => lo <= e.1 /\ 0 <= e.2) it /\
  0 <= u /\ u + total it = all /\ all < 2 ^ 32.

Lemma total_cons e it : total (e :: it) = e.2 + total it.
Proof. done. Qed.

Lemma below_cons b e it : below b (e :: it) = (if e.1 <? b then e.2 else 0) + below b it.
Proof. done. Qed.

Lemma total_nonneg lo it : Forall (fun e : Z * Z => lo <= e.1 /\ 0 <= e.2) it -> 0 <= total it.
Proof. intros Hf. apply sumZ_nonneg, Forall_map. eapply Forall_impl; [exact Hf|]. cbn. lia. Qed.

Lemma walk_cons all u lo s c it :
  walk_ok all u lo ((s, c) :: it) ->
  lo <= s /\ walk_ok all (u + c) s it /\ 0 <= c /\ u + c < 2 ^ 32.
Proof.
  intros ([Hs Hle]%StronglySorted_inv & Hf & Hu & Ht & Hall).
  apply Forall_cons in Hf as [[H1 H2] Hf]. rewrite total_cons in Ht. cbn [fst snd] in *.
  pose proof (total_nonneg _ _ Hf).
  split; [done|]. split; [|lia]. split; [done|]. split; [|lia].
  apply Forall_forall. intros e He. rewrite Forall_forall in Hle, Hf.
  specialize (Hle e He). specialize (Hf e He). unfold keyLe in Hle. cbn in Hle. lia.
Qed.

Lemma addUncommitted_ok bound : forall it all u lo u' it',
  walk_ok all u lo it -> addUncommitted bound it u = (u', it') ->
  walk_ok all u' (Z.max lo bound) it' /\ u + below bound it <= u' /\ u <= u'.
Proof.
  induction it as [|[s c] it IH]; intros all u lo u' it' Hw Hrun.
  - injection Hrun as <- <-. cbn. destruct Hw as (? & ? & ?).
    split; [split; [done|]; split; [constructor|done]|]. lia.
  - pose proof (walk_cons _ _ _ _ _ _ Hw) as (Hlo & Hw' & Hc & Hs). cbn [addUncommitted] in Hrun.
    rewrite below_cons. cbn [fst snd]. destruct (Z.ltb_spec s bound) as [Hlt|Hge].
    + rewrite u32_id in Hrun by (destruct Hw; lia).
      destruct (IH _ _ _ _ _ Hw' Hrun) as (H1 & H2 & H3).
      split; [|lia]. by replace (Z.max lo bound) with (Z.max s bound) by lia.
    + injection Hrun as <- <-. destruct Hw as (Hsrt & Hf & Hu).
      split; [split; [done|]; split; [|done]|].
      * apply StronglySorted_inv in Hsrt as [_ Hle]. apply Forall_cons in Hf as [Hf0 Hf].
        constructor; [cbn in *; lia|]. rewrite Forall_forall in Hle, Hf |- *. intros e He.
        specialize (Hle e He). specialize (Hf e He). unfold keyLe in Hle. cbn in Hle. lia.
      * assert (below bound it = 0) as ->; [|lia]. apply sumZ_map_zero. intros e He.
        apply StronglySorted_inv in Hsrt as [_ Hle]. rewrite Forall_forall in Hle.
        specialize (Hle e He). unfold keyLe in Hle. cbn in Hle.
        destruct (Z.ltb_spec e.1 bound); lia.
Qed.

Lemma advanceSpan_ok spanEnd branch : forall it all u lo nextSeq n' u' it',
  walk_ok all u lo it -> 0 <= nextSeq <= lo + 1 -> nextSeq <= spanEnd < 2 ^ 32 ->
  advanceSpan spanEnd branch it nextSeq u = (n', u', it') ->
  (exists lo', walk_ok all u' lo' it') /\ u <= u' /\ nextSeq <= n' <= spanEnd /\
  (nextSeq < n' -> u < branch).
Proof.
  induction it as [|[s c] it IH]; intros all u lo nextSeq n' u' it' Hw Hn Hend Hrun;
    cbn [advanceSpan] in Hrun; destruct (_ && _) eqn:E; breflect;
    try (injection Hrun as <- <- <-; split; [by exists lo|]; lia).
  destruct (Z.ltb_spec s spanEnd) as [Hlt|Hge];
    [|injection Hrun as <- <- <-; split; [by exists lo|]; lia].
  pose proof (walk_cons _ _ _ _ _ _ Hw) as (Hlo & Hw' & Hc & Hs).
  rewrite !u32_id in Hrun by (destruct Hw as (_ & _ & ? & _); lia).
  destruct (IH all (u + c) s (s + 1) n' u' it') as (H1 & H2 & H3 & _); try done; try lia.
  split; [done|]. lia.
Qed.

(** ** The best child *)

Section BestChild.
Context {L : Type} `{LedgerOps L}.
Abbreviation Node := (Node L).

Lemma childLe_branch (a b : Node) : childLe a b -> n_branch b <= n_branch a.
Proof.
  unfold childLe, childBefore. destruct (Z.eqb_spec (n_branch b) (n_branch a)); [lia|].
  intros E%Z.ltb_ge. lia.
Qed.

#[local] Instance childLe_total : Total (@childLe L _).
Proof.
  intros a b. unfold childLe, childBefore.
  rewrite (Z.eqb_sym (n_branch b) (n_branch a)).
  destruct (n_branch a =? n_branch b) eqn:E; breflect; rewrite !Z.ltb_ge; lia.
Qed.

#[local] Instance childLe_trans : Transitive (@childLe L _).
Proof.
  intros a b c. unfold childLe, childBefore.
  destruct (Z.eqb_spec (n_branch b) (n_branch a)), (Z.eqb_spec (n_branch c) (n_branch b)),
    (Z.eqb_spec (n_branch c) (n_branch a)); rewrite ?Z.ltb_ge; try lia.
Qed.

Lemma partialSort_perm (cs : list Node) : partialSort cs ≡ₚ cs.
Proof. apply merge_sort_Permutation. Qed.

Lemma partialSort_head (cs : list Node) c0 rest :
  partialSort cs = c0 :: rest -> Forall (fun c => n_branch c <= n_branch c0) rest.
Proof.
  intros E. pose proof (StronglySorted_merge_sort (@childLe L _) cs) as Hs.
  unfold partialSort in E. rewrite E in Hs. apply StronglySorted_inv in Hs as [_ Hf].
  eapply Forall_impl; [exact Hf|]. intros c. apply childLe_branch.
Qed.

(** The chosen child wins by at least the uncommitted support against each of the
    others, and its own support is at least that. *)
Lemma bestChild_ok (cs cs' : list Node) c margin :
  Forall (fun c => 0 < n_branch c) cs -> sumZ (map n_branch cs) < 2 ^ 32 ->
  bestChild cs = (Some (c, margin), cs') ->
  cs' = c :: tail cs' /\ cs' ≡ₚ cs /\
  forall u, 0 <= u -> (u <? margin) || (u =? 0) = true ->
    u <= n_branch c /\ Forall (fun d => n_branch d + u <= n_branch c) (tail cs').
Proof.
  intros Hpos Hsum. destruct cs as [|d0 [|d1 ds]]; cbn [bestChild].
  - done.
  - intros [= -> <- <-]. split; [done|]. split; [done|]. intros u Hu E.
    apply Forall_cons in Hpos as [? _].
    split; [|constructor]. apply orb_true_iff in E as [E|E]; breflect; lia.
  - pose proof (partialSort_perm (d0 :: d1 :: ds)) as Hp.
    destruct (partialSort (d0 :: d1 :: ds)) as [|c0 [|c1 rest]] eqn:Es; [done..|].
    intros [= <- <- <-]. split; [done|]. split; [done|].
    assert (Hpos' : Forall (fun c => 0 < n_branch c) (c0 :: c1 :: rest)) by by rewrite Hp.
    assert (Hsum' : sumZ (map n_branch (c0 :: c1 :: rest)) < 2 ^ 32) by by rewrite Hp.
    apply Forall_cons in Hpos' as [H0 Hpos']. apply Forall_cons in Hpos' as [H1 Hpos'].
    assert (Hr : 0 <= sumZ (map n_branch rest)).
    { apply sumZ_nonneg, Forall_map. eapply Forall_impl; [exact Hpos'|]. cbn. lia. }
    cbn in Hsum'. fold (sumZ (map n_branch rest)) in Hsum'.
    pose proof (partialSort_head _ _ _ Es) as Hh. apply Forall_cons in Hh as [Hc1 Hh].
    assert (Hrest : Forall (fun d => n_branch d <= n_branch c1) rest).
    { pose proof (StronglySorted_merge_sort (@childLe L _) (d0 :: d1 :: ds)) as Hs.
      unfold partialSort in Es. rewrite Es in Hs. apply StronglySorted_inv in Hs as [Hs _].
      apply StronglySorted_inv in Hs as [_ Hf].
      eapply Forall_impl; [exact Hf|]. intros x. apply childLe_branch. }
    intros u Hu E. cbn [tail].
    assert (Hm : n_branch c1 + u <= n_branch c0).
    { rewrite (u32_id (n_branch c0 - n_branch c1)) in E by lia.
      destruct (startID _ <? startID _); [rewrite u32_id in E by lia|];
        apply orb_true_iff in E as [E|E]; breflect; lia. }
    split; [lia|]. constructor; [done|]. eapply Forall_impl; [exact Hrest|]. cbn. lia.
Qed.

Lemma bestChild_none (cs cs' : list Node) : bestChild cs = (None, cs') -> cs = [] /\ cs' = [].
Proof.
  destruct cs as [|d0 [|d1 ds]]; cbn [bestChild]; [by intros [= <-]|done|].
  pose proof (Permutation_length (partialSort_perm (d0 :: d1 :: ds))) as Hl.
  destruct (partialSort _) as [|c0 [|c1 rest]]; done.
Qed.

End BestChild.

(** The walk runs on the operations of [code]; what it is measured against are the
    histories, which are those of [code] where the ledgers know their complete
    ancestry. *)
Section Preferred.
Context {L : Type} (code : LedgerOps L) `{LedgerOps L} (valid : L -> Prop) `{!LedgerLaws L valid}.
Abbreviation Node := (Node L).

(** ** Forks *)

(** The tips whose history has [id] at sequence [s]. *)
Definition qAt (s id : Z) : Question := fun k f => (s <=? k) && (f s =? id).

Lemma ask_at_spec s id (n : Node) :
  ask (qAt s id) (n_span n) = true <->
  s < sp_end (n_span n) /\ ancestorAt (sp_ledger (n_span n)) s = id.
Proof. unfold ask, qAt. rewrite andb_true_iff, Z.leb_le, Z.eqb_eq. intuition lia. Qed.

(** A ledger that leaves the history of [n] within its span has no support below
    [n]; the ledger on the history has all of it. *)
Lemma fork_within top (n : Node) l s :
  node_ok valid top n -> valid l -> 0 <= s < sp_end (n_span n) -> s <= lseq l ->
  ancestorAt l s <> ancestorAt (sp_ledger (n_span n)) s ->
  weight (qDesc l) n = 0 /\ weight (qAt s (ancestorAt (sp_ledger (n_span n)) s)) n = n_branch n.
Proof.
  intros Hok Hl Hs Hsl Hne. split.
  - apply weight_zero. intros m Hm.
    destruct (inTree_history valid m n Hm top Hok) as (Hms & Hle & Hag). pose proof Hms as (Hmv & Hm1 & Hm2).
    destruct (ask _ _) eqn:E; [exfalso|done]. apply (ask_desc_spec valid) in E as [Hlt Hmm]; [|done..].
    apply Hne. rewrite <-Hag by lia. symmetry. apply (agree_mismatch valid); try done; lia.
  - rewrite <-(weight_all valid top n Hok). apply weight_ext. intros m Hm.
    destruct (inTree_history valid m n Hm top Hok) as (Hms & Hle & Hag).
    apply ask_at_spec. split; [destruct Hle as [->|]; lia|]. apply Hag. lia.
Qed.

(** The support of a ledger above the end of [n] is in one child at most. *)
Lemma fork_above top (n : Node) l :
  node_ok valid top n -> valid l -> sp_end (n_span n) <= lseq l ->
  weight (qDesc l) n = 0 \/
  exists c, c ∈ n_children n /\ childStart c = ancestorAt l (sp_end (n_span n)) /\
    weight (qDesc l) n = weight (qDesc l) c.
Proof.
  intros Hok Hl Hle. rewrite weight_eq, ask_desc_false_below, Z.add_0_l by done.
  assert (Hin : forall c, c ∈ n_children n -> weight (qDesc l) c <> 0 ->
    childStart c = ancestorAt l (sp_end (n_span n))).
  { intros c Hc Hw. destruct (decide (childStart c = ancestorAt l (sp_end (n_span n)))) as [|Hne]; [done|].
    destruct Hw. apply weight_zero. intros m Hm. destruct (ask _ _) eqn:E; [exfalso|done].
    destruct (desc_in_child valid top l n c m) as (_ & Heq & _); try done.
    destruct (child_fits valid _ _ _ Hok Hc) as [Hcok [Hst _]].
    destruct (inTree_history valid m c Hm false Hcok) as (_ & _ & Hag).
    apply node_ok_inv in Hcok as ((_ & ? & _) & _). apply Hne. rewrite <-Heq.
    unfold childStart, startID. rewrite <-Hst. symmetry. apply Hag. lia. }
  destruct (decide (Forall (fun c => weight (qDesc l) c = 0) (n_children n))) as [Hz|Hz].
  { left. apply sumZ_map_zero. by apply Forall_forall. }
  right. apply not_Forall_Exists in Hz; [|apply _]. apply Exists_exists in Hz as (c & Hc & Hnz).
  exists c. split; [done|]. split; [by apply Hin|]. apply list_elem_of_lookup in Hc as [i Hi].
  apply (sumZ_map_single _ _ i); [done|]. intros j d Hj Hji.
  destruct (decide (weight (qDesc l) d = 0)) as [|Hd]; [done|]. destruct Hji.
  apply node_ok_inv in Hok as (_ & _ & _ & _ & _ & _ & Hnd).
  apply (NoDup_lookup _ j i (childStart c) Hnd); rewrite list_lookup_fmap.
  - rewrite Hj. cbn. f_equal. rewrite (Hin d), (Hin c); try done; by eapply list_elem_of_lookup_2.
  - by rewrite Hi.
Qed.

Lemma at_child top (n c : Node) s id :
  node_ok valid top n -> c ∈ n_children n -> weight (qAt s id) c <= weight (qAt s id) n.
Proof.
  intros Hok Hc. rewrite (weight_eq _ n).
  pose proof (node_ok_inv _ _ _ Hok) as (_ & Ht & _ & _ & Hch & _).
  assert (Hall : Forall (fun d => 0 <= weight (qAt s id) d) (n_children n)).
  { eapply Forall_impl; [exact Hch|]. intros d Hd. by apply (weight_nonneg valid _ false). }
  pose proof (sumZ_map_elem (weight (qAt s id)) _ _ Hall Hc).
  destruct (ask _ _); lia.
Qed.

(** ** The loop *)

(** The tree up to the order of children. *)
Definition reordered (top : bool) (n n' : Node) : Prop :=
  node_ok valid top n' /\ n_span n' = n_span n /\ n_branch n' = n_branch n /\
  forall Q, weight Q n' = weight Q n.

(** The tip is a ledger on the span of a node of the tree, with the identifier the
    code has for it. *)
Definition tipWithin (n : Node) (tip : SpanTip L) : Prop :=
  exists m, inTree m n /\ st_ledger tip = sp_ledger (n_span m) /\
    sp_start (n_span m) <= st_seq tip < sp_end (n_span m) /\
    st_id tip = @ancestorAt L code (st_ledger tip) (st_seq tip).

(** At each fork above the start of [n] on the way to the tip, the rival and [U]
    uncommitted validators do not outweigh the chosen side. *)
Definition forksSafe (n : Node) (tip : SpanTip L) (U : Z) : Prop :=
  forall l s, valid l -> sp_start (n_span n) < s <= st_seq tip -> s <= lseq l ->
    ancestorAt l (s - 1) = ancestorAt (st_ledger tip) (s - 1) ->
    ancestorAt l s <> ancestorAt (st_ledger tip) s ->
    weight (qDesc l) n + U <= weight (qAt s (ancestorAt (st_ledger tip) s)) n.

Lemma reordered_children top (n : Node) cs :
  node_ok valid top n -> cs ≡ₚ n_children n -> reordered top n (setChildren n cs).
Proof.
  intros (Hs & Ht & Hb & Hcmp & Hch & Hfit & Hnd)%node_ok_inv Hp.
  split; [|split; [done|]; split; [done|]].
  - constructor; cbn [setChildren n_span n_tip n_branch n_children]; try done.
    + by rewrite Hp.
    + intros H1 H2. rewrite Hp. auto.
    + by rewrite Hp.
    + change (Forall (childFits n) cs). by rewrite Hp.
    + by rewrite Hp.
  - intros Q. rewrite (weight_eq Q n), weight_eq. cbn [setChildren n_span n_tip n_children]. by rewrite Hp.
Qed.

Lemma reordered_child top (n c c' : Node) cs :
  node_ok valid top n -> c :: cs ≡ₚ n_children n -> reordered false c c' ->
  reordered top n (setChildren n (c' :: cs)).
Proof.
  intros Hok Hp (Hc' & Hsp & Hbr & Hw).
  destruct (reordered_children top n (c :: cs) Hok Hp) as (Hok1 & _ & _ & Hw1).
  pose proof (child_fits valid top (setChildren n (c :: cs)) c Hok1 ltac:(apply list_elem_of_here)) as [_ Hf].
  split; [|split; [done|]; split; [done|]].
  - pose proof (node_ok_replace valid top (setChildren n (c :: cs)) 0 c c' 0 Hok1 eq_refl Hc') as Hr.
    rewrite !Z.add_0_r in Hr. apply Hr.
    + unfold childFits. rewrite Hsp. done.
    + unfold childStart. by rewrite Hsp.
    + lia.
  - intros Q. rewrite <-Hw1, !(weight_eq Q (setChildren _ _)).
    cbn [setChildren n_span n_tip n_children map sumZ foldr]. by rewrite Hw.
Qed.

Lemma height_child (n c : Node) : c ∈ n_children n -> (height c < height n)%nat.
Proof.
  destruct n as [sp tip br cs]. cbn. induction cs as [|d cs IH]; [by intros ?%elem_of_nil|].
  intros [->|Hc]%elem_of_cons; [lia|]. specialize (IH Hc). lia.
Qed.

(** Forks within the span of [n], up to a sequence the walk has passed. *)
Lemma forks_in_span top (n : Node) tip U s l :
  node_ok valid top n -> valid l -> 0 <= s < sp_end (n_span n) -> s <= lseq l ->
  ancestorAt (st_ledger tip) s = ancestorAt (sp_ledger (n_span n)) s ->
  ancestorAt l s <> ancestorAt (st_ledger tip) s -> U <= n_branch n ->
  weight (qDesc l) n + U <= weight (qAt s (ancestorAt (st_ledger tip) s)) n.
Proof.
  intros Hok Hl Hs Hsl E Hne HU. rewrite E in *.
  destruct (fork_within top n l s Hok Hl Hs Hsl Hne) as [-> ->]. lia.
Qed.

(** Forks on the way into the best child and below it. *)
Lemma forks_descend top (n c : Node) rest tip U :
  node_ok valid top n -> c :: rest ≡ₚ n_children n -> tipWithin c tip -> forksSafe c tip U ->
  (sp_start (n_span n) + 1 < sp_end (n_span n) -> U <= n_branch n) ->
  U <= n_branch c -> Forall (fun d => n_branch d + U <= n_branch c) rest ->
  forksSafe n tip U.
Proof.
  intros Hok Hp (m & Hm & Hml & Hms & Hid) Hsafe Hspan HU Hrest l s Hl Hs Hsl Hagree Hdiff.
  assert (Hc : c ∈ n_children n) by (rewrite <-Hp; apply list_elem_of_here).
  pose proof (node_ok_inv _ _ _ Hok) as ((Hnv & Hn1 & Hn2) & _ & _ & _ & _ & _ & Hnd).
  destruct (child_fits valid _ _ _ Hok Hc) as [Hcok [Hcs Hceq]].
  pose proof (node_ok_inv _ _ _ Hcok) as ((Hcv & Hc1 & Hc2) & _).
  destruct (inTree_history valid m n) with (top := top) as (Hmok & _ & Hagn); [by eapply in_child|done|].
  destruct (inTree_history valid m c Hm false Hcok) as (_ & _ & Hagc).
  destruct Hmok as (Hmv & Hm1 & Hm2). rewrite <-Hml in *.
  destruct (Z.lt_trichotomy s (sp_end (n_span n))) as [Hlt|[Heq|Hgt]].
  - apply (forks_in_span top); try done; try lia.
    apply Hagn. lia.
  - assert (Hstart : ancestorAt (st_ledger tip) s = childStart c).
    { unfold childStart, startID. rewrite Hcs, <-Heq. apply Hagc. lia. }
    rewrite Hstart in *.
    assert (Hw : n_branch c <= weight (qAt s (childStart c)) n).
    { rewrite <-(weight_all valid false c Hcok).
      etransitivity; [|by apply (at_child top n c)]. apply Z.eq_le_incl, weight_ext.
      intros x Hx. destruct (inTree_history valid x c Hx false Hcok) as (_ & Hle & Hag).
      symmetry. apply ask_at_spec. split; [destruct Hle as [->|]; lia|].
      rewrite Hag by lia. rewrite <-Hstart. symmetry. apply Hagc. lia. }
    destruct (fork_above top n l Hok Hl) as [->|(d & Hd & Hds & ->)]; [lia|lia|].
    rewrite <-Hp in Hd. apply elem_of_cons in Hd as [->|Hd]; [congruence|].
    rewrite Forall_forall in Hrest. specialize (Hrest d Hd).
    assert (Hdn : d ∈ n_children n) by (rewrite <-Hp; by right).
    destruct (child_fits valid _ _ _ Hok Hdn) as [Hdok _].
    pose proof (weight_nonneg valid (qDesc l) false d Hdok). lia.
  - specialize (Hsafe l s Hl ltac:(lia) Hsl Hagree Hdiff).
    pose proof (at_child top n c s (ancestorAt (st_ledger tip) s) Hok Hc) as Hat.
    destruct (fork_above top n l Hok Hl) as [->|(d & Hd & Hds & ->)]; [lia| |].
    + pose proof (weight_nonneg valid (qDesc l) false c Hcok). lia.
    + assert (childStart d = childStart c) as Hsame.
      { rewrite Hds. unfold childStart, startID. rewrite Hcs, <-Hagc by lia.
        apply (agree_below valid _ _ (s - 1)); try done; lia. }
      assert (d = c) as ->; [|lia].
      apply list_elem_of_lookup in Hd as [i Hi], Hc as [j Hj].
      assert (i = j) as -> by (apply (NoDup_lookup _ i j (childStart c) Hnd);
        rewrite list_lookup_fmap, ?Hi, ?Hj; cbn; congruence).
      congruence.
Qed.

(** The walk stops on the span of the node. *)
Lemma stop_within top (n : Node) e U :
  node_ok valid top n -> sp_start (n_span n) < e <= sp_end (n_span n) ->
  (sp_start (n_span n) + 1 < e -> U <= n_branch n) ->
  let tip := @spanTip L code (mkSpan (sp_start (n_span n)) e (sp_ledger (n_span n))) in
  tipWithin n tip /\ forksSafe n tip U.
Proof.
  intros Hok He HU tip. pose proof (node_ok_inv _ _ _ Hok) as ((Hv & Hs1 & Hs2) & _).
  pose proof (lseq_range _ Hv).
  assert (H1 : st_seq tip = e - 1) by (unfold tip, spanTip; cbn; rewrite u32_id; lia).
  assert (H2 : st_ledger tip = sp_ledger (n_span n)) by done.
  assert (H3 : st_id tip = @ancestorAt L code (st_ledger tip) (st_seq tip)) by done.
  clearbody tip. split.
  - exists n. split; [constructor|]. split; [done|]. split; [lia|done].
  - intros l s Hl Hs Hsl _ Hne. apply (forks_in_span top); try done; try lia. by rewrite H2.
Qed.

Lemma below_mono b b' lo (it : list (Z * Z)) :
  Forall (fun e => lo <= e.1 /\ 0 <= e.2) it -> b <= b' -> 0 <= below b it <= below b' it.
Proof.
  intros Hf Hb. induction Hf as [|e it He Hf IH]; [done|]. rewrite !below_cons.
  destruct (Z.ltb_spec e.1 b), (Z.ltb_spec e.1 b'); lia.
Qed.

Lemma preferredLoop_ok largest fuel : forall (curr : Node) top it u lo all U,
  node_ok valid top curr -> 0 < n_branch curr < 2 ^ 32 -> (height curr <= fuel)%nat ->
  walk_ok all u lo it -> U <= u + below largest it ->
  exists tip curr', @preferredLoop L code fuel largest curr it u = Some (tip, curr') /\
    reordered top curr curr' /\ tipWithin curr tip /\ forksSafe curr tip U.
Proof.
  induction fuel as [|fuel IH]; intros curr top it u lo all U Hok Hbr Hh Hw HU.
  { destruct curr. cbn in Hh. lia. }
  pose proof (node_ok_inv _ _ _ Hok) as (Hsp & Ht & Hb & _ & Hch & _).
  pose proof (span_ok_end valid _ Hsp) as Hend. pose proof Hsp as (Hv & Hs1 & Hs2).
  cbn [preferredLoop]. rewrite u32_id by lia.
  destruct (addUncommitted _ it u) as [u1 it1] eqn:E1.
  destruct (addUncommitted_ok _ _ _ _ _ _ _ Hw E1) as (Hw1 & Hu1 & Hu1').
  assert (HU1 : U <= u1).
  { destruct Hw as (_ & Hf & _). pose proof (below_mono largest (Z.max (sp_start (n_span curr) + 1) largest) _ _ Hf). lia. }
  destruct (advanceSpan _ _ it1 _ u1) as [[n2 u2] it2] eqn:E2.
  edestruct advanceSpan_ok as ([lo2 Hw2] & Hu2 & Hn2 & Hadv); [exact Hw1| | |exact E2|]; [lia..|].
  assert (Hrefl : reordered top curr curr) by (split; [done|]; done).
  destruct (Z.ltb_spec n2 (sp_end (n_span curr))) as [Hlt|Hge].
  { rewrite spanBefore_eq by lia. cbn [default]. eexists _, curr. split; [done|]. split; [done|].
    apply (stop_within top); [done|lia|lia]. }
  assert (Hwhole : tipWithin curr (@spanTip L code (n_span curr)) /\ forksSafe curr (@spanTip L code (n_span curr)) U).
  { destruct (n_span curr) as [st en ld] eqn:Esp.
    pose proof (stop_within top curr (sp_end (n_span curr)) U Hok) as Hsw. rewrite Esp in Hsw.
    cbn in Hsw, Hadv, Hge, Hn2, Hs1. apply Hsw; lia. }
  destruct (bestChild (n_children curr)) as [[[c margin]|] cs'] eqn:Ebest.
  - assert (Hpos : Forall (fun c => 0 < n_branch c) (n_children curr)).
    { eapply Forall_impl; [exact Hch|]. intros d Hd. by apply (node_ok_branch valid false). }
    destruct (bestChild_ok _ _ _ _ Hpos ltac:(lia) Ebest) as (Hcs & Hp & Hmargin).
    destruct (_ || _) eqn:Ego.
    + destruct (Hmargin u2) as [Huc Hrest]; [destruct Hw2 as (_ & _ & ? & _); lia|done|].
      assert (Hc : c ∈ n_children curr) by (rewrite <-Hp, Hcs; apply list_elem_of_here).
      destruct (child_fits valid _ _ _ Hok Hc) as [Hcok _].
      pose proof (node_ok_branch valid _ _ Hcok) as [_ Hcpos]. pose proof (child_branch valid _ _ _ Hok Hc).
      pose proof (height_child _ _ Hc).
      destruct (IH c false it2 u2 lo2 all U) as (tip & c' & Hrun & Hre & Htip & Hsafe); try done.
      { specialize (Hcpos eq_refl). lia. }
      { lia. }
      { destruct Hw2 as (_ & Hf & _). pose proof (below_mono largest largest _ _ Hf). lia. }
      rewrite Hrun. eexists tip, _. split; [done|]. rewrite Hcs in Hp.
      split; [by apply (reordered_child top curr c)|]. split.
      * destruct Htip as (m & Hm & ?). exists m. split; [by eapply in_child|done].
      * apply (forks_descend top curr c (tail cs')); try done; try lia.
        eapply Forall_impl; [exact Hrest|]. cbn. lia.
    + eexists _, _. split; [done|]. split; [by apply reordered_children|done].
  - apply bestChild_none in Ebest as [Ecs ->]. eexists _, _. split; [done|].
    split; [|done]. apply reordered_children; [done|]. by rewrite Ecs.
Qed.

(** ** getPreferred *)

(** The validators whose last validated ledger is older than [largestIssued]. *)
Definition uncommittedSupport (t : LedgerTrie L) (largestIssued : Z) : Z :=
  below largestIssued (sortedEntries (seqSupport t)).

(** The entries of [seqSupport] add up to at most the branch support of the root. *)
Definition qIn (ks : list Z) : Question := fun s _ => bool_decide (s ∈ ks).

Lemma weight_qIn_cons k ks (n : Node) :
  (k ∉ ks) -> weight (qIn (k :: ks)) n = weight (qSeq k) n + weight (qIn ks) n.
Proof.
  intros Hk. induction n as [n IH] using node_ind'. rewrite !weight_eq.
  assert (Hsum : sumZ (map (weight (qIn (k :: ks))) (n_children n)) =
    sumZ (map (weight (qSeq k)) (n_children n)) + sumZ (map (weight (qIn ks)) (n_children n))).
  { induction (n_children n) as [|c cs IHc]; [done|]. apply Forall_cons in IH as [IH0 IH].
    cbn. unfold sumZ in IHc. rewrite IH0, IHc by done. lia. }
  rewrite Hsum. unfold ask, qIn, qSeq. set (e := sp_end (n_span n) - 1).
  destruct (Z.eqb_spec e k) as [->|Hne].
  - rewrite bool_decide_true by apply list_elem_of_here. rewrite bool_decide_false by done. lia.
  - rewrite (bool_decide_ext (e ∈ k :: ks) (e ∈ ks)); [lia|].
    rewrite elem_of_cons. split; [by intros [->|]|by right].
Qed.

Lemma seqSupport_walk t :
  trie_ok valid t ->
  walk_ok (total (sortedEntries (seqSupport t))) 0 0 (sortedEntries (seqSupport t)).
Proof.
  intros (Hok & _ & _ & Hb & Hseq).
  assert (Hent : forall e, e ∈ sortedEntries (seqSupport t) ->
    e.2 = weight (qSeq e.1) (root t) /\ 0 < e.2).
  { intros [s c] He. apply elem_of_sortedEntries in He. rewrite Hseq in He. cbn.
    pose proof (weight_nonneg valid (qSeq s) true _ Hok).
    unfold optSupport in He. destruct (Z.eqb_spec (weight (qSeq s) (root t)) 0); [done|].
    injection He as <-. lia. }
  split; [apply sortedEntries_sorted|]. split; [|split; [done|]; split; [done|]].
  - apply Forall_forall. intros e He. destruct (Hent e He) as [Hw Hpos]. split; [|lia].
    destruct (Z.lt_ge_cases e.1 0) as [Hneg|]; [exfalso|done].
    assert (weight (qSeq e.1) (root t) = 0); [|lia]. apply weight_zero. intros m Hm.
    destruct (inTree_history valid m _ Hm true Hok) as ((_ & ? & _) & _).
    unfold ask, qSeq. apply Z.eqb_neq. lia.
  - assert (Hnd : NoDup (sortedEntries (seqSupport t)).*1)
      by (rewrite sortedEntries_perm; apply NoDup_fst_map_to_list).
    assert (Hsum : forall es, (forall e, e ∈ es -> e ∈ sortedEntries (seqSupport t)) -> NoDup es.*1 ->
      total es = weight (qIn es.*1) (root t)).
    { induction es as [|e es IH]; intros Hin Hn.
      - symmetry. apply weight_zero. done.
      - rewrite fmap_cons in *. apply NoDup_cons in Hn as [Hn1 Hn2].
        rewrite total_cons, weight_qIn_cons, IH by (done || (intros; apply Hin; by right)).
        destruct (Hent e) as [-> _]; [apply Hin, list_elem_of_here|]. done. }
    rewrite Hsum by done. pose proof (weight_nonneg valid (qIn (sortedEntries (seqSupport t)).*1) true _ Hok). lia.
Qed.

Lemma getPreferred_run t largest :
  trie_ok valid t -> empty t = false ->
  exists tip r, @getPreferred L code t largest = (Some tip, mkTrie r (seqSupport t)) /\
    reordered true (root t) r /\ tipWithin (root t) tip /\
    forksSafe (root t) tip (uncommittedSupport t largest).
Proof.
  intros Ht He. pose proof (seqSupport_walk t Ht) as Hw. destruct Ht as (Hok & _ & _ & Hb & _).
  unfold getPreferred. rewrite He. unfold empty in He. breflect.
  pose proof (node_ok_branch valid _ _ Hok) as [? _].
  destruct (preferredLoop_ok largest (height (root t)) (root t) true _ 0 0 _
    (uncommittedSupport t largest) Hok ltac:(lia) ltac:(lia) Hw) as (tip & r & -> & Hre & Htip & Hsafe).
  { unfold uncommittedSupport. lia. }
  by exists tip, r.
Qed.

Lemma weight_inTree Q (m n : Node) : inTree m n -> forall top, node_ok valid top n -> weight Q m <= weight Q n.
Proof.
  induction 1 as [n|m c n Hc Hm IH]; intros top Hok; [done|].
  destruct (child_fits valid _ _ _ Hok Hc) as [Hcok _]. specialize (IH false Hcok).
  pose proof (node_ok_inv _ _ _ Hok) as (_ & Ht & _ & _ & Hch & _). rewrite (weight_eq Q n).
  assert (Hall : Forall (fun d => 0 <= weight Q d) (n_children n)).
  { eapply Forall_impl; [exact Hch|]. intros d Hd. by apply (weight_nonneg valid _ false). }
  pose proof (sumZ_map_elem (weight Q) _ _ Hall Hc). destruct (ask _ _); lia.
Qed.

Lemma inTree_ok (m n : Node) : inTree m n -> forall top, node_ok valid top n ->
  node_ok valid true m /\ (0 < n_branch n -> 0 < n_branch m).
Proof.
  induction 1 as [n|m c n Hc Hm IH]; intros top Hok; [split; [by apply node_ok_top in Hok|done]|].
  destruct (child_fits valid _ _ _ Hok Hc) as [Hcok _]. destruct (IH false Hcok) as [H1 H2].
  split; [done|]. intros _. apply H2. by apply (node_ok_branch valid false).
Qed.

Lemma reordered_ok t r :
  trie_ok valid t -> reordered true (root t) r -> trie_ok valid (mkTrie r (seqSupport t)).
Proof.
  intros (Hok & Hs0 & He1 & Hb & Hseq) (Hr1 & Hr2 & Hr3 & Hr4).
  unfold trie_ok. cbn [root seqSupport]. rewrite Hr2, Hr3. repeat (split; [done|]).
  intros s. by rewrite Hseq, Hr4.
Qed.

(** A tip on the tree is a ledger with support. *)
Lemma tip_supported t tip a :
  trie_ok valid t -> empty t = false -> tipWithin (root t) tip -> valid a ->
  lid a = ancestorAt (st_ledger tip) (st_seq tip) ->
  lseq a = st_seq tip /\ 0 < branchSupport t a.
Proof.
  intros Ht He (m & Hm & Hl & Hs & _) Ha Hid. rewrite (branchSupport_weight valid) by done.
  destruct Ht as (Hok & _). unfold empty in He. breflect.
  pose proof (node_ok_branch valid _ _ Hok) as [? _].
  destruct (inTree_ok m _ Hm true Hok) as [Hmok Hmpos].
  pose proof (weight_inTree (qDesc a) m _ Hm true Hok) as Hwm.
  pose proof (node_ok_inv _ _ _ Hmok) as ((Hmv & Hm1 & Hm2) & _). pose proof (lseq_range a Ha).
  rewrite (lid_ancestorAt a Ha), Hl in Hid.
  assert (Hsa : lseq a = st_seq tip) by (apply (ancestorAt_seq a (sp_ledger (n_span m))); try done; lia).
  split; [done|].
  assert (lseq a < mismatch (sp_ledger (n_span m)) a).
  { apply (agree_mismatch valid); try done; try lia. rewrite Hid. by rewrite Hsa. }
  rewrite (weight_desc_within valid true) in Hwm by (done || lia).
  destruct (Z.ltb_spec (lseq a) (mismatch (sp_ledger (n_span m)) a)); lia.
Qed.

End Preferred.

(** ** Ledgers that know their complete ancestry *)

Section Complete.
Context {L : Type} `{LedgerOps L} (valid : L -> Prop) `{!LedgerLaws L valid}.



End Complete.

(** ** The server's ledgers *)

Section Sample.
Import Ledgers.Sample.



End Sample.
