(* ===== verification/TrieKnown.v ===== *)
(** * The trie of ledgers that know part of their ancestry

    The server's ledgers carry their last 256 ancestors.  For ledgers in play that
    satisfy [KnownLedgers], the trie run on what the ledgers know is the trie of their
    complete histories: every operation of the code that looks an identifier up finds
    the node it would find with complete knowledge.  So the trie stands for the
    multiset of the supported ledgers also then. *)
From S2P Require Import Prelude Ledgers Trie TrieFacts TrieSpec TriePreferred.

Section Known.
Context {L : Type} `{ops : LedgerOps L} (valid : L -> Prop) `{!KnownLedgers L valid}.

Abbreviation full := (withHistory ops history).

(** ** Identifiers *)

(** The laws of the complete histories. *)
Lemma known_genesis : valid makeGenesis /\ lseq makeGenesis = 0.
Proof. exact (conj (genesis_valid (LedgerLaws := history_laws)) (genesis_seq (LedgerLaws := history_laws))). Qed.

Lemma known_range l : valid l -> 0 <= lseq l < 2 ^ 32 - 1.
Proof. exact (lseq_range (H := full) l). Qed.

Lemma known_self l : valid l -> lid l = history l (lseq l).
Proof. exact (lid_ancestorAt (H := full) l). Qed.

Lemma known_seq a b s t :
  valid a -> valid b -> 0 <= s <= lseq a -> 0 <= t <= lseq b -> history a s = history b t -> s = t.
Proof. exact (ancestorAt_seq (H := full) a b s t). Qed.

Lemma history_zero l : valid l -> history l 0 = 0 /\ ancestorAt l 0 = 0.
Proof.
  intros Hl. destruct known_genesis as [Hg Hs]. pose proof (known_range l Hl).
  assert (E : history l 0 = history makeGenesis 0).
  { apply (mismatch_agree (H := full) l makeGenesis 0 Hl Hg).
    destruct (mismatch_range (H := full) l makeGenesis Hl Hg) as [Hm _].
    split; [done|]. eapply Z.lt_le_trans; [apply Z.lt_0_1|exact Hm]. }
  pose proof (known_self _ Hg) as Eg. rewrite Hs, genesis_id in Eg. rewrite <-Eg in E.
  split; [done|]. destruct (known_or_unknown l 0 Hl); [lia|congruence..].
Qed.

Lemma genesis_only l : valid l -> lid l = 0 -> lseq l = 0.
Proof.
  intros Hl E. pose proof (known_range l Hl). pose proof (known_self l Hl).
  apply (known_seq l l); [done..|lia|lia|]. destruct (history_zero l Hl). congruence.
Qed.

(** The identifiers of the ledgers in play are known wherever they occur. *)
Lemma known_id x l s :
  valid x -> valid l -> lid l <> 0 -> 0 <= s <= lseq x ->
  lid l = ancestorAt x s <-> lid l = history x s.
Proof.
  intros Hx Hl Hz Hs. split; intros E.
  - destruct (known_or_unknown x s Hx Hs); congruence.
  - pose proof (known_range l Hl). pose proof (known_self l Hl).
    assert (lseq l = s) as <- by (apply (known_seq l x); try done; [lia|congruence]).
    symmetry. apply known_in_play; [done|done|lia|done].
Qed.

(** ** Looking a ledger up by its identifier *)

Lemma tip_known top (n : Node L) l :
  node_ok (H := full) valid top n -> valid l -> lid l <> 0 ->
  (lid l =? st_id (spanTip (n_span n))) = (lid l =? st_id (@spanTip L full (n_span n))).
Proof.
  intros (Hs & _)%node_ok_inv Hl Hz. pose proof (span_ok_end (H := full) valid _ Hs) as Hend.
  destruct Hs as (Hv & H1 & H2). cbn [withHistory lseq] in H2. unfold spanTip.
  cbn [st_id withHistory ancestorAt]. rewrite u32_id by lia.
  assert (Hk := known_id (sp_ledger (n_span n)) l (sp_end (n_span n) - 1) Hv Hl Hz). specialize (Hk ltac:(lia)).
  apply eq_bool_prop_intro. rewrite !Is_true_true, !Z.eqb_eq. done.
Qed.

Lemma findIDFrom_known l (n : Node L) : forall top,
  node_ok (H := full) valid top n -> valid l -> lid l <> 0 ->
  findIDFrom (lid l) n = @findIDFrom L full (lid l) n.
Proof.
  induction n as [n IH] using node_ind'. intros top Hok Hl Hz.
  pose proof (tip_known top n l Hok Hl Hz) as Et.
  apply node_ok_inv in Hok as (_ & _ & _ & _ & Hch & _).
  destruct n as [sp t b cs]. cbn [findIDFrom n_span n_children] in *. rewrite Et. clear Et.
  destruct (lid l =? _); [reflexivity|]. generalize 0%nat.
  induction cs as [|c cs IHc]; intros i; [done|].
  apply Forall_cons in IH as [IHn IH], Hch as [Hc Hch].
  rewrite (IHn false) by done. destruct (@findIDFrom L full _ _); [done|]. by apply IHc.
Qed.

Lemma find_known t l :
  trie_ok (H := full) valid t -> valid l -> findByLedgerID t l = @findByLedgerID L full t l.
Proof.
  intros (Hok & H0 & H1 & _) Hl. unfold findByLedgerID. destruct (decide (lid l = 0)) as [Ez|Hz].
  - apply node_ok_inv in Hok as ((Hv & _) & _). destruct (history_zero _ Hv) as [E1 E2].
    destruct (root t) as [[st en ld] tp br cs]. cbn in *. subst en.
    change (1 -32 1) with 0. by rewrite Ez, E1, E2.
  - by apply (findIDFrom_known l (root t) true).
Qed.

Lemma remove_known t l count :
  trie_ok (H := full) valid t -> valid l -> remove t l count = @remove L full t l count.
Proof. intros Ht Hl. unfold remove. by rewrite find_known. Qed.

Lemma tipSupport_known t l :
  trie_ok (H := full) valid t -> valid l -> tipSupport t l = @tipSupport L full t l.
Proof. intros Ht Hl. unfold tipSupport, nodeByID. by rewrite find_known. Qed.

Lemma branchSupport_known t l :
  trie_ok (H := full) valid t -> valid l -> branchSupport t l = @branchSupport L full t l.
Proof. intros Ht Hl. unfold branchSupport, nodeByID. by rewrite find_known. Qed.

(** Also the genesis ledger, whose identifier is the one for the unknown. *)
Lemma known_ancestor a l :
  valid a -> valid l -> lseq a <= lseq l ->
  ancestorAt l (lseq a) = lid a <-> history l (lseq a) = lid a.
Proof.
  intros Ha Hl Hle. pose proof (known_range a Ha). destruct (decide (lid a = 0)) as [Ez|Hz].
  - rewrite (genesis_only a Ha Ez). destruct (history_zero l Hl) as [-> ->]. done.
  - assert (Hk := known_id l a (lseq a) Hl Ha Hz). specialize (Hk ltac:(lia)).
    split; intros E; symmetry; apply Hk; by rewrite E.
Qed.

Lemma ancestorAt_self l : valid l -> ancestorAt l (lseq l) = lid l.
Proof. intros Hl. apply known_ancestor; [done..|lia|]. by rewrite <-known_self. Qed.

Lemma history_below a b s t :
  valid a -> valid b -> s <= lseq a -> s <= lseq b -> 0 <= t <= s ->
  history a s = history b s -> history a t = history b t.
Proof. exact (agree_below (H := full) valid a b s t). Qed.

Lemma isAncestor_known a l : valid a -> valid l -> isAncestor a l = @isAncestor L full a l.
Proof.
  intros Ha Hl.
  change (@isAncestor L full a l) with ((lseq a <=? lseq l) && (history l (lseq a) =? lid a)).
  unfold isAncestor. destruct (Z.leb_spec (lseq a) (lseq l)) as [Hle|]; [|done]. cbn [andb].
  apply eq_bool_prop_intro. rewrite !Is_true_true, !Z.eqb_eq. by apply known_ancestor.
Qed.

(** ** The multiset *)

(** The trie stands for the multiset, by the complete histories. *)
Definition stands (t : LedgerTrie L) (bag : list L) : Prop := represents (H := full) valid t bag.

Lemma stands_valid t bag : stands t bag -> Forall valid bag.
Proof. by intros (_ & ? & _). Qed.

Lemma stands_empty : stands emptyTrie [].
Proof. apply (represents_empty (H := full) valid). Qed.

Lemma stands_insert t bag l count :
  stands t bag -> valid l -> 0 < count -> Z.of_nat (length bag) + count < 2 ^ 32 ->
  stands (insert t l count) (replicate (Z.to_nat count) l ++ bag).
Proof. apply (represents_insert (H := full) valid). Qed.

Lemma stands_remove t bag l count :
  stands t bag -> valid l -> 0 < count ->
  stands (snd (remove t l count)) (dropCopies (Z.to_nat count) (lid l) bag).
Proof.
  intros Hs Hl Hc. rewrite remove_known by (done || apply Hs).
  by apply (represents_remove (H := full) valid).
Qed.

Lemma stands_remove_one t bag l : stands t (l :: bag) -> stands (snd (remove t l 1)) bag.
Proof.
  intros Hs. pose proof (stands_valid _ _ Hs) as [Hl _]%Forall_cons.
  rewrite remove_known by (done || apply Hs). by apply (represents_remove_one (H := full) valid).
Qed.

Lemma stands_perm t bag bag' : bag ≡ₚ bag' -> stands t bag -> stands t bag'.
Proof. apply (represents_perm (H := full) valid). Qed.

Lemma stands_check t bag : stands t bag -> checkInvariants t = true.
Proof. intros (Ht & _). by apply (checkInvariants_ok (H := full) valid). Qed.

Lemma stands_tip t bag l : stands t bag -> valid l -> tipSupport t l = countIn (sameLedger l) bag.
Proof.
  intros Hs Hl. rewrite tipSupport_known by (done || apply Hs).
  by apply (represents_tip (H := full) valid).
Qed.

Lemma stands_branch t bag l : stands t bag -> valid l -> branchSupport t l = countIn (isAncestor l) bag.
Proof.
  intros (Ht & Hv & Hw) Hl.
  rewrite branchSupport_known, (branchSupport_weight (H := full) valid), Hw
    by (done || by apply (respects_qDesc (H := full) valid)).
  apply sumZ_map_ext. intros x Hx. rewrite Forall_forall in Hv. by rewrite (isAncestor_known l x) by auto.
Qed.

Lemma stands_nil t bag : stands t bag -> empty t = bool_decide (bag = []).
Proof.
  intros Hs. unfold empty. rewrite (represents_branch (H := full) valid _ _ Hs). by destruct bag.
Qed.

Lemma trieRun_stands t bag : trieRun valid t bag -> stands t bag.
Proof.
  induction 1.
  - apply stands_empty.
  - by apply stands_insert.
  - by apply stands_remove.
Qed.


(** ** getPreferred *)

(** The tip is on the trie: a place of the history of a ledger in play, with the
    identifier that ledger knows for it. *)
Record onTrie (t : LedgerTrie L) (tip : SpanTip L) : Prop := mkOnTrie {
  on_valid : valid (st_ledger tip);
  on_seq : 0 <= st_seq tip <= lseq (st_ledger tip);
  on_id : st_id tip = ancestorAt (st_ledger tip) (st_seq tip);
  on_support : forall a, valid a -> lid a = st_id tip -> lid a <> 0 ->
    lseq a = st_seq tip /\ 0 < branchSupport t a
}.

Lemma tipWithin_onTrie t bag tip :
  stands t bag -> empty t = false -> tipWithin ops (root t) tip -> onTrie t tip.
Proof.
  intros (Ht & _) He Htip. pose proof Htip as (m & Hm & Hl & Hs & Hid). pose proof Ht as (Hok & _).
  destruct (inTree_history (H := full) valid m _ Hm true Hok) as ((Hmv & Hm1 & Hm2) & _).
  change (@lseq L full (sp_ledger (n_span m))) with (lseq (sp_ledger (n_span m))) in Hm2.
  rewrite <-Hl in Hmv, Hm2. constructor; [done|lia|done|].
  intros a Ha E Hz. rewrite branchSupport_known by done.
  apply (tip_supported ops (H := full) valid t tip a Ht He Htip Ha).
  apply (known_id (st_ledger tip) a (st_seq tip)); [done..|lia|congruence].
Qed.

(** A ledger with the identifier of the tip has the history of the tip. *)
Lemma onTrie_history t tip a s :
  onTrie t tip -> valid a -> lid a = st_id tip -> lid a <> 0 -> 0 <= s <= lseq a ->
  history a s = history (st_ledger tip) s.
Proof.
  intros [Hv Hs Hid Hsup] Ha E Hz Hr. destruct (Hsup a Ha E Hz) as [Es _].
  apply (history_below _ _ (lseq a)); try done; try lia.
  rewrite <-known_self, Es by done. apply known_id; [done..|congruence].
Qed.

(** A trie with support names a tip that is on it, and is left as it is up to the
    order of children. *)
Lemma stands_preferred t bag largest :
  stands t bag -> empty t = false ->
  exists tip r, getPreferred t largest = (Some tip, mkTrie r (seqSupport t)) /\
    stands (mkTrie r (seqSupport t)) bag /\ onTrie t tip /\
    empty (mkTrie r (seqSupport t)) = false /\
    (forall a, valid a -> branchSupport (mkTrie r (seqSupport t)) a = branchSupport t a).
Proof.
  intros Hs He. pose proof Hs as (Ht & Hv & Hw).
  destruct (getPreferred_run ops (H := full) valid t largest Ht He) as (tip & r & E & Hre & Htip & _).
  pose proof (reordered_ok (H := full) valid t r Ht Hre) as Ht'. destruct Hre as (_ & _ & Hbr & Hr).
  assert (Hs' : stands (mkTrie r (seqSupport t)) bag).
  { split; [done|]. split; [done|]. intros Q HQ. cbn [root]. by rewrite Hr, Hw. }
  exists tip, r. split; [done|]. split; [done|]. split; [by apply (tipWithin_onTrie t bag)|].
  split; [unfold empty in *; cbn [root]; by rewrite Hbr|].
  intros a Ha. by rewrite !(stands_branch _ bag).
Qed.

End Known.

(** ** The server's ledgers *)

Section Sample.
Import Ledgers.Sample.

(** Ledgers that know two ancestors each. *)
Definition windowTrie : LedgerTrie RCLValidatedLedger := insert (insert emptyTrie L61 3) L52 1.

Lemma windowTrie_run : trieRun known windowTrie [L52; L61; L61; L61].
Proof.
  apply (run_insert known _ [L61; L61; L61] L52 1); try done; [|apply L52_known].
  apply (run_insert known _ [] L61 3); try done; [constructor|apply L61_known].
Qed.


(** Beyond what the ledgers know: the ledgers 7 and 2 of one chain, of which the
    first knows only its ancestors 5 and 6, count as unrelated, and the branch
    support of the older one is its own. *)
Lemma unknown_ancestor_unrelated :
  let old := mkRCLLedger 21 2 [11] in
  let new := mkRCLLedger 71 7 [51; 61] in
  let t := insert (insert emptyTrie old 1) new 1 in
  mismatch old new = 1 /\ branchSupport t old = 1 /\ branchSupport t new = 1 /\
  checkInvariants t = true.
Proof. vm_compute. repeat split. Qed.

End Sample.
