(* ===== verification/Validations.v ===== *)
(** * Validations

    [ValidationParms], [SeqEnforcer], [isCurrent] and the class [Validations] of
    include/xrpl/consensus/Validations.h, over any ledger type of [LedgerOps].

    The members of the class are the fields of a state record and each member
    function takes and returns the state; the mutex makes each of them one step.
    What a call reads from the adaptor and the clocks is its environment: the network
    time, the steady time and the ledgers that can be acquired.  [HashMap] is [gmap]
    and is iterated in the order of [map_to_list].  An aged map keeps with each entry
    the steady time of its last use: [operator\[\]] creates an entry at the current
    time and leaves an existing one's time alone, [touch] renews it, [expire] removes
    the entries not used since.  Network times are 32-bit seconds, promoted to 64-bit
    arithmetic by the duration types as in the source; steady times are integers in
    nanoseconds.

    A [Validation] is a value.  The server's type is a shared pointer, whose only
    mutable part is the trust flag; [trustChanged] sets it in every copy that is
    read, so sharing is not observable. *)
From S2P Require Import Prelude Ledgers Trie.

Record ValidationParms := mkVParms {
  validationCurrentWall : Z;
  validationCurrentLocal : Z;
  validationCurrentEarly : Z;
  validationSetExpires : Z;
  validationFRESHNESS : Z
}.

Definition defaultVParms : ValidationParms := mkVParms 300 180 180 600 20.

(** Seconds as steady-clock nanoseconds. *)
Definition seconds (n : Z) : Z := n * 1000000000.

(** ** SeqEnforcer *)

Record SeqEnforcer := mkEnforcer { enf_seq : Z; enf_when : Z }.

Definition newEnforcer : SeqEnforcer := mkEnforcer 0 0.

(** [SeqEnforcer::operator()] *)
Definition enforce (e : SeqEnforcer) (now s : Z) (p : ValidationParms) : bool * SeqEnforcer :=
  let sq := if enf_when e + seconds (validationSetExpires p) <? now then 0 else enf_seq e in
  if s <=? sq then (false, mkEnforcer sq (enf_when e)) else (true, mkEnforcer s now).

Definition largest (e : SeqEnforcer) : Z := enf_seq e.

(** ** isCurrent *)

Definition isCurrent (p : ValidationParms) (now signTime seenTime : Z) : bool :=
  (now - validationCurrentEarly p <? signTime) &&
  (signTime <? now + validationCurrentWall p) &&
  ((seenTime =? 0) || (seenTime <? now + validationCurrentLocal p)).

Inductive ValStatus := Current | Stale | BadSeq | Multiple | Conflicting.

#[export] Instance ValStatus_eq_dec : EqDecision ValStatus.
Proof. solve_decision. Defined.

(** The interface of [Validation] the class uses. *)
Record Validation := mkValidation {
  v_ledgerID : Z;
  v_seq : Z;
  v_signTime : Z;
  v_seenTime : Z;
  v_key : Z;
  v_trusted : bool;
  v_full : bool;
  v_loadFee : option Z;
  v_cookie : Z
}.

#[export] Instance Validation_eq_dec : EqDecision Validation.
Proof. solve_decision. Defined.

Definition setTrust (b : bool) (v : Validation) : Validation :=
  mkValidation (v_ledgerID v) (v_seq v) (v_signTime v) (v_seenTime v) (v_key v) b
    (v_full v) (v_loadFee v) (v_cookie v).

Section Validations.
Context {L : Type} `{LedgerOps L}.

(** ** State *)

Record Validations := mkVals {
  current_ : gmap Z Validation;
  localSeqEnforcer : SeqEnforcer;
  seqEnforcers : gmap Z SeqEnforcer;
  byLedger_ : gmap Z (Z * gmap Z Validation);
  bySequence : gmap Z (Z * gmap Z Validation);
  toKeep : option (Z * Z);
  trie : LedgerTrie L;
  lastLedger : gmap Z L;
  acquiring : gmap (Z * Z) (gset Z);
  kRefreshTime : Z
}.

(** [kRefreshTime], a static of [expire], starts at the epoch. *)
Definition newValidations : Validations :=
  mkVals ∅ newEnforcer ∅ ∅ ∅ None emptyTrie ∅ ∅ 0.

Record Env := mkEnv {
  netNow : Z;
  steadyNow : Z;
  acquire : Z -> option L
}.

Definition setCurrent (v : Validations) (c : gmap Z Validation) : Validations :=
  mkVals c (localSeqEnforcer v) (seqEnforcers v) (byLedger_ v) (bySequence v) (toKeep v)
    (trie v) (lastLedger v) (acquiring v) (kRefreshTime v).

Definition setTrie (v : Validations) (t : LedgerTrie L) (last : gmap Z L) : Validations :=
  mkVals (current_ v) (localSeqEnforcer v) (seqEnforcers v) (byLedger_ v) (bySequence v)
    (toKeep v) t last (acquiring v) (kRefreshTime v).

Definition setAcquiring (v : Validations) (a : gmap (Z * Z) (gset Z)) : Validations :=
  mkVals (current_ v) (localSeqEnforcer v) (seqEnforcers v) (byLedger_ v) (bySequence v)
    (toKeep v) (trie v) (lastLedger v) a (kRefreshTime v).

Definition setSeqs (v : Validations) (enf : gmap Z SeqEnforcer)
    (bs : gmap Z (Z * gmap Z Validation)) : Validations :=
  mkVals (current_ v) (localSeqEnforcer v) enf (byLedger_ v) bs (toKeep v)
    (trie v) (lastLedger v) (acquiring v) (kRefreshTime v).

Definition setByLedger (v : Validations) (bl : gmap Z (Z * gmap Z Validation)) : Validations :=
  mkVals (current_ v) (localSeqEnforcer v) (seqEnforcers v) bl (bySequence v) (toKeep v)
    (trie v) (lastLedger v) (acquiring v) (kRefreshTime v).

(** ** Keeping the trie *)

(** [acquiring_.find(k)], then erasing the node, and the entry once empty. *)
Definition dropAcquiring (a : gmap (Z * Z) (gset Z)) (k : Z * Z) (nodeID : Z)
    : gmap (Z * Z) (gset Z) :=
  match a !! k with
  | Some s => let s := s ∖ {[nodeID]} in if decide (s = ∅) then delete k a else <[k := s]> a
  | None => a
  end.

Definition removeTrie (v : Validations) (nodeID : Z) (val : Validation) : Validations :=
  let v := setAcquiring v (dropAcquiring (acquiring v) (v_seq val, v_ledgerID val) nodeID) in
  match lastLedger v !! nodeID with
  | Some l =>
      if lid l =? v_ledgerID val
      then setTrie v (snd (remove (trie v) l 1)) (delete nodeID (lastLedger v))
      else v
  | None => v
  end.

(** [updateTrie] with a ledger *)
Definition updateTrieLedger (v : Validations) (nodeID : Z) (ledger : L) : Validations :=
  let t := match lastLedger v !! nodeID with
           | Some old => snd (remove (trie v) old 1)
           | None => trie v
           end in
  setTrie v (insert t ledger 1) (<[nodeID := ledger]> (lastLedger v)).

Definition acquiredOne (env : Env) (v : Validations) (e : (Z * Z) * gset Z) : Validations :=
  match acquire env e.1.2 with
  | Some ledger =>
      let v := foldl (fun v nodeID => updateTrieLedger v nodeID ledger) v (elements e.2) in
      setAcquiring v (delete e.1 (acquiring v))
  | None => v
  end.

Definition checkAcquired (env : Env) (v : Validations) : Validations :=
  foldl (acquiredOne env) v (map_to_list (acquiring v)).

(** [updateTrie] with a validation *)
Definition updateTrie (env : Env) (v : Validations) (nodeID : Z) (val : Validation)
    (prior : option (Z * Z)) : Validations :=
  let v := match prior with
           | Some k => setAcquiring v (dropAcquiring (acquiring v) k nodeID)
           | None => v
           end in
  let v := checkAcquired env v in
  let valPair := (v_seq val, v_ledgerID val) in
  match acquiring v !! valPair with
  | Some s => setAcquiring v (<[valPair := {[nodeID]} ∪ s]> (acquiring v))
  | None =>
      match acquire env (v_ledgerID val) with
      | Some ledger => updateTrieLedger v nodeID ledger
      | None => setAcquiring v (<[valPair := {[nodeID]}]> (acquiring v))
      end
  end.

(** [current]: flush what is stale; the entries the callback is given, in order. *)
Definition currentOne (p : ValidationParms) (env : Env)
    (acc : Validations * list (Z * Validation)) (e : Z * Validation)
    : Validations * list (Z * Validation) :=
  let '(v, out) := acc in
  if isCurrent p (netNow env) (v_signTime e.2) (v_seenTime e.2) then (v, out ++ [e])
  else
    let v := removeTrie v e.1 e.2 in
    (setCurrent v (delete e.1 (current_ v)), out).

Definition current (p : ValidationParms) (env : Env) (v : Validations)
    : Validations * list (Z * Validation) :=
  foldl (currentOne p env) (v, []) (map_to_list (current_ v)).

(** [withTrie], up to the call of [f] *)
Definition withTrie (p : ValidationParms) (env : Env) (v : Validations) : Validations :=
  checkAcquired env (fst (current p env v)).

(** [byLedger]: renew the entry; the validations the callback is given. *)
Definition byLedger (env : Env) (v : Validations) (ledgerID : Z)
    : Validations * list (Z * Validation) :=
  match byLedger_ v !! ledgerID with
  | Some (_, m) => (setByLedger v (<[ledgerID := (steadyNow env, m)]> (byLedger_ v)), map_to_list m)
  | None => (v, [])
  end.

(** ** Members *)

Definition canValidateSeq (p : ValidationParms) (env : Env) (v : Validations) (s : Z)
    : bool * Validations :=
  let '(ok, e) := enforce (localSeqEnforcer v) (steadyNow env) s p in
  (ok, mkVals (current_ v) e (seqEnforcers v) (byLedger_ v) (bySequence v) (toKeep v)
         (trie v) (lastLedger v) (acquiring v) (kRefreshTime v)).

(** [bySequence_\[seq\].emplace(nodeID, val)] and the replacement of an entry signed
    long before: the entry tracked for the node afterwards, and the map. *)
Definition trackSequence (p : ValidationParms) (env : Env) (v : Validations) (nodeID : Z)
    (val : Validation) : Validation * gmap Z (Z * gmap Z Validation) :=
  let '(w, m) := default (steadyNow env, ∅) (bySequence v !! v_seq val) in
  let tracked :=
    match m !! nodeID with
    | Some old =>
        let diff := Z.max (v_signTime old) (v_signTime val) - Z.min (v_signTime old) (v_signTime val) in
        if (validationCurrentWall p <? diff) && (v_signTime old <? v_signTime val) then val else old
    | None => val
    end in
  (tracked, <[v_seq val := (w, <[nodeID := tracked]> m)]> (bySequence v)).

(** The outcome for a validation that breaks the increasing-sequence rule. *)
Definition byzantine (tracked val : Validation) : ValStatus :=
  if v_seq tracked =? v_seq val then
    if negb (v_ledgerID tracked =? v_ledgerID val) then Conflicting
    else if negb (v_signTime tracked =? v_signTime val) then Conflicting
    else if negb (v_cookie tracked =? v_cookie val) then Multiple
    else BadSeq
  else BadSeq.

Definition add (p : ValidationParms) (env : Env) (v : Validations) (nodeID : Z) (val : Validation)
    : ValStatus * Validations :=
  if negb (isCurrent p (netNow env) (v_signTime val) (v_seenTime val)) then (Stale, v)
  else
    let '(tracked, bs) := trackSequence p env v nodeID val in
    let '(ok, enf) :=
      enforce (default newEnforcer (seqEnforcers v !! nodeID)) (steadyNow env) (v_seq val) p in
    let v := setSeqs v (<[nodeID := enf]> (seqEnforcers v)) bs in
    if negb ok then (byzantine tracked val, v)
    else
      let '(w, m) := default (steadyNow env, ∅) (byLedger_ v !! v_ledgerID val) in
      let v := setByLedger v (<[v_ledgerID val := (w, <[nodeID := val]> m)]> (byLedger_ v)) in
      match current_ v !! nodeID with
      | Some oldVal =>
          if v_signTime oldVal <? v_signTime val then
            let v' := setCurrent v (<[nodeID := val]> (current_ v)) in
            (Current,
             if v_trusted val
             then updateTrie env v' nodeID val (Some (v_seq oldVal, v_ledgerID oldVal)) else v')
          else (Stale, v)
      | None =>
          let v' := setCurrent v (<[nodeID := val]> (current_ v)) in
          (Current, if v_trusted val then updateTrie env v' nodeID val None else v')
      end.

Definition setSeqToKeep (v : Validations) (low high : Z) : Validations :=
  mkVals (current_ v) (localSeqEnforcer v) (seqEnforcers v) (byLedger_ v) (bySequence v)
    (Some (low, high)) (trie v) (lastLedger v) (acquiring v) (kRefreshTime v).

(** [touch] on the entries for which the test holds. *)
Definition touchWhere {A} (now : Z) (f : Z -> A -> bool) (m : gmap Z (Z * A)) : gmap Z (Z * A) :=
  map_imap (fun k e => Some (if f k e.2 then (now, e.2) else e)) m.

(** [beast::expire] *)
Definition expireAged {A} (now age : Z) (m : gmap Z (Z * A)) : gmap Z (Z * A) :=
  filter (fun e => now - age < e.2.1) m.

Definition inKeep (k : Z * Z) (s : Z) : bool := (k.1 <=? s) && (s <? k.2).

(** The sequence of [validationMap.begin()]. *)
Definition firstSeq (m : gmap Z Validation) : option Z :=
  match map_to_list m with (_, val) :: _ => Some (v_seq val) | [] => None end.

Definition expire (p : ValidationParms) (env : Env) (v : Validations) : Validations :=
  let now := steadyNow env in
  let age := seconds (validationSetExpires p) in
  let '(bl, bs, refresh) :=
    match toKeep v with
    | Some k =>
        if kRefreshTime v <=? now then
          (touchWhere now (fun _ m => if firstSeq m is Some s then inKeep k s else false) (byLedger_ v),
           touchWhere now (fun s _ => inKeep k s) (bySequence v),
           now + seconds (validationSetExpires p) - seconds (validationFRESHNESS p))
        else (byLedger_ v, bySequence v, kRefreshTime v)
    | None => (byLedger_ v, bySequence v, kRefreshTime v)
    end in
  mkVals (current_ v) (localSeqEnforcer v) (seqEnforcers v) (expireAged now age bl)
    (expireAged now age bs) (toKeep v) (trie v) (lastLedger v) (acquiring v) refresh.

(** One entry of [current_] in [trustChanged] *)
Definition trustOne (env : Env) (added removed : gset Z) (v : Validations) (e : Z * Validation)
    : Validations :=
  let '(nodeId, validation) := e in
  if bool_decide (nodeId ∈ added) then
    let validation := setTrust true validation in
    updateTrie env (setCurrent v (<[nodeId := validation]> (current_ v))) nodeId validation None
  else if bool_decide (nodeId ∈ removed) then
    let validation := setTrust false validation in
    removeTrie (setCurrent v (<[nodeId := validation]> (current_ v))) nodeId validation
  else v.

Definition trustFlag (added removed : gset Z) (nodeId : Z) (val : Validation) : Validation :=
  if bool_decide (nodeId ∈ added) then setTrust true val
  else if bool_decide (nodeId ∈ removed) then setTrust false val
  else val.

Definition trustChanged (env : Env) (v : Validations) (added removed : gset Z) : Validations :=
  let v := foldl (trustOne env added removed) v (map_to_list (current_ v)) in
  setByLedger v
    ((fun e : Z * gmap Z Validation => (e.1, map_imap (fun n val => Some (trustFlag added removed n val)) e.2)) <$> byLedger_ v).

(** [std::ranges::max_element]: the first largest element under a comparison. *)
Definition maxElement {A} (less : A -> A -> bool) (l : list A) : option A :=
  match l with
  | [] => None
  | x :: l' => Some (foldl (fun best y => if less best y then y else best) x l')
  end.

(** [std::tie] comparisons of two integers *)
Definition pairLess (a1 a2 b1 b2 : Z) : bool := (a1 <? b1) || ((a1 =? b1) && (a2 <? b2)).

Definition acquiringLess (a b : (Z * Z) * gset Z) : bool :=
  pairLess (Z.of_nat (size a.2)) a.1.2 (Z.of_nat (size b.2)) b.1.2.

(** The choice [getPreferred] makes between the current and the preferred ledger *)
Definition choosePreferred (curr : L) (preferred : SpanTip L) : Z * Z :=
  if (st_seq preferred =? lseq curr +32 1) && (tipAncestor preferred (lseq curr) =? lid curr)
  then (lseq curr, lid curr)
  else if lseq curr <? st_seq preferred then (st_seq preferred, st_id preferred)
  else if negb (ancestorAt curr (st_seq preferred) =? st_id preferred)
  then (st_seq preferred, st_id preferred)
  else (lseq curr, lid curr).

(** [getPreferred(curr)] *)
Definition preferredLedger (p : ValidationParms) (env : Env) (v : Validations) (curr : L)
    : option (Z * Z) * Validations :=
  let v := withTrie p env v in
  let '(preferred, t) := getPreferred (trie v) (largest (localSeqEnforcer v)) in
  let v := setTrie v t (lastLedger v) in
  match preferred with
  | None => (fst <$> maxElement acquiringLess (map_to_list (acquiring v)), v)
  | Some tip => (Some (choosePreferred curr tip), v)
  end.

(** [getPreferred(curr, minValidSeq)] *)
Definition preferredFrom (p : ValidationParms) (env : Env) (v : Validations) (curr : L)
    (minValidSeq : Z) : Z * Validations :=
  let '(preferred, v) := preferredLedger p env v curr in
  (match preferred with
   | Some (s, id) => if minValidSeq <=? s then id else lid curr
   | None => lid curr
   end, v).

Definition countLess (a b : Z * Z) : bool := pairLess a.2 a.1 b.2 b.1.

Definition getPreferredLCL (p : ValidationParms) (env : Env) (v : Validations) (lcl : L)
    (minSeq : Z) (peerCounts : gmap Z Z) : Z * Validations :=
  let '(preferred, v) := preferredLedger p env v lcl in
  (match preferred with
   | Some (s, id) => if minSeq <=? s then id else lid lcl
   | None =>
       match maxElement countLess (map_to_list peerCounts) with
       | Some (id, _) => id
       | None => lid lcl
       end
   end, v).

Definition getNodesAfter (p : ValidationParms) (env : Env) (v : Validations) (ledger : L)
    (ledgerID : Z) : Z * Validations :=
  if lid ledger =? ledgerID then
    let v := withTrie p env v in
    (branchSupport (trie v) ledger -32 tipSupport (trie v) ledger, v)
  else
    (Z.of_nat (length (filter
       (fun e => (0 <? lseq e.2) && (ancestorAt e.2 (lseq e.2 -32 1) =? ledgerID) = true)
       (map_to_list (lastLedger v)))), v).

Definition currentTrusted (p : ValidationParms) (env : Env) (v : Validations)
    : list Validation * Validations :=
  let '(v, out) := current p env v in
  (snd <$> filter (fun e => v_trusted e.2 && v_full e.2 = true) out, v).

Definition getCurrentNodeIDs (p : ValidationParms) (env : Env) (v : Validations)
    : gset Z * Validations :=
  let '(v, out) := current p env v in (list_to_set (fst <$> out), v).

Definition numTrustedForLedger (env : Env) (v : Validations) (ledgerID : Z) : Z * Validations :=
  let '(v, out) := byLedger env v ledgerID in
  (Z.of_nat (length (filter (fun e => v_trusted e.2 && v_full e.2 = true) out)), v).

Definition getTrustedForLedger (env : Env) (v : Validations) (ledgerID seq : Z)
    : list Validation * Validations :=
  let '(v, out) := byLedger env v ledgerID in
  (snd <$> filter (fun e => v_trusted e.2 && v_full e.2 && (v_seq e.2 =? seq) = true) out, v).

Definition fees (env : Env) (v : Validations) (ledgerID baseFee : Z) : list Z * Validations :=
  let '(v, out) := byLedger env v ledgerID in
  ((fun e => default baseFee (v_loadFee e.2)) <$>
     filter (fun e => v_trusted e.2 && v_full e.2 = true) out, v).

Definition flush (v : Validations) : Validations := setCurrent v ∅.

(** The callback of [laggards] *)
Definition laggardOne (p : ValidationParms) (env : Env) (seq : Z) (acc : Z * gset Z)
    (e : Z * Validation) : Z * gset Z :=
  let '(n, keys) := acc in
  if (netNow env <? v_seenTime e.2 + validationFRESHNESS p) && bool_decide (v_key e.2 ∈ keys)
  then ((if v_seq e.2 <? seq then n + 1 else n), keys ∖ {[v_key e.2]})
  else acc.

Definition laggards (p : ValidationParms) (env : Env) (v : Validations) (seq : Z)
    (trustedKeys : gset Z) : Z * gset Z * Validations :=
  let '(v, out) := current p env v in
  (foldl (laggardOne p env seq) (0, trustedKeys) out, v).

End Validations.

Arguments Validations L : clear implicits.
Arguments Env L : clear implicits.
