(* ===== verification/ValidationsFacts.v ===== *)
(** * Validations: invariant and properties

    The invariant of the class [Validations], kept by every member function: the trie
    supports exactly the last ledger of each node, and the two indexes hold
    validations under their own ledger and sequence.  Then the behaviour of [add],
    [isCurrent], the sequence enforcer and the choice of the preferred ledger. *)
From S2P Require Import Prelude Ledgers Trie TrieSpec TrieKnown Validations.

#[local] Set Warnings "-clear-no-such-hyp".

Section Invariant.
Context {L : Type} `{ops : LedgerOps L} (valid : L -> Prop) `{!KnownLedgers L valid}.
(** The nodes whose validations the server handles, fewer than 2^32. *)
Context (validators : gset Z) (few : Z.of_nat (size validators) < 2 ^ 32).
Abbreviation Validations := (Validations L).

(** What [acquire] returns is a ledger with the identifier asked for. *)
Definition env_ok (env : Env L) : Prop :=
  forall id l, acquire env id = Some l -> valid l /\ lid l = id.

Definition bagOf (m : gmap Z L) : list L := (map_to_list m).*2.

Definition indexed {A} (key : Validation -> Z) (m : gmap Z (A * gmap Z Validation)) : Prop :=
  forall k w vs n val, m !! k = Some (w, vs) -> vs !! n = Some val -> key val = k.

Record trie_tracks (v : Validations) : Prop := mkTracks {
  tracks_bag : stands valid (trie v) (bagOf (lastLedger v));
  tracks_last : dom (lastLedger v) ⊆ validators;
  tracks_acquiring : forall k s, acquiring v !! k = Some s -> s ⊆ validators /\ s <> ∅
}.

Record vals_ok (v : Validations) : Prop := mkValsOk {
  ok_tracks : trie_tracks v;
  ok_current : dom (current_ v) ⊆ validators;
  ok_byLedger : indexed v_ledgerID (byLedger_ v);
  ok_bySequence : indexed v_seq (bySequence v)
}.

(** ** The trie *)

Lemma bagOf_length m : length (bagOf m) = size m.
Proof. unfold bagOf. by rewrite length_fmap, length_map_to_list. Qed.

Lemma bagOf_insert m n l : m !! n = None -> bagOf (<[n := l]> m) ≡ₚ l :: bagOf m.
Proof. intros Hn. unfold bagOf. by rewrite map_to_list_insert. Qed.

Lemma bagOf_delete m n l : m !! n = Some l -> bagOf m ≡ₚ l :: bagOf (delete n m).
Proof. intros Hn. rewrite <-(insert_delete_id m n l Hn) at 1. apply bagOf_insert, lookup_delete_eq. Qed.

Lemma room (m : gmap Z L) n :
  dom m ⊆ validators -> n ∈ validators -> Z.of_nat (length (bagOf (delete n m))) + 1 < 2 ^ 32.
Proof.
  intros Hm Hn. rewrite bagOf_length, <-size_dom, dom_delete_L.
  assert (size (dom m ∖ {[n]}) + 1 <= size validators)%nat; [|lia].
  rewrite <-(size_singleton (C := gset Z) n), <-size_union by set_solver.
  apply subseteq_size. set_solver.
Qed.

Lemma updateTrieLedger_tracks v n l :
  trie_tracks v -> n ∈ validators -> valid l -> trie_tracks (updateTrieLedger v n l).
Proof.
  intros [Hb Hl Ha] Hn Hv. unfold updateTrieLedger.
  assert (Hdel : stands valid
    (match lastLedger v !! n with Some old => snd (remove (trie v) old 1) | None => trie v end)
    (bagOf (delete n (lastLedger v)))).
  { destruct (lastLedger v !! n) as [old|] eqn:E.
    - apply stands_remove_one. eapply stands_perm; [|exact Hb]. by apply bagOf_delete.
    - by rewrite delete_id. }
  constructor; cbn [setTrie trie lastLedger acquiring].
  - rewrite <-insert_delete_eq. eapply stands_perm; [symmetry; apply bagOf_insert, lookup_delete_eq|].
    apply (stands_insert valid _ _ l 1 Hdel Hv); [lia|]. by apply room.
  - rewrite dom_insert_L. set_solver.
  - done.
Qed.

Lemma dropAcquiring_ok a k n :
  (forall k s, a !! k = Some s -> s ⊆ validators /\ s <> ∅) ->
  forall k' s, dropAcquiring a k n !! k' = Some s -> s ⊆ validators /\ s <> ∅.
Proof.
  intros Ha k' s. unfold dropAcquiring. destruct (a !! k) as [s0|] eqn:E; [|apply Ha].
  destruct (decide (s0 ∖ {[n]} = ∅)) as [|Hne].
  - intros [_ Hs]%lookup_delete_Some. by eapply Ha.
  - intros [[<- <-]|[_ Hs]]%lookup_insert_Some; [|by eapply Ha].
    destruct (Ha _ _ E). split; [set_solver|done].
Qed.

Lemma setAcquiring_tracks v a :
  trie_tracks v -> (forall k s, a !! k = Some s -> s ⊆ validators /\ s <> ∅) ->
  trie_tracks (setAcquiring v a).
Proof. intros [Hb Hl _] Ha. by constructor. Qed.

Lemma removeTrie_tracks v n val : trie_tracks v -> trie_tracks (removeTrie v n val).
Proof.
  intros [Hb Hl Ha]. unfold removeTrie.
  set (v' := setAcquiring v _).
  assert (Hv' : trie_tracks v') by (apply setAcquiring_tracks; [done|by apply dropAcquiring_ok]).
  destruct (lastLedger v' !! n) as [l|] eqn:E; [|done]. destruct (_ =? _); [|done].
  destruct Hv' as [Hb' Hl' Ha']. constructor; cbn [setTrie trie lastLedger acquiring].
  - apply stands_remove_one. eapply stands_perm; [|exact Hb']. by apply bagOf_delete.
  - rewrite dom_delete_L. set_solver.
  - done.
Qed.

Lemma acquiredOne_tracks env v e :
  env_ok env -> e.2 ⊆ validators -> trie_tracks v -> trie_tracks (acquiredOne env v e).
Proof.
  intros Henv He Hv. unfold acquiredOne. destruct (acquire env e.1.2) as [l|] eqn:E; [|done].
  destruct (Henv _ _ E) as [Hl _].
  assert (Hf : trie_tracks (foldl (fun v nodeID => updateTrieLedger v nodeID l) v (elements e.2))).
  { apply foldl_ind_in; [|done]. intros a x Ha Hx. apply updateTrieLedger_tracks; [done| |done].
    apply elem_of_elements in Hx. set_solver. }
  apply setAcquiring_tracks; [done|]. intros k s [_ Hs]%lookup_delete_Some. by eapply tracks_acquiring.
Qed.

Lemma checkAcquired_tracks env v : env_ok env -> trie_tracks v -> trie_tracks (checkAcquired env v).
Proof.
  intros Henv Hv. unfold checkAcquired. apply foldl_ind_in; [|done]. intros a [k s] Ha Hin.
  apply elem_of_map_to_list in Hin. apply acquiredOne_tracks; [done| |done].
  by apply (tracks_acquiring v Hv k).
Qed.

Lemma updateTrie_tracks env v n val prior :
  env_ok env -> n ∈ validators -> trie_tracks v -> trie_tracks (updateTrie env v n val prior).
Proof.
  intros Henv Hn Hv. unfold updateTrie. set (v0 := match prior with Some _ => _ | None => _ end).
  assert (Hv0 : trie_tracks v0).
  { unfold v0. destruct prior; [|done]. apply setAcquiring_tracks; [done|].
    apply dropAcquiring_ok, (tracks_acquiring v Hv). }
  pose proof (checkAcquired_tracks env v0 Henv Hv0) as Hv1. set (v1 := checkAcquired env v0) in *.
  assert (Hset : forall s, s ⊆ validators -> s <> ∅ ->
    trie_tracks (setAcquiring v1 (<[(v_seq val, v_ledgerID val) := s]> (acquiring v1)))).
  { intros s Hs Hne. apply setAcquiring_tracks; [done|].
    intros k s' [[_ <-]|[_ Hk]]%lookup_insert_Some; [done|]. by eapply tracks_acquiring. }
  destruct (acquiring v1 !! _) as [s|] eqn:Ea.
  - apply Hset; [|set_solver]. destruct (tracks_acquiring v1 Hv1 _ _ Ea). set_solver.
  - destruct (acquire env (v_ledgerID val)) as [l|] eqn:El.
    + apply updateTrieLedger_tracks; [done|done|]. by eapply Henv.
    + apply Hset; set_solver.
Qed.

(** The other fields are not touched by the trie updates. *)
Definition sameRest (v v' : Validations) : Prop :=
  current_ v' = current_ v /\ byLedger_ v' = byLedger_ v /\ bySequence v' = bySequence v /\
  seqEnforcers v' = seqEnforcers v /\ localSeqEnforcer v' = localSeqEnforcer v.

#[local] Instance sameRest_pre : PreOrder sameRest.
Proof. split; unfold sameRest; [done|]. intros a b c (?&?&?&?&?) (?&?&?&?&?). repeat split; congruence. Qed.

Lemma foldl_sameRest {B} (f : Validations -> B -> Validations) l v :
  (forall v x, sameRest v (f v x)) -> sameRest v (foldl f v l).
Proof. intros Hf. apply foldl_ind_in; [|done]. intros a x Ha _. by etransitivity. Qed.

Lemma updateTrieLedger_rest v n l : sameRest v (updateTrieLedger v n l).
Proof. done. Qed.

Lemma acquiredOne_rest env v e : sameRest v (acquiredOne env v e).
Proof.
  unfold acquiredOne. destruct (acquire _ _); [|done].
  exact (foldl_sameRest _ _ v (fun v x => updateTrieLedger_rest v x l)).
Qed.

Lemma checkAcquired_rest env v : sameRest v (checkAcquired env v).
Proof. apply foldl_sameRest, acquiredOne_rest. Qed.

Lemma updateTrie_rest env v n val prior : sameRest v (updateTrie env v n val prior).
Proof.
  unfold updateTrie. set (v0 := match prior with Some _ => _ | None => _ end).
  assert (Hv0 : sameRest v v0) by (unfold v0; by destruct prior).
  etransitivity; [exact Hv0|]. etransitivity; [apply (checkAcquired_rest env)|].
  destruct (acquiring _ !! _); [done|]. by destruct (acquire _ _).
Qed.

Lemma removeTrie_rest v n val : sameRest v (removeTrie v n val).
Proof. unfold removeTrie. destruct (lastLedger _ !! n); [|done]. by destruct (_ =? _). Qed.

(** ** The whole state *)

(** Steps that only move the trie. *)
Lemma vals_ok_rest v v' : vals_ok v -> sameRest v v' -> trie_tracks v' -> vals_ok v'.
Proof.
  intros [_ Hc Hl Hs] (E1 & E2 & E3 & _) Ht.
  constructor; [done|by rewrite E1|by rewrite E2|by rewrite E3].
Qed.

Lemma tracks_same v v' :
  trie_tracks v -> trie v' = trie v -> lastLedger v' = lastLedger v -> acquiring v' = acquiring v ->
  trie_tracks v'.
Proof. intros [Hb Hl Ha] E1 E2 E3. constructor; by rewrite ?E1, ?E2, ?E3. Qed.

Lemma setCurrent_ok v c : vals_ok v -> dom c ⊆ validators -> vals_ok (setCurrent v c).
Proof. intros [Ht Hc Hl Hs] Hd. constructor; [by apply (tracks_same v)|done..]. Qed.

Lemma setByLedger_ok v bl : vals_ok v -> indexed v_ledgerID bl -> vals_ok (setByLedger v bl).
Proof. intros [Ht Hc Hl Hs] Hd. constructor; [by apply (tracks_same v)|done..]. Qed.

Lemma setSeqs_ok v enf bs : vals_ok v -> indexed v_seq bs -> vals_ok (setSeqs v enf bs).
Proof. intros [Ht Hc Hl Hs] Hd. constructor; [by apply (tracks_same v)|done..]. Qed.

(** Storing a validation under its own key keeps an index. *)
Lemma indexed_insert {A} (key : Validation -> Z) (m : gmap Z (A * gmap Z Validation)) k w0 w vs n val :
  indexed key m -> default (w0, ∅) (m !! k) = (w, vs) -> key val = k ->
  indexed key (<[k := (w, <[n := val]> vs)]> m).
Proof.
  intros Hm Hd Hk k' w' vs' n' val' [[<- [= <- <-]]|[_ Hk']]%lookup_insert_Some Hv; [|by eapply Hm].
  apply lookup_insert_Some in Hv as [[_ <-]|[_ Hv]]; [done|].
  destruct (m !! k) as [[w1 vs1]|] eqn:E; cbn in Hd; simplify_eq; by eapply Hm.
Qed.

Lemma removeTrie_ok v n val : vals_ok v -> vals_ok (removeTrie v n val).
Proof.
  intros Hv. apply (vals_ok_rest v); [done|apply removeTrie_rest|]. apply removeTrie_tracks, Hv.
Qed.

Lemma updateTrie_ok env v n val prior :
  env_ok env -> n ∈ validators -> vals_ok v -> vals_ok (updateTrie env v n val prior).
Proof.
  intros Henv Hn Hv. apply (vals_ok_rest v); [done|apply updateTrie_rest|].
  apply updateTrie_tracks; [done|done|apply Hv].
Qed.

Lemma checkAcquired_ok env v : env_ok env -> vals_ok v -> vals_ok (checkAcquired env v).
Proof.
  intros Henv Hv. apply (vals_ok_rest v); [done|apply checkAcquired_rest|].
  apply checkAcquired_tracks; [done|apply Hv].
Qed.

Lemma current_ok p env v : vals_ok v -> vals_ok (fst (current p env v)).
Proof.
  intros Hv. unfold current. apply (foldl_ind_in (fun a => vals_ok (fst a))); [|done].
  intros [a out] e Ha _. cbn in *. destruct (isCurrent _ _ _ _); [done|].
  apply setCurrent_ok; [by apply removeTrie_ok|].
  pose proof (removeTrie_ok a e.1 e.2 Ha) as [_ Hc _ _]. cbn. rewrite dom_delete_L. set_solver.
Qed.

Lemma withTrie_ok p env v : env_ok env -> vals_ok v -> vals_ok (withTrie p env v).
Proof. intros Henv Hv. apply checkAcquired_ok; [done|]. by apply current_ok. Qed.

Lemma byLedger_ok env v id : vals_ok v -> vals_ok (fst (byLedger env v id)).
Proof.
  intros Hv. unfold byLedger. destruct (byLedger_ v !! id) as [[w m]|] eqn:E; [|done].
  apply setByLedger_ok; [done|]. intros k w' vs n val [[<- [= <- <-]]|[_ Hk]]%lookup_insert_Some Hn.
  - by eapply (ok_byLedger v Hv).
  - by eapply (ok_byLedger v Hv).
Qed.

Lemma trackSequence_indexed p (env : Env L) v n val tracked bs :
  indexed v_seq (bySequence v) -> trackSequence p env v n val = (tracked, bs) ->
  indexed v_seq bs /\ v_seq tracked = v_seq val.
Proof.
  intros Hi. unfold trackSequence.
  destruct (default (steadyNow env, ∅) (bySequence v !! v_seq val)) as [w m] eqn:Ed.
  set (t := match m !! n with Some _ => _ | None => _ end). intros [= <- <-].
  assert (Ht : v_seq t = v_seq val).
  { unfold t. destruct (m !! n) as [old|] eqn:En; [|done]. destruct (_ && _); [done|].
    destruct (bySequence v !! v_seq val) as [[w1 m1]|] eqn:E; cbn in Ed; simplify_eq.
    by eapply Hi. }
  split; [|done]. by apply (indexed_insert _ _ _ (steadyNow env)).
Qed.

Lemma add_ok p env v n val :
  env_ok env -> n ∈ validators -> vals_ok v -> vals_ok (snd (add p env v n val)).
Proof.
  intros Henv Hn Hv. unfold add. destruct (isCurrent _ _ _ _); [cbn [negb]|done].
  destruct (trackSequence p env v n val) as [tracked bs] eqn:Et.
  destruct (trackSequence_indexed _ _ _ _ _ _ _ (ok_bySequence v Hv) Et) as [Hbs _].
  destruct (enforce _ _ _ _) as [ok enf].
  set (v1 := setSeqs v _ _). assert (Hv1 : vals_ok v1) by by apply setSeqs_ok.
  destruct ok; cbn [negb]; [|done].
  destruct (default (steadyNow env, ∅) (byLedger_ v1 !! v_ledgerID val)) as [w m] eqn:Ed.
  set (v2 := setByLedger v1 _).
  assert (Hv2 : vals_ok v2).
  { apply setByLedger_ok; [done|]. apply (indexed_insert _ _ _ (steadyNow env)); [apply Hv1|done|done]. }
  assert (Hv3 : vals_ok (setCurrent v2 (<[n := val]> (current_ v2)))).
  { apply setCurrent_ok; [done|]. rewrite dom_insert_L. pose proof (ok_current v2 Hv2). set_solver. }
  destruct (current_ v2 !! n) as [old|].
  - destruct (_ <? _); [|done]. cbn [snd]. destruct (v_trusted val); [by apply updateTrie_ok|done].
  - cbn [snd]. destruct (v_trusted val); [by apply updateTrie_ok|done].
Qed.

Lemma expireAged_indexed (key : Validation -> Z) now age (m : gmap Z (Z * gmap Z Validation)) :
  indexed key m -> indexed key (expireAged now age m).
Proof. intros Hm k w vs n val [Hk _]%map_lookup_filter_Some. by eapply Hm. Qed.

Lemma touchWhere_indexed (key : Validation -> Z) now f (m : gmap Z (Z * gmap Z Validation)) :
  indexed key m -> indexed key (touchWhere now f m).
Proof.
  intros Hm k w vs n val Hk Hv. unfold touchWhere in Hk. rewrite map_lookup_imap in Hk.
  destruct (m !! k) as [[w0 vs0]|] eqn:E; [|done]. cbn in Hk. destruct (f k vs0); simplify_eq; by eapply Hm.
Qed.

Lemma expire_ok p env v : vals_ok v -> vals_ok (expire p env v).
Proof.
  intros [Ht Hc Hl Hs]. unfold expire.
  set (r := match toKeep v with Some _ => _ | None => _ end).
  assert (Hr : indexed v_ledgerID r.1.1 /\ indexed v_seq r.1.2).
  { unfold r. destruct (toKeep v); [|done]. destruct (_ <=? _); [|done].
    split; by apply touchWhere_indexed. }
  destruct r as [[bl bs] rf]. destruct Hr as [Hr1 Hr2]. cbn [fst snd] in *.
  constructor; [by apply (tracks_same v)|done|by apply expireAged_indexed..].
Qed.

Lemma trustChanged_ok env v added removed :
  env_ok env -> vals_ok v -> vals_ok (trustChanged env v added removed).
Proof.
  intros Henv Hv. unfold trustChanged. set (v' := foldl _ v _).
  assert (Hv' : vals_ok v').
  { apply foldl_ind_in; [|done]. intros a [n val] Ha Hin. apply elem_of_map_to_list in Hin.
    assert (Hn : n ∈ validators) by (apply (ok_current v Hv); by eapply elem_of_dom_2).
    assert (Hset : forall x, vals_ok (setCurrent a (<[n := x]> (current_ a)))).
    { intros x. apply setCurrent_ok; [done|]. rewrite dom_insert_L. pose proof (ok_current a Ha). set_solver. }
    unfold trustOne. destruct (bool_decide _); [by apply updateTrie_ok|].
    destruct (bool_decide _); [by apply removeTrie_ok|done]. }
  apply setByLedger_ok; [done|]. intros k w vs n val Hk Hn.
  rewrite lookup_fmap in Hk. destruct (byLedger_ v' !! k) as [[w0 vs0]|] eqn:E; [|done].
  cbn in Hk. simplify_eq. rewrite map_lookup_imap in Hn. destruct (vs0 !! n) as [x|] eqn:Ex; [|done].
  cbn in Hn. simplify_eq. pose proof (ok_byLedger v' Hv' _ _ _ _ _ E Ex).
  unfold trustFlag. by repeat destruct (bool_decide _).
Qed.

Lemma preferredLedger_ok p env v curr :
  env_ok env -> vals_ok v -> vals_ok (snd (preferredLedger p env v curr)).
Proof.
  intros Henv Hv. unfold preferredLedger. pose proof (withTrie_ok p env v Henv Hv) as Hw.
  set (v1 := withTrie p env v) in *. destruct (ok_tracks v1 Hw) as [Hb Hl Ha].
  destruct (getPreferred (trie v1) _) as [pref t] eqn:Eg.
  assert (Hrep : stands valid t (bagOf (lastLedger v1))).
  { destruct (empty (trie v1)) eqn:He.
    - unfold getPreferred in Eg. rewrite He in Eg. by injection Eg as _ <-.
    - destruct (stands_preferred valid (trie v1) _ (largest (localSeqEnforcer v1)) Hb He)
        as (tip & r & Eg' & Hre & _). rewrite Eg in Eg'. by injection Eg' as _ ->. }
  assert (Hv2 : vals_ok (setTrie v1 t (lastLedger v1))).
  { apply (vals_ok_rest v1); [done|done|]. by constructor. }
  by destruct pref.
Qed.

(** ** Runs *)

Context (p : ValidationParms).

(** One call of a member function. *)
Inductive vstep : Validations -> Validations -> Prop :=
| step_add env v n val : env_ok env -> n ∈ validators -> vstep v (snd (add p env v n val))
| step_canValidateSeq env v s : vstep v (snd (canValidateSeq p env v s))
| step_setSeqToKeep v low high : low < high -> vstep v (setSeqToKeep v low high)
| step_expire env v : vstep v (expire p env v)
| step_trustChanged env v added removed : env_ok env -> vstep v (trustChanged env v added removed)
| step_getPreferred env v curr : env_ok env -> vstep v (snd (preferredLedger p env v curr))
| step_getPreferredFrom env v curr m : env_ok env -> vstep v (snd (preferredFrom p env v curr m))
| step_getPreferredLCL env v lcl m peers :
    env_ok env -> vstep v (snd (getPreferredLCL p env v lcl m peers))
| step_getNodesAfter env v l id : env_ok env -> vstep v (snd (getNodesAfter p env v l id))
| step_currentTrusted env v : vstep v (snd (currentTrusted p env v))
| step_getCurrentNodeIDs env v : vstep v (snd (getCurrentNodeIDs p env v))
| step_numTrustedForLedger env v id : vstep v (snd (numTrustedForLedger env v id))
| step_getTrustedForLedger env v id s : vstep v (snd (getTrustedForLedger env v id s))
| step_fees env v id fee : vstep v (snd (fees env v id fee))
| step_flush v : vstep v (flush v)
| step_laggards env v s keys : vstep v (snd (laggards p env v s keys)).

Lemma vstep_ok v v' : vals_ok v -> vstep v v' -> vals_ok v'.
Proof.
  intros Hv Hs. destruct Hs.
  - by apply add_ok.
  - unfold canValidateSeq. destruct (enforce _ _ _ _). cbn. destruct Hv as [Ht Hc Hl Hs].
    constructor; [by apply (tracks_same v)|done..].
  - destruct Hv as [Ht Hc Hl Hs]. constructor; [by apply (tracks_same v)|done..].
  - by apply expire_ok.
  - by apply trustChanged_ok.
  - by apply preferredLedger_ok.
  - pose proof (preferredLedger_ok p env v curr H Hv). unfold preferredFrom.
    by destruct (preferredLedger _ _ _ _).
  - pose proof (preferredLedger_ok p env v lcl H Hv). unfold getPreferredLCL.
    by destruct (preferredLedger _ _ _ _).
  - unfold getNodesAfter. destruct (_ =? _); [by apply withTrie_ok|done].
  - pose proof (current_ok p env v Hv). unfold currentTrusted. by destruct (current _ _ _).
  - pose proof (current_ok p env v Hv). unfold getCurrentNodeIDs. by destruct (current _ _ _).
  - pose proof (byLedger_ok env v id Hv). unfold numTrustedForLedger. by destruct (byLedger _ _ _).
  - pose proof (byLedger_ok env v id Hv). unfold getTrustedForLedger. by destruct (byLedger _ _ _).
  - pose proof (byLedger_ok env v id Hv). unfold fees. by destruct (byLedger _ _ _).
  - apply setCurrent_ok; [done|]. rewrite dom_empty_L. set_solver.
  - pose proof (current_ok p env v Hv). unfold laggards. by destruct (current _ _ _).
Qed.

Lemma newValidations_ok : vals_ok newValidations.
Proof.
  constructor; try done. constructor; try done.
  cbn. unfold bagOf. rewrite map_to_list_empty. by apply stands_empty.
Qed.

Lemma vrun_ok v : rtc vstep newValidations v -> vals_ok v.
Proof.
  apply (rtc_ind_r (fun v => vals_ok v)); [apply newValidations_ok|].
  intros a b _ Hab Ha. by eapply vstep_ok.
Qed.


(** ** The preferred ledger *)

Lemma maxElement_spec {A} (less : A -> A -> bool) (rank : A -> Z) l :
  (forall a b, less a b = false -> rank b <= rank a) ->
  (forall a b, less a b = true -> rank a <= rank b) ->
  match maxElement less l with
  | None => l = []
  | Some x => x ∈ l /\ Forall (fun y => rank y <= rank x) l
  end.
Proof.
  intros Hge Hle. destruct l as [|x l]; [done|]. cbn.
  cut (forall pre b, b ∈ pre -> Forall (fun y => rank y <= rank b) pre ->
    let r := foldl (fun best y => if less best y then y else best) b l in
    r ∈ pre ++ l /\ Forall (fun y => rank y <= rank r) (pre ++ l)).
  { intros Hcut. apply (Hcut [x] x); [by apply list_elem_of_singleton|]. by repeat constructor. }
  induction l as [|y l IH]; intros pre b Hb Hf; cbn; [by rewrite app_nil_r|].
  specialize (IH (pre ++ [y])). rewrite <-app_assoc in IH. apply IH.
  - destruct (less b y); set_solver.
  - apply Forall_app. destruct (less b y) eqn:E.
    + split; [|by repeat constructor]. eapply Forall_impl; [exact Hf|].
      intros z Hz. specialize (Hle _ _ E). cbn in Hz. lia.
    + split; [done|]. constructor; [by apply Hge|constructor].
Qed.

(** The choice between the current ledger and the preferred tip. *)
Lemma choosePreferred_spec t tip curr :
  onTrie valid t tip -> valid curr ->
  let '(s, id) := choosePreferred curr tip in
  (s, id) = (lseq curr, lid curr) \/
  ((s, id) = (st_seq tip, st_id tip) /\
   ~ (s <= lseq curr /\ ancestorAt curr s = id) /\
   (forall a, valid a -> lid a = id -> lseq a = lseq curr + 1 -> ancestorAt a (lseq curr) <> lid curr)).
Proof.
  intros Htip Hc. pose proof (known_range valid curr Hc) as Hr.
  assert (Hchild : forall a, valid a -> lid a = st_id tip -> lseq a = lseq curr + 1 ->
    lseq a = st_seq tip /\
    (ancestorAt a (lseq curr) = lid curr -> tipAncestor tip (lseq curr) = lid curr)).
  { intros a Ha Hid Hsa. assert (Hz : lid a <> 0) by (intros Ez%(genesis_only valid); [lia|done]).
    destruct (on_support _ _ _ Htip a Ha Hid Hz) as [Hs _]. split; [done|].
    pose proof (on_seq _ _ _ Htip). pose proof (on_valid _ _ _ Htip). unfold tipAncestor.
    rewrite !(known_ancestor valid curr) by (done || lia).
    by rewrite (onTrie_history valid t tip a) by (done || lia). }
  unfold choosePreferred. rewrite u32_id by lia.
  destruct (_ && _) eqn:E1; [by left|].
  destruct (Z.ltb_spec (lseq curr) (st_seq tip)) as [Hlt|Hge].
  - right. split; [done|]. split; [lia|]. intros a Ha Hid Hsa E.
    destruct (Hchild a Ha Hid Hsa) as [Hs Hanc]. specialize (Hanc E).
    apply andb_false_iff in E1 as [E1|E1]; breflect; [lia|done].
  - destruct (Z.eqb_spec (ancestorAt curr (st_seq tip)) (st_id tip)) as [E|E]; cbn; [by left|].
    right. split; [done|]. split; [tauto|]. intros a Ha Hid Hsa.
    destruct (Hchild a Ha Hid Hsa) as [Hs _]. lia.
Qed.

(** The choice among the ledgers being acquired. *)
Lemma acquiring_choice (m : gmap (Z * Z) (gset Z)) :
  match fst <$> maxElement acquiringLess (map_to_list m) with
  | None => m = ∅
  | Some k => exists nodes, m !! k = Some nodes /\
      forall k' nodes', m !! k' = Some nodes' -> (size nodes' <= size nodes)%nat
  end.
Proof.
  assert (Hless : forall a b : (Z * Z) * gset Z,
    (acquiringLess a b = false -> Z.of_nat (size b.2) <= Z.of_nat (size a.2)) /\
    (acquiringLess a b = true -> Z.of_nat (size a.2) <= Z.of_nat (size b.2))).
  { intros a b. unfold acquiringLess, pairLess. rewrite orb_true_iff, orb_false_iff, andb_true_iff.
    split; [intros [E%Z.ltb_ge _]|intros [E%Z.ltb_lt|[E%Z.eqb_eq _]]]; lia. }
  pose proof (maxElement_spec acquiringLess (fun e => Z.of_nat (size e.2)) (map_to_list m)
    (fun a b => proj1 (Hless a b)) (fun a b => proj2 (Hless a b))) as Hmax.
  destruct (maxElement _ _) as [[k nodes]|]; cbn.
  - destruct Hmax as [Hin Hall]. exists nodes. split; [by apply elem_of_map_to_list|].
    intros k' nodes' Hk'. rewrite Forall_forall in Hall. specialize (Hall (k', nodes')). cbn in Hall.
    rewrite elem_of_map_to_list in Hall. specialize (Hall Hk'). lia.
  - by apply map_to_list_empty_iff.
Qed.

(** The preferred ledger.  With trusted support in the trie, the answer is the
    current ledger or a ledger with support that is neither an ancestor of the
    current ledger (nor the ledger itself) nor its immediate child.  Without, it is
    a ledger being acquired that the largest number of nodes asked for, and none
    when nothing is being acquired. *)
Theorem preferredLedger_choice env v curr r v' :
  env_ok env -> rtc vstep newValidations v -> valid curr ->
  preferredLedger p env v curr = (r, v') ->
  (empty (trie v') = false ->
     exists s id, r = Some (s, id) /\
     ((s, id) = (lseq curr, lid curr) \/
      ((forall a, valid a -> lid a = id -> lid a <> 0 -> lseq a = s /\ 0 < branchSupport (trie v') a) /\
       ~ (s <= lseq curr /\ ancestorAt curr s = id) /\
       (forall a, valid a -> lid a = id -> lseq a = lseq curr + 1 -> ancestorAt a (lseq curr) <> lid curr)))) /\
  (empty (trie v') = true ->
     match r with
     | None => acquiring v' = ∅
     | Some k => exists nodes, acquiring v' !! k = Some nodes /\
         forall k' nodes', acquiring v' !! k' = Some nodes' -> (size nodes' <= size nodes)%nat
     end).
Proof.
  intros Henv Hv%vrun_ok Hc. unfold preferredLedger. pose proof (withTrie_ok p env v Henv Hv) as Hw.
  set (v1 := withTrie p env v) in *. destruct (ok_tracks v1 Hw) as [Hb _ _].
  destruct (empty (trie v1)) eqn:He.
  - unfold getPreferred. rewrite He. intros [= <- <-]. cbn [setTrie trie acquiring]. rewrite He.
    split; [done|]. intros _. apply acquiring_choice.
  - destruct (stands_preferred valid (trie v1) _ (largest (localSeqEnforcer v1)) Hb He)
      as (tip & r0 & -> & _ & Htip & He' & Hbr).
    intros [= <- <-]. cbn [setTrie trie]. split; [intros _|by rewrite He'].
    pose proof (choosePreferred_spec (trie v1) tip curr Htip Hc) as Hch.
    destruct (choosePreferred curr tip) as [s id]. exists s, id. split; [done|].
    destruct Hch as [Hch|([= -> ->] & H1 & H2)]; [by left|right]. split; [|done].
    intros a Ha Hid Hz. rewrite Hbr by done. by apply (on_support _ _ _ Htip).
Qed.

End Invariant.
