(* ===== verification/ValidationsSpec.v ===== *)
(** * Validations: timing, sequences and outcomes

    What counts as a current validation, the increasing-sequence rule, the outcomes
    of [add], and two ways in which the class falls short of its documentation.  The
    witnesses run the class on the server's ledger type. *)
From S2P Require Import Prelude Ledgers Trie TrieFacts TrieSpec TrieKnown.
From S2P Require Import Validations ValidationsFacts.

(** ** isCurrent *)

(** A validation seen no later than now is current exactly when it was signed
    less than [validationCurrentEarly] ago and less than [validationCurrentWall]
    ahead of now: the time since it was first seen plays no role. *)
Theorem isCurrent_past_seen p now signTime seenTime :
  0 < validationCurrentLocal p -> seenTime <= now ->
  isCurrent p now signTime seenTime = true <->
  now - validationCurrentEarly p < signTime < now + validationCurrentWall p.
Proof.
  intros Hl Hs. unfold isCurrent. rewrite !andb_true_iff, orb_true_iff, !Z.ltb_lt, Z.eqb_eq. lia.
Qed.

(** A validation signed and seen four minutes ago is no longer current, and one
    signed four minutes ahead is. *)
Lemma isCurrent_past_seen_witness :
  isCurrent defaultVParms 1000 (1000 - 240) 760 = false /\
  isCurrent defaultVParms 1000 (1000 + 240) 760 = true.
Proof.
  pose proof (isCurrent_past_seen defaultVParms 1000 760 760 ltac:(cbn; lia) ltac:(lia)) as H1.
  split.
  - destruct (isCurrent defaultVParms 1000 (1000 - 240) 760) eqn:E; [|reflexivity].
    destruct H1 as [H1 _]. specialize (H1 E). cbn in H1. lia.
  - apply (isCurrent_past_seen defaultVParms 1000 1240 760); cbn; lia.
Defined.

(** ** SeqEnforcer *)

(** The accepted calls of an enforcer among calls [(time, sequence)]. *)
Fixpoint accepted (p : ValidationParms) (e : SeqEnforcer) (calls : list (Z * Z)) : list (Z * Z) :=
  match calls with
  | [] => []
  | (now, s) :: calls' =>
      let '(ok, e') := enforce e now s p in
      if ok then (now, s) :: accepted p e' calls' else accepted p e' calls'
  end.

(** Everything accepted before the enforcer's last acceptance expires is larger. *)
Lemma accepted_larger p calls : forall e,
  0 <= seconds (validationSetExpires p) ->
  StronglySorted keyLe calls -> Forall (fun c => enf_when e <= c.1) calls ->
  Forall (fun c => c.1 <= enf_when e + seconds (validationSetExpires p) -> enf_seq e < c.2)
    (accepted p e calls).
Proof.
  induction calls as [|[t s] calls IH]; intros e Hx Hsort Hw; [constructor|].
  apply StronglySorted_inv in Hsort as [Hsort Hle]. apply Forall_cons in Hw as [Ht Hw]. cbn in Ht.
  assert (Hin : forall e' c, c ∈ accepted p e' calls -> t <= c.1).
  { clear -Hle. intros e' c Hc. rewrite Forall_forall in Hle. apply (Hle c).
    revert e' Hc. clear. induction calls as [|[t' s'] calls IH]; intros e' Hc; [done|]. cbn in Hc.
    destruct (enforce e' t' s' p) as [[] e1]; [|right; by eapply IH].
    apply elem_of_cons in Hc as [->|Hc]; [left|right; by eapply IH]. }
  cbn [accepted]. unfold enforce.
  destruct (Z.ltb_spec (enf_when e + seconds (validationSetExpires p)) t) as [Hexp|Hexp].
  - (* expired: later calls are past the window *)
    destruct (s <=? 0); [|constructor; [cbn; lia|]];
      (apply Forall_forall; intros c Hc Hc1; specialize (Hin _ _ Hc); lia).
  - destruct (Z.leb_spec s (enf_seq e)) as [Hs|Hs].
    + destruct e as [sq w]. cbn in *. by apply (IH (mkEnforcer sq w)).
    + constructor; [cbn; lia|].
      assert (Hw' : Forall (fun c => t <= c.1) calls) by exact Hle.
      specialize (IH (mkEnforcer s t) Hx Hsort Hw'). cbn in IH.
      eapply Forall_impl; [exact IH|]. intros c Hc Hc1. cbn in *. lia.
Qed.

(** Among the sequences an enforcer accepts at non-decreasing times, a later one
    within [validationSetExpires] of an earlier one is strictly larger. *)
Theorem enforcer_increasing p calls i j a b :
  0 <= seconds (validationSetExpires p) ->
  StronglySorted keyLe calls -> Forall (fun c => 0 <= c.1) calls ->
  accepted p newEnforcer calls !! i = Some a -> accepted p newEnforcer calls !! j = Some b ->
  (i < j)%nat -> b.1 - a.1 <= seconds (validationSetExpires p) -> a.2 < b.2.
Proof.
  intros Hx Hsort Hpos. assert (Hw : Forall (fun c => enf_when newEnforcer <= c.1) calls) by done.
  clear Hpos. revert i j Hsort Hw. generalize newEnforcer.
  induction calls as [|[t s] calls IH]; intros e i j Hsort Hw Ha Hb Hij Hd; [done|].
  apply StronglySorted_inv in Hsort as [Hsort Hle]. apply Forall_cons in Hw as [Ht Hw]. cbn in Ht.
  cbn [accepted] in Ha, Hb. destruct (enforce e t s p) as [ok e'] eqn:E.
  assert (He' : Forall (fun c => enf_when e' <= c.1) calls).
  { unfold enforce in E. destruct (s <=? _); injection E as _ <-; cbn; [done|exact Hle]. }
  destruct ok; [|by eapply (IH e')].
  destruct i as [|i], j as [|j]; try lia; cbn in Ha, Hb.
  - injection Ha as <-. cbn in Hd |- *.
    assert (e' = mkEnforcer s t) as ->.
    { unfold enforce in E. destruct (s <=? _); [done|]. by injection E as <-. }
    pose proof (accepted_larger p calls _ Hx Hsort He') as Hl. rewrite Forall_forall in Hl.
    apply (Hl b); [by eapply list_elem_of_lookup_2|]. cbn. lia.
  - eapply (IH e'); try done. lia.
Qed.

Lemma enforcer_increasing_witness :
  accepted defaultVParms newEnforcer [(0, 5); (10, 5); (20, 4); (30, 7)] = [(0, 5); (30, 7)] /\ 5 < 7.
Proof.
  split; [reflexivity|].
  apply (enforcer_increasing defaultVParms [(0, 5); (10, 5); (20, 4); (30, 7)] 0 1 (0, 5) (30, 7)).
  - unfold seconds. cbn. lia.
  - repeat constructor; unfold keyLe; cbn; lia.
  - repeat constructor; cbn; lia.
  - reflexivity.
  - reflexivity.
  - lia.
  - unfold seconds. cbn. lia.
Defined.

(** ** add *)

Section Add.
Context {L : Type} `{LedgerOps L}.

(** Whether the enforcer of a node lets a sequence pass. *)
Definition seqAllowed (p : ValidationParms) (env : Env L) (v : Validations L) (n s : Z) : bool :=
  fst (enforce (default newEnforcer (seqEnforcers v !! n)) (steadyNow env) s p).

Definition newest (v : Validations L) (n : Z) (val : Validation) : bool :=
  match current_ v !! n with Some old => v_signTime old <? v_signTime val | None => true end.

Lemma byzantine_not_current tracked val : byzantine tracked val <> Current.
Proof. unfold byzantine. by repeat destruct (_ =? _). Qed.

(** C39: Outcomes of [add].  [Current] is returned exactly when the validation is
    current, its sequence passes the node's enforcer and it was signed after the
    node's current validation; it is then the node's current validation, filed under
    its ledger, and the node's largest sequence is its sequence.  With any other
    outcome the current validations, the trie, the last ledgers and the pending
    acquisitions are as before. *)
Theorem add_outcome p env v n val :
  let '(st, v') := add p env v n val in
  (st = Current <->
     isCurrent p (netNow env) (v_signTime val) (v_seenTime val) = true /\
     seqAllowed p env v n (v_seq val) = true /\ newest v n val = true) /\
  (st = Current ->
     current_ v' = <[n := val]> (current_ v) /\
     (exists w m, byLedger_ v' !! v_ledgerID val = Some (w, m) /\ m !! n = Some val) /\
     (exists e, seqEnforcers v' !! n = Some e /\ largest e = v_seq val)) /\
  (st <> Current ->
     current_ v' = current_ v /\ trie v' = trie v /\ lastLedger v' = lastLedger v /\
     acquiring v' = acquiring v).
Proof.
  unfold add, seqAllowed, newest. destruct (isCurrent _ _ _ _); cbn [negb]; [|by intuition].
  destruct (trackSequence p env v n val) as [tracked bs].
  destruct (enforce _ _ _ _) as [ok enf] eqn:Ee. cbn [fst]. destruct ok; cbn [negb].
  2: { pose proof (byzantine_not_current tracked val). by intuition. }
  assert (Henf : largest enf = v_seq val).
  { unfold enforce in Ee. destruct (_ <=? _); [done|]. by injection Ee as <-. }
  cbn [setSeqs byLedger_]. destruct (default (steadyNow env, ∅) (byLedger_ v !! v_ledgerID val)) as [w m].
  set (v2 := setByLedger _ _).
  assert (Hdone : forall v3, sameRest (setCurrent v2 (<[n := val]> (current_ v2))) v3 ->
    current_ v3 = <[n := val]> (current_ v) /\
    (exists w m, byLedger_ v3 !! v_ledgerID val = Some (w, m) /\ m !! n = Some val) /\
    (exists e, seqEnforcers v3 !! n = Some e /\ largest e = v_seq val)).
  { intros v3 (E1 & E2 & _ & E4 & _). rewrite E1, E2, E4. cbn. split; [done|]. split.
    - exists w, (<[n := val]> m). by rewrite !lookup_insert_eq.
    - exists enf. by rewrite lookup_insert_eq. }
  change (current_ v2) with (current_ v) at 1. destruct (current_ v !! n) as [old|].
  - destruct (_ <? _); [|by intuition]. split; [done|]. split; [intros _|done]. apply Hdone.
    destruct (v_trusted val); [apply updateTrie_rest|done].
  - split; [done|]. split; [intros _|done]. apply Hdone.
    destruct (v_trusted val); [apply updateTrie_rest|done].
Qed.

(** An accepted validation is tracked under its sequence, and is the node's largest. *)
Lemma add_tracks p env v n val v1 :
  add p env v n val = (Current, v1) ->
  (forall w m, bySequence v !! v_seq val = Some (w, m) -> m !! n = None) ->
  exists w m, bySequence v1 !! v_seq val = Some (w, m) /\ m !! n = Some val /\
    seqEnforcers v1 !! n = Some (mkEnforcer (v_seq val) (steadyNow env)).
Proof.
  intros Hadd Hnew. revert Hadd. unfold add, trackSequence. destruct (isCurrent _ _ _ _); [cbn [negb]|done].
  destruct (default (steadyNow env, ∅) (bySequence v !! v_seq val)) as [w m] eqn:Ed.
  assert (m !! n = None) as ->.
  { destruct (bySequence v !! v_seq val) as [[w1 m1]|]; cbn in Ed; simplify_eq; [by eapply Hnew|done]. }
  destruct (enforce _ _ _ _) as [[] enf] eqn:Ee; cbn [negb];
    [|intros Hb%(f_equal fst); by destruct (byzantine_not_current _ _ Hb)].
  assert (enf = mkEnforcer (v_seq val) (steadyNow env)) as ->.
  { unfold enforce in Ee. destruct (_ <=? _); [done|]. by injection Ee as <-. }
  destruct (default _ (byLedger_ _ !! _)) as [w' m']. set (v2 := setByLedger _ _).
  intros Hfin. exists w, (<[n := val]> m).
  assert (Hrest : sameRest (setCurrent v2 (<[n := val]> (current_ v2))) v1).
  { destruct (current_ v2 !! n); [destruct (_ <? _); [|done]|]; injection Hfin as <-;
      (destruct (v_trusted val); [apply updateTrie_rest|done]). }
  destruct Hrest as (_ & _ & -> & -> & _). cbn. by rewrite !lookup_insert_eq.
Qed.


End Add.

(** ** The server's ledgers *)

Section Sample.
Import Ledgers.Sample.

(** A source of ledgers: those of a list. *)
Definition acquireFrom (known : list RCLValidatedLedger) (id : Z) : option RCLValidatedLedger :=
  List.find (fun l => ledgerID l =? id) known.

Definition sampleEnv (net steady : Z) (known : list RCLValidatedLedger) : Env RCLValidatedLedger :=
  mkEnv net (seconds steady) (acquireFrom known).

Lemma sampleEnv_ok net steady known :
  Forall chain known -> env_ok chain (sampleEnv net steady known).
Proof.
  intros Hk id l Hf. cbn in Hf. apply List.find_some in Hf as [Hin Hid]. breflect.
  split; [|done]. rewrite Forall_forall in Hk. apply Hk. by apply list_elem_of_In.
Qed.

Definition sampleVal (id s sign : Z) (trusted : bool) : Validation :=
  mkValidation id s sign 0 7 trusted true None 99.

Definition sampleNodes : gset Z := {[1; 2; 3]}.

(** Node 1 validates 11 and then 21, which can be acquired; node 2 validates 22. *)
Definition state1 := snd (add defaultVParms (sampleEnv 1000 1000 [L11]) newValidations 1 (sampleVal 11 1 1000 true)).
Definition state2 := snd (add defaultVParms (sampleEnv 1001 1001 [L11; L21]) state1 1 (sampleVal 21 2 1001 true)).
Definition state3 := snd (add defaultVParms (sampleEnv 1002 1002 [L22]) state2 2 (sampleVal 22 2 1002 true)).

Lemma sample_run : rtc (vstep chain sampleNodes defaultVParms) newValidations state3.
Proof.
  assert (Henv : forall net steady known, Forall chain known -> env_ok chain (sampleEnv net steady known))
    by apply sampleEnv_ok.
  eapply rtc_l; [apply (step_add _ _ _ (sampleEnv 1000 1000 [L11]) newValidations 1 (sampleVal 11 1 1000 true))|].
  { apply Henv. constructor; [apply L11_chain|constructor]. }
  { set_solver. }
  eapply rtc_l; [apply (step_add _ _ _ (sampleEnv 1001 1001 [L11; L21]) state1 1 (sampleVal 21 2 1001 true))|].
  { apply Henv. constructor; [apply L11_chain|]. constructor; [apply L21_chain|constructor]. }
  { set_solver. }
  eapply rtc_l; [apply (step_add _ _ _ (sampleEnv 1002 1002 [L22]) state2 2 (sampleVal 22 2 1002 true))|].
  { apply Henv. constructor; [apply L22_chain|constructor]. }
  { set_solver. }
  apply rtc_refl.
Qed.


Lemma preferredLedger_choice_witness :
  exists s id, fst (preferredLedger defaultVParms (sampleEnv 1003 1003 []) state3 L11) = Some (s, id).
Proof.
  destruct (preferredLedger_choice chain sampleNodes ltac:(vm_compute; reflexivity) defaultVParms
    (sampleEnv 1003 1003 []) state3 L11 _ _ (sampleEnv_ok _ _ _ ltac:(constructor)) sample_run L11_chain
    (surjective_pairing _)) as [H1 _].
  destruct H1 as (s & id & H1 & _); [vm_compute; reflexivity|]. exists s, id. exact H1.
Defined.


(** ** Support that outlives its validation *)

(** Node 1 validates 11, then 21 which cannot be acquired, and is then dropped from
    the trusted nodes; its validation then becomes stale. *)
Definition state2' := snd (add defaultVParms (sampleEnv 1001 1001 []) state1 1 (sampleVal 21 2 1001 true)).
Definition untrusted := trustChanged (sampleEnv 1002 1002 []) state2' ∅ {[1]}.
Definition stale := fst (current defaultVParms (sampleEnv 9000 9000 []) untrusted).

(** Removing a node from the trusted ones does not always take its support out of
    the trie: after the validation of a ledger that could not be acquired, the
    support of the earlier ledger stays, when the node loses its trust and also when
    no current validation of any node is left, and the trie prefers that ledger. *)
Theorem untrusted_support_stays :
  tipSupport (trie untrusted) L11 = 1 /\
  current_ stale = ∅ /\ acquiring stale = ∅ /\
  tipSupport (trie stale) L11 = 1 /\
  fst (getPreferred (trie stale) 0) = Some (mkSpanTip 1 11 L11).
Proof. vm_compute. repeat split. Qed.

(** ** The range to keep *)

(** A validation for sequence 1 is stored; a refresh for another range takes place;
    the range is then set to contain sequence 1. *)
Definition refreshed := expire defaultVParms (sampleEnv 1100 1100 []) (setSeqToKeep state1 100 200).
Definition kept := setSeqToKeep refreshed 1 257.
Definition swept := expire defaultVParms (sampleEnv 1610 1610 []) kept.

(** [expire] refreshes the range to keep only when the previous refresh is about
    to run out, so a range set in between is not protected: the validations for a
    sequence in the range are dropped. *)
Theorem kept_range_expires :
  toKeep kept = Some (1, 257) /\ is_Some (byLedger_ kept !! 11) /\ is_Some (bySequence kept !! 1) /\
  byLedger_ swept !! 11 = None /\ bySequence swept !! 1 = None.
Proof. vm_compute. repeat split; eexists; reflexivity. Qed.

End Sample.
