(* ===== verification/EngineState.v ===== *)
(** * The consensus state machine: data

    The types of include/xrpl/consensus/ConsensusTypes.h that the state machine uses
    and the data members of the class template [Consensus] of
    include/xrpl/consensus/Consensus.h, with the interface of its [Adaptor].

    A transaction set is a finite map from transaction identifiers; its identifier,
    the root hash of a tree, is a function of the contents given by the class
    [TxSetHash].  A ledger is the part of it the state machine reads.  What the
    adaptor answers during one call is the record [Adaptor]; what it is told is the
    log [events], oldest first. *)
From S2P Require Import Prelude Parms Timing Decisions Disputed Proposal.

Inductive ConsensusMode := Proposing | Observing | WrongLedger | SwitchedLedger.
Inductive ConsensusPhase := Open | Establish | Accepted.

#[export] Instance ConsensusMode_eq_dec : EqDecision ConsensusMode.
Proof. solve_decision. Defined.
#[export] Instance ConsensusPhase_eq_dec : EqDecision ConsensusPhase.
Proof. solve_decision. Defined.

(** ** Transaction sets *)

Abbreviation TxSet := (gmap Z Tx).

(** [TxSet::id()] *)
Class TxSetHash := txSetID : TxSet -> Z.

(** [exists] *)
Definition txExists (s : TxSet) (id : Z) : bool := bool_decide (is_Some (s !! id)).

(** [MutableTxSet::insert], which does nothing if the transaction is there, and
    [MutableTxSet::erase] *)
Definition txInsert (s : TxSet) (t : Tx) : TxSet :=
  if txExists s (tx_id t) then s else <[tx_id t := t]> s.
Definition txErase (s : TxSet) (id : Z) : TxSet := delete id s.

(** [compare]: the transactions in one of the two sets only, by identifier, with
    whether it is the first; at most 65536 of them.  Which ones are left out of a
    larger difference depends on the traversal of the trees and is not modelled; the
    theorems use only that 65536 are reported then. *)
Definition txCompare (a b : TxSet) : list (Z * bool) :=
  take (Z.to_nat 65536) (sortedEntries
    (merge (fun x y : option Tx => match x, y with
                      | Some _, None => Some true
                      | None, Some _ => Some false
                      | _, _ => None
                      end) a b)).

(** ** Ledgers and results *)

Record LedgerT := mkLedger {
  l_id : Z;
  l_seq : Z;
  l_closeTime : Z;
  l_closeTimeResolution : Z;
  l_closeAgree : bool;
  l_parentCloseTime : Z
}.

#[export] Instance LedgerT_eq_dec : EqDecision LedgerT.
Proof. solve_decision. Defined.

Record Result := mkResult {
  txns : TxSet;
  ourPosition : ConsensusProposal;
  disputes : gmap Z DisputedTx;
  compares : gset Z;
  roundTime : ConsensusTimer;
  state : ConsensusState;
  proposers : Z
}.

(** [ConsensusResult(TxSet, Proposal)] *)
Definition newResult (s : TxSet) (p : ConsensusProposal) : Result :=
  mkResult s p ∅ ∅ newTimer No 0.

Definition setDisputes (r : Result) (d : gmap Z DisputedTx) : Result :=
  mkResult (txns r) (ourPosition r) d (compares r) (roundTime r) (state r) (proposers r).
Definition setCompares (r : Result) (s : gset Z) : Result :=
  mkResult (txns r) (ourPosition r) (disputes r) s (roundTime r) (state r) (proposers r).
Definition setPosition (r : Result) (s : TxSet) (p : ConsensusProposal) : Result :=
  mkResult s p (disputes r) (compares r) (roundTime r) (state r) (proposers r).
Definition setRound (r : Result) (t : ConsensusTimer) (n : Z) : Result :=
  mkResult (txns r) (ourPosition r) (disputes r) (compares r) t (state r) n.
Definition setState (r : Result) (s : ConsensusState) : Result :=
  mkResult (txns r) (ourPosition r) (disputes r) (compares r) (roundTime r) s (proposers r).

(** ** The adaptor *)

(** What the adaptor is told. *)
Inductive Event :=
| OnModeChange (before after : ConsensusMode)
| SharePosition (p : ConsensusProposal)
| ShareTxSet (s : TxSet)
| ShareTx (t : Tx)
| Propose (p : ConsensusProposal)
| UpdateOperatingMode (positions : Z)
| OnAccept (r : Result) (prev : LedgerT) (closeResolution : Z) (times : ConsensusCloseTimes)
    (mode : ConsensusMode) (validating : bool)
| OnForceAccept (r : Result) (prev : LedgerT) (closeResolution : Z) (times : ConsensusCloseTimes)
    (mode : ConsensusMode).

(** What it answers, and the steady clock.  [onClose] returns the arguments of the
    result it constructs. *)
Record Adaptor := mkAdaptor {
  parms : ConsensusParms;
  clockNow : Z;
  acquireLedger : Z -> option LedgerT;
  acquireTxSet : Z -> option TxSet;
  getPrevLedger : Z -> LedgerT -> ConsensusMode -> Z;
  hasOpenTransactions : bool;
  proposersValidated : Z -> Z;
  proposersFinished : LedgerT -> Z -> Z;
  onClose : LedgerT -> Z -> ConsensusMode -> TxSet * ConsensusProposal;
  getValidLedgerIndex : Z;
  getQuorumKeys : Z * gset Z;
  laggardsOf : Z -> gset Z -> Z * gset Z;
  isValidator : bool;
  haveValidated : bool;
  validating : bool
}.

(** ** The state *)

Record Consensus := mkConsensus {
  phase : ConsensusPhase;
  mode : ConsensusMode;
  firstRound : bool;
  haveCloseTimeConsensus : bool;
  convergePercent : Z;
  openTime : ConsensusTimer;
  closeResolution : Z;
  closeTimeAvalancheState : AvalancheState;
  prevRoundTime : Z;
  now_ : Z;
  prevCloseTime : Z;
  prevLedgerID : Z;
  previousLedger_ : LedgerT;
  acquired : gmap Z TxSet;
  result : option Result;
  rawCloseTimes : ConsensusCloseTimes;
  peerUnchangedCounter : Z;
  establishCounter : Z;
  currPeerPositions : gmap Z ConsensusProposal;
  recentPeerPositions : gmap Z (list ConsensusProposal);
  prevProposers : Z;
  deadNodes : gset Z;
  events : list Event
}.

(** The members as constructed. *)
Definition newConsensus : Consensus :=
  mkConsensus Accepted Observing true false 0 newTimer kLedgerDefaultTimeResolution Init 0 0 0 0
    (mkLedger 0 0 0 0 false 0) ∅ None emptyCloseTimes 0 0 ∅ ∅ 0 ∅ [].

(** ** Assignments to members *)

Definition set_phase (x : ConsensusPhase) (c : Consensus) : Consensus :=
  mkConsensus x (mode c) (firstRound c) (haveCloseTimeConsensus c) (convergePercent c)
    (openTime c) (closeResolution c) (closeTimeAvalancheState c) (prevRoundTime c) (now_ c)
    (prevCloseTime c) (prevLedgerID c) (previousLedger_ c) (acquired c) (result c)
    (rawCloseTimes c) (peerUnchangedCounter c) (establishCounter c) (currPeerPositions c)
    (recentPeerPositions c) (prevProposers c) (deadNodes c) (events c).
Definition set_mode (x : ConsensusMode) (c : Consensus) : Consensus :=
  mkConsensus (phase c) x (firstRound c) (haveCloseTimeConsensus c) (convergePercent c)
    (openTime c) (closeResolution c) (closeTimeAvalancheState c) (prevRoundTime c) (now_ c)
    (prevCloseTime c) (prevLedgerID c) (previousLedger_ c) (acquired c) (result c)
    (rawCloseTimes c) (peerUnchangedCounter c) (establishCounter c) (currPeerPositions c)
    (recentPeerPositions c) (prevProposers c) (deadNodes c) (events c).
Definition set_firstRound (x : bool) (c : Consensus) : Consensus :=
  mkConsensus (phase c) (mode c) x (haveCloseTimeConsensus c) (convergePercent c) (openTime c)
    (closeResolution c) (closeTimeAvalancheState c) (prevRoundTime c) (now_ c) (prevCloseTime c)
    (prevLedgerID c) (previousLedger_ c) (acquired c) (result c) (rawCloseTimes c)
    (peerUnchangedCounter c) (establishCounter c) (currPeerPositions c) (recentPeerPositions c)
    (prevProposers c) (deadNodes c) (events c).
Definition set_haveCloseTimeConsensus (x : bool) (c : Consensus) : Consensus :=
  mkConsensus (phase c) (mode c) (firstRound c) x (convergePercent c) (openTime c)
    (closeResolution c) (closeTimeAvalancheState c) (prevRoundTime c) (now_ c) (prevCloseTime c)
    (prevLedgerID c) (previousLedger_ c) (acquired c) (result c) (rawCloseTimes c)
    (peerUnchangedCounter c) (establishCounter c) (currPeerPositions c) (recentPeerPositions c)
    (prevProposers c) (deadNodes c) (events c).
Definition set_convergePercent (x : Z) (c : Consensus) : Consensus :=
  mkConsensus (phase c) (mode c) (firstRound c) (haveCloseTimeConsensus c) x (openTime c)
    (closeResolution c) (closeTimeAvalancheState c) (prevRoundTime c) (now_ c) (prevCloseTime c)
    (prevLedgerID c) (previousLedger_ c) (acquired c) (result c) (rawCloseTimes c)
    (peerUnchangedCounter c) (establishCounter c) (currPeerPositions c) (recentPeerPositions c)
    (prevProposers c) (deadNodes c) (events c).
Definition set_openTime (x : ConsensusTimer) (c : Consensus) : Consensus :=
  mkConsensus (phase c) (mode c) (firstRound c) (haveCloseTimeConsensus c) (convergePercent c)
    x (closeResolution c) (closeTimeAvalancheState c) (prevRoundTime c) (now_ c) (prevCloseTime
    c) (prevLedgerID c) (previousLedger_ c) (acquired c) (result c) (rawCloseTimes c)
    (peerUnchangedCounter c) (establishCounter c) (currPeerPositions c) (recentPeerPositions c)
    (prevProposers c) (deadNodes c) (events c).
Definition set_closeResolution (x : Z) (c : Consensus) : Consensus :=
  mkConsensus (phase c) (mode c) (firstRound c) (haveCloseTimeConsensus c) (convergePercent c)
    (openTime c) x (closeTimeAvalancheState c) (prevRoundTime c) (now_ c) (prevCloseTime c)
    (prevLedgerID c) (previousLedger_ c) (acquired c) (result c) (rawCloseTimes c)
    (peerUnchangedCounter c) (establishCounter c) (currPeerPositions c) (recentPeerPositions c)
    (prevProposers c) (deadNodes c) (events c).
Definition set_closeTimeAvalancheState (x : AvalancheState) (c : Consensus) : Consensus :=
  mkConsensus (phase c) (mode c) (firstRound c) (haveCloseTimeConsensus c) (convergePercent c)
    (openTime c) (closeResolution c) x (prevRoundTime c) (now_ c) (prevCloseTime c)
    (prevLedgerID c) (previousLedger_ c) (acquired c) (result c) (rawCloseTimes c)
    (peerUnchangedCounter c) (establishCounter c) (currPeerPositions c) (recentPeerPositions c)
    (prevProposers c) (deadNodes c) (events c).
Definition set_prevRoundTime (x : Z) (c : Consensus) : Consensus :=
  mkConsensus (phase c) (mode c) (firstRound c) (haveCloseTimeConsensus c) (convergePercent c)
    (openTime c) (closeResolution c) (closeTimeAvalancheState c) x (now_ c) (prevCloseTime c)
    (prevLedgerID c) (previousLedger_ c) (acquired c) (result c) (rawCloseTimes c)
    (peerUnchangedCounter c) (establishCounter c) (currPeerPositions c) (recentPeerPositions c)
    (prevProposers c) (deadNodes c) (events c).
Definition set_now (x : Z) (c : Consensus) : Consensus :=
  mkConsensus (phase c) (mode c) (firstRound c) (haveCloseTimeConsensus c) (convergePercent c)
    (openTime c) (closeResolution c) (closeTimeAvalancheState c) (prevRoundTime c) x
    (prevCloseTime c) (prevLedgerID c) (previousLedger_ c) (acquired c) (result c)
    (rawCloseTimes c) (peerUnchangedCounter c) (establishCounter c) (currPeerPositions c)
    (recentPeerPositions c) (prevProposers c) (deadNodes c) (events c).
Definition set_prevCloseTime (x : Z) (c : Consensus) : Consensus :=
  mkConsensus (phase c) (mode c) (firstRound c) (haveCloseTimeConsensus c) (convergePercent c)
    (openTime c) (closeResolution c) (closeTimeAvalancheState c) (prevRoundTime c) (now_ c) x
    (prevLedgerID c) (previousLedger_ c) (acquired c) (result c) (rawCloseTimes c)
    (peerUnchangedCounter c) (establishCounter c) (currPeerPositions c) (recentPeerPositions c)
    (prevProposers c) (deadNodes c) (events c).
Definition set_prevLedgerID (x : Z) (c : Consensus) : Consensus :=
  mkConsensus (phase c) (mode c) (firstRound c) (haveCloseTimeConsensus c) (convergePercent c)
    (openTime c) (closeResolution c) (closeTimeAvalancheState c) (prevRoundTime c) (now_ c)
    (prevCloseTime c) x (previousLedger_ c) (acquired c) (result c) (rawCloseTimes c)
    (peerUnchangedCounter c) (establishCounter c) (currPeerPositions c) (recentPeerPositions c)
    (prevProposers c) (deadNodes c) (events c).
Definition set_previousLedger (x : LedgerT) (c : Consensus) : Consensus :=
  mkConsensus (phase c) (mode c) (firstRound c) (haveCloseTimeConsensus c) (convergePercent c)
    (openTime c) (closeResolution c) (closeTimeAvalancheState c) (prevRoundTime c) (now_ c)
    (prevCloseTime c) (prevLedgerID c) x (acquired c) (result c) (rawCloseTimes c)
    (peerUnchangedCounter c) (establishCounter c) (currPeerPositions c) (recentPeerPositions c)
    (prevProposers c) (deadNodes c) (events c).
Definition set_acquired (x : gmap Z TxSet) (c : Consensus) : Consensus :=
  mkConsensus (phase c) (mode c) (firstRound c) (haveCloseTimeConsensus c) (convergePercent c)
    (openTime c) (closeResolution c) (closeTimeAvalancheState c) (prevRoundTime c) (now_ c)
    (prevCloseTime c) (prevLedgerID c) (previousLedger_ c) x (result c) (rawCloseTimes c)
    (peerUnchangedCounter c) (establishCounter c) (currPeerPositions c) (recentPeerPositions c)
    (prevProposers c) (deadNodes c) (events c).
Definition set_result (x : option Result) (c : Consensus) : Consensus :=
  mkConsensus (phase c) (mode c) (firstRound c) (haveCloseTimeConsensus c) (convergePercent c)
    (openTime c) (closeResolution c) (closeTimeAvalancheState c) (prevRoundTime c) (now_ c)
    (prevCloseTime c) (prevLedgerID c) (previousLedger_ c) (acquired c) x (rawCloseTimes c)
    (peerUnchangedCounter c) (establishCounter c) (currPeerPositions c) (recentPeerPositions c)
    (prevProposers c) (deadNodes c) (events c).
Definition set_rawCloseTimes (x : ConsensusCloseTimes) (c : Consensus) : Consensus :=
  mkConsensus (phase c) (mode c) (firstRound c) (haveCloseTimeConsensus c) (convergePercent c)
    (openTime c) (closeResolution c) (closeTimeAvalancheState c) (prevRoundTime c) (now_ c)
    (prevCloseTime c) (prevLedgerID c) (previousLedger_ c) (acquired c) (result c) x
    (peerUnchangedCounter c) (establishCounter c) (currPeerPositions c) (recentPeerPositions c)
    (prevProposers c) (deadNodes c) (events c).
Definition set_peerUnchangedCounter (x : Z) (c : Consensus) : Consensus :=
  mkConsensus (phase c) (mode c) (firstRound c) (haveCloseTimeConsensus c) (convergePercent c)
    (openTime c) (closeResolution c) (closeTimeAvalancheState c) (prevRoundTime c) (now_ c)
    (prevCloseTime c) (prevLedgerID c) (previousLedger_ c) (acquired c) (result c)
    (rawCloseTimes c) x (establishCounter c) (currPeerPositions c) (recentPeerPositions c)
    (prevProposers c) (deadNodes c) (events c).
Definition set_establishCounter (x : Z) (c : Consensus) : Consensus :=
  mkConsensus (phase c) (mode c) (firstRound c) (haveCloseTimeConsensus c) (convergePercent c)
    (openTime c) (closeResolution c) (closeTimeAvalancheState c) (prevRoundTime c) (now_ c)
    (prevCloseTime c) (prevLedgerID c) (previousLedger_ c) (acquired c) (result c)
    (rawCloseTimes c) (peerUnchangedCounter c) x (currPeerPositions c) (recentPeerPositions c)
    (prevProposers c) (deadNodes c) (events c).
Definition set_currPeerPositions (x : gmap Z ConsensusProposal) (c : Consensus) : Consensus :=
  mkConsensus (phase c) (mode c) (firstRound c) (haveCloseTimeConsensus c) (convergePercent c)
    (openTime c) (closeResolution c) (closeTimeAvalancheState c) (prevRoundTime c) (now_ c)
    (prevCloseTime c) (prevLedgerID c) (previousLedger_ c) (acquired c) (result c)
    (rawCloseTimes c) (peerUnchangedCounter c) (establishCounter c) x (recentPeerPositions c)
    (prevProposers c) (deadNodes c) (events c).
Definition set_recentPeerPositions (x : gmap Z (list ConsensusProposal)) (c : Consensus) : Consensus :=
  mkConsensus (phase c) (mode c) (firstRound c) (haveCloseTimeConsensus c) (convergePercent c)
    (openTime c) (closeResolution c) (closeTimeAvalancheState c) (prevRoundTime c) (now_ c)
    (prevCloseTime c) (prevLedgerID c) (previousLedger_ c) (acquired c) (result c)
    (rawCloseTimes c) (peerUnchangedCounter c) (establishCounter c) (currPeerPositions c) x
    (prevProposers c) (deadNodes c) (events c).
Definition set_prevProposers (x : Z) (c : Consensus) : Consensus :=
  mkConsensus (phase c) (mode c) (firstRound c) (haveCloseTimeConsensus c) (convergePercent c)
    (openTime c) (closeResolution c) (closeTimeAvalancheState c) (prevRoundTime c) (now_ c)
    (prevCloseTime c) (prevLedgerID c) (previousLedger_ c) (acquired c) (result c)
    (rawCloseTimes c) (peerUnchangedCounter c) (establishCounter c) (currPeerPositions c)
    (recentPeerPositions c) x (deadNodes c) (events c).
Definition set_deadNodes (x : gset Z) (c : Consensus) : Consensus :=
  mkConsensus (phase c) (mode c) (firstRound c) (haveCloseTimeConsensus c) (convergePercent c)
    (openTime c) (closeResolution c) (closeTimeAvalancheState c) (prevRoundTime c) (now_ c)
    (prevCloseTime c) (prevLedgerID c) (previousLedger_ c) (acquired c) (result c)
    (rawCloseTimes c) (peerUnchangedCounter c) (establishCounter c) (currPeerPositions c)
    (recentPeerPositions c) (prevProposers c) x (events c).
Definition set_events (x : list Event) (c : Consensus) : Consensus :=
  mkConsensus (phase c) (mode c) (firstRound c) (haveCloseTimeConsensus c) (convergePercent c)
    (openTime c) (closeResolution c) (closeTimeAvalancheState c) (prevRoundTime c) (now_ c)
    (prevCloseTime c) (prevLedgerID c) (previousLedger_ c) (acquired c) (result c)
    (rawCloseTimes c) (peerUnchangedCounter c) (establishCounter c) (currPeerPositions c)
    (recentPeerPositions c) (prevProposers c) (deadNodes c) x.

(** A notification. *)
Definition emit (e : Event) (c : Consensus) : Consensus := set_events (events c ++ [e]) c.

(** [MonitoredMode::set] *)
Definition setMode (m : ConsensusMode) (c : Consensus) : Consensus :=
  set_mode m (emit (OnModeChange (mode c) m) c).

(** [asCloseTime] *)
Definition asCloseTime (c : Consensus) (raw : Z) : Z := roundCloseTime raw (closeResolution c).
