(* ===== verification/Pause.v ===== *)
(** * Pausing for laggards: the thresholds

    The final part of [Consensus::shouldPause] of
    include/xrpl/consensus/Consensus.h, which computes in [float]: IEEE single
    precision with rounding to nearest, here the binary floating-point numbers of the
    standard library's [SpecFloat] with 24 bits of precision and exponents up to
    128. *)
From Stdlib Require Import SpecFloat.
From S2P Require Import Prelude.

Definition kMaxPausePhase : Z := 4.

(** [float] and its operations *)
Definition f32 (n : Z) : spec_float := binary_normalize 24 128 n 0 false.
Definition f32div := SFdiv 24 128.
Definition f32add := SFadd 24 128.
Definition f32sub := SFsub 24 128.
Definition f32mul := SFmul 24 128.

(** The default case of the switch *)
Definition pauseRatio (phase quorum totalValidators laggards offline : Z) : bool :=
  let nonLaggards := f32 (u64 (totalValidators - u64 (laggards + offline))) in
  let quorumRatio := f32div (f32 quorum) (f32 totalValidators) in
  let allowedDissent := f32sub (f32 1) quorumRatio in
  let phaseFactor := f32div (f32 phase) (f32 kMaxPausePhase) in
  SFltb (f32div nonLaggards (f32 totalValidators))
    (f32add quorumRatio (f32mul allowedDissent phaseFactor)).

Definition pausePhase (ahead quorum totalValidators laggards offline : Z) : bool :=
  let phase := (ahead - 1) mod (kMaxPausePhase + 1) in
  if phase =? 0 then u64 (totalValidators - quorum) <? u64 (laggards + offline)
  else if phase =? kMaxPausePhase then true
  else pauseRatio phase quorum totalValidators laggards offline.
