(* ===== verification/Engine.v ===== *)
(** * The consensus state machine: operations

    The member functions of the class template [Consensus] of
    include/xrpl/consensus/Consensus.h, as functions on its state.  [HashMap]s are
    iterated in the order of [map_to_list]; logging and [getJson] are omitted.  The
    assertions that a result is present are the [None] branches of the matches, which
    leave the state as it is.

    [startRoundInternal], [timerEntry], [checkLedger] and [handleWrongLedger] call
    each other: [timerEntry] is a recursion on fuel that is passed to the others,
    with [None] when the fuel runs out. *)
From S2P Require Import Prelude Parms Timing Decisions Disputed Proposal EngineState Pause.

Section Engine.
Context `{TxSetHash}.

(** ** Disputes *)

(** The votes of the peers whose sets we have, on a new dispute, with the counter
    that a changed vote resets. *)
Definition recordVotes (c : Consensus) (txID : Z) (d : DisputedTx) : DisputedTx * Z :=
  foldl (fun '(d, counter) '(nodeId, peerProp) =>
           match acquired c !! position peerProp with
           | Some s =>
               let '(changed, d') := setVote d nodeId (txExists s txID) in
               (d', if changed : bool then 0 else counter)
           | None => (d, counter)
           end) (d, peerUnchangedCounter c) (map_to_list (currPeerPositions c)).

(** One difference between our set and the set [o] *)
Definition createDispute (o : TxSet) (c : Consensus) (e : Z * bool) : Consensus :=
  let '(txId, inThisSet) := e in
  match result c with
  | Some r =>
      match (if inThisSet : bool then txns r !! txId else o !! txId) with
      | Some t =>
          let txID := tx_id t in
          if bool_decide (is_Some (disputes r !! txID)) then c
          else
            let '(dtx, counter) := recordVotes c txID (newDisputedTx t (txExists (txns r) txID)) in
            let c := emit (ShareTx t) (set_peerUnchangedCounter counter c) in
            set_result (Some (setDisputes r (<[txID := dtx]> (disputes r)))) c
      | None => c
      end
  | None => c
  end.

Definition createDisputes (c : Consensus) (o : TxSet) : Consensus :=
  match result c with
  | Some r =>
      if bool_decide (txSetID o ∈ compares r) then c
      else
        let c := set_result (Some (setCompares r ({[txSetID o]} ∪ compares r))) c in
        if txSetID (txns r) =? txSetID o then c
        else foldl (createDispute o) c (txCompare (txns r) o)
  | None => c
  end.

(** The peer's vote on every dispute, and whether one changed *)
Definition voteAll (node : Z) (other : TxSet) (ds : gmap Z DisputedTx)
    : bool * gmap Z DisputedTx :=
  let vote d := setVote d node (txExists other (tx_id (tx d))) in
  (existsb (fun e => fst (vote e.2)) (map_to_list ds), (fun d => snd (vote d)) <$> ds).

Definition updateDisputes (c : Consensus) (node : Z) (other : TxSet) : Consensus :=
  match result c with
  | Some r =>
      let c := if bool_decide (txSetID other ∈ compares r) then c else createDisputes c other in
      match result c with
      | Some r =>
          let '(changed, ds) := voteAll node other (disputes r) in
          let c := if changed then set_peerUnchangedCounter 0 c else c in
          set_result (Some (setDisputes r ds)) c
      | None => c
      end
  | None => c
  end.

(** ** Peer proposals and transaction sets *)

(** [updateDisputes] for each peer whose position has the identifier *)
Definition updatePeersAt (id : Z) (s : TxSet) (c : Consensus) : Consensus :=
  foldl (fun c '(nodeId, peerPos) =>
           if position peerPos =? id then updateDisputes c nodeId s else c)
    c (map_to_list (currPeerPositions c)).

Definition gotTxSet (c : Consensus) (now : Z) (txSet : TxSet) : Consensus :=
  if bool_decide (phase c = Accepted) then c
  else
    let c := set_now now c in
    let id := txSetID txSet in
    if bool_decide (is_Some (acquired c !! id)) then c
    else
      let c := set_acquired (<[id := txSet]> (acquired c)) c in
      match result c with
      | None => c
      | Some _ => updatePeersAt id txSet c
      end.

(** [unVote] of a peer on every dispute *)
Definition unVoteAll (peer : Z) (c : Consensus) : Consensus :=
  match result c with
  | Some r => set_result (Some (setDisputes r ((fun d => unVote d peer) <$> disputes r))) c
  | None => c
  end.

(** [++rawCloseTimes_.peers\[t\]] *)
Definition countCloseTime (t : Z) (c : Consensus) : Consensus :=
  let ct := rawCloseTimes c in
  set_rawCloseTimes
    (mkCloseTimes (<[t := default 0 (ct_peers ct !! t) + 1]> (ct_peers ct)) (ct_self ct)) c.

(** The transaction set of a new position: known, acquired now, or pending. *)
Definition positionSet (a : Adaptor) (c : Consensus) (p : ConsensusProposal) : Consensus :=
  match acquired c !! position p with
  | None =>
      match acquireTxSet a (position p) with
      | Some s => gotTxSet c (now_ c) s
      | None => c
      end
  | Some s => if result c is Some _ then updateDisputes c (nodeID p) s else c
  end.

Definition peerProposalInternal (a : Adaptor) (c : Consensus) (now : Z) (p : ConsensusProposal)
    : bool * Consensus :=
  if bool_decide (phase c = Accepted) then (false, c)
  else
    let c := set_now now c in
    if negb (previousLedger p =? prevLedgerID c) then (false, c)
    else if bool_decide (nodeID p ∈ deadNodes c) then (false, c)
    else if match currPeerPositions c !! nodeID p with
            | Some old => proposeSeq p <=? proposeSeq old
            | None => false
            end
    then (false, c)
    else if isBowOut p then
      let c := unVoteAll (nodeID p) c in
      let c := set_currPeerPositions (delete (nodeID p) (currPeerPositions c)) c in
      (true, set_deadNodes ({[nodeID p]} ∪ deadNodes c) c)
    else
      let c := set_currPeerPositions (<[nodeID p := p]> (currPeerPositions c)) c in
      let c := if isInitial p then countCloseTime (closeTime p) c else c in
      (true, positionSet a c p).

Definition peerProposal (a : Adaptor) (c : Consensus) (now : Z) (p : ConsensusProposal)
    : bool * Consensus :=
  let props := default [] (recentPeerPositions c !! nodeID p) in
  let props := if (10 <=? length props)%nat then tail props else props in
  let c := set_recentPeerPositions (<[nodeID p := props ++ [p]]> (recentPeerPositions c)) c in
  peerProposalInternal a c now p.

Definition playbackOne (a : Adaptor) (c : Consensus) (p : ConsensusProposal) : Consensus :=
  if previousLedger p =? prevLedgerID c then
    let '(accepted, c) := peerProposalInternal a c (now_ c) p in
    if accepted then emit (SharePosition p) c else c
  else c.

Definition playbackProposals (a : Adaptor) (c : Consensus) : Consensus :=
  foldl (fun c e => foldl (playbackOne a) c e.2) c (map_to_list (recentPeerPositions c)).

(** ** Leaving *)

Definition leaveConsensus (c : Consensus) : Consensus :=
  if bool_decide (mode c = Proposing) then
    let c :=
      match result c with
      | Some r =>
          if negb (isBowOut (ourPosition r)) then
            let p := bowOut (ourPosition r) (now_ c) in
            emit (Propose p) (set_result (Some (setPosition r (txns r) p)) c)
          else c
      | None => c
      end in
    setMode Observing c
  else c.

(** ** Closing *)

Definition closeLedger (a : Adaptor) (c : Consensus) : Consensus :=
  let c := set_phase Establish c in
  let c := set_rawCloseTimes (mkCloseTimes (ct_peers (rawCloseTimes c)) (now_ c)) c in
  let c := set_peerUnchangedCounter 0 (set_establishCounter 0 c) in
  let '(initialSet, proposal) := onClose a (previousLedger_ c) (now_ c) (mode c) in
  let r := newResult initialSet proposal in
  let r := setRound r (resetTimer (roundTime r) (clockNow a)) (proposers r) in
  let c := set_result (Some r) c in
  let id := txSetID (txns r) in
  let c :=
    if bool_decide (is_Some (acquired c !! id)) then c
    else emit (ShareTxSet (txns r)) (set_acquired (<[id := txns r]> (acquired c)) c) in
  let c := if bool_decide (mode c = Proposing) then emit (Propose (ourPosition r)) c else c in
  foldl (fun c e =>
           match acquired c !! position e.2 with
           | Some s => createDisputes c s
           | None => c
           end) c (map_to_list (currPeerPositions c)).

(** Time since the previous ledger's close, in milliseconds. *)
Definition sinceClose (c : Consensus) : Z :=
  let l := previousLedger_ c in
  let previousCloseCorrect :=
    negb (bool_decide (mode c = WrongLedger)) && l_closeAgree l &&
    negb (l_closeTime l =? l_parentCloseTime l + 1) in
  let lastCloseTime := if previousCloseCorrect then l_closeTime l else prevCloseTime c in
  if lastCloseTime <=? now_ c then (now_ c - lastCloseTime) * 1000
  else - ((lastCloseTime - now_ c) * 1000).

Definition phaseOpen (a : Adaptor) (c : Consensus) : Consensus :=
  let c := set_openTime (tickAt (openTime c) (clockNow a)) c in
  let idleInterval :=
    Z.max (ledgerIdleInterval (parms a)) (u32 (2 * l_closeTimeResolution (previousLedger_ c)) * 1000) in
  if shouldCloseLedger (hasOpenTransactions a) (prevProposers c)
       (Z.of_nat (size (currPeerPositions c))) (proposersValidated a (prevLedgerID c))
       (prevRoundTime c) (sinceClose c) (readTimer (openTime c)) idleInterval (parms a)
  then closeLedger a c else c.

(** ** Establishing *)

Definition participantsNeeded (participants percent : Z) : Z :=
  let result := Z.quot (participants * percent + Z.quot percent 2) 100 in
  if result =? 0 then 1 else result.

Definition addVote (t : Z) (votes : gmap Z Z) : gmap Z Z := <[t := default 0 (votes !! t) + 1]> votes.

(** Stale peer positions are removed; the others vote on the close time. *)
Definition checkPeer (cutoff : Z) (acc : Consensus * gmap Z Z) (e : Z * ConsensusProposal)
    : Consensus * gmap Z Z :=
  let '(c, votes) := acc in
  if isStale e.2 cutoff then
    let c := unVoteAll (nodeID e.2) c in
    (set_currPeerPositions (delete e.1 (currPeerPositions c)) c, votes)
  else (c, addVote (asCloseTime c (closeTime e.2)) votes).

Definition freshPeers (a : Adaptor) (c : Consensus) : Consensus * gmap Z Z :=
  foldl (checkPeer (now_ c -32 proposeFRESHNESS (parms a))) (c, ∅) (map_to_list (currPeerPositions c)).

(** One dispute of the loop that updates our votes: the disputes and, if a vote
    changed, the new set. *)
Definition revote (a : Adaptor) (proposing : bool) (percent : Z) (base : TxSet)
    (acc : gmap Z DisputedTx * option TxSet) (e : Z * DisputedTx)
    : gmap Z DisputedTx * option TxSet :=
  let '(ds, mutableSet) := acc in
  let '(changed, d) := updateVote e.2 percent proposing (parms a) in
  (<[e.1 := d]> ds,
   if changed : bool then
     let s := default base mutableSet in
     Some (if ourVote d then txInsert s (tx d) else txErase s e.1)
   else mutableSet).

Definition revoteAll (a : Adaptor) (proposing : bool) (percent : Z) (r : Result)
    : gmap Z DisputedTx * option TxSet :=
  foldl (revote a proposing percent (txns r)) (disputes r, None) (map_to_list (disputes r)).

(** The walk over the close-time votes, latest time first: the chosen time, the
    threshold, and whether it is a consensus. *)
Fixpoint closeTimeWalk (votes : list (Z * Z)) (threshConsensus : Z) (acc : Z * Z * bool)
    : Z * Z * bool :=
  match votes with
  | [] => acc
  | (t, v) :: votes' =>
      let '(best, threshVote, have) := acc in
      closeTimeWalk votes' threshConsensus
        (if threshVote <=? v then (t, v, have || (threshConsensus <=? v)) else acc)
  end.

(** The agreed close time, the state with the avalanche state advanced, and whether
    there is consensus on it. *)
Definition chooseCloseTime (a : Adaptor) (r : Result) (votes : gmap Z Z) (c : Consensus)
    : Z * Consensus :=
  if bool_decide (currPeerPositions c = ∅) then
    (asCloseTime c (closeTime (ourPosition r)), set_haveCloseTimeConsensus true c)
  else
    let '(neededWeight, newState) :=
      getNeededWeight (parms a) (closeTimeAvalancheState c) (convergePercent c) 0 0 in
    let c := if newState is Some s then set_closeTimeAvalancheState s c else c in
    let participants := Z.of_nat (size (currPeerPositions c)) in
    let '(votes, participants) :=
      if bool_decide (mode c = Proposing)
      then (addVote (asCloseTime c (closeTime (ourPosition r))) votes, participants + 1)
      else (votes, participants) in
    let threshVote := participantsNeeded participants neededWeight in
    let threshConsensus := participantsNeeded participants (avCtConsensusPct (parms a)) in
    let '(t, _, have) :=
      closeTimeWalk (rev (sortedEntries votes)) threshConsensus (0, threshVote, false) in
    (t, set_haveCloseTimeConsensus have c).

(** Taking the new set and close time as our position *)
Definition adoptPosition (r : Result) (newSet : TxSet) (consensusCloseTime : Z) (c : Consensus)
    : Consensus :=
  let newID := txSetID newSet in
  let p := changePosition (ourPosition r) newID consensusCloseTime (now_ c) in
  let c := set_result (Some (setPosition r newSet p)) c in
  let c :=
    if bool_decide (is_Some (acquired c !! newID)) then c
    else
      let c := set_acquired (<[newID := newSet]> (acquired c)) c in
      let c := if negb (isBowOut p) then emit (ShareTxSet newSet) c else c in
      updatePeersAt newID newSet c in
  if negb (isBowOut p) && bool_decide (mode c = Proposing) then emit (Propose p) c else c.

Definition updateOurPositions (a : Adaptor) (c : Consensus) : Consensus :=
  let ourCutoff := now_ c -32 proposeINTERVAL (parms a) in
  let '(c, votes) := freshPeers a c in
  match result c with
  | Some r =>
      let '(ds, ourNewSet) :=
        revoteAll a (bool_decide (mode c = Proposing)) (convergePercent c) r in
      let r := setDisputes r ds in
      let c := set_result (Some r) c in
      let '(consensusCloseTime, c) := chooseCloseTime a r votes c in
      let ourNewSet :=
        match ourNewSet with
        | Some s => Some s
        | None =>
            if negb (consensusCloseTime =? asCloseTime c (closeTime (ourPosition r)))
               || isStale (ourPosition r) ourCutoff
            then Some (txns r) else None
        end in
      match ourNewSet with
      | Some s => adoptPosition r s consensusCloseTime c
      | None => c
      end
  | None => c
  end.

(** [shouldPause] *)
Definition shouldPause (a : Adaptor) (c : Consensus) : bool :=
  let ahead := l_seq (previousLedger_ c) - Z.min (getValidLedgerIndex a) (l_seq (previousLedger_ c)) in
  let '(quorum, trustedKeys) := getQuorumKeys a in
  let totalValidators := Z.of_nat (size trustedKeys) in
  let '(laggards, trustedKeys) := laggardsOf a (l_seq (previousLedger_ c)) trustedKeys in
  let offline := Z.of_nat (size trustedKeys) in
  let round := match result c with Some r => readTimer (roundTime r) | None => 0 end in
  if (ahead =? 0) || (laggards =? 0) || (totalValidators =? 0) || negb (isValidator a)
     || negb (haveValidated a) || (ledgerMaxConsensus (parms a) <? round)
  then false
  else pausePhase ahead quorum totalValidators laggards offline.

(** The number of peers at our position and at others *)
Definition countAgree (c : Consensus) (ourPos : Z) : Z * Z :=
  foldl (fun '(agree, disagree) e =>
           if position (snd e) =? ourPos then (agree + 1, disagree) else (agree, disagree + 1))
    (0, 0) (map_to_list (currPeerPositions c)).

Definition allStalled (a : Adaptor) (c : Consensus) (r : Result) : bool :=
  haveCloseTimeConsensus c && negb (bool_decide (disputes r = ∅)) &&
  forallb (fun e => stalled e.2 (parms a) (bool_decide (mode c = Proposing)) (i32 (peerUnchangedCounter c)))
    (map_to_list (disputes r)).

Definition haveConsensus (a : Adaptor) (c : Consensus) : bool * Consensus :=
  match result c with
  | Some r =>
      let '(agree, disagree) := countAgree c (position (ourPosition r)) in
      let currentFinished := proposersFinished a (previousLedger_ c) (prevLedgerID c) in
      let st := checkConsensus (prevProposers c) (agree + disagree) agree currentFinished
                  (prevRoundTime c) (readTimer (roundTime r)) (allStalled a c r) (parms a)
                  (bool_decide (mode c = Proposing)) in
      let c := set_result (Some (setState r st)) c in
      match st with
      | No => (false, c)
      | Expired =>
          if establishCounter c <? 4 * avMinRounds (parms a) then (false, c)
          else (true, leaveConsensus c)
      | MovedOn | Yes => (true, c)
      end
  | None => (false, c)
  end.

(** Accepting the result *)
Definition acceptLedger (a : Adaptor) (c : Consensus) : Consensus :=
  match result c with
  | Some r =>
      let n := Z.of_nat (size (currPeerPositions c)) in
      let c := emit (UpdateOperatingMode n) c in
      let c := set_prevProposers n c in
      let c := set_prevRoundTime (readTimer (roundTime r)) c in
      let c := set_phase Accepted c in
      emit (OnAccept r (previousLedger_ c) (closeResolution c) (rawCloseTimes c) (mode c) (validating a)) c
  | None => c
  end.

Definition phaseEstablish (a : Adaptor) (c : Consensus) : Consensus :=
  match result c with
  | Some r =>
      let c := set_peerUnchangedCounter (peerUnchangedCounter c +64 1) c in
      let c := set_establishCounter (establishCounter c +64 1) c in
      let r := setRound r (tickAt (roundTime r) (clockNow a)) (Z.of_nat (size (currPeerPositions c))) in
      let c := set_result (Some r) c in
      let c := set_convergePercent
                 (i32 (Z.quot (readTimer (roundTime r) * 100)
                         (Z.max (prevRoundTime c) (avMinConsensusTime (parms a))))) c in
      if readTimer (roundTime r) <? ledgerMinConsensus (parms a) then c
      else
        let c := updateOurPositions a c in
        if shouldPause a c then c
        else
          let '(have, c) := haveConsensus a c in
          if negb have then c
          else if negb (haveCloseTimeConsensus c) then c
          else acceptLedger a c
  | None => c
  end.

(** ** Rounds *)

(** [startRoundInternal], up to the final test *)
Definition beginRound (a : Adaptor) (c : Consensus) (now prevID : Z) (prevLedger : LedgerT)
    (m : ConsensusMode) : Consensus :=
  let c := set_phase Open c in
  let c := setMode m c in
  let c := set_now now c in
  let c := set_prevLedgerID prevID c in
  let c := set_previousLedger prevLedger c in
  let c := set_result None c in
  let c := set_convergePercent 0 c in
  let c := set_closeTimeAvalancheState Init c in
  let c := set_haveCloseTimeConsensus false c in
  let c := set_openTime (resetTimer (openTime c) (clockNow a)) c in
  let c := set_currPeerPositions ∅ c in
  let c := set_acquired ∅ c in
  let c := set_rawCloseTimes emptyCloseTimes c in
  let c := set_deadNodes ∅ c in
  let c := set_closeResolution
             (getNextLedgerTimeResolution (l_closeTimeResolution prevLedger)
                (l_closeAgree prevLedger) (l_seq prevLedger +32 1)) c in
  playbackProposals a c.

Section Recursion.
Context (timer : Consensus -> Z -> option Consensus).

Definition startRoundInternalWith (a : Adaptor) (c : Consensus) (now prevID : Z)
    (prevLedger : LedgerT) (m : ConsensusMode) : option Consensus :=
  let c := beginRound a c now prevID prevLedger m in
  if prevProposers c / 2 <? Z.of_nat (size (currPeerPositions c)) then timer c (now_ c) else Some c.

(** The state reset of [handleWrongLedger] for a ledger seen for the first time *)
Definition forgetRound (a : Adaptor) (lgrId : Z) (c : Consensus) : Consensus :=
  let c := set_prevLedgerID lgrId c in
  let c := match result c with
           | Some r => set_result (Some (setCompares (setDisputes r ∅) ∅)) c
           | None => c
           end in
  let c := set_currPeerPositions ∅ c in
  let c := set_rawCloseTimes (mkCloseTimes ∅ (ct_self (rawCloseTimes c))) c in
  let c := set_deadNodes ∅ c in
  playbackProposals a c.

Definition handleWrongLedgerWith (a : Adaptor) (c : Consensus) (lgrId : Z) : option Consensus :=
  let c := leaveConsensus c in
  let c := if prevLedgerID c =? lgrId then c else forgetRound a lgrId c in
  if l_id (previousLedger_ c) =? prevLedgerID c then Some c
  else
    match acquireLedger a (prevLedgerID c) with
    | Some newLedger => startRoundInternalWith a c (now_ c) lgrId newLedger SwitchedLedger
    | None => Some (setMode WrongLedger c)
    end.

Definition checkLedgerWith (a : Adaptor) (c : Consensus) : option Consensus :=
  let netLgr := getPrevLedger a (prevLedgerID c) (previousLedger_ c) (mode c) in
  if negb (netLgr =? prevLedgerID c) then handleWrongLedgerWith a c netLgr
  else if negb (l_id (previousLedger_ c) =? prevLedgerID c) then handleWrongLedgerWith a c netLgr
  else Some c.

Definition timerEntryWith (a : Adaptor) (c : Consensus) (now : Z) : option Consensus :=
  if bool_decide (phase c = Accepted) then Some c
  else
    match checkLedgerWith a (set_now now c) with
    | Some c =>
        Some (match phase c with
              | Open => phaseOpen a c
              | Establish => phaseEstablish a c
              | Accepted => c
              end)
    | None => None
    end.
End Recursion.

Fixpoint timerEntry (fuel : nat) (a : Adaptor) (c : Consensus) (now : Z) : option Consensus :=
  match fuel with
  | O => None
  | S fuel' => timerEntryWith (timerEntry fuel' a) a c now
  end.

Definition startRoundInternal (fuel : nat) (a : Adaptor) (c : Consensus) (now prevID : Z)
    (prevLedger : LedgerT) (m : ConsensusMode) : option Consensus :=
  startRoundInternalWith (timerEntry fuel a) a c now prevID prevLedger m.

Definition startRound (fuel : nat) (a : Adaptor) (c : Consensus) (now prevID : Z)
    (prevLedger : LedgerT) (nowUntrusted : gset Z) (proposing : bool) : option Consensus :=
  let c :=
    if firstRound c then
      set_firstRound false
        (set_prevCloseTime (l_closeTime prevLedger) (set_prevRoundTime (ledgerIdleInterval (parms a)) c))
    else set_prevCloseTime (ct_self (rawCloseTimes c)) c in
  let c := set_recentPeerPositions
             (filter (fun e => e.1 ∉ nowUntrusted) (recentPeerPositions c)) c in
  let startMode := if proposing then Proposing else Observing in
  let '(prevLedger, startMode) :=
    if negb (l_id prevLedger =? prevID) then
      match acquireLedger a prevID with
      | Some newLedger => (newLedger, startMode)
      | None => (prevLedger, WrongLedger)
      end
    else (prevLedger, startMode) in
  startRoundInternal fuel a c now prevID prevLedger startMode.

Definition simulate (a : Adaptor) (c : Consensus) (now : Z) (consensusDelay : option Z) : Consensus :=
  let c := closeLedger a (set_now now c) in
  match result c with
  | Some r =>
      let n := Z.of_nat (size (currPeerPositions c)) in
      let r := setRound r (tickFixed (roundTime r) (default 100 consensusDelay)) n in
      let c := set_result (Some r) (set_prevProposers n c) in
      let c := set_prevRoundTime (readTimer (roundTime r)) c in
      let c := set_phase Accepted c in
      emit (OnForceAccept r (previousLedger_ c) (closeResolution c) (rawCloseTimes c) (mode c)) c
  | None => c
  end.

End Engine.
