(* ===== verification/EngineFacts.v ===== *)
(** * The consensus state machine: disputes

    The operations of [Consensus] that create disputes and record the peers' votes on
    them, and what they establish: every transaction on which our set and a compared
    set differ is in dispute, and on each dispute exactly the peers with a position
    vote, those whose set we have as their set says. *)
From S2P Require Import Prelude Parms Timing Decisions Disputed Proposal EngineState Engine.

#[local] Set Warnings "-clear-no-such-hyp".

Section Keyed.
Context `{TxSetHash}.
(** The transactions offered by the parties. *)
Context (offered : Tx -> Prop).

(** Sets of such transactions, indexed by their identifiers. *)
Definition keyed (s : TxSet) : Prop :=
  forall t x, s !! t = Some x -> tx_id x = t /\ offered x.

(** Their tree hashes do not collide: the identifier of a set determines it. *)
Definition collisionFree : Prop :=
  forall a b, keyed a -> keyed b -> txSetID a = txSetID b -> a = b.
End Keyed.

Section Disputes.
Context `{TxSetHash} (offered : Tx -> Prop) (distinct : collisionFree offered).
Abbreviation keyed := (keyed offered).

(** ** Comparing sets *)

Lemma txExists_true s t : txExists s t = true <-> is_Some (s !! t).
Proof. apply bool_decide_eq_true. Qed.

Lemma txExists_dom s t : txExists s t = true <-> t ∈ dom s.
Proof. by rewrite txExists_true, elem_of_dom. Qed.

Lemma txInsert_exists s x t :
  txExists (txInsert s x) t = (t =? tx_id x) || txExists s t.
Proof.
  unfold txInsert. destruct (txExists s (tx_id x)) eqn:E.
  - destruct (Z.eqb_spec t (tx_id x)) as [->|]; [by rewrite E|done].
  - unfold txExists in *. destruct (Z.eqb_spec t (tx_id x)) as [->|Hne].
    + by rewrite lookup_insert_eq.
    + by rewrite lookup_insert_ne.
Qed.

Lemma txErase_exists s i t : txExists (txErase s i) t = negb (t =? i) && txExists s t.
Proof.
  unfold txErase, txExists. destruct (Z.eqb_spec t i) as [->|Hne].
  - by rewrite lookup_delete_eq.
  - by rewrite lookup_delete_ne.
Qed.

(** The comparison lists transactions in one set only: all of them, or 65536. *)
Lemma txCompare_spec a b :
  (forall t inA, (t, inA) ∈ txCompare a b -> txExists a t = inA /\ txExists b t = negb inA) /\
  ((forall t, txExists a t <> txExists b t -> (t, txExists a t) ∈ txCompare a b) \/
   Z.of_nat (length (txCompare a b)) = 65536) /\
  NoDup (txCompare a b).*1.
Proof.
  unfold txCompare. set (m := merge _ a b). set (n := Z.to_nat 65536).
  assert (Hm : forall t, m !! t = match a !! t, b !! t with
    | Some _, None => Some true | None, Some _ => Some false | _, _ => None end).
  { intros i. unfold m. rewrite lookup_merge. unfold diag_None.
    by destruct (a !! i), (b !! i). }
  split; [|split].
  - intros t inA Hin. apply (subseteq_take n _) in Hin.
    rewrite elem_of_sortedEntries, Hm in Hin. unfold txExists.
    destruct (a !! t), (b !! t); cbn; naive_solver.
  - destruct (Nat.le_gt_cases (length (sortedEntries m)) n) as [Hle|Hgt].
    + left. intros t Hne. rewrite take_ge, elem_of_sortedEntries, Hm by done. unfold txExists in *.
      destruct (a !! t), (b !! t); cbn in *; naive_solver.
    + right. rewrite length_take, Nat.min_l by lia. apply Z2Nat.id. lia.
  - rewrite fmap_take. pose proof (NoDup_fst_map_to_list m) as Hnd.
    rewrite <-(sortedEntries_perm m), <-(take_drop n (sortedEntries m).*1) in Hnd.
    by apply NoDup_app in Hnd as [? _].
Qed.

(** The bound is a large unary number. *)
#[local] Opaque txCompare.

(** ** Votes *)

Definition votesFor (acq : gmap Z TxSet) (peers : gmap Z ConsensusProposal) (pending : gset Z)
    (t : Z) (d : DisputedTx) : Prop :=
  dom (votes d) ⊆ dom peers /\
  forall n p x, n ∉ pending -> peers !! n = Some p -> acq !! position p = Some x ->
    votes d !! n = Some (txExists x t).

(** A dispute: indexed by its transaction, with correct tallies, our vote telling
    whether our set has the transaction, and the peers' votes as their sets say, but
    for the [pending] peers. *)
Definition dispute_ok (acq : gmap Z TxSet) (peers : gmap Z ConsensusProposal) (pending : gset Z)
    (s : TxSet) (t : Z) (d : DisputedTx) : Prop :=
  tx_id (tx d) = t /\ offered (tx d) /\ dispute_wf d /\ ourVote d = txExists s t /\
  votesFor acq peers pending t d.

(** The votes after the peers in [done] have been asked. *)
Definition votedUpTo (c : Consensus) (t : Z) (d : DisputedTx) (asked : list (Z * ConsensusProposal))
    (d' : DisputedTx) : Prop :=
  tx d' = tx d /\ ourVote d' = ourVote d /\ dispute_wf d' /\
  dom (votes d') ⊆ dom (currPeerPositions c) /\
  forall n p x, n ∈ asked.*1 -> currPeerPositions c !! n = Some p -> acquired c !! position p = Some x ->
    votes d' !! n = Some (txExists x t).

Lemma recordVotes_ok c t d dtx counter :
  dispute_wf d -> votes d = ∅ -> recordVotes c t d = (dtx, counter) ->
  tx dtx = tx d /\ ourVote dtx = ourVote d /\ dispute_wf dtx /\
  votesFor (acquired c) (currPeerPositions c) ∅ t dtx.
Proof.
  intros Hwf Hv Hrun. unfold recordVotes in Hrun.
  pose proof (foldl_prefix (fun pre acc => votedUpTo c t d pre acc.1)
    (fun '(d, counter) '(nodeId, peerProp) =>
           match acquired c !! position peerProp with
           | Some s =>
               let '(changed, d') := setVote d nodeId (txExists s t) in
               (d', if changed : bool then 0 else counter)
           | None => (d, counter)
           end) (map_to_list (currPeerPositions c)) (d, peerUnchangedCounter c)) as Hf.
  rewrite Hrun in Hf. cbn [fst] in Hf. destruct Hf as (H1 & H2 & H3 & H4 & H5).
  - intros pre [n p] [d1 cnt] Hin (H1 & H2 & H3 & H4 & H5). cbn [fst] in *.
    apply elem_of_map_to_list in Hin as Hp.
    destruct (acquired c !! position p) as [s|] eqn:Ea.
    + pose proof (setVote_spec d1 n (txExists s t) H3) as Hs.
      destruct (setVote d1 n (txExists s t)) as [ch d2]. destruct Hs as (Hs1 & Hs2 & _ & Hs4 & Hs5 & _).
      cbn [fst]. split; [congruence|]. split; [congruence|]. split; [done|]. split.
      * rewrite Hs2, dom_insert_L. apply elem_of_dom_2 in Hp. set_solver.
      * intros n' p' x' Hin' Hp' Hx'. rewrite Hs2. destruct (decide (n' = n)) as [->|Hne].
        -- rewrite lookup_insert_eq. congruence.
        -- rewrite lookup_insert_ne by done. apply (H5 n' p'); [|done|done].
           rewrite fmap_app in Hin'. set_solver.
    + cbn [fst]. repeat (split; [done|]). intros n' p' x' Hin' Hp' Hx'.
      destruct (decide (n' = n)) as [->|Hne]; [congruence|]. apply (H5 n' p'); [|done|done].
      rewrite fmap_app in Hin'. set_solver.
  - cbn. unfold votedUpTo. rewrite Hv. do 3 (split; [done|]). split; [set_solver|].
    intros n p x Hn. by apply elem_of_nil in Hn.
  - repeat (split; [done|]). intros n p x _ Hp Hx. apply (H5 n p); [|done|done].
    apply list_elem_of_fmap. exists (n, p). split; [done|]. by apply elem_of_map_to_list.
Qed.

(** ** Results *)

(** The result of the round, against the sets and positions of the peers; [pending]
    are the peers whose votes, and [uncompared] those whose sets, have not been
    brought in yet. *)
Record result_ok (acq : gmap Z TxSet) (peers : gmap Z ConsensusProposal)
    (pending uncompared : gset Z) (r : Result) : Prop := mkResultOk {
  res_keyed : keyed (txns r);
  res_position : position (ourPosition r) = txSetID (txns r);
  res_disputes : forall t d, disputes r !! t = Some d -> dispute_ok acq peers pending (txns r) t d;
  res_complete : forall i x t, i ∈ compares r -> acq !! i = Some x ->
    txExists (txns r) t <> txExists x t ->
    t ∈ dom (disputes r) \/ 65536 <= Z.of_nat (size (disputes r));
  res_compared : forall n p, n ∉ uncompared -> peers !! n = Some p ->
    is_Some (acq !! position p) -> position p ∈ compares r;
  res_compares : compares r ⊆ dom acq
}.

(** What creating and voting on disputes leaves alone. *)
Definition frame (c : Consensus) : Consensus :=
  set_result None (set_peerUnchangedCounter 0 (set_events [] c)).
Definition core (r : Result) : Result := setCompares (setDisputes r ∅) ∅.

(** [c'] differs from [c] in disputes only, with the result [r'] for [r]. *)
Definition evolves (c : Consensus) (r : Result) (c' : Consensus) (r' : Result) : Prop :=
  frame c' = frame c /\ result c' = Some r' /\ core r' = core r.

Lemma evolves_trans c r c1 r1 c2 r2 : evolves c r c1 r1 -> evolves c1 r1 c2 r2 -> evolves c r c2 r2.
Proof. intros (E1 & _ & E2) (E3 & E4 & E5). split; [congruence|]. split; [done|congruence]. Qed.

(** One difference. *)
Lemma createDispute_ok o c r t inOurs :
  result c = Some r -> keyed (txns r) -> keyed o -> (t, inOurs) ∈ txCompare (txns r) o ->
  exists r', evolves c r (createDispute o c (t, inOurs)) r' /\ compares r' = compares r /\
    t ∈ dom (disputes r') /\
    (forall i d, disputes r !! i = Some d -> disputes r' !! i = Some d) /\
    (forall i d, disputes r' !! i = Some d -> disputes r !! i = Some d \/
       dispute_ok (acquired c) (currPeerPositions c) ∅ (txns r) i d).
Proof.
  intros Hr Hk Ho Hin. apply (proj1 (txCompare_spec _ _)) in Hin as [H1 H2].
  unfold createDispute. rewrite Hr.
  assert (Ht : exists x, (if inOurs then txns r !! t else o !! t) = Some x /\ tx_id x = t /\ offered x).
  { destruct inOurs; [apply txExists_true in H1 as [x Hx]|apply txExists_true in H2 as [x Hx]];
      exists x; (split; [done|]); [by apply Hk|by apply Ho]. }
  destruct Ht as (x & -> & Hx & Hu). rewrite Hx.
  case_bool_decide as Hd.
  - exists r. split; [by split|]. split; [done|]. split; [by apply elem_of_dom|]. split; [done|]. by left.
  - destruct (recordVotes c t _) as [dtx counter] eqn:Erv.
    apply recordVotes_ok in Erv as (Hv1 & Hv2 & Hv3 & Hv4); [|apply newDisputedTx_wf|done].
    exists (setDisputes r (<[t := dtx]> (disputes r))). split; [done|]. split; [done|]. cbn [disputes setDisputes].
    split; [rewrite dom_insert_L; set_solver|]. split.
    + intros i d Hi. rewrite lookup_insert_ne; [done|]. intros <-. apply Hd. by eexists.
    + intros i d [[<- <-]|[_ Hi]]%lookup_insert_Some; [right|by left].
      split; [by rewrite Hv1|]. split; [by rewrite Hv1|]. split; [done|]. split; [by rewrite Hv2|done].
Qed.

Lemma evolves_same c r c' r' :
  evolves c r c' r' ->
  acquired c' = acquired c /\ currPeerPositions c' = currPeerPositions c /\ txns r' = txns r /\
  ourPosition r' = ourPosition r.
Proof.
  intros (E1 & _ & E2).
  exact (conj (f_equal acquired E1) (conj (f_equal currPeerPositions E1)
    (conj (f_equal txns E2) (f_equal ourPosition E2)))).
Qed.

Lemma dispute_ok_pending acq peers pending s t d :
  dispute_ok acq peers ∅ s t d -> dispute_ok acq peers pending s t d.
Proof.
  intros (H1 & H2 & H3 & H4 & H5 & H6). repeat (split; [done|]). intros n p x _. apply H6. set_solver.
Qed.

(** The differences processed so far are in dispute. *)
Definition disputedUpTo (c : Consensus) (pending : gset Z) (r : Result) (o : TxSet)
    (done_ : list (Z * bool)) (c' : Consensus) : Prop :=
  exists r', evolves c r c' r' /\ compares r' = compares r /\
    (forall t b, (t, b) ∈ done_ -> t ∈ dom (disputes r')) /\
    (forall i d, disputes r !! i = Some d -> disputes r' !! i = Some d) /\
    (forall i d, disputes r' !! i = Some d ->
       dispute_ok (acquired c) (currPeerPositions c) pending (txns r) i d).

Lemma createDisputes_fold c r o pending :
  result c = Some r -> keyed (txns r) -> keyed o ->
  (forall i d, disputes r !! i = Some d ->
     dispute_ok (acquired c) (currPeerPositions c) pending (txns r) i d) ->
  disputedUpTo c pending r o (txCompare (txns r) o)
    (foldl (createDispute o) c (txCompare (txns r) o)).
Proof.
  intros Hr Hk Ho Hd. apply (foldl_prefix (disputedUpTo c pending r o)).
  - intros pre [t b] c1 Hin (r1 & Hev & Hc & Hp & Hold & Hok).
    destruct (evolves_same _ _ _ _ Hev) as (Ea & Ep & Et & _).
    destruct (createDispute_ok o c1 r1 t b) as (r2 & Hev2 & Hc2 & Ht2 & Hold2 & Hok2); try done;
      [apply Hev|by rewrite Et|by rewrite Et|].
    exists r2. split; [by eapply evolves_trans|]. split; [congruence|]. split; [|split].
    + intros t' b' [Hin'|Hin']%elem_of_app.
      * apply elem_of_dom. specialize (Hp t' b' Hin'). apply elem_of_dom in Hp as [d Hd']. exists d. by apply Hold2.
      * apply list_elem_of_singleton in Hin' as [= -> ->]. done.
    + intros i d Hi. by apply Hold2, Hold.
    + intros i d Hi. destruct (Hok2 i d Hi) as [Hi1|Hi1]; [by apply Hok|].
      apply dispute_ok_pending. by rewrite Ea, Ep, Et in Hi1.
  - exists r. split; [done|]. split; [done|]. split; [by intros t b ?%elem_of_nil|done].
Qed.

Lemma createDisputes_ok c r o pending unc :
  result c = Some r -> result_ok (acquired c) (currPeerPositions c) pending unc r ->
  acquired c !! txSetID o = Some o -> keyed o ->
  exists r', evolves c r (createDisputes c o) r' /\
    result_ok (acquired c) (currPeerPositions c) pending unc r' /\
    txSetID o ∈ compares r' /\ compares r ⊆ compares r'.
Proof.
  intros Hr Hok Ha Ho. unfold createDisputes. rewrite Hr. case_bool_decide as Hin.
  { exists r. split; [done|]. split; [done|]. split; done. }
  set (r1 := setCompares r ({[txSetID o]} ∪ compares r)).
  set (c1 := set_result (Some r1) c).
  assert (Hdone : forall c' r', evolves c r c' r' -> compares r' = {[txSetID o]} ∪ compares r ->
    (forall t, txExists (txns r) t <> txExists o t ->
       t ∈ dom (disputes r') \/ 65536 <= Z.of_nat (size (disputes r'))) ->
    dom (disputes r) ⊆ dom (disputes r') ->
    (forall i d, disputes r' !! i = Some d ->
       dispute_ok (acquired c) (currPeerPositions c) pending (txns r) i d) ->
    exists r', evolves c r c' r' /\
      result_ok (acquired c) (currPeerPositions c) pending unc r' /\
      txSetID o ∈ compares r' /\ compares r ⊆ compares r').
  { intros c' r' Hev Hc Hdiff Hdom Hd. exists r'. split; [done|]. rewrite Hc.
    destruct (evolves_same _ _ _ _ Hev) as (_ & _ & Et & Eo). destruct Hok as [H1 H2 H3 H4 H5 H6].
    split; [|set_solver]. constructor; rewrite ?Et, ?Eo, ?Hc; try done.
    - intros i x t [Hi|Hi]%elem_of_union Hx Hne.
      + apply elem_of_singleton in Hi as ->. apply Hdiff. congruence.
      + destruct (H4 i x t Hi Hx Hne) as [Ht|Hmany]; [left; by apply Hdom|right].
        apply subseteq_size in Hdom. rewrite !size_dom in Hdom. lia.
    - intros n p Hn Hp Hs. specialize (H5 n p Hn Hp Hs). set_solver.
    - intros i [Hi|Hi]%elem_of_union; [|by apply H6].
      apply elem_of_singleton in Hi as ->. by eapply elem_of_dom_2. }
  change (txns r) with (txns r1) at 1 2. destruct (Z.eqb_spec (txSetID (txns r1)) (txSetID o)) as [E|E].
  - apply distinct in E; [|apply Hok|done]. apply (Hdone c1 r1); try done; [|apply Hok].
    intros t Hne. destruct Hne. by rewrite <-E.
  - destruct (createDisputes_fold c1 r1 o pending) as (r2 & Hev & Hc & Hp & Hold & Hd2); try done;
      [apply Hok|apply Hok|].
    apply (Hdone _ r2); try done.
    + intros t Hne. destruct (txCompare_spec (txns r) o) as (_ & [Hall|Hmany] & Hnd).
      * left. by apply (Hp t (txExists (txns r) t)), Hall.
      * right. rewrite <-Hmany. apply inj_le. rewrite <-(length_fmap fst), <-(size_list_to_set (C := gset Z) _ Hnd).
        rewrite <-size_dom. apply subseteq_size. intros i Hi%elem_of_list_to_set.
        apply list_elem_of_fmap in Hi as ([j b] & -> & Hj). by eapply Hp.
    + intros i [d Hi]%elem_of_dom. apply elem_of_dom. exists d. by apply Hold.
Qed.

(** Recording a peer's votes. *)
Lemma voteAll_ok acq peers pending unc r node p other :
  result_ok acq peers pending unc r -> peers !! node = Some p -> position p = txSetID other ->
  acq !! txSetID other = Some other -> txSetID other ∈ compares r ->
  result_ok acq peers (pending ∖ {[node]}) (unc ∖ {[node]}) (setDisputes r (voteAll node other (disputes r)).2).
Proof.
  intros [H1 H2 H3 H4 H5 H6] Hp Hpos Ha Hc. constructor; cbn; try done.
  - intros t d Hd. rewrite lookup_fmap in Hd.
    destruct (disputes r !! t) as [d0|] eqn:E; [|done]. cbn in Hd. injection Hd as <-.
    destruct (H3 t d0 E) as (Ht & Hu & Hwf & Hour & Hdom & Hv).
    pose proof (setVote_spec d0 node (txExists other (tx_id (tx d0))) Hwf) as Hs.
    destruct (setVote d0 node _) as [ch d1]. cbn. destruct Hs as (Hs1 & Hs2 & _ & Hs4 & Hs5 & _).
    split; [by rewrite Hs5|]. split; [by rewrite Hs5|]. split; [done|]. split; [by rewrite Hs4|].
    rewrite Ht in Hs2. split.
    + rewrite Hs2, dom_insert_L. apply elem_of_dom_2 in Hp. set_solver.
    + intros n q x Hn Hq Hx. rewrite Hs2. destruct (decide (n = node)) as [->|Hne].
      * rewrite lookup_insert_eq. congruence.
      * rewrite lookup_insert_ne by done. apply (Hv n q); [set_solver|done|done].
  - intros i x t Hi Hx Hne. rewrite dom_fmap_L, map_size_fmap. by eapply H4.
  - intros n q Hn Hq Hs. destruct (decide (n = node)) as [->|Hne]; [congruence|].
    apply (H5 n q); [set_solver|done|done].
Qed.

Lemma updateDisputes_ok c r node p other pending unc :
  result c = Some r -> result_ok (acquired c) (currPeerPositions c) pending unc r ->
  currPeerPositions c !! node = Some p -> position p = txSetID other ->
  acquired c !! txSetID other = Some other -> keyed other ->
  exists r', evolves c r (updateDisputes c node other) r' /\
    result_ok (acquired c) (currPeerPositions c) (pending ∖ {[node]}) (unc ∖ {[node]}) r'.
Proof.
  intros Hr Hok Hp Hpos Ha Ho. unfold updateDisputes. rewrite Hr.
  assert (Hc1 : exists r1, evolves c r
    (if bool_decide (txSetID other ∈ compares r) then c else createDisputes c other) r1 /\
    result_ok (acquired c) (currPeerPositions c) pending unc r1 /\ txSetID other ∈ compares r1).
  { case_bool_decide as Hin; [by exists r|].
    destruct (createDisputes_ok c r other pending unc) as (r1 & ? & ? & ? & _); try done. by exists r1. }
  destruct Hc1 as (r1 & Hev & Hok1 & Hin). set (c1 := if bool_decide _ then _ else _) in *.
  rewrite (proj1 (proj2 Hev)).
  pose proof (voteAll_ok _ _ _ _ _ _ _ _ Hok1 Hp Hpos Ha Hin) as Hv.
  destruct (voteAll node other (disputes r1)) as [changed ds] eqn:Ev.
  exists (setDisputes r1 ds). split; [|done].
  eapply evolves_trans; [exact Hev|]. by destruct changed.
Qed.

(** The loop over the peers with a position. *)
Lemma updatePeersAt_ok c r s pending :
  result c = Some r -> result_ok (acquired c) (currPeerPositions c) pending pending r ->
  acquired c !! txSetID s = Some s -> keyed s -> pending ⊆ dom (currPeerPositions c) ->
  (forall n p, n ∈ pending -> currPeerPositions c !! n = Some p -> position p = txSetID s) ->
  exists r', evolves c r (updatePeersAt (txSetID s) s c) r' /\
    result_ok (acquired c) (currPeerPositions c) ∅ ∅ r'.
Proof.
  intros Hr Hok Ha Hs Hsub Hpend.
  pose proof (foldl_prefix (fun pre c' => exists r', evolves c r c' r' /\
    result_ok (acquired c) (currPeerPositions c) (pending ∖ list_to_set pre.*1)
      (pending ∖ list_to_set pre.*1) r')
    (fun c '(nodeId, peerPos) => if position peerPos =? txSetID s then updateDisputes c nodeId s else c)
    (map_to_list (currPeerPositions c)) c) as Hf.
  destruct Hf as (r' & Hev & Hok').
  - intros pre [n p] c1 Hin (r1 & Hev & Hok1). apply elem_of_map_to_list in Hin.
    destruct (evolves_same _ _ _ _ Hev) as (Ea & Ep & _).
    assert (Hset : forall X : gset Z, X = pending ∖ list_to_set pre.*1 ∖ {[n]} ->
      X = pending ∖ list_to_set (pre ++ [(n, p)]).*1).
    { intros X ->. rewrite fmap_app, list_to_set_app_L. cbn. set_solver. }
    destruct (Z.eqb_spec (position p) (txSetID s)) as [E|E].
    + rewrite <-Ea, <-Ep in Hok1.
      destruct (updateDisputes_ok c1 r1 n p s _ _ (proj1 (proj2 Hev)) Hok1) as (r2 & Hev2 & Hok2);
        try done; [by rewrite Ep|by rewrite Ea|].
      exists r2. split; [by eapply evolves_trans|]. rewrite Ea, Ep in Hok2.
      by rewrite <-(Hset _ eq_refl).
    + exists r1. split; [done|]. rewrite <-(Hset (pending ∖ list_to_set pre.*1)); [done|].
      assert (n ∉ pending); [|set_solver]. intros Hn. apply E. by eapply Hpend.
  - exists r. split; [done|]. cbn. by rewrite difference_empty_L.
  - exists r'. split; [done|].
    replace (pending ∖ _) with (∅ : gset Z) in Hok'; [done|].
    symmetry. apply leibniz_equiv_iff. intros n. split; [|set_solver].
    intros [Hn1 Hn2]%elem_of_difference. destruct Hn2. apply elem_of_list_to_set.
    apply Hsub, elem_of_dom in Hn1 as [p Hp]. apply list_elem_of_fmap. exists (n, p).
    split; [done|]. by apply elem_of_map_to_list.
Qed.

End Disputes.

(** ** The consensus state machine: invariant

    The invariant of the class [Consensus] and its preservation by every member
    function: phases and results, positions of peers, disputes, and the mode. *)

#[local] Set Warnings "-clear-no-such-hyp".
#[local] Opaque txCompare.

Section Engine.
Context `{TxSetHash} (offered : Tx -> Prop) (distinct : collisionFree offered).
Abbreviation keyed := (keyed offered).
Abbreviation result_ok := (result_ok offered).

(** What the engine relies on from the adaptor: ledgers and transaction sets have the
    identifier asked for, and our first position is the identifier of our set. *)
Record adaptor_ok (a : Adaptor) : Prop := mkAdaptorOk {
  ao_ledger : forall i l, acquireLedger a i = Some l -> l_id l = i;
  ao_txset : forall i s, acquireTxSet a i = Some s -> txSetID s = i /\ keyed s;
  ao_close : forall l now m s p, onClose a l now m = (s, p) -> position p = txSetID s /\ keyed s
}.

(** ** The invariant *)

Definition peer_ok (prev n : Z) (p : ConsensusProposal) : Prop :=
  nodeID p = n /\ previousLedger p = prev /\ isBowOut p = false.

Definition phase_ok (ph : ConsensusPhase) (r : option Result) : Prop :=
  match ph with Open => r = None | Establish => is_Some r | Accepted => True end.

Record engine_inv (pending : gset Z) (c : Consensus) : Prop := mkInv {
  inv_acquired : forall i s, acquired c !! i = Some s -> txSetID s = i /\ keyed s;
  inv_peers : forall n p, currPeerPositions c !! n = Some p -> peer_ok (prevLedgerID c) n p;
  inv_dead : dom (currPeerPositions c) ## deadNodes c;
  inv_result : forall r, result c = Some r ->
    result_ok (acquired c) (currPeerPositions c) pending pending r /\
    is_Some (acquired c !! txSetID (txns r));
  inv_phase : phase_ok (phase c) (result c);
  inv_mode : mode c = Proposing -> l_id (previousLedger_ c) = prevLedgerID c;
  inv_recent : forall n l, recentPeerPositions c !! n = Some l ->
    (length l <= 10)%nat /\ Forall (fun p => nodeID p = n) l
}.

Abbreviation engine_ok := (engine_inv ∅).

(** The members the invariant is about. *)
Definition relevant (c : Consensus) :=
  (acquired c, currPeerPositions c, prevLedgerID c, deadNodes c, result c, phase c, mode c,
   previousLedger_ c, recentPeerPositions c).

Lemma engine_inv_eq pending c c' :
  relevant c' = relevant c -> engine_inv pending c -> engine_inv pending c'.
Proof.
  unfold relevant. intros E [H1 H2 H3 H4 H5 H6 H7].
  injection E as E1 E2 E3 E4 E5 E6 E7 E8 E9.
  constructor; rewrite ?E1, ?E2, ?E3, ?E4, ?E5, ?E6, ?E7, ?E8, ?E9; done.
Qed.

(** A step in the disputes. *)
Lemma engine_evolves pending pending' c r c' r' :
  engine_inv pending c -> result c = Some r -> evolves c r c' r' ->
  result_ok (acquired c) (currPeerPositions c) pending' pending' r' -> engine_inv pending' c'.
Proof.
  intros [H1 H2 H3 H4 H5 H6 H7] Hr (E & Hr' & Ec) Hok.
  assert (Ea : acquired c' = acquired c) by exact (f_equal acquired E).
  assert (Ep : currPeerPositions c' = currPeerPositions c) by exact (f_equal currPeerPositions E).
  assert (El : prevLedgerID c' = prevLedgerID c) by exact (f_equal prevLedgerID E).
  assert (Ed : deadNodes c' = deadNodes c) by exact (f_equal deadNodes E).
  assert (Eph : phase c' = phase c) by exact (f_equal phase E).
  assert (Em : mode c' = mode c) by exact (f_equal mode E).
  assert (Elg : previousLedger_ c' = previousLedger_ c) by exact (f_equal previousLedger_ E).
  assert (Er : recentPeerPositions c' = recentPeerPositions c) by exact (f_equal recentPeerPositions E).
  assert (Et : txns r' = txns r) by exact (f_equal txns Ec).
  constructor; rewrite ?Ea, ?Ep, ?El, ?Ed, ?Eph, ?Em, ?Elg, ?Er; try done.
  - intros r0 Hr0. rewrite Hr' in Hr0. injection Hr0 as <-. split; [done|]. rewrite Et. by apply H4.
  - unfold phase_ok in *. rewrite Hr', Hr in *. by destruct (phase c).
Qed.

(** ** Transaction sets *)

(** A new set makes the votes of the peers at its identifier pending. *)
Lemma result_ok_acquire acq peers r s :
  result_ok acq peers ∅ ∅ r -> acq !! txSetID s = None ->
  let pending := dom (filter (fun e => position e.2 = txSetID s) peers) in
  result_ok (<[txSetID s := s]> acq) peers pending pending r.
Proof.
  intros [H1 H2 H3 H4 H5 H6] Hn pending.
  assert (Hpos : forall n p, n ∉ pending -> peers !! n = Some p -> position p <> txSetID s).
  { intros n p Hnp Hp E. apply Hnp. apply elem_of_dom. exists p. by apply map_lookup_filter_Some. }
  constructor; try done.
  - intros t d Hd. destruct (H3 t d Hd) as (D1 & D2 & D3 & D4 & D5 & D6).
    repeat (split; [done|]). intros n p x Hnp Hp Hx.
    rewrite lookup_insert_ne in Hx by (intros E; by apply (Hpos n p)).
    apply (D6 n p); [set_solver|done|done].
  - intros i x t Hi Hx Hne. rewrite lookup_insert_ne in Hx; [by eapply H4|].
    intros <-. apply H6, elem_of_dom in Hi as [? Hi]. congruence.
  - intros n p Hnp Hp Hs. rewrite lookup_insert_ne in Hs by (intros E; by apply (Hpos n p)).
    apply (H5 n p); [set_solver|done|done].
  - rewrite dom_insert_L. set_solver.
Qed.

(** Taking in a set under its identifier and bringing the peers' votes up to date. *)
Lemma acquire_ok c s :
  engine_ok c -> keyed s -> acquired c !! txSetID s = None ->
  engine_ok (match result c with
             | None => set_acquired (<[txSetID s := s]> (acquired c)) c
             | Some _ => updatePeersAt (txSetID s) s (set_acquired (<[txSetID s := s]> (acquired c)) c)
             end).
Proof.
  intros Hc Hs Hn. set (c1 := set_acquired _ c).
  set (pending := dom (filter (fun e => position e.2 = txSetID s) (currPeerPositions c))).
  assert (Hc1 : engine_inv pending c1).
  { destruct Hc as [H1 H2 H3 H4 H5 H6 H7]. constructor; cbn; try done.
    - intros i x [[<- <-]|[_ Hx]]%lookup_insert_Some; [done|by apply H1].
    - intros r Hr. destruct (H4 r Hr) as [Hr1 [y Hy]].
      split; [by apply result_ok_acquire|]. destruct (decide (txSetID s = txSetID (txns r))) as [->|].
      + by rewrite lookup_insert_eq.
      + rewrite lookup_insert_ne by done. by exists y. }
  destruct (result c) as [r|] eqn:Er.
  - destruct (inv_result _ _ Hc1 r Er) as [Hr _].
    destruct (updatePeersAt_ok offered distinct c1 r s pending) as (r' & Hev & Hok); try done.
    + cbn. by rewrite lookup_insert_eq.
    + intros n [p Hp]%elem_of_dom. apply map_lookup_filter_Some in Hp as [Hp _]. by apply elem_of_dom.
    + intros n p [q Hq]%elem_of_dom Hp. apply map_lookup_filter_Some in Hq as [Hq Hpos].
      change (currPeerPositions c !! n = Some p) in Hp. cbn in Hpos. congruence.
    + by apply (engine_evolves pending ∅ c1 r _ r').
  - destruct Hc1 as [H1 H2 H3 H4 H5 H6 H7]. constructor; try done.
    intros r Hr. cbn in Hr. congruence.
Qed.

Lemma gotTxSet_ok c now s : engine_ok c -> keyed s -> engine_ok (gotTxSet c now s).
Proof.
  intros Hc Hs. unfold gotTxSet. case_bool_decide; [done|].
  assert (Hc1 : engine_ok (set_now now c)) by by apply (engine_inv_eq ∅ c).
  case_bool_decide as Ha; [done|].
  pose proof (acquire_ok (set_now now c) s Hc1 Hs) as Hok. cbn in Hok |- *.
  destruct (result c); apply Hok; by apply eq_None_not_Some.
Qed.

(** ** Positions of peers *)

(** Withdrawing a peer. *)
Lemma result_ok_unvote acq peers r n :
  result_ok acq peers ∅ ∅ r ->
  result_ok acq (delete n peers) ∅ ∅ (setDisputes r ((fun d => unVote d n) <$> disputes r)).
Proof.
  intros [H1 H2 H3 H4 H5 H6]. constructor; cbn; try done.
  - intros t d Hd. rewrite lookup_fmap in Hd. destruct (disputes r !! t) as [d0|] eqn:E; [|done].
    cbn in Hd. injection Hd as <-. destruct (H3 t d0 E) as (D1 & D2 & D3 & D4 & D5 & D6).
    destruct (unVote_spec d0 n D3) as (U1 & U2 & U3 & U4).
    split; [by rewrite U4|]. split; [by rewrite U4|]. split; [done|]. split; [by rewrite U3|].
    split; rewrite U2.
    + rewrite !dom_delete_L. set_solver.
    + intros m p x _ [Hne Hp]%lookup_delete_Some Hx. rewrite lookup_delete_ne by done.
      apply (D6 m p); [set_solver|done|done].
  - intros i x t Hi Hx Hne. rewrite dom_fmap_L, map_size_fmap. by eapply H4.
  - intros m p _ [_ Hp]%lookup_delete_Some. intros Hs. apply (H5 m p); [set_solver|done|done].
Qed.

Lemma withdraw_ok c n :
  engine_ok c ->
  engine_ok (set_currPeerPositions (delete n (currPeerPositions (unVoteAll n c))) (unVoteAll n c)).
Proof.
  intros [H1 H2 H3 H4 H5 H6 H7].
  assert (Hd : forall m p, delete n (currPeerPositions c) !! m = Some p -> peer_ok (prevLedgerID c) m p).
  { intros m p [_ Hp]%lookup_delete_Some. by apply H2. }
  assert (Hdis : dom (delete n (currPeerPositions c)) ## deadNodes c) by (rewrite dom_delete_L; set_solver).
  unfold unVoteAll. destruct (result c) as [r|] eqn:Er.
  - constructor; cbn; try done.
    + intros r' [= <-]. destruct (H4 r eq_refl) as [Hr Ha]. split; [by apply result_ok_unvote|done].
    + unfold phase_ok in *. by destruct (phase c).
  - constructor; cbn; try done; [|by rewrite Er]. intros r' Hr'. congruence.
Qed.

(** A new position makes the peer's votes pending if we have the set. *)
Lemma result_ok_position acq peers r n p :
  result_ok acq peers ∅ ∅ r ->
  let pending := if acq !! position p is Some _ then {[n]} else ∅ in
  result_ok acq (<[n := p]> peers) pending pending r.
Proof.
  intros [H1 H2 H3 H4 H5 H6] pending.
  assert (Hold : forall m q, m ∉ pending -> <[n := p]> peers !! m = Some q ->
    is_Some (acq !! position q) -> peers !! m = Some q).
  { intros m q Hm [[<- <-]|[_ Hq]]%lookup_insert_Some Hs; [|done]. exfalso.
    unfold pending in Hm. destruct Hs as [x Hx]. rewrite Hx in Hm. set_solver. }
  constructor; try done.
  - intros t d Hd. destruct (H3 t d Hd) as (D1 & D2 & D3 & D4 & D5 & D6).
    repeat (split; [done|]). split.
    + rewrite dom_insert_L. set_solver.
    + intros m q x Hm Hq Hx. apply (D6 m q); [set_solver|by apply Hold|done].
  - intros m q Hm Hq Hs. apply (H5 m q); [set_solver|by apply Hold|done].
Qed.

Lemma positionSet_ok a c p :
  adaptor_ok a -> engine_inv (if acquired c !! position p is Some _ then {[nodeID p]} else ∅) c ->
  currPeerPositions c !! nodeID p = Some p -> engine_ok (positionSet a c p).
Proof.
  intros Ha Hc Hp. unfold positionSet. destruct (acquired c !! position p) as [s|] eqn:Es.
  - destruct (inv_acquired _ _ Hc _ _ Es) as [Hid Hk].
    destruct (result c) as [r|] eqn:Er.
    + destruct (inv_result _ _ Hc r Er) as [Hr _].
      destruct (updateDisputes_ok offered distinct c r (nodeID p) p s _ _ Er Hr Hp) as (r' & Hev & Hok);
        try done; [by rewrite Hid|].
      rewrite difference_diag_L in Hok. by apply (engine_evolves _ ∅ c r _ r' Hc).
    + destruct Hc as [H1 H2 H3 H4 H5 H6 H7]. constructor; try done. intros r Hr. congruence.
  - destruct (acquireTxSet a (position p)) as [s|] eqn:Ea; [|done].
    apply gotTxSet_ok; [done|]. by eapply ao_txset.
Qed.

Lemma peerProposalInternal_ok a c now p :
  adaptor_ok a -> engine_ok c -> engine_ok (snd (peerProposalInternal a c now p)).
Proof.
  intros Ha Hc. unfold peerProposalInternal. case_bool_decide as Hph; [done|].
  assert (Hc1 : engine_ok (set_now now c)) by by apply (engine_inv_eq ∅ c). set (c1 := set_now now c) in *.
  destruct (Z.eqb_spec (previousLedger p) (prevLedgerID c1)) as [Hprev|]; [cbn [negb]|done].
  case_bool_decide as Hdead; [done|]. destruct (match _ with Some _ => _ | None => _ end); [done|].
  destruct (isBowOut p) eqn:Eb; cbn [snd].
  - pose proof (withdraw_ok c1 (nodeID p) Hc1) as [H1 H2 H3 H4 H5 H6 H7].
    constructor; cbn; try done. cbn in H3. rewrite dom_delete_L in H3 |- *.
    assert (deadNodes (unVoteAll (nodeID p) c1) = deadNodes c1) as E by (unfold unVoteAll; by destruct (result c1)).
    rewrite E in H3 |- *. set_solver.
  - set (c2 := set_currPeerPositions _ c1).
    assert (Hc2 : engine_inv (if acquired c1 !! position p is Some _ then {[nodeID p]} else ∅) c2).
    { destruct Hc1 as [H1 H2 H3 H4 H5 H6 H7]. constructor; cbn; try done.
      - intros m q [[<- <-]|[_ Hq]]%lookup_insert_Some; [done|by apply H2].
      - rewrite dom_insert_L. set_solver.
      - intros r Hr. destruct (H4 r Hr) as [Hr1 Hr2]. split; [by apply result_ok_position|done]. }
    destruct (isInitial p); apply positionSet_ok; try done; try (cbn; by rewrite lookup_insert_eq).
    by apply (engine_inv_eq _ c2).
Qed.

(** The queue of recent positions. *)
Lemma pushRecent_ok (props : list ConsensusProposal) p n :
  (length props <= 10)%nat -> Forall (fun q => nodeID q = n) props -> nodeID p = n ->
  let props' := (if (10 <=? length props)%nat then tail props else props) ++ [p] in
  (length props' <= 10)%nat /\ Forall (fun q => nodeID q = n) props'.
Proof.
  intros Hlen Hall Hp. cbv zeta. rewrite length_app, Forall_app.
  destruct (Nat.leb_spec 10 (length props)) as [Hle|Hle].
  - destruct props as [|q props]; cbn in *; [lia|]. apply Forall_cons in Hall as [_ Hall].
    split; [lia|]. split; [done|by constructor].
  - cbn. split; [lia|]. split; [done|by constructor].
Qed.

Lemma peerProposal_ok a c now p :
  adaptor_ok a -> engine_ok c -> engine_ok (snd (peerProposal a c now p)).
Proof.
  intros Ha [H1 H2 H3 H4 H5 H6 H7]. unfold peerProposal. apply peerProposalInternal_ok; [done|].
  constructor; try done. intros n l. cbn [recentPeerPositions set_recentPeerPositions].
  intros [[<- <-]|[_ Hl]]%lookup_insert_Some; [|by apply H7].
  destruct (recentPeerPositions c !! nodeID p) eqn:E.
  - destruct (H7 _ _ E). by apply pushRecent_ok.
  - by apply (pushRecent_ok []); [cbn; lia|constructor|].
Qed.

Lemma playbackProposals_ok a c : adaptor_ok a -> engine_ok c -> engine_ok (playbackProposals a c).
Proof.
  intros Ha Hc. unfold playbackProposals. apply foldl_ind_in; [|done]. intros c1 e Hc1 _.
  apply foldl_ind_in; [|done]. intros c2 p Hc2 _. unfold playbackOne. destruct (_ =? _); [|done].
  pose proof (peerProposalInternal_ok a c2 (now_ c2) p Ha Hc2) as Hp.
  destruct (peerProposalInternal a c2 (now_ c2) p) as [[] c3]; [|done].
  by apply (engine_inv_eq ∅ c3).
Qed.

(** ** Leaving and closing *)

(** Our own proposal may change as long as it names our set. *)
Lemma result_ok_proposal acq peers pv pc r p :
  result_ok acq peers pv pc r -> position p = position (ourPosition r) ->
  result_ok acq peers pv pc (setPosition r (txns r) p).
Proof. intros [H1 H2 H3 H4 H5 H6] Hp. constructor; cbn; try done. by rewrite Hp. Qed.

Lemma set_result_ok c r r' :
  engine_ok c -> result c = Some r -> result_ok (acquired c) (currPeerPositions c) ∅ ∅ r' ->
  txns r' = txns r -> engine_ok (set_result (Some r') c).
Proof.
  intros [H1 H2 H3 H4 H5 H6 H7] Hr Hok Et. constructor; cbn; try done.
  - intros r0 [= <-]. split; [done|]. rewrite Et. by apply H4.
  - unfold phase_ok in *. rewrite Hr in H5. by destruct (phase c).
Qed.

Lemma setMode_ok m c : engine_ok c -> m <> Proposing -> engine_ok (setMode m c).
Proof. intros [H1 H2 H3 H4 H5 H6 H7] Hm. by constructor. Qed.

Lemma leaveConsensus_ok c : engine_ok c -> engine_ok (leaveConsensus c).
Proof.
  intros Hc. unfold leaveConsensus. case_bool_decide; [|done]. apply setMode_ok; [|done].
  destruct (result c) as [r|] eqn:Er; [|done]. destruct (negb _); [|done].
  apply (engine_inv_eq ∅ (set_result (Some (setPosition r (txns r) (bowOut (ourPosition r) (now_ c)))) c)); [done|].
  apply (set_result_ok c r); try done. apply result_ok_proposal; [|done]. by apply Hc.
Qed.

(** A fresh result has nothing to dispute; all sets are still to be compared. *)
Lemma result_ok_new acq peers s p timer n :
  keyed s -> position p = txSetID s ->
  result_ok acq peers ∅ (dom peers) (setRound (newResult s p) timer n).
Proof.
  intros Hk Hp. constructor; cbn; try done.
  - intros m q Hm Hq. destruct Hm. by eapply elem_of_dom_2.
Qed.

(** The loop of [closeLedger] over the positions of the peers. *)
Lemma compareAll_ok c r :
  result c = Some r ->
  (forall i s, acquired c !! i = Some s -> txSetID s = i /\ keyed s) ->
  result_ok (acquired c) (currPeerPositions c) ∅ (dom (currPeerPositions c)) r ->
  exists r', evolves c r
    (foldl (fun c e => match acquired c !! position (snd e) with
                       | Some s => createDisputes c s
                       | None => c
                       end) c (map_to_list (currPeerPositions c))) r' /\
    result_ok (acquired c) (currPeerPositions c) ∅ ∅ r'.
Proof.
  intros Hr Hacq Hok.
  pose proof (foldl_prefix (fun pre c' => exists r', evolves c r c' r' /\
    result_ok (acquired c) (currPeerPositions c) ∅
      (dom (currPeerPositions c) ∖ list_to_set pre.*1) r')
    (fun c e => match acquired c !! position (snd e) with
                | Some s => createDisputes c s
                | None => c
                end) (map_to_list (currPeerPositions c)) c) as Hf.
  destruct Hf as (r' & Hev & Hok').
  - intros pre [n p] c1 Hin (r1 & Hev & Hok1). apply elem_of_map_to_list in Hin.
    destruct (evolves_same _ _ _ _ Hev) as (Ea & Ep & _). cbn [snd].
    rewrite fmap_app, list_to_set_app_L. cbn. rewrite Ea. destruct (acquired c !! position p) as [s|] eqn:Es.
    + destruct (Hacq _ _ Es) as [Hid Hk].
      destruct (createDisputes_ok offered distinct c1 r1 s ∅ (dom (currPeerPositions c) ∖ list_to_set pre.*1))
        as (r2 & Hev2 & Hok2 & Hin2 & _); try done.
      { apply Hev. }
      { by rewrite Ea, Ep. }
      { by rewrite Ea, Hid. }
      exists r2. split; [by eapply evolves_trans|]. rewrite Ea, Ep in Hok2.
      destruct Hok2 as [H1 H2 H3 H4 H5 H6]. constructor; try done.
      intros m q Hm Hq Hs. destruct (decide (m = n)) as [->|Hne].
      * rewrite Hin in Hq. injection Hq as <-. by rewrite <-Hid.
      * apply (H5 m q); [set_solver|done|done].
    + exists r1. split; [done|]. destruct Hok1 as [H1 H2 H3 H4 H5 H6]. constructor; try done.
      intros m q Hm Hq Hs. destruct (decide (m = n)) as [->|Hne].
      * rewrite Hin in Hq. injection Hq as <-. rewrite Es in Hs. by destruct Hs.
      * apply (H5 m q); [set_solver|done|done].
  - exists r. split; [done|]. cbn. by rewrite difference_empty_L.
  - exists r'. split; [done|].
    replace (dom (currPeerPositions c) ∖ _) with (∅ : gset Z) in Hok'; [done|].
    symmetry. apply leibniz_equiv_iff. intros n. split; [|set_solver].
    intros [Hn1 Hn2]%elem_of_difference. destruct Hn2. apply elem_of_list_to_set.
    apply elem_of_dom in Hn1 as [p Hp]. apply list_elem_of_fmap. exists (n, p).
    split; [done|]. by apply elem_of_map_to_list.
Qed.

Lemma closeLedger_ok a c :
  adaptor_ok a -> engine_ok c -> result c = None -> engine_ok (closeLedger a c).
Proof.
  intros Ha [H1 H2 H3 H4 H5 H6 H7] Hr. unfold closeLedger.
  cbn [previousLedger_ now_ mode set_peerUnchangedCounter set_establishCounter set_rawCloseTimes set_phase].
  destruct (onClose a (previousLedger_ c) (now_ c) (mode c)) as [s p] eqn:Ec.
  destruct (ao_close a Ha _ _ _ _ _ Ec) as [Hp Hk].
  set (r := setRound (newResult s p) _ _). set (c1 := set_result (Some r) _).
  set (c2 := if bool_decide (is_Some (acquired c1 !! txSetID (txns r))) then c1 else _).
  set (c3 := if bool_decide (mode c2 = Proposing) then _ else c2).
  assert (Hacq : forall i x, acquired c3 !! i = Some x -> txSetID x = i /\ keyed x).
  { assert (E : acquired c3 = acquired c2) by (unfold c3; by case_bool_decide). rewrite E.
    unfold c2. case_bool_decide; [exact H1|]. cbn.
    intros i x [[<- <-]|[_ Hx]]%lookup_insert_Some; [done|by apply H1]. }
  assert (Hrel : acquired c3 !! txSetID s <> None /\ currPeerPositions c3 = currPeerPositions c /\
    prevLedgerID c3 = prevLedgerID c /\ deadNodes c3 = deadNodes c /\ result c3 = Some r /\
    phase c3 = Establish /\ mode c3 = mode c /\ previousLedger_ c3 = previousLedger_ c /\
    recentPeerPositions c3 = recentPeerPositions c).
  { assert (Hc2 : acquired c2 !! txSetID s <> None /\ relevant c2 = (acquired c2, currPeerPositions c,
      prevLedgerID c, deadNodes c, Some r, Establish, mode c, previousLedger_ c, recentPeerPositions c)).
    { unfold c2. case_bool_decide as E.
      - split; [|done]. by apply not_eq_None_Some.
      - split; [|done]. cbn. by rewrite lookup_insert_eq. }
    destruct Hc2 as [Hc2 E]. unfold relevant in E. injection E as E1 E2 E3 E4 E5 E6 E7 E8.
    unfold c3. case_bool_decide; cbn; done. }
  destruct Hrel as (Hs & Ep & El & Ed & Er & Eph & Em & Elg & Erc).
  destruct (compareAll_ok c3 r Er Hacq) as (r' & Hev & Hok).
  { by apply result_ok_new. }
  eapply (engine_evolves (dom (currPeerPositions c3)) ∅ c3 r); [|done|exact Hev|done].
  constructor; rewrite ?Ep, ?El, ?Ed, ?Er, ?Eph, ?Em, ?Elg, ?Erc; try done; [|by eexists].
  intros r0 [= <-]. split.
  - pose proof (result_ok_new (acquired c3) (currPeerPositions c) s p
      (resetTimer (roundTime (newResult s p)) (clockNow a)) (proposers (newResult s p)) Hk Hp) as [N1 N2 N3 N4 N5 N6].
    constructor; done.
  - cbn. destruct (acquired c3 !! txSetID s); [by eexists|done].
Qed.

End Engine.
