(* ===== verification/EngineRounds.v ===== *)
(** * The consensus state machine: establishing and rounds

    Preservation of the engine's invariant by the establish phase ([updateOurPositions],
    [haveConsensus], [phaseEstablish]) and by the members that start rounds and switch
    ledgers. *)
From S2P Require Import Prelude Parms Timing Decisions Disputed Proposal EngineState Engine EngineFacts Pause.

#[local] Set Warnings "-clear-no-such-hyp".
#[local] Opaque txCompare.

Section Rounds.
Context `{TxSetHash} (offered : Tx -> Prop) (distinct : collisionFree offered).
Abbreviation keyed := (keyed offered).
Abbreviation result_ok := (result_ok offered).
Abbreviation engine_ok := (engine_inv offered ∅).
Abbreviation adaptor_ok := (adaptor_ok offered).

(** ** Stale peers *)

Lemma freshPeers_ok a c : engine_ok c -> engine_ok (freshPeers a c).1.
Proof.
  intros Hc. unfold freshPeers. apply (foldl_ind_in (fun acc => engine_ok acc.1)); [|done].
  intros [c1 votes] [n p] Hc1 Hin. apply elem_of_map_to_list in Hin. cbn in *.
  destruct (inv_peers _ _ _ Hc n p Hin) as (Hn & _).
  destruct (isStale p _); cbn; [|done]. rewrite Hn. by apply withdraw_ok.
Qed.

(** ** Our votes *)

(** The loop over the disputes: the disputes with their updated votes, and a set
    that has a disputed transaction exactly when we now vote for it. *)
Definition revotedUpTo (a : Adaptor) (proposing : bool) (percent : Z) (r : Result)
    (pre : list (Z * DisputedTx)) (acc : gmap Z DisputedTx * option TxSet) : Prop :=
  let s := default (txns r) acc.2 in
  (forall t, acc.1 !! t =
     if decide (t ∈ pre.*1)
     then (fun d => (updateVote d percent proposing (parms a)).2) <$> (disputes r !! t)
     else disputes r !! t) /\
  keyed s /\
  (forall t d, t ∈ pre.*1 -> disputes r !! t = Some d ->
     txExists s t = ourVote (updateVote d percent proposing (parms a)).2) /\
  (forall t, t ∉ pre.*1 -> txExists s t = txExists (txns r) t).

Lemma updateVote_same d percent proposing p :
  (updateVote d percent proposing p).1 = false ->
  ourVote (updateVote d percent proposing p).2 = ourVote d.
Proof.
  intros Hf. destruct (updateVote_reports d percent proposing p) as [_ Hr].
  destruct (ourVote (updateVote d percent proposing p).2), (ourVote d); try done;
    rewrite Hf in Hr; by discriminate Hr.
Qed.

Lemma txInsert_keyed s x : keyed s -> offered x -> keyed (txInsert s x).
Proof.
  intros Hs Hx. unfold txInsert. destruct (txExists s _); [done|].
  intros t y [[<- <-]|[_ Hy]]%lookup_insert_Some; [done|by apply Hs].
Qed.

Lemma txErase_keyed s t : keyed s -> keyed (txErase s t).
Proof. unfold txErase. intros Hs i y [_ Hy]%lookup_delete_Some. by apply Hs. Qed.

Lemma revoteAll_ok a proposing percent r acq peers :
  result_ok acq peers ∅ ∅ r ->
  revotedUpTo a proposing percent r (map_to_list (disputes r)) (revoteAll a proposing percent r).
Proof.
  intros Hr. apply (foldl_split (revotedUpTo a proposing percent r)).
  2: { split; [|split; [|split]].
       - intros t. cbn. destruct (decide _) as [Hin|]; [by apply elem_of_nil in Hin|done].
       - apply Hr.
       - intros t d Hin. by apply elem_of_nil in Hin.
       - done. }
  intros pre [t d] post [ds m] Hl (Hds & Hk & Hin & Hout). cbn [fst snd] in *.
  assert (Hd : disputes r !! t = Some d).
  { apply elem_of_map_to_list. rewrite Hl. apply elem_of_app. right. apply list_elem_of_here. }
  assert (Hfresh : t ∉ pre.*1).
  { pose proof (NoDup_fst_map_to_list (disputes r)) as Hnd. rewrite Hl, fmap_app, fmap_cons in Hnd.
    apply NoDup_app in Hnd as (_ & Hnd & _). intros Ht. apply (Hnd t Ht). apply list_elem_of_here. }
  destruct (res_disputes _ _ _ _ _ _ Hr t d Hd) as (Hid & Hu & _ & Hour & _).
  unfold revote. cbn [fst snd].
  destruct (updateVote d percent proposing (parms a)) as [changed d'] eqn:Eu.
  assert (Hd' : (updateVote d percent proposing (parms a)).2 = d') by by rewrite Eu.
  pose proof (updateVote_votes d percent proposing (parms a)) as (_ & _ & _ & Htx). rewrite Hd' in Htx.
  set (s := default (txns r) m) in *.
  (* the new set *)
  assert (Hs : exists s', default (txns r)
      (if changed then Some (if ourVote d' then txInsert s (tx d') else txErase s t) else m) = s' /\
    keyed s' /\ txExists s' t = ourVote d' /\ forall i, i <> t -> txExists s' i = txExists s i).
  { destruct changed.
    - eexists. split; [done|]. destruct (ourVote d') eqn:Ev; cbn.
      + split; [apply txInsert_keyed; [done|by rewrite Htx]|].
        split; [by rewrite txInsert_exists, Htx, Hid, Z.eqb_refl|].
        intros i Hi. rewrite txInsert_exists, Htx, Hid. by apply Z.eqb_neq in Hi as ->.
      + split; [by apply txErase_keyed|]. split; [by rewrite txErase_exists, Z.eqb_refl|].
        intros i Hi. rewrite txErase_exists. by apply Z.eqb_neq in Hi as ->.
    - exists s. split; [done|]. split; [done|]. split; [|done].
      rewrite (Hout t Hfresh), <-Hour, <-Hd'. symmetry. apply updateVote_same. by rewrite Eu. }
  destruct Hs as (s' & Es & Hk' & Ht' & Hi'). unfold revotedUpTo. cbn [fst snd]. rewrite Es, fmap_app.
  change ([(t, d)].*1) with [t].
  split; [|split; [done|split]].
  - intros i. destruct (decide (i = t)) as [->|Hne].
    + rewrite lookup_insert_eq, Hd. cbn. destruct (decide _) as [|Hn]; [by rewrite Hd'|].
      destruct Hn. set_solver.
    + rewrite lookup_insert_ne, Hds by done.
      destruct (decide (i ∈ pre.*1)), (decide (i ∈ pre.*1 ++ [t])); try done; exfalso; set_solver.
  - intros i di [Hi|Hi%list_elem_of_singleton]%elem_of_app Hdi.
    + rewrite Hi' by (intros ->; done). by apply Hin.
    + subst i. rewrite Ht'. congruence.
  - intros i Hi. rewrite Hi', Hout by set_solver. done.
Qed.

(** Taking our updated votes and the matching set. *)
Lemma revote_ok a proposing percent r acq peers ds m p :
  result_ok acq peers ∅ ∅ r -> revoteAll a proposing percent r = (ds, m) ->
  position p = txSetID (default (txns r) m) ->
  result_ok acq peers ∅ ∅ (setPosition (setDisputes r ds) (default (txns r) m) p).
Proof.
  intros Hr Erv Hp. pose proof (revoteAll_ok a proposing percent r acq peers Hr) as Hv.
  rewrite Erv in Hv. destruct Hv as (Hds & Hk & Hin & Hout). cbn [fst snd] in *.
  assert (Hall : forall t d, disputes r !! t = Some d -> t ∈ (map_to_list (disputes r)).*1).
  { intros t d Hd. apply list_elem_of_fmap. exists (t, d). split; [done|]. by apply elem_of_map_to_list. }
  assert (Hds' : forall t, ds !! t = (fun d => (updateVote d percent proposing (parms a)).2) <$> (disputes r !! t)).
  { intros t. rewrite Hds. destruct (decide _) as [|Hn]; [done|].
    destruct (disputes r !! t) as [d|] eqn:Ed; [|done]. destruct Hn. by eapply Hall. }
  destruct Hr as [H1 H2 H3 H4 H5 H6]. constructor; cbn; try done.
  - intros t d' Hd'. rewrite Hds' in Hd'. destruct (disputes r !! t) as [d|] eqn:Ed; [|done].
    cbn in Hd'. injection Hd' as <-. destruct (H3 t d Ed) as (D1 & D2 & D3 & D4 & D5 & D6).
    destruct (updateVote_votes d percent proposing (parms a)) as (_ & _ & Ev & Et).
    split; [by rewrite Et|]. split; [by rewrite Et|]. split; [by apply updateVote_wf|].
    split; [symmetry; apply Hin; [by eapply Hall|done]|]. unfold votesFor. by rewrite Ev.
  - assert (Eds : ds = (fun d => (updateVote d percent proposing (parms a)).2) <$> disputes r)
      by (apply map_eq; intros t; by rewrite Hds', lookup_fmap).
    intros i x t Hi Hx Hne. rewrite Eds, dom_fmap_L, map_size_fmap.
    destruct (decide (t ∈ dom (disputes r))) as [|Hn]; [by left|].
    apply (H4 i x t); [done|done|]. rewrite <-Hout; [done|].
    intros ([t' d] & -> & Hd)%list_elem_of_fmap. apply Hn, elem_of_dom. exists d. by apply elem_of_map_to_list.
Qed.

(** ** Our position *)

Lemma chooseCloseTime_relevant a r votes c t c' :
  chooseCloseTime a r votes c = (t, c') -> relevant c' = relevant c /\ now_ c' = now_ c.
Proof.
  unfold chooseCloseTime. case_bool_decide; [by intros [= _ <-]|].
  destruct (getNeededWeight _ _ _ _ _) as [w ns]. set (c1 := if ns is Some s then _ else c).
  assert (E : relevant c1 = relevant c /\ now_ c1 = now_ c) by (unfold c1; by destruct ns).
  destruct (if bool_decide (mode c1 = Proposing) then _ else _) as [vs n].
  destruct (closeTimeWalk _ _ _) as [[t' th] have]. by intros [= _ <-].
Qed.

(** The new position is taken, its set recorded and the peers already at it counted. *)
Lemma adoptPosition_ok r0 r s ct c :
  engine_ok (set_result (Some r0) c) -> keyed s ->
  (forall p, position p = txSetID s ->
     result_ok (acquired c) (currPeerPositions c) ∅ ∅ (setPosition r s p)) ->
  engine_ok (adoptPosition r s ct c).
Proof.
  intros [H1 H2 H3 _ H5 H6 H7] Hk Hok. cbn in *. unfold adoptPosition.
  set (p := changePosition _ _ _ _). set (r2 := setPosition r s p).
  assert (Hr2 : result_ok (acquired c) (currPeerPositions c) ∅ ∅ r2) by by apply Hok.
  assert (Hph : phase_ok (phase c) (Some r2)) by (unfold phase_ok in *; by destruct (phase c)).
  set (c1 := set_result (Some r2) c).
  assert (Hfin : forall c2, engine_ok c2 ->
    engine_ok (if negb (isBowOut p) && bool_decide (mode c2 = Proposing) then emit (Propose p) c2 else c2)).
  { intros c2 Hc2. destruct (_ && _); [|done]. by apply (engine_inv_eq offered ∅ c2). }
  apply Hfin. case_bool_decide as Ha.
  { constructor; cbn; try done. intros r' [= <-]. split; [done|]. exact Ha. }
  apply eq_None_not_Some in Ha. cbn in Ha. set (c2 := set_acquired _ c1).
  set (pending := dom (filter (fun e => position e.2 = txSetID s) (currPeerPositions c))).
  set (c3 := if negb (isBowOut p) then emit (ShareTxSet s) c2 else c2).
  assert (Hrel : relevant c3 = relevant c2) by (unfold c3; by destruct (negb _)).
  assert (Hc3 : engine_inv offered pending c3).
  { apply (engine_inv_eq offered pending c2); [done|]. constructor; cbn; try done.
    - intros i x [[<- <-]|[_ Hx]]%lookup_insert_Some; [done|by apply H1].
    - intros r' [= <-]. split; [by apply result_ok_acquire|]. cbn. by rewrite lookup_insert_eq. }
  assert (Er3 : result c3 = Some r2) by (unfold c3; by destruct (negb _)).
  assert (Ea3 : acquired c3 = <[txSetID s := s]> (acquired c)) by (unfold c3; by destruct (negb _)).
  assert (Ep3 : currPeerPositions c3 = currPeerPositions c) by (unfold c3; by destruct (negb _)).
  destruct (inv_result _ _ _ Hc3 r2 Er3) as [Hr3 _].
  destruct (updatePeersAt_ok offered distinct c3 r2 s pending) as (r' & Hev & Hok'); try done.
  - by rewrite Ea3, lookup_insert_eq.
  - rewrite Ep3. intros n [q Hq]%elem_of_dom. apply map_lookup_filter_Some in Hq as [Hq _].
    by apply elem_of_dom.
  - intros n q [q' Hq]%elem_of_dom Hq'. apply map_lookup_filter_Some in Hq as [Hq Hpos].
    cbn in Hpos. rewrite Ep3 in Hq'. congruence.
  - by apply (engine_evolves offered pending ∅ c3 r2 _ r').
Qed.

Lemma updateOurPositions_ok a c : engine_ok c -> engine_ok (updateOurPositions a c).
Proof.
  intros Hc. unfold updateOurPositions. pose proof (freshPeers_ok a c Hc) as Hc1.
  destruct (freshPeers a c) as [c1 votes]. cbn [fst] in Hc1.
  destruct (result c1) as [r|] eqn:Er; [|done].
  destruct (inv_result _ _ _ Hc1 r Er) as [Hr Hown].
  destruct (revoteAll a _ _ r) as [ds m] eqn:Erv.
  destruct (chooseCloseTime a _ votes _) as [ct c2] eqn:Ec.
  destruct (chooseCloseTime_relevant _ _ _ _ _ _ Ec) as [Erel _].
  unfold relevant in Erel. cbn in Erel.
  injection Erel as E1 E2 E3 E4 E5 E6 E7 E8 E9.
  assert (Hkeyed : keyed (default (txns r) m)).
  { pose proof (revoteAll_ok a (bool_decide (mode c1 = Proposing)) (convergePercent c1) r _ _ Hr) as Hv.
    rewrite Erv in Hv. apply Hv. }
  assert (Hold : engine_ok (set_result (Some r) c2)).
  { apply (engine_inv_eq offered ∅ c1); [|done]. unfold relevant. cbn. congruence. }
  assert (Hnew : forall p, position p = txSetID (default (txns r) m) ->
    result_ok (acquired c2) (currPeerPositions c2) ∅ ∅ (setPosition (setDisputes r ds) (default (txns r) m) p)).
  { intros p Hp. rewrite E1, E2. by eapply revote_ok. }
  destruct m as [s|]; cbn [default from_option id] in *; [by apply (adoptPosition_ok r)|].
  destruct (_ || _); [by apply (adoptPosition_ok r)|].
  assert (Hset : setPosition (setDisputes r ds) (txns r) (ourPosition r) = setDisputes r ds) by by destruct r.
  apply (engine_inv_eq offered ∅ (set_result (Some (setDisputes r ds)) (set_result (Some r) c2))).
  - unfold relevant. cbn. congruence.
  - apply (set_result_ok offered _ r); try done. rewrite <-Hset. apply Hnew. apply Hr.
Qed.

(** ** Consensus *)

Lemma result_ok_core acq peers pv pc r r' :
  result_ok acq peers pv pc r -> txns r' = txns r -> ourPosition r' = ourPosition r ->
  disputes r' = disputes r -> compares r' = compares r -> result_ok acq peers pv pc r'.
Proof. intros [H1 H2 H3 H4 H5 H6] E1 E2 E3 E4. constructor; by rewrite ?E1, ?E2, ?E3, ?E4. Qed.

Lemma haveConsensus_ok a c : engine_ok c -> engine_ok (haveConsensus a c).2.
Proof.
  intros Hc. unfold haveConsensus. destruct (result c) as [r|] eqn:Er; [|done].
  destruct (countAgree _ _) as [agree disagree]. set (st := checkConsensus _ _ _ _ _ _ _ _ _).
  assert (Hc1 : engine_ok (set_result (Some (setState r st)) c)).
  { apply (set_result_ok offered c r); try done. destruct (inv_result _ _ _ Hc r Er) as [Hr _].
    by apply (result_ok_core _ _ _ _ r). }
  destruct st; try done. destruct (_ <? _); [done|]. by apply leaveConsensus_ok.
Qed.

Lemma acceptLedger_ok a c : engine_ok c -> engine_ok (acceptLedger a c).
Proof.
  intros Hc. unfold acceptLedger. destruct (result c) as [r|] eqn:Er; [|done].
  destruct Hc as [H1 H2 H3 H4 H5 H6 H7]. by constructor.
Qed.

Lemma phaseEstablish_ok a c : engine_ok c -> engine_ok (phaseEstablish a c).
Proof.
  intros Hc. unfold phaseEstablish. destruct (result c) as [r|] eqn:Er; [|done].
  set (r1 := setRound r _ _). set (c1 := set_convergePercent _ _).
  assert (Hc1 : engine_ok c1).
  { apply (engine_inv_eq offered ∅ (set_result (Some r1) c)); [done|].
    apply (set_result_ok offered c r); try done. destruct (inv_result _ _ _ Hc r Er) as [Hr _].
    by apply (result_ok_core _ _ _ _ r). }
  destruct (_ <? _); [done|]. pose proof (updateOurPositions_ok a c1 Hc1) as Hc2.
  destruct (shouldPause a _); [done|]. pose proof (haveConsensus_ok a _ Hc2) as Hc3.
  destruct (haveConsensus a _) as [have c3]. destruct have; cbn in *; [|done].
  destruct (negb _); [done|]. by apply acceptLedger_ok.
Qed.

Lemma phaseOpen_ok a c : adaptor_ok a -> engine_ok c -> phase c = Open -> engine_ok (phaseOpen a c).
Proof.
  intros Ha Hc Hph. unfold phaseOpen. set (c1 := set_openTime _ c).
  assert (Hc1 : engine_ok c1) by by apply (engine_inv_eq offered ∅ c).
  destruct (shouldCloseLedger _ _ _ _ _ _ _ _ _); [|done].
  apply closeLedger_ok; try done. pose proof (inv_phase _ _ _ Hc) as Hp. by rewrite Hph in Hp.
Qed.

(** ** Rounds *)

Lemma beginRound_ok a c now prevID l m :
  adaptor_ok a -> engine_ok c -> (m = Proposing -> l_id l = prevID) ->
  engine_ok (beginRound a c now prevID l m).
Proof.
  intros Ha Hc Hm. unfold beginRound. apply playbackProposals_ok; [done|done|].
  pose proof (inv_recent _ _ _ Hc) as H7. constructor; cbn; try done.
Qed.

Lemma forgetRound_ok a id c :
  adaptor_ok a -> engine_ok c -> mode c <> Proposing -> engine_ok (forgetRound a id c).
Proof.
  intros Ha [H1 H2 H3 H4 H5 H6 H7] Hm. unfold forgetRound. apply playbackProposals_ok; [done|done|].
  change (result (set_prevLedgerID id c)) with (result c). destruct (result c) as [r|] eqn:Er.
  - constructor; cbn; try done.
    + intros r' [= <-]. destruct (H4 r eq_refl) as [[R1 R2 R3 R4 R5 R6] Hown]. split; [|done].
      by constructor.
    + unfold phase_ok in *. by destruct (phase c).
  - constructor; cbn; try done; by rewrite Er.
Qed.

Section Timer.
Context (timer : Consensus -> Z -> option Consensus).
Context (timer_ok : forall c now c', engine_ok c -> timer c now = Some c' -> engine_ok c').

Lemma startRoundInternalWith_ok a c now prevID l m c' :
  adaptor_ok a -> engine_ok c -> (m = Proposing -> l_id l = prevID) ->
  startRoundInternalWith timer a c now prevID l m = Some c' -> engine_ok c'.
Proof.
  intros Ha Hc Hm. unfold startRoundInternalWith.
  pose proof (beginRound_ok a c now prevID l m Ha Hc Hm) as Hb.
  destruct (_ <? _); [by apply timer_ok|by intros [= <-]].
Qed.

Lemma leaveConsensus_mode c : mode (leaveConsensus c) <> Proposing.
Proof. unfold leaveConsensus. by case_bool_decide. Qed.

Lemma handleWrongLedgerWith_ok a c id c' :
  adaptor_ok a -> engine_ok c -> handleWrongLedgerWith timer a c id = Some c' -> engine_ok c'.
Proof.
  intros Ha Hc. unfold handleWrongLedgerWith. pose proof (leaveConsensus_ok offered c Hc) as Hl.
  pose proof (leaveConsensus_mode c) as Hm.
  set (c1 := if prevLedgerID (leaveConsensus c) =? id then leaveConsensus c else _).
  assert (Hc1 : engine_ok c1)
    by (unfold c1; destruct (prevLedgerID (leaveConsensus c) =? id); [done|by apply forgetRound_ok]).
  clearbody c1.
  destruct (_ =? _); [by intros [= <-]|]. destruct (acquireLedger a _) as [l|].
  - by apply startRoundInternalWith_ok.
  - intros [= <-]. by apply setMode_ok.
Qed.

Lemma timerEntryWith_ok a c now c' :
  adaptor_ok a -> engine_ok c -> timerEntryWith timer a c now = Some c' -> engine_ok c'.
Proof.
  intros Ha Hc. unfold timerEntryWith. case_bool_decide; [by intros [= <-]|].
  assert (Hc1 : engine_ok (set_now now c)) by by apply (engine_inv_eq offered ∅ c).
  destruct (checkLedgerWith timer a (set_now now c)) as [c2|] eqn:Ec; [|done].
  assert (Hc2 : engine_ok c2).
  { unfold checkLedgerWith in Ec. destruct (negb _); [by eapply handleWrongLedgerWith_ok|].
    destruct (negb _); [by eapply handleWrongLedgerWith_ok|]. by injection Ec as <-. }
  intros [= <-]. destruct (phase c2) eqn:Eph; [by apply phaseOpen_ok|by apply phaseEstablish_ok|done].
Qed.
End Timer.

Lemma timerEntry_ok fuel a c now c' :
  adaptor_ok a -> engine_ok c -> timerEntry fuel a c now = Some c' -> engine_ok c'.
Proof.
  intros Ha. revert c now c'. induction fuel as [|fuel IH]; intros c now c' Hc; [done|].
  cbn. by apply timerEntryWith_ok.
Qed.

Lemma startRound_ok fuel a c now prevID l untrusted proposing c' :
  adaptor_ok a -> engine_ok c -> startRound fuel a c now prevID l untrusted proposing = Some c' ->
  engine_ok c'.
Proof.
  intros Ha Hc. unfold startRound. set (c1 := if firstRound c then _ else _).
  assert (Hc1 : engine_ok c1) by (apply (engine_inv_eq offered ∅ c); [unfold c1; by destruct (firstRound c)|done]).
  set (c2 := set_recentPeerPositions _ c1).
  assert (Hc2 : engine_ok c2).
  { destruct Hc1 as [H1 H2 H3 H4 H5 H6 H7]. constructor; try done.
    intros n ps. cbn [c2 recentPeerPositions set_recentPeerPositions].
    intros [Hn _]%map_lookup_filter_Some. by apply H7. }
  set (m0 := if proposing then Proposing else Observing). clearbody m0.
  destruct (Z.eqb_spec (l_id l) prevID) as [E|E]; cbn [negb].
  - apply startRoundInternalWith_ok; try done. intros ???. by apply timerEntry_ok.
  - destruct (acquireLedger a prevID) as [l'|] eqn:El.
    + apply startRoundInternalWith_ok; try done; [intros ???; by apply timerEntry_ok|].
      intros _. by eapply ao_ledger.
    + apply startRoundInternalWith_ok; try done. intros ???. by apply timerEntry_ok.
Qed.

Lemma simulate_ok a c now delay :
  adaptor_ok a -> engine_ok c -> phase c = Open -> engine_ok (simulate a c now delay).
Proof.
  intros Ha Hc Hph. unfold simulate.
  assert (Hc1 : engine_ok (closeLedger a (set_now now c))).
  { apply closeLedger_ok; try done; [by apply (engine_inv_eq offered ∅ c)|].
    pose proof (inv_phase _ _ _ Hc) as Hp. by rewrite Hph in Hp. }
  set (c1 := closeLedger a _) in *. destruct (result c1) as [r|] eqn:Er; [|done].
  destruct (inv_result _ _ _ Hc1 r Er) as [Hr Hown]. destruct Hc1 as [H1 H2 H3 H4 H5 H6 H7].
  constructor; cbn; try done. intros r' [= <-]. split; [|done]. by apply (result_ok_core _ _ _ _ r).
Qed.

End Rounds.

(** ** The consensus state machine: what each operation leaves alone

    The operations on peer positions and disputes stay within the round: they keep the
    phase, the mode, the previous ledger and the counters of the round.  From this
    follow that [timerEntry] returns, and that the mode becomes [Proposing] only by
    [startRound]. *)

#[local] Opaque txCompare.

Section Frames.
Context `{TxSetHash}.

(** The members that belong to the round. *)
Definition roundOf (c : Consensus) :=
  (phase c, mode c, prevLedgerID c, previousLedger_ c, prevProposers c, prevRoundTime c,
   establishCounter c).

Lemma foldl_same {A B C} (f : A -> C) (g : A -> B -> A) l a :
  (forall a x, f (g a x) = f a) -> f (foldl g a l) = f a.
Proof.
  intros Hg. apply (foldl_ind_in (fun b => f b = f a)); [|done]. intros b x Hb _. by rewrite Hg.
Qed.

Lemma frame_round c c' : frame c' = frame c -> roundOf c' = roundOf c.
Proof. exact (f_equal roundOf (x := frame c') (y := frame c)). Qed.

Lemma frame_positions c c' : frame c' = frame c -> currPeerPositions c' = currPeerPositions c.
Proof. exact (f_equal currPeerPositions (x := frame c') (y := frame c)). Qed.

Lemma frame_dead c c' : frame c' = frame c -> deadNodes c' = deadNodes c.
Proof. exact (f_equal deadNodes (x := frame c') (y := frame c)). Qed.

(** ** Disputes *)

Lemma createDispute_frame o c e : frame (createDispute o c e) = frame c.
Proof.
  unfold createDispute. destruct e as [t b]. destruct (result c) as [r|]; [|done].
  destruct (if b then _ else _); [|done]. case_bool_decide; [done|]. by destruct (recordVotes _ _ _).
Qed.

Lemma createDisputes_frame c o : frame (createDisputes c o) = frame c.
Proof.
  unfold createDisputes. destruct (result c) as [r|]; [|done]. case_bool_decide; [done|].
  destruct (_ =? _); [done|]. rewrite (foldl_same frame); [done|]. intros. apply createDispute_frame.
Qed.

Lemma updateDisputes_frame c n o : frame (updateDisputes c n o) = frame c.
Proof.
  unfold updateDisputes. destruct (result c) as [r|]; [|done].
  set (c1 := if bool_decide _ then c else _).
  assert (E : frame c1 = frame c) by (unfold c1; case_bool_decide; [done|apply createDisputes_frame]).
  clearbody c1. destruct (result c1) as [r1|]; [|done]. destruct (voteAll _ _ _) as [changed ds].
  rewrite <-E. by destruct changed.
Qed.

Lemma updatePeersAt_frame id s c : frame (updatePeersAt id s c) = frame c.
Proof.
  unfold updatePeersAt. rewrite (foldl_same frame); [done|]. intros c1 [n p].
  destruct (_ =? _); [apply updateDisputes_frame|done].
Qed.

(** ** Peers *)

(** What taking in a transaction set leaves alone. *)
Lemma gotTxSet_round c now s :
  roundOf (gotTxSet c now s) = roundOf c /\
  currPeerPositions (gotTxSet c now s) = currPeerPositions c /\ deadNodes (gotTxSet c now s) = deadNodes c.
Proof.
  unfold gotTxSet. case_bool_decide; [done|]. case_bool_decide; [done|].
  destruct (result _); [|done]. set (c1 := set_acquired _ _).
  pose proof (updatePeersAt_frame (txSetID s) s c1) as E.
  rewrite (frame_round _ _ E), (frame_positions _ _ E), (frame_dead _ _ E). done.
Qed.

Lemma unVoteAll_frame n c : frame (unVoteAll n c) = frame c.
Proof. unfold unVoteAll. by destruct (result c). Qed.

Lemma positionSet_round a c p :
  roundOf (positionSet a c p) = roundOf c /\
  currPeerPositions (positionSet a c p) = currPeerPositions c /\
  deadNodes (positionSet a c p) = deadNodes c.
Proof.
  unfold positionSet. destruct (acquired c !! position p) as [s|].
  - destruct (result c); [|done]. pose proof (updateDisputes_frame c (nodeID p) s) as E.
    by rewrite (frame_round _ _ E), (frame_positions _ _ E), (frame_dead _ _ E).
  - destruct (acquireTxSet a (position p)); [apply gotTxSet_round|done].
Qed.

Lemma peerProposalInternal_round a c now p :
  roundOf (peerProposalInternal a c now p).2 = roundOf c.
Proof.
  unfold peerProposalInternal. case_bool_decide; [done|]. destruct (negb _); [done|].
  case_bool_decide; [done|]. destruct (match _ with Some _ => _ | None => _ end); [done|].
  destruct (isBowOut p); cbn [snd].
  - exact (frame_round _ _ (unVoteAll_frame (nodeID p) (set_now now c))).
  - rewrite (proj1 (positionSet_round _ _ _)). by destruct (isInitial p).
Qed.

Lemma playbackProposals_round a c : roundOf (playbackProposals a c) = roundOf c.
Proof.
  unfold playbackProposals. apply (foldl_same roundOf). intros c1 e. apply (foldl_same roundOf).
  clear c c1. intros c p. unfold playbackOne. destruct (_ =? _); [|done].
  pose proof (peerProposalInternal_round a c (now_ c) p) as E.
  destruct (peerProposalInternal a c (now_ c) p) as [[] c']; exact E.
Qed.

(** ** Closing and establishing *)

Lemma closeLedger_round a c :
  roundOf (closeLedger a c) = roundOf (set_phase Establish (set_establishCounter 0 c)).
Proof.
  unfold closeLedger. destruct (onClose _ _ _ _) as [s p].
  rewrite (foldl_same roundOf).
  - case_bool_decide; case_bool_decide; reflexivity.
  - intros c1 e. destruct (acquired c1 !! _); [|done]. apply frame_round, createDisputes_frame.
Qed.

Lemma phaseOpen_round a c :
  roundOf (phaseOpen a c) = roundOf c \/
  roundOf (phaseOpen a c) = roundOf (set_phase Establish (set_establishCounter 0 c)).
Proof.
  unfold phaseOpen. destruct (shouldCloseLedger _ _ _ _ _ _ _ _ _); [right|by left].
  by rewrite closeLedger_round.
Qed.

Lemma freshPeers_round a c : roundOf (freshPeers a c).1 = roundOf c.
Proof.
  unfold freshPeers. rewrite (foldl_same (fun acc => roundOf acc.1)); [done|].
  intros [c1 votes] e. unfold checkPeer. destruct (isStale _ _); [|done]. cbn.
  exact (frame_round _ _ (unVoteAll_frame _ _)).
Qed.

Lemma chooseCloseTime_round a r votes c : roundOf (chooseCloseTime a r votes c).2 = roundOf c.
Proof.
  unfold chooseCloseTime. case_bool_decide; [done|].
  destruct (getNeededWeight _ _ _ _ _) as [w st]. destruct (if bool_decide _ then _ else _) as [vs n].
  destruct (closeTimeWalk _ _ _) as [[t v] have]. by destruct st.
Qed.

Lemma adoptPosition_round r s ct c : roundOf (adoptPosition r s ct c) = roundOf c.
Proof.
  unfold adoptPosition. set (p := changePosition _ _ _ _). set (c1 := set_result _ c).
  set (c2 := if bool_decide _ then c1 else _).
  assert (E : roundOf c2 = roundOf c).
  { unfold c2. case_bool_decide; [done|]. rewrite (frame_round _ _ (updatePeersAt_frame _ _ _)).
    by destruct (negb _). }
  clearbody c2. rewrite <-E. by destruct (_ && _).
Qed.

Lemma updateOurPositions_round a c : roundOf (updateOurPositions a c) = roundOf c.
Proof.
  unfold updateOurPositions. pose proof (freshPeers_round a c) as E.
  destruct (freshPeers a c) as [c1 votes]. cbn in E. destruct (result c1) as [r|]; [|done].
  destruct (revoteAll _ _ _ _) as [ds m]. set (c2 := set_result _ c1).
  pose proof (chooseCloseTime_round a (setDisputes r ds) votes c2) as E2.
  destruct (chooseCloseTime _ _ _ c2) as [ct c3].
  change (roundOf c3 = roundOf c1) in E2.
  destruct (match m with Some _ => _ | None => _ end); [rewrite adoptPosition_round|]; congruence.
Qed.

(** Bowing out changes the mode only, and never to [Proposing]. *)
Lemma leaveConsensus_round c :
  roundOf (leaveConsensus c) = roundOf (set_mode (mode (leaveConsensus c)) c) /\
  mode (leaveConsensus c) <> Proposing /\
  (mode c <> Proposing -> leaveConsensus c = c).
Proof.
  unfold leaveConsensus. case_bool_decide; [|by destruct c].
  destruct (result c); [|done]. by destruct (negb _).
Qed.

Lemma haveConsensus_round a c :
  exists m, roundOf (haveConsensus a c).2 = roundOf (set_mode m c) /\ (m = Proposing -> mode c = Proposing).
Proof.
  assert (Hid : roundOf c = roundOf (set_mode (mode c) c)) by done.
  unfold haveConsensus. destruct (result c) as [r|]; [|by exists (mode c)].
  destruct (countAgree _ _) as [ag dis]. destruct (checkConsensus _ _ _ _ _ _ _ _ _);
    try by exists (mode c).
  destruct (_ <? _); [by exists (mode c)|]. set (c1 := set_result _ c).
  destruct (leaveConsensus_round c1) as (E & Hne & _).
  exists (mode (leaveConsensus c1)). done.
Qed.

Lemma beginRound_round a c now prevID l m :
  let c' := beginRound a c now prevID l m in
  phase c' = Open /\ mode c' = m /\ prevLedgerID c' = prevID /\ previousLedger_ c' = l.
Proof.
  intros c'. assert (E : roundOf c' = roundOf (set_phase Open (set_mode m (set_prevLedgerID prevID
    (set_previousLedger l c))))) by (unfold c', beginRound; by rewrite playbackProposals_round).
  by injection E as -> -> -> -> _.
Qed.

Lemma forgetRound_round a id c :
  roundOf (forgetRound a id c) = roundOf (set_prevLedgerID id c).
Proof.
  unfold forgetRound. rewrite playbackProposals_round. by destruct (result (set_prevLedgerID id c)).
Qed.
End Frames.
