(* ===== verification/EngineSpec.v ===== *)
(** * The consensus state machine: theorems

    Reachable states and what holds of them; when a round is accepted; that
    [timerEntry] returns; what the phases and the mode can do. *)
From S2P Require Import Prelude Parms Timing Decisions Disputed Proposal EngineState Pause Engine.
From S2P Require Import EngineFacts EngineRounds.

#[local] Opaque txCompare.

Section Spec.
Context `{TxSetHash} (offered : Tx -> Prop) (distinct : collisionFree offered).

(** ** Runs *)

(** The calls from outside, with sets of the offered transactions. *)
Inductive estep : Consensus -> Consensus -> Prop :=
| StepStartRound fuel a c now prevID l untrusted proposing c' :
    adaptor_ok offered a -> startRound fuel a c now prevID l untrusted proposing = Some c' ->
    estep c c'
| StepTimer fuel a c now c' :
    adaptor_ok offered a -> timerEntry fuel a c now = Some c' -> estep c c'
| StepPeerProposal a c now p :
    adaptor_ok offered a -> estep c (peerProposal a c now p).2
| StepTxSet c now s : keyed offered s -> estep c (gotTxSet c now s)
| StepSimulate a c now delay :
    adaptor_ok offered a -> phase c = Open -> estep c (simulate a c now delay).

Lemma newConsensus_ok : engine_inv offered ∅ newConsensus.
Proof. constructor; cbn; try done. Qed.

Lemma estep_ok c c' : estep c c' -> engine_inv offered ∅ c -> engine_inv offered ∅ c'.
Proof.
  intros Hs Hc. destruct Hs.
  - by eapply startRound_ok.
  - by eapply timerEntry_ok.
  - by apply peerProposal_ok.
  - by apply gotTxSet_ok.
  - by apply simulate_ok.
Qed.

Lemma erun_ok c : rtc estep newConsensus c -> engine_inv offered ∅ c.
Proof.
  apply (rtc_ind_r (engine_inv offered ∅)); [apply newConsensus_ok|].
  intros c1 c2 _ Hs. by apply estep_ok.
Qed.

(** C10: The disputes of a round are exact, when the tree hashes of sets of the offered
    transactions do not collide.  However the members are called, every dispute is
    recorded under its transaction with our vote telling whether our set has it, yes and
    no tallies that count the recorded votes, votes of peers with a current position
    only, and the vote of every such peer whose set is known as that set says; and
    whenever the known set of a peer differs from ours on a transaction, the transaction
    is in dispute, or 65536 others are (a comparison reports no more). *)
Theorem disputes_reflect_positions c r :
  rtc estep newConsensus c -> result c = Some r ->
  (forall t d, disputes r !! t = Some d ->
     tx_id (tx d) = t /\ ourVote d = txExists (txns r) t /\
     yays d = countVotes true (votes d) /\ nays d = countVotes false (votes d) /\
     dom (votes d) ⊆ dom (currPeerPositions c) /\
     (forall n p s, currPeerPositions c !! n = Some p -> acquired c !! position p = Some s ->
        votes d !! n = Some (txExists s t))) /\
  (forall n p s t, currPeerPositions c !! n = Some p -> acquired c !! position p = Some s ->
     txExists (txns r) t <> txExists s t ->
     is_Some (disputes r !! t) \/ 65536 <= Z.of_nat (size (disputes r))).
Proof.
  intros Hc%erun_ok Hr. destruct (inv_result _ _ _ Hc r Hr) as [[H1 H2 H3 H4 H5 H6] _]. split.
  - intros t d Hd. destruct (H3 t d Hd) as (D1 & _ & [D2 D3] & D4 & D5 & D6).
    repeat (split; [done|]). intros n p s Hp Hs. by eapply D6.
  - intros n p s t Hp Hs Hne. rewrite <-elem_of_dom. eapply (H4 (position p)); [|done..]. by eapply H5.
Qed.

(** C31: The round is well formed, when the tree hashes of sets of the offered
    transactions do not collide.  However the members are called: the open phase has no
    result and the establish phase has one, whose position is the identifier of its
    set, a known set; sets are known under their identifiers; the current positions are
    of this round's previous ledger, each under its node, none bowed out and none of a
    node that has left; we propose only on the ledger we hold; and at most ten
    recent positions are kept per node. *)
Theorem round_wellformed c :
  rtc estep newConsensus c ->
  (phase c = Open -> result c = None) /\ (phase c = Establish -> is_Some (result c)) /\
  (forall r, result c = Some r -> position (ourPosition r) = txSetID (txns r) /\
     acquired c !! position (ourPosition r) = Some (txns r)) /\
  (forall i s, acquired c !! i = Some s -> txSetID s = i) /\
  (forall n p, currPeerPositions c !! n = Some p ->
     nodeID p = n /\ previousLedger p = prevLedgerID c /\ isBowOut p = false /\ n ∉ deadNodes c) /\
  (mode c = Proposing -> l_id (previousLedger_ c) = prevLedgerID c) /\
  (forall n l, recentPeerPositions c !! n = Some l -> (length l <= 10)%nat).
Proof.
  intros [H1 H2 H3 H4 H5 H6 H7]%erun_ok. unfold phase_ok in H5.
  split; [by intros E; rewrite E in H5|]. split; [by intros E; rewrite E in H5|]. split.
  { intros r Hr. destruct (H4 r Hr) as [Hok [s Hs]]. rewrite (res_position _ _ _ _ _ _ Hok).
    split; [done|]. rewrite Hs. f_equal. destruct (H1 _ _ Hs).
    by apply distinct; [|apply (res_keyed _ _ _ _ _ _ Hok)|]. }
  split; [intros i s Hs; by apply H1|]. split; [|split; [done|intros n l Hl; by apply (H7 n)]].
  intros n p Hp. destruct (H2 n p Hp) as (-> & -> & ->). repeat (split; [done|]).
  intros Hd. apply (H3 n); [by apply elem_of_dom_2 in Hp|done].
Qed.

End Spec.

(** ** Accepting *)

Section Accept.
Context `{TxSetHash}.

(** The peers whose position is [id]. *)
Definition agreeing (c : Consensus) (id : Z) : Z :=
  Z.of_nat (length (filter (fun e => position e.2 = id) (map_to_list (currPeerPositions c)))).
Definition peerCount (c : Consensus) : Z := Z.of_nat (size (currPeerPositions c)).

Lemma countAgree_spec c id : countAgree c id = (agreeing c id, peerCount c - agreeing c id).
Proof.
  unfold countAgree, agreeing, peerCount. rewrite <-length_map_to_list.
  cut (forall l x y, foldl (fun '(agree, disagree) e =>
      if position (snd e) =? id then (agree + 1, disagree) else (agree, disagree + 1)) (x, y) l =
    (x + Z.of_nat (length (filter (fun e : Z * ConsensusProposal => position e.2 = id) l)),
     y + (Z.of_nat (length l) - Z.of_nat (length (filter (fun e => position e.2 = id) l))))).
  { intros Hc. rewrite Hc. f_equal; lia. }
  induction l as [|e l IH]; intros x y; [cbn; f_equal; lia|]. cbn [foldl]. rewrite filter_cons.
  destruct (Z.eqb_spec (position e.2) id); case_decide; try done; rewrite IH; cbn [length]; f_equal; lia.
Qed.

(** Why a decision to end the round was taken. *)
Definition decided (a : Adaptor) (c : Consensus) (r : Result) : Prop :=
  let pct := minConsensusPct (parms a) in
  let late := ledgerMaxConsensus (parms a) <? readTimer (roundTime r) in
  ledgerMinConsensus (parms a) < readTimer (roundTime r) /\
  match state r with
  | No => False
  | Yes => checkConsensusReached (agreeing c (position (ourPosition r))) (peerCount c)
             (bool_decide (mode c = Proposing)) pct late (allStalled a c r) = true
  | MovedOn => checkConsensusReached (proposersFinished a (previousLedger_ c) (prevLedgerID c))
                 (peerCount c) false pct late false = true
  | Expired => 4 * avMinRounds (parms a) <= establishCounter c /\ mode c <> Proposing
  end.

Lemma checkConsensus_decides prevP total agree fin prevT curT stalled p proposing :
  match checkConsensus prevP total agree fin prevT curT stalled p proposing with
  | No => True
  | Yes => ledgerMinConsensus p < curT /\
      checkConsensusReached agree total proposing (minConsensusPct p) (ledgerMaxConsensus p <? curT) stalled = true
  | MovedOn => ledgerMinConsensus p < curT /\
      checkConsensusReached fin total false (minConsensusPct p) (ledgerMaxConsensus p <? curT) false = true
  | Expired => ledgerMinConsensus p < curT
  end.
Proof.
  unfold checkConsensus. destruct (Z.leb_spec curT (ledgerMinConsensus p)) as [|Hmin]; [done|].
  destruct (_ && _); [done|].
  destruct (checkConsensusReached agree _ _ _ _ _) eqn:E1; [done|].
  destruct (checkConsensusReached fin _ _ _ _ _) eqn:E2; [done|].
  destruct (clamp _ _ _ <? curT); [exact Hmin|exact I].
Qed.

(** Leaving keeps the peers and the state and timer of the result. *)
Lemma leaveConsensus_result c r :
  result c = Some r -> exists r', result (leaveConsensus c) = Some r' /\
  state r' = state r /\ roundTime r' = roundTime r.
Proof.
  intros Hr. unfold leaveConsensus. case_bool_decide; [|by exists r]. rewrite Hr.
  destruct (negb _); cbn; [|by exists r]. by eexists.
Qed.

Lemma haveConsensus_decided a c c' :
  haveConsensus a c = (true, c') -> exists r, result c' = Some r /\ decided a c' r.
Proof.
  unfold haveConsensus. destruct (result c) as [r|]; [|done]. rewrite countAgree_spec.
  replace (_ + (_ - _)) with (peerCount c) by lia.
  set (st := checkConsensus _ _ _ _ _ _ _ _ _).
  pose proof (checkConsensus_decides (prevProposers c) (peerCount c)
    (agreeing c (position (ourPosition r))) (proposersFinished a (previousLedger_ c) (prevLedgerID c))
    (prevRoundTime c) (readTimer (roundTime r)) (allStalled a c r) (parms a)
    (bool_decide (mode c = Proposing))) as Hd. fold st in Hd. clearbody st.
  set (c1 := set_result _ c). destruct st; [done| | |].
  - intros [= <-]. exists (setState r MovedOn). done.
  - destruct (Z.ltb_spec (establishCounter c1) (4 * avMinRounds (parms a))) as [|Hlt]; [done|].
    intros [= <-]. destruct (leaveConsensus_result c1 (setState r Expired) eq_refl) as (r' & Hr' & Es & Et).
    exists r'. split; [done|]. unfold decided. rewrite Es, Et. cbn [state setState roundTime].
    destruct (leaveConsensus_round c1) as (E & Hne & _). apply (f_equal snd) in E.
    change (establishCounter (leaveConsensus c1) = establishCounter c1) in E. rewrite E. done.
  - intros [= <-]. exists (setState r Yes). done.
Qed.

(** A round accepted in state [c]. *)
Definition acceptedBy (a : Adaptor) (c : Consensus) : Prop :=
  exists r, result c = Some r /\ decided a c r /\ haveCloseTimeConsensus c = true /\
  last (events c) =
    Some (OnAccept r (previousLedger_ c) (closeResolution c) (rawCloseTimes c) (mode c) (validating a)) /\
  prevProposers c = peerCount c /\ prevRoundTime c = readTimer (roundTime r).

Lemma acceptLedger_accepted a c r :
  result c = Some r -> decided a c r -> haveCloseTimeConsensus c = true -> acceptedBy a (acceptLedger a c).
Proof.
  intros Hr Hd Hct. unfold acceptLedger. rewrite Hr. exists r. repeat (split; [done|]).
  split; [|done]. cbn. apply last_snoc.
Qed.

Lemma round_phase c c' : roundOf c' = roundOf c -> phase c' = phase c.
Proof. intros E. by injection E. Qed.

Lemma phaseEstablish_accepts a c :
  phase c = Establish -> phase (phaseEstablish a c) = Accepted -> acceptedBy a (phaseEstablish a c).
Proof.
  intros Hph. unfold phaseEstablish. destruct (result c) as [r|]; [|congruence].
  set (r1 := setRound r _ _). set (c1 := set_convergePercent _ _).
  assert (E1 : phase c1 = Establish) by done. clearbody c1 r1.
  destruct (_ <? _); [congruence|].
  pose proof (round_phase _ _ (updateOurPositions_round a c1)) as E2. rewrite E1 in E2.
  set (c2 := updateOurPositions a c1) in *. clearbody c2.
  destruct (shouldPause a c2); [congruence|].
  destruct (haveConsensus_round a c2) as (m & E3 & _). apply round_phase in E3. cbn in E3.
  destruct (haveConsensus a c2) as [have c3] eqn:Eh. cbn in E3.
  destruct have; cbn [negb]; [|congruence].
  destruct (haveCloseTimeConsensus c3) eqn:Ect; cbn [negb]; [|congruence]. intros _.
  destruct (haveConsensus_decided a c2 c3 Eh) as (r3 & Hr3 & Hd). by eapply acceptLedger_accepted.
Qed.

Lemma phaseOpen_phase a c : phase c = Open -> phase (phaseOpen a c) <> Accepted.
Proof.
  intros Hph. destruct (phaseOpen_round a c) as [E|E]; apply round_phase in E; cbn in E; congruence.
Qed.

Lemma handleWrongLedger_accepts timer a c id c' :
  (forall c now c', phase c <> Accepted -> timer c now = Some c' -> phase c' = Accepted -> acceptedBy a c') ->
  phase c <> Accepted -> handleWrongLedgerWith timer a c id = Some c' -> phase c' = Accepted ->
  acceptedBy a c'.
Proof.
  intros Ht Hph. unfold handleWrongLedgerWith. set (c1 := if prevLedgerID (leaveConsensus c) =? id then leaveConsensus c else _).
  assert (E1 : phase c1 = phase c).
  { assert (E : phase (leaveConsensus c) = phase c) by exact (round_phase (set_mode _ c) _ (proj1 (leaveConsensus_round c))).
    unfold c1. destruct (_ =? id); [done|]. rewrite (round_phase _ _ (forgetRound_round a id _)). done. }
  clearbody c1. destruct (_ =? _); [intros [= <-]; congruence|].
  destruct (acquireLedger a _) as [l|]; [|intros [= <-]; cbn; congruence].
  unfold startRoundInternalWith. pose proof (beginRound_round a c1 (now_ c1) id l SwitchedLedger) as (E2 & _).
  destruct (_ <? _); [apply Ht|intros [= <-]]; congruence.
Qed.

Lemma timerEntry_accepts fuel a c now c' :
  phase c <> Accepted -> timerEntry fuel a c now = Some c' -> phase c' = Accepted -> acceptedBy a c'.
Proof.
  revert c now c'. induction fuel as [|fuel IH]; intros c now c' Hph; [done|]. cbn.
  unfold timerEntryWith. case_bool_decide; [done|].
  destruct (checkLedgerWith _ a (set_now now c)) as [c1|] eqn:Ec; [|done].
  assert (Hc1 : phase c1 = Accepted -> acceptedBy a c1).
  { unfold checkLedgerWith in Ec.
    destruct (negb _); [intros; by refine (handleWrongLedger_accepts _ _ _ _ _ IH _ Ec _)|].
    destruct (negb _); [intros; by refine (handleWrongLedger_accepts _ _ _ _ _ IH _ Ec _)|].
    injection Ec as <-. done. }
  intros [= <-]. destruct (phase c1) eqn:Eph; intros Hacc.
  - by apply phaseOpen_phase in Hacc.
  - by apply phaseEstablish_accepts.
  - by apply Hc1.
Qed.

Lemma reached_cases agree total self pct late stalled :
  smallCount agree -> smallCount total ->
  checkConsensusReached agree total self pct late stalled = true ->
  (total = 0 /\ late = true) \/ stalled = true \/ pct * withSelf self total <= 100 * withSelf self agree.
Proof.
  intros Ha Ht Hr. destruct (Z.eq_dec total 0) as [->|Hn]; [by left|right].
  destruct stalled; [by left|right]. by apply checkConsensusReached_exact in Hr.
Qed.

Lemma agreeing_small c id : smallCount (peerCount c) -> smallCount (agreeing c id).
Proof.
  unfold smallCount, peerCount, agreeing. rewrite <-length_map_to_list.
  pose proof (length_filter (fun e => position e.2 = id) (map_to_list (currPeerPositions c))). lia.
Qed.

(** C1: Acceptance is safe.  When a call of [timerEntry] ends the round, the result it
    hands to the adaptor is the round's, there is consensus on the close time, the
    round has lasted longer than the minimum, and the decision has its reason: for
    [Yes] the required percentage of the current positions, ours included when
    proposing, is ours, or every dispute is stalled, or nobody else proposes and the
    maximum time has passed; for [MovedOn] that percentage of peers has finished; for
    [Expired] enough rounds have passed and we no longer propose. *)
Theorem accept_safety fuel a c now c' :
  phase c <> Accepted -> timerEntry fuel a c now = Some c' -> phase c' = Accepted ->
  smallCount (peerCount c') -> (forall l id, smallCount (proposersFinished a l id)) ->
  exists r, result c' = Some r /\
  last (events c') =
    Some (OnAccept r (previousLedger_ c') (closeResolution c') (rawCloseTimes c') (mode c') (validating a)) /\
  haveCloseTimeConsensus c' = true /\ ledgerMinConsensus (parms a) < readTimer (roundTime r) /\
  let pct := minConsensusPct (parms a) in
  let alone := peerCount c' = 0 /\ ledgerMaxConsensus (parms a) < readTimer (roundTime r) in
  let self := bool_decide (mode c' = Proposing) in
  match state r with
  | No => False
  | Yes => alone \/ allStalled a c' r = true \/
      pct * withSelf self (peerCount c') <= 100 * withSelf self (agreeing c' (position (ourPosition r)))
  | MovedOn => alone \/
      pct * peerCount c' <= 100 * proposersFinished a (previousLedger_ c') (prevLedgerID c')
  | Expired => 4 * avMinRounds (parms a) <= establishCounter c' /\ mode c' <> Proposing
  end.
Proof.
  intros Hph Ht Hacc Hn Hf. destruct (timerEntry_accepts fuel a c now c' Hph Ht Hacc)
    as (r & Hr & [Hmin Hd] & Hct & Hev & _).
  exists r. do 4 (split; [done|]). intros pct alone self. destruct (state r); [done| |done|].
  - apply reached_cases in Hd as [[Hz Hl%Z.ltb_lt]|[?|Hd]]; [by left|done| |apply Hf|done].
    right. unfold withSelf in Hd. rewrite !Z.add_0_r in Hd. done.
  - apply reached_cases in Hd as [[Hz Hl%Z.ltb_lt]|Hd]; [by left|by right|by apply agreeing_small|done].
Qed.

End Accept.
