(* ===== verification/EngineProgress.v ===== *)
(** * The consensus state machine: progress

    That [timerEntry] and [startRound] return, that an establish phase comes to a
    decision, what is ignored once a round is accepted, how the mode can change, and
    the order in which the positions of a peer are taken in. *)
From S2P Require Import Prelude Parms Timing Decisions Disputed Proposal EngineState Pause Engine.
From S2P Require Import EngineFacts EngineRounds EngineSpec.

#[local] Opaque txCompare.

Section Progress.
Context `{TxSetHash}.

(** ** Termination *)

(** Asked on the ledger [l], the adaptor names a previous ledger consistently: if the
    ledger can be had, it has the identifier named, and asked again on it the adaptor
    names the same. *)
Definition namesStably (a : Adaptor) (i : Z) (l : LedgerT) (m : ConsensusMode) : Prop :=
  let net := getPrevLedger a i l m in
  forall l', acquireLedger a net = Some l' -> l_id l' = net /\ getPrevLedger a net l' SwitchedLedger = net.

(** The ledger is the one the network prefers, and we have it. *)
Definition settled (a : Adaptor) (c : Consensus) : Prop :=
  getPrevLedger a (prevLedgerID c) (previousLedger_ c) (mode c) = prevLedgerID c /\
  l_id (previousLedger_ c) = prevLedgerID c.

(** The phase of a settled state. *)
Definition phaseStep (a : Adaptor) (c : Consensus) : Consensus :=
  match phase c with
  | Open => phaseOpen a c
  | Establish => phaseEstablish a c
  | Accepted => c
  end.

Lemma timerEntryWith_settled timer a c now :
  settled a c -> phase c <> Accepted -> timerEntryWith timer a c now = Some (phaseStep a (set_now now c)).
Proof.
  intros [H1 H2] Hph. unfold timerEntryWith. case_bool_decide; [done|].
  unfold checkLedgerWith. cbn [set_now prevLedgerID previousLedger_ mode].
  by rewrite H1, H2, Z.eqb_refl.
Qed.

Lemma beginRound_settled a c now i l :
  l_id l = i -> getPrevLedger a i l SwitchedLedger = i -> settled a (beginRound a c now i l SwitchedLedger).
Proof.
  intros Hl Hg. destruct (beginRound_round a c now i l SwitchedLedger) as (_ & Em & Ei & El).
  unfold settled. by rewrite Em, Ei, El.
Qed.

(** Switching ledgers starts a settled round. *)
Lemma handleWrongLedger_total timer timer' a c id :
  (forall l, acquireLedger a id = Some l -> l_id l = id /\ getPrevLedger a id l SwitchedLedger = id) ->
  (forall c now, settled a c -> phase c = Open -> exists c', timer c now = Some c' /\ timer' c now = Some c') ->
  exists c', handleWrongLedgerWith timer a c id = Some c' /\ handleWrongLedgerWith timer' a c id = Some c'.
Proof.
  intros Hg Ht. unfold handleWrongLedgerWith.
  set (c1 := if prevLedgerID (leaveConsensus c) =? id then leaveConsensus c else _).
  assert (Ei : prevLedgerID c1 = id).
  { unfold c1. destruct (Z.eqb_spec (prevLedgerID (leaveConsensus c)) id); [done|].
    pose proof (forgetRound_round a id (leaveConsensus c)) as E. by injection E. }
  clearbody c1. rewrite Ei. destruct (_ =? _); [by eexists|].
  destruct (acquireLedger a id) as [l|] eqn:El; [|by eexists].
  unfold startRoundInternalWith. destruct (_ <? _); [|by eexists].
  destruct (Hg l eq_refl). apply Ht; [by apply beginRound_settled|]. by apply beginRound_round.
Qed.

Lemma timerEntry_enough n a c now :
  namesStably a (prevLedgerID c) (previousLedger_ c) (mode c) ->
  exists c', timerEntry (S (S n)) a c now = Some c' /\ timerEntry 2 a c now = Some c'.
Proof.
  intros Hs.
  assert (Ht : forall c now, settled a c -> phase c = Open ->
    exists c', timerEntry (S n) a c now = Some c' /\ timerEntry 1 a c now = Some c').
  { intros c1 now1 Hset Hop. exists (phaseStep a (set_now now1 c1)).
    split; apply timerEntryWith_settled; congruence. }
  change (exists c', timerEntryWith (timerEntry (S n) a) a c now = Some c' /\
                     timerEntryWith (timerEntry 1 a) a c now = Some c').
  unfold timerEntryWith. case_bool_decide; [by eexists|].
  assert (Hc : exists c', checkLedgerWith (timerEntry (S n) a) a (set_now now c) = Some c' /\
                          checkLedgerWith (timerEntry 1 a) a (set_now now c) = Some c').
  { unfold checkLedgerWith.
    destruct (negb _); [by apply handleWrongLedger_total|].
    destruct (negb _); [by apply handleWrongLedger_total|by eexists]. }
  destruct Hc as (c' & -> & ->). by eexists.
Qed.

(** C36: Termination.  [startRound] and [timerEntry] call each other when the ledger is
    wrong; with an adaptor that names the previous ledger consistently, both return,
    after at most two nested calls of [timerEntry], so that more fuel never changes
    the outcome. *)
Theorem engine_terminates n a c now prevID l untrusted proposing :
  (namesStably a (prevLedgerID c) (previousLedger_ c) (mode c) ->
   exists c', timerEntry (2 + n) a c now = Some c' /\ timerEntry 2 a c now = Some c') /\
  ((forall m, namesStably a prevID l m) ->
   (forall l' m, acquireLedger a prevID = Some l' -> namesStably a prevID l' m) ->
   exists c', startRound (2 + n) a c now prevID l untrusted proposing = Some c' /\
              startRound 2 a c now prevID l untrusted proposing = Some c').
Proof.
  split; [by apply timerEntry_enough|]. intros Hl Hacq. unfold startRound.
  set (c1 := set_recentPeerPositions _ _). clearbody c1.
  set (chosen := if negb _ then _ else _).
  assert (Hs : forall m, namesStably a prevID chosen.1 m).
  { intros m. unfold chosen. destruct (negb _); [|done]. destruct (acquireLedger a prevID); [by apply Hacq|done]. }
  destruct chosen as [l' m]. cbn [fst] in Hs. unfold startRoundInternal, startRoundInternalWith.
  destruct (_ <? _); [|by eexists]. apply timerEntry_enough.
  destruct (beginRound_round a c1 now prevID l' m) as (_ & -> & -> & ->). apply Hs.
Qed.

(** ** Accepted rounds *)

(** An accepted round is inert: until the next [startRound], the timer, peer
    proposals and transaction sets leave the state as it is, a proposal being only
    remembered for the next round; in particular a wrong ledger is not detected. *)
Theorem accepted_inert fuel a c now p s :
  phase c = Accepted ->
  timerEntry (S fuel) a c now = Some c /\ gotTxSet c now s = c /\
  peerProposalInternal a c now p = (false, c) /\
  (exists recent, peerProposal a c now p = (false, set_recentPeerPositions recent c)).
Proof.
  intros Hph. cbn [timerEntry]. unfold timerEntryWith, gotTxSet, peerProposal, peerProposalInternal.
  cbn [set_recentPeerPositions phase]. rewrite Hph. cbn. repeat (split; [done|]). by eexists.
Qed.

(** ** The mode *)

(** We are proposing after only if we were before, and on the same previous ledger. *)
Definition keepsMode (c c' : Consensus) : Prop :=
  mode c' = Proposing ->
  mode c = Proposing /\ prevLedgerID c' = prevLedgerID c /\ previousLedger_ c' = previousLedger_ c.

Lemma round_keepsMode c c' : roundOf c' = roundOf c -> keepsMode c c'.
Proof. intros E Hm. injection E as _ E1 E2 E3 _. by rewrite <-E1. Qed.

Lemma keepsMode_trans c1 c2 c3 : keepsMode c1 c2 -> keepsMode c2 c3 -> keepsMode c1 c3.
Proof.
  intros H1 H2 Hm. destruct (H2 Hm) as (Hm2 & E1 & E2). destruct (H1 Hm2) as (? & E3 & E4).
  by rewrite E1, E2.
Qed.

Lemma phaseEstablish_mode a c : keepsMode c (phaseEstablish a c).
Proof.
  unfold phaseEstablish. destruct (result c) as [r|]; [|by apply round_keepsMode].
  set (r1 := setRound r _ _). set (c1 := set_convergePercent _ _).
  assert (H1 : keepsMode c c1) by (unfold keepsMode; done). clearbody c1 r1.
  destruct (_ <? _); [done|]. apply (keepsMode_trans _ _ _ H1).
  pose proof (round_keepsMode _ _ (updateOurPositions_round a c1)) as H2.
  set (c2 := updateOurPositions a c1) in *. clearbody c2. destruct (shouldPause a c2); [done|].
  apply (keepsMode_trans _ _ _ H2). destruct (haveConsensus_round a c2) as (m & E & Hm).
  destruct (haveConsensus a c2) as [have c3]. cbn in E.
  assert (H3 : keepsMode c2 c3).
  { intros Hp. injection E as _ Em -> -> _. split; [|done]. apply Hm. by rewrite <-Em. }
  destruct have; [|done]. destruct (haveCloseTimeConsensus c3); [|done]. cbn [negb].
  unfold acceptLedger. by destruct (result c3).
Qed.

Lemma phaseStep_mode a c : keepsMode c (phaseStep a c).
Proof.
  unfold phaseStep. destruct (phase c).
  - destruct (phaseOpen_round a c) as [E|E]; [by apply round_keepsMode|].
    by apply (round_keepsMode (set_phase Establish (set_establishCounter 0 c))) in E.
  - apply phaseEstablish_mode.
  - by apply round_keepsMode.
Qed.

Lemma handleWrongLedger_mode timer a c id c' :
  (forall c now c', timer c now = Some c' -> keepsMode c c') ->
  handleWrongLedgerWith timer a c id = Some c' -> mode c' <> Proposing.
Proof.
  intros Ht. unfold handleWrongLedgerWith.
  set (c1 := if prevLedgerID (leaveConsensus c) =? id then leaveConsensus c else _).
  assert (Hm : mode c1 <> Proposing).
  { pose proof (proj1 (proj2 (leaveConsensus_round c))) as Hl. unfold c1.
    destruct (_ =? id); [done|]. pose proof (forgetRound_round a id (leaveConsensus c)) as E.
    injection E as _ Em _. by rewrite Em. }
  clearbody c1. destruct (_ =? _); [by intros [= <-]|].
  destruct (acquireLedger a _) as [l|]; [|by intros [= <-]].
  unfold startRoundInternalWith.
  destruct (beginRound_round a c1 (now_ c1) id l SwitchedLedger) as (_ & Eb & _).
  destruct (_ <? _); [|intros [= <-]; congruence].
  intros Hc' Hp. destruct (Ht _ _ _ Hc' Hp) as [Hb _]. congruence.
Qed.

Lemma timerEntry_mode fuel a c now c' : timerEntry fuel a c now = Some c' -> keepsMode c c'.
Proof.
  revert c now c'. induction fuel as [|fuel IH]; intros c now c'; [done|]. cbn. unfold timerEntryWith.
  case_bool_decide; [intros [= <-]; by apply round_keepsMode|].
  destruct (checkLedgerWith _ a (set_now now c)) as [c1|] eqn:Ec; [|done].
  intros [= <-]. apply (keepsMode_trans _ c1); [|apply phaseStep_mode].
  unfold checkLedgerWith in Ec.
  destruct (negb _); [by apply handleWrongLedger_mode in Ec|].
  destruct (negb _); [by apply handleWrongLedger_mode in Ec|].
  injection Ec as <-. by apply round_keepsMode.
Qed.

(** Only [startRound] makes us propose.  If we are proposing after a call of
    [timerEntry], [peerProposal], [gotTxSet] or [simulate], then we were before it, on
    the same previous ledger: a ledger switched to in the middle of a round is never
    proposed on. *)
Theorem proposing_only_by_startRound fuel a c now p s delay :
  (forall c', timerEntry fuel a c now = Some c' -> keepsMode c c') /\
  keepsMode c (peerProposal a c now p).2 /\ keepsMode c (gotTxSet c now s) /\
  keepsMode c (simulate a c now delay).
Proof.
  split; [by apply timerEntry_mode|]. split; [|split].
  - unfold peerProposal. apply round_keepsMode. by rewrite peerProposalInternal_round.
  - apply round_keepsMode, gotTxSet_round.
  - apply (keepsMode_trans _ (closeLedger a (set_now now c))).
    + pose proof (closeLedger_round a (set_now now c)) as E. intros Hm.
      injection E as _ E1 E2 E3 _. by rewrite <-E1.
    + unfold simulate. set (c1 := closeLedger a _). clearbody c1.
      destruct (result c1); [intros Hm; split; [exact Hm|done]|by apply round_keepsMode].
Qed.

(** ** The order of a peer's positions *)

(** A message from the network: a proposal, or a transaction set. *)
Definition netStep (a : Adaptor) (acc : list ConsensusProposal * Consensus)
    (m : Z * (ConsensusProposal + TxSet)) : list ConsensusProposal * Consensus :=
  let '(taken, c) := acc in
  match m.2 with
  | inl p =>
      let '(accepted, c) := peerProposal a c m.1 p in
      (if accepted : bool then taken ++ [p] else taken, c)
  | inr s => (taken, gotTxSet c m.1 s)
  end.

(** A proposal is superseded by [c]: its node has left, or has a position that is
    not older. *)
Definition superseded (c : Consensus) (p : ConsensusProposal) : Prop :=
  nodeID p ∈ deadNodes c \/
  (isBowOut p = false /\ exists q, currPeerPositions c !! nodeID p = Some q /\ proposeSeq p <= proposeSeq q).

Lemma superseded_same c c' p :
  currPeerPositions c' = currPeerPositions c -> deadNodes c' = deadNodes c ->
  superseded c p -> superseded c' p.
Proof. unfold superseded. by intros -> ->. Qed.

(** What a call does to the positions. *)
Lemma peerProposalInternal_positions a c now p ok c' :
  peerProposalInternal a c now p = (ok, c') ->
  if ok then
    (nodeID p ∉ deadNodes c) /\
    (forall q, currPeerPositions c !! nodeID p = Some q -> proposeSeq q < proposeSeq p) /\
    (if isBowOut p then
       currPeerPositions c' = delete (nodeID p) (currPeerPositions c) /\
       deadNodes c' = {[nodeID p]} ∪ deadNodes c
     else currPeerPositions c' = <[nodeID p := p]> (currPeerPositions c) /\ deadNodes c' = deadNodes c)
  else currPeerPositions c' = currPeerPositions c /\ deadNodes c' = deadNodes c.
Proof.
  unfold peerProposalInternal. case_bool_decide; [by intros [= <- <-]|].
  destruct (negb _); [by intros [= <- <-]|]. case_bool_decide as Hd; [by intros [= <- <-]|].
  destruct (match _ with Some _ => _ | None => _ end) eqn:Eo; [by intros [= <- <-]|].
  assert (Hnew : forall q, currPeerPositions c !! nodeID p = Some q -> proposeSeq q < proposeSeq p).
  { intros q Hq. cbn in Eo. rewrite Hq in Eo. by apply Z.leb_gt in Eo. }
  destruct (isBowOut p); intros [= <- <-]; (split; [done|]; split; [done|]).
  - set (c1 := set_now now c). pose proof (unVoteAll_frame (nodeID p) c1) as E.
    cbn. by rewrite (frame_positions _ _ E), (frame_dead _ _ E).
  - set (c1 := if isInitial p then _ else _).
    destruct (positionSet_round a c1 p) as (_ & -> & ->). unfold c1. by destruct (isInitial p).
Qed.

(** What was taken in so far: in order per node, and superseded. *)
Definition takenInOrder (taken : list ConsensusProposal) : Prop :=
  forall i j p q, (i < j)%nat -> taken !! i = Some p -> taken !! j = Some q ->
    nodeID p = nodeID q -> proposeSeq p < proposeSeq q /\ isBowOut p = false.

Lemma taken_accept a c now p c' taken :
  peerProposalInternal a c now p = (true, c') ->
  Forall (superseded c) taken -> takenInOrder taken ->
  Forall (superseded c') (taken ++ [p]) /\ takenInOrder (taken ++ [p]).
Proof.
  intros (Hdead & Hnew & Hpos)%peerProposalInternal_positions Hsup Hord.
  rewrite Forall_forall in Hsup. split.
  - apply Forall_app. split; [apply Forall_forall|apply Forall_singleton].
    + intros q Hq. destruct (decide (nodeID q = nodeID p)) as [E|E].
      * destruct (Hsup q Hq) as [?|(Hb & x & Hx & Hle)]; [congruence|]. rewrite E in Hx.
        specialize (Hnew x Hx). unfold superseded. rewrite E. destruct (isBowOut p).
        -- left. destruct Hpos as [_ ->]. set_solver.
        -- right. split; [done|]. exists p. destruct Hpos as [-> _]. rewrite lookup_insert_eq.
           split; [done|lia].
      * unfold superseded. destruct (isBowOut p); destruct Hpos as [-> ->];
          (destruct (Hsup q Hq) as [?|(Hb & x & Hx & Hle)]; [left; set_solver|right]).
        -- split; [done|]. exists x. by rewrite lookup_delete_ne by done.
        -- split; [done|]. exists x. by rewrite lookup_insert_ne by done.
    + unfold superseded. destruct (isBowOut p) eqn:Eb; destruct Hpos as [-> ->]; [left; set_solver|right].
      split; [done|]. exists p. rewrite lookup_insert_eq. split; [done|lia].
  - intros i j q r Hij Hi Hj E. apply lookup_app_Some in Hj as [Hj|[Hlen Hj]].
    + rewrite lookup_app_l in Hi by (apply lookup_lt_Some in Hj; lia). by eapply Hord.
    + apply list_lookup_singleton_Some in Hj as [Hj <-].
      rewrite lookup_app_l in Hi by lia. apply list_elem_of_lookup_2 in Hi.
      destruct (Hsup q Hi) as [?|(Hb & x & Hx & Hle)]; [congruence|]. rewrite E in Hx.
      specialize (Hnew x Hx). split; [lia|done].
Qed.

(** The positions of a peer are taken in in order.  Over any sequence of messages
    the proposals taken in from one node have strictly increasing sequence numbers, and
    none is taken in after the node has bowed out. *)
Theorem peer_positions_in_order a c msgs :
  takenInOrder (foldl (netStep a) ([], c) msgs).1.
Proof.
  apply (foldl_ind_in (fun acc => Forall (superseded acc.2) acc.1 /\ takenInOrder acc.1)); [|split; [done|]].
  - intros [taken c1] [now [p|s]] [Hsup Hord] _; cbn [fst snd netStep] in *.
    + unfold peerProposal. set (c2 := set_recentPeerPositions _ c1).
      assert (Hsup2 : Forall (superseded c2) taken) by done.
      destruct (peerProposalInternal a c2 now p) as [[] c3] eqn:E; cbn [fst snd].
      * by apply (taken_accept a c2 now).
      * apply peerProposalInternal_positions in E as [E1 E2]. split; [|done].
        eapply Forall_impl; [exact Hsup2|]. intros x. by apply superseded_same.
    + split; [|done]. destruct (gotTxSet_round c1 now s) as (_ & E1 & E2).
      eapply Forall_impl; [exact Hsup|]. intros x. by apply superseded_same.
  - intros i j p q _ Hi. cbn [fst] in Hi. by rewrite lookup_nil in Hi.
Qed.

(** ** Decisions *)

(** The timer of the result, which the operations on disputes and positions keep. *)
Definition timerOf (c : Consensus) : option ConsensusTimer := roundTime <$> result c.

Lemma createDispute_timer o c e : timerOf (createDispute o c e) = timerOf c.
Proof.
  unfold createDispute, timerOf. destruct e as [t b]. destruct (result c) as [r|] eqn:Er; [|by rewrite Er].
  destruct (if b then _ else _); [|by rewrite Er]. case_bool_decide; [by rewrite Er|].
  by destruct (recordVotes _ _ _).
Qed.

Lemma createDisputes_timer c o : timerOf (createDisputes c o) = timerOf c.
Proof.
  unfold createDisputes. destruct (result c) as [r|] eqn:Er; [|done]. case_bool_decide; [done|].
  assert (E : timerOf (set_result (Some (setCompares r ({[txSetID o]} ∪ compares r))) c) = timerOf c)
    by (unfold timerOf; by rewrite Er).
  destruct (_ =? _); [done|]. rewrite (foldl_same timerOf); [done|]. intros. apply createDispute_timer.
Qed.

Lemma updateDisputes_timer c n o : timerOf (updateDisputes c n o) = timerOf c.
Proof.
  unfold updateDisputes. destruct (result c) as [r|] eqn:Er; [|done].
  set (c1 := if bool_decide _ then c else _).
  assert (E : timerOf c1 = timerOf c) by (unfold c1; case_bool_decide; [done|apply createDisputes_timer]).
  clearbody c1. rewrite <-E. unfold timerOf at 2. destruct (result c1) as [r1|] eqn:E1; [|by unfold timerOf; rewrite E1].
  destruct (voteAll _ _ _) as [changed ds]. by destruct changed.
Qed.

Lemma updatePeersAt_timer id s c : timerOf (updatePeersAt id s c) = timerOf c.
Proof.
  unfold updatePeersAt. rewrite (foldl_same timerOf); [done|]. intros c1 [n p].
  destruct (_ =? _); [apply updateDisputes_timer|done].
Qed.

Lemma freshPeers_timer a c : timerOf (freshPeers a c).1 = timerOf c.
Proof.
  unfold freshPeers. rewrite (foldl_same (fun acc => timerOf acc.1)); [done|].
  intros [c1 votes] e. unfold checkPeer. destruct (isStale _ _); [|done].
  unfold unVoteAll, timerOf. cbn. destruct (result c1) eqn:Er; [done|]. cbn. by rewrite Er.
Qed.

Lemma adoptPosition_timer r s ct c :
  result c = Some r -> timerOf (adoptPosition r s ct c) = timerOf c.
Proof.
  intros Hr. unfold adoptPosition. set (p := changePosition _ _ _ _). set (c1 := set_result _ c).
  assert (E1 : timerOf c1 = timerOf c) by (unfold timerOf; by rewrite Hr).
  set (c2 := if bool_decide _ then c1 else _).
  assert (E2 : timerOf c2 = timerOf c).
  { unfold c2. case_bool_decide; [done|]. rewrite updatePeersAt_timer. by destruct (negb _). }
  clearbody c2. rewrite <-E2. by destruct (_ && _).
Qed.

Lemma chooseCloseTime_result a r votes c : result (chooseCloseTime a r votes c).2 = result c.
Proof.
  unfold chooseCloseTime. case_bool_decide; [done|].
  destruct (getNeededWeight _ _ _ _ _) as [w st]. destruct (if bool_decide _ then _ else _) as [vs n].
  destruct (closeTimeWalk _ _ _) as [[t v] have]. by destruct st.
Qed.

Lemma updateOurPositions_timer a c : timerOf (updateOurPositions a c) = timerOf c.
Proof.
  unfold updateOurPositions. pose proof (freshPeers_timer a c) as E.
  destruct (freshPeers a c) as [c1 votes]. cbn [fst] in E. rewrite <-E.
  destruct (result c1) as [r|] eqn:Er; [|done].
  destruct (revoteAll _ _ _ _) as [ds m]. set (r1 := setDisputes r ds).
  pose proof (chooseCloseTime_result a r1 votes (set_result (Some r1) c1)) as E2.
  destruct (chooseCloseTime _ _ _ _) as [ct c3]. cbn [snd set_result result] in E2.
  assert (E3 : timerOf c3 = timerOf c1) by (unfold timerOf; by rewrite E2, Er).
  destruct (match m with Some _ => _ | None => _ end); [by rewrite adoptPosition_timer|done].
Qed.

Lemma haveConsensus_late a c t :
  parms a = defaultParms -> timerOf c = Some t -> 0 <= prevRoundTime c < 2 ^ 58 ->
  120000 < readTimer t -> prevRoundTime c + 1950 <= readTimer t ->
  4 * avMinRounds defaultParms <= establishCounter c -> (haveConsensus a c).1 = true.
Proof.
  intros Hp Ht Hprev H1 H2 H3. unfold haveConsensus. rewrite Hp. unfold timerOf in Ht.
  destruct (result c) as [r|]; [|done]. injection Ht as ->.
  destruct (countAgree _ _) as [ag dis].
  pose proof (checkConsensus_late (prevProposers c) (ag + dis) ag
    (proposersFinished a (previousLedger_ c) (prevLedgerID c)) (prevRoundTime c) (readTimer t)
    (allStalled a c r) (bool_decide (mode c = Proposing)) Hprev H1 H2) as Hd.
  destruct (checkConsensus _ _ _ _ _ _ _ _ _); [done|done| |done].
  cbn [set_result establishCounter]. by destruct (Z.ltb_spec (establishCounter c) (4 * avMinRounds defaultParms)); [lia|].
Qed.

Lemma shouldPause_late a c t :
  timerOf c = Some t -> ledgerMaxConsensus (parms a) < readTimer t -> shouldPause a c = false.
Proof.
  unfold timerOf, shouldPause. intros Ht Hl. destruct (result c) as [r|]; [|done]. injection Ht as ->.
  destruct (getQuorumKeys a) as [q k]. destruct (laggardsOf a _ k) as [n k'].
  apply Z.ltb_lt in Hl. by rewrite Hl, !orb_true_r.
Qed.

(** C33: An establish phase ends.  With the default parameters, once the round has lasted
    more than two minutes and at least 1.95 seconds (the minimum time of a consensus)
    longer than the previous round, and has had seven timer calls before, a timer call
    on the ledger the network prefers does not pause and comes to a decision: it accepts
    the round if, and only if, there is consensus on the close time. *)
Theorem establish_decides n a c r now :
  parms a = defaultParms -> phase c = Establish -> result c = Some r -> settled a c ->
  let round := readTimer (tickAt (roundTime r) (clockNow a)) in
  120000 < round -> 0 <= prevRoundTime c < 2 ^ 58 -> prevRoundTime c + 1950 <= round ->
  7 <= establishCounter c < 2 ^ 64 - 1 ->
  exists c', timerEntry (S n) a c now = Some c' /\
  (phase c' = Accepted <-> haveCloseTimeConsensus c' = true).
Proof.
  intros Hp Hph Hr Hset round H1 H2 H3 H4. exists (phaseStep a (set_now now c)).
  split; [apply timerEntryWith_settled; congruence|]. unfold phaseStep.
  change (phase (set_now now c)) with (phase c). rewrite Hph. unfold phaseEstablish.
  change (result (set_now now c)) with (result c). rewrite Hr.
  set (r1 := setRound r _ _). set (c1 := set_convergePercent _ _).
  assert (Et : timerOf c1 = Some (tickAt (roundTime r) (clockNow a))) by done.
  assert (Ep : phase c1 = Establish) by done. assert (Er : prevRoundTime c1 = prevRoundTime c) by done.
  assert (Ee : establishCounter c1 = establishCounter c + 1)
    by (apply (u64_id (establishCounter c + 1)); lia).
  change (readTimer (roundTime r1)) with round. clearbody c1 r1. rewrite Hp.
  destruct (Z.ltb_spec round (ledgerMinConsensus defaultParms)) as [Hlt|_]; [change (round < 1950) in Hlt; lia|].
  pose proof (updateOurPositions_round a c1) as E. pose proof (updateOurPositions_timer a c1) as E2.
  rewrite Et in E2. set (c2 := updateOurPositions a c1) in *. clearbody c2.
  injection E as Ep2 _ _ _ _ Er2 Ee2.
  rewrite (shouldPause_late a c2 _ E2) by (rewrite Hp; change (15000 < round); lia).
  pose proof (haveConsensus_late a c2 _ Hp E2) as Hh. fold round in Hh. rewrite Er2, Er, Ee2, Ee in Hh.
  specialize (Hh H2 H1 H3 ltac:(cbn; lia)).
  destruct (haveConsensus_round a c2) as (m & E3 & _).
  destruct (haveConsensus a c2) as [have c3] eqn:Ec3. cbn in Hh, E3. subst have. cbn [negb].
  injection E3 as Ep3 _. destruct (haveCloseTimeConsensus c3) eqn:Ect; cbn [negb].
  - destruct (haveConsensus_decided a c2 c3 Ec3) as (r3 & Hr3 & _). unfold acceptLedger. by rewrite Hr3.
  - split; congruence.
Qed.
End Progress.
