(* ===== verification/Thresholds.v ===== *)
(** * The consensus state machine: thresholds

    The close time chosen from the votes, the number of participants a percentage
    stands for, and the thresholds of the pause for laggards. *)
From S2P Require Import Prelude Parms Timing Decisions Disputed Proposal EngineState Pause Engine.

(** ** The close time *)

Lemma StronglySorted_rev {A} (R : A -> A -> Prop) l :
  StronglySorted R l -> StronglySorted (flip R) (rev l).
Proof.
  induction 1 as [|x l Hl IH Hx]; cbn; [constructor|]. apply StronglySorted_app_2; [|done|].
  - intros y z Hy ->%list_elem_of_singleton. apply list_elem_of_In, in_rev, list_elem_of_In in Hy.
    rewrite Forall_forall in Hx. by apply Hx.
  - repeat constructor.
Qed.

(** The walk over votes by falling time keeps the best entry so far. *)
Lemma closeTimeWalk_spec need l : forall t0 th have0,
  StronglySorted (flip keyLe) l ->
  let '(t, v, have) := closeTimeWalk l need (t0, th, have0) in
  ((forall e, e ∈ l -> e.2 < th) /\ (t, v, have) = (t0, th, have0)) \/
  ((t, v) ∈ l /\ th <= v /\ have = have0 || (need <=? v) /\
   forall e, e ∈ l -> e.2 < v \/ (e.2 = v /\ t <= e.1)).
Proof.
  induction l as [|[t1 v1] l IH]; intros t0 th have0.
  { intros _. left. split; [|done]. by intros e ?%elem_of_nil. }
  intros [Hx Hs]%StronglySorted_cons. cbn [closeTimeWalk]. rewrite Forall_forall in Hx.
  destruct (Z.leb_spec th v1) as [Hle|Hlt].
  - specialize (IH t1 v1 (have0 || (need <=? v1)) Hs).
    destruct (closeTimeWalk _ _ _) as [[t v] have]. right.
    destruct IH as [[Hall [= -> -> ->]]|(Hin & Hv & -> & Hall)].
    + split; [apply list_elem_of_here|]. split; [done|]. split; [done|].
      intros e [->|He]%elem_of_cons; [right; cbn; lia|left; by apply Hall].
    + split; [by right|]. split; [lia|]. split.
      { destruct have0, (Z.leb_spec need v1), (Z.leb_spec need v); try done; lia. }
      intros e [->|He]%elem_of_cons; [|by apply Hall]. cbn.
      specialize (Hx (t, v) Hin). unfold flip, keyLe in Hx. cbn in Hx. lia.
  - specialize (IH t0 th have0 Hs). destruct (closeTimeWalk _ _ _) as [[t v] have].
    destruct IH as [[Hall E]|(Hin & Hv & Hh & Hall)]; [left|right].
    + split; [|done]. by intros e [->|He]%elem_of_cons; [|apply Hall].
    + split; [by right|]. do 2 (split; [done|]).
      intros e [->|He]%elem_of_cons; [left; cbn; lia|by apply Hall].
Qed.

(** The votes on the close time with ours, and the participants, as counted when
    there are peers. *)
Definition allVotes (r : Result) (votes : gmap Z Z) (c : Consensus) : gmap Z Z :=
  if bool_decide (mode c = Proposing) then addVote (asCloseTime c (closeTime (ourPosition r))) votes
  else votes.
Definition participants (c : Consensus) : Z :=
  Z.of_nat (size (currPeerPositions c)) + if bool_decide (mode c = Proposing) then 1 else 0.

(** The close time is the plurality's.  With peers present, the time chosen has
    the most votes of all, and of equally voted times it is the earliest; it is a
    consensus if and only if 75% of the participants (rounded as
    [participantsNeeded] does) vote for it.  When no time reaches the threshold of
    the round, there is no time and no consensus. *)
Theorem closeTime_plurality a r votes c t c' :
  parms a = defaultParms -> currPeerPositions c <> ∅ ->
  chooseCloseTime a r votes c = (t, c') ->
  let counted := allVotes r votes c in
  let weight := (getNeededWeight defaultParms (closeTimeAvalancheState c) (convergePercent c) 0 0).1 in
  let threshold := participantsNeeded (participants c) weight in
  (t = 0 /\ haveCloseTimeConsensus c' = false /\
   forall t' v', counted !! t' = Some v' -> v' < threshold) \/
  (exists v, counted !! t = Some v /\ threshold <= v /\
   (haveCloseTimeConsensus c' = true <-> participantsNeeded (participants c) 75 <= v) /\
   forall t' v', counted !! t' = Some v' -> v' < v \/ (v' = v /\ t <= t')).
Proof.
  intros Hp Hne. unfold chooseCloseTime. rewrite bool_decide_eq_false_2 by done. rewrite Hp.
  destruct (getNeededWeight _ _ _ _ _) as [weight st]. cbn [fst].
  set (c1 := if st is Some s then set_closeTimeAvalancheState s c else c).
  assert (E1 : mode c1 = mode c) by (unfold c1; by destruct st).
  assert (E2 : currPeerPositions c1 = currPeerPositions c) by (unfold c1; by destruct st).
  assert (E3 : closeResolution c1 = closeResolution c) by (unfold c1; by destruct st).
  clearbody c1. unfold asCloseTime. rewrite E1, E2, E3.
  rewrite (surjective_pairing (if bool_decide _ then _ else _)).
  replace (fst (if bool_decide _ then _ else _)) with (allVotes r votes c)
    by (unfold allVotes, asCloseTime; by case_bool_decide).
  replace (snd (if bool_decide _ then _ else _)) with (participants c)
    by (unfold participants; case_bool_decide; cbn [snd]; lia).
  pose proof (closeTimeWalk_spec (participantsNeeded (participants c) 75)
    (rev (sortedEntries (allVotes r votes c))) 0 (participantsNeeded (participants c) weight) false
    (StronglySorted_rev _ _ (sortedEntries_sorted _))) as Hw. change (avCtConsensusPct defaultParms) with 75.
  destruct (closeTimeWalk _ _ _) as [[t1 v] have]. intros [= <- <-].
  assert (Hin : forall k x, (k, x) ∈ rev (sortedEntries (allVotes r votes c)) <-> allVotes r votes c !! k = Some x).
  { intros k x. rewrite list_elem_of_In, <-in_rev, <-list_elem_of_In. apply elem_of_sortedEntries. }
  destruct Hw as [[Hall [= -> -> ->]]|(Hv & Hth & -> & Hall)]; [left|right].
  - do 2 (split; [done|]). intros t' v' H'. by apply (Hall (t', v')), Hin.
  - exists v. split; [by apply Hin|]. split; [done|]. split; [cbn; by rewrite Z.leb_le|].
    intros t' v' H'. by apply (Hall (t', v')), Hin.
Qed.

(** ** Participants *)

(** Rounding a percentage to participants.  At least one and never more than all
    participants are needed, the share is within one participant of the percentage,
    and from three participants on the 75% for the close time is a majority, so two
    times are never both agreed; of two participants one alone is enough. *)
Theorem participantsNeeded_majority n pct :
  0 <= n -> 0 <= pct <= 100 ->
  1 <= participantsNeeded n pct <= Z.max 1 n /\
  n * pct < 100 * participantsNeeded n pct + 100 /\
  100 * participantsNeeded n pct <= Z.max 100 (n * pct + 50) /\
  (3 <= n -> n < 2 * participantsNeeded n 75) /\ participantsNeeded 2 75 = 1.
Proof.
  intros Hn Hp. unfold participantsNeeded.
  assert (Hq : forall p, 0 <= p <= 100 -> Z.quot (n * p + Z.quot p 2) 100 = (n * p + p / 2) / 100).
  { intros p ?. rewrite (Z.quot_div_nonneg p 2) by lia. apply Z.quot_div_nonneg; [|lia].
    pose proof (Z.div_pos p 2). nia. }
  rewrite (Hq pct Hp), (Hq 75) by lia. change (75 / 2) with 37.
  pose proof (Z.div_mod (n * pct + pct / 2) 100 ltac:(lia)) as E.
  pose proof (Z.mod_pos_bound (n * pct + pct / 2) 100 ltac:(lia)) as B.
  pose proof (Z.div_mod pct 2 ltac:(lia)) as E2. pose proof (Z.mod_pos_bound pct 2 ltac:(lia)) as B2.
  pose proof (Z.div_mod (n * 75 + 37) 100 ltac:(lia)) as E3.
  pose proof (Z.mod_pos_bound (n * 75 + 37) 100 ltac:(lia)) as B3.
  set (k := (n * pct + pct / 2) / 100) in *. set (k3 := (n * 75 + 37) / 100) in *.
  assert (n * pct <= n * 100) by nia.
  destruct (Z.eqb_spec k 0), (Z.eqb_spec k3 0); repeat split; try lia; done.
Qed.

Lemma participantsNeeded_majority_witness :
  participantsNeeded 5 70 = 3 /\ 1 <= participantsNeeded 5 70 <= Z.max 1 5.
Proof. split; [reflexivity|]. apply (participantsNeeded_majority 5 70); lia. Defined.

(** ** Pausing *)

(** Quarters of validators needed not to lag in a phase: the quorum and the phase's
    share of the rest. *)
Definition quartersNeeded (phase quorum total : Z) : Z := 4 * quorum + (total - quorum) * phase.

(** The quorum of 80%, rounded up. *)
Definition quorum80 (total : Z) : Z := (4 * total + 4) / 5.

(** Away from the threshold, the test in [float] agrees with it, for up to [top]
    validators. *)
Definition pauseAgrees (top : Z) : bool :=
  forallb (fun t => forallb (fun phase => forallb (fun non =>
      let q := quorum80 t in
      let need := quartersNeeded phase q t in
      (4 * non =? need) || Bool.eqb (pauseRatio phase q t (t - non) 0) (4 * non <? need))
    (seqZ 0 (t + 1))) (seqZ 1 3)) (seqZ 1 top).

Lemma pauseAgrees_35 : pauseAgrees 35 = true.
Proof. vm_compute. reflexivity. Qed.

Lemma pauseRatio_agrees phase t laggards offline :
  1 <= t <= 35 -> 1 <= phase <= 3 -> 0 <= laggards -> 0 <= offline -> laggards + offline <= t ->
  let need := quartersNeeded phase (quorum80 t) t in
  let non := t - (laggards + offline) in
  4 * non <> need -> pauseRatio phase (quorum80 t) t laggards offline = (4 * non <? need).
Proof.
  intros Ht Hp Hl Ho Hs need non Hne. pose proof pauseAgrees_35 as Hall. unfold pauseAgrees in Hall.
  apply (forallb_seqZ _ _ _ t) in Hall; [|lia]. apply (forallb_seqZ _ _ _ phase) in Hall; [|lia].
  apply (forallb_seqZ _ _ _ non) in Hall; [|lia]. apply orb_true_iff in Hall as [Hall|Hall].
  { apply Z.eqb_eq in Hall. done. }
  apply Bool.eqb_prop in Hall. etransitivity; [|exact Hall]. unfold pauseRatio.
  replace (t - non + 0) with (laggards + offline) by lia. done.
Qed.

(** The pause for laggards.  With a quorum of 80% of up to 35 validators, some of
    them lagging or offline, and the local ledger [ahead] of the last validated one,
    the phase is [(ahead - 1) mod 5] and the validators known not to lag are compared
    with the quorum plus [phase] quarters of the rest: with fewer we pause, with more
    we do not, and in the last phase we always pause.  The arithmetic in [float]
    decides exactly the cases on the threshold. *)
Theorem pause_thresholds ahead t laggards offline :
  1 <= t <= 35 -> 1 <= laggards -> 0 <= offline -> laggards + offline <= t ->
  let phase := (ahead - 1) mod 5 in
  let need := quartersNeeded phase (quorum80 t) t in
  let non := t - (laggards + offline) in
  (4 * non < need -> pausePhase ahead (quorum80 t) t laggards offline = true) /\
  (need < 4 * non -> pausePhase ahead (quorum80 t) t laggards offline = false) /\
  (phase = 4 -> pausePhase ahead (quorum80 t) t laggards offline = true).
Proof.
  intros Ht Hl Ho Hs phase need non. unfold pausePhase. change (kMaxPausePhase + 1) with 5.
  change kMaxPausePhase with 4. fold phase.
  pose proof (Z.mod_pos_bound (ahead - 1) 5 ltac:(lia)) as Hph. fold phase in Hph.
  assert (Hq : quorum80 t < t + 1) by (unfold quorum80; apply Z.div_lt_upper_bound; lia).
  assert (Hq0 : 0 <= quorum80 t) by (unfold quorum80; apply Z.div_pos; lia).
  destruct (Z.eqb_spec phase 0) as [E|E].
  - rewrite !u64_id by lia. unfold need, non, quartersNeeded. rewrite E, Z.ltb_lt, Z.ltb_ge. lia.
  - destruct (Z.eqb_spec phase 4) as [E4|E4].
    { split; [done|]. split; [|done]. unfold need, non, quartersNeeded. rewrite E4. lia. }
    split; [|split]; [intros Hlt..|done]; rewrite (pauseRatio_agrees phase t) by (fold non need; lia);
      fold non need; [by apply Z.ltb_lt|apply Z.ltb_ge; lia].
Qed.

Lemma pause_thresholds_witness :
  pausePhase 2 28 35 5 0 = false /\ pausePhase 2 28 35 6 0 = true.
Proof.
  split; [refine (proj1 (proj2 (pause_thresholds 2 35 5 0 _ _ _ _)) _)
         |refine (proj1 (pause_thresholds 2 35 6 0 _ _ _ _) _)]; lia || (vm_compute; reflexivity).
Defined.

(** On the threshold rounding decides.  With 34 validators, a quorum of 28 and 31
    validators not lagging, the phase that asks for 31 of them pauses all the same,
    since the single-precision sum of the ratios exceeds the quotient; with 40
    validators, 32 and 36 it does not. *)
Theorem pause_on_threshold :
  quartersNeeded 2 28 34 = 4 * 31 /\ quorum80 34 = 28 /\ pausePhase 3 28 34 3 0 = true /\
  quartersNeeded 2 32 40 = 4 * 36 /\ quorum80 40 = 32 /\ pausePhase 3 32 40 4 0 = false.
Proof. vm_compute. done. Qed.
