(* ===== verification/EngineSample.v ===== *)
(** * The consensus state machine: a sample round

    A concrete hash of transaction sets, adaptor, ledger and peers, and the theorems
    of the state machine at the rounds run with them. *)
From S2P Require Import Prelude Parms Timing Decisions Disputed Proposal EngineState Pause Engine.
From S2P Require Import EngineFacts EngineSpec EngineProgress Thresholds.

#[local] Opaque txCompare.

(** ** A hash without collisions *)

#[export] Instance Tx_countable : Countable Tx.
Proof.
  apply (inj_countable' (fun t => (tx_id t, tx_blob t)) (fun x => mkTx x.1 x.2)). by intros [].
Defined.

#[export] Instance sampleHash : TxSetHash := fun s => Zpos (encode s).
Lemma sampleHash_distinct offered : collisionFree offered.
Proof. intros s s' _ _ [= E]. by apply encode_inj in E. Qed.

(** ** The parties *)

Module Round.
Definition offered (t : Tx) : Prop := t = mkTx 1 0 \/ t = mkTx 2 0.
Definition setA : TxSet := {[1 := mkTx 1 0]}.
Definition setB : TxSet := <[2 := mkTx 2 0]> setA.
Definition ledger : LedgerT := mkLedger 50 10 1000 30 true 970.

(** The adaptor at a time of the steady clock (in milliseconds): the network is on our
    ledger, we close with [setA], and [setB] can be had. *)
Definition adaptor (clock : Z) : Adaptor := {|
  parms := defaultParms;
  clockNow := clock * 1000000;
  acquireLedger := fun _ => None;
  acquireTxSet := fun i => if i =? txSetID setB then Some setB else None;
  getPrevLedger := fun _ _ _ => 50;
  hasOpenTransactions := true;
  proposersValidated := fun _ => 0;
  proposersFinished := fun _ _ => 0;
  onClose := fun l now _ => (setA, newProposal (l_id l) 0 (txSetID setA) now now 7);
  getValidLedgerIndex := 10;
  getQuorumKeys := (1, {[7; 9]});
  laggardsOf := fun _ keys => (0, keys);
  isValidator := true;
  haveValidated := true;
  validating := true
|}.

(** The peer's first position. *)
Definition peer (s : TxSet) : ConsensusProposal := newProposal 50 0 (txSetID s) 1020 1020 9.

(** A round started, the peer's position taken in, and the ledger closed. *)
Definition started : Consensus :=
  default newConsensus (startRound 2 (adaptor 0) newConsensus 1010 50 ledger ∅ true).
Definition heard (s : TxSet) : Consensus := (peerProposal (adaptor 1000) started 1020 (peer s)).2.
Definition closed (s : TxSet) : Consensus :=
  default newConsensus (timerEntry 2 (adaptor 3000) (heard s) 1020).
(** The round accepted two seconds later. *)
Definition ended : Consensus :=
  default newConsensus (timerEntry 2 (adaptor 6000) (closed setA) 1023).

Lemma keyed_A : keyed offered setA.
Proof. unfold setA, offered. intros t x [<- <-]%lookup_singleton_Some. auto. Qed.

Lemma keyed_B : keyed offered setB.
Proof.
  unfold setB, setA, offered.
  intros t x [[<- <-]|[_ [<- <-]%lookup_singleton_Some]]%lookup_insert_Some; auto.
Qed.

Lemma adaptor_good clock : adaptor_ok offered (adaptor clock).
Proof.
  constructor.
  - done.
  - intros i s. cbn [adaptor acquireTxSet]. destruct (Z.eqb_spec i (txSetID setB)) as [->|]; [|done].
    intros [= <-]. split; [done|apply keyed_B].
  - intros l now m s p [= <- <-]. split; [done|apply keyed_A].
Qed.

(** The result of a computation that succeeds. *)
Lemma default_some {A} (d : A) o : is_Some o -> o = Some (default d o).
Proof. by intros [x ->]. Qed.

Lemma reach_started : estep offered newConsensus started.
Proof.
  refine (StepStartRound offered 2 (adaptor 0) newConsensus 1010 50 ledger ∅ true started (adaptor_good 0) _).
  apply default_some. vm_compute. by eexists.
Qed.

Lemma reach_heard s : rtc (estep offered) newConsensus (heard s).
Proof.
  apply (rtc_l _ _ started); [apply reach_started|]. apply rtc_once.
  exact (StepPeerProposal offered (adaptor 1000) started 1020 (peer s) (adaptor_good 1000)).
Qed.

Lemma reach_closed s :
  is_Some (timerEntry 2 (adaptor 3000) (heard s) 1020) -> rtc (estep offered) newConsensus (closed s).
Proof.
  intros Hs. transitivity (heard s); [apply reach_heard|]. apply rtc_once.
  refine (StepTimer offered 2 (adaptor 3000) (heard s) 1020 (closed s) (adaptor_good 3000) _).
  exact (default_some newConsensus _ Hs).
Qed.

Definition resultOf (c : Consensus) : Result := default (newResult ∅ (peer ∅)) (result c).

(** The network's ledger can change: to another one, which can be had. *)
Definition switching (clock : Z) : Adaptor :=
  let a := adaptor clock in
  mkAdaptor (parms a) (clockNow a) (fun i => if i =? 60 then Some (mkLedger 60 10 1000 30 true 970) else None)
    (acquireTxSet a) (fun _ _ _ => 60) (hasOpenTransactions a) (proposersValidated a)
    (proposersFinished a) (onClose a) (getValidLedgerIndex a) (getQuorumKeys a) (laggardsOf a)
    (isValidator a) (haveValidated a) (validating a).

Lemma switching_stable clock i l m : namesStably (switching clock) i l m.
Proof. intros l'. cbn. by intros [= <-]. Qed.
End Round.

Import Round.

(** ** Witnesses *)

Lemma disputes_reflect_positions_witness :
  exists d, disputes (resultOf (closed setB)) !! 2 = Some d /\ votes d !! 9 = Some true /\
  yays d = countVotes true (votes d).
Proof.
  assert (Hr : rtc (estep offered) newConsensus (closed setB))
    by (apply reach_closed; vm_compute; by eexists).
  destruct (disputes_reflect_positions offered (sampleHash_distinct _) (closed setB)
    (resultOf (closed setB)) Hr ltac:(vm_compute; reflexivity)) as [H1 H2].
  destruct (H2 9 (peer setB) setB 2) as [[d Hd]|Hmany]; [vm_compute; reflexivity..|vm_compute; done| |];
    [|exfalso; vm_compute in Hmany; by apply Hmany].
  exists d. split; [exact Hd|]. destruct (H1 2 d Hd) as (_ & _ & H3 & _ & _ & H4). split; [|exact H3].
  exact (H4 9 (peer setB) setB ltac:(vm_compute; reflexivity) ltac:(vm_compute; reflexivity)).
Defined.

Lemma round_wellformed_witness :
  phase (closed setB) = Establish /\ is_Some (result (closed setB)) /\
  acquired (closed setB) !! txSetID setA = Some setA.
Proof.
  assert (Hr : rtc (estep offered) newConsensus (closed setB))
    by (apply reach_closed; vm_compute; by eexists).
  destruct (round_wellformed offered (sampleHash_distinct _) (closed setB) Hr) as (_ & H2 & H3 & _).
  split; [vm_compute; reflexivity|]. split; [apply H2; vm_compute; reflexivity|].
  exact (proj2 (H3 (resultOf (closed setB)) ltac:(vm_compute; reflexivity))).
Defined.

Lemma accept_safety_witness :
  exists r, result ended = Some r /\ haveCloseTimeConsensus ended = true /\ 1950 < readTimer (roundTime r).
Proof.
  destruct (accept_safety 2 (adaptor 6000) (closed setA) 1023 ended) as (r & Hr & _ & Hc & Hm & _).
  - vm_compute. discriminate.
  - vm_compute. reflexivity.
  - vm_compute. reflexivity.
  - vm_compute. done.
  - intros l i. vm_compute. done.
  - exists r. split; [exact Hr|]. split; [exact Hc|exact Hm].
Defined.

Lemma engine_terminates_witness :
  exists c', timerEntry 2 (switching 4000) (closed setB) 1021 = Some c' /\ prevLedgerID c' = 60.
Proof.
  destruct (proj1 (engine_terminates 1 (switching 4000) (closed setB) 1021 60 ledger ∅ true)
    (switching_stable 4000 _ _ _)) as (c' & _ & Hc). exists c'. split; [exact Hc|]. vm_compute in Hc. by injection Hc as <-.
Defined.

Lemma accepted_inert_witness :
  phase ended = Accepted /\ timerEntry 1 (switching 7000) ended 1030 = Some ended.
Proof.
  split; [vm_compute; reflexivity|].
  apply (accepted_inert 0 (switching 7000) ended 1030 (peer setB) setB). vm_compute. reflexivity.
Defined.

Lemma establish_decides_witness :
  exists c', timerEntry 1 (adaptor 200000) (set_establishCounter 7 (closed setB)) 1023 = Some c' /\
  (phase c' = Accepted <-> haveCloseTimeConsensus c' = true).
Proof.
  apply (establish_decides 0 (adaptor 200000) (set_establishCounter 7 (closed setB))
    (resultOf (closed setB)) 1023); try (vm_compute; done); vm_compute; split; congruence.
Defined.

Lemma closeTime_plurality_witness :
  exists t c', chooseCloseTime (adaptor 0) (resultOf (closed setB)) {[1020 := 1]} (closed setB) = (t, c') /\
  t = 1020.
Proof.
  destruct (chooseCloseTime (adaptor 0) (resultOf (closed setB)) {[1020 := 1]} (closed setB)) as [t c'] eqn:E.
  exists t, c'. split; [reflexivity|].
  destruct (closeTime_plurality (adaptor 0) (resultOf (closed setB)) {[1020 := 1]} (closed setB) t c'
    eq_refl ltac:(vm_compute; discriminate) E) as [(_ & _ & Hall)|(v & Hv & _)].
  - exfalso. specialize (Hall 1020 2 ltac:(vm_compute; reflexivity)). vm_compute in Hall. discriminate.
  - vm_compute in E. by injection E as <- _.
Defined.
