(* ===== verification/Composition.v ===== *)
(** * Consensus on validations

    The state machine with the answers of src/xrpld/app/consensus/RCLConsensus.cpp that
    come from the validations: the previous ledger the network prefers, the numbers of
    proposers that have validated or finished, and the laggards.  The choice of the
    preferred ledger is stable under switching to it, which is what the state machine
    needs to return. *)
From S2P Require Import Prelude Ledgers Trie TrieKnown Validations ValidationsFacts ValidationsSpec.
From S2P Require Import Parms Timing Decisions Disputed Proposal EngineState Engine EngineProgress EngineSample.

Section Composition.
Context {L : Type} `{LedgerOps L}.

(** The adaptor over [base], with validations [v] in the environment [env]; [toL] is
    [RCLValidatedLedger(ledger, journal)]. *)
Definition onValidations (base : Adaptor) (toL : LedgerT -> L) (p : ValidationParms) (env : Env L)
    (v : Validations L) : Adaptor := {|
  parms := parms base;
  clockNow := clockNow base;
  acquireLedger := acquireLedger base;
  acquireTxSet := acquireTxSet base;
  getPrevLedger := fun _ l _ => (preferredFrom p env v (toL l) (getValidLedgerIndex base)).1;
  hasOpenTransactions := hasOpenTransactions base;
  proposersValidated := fun h => (numTrustedForLedger env v h).1;
  proposersFinished := fun l h => (getNodesAfter p env v (toL l) h).1;
  onClose := onClose base;
  getValidLedgerIndex := getValidLedgerIndex base;
  getQuorumKeys := getQuorumKeys base;
  laggardsOf := fun s keys => (laggards p env v s keys).1;
  isValidator := isValidator base;
  haveValidated := haveValidated base;
  validating := validating base
|}.

Context (valid : L -> Prop) `{!KnownLedgers L valid}.
Context (validators : gset Z) (few : Z.of_nat (size validators) < 2 ^ 32).

(** Ledgers with the same identifier answer alike. *)
Lemma choosePreferred_same a b tip :
  valid a -> valid b -> lid a = lid b -> 0 <= st_seq tip -> choosePreferred a tip = choosePreferred b tip.
Proof.
  intros Ha Hb Eid Hs. pose proof (known_range valid a Ha). pose proof (known_range valid b Hb).
  assert (Es : lseq a = lseq b).
  { apply (known_seq valid a b); try done; [lia|lia|]. by rewrite <-!known_self. }
  unfold choosePreferred. rewrite Es, Eid. destruct (_ && _); [done|].
  destruct (Z.ltb_spec (lseq b) (st_seq tip)); [done|].
  by rewrite (known_same a b) by (done || lia).
Qed.

(** The preferred ledger, once adopted, is still preferred. *)
Lemma choosePreferred_settles t tip curr new :
  onTrie valid t tip -> valid curr -> valid new ->
  lid new = (choosePreferred curr tip).2 -> (choosePreferred new tip).2 = lid new.
Proof.
  intros Htip Hc Hn Hid. pose proof (known_range valid new Hn) as Hrn.
  pose proof (choosePreferred_spec valid validators t tip curr Htip Hc) as Hch.
  destruct (choosePreferred curr tip) as [s id] eqn:Ech. cbn [snd] in Hid. subst id.
  destruct Hch as [[= -> Eid]|([= -> Eid] & _)].
  - rewrite (choosePreferred_same new curr), Ech; try done. apply (on_seq _ _ _ Htip).
  - unfold choosePreferred. destruct (_ && _); [done|].
    destruct (_ <? _); [done|]. destruct (negb _); done.
Qed.

(** Asked again on the ledger it named, [getPreferred] names it again. *)
Lemma preferredFrom_settles p env v curr new low :
  env_ok valid env -> vals_ok valid validators v -> valid curr -> valid new ->
  lid new = (preferredFrom p env v curr low).1 ->
  (preferredFrom p env v new low).1 = (preferredFrom p env v curr low).1.
Proof.
  intros Henv Hv Hc Hn. pose proof (withTrie_ok valid validators few p env v Henv Hv) as Hw.
  unfold preferredFrom, preferredLedger. set (v1 := withTrie p env v) in *.
  destruct (ok_tracks _ _ _ Hw) as [Hb _ _].
  destruct (empty (trie v1)) eqn:He.
  - unfold getPreferred. rewrite He. cbn [setTrie acquiring].
    destruct (fst <$> _) as [[s id]|]; cbn [fst]; [destruct (low <=? s)|]; done.
  - destruct (stands_preferred valid (trie v1) _ (largest (localSeqEnforcer v1)) Hb He)
      as (tip & r0 & -> & _ & Htip & _).
    pose proof (choosePreferred_settles (trie v1) tip curr new Htip Hc Hn) as Hset.
    pose proof (choosePreferred_same new curr tip Hn Hc) as Hsame.
    destruct (choosePreferred curr tip) as [s id]. cbn [fst snd] in *.
    destruct (Z.leb_spec low s) as [Hl|Hl]; intros Hid.
    + destruct (choosePreferred new tip) as [s' id']. rewrite <-Hid. cbn in Hset.
      rewrite (Hset Hid). by destruct (low <=? s').
    + rewrite Hsame by (done || apply (on_seq _ _ _ Htip)). by destruct (Z.leb_spec low s); [lia|].
Qed.


End Composition.

(** ** A switch *)

Import Ledgers.Sample Round.

(** The server is on ledger 21; the validations prefer 22, which can be had. *)
Definition sampleToL (l : LedgerT) : RCLValidatedLedger :=
  if l_id l =? 21 then L21 else if l_id l =? 22 then L22 else L11.

Definition sampleLedgers (i : Z) : option LedgerT :=
  if (i =? 21) || (i =? 22) then Some (mkLedger i 2 1000 30 true 970) else None.

Definition sampleBase : Adaptor :=
  let a := adaptor 4000 in
  mkAdaptor (parms a) (clockNow a) sampleLedgers (acquireTxSet a) (getPrevLedger a)
    (hasOpenTransactions a) (proposersValidated a) (proposersFinished a) (onClose a) 1
    (getQuorumKeys a) (laggardsOf a) (isValidator a) (haveValidated a) (validating a).

Definition sampleState : Consensus :=
  set_phase Open (set_prevLedgerID 21 (set_previousLedger (mkLedger 21 2 1000 30 true 970) newConsensus)).

