(* ===== verification/Digits.v ===== *)
(** * Positional numbers

    Lists of digits in a base, most significant first ([valBE]) or least significant
    first ([valLE]), their values, and the uniqueness of the digits of a number without
    leading zeros.  Used by the base-58 codec and the serializer. *)
From S2P Require Import Prelude.

(** The value of big-endian digits. *)
Definition valBE (b : Z) (l : list Z) : Z := foldl (fun a d => a * b + d) 0 l.

(** The value of little-endian digits. *)
Fixpoint valLE (b : Z) (l : list Z) : Z :=
  match l with [] => 0 | d :: l' => d + b * valLE b l' end.

Definition isDigits (b : Z) (l : list Z) : Prop := Forall (fun d => 0 <= d < b) l.

(** The digits without their leading zeros, and the number of those. *)
Fixpoint stripZeros (l : list Z) : list Z :=
  match l with [] => [] | d :: l' => if d =? 0 then stripZeros l' else l end.
Fixpoint countZeros (l : list Z) : nat :=
  match l with [] => O | d :: l' => if d =? 0 then S (countZeros l') else O end.

(** No leading zero. *)
Definition canonical (l : list Z) : Prop := head l <> Some 0.

(** ** Values *)

Lemma valBE_foldl b l a : foldl (fun a d => a * b + d) a l = a * b ^ Z.of_nat (length l) + valBE b l.
Proof.
  revert a. induction l as [|d l IH]; intros a.
  - unfold valBE. cbn. lia.
  - unfold valBE. cbn [foldl length]. rewrite !IH, Nat2Z.inj_succ, Z.pow_succ_r by lia. lia.
Qed.

Lemma valBE_cons b d l : valBE b (d :: l) = d * b ^ Z.of_nat (length l) + valBE b l.
Proof. unfold valBE at 1. cbn [foldl]. rewrite valBE_foldl. lia. Qed.

Lemma valBE_app b l k : valBE b (l ++ k) = valBE b l * b ^ Z.of_nat (length k) + valBE b k.
Proof. unfold valBE at 1. rewrite foldl_app. apply valBE_foldl. Qed.

Lemma valBE_snoc b l d : valBE b (l ++ [d]) = valBE b l * b + d.
Proof. rewrite valBE_app. unfold valBE. cbn. lia. Qed.

Lemma valBE_range b l : 0 < b -> isDigits b l -> 0 <= valBE b l < b ^ Z.of_nat (length l).
Proof.
  intros Hb. induction 1 as [|d l Hd Hl IH]; [cbn; lia|].
  rewrite valBE_cons. cbn [length]. rewrite Nat2Z.inj_succ, Z.pow_succ_r by lia. nia.
Qed.

Lemma valBE_replicate_zero b n : valBE b (replicate n 0) = 0.
Proof. induction n; [done|]. cbn [replicate]. rewrite valBE_cons. lia. Qed.

Lemma valLE_rev b l : valLE b l = valBE b (rev l).
Proof. induction l as [|d l IH]; [done|]. cbn [valLE rev]. rewrite valBE_snoc, IH. lia. Qed.

Lemma isDigits_rev b l : isDigits b l -> isDigits b (rev l).
Proof.
  unfold isDigits. rewrite !Forall_forall. intros Hl x Hx. apply Hl.
  by apply list_elem_of_In, in_rev, list_elem_of_In.
Qed.

Lemma valLE_range b l : 0 < b -> isDigits b l -> 0 <= valLE b l < b ^ Z.of_nat (length l).
Proof.
  intros Hb Hl. rewrite valLE_rev, <-(length_rev l). apply valBE_range; [done|]. by apply isDigits_rev.
Qed.

Lemma valLE_app b l k : valLE b (l ++ k) = valLE b l + b ^ Z.of_nat (length l) * valLE b k.
Proof.
  induction l as [|d l IH]; cbn [app valLE length]; [lia|].
  rewrite IH, Nat2Z.inj_succ, Z.pow_succ_r by lia. lia.
Qed.

(** ** Leading zeros *)

Lemma stripZeros_spec l : l = replicate (countZeros l) 0 ++ stripZeros l /\ canonical (stripZeros l).
Proof.
  induction l as [|d l [E Hc]]; [done|]. cbn [countZeros stripZeros].
  destruct (Z.eqb_spec d 0) as [->|Hd].
  - split; [|done]. cbn [replicate app]. by rewrite <-E.
  - split; [done|]. unfold canonical. cbn. congruence.
Qed.

Lemma valBE_strip b l : valBE b (stripZeros l) = valBE b l.
Proof.
  destruct (stripZeros_spec l) as [E _]. rewrite E at 2. rewrite valBE_app, valBE_replicate_zero. lia.
Qed.

Lemma isDigits_strip b l : isDigits b l -> isDigits b (stripZeros l).
Proof. intros Hl. destruct (stripZeros_spec l) as [E _]. rewrite E in Hl. by apply Forall_app in Hl as [_ Hl]. Qed.

Lemma countZeros_replicate n l : canonical l -> countZeros (replicate n 0 ++ l) = n.
Proof.
  intros Hl. induction n; cbn; [|by rewrite IHn]. destruct l as [|d l]; [done|]. cbn.
  destruct (Z.eqb_spec d 0) as [->|]; [by destruct Hl|done].
Qed.

Lemma stripZeros_replicate n l : canonical l -> stripZeros (replicate n 0 ++ l) = l.
Proof.
  intros Hl. induction n; cbn; [|done]. destruct l as [|d l]; [done|]. cbn.
  destruct (Z.eqb_spec d 0) as [->|]; [by destruct Hl|done].
Qed.

Lemma canonical_lower b l :
  1 < b -> isDigits b l -> canonical l -> l <> [] -> b ^ (Z.of_nat (length l) - 1) <= valBE b l.
Proof.
  intros Hb Hl Hc Hne. destruct l as [|d l]; [done|]. apply Forall_cons in Hl as [Hd Hl].
  rewrite valBE_cons. cbn [length]. pose proof (valBE_range b l ltac:(lia) Hl).
  assert (d <> 0) by (intros ->; by destruct Hc).
  replace (Z.of_nat (S (length l)) - 1) with (Z.of_nat (length l)) by lia. nia.
Qed.

(** ** Uniqueness *)

Lemma valBE_inj b l k :
  1 < b -> isDigits b l -> isDigits b k -> length l = length k -> valBE b l = valBE b k -> l = k.
Proof.
  intros Hb Hl. revert k. induction Hl as [|d l Hd Hl IH]; intros k Hk Hlen E; [by destruct k|].
  destruct k as [|e k]; [done|]. apply Forall_cons in Hk as [He Hk]. injection Hlen as Hlen.
  rewrite !valBE_cons, Hlen in E.
  pose proof (valBE_range b l ltac:(lia) Hl) as Rl. pose proof (valBE_range b k ltac:(lia) Hk) as Rk.
  rewrite Hlen in Rl. assert (d = e) as -> by nia. f_equal. apply IH; [done|done|lia].
Qed.

(** Canonical digits of equal value are equal. *)
Lemma canonical_unique b l k :
  1 < b -> isDigits b l -> isDigits b k -> canonical l -> canonical k -> valBE b l = valBE b k -> l = k.
Proof.
  intros Hb Hl Hk Cl Ck E. apply (valBE_inj b); try done.
  assert (Hlt : forall l k, isDigits b l -> isDigits b k -> canonical k -> valBE b l = valBE b k ->
    (length k <= length l)%nat).
  { clear l k Hl Hk Cl Ck E. intros l k Hl Hk Ck E. destruct (decide (k = [])) as [->|Hne]; [cbn; lia|].
    pose proof (canonical_lower b k Hb Hk Ck Hne) as Hlow. pose proof (valBE_range b l ltac:(lia) Hl).
    assert (b ^ (Z.of_nat (length k) - 1) < b ^ Z.of_nat (length l)) as Hp by lia.
    apply Z.pow_lt_mono_r_iff in Hp; lia. }
  apply Nat.le_antisymm; by apply Hlt.
Qed.

(** Bytes of the prelude are digits in base 256. *)
Lemma beValue_valBE l : beValue l = valBE 256 l.
Proof.
  induction l as [|d l IH]; [done|]. rewrite valBE_cons. cbn [beValue]. rewrite IH.
  replace (2 ^ (8 * Z.of_nat (length l))) with (256 ^ Z.of_nat (length l)); [done|].
  change 256 with (2 ^ 8). rewrite <-Z.pow_mul_r by lia. done.
Qed.

Lemma beBytes_digits n x : isDigits 256 (beBytes n x).
Proof. induction n; cbn; constructor; [|done]. by apply Z.mod_pos_bound. Qed.

(** ** Bit fields *)

(** Shift and or append a field. *)
Lemma lor_shift a d k : 0 <= k -> 0 <= d < 2 ^ k -> Z.lor (Z.shiftl a k) d = a * 2 ^ k + d.
Proof.
  intros Hk Hd. rewrite <-(Z.shiftl_mul_pow2 a k), <-Z.add_lor_land by done.
  assert (E : Z.land (Z.shiftl a k) d = 0); [|lia].
  apply Z.bits_inj'. intros n Hn. rewrite Z.land_spec, Z.bits_0, Z.shiftl_spec by done.
  destruct (Z.ltb_spec n k); [by rewrite (Z.testbit_neg_r _ (n - k)) by lia|].
  destruct (Z.eq_dec d 0) as [->|]; [by rewrite Z.bits_0, andb_false_r|].
  rewrite (Z.bits_above_log2 d n), andb_false_r; [done|lia|].
  apply Z.log2_lt_pow2; [lia|]. eapply Z.lt_le_trans; [apply Hd|]. apply Z.pow_le_mono_r; lia.
Qed.

#[export] Hint Resolve isDigits_strip isDigits_rev beBytes_digits : xrpl.
