(* ===== verification/Base58.v ===== *)
(** * Base-58 tokens

    The token codec of src/libxrpl/protocol/tokens.cpp: the reference implementation
    (namespace [b58_ref]) and the fast one (namespace [b58_fast], with the arithmetic of
    include/xrpl/protocol/detail/b58_utils.h), which converts through the bases 58^10
    and 2^64.

    Bytes and characters are integers below 256; a string is the list of its character
    codes.  [sha256] is a parameter.  An access outside an array or a span is the value
    [Undefined]; the spans written to are given by their sizes. *)
From stdpp Require Import strings.
From S2P Require Import Prelude Digits.

(** [TokenCodecErrc] *)
Inductive TokenCodecErrc :=
| InputTooLarge | InputTooSmall | BadB58Character | OutputTooSmall | MismatchedTokenType
| MismatchedChecksum | InvalidEncodingChar | OverflowAdd | Unknown.

(** [B58Result] *)
Inductive B58Result (A : Type) :=
| Ok (a : A)
| Err (e : TokenCodecErrc)
| Undefined.
Arguments Ok {A} a.
Arguments Err {A} e.
Arguments Undefined {A}.

Inductive TokenType :=
| TNone | NodePublic | NodePrivate | AccountID | AccountPublic | AccountSecret | FamilyGenerator
| FamilySeed.

Definition tokenCode (t : TokenType) : Z :=
  match t with
  | TNone => 1 | NodePublic => 28 | NodePrivate => 32 | AccountID => 0 | AccountPublic => 35
  | AccountSecret => 34 | FamilyGenerator => 41 | FamilySeed => 33
  end.

(** ** The alphabet *)

Definition codes (s : String.string) : list Z :=
  map (fun c => Z.of_N (Ascii.N_of_ascii c)) (String.list_ascii_of_string s).

Definition kAlphabetForward : list Z :=
  codes "rpshnaf39wBUDNEGHJKLM4PQRST7VWXYZ2bcdeCg65jkm8oFqi1tuvAxyz"%string.

Definition kAlphabetReverse : list Z :=
  foldl (fun m e => <[Z.to_nat e.2 := e.1]> m) (replicate 256 (-1))
    (zip (seqZ 0 (Z.of_nat (length kAlphabetForward))) kAlphabetForward).

(** Indexing the two tables *)
Definition forward (d : Z) : Z := default 0 (kAlphabetForward !! Z.to_nat d).
Definition reverse (c : Z) : Z := default (-1) (kAlphabetReverse !! Z.to_nat c).

(** [checksum] *)
Definition checksum (sha256 : list Z -> list Z) (message : list Z) : list Z :=
  take 4 (sha256 (sha256 message)).

(** ** The reference implementation *)

Module Ref.

(** The inner loops: [digits = digits * mult + carry] in [base], from the last digit;
    the final carry is asserted to be zero and dropped. *)
Definition mulAdd (base mult : Z) (digits : list Z) (carry : Z) : list Z * Z :=
  foldr (fun d acc => let c := acc.2 + mult * d in (c mod base :: acc.1, c / base)) ([], carry) digits.

Definition encodeBase58 (message : list Z) (tempSize : nat) : list Z :=
  let zeroes := countZeros message in
  let b58 := foldl (fun b58 ch => (mulAdd 58 256 b58 ch).1) (replicate tempSize 0) (stripZeros message) in
  replicate zeroes (forward 0) ++ map forward (stripZeros b58).

(** One character of the decoding loop *)
Definition decodeChar (b256 : option (list Z)) (ch : Z) : option (list Z) :=
  match b256 with
  | Some b256 =>
      let carry := reverse ch in
      if carry =? -1 then None else Some (mulAdd 256 58 b256 carry).1
  | None => None
  end.

Definition decodeBase58 (s : list Z) : list Z :=
  let zeroes := countZeros (map reverse s) in
  let rest := drop zeroes s in
  let remain := Z.of_nat (length rest) in
  if 64 <? remain then []
  else
    match foldl decodeChar (Some (replicate (Z.to_nat (remain * 733 / 1000 + 1)) 0)) rest with
    | Some b256 => replicate zeroes 0 ++ stripZeros b256
    | None => []
    end.

Section Token.
Context (sha256 : list Z -> list Z).

Definition encodeBase58Token (type : TokenType) (token : list Z) : list Z :=
  let expanded := (1 + length token + 4)%nat in
  let bufsize := (expanded * 3)%nat in
  let buf := tokenCode type :: token in
  encodeBase58 (buf ++ checksum sha256 buf) (bufsize - expanded).

Definition decodeBase58Token (s : list Z) (type : TokenType) : list Z :=
  let ret := decodeBase58 s in
  if (length ret <? 6)%nat then []
  else if negb (tokenCode type =? default 0 (head ret)) then []
  else
    let guard := checksum sha256 (take (length ret - 4) ret) in
    if negb (bool_decide (drop (length ret - 4) ret = guard)) then []
    else take (length ret - 1 - 4) (drop 1 ret).
End Token.
End Ref.

(** ** Multi-precision arithmetic *)

Module Fast.

Definition B : Z := 2 ^ 64.
(** [kB5810], 58^10 *)
Definition kB5810 : Z := 430804206899405824.

Definition divRem (a b : Z) : Z * Z := (a / b, a mod b).
Definition carryingMul (a b carry : Z) : Z * Z := let c := a * b + carry in (c mod B, c / B).
Definition carryingAdd (a b : Z) : Z * Z := let c := a + b in (c mod B, c / B).

(** The loop of [inplaceBigintAdd] *)
Fixpoint addCarry (a : list Z) (carry : Z) : list Z * Z :=
  match a with
  | [] => ([], carry)
  | v :: a' =>
      if carry =? 0 then (a, 0)
      else let '(v, carry) := carryingAdd v 1 in let '(a', carry) := addCarry a' carry in (v :: a', carry)
  end.

Definition inplaceBigintAdd (a : list Z) (b : Z) : B58Result (list Z) :=
  match a with
  | [] | [_] => Err InputTooSmall
  | v :: a' =>
      let '(v, carry) := carryingAdd v b in
      let '(a', carry) := addCarry a' carry in
      if negb (carry =? 0) then Err OverflowAdd else Ok (v :: a')
  end.

(** The loop of [inplaceBigintMul] *)
Fixpoint mulCarry (a : list Z) (b carry : Z) : list Z * Z :=
  match a with
  | [] => ([], carry)
  | v :: a' =>
      let '(v, carry) := carryingMul v b carry in
      let '(a', carry) := mulCarry a' b carry in (v :: a', carry)
  end.

Definition inplaceBigintMul (a : list Z) (b : Z) : B58Result (list Z) :=
  match last a with
  | None => Err InputTooSmall
  | Some top =>
      if negb (top =? 0) then Err InputTooLarge
      else let '(a', carry) := mulCarry (removelast a) b 0 in Ok (a' ++ [carry])
  end.

(** From the most significant coefficient down, the remainder carried along. *)
Definition inplaceBigintDivRem (numerator : list Z) (divisor : Z) : list Z * Z :=
  foldr (fun d acc =>
           let cur := Z.lor (Z.shiftl acc.2 64) d in
           let q := cur / divisor in
           (u64 q :: acc.1, u64 (cur - divisor * q))) ([], 0) numerator.

(** The loop of [b5810ToB58Be], for the [room] lowest places *)
Fixpoint b58Digits (room : nat) (input : Z) : list Z :=
  match room with
  | O => []
  | S room' =>
      if 0 <? input then let '(input, rem) := divRem input 58 in b58Digits room' input ++ [rem]
      else replicate room 0
  end.

Definition b5810ToB58Be (input : Z) : list Z := b58Digits 10 input.

(** ** Encoding *)

(** Coefficients in base 2^64, lowest first, of big-endian bytes: [room] of them from
    the [i]-th on *)
Fixpoint base264 (room i : nat) (input : list Z) : list Z :=
  match room with
  | O => []
  | S room' =>
      if (length input <=? i * 8)%nat then []
      else
        let srcIEnd := (length input - i * 8)%nat in
        (if (8 <=? srcIEnd)%nat then beValue (take 8 (drop (srcIEnd - 8) input))
         else foldl (fun be b => Z.lor (u64 (Z.shiftl be 8)) b) 0 (take srcIEnd input))
        :: base264 room' (S i) input
  end.

(** The loop that divides by 58^10, collecting the remainders, lowest first, in the
    [room] places left of [base5810Coeff]; [None] is a write past its end. *)
Fixpoint divLoop (room : nat) (base264Coeff : list Z) (cur264End : nat) : option (list Z) :=
  match cur264End with
  | O => Some []
  | S _ =>
      match room with
      | O => None
      | S room' =>
          let '(q, rem) := inplaceBigintDivRem (take cur264End base264Coeff) kB5810 in
          let base264Coeff := q ++ drop cur264End base264Coeff in
          let cur264End :=
            if default 0 (base264Coeff !! pred cur264End) =? 0 then pred cur264End else cur264End in
          match divLoop room' base264Coeff cur264End with
          | Some rems => Some (rem :: rems)
          | None => None
          end
      end
  end.

(** The coefficients in base 58^10, highest first, into the alphabet *)
Fixpoint translate (outSize : nat) (coeffs : list Z) (skipZeros : bool) (out : list Z)
    : B58Result (list Z) :=
  match coeffs with
  | [] => Ok out
  | c :: coeffs' =>
      if skipZeros && (c =? 0) then translate outSize coeffs' skipZeros out
      else if kB5810 <=? c then Err InputTooLarge
      else
        let b58Be := b5810ToB58Be c in
        let toSkip := if skipZeros then countZeros b58Be else O in
        if skipZeros && (outSize <? length coeffs * 10 - toSkip)%nat then Err OutputTooSmall
        else
          let out := out ++ map forward (drop toSkip b58Be) in
          if (outSize <? length out)%nat then Undefined else translate outSize coeffs' false out
  end.

Definition b256ToB58Be (input : list Z) (outSize : nat) : B58Result (list Z) :=
  if (38 <? length input)%nat then Err InputTooLarge
  else
    let inputZeros := countZeros input in
    let base264Coeff := base264 5 0 (stripZeros input) in
    match divLoop 6 base264Coeff (length base264Coeff) with
    | Some base5810Coeff =>
        if (outSize <? inputZeros)%nat then Undefined
        else translate outSize (rev base5810Coeff) true (replicate inputZeros (forward 0))
    | None => Undefined
    end.

(** ** Decoding *)

(** [coeff *= 58; coeff += curVal] *)
Definition addDigit (coeff curVal : Z) : Z := u64 (coeff * 58) +64 curVal.

(** A character of the partial coefficient *)
Definition partialStep (coeff : option Z) (c : Z) : option Z :=
  match coeff with
  | Some coeff => if reverse c <? 0 then None else Some (addDigit coeff (reverse c))
  | None => None
  end.

(** The [i]-th character of the [j]-th full coefficient *)
Definition fullStep (input : list Z) (partialLen numPartial i : nat) (coeffs : option (list Z)) (j : nat)
    : option (list Z) :=
  match coeffs with
  | Some coeffs =>
      let curVal := reverse (default 0 (input !! (partialLen + j * 10 + i)%nat)) in
      if curVal <? 0 then None
      else Some (alter (fun c => addDigit c curVal) (numPartial + j)%nat coeffs)
  | None => None
  end.

(** The coefficients in base 58^10, highest first, in an array of six *)
Definition parseCoeffs (input : list Z) : option (list Z) :=
  let numFull := (length input / 10)%nat in
  let partialLen := (length input mod 10)%nat in
  let numPartial := if (partialLen =? 0)%nat then O else 1%nat in
  match foldl partialStep (Some 0) (take partialLen input) with
  | Some c =>
      foldl (fun coeffs i => foldl (fullStep input partialLen numPartial i) coeffs (seq 0 numFull))
        (Some (c :: replicate 5 0)) (seq 0 10)
  | None => None
  end.

(** One step of the conversion to base 2^64: the number so far in the lowest
    [curResultSize] coefficients of [result] *)
Definition mulAddStep (acc : B58Result (list Z * nat)) (c : Z) : B58Result (list Z * nat) :=
  match acc with
  | Ok (result, curResultSize) =>
      if (length result <? curResultSize + 1)%nat then Undefined
      else
        match inplaceBigintMul (take (curResultSize + 1) result) kB5810 with
        | Ok a =>
            match inplaceBigintAdd a c with
            | Ok a =>
                let result := a ++ drop (curResultSize + 1) result in
                Ok (result, if default 0 (result !! curResultSize) =? 0 then curResultSize
                            else S curResultSize)
            | Err e => Err e
            | Undefined => Undefined
            end
        | Err e => Err e
        | Undefined => Undefined
        end
  | e => e
  end.

Definition b58ToB256Be (input : list Z) (outSize : nat) : B58Result (list Z) :=
  if (52 <? length input)%nat then Err InputTooLarge
  else if (outSize <? 8)%nat then Err OutputTooSmall
  else
    let inputZeros := countZeros (map (fun c => c - forward 0) input) in
    match parseCoeffs input with
    | None => Err InvalidEncodingChar
    | Some coeffs =>
        let numCoeffs :=
          (length input / 10 + (if length input mod 10 =? 0 then 0 else 1))%nat in
        match foldl mulAddStep (Ok (default 0 (head coeffs) :: replicate 4 0, 1%nat))
                (drop 1 (take numCoeffs coeffs)) with
        | Ok (result, curResultSize) =>
            let top := stripZeros (beBytes 8 (default 0 (result !! pred curResultSize))) in
            let curOutI := (inputZeros + length top)%nat in
            if (outSize <? curOutI)%nat then Undefined
            else if (outSize <? curOutI + 8 * pred curResultSize)%nat then Err OutputTooSmall
            else Ok (replicate inputZeros 0 ++ top ++
                     concat (map (beBytes 8) (rev (take (pred curResultSize) result))))
        | Err e => Err e
        | Undefined => Undefined
        end
    end.

(** ** Tokens *)

Section Token.
Context (sha256 : list Z -> list Z).

Definition encodeToken (type : TokenType) (input : list Z) (outSize : nat) : B58Result (list Z) :=
  if (128 - 5 <? length input)%nat then Err InputTooLarge
  else if bool_decide (input = []) then Err InputTooSmall
  else
    let buf := tokenCode type :: input in
    b256ToB58Be (buf ++ checksum sha256 buf) outSize.

Definition decodeToken (type : TokenType) (s : list Z) (outSize : nat) : B58Result (list Z) :=
  match b58ToB256Be s 64 with
  | Ok ret =>
      if (length ret <? 6)%nat then Err InputTooSmall
      else if negb (tokenCode type =? default 0 (head ret)) then Err MismatchedTokenType
      else
        let guard := checksum sha256 (take (length ret - 4) ret) in
        if negb (bool_decide (drop (length ret - 4) ret = guard)) then Err MismatchedChecksum
        else if (outSize <? length ret - 1 - 4)%nat then Err OutputTooSmall
        else Ok (take (length ret - 1 - 4) (drop 1 ret))
  | e => e
  end.

(** The interfaces with strings, empty on errors; [None] is undefined behaviour. *)
Definition ofResult (r : B58Result (list Z)) : option (list Z) :=
  match r with Ok s => Some s | Err _ => Some [] | Undefined => None end.

Definition encodeBase58Token (type : TokenType) (token : list Z) : option (list Z) :=
  ofResult (encodeToken type token 128).

Definition decodeBase58Token (s : list Z) (type : TokenType) : option (list Z) :=
  ofResult (decodeToken type s 64).
End Token.
End Fast.
