(* ===== verification/Base58Facts.v ===== *)
(** * Base-58 tokens: the two implementations

    Both codecs relate the same byte strings and texts ([b58rel]): as many leading
    zeros, and after them the digits of the same number. *)
From S2P Require Import Prelude Digits Base58.
Import Fast.

(** ** The alphabet *)

(** The bytes. *)
Definition isBytes (l : list Z) : Prop := isDigits 256 l.

Lemma reverse_forward d : 0 <= d < 58 -> reverse (forward d) = d /\ 0 <= forward d < 256.
Proof.
  intros Hd.
  assert (Hall : forallb (fun d => (reverse (forward d) =? d) && (0 <=? forward d) && (forward d <? 256))
    (seqZ 0 58) = true) by (vm_compute; reflexivity).
  apply (forallb_seqZ _ 0 58 d) in Hall; [|lia]. cbv beta in Hall. breflect. lia.
Qed.

Lemma forward_reverse c :
  0 <= c < 256 -> reverse c = -1 \/ (0 <= reverse c < 58 /\ forward (reverse c) = c).
Proof.
  intros Hc.
  assert (Hall : forallb (fun c => (reverse c =? -1) ||
    ((0 <=? reverse c) && (reverse c <? 58) && (forward (reverse c) =? c))) (seqZ 0 256) = true)
    by (vm_compute; reflexivity).
  apply (forallb_seqZ _ 0 256 c) in Hall; [|lia]. cbv beta in Hall. apply orb_true_iff in Hall as [?|?]; breflect; lia.
Qed.

(** The characters of the alphabet. *)
Definition valid58 (s : list Z) : Prop := Forall (fun c => 0 <= c < 256 /\ 0 <= reverse c) s.

#[export] Instance valid58_dec s : Decision (valid58 s).
Proof. unfold valid58. apply _. Defined.

Lemma valid58_char c : 0 <= c < 256 -> 0 <= reverse c -> 0 <= reverse c < 58 /\ forward (reverse c) = c.
Proof. intros Hc Hr. destruct (forward_reverse c Hc) as [?|?]; [lia|done]. Qed.

Lemma valid58_digits s : valid58 s -> isDigits 58 (map reverse s).
Proof.
  intros Hs. apply Forall_map. eapply Forall_impl; [exact Hs|]. intros c [Hc Hr]. by apply valid58_char.
Qed.

Lemma forward_reverse_map s : valid58 s -> map forward (map reverse s) = s.
Proof.
  induction 1 as [|c s [Hc Hr] Hs IH]; [done|]. cbn. rewrite IH. f_equal. by apply valid58_char.
Qed.

Lemma reverse_forward_map l : isDigits 58 l -> map reverse (map forward l) = l.
Proof. induction 1 as [|d l Hd Hl IH]; [done|]. cbn. rewrite IH. f_equal. by apply reverse_forward. Qed.

Lemma forward_valid l : isDigits 58 l -> valid58 (map forward l).
Proof.
  intros Hl. apply Forall_map. eapply Forall_impl; [exact Hl|]. intros d Hd.
  destruct (reverse_forward d Hd) as [E ?]. cbv beta in Hd |- *. rewrite E. lia.
Qed.

(** ** The relation *)

Definition b58rel (m s : list Z) : Prop :=
  exists z bs ds, m = replicate z 0 ++ bs /\ s = replicate z (forward 0) ++ map forward ds /\
  isDigits 256 bs /\ canonical bs /\ isDigits 58 ds /\ canonical ds /\ valBE 256 bs = valBE 58 ds.

Lemma b58rel_digits m s :
  isBytes m -> valid58 s -> countZeros m = countZeros (map reverse s) ->
  valBE 256 m = valBE 58 (map reverse s) -> b58rel m s.
Proof.
  intros Hm Hs Hz Hv. exists (countZeros m), (stripZeros m), (stripZeros (map reverse s)).
  destruct (stripZeros_spec m) as [Em Cm]. destruct (stripZeros_spec (map reverse s)) as [Es Cs].
  pose proof (valid58_digits s Hs) as Hd. split; [done|]. split.
  { rewrite <-(forward_reverse_map s Hs) at 1. rewrite Es at 1. rewrite map_app, <-Hz. f_equal.
    clear. induction (countZeros m); cbn; [done|]. by f_equal. }
  split; [by apply isDigits_strip|]. split; [done|]. split; [by apply isDigits_strip|]. split; [done|].
  by rewrite !valBE_strip.
Qed.

Lemma b58rel_inv m s :
  b58rel m s -> isBytes m /\ valid58 s /\ countZeros m = countZeros (map reverse s) /\
  valBE 256 m = valBE 58 (map reverse s).
Proof.
  intros (z & bs & ds & -> & -> & Hb & Cb & Hd & Cd & E).
  assert (Er : map reverse (replicate z (forward 0) ++ map forward ds) = replicate z 0 ++ ds).
  { rewrite map_app, reverse_forward_map by done. f_equal. clear. induction z; cbn; [done|]. by f_equal. }
  rewrite Er, !countZeros_replicate, !valBE_app, !valBE_replicate_zero by done.
  split; [|split; [|split; [done|lia]]].
  - apply Forall_app. split; [|done]. apply Forall_replicate. lia.
  - apply Forall_app. split; [|by apply forward_valid]. apply Forall_replicate.
    destruct (reverse_forward 0 ltac:(lia)) as [-> ?]. lia.
Qed.

(** Each side determines the other. *)
Lemma b58rel_fun m s s' : b58rel m s -> b58rel m s' -> s = s'.
Proof.
  intros (z & bs & ds & -> & -> & Hb & Cb & Hd & Cd & E) (z' & bs' & ds' & Em & -> & Hb' & Cb' & Hd' & Cd' & E').
  pose proof (f_equal countZeros Em) as Ez. rewrite !countZeros_replicate in Ez by done. subst z'.
  apply app_inv_head in Em. subst bs'. do 2 f_equal. apply (canonical_unique 58); try done; lia.
Qed.

Lemma b58rel_inj m m' s : b58rel m s -> b58rel m' s -> m = m'.
Proof.
  intros H1 H2. destruct (b58rel_inv m s H1) as (B1 & V1 & Z1 & E1).
  destruct (b58rel_inv m' s H2) as (B2 & _ & Z2 & E2).
  destruct (stripZeros_spec m) as [S1 C1]. destruct (stripZeros_spec m') as [S2 C2].
  rewrite S1, S2, Z1, Z2. f_equal.
  apply (canonical_unique 256); [lia|by apply isDigits_strip|by apply isDigits_strip|done|done|].
  rewrite !valBE_strip. lia.
Qed.

(** ** The reference implementation *)

Lemma mulAdd_spec base mult l carry :
  0 < base -> 0 <= mult -> isDigits base l -> 0 <= carry ->
  let '(l', c') := Ref.mulAdd base mult l carry in
  length l' = length l /\ isDigits base l' /\ 0 <= c' /\
  valBE base l' + c' * base ^ Z.of_nat (length l) = mult * valBE base l + carry.
Proof.
  intros Hb Hm Hl Hc. unfold Ref.mulAdd. induction Hl as [|d l Hd Hl IH]; [cbn; repeat split; try lia; constructor|].
  cbn [foldr]. destruct (foldr _ ([], carry) l) as [l' c']. destruct IH as (IH1 & IH2 & IH3 & IH4). cbn [fst snd length].
  pose proof (Z.mod_pos_bound (c' + mult * d) base Hb) as Hmod.
  pose proof (Z.div_mod (c' + mult * d) base ltac:(lia)) as Hdiv.
  split; [lia|]. split; [by constructor|]. split; [apply Z.div_pos; nia|].
  rewrite !valBE_cons, IH1, Nat2Z.inj_succ, Z.pow_succ_r by lia.
  assert (c' + mult * d = base * ((c' + mult * d) / base) + (c' + mult * d) mod base) by done. nia.
Qed.

(** Repeated, the number is read in base [mult] and written in base [base]. *)
Lemma mulAdd_fold base mult ds : forall acc,
  0 < base -> 0 < mult -> isDigits base acc -> isDigits mult ds ->
  valBE base acc * mult ^ Z.of_nat (length ds) + valBE mult ds < base ^ Z.of_nat (length acc) ->
  let r := foldl (fun acc d => (Ref.mulAdd base mult acc d).1) acc ds in
  length r = length acc /\ isDigits base r /\
  valBE base r = valBE base acc * mult ^ Z.of_nat (length ds) + valBE mult ds.
Proof.
  induction ds as [|d ds IH]; intros acc Hb Hm Ha Hds Hlt; [split; [done|]; split; [done|]|].
  { change (valBE mult []) with 0. cbn [foldl length]. change (Z.of_nat 0) with 0. lia. }
  apply Forall_cons in Hds as [Hd Hds]. rewrite valBE_cons in Hlt |- *. cbn [foldl length] in *.
  rewrite Nat2Z.inj_succ, Z.pow_succ_r in Hlt |- * by lia.
  pose proof (mulAdd_spec base mult acc d Hb ltac:(lia) Ha ltac:(lia)) as Hs.
  destruct (Ref.mulAdd base mult acc d) as [l c]. destruct Hs as (H1 & H2 & H3 & H4). cbn [fst].
  pose proof (valBE_range base l Hb H2) as Rl. pose proof (valBE_range mult ds Hm Hds) as Rd.
  pose proof (valBE_range base acc Hb Ha) as Ra.
  assert (0 < mult ^ Z.of_nat (length ds)) by (apply Z.pow_pos_nonneg; lia).
  assert (c = 0) by (rewrite H1 in Rl; nia). subst c.
  destruct (IH l Hb Hm H2 Hds) as (I1 & I2 & I3); [rewrite H1; nia|].
  rewrite I1, I3. split; [done|]. split; [done|]. nia.
Qed.

Lemma valBE_zero_start base n : valBE base (replicate n 0) = 0 /\ (0 < base -> isDigits base (replicate n 0)).
Proof. split; [apply valBE_replicate_zero|]. intros. apply Forall_replicate. lia. Qed.

Lemma ref_encode_rel m n :
  isBytes m -> valBE 256 m < 58 ^ Z.of_nat n -> b58rel m (Ref.encodeBase58 m n).
Proof.
  intros Hm Hn. unfold Ref.encodeBase58.
  destruct (valBE_zero_start 58 n) as [Z0 Z1]. specialize (Z1 ltac:(lia)).
  pose proof (isDigits_strip 256 m Hm) as Hs. pose proof (valBE_strip 256 m) as Es.
  destruct (mulAdd_fold 58 256 (stripZeros m) (replicate n 0)) as (_ & H2 & H3); try done; try lia.
  { rewrite Z0, length_replicate. lia. }
  set (r := foldl _ _ _) in *. clearbody r.
  destruct (stripZeros_spec m) as [Em Cm]. destruct (stripZeros_spec r) as [_ Cr].
  exists (countZeros m), (stripZeros m), (stripZeros r). split; [done|]. split; [done|].
  split; [done|]. split; [done|]. split; [by apply isDigits_strip|]. split; [done|].
  rewrite (valBE_strip 58). lia.
Qed.

Lemma decodeChar_fold s : forall b256,
  valid58 s ->
  foldl Ref.decodeChar (Some b256) s = Some (foldl (fun acc d => (Ref.mulAdd 256 58 acc d).1) b256 (map reverse s)).
Proof.
  induction s as [|c s IH]; intros b256 Hs; [done|]. apply Forall_cons in Hs as [[Hc Hr] Hs].
  cbn [foldl map Ref.decodeChar]. destruct (Z.eqb_spec (reverse c) (-1)); [lia|]. by apply IH.
Qed.

Lemma decodeChar_none s : foldl Ref.decodeChar None s = None.
Proof. induction s; [done|]. done. Qed.

Lemma decodeChar_invalid s : forall b256,
  isBytes s -> ~ valid58 s -> foldl Ref.decodeChar (Some b256) s = None.
Proof.
  induction s as [|c s IH]; intros b256 Hs Hv; [by destruct Hv; constructor|].
  apply Forall_cons in Hs as [Hc Hs]. cbn [foldl Ref.decodeChar].
  destruct (Z.eqb_spec (reverse c) (-1)) as [E|Hr]; [apply decodeChar_none|].
  apply IH; [done|]. intros Hv'. apply Hv. constructor; [|done].
  destruct (forward_reverse c Hc); [done|]. cbv beta in *. lia.
Qed.

(** The leading [r]s go with zero digits, the rest with the others. *)
Lemma drop_countZeros s :
  s = take (countZeros (map reverse s)) s ++ drop (countZeros (map reverse s)) s /\
  map reverse (drop (countZeros (map reverse s)) s) = stripZeros (map reverse s).
Proof.
  split; [by rewrite take_drop|]. induction s as [|c s IH]; [done|]. cbn [map countZeros stripZeros].
  destruct (reverse c =? 0); [exact IH|done].
Qed.

(** The decoding buffer is large enough for every length let through. *)
Lemma ref_decode_room n : 0 <= n <= 64 -> 58 ^ n <= 256 ^ (n * 733 / 1000 + 1).
Proof.
  intros Hn.
  assert (Hall : forallb (fun n => 58 ^ n <=? 256 ^ (n * 733 / 1000 + 1)) (seqZ 0 65) = true)
    by (vm_compute; reflexivity).
  apply (forallb_seqZ _ 0 65 n) in Hall; [|lia]. cbv beta in Hall. breflect. done.
Qed.

Lemma ref_decode_rel s :
  valid58 s -> (length s <= 64)%nat -> b58rel (Ref.decodeBase58 s) s.
Proof.
  intros Hs Hlen. unfold Ref.decodeBase58. destruct (drop_countZeros s) as [Es Ed].
  set (z := countZeros (map reverse s)) in *. set (rest := drop z s) in *.
  assert (Hr : valid58 rest) by (rewrite Es in Hs; by apply Forall_app in Hs as [_ Hs]).
  assert (Hrl : (length rest <= 64)%nat) by (unfold rest; rewrite length_drop; lia).
  destruct (Z.ltb_spec 64 (Z.of_nat (length rest))); [lia|].
  rewrite decodeChar_fold by done. set (n := Z.to_nat _).
  destruct (valBE_zero_start 256 n) as [Z0 Z1]. specialize (Z1 ltac:(lia)).
  pose proof (valid58_digits rest Hr) as Hd. pose proof (valBE_range 58 _ ltac:(lia) Hd) as Hv.
  pose proof (ref_decode_room (Z.of_nat (length rest)) ltac:(lia)) as Hroom.
  destruct (mulAdd_fold 256 58 (map reverse rest) (replicate n 0)) as (_ & H2 & H3); try done; try lia.
  { rewrite Z0, length_replicate. rewrite length_map in *. unfold n. rewrite Z2Nat.id; [lia|].
    apply Z.add_nonneg_nonneg; [apply Z.div_pos|]; lia. }
  set (r := foldl _ _ _) in *. clearbody r. destruct (stripZeros_spec r) as [_ Cr].
  apply b58rel_digits; [|done| |].
  - apply Forall_app. split; [apply Forall_replicate; lia|]. by apply isDigits_strip.
  - by rewrite countZeros_replicate.
  - rewrite valBE_app, valBE_replicate_zero, (valBE_strip 256), H3, Ed, Z0, (valBE_strip 58). lia.
Qed.

Lemma ref_decode_invalid s :
  isBytes s -> ~ valid58 s -> Ref.decodeBase58 s = [].
Proof.
  intros Hb Hs. unfold Ref.decodeBase58. destruct (drop_countZeros s) as [Es Ed].
  assert (Hz : valid58 (take (countZeros (map reverse s)) s)).
  { clear Es Ed Hs. induction Hb as [|c s Hc Hb IH]; [constructor|]. cbn [map countZeros].
    destruct (Z.eqb_spec (reverse c) 0); [|constructor]. constructor; [cbv beta in *; lia|exact IH]. }
  set (z := countZeros (map reverse s)) in *. bcase; [done|].
  rewrite decodeChar_invalid; [done|by apply Forall_drop|].
  intros Hv. apply Hs. rewrite Es. by apply Forall_app.
Qed.

(** ** Base-58 tokens: the fast implementation

    The multi-precision arithmetic computes the operations it is named for, the
    coefficient arrays are large enough, and both conversions relate what the
    reference conversions relate. *)

(** ** Arithmetic in base 2^64 *)

Lemma B_pos : 0 < B.
Proof. done. Qed.

Lemma kB5810_power : kB5810 = 58 ^ 10.
Proof. done. Qed.

Lemma kB5810_bounds : 2 ^ 58 < kB5810 < B.
Proof. done. Qed.

(** [inplaceBigintDivRem] divides. *)
Lemma inplaceBigintDivRem_spec num divisor :
  0 < divisor <= B -> isDigits B num ->
  let '(q, rem) := inplaceBigintDivRem num divisor in
  length q = length num /\ isDigits B q /\ 0 <= rem < divisor /\ valLE B num = valLE B q * divisor + rem.
Proof.
  intros Hdv. unfold inplaceBigintDivRem. induction 1 as [|d num Hd Hnum IH]; [cbn; repeat split; try lia; constructor|].
  cbn [foldr]. destruct (foldr _ ([], 0) num) as [q r]. destruct IH as (H1 & H2 & H3 & H4). cbn [fst snd length valLE].
  rewrite lor_shift by (try done; lia). change (2 ^ 64) with B. set (c := r * B + d).
  pose proof (Z.div_mod c divisor ltac:(lia)) as E. pose proof (Z.mod_pos_bound c divisor ltac:(lia)) as Hm.
  assert (Hq : 0 <= c / divisor < B).
  { split; [apply Z.div_pos; [unfold c; nia|lia]|]. apply Z.div_lt_upper_bound; [lia|]. unfold c. nia. }
  replace (c - divisor * (c / divisor)) with (c mod divisor) by lia.
  rewrite !u64_id by (change (2 ^ 64) with B; lia).
  split; [lia|]. split; [by constructor|]. split; [done|]. rewrite H4. unfold c in *. lia.
Qed.

Lemma mulCarry_spec a b : forall carry,
  0 <= b < B -> 0 <= carry < B -> isDigits B a ->
  let '(a', c) := mulCarry a b carry in
  length a' = length a /\ isDigits B a' /\ 0 <= c < B /\
  valLE B a' + B ^ Z.of_nat (length a) * c = valLE B a * b + carry.
Proof.
  induction a as [|v a IH]; intros carry Hb Hc Ha; [cbn; repeat split; try lia; constructor|].
  apply Forall_cons in Ha as [Hv Ha]. cbn [mulCarry carryingMul]. cbv zeta.
  pose proof (Z.div_mod (v * b + carry) B ltac:(done)) as E.
  pose proof (Z.mod_pos_bound (v * b + carry) B B_pos) as Hm.
  assert (Hq : 0 <= (v * b + carry) / B < B).
  { split; [apply Z.div_pos; [nia|done]|]. apply Z.div_lt_upper_bound; [done|]. nia. }
  pose proof (IH _ Hb Hq Ha) as H. destruct (mulCarry a b _) as [a' c]. destruct H as (H1 & H2 & H3 & H4).
  cbn [length valLE]. split; [lia|]. split; [by constructor|]. split; [done|].
  rewrite Nat2Z.inj_succ, Z.pow_succ_r by lia. lia.
Qed.

Lemma inplaceBigintMul_spec a b :
  0 <= b < B -> isDigits B a -> last a = Some 0 ->
  exists a', inplaceBigintMul a b = Ok a' /\ length a' = length a /\ isDigits B a' /\ valLE B a' = valLE B a * b.
Proof.
  intros Hb Ha Hl. unfold inplaceBigintMul. rewrite Hl. cbn [negb Z.eqb].
  apply last_Some in Hl as [k ->]. rewrite removelast_last. apply Forall_app in Ha as [Hk _].
  pose proof (mulCarry_spec k b 0 Hb ltac:(done) Hk) as H. destruct (mulCarry k b 0) as [k' c].
  destruct H as (H1 & H2 & H3 & H4). eexists. split; [done|]. rewrite !length_app. cbn [length].
  split; [lia|]. split; [by apply Forall_app; split; [|repeat constructor; lia]|].
  rewrite !valLE_app. cbn [valLE]. rewrite H1. lia.
Qed.

Lemma addCarry_spec a : forall carry,
  0 <= carry <= 1 -> isDigits B a ->
  let '(a', c) := addCarry a carry in
  length a' = length a /\ isDigits B a' /\ 0 <= c <= 1 /\
  valLE B a' + B ^ Z.of_nat (length a) * c = valLE B a + carry.
Proof.
  induction a as [|v a IH]; intros carry Hc Ha; [cbn; repeat split; try lia; constructor|].
  pose proof Ha as Ha'. apply Forall_cons in Ha' as [Hv Ha']. cbn [addCarry carryingAdd]. cbv zeta.
  destruct (Z.eqb_spec carry 0) as [->|Hne]; [repeat split; try done; lia|].
  pose proof (Z.div_mod (v + 1) B ltac:(done)) as E. pose proof (Z.mod_pos_bound (v + 1) B B_pos) as Hm.
  assert (Hq : 0 <= (v + 1) / B <= 1) by nia.
  pose proof (IH _ Hq Ha') as H. destruct (addCarry a _) as [a' c]. destruct H as (H1 & H2 & H3 & H4).
  cbn [length valLE]. split; [lia|]. split; [by constructor|]. split; [done|].
  rewrite Nat2Z.inj_succ, Z.pow_succ_r by lia. lia.
Qed.

Lemma inplaceBigintAdd_spec a b :
  0 <= b < B -> isDigits B a -> (2 <= length a)%nat -> valLE B a + b < B ^ Z.of_nat (length a) ->
  exists a', inplaceBigintAdd a b = Ok a' /\ length a' = length a /\ isDigits B a' /\ valLE B a' = valLE B a + b.
Proof.
  intros Hb Ha Hlen Hlt. destruct a as [|v [|w a]]; [cbn in Hlen; lia|cbn in Hlen; lia|].
  unfold inplaceBigintAdd, carryingAdd. cbv zeta.
  remember (w :: a) as k eqn:Ek. clear Ek w a Hlen. apply Forall_cons in Ha as [Hv Hk].
  pose proof (Z.div_mod (v + b) B ltac:(done)) as E. pose proof (Z.mod_pos_bound (v + b) B B_pos) as Hm.
  assert (Hq : 0 <= (v + b) / B <= 1) by nia.
  pose proof (addCarry_spec k _ Hq Hk) as H. destruct (addCarry k _) as [k' c]. destruct H as (H1 & H2 & H3 & H4).
  cbn [length valLE] in *. rewrite Nat2Z.inj_succ, Z.pow_succ_r in Hlt by lia.
  pose proof (valLE_range B k' B_pos H2).
  assert (0 < B ^ Z.of_nat (length k)) by (apply Z.pow_pos_nonneg; [done|lia]).
  assert (valLE B k + (v + b) / B < B ^ Z.of_nat (length k)) by (pose proof B_pos; nia).
  assert (c = 0) as -> by nia. eexists. split; [done|]. cbn [length valLE].
  split; [lia|]. split; [by constructor|]. lia.
Qed.

Lemma b58Digits_spec room : forall x,
  0 <= x < 58 ^ Z.of_nat room ->
  length (b58Digits room x) = room /\ isDigits 58 (b58Digits room x) /\ valBE 58 (b58Digits room x) = x.
Proof.
  induction room as [|room IH]; intros x Hx; [cbn in *; repeat split; [constructor|lia]|].
  rewrite Nat2Z.inj_succ, Z.pow_succ_r in Hx by lia. cbn [b58Digits divRem]. destruct (Z.ltb_spec 0 x).
  - pose proof (Z.div_mod x 58 ltac:(lia)) as E. pose proof (Z.mod_pos_bound x 58 ltac:(lia)) as Hm.
    destruct (IH (x / 58)) as (H1 & H2 & H3).
    { split; [apply Z.div_pos; lia|]. apply Z.div_lt_upper_bound; lia. }
    rewrite length_app, valBE_snoc, H1, H3. split; [cbn; lia|]. split; [|lia].
    apply Forall_app. split; [done|]. repeat constructor; lia.
  - assert (x = 0) as -> by lia. rewrite length_replicate, valBE_replicate_zero.
    split; [done|]. split; [apply Forall_replicate; lia|done].
Qed.

(** ** Encoding *)

Lemma B_256 : B = 256 ^ 8.
Proof. done. Qed.

(** The shifts of a coefficient of fewer than eight bytes. *)
Lemma shift_bytes l : forall acc,
  isBytes l -> 0 <= acc -> (acc + 1) * 256 ^ Z.of_nat (length l) <= B ->
  foldl (fun be b => Z.lor (u64 (Z.shiftl be 8)) b) acc l = acc * 256 ^ Z.of_nat (length l) + valBE 256 l.
Proof.
  induction l as [|d l IH]; intros acc Hl Ha Hlt; [cbn [foldl length]; change (valBE 256 []) with 0; cbn; lia|].
  apply Forall_cons in Hl as [Hd Hl]. cbn [foldl length] in *. rewrite Nat2Z.inj_succ, Z.pow_succ_r in * by lia.
  assert (0 < 256 ^ Z.of_nat (length l)) by (apply Z.pow_pos_nonneg; lia).
  assert (Hs : acc * 256 < B) by nia.
  rewrite u64_id by (rewrite Z.shiftl_mul_pow2 by lia; change (2 ^ 8) with 256; change (2 ^ 64) with B; lia).
  rewrite lor_shift by (try change (2 ^ 8) with 256; lia). change (2 ^ 8) with 256.
  rewrite IH; [|done|nia|nia]. rewrite valBE_cons. nia.
Qed.

(** The coefficient of [e] leading bytes and what is left of them. *)
Lemma take_coefficient (input : list Z) e :
  (8 <= e <= length input)%nat -> isBytes input ->
  valBE 256 (take e input) =
    valBE 256 (take (e - 8) input) * B + beValue (take 8 (drop (e - 8) input)) /\
  0 <= beValue (take 8 (drop (e - 8) input)) < B.
Proof.
  intros He Hi. rewrite beValue_valBE.
  assert (Hl : length (take 8 (drop (e - 8) input)) = 8%nat) by (rewrite length_take, length_drop; lia).
  assert (E : take e input = take (e - 8) input ++ take 8 (drop (e - 8) input)).
  { rewrite take_drop_commute. replace (e - 8 + 8)%nat with e by lia.
    rewrite <-(take_drop (e - 8) (take e input)) at 1. rewrite take_take. by rewrite Nat.min_l by lia. }
  rewrite E, valBE_app, Hl, B_256. split; [done|].
  assert (Hb : isDigits 256 (take 8 (drop (e - 8) input))) by by apply Forall_take, Forall_drop.
  pose proof (valBE_range 256 _ ltac:(lia) Hb) as R. by rewrite Hl in R.
Qed.

Lemma base264_spec room input : forall i,
  isBytes input -> (length input <= 8 * (i + room))%nat ->
  isDigits B (base264 room i input) /\
  valLE B (base264 room i input) = valBE 256 (take (length input - 8 * i) input) /\
  (length (base264 room i input) <= room)%nat.
Proof.
  induction room as [|room IH]; intros i Hi Hlen; cbn [base264].
  { replace (length input - 8 * i)%nat with O by lia. repeat split; [constructor|cbn; lia]. }
  destruct (Nat.leb_spec (length input) (i * 8)) as [Hle|Hgt].
  { replace (length input - 8 * i)%nat with O by lia. repeat split; [constructor|cbn; lia]. }
  replace (length input - i * 8)%nat with (length input - 8 * i)%nat by lia.
  destruct (IH (S i) Hi ltac:(lia)) as (H1 & H2 & H3). set (e := (length input - 8 * i)%nat) in *.
  replace (length input - 8 * S i)%nat with (e - 8)%nat in H2 by lia.
  cbn [valLE length]. rewrite H2. destruct (Nat.leb_spec 8 e) as [He|He].
  - destruct (take_coefficient input e ltac:(lia) Hi) as [E R]. rewrite E.
    split; [by constructor|]. split; [lia|lia].
  - replace (e - 8)%nat with O by lia.
    assert (Hb : isBytes (take e input)) by by apply Forall_take.
    pose proof (valBE_range 256 _ ltac:(lia) Hb) as R. rewrite length_take in R.
    assert (256 ^ Z.of_nat (e `min` length input) <= B).
    { rewrite B_256. apply Z.pow_le_mono_r; lia. }
    rewrite shift_bytes; [|done|lia|rewrite length_take; lia].
    split; [constructor; [|done]; lia|]. split; [change (take 0 input) with (@nil Z); change (valBE 256 []) with 0; lia|lia].
Qed.

(** One division: the number is divided, the top coefficient dropped when it is zero. *)
Lemma divide_step coeffs cur :
  isDigits B coeffs -> (0 < cur <= length coeffs)%nat ->
  exists q rem, inplaceBigintDivRem (take cur coeffs) kB5810 = (q, rem) /\
  let V := valLE B (take cur coeffs) in
  let coeffs' := q ++ drop cur coeffs in
  let cur' := if default 0 (coeffs' !! pred cur) =? 0 then pred cur else cur in
  isDigits B coeffs' /\ length coeffs' = length coeffs /\ 0 <= rem < kB5810 /\
  valLE B (take cur' coeffs') = V / kB5810 /\ V = V / kB5810 * kB5810 + rem /\
  (cur' <= cur)%nat /\ (V / kB5810 < B ^ Z.of_nat (pred cur) -> cur' = pred cur).
Proof.
  intros Hc Hcur. assert (Hnum : isDigits B (take cur coeffs)) by by apply Forall_take.
  pose proof kB5810_bounds as Hk. pose proof (inplaceBigintDivRem_spec _ kB5810 ltac:(lia) Hnum) as Hs.
  destruct (inplaceBigintDivRem _ _) as [q rem]. destruct Hs as (H1 & H2 & H3 & H4).
  exists q, rem. split; [done|]. cbv zeta. rewrite length_take in H1.
  assert (Hlq : length q = cur) by lia. clear H1.
  rewrite lookup_app_l by lia.
  assert (EV : valLE B (take cur coeffs) / kB5810 = valLE B q).
  { rewrite H4, Z.div_add_l, Z.div_small by lia. lia. }
  destruct (exists_last (l := q)) as (low & top & Eq); [intros ->; cbn in Hlq; lia|]. subst q.
  rewrite length_app in Hlq. cbn [length] in Hlq.
  assert (Htop : (low ++ [top]) !! pred cur = Some top) by (apply list_lookup_middle; lia).
  rewrite Htop. change (default 0 (Some top)) with top. rewrite EV. apply Forall_app in H2 as [Hlow Htop'].
  pose proof (valLE_range B low B_pos Hlow) as Rlow.
  assert (Hv : valLE B (low ++ [top]) = valLE B low + B ^ Z.of_nat (pred cur) * top).
  { rewrite valLE_app. cbn [valLE]. replace (length low) with (pred cur) by lia. lia. }
  split; [apply Forall_app; split; [by apply Forall_app|by apply Forall_drop]|].
  split; [rewrite !length_app, length_drop; cbn; lia|]. split; [done|].
  split; [|split; [lia|split; [bcase; lia|]]].
  - destruct (Z.eqb_spec top 0) as [->|]; rewrite <-app_assoc.
    + rewrite take_app_le by lia. rewrite take_ge by lia. lia.
    + rewrite app_assoc, take_app_length' by (rewrite length_app; cbn; lia). done.
  - apply Forall_cons in Htop' as [Htop' _]. destruct (Z.eqb_spec top 0); [done|]. nia.
Qed.

(** What is left of the number, and its coefficients, with [room] divisions to go. *)
Definition leftValue (room : nat) : Z := if (room =? 0)%nat then 1 else 2 ^ (58 * Z.of_nat room - 44).
Definition leftCoeffs (room : nat) : nat := if (room <? 4)%nat then room else pred room.

Lemma leftValue_step room V :
  0 <= V < leftValue (S room) -> V / kB5810 < leftValue room.
Proof.
  intros HV. pose proof kB5810_bounds. apply Z.div_lt_upper_bound; [lia|].
  unfold leftValue in *. cbn [Nat.eqb] in HV. rewrite Nat2Z.inj_succ in HV.
  destruct room as [|room]; cbn [Nat.eqb].
  - change (2 ^ (58 * Z.succ (Z.of_nat 0) - 44)) with (2 ^ 14) in HV. lia.
  - replace (58 * Z.succ (Z.of_nat (S room)) - 44) with (58 + (58 * Z.of_nat (S room) - 44)) in HV by lia.
    rewrite Z.pow_add_r in HV by lia.
    assert (0 < 2 ^ (58 * Z.of_nat (S room) - 44)) by (apply Z.pow_pos_nonneg; lia). nia.
Qed.

Lemma leftCoeffs_step room :
  (room < 6)%nat ->
  leftCoeffs (S room) = leftCoeffs room \/
  (leftCoeffs (S room) = S (leftCoeffs room) /\ leftValue room <= B ^ Z.of_nat (leftCoeffs room)).
Proof.
  intros Hr. do 6 (destruct room as [|room]; [first [left; reflexivity|right; split; [reflexivity|]; vm_compute; congruence]|]).
  lia.
Qed.

Lemma divLoop_spec room : forall coeffs cur,
  (room <= 6)%nat -> isDigits B coeffs -> (cur <= length coeffs)%nat ->
  valLE B (take cur coeffs) < leftValue room -> (cur <= leftCoeffs room)%nat ->
  exists rems, divLoop room coeffs cur = Some rems /\ isDigits kB5810 rems /\ (length rems <= room)%nat /\
  valLE kB5810 rems = valLE B (take cur coeffs).
Proof.
  induction room as [|room IH]; intros coeffs cur Hroom Hc Hcur HV Hn.
  { assert (cur = O) as -> by (cbn in Hn; lia). exists []. repeat split; [constructor|cbn; lia]. }
  destruct cur as [|cur]; [exists []; repeat split; [constructor|cbn; lia]|].
  destruct (divide_step coeffs (S cur) Hc ltac:(lia)) as (q & rem & E & H1 & H2 & H3 & H4 & H5 & H6 & H7).
  assert (HV0 : 0 <= valLE B (take (S cur) coeffs)) by (apply valLE_range; [done|by apply Forall_take]).
  cbn [divLoop]. rewrite E. cbv zeta. change (pred (S cur)) with cur in *.
  set (V := valLE B (take (S cur) coeffs)) in *. set (coeffs' := q ++ drop (S cur) coeffs) in *.
  set (cur' := if _ : bool then cur else S cur) in *.
  pose proof (leftValue_step room V ltac:(lia)) as Hl.
  destruct (IH coeffs' cur') as (rems & Er & R1 & R2 & R3); [lia|done|lia|lia| |].
  - destruct (leftCoeffs_step room ltac:(lia)) as [?|[Ec Hb]]; [lia|].
    destruct (Nat.eq_dec (S cur) (leftCoeffs (S room))); [|lia].
    rewrite H7; [lia|]. replace cur with (leftCoeffs room) by lia. lia.
  - rewrite Er. exists (rem :: rems). split; [done|]. split; [by constructor|].
    cbn [length valLE]. split; [lia|]. rewrite R3. lia.
Qed.

Lemma b5810ToB58Be_spec c :
  0 <= c < kB5810 ->
  length (b5810ToB58Be c) = 10%nat /\ isDigits 58 (b5810ToB58Be c) /\ valBE 58 (b5810ToB58Be c) = c.
Proof. intros Hc. apply b58Digits_spec. by rewrite kB5810_power in Hc. Qed.

(** The digits in base 58 of coefficients in base 58^10. *)
Definition blockDigits (coeffs : list Z) : list Z := concat (map b5810ToB58Be coeffs).

Lemma blockDigits_spec coeffs :
  isDigits kB5810 coeffs ->
  length (blockDigits coeffs) = (10 * length coeffs)%nat /\ isDigits 58 (blockDigits coeffs) /\
  valBE 58 (blockDigits coeffs) = valBE kB5810 coeffs.
Proof.
  unfold blockDigits. induction 1 as [|c coeffs Hc Hcs IH]; [repeat split; constructor|].
  destruct IH as (H1 & H2 & H3). destruct (b5810ToB58Be_spec c Hc) as (B1 & B2 & B3).
  cbn [map concat]. rewrite length_app, valBE_app, valBE_cons, B1, B3, H1, H3. split; [cbn; lia|].
  split; [by apply Forall_app|]. f_equal. rewrite kB5810_power, <-Z.pow_mul_r by lia. do 2 f_equal. lia.
Qed.

Lemma drop_strip l : drop (countZeros l) l = stripZeros l.
Proof. induction l as [|d l IH]; [done|]. cbn. by destruct (d =? 0). Qed.

Lemma strip_app l k b : valBE b l <> 0 -> stripZeros (l ++ k) = stripZeros l ++ k.
Proof.
  induction l as [|d l IH]; [done|]. rewrite valBE_cons. cbn [app stripZeros].
  destruct (Z.eqb_spec d 0) as [->|]; [|done]. intros. apply IH. lia.
Qed.

Lemma strip_zero_app l k b : 0 < b -> isDigits b l -> valBE b l = 0 -> stripZeros (l ++ k) = stripZeros k.
Proof.
  intros Hb. induction 1 as [|d l Hd Hl IH]; [done|]. rewrite valBE_cons. cbn [app stripZeros]. intros E.
  pose proof (valBE_range b l Hb Hl). assert (0 < b ^ Z.of_nat (length l)) by (apply Z.pow_pos_nonneg; lia).
  destruct (Z.eqb_spec d 0) as [->|]; [apply IH; lia|nia].
Qed.

(** The translation writes the digits of the coefficients, from the first that is not
    zero on. *)
Lemma translate_spec outSize coeffs : forall skip out,
  isDigits kB5810 coeffs -> (length out + 10 * length coeffs <= outSize)%nat ->
  translate outSize coeffs skip out =
    Ok (out ++ map forward (if skip then stripZeros (blockDigits coeffs) else blockDigits coeffs)).
Proof.
  induction coeffs as [|c coeffs IH]; intros skip out Hc Hlen; [cbn; destruct skip; by rewrite app_nil_r|].
  apply Forall_cons in Hc as [Hc Hcs]. destruct (b5810ToB58Be_spec c Hc) as (B1 & B2 & B3).
  cbn [length] in Hlen. unfold blockDigits. cbn [translate map concat]. fold (blockDigits coeffs).
  assert (Hk : (kB5810 <=? c) = false) by (apply Z.leb_gt; lia).
  set (l := b5810ToB58Be c) in *. destruct skip; cbn [andb].
  - destruct (Z.eqb_spec c 0) as [->|Hne].
    { rewrite IH by (try done; lia). by rewrite (strip_zero_app l _ 58) by done. }
    rewrite Hk, (strip_app l _ 58), drop_strip by congruence.
    destruct (Nat.ltb_spec outSize (length (c :: coeffs) * 10 - countZeros l)); [cbn [length] in *; lia|].
    assert (length (stripZeros l) <= 10)%nat.
    { rewrite <-drop_strip, length_drop. lia. }
    rewrite length_app, length_map. destruct (Nat.ltb_spec outSize (length out + length (stripZeros l))); [lia|].
    rewrite IH by (try done; rewrite ?length_app, ?length_map; lia). by rewrite map_app, app_assoc.
  - rewrite Hk, drop_0, length_app, length_map. destruct (Nat.ltb_spec outSize (length out + length l)); [lia|].
    rewrite IH by (try done; rewrite ?length_app, ?length_map; lia). by rewrite map_app, app_assoc.
Qed.

(** Without undefined behaviour, whatever fits the input bound. *)
Lemma fast_encode_rel m outSize :
  isBytes m -> (length m <= 38)%nat -> (98 <= outSize)%nat ->
  exists s, b256ToB58Be m outSize = Ok s /\ b58rel m s.
Proof.
  intros Hm Hlen Hout. unfold b256ToB58Be. destruct (Nat.ltb_spec 38 (length m)); [lia|].
  destruct (stripZeros_spec m) as [Em Cm]. pose proof (isDigits_strip 256 m Hm) as Hs.
  assert (Hz : (countZeros m + length (stripZeros m) = length m)%nat).
  { rewrite Em at 3. by rewrite length_app, length_replicate. }
  destruct (base264_spec 5 (stripZeros m) 0 Hs ltac:(lia)) as (B1 & B2 & B3).
  rewrite Nat.mul_0_r, Nat.sub_0_r, take_ge in B2 by lia. set (cs := base264 5 0 (stripZeros m)) in *.
  pose proof (valBE_range 256 _ ltac:(lia) Hs) as R.
  assert (256 ^ Z.of_nat (length (stripZeros m)) <= leftValue 6).
  { change (leftValue 6) with (256 ^ 38). apply Z.pow_le_mono_r; lia. }
  destruct (divLoop_spec 6 cs (length cs)) as (rems & -> & D1 & D2 & D3);
    [done|done|done|rewrite take_ge by done; lia|done|].
  rewrite take_ge in D3 by done. destruct (Nat.ltb_spec outSize (countZeros m)); [lia|].
  assert (Dr : isDigits kB5810 (rev rems)) by by apply isDigits_rev.
  rewrite translate_spec; [|done|rewrite length_replicate, length_rev; lia].
  destruct (blockDigits_spec _ Dr) as (_ & L2 & L3). destruct (stripZeros_spec (blockDigits (rev rems))) as [_ Cd].
  eexists. split; [done|]. exists (countZeros m), (stripZeros m), (stripZeros (blockDigits (rev rems))).
  split; [done|]. split; [done|]. split; [done|]. split; [done|]. split; [by apply isDigits_strip|].
  split; [done|]. rewrite (valBE_strip 58), L3, <-valLE_rev. lia.
Qed.
