(* ===== verification/Base58Parse.v ===== *)
(** * Base-58 tokens: fast decoding

    The interleaved parse of the text into coefficients, their conversion to base 2^64
    and the bytes written. *)
From S2P Require Import Prelude Digits Base58 Base58Facts.
Import Fast.

(** ** Parsing *)

(** The number of a piece of text. *)
Definition textValue (s : list Z) : Z := valBE 58 (map reverse s).

Lemma textValue_range s : valid58 s -> 0 <= textValue s < 58 ^ Z.of_nat (length s).
Proof. intros Hs. rewrite <-(length_map reverse s). apply valBE_range; [lia|]. by apply valid58_digits. Qed.

Lemma textValue_app s t : textValue (s ++ t) = textValue s * 58 ^ Z.of_nat (length t) + textValue t.
Proof. unfold textValue. by rewrite map_app, valBE_app, length_map. Qed.

Lemma valid58_snoc s c : valid58 s -> 0 <= c < 256 -> 0 <= reverse c -> valid58 (s ++ [c]).
Proof. intros Hs Hc Hr. apply Forall_app. split; [done|]. by apply Forall_singleton. Qed.

Lemma addDigit_spec s c :
  valid58 (s ++ [c]) -> (length s < 10)%nat -> addDigit (textValue s) (reverse c) = textValue (s ++ [c]).
Proof.
  intros Hs Hlen. pose proof (textValue_range _ Hs) as R. apply Forall_app in Hs as [Hs Hc].
  pose proof (textValue_range s Hs) as R0. apply Forall_cons in Hc as [[Hc Hr] _].
  rewrite textValue_app, length_app in *. unfold addDigit.
  replace (textValue [c]) with (reverse c) in * by (unfold textValue, valBE; cbn [map foldl]; lia).
  cbn [length] in *. change (58 ^ Z.of_nat 1) with 58 in *.
  assert (58 ^ Z.of_nat (length s + 1) <= 58 ^ 10) by (apply Z.pow_le_mono_r; lia).
  assert (58 ^ 10 < 2 ^ 64) by done. rewrite !u64_id; [done|lia|]. rewrite u64_id; lia.
Qed.

Lemma partialStep_none l : foldl partialStep None l = None.
Proof. by induction l. Qed.

Lemma partialStep_fold l : forall s,
  isBytes l -> valid58 s -> (length s + length l <= 10)%nat ->
  foldl partialStep (Some (textValue s)) l =
    if decide (valid58 l) then Some (textValue (s ++ l)) else None.
Proof.
  induction l as [|c l IH]; intros s Hl Hs Hlen.
  { rewrite decide_True by constructor. by rewrite app_nil_r. }
  apply Forall_cons in Hl as [Hc Hl]. cbn [foldl partialStep length] in *.
  destruct (Z.ltb_spec (reverse c) 0) as [Hneg|Hpos].
  { rewrite partialStep_none, decide_False; [done|]. intros [[??] _]%Forall_cons. lia. }
  assert (Hsc : valid58 (s ++ [c])) by by apply valid58_snoc.
  rewrite addDigit_spec by (try done; lia). rewrite IH; [|done|done|rewrite length_app; cbn; lia].
  rewrite <-app_assoc. cbn [app]. destruct (decide (valid58 l)) as [Hv|Hv].
  - rewrite decide_True; [done|]. by constructor.
  - rewrite decide_False; [done|]. intros [_ ?]%Forall_cons. done.
Qed.

(** *** The interleaved loops *)

Section Parse.
Context (input : list Z) (p np numFull : nat).
Context (Hlen : length input = (p + 10 * numFull)%nat) (Hbytes : isBytes input).

(** The first [i] characters of the [j]-th full block. *)
Definition blockText (j i : nat) : list Z := take i (drop (p + 10 * j) input).

(** The state of the array when the first [i] characters of every full block, and one more
    of the first [k], have been read from a valid text. *)
Definition parsed (first : Z) (cs : list Z) (i k : nat) : Prop :=
  length cs = 6%nat /\ (np = 1%nat -> cs !! 0%nat = Some first) /\
  (forall j, (j < numFull)%nat ->
     cs !! (np + j)%nat = Some (textValue (blockText j (if (j <? k)%nat then S i else i)))) /\
  (forall j, (numFull <= j)%nat -> (np + j < 6)%nat -> cs !! (np + j)%nat = Some 0).

Lemma blockText_length j i : (j < numFull)%nat -> (i <= 10)%nat -> length (blockText j i) = i.
Proof. intros. unfold blockText. rewrite length_take, length_drop. lia. Qed.

Lemma blockText_char j i :
  (j < numFull)%nat -> (i < 10)%nat ->
  exists c, input !! (p + j * 10 + i)%nat = Some c /\ 0 <= c < 256 /\ blockText j (S i) = blockText j i ++ [c].
Proof.
  intros Hj Hi. destruct (lookup_lt_is_Some_2 input (p + j * 10 + i)) as [c Hc]; [lia|].
  exists c. split; [done|]. split; [by eapply (Forall_lookup_1 _ _ _ _ Hbytes)|].
  unfold blockText. apply take_S_r. rewrite lookup_drop. rewrite <-Hc. f_equal. lia.
Qed.

(** The columns before [i] are valid, and column [i] is up to block [k]. *)
Definition columnsValid (i k : nat) : Prop :=
  forall j, (j < numFull)%nat -> valid58 (blockText j (if (j <? k)%nat then S i else i)).

Definition parseState (first : Z) (acc : option (list Z)) (i k : nat) : Prop :=
  (columnsValid i k /\ exists cs, acc = Some cs /\ parsed first cs i k) \/ (~ columnsValid i k /\ acc = None).

Lemma columnsValid_S i k : (k < numFull)%nat ->
  columnsValid i (S k) <-> columnsValid i k /\ valid58 (blockText k (S i)).
Proof.
  intros Hk. unfold columnsValid. split.
  - intros H. split.
    + intros j Hj. specialize (H j Hj). destruct (Nat.ltb_spec j (S k)), (Nat.ltb_spec j k); try done; try lia.
      unfold blockText in *. replace i with (i `min` S i)%nat by lia. rewrite <-take_take. by apply Forall_take.
    + specialize (H k Hk). by destruct (Nat.ltb_spec k (S k)); [|lia].
  - intros [H Hv] j Hj. specialize (H j Hj). destruct (Nat.ltb_spec j (S k)), (Nat.ltb_spec j k); try done; try lia.
    by replace j with k by lia.
Qed.

Lemma fullStep_spec first acc i k :
  (np + numFull <= 6)%nat -> (i < 10)%nat -> (k < numFull)%nat ->
  parseState first acc i k -> parseState first (fullStep input p np i acc k) i (S k).
Proof.
  intros H6 Hi Hk [[Hv (cs & -> & (P1 & P2 & P3 & P4))]|[Hv ->]]; unfold parseState; rewrite columnsValid_S by done;
    [|right; split; [tauto|done]].
  destruct (blockText_char k i Hk Hi) as (c & Hc & Rc & Eb). cbn [fullStep].
  rewrite Hc. change (default 0 (Some c)) with c. destruct (Z.ltb_spec (reverse c) 0) as [Hneg|Hpos].
  { right. split; [|done]. rewrite Eb. intros [_ [_ [[??] _]%Forall_cons]%Forall_app]. lia. }
  pose proof (Hv k Hk) as Hvk. pose proof (P3 k Hk) as Pk. rewrite Nat.ltb_irrefl in Hvk, Pk.
  assert (Hvs : valid58 (blockText k (S i))).
  { rewrite Eb. by apply valid58_snoc. }
  left. split; [done|]. eexists. split; [done|]. split; [by rewrite length_alter|]. split; [|split].
  - intros Enp. rewrite list_lookup_alter_ne by lia. by apply P2.
  - intros j Hj. destruct (Nat.eq_dec j k) as [->|Hne].
    + rewrite list_lookup_alter_eq, Pk. cbn [fmap option_fmap option_map]. f_equal.
      destruct (Nat.ltb_spec k (S k)); [|lia]. rewrite Eb in Hvs |- *. apply addDigit_spec; [done|].
      rewrite blockText_length; lia.
    + rewrite list_lookup_alter_ne by lia. rewrite P3 by done.
      destruct (Nat.ltb_spec j (S k)), (Nat.ltb_spec j k); try done; lia.
  - intros j Hj Hj6. rewrite list_lookup_alter_ne by lia. by apply P4.
Qed.

Lemma columns_next i : columnsValid i numFull <-> columnsValid (S i) 0.
Proof.
  unfold columnsValid. split; intros H j Hj; specialize (H j Hj); destruct (Nat.ltb_spec j numFull); by try lia.
Qed.

Lemma parsed_next first cs i : parsed first cs i numFull <-> parsed first cs (S i) 0.
Proof.
  unfold parsed. split; intros (P1 & P2 & P3 & P4); repeat split; try done; intros j Hj; specialize (P3 j Hj);
    destruct (Nat.ltb_spec j numFull); by try lia.
Qed.

Lemma column_spec first acc i :
  (np + numFull <= 6)%nat -> (i < 10)%nat -> parseState first acc i 0 ->
  parseState first (foldl (fullStep input p np i) acc (seq 0 numFull)) (S i) 0.
Proof.
  intros H6 Hi H0.
  assert (H : forall k, (k <= numFull)%nat -> parseState first (foldl (fullStep input p np i) acc (seq 0 k)) i k).
  { induction k as [|k IH]; intros Hk; [done|]. rewrite seq_S, foldl_app. cbn [foldl].
    apply fullStep_spec; try done; try lia. apply IH. lia. }
  specialize (H numFull (le_n _)). unfold parseState in *. rewrite <-columns_next.
  destruct H as [[Hv (cs & E & P)]|H]; [left|by right]. split; [done|]. exists cs. split; [done|]. by apply parsed_next.
Qed.

Lemma columns_spec first acc :
  (np + numFull <= 6)%nat -> parseState first acc 0 0 ->
  parseState first
    (foldl (fun coeffs i => foldl (fullStep input p np i) coeffs (seq 0 numFull)) acc (seq 0 10)) 10 0.
Proof.
  intros H6 H0.
  assert (H : forall i, (i <= 10)%nat -> parseState first
    (foldl (fun coeffs i => foldl (fullStep input p np i) coeffs (seq 0 numFull)) acc (seq 0 i)) i 0).
  { induction i as [|i IH]; intros Hi; [done|]. rewrite seq_S, foldl_app. cbn [foldl].
    apply column_spec; try done; try lia. apply IH. lia. }
  by apply (H 10%nat).
Qed.

(** The values of the full blocks. *)
Lemma blocks_value k : (k <= numFull)%nat ->
  valBE kB5810 (map (fun j => textValue (blockText j 10)) (seq 0 k)) = textValue (take (10 * k) (drop p input)).
Proof.
  induction k as [|k IH]; intros Hk; [done|]. rewrite seq_S, map_app, valBE_app, IH by lia. cbn [map length].
  rewrite valBE_cons. replace (10 * S k)%nat with (10 * k + 10)%nat by lia.
  rewrite <-take_take_drop, drop_drop. fold (blockText k 10). rewrite textValue_app, blockText_length by lia.
  change (valBE kB5810 []) with 0. cbn [length].
  change (kB5810 ^ Z.of_nat 1) with kB5810. change (58 ^ Z.of_nat 10) with kB5810. cbn. lia.
Qed.

Lemma columns_all : columnsValid 10 0 <-> valid58 (drop p input).
Proof.
  unfold columnsValid. cbn [Nat.ltb Nat.leb]. split.
  - intros H. assert (Hk : forall k, (k <= numFull)%nat -> valid58 (take (10 * k) (drop p input))).
    { induction k as [|k IH]; intros Hk; [constructor|]. replace (10 * S k)%nat with (10 * k + 10)%nat by lia.
      rewrite <-take_take_drop, drop_drop. apply Forall_app. split; [apply IH; lia|]. by apply H. }
    specialize (Hk numFull (le_n _)). rewrite take_ge in Hk; [done|]. rewrite length_drop. lia.
  - intros H j Hj. unfold blockText. rewrite <-drop_drop. by apply Forall_take, Forall_drop.
Qed.
End Parse.

Lemma parsed_init input p np numFull first :
  (np <= 1)%nat -> (np + numFull <= 6)%nat -> (np = O -> first = 0) ->
  parsed input p np numFull first (first :: replicate 5 0) 0 0.
Proof.
  intros Hnp H6 Hf.
  assert (Hz : forall j, (np + j < 6)%nat -> (first :: replicate 5 0) !! (np + j)%nat = Some 0).
  { intros j Hj. destruct np as [|[|]]; [rewrite Hf by done|..|lia].
    - change (0 :: replicate 5 0) with (replicate 6 0). apply lookup_replicate. lia.
    - cbn [Nat.add lookup list_lookup]. apply lookup_replicate. lia. }
  split; [done|]. split; [by intros ->|]. split; [|by intros; apply Hz].
  intros j Hj. rewrite Hz by lia. done.
Qed.

(** The array after the loops, read as one number. *)
Lemma parsed_value input p np numFull cs :
  length input = (p + 10 * numFull)%nat -> (np + numFull <= 6)%nat ->
  np = (if (p =? 0)%nat then O else 1%nat) -> valid58 input -> (p < 10)%nat ->
  parsed input p np numFull (textValue (take p input)) cs 10 0 ->
  isDigits kB5810 (take (numFull + np) cs) /\ valBE kB5810 (take (numFull + np) cs) = textValue input.
Proof.
  intros Hlen H6 Hnp Hv Hp (P1 & P2 & P3 & _). cbn [Nat.ltb Nat.leb] in P3.
  set (f := fun j => textValue (blockText input p j 10)) in *.
  assert (E : take (numFull + np) cs = (if (p =? 0)%nat then [] else [textValue (take p input)]) ++ map f (seq 0 numFull)).
  { apply list_eq_same_length with (n := (numFull + np)%nat); [|rewrite length_take; lia|].
    { rewrite length_app, length_map, length_seq. subst np. destruct (p =? 0)%nat; cbn; lia. }
    intros i x y Hi Hx Hy. rewrite lookup_take_lt in Hx by done. destruct (p =? 0)%nat; subst np; cbn [app] in Hy.
    - pose proof (P3 i ltac:(lia)) as E. rewrite Nat.add_0_l in E.
      rewrite list_lookup_fmap, lookup_seq_lt in Hy by lia. change (Some (f i) = Some y) in Hy.
      unfold f in Hy. congruence.
    - destruct i as [|i]; [rewrite P2 in Hx by done; cbn in Hy; congruence|]. change (map f (seq 0 numFull) !! i = Some y) in Hy.
      pose proof (P3 i ltac:(lia)) as E. change (1 + i)%nat with (S i) in E.
      rewrite list_lookup_fmap, lookup_seq_lt in Hy by lia. change (Some (f i) = Some y) in Hy.
      unfold f in Hy. congruence. }
  rewrite E. split.
  - apply Forall_app. split.
    + destruct (p =? 0)%nat; [constructor|]. apply Forall_singleton.
      pose proof (textValue_range (take p input) ltac:(by apply Forall_take)) as R. rewrite length_take in R.
      assert (58 ^ Z.of_nat (p `min` length input) <= kB5810) by (rewrite kB5810_power; apply Z.pow_le_mono_r; lia). lia.
    + apply Forall_fmap, Forall_seq. intros j Hj. unfold compose, f.
      pose proof (textValue_range (blockText input p j 10) ltac:(by apply Forall_take, Forall_drop)) as R.
      rewrite (blockText_length input p numFull) in R by (done || lia). by rewrite kB5810_power.
  - rewrite valBE_app, length_map, length_seq. unfold f. rewrite (blocks_value input p numFull) by done.
    rewrite (take_ge (drop p input)) by (rewrite length_drop; lia).
    rewrite <-(take_drop p input) at 3. rewrite textValue_app, length_drop.
    replace (kB5810 ^ Z.of_nat numFull) with (58 ^ Z.of_nat (length input - p)).
    2: { rewrite kB5810_power, <-Z.pow_mul_r by lia. f_equal. lia. }
    destruct (Nat.eqb_spec p 0) as [->|]; [done|]. by rewrite valBE_cons, Z.mul_1_r, Z.add_0_r.
Qed.

(** The whole parse. *)
Lemma parseCoeffs_spec input :
  isBytes input -> (length input <= 52)%nat ->
  let n := (length input / 10 + (if length input mod 10 =? 0 then 0 else 1))%nat in
  if decide (valid58 input) then
    exists cs, parseCoeffs input = Some cs /\ length cs = 6%nat /\ (n <= 6)%nat /\ (n = O -> head cs = Some 0) /\
    isDigits kB5810 (take n cs) /\ valBE kB5810 (take n cs) = textValue input
  else parseCoeffs input = None.
Proof.
  intros Hb Hlen. cbv zeta. unfold parseCoeffs. cbv zeta.
  pose proof (Nat.div_mod_eq (length input) 10) as Edm. pose proof (Nat.mod_upper_bound (length input) 10 ltac:(lia)) as Hp.
  set (p := (length input mod 10)%nat) in *. set (numFull := (length input / 10)%nat) in *.
  set (np := if (p =? 0)%nat then O else 1%nat).
  assert (Hnp : (np <= 1)%nat /\ (np + numFull <= 6)%nat /\ (np = O -> p = O)).
  { subst np. destruct (Nat.eqb_spec p 0); repeat split; lia. }
  destruct Hnp as (Hn1 & Hn6 & Hn0). assert (Hl : length input = (p + 10 * numFull)%nat) by lia.
  assert (Ep : foldl partialStep (Some 0) (take p input) =
    if decide (valid58 (take p input)) then Some (textValue (take p input)) else None).
  { change (Some 0) with (Some (textValue [])). rewrite partialStep_fold; [done|by apply Forall_take|constructor|].
    rewrite length_take. cbn. lia. }
  rewrite Ep. destruct (decide (valid58 (take p input))) as [Hvp|Hvp].
  2: { rewrite decide_False; [done|]. intros Hv. apply Hvp. by apply Forall_take. }
  pose proof (columns_spec input p np numFull Hl Hb (textValue (take p input))
    (Some (textValue (take p input) :: replicate 5 0)) Hn6) as Hcol.
  destruct Hcol as [[Hv (cs & -> & P)]|[Hv ->]].
  - left. split; [intros j Hj; constructor|]. eexists. split; [done|]. apply parsed_init; [done|done|].
    intros E. rewrite Hn0 by done. done.
  - rewrite (columns_all input p numFull Hl) in Hv. rewrite decide_True.
    2: { rewrite <-(take_drop p input). by apply Forall_app. }
    exists cs. split; [done|]. split; [apply P|]. split; [lia|]. split.
    + intros E. 
      destruct P as (_ & _ & _ & P4). rewrite <-(P4 O); [|lia|lia]. replace (np + 0)%nat with O by lia.
      by destruct cs.
    + apply (parsed_value input p np); try done. rewrite <-(take_drop p input). by apply Forall_app.
  - rewrite (columns_all input p numFull Hl) in Hv. rewrite decide_False; [done|].
    intros Hv'. apply Hv. by apply Forall_drop.
Qed.

(** ** Conversion to base 2^64 *)

(** The number [V] in the lowest [cur] coefficients of the five, the top one not zero
    unless it is the only one. *)
Definition holds264 (result : list Z) (cur : nat) (V : Z) : Prop :=
  length result = 5%nat /\ isDigits B result /\ (1 <= cur <= 5)%nat /\
  drop cur result = replicate (5 - cur) 0 /\ valLE B (take cur result) = V /\
  ((1 < cur)%nat -> B ^ Z.of_nat (pred cur) <= V).

Lemma holds264_value result cur V :
  holds264 result cur V -> 0 <= V < B ^ Z.of_nat cur.
Proof.
  intros (H1 & H2 & H3 & H4 & <- & H6).
  assert (Hd : isDigits B (take cur result)) by by apply Forall_take.
  pose proof (valLE_range B _ B_pos Hd) as R. rewrite length_take in R. by rewrite Nat.min_l in R by lia.
Qed.

(** The top coefficient dropped when it is zero. *)
Lemma trim264 a k n V :
  isDigits B a -> length a = S n -> valLE B a = V -> (1 <= n)%nat ->
  B ^ Z.of_nat (pred n) <= V \/ n = 1%nat ->
  length k = (4 - n)%nat -> (n <= 4)%nat -> k = replicate (4 - n) 0 ->
  holds264 (a ++ k) (if default 0 ((a ++ k) !! n) =? 0 then n else S n) V.
Proof.
  intros Ha La Va Hn Hlow Lk Hn4 Ek. destruct (exists_last (l := a)) as (low & top & Eq); [by intros ->|]. subst a.
  rewrite length_app in La. cbn [length] in La. apply Forall_app in Ha as [Hl Ht].
  rewrite lookup_app_l by (rewrite length_app; cbn; lia).
  rewrite (list_lookup_middle low [] top n) by lia. change (default 0 (Some top)) with top.
  rewrite valLE_app in Va. cbn [valLE] in Va. replace (length low) with n in Va by lia.
  pose proof (valLE_range B low B_pos Hl) as R. replace (length low) with n in R by lia.
  assert (Hlen : length ((low ++ [top]) ++ k) = 5%nat) by (rewrite !length_app; cbn; lia).
  assert (Hdig : isDigits B ((low ++ [top]) ++ k)).
  { apply Forall_app. split; [by apply Forall_app|].
    rewrite Ek. apply Forall_replicate. pose proof B_pos. lia. }
  destruct (Z.eqb_spec top 0) as [->|Hne]; (split; [done|]; split; [done|]; split; [lia|]; split; [|split]).
  - rewrite <-app_assoc, drop_app_length' by lia. rewrite Ek. by replace (5 - n)%nat with (S (4 - n)) by lia.
  - rewrite <-app_assoc, take_app_length' by lia. lia.
  - lia.
  - rewrite drop_app_length' by (rewrite length_app; cbn; lia). by rewrite Ek.
  - rewrite take_app_length' by (rewrite length_app; cbn; lia). rewrite valLE_app. cbn [valLE].
    replace (length low) with n by lia. lia.
  - intros _. cbn [pred]. apply Forall_cons in Ht as [Ht _]. assert (0 < B ^ Z.of_nat n) by (apply Z.pow_pos_nonneg; [done|lia]). nia.
Qed.

Lemma mulAddStep_spec result cur V c :
  holds264 result cur V -> V < B ^ 4 -> 0 <= c < kB5810 ->
  exists result' cur', mulAddStep (Ok (result, cur)) c = Ok (result', cur') /\ holds264 result' cur' (V * kB5810 + c).
Proof.
  intros HV HV4 Hc. pose proof (holds264_value _ _ _ HV) as RV. destruct HV as (H1 & H2 & H3 & H4 & H5 & H6).
  pose proof kB5810_bounds as Hk. pose proof B_pos as HB.
  assert (Hcur : (cur <= 4)%nat).
  { destruct (Nat.le_gt_cases cur 4); [done|]. replace cur with 5%nat in * by lia.
    specialize (H6 ltac:(lia)). change (Z.of_nat (pred 5)) with 4 in H6. lia. }
  cbn [mulAddStep]. destruct (Nat.ltb_spec (length result) (cur + 1)); [lia|].
  assert (E : take (cur + 1) result = take cur result ++ [0] /\ drop (cur + 1) result = replicate (4 - cur) 0).
  { rewrite <-take_take_drop, <-drop_drop, H4. by replace (5 - cur)%nat with (S (4 - cur)) by lia. }
  destruct E as [Et Ed].
  destruct (inplaceBigintMul_spec (take (cur + 1) result) kB5810) as (a & -> & M1 & M2 & M3).
  { lia. } { by apply Forall_take. } { by rewrite Et, last_snoc. }
  rewrite Et, valLE_app, H5, length_app, length_take in *. cbn [valLE length] in *.
  assert (La : length a = S cur) by lia. assert (Ea : valLE B a = V * kB5810) by (rewrite M3; ring).
  destruct (inplaceBigintAdd_spec a c) as (a' & -> & A1 & A2 & A3); [lia|done|lia| |].
  { rewrite Ea, La, Nat2Z.inj_succ, Z.pow_succ_r by lia. nia. }
  eexists _, _. split; [done|]. rewrite Ed. apply trim264; try done; try lia.
  - rewrite Ea in A3. destruct (Nat.eq_dec cur 1); [by right|]. left. specialize (H6 ltac:(lia)).
    assert (0 < B ^ Z.of_nat (pred cur)) by (apply Z.pow_pos_nonneg; lia). nia.
  - by rewrite length_replicate.
Qed.

Lemma mulAddStep_fold cs : forall result cur V,
  holds264 result cur V -> isDigits kB5810 cs ->
  (V + 1) * kB5810 ^ Z.of_nat (length cs) <= B ^ 4 * kB5810 ->
  exists result' cur', foldl mulAddStep (Ok (result, cur)) cs = Ok (result', cur') /\
  holds264 result' cur' (V * kB5810 ^ Z.of_nat (length cs) + valBE kB5810 cs).
Proof.
  induction cs as [|c cs IH]; intros result cur V HV Hcs Hlt.
  { exists result, cur. split; [done|]. change (valBE kB5810 []) with 0. cbn [length].
    change (kB5810 ^ Z.of_nat 0) with 1. by replace (V * 1 + 0) with V by lia. }
  apply Forall_cons in Hcs as [Hc Hcs]. cbn [length foldl] in *. rewrite Nat2Z.inj_succ, Z.pow_succ_r in * by lia.
  pose proof (holds264_value _ _ _ HV) as RV. pose proof kB5810_bounds as Hk.
  assert (HP : 0 < kB5810 ^ Z.of_nat (length cs)) by (apply Z.pow_pos_nonneg; lia).
  assert (HV4 : V < B ^ 4) by nia.
  destruct (mulAddStep_spec result cur V c HV HV4 Hc) as (r & n & -> & Hr).
  destruct (IH r n _ Hr Hcs) as (r' & n' & -> & Hr').
  { assert (V * kB5810 + c + 1 <= (V + 1) * kB5810) by lia. nia. }
  exists r', n'. split; [done|]. rewrite valBE_cons.
  by replace (V * (kB5810 * kB5810 ^ Z.of_nat (length cs)) + (c * kB5810 ^ Z.of_nat (length cs) + valBE kB5810 cs))
    with ((V * kB5810 + c) * kB5810 ^ Z.of_nat (length cs) + valBE kB5810 cs) by lia.
Qed.

(** ** The bytes written *)

Lemma wordBytes_value l :
  isDigits B l -> valBE 256 (concat (map (beBytes 8) l)) = valBE B l /\ length (concat (map (beBytes 8) l)) = (8 * length l)%nat.
Proof.
  induction 1 as [|w l Hw Hl [IH1 IH2]]; [done|]. cbn [map concat].
  rewrite valBE_app, valBE_cons, length_app, length_beBytes, IH1, IH2, <-beValue_valBE, beValue_beBytes.
  change (2 ^ (8 * Z.of_nat 8)) with B. rewrite Z.mod_small by done. split; [|cbn [length]; lia].
  rewrite B_256, <-Z.pow_mul_r by lia. do 3 f_equal. lia.
Qed.

Lemma wordBytes_digits l : isBytes (concat (map (beBytes 8) l)).
Proof. induction l as [|w l IH]; [constructor|]. cbn [map concat]. apply Forall_app. split; [apply beBytes_digits|done]. Qed.

(** Skipping the zeros of the top word skips the zeros of all. *)
Lemma written_bytes result cur V :
  holds264 result cur V ->
  stripZeros (beBytes 8 (default 0 (result !! pred cur))) ++ concat (map (beBytes 8) (rev (take (pred cur) result))) =
  stripZeros (concat (map (beBytes 8) (rev (take cur result)))).
Proof.
  intros (H1 & H2 & H3 & H4 & H5 & H6). destruct cur as [|n]; [lia|]. cbn [pred] in *.
  destruct (lookup_lt_is_Some_2 result n) as [w Hw]; [lia|]. rewrite Hw. change (default 0 (Some w)) with w.
  pose proof (Forall_lookup_1 _ _ _ _ H2 Hw) as Rw. cbv beta in Rw.
  rewrite (take_S_r _ _ w Hw) in H5 |- *. rewrite rev_app_distr. cbn [rev app map concat].
  assert (Hv : valBE 256 (beBytes 8 w) = w).
  { rewrite <-beValue_valBE, beValue_beBytes. change (2 ^ (8 * Z.of_nat 8)) with B. by rewrite Z.mod_small. }
  destruct (Z.eq_dec w 0) as [->|Hne]; [|by rewrite (strip_app _ _ 256) by congruence].
  assert (n = O) as ->; [|by rewrite !app_nil_r].
  rewrite valLE_app in H5. cbn [valLE] in H5.
  assert (Hlow : isDigits B (take n result)) by by apply Forall_take.
  pose proof (valLE_range B _ B_pos Hlow) as R. rewrite length_take, Nat.min_l in R by lia.
  destruct n as [|n]; [done|]. specialize (H6 ltac:(lia)). lia.
Qed.

(** A number has no more digits in the larger base. *)
Lemma canonical_shorter b b' l k :
  1 < b <= b' -> isDigits b l -> isDigits b' k -> canonical k -> valBE b' k = valBE b l -> (length k <= length l)%nat.
Proof.
  intros Hb Hl Hk Ck E. destruct (Nat.le_gt_cases (length k) (length l)) as [|Hgt]; [done|]. exfalso.
  pose proof (canonical_lower b' k ltac:(lia) Hk Ck ltac:(intros ->; cbn in Hgt; lia)) as Hlow.
  pose proof (valBE_range b l ltac:(lia) Hl) as R.
  assert (b ^ Z.of_nat (length l) <= b' ^ Z.of_nat (length l)) by (apply Z.pow_le_mono_l; lia).
  assert (b' ^ Z.of_nat (length l) <= b' ^ (Z.of_nat (length k) - 1)) by (apply Z.pow_le_mono_r; lia). lia.
Qed.

Lemma inputZeros_valid s : valid58 s -> countZeros (map (fun c => c - forward 0) s) = countZeros (map reverse s).
Proof.
  induction 1 as [|c s [Hc Hr] Hs IH]; [done|]. cbn [map countZeros]. rewrite IH.
  destruct (valid58_char c Hc Hr) as [_ E]. destruct (Z.eqb_spec (reverse c) 0) as [E0|Hne].
  - rewrite E0 in E. destruct (Z.eqb_spec (c - forward 0) 0); [done|lia].
  - destruct (Z.eqb_spec (c - forward 0) 0) as [E0|]; [|done]. destruct Hne. replace c with (forward 0) by lia.
    by apply reverse_forward.
Qed.

(** The conversion of the parsed coefficients. *)
Lemma convert_spec cs n V :
  length cs = 6%nat -> (n <= 6)%nat -> (n = O -> head cs = Some 0) -> isDigits kB5810 (take n cs) ->
  valBE kB5810 (take n cs) = V -> V < 58 ^ 52 ->
  exists result cur,
    foldl mulAddStep (Ok (default 0 (head cs) :: replicate 4 0, 1%nat)) (drop 1 (take n cs)) = Ok (result, cur) /\
    holds264 result cur V.
Proof.
  intros Hl Hn H0 Hd HV Hlt. destruct cs as [|c cs]; [done|]. cbn [head]. change (default 0 (Some c)) with c.
  assert (Hinit : 0 <= c < kB5810 -> holds264 (c :: replicate 4 0) 1 c).
  { intros Hc. pose proof kB5810_bounds as Hk. split; [done|]. split.
    { constructor; [lia|]. apply Forall_replicate. pose proof B_pos. lia. }
    split; [lia|]. split; [done|]. split; [change (c + B * 0 = c); ring|lia]. }
  destruct n as [|n].
  { injection (H0 eq_refl) as ->. exists (0 :: replicate 4 0), 1%nat. split; [done|]. rewrite <-HV. by apply Hinit. }
  cbn [take drop] in *. rewrite drop_0. apply Forall_cons in Hd as [Hc Hd]. rewrite valBE_cons in HV.
  set (k := take n cs) in *. assert (Hk : (length k <= 5)%nat) by (unfold k; rewrite length_take; lia).
  destruct (mulAddStep_fold k _ _ c (Hinit Hc) Hd) as (r & m & E & Hr); [|exists r, m; by rewrite <-HV].
  pose proof (valBE_range kB5810 k ltac:(done) Hd) as R. clearbody k.
  assert (Hpow : 0 < kB5810 ^ Z.of_nat (length k)) by (apply Z.pow_pos_nonneg; [done|lia]).
  destruct (Nat.eq_dec (length k) 5) as [E5|H5].
  - rewrite E5 in *. change (kB5810 ^ Z.of_nat 5) with (58 ^ 50) in *.
    assert (c < 58 ^ 2) by (change (58 ^ 52) with (58 ^ 2 * 58 ^ 50) in Hlt; nia).
    transitivity (58 ^ 2 * 58 ^ 50); [nia|]. vm_compute. congruence.
  - assert (kB5810 ^ Z.of_nat (length k) <= kB5810 ^ 4) by (apply Z.pow_le_mono_r; [done|lia]).
    assert (kB5810 ^ 4 <= B ^ 4) by (vm_compute; congruence). pose proof kB5810_bounds. nia.
Qed.

Lemma fast_decode_rel s outSize :
  isBytes s -> (length s <= 52)%nat -> (52 <= outSize)%nat ->
  if decide (valid58 s) then exists m, b58ToB256Be s outSize = Ok m /\ b58rel m s
  else b58ToB256Be s outSize = Err InvalidEncodingChar.
Proof.
  intros Hs Hlen Hout. unfold b58ToB256Be. destruct (Nat.ltb_spec 52 (length s)); [lia|].
  destruct (Nat.ltb_spec outSize 8); [lia|]. pose proof (parseCoeffs_spec s Hs Hlen) as Hp. cbv zeta in *.
  destruct (decide (valid58 s)) as [Hv|Hv]; [|by rewrite Hp].
  destruct Hp as (cs & -> & P1 & P2 & P3 & P4 & P5). pose proof (textValue_range s Hv) as RV.
  assert (58 ^ Z.of_nat (length s) <= 58 ^ 52) by (apply Z.pow_le_mono_r; lia).
  destruct (convert_spec cs _ (textValue s) P1 P2 P3 P4 P5 ltac:(lia)) as (result & cur & -> & Hr).
  rewrite inputZeros_valid by done. pose proof (written_bytes _ _ _ Hr) as Ew.
  destruct Hr as (R1 & R2 & R3 & R4 & R5 & R6). set (top := stripZeros (beBytes 8 _)) in *.
  set (low := rev (take (pred cur) result)) in *. set (full := concat (map (beBytes 8) (rev (take cur result)))) in *.
  assert (Hdt : isDigits B (take cur result)) by by apply Forall_take.
  assert (Hdl : isDigits B low) by by apply isDigits_rev, Forall_take.
  destruct (wordBytes_value _ (isDigits_rev _ _ Hdt)) as [Vf _]. fold full in Vf. rewrite <-valLE_rev, R5 in Vf.
  destruct (wordBytes_value low Hdl) as [_ Ll]. unfold low in Ll at 2. rewrite length_rev, length_take, Nat.min_l in Ll by lia.
  destruct (stripZeros_spec full) as [_ Cf]. destruct (stripZeros_spec (map reverse s)) as [Es _].
  pose proof (isDigits_strip 256 full (wordBytes_digits _)) as Df.
  pose proof (isDigits_strip 58 _ (valid58_digits s Hv)) as Ds.
  assert (Hsh : (length (stripZeros full) <= length (stripZeros (map reverse s)))%nat).
  { apply (canonical_shorter 58 256); [lia|done|done|done|]. by rewrite !valBE_strip, Vf. }
  apply (f_equal length) in Es. rewrite length_map, length_app, length_replicate in Es.
  assert (Hlt : (length top + 8 * pred cur = length (stripZeros full))%nat) by (rewrite <-Ew, length_app, Ll; lia).
  destruct (Nat.ltb_spec outSize (countZeros (map reverse s) + length top)); [lia|].
  destruct (Nat.ltb_spec outSize (countZeros (map reverse s) + length top + 8 * pred cur)); [lia|].
  eexists. split; [done|]. rewrite Ew. apply b58rel_digits; [|done|by rewrite countZeros_replicate|].
  - apply Forall_app. split; [apply Forall_replicate; lia|done].
  - by rewrite valBE_app, valBE_replicate_zero, (valBE_strip 256), Vf.
Qed.
