(* ===== verification/Base58Spec.v ===== *)
(** * Base-58 tokens: the codec

    The fast implementation agrees with the reference one, neither reads nor writes out of
    bounds, and tokens survive a round trip: each text decodes to at most one token, and
    only to the token it is the encoding of. *)
From S2P Require Import Prelude Digits Base58 Base58Facts Base58Parse.

Lemma tokenCode_byte t : 0 <= tokenCode t < 256.
Proof. by destruct t. Qed.

Lemma nonempty_length (l : list Z) : l <> [] -> (0 < length l)%nat.
Proof. destruct l; [done|cbn; lia]. Qed.

Lemma tokenCode_inj t t' : tokenCode t = tokenCode t' -> t = t'.
Proof. by destruct t, t'. Qed.

#[export] Instance TokenType_eq_dec : EqDecision TokenType.
Proof. solve_decision. Defined.

Section Codec.
Context (sha256 : list Z -> list Z).
(** A digest has thirty-two bytes. *)
Context (sha256_digest : forall l, isBytes l -> length (sha256 l) = 32%nat /\ isBytes (sha256 l)).

(** The bytes that are encoded: the type, the token and the checksum of both. *)
Definition sealed (type : TokenType) (token : list Z) : list Z :=
  (tokenCode type :: token) ++ checksum sha256 (tokenCode type :: token).

Lemma checksum_spec l : isBytes l -> length (checksum sha256 l) = 4%nat /\ isBytes (checksum sha256 l).
Proof using sha256_digest.
  intros Hl. unfold checksum. destruct (sha256_digest l Hl) as [_ H1]. destruct (sha256_digest _ H1) as [H2 H3].
  split; [rewrite length_take; lia|by apply Forall_take].
Qed.

Lemma sealed_spec type token :
  isBytes token -> isBytes (sealed type token) /\ length (sealed type token) = (length token + 5)%nat.
Proof using sha256_digest.
  intros Ht. assert (Hb : isBytes (tokenCode type :: token)) by (constructor; [apply tokenCode_byte|done]).
  destruct (checksum_spec _ Hb) as [H1 H2]. unfold sealed. rewrite length_app, H1. split; [by apply Forall_app|].
  cbn [length]. lia.
Qed.

(** What both decoders do with the bytes of a text. *)
Definition unsealed (type : TokenType) (ret : list Z) : list Z :=
  if (length ret <? 6)%nat then []
  else if negb (tokenCode type =? default 0 (head ret)) then []
  else if negb (bool_decide (drop (length ret - 4) ret = checksum sha256 (take (length ret - 4) ret))) then []
  else take (length ret - 1 - 4) (drop 1 ret).

Lemma unsealed_sealed type type' token :
  isBytes token -> token <> [] ->
  unsealed type' (sealed type token) = if bool_decide (type' = type) then token else [].
Proof using sha256_digest.
  intros Ht Hne. destruct (sealed_spec type token Ht) as [_ Hl]. unfold unsealed. rewrite Hl.
  apply nonempty_length in Hne.
  destruct (Nat.ltb_spec (length token + 5) 6); [lia|].
  change (default 0 (head (sealed type token))) with (tokenCode type).
  destruct (Z.eqb_spec (tokenCode type') (tokenCode type)) as [E%tokenCode_inj|Hn]; cbn [negb].
  2: { rewrite bool_decide_false; [done|]. by intros ->. }
  rewrite (bool_decide_true (type' = type)) by done. unfold sealed.
  rewrite take_app_length', drop_app_length' by (cbn; lia). rewrite bool_decide_true by done. cbn [negb app].
  change (drop 1 (tokenCode type :: ?l)) with l. rewrite take_app_length' by lia. done.
Qed.

Lemma unsealed_only type ret :
  unsealed type ret <> [] -> ret = sealed type (unsealed type ret) /\ (length ret = length (unsealed type ret) + 5)%nat.
Proof.
  unfold unsealed. destruct (Nat.ltb_spec (length ret) 6) as [|Hl]; [done|].
  destruct (Z.eqb_spec (tokenCode type) (default 0 (head ret))) as [E|]; [|done]. cbn [negb].
  destruct (bool_decide _) eqn:Eb; [|done]. breflect. cbn [negb]. intros _.
  destruct ret as [|t ret]; [cbn in Hl; lia|]. cbn in E. subst t.
  change (drop 1 (tokenCode type :: ret)) with (drop 0 ret). rewrite drop_0. cbn [length] in *.
  replace (S (length ret) - 4)%nat with (S (length ret - 4)) in * by lia.
  replace (S (length ret) - 1 - 4)%nat with (length ret - 4)%nat by lia.
  cbn [take drop] in Eb. unfold sealed. rewrite length_take. split; [|lia].
  rewrite <-Eb. cbn [app]. by rewrite take_drop.
Qed.

(** ** The reference codec *)

Lemma ref_encode_sealed type token :
  isBytes token -> b58rel (sealed type token) (Ref.encodeBase58Token sha256 type token).
Proof using sha256_digest.
  intros Ht. destruct (sealed_spec type token Ht) as [Hb Hl].
  unfold Ref.encodeBase58Token. apply ref_encode_rel; [done|].
  pose proof (valBE_range 256 _ ltac:(lia) Hb) as R. rewrite Hl in R.
  eapply Z.lt_le_trans; [apply R|].
  replace (Z.of_nat ((1 + length token + 4) * 3 - (1 + length token + 4))) with (2 * Z.of_nat (length token + 5)) by lia.
  rewrite Z.pow_mul_r by lia. apply Z.pow_le_mono_l. lia.
Qed.

Lemma ref_decode_unsealed type s :
  Ref.decodeBase58Token sha256 s type = unsealed type (Ref.decodeBase58 s).
Proof. done. Qed.

Lemma ref_decode_of m s : b58rel m s -> (length s <= 64)%nat -> Ref.decodeBase58 s = m.
Proof.
  intros Hr Hl. destruct (b58rel_inv m s Hr) as (_ & Hv & _). apply (b58rel_inj _ _ s); [|done].
  by apply ref_decode_rel.
Qed.

(** The text of thirty-eight bytes has at most fifty-two characters. *)
Lemma b58rel_length m s : b58rel m s -> (length m <= 38)%nat -> (length s <= 52)%nat.
Proof.
  intros (z & bs & ds & -> & -> & Hb & Cb & Hd & Cd & E) Hl.
  rewrite !length_app, !length_replicate, length_map in *.
  destruct (Nat.le_gt_cases (z + length ds) 52) as [|Hgt]; [done|]. exfalso.
  pose proof (canonical_lower 58 ds ltac:(lia) Hd Cd ltac:(intros ->; cbn in Hgt; lia)) as Hlow.
  pose proof (valBE_range 256 bs ltac:(lia) Hb) as R.
  assert (58 ^ (52 - Z.of_nat z) <= 58 ^ (Z.of_nat (length ds) - 1)) by (apply Z.pow_le_mono_r; lia).
  assert (256 ^ Z.of_nat (length bs) <= 256 ^ (38 - Z.of_nat z)) by (apply Z.pow_le_mono_r; lia).
  assert (Hk : 256 ^ (38 - Z.of_nat z) * 58 ^ Z.of_nat z <= 58 ^ (52 - Z.of_nat z) * 58 ^ Z.of_nat z).
  { rewrite <-Z.pow_add_r by lia. replace (52 - Z.of_nat z + Z.of_nat z) with 52 by lia.
    transitivity (256 ^ (38 - Z.of_nat z) * 256 ^ Z.of_nat z).
    - apply Z.mul_le_mono_nonneg_l; [apply Z.pow_nonneg; lia|]. apply Z.pow_le_mono_l. lia.
    - rewrite <-Z.pow_add_r by lia. replace (38 - Z.of_nat z + Z.of_nat z) with 38 by lia. vm_compute. congruence. }
  assert (0 < 58 ^ Z.of_nat z) by (apply Z.pow_pos_nonneg; lia). nia.
Qed.

(** ** The fast codec *)

Lemma fast_encode_sealed type token :
  isBytes token -> token <> [] -> (length token <= 33)%nat ->
  exists s, Fast.encodeBase58Token sha256 type token = Some s /\ b58rel (sealed type token) s.
Proof using sha256_digest.
  intros Ht Hne Hl. destruct (sealed_spec type token Ht) as [Hb Hlen].
  unfold Fast.encodeBase58Token, Fast.encodeToken. destruct (Nat.ltb_spec (128 - 5) (length token)); [lia|].
  rewrite bool_decide_false by done.
  destruct (fast_encode_rel (sealed type token) 128 Hb ltac:(lia) ltac:(lia)) as (s & E & Hr).
  unfold sealed in E. rewrite E. by exists s.
Qed.

Lemma fast_decode_unsealed type s m :
  Fast.b58ToB256Be s 64 = Ok m -> (length m <= 69)%nat ->
  Fast.decodeBase58Token sha256 s type = Some (unsealed type m).
Proof.
  intros E Hm. unfold Fast.decodeBase58Token, Fast.decodeToken, unsealed. rewrite E. cbv zeta.
  destruct (Nat.ltb_spec (length m) 6); [done|]. destruct (tokenCode type =? _); [|done]. cbn [negb].
  destruct (bool_decide _); [|done]. cbn [negb].
  destruct (Nat.ltb_spec 64 (length m - 1 - 4)); [lia|done].
Qed.

Lemma b58rel_shorter m s : b58rel m s -> (length m <= length s)%nat.
Proof.
  intros (z & bs & ds & -> & -> & Hb & Cb & Hd & Cd & E). rewrite !length_app, !length_replicate, length_map.
  pose proof (canonical_shorter 58 256 ds bs ltac:(lia) Hd Hb Cb E). lia.
Qed.

Lemma fast_decode_spec type s :
  isBytes s -> (length s <= 52)%nat ->
  Fast.decodeBase58Token sha256 s type = Some (Ref.decodeBase58Token sha256 s type).
Proof.
  intros Hs Hl. rewrite ref_decode_unsealed.
  pose proof (fast_decode_rel s 64 Hs Hl ltac:(lia)) as Hf. destruct (decide (valid58 s)) as [Hv|Hv].
  - destruct Hf as (m & E & Hr). pose proof (b58rel_shorter m s Hr).
    rewrite (fast_decode_unsealed type s m E) by lia. by rewrite (ref_decode_of m s Hr) by lia.
  - unfold Fast.decodeBase58Token, Fast.decodeToken. rewrite Hf, ref_decode_invalid by done. done.
Qed.
End Codec.

Lemma fast_encode_spec sha256 type token :
  (forall l, isBytes l -> length (sha256 l) = 32%nat /\ isBytes (sha256 l)) -> isBytes token ->
  Fast.encodeBase58Token sha256 type token =
    Some (if bool_decide (0 < length token <= 33)%nat then Ref.encodeBase58Token sha256 type token else []).
Proof.
  intros Hsha Ht. destruct (bool_decide _) eqn:E; breflect.
  - destruct (fast_encode_sealed sha256 Hsha type token Ht) as (s & -> & Hr); [by intros ->; cbn in E; lia|lia|].
    f_equal. apply (b58rel_fun _ _ _ Hr). by apply ref_encode_sealed.
  - destruct (sealed_spec sha256 Hsha type token Ht) as [_ Hl].
    unfold Fast.encodeBase58Token, Fast.encodeToken. destruct (Nat.ltb_spec (128 - 5) (length token)); [done|].
    destruct (bool_decide (token = [])) eqn:En; [done|]. breflect.
    unfold Fast.b256ToB58Be. fold (sealed sha256 type token). rewrite Hl.
    destruct (Nat.ltb_spec 38 (length token + 5)); [done|]. apply nonempty_length in En. lia.
Qed.

(** ** The properties *)

(** C21: The two implementations of the token codec agree and the fast one is never
    undefined: for every token of at most thirty-three bytes the fast encoder returns the
    text of the reference encoder, and for every text of at most fifty-two characters the
    fast decoder returns what the reference decoder returns; beyond those sizes, and for
    the empty token, it returns the empty result. *)
Theorem token_codecs_agree (sha256 : list Z -> list Z)
    (Hsha : forall l, isBytes l -> length (sha256 l) = 32%nat /\ isBytes (sha256 l)) (type : TokenType) :
  (forall token, isBytes token ->
     Fast.encodeBase58Token sha256 type token =
       Some (if bool_decide (0 < length token <= 33)%nat then Ref.encodeBase58Token sha256 type token else [])) /\
  (forall s, isBytes s ->
     Fast.decodeBase58Token sha256 s type =
       Some (if bool_decide (length s <= 52)%nat then Ref.decodeBase58Token sha256 s type else [])).
Proof.
  split.
  - intros token Ht. by apply fast_encode_spec.
  - intros s Hs. destruct (bool_decide _) eqn:E; breflect; [by apply fast_decode_spec|].
    unfold Fast.decodeBase58Token, Fast.decodeToken, Fast.b58ToB256Be.
    destruct (Nat.ltb_spec 52 (length s)); [done|lia].
Qed.

(** A token of one to thirty-three bytes encodes to a text that both decoders, asked
    for its type, decode to the token, and asked for another type refuse. *)
Theorem token_roundtrip (sha256 : list Z -> list Z)
    (Hsha : forall l, isBytes l -> length (sha256 l) = 32%nat /\ isBytes (sha256 l))
    (type type' : TokenType) (token : list Z)
    (Ht : isBytes token) (Hne : token <> []) (Hl : (length token <= 33)%nat) :
  exists s, Ref.encodeBase58Token sha256 type token = s /\
    Fast.encodeBase58Token sha256 type token = Some s /\
    let token' := if bool_decide (type' = type) then token else [] in
    Ref.decodeBase58Token sha256 s type' = token' /\ Fast.decodeBase58Token sha256 s type' = Some token'.
Proof.
  destruct (sealed_spec sha256 Hsha type token Ht) as [_ Hlen].
  pose proof (ref_encode_sealed sha256 Hsha type token Ht) as Hr. set (s := Ref.encodeBase58Token _ _ _) in *.
  assert (Hs : (length s <= 52)%nat) by (apply (b58rel_length _ _ Hr); lia).
  assert (Hd : Ref.decodeBase58Token sha256 s type' = if bool_decide (type' = type) then token else []).
  { rewrite ref_decode_unsealed, (ref_decode_of _ s Hr) by lia. by apply unsealed_sealed. }
  exists s. split; [done|]. split; [|split; [done|]].
  - rewrite fast_encode_spec by done. rewrite bool_decide_true; [done|]. apply nonempty_length in Hne. lia.
  - rewrite fast_decode_spec; [by rewrite Hd| |done]. destruct (b58rel_inv _ _ Hr) as (_ & Hv & _).
    eapply Forall_impl; [exact Hv|]. by intros c [Hc _].
Qed.

(** A text decodes to a token only when it is the token's encoding: of all texts of up
    to sixty-four characters exactly one stands for a given token, so no token has two
    spellings. *)
Theorem token_text_canonical (sha256 : list Z -> list Z)
    (Hsha : forall l, isBytes l -> length (sha256 l) = 32%nat /\ isBytes (sha256 l))
    (type : TokenType) (s : list Z) (Hs : isBytes s) (Hl : (length s <= 64)%nat)
    (Hok : Ref.decodeBase58Token sha256 s type <> []) :
  Ref.encodeBase58Token sha256 type (Ref.decodeBase58Token sha256 s type) = s.
Proof.
  rewrite ref_decode_unsealed in *. destruct (unsealed_only sha256 type _ Hok) as [E _].
  set (token := unsealed _ _ _) in *. destruct (decide (valid58 s)) as [Hv|Hv].
  2: { exfalso. unfold token in Hok. by rewrite ref_decode_invalid in Hok. }
  pose proof (ref_decode_rel s Hv Hl) as Hr. destruct (b58rel_inv _ _ Hr) as (Hm & _).
  rewrite E in Hr, Hm. apply (b58rel_fun (sealed sha256 type token)); [|done].
  apply ref_encode_sealed; [done|]. unfold sealed in Hm. cbn [app] in Hm. apply Forall_cons in Hm as [_ Hm].
  by apply Forall_app in Hm as [Hm _].
Qed.

(** *** Witnesses *)

(** A digest of the right shape. *)
Definition sampleDigest (l : list Z) : list Z := replicate 32 (foldl Z.add (Z.of_nat (length l)) l mod 256).

Lemma sampleDigest_spec l : isBytes l -> length (sampleDigest l) = 32%nat /\ isBytes (sampleDigest l).
Proof. intros _. split; [done|]. apply Forall_replicate. by apply Z.mod_pos_bound. Qed.

Definition sampleToken : list Z := [0; 181; 247; 98; 121; 138; 83; 213; 67; 160; 20; 202; 248; 178; 151; 207; 248; 242; 249; 55].

Lemma sampleToken_bytes : isBytes sampleToken.
Proof. unfold isBytes, isDigits. by apply (bool_decide_eq_true_1 _). Qed.

Lemma token_codecs_agree_witness :
  Fast.encodeBase58Token sampleDigest AccountID sampleToken =
    Some (Ref.encodeBase58Token sampleDigest AccountID sampleToken).
Proof.
  pose proof (proj1 (token_codecs_agree sampleDigest sampleDigest_spec AccountID) sampleToken sampleToken_bytes) as E.
  rewrite bool_decide_true in E by (change (0 < 20 <= 33)%nat; lia). exact E.
Defined.

Lemma token_roundtrip_witness :
  exists s, Fast.encodeBase58Token sampleDigest AccountID sampleToken = Some s /\
    Fast.decodeBase58Token sampleDigest s AccountID = Some sampleToken /\
    Fast.decodeBase58Token sampleDigest s FamilySeed = Some [].
Proof.
  destruct (token_roundtrip sampleDigest sampleDigest_spec AccountID AccountID sampleToken sampleToken_bytes
    ltac:(discriminate) ltac:(change (20 <= 33)%nat; lia)) as (s & E & Ef & _ & D).
  destruct (token_roundtrip sampleDigest sampleDigest_spec AccountID FamilySeed sampleToken sampleToken_bytes
    ltac:(discriminate) ltac:(change (20 <= 33)%nat; lia)) as (s' & E' & _ & _ & D').
  rewrite bool_decide_true in D by done. rewrite bool_decide_false in D' by done. rewrite E' in E. subst s'.
  exists s. split; [exact Ef|]. split; [exact D|exact D'].
Defined.

Lemma token_text_canonical_witness :
  let s := Ref.encodeBase58Token sampleDigest NodePublic [3] in
  s <> [] /\ Ref.encodeBase58Token sampleDigest NodePublic (Ref.decodeBase58Token sampleDigest s NodePublic) = s.
Proof.
  cbv zeta. split; [vm_compute; congruence|].
  apply (token_text_canonical sampleDigest sampleDigest_spec).
  - apply (bool_decide_eq_true_1 _). vm_compute. reflexivity.
  - vm_compute. lia.
  - vm_compute. congruence.
Defined.
