(* ===== verification/HashPrefix.v ===== *)
(** * Hash prefixes

    The enumeration of include/xrpl/protocol/HashPrefix.h: the four bytes that separate the
    spaces of the hashes. *)
From stdpp Require Import strings.
From S2P Require Import Prelude Digits.

(** [makeHashPrefix] *)
Definition makeHashPrefix (a b c : Z) : Z :=
  u32 (Z.shiftl a 24) +32 u32 (Z.shiftl b 16) +32 u32 (Z.shiftl c 8).

Inductive HashPrefix :=
| TransactionId | TxNode | LeafNode | InnerNode | LedgerMaster | TxSign | TxMultiSign | Validation
| Proposal | Manifest | PaymentChannelClaim | Batch | CounterpartyTxSign | CounterpartyTxMultiSign
| SponsorTxSign | SponsorTxMultiSign.

Definition letters (s : String.string) : Z :=
  match map (fun c => Z.of_N (Ascii.N_of_ascii c)) (String.list_ascii_of_string s) with
  | [a; b; c] => makeHashPrefix a b c
  | _ => 0
  end.

Definition prefixValue (p : HashPrefix) : Z :=
  letters
    match p with
    | TransactionId => "TXN" | TxNode => "SND" | LeafNode => "MLN" | InnerNode => "MIN"
    | LedgerMaster => "LWR" | TxSign => "STX" | TxMultiSign => "SMT" | Validation => "VAL"
    | Proposal => "PRP" | Manifest => "MAN" | PaymentChannelClaim => "CLM" | Batch => "BCH"
    | CounterpartyTxSign => "CPT" | CounterpartyTxMultiSign => "CPM" | SponsorTxSign => "SPN"
    | SponsorTxMultiSign => "SPM"
    end%string.

(** The bytes hashed for a prefix. *)
Definition prefixBytes (p : HashPrefix) : list Z := beBytes 4 (prefixValue p).

Lemma length_prefixBytes p : length (prefixBytes p) = 4%nat.
Proof. apply length_beBytes. Qed.

(** The spaces are separate. *)
Lemma prefixBytes_inj p q : prefixBytes p = prefixBytes q -> p = q.
Proof. destruct p, q; (reflexivity || (vm_compute; discriminate)). Qed.

Lemma prefixBytes_app p q l k : prefixBytes p ++ l = prefixBytes q ++ k -> p = q /\ l = k.
Proof.
  intros E. apply app_inj_1 in E as [Ep El]; [|by rewrite !length_prefixBytes]. by apply prefixBytes_inj in Ep.
Qed.
