(* ===== verification/Serializer.v ===== *)
(** * Serialization

    The classes [Serializer] and [SerialIter] of include/xrpl/protocol/Serializer.h and
    src/libxrpl/protocol/Serializer.cpp.

    A [Serializer] is the list of its bytes; each writer returns the offset at which it
    wrote and the extended bytes.  A [SerialIter] is the buffer with the pointer [p_], as
    an index into the buffer, and the two counters.  A reader is a function from an
    iterator to a result and the iterator left behind, also when it throws; reading past
    the end of the buffer is the result [Wild]. *)
From S2P Require Import Prelude Digits.

Definition u8 (x : Z) : Z := x mod 2 ^ 8.
Definition u16 (x : Z) : Z := x mod 2 ^ 16.

(** The exceptions thrown, and undefined behaviour *)
Inductive Outcome (A : Type) :=
| Ret (a : A)
| RuntimeError
| OverflowError
| DomainError
| LogicError
| Wild.
Arguments Ret {A} a.
Arguments RuntimeError {A}.
Arguments OverflowError {A}.
Arguments DomainError {A}.
Arguments LogicError {A}.
Arguments Wild {A}.

(** ** Writing *)

Definition Serializer : Type := list Z.

Definition size (s : Serializer) : Z := i32 (Z.of_nat (length s)).

Definition kMinValueOfFirstByteFor1ByteHeader : Z := 0.
Definition kMaxValueOfFirstByteFor1ByteHeader : Z := 192.
Definition kMinValueOfFirstByteFor2ByteHeader : Z := kMaxValueOfFirstByteFor1ByteHeader + 1.
Definition kMaxValueOfFirstByteFor2ByteHeader : Z := 240.
Definition kMinValueOfFirstByteFor3ByteHeader : Z := kMaxValueOfFirstByteFor2ByteHeader + 1.
Definition kMaxValueOfFirstByteFor3ByteHeader : Z := 254.
Definition kNumberOfValuesInOneByte : Z := 256.
Definition kNumberOfValuesInTwoBytes : Z := kNumberOfValuesInOneByte * kNumberOfValuesInOneByte.
Definition kMinValueOfLengthFor1ByteHeader : Z := kMinValueOfFirstByteFor1ByteHeader.
Definition kMaxValueOfLengthFor1ByteHeader : Z := kMaxValueOfFirstByteFor1ByteHeader.
Definition kMinValueOfLengthFor2ByteHeader : Z := kMaxValueOfLengthFor1ByteHeader + 1.
Definition kMaxValueOfLengthFor2ByteHeader : Z :=
  kMinValueOfLengthFor2ByteHeader +
  (kMaxValueOfFirstByteFor2ByteHeader - kMaxValueOfFirstByteFor1ByteHeader) * kNumberOfValuesInOneByte - 1.
Definition kMinValueOfLengthFor3ByteHeader : Z := kMaxValueOfLengthFor2ByteHeader + 1.
Definition kMaxRepresentableLength : Z :=
  kMinValueOfLengthFor3ByteHeader +
  (kMaxValueOfFirstByteFor3ByteHeader - kMaxValueOfFirstByteFor2ByteHeader) * kNumberOfValuesInTwoBytes - 1.
Definition kMaxValueOfLengthFor3ByteHeader : Z := 918744.

Definition addRaw (bytes : list Z) (s : Serializer) : Z * Serializer := (size s, s ++ bytes).

Definition add8 (byteValue : Z) (s : Serializer) : Z * Serializer := (size s, s ++ [byteValue]).

Definition add16 (i : Z) (s : Serializer) : Z * Serializer :=
  (size s, s ++ [u8 (Z.shiftr i 8)] ++ [u8 (Z.land i 255)]).

Definition add32 (i : Z) (s : Serializer) : Z * Serializer :=
  (size s, s ++ [u8 (Z.land (Z.shiftr i 24) 255)] ++ [u8 (Z.land (Z.shiftr i 16) 255)] ++
     [u8 (Z.land (Z.shiftr i 8) 255)] ++ [u8 (Z.land i 255)]).

Definition add64 (i : Z) (s : Serializer) : Z * Serializer :=
  (size s, s ++ [u8 (Z.land (Z.shiftr i 56) 255)] ++ [u8 (Z.land (Z.shiftr i 48) 255)] ++
     [u8 (Z.land (Z.shiftr i 40) 255)] ++ [u8 (Z.land (Z.shiftr i 32) 255)] ++
     [u8 (Z.land (Z.shiftr i 24) 255)] ++ [u8 (Z.land (Z.shiftr i 16) 255)] ++
     [u8 (Z.land (Z.shiftr i 8) 255)] ++ [u8 (Z.land i 255)]).

Definition addBitString (v : list Z) (s : Serializer) : Z * Serializer := addRaw v s.

Definition addFieldID (type name : Z) (s : Serializer) : Z * Serializer :=
  (size s,
   if type <? 16 then
     if name <? 16 then s ++ [u8 (Z.lor (Z.shiftl type 4) name)]
     else s ++ [u8 (Z.shiftl type 4)] ++ [u8 name]
   else if name <? 16 then s ++ [u8 name] ++ [u8 type]
   else s ++ [0] ++ [u8 type] ++ [u8 name]).

Definition addEncoded (length : Z) (s : Serializer) : Outcome (Z * Serializer) :=
  if length <? kMinValueOfLengthFor1ByteHeader then OverflowError
  else if length <=? kMaxValueOfLengthFor1ByteHeader then Ret (addRaw [u8 length] s)
  else if length <=? kMaxValueOfLengthFor2ByteHeader then
    let offset := length - kMinValueOfLengthFor2ByteHeader in
    Ret (addRaw [u8 (kMinValueOfFirstByteFor2ByteHeader + Z.quot offset kNumberOfValuesInOneByte);
                 u8 (Z.rem offset kNumberOfValuesInOneByte)] s)
  else if length <=? kMaxValueOfLengthFor3ByteHeader then
    let offset := length - kMinValueOfLengthFor3ByteHeader in
    Ret (addRaw [u8 (kMinValueOfFirstByteFor3ByteHeader + Z.quot offset kNumberOfValuesInTwoBytes);
                 u8 (Z.rem (Z.quot offset kNumberOfValuesInOneByte) kNumberOfValuesInOneByte);
                 u8 (Z.rem offset kNumberOfValuesInOneByte)] s)
  else OverflowError.

Definition encodeLengthLength (length : Z) : Outcome Z :=
  if length <? kMinValueOfLengthFor1ByteHeader then OverflowError
  else if length <=? kMaxValueOfLengthFor1ByteHeader then Ret 1
  else if length <=? kMaxValueOfLengthFor2ByteHeader then Ret 2
  else if length <=? kMaxValueOfLengthFor3ByteHeader then Ret 3
  else OverflowError.

(** The size reaches [addEncoded] as an [int]. *)
Definition addVL (vector : list Z) (s : Serializer) : Outcome (Z * Serializer) :=
  match addEncoded (i32 (Z.of_nat (length vector))) s with
  | Ret (ret, s) => Ret (ret, (addRaw vector s).2)
  | RuntimeError => RuntimeError | OverflowError => OverflowError
  | DomainError => DomainError | LogicError => LogicError | Wild => Wild
  end.

Definition erase (s : Serializer) : Serializer := [].

Definition chop (bytes : Z) (s : Serializer) : bool * Serializer :=
  if Z.of_nat (length s) <? u64 bytes then (false, s)
  else (true, take (length s - Z.to_nat bytes) s).

(** *** Reading at an offset *)

Definition get8At (offset : Z) (s : Serializer) : option Z :=
  if Z.of_nat (length s) <=? u64 offset then None else s !! Z.to_nat offset.

(** [getInteger] for an unsigned type of [kBytes] bytes; the sum [offset + kBytes] is
    unsigned, so a negative offset can pass the test. *)
Definition getInteger (kBytes : nat) (offset : Z) (s : Serializer) : Outcome (option Z) :=
  if Z.of_nat (length s) <? u64 offset +64 Z.of_nat kBytes then Ret None
  else if offset <? 0 then Wild
  else
    let bytes := take kBytes (drop (Z.to_nat offset) s) in
    if negb (length bytes =? kBytes)%nat then Wild
    else
      Ret (Some (foldl (fun number b => Z.lor (Z.shiftl number 8 mod 2 ^ (8 * Z.of_nat kBytes)) b) 0 bytes)).

(** ** Lengths of variable-size fields *)

Definition decodeLengthLength (firstByte : Z) : Outcome Z :=
  if firstByte <=? kMaxValueOfFirstByteFor1ByteHeader then Ret 1
  else if firstByte <=? kMaxValueOfFirstByteFor2ByteHeader then Ret 2
  else if firstByte <=? kMaxValueOfFirstByteFor3ByteHeader then Ret 3
  else OverflowError.

(** The three overloads of [decodeVLLength] *)
Definition decodeVLLength1 (firstByte : Z) : Outcome Z :=
  if kMaxValueOfLengthFor1ByteHeader <? firstByte then OverflowError else Ret firstByte.

Definition decodeVLLength2 (firstByte secondByte : Z) : Outcome Z :=
  if firstByte <? kMinValueOfFirstByteFor2ByteHeader then OverflowError
  else if kMaxValueOfFirstByteFor2ByteHeader <? firstByte then OverflowError
  else Ret (kMinValueOfLengthFor2ByteHeader +
            (firstByte - kMinValueOfFirstByteFor2ByteHeader) * kNumberOfValuesInOneByte + secondByte).

Definition decodeVLLength3 (firstByte secondByte thirdByte : Z) : Outcome Z :=
  if firstByte <? kMinValueOfFirstByteFor3ByteHeader then OverflowError
  else if kMaxValueOfFirstByteFor3ByteHeader <? firstByte then OverflowError
  else
    let length := kMinValueOfLengthFor3ByteHeader +
      (firstByte - kMinValueOfFirstByteFor3ByteHeader) * kNumberOfValuesInTwoBytes +
      secondByte * kNumberOfValuesInOneByte + thirdByte in
    if kMaxValueOfLengthFor3ByteHeader <? length then OverflowError else Ret length.

(** ** The iterator *)

Record SerialIter := {
  si_data : list Z;
  p_ : nat;
  remain_ : nat;
  used_ : nat;
}.

Definition newIter (data : list Z) : SerialIter :=
  {| si_data := data; p_ := 0; remain_ := length data; used_ := 0 |}.

Definition empty (it : SerialIter) : bool := (remain_ it =? 0)%nat.

Definition reset (it : SerialIter) : SerialIter :=
  {| si_data := si_data it; p_ := p_ it - used_ it; remain_ := remain_ it + used_ it; used_ := 0 |}.

(** The three updates that follow a read of [n] bytes *)
Definition advance (n : nat) (it : SerialIter) : SerialIter :=
  {| si_data := si_data it; p_ := p_ it + n; remain_ := remain_ it - n; used_ := used_ it + n |}.

(** Readers *)
Definition Get (A : Type) : Type := SerialIter -> Outcome A * SerialIter.

Definition gret {A} (a : A) : Get A := fun it => (Ret a, it).

Definition gbind {A B} (m : Get A) (k : A -> Get B) : Get B := fun it =>
  match m it with
  | (Ret a, it) => k a it
  | (RuntimeError, it) => (RuntimeError, it)
  | (OverflowError, it) => (OverflowError, it)
  | (DomainError, it) => (DomainError, it)
  | (LogicError, it) => (LogicError, it)
  | (Wild, it) => (Wild, it)
  end.

Definition glift {A} (o : Outcome A) : Get A := fun it => (o, it).

Declare Scope get_scope.
Delimit Scope get_scope with get.
Notation "x <- m ;; k" := (gbind m (fun x => k))
  (at level 100, m at next level, right associativity) : get_scope.
Open Scope get_scope.

(** The check, the read and the updates of the fixed-size readers *)
Definition readBytes (n : nat) : Get (list Z) := fun it =>
  if (remain_ it <? n)%nat then (RuntimeError, it)
  else
    let t := take n (drop (p_ it) (si_data it)) in
    if (length t =? n)%nat then (Ret t, advance n it) else (Wild, it).

(** [t[k]] *)
Definition at_ (t : list Z) (k : nat) : Z := default 0 (t !! k).

Definition skip (length : Z) : Get unit := fun it =>
  if Z.of_nat (remain_ it) <? u64 length then (RuntimeError, it)
  else (Ret tt, advance (Z.to_nat length) it).

Definition get8 : Get Z := t <- readBytes 1;; gret (at_ t 0).

Definition get16 : Get Z :=
  t <- readBytes 2;; gret (u16 (Z.shiftl (at_ t 0) 8 +64 at_ t 1)).

Definition get32 : Get Z :=
  t <- readBytes 4;;
  gret (u32 (Z.shiftl (at_ t 0) 24 +64 Z.shiftl (at_ t 1) 16 +64 Z.shiftl (at_ t 2) 8 +64 at_ t 3)).

Definition get64 : Get Z :=
  t <- readBytes 8;;
  gret (Z.shiftl (at_ t 0) 56 +64 Z.shiftl (at_ t 1) 48 +64 Z.shiftl (at_ t 2) 40 +64
        Z.shiftl (at_ t 3) 32 +64 Z.shiftl (at_ t 4) 24 +64 Z.shiftl (at_ t 5) 16 +64
        Z.shiftl (at_ t 6) 8 +64 at_ t 7).

(** [load_big_s32] and [load_big_s64] read big-endian two's complement. *)
Definition geti32 : Get Z := t <- readBytes 4;; gret (i32 (beValue t)).
Definition geti64 : Get Z := t <- readBytes 8;; gret (i64 (beValue t)).

(** [getBitString], for [n] bytes *)
Definition getBitString (n : nat) : Get (list Z) := readBytes n.

Definition getFieldID : Get (Z * Z) :=
  type <- get8;;
  let name := Z.land type 15 in
  let type := Z.shiftr type 4 in
  type <- (if type =? 0 then t <- get8;; if t <? 16 then glift RuntimeError else gret t else gret type);;
  name <- (if name =? 0 then n <- get8;; if n <? 16 then glift RuntimeError else gret n else gret name);;
  gret (type, name).

Definition getRawHelper (size : Z) : Get (list Z) := fun it =>
  if Z.of_nat (remain_ it) <? u64 size then (RuntimeError, it)
  else if negb (size =? 0) then readBytes (Z.to_nat size) it
  else (Ret [], it).

Definition getRaw (size : Z) : Get (list Z) := getRawHelper size.

Definition getVLDataLength : Get Z :=
  firstByte <- get8;;
  lenLen <- glift (decodeLengthLength firstByte);;
  if lenLen =? 1 then glift (decodeVLLength1 firstByte)
  else if lenLen =? 2 then secondByte <- get8;; glift (decodeVLLength2 firstByte secondByte)
  else secondByte <- get8;; thirdByte <- get8;; glift (decodeVLLength3 firstByte secondByte thirdByte).

Definition getSlice (bytes : nat) : Get (list Z) := readBytes bytes.

Definition getVL : Get (list Z) := n <- getVLDataLength;; getRaw n.
Definition getVLBuffer : Get (list Z) := n <- getVLDataLength;; getRawHelper n.
