(* ===== verification/SerializerFacts.v ===== *)
(** * Serialization: lemmas

    The bytes each writer appends, the readers as functions of the bytes ahead, and the
    headers of variable-size fields. *)
From S2P Require Import Prelude Digits Serializer.

(** ** Bytes *)

Lemma u8_land x : u8 (Z.land x 255) = x mod 256.
Proof. unfold u8. change 255 with (Z.ones 8). rewrite Z.land_ones by lia. change (2 ^ 8) with 256. apply Z.mod_mod. lia. Qed.

Lemma u8_id x : 0 <= x < 256 -> u8 x = x.
Proof. intros. unfold u8. by rewrite Z.mod_small. Qed.

Lemma add16_bytes i s : add16 i s = (size s, s ++ beBytes 2 i).
Proof. unfold add16. cbn [beBytes app]. rewrite u8_land. change (8 * Z.of_nat 0) with 0. by rewrite Z.shiftr_0_r. Qed.

Lemma add32_bytes i s : add32 i s = (size s, s ++ beBytes 4 i).
Proof. unfold add32. cbn [beBytes app]. rewrite !u8_land. change (8 * Z.of_nat 0) with 0. by rewrite Z.shiftr_0_r. Qed.

Lemma add64_bytes i s : add64 i s = (size s, s ++ beBytes 8 i).
Proof. unfold add64. cbn [beBytes app]. rewrite !u8_land. change (8 * Z.of_nat 0) with 0. by rewrite Z.shiftr_0_r. Qed.

(** Remove the wrap-around of sums that do not wrap, innermost first. *)
Ltac unwrap64 :=
  repeat match goal with
  | |- context [u64 ?x] => lazymatch x with context [u64 _] => fail | _ => rewrite (u64_id x) by lia end
  end.

Lemma get16_value t : isDigits 256 t -> length t = 2%nat -> u16 (Z.shiftl (at_ t 0) 8 +64 at_ t 1) = beValue t.
Proof.
  intros Ht Hl. destruct t as [|a [|b [|]]]; try discriminate Hl.
  apply Forall_cons in Ht as [Ha Ht]. apply Forall_cons in Ht as [Hb _]. unfold at_. cbn [lookup list_lookup].
  change (default 0 (Some a)) with a. change (default 0 (Some b)) with b. rewrite Z.shiftl_mul_pow2 by lia.
  change (2 ^ 8) with 256. rewrite u64_id by lia. unfold u16. rewrite Z.mod_small by lia.
  change (beValue [a; b]) with (a * 256 + (b * 1 + 0)). lia.
Qed.

Ltac digits Ht :=
  repeat match type of Ht with
  | isDigits _ (_ :: _) => let H := fresh "Hd" in apply Forall_cons in Ht as [H Ht]
  | Forall _ (_ :: _) => let H := fresh "Hd" in apply Forall_cons in Ht as [H Ht]
  end; cbv beta in *.

Lemma get32_value t :
  isDigits 256 t -> length t = 4%nat ->
  u32 (Z.shiftl (at_ t 0) 24 +64 Z.shiftl (at_ t 1) 16 +64 Z.shiftl (at_ t 2) 8 +64 at_ t 3) = beValue t.
Proof.
  intros Ht Hl. destruct t as [|a [|b [|c [|d [|]]]]]; try discriminate Hl. digits Ht.
  change (u32 (Z.shiftl a 24 +64 Z.shiftl b 16 +64 Z.shiftl c 8 +64 d) =
    a * 2 ^ 24 + (b * 2 ^ 16 + (c * 2 ^ 8 + (d * 1 + 0)))).
  rewrite !Z.shiftl_mul_pow2 by lia. unwrap64. rewrite u32_id by lia. lia.
Qed.

Lemma get64_value t :
  isDigits 256 t -> length t = 8%nat ->
  Z.shiftl (at_ t 0) 56 +64 Z.shiftl (at_ t 1) 48 +64 Z.shiftl (at_ t 2) 40 +64 Z.shiftl (at_ t 3) 32 +64
  Z.shiftl (at_ t 4) 24 +64 Z.shiftl (at_ t 5) 16 +64 Z.shiftl (at_ t 6) 8 +64 at_ t 7 = beValue t.
Proof.
  intros Ht Hl. destruct t as [|a [|b [|c [|d [|e [|f [|g [|h [|]]]]]]]]]; try discriminate Hl. digits Ht.
  change (Z.shiftl a 56 +64 Z.shiftl b 48 +64 Z.shiftl c 40 +64 Z.shiftl d 32 +64 Z.shiftl e 24 +64
    Z.shiftl f 16 +64 Z.shiftl g 8 +64 h =
    a * 2 ^ 56 + (b * 2 ^ 48 + (c * 2 ^ 40 + (d * 2 ^ 32 + (e * 2 ^ 24 + (f * 2 ^ 16 + (g * 2 ^ 8 + (h * 1 + 0)))))))).
  rewrite !Z.shiftl_mul_pow2 by lia. unwrap64. lia.
Qed.

(** Bytes and the number they hold determine each other. *)
Lemma beBytes_beValue t : isDigits 256 t -> beBytes (length t) (beValue t) = t.
Proof.
  intros Ht. apply (valBE_inj 256); [lia|apply beBytes_digits|done|apply length_beBytes|].
  rewrite <-!beValue_valBE, beValue_beBytes. apply Z.mod_small. rewrite beValue_valBE.
  rewrite Z.pow_mul_r by lia. by apply valBE_range.
Qed.

Lemma beBytes_mod n x y : x mod 2 ^ (8 * Z.of_nat n) = y mod 2 ^ (8 * Z.of_nat n) -> beBytes n x = beBytes n y.
Proof.
  intros E. apply (valBE_inj 256); [lia|apply beBytes_digits|apply beBytes_digits|by rewrite !length_beBytes|].
  by rewrite <-!beValue_valBE, !beValue_beBytes.
Qed.

Lemma beValue_range t : isDigits 256 t -> 0 <= beValue t < 2 ^ (8 * Z.of_nat (length t)).
Proof. intros Ht. rewrite beValue_valBE, Z.pow_mul_r by lia. by apply valBE_range. Qed.

Lemma i32_range x : - 2 ^ 31 <= i32 x < 2 ^ 31.
Proof. unfold i32. pose proof (u32_range x). bcase; lia. Qed.
Lemma i64_range x : - 2 ^ 63 <= i64 x < 2 ^ 63.
Proof. unfold i64. pose proof (u64_range x). bcase; lia. Qed.

(** ** The iterator *)

(** The pointer and the counters agree with the buffer, which holds bytes. *)
Definition iterOk (it : SerialIter) : Prop :=
  p_ it = used_ it /\ (p_ it + remain_ it = length (si_data it))%nat /\ isDigits 256 (si_data it).

(** The bytes not yet read. *)
Definition pending (it : SerialIter) : list Z := drop (p_ it) (si_data it).

Lemma iterOk_new data : isDigits 256 data -> iterOk (newIter data).
Proof. intros. unfold iterOk. by split_and!. Qed.

Lemma pending_new data : pending (newIter data) = data.
Proof. done. Qed.

Lemma iterOk_pending it : iterOk it -> length (pending it) = remain_ it /\ isDigits 256 (pending it).
Proof. intros (H1 & H2 & H3). unfold pending. rewrite length_drop. split; [lia|]. by apply Forall_drop. Qed.

Lemma iterOk_advance n it : iterOk it -> (n <= remain_ it)%nat -> iterOk (advance n it).
Proof. intros (H1 & H2 & H3) Hn. unfold iterOk; split_and!; cbn; [lia|lia|done]. Qed.

Lemma pending_advance n it : pending (advance n it) = drop n (pending it).
Proof. unfold pending. cbn. rewrite drop_drop. f_equal. Qed.

Lemma iterOk_reset it : iterOk it -> iterOk (reset it) /\ pending (reset it) = si_data it.
Proof.
  intros (H1 & H2 & H3). split; [unfold iterOk; split_and!; cbn; [lia|lia|done]|].
  unfold pending, reset. cbn. by replace (p_ it - used_ it)%nat with O by lia.
Qed.

Lemma readBytes_ok n it :
  iterOk it ->
  readBytes n it = if (remain_ it <? n)%nat then (RuntimeError, it) else (Ret (take n (pending it)), advance n it).
Proof.
  intros Hit. destruct (iterOk_pending it Hit) as [Hl _]. unfold readBytes. fold (pending it).
  destruct (Nat.ltb_spec (remain_ it) n); [done|]. rewrite length_take, Nat.min_l, Nat.eqb_refl by lia. done.
Qed.

(** A reader consumes exactly [bytes] and returns [a], whatever follows. *)
Definition reads {A} (m : Get A) (bytes : list Z) (a : A) : Prop :=
  forall it rest, iterOk it -> pending it = bytes ++ rest ->
  m it = (Ret a, advance (length bytes) it).

Lemma reads_room it bytes rest : iterOk it -> pending it = bytes ++ rest -> (length bytes <= remain_ it)%nat.
Proof. intros Hit E. destruct (iterOk_pending it Hit) as [Hl _]. rewrite E, length_app in Hl. lia. Qed.

Lemma reads_ret {A} (a : A) : reads (gret a) [] a.
Proof. intros it rest _ _. unfold gret. destruct it. unfold advance. cbn. do 2 f_equal; lia. Qed.

Lemma advance_add n m it : advance m (advance n it) = advance (n + m) it.
Proof. unfold advance. cbn. f_equal; lia. Qed.

Lemma reads_bind {A B} (m : Get A) (k : A -> Get B) b1 b2 a c :
  reads m b1 a -> reads (k a) b2 c -> reads (gbind m k) (b1 ++ b2) c.
Proof.
  intros Hm Hk it rest Hit E. rewrite <-app_assoc in E. unfold gbind. rewrite (Hm it _ Hit E).
  rewrite length_app, <-advance_add. apply (Hk _ rest).
  - apply iterOk_advance; [done|]. by eapply reads_room.
  - by rewrite pending_advance, E, drop_app_length.
Qed.

Lemma reads_readBytes bytes : reads (readBytes (length bytes)) bytes bytes.
Proof.
  intros it rest Hit E. rewrite readBytes_ok by done. pose proof (reads_room _ _ _ Hit E).
  destruct (Nat.ltb_spec (remain_ it) (length bytes)); [lia|]. by rewrite E, take_app_length.
Qed.

Lemma reads_map {A} (f : list Z -> A) n bytes :
  length bytes = n -> reads (gbind (readBytes n) (fun t => gret (f t))) bytes (f bytes).
Proof.
  intros <-. rewrite <-(app_nil_r bytes) at 2. eapply reads_bind; [apply reads_readBytes|apply reads_ret].
Qed.

Lemma reads_get8 b : 0 <= b < 256 -> reads get8 [b] b.
Proof. intros Hb. exact (reads_map (fun t => at_ t 0) 1 [b] eq_refl). Qed.

(** The other direction: what a reader that returns has consumed. *)
Definition exact {A} (m : Get A) (spec : A -> list Z -> Prop) : Prop :=
  forall it a it', iterOk it -> m it = (Ret a, it') ->
  exists bytes rest, pending it = bytes ++ rest /\ it' = advance (length bytes) it /\ isDigits 256 bytes /\ spec a bytes.

Lemma exact_readBytes n : exact (readBytes n) (fun a bytes => a = bytes /\ length bytes = n).
Proof.
  intros it a it' Hit. rewrite readBytes_ok by done. destruct (iterOk_pending it Hit) as [Hl Hd].
  destruct (Nat.ltb_spec (remain_ it) n); [done|]. intros [= <- <-].
  exists (take n (pending it)), (drop n (pending it)). rewrite take_drop, length_take, Nat.min_l by lia.
  split; [done|]. split; [done|]. split; [by apply Forall_take|done].
Qed.

Lemma exact_bind {A B} (m : Get A) (k : A -> Get B) P (Q : A -> B -> list Z -> Prop) :
  exact m P -> (forall a, exact (k a) (Q a)) ->
  exact (gbind m k) (fun c bytes => exists a b1 b2, bytes = b1 ++ b2 /\ P a b1 /\ Q a c b2).
Proof.
  intros Hm Hk it c it'' Hit. unfold gbind. destruct (m it) as [[a| | | | |] it'] eqn:Em; try done.
  intros E. destruct (Hm it a it' Hit Em) as (b1 & r1 & E1 & -> & D1 & P1).
  destruct (Hk a _ c it'' (iterOk_advance _ _ Hit (reads_room _ _ _ Hit E1)) E) as (b2 & r2 & E2 & -> & D2 & Q2).
  rewrite pending_advance, E1, drop_app_length in E2. subst r1.
  exists (b1 ++ b2), r2. rewrite <-app_assoc, length_app, advance_add. split; [done|]. split; [done|].
  split; [by apply Forall_app|]. by exists a, b1, b2.
Qed.

Lemma exact_weaken {A} (m : Get A) (P Q : A -> list Z -> Prop) :
  exact m P -> (forall a bytes, isDigits 256 bytes -> P a bytes -> Q a bytes) -> exact m Q.
Proof.
  intros Hm Hw it a it' Hit E. destruct (Hm it a it' Hit E) as (b & r & E1 & E2 & D & HP).
  exists b, r. split_and!; try done. by apply Hw.
Qed.

Lemma exact_ret {A} (a : A) : exact (gret a) (fun x bytes => x = a /\ bytes = []).
Proof.
  intros it x it' _ [= <- <-]. exists [], (pending it). split; [done|]. split; [|split; [constructor|done]].
  destruct it. unfold advance. cbn. f_equal; lia.
Qed.

Lemma exact_lift {A} (o : Outcome A) : exact (glift o) (fun x bytes => o = Ret x /\ bytes = []).
Proof.
  destruct o as [a| | | | |]; try (intros it x it' _ E; discriminate E).
  eapply exact_weaken; [apply (exact_ret a)|]. by intros x bytes _ [-> ->].
Qed.

Lemma exact_map {A} (f : list Z -> A) n :
  exact (gbind (readBytes n) (fun t => gret (f t))) (fun a bytes => a = f bytes /\ length bytes = n).
Proof.
  eapply exact_weaken; [eapply exact_bind; [apply exact_readBytes|intros; apply exact_ret]|].
  intros a bytes _ (t & b1 & b2 & -> & [-> Hl] & [-> ->]). by rewrite app_nil_r.
Qed.

Lemma exact_get8 : exact get8 (fun b bytes => bytes = [b] /\ 0 <= b < 256).
Proof.
  eapply exact_weaken; [exact (exact_map (fun t => at_ t 0) 1)|]. intros a bytes Hd [-> Hl].
  destruct bytes as [|b [|]]; try done. apply Forall_cons in Hd as [Hb _]. done.
Qed.
