(* ===== verification/SerializerSpec.v ===== *)
(** * Serialization: the properties

    What is written is read back, a reader accepts only what the writers write, and no
    sequence of reads leaves the buffer. *)
From S2P Require Import Prelude Digits Serializer SerializerFacts.

(** ** Length headers *)

(** The bytes [addEncoded] appends. *)
Definition lengthHeader (n : Z) : list Z :=
  match addEncoded n [] with Ret (_, h) => h | _ => [] end.

Ltac constants :=
  unfold kMaxValueOfLengthFor3ByteHeader, kMinValueOfLengthFor3ByteHeader, kMaxValueOfLengthFor2ByteHeader,
    kMinValueOfLengthFor2ByteHeader, kMaxValueOfLengthFor1ByteHeader, kMinValueOfLengthFor1ByteHeader,
    kMaxValueOfFirstByteFor3ByteHeader, kMinValueOfFirstByteFor3ByteHeader, kMaxValueOfFirstByteFor2ByteHeader,
    kMinValueOfFirstByteFor2ByteHeader, kMaxValueOfFirstByteFor1ByteHeader, kMinValueOfFirstByteFor1ByteHeader,
    kNumberOfValuesInTwoBytes, kNumberOfValuesInOneByte in *.

(** The three forms of a header. *)
Lemma lengthHeader_cases n :
  0 <= n <= kMaxValueOfLengthFor3ByteHeader ->
  (0 <= n <= 192 /\ lengthHeader n = [n]) \/
  (exists a b, 193 <= a <= 240 /\ 0 <= b < 256 /\ n = 193 + (a - 193) * 256 + b /\ lengthHeader n = [a; b]) \/
  (exists a b c, 241 <= a <= 254 /\ 0 <= b < 256 /\ 0 <= c < 256 /\
     n = 12481 + (a - 241) * 65536 + b * 256 + c /\ lengthHeader n = [a; b; c]).
Proof.
  intros Hn. unfold lengthHeader, addEncoded, addRaw. constants. cbv zeta.
  destruct (Z.ltb_spec n 0); [lia|]. destruct (Z.leb_spec n 192).
  { left. split; [lia|]. cbn [app]. by rewrite u8_id by lia. }
  destruct (Z.leb_spec n (192 + 1 + (240 - 192) * 256 - 1)).
  { right; left. set (o := n - (192 + 1)). exists (193 + o / 256), (o mod 256).
    pose proof (Z.div_mod o 256 ltac:(lia)). pose proof (Z.mod_pos_bound o 256 ltac:(lia)).
    rewrite Z.quot_div_nonneg, Z.rem_mod_nonneg by lia. cbn [app].
    rewrite !u8_id by lia. split_and!; lia || done. }
  destruct (Z.leb_spec n 918744); [|lia]. right; right.
  set (o := n - (192 + 1 + (240 - 192) * 256 - 1 + 1)).
  exists (241 + o / 65536), (o / 256 mod 256), (o mod 256).
  pose proof (Z.div_mod o 256 ltac:(lia)). pose proof (Z.mod_pos_bound o 256 ltac:(lia)).
  pose proof (Z.div_mod (o / 256) 256 ltac:(lia)). pose proof (Z.mod_pos_bound (o / 256) 256 ltac:(lia)).
  assert (Eq : o / 256 / 256 = o / 65536) by (rewrite Z.div_div by lia; done).
  rewrite !Z.quot_div_nonneg, !Z.rem_mod_nonneg by (try apply Z.div_pos; lia). cbn [app].
  change (256 * 256) with 65536 in *. rewrite !u8_id by lia. split_and!; lia || done.
Qed.

Lemma addEncoded_header n s :
  addEncoded n s =
    if (0 <=? n) && (n <=? kMaxValueOfLengthFor3ByteHeader) then Ret (addRaw (lengthHeader n) s) else OverflowError.
Proof.
  unfold lengthHeader, addEncoded, addRaw. destruct (Z.ltb_spec n kMinValueOfLengthFor1ByteHeader) as [H|H];
    [constants; by destruct (Z.leb_spec 0 n); [lia|]|].
  destruct (Z.leb_spec 0 n); [|constants; lia]. cbn [andb].
  destruct (Z.leb_spec n kMaxValueOfLengthFor3ByteHeader);
    repeat match goal with |- context [?a <=? ?b] => destruct (Z.leb_spec a b) end; try done; constants; lia.
Qed.

Lemma encodeLengthLength_header n :
  0 <= n <= kMaxValueOfLengthFor3ByteHeader -> encodeLengthLength n = Ret (Z.of_nat (length (lengthHeader n))).
Proof.
  intros Hn. unfold encodeLengthLength.
  destruct (lengthHeader_cases n Hn) as [(? & ->)|[(a & b & ? & ? & ? & ->)|(a & b & c & ? & ? & ? & ? & ->)]];
    constants; destruct (Z.ltb_spec n 0); try lia; destruct (Z.leb_spec n 192); try lia; try done;
    destruct (Z.leb_spec n (192 + 1 + (240 - 192) * 256 - 1)); try lia; try done; destruct (Z.leb_spec n 918744); by try lia.
Qed.

Lemma reads_lift {A} (a : A) : reads (glift (Ret a)) [] a.
Proof. apply (reads_ret a). Qed.

Lemma reads_length n :
  0 <= n <= kMaxValueOfLengthFor3ByteHeader -> reads getVLDataLength (lengthHeader n) n.
Proof.
  intros Hn. unfold getVLDataLength.
  destruct (lengthHeader_cases n Hn) as [(? & ->)|[(a & b & ? & ? & ? & ->)|(a & b & c & ? & ? & ? & ? & ->)]].
  - eapply (reads_bind _ _ [n] []); [apply reads_get8; lia|]. eapply (reads_bind _ _ [] []).
    + unfold decodeLengthLength. constants. destruct (Z.leb_spec n 192); [|lia]. apply reads_lift.
    + cbn [Z.eqb]. unfold decodeVLLength1. constants. destruct (Z.ltb_spec 192 n); [lia|]. apply reads_lift.
  - eapply (reads_bind _ _ [a] [b]); [apply reads_get8; lia|]. eapply (reads_bind _ _ [] [b]).
    + unfold decodeLengthLength. constants. destruct (Z.leb_spec a 192); [lia|]. destruct (Z.leb_spec a 240); [|lia].
      apply reads_lift.
    + change (2 =? 1) with false. change (2 =? 2) with true. cbv iota.
      eapply (reads_bind _ _ [b] []); [apply reads_get8; lia|]. unfold decodeVLLength2. constants.
      destruct (Z.ltb_spec a (192 + 1)); [lia|]. destruct (Z.ltb_spec 240 a); [lia|]. subst n. apply reads_lift.
  - eapply (reads_bind _ _ [a] [b; c]); [apply reads_get8; lia|]. eapply (reads_bind _ _ [] [b; c]).
    + unfold decodeLengthLength. constants. destruct (Z.leb_spec a 192); [lia|]. destruct (Z.leb_spec a 240); [lia|].
      destruct (Z.leb_spec a 254); [|lia]. apply reads_lift.
    + change (3 =? 1) with false. change (3 =? 2) with false. cbv iota.
      eapply (reads_bind _ _ [b] [c]); [apply reads_get8; lia|].
      eapply (reads_bind _ _ [c] []); [apply reads_get8; lia|]. unfold decodeVLLength3. constants. cbv zeta.
      destruct (Z.ltb_spec a (240 + 1)); [lia|]. destruct (Z.ltb_spec 254 a); [lia|].
      bcase; [lia|]. subst n. apply reads_lift.
Qed.

(** Headers of different lengths start differently, so the reader accepts one header for
    each length. *)
Lemma header_unique n bytes :
  0 <= n <= kMaxValueOfLengthFor3ByteHeader ->
  (bytes = [n] /\ n <= 192) \/
  (exists a b, bytes = [a; b] /\ 193 <= a <= 240 /\ 0 <= b < 256 /\ n = 193 + (a - 193) * 256 + b) \/
  (exists a b c, bytes = [a; b; c] /\ 241 <= a <= 254 /\ 0 <= b < 256 /\ 0 <= c < 256 /\
     n = 12481 + (a - 241) * 65536 + b * 256 + c) ->
  bytes = lengthHeader n.
Proof.
  intros Hn Hb.
  destruct (lengthHeader_cases n Hn) as [(? & ->)|[(a & b & ? & ? & ? & ->)|(a & b & c & ? & ? & ? & ? & ->)]];
  destruct Hb as [(-> & ?)|[(a' & b' & -> & ? & ? & ?)|(a' & b' & c' & -> & ? & ? & ? & ?)]]; try lia.
  - done.
  - assert (a = a') by lia. subst. assert (b = b') by lia. by subst.
  - assert (a = a') by lia. subst. assert (b = b') by lia. subst. assert (c = c') by lia. by subst.
Qed.

Lemma exact_length :
  exact getVLDataLength (fun n bytes => 0 <= n <= kMaxValueOfLengthFor3ByteHeader /\ bytes = lengthHeader n).
Proof.
  unfold getVLDataLength. eapply exact_weaken.
  { eapply exact_bind; [apply exact_get8|]. intros a. eapply exact_bind; [apply exact_lift|]. intros l.
    instantiate (1 := fun l n bytes =>
      (l = 1 /\ decodeVLLength1 a = Ret n /\ bytes = []) \/
      (l = 2 /\ exists b, 0 <= b < 256 /\ bytes = [b] /\ decodeVLLength2 a b = Ret n) \/
      (l <> 1 /\ l <> 2 /\ exists b c, 0 <= b < 256 /\ 0 <= c < 256 /\ bytes = [b; c] /\ decodeVLLength3 a b c = Ret n)).
    destruct (Z.eqb_spec l 1) as [->|Hl1]; [|destruct (Z.eqb_spec l 2) as [->|Hl2]].
    - eapply exact_weaken; [apply exact_lift|]. intros n bytes _ [? ->]. by left.
    - eapply exact_weaken; [eapply exact_bind; [apply exact_get8|intros; apply exact_lift]|].
      intros n bytes _ (b & b1 & b2 & -> & [-> ?] & [? ->]). right; left. split; [done|]. exists b. split_and!; by try lia.
    - eapply exact_weaken.
      { eapply exact_bind; [apply exact_get8|intros]. eapply exact_bind; [apply exact_get8|intros; apply exact_lift]. }
      intros n bytes _ (b & b1 & b2 & -> & [-> ?] & (c & b3 & b4 & -> & [-> ?] & [? ->])). right; right.
      split; [done|]. split; [done|]. exists b, c. split_and!; by try lia. }
  intros n bytes _ (a & b1 & b2 & -> & [-> Ha] & (l & b3 & b4 & -> & [El ->] & Hc)). cbn [app].
  unfold decodeLengthLength in El. cut (0 <= n <= kMaxValueOfLengthFor3ByteHeader /\
    ((a :: b4 = [n] /\ n <= 192) \/
    (exists a' b, a :: b4 = [a'; b] /\ 193 <= a' <= 240 /\ 0 <= b < 256 /\ n = 193 + (a' - 193) * 256 + b) \/
    (exists a' b c, a :: b4 = [a'; b; c] /\ 241 <= a' <= 254 /\ 0 <= b < 256 /\ 0 <= c < 256 /\
     n = 12481 + (a' - 241) * 65536 + b * 256 + c))).
  { intros [Hn Hb]. split; [done|]. by apply header_unique. }
  destruct Hc as [(-> & E & ->)|[(-> & b & Hb & -> & E)|(H1 & H2 & b & c & Hb & Hc & -> & E)]].
  - unfold decodeVLLength1 in E. constants. destruct (Z.ltb_spec 192 a); [done|]. injection E as <-.
    split; [lia|]. left. split; [done|lia].
  - unfold decodeVLLength2 in E. constants. destruct (Z.ltb_spec a (192 + 1)); [done|].
    destruct (Z.ltb_spec 240 a); [done|]. injection E as <-. split; [lia|]. right; left. exists a, b. split_and!; by try lia.
  - unfold decodeVLLength3 in E. constants. cbv zeta in E. destruct (Z.ltb_spec a (240 + 1)); [done|].
    destruct (Z.ltb_spec 254 a); [done|]. revert E. bcase; [done|]. intros E. injection E as <-.
    split; [lia|]. right; right. exists a, b, c. split_and!; by try lia.
Qed.

(** ** Field identifiers *)

(** The bytes [addFieldID] appends. *)
Definition fieldBytes (type name : Z) : list Z := (addFieldID type name []).2.

Lemma addFieldID_bytes type name s : addFieldID type name s = (size s, s ++ fieldBytes type name).
Proof. unfold fieldBytes, addFieldID. cbn [snd]. by destruct (type <? 16), (name <? 16). Qed.

Definition validField (type name : Z) : Prop := 0 < type < 256 /\ 0 < name < 256.

Lemma nibbles_split a : 0 <= a < 256 -> a = Z.shiftr a 4 * 16 + Z.land a 15 /\ 0 <= Z.shiftr a 4 < 16 /\ 0 <= Z.land a 15 < 16.
Proof.
  intros Ha. change 15 with (Z.ones 4). rewrite Z.land_ones, Z.shiftr_div_pow2 by lia. change (2 ^ 4) with 16.
  pose proof (Z.div_mod a 16 ltac:(lia)). pose proof (Z.mod_pos_bound a 16 ltac:(lia)). lia.
Qed.

Lemma nibbles_join t n : 0 <= t < 16 -> 0 <= n < 16 ->
  Z.lor (Z.shiftl t 4) n = t * 16 + n /\ Z.shiftr (t * 16 + n) 4 = t /\ Z.land (t * 16 + n) 15 = n.
Proof.
  intros Ht Hn. rewrite lor_shift by lia. split; [done|].
  destruct (nibbles_split (t * 16 + n) ltac:(lia)) as (E & ? & ?). lia.
Qed.

(** The four forms of an identifier. *)
Lemma fieldBytes_cases type name :
  validField type name ->
  (type < 16 /\ name < 16 /\ fieldBytes type name = [type * 16 + name]) \/
  (type < 16 /\ 16 <= name /\ fieldBytes type name = [type * 16; name]) \/
  (16 <= type /\ name < 16 /\ fieldBytes type name = [name; type]) \/
  (16 <= type /\ 16 <= name /\ fieldBytes type name = [0; type; name]).
Proof.
  intros [Ht Hn]. unfold fieldBytes, addFieldID. cbn [snd app].
  destruct (Z.ltb_spec type 16), (Z.ltb_spec name 16).
  - left. destruct (nibbles_join type name) as (-> & _); [lia|lia|]. by rewrite u8_id by lia.
  - right; left. rewrite Z.shiftl_mul_pow2 by lia. change (2 ^ 4) with 16. by rewrite !u8_id by lia.
  - right; right; left. by rewrite !u8_id by lia.
  - do 3 right. by rewrite !u8_id by lia.
Qed.

Lemma reads_uncommon v x :
  0 <= v < 256 -> (v = 0 /\ 16 <= x < 256 \/ v <> 0 /\ x = v) ->
  reads (if v =? 0 then gbind get8 (fun t => if t <? 16 then glift RuntimeError else gret t) else gret v)
    (if v =? 0 then [x] else []) x.
Proof.
  intros Hv [[-> Hx]|[Hne ->]].
  - cbn [Z.eqb]. eapply (reads_bind _ _ [x] []); [apply reads_get8; lia|].
    destruct (Z.ltb_spec x 16); [lia|]. apply reads_ret.
  - destruct (Z.eqb_spec v 0); [done|]. apply reads_ret.
Qed.

Lemma reads_fieldID type name : validField type name -> reads getFieldID (fieldBytes type name) (type, name).
Proof.
  intros Hv. unfold getFieldID.
  assert (H : exists a, 0 <= a < 256 /\
    (Z.shiftr a 4 = 0 /\ 16 <= type < 256 \/ Z.shiftr a 4 <> 0 /\ type = Z.shiftr a 4) /\
    (Z.land a 15 = 0 /\ 16 <= name < 256 \/ Z.land a 15 <> 0 /\ name = Z.land a 15) /\
    fieldBytes type name = [a] ++ (if Z.shiftr a 4 =? 0 then [type] else []) ++ (if Z.land a 15 =? 0 then [name] else []) ++ []).
  { pose proof (fieldBytes_cases type name Hv) as Hc. destruct Hv as [Ht Hn].
    destruct Hc as [(H1 & H2 & ->)|[(H1 & H2 & ->)|[(H1 & H2 & ->)|(H1 & H2 & ->)]]].
    - exists (type * 16 + name). destruct (nibbles_join type name) as (_ & -> & ->); [lia|lia|].
      destruct (Z.eqb_spec type 0); [lia|]. destruct (Z.eqb_spec name 0); [lia|]. split_and!; try lia. done.
    - exists (type * 16). destruct (nibbles_join type 0) as (_ & E1 & E2); [lia|lia|]. rewrite Z.add_0_r in E1, E2.
      rewrite E1, E2. destruct (Z.eqb_spec type 0); [lia|]. split_and!; try lia. done.
    - exists name. destruct (nibbles_join 0 name) as (_ & E1 & E2); [lia|lia|]. change (0 * 16 + name) with name in E1, E2.
      rewrite E1, E2. destruct (Z.eqb_spec name 0); [lia|]. split_and!; try lia. done.
    - exists 0. split_and!; try lia; [left; split; [done|lia]|left; split; [done|lia]|done]. }
  destruct H as (a & Ha & H1 & H2 & ->). destruct (nibbles_split a Ha) as (_ & ? & ?).
  eapply (reads_bind _ _ [a]); [by apply reads_get8|]. cbv zeta.
  eapply reads_bind; [apply reads_uncommon; [lia|done]|].
  eapply reads_bind; [apply reads_uncommon; [lia|done]|]. apply reads_ret.
Qed.

Lemma exact_uncommon v :
  exact (if v =? 0 then gbind get8 (fun t => if t <? 16 then glift RuntimeError else gret t) else gret v)
    (fun x bytes => (v = 0 /\ 16 <= x < 256 /\ bytes = [x]) \/ (v <> 0 /\ x = v /\ bytes = [])).
Proof.
  destruct (Z.eqb_spec v 0) as [->|Hne].
  - eapply exact_weaken.
    + eapply exact_bind; [apply exact_get8|]. intros t. instantiate (1 := fun t x bytes => 16 <= t /\ x = t /\ bytes = []).
      destruct (Z.ltb_spec t 16); [intros it x it' _ E; discriminate E|].
      eapply exact_weaken; [apply exact_ret|]. by intros x bytes _ [-> ->].
    + intros x bytes _ (t & b1 & b2 & -> & [-> ?] & ? & -> & ->). left. split_and!; by try lia.
  - eapply exact_weaken; [apply exact_ret|]. intros x bytes _ [-> ->]. by right.
Qed.

Lemma exact_fieldID : exact getFieldID (fun tn bytes => validField tn.1 tn.2 /\ bytes = fieldBytes tn.1 tn.2).
Proof.
  unfold getFieldID. eapply exact_weaken.
  { eapply exact_bind; [apply exact_get8|]. intros a. cbv zeta. eapply exact_bind; [apply exact_uncommon|]. intros t.
    eapply exact_bind; [apply exact_uncommon|]. intros n. apply exact_ret. }
  intros tn bytes _ (a & b1 & b2 & -> & [-> Ha] & (t & b3 & b4 & -> & Ht & (n & b5 & b6 & -> & Hn & -> & ->))).
  cbn [fst snd]. destruct (nibbles_split a Ha) as (Ea & Hs & Hl). rewrite app_nil_r.
  assert (Hv : validField t n) by (unfold validField; destruct Ht as [?|?], Hn as [?|?]; lia). split; [done|].
  pose proof (fieldBytes_cases t n Hv) as Hc.
  destruct Ht as [(E1 & ? & ->)|(E1 & -> & ->)], Hn as [(E2 & ? & ->)|(E2 & -> & ->)]; cbn [app].
  - destruct Hc as [?|[?|[?|(_ & _ & ->)]]]; try lia. by replace a with 0 by lia.
  - destruct Hc as [?|[?|[(_ & _ & ->)|?]]]; try lia. by replace (Z.land a 15) with a by lia.
  - destruct Hc as [?|[(_ & _ & ->)|[?|?]]]; try lia. by replace (Z.shiftr a 4 * 16) with a by lia.
  - destruct Hc as [(_ & _ & ->)|[?|[?|?]]]; try lia. by rewrite <-Ea.
Qed.

(** ** Items *)

(** The kinds of item a serialized object consists of. *)
Inductive Item :=
| Byte (b : Z)
| Int16 (i : Z)
| Int32 (i : Z)
| Int64 (i : Z)
| Signed32 (i : Z)
| Signed64 (i : Z)
| Bits (v : list Z)
| Variable_ (v : list Z)
| Field (type name : Z).

Definition validItem (x : Item) : Prop :=
  match x with
  | Byte b => 0 <= b < 256
  | Int16 i => 0 <= i < 2 ^ 16
  | Int32 i => 0 <= i < 2 ^ 32
  | Int64 i => 0 <= i < 2 ^ 64
  | Signed32 i => - 2 ^ 31 <= i < 2 ^ 31
  | Signed64 i => - 2 ^ 63 <= i < 2 ^ 63
  | Bits v => isDigits 256 v
  | Variable_ v => isDigits 256 v /\ Z.of_nat (length v) <= kMaxValueOfLengthFor3ByteHeader
  | Field type name => validField type name
  end.

Definition put (x : Item) (s : Serializer) : Outcome (Z * Serializer) :=
  match x with
  | Byte b => Ret (add8 b s)
  | Int16 i => Ret (add16 i s)
  | Int32 i | Signed32 i => Ret (add32 i s)
  | Int64 i | Signed64 i => Ret (add64 i s)
  | Bits v => Ret (addBitString v s)
  | Variable_ v => addVL v s
  | Field type name => Ret (addFieldID type name s)
  end.

(** Read an item of the kind of [x]. *)
Definition getLike (x : Item) : Get Item :=
  match x with
  | Byte _ => b <- get8;; gret (Byte b)
  | Int16 _ => i <- get16;; gret (Int16 i)
  | Int32 _ => i <- get32;; gret (Int32 i)
  | Int64 _ => i <- get64;; gret (Int64 i)
  | Signed32 _ => i <- geti32;; gret (Signed32 i)
  | Signed64 _ => i <- geti64;; gret (Signed64 i)
  | Bits v => v <- getBitString (length v);; gret (Bits v)
  | Variable_ _ => v <- getVL;; gret (Variable_ v)
  | Field _ _ => tn <- getFieldID;; gret (Field tn.1 tn.2)
  end.

(** The bytes of an item. *)
Definition itemBytes (x : Item) : list Z :=
  match x with
  | Byte b => [b]
  | Int16 i => beBytes 2 i
  | Int32 i | Signed32 i => beBytes 4 i
  | Int64 i | Signed64 i => beBytes 8 i
  | Bits v => v
  | Variable_ v => lengthHeader (Z.of_nat (length v)) ++ v
  | Field type name => fieldBytes type name
  end.

Lemma i32_small x : - 2 ^ 31 <= x < 2 ^ 31 -> i32 x = x.
Proof.
  intros Hx. unfold i32, u32. destruct (Z.lt_ge_cases x 0).
  - rewrite <-(Z.mod_add x 1 (2 ^ 32)) by lia. rewrite Z.mod_small by lia. bcase; lia.
  - rewrite Z.mod_small by lia. bcase; lia.
Qed.

Lemma put_bytes x s : validItem x -> put x s = Ret (size s, s ++ itemBytes x).
Proof.
  destruct x; cbn [put validItem itemBytes]; intros Hx;
    rewrite ?add16_bytes, ?add32_bytes, ?add64_bytes, ?addFieldID_bytes; try done.
  destruct Hx as [Hd Hl]. unfold addVL. rewrite i32_small by (constants; lia). rewrite addEncoded_header.
  destruct (Z.leb_spec 0 (Z.of_nat (length v))); [|lia].
  destruct (Z.leb_spec (Z.of_nat (length v)) kMaxValueOfLengthFor3ByteHeader); [|lia]. cbn [andb addRaw snd].
  by rewrite app_assoc.
Qed.

Lemma reads_then {A B} (m : Get A) (f : A -> B) bytes a :
  reads m bytes a -> reads (gbind m (fun x => gret (f x))) bytes (f a).
Proof. intros H. rewrite <-(app_nil_r bytes). eapply reads_bind; [done|apply reads_ret]. Qed.

Lemma reads_value {A} (f : list Z -> A) n x a :
  f (beBytes n x) = a -> reads (gbind (readBytes n) (fun t => gret (f t))) (beBytes n x) a.
Proof. intros <-. apply reads_map, length_beBytes. Qed.

Lemma reads_raw v : Z.of_nat (length v) <= kMaxValueOfLengthFor3ByteHeader -> reads (getRaw (Z.of_nat (length v))) v v.
Proof.
  intros Hl it rest Hit E. unfold getRaw, getRawHelper. rewrite u64_id by (constants; lia).
  pose proof (reads_room _ _ _ Hit E). destruct (Z.ltb_spec (Z.of_nat (remain_ it)) (Z.of_nat (length v))); [lia|].
  destruct (Z.eqb_spec (Z.of_nat (length v)) 0) as [E0|]; cbn [negb].
  - destruct v; [|done]. apply (reads_ret [] it rest Hit E).
  - rewrite Nat2Z.id. by apply (reads_readBytes v it rest).
Qed.

Lemma reads_item x : validItem x -> reads (getLike x) (itemBytes x) x.
Proof.
  destruct x; cbn [getLike validItem itemBytes]; intros Hx.
  - by apply reads_then, reads_get8.
  - apply reads_then, reads_value. rewrite get16_value by (apply beBytes_digits || apply length_beBytes).
    rewrite beValue_beBytes. by apply Z.mod_small.
  - apply reads_then, reads_value. rewrite get32_value by (apply beBytes_digits || apply length_beBytes).
    rewrite beValue_beBytes. by apply Z.mod_small.
  - apply reads_then, reads_value. rewrite get64_value by (apply beBytes_digits || apply length_beBytes).
    rewrite beValue_beBytes. by apply Z.mod_small.
  - apply reads_then, reads_value. rewrite beValue_beBytes. rewrite <-(i32_small i Hx) at 2.
    unfold i32, u32. change (8 * Z.of_nat 4) with 32. by rewrite Z.mod_mod.
  - apply reads_then, reads_value. rewrite beValue_beBytes. rewrite <-(i64_id i Hx) at 2.
    unfold i64, u64. change (8 * Z.of_nat 8) with 64. by rewrite Z.mod_mod.
  - apply reads_then, reads_readBytes.
  - destruct Hx as [Hd Hl]. apply reads_then. eapply reads_bind; [apply reads_length; lia|]. by apply reads_raw.
  - by apply (reads_then getFieldID (fun tn => Field tn.1 tn.2) _ (type, name)), reads_fieldID.
Qed.

Lemma exact_then {A B} (m : Get A) (f : A -> B) P :
  exact m P -> exact (gbind m (fun x => gret (f x))) (fun b bytes => exists a, b = f a /\ P a bytes).
Proof.
  intros H. eapply exact_weaken; [eapply exact_bind; [exact H|intros; apply exact_ret]|].
  intros b bytes _ (a & b1 & b2 & -> & HP & -> & ->). exists a. by rewrite app_nil_r.
Qed.

Lemma exact_raw n : exact (getRaw n) (fun v bytes => v = bytes /\ (0 <= n -> Z.of_nat (length v) = n)).
Proof.
  unfold getRaw, getRawHelper. intros it v it' Hit.
  destruct (Z.ltb_spec (Z.of_nat (remain_ it)) (u64 n)); [done|].
  destruct (Z.eqb_spec n 0) as [->|]; cbn [negb]; intros E.
  - destruct (exact_ret [] it v it' Hit E) as (bytes & rest & E1 & E2 & D & -> & ->). exists [], rest. done.
  - destruct (exact_readBytes _ it v it' Hit E) as (bytes & rest & E1 & E2 & D & -> & Hl).
    exists bytes, rest. split_and!; try done; lia.
Qed.

Lemma exact_value {A} (f : list Z -> A) n (P : A -> list Z -> Prop) :
  (forall bytes, isDigits 256 bytes -> length bytes = n -> P (f bytes) bytes) ->
  exact (gbind (readBytes n) (fun t => gret (f t))) P.
Proof. intros HP. eapply exact_weaken; [apply exact_map|]. intros a bytes Hd [-> Hl]. by apply HP. Qed.

Lemma signed_bytes n bytes x :
  isDigits 256 bytes -> length bytes = n -> x mod 2 ^ (8 * Z.of_nat n) = beValue bytes mod 2 ^ (8 * Z.of_nat n) ->
  bytes = beBytes n x.
Proof. intros Hd <- E. rewrite (beBytes_mod _ _ _ E). by rewrite beBytes_beValue. Qed.

Lemma i32_mod x : i32 x mod 2 ^ 32 = x mod 2 ^ 32.
Proof.
  unfold i32, u32. bcase; [apply Z.mod_mod; lia|]. rewrite <-(Z.mod_add (_ - 2 ^ 32) 1 (2 ^ 32)) by lia.
  rewrite Z.mul_1_l, Z.sub_add. apply Z.mod_mod. lia.
Qed.

Lemma i64_mod x : i64 x mod 2 ^ 64 = x mod 2 ^ 64.
Proof.
  unfold i64, u64. bcase; [apply Z.mod_mod; lia|]. rewrite <-(Z.mod_add (_ - 2 ^ 64) 1 (2 ^ 64)) by lia.
  rewrite Z.mul_1_l, Z.sub_add. apply Z.mod_mod. lia.
Qed.

(** An integer read is in range and its bytes are those it was read from. *)
Lemma unsigned_exact n bytes :
  isDigits 256 bytes -> length bytes = n -> 0 <= beValue bytes < 2 ^ (8 * Z.of_nat n) /\ bytes = beBytes n (beValue bytes).
Proof. intros Hd <-. split; [by apply beValue_range|]. by rewrite beBytes_beValue. Qed.

Lemma exact_item x : exact (getLike x) (fun y bytes => validItem y /\ bytes = itemBytes y).
Proof.
  destruct x; cbn [getLike]; (eapply exact_weaken; [apply exact_then|cbv beta; intros y bytes _ (a & -> & HP); exact HP]).
  - eapply exact_weaken; [apply exact_get8|]. intros c bytes _ [-> ?]. done.
  - apply exact_value. intros bytes Hd Hl. rewrite get16_value by done. exact (unsigned_exact 2 bytes Hd Hl).
  - apply exact_value. intros bytes Hd Hl. rewrite get32_value by done. exact (unsigned_exact 4 bytes Hd Hl).
  - apply exact_value. intros bytes Hd Hl. rewrite get64_value by done. exact (unsigned_exact 8 bytes Hd Hl).
  - apply exact_value. intros bytes Hd Hl. split; [apply i32_range|].
    apply (signed_bytes 4 bytes); [done..|]. apply i32_mod.
  - apply exact_value. intros bytes Hd Hl. split; [apply i64_range|].
    apply (signed_bytes 8 bytes); [done..|]. apply i64_mod.
  - intros it w it' Hit E. destruct (exact_readBytes _ it w it' Hit E) as (bytes & rest & ? & ? & ? & -> & ?).
    exists bytes, rest. done.
  - eapply exact_weaken.
    { eapply exact_bind; [apply exact_length|]. intros n. apply exact_raw. }
    intros w bytes Hd (n & b1 & b2 & -> & [Hn ->] & -> & Hl). specialize (Hl ltac:(lia)).
    apply Forall_app in Hd as [_ Hd]. cbn [validItem itemBytes]. rewrite Hl. by split_and!; try lia.
  - eapply exact_weaken; [apply exact_fieldID|]. intros [t n] bytes _ [Hv ->]. done.
Qed.

(** ** Round trips *)

Fixpoint putAll (l : list Item) (s : Serializer) : Outcome Serializer :=
  match l with
  | [] => Ret s
  | x :: l =>
      match put x s with
      | Ret (_, s) => putAll l s
      | RuntimeError => RuntimeError | OverflowError => OverflowError
      | DomainError => DomainError | LogicError => LogicError | Wild => Wild
      end
  end.

Fixpoint getAll (l : list Item) : Get (list Item) :=
  match l with
  | [] => gret []
  | x :: l => y <- getLike x;; r <- getAll l;; gret (y :: r)
  end.

Definition itemsBytes (l : list Item) : list Z := concat (map itemBytes l).

Lemma putAll_bytes l : forall s, Forall validItem l -> putAll l s = Ret (s ++ itemsBytes l).
Proof.
  unfold itemsBytes. induction l as [|x l IH]; intros s Hl; cbn [putAll map concat]; [by rewrite app_nil_r|].
  apply Forall_cons in Hl as [Hx Hl]. rewrite put_bytes by done. rewrite IH by done. by rewrite app_assoc.
Qed.

Lemma reads_items l : Forall validItem l -> reads (getAll l) (itemsBytes l) l.
Proof.
  unfold itemsBytes. induction 1 as [|x l Hx Hl IH]; cbn [getAll map concat]; [apply reads_ret|].
  eapply reads_bind; [by apply reads_item|]. by apply (reads_then (getAll l) (cons x)).
Qed.

Lemma itemBytes_digits x : validItem x -> isDigits 256 (itemBytes x).
Proof.
  destruct x; cbn [validItem itemBytes]; intros Hx; try apply beBytes_digits; try done.
  - by constructor.
  - destruct Hx as [Hd Hl]. apply Forall_app. split; [|done].
    destruct (lengthHeader_cases (Z.of_nat (length v)) ltac:(lia))
      as [(? & ->)|[(a & b & ? & ? & ? & ->)|(a & b & c & ? & ? & ? & ? & ->)]]; repeat constructor; lia.
  - pose proof (fieldBytes_cases type name Hx) as Hc. destruct Hx.
    destruct Hc as [(? & ? & ->)|[(? & ? & ->)|[(? & ? & ->)|(? & ? & ->)]]]; repeat constructor; lia.
Qed.

Lemma itemsBytes_digits l : Forall validItem l -> isDigits 256 (itemsBytes l).
Proof.
  unfold itemsBytes. induction 1; cbn; [constructor|]. apply Forall_app. split; [by apply itemBytes_digits|done].
Qed.

Lemma exact_items l :
  exact (getAll l) (fun r bytes => Forall validItem r /\ length r = length l /\ bytes = itemsBytes r).
Proof.
  unfold itemsBytes. induction l as [|x l IH]; cbn [getAll].
  - eapply exact_weaken; [apply exact_ret|]. intros r bytes _ [-> ->]. done.
  - eapply exact_weaken.
    { eapply exact_bind; [apply exact_item|]. intros y. apply (exact_then (getAll l) (cons y)), IH. }
    intros r bytes _ (y & b1 & b2 & -> & [Hy ->] & r' & -> & Hr & Hl & ->). cbn [map concat length].
    split; [by constructor|]. split; [by rewrite Hl|done].
Qed.

(** ** Staying in the buffer *)

(** A reader leaves the iterator consistent, on the same buffer, and reads inside it. *)
Definition safe {A} (m : Get A) : Prop :=
  forall it, iterOk it -> (m it).1 <> Wild /\ iterOk (m it).2 /\ si_data (m it).2 = si_data it.

Lemma safe_readBytes n : safe (readBytes n).
Proof.
  intros it Hit. rewrite readBytes_ok by done. destruct (Nat.ltb_spec (remain_ it) n); [done|].
  split; [done|]. split; [by apply iterOk_advance|done].
Qed.

Lemma safe_ret {A} (a : A) : safe (gret a).
Proof. by intros it Hit. Qed.

Lemma safe_lift {A} (o : Outcome A) : o <> Wild -> safe (glift o).
Proof. by intros Ho it Hit. Qed.

Lemma safe_bind {A B} (m : Get A) (k : A -> Get B) : safe m -> (forall a, safe (k a)) -> safe (gbind m k).
Proof.
  intros Hm Hk it Hit. unfold gbind. destruct (Hm it Hit) as (H1 & H2 & H3).
  destruct (m it) as [[a| | | | |] it']; cbn [fst snd] in *; try done.
  destruct (Hk a it' H2) as (K1 & K2 & K3). split_and!; try done. congruence.
Qed.

Lemma safe_get8 : safe get8.
Proof. apply safe_bind; [apply safe_readBytes|]. intros. apply safe_ret. Qed.

Lemma safe_raw n : safe (getRaw n).
Proof.
  intros it Hit. unfold getRaw, getRawHelper. bcase; [done|by apply safe_readBytes|done].
Qed.

Lemma safe_length : safe getVLDataLength.
Proof.
  unfold getVLDataLength. apply safe_bind; [apply safe_get8|]. intros a.
  apply safe_bind; [apply safe_lift; unfold decodeLengthLength; by bcase|]. intros l. bcase.
  - apply safe_lift. unfold decodeVLLength1. by bcase.
  - apply safe_bind; [apply safe_get8|]. intros b. apply safe_lift. unfold decodeVLLength2. by bcase.
  - apply safe_bind; [apply safe_get8|]. intros b. apply safe_bind; [apply safe_get8|]. intros c.
    apply safe_lift. unfold decodeVLLength3. by bcase.
Qed.

Lemma safe_uncommon v :
  safe (if v =? 0 then gbind get8 (fun t => if t <? 16 then glift RuntimeError else gret t) else gret v).
Proof.
  bcase; [|apply safe_ret]. apply safe_bind; [apply safe_get8|]. intros t. bcase; [by apply safe_lift|apply safe_ret].
Qed.

Lemma safe_item x : safe (getLike x).
Proof.
  destruct x; cbn [getLike]; (apply safe_bind; [|intros; apply safe_ret]);
    try (apply safe_bind; [apply safe_readBytes|intros; apply safe_ret]); try apply safe_readBytes.
  - apply safe_bind; [apply safe_length|]. intros n. apply safe_raw.
  - apply safe_bind; [apply safe_get8|]. intros a. cbv zeta. apply safe_bind; [apply safe_uncommon|]. intros t.
    apply safe_bind; [apply safe_uncommon|]. intros n. apply safe_ret.
Qed.

(** The public operations of the iterator. *)
Inductive IterOp :=
| OpReset
| OpSkip (length : Z)
| OpGet (kind : Item)
| OpRaw (size : Z)
| OpSlice (bytes : nat)
| OpLength.

(** Run one; the flag says that it was undefined. *)
Definition runOp (op : IterOp) (it : SerialIter) : bool * SerialIter :=
  let forget {A} (r : Outcome A * SerialIter) := (match r.1 with Wild => true | _ => false end, r.2) in
  match op with
  | OpReset => (false, reset it)
  | OpSkip length => forget (skip length it)
  | OpGet kind => forget (getLike kind it)
  | OpRaw size => forget (getRaw size it)
  | OpSlice bytes => forget (getSlice bytes it)
  | OpLength => forget (getVLDataLength it)
  end.

Definition runOps (ops : list IterOp) (it : SerialIter) : bool * SerialIter :=
  foldl (fun acc op => let r := runOp op acc.2 in (acc.1 || r.1, r.2)) (false, it) ops.

(** The arguments of type [int]. *)
Definition intOp (op : IterOp) : Prop :=
  match op with OpSkip n | OpRaw n => - 2 ^ 31 <= n < 2 ^ 31 | _ => True end.

Lemma u64_neg n : - 2 ^ 31 <= n < 0 -> u64 n = 2 ^ 64 + n.
Proof. intros Hn. unfold u64. rewrite <-(Z.mod_add n 1 (2 ^ 64)) by lia. rewrite Z.mod_small; lia. Qed.

Lemma runOp_safe op it :
  iterOk it -> intOp op -> Z.of_nat (length (si_data it)) < 2 ^ 63 ->
  (runOp op it).1 = false /\ iterOk (runOp op it).2 /\ si_data (runOp op it).2 = si_data it.
Proof.
  intros Hit Hop Hlen.
  assert (Hs : forall A (m : Get A), safe m ->
    (match (m it).1 with Wild => true | _ => false end) = false /\ iterOk (m it).2 /\ si_data (m it).2 = si_data it).
  { intros A m Hm. destruct (Hm it Hit) as (H1 & H2 & H3). split; [|done]. by destruct (m it).1. }
  destruct op; cbn [runOp intOp] in *.
  - split; [done|]. split; [by apply iterOk_reset|done].
  - destruct Hit as (H1 & H2 & H3). unfold skip. destruct (Z.ltb_spec (Z.of_nat (remain_ it)) (u64 length)); [done|].
    split; [done|]. split; [|done]. apply iterOk_advance; [done|]. destruct (Z.lt_ge_cases length 0).
    + rewrite u64_neg in * by lia. lia.
    + rewrite u64_id in * by lia. lia.
  - by apply (Hs _ (getLike kind)), safe_item.
  - by apply (Hs _ (getRaw size)), safe_raw.
  - apply (Hs _ (getSlice bytes)), safe_readBytes.
  - apply (Hs _ getVLDataLength), safe_length.
Qed.

Lemma runOps_snoc ops op it :
  runOps (ops ++ [op]) it = ((runOps ops it).1 || (runOp op (runOps ops it).2).1, (runOp op (runOps ops it).2).2).
Proof. unfold runOps. by rewrite foldl_app. Qed.

(** ** The properties *)

(** Values of the types the writers take; the size of a string reaches them as an [int]. *)
Definition typedItem (x : Item) : Prop :=
  match x with
  | Variable_ v => isDigits 256 v /\ Z.of_nat (length v) < 2 ^ 31
  | _ => validItem x
  end.

(** A variable-size string longer than a length header can say. *)
Definition tooLong (x : Item) : Prop :=
  match x with
  | Variable_ v => kMaxValueOfLengthFor3ByteHeader < Z.of_nat (length v)
  | _ => False
  end.

Lemma typed_cases x : typedItem x -> validItem x \/ tooLong x.
Proof.
  destruct x; cbn [typedItem validItem tooLong]; try tauto. intros [Hd Hl].
  destruct (Z.le_gt_cases (Z.of_nat (length v)) kMaxValueOfLengthFor3ByteHeader); tauto.
Qed.

Lemma put_tooLong x s : typedItem x -> tooLong x -> put x s = OverflowError.
Proof.
  destruct x; cbn [typedItem tooLong put]; try done. intros [Hd Hl] Hlong. unfold addVL.
  rewrite i32_small by lia. rewrite addEncoded_header.
  destruct (Z.leb_spec (Z.of_nat (length v)) kMaxValueOfLengthFor3ByteHeader); [lia|].
  by rewrite andb_false_r.
Qed.

Lemma putAll_tooLong l : forall s, Forall typedItem l -> Exists tooLong l -> putAll l s = OverflowError.
Proof.
  induction l as [|x l IH]; intros s Ht Hl; [by apply Exists_nil in Hl|]. cbn [putAll].
  apply Forall_cons in Ht as [Hx Ht]. destruct (typed_cases x Hx) as [Hv|Hlong]; [|by rewrite put_tooLong].
  rewrite put_bytes by done. apply IH; [done|]. apply Exists_cons in Hl as [Hlong|Hl]; [|done].
  destruct x; try done. cbn in Hv, Hlong. lia.
Qed.

(** C29: Whatever sequence of items is written, integers of every width, fixed and
    variable-size strings and field identifiers (with codes from 1 to 255): if a
    variable-size string is longer than 918744 bytes, which no length header can say,
    writing throws [overflow_error]; otherwise writing does not throw, and reading items
    of the same kinds from the bytes returns the same items and uses all the bytes. *)
Theorem serializer_roundtrip (l : list Item) (Hl : Forall typedItem l) :
  (Exists tooLong l -> putAll l [] = OverflowError) /\
  (~ Exists tooLong l ->
   exists bytes it', putAll l [] = Ret bytes /\ getAll l (newIter bytes) = (Ret l, it') /\ empty it' = true).
Proof.
  split; [by apply putAll_tooLong|]. intros Hno.
  assert (Hv : Forall validItem l).
  { rewrite Exists_exists in Hno. rewrite Forall_forall in Hl |- *. intros x Hx.
    destruct (typed_cases x (Hl x Hx)); [done|]. destruct Hno. eauto. }
  pose proof (itemsBytes_digits l Hv) as Hd. exists (itemsBytes l). eexists.
  split; [by apply putAll_bytes|]. split.
  - apply (reads_items l Hv _ []); [by apply iterOk_new|]. by rewrite pending_new, app_nil_r.
  - unfold empty. cbn. by rewrite Nat.sub_diag.
Qed.

(** C30: The readers accept only what the writers write: when items are read from any
    bytes, each item read is in range, and writing the items read reproduces exactly the
    bytes consumed.  So a length or a field identifier has one accepted encoding. *)
Theorem reader_accepts_only_written (l r : list Item) (data : list Z) (it' : SerialIter)
    (Hd : isDigits 256 data) (Hread : getAll l (newIter data) = (Ret r, it')) :
  Forall validItem r /\ length r = length l /\ putAll r [] = Ret (take (p_ it') data).
Proof.
  destruct (exact_items l (newIter data) r it' (iterOk_new data Hd) Hread)
    as (bytes & rest & E & -> & _ & Hv & Hlen & ->).
  split; [done|]. split; [done|]. rewrite putAll_bytes by done. rewrite pending_new in E. cbn [p_ advance newIter app].
  by rewrite E, Nat.add_0_l, take_app_length.
Qed.

(** The iterator is well-typed after any sequence of operations, also ones that throw:
    the pointer stays in the buffer, what has been used and what remains add up to its
    size, and no operation reads outside it. *)
Theorem iterator_stays_in_buffer (data : list Z) (ops : list IterOp)
    (Hd : isDigits 256 data) (Hlen : Z.of_nat (length data) < 2 ^ 63) (Hops : Forall intOp ops) :
  let '(wild, it) := runOps ops (newIter data) in
  wild = false /\ si_data it = data /\ p_ it = used_ it /\ (p_ it + remain_ it = length data)%nat.
Proof.
  assert (H : (runOps ops (newIter data)).1 = false /\ iterOk (runOps ops (newIter data)).2 /\
    si_data (runOps ops (newIter data)).2 = data).
  { induction ops as [|op ops IH] using rev_ind; [split_and!; try done; by apply iterOk_new|].
    apply Forall_app in Hops as [Hops Hop]. apply Forall_cons in Hop as [Hop _]. destruct (IH Hops) as (I1 & I2 & I3). rewrite runOps_snoc. cbn [fst snd]. rewrite I1.
    destruct (runOp_safe op _ I2 Hop) as (R1 & R2 & R3); [by rewrite I3|]. rewrite R1. split_and!; try done. congruence. }
  destruct (runOps ops (newIter data)) as [wild it]. cbn [fst snd] in H. destruct H as (H1 & (H2 & H3 & _) & H4).
  split_and!; try done. by rewrite <-H4.
Qed.

(** *** Witnesses *)

Definition sampleItems : list Item :=
  [Field 1 2; Int16 97; Field 20 3; Byte 255; Signed32 (-5); Field 3 40; Int64 (2 ^ 63); Variable_ [1; 2; 3]].

Lemma sampleItems_typed : Forall typedItem sampleItems.
Proof.
  unfold sampleItems. repeat (apply Forall_cons; split); [..|constructor]; cbn [typedItem validItem]; unfold validField; try lia.
  split; [apply (bool_decide_eq_true_1 _); reflexivity|cbn; lia].
Qed.

Lemma serializer_roundtrip_witness :
  exists bytes it', putAll sampleItems [] = Ret bytes /\ getAll sampleItems (newIter bytes) = (Ret sampleItems, it') /\
    empty it' = true.
Proof.
  apply (proj2 (serializer_roundtrip sampleItems sampleItems_typed)).
  intros Hl. unfold sampleItems in Hl. repeat (apply Exists_cons in Hl as [Hl|Hl]; [cbn in Hl; constants; lia|]).
  by apply Exists_nil in Hl.
Defined.

Lemma reader_accepts_only_written_witness :
  putAll [Variable_ [7; 8]; Field 20 3] [] = Ret (take 5 [2; 7; 8; 3; 20; 9]).
Proof.
  apply (reader_accepts_only_written [Variable_ []; Field 1 1] [Variable_ [7; 8]; Field 20 3] [2; 7; 8; 3; 20; 9]
    (advance 5 (newIter [2; 7; 8; 3; 20; 9]))); [apply (bool_decide_eq_true_1 _); reflexivity|reflexivity].
Defined.

Lemma iterator_stays_in_buffer_witness :
  (runOps [OpGet (Byte 0); OpSkip (-1); OpLength; OpReset; OpRaw 9] (newIter [5; 255; 0])).1 = false.
Proof.
  pose proof (iterator_stays_in_buffer [5; 255; 0] [OpGet (Byte 0); OpSkip (-1); OpLength; OpReset; OpRaw 9]) as H.
  destruct (runOps _ _) as [wild it]. apply H; [apply (bool_decide_eq_true_1 _); reflexivity|cbn; lia|].
  repeat (apply Forall_cons; split); [..|constructor]; cbn; lia.
Defined.
