(* ===== verification/LedgerHeader.v ===== *)
(** * Ledger headers

    The structure [LedgerHeader] of include/xrpl/protocol/LedgerHeader.h, its
    serialization, its deserialization and its hash (src/libxrpl/protocol/LedgerHeader.cpp),
    on top of the [Serializer] and the [SerialIter].

    A 256-bit value is the list of its bytes.  [sha512Half] is a parameter, a function of
    the bytes that are hashed. *)
From S2P Require Import Prelude Digits HashPrefix Serializer SerializerFacts.

Record LedgerHeader := {
  h_seq : Z;
  h_parentCloseTime : Z;
  h_hash : list Z;
  h_txHash : list Z;
  h_accountHash : list Z;
  h_parentHash : list Z;
  h_drops : Z;
  h_validated : bool;
  h_accepted : bool;
  h_closeFlags : Z;
  h_closeTimeResolution : Z;
  h_closeTime : Z;
}.

Definition zeroHash : list Z := replicate 32 0.

Definition emptyHeader : LedgerHeader :=
  {| h_seq := 0; h_parentCloseTime := 0; h_hash := zeroHash; h_txHash := zeroHash; h_accountHash := zeroHash;
     h_parentHash := zeroHash; h_drops := 0; h_validated := false; h_accepted := false; h_closeFlags := 0;
     h_closeTimeResolution := 0; h_closeTime := 0 |}.

Definition kSLcfNoConsensusTime : Z := 1.

Definition getCloseAgree (info : LedgerHeader) : bool := Z.land (h_closeFlags info) kSLcfNoConsensusTime =? 0.

(** [addRaw] of a header; [add8] takes an unsigned character. *)
Definition addHeader (info : LedgerHeader) (includeHash : bool) (s : Serializer) : Serializer :=
  let s := (add32 (h_seq info) s).2 in
  let s := (add64 (h_drops info) s).2 in
  let s := (addBitString (h_parentHash info) s).2 in
  let s := (addBitString (h_txHash info) s).2 in
  let s := (addBitString (h_accountHash info) s).2 in
  let s := (add32 (h_parentCloseTime info) s).2 in
  let s := (add32 (h_closeTime info) s).2 in
  let s := (add8 (u8 (h_closeTimeResolution info)) s).2 in
  let s := (add8 (u8 (h_closeFlags info)) s).2 in
  if includeHash then (addBitString (h_hash info) s).2 else s.

Definition readHeader (hasHash : bool) : Get LedgerHeader :=
  seq <- get32;;
  drops <- get64;;
  parentHash <- getBitString 32;;
  txHash <- getBitString 32;;
  accountHash <- getBitString 32;;
  parentCloseTime <- get32;;
  closeTime <- get32;;
  closeTimeResolution <- get8;;
  closeFlags <- get8;;
  hash <- (if hasHash then getBitString 32 else gret (h_hash emptyHeader));;
  gret {| h_seq := seq; h_parentCloseTime := parentCloseTime; h_hash := hash; h_txHash := txHash;
          h_accountHash := accountHash; h_parentHash := parentHash; h_drops := i64 drops;
          h_validated := h_validated emptyHeader; h_accepted := h_accepted emptyHeader;
          h_closeFlags := closeFlags; h_closeTimeResolution := closeTimeResolution; h_closeTime := closeTime |}.

Definition deserializeHeader (data : list Z) (hasHash : bool) : Outcome LedgerHeader :=
  (readHeader hasHash (newIter data)).1.

(** [data + 4] throws when the slice is shorter. *)
Definition deserializePrefixedHeader (data : list Z) (hasHash : bool) : Outcome LedgerHeader :=
  if (length data <? 4)%nat then DomainError else deserializeHeader (drop 4 data) hasHash.

(** The integers are hashed in big-endian order. *)
Definition calculateLedgerHash (sha512Half : list Z -> list Z) (info : LedgerHeader) : list Z :=
  sha512Half
    (prefixBytes LedgerMaster ++ beBytes 4 (u32 (h_seq info)) ++ beBytes 8 (u64 (h_drops info)) ++
     h_parentHash info ++ h_txHash info ++ h_accountHash info ++ beBytes 4 (u32 (h_parentCloseTime info)) ++
     beBytes 4 (u32 (h_closeTime info)) ++ beBytes 1 (u8 (h_closeTimeResolution info)) ++
     beBytes 1 (u8 (h_closeFlags info))).

(** ** Lemmas *)

(** The values the fields of the structure hold. *)
Definition validHash (h : list Z) : Prop := length h = 32%nat /\ isDigits 256 h.

Definition validHeader (h : LedgerHeader) : Prop :=
  0 <= h_seq h < 2 ^ 32 /\ 0 <= h_parentCloseTime h < 2 ^ 32 /\ 0 <= h_closeTime h < 2 ^ 32 /\
  - 2 ^ 63 <= h_drops h < 2 ^ 63 /\ 0 <= h_closeTimeResolution h < 256 /\ 0 <= h_closeFlags h < 256 /\
  validHash (h_hash h) /\ validHash (h_txHash h) /\ validHash (h_accountHash h) /\ validHash (h_parentHash h).

(** The bytes of a header, without the hash. *)
Definition headerBytes (h : LedgerHeader) : list Z :=
  beBytes 4 (h_seq h) ++ beBytes 8 (h_drops h) ++ h_parentHash h ++ h_txHash h ++ h_accountHash h ++
  beBytes 4 (h_parentCloseTime h) ++ beBytes 4 (h_closeTime h) ++ [h_closeTimeResolution h] ++ [h_closeFlags h].

(** What is not sent: the hash when it is left out, and the two local flags. *)
Definition sentHeader (h : LedgerHeader) (hasHash : bool) : LedgerHeader :=
  {| h_seq := h_seq h; h_parentCloseTime := h_parentCloseTime h; h_hash := if hasHash then h_hash h else zeroHash;
     h_txHash := h_txHash h; h_accountHash := h_accountHash h; h_parentHash := h_parentHash h; h_drops := h_drops h;
     h_validated := false; h_accepted := false; h_closeFlags := h_closeFlags h;
     h_closeTimeResolution := h_closeTimeResolution h; h_closeTime := h_closeTime h |}.

Lemma addHeader_bytes h includeHash s :
  validHeader h -> addHeader h includeHash s = s ++ headerBytes h ++ (if includeHash then h_hash h else []).
Proof.
  intros (H1 & H2 & H3 & H4 & H5 & H6 & _). unfold addHeader, headerBytes, addBitString, addRaw, add8. cbv zeta.
  rewrite !add32_bytes, add64_bytes. cbn [snd]. rewrite !u8_id by done.
  destruct includeHash; by rewrite <-!app_assoc, ?app_nil_r.
Qed.

Lemma headerBytes_digits h : validHeader h -> isDigits 256 (headerBytes h).
Proof.
  intros (H1 & H2 & H3 & H4 & H5 & H6 & [_ H7] & [_ H8] & [_ H9] & [_ H10]). unfold headerBytes.
  repeat (apply Forall_app; split); try apply beBytes_digits; try done; by constructor.
Qed.

Lemma reads_get32 x : 0 <= x < 2 ^ 32 -> reads get32 (beBytes 4 x) x.
Proof.
  intros Hx. unfold get32. rewrite <-(Z.mod_small x (2 ^ 32)) at 2 by done.
  replace (x mod 2 ^ 32) with (beValue (beBytes 4 x)) by (rewrite beValue_beBytes; done).
  rewrite <-get32_value by (apply beBytes_digits || apply length_beBytes).
  apply (reads_map (fun t => u32 (Z.shiftl (at_ t 0) 24 +64 Z.shiftl (at_ t 1) 16 +64 Z.shiftl (at_ t 2) 8 +64 at_ t 3))).
  apply length_beBytes.
Qed.

Lemma reads_get64 x : reads get64 (beBytes 8 x) (x mod 2 ^ 64).
Proof.
  unfold get64. replace (x mod 2 ^ 64) with (beValue (beBytes 8 x)) by (rewrite beValue_beBytes; done).
  rewrite <-get64_value by (apply beBytes_digits || apply length_beBytes).
  apply (reads_map (fun t => Z.shiftl (at_ t 0) 56 +64 Z.shiftl (at_ t 1) 48 +64 Z.shiftl (at_ t 2) 40 +64
        Z.shiftl (at_ t 3) 32 +64 Z.shiftl (at_ t 4) 24 +64 Z.shiftl (at_ t 5) 16 +64
        Z.shiftl (at_ t 6) 8 +64 at_ t 7)).
  apply length_beBytes.
Qed.

Lemma reads_hash v : length v = 32%nat -> reads (getBitString 32) v v.
Proof. intros <-. apply reads_readBytes. Qed.

Lemma reads_header h hasHash :
  validHeader h ->
  reads (readHeader hasHash) (headerBytes h ++ (if hasHash then h_hash h else [])) (sentHeader h hasHash).
Proof.
  intros (H1 & H2 & H3 & H4 & H5 & H6 & [H7 _] & [H8 _] & [H9 _] & [H10 _]). unfold readHeader, headerBytes.
  rewrite <-!app_assoc.
  eapply reads_bind; [by apply reads_get32|]. eapply reads_bind; [apply reads_get64|].
  eapply reads_bind; [by apply reads_hash|]. eapply reads_bind; [by apply reads_hash|].
  eapply reads_bind; [by apply reads_hash|]. eapply reads_bind; [by apply reads_get32|].
  eapply reads_bind; [by apply reads_get32|]. eapply reads_bind; [by apply reads_get8|].
  eapply reads_bind; [by apply reads_get8|].
  rewrite <-(app_nil_r (if hasHash then h_hash h else [])).
  eapply (reads_bind _ _ _ _ (if hasHash then h_hash h else zeroHash)).
  { destruct hasHash; [by apply reads_hash|apply reads_ret]. }
  unfold sentHeader. replace (h_drops h) with (i64 (h_drops h mod 2 ^ 64)) at 2.
  2: { rewrite <-(i64_id (h_drops h)) at 2 by done. unfold i64, u64. by rewrite Z.mod_mod. }
  destruct hasHash; apply reads_ret.
Qed.

(** The bytes hashed are the prefix and the bytes sent. *)
Lemma hash_preimage sha512Half h :
  validHeader h -> calculateLedgerHash sha512Half h = sha512Half (prefixBytes LedgerMaster ++ headerBytes h).
Proof.
  intros (H1 & H2 & H3 & H4 & H5 & H6 & _). unfold calculateLedgerHash, headerBytes. do 2 f_equal.
  rewrite !u32_id, !u8_id by done.
  replace (beBytes 8 (u64 (h_drops h))) with (beBytes 8 (h_drops h)).
  2: { apply beBytes_mod. unfold u64. change (8 * Z.of_nat 8) with 64. by rewrite Z.mod_mod. }
  assert (H : forall x, 0 <= x < 256 -> beBytes 1 x = [x]).
  { intros x Hx. cbn [beBytes]. change (8 * Z.of_nat 0) with 0. rewrite Z.shiftr_0_r, Z.mod_small; done. }
  by rewrite !H by done.
Qed.

Lemma header_determined h h' :
  validHeader h -> validHeader h' -> headerBytes h = headerBytes h' -> sentHeader h false = sentHeader h' false.
Proof.
  intros Hv Hv' E. pose proof (reads_header h false Hv (newIter (headerBytes h)) []) as R.
  pose proof (reads_header h' false Hv' (newIter (headerBytes h')) []) as R'.
  rewrite !app_nil_r in R, R'. rewrite <-E in R'.
  specialize (R (iterOk_new _ (headerBytes_digits h Hv)) eq_refl).
  specialize (R' (iterOk_new _ (headerBytes_digits h Hv)) eq_refl). congruence.
Qed.

(** ** The properties *)

(** A ledger header survives its wire format: with or without its hash, and with the
    four-byte prefix, deserializing what was serialized returns the same header, except
    for the local flags and for the hash when it was left out. *)
Theorem header_roundtrip (h : LedgerHeader) (hasHash : bool) (prefix : list Z)
    (Hv : validHeader h) (Hp : length prefix = 4%nat) :
  deserializeHeader (addHeader h hasHash []) hasHash = Ret (sentHeader h hasHash) /\
  deserializePrefixedHeader (addHeader h hasHash prefix) hasHash = Ret (sentHeader h hasHash).
Proof.
  assert (Hd : isDigits 256 (headerBytes h ++ (if hasHash then h_hash h else []))).
  { apply Forall_app. split; [by apply headerBytes_digits|]. destruct hasHash; [|constructor]. apply Hv. }
  assert (H : deserializeHeader (headerBytes h ++ (if hasHash then h_hash h else [])) hasHash = Ret (sentHeader h hasHash)).
  { unfold deserializeHeader. rewrite (reads_header h hasHash Hv _ [] (iterOk_new _ Hd)); [done|].
    by rewrite pending_new, app_nil_r. }
  rewrite !addHeader_bytes by done. split; [exact H|]. unfold deserializePrefixedHeader.
  rewrite length_app, Hp, drop_app_length' by done. exact H.
Qed.

(** The ledger hash commits to the header: it is the digest of the ledger prefix and
    exactly the bytes sent, and two valid headers with the same hash agree in every field
    but the hash and the local flags, when the digest does not collide on their two
    strings of bytes. *)
Theorem ledger_hash_commits (sha512Half : list Z -> list Z) (h h' : LedgerHeader)
    (Hv : validHeader h) (Hv' : validHeader h') :
  let bytes h := addHeader h false (prefixBytes LedgerMaster) in
  calculateLedgerHash sha512Half h = sha512Half (bytes h) /\
  ((sha512Half (bytes h) = sha512Half (bytes h') -> bytes h = bytes h') ->
   calculateLedgerHash sha512Half h = calculateLedgerHash sha512Half h' ->
   sentHeader h false = sentHeader h' false).
Proof.
  cbv zeta. rewrite !hash_preimage, !addHeader_bytes, !app_nil_r by done. split; [done|]. intros Hnc E.
  apply header_determined; [done|done|]. by apply Hnc, app_inv_head in E.
Qed.

(** *** Witnesses *)

Definition sampleHeader : LedgerHeader :=
  {| h_seq := 7; h_parentCloseTime := 100; h_hash := replicate 32 9; h_txHash := replicate 32 1;
     h_accountHash := replicate 32 2; h_parentHash := replicate 32 3; h_drops := 99999999999999; h_validated := true;
     h_accepted := true; h_closeFlags := 1; h_closeTimeResolution := 30; h_closeTime := 120 |}.

Lemma sampleHeader_valid : validHeader sampleHeader.
Proof.
  unfold validHeader. cbn [sampleHeader h_seq h_parentCloseTime h_hash h_txHash h_accountHash h_parentHash h_drops
    h_closeFlags h_closeTimeResolution h_closeTime].
  split_and!; try lia; (split; [done|apply Forall_replicate; lia]).
Qed.

Lemma header_roundtrip_witness :
  deserializeHeader (addHeader sampleHeader true []) true = Ret (sentHeader sampleHeader true).
Proof. exact (proj1 (header_roundtrip sampleHeader true [1; 2; 3; 4] sampleHeader_valid eq_refl)). Defined.

Lemma ledger_hash_commits_witness :
  sentHeader sampleHeader false = sentHeader (sentHeader sampleHeader true) false.
Proof.
  exact (proj2 (ledger_hash_commits (fun x => x) sampleHeader (sentHeader sampleHeader true)
    sampleHeader_valid sampleHeader_valid) (fun E => E) eq_refl).
Defined.
