(* ===== verification/NodeID.v ===== *)
(** * Positions in a SHAMap

    The class [SHAMapNodeID] of include/xrpl/shamap/SHAMapNodeID.h and
    src/libxrpl/shamap/SHAMapNodeID.cpp: a depth and the nibbles of a key down to that
    depth, the rest masked off; the branch a key takes at a node; the wire format.

    A 256-bit value is an integer; byte [k] is the [k]-th most significant one.  The
    exceptions of [getChildNodeID] are the value [None]. *)
From S2P Require Import Prelude Digits.

Definition kBranchFactor : nat := 16.
Definition kLeafDepth : nat := 64.

(** [UInt256::begin()[k]], and writing it *)
Definition byteAt (x : Z) (k : nat) : Z := Z.shiftr x (8 * (31 - Z.of_nat k)) mod 256.
Definition setByte (x : Z) (k : nat) (v : Z) : Z :=
  x - Z.shiftl (byteAt x k) (8 * (31 - Z.of_nat k)) + Z.shiftl v (8 * (31 - Z.of_nat k)).

(** [MasksT]: the table, two entries for each byte *)
Definition maskTable : list Z :=
  let '(entries, selector) :=
    foldl (fun acc i =>
      let '(entries, selector) := acc in
      let entries := entries ++ [selector] in
      let selector := setByte selector i 240 in
      let entries := entries ++ [selector] in
      (entries, setByte selector i 255)) ([], 0) (seq 0 32) in
  entries ++ [selector].

Definition depthMask (depth : nat) : Z := default 0 (maskTable !! depth).

Definition maskedToDepth (key : Z) (depth : nat) : Z := Z.land key (depthMask depth).

Definition isPrefixOfAtDepth (id : Z) (depth : nat) (key : Z) : bool := maskedToDepth key depth =? id.

Record SHAMapNodeID := { id_ : Z; depth_ : nat }.

(** The constructor, with its clamp *)
Definition newNodeID (depth : nat) (hash : Z) : SHAMapNodeID :=
  if (kLeafDepth <? depth)%nat then {| id_ := maskedToDepth hash kLeafDepth; depth_ := kLeafDepth |}
  else {| id_ := hash; depth_ := depth |}.

Definition rootID : SHAMapNodeID := {| id_ := 0; depth_ := 0 |}.

Definition isRoot (n : SHAMapNodeID) : bool := (depth_ n =? 0)%nat.

Definition isPrefixOf (n : SHAMapNodeID) (key : Z) : bool := isPrefixOfAtDepth (id_ n) (depth_ n) key.

Definition createID (depth : nat) (key : Z) : SHAMapNodeID :=
  let depth := if (kLeafDepth <? depth)%nat then kLeafDepth else depth in
  newNodeID depth (maskedToDepth key depth).

Definition getChildNodeID (n : SHAMapNodeID) (branch : nat) : option SHAMapNodeID :=
  if (kLeafDepth <=? depth_ n)%nat then None
  else if negb (isPrefixOf n (id_ n)) then None
  else
    let node := newNodeID (S (depth_ n)) (id_ n) in
    let k := (depth_ n / 2)%nat in
    let nibble := if Nat.odd (depth_ n) then Z.of_nat branch else Z.shiftl (Z.of_nat branch) 4 in
    Some {| id_ := setByte (id_ node) k (Z.lor (byteAt (id_ node) k) nibble); depth_ := depth_ node |}.

Definition selectBranch (n : SHAMapNodeID) (hash : Z) : nat :=
  let depth := Nat.min (depth_ n) (kLeafDepth - 1) in
  let branch := byteAt hash (depth / 2) in
  Z.to_nat (if Nat.odd depth then Z.land branch 15 else Z.shiftr branch 4).

(** The wire format: the id and a byte for the depth *)
Definition getRawString (n : SHAMapNodeID) : list Z := beBytes 32 (id_ n) ++ [Z.of_nat (depth_ n) mod 256].

Definition deserializeSHAMapNodeID (data : list Z) : option SHAMapNodeID :=
  if (length data =? 33)%nat then
    let depth := Z.to_nat (default 0 (data !! 32%nat)) in
    if (depth <=? kLeafDepth)%nat then
      let id := beValue (take 32 data) in
      if isPrefixOfAtDepth id depth id then Some (newNodeID depth id) else None
    else None
  else None.

(** ** Nibbles *)

(** The [d]-th nibble of a key, and its first [d] nibbles. *)
Definition nibble (key : Z) (d : nat) : Z := key / 16 ^ (63 - Z.of_nat d) mod 16.
Definition prefix (key : Z) (d : nat) : Z := key / 16 ^ (64 - Z.of_nat d).

Definition isKey (key : Z) : Prop := 0 <= key < 2 ^ 256.

Lemma nibble_range key d : 0 <= nibble key d < 16.
Proof. apply Z.mod_pos_bound. lia. Qed.

Lemma prefix_S key d : (d < 64)%nat -> prefix key (S d) = prefix key d * 16 + nibble key d.
Proof.
  intros Hd. unfold prefix, nibble. rewrite Nat2Z.inj_succ.
  replace (64 - Z.succ (Z.of_nat d)) with (63 - Z.of_nat d) by lia.
  replace (16 ^ (64 - Z.of_nat d)) with (16 ^ (63 - Z.of_nat d) * 16).
  2: { replace (64 - Z.of_nat d) with (63 - Z.of_nat d + 1) by lia. rewrite Z.pow_add_r by lia. done. }
  rewrite <-Z.div_div by lia. pose proof (Z.div_mod (key / 16 ^ (63 - Z.of_nat d)) 16 ltac:(lia)). lia.
Qed.

Lemma prefix_0 key : isKey key -> prefix key 0 = 0.
Proof. intros Hk. unfold prefix. change (16 ^ (64 - Z.of_nat 0)) with (2 ^ 256). by apply Z.div_small. Qed.

Lemma prefix_64 key : prefix key 64 = key.
Proof. unfold prefix. change (16 ^ (64 - Z.of_nat 64)) with 1. apply Z.div_1_r. Qed.

Lemma prefix_split k k' d :
  (d <= 64)%nat -> isKey k -> isKey k' ->
  prefix k d = prefix k' d <-> (forall i, (i < d)%nat -> nibble k i = nibble k' i).
Proof.
  intros Hd Hk Hk'. induction d as [|d IH]; [split; [lia|by rewrite !prefix_0]|].
  rewrite !prefix_S by lia. pose proof (nibble_range k d). pose proof (nibble_range k' d). split.
  - intros E i Hi. assert (prefix k d = prefix k' d /\ nibble k d = nibble k' d) as [Ep En] by lia.
    destruct (Nat.eq_dec i d) as [->|]; [done|]. apply IH; [lia|done|lia].
  - intros Hn. rewrite (Hn d) by lia. f_equal. f_equal. apply IH; [lia|]. intros i Hi. apply Hn. lia.
Qed.

Lemma byteAt_nibbles key k : (k < 32)%nat -> byteAt key k = nibble key (2 * k) * 16 + nibble key (2 * k + 1).
Proof.
  intros Hk. unfold byteAt, nibble. rewrite Z.shiftr_div_pow2 by lia.
  replace (63 - Z.of_nat (2 * k)) with (2 * (31 - Z.of_nat k) + 1) by lia.
  replace (63 - Z.of_nat (2 * k + 1)) with (2 * (31 - Z.of_nat k)) by lia.
  rewrite Z.pow_add_r by lia. change (16 ^ 1) with 16. rewrite <-Z.div_div by (try apply Z.pow_nonzero; lia).
  replace (2 ^ (8 * (31 - Z.of_nat k))) with (16 ^ (2 * (31 - Z.of_nat k))).
  2: { change 16 with (2 ^ 4). rewrite <-Z.pow_mul_r by lia. f_equal. lia. }
  set (x := key / 16 ^ (2 * (31 - Z.of_nat k))). change 256 with (16 * 16).
  rewrite Z.rem_mul_r by lia. lia.
Qed.

Lemma selectBranch_nibble n key : (depth_ n < 64)%nat -> selectBranch n key = Z.to_nat (nibble key (depth_ n)).
Proof.
  intros Hd. unfold selectBranch, kLeafDepth. rewrite Nat.min_l by lia. set (d := depth_ n) in *.
  pose proof (Nat.div_mod_eq d 2) as E. rewrite byteAt_nibbles by (apply Nat.Div0.div_lt_upper_bound; lia).
  pose proof (nibble_range key (2 * (d / 2))). pose proof (nibble_range key (2 * (d / 2) + 1)).
  rewrite <-Nat.bit0_odd, Nat.bit0_eqb. destruct (Nat.eqb_spec (d mod 2) 1) as [E1|E1].
  - change 15 with (Z.ones 4). rewrite Z.land_ones by lia. change (2 ^ 4) with 16.
    replace (2 * (d / 2) + 1)%nat with d in * by lia.
    rewrite Z.add_comm, Z.mod_add, Z.mod_small by lia. done.
  - pose proof (Nat.mod_upper_bound d 2 ltac:(lia)). replace (2 * (d / 2))%nat with d in * by lia.
    rewrite Z.shiftr_div_pow2 by lia. change (2 ^ 4) with 16. rewrite Z.div_add_l, Z.div_small by lia. f_equal. lia.
Qed.

Lemma selectBranch_range n key : (selectBranch n key < kBranchFactor)%nat.
Proof.
  unfold selectBranch, kBranchFactor. set (d := Nat.min _ _).
  assert (0 <= byteAt key (d / 2) < 256) by (apply Z.mod_pos_bound; lia).
  destruct (Nat.odd d).
  - change 15 with (Z.ones 4). rewrite Z.land_ones by lia. pose proof (Z.mod_pos_bound (byteAt key (d / 2)) (2 ^ 4)). lia.
  - rewrite Z.shiftr_div_pow2 by lia. change (2 ^ 4) with 16.
    assert (byteAt key (d / 2) / 16 < 16) by (apply Z.div_lt_upper_bound; lia). lia.
Qed.

(** ** Masks and paths *)

Lemma depthMask_ones d : (d <= 64)%nat -> depthMask d = Z.shiftl (Z.ones (4 * Z.of_nat d)) (256 - 4 * Z.of_nat d).
Proof.
  intros Hd.
  assert (Hall : forallb (fun d => depthMask d =? Z.shiftl (Z.ones (4 * Z.of_nat d)) (256 - 4 * Z.of_nat d)) (seq 0 65) = true)
    by (vm_compute; reflexivity).
  rewrite forallb_forall in Hall. apply Z.eqb_eq, (Hall d), in_seq. lia.
Qed.

Lemma pow16 n : 0 <= n -> 16 ^ n = 2 ^ (4 * n).
Proof. intros. change 16 with (2 ^ 4). by rewrite <-Z.pow_mul_r by lia. Qed.

Lemma land_shiftl a b n : 0 <= n -> Z.land a (Z.shiftl b n) = Z.shiftl (Z.land (Z.shiftr a n) b) n.
Proof.
  intros Hn. apply Z.bits_inj'. intros i Hi. rewrite Z.land_spec, !Z.shiftl_spec, Z.land_spec by done.
  destruct (Z.ltb_spec i n).
  - rewrite (Z.testbit_neg_r b), (Z.testbit_neg_r (Z.shiftr a n)) by lia. by rewrite andb_false_r.
  - rewrite Z.shiftr_spec by lia. by replace (i - n + n) with i by lia.
Qed.

Lemma masked_prefix key d : isKey key -> (d <= 64)%nat -> maskedToDepth key d = prefix key d * 16 ^ (64 - Z.of_nat d).
Proof.
  intros Hk Hd. unfold maskedToDepth, prefix. rewrite depthMask_ones, land_shiftl, Z.land_ones by lia.
  rewrite Z.shiftl_mul_pow2, Z.shiftr_div_pow2, !pow16 by lia.
  replace (4 * (64 - Z.of_nat d)) with (256 - 4 * Z.of_nat d) by lia. f_equal.
  apply Z.mod_small. split; [apply Z.div_pos; [apply Hk|lia]|]. apply Z.div_lt_upper_bound; [lia|].
  rewrite <-Z.pow_add_r by lia. replace (256 - 4 * Z.of_nat d + 4 * Z.of_nat d) with 256 by lia. apply Hk.
Qed.

(** The key of a position: the nibbles up to the depth. *)
Definition positionKey (key : Z) (d : nat) : Z := prefix key d * 16 ^ (64 - Z.of_nat d).

Lemma positionKey_isKey key d : isKey key -> (d <= 64)%nat -> isKey (positionKey key d).
Proof.
  intros Hk Hd. unfold isKey, positionKey, prefix in *. assert (0 < 16 ^ (64 - Z.of_nat d)) by (apply Z.pow_pos_nonneg; lia).
  pose proof (Z.div_pos key (16 ^ (64 - Z.of_nat d)) ltac:(lia) ltac:(lia)).
  pose proof (Z.mul_div_le key (16 ^ (64 - Z.of_nat d)) ltac:(lia)). nia.
Qed.

Lemma positionKey_prefix key d : (d <= 64)%nat -> prefix (positionKey key d) d = prefix key d.
Proof. intros Hd. unfold prefix, positionKey at 1. apply Z.div_mul. apply Z.pow_nonzero; lia. Qed.

Lemma positionKey_nibble key d i : (d <= i < 64)%nat -> nibble (positionKey key d) i = 0.
Proof.
  intros Hi. unfold nibble, positionKey.
  replace (64 - Z.of_nat d) with ((64 - Z.of_nat d - (63 - Z.of_nat i)) + (63 - Z.of_nat i)) by lia.
  rewrite Z.pow_add_r, Z.mul_assoc, Z.div_mul by (try apply Z.pow_nonzero; lia).
  replace (64 - Z.of_nat d - (63 - Z.of_nat i)) with ((64 - Z.of_nat d - (63 - Z.of_nat i) - 1) + 1) by lia.
  rewrite Z.pow_add_r, Z.mul_assoc by lia. change (16 ^ 1) with 16. apply Z.mod_mul. lia.
Qed.

Lemma createID_eq d key : isKey key -> (d <= 64)%nat -> createID d key = {| id_ := positionKey key d; depth_ := d |}.
Proof.
  intros Hk Hd. unfold createID, newNodeID, kLeafDepth. destruct (Nat.ltb_spec 64 d); [lia|].
  destruct (Nat.ltb_spec 64 d); [lia|]. by rewrite masked_prefix.
Qed.

Lemma createID_depth d key : (d <= 64)%nat -> depth_ (createID d key) = d.
Proof.
  intros Hd. unfold createID, newNodeID, kLeafDepth. destruct (Nat.ltb_spec 64 d); [lia|].
  by destruct (Nat.ltb_spec 64 d); [lia|].
Qed.

Lemma createID_root key : isKey key -> createID 0 key = rootID.
Proof. intros Hk. rewrite createID_eq by (done || lia). unfold positionKey. by rewrite prefix_0. Qed.

Lemma lor_nibble a b : 0 <= b < 16 -> Z.lor (a * 16) b = a * 16 + b.
Proof. intros Hb. change 16 with (2 ^ 4). by rewrite <-Z.shiftl_mul_pow2, lor_shift, Z.shiftl_mul_pow2 by lia. Qed.

(** The child of a key's position in the key's branch is the key's next position. *)
Lemma getChildNodeID_path d key :
  isKey key -> (d < 64)%nat ->
  getChildNodeID (createID d key) (Z.to_nat (nibble key d)) = Some (createID (S d) key).
Proof.
  intros Hk Hd. rewrite !createID_eq by (done || lia). unfold getChildNodeID, newNodeID, isPrefixOf, isPrefixOfAtDepth, kLeafDepth.
  cbn [id_ depth_]. destruct (Nat.leb_spec 64 d); [lia|]. destruct (Nat.ltb_spec 64 (S d)); [lia|].
  rewrite masked_prefix, positionKey_prefix by (try apply positionKey_isKey; lia || done).
  fold (positionKey key d). rewrite Z.eqb_refl. cbn [negb id_ depth_]. do 2 f_equal.
  pose proof (nibble_range key d) as Hn. pose proof (positionKey_nibble key d) as Hz. set (m := positionKey key d) in *.
  assert (Hnext : positionKey key (S d) = m + nibble key d * 16 ^ (63 - Z.of_nat d)).
  { unfold m, positionKey. rewrite prefix_S by done. replace (64 - Z.of_nat (S d)) with (63 - Z.of_nat d) by lia.
    replace (64 - Z.of_nat d) with (63 - Z.of_nat d + 1) by lia. rewrite Z.pow_add_r by lia. change (16 ^ 1) with 16. lia. }
  rewrite Hnext. rewrite Z2Nat.id by lia. unfold setByte. pose proof (Nat.div_mod_eq d 2) as E.
  rewrite byteAt_nibbles by (apply Nat.Div0.div_lt_upper_bound; lia).
  rewrite !Z.shiftl_mul_pow2 by (try apply Z.mul_nonneg_nonneg; lia).
  rewrite <-Nat.bit0_odd, Nat.bit0_eqb. destruct (Nat.eqb_spec (d mod 2) 1) as [E1|E1].
  - replace (2 * (d / 2) + 1)%nat with d by lia. rewrite (Hz d), Z.add_0_r, lor_nibble by lia.
    replace (2 ^ (8 * (31 - Z.of_nat (d / 2)))) with (16 ^ (63 - Z.of_nat d)); [lia|].
    rewrite pow16 by lia. f_equal. lia.
  - pose proof (Nat.mod_upper_bound d 2 ltac:(lia)). replace (2 * (d / 2))%nat with d by lia.
    rewrite (Hz d), (Hz (d + 1)%nat) by lia. change (0 * 16 + 0) with 0. rewrite Z.lor_0_l, Z.mul_0_l.
    change (2 ^ 4) with 16. rewrite Z.sub_0_r.
    replace (nibble key d * 16 * 2 ^ (8 * (31 - Z.of_nat (d / 2)))) with (nibble key d * 16 ^ (63 - Z.of_nat d)); [done|].
    rewrite <-Z.mul_assoc. f_equal. rewrite pow16 by lia. change 16 with (2 ^ 4). rewrite <-Z.pow_add_r by lia. f_equal. lia.
Qed.

Lemma selectBranch_path d key : (d < 64)%nat -> selectBranch (createID d key) key = Z.to_nat (nibble key d).
Proof. intros Hd. rewrite selectBranch_nibble; by rewrite createID_depth by lia. Qed.

Lemma getChildNodeID_select d key :
  isKey key -> (d < 64)%nat ->
  getChildNodeID (createID d key) (selectBranch (createID d key) key) = Some (createID (S d) key).
Proof. intros Hk Hd. rewrite selectBranch_path by done. by apply getChildNodeID_path. Qed.

(** ** The wire format *)

Lemma rawString_spec n :
  isKey (id_ n) -> (depth_ n <= 64)%nat -> isPrefixOf n (id_ n) = true ->
  deserializeSHAMapNodeID (getRawString n) = Some n.
Proof.
  intros Hk Hd Hp. unfold deserializeSHAMapNodeID, getRawString, kLeafDepth.
  rewrite length_app, length_beBytes. cbn [length Nat.add Nat.eqb].
  rewrite lookup_app_r by (rewrite length_beBytes; lia). rewrite length_beBytes. cbn [Nat.sub lookup list_lookup].
  change (default 0 (Some ?x)) with x. rewrite Z.mod_small, Nat2Z.id by lia.
  destruct (Nat.leb_spec (depth_ n) 64); [|lia]. rewrite take_app_length' by by rewrite length_beBytes.
  rewrite beValue_beBytes, Z.mod_small by exact Hk. unfold isPrefixOf in Hp. rewrite Hp.
  unfold newNodeID, kLeafDepth. destruct (Nat.ltb_spec 64 (depth_ n)); [lia|]. by destruct n.
Qed.

(** Node identifiers survive their wire format, and the reader accepts only them: the
    position of a key at a depth reads back as itself, and whatever thirty-three bytes are
    accepted are the wire format of the position they name, with no bits below its
    depth. *)
Theorem nodeID_roundtrip :
  (forall key d, isKey key -> (d <= 64)%nat ->
     deserializeSHAMapNodeID (getRawString (createID d key)) = Some (createID d key)) /\
  (forall data n, isDigits 256 data -> deserializeSHAMapNodeID data = Some n ->
     getRawString n = data /\ n = createID (depth_ n) (id_ n)).
Proof.
  split.
  - intros key d Hk Hd. pose proof (positionKey_isKey key d Hk Hd) as Hpk. rewrite createID_eq by done.
    apply rawString_spec; cbn [id_ depth_]; [done|done|]. unfold isPrefixOf, isPrefixOfAtDepth. cbn [id_ depth_].
    rewrite masked_prefix, positionKey_prefix by done. apply Z.eqb_refl.
  - intros data n Hd. unfold deserializeSHAMapNodeID, kLeafDepth.
    destruct (Nat.eqb_spec (length data) 33) as [Hl|]; [|done].
    assert (Hs : data = take 32 data ++ [default 0 (data !! 32%nat)]).
    { destruct (lookup_lt_is_Some_2 data 32) as [c Hc]; [lia|]. rewrite Hc. change (default 0 (Some c)) with c.
      rewrite <-(take_S_r _ _ _ Hc). by rewrite take_ge by lia. }
    set (c := default 0 _) in *. pose proof Hd as Hd'. rewrite Hs in Hd'. apply Forall_app in Hd' as [Ht Hc].
    apply Forall_cons in Hc as [Hc _]. destruct (Nat.leb_spec (Z.to_nat c) 64) as [Hcd|]; [|done].
    destruct (isPrefixOfAtDepth _ _ _) eqn:Ep; [|done]. intros [= <-]. unfold isPrefixOfAtDepth in Ep. apply Z.eqb_eq in Ep.
    unfold getRawString, createID, newNodeID, kLeafDepth. destruct (Nat.ltb_spec 64 (Z.to_nat c)) as [|Hle]; [lia|].
    cbn [id_ depth_]. apply Nat.ltb_ge in Hle. rewrite !Hle, Ep. split; [|done].
    rewrite Z2Nat.id, Z.mod_small by lia. rewrite Hs at 2. f_equal.
    assert (Hl32 : length (take 32 data) = 32%nat) by (rewrite length_take; lia).
    apply (valBE_inj 256); [lia|apply beBytes_digits|done|by rewrite length_beBytes|].
    rewrite <-!beValue_valBE, beValue_beBytes. apply Z.mod_small. rewrite beValue_valBE.
    pose proof (valBE_range 256 _ ltac:(lia) Ht) as R. rewrite Hl32 in R. exact R.
Qed.
