(* ===== verification/ShaMap.v ===== *)
(** * SHAMap: the radix tree

    The map of include/xrpl/shamap/SHAMap.h and src/libxrpl/shamap/SHAMap.cpp, SHAMapDelta.cpp,
    SHAMapInnerNode.cpp and the leaf nodes, for maps whose nodes are all linked, such as
    the unbacked maps of transaction sets: no node is fetched from the node store.

    A node is a value and a map is its root: copying a shared node before it is modified
    ([unshareNode]) makes the modification of a value.  The stack of a walk holds each
    node with its position, the top first.  The cached hashes are recomputed from the
    nodes; [sha512Half] is a parameter, a function of the bytes that are hashed. *)
From S2P Require Import Prelude Digits HashPrefix NodeID.

#[local] Set Warnings "-register-all".

Record SHAMapItem := { item_key : Z; item_data : list Z }.

Inductive SHAMapNodeType := TnInner | TnTransactionNm | TnTransactionMd | TnAccountState.

Inductive Node :=
| Leaf (type : SHAMapNodeType) (item : SHAMapItem)
| Inner (children : list (option Node)).

#[export] Instance SHAMapItem_eq_dec : EqDecision SHAMapItem.
Proof. solve_decision. Defined.
#[export] Instance SHAMapNodeType_eq_dec : EqDecision SHAMapNodeType.
Proof. solve_decision. Defined.

(** What an operation returns; [logicError] ends the process and an operation on a null
    pointer is undefined. *)
Inductive MapResult (A : Type) :=
| Done (a : A)
| LogicError
| MissingNode
| Null.
Arguments Done {A} a.
Arguments LogicError {A}.
Arguments MissingNode {A}.
Arguments Null {A}.

Definition mbind_ {A B} (m : MapResult A) (k : A -> MapResult B) : MapResult B :=
  match m with Done a => k a | LogicError => LogicError | MissingNode => MissingNode | Null => Null end.

Declare Scope map_scope.
Delimit Scope map_scope with map.
Notation "'let*' x := m 'in' k" := (mbind_ m (fun x => k))
  (at level 10, x pattern, k at level 200) : map_scope.
#[local] Open Scope map_scope.

Definition orLogicError {A} (o : option A) : MapResult A :=
  match o with Some a => Done a | None => LogicError end.

(** ** Nodes *)

Definition emptyInner : Node := Inner (replicate kBranchFactor None).

Definition isLeaf (n : Node) : bool := match n with Leaf _ _ => true | Inner _ => false end.

(** The child in a branch; the branch is empty without one. *)
Definition childAt (children : list (option Node)) (branch : nat) : option Node := mjoin (children !! branch).

Definition isEmptyBranch (children : list (option Node)) (branch : nat) : bool :=
  match childAt children branch with Some _ => false | None => true end.

Definition setChild (children : list (option Node)) (branch : nat) (child : option Node)
    : list (option Node) := <[branch := child]> children.

Definition getBranchCount (children : list (option Node)) : nat :=
  length (filter (fun b => isEmptyBranch children b = false) (seq 0 kBranchFactor)).

Definition makeTypedLeaf (type : SHAMapNodeType) (item : SHAMapItem) : MapResult Node :=
  match type with TnInner => LogicError | _ => Done (Leaf type item) end.

(** ** Hashes *)

Section Hash.
Context (sha512Half : list Z -> Z).

(** The bytes hashed for a leaf *)
Definition leafPreimage (type : SHAMapNodeType) (item : SHAMapItem) : list Z :=
  match type with
  | TnTransactionNm => prefixBytes TransactionId ++ item_data item
  | TnTransactionMd => prefixBytes TxNode ++ item_data item ++ beBytes 32 (item_key item)
  | _ => prefixBytes LeafNode ++ item_data item ++ beBytes 32 (item_key item)
  end.

(** The bytes hashed for an inner node with these hashes in its branches *)
Definition innerPreimage (hashes : list Z) : list Z :=
  prefixBytes InnerNode ++ concat (map (beBytes 32) hashes).

(** [updateHash] and [updateHashDeep] *)
Fixpoint nodeHash (n : Node) : Z :=
  match n with
  | Leaf type item => sha512Half (leafPreimage type item)
  | Inner children =>
      if existsb (fun c => match c with Some _ => true | None => false end) children then
        sha512Half (innerPreimage (map (fun c => match c with Some m => nodeHash m | None => 0 end) children))
      else 0
  end.
End Hash.

(** ** Walking *)

Definition NodePathStack : Type := list (Node * SHAMapNodeID).

Definition pushRoot (node : Node) : NodePathStack := [(node, rootID)].

Definition pushChild (node : Node) (branch : nat) (stack : NodePathStack) : MapResult NodePathStack :=
  match stack with
  | (_, id) :: _ =>
      let* childID := orLogicError (getChildNodeID id branch) in
      Done ((node, childID) :: stack)
  | [] => Null
  end.

Definition pushNode (node : Node) (target : Z) (stack : NodePathStack) : MapResult NodePathStack :=
  match stack with
  | [] => Done (pushRoot node)
  | (_, id) :: _ => pushChild node (selectBranch id target) stack
  end.

(** [walkTowardsKey]; the depth of the position bounds the loop, since a position at the
    leaf depth has no child. *)
Fixpoint walkLoop (fuel : nat) (inNode : Node) (nodeID : SHAMapNodeID) (id : Z) (stack : NodePathStack)
    : MapResult (NodePathStack * option (SHAMapNodeType * SHAMapItem)) :=
  let* stack := pushNode inNode id stack in
  match inNode with
  | Leaf type item => Done (stack, Some (type, item))
  | Inner children =>
      let branch := selectBranch nodeID id in
      match childAt children branch with
      | None => Done (stack, None)
      | Some child =>
          let* nodeID := orLogicError (getChildNodeID nodeID branch) in
          match fuel with
          | O => LogicError
          | S fuel => walkLoop fuel child nodeID id stack
          end
      end
  end.

Definition walkTowardsKey (root : Node) (id : Z)
    : MapResult (NodePathStack * option (SHAMapNodeType * SHAMapItem)) :=
  walkLoop kLeafDepth root rootID id [].

Definition findKey (root : Node) (id : Z) : MapResult (option (SHAMapNodeType * SHAMapItem)) :=
  let* r := walkTowardsKey root id in
  match r.2 with
  | Some (type, item) => Done (if item_key item =? id then Some (type, item) else None)
  | None => Done None
  end.

Definition peekItem (root : Node) (id : Z) : MapResult (option SHAMapItem) :=
  let* leaf := findKey root id in Done (option_map snd leaf).

Definition hasItem (root : Node) (id : Z) : MapResult bool :=
  let* leaf := findKey root id in Done (match leaf with Some _ => true | None => false end).

(** ** Modifying

    Each operation returns the value of the function and the root it leaves. *)

(** [dirtyUp]: the root after hooking [child] below the nodes of the stack *)
Fixpoint dirtyUp (stack : NodePathStack) (target : Z) (child : Node) : MapResult Node :=
  match stack with
  | [] => Done child
  | (Inner children, nodeID) :: stack =>
      dirtyUp stack target (Inner (setChild children (selectBranch nodeID target) (Some child)))
  | (Leaf _ _, _) :: _ => Null
  end.

(** The loop of [addGiveItem] that separates two keys, from a new inner node *)
Fixpoint splitLoop (fuel : nat) (nodeID : SHAMapNodeID) (tag otherKey : Z) (stack : NodePathStack)
    : MapResult (NodePathStack * nat * nat) :=
  let b1 := selectBranch nodeID tag in
  let b2 := selectBranch nodeID otherKey in
  if (b1 =? b2)%nat then
    let* stack := pushNode emptyInner tag stack in
    let* nodeID := orLogicError (getChildNodeID nodeID b1) in
    match fuel with
    | O => LogicError
    | S fuel => splitLoop fuel nodeID tag otherKey stack
    end
  else Done (stack, b1, b2).

Definition addGiveItem (root : Node) (type : SHAMapNodeType) (item : SHAMapItem) : MapResult (bool * Node) :=
  let tag := item_key item in
  let* r := walkTowardsKey root tag in
  match r.1 with
  | [] => MissingNode
  | (Inner children, nodeID) :: stack =>
      let branch := selectBranch nodeID tag in
      let* leaf := makeTypedLeaf type item in
      let* root := dirtyUp stack tag (Inner (setChild children branch (Some leaf))) in
      Done (true, root)
  | (Leaf _ otherItem, nodeID) :: stack =>
      if item_key otherItem =? tag then Done (false, root)
      else
        let* s := splitLoop kLeafDepth nodeID tag (item_key otherItem) stack in
        let '(stack, b1, b2) := s in
        let* leaf1 := makeTypedLeaf type item in
        let* leaf2 := makeTypedLeaf type otherItem in
        let children := replicate kBranchFactor None in
        let* root := dirtyUp stack tag
          (Inner (setChild (setChild children b1 (Some leaf1)) b2 (Some leaf2))) in
        Done (true, root)
  end.

Definition addItem (root : Node) (type : SHAMapNodeType) (item : SHAMapItem) : MapResult (bool * Node) :=
  addGiveItem root type item.

(** [onlyBelow]: the item below a node when there is only one *)
Fixpoint onlyBelow (n : Node) : option SHAMapItem :=
  match n with
  | Leaf _ item => Some item
  | Inner children =>
      match flat_map (fun c => match c with Some m => [onlyBelow m] | None => [] end) children with
      | [r] => r
      | _ => None
      end
  end.

(** What [delItem] attaches in place of an inner node, other than the root, that lost an
    item: nothing, the only item left, or the node *)
Definition pullUp (type : SHAMapNodeType) (children : list (option Node)) : MapResult (option Node) :=
  match getBranchCount children with
  | O => Done None
  | S O =>
      match onlyBelow (Inner children) with
      | Some item => let* leaf := makeTypedLeaf type item in Done (Some leaf)
      | None => Done (Some (Inner children))
      end
  | _ => Done (Some (Inner children))
  end.

(** The loop of [delItem]: [prevNode] is hooked below the top of the stack. *)
Fixpoint delLoop (root : Node) (stack : NodePathStack) (id : Z) (type : SHAMapNodeType) (prevNode : option Node)
    : MapResult Node :=
  match stack with
  | [] => Done root
  | (Leaf _ _, _) :: _ => Null
  | (Inner children, nodeID) :: stack =>
      let children := setChild children (selectBranch nodeID id) prevNode in
      if isRoot nodeID then delLoop (Inner children) stack id type None
      else let* prevNode := pullUp type children in delLoop root stack id type prevNode
  end.

Definition delItem (root : Node) (id : Z) : MapResult (bool * Node) :=
  let* r := walkTowardsKey root id in
  match r.1 with
  | [] => MissingNode
  | (Leaf type item, _) :: stack =>
      if negb (item_key item =? id) then Done (false, root)
      else let* root := delLoop root stack id type None in Done (true, root)
  | (Inner _, _) :: _ => Done (false, root)
  end.

(** [updateGiveItem]; [setItem] reports whether the leaf's hash changed.  When it did not, the
    code leaves the old item if the leaf is shared with another map, since the copy of the
    leaf is dropped, and has put the new one in its place if the leaf is its own.  Here the
    old item stays: the two have the same key and hash, so that they differ only when the
    digest collides. *)
Definition updateGiveItem (sha512Half : list Z -> Z) (root : Node) (type : SHAMapNodeType) (item : SHAMapItem)
    : MapResult (bool * Node) :=
  let tag := item_key item in
  let* r := walkTowardsKey root tag in
  match r.1 with
  | [] => MissingNode
  | (Leaf t old, _) :: stack =>
      if negb (item_key old =? tag) then Done (false, root)
      else if negb (bool_decide (t = type)) then Done (false, root)
      else if negb (nodeHash sha512Half (Leaf t old) =? nodeHash sha512Half (Leaf t item)) then
        let* root := dirtyUp stack tag (Leaf t item) in Done (true, root)
      else Done (true, root)
  | (Inner _, _) :: _ => Done (false, root)
  end.

(** ** Iterating *)

Inductive BelowDirection := First | Last.

(** The branches in the order they are scanned *)
Definition scanOrder (direction : BelowDirection) : list nat :=
  match direction with First => seq 0 kBranchFactor | Last => rev (seq 0 kBranchFactor) end.

(** The first branch of [branches] that is not empty *)
Fixpoint firstChild (children : list (option Node)) (branches : list nat) : option (nat * Node) :=
  match branches with
  | [] => None
  | b :: branches => match childAt children b with Some c => Some (b, c) | None => firstChild children branches end
  end.

(** [belowHelper], from the top of the stack *)
Fixpoint belowLoop (fuel : nat) (stack : NodePathStack) (direction : BelowDirection)
    : MapResult (NodePathStack * option SHAMapItem) :=
  match stack with
  | [] => Null
  | (Leaf _ item, _) :: _ => Done (stack, Some item)
  | (Inner children, _) :: _ =>
      match firstChild children (scanOrder direction) with
      | None => Done (stack, None)
      | Some (childBranch, child) =>
          let* stack := pushChild child childBranch stack in
          match fuel with
          | O => LogicError
          | S fuel => belowLoop fuel stack direction
          end
      end
  end.

Definition belowHelper (stack : NodePathStack) (direction : BelowDirection)
    : MapResult (NodePathStack * option SHAMapItem) := belowLoop kLeafDepth stack direction.

Definition peekFirstItem (root : Node) : MapResult (NodePathStack * option SHAMapItem) :=
  let* r := belowHelper (pushRoot root) First in
  match r.2 with None => Done ([], None) | Some _ => Done r end.

(** The loop of [peekNextItem], after the leaf has been popped *)
Fixpoint nextLoop (stack : NodePathStack) (id : Z) : MapResult (NodePathStack * option SHAMapItem) :=
  match stack with
  | [] => Done ([], None)
  | (Leaf _ _, _) :: _ => Null
  | (Inner children, nodeID) :: rest =>
      let from := S (selectBranch nodeID id) in
      match firstChild children (seq from (kBranchFactor - from)) with
      | Some (i, child) =>
          let* stack := pushChild child i stack in
          let* r := belowHelper stack First in
          match r.2 with None => MissingNode | Some _ => Done r end
      | None => nextLoop rest id
      end
  end.

Definition peekNextItem (id : Z) (stack : NodePathStack) : MapResult (NodePathStack * option SHAMapItem) :=
  nextLoop (tail stack) id.

(** The loop of [boundHelper] *)
Fixpoint boundLoop (stack : NodePathStack) (id : Z) (direction : BelowDirection)
    : MapResult (NodePathStack * option SHAMapItem) :=
  match stack with
  | [] => Done ([], None)
  | (Leaf _ item, _) :: rest =>
      if (match direction with First => id <? item_key item | Last => item_key item <? id end)
      then Done (stack, Some item) else boundLoop rest id direction
  | (Inner children, nodeID) :: rest =>
      let taken := selectBranch nodeID id in
      let branches := match direction with
                      | First => seq (S taken) (kBranchFactor - 1 - taken)
                      | Last => rev (seq 0 taken)
                      end in
      match firstChild children branches with
      | Some (branch, child) =>
          let* stack := pushChild child branch stack in
          let* r := belowHelper stack direction in
          match r.2 with None => MissingNode | Some _ => Done r end
      | None => boundLoop rest id direction
      end
  end.

Definition boundHelper (root : Node) (id : Z) (direction : BelowDirection)
    : MapResult (NodePathStack * option SHAMapItem) :=
  let* r := walkTowardsKey root id in boundLoop r.1 id direction.

Definition upperBound (root : Node) (id : Z) := boundHelper root id First.
Definition lowerBound (root : Node) (id : Z) := boundHelper root id Last.

(** Iterating from [begin()]: the items in the order [operator++] visits them *)
Fixpoint iterateFrom (fuel : nat) (stack : NodePathStack) (item : option SHAMapItem) : MapResult (list SHAMapItem) :=
  match item with
  | None => Done []
  | Some item =>
      let* r := peekNextItem (item_key item) stack in
      match fuel with
      | O => Null
      | S fuel => let* rest := iterateFrom fuel r.1 r.2 in Done (item :: rest)
      end
  end.

Definition iterate (fuel : nat) (root : Node) : MapResult (list SHAMapItem) :=
  let* r := peekFirstItem root in iterateFrom fuel r.1 r.2.

(** ** Comparing *)

Abbreviation Delta := (gmap Z (option SHAMapItem * option SHAMapItem)).

(** [std::map::insert] leaves an entry that is there. *)
Definition deltaInsert (key : Z) (v : option SHAMapItem * option SHAMapItem) (d : Delta) : Delta :=
  match d !! key with Some _ => d | None => <[key := v]> d end.

(** The differences so far and the count left; [false] is the early return of [false]. *)
Definition Found : Type := bool * Delta * Z.

(** [differences.insert(...); if (--maxCount <= 0) return false] *)
Definition record (key : Z) (v : option SHAMapItem * option SHAMapItem) (differences : Delta) (maxCount : Z) : Found :=
  let maxCount := maxCount - 1 in (negb (maxCount <=? 0), deltaInsert key v differences, maxCount).

Definition sided (isFirstMap : bool) (item other : option SHAMapItem) : option SHAMapItem * option SHAMapItem :=
  if isFirstMap then (item, other) else (other, item).

(** [walkBranch], with its stack *)
Fixpoint walkBranchLoop (fuel : nat) (nodeStack : list Node) (otherMapItem : option SHAMapItem) (isFirstMap : bool)
    (emptyBranch : bool) (differences : Delta) (maxCount : Z) : MapResult (bool * Found) :=
  match nodeStack with
  | [] => Done (emptyBranch, (true, differences, maxCount))
  | node :: nodeStack =>
      match fuel with
      | O => Null
      | S fuel =>
          match node with
          | Inner children =>
              walkBranchLoop fuel (rev (omap id children) ++ nodeStack) otherMapItem isFirstMap emptyBranch
                differences maxCount
          | Leaf _ item =>
              let continue emptyBranch (r : Found) :=
                let '(go, differences, maxCount) := r in
                if go then walkBranchLoop fuel nodeStack otherMapItem isFirstMap emptyBranch differences maxCount
                else Done (emptyBranch, r) in
              match otherMapItem with
              | Some other =>
                  if emptyBranch || negb (item_key item =? item_key other) then
                    continue emptyBranch (record (item_key item) (sided isFirstMap (Some item) None) differences maxCount)
                  else if negb (bool_decide (item_data item = item_data other)) then
                    continue true (record (item_key item) (sided isFirstMap (Some item) (Some other)) differences maxCount)
                  else continue true (true, differences, maxCount)
              | None =>
                  continue emptyBranch (record (item_key item) (sided isFirstMap (Some item) None) differences maxCount)
              end
          end
      end
  end.

(** The nodes of a tree, a bound on the iterations *)
Fixpoint nodeSize (n : Node) : nat :=
  match n with
  | Leaf _ _ => 1
  | Inner children => S (list_sum (map (fun c => match c with Some m => nodeSize m | None => O end) children))
  end.

Definition walkBranch (node : Node) (otherMapItem : option SHAMapItem) (isFirstMap : bool)
    (differences : Delta) (maxCount : Z) : MapResult Found :=
  let emptyBranch := match otherMapItem with Some _ => false | None => true end in
  let* r := walkBranchLoop (nodeSize node) [node] otherMapItem isFirstMap emptyBranch differences maxCount in
  let '(emptyBranch, (go, differences, maxCount)) := r in
  if negb go then Done (go, differences, maxCount)
  else
    match emptyBranch, otherMapItem with
    | false, Some other => Done (record (item_key other) (sided isFirstMap None (Some other)) differences maxCount)
    | _, _ => Done (true, differences, maxCount)
    end.

Section Compare.
Context (sha512Half : list Z -> Z).

(** [getChildHash] *)
Definition getChildHash (children : list (option Node)) (branch : nat) : Z :=
  match childAt children branch with Some m => nodeHash sha512Half m | None => 0 end.

(** One branch of two inner nodes *)
Definition compareBranch (ours other : list (option Node)) (acc : MapResult (list (Node * Node) * Found)) (i : nat)
    : MapResult (list (Node * Node) * Found) :=
  let* a := acc in
  let '(nodeStack, (go, differences, maxCount)) := a in
  if negb go then acc
  else if getChildHash ours i =? getChildHash other i then acc
  else
    match childAt ours i, childAt other i with
    | Some o, Some t => Done ((o, t) :: nodeStack, (go, differences, maxCount))
    | Some o, None => let* f := walkBranch o None true differences maxCount in Done (nodeStack, f)
    | None, Some t => let* f := walkBranch t None false differences maxCount in Done (nodeStack, f)
    | None, None => Null
    end.

Fixpoint compareLoop (fuel : nat) (nodeStack : list (Node * Node)) (differences : Delta) (maxCount : Z)
    : MapResult Found :=
  match nodeStack with
  | [] => Done (true, differences, maxCount)
  | (ourNode, otherNode) :: nodeStack =>
      match fuel with
      | O => Null
      | S fuel =>
          let continue nodeStack (r : Found) :=
            let '(go, differences, maxCount) := r in
            if go then compareLoop fuel nodeStack differences maxCount else Done r in
          match ourNode, otherNode with
          | Leaf _ ours, Leaf _ other =>
              if item_key ours =? item_key other then
                if negb (bool_decide (item_data ours = item_data other)) then
                  continue nodeStack (record (item_key ours) (Some ours, Some other) differences maxCount)
                else continue nodeStack (true, differences, maxCount)
              else
                let '(go, d, c) := record (item_key ours) (Some ours, None) differences maxCount in
                if negb go then Done (go, d, c)
                else continue nodeStack (record (item_key other) (None, Some other) d c)
          | Inner _, Leaf _ other =>
              let* f := walkBranch ourNode (Some other) true differences maxCount in continue nodeStack f
          | Leaf _ ours, Inner _ =>
              let* f := walkBranch otherNode (Some ours) false differences maxCount in continue nodeStack f
          | Inner ours, Inner other =>
              let* a := foldl (compareBranch ours other) (Done (nodeStack, (true, differences, maxCount)))
                          (seq 0 kBranchFactor) in
              continue a.1 a.2
          end
      end
  end.

Definition compare (root other : Node) (differences : Delta) (maxCount : Z) : MapResult (bool * Delta) :=
  if nodeHash sha512Half root =? nodeHash sha512Half other then Done (true, differences)
  else
    let* f := compareLoop (nodeSize root + nodeSize other) [(root, other)] differences maxCount in
    let '(go, differences, _) := f in Done (go, differences).
End Compare.
