(* ===== verification/ShaMapFacts.v ===== *)
(** * SHAMap: the invariant

    A well-formed tree: every leaf lies on the path of its key, and every inner node but
    the root has two items below it.  The items of a tree, the walk towards a key, and the
    operations as operations on the items. *)
From S2P Require Import Prelude Digits HashPrefix NodeID ShaMap.

(** ** Items *)

Fixpoint items (n : Node) : list SHAMapItem :=
  match n with
  | Leaf _ item => [item]
  | Inner children => concat (map (fun c => match c with Some m => items m | None => [] end) children)
  end.

Lemma childAt_lookup cs b c : childAt cs b = Some c <-> cs !! b = Some (Some c).
Proof. unfold childAt. destruct (cs !! b) as [[m|]|]; cbn; split; congruence. Qed.

Lemma elem_of_items_inner cs x : x ∈ items (Inner cs) <-> exists b c, childAt cs b = Some c /\ x ∈ items c.
Proof.
  cbn [items]. rewrite list_elem_of_In, in_concat. split.
  - intros (l & Hl & Hx). apply in_map_iff in Hl as (o & <- & Ho). destruct o as [c|]; [|done].
    apply list_elem_of_In, list_elem_of_lookup in Ho as [b Hb]. exists b, c. rewrite childAt_lookup.
    split; [done|]. by apply list_elem_of_In.
  - intros (b & c & Hc & Hx). rewrite childAt_lookup in Hc. exists (items c). split; [|by apply list_elem_of_In].
    apply in_map_iff. exists (Some c). split; [done|]. apply list_elem_of_In. by eapply list_elem_of_lookup_2.
Qed.

(** ** Well-formed trees *)

(** At depth [d] and with prefix [p]; the root is at depth zero. *)
Inductive wfNode (type : SHAMapNodeType) : nat -> Z -> Node -> Prop :=
| wfLeaf d p item :
    (0 < d <= 64)%nat -> isKey (item_key item) -> prefix (item_key item) d = p ->
    wfNode type d p (Leaf type item)
| wfInner d p cs :
    (d < 64)%nat -> length cs = kBranchFactor ->
    (forall b c, childAt cs b = Some c -> wfNode type (S d) (p * 16 + Z.of_nat b) c) ->
    ((0 < d)%nat -> exists x y, x ∈ items (Inner cs) /\ y ∈ items (Inner cs) /\ item_key x <> item_key y) ->
    wfNode type d p (Inner cs).

Definition wfRoot (type : SHAMapNodeType) (n : Node) : Prop := wfNode type 0 0 n.

(** Of the whole key, what the position of a node fixes. *)
Lemma items_prefix type d p n x :
  wfNode type d p n -> x ∈ items n -> isKey (item_key x) /\ prefix (item_key x) d = p.
Proof.
  intros Hn. revert x. induction Hn as [d p item Hd Hk Hp|d p cs Hd Hl Hc IH Htwo]; intros x Hx.
  - apply list_elem_of_singleton in Hx as ->. done.
  - apply elem_of_items_inner in Hx as (b & c & Hb & Hx). destruct (IH b c Hb x Hx) as [Hk Hp]. split; [done|].
    rewrite prefix_S in Hp by done. pose proof (nibble_range (item_key x) d).
    assert (b < 16)%nat; [|lia]. apply childAt_lookup, lookup_lt_Some in Hb. rewrite Hl in Hb. exact Hb.
Qed.

Lemma childAt_range type d p cs b c : wfNode type d p (Inner cs) -> childAt cs b = Some c -> (b < 16)%nat.
Proof. intros Hn Hb. inversion Hn; subst. apply childAt_lookup, lookup_lt_Some in Hb. unfold kBranchFactor in *. lia. Qed.

(** An item lies in the branch its key selects. *)
Lemma items_branch type d p cs b c x :
  wfNode type d p (Inner cs) -> childAt cs b = Some c -> x ∈ items c -> Z.of_nat b = nibble (item_key x) d.
Proof.
  intros Hn Hb Hx. pose proof (childAt_range _ _ _ _ _ _ Hn Hb). inversion Hn as [|? ? ? Hd Hl Hc Htwo]; subst.
  destruct (items_prefix _ _ _ _ _ (Hc b c Hb) Hx) as [_ Hp]. rewrite prefix_S in Hp by done.
  pose proof (nibble_range (item_key x) d).
  assert (prefix (item_key x) d = p); [|lia].
  apply (items_prefix _ _ _ _ x Hn). apply elem_of_items_inner. by exists b, c.
Qed.

(** The items of an inner node with a given prefix of nibbles. *)
Lemma items_inner_select type d p cs x :
  wfNode type d p (Inner cs) ->
  x ∈ items (Inner cs) <-> exists c, childAt cs (Z.to_nat (nibble (item_key x) d)) = Some c /\ x ∈ items c.
Proof.
  intros Hn. rewrite elem_of_items_inner. split.
  - intros (b & c & Hb & Hx). exists c. rewrite <-(items_branch _ _ _ _ _ _ _ Hn Hb Hx), Nat2Z.id. done.
  - intros (c & Hb & Hx). by eexists _, c.
Qed.

(** A key is held once. *)
Lemma items_unique type d p n x y :
  wfNode type d p n -> x ∈ items n -> y ∈ items n -> item_key x = item_key y -> x = y.
Proof.
  intros Hn. revert x y. induction Hn as [d p item Hd Hk Hp|d p cs Hd Hl Hc IH Htwo]; intros x y Hx Hy E.
  - apply list_elem_of_singleton in Hx as ->, Hy as ->. done.
  - assert (Hn : wfNode type d p (Inner cs)) by by constructor.
    rewrite (items_inner_select _ _ _ _ x Hn) in Hx. rewrite (items_inner_select _ _ _ _ y Hn) in Hy. rewrite E in Hx. destruct Hx as (c & Hb & Hx), Hy as (c' & Hb' & Hy).
    rewrite Hb in Hb'. injection Hb' as <-. by apply (IH _ _ Hb).
Qed.

(** Below the root, no node is empty. *)
Lemma items_nonempty type d p n : wfNode type d p n -> (0 < d)%nat -> exists x, x ∈ items n.
Proof.
  intros Hn Hd. inversion Hn as [? ? item|? ? cs Hd' Hl Hc Htwo]; subst; [exists item; by apply list_elem_of_singleton|].
  destruct (Htwo Hd) as (x & y & Hx & _). by exists x.
Qed.

(** Changing one branch. *)
Lemma childAt_setChild cs b b' o :
  (b < length cs)%nat -> childAt (setChild cs b o) b' = if decide (b = b') then o else childAt cs b'.
Proof.
  intros Hb. unfold childAt, setChild. destruct (decide (b = b')) as [<-|Hne].
  - by rewrite list_lookup_insert_eq.
  - by rewrite list_lookup_insert_ne.
Qed.

Definition itemsOf (o : option Node) : list SHAMapItem := match o with Some n => items n | None => [] end.
Definition wfOpt (type : SHAMapNodeType) (d : nat) (p : Z) (o : option Node) : Prop :=
  match o with Some n => wfNode type d p n | None => True end.

Lemma items_setChild type d p cs b o x :
  wfNode type d p (Inner cs) -> (b < 16)%nat -> wfOpt type (S d) (p * 16 + Z.of_nat b) o ->
  x ∈ items (Inner (setChild cs b o)) <->
    x ∈ itemsOf o \/ (x ∈ items (Inner cs) /\ Z.to_nat (nibble (item_key x) d) <> b).
Proof.
  intros Hn Hb Ho. inversion Hn as [|? ? ? Hd Hl Hc Htwo]; subst. unfold kBranchFactor in Hl.
  rewrite elem_of_items_inner. split.
  - intros (b' & c & Hc' & Hx). rewrite childAt_setChild in Hc' by lia. destruct (decide (b = b')) as [<-|Hne].
    + left. by rewrite Hc'.
    + right. split; [apply elem_of_items_inner; by exists b', c|].
      rewrite <-(items_branch _ _ _ _ _ _ _ Hn Hc' Hx), Nat2Z.id. congruence.
  - intros [Hx|[Hx Hne]].
    + destruct o as [c|]; [|by apply not_elem_of_nil in Hx]. exists b, c. rewrite childAt_setChild, decide_True by lia || done. done.
    + rewrite (items_inner_select _ _ _ _ _ Hn) in Hx. destruct Hx as (c & Hc' & Hx).
      exists (Z.to_nat (nibble (item_key x) d)), c. rewrite childAt_setChild, decide_False by lia || congruence. done.
Qed.

(** ** Walking *)

(** A stack whose next push, on the way to [k], is at depth [d]. *)
Definition stackAt (k : Z) (d : nat) (st : NodePathStack) : Prop :=
  match st with
  | [] => d = O
  | (_, id) :: _ => exists d0, d = S d0 /\ (d0 < 64)%nat /\ id = createID d0 k
  end.

Lemma pushNode_at k d st n :
  isKey k -> stackAt k d st -> pushNode n k st = Done ((n, createID d k) :: st).
Proof.
  intros Hk. unfold pushNode, pushRoot, pushChild. destruct st as [|[m id] st]; cbn [stackAt].
  - intros ->. by rewrite createID_root.
  - intros (d0 & -> & Hd & ->). by rewrite getChildNodeID_select.
Qed.

(** The way from [n] at depth [d], with [st] above it, down towards [k]: it ends at [n'],
    at depth [d'], with the stack [st']. *)
Inductive Zip (k : Z) : NodePathStack -> nat -> Node -> nat -> Node -> NodePathStack -> Prop :=
| ZipHere st d n : Zip k st d n d n st
| ZipDown st d cs c d' n' st' :
    childAt cs (Z.to_nat (nibble k d)) = Some c ->
    Zip k ((Inner cs, createID d k) :: st) (S d) c d' n' st' ->
    Zip k st d (Inner cs) d' n' st'.

Definition leafOf (n : Node) : option (SHAMapNodeType * SHAMapItem) :=
  match n with Leaf type item => Some (type, item) | Inner _ => None end.

(** Where a walk to [k] stops. *)
Definition stopsAt (k : Z) (d : nat) (n : Node) : Prop :=
  match n with Leaf _ _ => True | Inner cs => childAt cs (Z.to_nat (nibble k d)) = None end.

Lemma walkLoop_zip type k d p n : forall fuel st,
  wfNode type d p n -> isKey k -> stackAt k d st -> (64 <= fuel + d)%nat ->
  exists d' n' st', walkLoop fuel n (createID d k) k st = Done ((n', createID d' k) :: st', leafOf n') /\
  Zip k st d n d' n' st' /\ stopsAt k d' n'.
Proof.
  intros fuel st Hn. revert fuel st. induction Hn as [d p item Hd Hik Hp|d p cs Hd Hl Hc IH Htwo]; intros fuel st Hk Hst Hf.
  - exists d, (Leaf type item), st. destruct fuel; cbn [walkLoop]; rewrite (pushNode_at k d) by done; (split; [done|]; split; [constructor|done]).
  - assert (E : walkLoop fuel (Inner cs) (createID d k) k st =
      match childAt cs (Z.to_nat (nibble k d)) with
      | None => Done ((Inner cs, createID d k) :: st, None)
      | Some child => match fuel with O => LogicError
          | S fuel => walkLoop fuel child (createID (S d) k) k ((Inner cs, createID d k) :: st) end
      end).
    { destruct fuel; cbn [walkLoop]; rewrite (pushNode_at k d) by done; cbn [mbind_]; rewrite selectBranch_path by done;
        (destruct (childAt cs _); [|done]); by rewrite getChildNodeID_path. }
    rewrite E. clear E. destruct (childAt cs (Z.to_nat (nibble k d))) as [c|] eqn:Ec.
    + destruct fuel as [|fuel]; [lia|].
      destruct (IH _ _ Ec fuel ((Inner cs, createID d k) :: st)) as (d' & n' & st' & -> & Hz & Hs); [done| |lia|].
      { exists d. done. }
      exists d', n', st'. split; [done|]. split; [|done]. by apply (ZipDown _ _ _ _ c).
    + exists d, (Inner cs), st. split; [done|]. split; [constructor|done].
Qed.

Lemma walk_root type root k :
  wfRoot type root -> isKey k ->
  exists d' n' st', walkTowardsKey root k = Done ((n', createID d' k) :: st', leafOf n') /\
  Zip k [] 0 root d' n' st' /\ stopsAt k d' n'.
Proof.
  intros Hr Hk. unfold walkTowardsKey. rewrite <-(createID_root k Hk).
  apply (walkLoop_zip type k 0 0 root); [done|done|done|unfold kLeafDepth; lia].
Qed.

(** A node reached is well-formed, at the prefix of the key, and holds the items with a
    key that walks there. *)
Lemma Zip_wf type k st d n d' n' st' p :
  Zip k st d n d' n' st' -> wfNode type d p n -> isKey k -> prefix k d = p ->
  wfNode type d' (prefix k d') n' /\ (d <= d')%nat /\
  (forall x, item_key x = k -> x ∈ items n <-> x ∈ items n').
Proof.
  intros Hz. revert p. induction Hz as [st d n|st d cs c d' n' st' Hc Hz IH]; intros p Hn Hk Hp; [subst p; done|].
  pose proof Hn as Hn'. inversion Hn' as [|? ? ? Hd Hl Hcs Htwo]; subst.
  pose proof (nibble_range k d) as Hr. pose proof (Hcs _ _ Hc) as Hcw. rewrite Z2Nat.id in Hcw by lia.
  rewrite <-prefix_S in Hcw by done. destruct (IH _ Hcw Hk eq_refl) as (H1 & H2 & H3). split; [done|]. split; [lia|].
  intros x Ex. rewrite <-H3 by done. rewrite (items_inner_select _ _ _ _ x Hn), Ex. rewrite Hc.
  split; [intros (c' & [= <-] & Hx); done|intros Hx; by exists c].
Qed.

(** What a stopped walk tells about the key. *)
Lemma stopsAt_items type k d n :
  wfNode type d (prefix k d) n -> stopsAt k d n ->
  (forall x, item_key x = k -> x ∈ items n <-> leafOf n = Some (type, x)).
Proof.
  intros Hn Hs x Ex. destruct n as [t item|cs]; cbn [leafOf items] in *.
  - inversion Hn; subst. rewrite list_elem_of_singleton. split; [by intros ->|by intros [= ->]].
  - rewrite (items_inner_select _ _ _ _ x Hn), Ex. cbn [stopsAt] in Hs. rewrite Hs. split; [by intros (c & ? & _)|done].
Qed.

(** Looking up finds the item with the key. *)
Lemma findKey_spec type root k :
  wfRoot type root -> isKey k ->
  exists r, findKey root k = Done r /\ (forall x, r = Some x <-> x.1 = type /\ x.2 ∈ items root /\ item_key x.2 = k).
Proof.
  intros Hr Hk. destruct (walk_root type root k Hr Hk) as (d & n & st & E & Hz & Hs).
  destruct (Zip_wf _ _ _ _ _ _ _ _ _ Hz Hr Hk (prefix_0 k Hk)) as (Hn & _ & Hit).
  pose proof (stopsAt_items _ _ _ _ Hn Hs) as Hst. unfold findKey. rewrite E. cbn [mbind_ snd].
  destruct n as [t item|cs]; cbn [leafOf] in *.
  - assert (t = type) as -> by by inversion Hn. eexists. split; [done|].
    intros [t x]. cbn [fst snd]. destruct (Z.eqb_spec (item_key item) k) as [Ek|Hne]; split.
    + intros [= <- <-]. split; [done|]. split; [|done]. rewrite Hit by done. by rewrite Hst.
    + intros (-> & Hx & Ex). rewrite Hit, Hst in Hx by done. congruence.
    + done.
    + intros (-> & Hx & Ex). rewrite Hit, Hst in Hx by done. injection Hx as ->. done.
  - eexists. split; [done|]. intros [t x]. split; [done|]. cbn. intros (-> & Hx & Ex). rewrite Hit, Hst in Hx by done. done.
Qed.

(** ** Adding *)

(** The items [old] with [it] in place of what had its key. *)
Definition replaced (it : SHAMapItem) (old new : list SHAMapItem) : Prop :=
  forall x, x ∈ new <-> x = it \/ (x ∈ old /\ item_key x <> item_key it).

Lemma wf_setChild type d p cs k o :
  wfNode type d p (Inner cs) -> isKey k -> prefix k d = p -> wfOpt type (S d) (prefix k (S d)) o ->
  ((0 < d)%nat -> exists x y, x ∈ items (Inner (setChild cs (Z.to_nat (nibble k d)) o)) /\
     y ∈ items (Inner (setChild cs (Z.to_nat (nibble k d)) o)) /\ item_key x <> item_key y) ->
  wfNode type d p (Inner (setChild cs (Z.to_nat (nibble k d)) o)).
Proof.
  intros Hn Hk Hp Ho Htwo'. inversion Hn as [|? ? ? Hd Hl Hc Htwo]; subst. pose proof (nibble_range k d).
  constructor; [done|by unfold setChild; rewrite length_insert| |done].
  intros b c. rewrite childAt_setChild by (unfold kBranchFactor in *; lia). destruct (decide (_ = b)) as [<-|]; [|apply Hc].
  intros ->. rewrite Z2Nat.id, <-prefix_S by (done || lia). done.
Qed.

Lemma items_setChild_key type d cs k o x :
  wfNode type d (prefix k d) (Inner cs) -> isKey k -> wfOpt type (S d) (prefix k (S d)) o ->
  x ∈ items (Inner (setChild cs (Z.to_nat (nibble k d)) o)) <->
    x ∈ itemsOf o \/ (x ∈ items (Inner cs) /\ nibble (item_key x) d <> nibble k d).
Proof.
  intros Hn Hk Ho. inversion Hn as [|? ? ? Hd _ _ _]; subst.
  pose proof (nibble_range k d). pose proof (nibble_range (item_key x) d).
  rewrite (items_setChild type d (prefix k d)); [|done|lia|by rewrite Z2Nat.id, <-prefix_S by (done || lia)].
  split; (intros [?|[? Hne]]; [by left|right; split; [done|]; lia]).
Qed.

Lemma wf_replace type d cs c it :
  let k := item_key it in
  let b := Z.to_nat (nibble k d) in
  wfNode type d (prefix k d) (Inner cs) -> isKey k -> wfNode type (S d) (prefix k (S d)) c ->
  replaced it (itemsOf (childAt cs b)) (items c) ->
  wfNode type d (prefix k d) (Inner (setChild cs b (Some c))) /\
  replaced it (items (Inner cs)) (items (Inner (setChild cs b (Some c)))).
Proof.
  intros k b Hn Hk Hc Hr.
  assert (Hitems : replaced it (items (Inner cs)) (items (Inner (setChild cs b (Some c))))).
  { intros x. unfold b. rewrite (items_setChild_key type d cs k (Some c)) by done. cbn [itemsOf]. rewrite (Hr x).
    rewrite (items_inner_select _ _ _ _ x Hn). split.
    - intros [[->|[Hx Hne]]|[(c' & Hc' & Hx) Hne]]; [by left| |].
      + right. split; [|done]. destruct (childAt cs b) as [c0|] eqn:E0; [|by apply not_elem_of_nil in Hx].
        exists c0. cbn [itemsOf] in Hx. rewrite <-(items_branch _ _ _ _ _ _ _ Hn E0 Hx), Nat2Z.id. done.
      + right. split; [by exists c'|]. intros E. apply Hne. by rewrite E.
    - intros [->|[(c' & Hc' & Hx) Hne]]; [by left; left|]. destruct (decide (nibble (item_key x) d = nibble k d)) as [E|E].
      + left. right. split; [|done]. unfold b. rewrite <-E, Hc'. done.
      + right. split; [by exists c'|done]. }
  split; [|done]. apply wf_setChild; try done. intros Hd. inversion Hn as [|? ? ? _ _ _ Htwo]; subst.
  destruct (Htwo Hd) as (x & y & Hx & Hy & Hxy). fold b k. destruct (decide (item_key x = item_key it)) as [Ex|Ex].
  - exists it, y. split; [by apply Hitems; left|]. split; [apply Hitems; right; split; congruence|congruence].
  - destruct (decide (item_key y = item_key it)) as [Ey|Ey].
    + exists x, it. split; [by apply Hitems; right|]. split; [by apply Hitems; left|congruence].
    + exists x, y. split; [by apply Hitems; right|]. split; [by apply Hitems; right|done].
Qed.

(** Hooking a changed node below the stack of a walk changes the tree. *)
Lemma dirtyUp_zip type it st d n d' n' st' new' :
  let k := item_key it in
  Zip k st d n d' n' st' -> wfNode type d (prefix k d) n -> isKey k ->
  wfNode type d' (prefix k d') new' -> replaced it (items n') (items new') ->
  exists new, dirtyUp st' k new' = dirtyUp st k new /\ wfNode type d (prefix k d) new /\ replaced it (items n) (items new).
Proof.
  intros k Hz. revert new'. induction Hz as [st d n|st d cs c d' n' st' Hc Hz IH]; intros new' Hn Hk Hn' Hr.
  { by exists new'. }
  pose proof Hn as Hi. inversion Hi as [|? ? ? Hd Hl Hcs Htwo]; subst. pose proof (nibble_range k d).
  pose proof (Hcs _ _ Hc) as Hcw. rewrite Z2Nat.id, <-prefix_S in Hcw by (done || lia).
  destruct (IH new' Hcw Hk Hn' Hr) as (new & E & Hw & Hrep). rewrite E. cbn [dirtyUp]. rewrite selectBranch_path by done.
  destruct (wf_replace type d cs new it Hn Hk Hw) as [W R]; [by fold k; rewrite Hc|].
  eexists. split; [done|]. done.
Qed.

(** Separating two keys that walk to the same place. *)
Lemma splitLoop_spec k k' : forall fuel d st,
  isKey k -> isKey k' -> k <> k' -> prefix k d = prefix k' d -> (d <= 64)%nat -> (64 <= fuel + d)%nat -> stackAt k d st ->
  exists j st', splitLoop fuel (createID d k) k k' st = Done (st', Z.to_nat (nibble k j), Z.to_nat (nibble k' j)) /\
  (d <= j < 64)%nat /\ prefix k j = prefix k' j /\ nibble k j <> nibble k' j /\
  st' = rev (map (fun i => (emptyInner, createID i k)) (seq d (j - d))) ++ st.
Proof.
  intros fuel. induction fuel as [|fuel IH]; intros d st Hk Hk' Hne Hp Hd Hf Hst.
  { assert (d = 64)%nat as -> by lia. rewrite !prefix_64 in Hp. done. }
  assert (Hd' : (d < 64)%nat).
  { destruct (Nat.eq_dec d 64) as [->|]; [|lia]. rewrite !prefix_64 in Hp. done. }
  pose proof (nibble_range k d). pose proof (nibble_range k' d). cbn [splitLoop].
  rewrite selectBranch_path, selectBranch_nibble by (try rewrite createID_depth; lia). rewrite createID_depth by lia.
  destruct (Nat.eqb_spec (Z.to_nat (nibble k d)) (Z.to_nat (nibble k' d))) as [E|E].
  - rewrite (pushNode_at k d) by done. cbn [mbind_]. rewrite getChildNodeID_path by done. cbn [orLogicError mbind_].
    destruct (IH (S d) ((emptyInner, createID d k) :: st)) as (j & st' & Es & Hj & Hpj & Hnj & ->); try done; try lia.
    { rewrite !prefix_S, Hp by lia. lia. } { by exists d. }
    exists j. eexists. split; [exact Es|]. split; [lia|]. split; [done|]. split; [done|].
    replace (j - d)%nat with (S (j - S d)) by lia. cbn [seq map rev]. by rewrite <-app_assoc.
  - exists d, st. split; [done|]. split; [lia|]. split; [done|]. split; [intros En; by rewrite En in E|].
    by rewrite Nat.sub_diag.
Qed.

Lemma childAt_empty b : childAt (replicate kBranchFactor None) b = None.
Proof.
  unfold childAt. destruct (replicate kBranchFactor None !! b) as [o|] eqn:E; [|done].
  apply lookup_replicate in E as [-> _]. done.
Qed.

(** A new inner node above one that holds two items. *)
Lemma wf_single type d k n :
  (d < 64)%nat -> isKey k -> wfNode type (S d) (prefix k (S d)) n ->
  (exists x y, x ∈ items n /\ y ∈ items n /\ item_key x <> item_key y) ->
  let m := Inner (setChild (replicate kBranchFactor None) (Z.to_nat (nibble k d)) (Some n)) in
  wfNode type d (prefix k d) m /\ (forall x, x ∈ items m <-> x ∈ items n).
Proof.
  intros Hd Hk Hn (x & y & Hx & Hy & Hxy) m. pose proof (nibble_range k d) as Hr.
  assert (Hch : forall b, childAt (setChild (replicate kBranchFactor None) (Z.to_nat (nibble k d)) (Some n)) b =
    if decide (Z.to_nat (nibble k d) = b) then Some n else None).
  { intros b. rewrite childAt_setChild by (rewrite length_replicate; unfold kBranchFactor; lia). by rewrite childAt_empty. }
  assert (Hit : forall z, z ∈ items m <-> z ∈ items n).
  { intros z. unfold m. rewrite elem_of_items_inner. split.
    - intros (b & c & Hc & Hz). rewrite Hch in Hc. destruct (decide _); [|done]. by injection Hc as <-.
    - intros Hz. exists (Z.to_nat (nibble k d)), n. by rewrite Hch, decide_True. }
  split; [|done]. constructor; [done|by unfold setChild; rewrite length_insert, length_replicate| |].
  - intros b c Hc. rewrite Hch in Hc. destruct (decide _) as [<-|]; [|done]. injection Hc as <-.
    by rewrite Z2Nat.id, <-prefix_S by lia.
  - intros _. exists x, y. fold m. by rewrite !Hit.
Qed.

(** The chain of new inner nodes [addGiveItem] pushes. *)
Lemma dirtyUp_chain type k st d : forall m n,
  (d + m < 64)%nat -> isKey k -> wfNode type (d + m) (prefix k (d + m)) n ->
  (exists x y, x ∈ items n /\ y ∈ items n /\ item_key x <> item_key y) ->
  exists n', dirtyUp (rev (map (fun i => (emptyInner, createID i k)) (seq d m)) ++ st) k n = dirtyUp st k n' /\
  wfNode type d (prefix k d) n' /\ (forall x, x ∈ items n' <-> x ∈ items n).
Proof.
  induction m as [|m IH]; intros n Hd Hk Hn Htwo; [rewrite Nat.add_0_r in Hn; by exists n|].
  rewrite seq_S, map_app, rev_app_distr. cbn [map rev app dirtyUp]. unfold emptyInner at 1. rewrite selectBranch_path by lia.
  replace (d + S m)%nat with (S (d + m)) in Hn by lia.
  destruct (wf_single type (d + m) k n ltac:(lia) Hk Hn Htwo) as [W I].
  set (n1 := Inner _) in *. destruct (IH n1) as (n' & E & W' & I'); [lia|done|done| |].
  { destruct Htwo as (x & y & Hx & Hy & Hxy). exists x, y. by rewrite !I. }
  exists n'. split; [exact E|]. split; [done|]. intros x. by rewrite I', I.
Qed.

(** The node that holds the two leaves. *)
Lemma wf_pair type d it other :
  let k := item_key it in
  let k' := item_key other in
  (d < 64)%nat -> isKey k -> isKey k' -> prefix k d = prefix k' d -> nibble k d <> nibble k' d ->
  let n := Inner (setChild (setChild (replicate kBranchFactor None) (Z.to_nat (nibble k d)) (Some (Leaf type it)))
              (Z.to_nat (nibble k' d)) (Some (Leaf type other))) in
  wfNode type d (prefix k d) n /\ (forall x, x ∈ items n <-> x = it \/ x = other).
Proof.
  intros k k' Hd Hk Hk' Hp Hne n. pose proof (nibble_range k d) as Hr. pose proof (nibble_range k' d) as Hr'.
  set (cs := setChild (setChild (replicate kBranchFactor None) (Z.to_nat (nibble k d)) (Some (Leaf type it)))
              (Z.to_nat (nibble k' d)) (Some (Leaf type other))) in n.
  assert (Hch : forall b, childAt cs b = if decide (Z.to_nat (nibble k' d) = b) then Some (Leaf type other)
    else if decide (Z.to_nat (nibble k d) = b) then Some (Leaf type it) else None).
  { intros b. unfold cs. assert (length (replicate kBranchFactor (@None Node)) = 16)%nat by apply length_replicate.
    rewrite !childAt_setChild by (try (unfold setChild; rewrite length_insert); lia). by rewrite childAt_empty. }
  assert (Hit : forall z, z ∈ items n <-> z = it \/ z = other).
  { intros z. unfold n. rewrite elem_of_items_inner. split.
    - intros (b & c & Hc & Hz). rewrite Hch in Hc.
      destruct (decide _); [|destruct (decide _); [|done]]; injection Hc as <-; apply list_elem_of_singleton in Hz; tauto.
    - intros [->| ->].
      + exists (Z.to_nat (nibble k d)), (Leaf type it). rewrite Hch, decide_False, decide_True by lia || done.
        split; [done|by apply list_elem_of_singleton].
      + exists (Z.to_nat (nibble k' d)), (Leaf type other). rewrite Hch, decide_True by done.
        split; [done|by apply list_elem_of_singleton]. }
  split; [|done]. constructor; [done|unfold cs, setChild; by rewrite !length_insert, length_replicate| |].
  - intros b c Hc. rewrite Hch in Hc.
    destruct (decide _) as [<-|]; [|destruct (decide _) as [<-|]; [|done]]; injection Hc as <-; constructor; try done; try lia;
      rewrite Z2Nat.id by lia; rewrite prefix_S by lia; fold k k'; congruence.
  - intros _. exists it, other. fold n. rewrite !Hit. split; [by left|]. split; [by right|]. intros E. apply Hne.
    unfold k, k'. by rewrite E.
Qed.

(** [stackAt] below a walk. *)
Lemma Zip_stack k st d n d' n' st' type p :
  Zip k st d n d' n' st' -> wfNode type d p n -> stackAt k d st -> stackAt k d' st'.
Proof.
  intros Hz. revert p. induction Hz as [|st d cs c d' n' st' Hc Hz IH]; intros p Hn Hst; [done|].
  inversion Hn as [|? ? ? Hd Hl Hcs Htwo]; subst. apply (IH _ (Hcs _ _ Hc)). by exists d.
Qed.

Definition validType (type : SHAMapNodeType) : Prop := type <> TnInner.

Lemma makeTypedLeaf_valid type item : validType type -> makeTypedLeaf type item = Done (Leaf type item).
Proof. by destruct type. Qed.

(** Adding an item with a new key adds it; otherwise nothing changes. *)
Lemma addGiveItem_spec type root it :
  wfRoot type root -> validType type -> isKey (item_key it) ->
  exists b root', addGiveItem root type it = Done (b, root') /\
  ((b = false /\ root' = root /\ exists x, x ∈ items root /\ item_key x = item_key it) \/
   (b = true /\ wfRoot type root' /\ replaced it (items root) (items root') /\
    ~ exists x, x ∈ items root /\ item_key x = item_key it)).
Proof.
  intros Hr Ht Hk. destruct (walk_root type root _ Hr Hk) as (d & n & st & E & Hz & Hs).
  pose proof (prefix_0 _ Hk) as Hp0. assert (Hr0 : wfNode type 0 (prefix (item_key it) 0) root) by by rewrite Hp0.
  destruct (Zip_wf _ _ _ _ _ _ _ _ _ Hz Hr0 Hk eq_refl) as (Hn & Hd & Hit).
  pose proof (stopsAt_items _ _ _ _ Hn Hs) as Hst. unfold addGiveItem. rewrite E. cbn [mbind_ fst].
  destruct n as [t other|cs]; cbn [leafOf stopsAt] in *.
  - assert (t = type) as -> by by inversion Hn. destruct (Z.eqb_spec (item_key other) (item_key it)) as [Ek|Hne].
    { exists false, root. split; [done|]. left. split; [done|]. split; [done|]. exists other. split; [|done].
      rewrite Hit by done. by rewrite Hst. }
    assert (Hno : ~ exists x, x ∈ items root /\ item_key x = item_key it).
    { intros (x & Hx & Ex). rewrite Hit, Hst in Hx by done. injection Hx as ->. done. }
    inversion Hn as [? ? ? Hd' Hik Hp|]; subst.
    destruct (splitLoop_spec (item_key it) (item_key other) kLeafDepth d st) as (j & st' & -> & Hj & Hpj & Hnj & ->);
      try done; try (unfold kLeafDepth; lia); try congruence; [by eapply Zip_stack|].
    cbn [mbind_]. rewrite !makeTypedLeaf_valid by done. cbn [mbind_].
    destruct (wf_pair type j it other ltac:(lia) Hk Hik Hpj Hnj) as [Wp Ip]. set (n2 := Inner _) in *.
    destruct (dirtyUp_chain type (item_key it) st d (j - d) n2) as (n3 & -> & W3 & I3).
    { lia. } { done. } { by replace (d + (j - d))%nat with j by lia. }
    { exists it, other. rewrite !Ip. split; [by left|]. split; [by right|done]. }
    destruct (dirtyUp_zip type it [] 0 root d (Leaf type other) st n3 Hz Hr0 Hk W3) as (new & -> & Wn & Rn).
    { intros x. rewrite I3, Ip. cbn [items]. rewrite list_elem_of_singleton. split.
      - intros [->| ->]; [by left|]. right. split; [done|congruence].
      - tauto. }
    rewrite Hp0 in Wn. exists true, new. split; [done|]. by right.
  - assert (Hno : ~ exists x, x ∈ items root /\ item_key x = item_key it).
    { intros (x & Hx & Ex). rewrite Hit, Hst in Hx by done. done. }
    inversion Hn as [|? ? ? Hd' Hl Hc Htwo]; subst. rewrite makeTypedLeaf_valid by done. cbn [mbind_].
    rewrite selectBranch_path by done.
    destruct (wf_replace type d cs (Leaf type it) it Hn Hk) as [W R].
    { constructor; [lia|done|done]. } { rewrite Hs. intros x. cbn. rewrite list_elem_of_singleton, elem_of_nil. tauto. }
    destruct (dirtyUp_zip type it [] 0 root d (Inner cs) st _ Hz Hr0 Hk W R) as (new & -> & Wn & Rn).
    rewrite Hp0 in Wn. exists true, new. split; [done|]. by right.
Qed.

(** ** Deleting *)

(** The items [old] without the one with key [k]. *)
Definition removed (k : Z) (old new : list SHAMapItem) : Prop :=
  forall x, x ∈ new <-> x ∈ old /\ item_key x <> k.

Lemma items_remove type d cs k o :
  wfNode type d (prefix k d) (Inner cs) -> isKey k -> wfOpt type (S d) (prefix k (S d)) o ->
  removed k (itemsOf (childAt cs (Z.to_nat (nibble k d)))) (itemsOf o) ->
  removed k (items (Inner cs)) (items (Inner (setChild cs (Z.to_nat (nibble k d)) o))).
Proof.
  intros Hn Hk Ho Hr x. rewrite (items_setChild_key type d cs k o) by done. rewrite (Hr x).
  rewrite (items_inner_select _ _ _ _ x Hn). split.
  - intros [[Hx Hne]|[(c & Hc & Hx) Hne]].
    + split; [|done]. destruct (childAt cs _) as [c|] eqn:E0; [|by apply not_elem_of_nil in Hx].
      exists c. cbn [itemsOf] in Hx. rewrite <-(items_branch _ _ _ _ _ _ _ Hn E0 Hx), Nat2Z.id. done.
    + split; [by exists c|]. intros E. apply Hne. by rewrite E.
  - intros [(c & Hc & Hx) Hne]. destruct (decide (nibble (item_key x) d = nibble k d)) as [E|E].
    + left. split; [|done]. rewrite <-E, Hc. done.
    + right. split; [by exists c|done].
Qed.

(** [onlyBelow] finds the item of a leaf, and none where there are two. *)
Lemma onlyBelow_two type d p n :
  wfNode type d p n -> (exists x y, x ∈ items n /\ y ∈ items n /\ item_key x <> item_key y) -> onlyBelow n = None.
Proof.
  intros Hn. induction Hn as [d p item Hd Hk Hp|d p cs Hd Hl Hc IH Htwo]; intros (x & y & Hx & Hy & Hxy).
  { apply list_elem_of_singleton in Hx as ->, Hy as ->. done. }
  cbn [onlyBelow].
  destruct (flat_map _ cs) as [|r [|r' l]] eqn:E; [done| |done].
  apply elem_of_items_inner in Hx as (b & c & Hb & Hx). apply elem_of_items_inner in Hy as (b' & c' & Hb' & Hy).
  assert (Hbb : b = b' /\ r = onlyBelow c).
  { rewrite childAt_lookup in Hb, Hb'. clear -E Hb Hb'. revert b b' Hb Hb' E. induction cs as [|o cs IH]; intros b b' Hb Hb' E; [done|].
    cbn [flat_map] in E. destruct o as [m|].
    - cbn [app] in E. injection E as <- E. assert (Hnone : forall i z, cs !! i = Some (Some z) -> False).
      { intros i z Hi. assert (Hin : In (onlyBelow z) (flat_map (fun c => match c with Some m => [onlyBelow m] | None => [] end) cs)).
        { apply in_flat_map. exists (Some z). split; [|by left]. apply list_elem_of_In. by eapply list_elem_of_lookup_2. }
        by rewrite E in Hin. }
      destruct b as [|b], b' as [|b']; cbn in Hb, Hb'; [|by apply Hnone in Hb'|by apply Hnone in Hb|by apply Hnone in Hb].
      by injection Hb as <-.
    - cbn [app] in E. destruct b as [|b], b' as [|b']; try done. cbn in Hb, Hb'. destruct (IH b b' Hb Hb' E) as [-> ->]. done. }
  destruct Hbb as [<- ->]. rewrite Hb in Hb'. injection Hb' as <-. apply (IH b c Hb). by exists x, y.
Qed.

(** The branches in use. *)
Lemma branchCount_cases cs :
  length cs = kBranchFactor ->
  (getBranchCount cs = O /\ forall b, childAt cs b = None) \/
  (getBranchCount cs = 1%nat /\ exists b c, childAt cs b = Some c /\ forall b' c', childAt cs b' = Some c' -> b' = b) \/
  ((2 <= getBranchCount cs)%nat /\ exists b b' c c', b <> b' /\ childAt cs b = Some c /\ childAt cs b' = Some c').
Proof.
  intros Hl. unfold getBranchCount. set (l := filter _ _).
  assert (Hin : forall b, b ∈ l <-> exists c, childAt cs b = Some c).
  { intros b. unfold l. rewrite list_elem_of_filter, elem_of_seq. unfold isEmptyBranch. split.
    - intros [Hb _]. destruct (childAt cs b) as [c|]; [by exists c|done].
    - intros [c Hc]. rewrite Hc. split; [done|]. apply childAt_lookup, lookup_lt_Some in Hc. lia. }
  assert (Hnd : NoDup l) by (unfold l; apply NoDup_filter, NoDup_seq). clearbody l.
  destruct l as [|b [|b' l]]; cbn [length].
  - left. split; [done|]. intros b. destruct (childAt cs b) as [c|] eqn:E; [|done].
    assert (b ∈ []) as Hb by (apply Hin; by exists c). by apply not_elem_of_nil in Hb.
  - right; left. split; [done|]. destruct (Hin b) as [[c Hc] _]; [by left|]. exists b, c. split; [done|].
    intros b' c' Hc'. assert (b' ∈ [b]) as Hb by (apply Hin; by exists c'). by apply list_elem_of_singleton in Hb.
  - right; right. split; [lia|]. destruct (Hin b) as [[c Hc] _]; [by left|]. destruct (Hin b') as [[c' Hc'] _]; [by right; left|].
    exists b, b', c, c'. split; [|done]. apply NoDup_cons in Hnd as [Hnd _]. intros <-. apply Hnd. by left.
Qed.

Lemma onlyBelow_single cs b c :
  childAt cs b = Some c -> (forall b' c', childAt cs b' = Some c' -> b' = b) -> onlyBelow (Inner cs) = onlyBelow c.
Proof.
  intros Hb Hu. cbn [onlyBelow].
  assert (E : flat_map (fun c => match c with Some m => [onlyBelow m] | None => [] end) cs = [onlyBelow c]); [|by rewrite E].
  assert (Hu' : forall b' c', cs !! b' = Some (Some c') -> b' = b) by (intros ? ? Hc%childAt_lookup; by eapply Hu).
  rewrite childAt_lookup in Hb. clear Hu. revert b Hb Hu'. induction cs as [|o cs IH]; intros b Hb Hu; [done|]. cbn [flat_map].
  destruct b as [|b]; cbn in Hb.
  - injection Hb as ->. cbn [app]. f_equal. assert (Hn : Forall (fun o => o = None) cs).
    { apply Forall_lookup. intros i [m|] Hi; [|done]. specialize (Hu (S i) m Hi). done. }
    clear -Hn. induction Hn as [|o cs -> Hn IH]; [done|]. exact IH.
  - destruct o as [m|]; [by specialize (Hu O m eq_refl)|]. cbn [app]. apply (IH b Hb).
    intros b' c' Hc'. specialize (Hu (S b') c' Hc'). congruence.
Qed.

(** One step up: the node keeps its place, or its only item takes it. *)
Lemma pullUp_spec type d p cs :
  validType type -> (0 < d < 64)%nat -> length cs = kBranchFactor ->
  (forall b c, childAt cs b = Some c -> wfNode type (S d) (p * 16 + Z.of_nat b) c) ->
  (forall x, x ∈ items (Inner cs) -> isKey (item_key x) /\ prefix (item_key x) d = p) ->
  exists o, pullUp type cs = Done o /\ wfOpt type d p o /\ (forall x, x ∈ itemsOf o <-> x ∈ items (Inner cs)).
Proof.
  intros Ht Hd Hl Hc Hp. unfold pullUp.
  destruct (branchCount_cases cs Hl) as [[-> Hno]|[[-> (b & c & Hb & Hu)]|[Hge (b & b' & c & c' & Hne & Hb & Hb')]]].
  - exists None. split; [done|]. split; [done|]. intros x. cbn [itemsOf]. rewrite elem_of_items_inner. split.
    + by intros ?%not_elem_of_nil.
    + intros (b & c & Hb & _). by rewrite Hno in Hb.
  - assert (Hit : forall x, x ∈ items (Inner cs) <-> x ∈ items c).
    { intros x. rewrite elem_of_items_inner. split; [|by exists b, c]. intros (b' & c' & Hb' & Hx).
      rewrite (Hu b' c' Hb'), Hb in Hb'. by injection Hb' as <-. }
    rewrite (onlyBelow_single cs b c Hb Hu). pose proof (Hc b c Hb) as Hw.
    inversion Hw as [? ? item Hd' Hk Hpi|? ? cs' Hd' Hl' Hc' Htwo]; subst.
    + cbn [onlyBelow]. rewrite makeTypedLeaf_valid by done. cbn [mbind_]. eexists. split; [done|].
      split; [|by intros x; rewrite Hit]. cbn [wfOpt]. destruct (Hp item) as [Hk' Hp']; [apply Hit; by apply list_elem_of_singleton|].
      constructor; [lia|done|done].
    + rewrite (onlyBelow_two _ _ _ _ Hw (Htwo ltac:(lia))). eexists. split; [done|]. split; [|done]. cbn [wfOpt].
      constructor; [lia|done|done|]. intros _. destruct (Htwo ltac:(lia)) as (x & y & Hx & Hy & Hxy). exists x, y. by rewrite !Hit.
  - exists (Some (Inner cs)). split; [by destruct (getBranchCount cs) as [|[|]]; [lia|lia|]|]. split; [|done].
    cbn [wfOpt]. constructor; [lia|done|done|]. intros _.
    destruct (items_nonempty _ _ _ _ (Hc b c Hb) ltac:(lia)) as [x Hx].
    destruct (items_nonempty _ _ _ _ (Hc b' c' Hb') ltac:(lia)) as [y Hy]. exists x, y.
    split; [apply elem_of_items_inner; by exists b, c|]. split; [apply elem_of_items_inner; by exists b', c'|].
    intros E. destruct (items_prefix _ _ _ _ _ (Hc b c Hb) Hx) as [_ Ex].
    destruct (items_prefix _ _ _ _ _ (Hc b' c' Hb') Hy) as [_ Ey]. rewrite E in Ex. lia.
Qed.

Lemma isRoot_createID d k : (0 < d <= 64)%nat -> isRoot (createID d k) = false.
Proof. intros Hd. unfold isRoot. rewrite createID_depth by lia. by destruct d; [lia|]. Qed.

(** The loop of [delItem], up to but not including the root. *)
Lemma delLoop_zip type root k st d n d' n' st' o' :
  validType type -> Zip k st d n d' n' st' -> wfNode type d (prefix k d) n -> isKey k -> (0 < d)%nat ->
  wfOpt type d' (prefix k d') o' -> removed k (items n') (itemsOf o') ->
  exists o, delLoop root st' k type o' = delLoop root st k type o /\
  wfOpt type d (prefix k d) o /\ removed k (items n) (itemsOf o).
Proof.
  intros Ht Hz. revert o'. induction Hz as [st d n|st d cs c d' n' st' Hc Hz IH]; intros o' Hn Hk Hd Hw Hr.
  { by exists o'. }
  pose proof Hn as Hi. inversion Hi as [|? ? ? Hd64 Hl Hcs Htwo]; subst. pose proof (nibble_range k d) as Hnr.
  pose proof (Hcs _ _ Hc) as Hcw. rewrite Z2Nat.id, <-prefix_S in Hcw by (done || lia).
  destruct (IH o' Hcw Hk ltac:(lia) Hw Hr) as (o & -> & Wo & Ro). cbn [delLoop].
  rewrite isRoot_createID, selectBranch_path by lia.
  assert (Rc : removed k (itemsOf (childAt cs (Z.to_nat (nibble k d)))) (itemsOf o)) by by rewrite Hc.
  pose proof (items_remove type d cs k o Hn Hk Wo Rc) as Rn.
  destruct (pullUp_spec type d (prefix k d) (setChild cs (Z.to_nat (nibble k d)) o)) as (o2 & -> & W2 & I2); try done.
  { unfold setChild. by rewrite length_insert. }
  { intros b m. rewrite childAt_setChild by (unfold kBranchFactor in *; lia). destruct (decide (_ = b)) as [<-|]; [|apply Hcs].
    intros ->. rewrite Z2Nat.id, <-prefix_S by (done || lia). done. }
  { intros x Hx. apply Rn in Hx as [Hx _]. by apply (items_prefix _ _ _ _ x Hn). }
  exists o2. split; [done|]. split; [done|]. intros x. by rewrite I2, (Rn x).
Qed.

(** Deleting a key removes its item; otherwise nothing changes. *)
Lemma delItem_spec type root k :
  wfRoot type root -> validType type -> isKey k ->
  exists b root', delItem root k = Done (b, root') /\
  ((b = false /\ root' = root /\ ~ exists x, x ∈ items root /\ item_key x = k) \/
   (b = true /\ wfRoot type root' /\ removed k (items root) (items root') /\
    exists x, x ∈ items root /\ item_key x = k)).
Proof.
  intros Hr Ht Hk. destruct (walk_root type root _ Hr Hk) as (d & n & st & E & Hz & Hs).
  pose proof (prefix_0 _ Hk) as Hp0. assert (Hr0 : wfNode type 0 (prefix k 0) root) by by rewrite Hp0.
  destruct (Zip_wf _ _ _ _ _ _ _ _ _ Hz Hr0 Hk eq_refl) as (Hn & Hd & Hit).
  pose proof (stopsAt_items _ _ _ _ Hn Hs) as Hst. unfold delItem. rewrite E. cbn [mbind_ fst].
  destruct n as [t item|cs]; cbn [leafOf stopsAt] in *.
  2: { exists false, root. split; [done|]. left. split; [done|]. split; [done|].
    intros (x & Hx & Ex). rewrite Hit, Hst in Hx by done. done. }
  assert (t = type) as -> by by inversion Hn. destruct (Z.eqb_spec (item_key item) k) as [Ek|Hne]; cbn [negb].
  2: { exists false, root. split; [done|]. left. split; [done|]. split; [done|].
    intros (x & Hx & Ex). rewrite Hit, Hst in Hx by done. congruence. }
  assert (Hin : item ∈ items root) by (rewrite Hit by done; by rewrite Hst).
  inversion Hz as [|? ? cs c ? ? ? Hc Hz']; subst; [by inversion Hn; lia|].
  pose proof Hr0 as Hi. inversion Hi as [|? ? ? Hd0 Hl Hcs Htwo]; subst. pose proof (nibble_range (item_key item) 0) as Hnr.
  pose proof (Hcs _ _ Hc) as Hcw. rewrite Z2Nat.id, <-prefix_S in Hcw by (done || lia).
  destruct (delLoop_zip type (Inner cs) (item_key item) _ 1 c d (Leaf type item) st None Ht Hz' Hcw Hk ltac:(lia))
    as (o & -> & Wo & Ro); [done| |].
  { intros x. cbn. rewrite list_elem_of_singleton. split; [by intros ?%not_elem_of_nil|]. by intros [-> ?]. }
  cbn [delLoop]. rewrite createID_root by done. cbn [isRoot depth_ Nat.eqb rootID]. rewrite <-(createID_root _ Hk), selectBranch_path by lia.
  cbn [mbind_]. eexists true, _. split; [done|]. right. split; [done|].
  split; [|split; [|by exists item]].
  - unfold wfRoot. rewrite <-Hp0. apply wf_setChild; try done. lia.
  - apply (items_remove type 0); try done. by rewrite Hc.
Qed.

(** Updating the item of a key in the map replaces it, unless the leaf's hash stays the
    same; a key that is not in the map is refused. *)
Lemma updateGiveItem_spec sha512Half type root it :
  wfRoot type root -> validType type -> isKey (item_key it) ->
  exists b root', updateGiveItem sha512Half root type it = Done (b, root') /\
  ((b = false /\ root' = root /\ ~ exists x, x ∈ items root /\ item_key x = item_key it) \/
   (b = true /\ wfRoot type root' /\ exists x, x ∈ items root /\ item_key x = item_key it /\
    (replaced it (items root) (items root') \/
     (root' = root /\ sha512Half (leafPreimage type x) = sha512Half (leafPreimage type it))))).
Proof.
  intros Hr Ht Hk. destruct (walk_root type root _ Hr Hk) as (d & n & st & E & Hz & Hs).
  pose proof (prefix_0 _ Hk) as Hp0. assert (Hr0 : wfNode type 0 (prefix (item_key it) 0) root) by by rewrite Hp0.
  destruct (Zip_wf _ _ _ _ _ _ _ _ _ Hz Hr0 Hk eq_refl) as (Hn & Hd & Hit).
  pose proof (stopsAt_items _ _ _ _ Hn Hs) as Hst. unfold updateGiveItem. rewrite E. cbn [mbind_ fst].
  destruct n as [t item|cs]; cbn [leafOf stopsAt] in *.
  2: { exists false, root. split; [done|]. left. split; [done|]. split; [done|].
    intros (x & Hx & Ex). rewrite Hit, Hst in Hx by done. done. }
  assert (t = type) as -> by by inversion Hn. destruct (Z.eqb_spec (item_key item) (item_key it)) as [Ek|Hne]; cbn [negb].
  2: { exists false, root. split; [done|]. left. split; [done|]. split; [done|].
    intros (x & Hx & Ex). rewrite Hit, Hst in Hx by done. congruence. }
  assert (Hin : item ∈ items root) by (rewrite Hit by done; by rewrite Hst).
  rewrite bool_decide_true by done. cbn [negb nodeHash].
  destruct (Z.eqb_spec (sha512Half (leafPreimage type item)) (sha512Half (leafPreimage type it))) as [Eh|Hh]; cbn [negb].
  - exists true, root. split; [done|]. right. split; [done|]. split; [done|]. exists item. split; [done|]. split; [done|]. by right.
  - destruct (dirtyUp_zip type it [] 0 root d (Leaf type item) st (Leaf type it) Hz Hr0 Hk) as (new & -> & Wn & Rn).
    { inversion Hn; subst. by constructor. }
    { intros x. cbn [items]. rewrite !list_elem_of_singleton. split; [by left|]. intros [->|[-> ?]]; done. }
    rewrite Hp0 in Wn. exists true, new. split; [done|]. right. split; [done|]. split; [done|].
    exists item. split; [done|]. split; [done|]. by left.
Qed.

(** ** The form is canonical *)

Lemma wfNode_canonical type d p n m :
  wfNode type d p n -> wfNode type d p m -> (forall x, x ∈ items n <-> x ∈ items m) -> n = m.
Proof.
  intros Hn. revert m. induction Hn as [d p item Hd Hk Hp|d p cs Hd Hl Hc IH Htwo]; intros m Hm Hit.
  - inversion Hm as [? ? item' Hd' Hk' Hp'|? ? cs Hd' Hl Hc Htwo]; subst.
    + f_equal. apply list_elem_of_singleton, Hit. by apply list_elem_of_singleton.
    + destruct (Htwo ltac:(lia)) as (x & y & Hx & Hy & Hxy). rewrite <-Hit in Hx, Hy.
      apply list_elem_of_singleton in Hx as ->, Hy as ->. done.
  - assert (Hn : wfNode type d p (Inner cs)) by by constructor.
    inversion Hm as [? ? item' Hd' Hk' Hp'|? ? cs' Hd' Hl' Hc' Htwo']; subst.
    + destruct (Htwo ltac:(lia)) as (x & y & Hx & Hy & Hxy). rewrite Hit in Hx, Hy.
      apply list_elem_of_singleton in Hx as ->, Hy as ->. done.
    + assert (Hch : forall b x, x ∈ itemsOf (childAt cs b) <-> x ∈ itemsOf (childAt cs' b)).
      { assert (Hdir : forall cs1 cs2, wfNode type d p (Inner cs1) -> wfNode type d p (Inner cs2) ->
          (forall x, x ∈ items (Inner cs1) -> x ∈ items (Inner cs2)) ->
          forall b x, x ∈ itemsOf (childAt cs1 b) -> x ∈ itemsOf (childAt cs2 b)).
        { intros cs1 cs2 H1 H2 Hsub b x Hx. destruct (childAt cs1 b) as [c|] eqn:Eb; [|by apply not_elem_of_nil in Hx].
          cbn [itemsOf] in Hx. pose proof (items_branch _ _ _ _ _ _ _ H1 Eb Hx) as Hb.
          assert (Hx2 : x ∈ items (Inner cs2)) by (apply Hsub, elem_of_items_inner; by exists b, c).
          rewrite (items_inner_select _ _ _ _ x H2), <-Hb, Nat2Z.id in Hx2. destruct Hx2 as (c2 & -> & Hx2). done. }
        intros b x. split; [apply (Hdir cs cs')|apply (Hdir cs' cs)]; try done; intros z; by rewrite Hit. }
      f_equal. apply list_eq_same_length with (n := kBranchFactor); [done|done|]. intros b o o' Hb Ho Ho'.
      specialize (Hch b). destruct o as [c|], o' as [c'|].
      * f_equal. assert (E1 : childAt cs b = Some c) by by apply childAt_lookup.
        assert (E2 : childAt cs' b = Some c') by by apply childAt_lookup.
        rewrite E1, E2 in Hch. apply (IH b c E1); [by apply Hc'|done].
      * assert (E1 : childAt cs b = Some c) by by apply childAt_lookup.
        assert (E2 : childAt cs' b = None) by (unfold childAt; by rewrite Ho').
        destruct (items_nonempty _ _ _ _ (Hc b c E1) ltac:(lia)) as [x Hx]. rewrite E1, E2 in Hch.
        apply Hch in Hx. by apply not_elem_of_nil in Hx.
      * assert (E1 : childAt cs b = None) by (unfold childAt; by rewrite Ho).
        assert (E2 : childAt cs' b = Some c') by by apply childAt_lookup.
        destruct (items_nonempty _ _ _ _ (Hc' b c' E2) ltac:(lia)) as [x Hx]. rewrite E1, E2 in Hch.
        apply Hch in Hx. by apply not_elem_of_nil in Hx.
      * done.
Qed.

(** ** The order of the items *)

Lemma prefix_lt k k' d : (d <= 64)%nat -> prefix k d < prefix k' d -> k < k'.
Proof.
  intros Hd Hlt. destruct (Z.lt_ge_cases k k') as [|Hge]; [done|]. exfalso. unfold prefix in Hlt.
  assert (0 < 16 ^ (64 - Z.of_nat d)) by (apply Z.pow_pos_nonneg; lia).
  pose proof (Z.div_le_mono k' k (16 ^ (64 - Z.of_nat d)) ltac:(lia) Hge). lia.
Qed.

Definition keyLt (x y : SHAMapItem) : Prop := item_key x < item_key y.

Lemma StronglySorted_concat {A} (R : A -> A -> Prop) (ls : list (list A)) :
  (forall i l, ls !! i = Some l -> StronglySorted R l) ->
  (forall i j l k x y, (i < j)%nat -> ls !! i = Some l -> ls !! j = Some k -> x ∈ l -> y ∈ k -> R x y) ->
  StronglySorted R (concat ls).
Proof.
  induction ls as [|l ls IH]; intros Hs Hr; cbn [concat]; [constructor|].
  assert (Hrest : StronglySorted R (concat ls)).
  { apply IH; [intros i; apply (Hs (S i))|]. intros i j l' k x y Hij Hi Hj. apply (Hr (S i) (S j)); [lia|done|done]. }
  assert (Hl : StronglySorted R l) by by apply (Hs O).
  assert (Hcross : forall x y, x ∈ l -> y ∈ concat ls -> R x y).
  { intros x y Hx Hy. apply list_elem_of_In, in_concat in Hy as (k & Hk & Hy). apply list_elem_of_In, list_elem_of_lookup in Hk as [j Hj].
    apply (Hr O (S j) l k); [lia|done|done|done|by apply list_elem_of_In]. }
  clear -Hl Hrest Hcross. induction Hl as [|x l Hl IH Hx]; cbn [app]; [done|]. constructor.
  - apply IH. intros y z Hy. apply Hcross. by right.
  - apply Forall_app. split; [done|]. apply Forall_forall. intros y Hy. apply Hcross; [left|done].
Qed.

Lemma items_sorted type d p n : wfNode type d p n -> StronglySorted keyLt (items n).
Proof.
  induction 1 as [d p item Hd Hk Hp|d p cs Hd Hl Hc IH Htwo]; [repeat constructor|]. cbn [items]. apply StronglySorted_concat.
  - intros i l Hi. apply list_lookup_fmap_Some in Hi as (o & -> & Ho). destruct o as [c|]; [|constructor].
    apply (IH i). by apply childAt_lookup.
  - intros i j l k x y Hij Hi Hj Hx Hy. apply list_lookup_fmap_Some in Hi as (o & -> & Ho).
    apply list_lookup_fmap_Some in Hj as (o' & -> & Ho'). destruct o as [c|]; [|by apply not_elem_of_nil in Hx].
    destruct o' as [c'|]; [|by apply not_elem_of_nil in Hy].
    assert (Hci : childAt cs i = Some c) by by apply childAt_lookup. assert (Hcj : childAt cs j = Some c') by by apply childAt_lookup.
    destruct (items_prefix _ _ _ _ _ (Hc i c Hci) Hx) as [_ Ex]. destruct (items_prefix _ _ _ _ _ (Hc j c' Hcj) Hy) as [_ Ey].
    apply (prefix_lt _ _ (S d)); lia.
Qed.

Lemma items_nodup type d p n : wfNode type d p n -> NoDup (map item_key (items n)).
Proof.
  intros Hn. pose proof (items_sorted _ _ _ _ Hn) as Hs. induction Hs as [|x l Hs IH Hx]; cbn [map]; [constructor|].
  apply NoDup_cons. split; [|exact IH].
  intros Hin. apply list_elem_of_fmap in Hin as (y & E & Hy). rewrite Forall_forall in Hx. specialize (Hx y Hy). unfold keyLt in Hx. lia.
Qed.

(** ** SHAMap: hashes

    The hash of a tree commits to the tree: trees with the same hash are equal, or the
    digest collides on bytes that were hashed for them. *)

Section Hash.
Context (sha512Half : list Z -> Z).
#[local] Abbreviation hash := (nodeHash sha512Half).

(** The bytes hashed for the nodes of a tree. *)
Fixpoint preimages (n : Node) : list (list Z) :=
  match n with
  | Leaf type item => [leafPreimage type item]
  | Inner cs =>
      innerPreimage (map (fun c => match c with Some m => hash m | None => 0 end) cs) ::
      concat (map (fun c => match c with Some m => preimages m | None => [] end) cs)
  end.

(** The digest has 256 bits and is never zero, and distinct bytes hashed for the two trees
    have distinct digests. *)
Definition noCollision (l : list (list Z)) : Prop :=
  (forall x, x ∈ l -> 0 < sha512Half x < 2 ^ 256) /\
  (forall x y, x ∈ l -> y ∈ l -> sha512Half x = sha512Half y -> x = y).

(** The key of a transaction is the hash of its leaf. *)
Definition keyed (n : Node) : Prop :=
  forall x, x ∈ items n -> item_key x = sha512Half (leafPreimage TnTransactionNm x).

Lemma noCollision_sub l l' : noCollision l' -> (forall x, x ∈ l -> x ∈ l') -> noCollision l.
Proof. intros [H1 H2] Hs. split; intros; [apply H1|apply H2]; auto. Qed.

Lemma noCollision_app l k : noCollision (l ++ k) -> noCollision l /\ noCollision k.
Proof.
  intros H. split; (eapply noCollision_sub; [exact H|]; intros x Hx; apply elem_of_app); [by left|by right].
Qed.

(** The first bytes hashed for each of two trees. *)
Lemma noCollision_heads x y l k : noCollision ((x :: l) ++ y :: k) -> sha512Half x = sha512Half y -> x = y.
Proof. intros [_ H]. apply H; apply elem_of_app; [left|right]; left. Qed.

Lemma preimages_child cs b c x : childAt cs b = Some c -> x ∈ preimages c -> x ∈ preimages (Inner cs).
Proof.
  intros Hb Hx. rewrite childAt_lookup in Hb. cbn [preimages]. right. apply list_elem_of_In, in_concat.
  exists (preimages c). split; [|by apply list_elem_of_In]. apply in_map_iff. exists (Some c). split; [done|].
  apply list_elem_of_In. by eapply list_elem_of_lookup_2.
Qed.

Lemma items_preimages type d p n x : wfNode type d p n -> x ∈ items n -> leafPreimage type x ∈ preimages n.
Proof.
  induction 1 as [d p item Hd Hk Hp|d p cs Hd Hl Hc IH Htwo]; intros Hx.
  - apply list_elem_of_singleton in Hx as ->. left.
  - apply elem_of_items_inner in Hx as (b & c & Hb & Hx). apply (preimages_child cs b c); [done|]. by apply (IH b).
Qed.

(** Whether any branch is in use. *)
Lemma existsb_children (cs : list (option Node)) :
  existsb (fun c => match c with Some _ => true | None => false end) cs = true <-> exists b c, childAt cs b = Some c.
Proof.
  rewrite existsb_exists. split.
  - intros (o & Ho & Hs). destruct o as [c|]; [|done]. apply list_elem_of_In, list_elem_of_lookup in Ho as [b Hb].
    exists b, c. by apply childAt_lookup.
  - intros (b & c & Hb). exists (Some c). split; [|done]. apply list_elem_of_In. rewrite childAt_lookup in Hb.
    by eapply list_elem_of_lookup_2.
Qed.

(** Below the root no hash is zero. *)
Lemma hash_nonzero type d p n :
  wfNode type d p n -> (0 < d)%nat -> noCollision (preimages n) -> 0 < hash n < 2 ^ 256.
Proof.
  intros Hn Hd [Hnz _]. inversion Hn as [? ? item|? ? cs Hd' Hl Hc Htwo]; subst.
  - cbn [nodeHash]. apply Hnz. by left.
  - destruct (Htwo Hd) as (x & _ & Hx & _). apply elem_of_items_inner in Hx as (b & c & Hb & _).
    cbn [nodeHash]. assert (E : existsb (fun c => match c with Some _ => true | None => false end) cs = true).
    { apply existsb_children. by exists b, c. }
    rewrite E. apply Hnz. by left.
Qed.

Lemma beBytes32_inj x y : 0 <= x < 2 ^ 256 -> 0 <= y < 2 ^ 256 -> beBytes 32 x = beBytes 32 y -> x = y.
Proof. intros Hx Hy. apply (beBytes_inj 32); done. Qed.

(** Words of 32 bytes written one after the other can be told apart. *)
Lemma words_inj l k :
  length l = length k -> Forall (fun x => 0 <= x < 2 ^ 256) l -> Forall (fun x => 0 <= x < 2 ^ 256) k ->
  concat (map (beBytes 32) l) = concat (map (beBytes 32) k) -> l = k.
Proof.
  revert k. induction l as [|x l IH]; intros [|y k] Hlen Hl Hk E; try done. cbn [map concat] in E.
  apply app_inj_1 in E as [Ex El]; [|by rewrite !length_beBytes]. apply Forall_cons in Hl as [Hx Hl], Hk as [Hy Hk].
  apply beBytes32_inj in Ex; [|done|done]. injection Hlen as Hlen. rewrite Ex. f_equal. by apply IH.
Qed.

(** The bytes hashed for a leaf determine it. *)
Lemma leafPreimage_inj type x y :
  validType type -> isKey (item_key x) -> isKey (item_key y) ->
  (type = TnTransactionNm -> item_key x = item_key y) ->
  leafPreimage type x = leafPreimage type y -> x = y.
Proof.
  intros Ht Hx Hy Hk. destruct x as [k dx], y as [k' dy]. unfold leafPreimage. cbn [item_key item_data] in *.
  destruct type; [done|..]; intros E; apply app_inv_head in E; [by rewrite E, Hk|..];
    (apply app_inj_2 in E as [-> Ek]; [|by rewrite !length_beBytes]); by rewrite (beBytes32_inj _ _ Hx Hy Ek).
Qed.

(** The hash in each branch. *)
Definition branchHash (o : option Node) : Z := match o with Some m => hash m | None => 0 end.

Lemma childHashes_range type d p cs :
  wfNode type d p (Inner cs) -> noCollision (preimages (Inner cs)) ->
  Forall (fun x => 0 <= x < 2 ^ 256) (map branchHash cs).
Proof.
  intros Hn Hnc. inversion Hn as [|? ? ? Hd Hl Hc Htwo]; subst. apply Forall_fmap, Forall_lookup. intros b o Ho.
  unfold compose, branchHash. destruct o as [c|]; [|lia]. assert (Hb : childAt cs b = Some c) by by apply childAt_lookup.
  pose proof (hash_nonzero _ _ _ _ (Hc b c Hb) ltac:(lia)) as H.
  assert (noCollision (preimages c)); [|specialize (H ltac:(done)); lia].
  eapply noCollision_sub; [exact Hnc|]. intros x Hx. by eapply preimages_child.
Qed.

Lemma branchHash_map cs b : branchHash (childAt cs b) = default 0 (map branchHash cs !! b).
Proof. unfold childAt. rewrite list_lookup_fmap. by destruct (cs !! b) as [[c|]|]. Qed.

(** Two inner nodes with the same hash have the same hash in every branch. *)
Lemma branches_eq type d p cs cs' :
  wfNode type d p (Inner cs) -> wfNode type d p (Inner cs') ->
  noCollision (preimages (Inner cs) ++ preimages (Inner cs')) -> hash (Inner cs) = hash (Inner cs') ->
  forall b, branchHash (childAt cs b) = branchHash (childAt cs' b).
Proof.
  intros Hn Hn' Hnc E b.
  destruct (noCollision_app _ _ Hnc) as [H1 H2].
  pose proof (childHashes_range _ _ _ _ Hn H1) as R1. pose proof (childHashes_range _ _ _ _ Hn' H2) as R2.
  assert (Hz : forall cs0,
    existsb (fun c => match c with Some _ => true | None => false end) cs0 = false -> branchHash (childAt cs0 b) = 0).
  { intros cs0 Hex. destruct (childAt cs0 b) as [c|] eqn:Ec; [|done].
    assert (existsb (fun c => match c with Some _ => true | None => false end) cs0 = true); [|congruence].
    apply existsb_children. by exists b, c. }
  pose proof (proj1 H1 _ (list_elem_of_here _ _)) as P1. pose proof (proj1 H2 _ (list_elem_of_here _ _)) as P2.
  cbn [nodeHash] in E. destruct (existsb _ cs) eqn:E1, (existsb _ cs') eqn:E2; [|lia|lia|by rewrite !Hz].
  apply (noCollision_heads _ _ _ _ Hnc) in E.
  apply app_inv_head, words_inj in E; [|by inversion Hn; inversion Hn'; subst; rewrite !length_map; congruence|done|done].
  rewrite !branchHash_map. unfold branchHash. by rewrite E.
Qed.

Lemma hash_inj type : validType type -> forall d p n, wfNode type d p n -> forall m,
  wfNode type d p m -> (type = TnTransactionNm -> keyed n /\ keyed m) ->
  noCollision (preimages n ++ preimages m) -> hash n = hash m -> n = m.
Proof.
  intros Ht d p n Hn. induction Hn as [d p item Hd Hk Hp|d p cs Hd Hl Hc IH Htwo]; intros m Hm Hkey Hnc E.
  - inversion Hm as [? ? item' Hd' Hk' Hp'|? ? cs Hd' Hl Hc Htwo]; subst.
    + cbn [nodeHash] in E. pose proof E as Eh. apply (noCollision_heads _ _ _ _ Hnc) in E. f_equal.
      apply (leafPreimage_inj type); try done. intros ->. destruct (Hkey eq_refl) as [K1 K2].
      rewrite (K1 item), (K2 item') by by apply list_elem_of_singleton. done.
    + exfalso. pose proof (hash_nonzero _ _ _ _ Hm ltac:(lia)) as Hz.
      destruct (noCollision_app _ _ Hnc) as [Hnl Hnr].
      cbn [nodeHash] in E, Hz. destruct (existsb _ cs); [|first [specialize (Hz Hnl)|specialize (Hz Hnr)]; lia].
      apply (noCollision_heads _ _ _ _ Hnc) in E. destruct type; [done|..]; by apply prefixBytes_app in E as [? _].
  - assert (Hn : wfNode type d p (Inner cs)) by by constructor.
    inversion Hm as [? ? item' Hd' Hk' Hp'|? ? cs' Hd' Hl' Hc' Htwo']; subst.
    + exfalso. pose proof (hash_nonzero _ _ _ _ Hn ltac:(lia)) as Hz.
      destruct (noCollision_app _ _ Hnc) as [Hnl Hnr].
      cbn [nodeHash] in E, Hz. destruct (existsb _ cs); [|first [specialize (Hz Hnl)|specialize (Hz Hnr)]; lia].
      apply (noCollision_heads _ _ _ _ Hnc) in E. destruct type; [done|..]; by apply prefixBytes_app in E as [? _].
    + apply (wfNode_canonical type d p); [done|done|]. intros x. rewrite !elem_of_items_inner.
      assert (Hb : forall b, branchHash (childAt cs b) = branchHash (childAt cs' b)) by (apply (branches_eq type d p); done).
      assert (Hcc : forall b c c', childAt cs b = Some c -> childAt cs' b = Some c' -> c = c').
      { intros b c c' E1 E2. apply (IH b c E1); [by apply Hc'| | |].
        - intros Et. destruct (Hkey Et) as [K1 K2]. split; intros z Hz; [apply K1|apply K2]; apply elem_of_items_inner; eauto.
        - eapply noCollision_sub; [exact Hnc|]. intros z [Hz|Hz]%elem_of_app; apply elem_of_app; [left|right]; by eapply preimages_child.
        - specialize (Hb b). by rewrite E1, E2 in Hb. }
      assert (Hsome : forall b, (exists c, childAt cs b = Some c) <-> (exists c, childAt cs' b = Some c)).
      { intros b. specialize (Hb b). split; intros [c Ec]; rewrite Ec in Hb; cbn [branchHash] in Hb.
        - destruct (childAt cs' b) as [c'|]; [by exists c'|]. exfalso. cbn in Hb.
          pose proof (hash_nonzero _ _ _ _ (Hc b c Ec) ltac:(lia)) as Hz.
          assert (noCollision (preimages c)); [|specialize (Hz ltac:(done)); lia].
          eapply noCollision_sub; [exact Hnc|]. intros z Hz'. apply elem_of_app. left. by eapply preimages_child.
        - destruct (childAt cs b) as [c'|]; [by exists c'|]. exfalso. cbn in Hb.
          pose proof (hash_nonzero _ _ _ _ (Hc' b c Ec) ltac:(lia)) as Hz.
          assert (noCollision (preimages c)); [|specialize (Hz ltac:(done)); lia].
          eapply noCollision_sub; [exact Hnc|]. intros z Hz'. apply elem_of_app. right. by eapply preimages_child. }
      split; intros (b & c & Ec & Hx).
      * destruct (proj1 (Hsome b) ltac:(by exists c)) as [c' Ec']. exists b, c'.
        split; [done|]. by rewrite <-(Hcc b c c' Ec Ec').
      * destruct (proj2 (Hsome b) ltac:(by exists c)) as [c' Ec']. exists b, c'.
        split; [done|]. by rewrite (Hcc b c' c Ec' Ec).
Qed.
End Hash.
