(* ===== verification/ShaMapSpec.v ===== *)
(** * SHAMap: refinement

    The tree implements a finite map from keys to items: each operation returns what the
    operation on the map returns and leaves the tree of the resulting map, which the map
    determines. *)
From S2P Require Import Prelude Digits HashPrefix NodeID ShaMap ShaMapFacts.

(** The map a tree stands for. *)
Definition contents (n : Node) : gmap Z SHAMapItem :=
  list_to_map (map (fun x => (item_key x, x)) (items n)).

Lemma contents_lookup type d p n k x :
  wfNode type d p n -> contents n !! k = Some x <-> x ∈ items n /\ item_key x = k.
Proof.
  intros Hn. unfold contents. split.
  - intros H. apply elem_of_list_to_map_2 in H. apply list_elem_of_fmap in H as (y & [= -> ->] & Hy). done.
  - intros [Hx <-]. apply elem_of_list_to_map_1'.
    + intros y Hy. apply list_elem_of_fmap in Hy as (z & [= E ->] & Hz). by apply (items_unique type d p n).
    + apply list_elem_of_fmap. by exists x.
Qed.

Lemma contents_none type d p n k :
  wfNode type d p n -> contents n !! k = None <-> ~ exists x, x ∈ items n /\ item_key x = k.
Proof.
  intros Hn. rewrite eq_None_not_Some. split.
  - intros H (x & Hx & E). apply H. exists x. by apply (contents_lookup type d p).
  - intros H [x Hx]. apply H. exists x. by apply (contents_lookup type d p) in Hx.
Qed.

Lemma contents_items type d p n m :
  wfNode type d p n -> wfNode type d p m -> contents n = contents m -> forall x, x ∈ items n <-> x ∈ items m.
Proof.
  intros Hn Hm E x. split; intros Hx.
  - apply (contents_lookup type d p m (item_key x)); [done|]. rewrite <-E. by apply (contents_lookup type d p).
  - apply (contents_lookup type d p n (item_key x)); [done|]. rewrite E. by apply (contents_lookup type d p).
Qed.

Lemma contents_replaced type d p n m it :
  wfNode type d p n -> wfNode type d p m -> replaced it (items n) (items m) ->
  contents m = <[item_key it := it]> (contents n).
Proof.
  intros Hn Hm Hr. apply map_eq. intros k. apply option_eq. intros x.
  rewrite (contents_lookup type d p m) by done. rewrite (Hr x). destruct (decide (item_key it = k)) as [<-|Hne].
  - rewrite lookup_insert_eq. split; [|by intros [= ->]; split; [left|]]. intros [[->|[_ ?]] ?]; done.
  - rewrite lookup_insert_ne, (contents_lookup type d p n) by done. split.
    + intros [[->|[Hx _]] E]; done.
    + intros [Hx E]. split; [|done]. right. split; [done|]. congruence.
Qed.

Lemma contents_removed type d p n m k :
  wfNode type d p n -> wfNode type d p m -> removed k (items n) (items m) -> contents m = delete k (contents n).
Proof.
  intros Hn Hm Hr. apply map_eq. intros k'. apply option_eq. intros x.
  rewrite (contents_lookup type d p m) by done. rewrite (Hr x). destruct (decide (k = k')) as [<-|Hne].
  - rewrite lookup_delete_eq. split; [|done]. by intros [[_ ?] ?].
  - rewrite lookup_delete_ne, (contents_lookup type d p n) by done. split.
    + by intros [[Hx _] E].
    + intros [Hx E]. split; [|done]. split; [done|congruence].
Qed.

(** ** Operations *)

Inductive MapOp :=
| OpAdd (item : SHAMapItem)
| OpDelete (key : Z)
| OpUpdate (item : SHAMapItem)
| OpPeek (key : Z).

Definition opKey (op : MapOp) : Z :=
  match op with OpAdd x | OpUpdate x => item_key x | OpDelete k | OpPeek k => k end.

(** What an operation returns: the item found, or whether it was done. *)
Definition Answer : Type := bool + option SHAMapItem.

Section Ops.
Context (sha512Half : list Z -> Z) (type : SHAMapNodeType).

Definition runOp (root : Node) (op : MapOp) : MapResult (Answer * Node) :=
  match op with
  | OpAdd x => mbind_ (addItem root type x) (fun r => Done (inl r.1, r.2))
  | OpDelete k => mbind_ (delItem root k) (fun r => Done (inl r.1, r.2))
  | OpUpdate x => mbind_ (updateGiveItem sha512Half root type x) (fun r => Done (inl r.1, r.2))
  | OpPeek k => mbind_ (peekItem root k) (fun r => Done (inr r, root))
  end.

Fixpoint runOps (root : Node) (ops : list MapOp) : MapResult (list Answer * Node) :=
  match ops with
  | [] => Done ([], root)
  | op :: ops =>
      mbind_ (runOp root op) (fun r => mbind_ (runOps r.2 ops) (fun s => Done (r.1 :: s.1, s.2)))
  end.

(** The same on a finite map. *)
Definition specOp (m : gmap Z SHAMapItem) (op : MapOp) : Answer * gmap Z SHAMapItem :=
  match op with
  | OpAdd x => match m !! item_key x with Some _ => (inl false, m) | None => (inl true, <[item_key x := x]> m) end
  | OpDelete k => match m !! k with Some _ => (inl true, delete k m) | None => (inl false, m) end
  | OpUpdate x => match m !! item_key x with Some _ => (inl true, <[item_key x := x]> m) | None => (inl false, m) end
  | OpPeek k => (inr (m !! k), m)
  end.

Fixpoint specOps (m : gmap Z SHAMapItem) (ops : list MapOp) : list Answer * gmap Z SHAMapItem :=
  match ops with
  | [] => ([], m)
  | op :: ops => let r := specOp m op in let s := specOps r.2 ops in (r.1 :: s.1, s.2)
  end.

(** The item an operation brings. *)
Definition opItems (op : MapOp) : list SHAMapItem :=
  match op with OpAdd x | OpUpdate x => [x] | OpDelete _ | OpPeek _ => [] end.

(** The digest does not collide on the leaves of these items. *)
Definition leavesDiffer (l : list SHAMapItem) : Prop :=
  forall x y, x ∈ l -> y ∈ l -> sha512Half (leafPreimage type x) = sha512Half (leafPreimage type y) ->
  leafPreimage type x = leafPreimage type y.

Lemma runOp_refines root op :
  validType type -> wfRoot type root -> isKey (opKey op) -> leavesDiffer (items root ++ opItems op) ->
  exists a root', runOp root op = Done (a, root') /\ wfRoot type root' /\
  specOp (contents root) op = (a, contents root').
Proof.
  intros Ht Hr Hk Hnc. destruct op as [x|k|x|k]; cbn [runOp specOp opKey] in *.
  - destruct (addGiveItem_spec type root x Hr Ht Hk) as (b & root' & E & H). unfold addItem. rewrite E.
    exists (inl b), root'. split; [done|]. destruct H as [(-> & -> & y & Hy & Ey)|(-> & Hw & Hrep & Hno)].
    + split; [done|]. apply (contents_lookup type 0 0 root (item_key x) y) in Hr as Hl. rewrite (proj2 Hl) by done. done.
    + split; [done|]. rewrite (proj2 (contents_none type 0 0 root (item_key x) Hr)) by done.
      by rewrite (contents_replaced type 0 0 root root' x) by done.
  - destruct (delItem_spec type root k Hr Ht Hk) as (b & root' & E & H). rewrite E.
    exists (inl b), root'. split; [done|]. destruct H as [(-> & -> & Hno)|(-> & Hw & Hrem & y & Hy & Ey)].
    + split; [done|]. by rewrite (proj2 (contents_none type 0 0 root k Hr)).
    + split; [done|]. rewrite (proj2 (contents_lookup type 0 0 root k y Hr)) by done.
      by rewrite (contents_removed type 0 0 root root' k) by done.
  - destruct (updateGiveItem_spec sha512Half type root x Hr Ht Hk) as (b & root' & E & H). rewrite E.
    destruct H as [(-> & -> & Hno)|(-> & Hw & y & Hy & Ey & [Hrep|[-> Eh]])].
    + exists (inl false), root. split; [done|]. split; [done|]. by rewrite (proj2 (contents_none type 0 0 root (item_key x) Hr)).
    + exists (inl true), root'. split; [done|]. split; [done|]. rewrite (proj2 (contents_lookup type 0 0 root (item_key x) y Hr)) by done.
      by rewrite (contents_replaced type 0 0 root root' x) by done.
    + assert (El : leafPreimage type y = leafPreimage type x).
      { apply Hnc; [apply elem_of_app; by left|apply elem_of_app; right; left|done]. }
      exists (inl true), root. split; [done|]. split; [done|]. destruct (items_prefix _ _ _ _ _ Hr Hy) as [Hyk _].
      apply leafPreimage_inj in El; [|done|done|done|done]. subst y.
      pose proof (proj2 (contents_lookup type 0 0 root (item_key x) x Hr) (conj Hy eq_refl)) as Hl. rewrite Hl.
      by rewrite insert_id.
  - destruct (findKey_spec type root k Hr Hk) as (r & E & Hs). unfold peekItem. rewrite E. cbn [mbind_].
    eexists _, _. split; [done|]. split; [done|]. f_equal. f_equal. destruct r as [[t x]|]; cbn [option_map].
    + destruct (proj1 (Hs _) eq_refl) as (_ & Hx & Ex). by apply (contents_lookup type 0 0).
    + apply (contents_none type 0 0); [done|]. intros (x & Hx & Ex).
      assert (None = Some (type, x)) by by apply Hs. done.
Qed.

(** Every item of a map comes from an operation. *)
Lemma specOp_items root root' op a :
  wfRoot type root -> wfRoot type root' -> specOp (contents root) op = (a, contents root') ->
  forall x, x ∈ items root' -> x ∈ items root ++ opItems op.
Proof.
  intros Hr Hr' E x Hx. pose proof (proj2 (contents_lookup type 0 0 root' (item_key x) x Hr') (conj Hx eq_refl)) as Hl.
  apply elem_of_app. assert (H : contents root !! item_key x = Some x \/ x ∈ opItems op).
  { clear Hx. destruct op as [y|k|y|k]; cbn [specOp opItems] in *.
    - destruct (contents root !! item_key y); injection E as _ E; rewrite <-E in Hl; [by left|].
      destruct (decide (item_key y = item_key x)) as [Ek|Hne].
      + rewrite Ek, lookup_insert_eq in Hl. injection Hl as ->. right. left.
      + rewrite lookup_insert_ne in Hl by done. by left.
    - destruct (contents root !! k); injection E as _ E; rewrite <-E in Hl; [|by left]. apply lookup_delete_Some in Hl as [_ Hl]. by left.
    - destruct (contents root !! item_key y); injection E as _ E; rewrite <-E in Hl; [|by left].
      destruct (decide (item_key y = item_key x)) as [Ek|Hne].
      + rewrite Ek, lookup_insert_eq in Hl. injection Hl as ->. right. left.
      + rewrite lookup_insert_ne in Hl by done. by left.
    - injection E as _ E; rewrite <-E in Hl. by left. }
  destruct H as [H|H]; [left; by apply (contents_lookup type 0 0 root _ x Hr) in H as [H _]|by right].
Qed.

Lemma runOps_refines l ops : forall root,
  validType type -> wfRoot type root -> Forall (fun op => isKey (opKey op)) ops ->
  leavesDiffer l -> (forall x, x ∈ items root ++ concat (map opItems ops) -> x ∈ l) ->
  exists a root', runOps root ops = Done (a, root') /\ wfRoot type root' /\
  specOps (contents root) ops = (a, contents root').
Proof.
  induction ops as [|op ops IH]; intros root Ht Hr Hk Hnc Hl; [by exists [], root|].
  apply Forall_cons in Hk as [Hop Hops]. cbn [map concat] in Hl. rewrite app_assoc in Hl.
  destruct (runOp_refines root op Ht Hr Hop) as (a & root' & E & Hw & Es).
  { intros x y Hx Hy. apply Hnc; apply Hl, elem_of_app; by left. }
  destruct (IH root' Ht Hw Hops Hnc) as (r & root'' & E' & Hw' & Es').
  { intros x [Hx|Hx]%elem_of_app; apply Hl, elem_of_app; [left|by right]. by eapply specOp_items. }
  exists (a :: r), root''. cbn [runOps specOps]. rewrite E. cbn [mbind_ snd fst]. rewrite E'. cbn [mbind_ snd fst].
  split; [done|]. split; [done|]. rewrite Es. cbn [snd fst]. by rewrite Es'.
Qed.

Lemma wfRoot_empty : wfRoot type emptyInner.
Proof.
  constructor; [lia|apply length_replicate| |lia]. intros b c. by rewrite childAt_empty.
Qed.

Lemma contents_empty : contents emptyInner = ∅.
Proof. done. Qed.
End Ops.

(** ** The properties *)

(** C2: The radix tree implements a finite map: whatever additions, deletions, updates and
    lookups are made from the empty map, every one returns, without an exception, what it
    returns on a finite map, and the tree left is well-formed and stands for the resulting
    map, when the digest does not collide on the leaves of the items used. *)
Theorem shamap_refines_map (sha512Half : list Z -> Z) (type : SHAMapNodeType) (ops : list MapOp)
    (Ht : validType type) (Hk : Forall (fun op => isKey (opKey op)) ops)
    (Hnc : leavesDiffer sha512Half type (concat (map opItems ops))) :
  exists answers root, runOps sha512Half type emptyInner ops = Done (answers, root) /\
    wfRoot type root /\ specOps ∅ ops = (answers, contents root).
Proof.
  rewrite <-contents_empty. apply (runOps_refines _ _ (concat (map opItems ops))); try done. apply wfRoot_empty.
Qed.

(** The tree depends on the items and not on the history: two well-formed trees that stand
    for the same map are the same tree. *)
Lemma shamap_canonical (type : SHAMapNodeType) (n m : Node) :
  wfRoot type n -> wfRoot type m -> contents n = contents m -> n = m.
Proof. intros Hn Hm E. apply (wfNode_canonical type 0 0); [done|done|]. by apply (contents_items type 0 0). Qed.

(** C17: The root hash stands for the map, and not for its history: two well-formed maps
    have the same root hash exactly when they hold the same items, when the digest does
    not collide on the bytes hashed for their nodes; for transactions without metadata,
    whose leaves do not hash the key, the keys are the transactions' own hashes. *)
Theorem shamap_hash_commits (sha512Half : list Z -> Z) (type : SHAMapNodeType) (n m : Node)
    (Ht : validType type) (Hn : wfRoot type n) (Hm : wfRoot type m)
    (Hkey : type = TnTransactionNm -> keyed sha512Half n /\ keyed sha512Half m)
    (Hnc : noCollision sha512Half (preimages sha512Half n ++ preimages sha512Half m)) :
  nodeHash sha512Half n = nodeHash sha512Half m <-> contents n = contents m.
Proof.
  split; intros E; [by rewrite (hash_inj sha512Half type Ht 0 0 n Hn m)|]. by rewrite (shamap_canonical type n m).
Qed.

(** ** Sample trees *)

(** The tree of a list of items added in turn. *)
Definition treeOf (type : SHAMapNodeType) (l : list SHAMapItem) : Node :=
  fold_left (fun root x => match addGiveItem root type x with Done r => r.2 | _ => root end) l emptyInner.

Lemma treeOf_wf type l : validType type -> Forall (fun x => isKey (item_key x)) l -> wfRoot type (treeOf type l).
Proof.
  intros Ht Hl. unfold treeOf. generalize (wfRoot_empty type). generalize emptyInner.
  induction Hl as [|x l Hx Hl IH]; intros root Hr; [done|]. cbn [fold_left]. apply IH.
  destruct (addGiveItem_spec type root x Hr Ht Hx) as (b & root' & -> & [(_ & -> & _)|(_ & H & _)]); done.
Qed.

Definition checkNoCollision (sha512Half : list Z -> Z) (l : list (list Z)) : bool :=
  let hashed := map (fun x => (x, sha512Half x)) l in
  forallb (fun a => (0 <? a.2) && (a.2 <? 2 ^ 256) &&
    forallb (fun b => if a.2 =? b.2 then bool_decide (a.1 = b.1) else true) hashed) hashed.

Lemma checkNoCollision_ok sha512Half l : checkNoCollision sha512Half l = true -> noCollision sha512Half l.
Proof.
  unfold checkNoCollision. rewrite forallb_forall. intros H.
  assert (Hin : forall x, x ∈ l -> In (x, sha512Half x) (map (fun x => (x, sha512Half x)) l)).
  { intros x Hx. apply in_map_iff. exists x. split; [done|]. by apply list_elem_of_In. }
  split.
  - intros x Hx. specialize (H _ (Hin x Hx)). cbn [fst snd] in H. breflect. lia.
  - intros x y Hx Hy E. specialize (H _ (Hin x Hx)). apply andb_true_iff in H as [_ H]. rewrite forallb_forall in H.
    specialize (H _ (Hin y Hy)). cbn [fst snd] in H. rewrite E, Z.eqb_refl in H. by apply bool_decide_eq_true in H.
Qed.

Lemma leavesDiffer_check sha512Half type l :
  checkNoCollision sha512Half (map (leafPreimage type) l) = true -> leavesDiffer sha512Half type l.
Proof. intros H x y Hx Hy. apply (checkNoCollision_ok _ _ H); by apply list_elem_of_fmap_2. Qed.

Definition sampleMask : Z := 0xffffffffffffffff.
Definition sampleMix (x : list Z) : Z := fold_left (fun a b => Z.land (a * 5 + b + 1) sampleMask) x 0.
Definition sampleDigest (x : list Z) : Z :=
  1 + Z.shiftl (Z.land (sampleMix x * 0x9e3779b97f4a7c15) sampleMask) 192.

Lemma sampleDigest_key x : isKey (sampleDigest x).
Proof.
  unfold sampleDigest, isKey, sampleMask. change 0xffffffffffffffff with (Z.ones 64). rewrite Z.land_ones, Z.shiftl_mul_pow2 by lia.
  pose proof (Z.mod_pos_bound (sampleMix x * 0x9e3779b97f4a7c15) (2 ^ 64) ltac:(lia)). lia.
Qed.

(** Two keys that share their first two digits, and another. *)
Definition itemA : SHAMapItem := {| item_key := 0x123 * 16 ^ 61; item_data := [1; 2; 3] |}.
Definition itemB : SHAMapItem := {| item_key := 0x124 * 16 ^ 61; item_data := [1; 2; 4] |}.
Definition itemB' : SHAMapItem := {| item_key := 0x124 * 16 ^ 61; item_data := [5] |}.
Definition itemC : SHAMapItem := {| item_key := 0x5 * 16 ^ 63; item_data := [6] |}.

Lemma shamap_refines_map_witness : exists answers root,
  runOps sampleDigest TnAccountState emptyInner
    [OpAdd itemA; OpAdd itemB; OpAdd itemA; OpUpdate itemB'; OpDelete (item_key itemA); OpPeek (item_key itemB)] =
    Done (answers, root) /\ wfRoot TnAccountState root /\
  specOps ∅ [OpAdd itemA; OpAdd itemB; OpAdd itemA; OpUpdate itemB'; OpDelete (item_key itemA); OpPeek (item_key itemB)] =
    (answers, contents root).
Proof.
  apply shamap_refines_map; [done|apply (bool_decide_eq_true_1 _); vm_compute; reflexivity|].
  apply leavesDiffer_check. vm_compute. reflexivity.
Defined.

Definition allKeys (l : list SHAMapItem) : bool := forallb (fun x => (0 <=? item_key x) && (item_key x <? 2 ^ 256)) l.

Lemma treeOf_sample l : allKeys l = true -> wfRoot TnAccountState (treeOf TnAccountState l).
Proof.
  intros H. apply treeOf_wf; [done|]. unfold allKeys in H. rewrite forallb_forall in H. apply Forall_forall. intros x Hx.
  apply list_elem_of_In in Hx. specialize (H x Hx). unfold isKey. breflect. lia.
Qed.

Lemma shamap_hash_commits_witness :
  let n := treeOf TnAccountState [itemA; itemB; itemC] in
  let m := treeOf TnAccountState [itemC; itemB; itemA] in
  nodeHash sampleDigest n = nodeHash sampleDigest m <-> contents n = contents m.
Proof.
  apply (shamap_hash_commits sampleDigest TnAccountState); [done|by apply treeOf_sample|by apply treeOf_sample|done|].
  apply checkNoCollision_ok. vm_compute. reflexivity.
Defined.
