(* ===== verification/ShaMapDelta.v ===== *)
(** * SHAMap: comparing two maps

    [compare] finds exactly the keys whose items differ, up to the number asked for. *)
From S2P Require Import Prelude Digits HashPrefix NodeID ShaMap ShaMapFacts ShaMapSpec.

Abbreviation Difference := (option SHAMapItem * option SHAMapItem)%type.

(** ** Differences of maps *)

Definition differ (x y : option SHAMapItem) : option Difference := if decide (x = y) then None else Some (x, y).

(** The keys at which two maps differ, with what each holds. *)
Definition diffMap (m1 m2 : gmap Z SHAMapItem) : Delta := merge differ m1 m2.
Definition diffList (m1 m2 : gmap Z SHAMapItem) : list (Z * Difference) := map_to_list (diffMap m1 m2).

Lemma lookup_diffMap m1 m2 k : diffMap m1 m2 !! k = differ (m1 !! k) (m2 !! k).
Proof. unfold diffMap. rewrite lookup_merge. by destruct (m1 !! k), (m2 !! k). Qed.

Lemma diffMap_same m : diffMap m m = ∅.
Proof. apply map_eq. intros k. rewrite lookup_diffMap, lookup_empty. unfold differ. by rewrite decide_True. Qed.

Lemma diffList_same m : diffList m m = [].
Proof. unfold diffList. by rewrite diffMap_same, map_to_list_empty. Qed.

(** ** Recording differences *)

(** The early return, over a list of differences. *)
Fixpoint recordAll (l : list (Z * Difference)) (d : Delta) (c : Z) : Found :=
  match l with
  | [] => (true, d, c)
  | (k, v) :: l => let '(go, d, c) := record k v d c in if go then recordAll l d c else (go, d, c)
  end.

(** Go on after a result, unless it was the early return. *)
Definition andThen {A} (f : Found) (stop : Found -> A) (k : Delta -> Z -> A) : A :=
  let '(go, d, c) := f in if go then k d c else stop f.

Lemma recordAll_app l k d c : recordAll (l ++ k) d c = andThen (recordAll l d c) id (recordAll k).
Proof.
  revert d c. induction l as [|[key v] l IH]; intros d c; [done|]. cbn [app recordAll].
  destruct (record key v d c) as [[go d'] c'] eqn:E. destruct go; [apply IH|done].
Qed.

Lemma recordAll_spec l : forall d c,
  NoDup l.*1 -> (forall k, k ∈ l.*1 -> d !! k = None) -> 0 < c ->
  (Z.of_nat (length l) < c /\ recordAll l d c = (true, list_to_map l ∪ d, c - Z.of_nat (length l))) \/
  (c <= Z.of_nat (length l) /\ exists d', recordAll l d c = (false, d', 0) /\ d' ⊆ list_to_map l ∪ d /\
     Z.of_nat (size d') = Z.of_nat (size d) + c).
Proof.
  induction l as [|[k v] l IH]; intros d c Hnd Hd Hc; cbn [recordAll length].
  { left. split; [lia|]. cbn. rewrite (left_id_L ∅ (∪)). f_equal. lia. }
  apply NoDup_cons in Hnd as [Hk Hnd]. cbn in Hk. unfold record, deltaInsert. rewrite (Hd k) by (cbn; left).
  assert (Hins : size (<[k := v]> d) = S (size d)) by (apply map_size_insert_None, Hd; cbn; left).
  destruct (Z.leb_spec (c - 1) 0); cbn [negb].
  - right. split; [lia|]. exists (<[k := v]> d). replace c with 1 by lia. split; [done|]. split; [|lia].
    cbn [list_to_map foldr uncurry]. rewrite <-insert_union_l. apply insert_mono, map_union_subseteq_r.
    apply map_disjoint_spec. intros i x y Hx Hy. rewrite Hd in Hy; [done|]. cbn. right.
    apply elem_of_list_to_map_2 in Hx. apply list_elem_of_fmap. by exists (i, x).
  - destruct (IH (<[k := v]> d) (c - 1)) as [(Hl & ->)|(Hl & d' & -> & Hsub & Hsz)]; [done| |lia|..].
    { intros i Hi. rewrite lookup_insert_ne by (intros <-; done). apply Hd. cbn. by right. }
    + left. split; [lia|]. f_equal; [|lia]. f_equal. cbn [list_to_map foldr uncurry]. rewrite <-insert_union_l, insert_union_r; [done|].
      by apply not_elem_of_list_to_map_1.
    + right. split; [lia|]. exists d'. split; [done|]. split; [|lia]. cbn [list_to_map foldr uncurry].
      rewrite <-insert_union_l, insert_union_r; [done|]. by apply not_elem_of_list_to_map_1.
Qed.

(** ** One branch against an item *)

Definition oneItem (o : option SHAMapItem) : gmap Z SHAMapItem :=
  match o with Some x => {[item_key x := x]} | None => ∅ end.

Definition mapOf (l : list SHAMapItem) : gmap Z SHAMapItem := list_to_map (map (fun x => (item_key x, x)) l).

(** The differences [walkBranch] records for leaves visited in this order, and whether the
    other item was found. *)
Fixpoint walkEvents (l : list SHAMapItem) (other : option SHAMapItem) (emptyBranch : bool)
    : list (Z * Difference) * bool :=
  match l with
  | [] => ([], emptyBranch)
  | x :: l =>
      match other with
      | Some o =>
          if emptyBranch || negb (item_key x =? item_key o) then
            let r := walkEvents l other emptyBranch in ((item_key x, (Some x, None)) :: r.1, r.2)
          else if negb (bool_decide (item_data x = item_data o)) then
            let r := walkEvents l other true in ((item_key x, (Some x, Some o)) :: r.1, r.2)
          else walkEvents l other true
      | None => let r := walkEvents l other emptyBranch in ((item_key x, (Some x, None)) :: r.1, r.2)
      end
  end.

Definition lastEvent (other : option SHAMapItem) (emptyBranch : bool) : list (Z * Difference) :=
  match emptyBranch, other with false, Some o => [(item_key o, (None, Some o))] | _, _ => [] end.

Lemma mapOf_none l k : k ∉ map item_key l -> mapOf l !! k = None.
Proof.
  intros Hk. apply not_elem_of_list_to_map_1. intros Hin. apply Hk. apply list_elem_of_fmap in Hin as (y & -> & Hy).
  apply list_elem_of_fmap in Hy as (z & -> & Hz). apply list_elem_of_fmap. by exists z.
Qed.

Lemma diffMap_insert_l k x m1 m2 :
  Some x <> m2 !! k -> diffMap (<[k := x]> m1) m2 = <[k := (Some x, m2 !! k)]> (diffMap m1 m2).
Proof.
  intros Hne. apply map_eq. intros i. rewrite lookup_diffMap. destruct (decide (k = i)) as [<-|Hi].
  - rewrite !lookup_insert_eq. unfold differ. by rewrite decide_False.
  - by rewrite !lookup_insert_ne, lookup_diffMap.
Qed.

Lemma walkEvents_spec other l : forall emptyBranch,
  NoDup (map item_key l) -> (other = None -> emptyBranch = true) ->
  let r := walkEvents l other emptyBranch in
  r.1 ++ lastEvent other r.2 ≡ₚ diffList (mapOf l) (if emptyBranch then ∅ else oneItem other).
Proof.
  induction l as [|x l IH]; intros e Hnd He; cbn [walkEvents].
  { cbn [fst snd app]. change (mapOf []) with (∅ : gmap Z SHAMapItem). unfold diffList. destruct e, other as [o|]; cbn [lastEvent oneItem];
      [by rewrite diffMap_same, map_to_list_empty..| |by discriminate He].
    assert (E : diffMap ∅ {[item_key o := o]} = {[item_key o := (None, Some o)]}).
    { apply map_eq. intros k. rewrite lookup_diffMap, lookup_empty. destruct (decide (item_key o = k)) as [<-|Hne].
      - rewrite !lookup_singleton_eq. done.
      - by rewrite !lookup_singleton_ne. }
    by rewrite E, map_to_list_singleton. }
  cbn [map] in Hnd. apply NoDup_cons in Hnd as [Hx Hnd]. apply mapOf_none in Hx.
  assert (Em : mapOf (x :: l) = <[item_key x := x]> (mapOf l)) by done.
  assert (Hadd : forall m2, m2 !! item_key x = None ->
    diffList (mapOf (x :: l)) m2 ≡ₚ (item_key x, (Some x, None)) :: diffList (mapOf l) m2).
  { intros m2 Hm2. rewrite Em. unfold diffList. rewrite diffMap_insert_l by (rewrite Hm2; done). rewrite Hm2.
    apply map_to_list_insert. rewrite lookup_diffMap, Hx, Hm2. done. }
  destruct other as [o|].
  2: { specialize (He eq_refl) as ->. cbn [fst snd app]. rewrite Hadd by apply lookup_empty. f_equiv. by apply IH. }
  destruct e; cbn [orb].
  { cbn [fst snd app]. rewrite Hadd by apply lookup_empty. f_equiv. by apply IH. }
  cbn [oneItem]. destruct (Z.eqb_spec (item_key x) (item_key o)) as [Ek|Hne]; cbn [negb].
  2: { cbn [fst snd app]. rewrite Hadd by (apply lookup_singleton_ne; congruence). f_equiv. by apply IH. }
  assert (Hd : diffMap (mapOf l) {[item_key o := o]} = <[item_key x := (None, Some o)]> (diffMap (mapOf l) ∅)).
  { apply map_eq. intros k. rewrite lookup_diffMap. destruct (decide (item_key x = k)) as [<-|Hk].
    - rewrite lookup_insert_eq, Ek, lookup_singleton_eq, <-Ek, Hx. done.
    - rewrite lookup_singleton_ne, lookup_insert_ne, lookup_diffMap, lookup_empty by congruence. done. }
  destruct (bool_decide (item_data x = item_data o)) eqn:Eb; breflect; cbn [negb].
  - assert (x = o) as <- by (destruct x, o; cbn in *; by subst). rewrite IH by done.
    assert (Es : diffMap (mapOf (x :: l)) {[item_key x := x]} = diffMap (mapOf l) ∅); [|unfold diffList; by rewrite Es].
    apply map_eq. intros k. rewrite Em, !lookup_diffMap, lookup_empty.
    destruct (decide (item_key x = k)) as [<-|Hk].
    + rewrite lookup_insert_eq, lookup_singleton_eq, Hx. unfold differ. by rewrite !decide_True.
    + by rewrite lookup_insert_ne, lookup_singleton_ne.
  - cbn [fst snd app]. rewrite IH by done. rewrite Em. unfold diffList.
    assert (Hne : Some x <> Some o) by (intros [= ->]; done).
    rewrite diffMap_insert_l by (by rewrite Ek, lookup_singleton_eq). rewrite Hd, insert_insert_eq.
    replace ({[item_key o := o]} !! item_key x) with (Some o) by (by rewrite Ek, lookup_singleton_eq). symmetry. apply map_to_list_insert. by rewrite lookup_diffMap, Hx.
Qed.

(** ** The loops *)

Definition sideEvents (isFirstMap : bool) (l : list (Z * Difference)) : list (Z * Difference) :=
  map (fun e => (e.1, sided isFirstMap e.2.1 e.2.2)) l.

Lemma items_linked cs : items (Inner cs) = concat (map items (omap id cs)).
Proof. induction cs as [|[m|] cs IH]; [done| |exact IH]. change (items m ++ items (Inner cs) = items m ++ concat (map items (omap id cs))). by rewrite IH. Qed.

Lemma nodeSize_linked cs : nodeSize (Inner cs) = S (list_sum (map nodeSize (omap id cs))).
Proof.
  cbn [nodeSize]. f_equal. induction cs as [|[m|] cs IH]; [done| |exact IH]. cbn. by f_equal.
Qed.

Lemma nodeSize_pos n : (0 < nodeSize n)%nat.
Proof. destruct n; cbn; lia. Qed.

(** The leaves in the order they are popped. *)
Definition visit (stack : list Node) : list SHAMapItem := concat (map (fun n => rev (items n)) stack).

Lemma visit_children l : visit (rev l) = rev (concat (map items l)).
Proof.
  unfold visit. induction l as [|n l IH]; [done|]. cbn [rev map concat]. rewrite map_app, concat_app, IH, rev_app_distr.
  cbn. by rewrite app_nil_r.
Qed.

Lemma visit_app l k : visit (l ++ k) = visit l ++ visit k.
Proof. unfold visit. by rewrite map_app, concat_app. Qed.

Lemma list_sum_perm l k : l ≡ₚ k -> list_sum l = list_sum k.
Proof. unfold list_sum. induction 1; cbn [fold_right]; lia. Qed.

Lemma walkBranchLoop_spec other isFirst : forall fuel stack e d c,
  (list_sum (map nodeSize stack) <= fuel)%nat ->
  let r := walkEvents (visit stack) other e in
  let f := recordAll (sideEvents isFirst r.1) d c in
  exists eb, walkBranchLoop fuel stack other isFirst e d c = Done (eb, f) /\ (f.1.1 = true -> eb = r.2).
Proof.
  induction fuel as [|fuel IH]; intros stack e d c Hf.
  { destruct stack as [|n stack]; [by exists e|]. cbn in Hf. pose proof (nodeSize_pos n). lia. }
  destruct stack as [|n stack]; [by exists e|].
  change (nodeSize n + list_sum (map nodeSize stack) <= S fuel)%nat in Hf. destruct n as [t x|cs].
  - cbn [nodeSize] in Hf. change (visit (Leaf t x :: stack)) with (x :: visit stack). cbn [walkBranchLoop walkEvents].
    assert (Hrec : forall e' v,
      let r := walkEvents (visit stack) other e' in
      let f := recordAll (sideEvents isFirst ((item_key x, v) :: r.1)) d c in
      exists eb, (let '(go, d', c') := record (item_key x) (sided isFirst v.1 v.2) d c in
         if go then walkBranchLoop fuel stack other isFirst e' d' c'
         else Done (e', record (item_key x) (sided isFirst v.1 v.2) d c)) = Done (eb, f) /\ (f.1.1 = true -> eb = r.2)).
    { intros e' v. cbv zeta. cbn [sideEvents map fst snd recordAll].
      destruct (record (item_key x) (sided isFirst v.1 v.2) d c) as [[go d'] c']. destruct go; [|by exists e'].
      apply IH. lia. }
    destruct other as [o|]; [|by apply (Hrec e (Some x, None))].
    destruct (e || negb (item_key x =? item_key o)); [by apply (Hrec e (Some x, None))|].
    destruct (negb (bool_decide (item_data x = item_data o))); [by apply (Hrec true (Some x, Some o))|].
    apply IH. lia.
  - cbn [walkBranchLoop]. rewrite nodeSize_linked in Hf.
    assert (Ev : visit (Inner cs :: stack) = visit (rev (omap id cs) ++ stack)).
    { rewrite visit_app, visit_children, <-items_linked. done. }
    rewrite Ev. apply IH. rewrite map_app, list_sum_app.
    rewrite (list_sum_perm (map nodeSize (rev (omap id cs))) (map nodeSize (omap id cs))); [lia|].
    apply Permutation_map. symmetry. apply Permutation_rev.
Qed.

Lemma sideEvents_perm isFirst m1 m2 :
  sideEvents isFirst (diffList m1 m2) ≡ₚ if isFirst then diffList m1 m2 else diffList m2 m1.
Proof.
  destruct isFirst; unfold sideEvents, sided.
  - apply eq_subrelation; [apply _|]. rewrite <-(map_id (diffList m1 m2)) at 2. apply map_ext. by intros [k [a b]].
  - assert (E : diffMap m2 m1 = prod_map id id <$> diffMap m2 m1 /\ diffMap m2 m1 = (fun v => (v.2, v.1)) <$> diffMap m1 m2).
    { split; apply map_eq; intros k; rewrite lookup_fmap, ?lookup_diffMap; unfold differ.
      - by destruct (decide _).
      - destruct (decide (m2 !! k = m1 !! k)) as [Eq|Hne].
        + rewrite decide_True by done. done.
        + by rewrite decide_False. }
    destruct E as [_ E]. unfold diffList at 2. rewrite E, map_to_list_fmap. apply eq_subrelation; [apply _|].
    apply map_ext. by intros [k [a b]].
Qed.

(** [walkBranch] records the differences between a branch and an item or nothing. *)
Lemma walkBranch_spec type dep p n other isFirst d c :
  wfNode type dep p n ->
  exists l, walkBranch n other isFirst d c = Done (recordAll l d c) /\
  l ≡ₚ if isFirst then diffList (contents n) (oneItem other) else diffList (oneItem other) (contents n).
Proof.
  intros Hn. unfold walkBranch. set (e := match other with Some _ => false | None => true end).
  destruct (walkBranchLoop_spec other isFirst (nodeSize n) [n] e d c) as (eb & -> & Heb); [cbn; lia|].
  assert (Ev : visit [n] = rev (items n)) by (unfold visit; cbn; by rewrite app_nil_r).
  rewrite Ev in *. set (r := walkEvents (rev (items n)) other e) in *. cbn [mbind_].
  assert (Hp : r.1 ++ lastEvent other r.2 ≡ₚ diffList (contents n) (oneItem other)).
  { assert (Hnd : NoDup (map item_key (rev (items n)))).
    { rewrite map_rev, <-Permutation_rev. by eapply items_nodup. }
    unfold r. rewrite walkEvents_spec.
    - assert (Ec : mapOf (rev (items n)) = contents n).
      { unfold mapOf, contents. apply list_to_map_proper.
        - rewrite <-list_fmap_compose. exact Hnd.
        - apply Permutation_map. symmetry. apply Permutation_rev. }
      rewrite Ec. unfold e. by destruct other.
    - exact Hnd.
    - by intros ->. }
  exists (sideEvents isFirst (r.1 ++ lastEvent other r.2)). split.
  - unfold sideEvents at 2. rewrite map_app. fold (sideEvents isFirst r.1). rewrite recordAll_app.
    destruct (recordAll (sideEvents isFirst r.1) d c) as [[go d'] c']. cbn [andThen fst] in *.
    destruct go; cbn [negb]; [|done]. rewrite (Heb eq_refl). unfold lastEvent. destruct r.2, other as [o|]; try done.
    cbn [map recordAll fst snd]. by destruct (record _ _ d' c') as [[[] ?] ?].
  - rewrite <-sideEvents_perm. unfold sideEvents. by apply Permutation_map.
Qed.

(** ** Two inner nodes *)

Definition optContents (o : option Node) : gmap Z SHAMapItem := match o with Some n => contents n | None => ∅ end.

Lemma contents_branch type d p cs k :
  wfNode type d p (Inner cs) -> contents (Inner cs) !! k = optContents (childAt cs (Z.to_nat (nibble k d))) !! k.
Proof.
  intros Hn. inversion Hn as [|? ? ? Hd Hl Hc Htwo]; subst. apply option_eq. intros x.
  rewrite (contents_lookup type d p) by done. rewrite (items_inner_select _ _ _ _ x Hn). split.
  - intros [(c & Hb & Hx) <-]. rewrite Hb. cbn [optContents]. by apply (contents_lookup _ _ _ _ _ _ (Hc _ _ Hb)).
  - destruct (childAt cs (Z.to_nat (nibble k d))) as [c|] eqn:Hb; cbn [optContents]; [|by rewrite lookup_empty].
    intros Hx. apply (contents_lookup _ _ _ _ _ _ (Hc _ _ Hb)) in Hx as [Hx <-]. split; [|done]. by exists c.
Qed.

Lemma contents_elsewhere type d p cs k b :
  wfNode type d p (Inner cs) -> b <> Z.to_nat (nibble k d) -> optContents (childAt cs b) !! k = None.
Proof.
  intros Hn Hb. inversion Hn as [|? ? ? Hd Hl Hc Htwo]; subst. destruct (childAt cs b) as [c|] eqn:Ec; [|apply lookup_empty].
  cbn [optContents]. apply (contents_none _ _ _ _ _ (Hc _ _ Ec)). intros (x & Hx & <-). apply Hb.
  by rewrite <-(items_branch _ _ _ _ _ _ _ Hn Ec Hx), Nat2Z.id.
Qed.

Lemma elem_of_diffList m1 m2 k v : (k, v) ∈ diffList m1 m2 <-> differ (m1 !! k) (m2 !! k) = Some v.
Proof. unfold diffList. by rewrite elem_of_map_to_list, lookup_diffMap. Qed.

(** The differences of two inner nodes are those of their branches. *)
Lemma diffList_inner type d p cs cs' :
  wfNode type d p (Inner cs) -> wfNode type d p (Inner cs') ->
  diffList (contents (Inner cs)) (contents (Inner cs')) ≡ₚ
  concat (map (fun i => diffList (optContents (childAt cs i)) (optContents (childAt cs' i))) (seq 0 kBranchFactor)).
Proof.
  intros Hn Hn'. set (f := fun i => diffList (optContents (childAt cs i)) (optContents (childAt cs' i))).
  assert (Hkey : forall i k v, (k, v) ∈ f i -> i = Z.to_nat (nibble k d)).
  { intros i k v Hv. destruct (decide (i = Z.to_nat (nibble k d))) as [|Hne]; [done|]. exfalso.
    apply elem_of_diffList in Hv. by rewrite (contents_elsewhere type d p cs), (contents_elsewhere type d p cs') in Hv. }
  apply NoDup_Permutation.
  - apply NoDup_map_to_list.
  - assert (Hnd : forall l, NoDup l -> NoDup (concat (map f l))).
    { induction 1 as [|i l Hi Hl IH]; cbn [map concat]; [constructor|]. apply NoDup_app.
      split; [apply NoDup_map_to_list|]. split; [|done]. intros [k v] Hv Hin. apply Hi.
      apply list_elem_of_In, in_concat in Hin as (l' & Hl' & Hin). apply in_map_iff in Hl' as (j & <- & Hj).
      apply list_elem_of_In in Hin, Hj. apply Hkey in Hv. apply Hkey in Hin. by rewrite Hv, <-Hin. }
    apply Hnd, NoDup_seq.
  - intros [k v]. rewrite elem_of_diffList, (contents_branch type d p cs), (contents_branch type d p cs') by done. split.
    + intros Hv. apply list_elem_of_In, in_concat. exists (f (Z.to_nat (nibble k d))). split.
      * apply in_map, in_seq. pose proof (nibble_range k d). unfold kBranchFactor. lia.
      * apply list_elem_of_In. by apply elem_of_diffList.
    + intros Hin. apply list_elem_of_In, in_concat in Hin as (l & Hl & Hin). apply in_map_iff in Hl as (i & <- & _).
      apply list_elem_of_In in Hin. rewrite <-(Hkey i k v Hin). by apply elem_of_diffList.
Qed.

(** Two leaves. *)
Lemma diffList_leaves x y :
  diffList {[item_key x := x]} {[item_key y := y]} ≡ₚ
  if item_key x =? item_key y then
    (if bool_decide (item_data x = item_data y) then [] else [(item_key x, (Some x, Some y))])
  else [(item_key x, (Some x, None)); (item_key y, (None, Some y))].
Proof.
  assert (E : {[item_key x := x]} = mapOf [x]) by done. rewrite E.
  rewrite <-(walkEvents_spec (Some y) [x] false) by (try done; apply NoDup_singleton). cbn [walkEvents].
  destruct (Z.eqb_spec (item_key x) (item_key y)) as [Ek|Hne]; cbn [orb negb]; [|done].
  by destruct (bool_decide _).
Qed.

Section Compare.
Context (sha512Half : list Z -> Z) (type : SHAMapNodeType) (L : list (list Z)).
Context (Ht : validType type) (HL : noCollision sha512Half L).

(** Two nodes at the same place, of the trees compared. *)
Definition pairOk (a : Node * Node) : Prop :=
  exists d p, wfNode type d p a.1 /\ wfNode type d p a.2 /\
  (forall x, x ∈ preimages sha512Half a.1 ++ preimages sha512Half a.2 -> x ∈ L) /\
  (type = TnTransactionNm -> keyed sha512Half a.1 /\ keyed sha512Half a.2).

Definition pairDiff (a : Node * Node) : list (Z * Difference) := diffList (contents a.1) (contents a.2).
Definition pairSize (a : Node * Node) : nat := nodeSize a.1 + nodeSize a.2.

Lemma pairOk_child cs cs' i o t :
  pairOk (Inner cs, Inner cs') -> childAt cs i = Some o -> childAt cs' i = Some t -> pairOk (o, t).
Proof.
  intros (d & p & Hn & Hn' & Hsub & Hk) Ho Hc. cbn [fst snd] in *. exists (S d), (p * 16 + Z.of_nat i). cbn [fst snd].
  inversion Hn as [|? ? ? Hd Hl Hcs Htwo]; inversion Hn' as [|? ? ? Hd' Hl' Hcs' Htwo']; subst.
  split; [by apply Hcs|]. split; [by apply Hcs'|]. split.
  - intros x [Hx|Hx]%elem_of_app; apply Hsub, elem_of_app; [left|right]; by eapply preimages_child.
  - intros Et. destruct (Hk Et) as [K1 K2]. split; intros x Hx; [apply K1|apply K2]; apply elem_of_items_inner; eauto.
Qed.

Lemma childHash_nonzero cs cs' i o :
  pairOk (Inner cs, Inner cs') -> childAt cs i = Some o \/ childAt cs' i = Some o -> nodeHash sha512Half o <> 0.
Proof.
  intros (d & p & Hn & Hn' & Hsub & _) Ho. cbn [fst snd] in *.
  inversion Hn as [|? ? ? Hd Hl Hcs Htwo]; inversion Hn' as [|? ? ? Hd' Hl' Hcs' Htwo']; subst.
  assert (H : 0 < nodeHash sha512Half o < 2 ^ 256); [|lia].
  destruct Ho as [Ho|Ho];
    (eapply hash_nonzero; [first [exact (Hcs _ _ Ho)|exact (Hcs' _ _ Ho)]|lia|]; eapply noCollision_sub; [exact HL|];
     intros x Hx; apply Hsub, elem_of_app; first [left; by eapply preimages_child|right; by eapply preimages_child]).
Qed.

(** Nodes with the same hash are skipped because they are the same. *)
Lemma branch_same cs cs' i :
  pairOk (Inner cs, Inner cs') -> getChildHash sha512Half cs i = getChildHash sha512Half cs' i -> childAt cs i = childAt cs' i.
Proof.
  intros Hok E. unfold getChildHash in E. destruct (childAt cs i) as [o|] eqn:Eo, (childAt cs' i) as [t|] eqn:Et; try done.
  - destruct (pairOk_child _ _ _ _ _ Hok Eo Et) as (d & p & W1 & W2 & Hsub & Hk). cbn [fst snd] in *. f_equal.
    apply (hash_inj sha512Half type Ht d p); try done. by eapply noCollision_sub.
  - exfalso. revert E. apply (childHash_nonzero cs cs' i o Hok). by left.
  - exfalso. symmetry in E. revert E. apply (childHash_nonzero cs cs' i t Hok). by right.
Qed.

Lemma compareBranch_stop cs cs' st f bs :
  f.1.1 = false -> foldl (compareBranch sha512Half cs cs') (Done (st, f)) bs = Done (st, f).
Proof.
  intros Hf. destruct f as [[go d] c]. cbn in Hf. subst go. induction bs as [|b bs IH]; [done|]. cbn [foldl]. exact IH.
Qed.

Definition optSize (o : option Node) : nat := match o with Some n => nodeSize n | None => O end.

Definition branchDiff (cs cs' : list (option Node)) (i : nat) : list (Z * Difference) :=
  diffList (optContents (childAt cs i)) (optContents (childAt cs' i)).

Lemma andThen_recordAll l k d c :
  (recordAll l d c).1.1 = false -> recordAll (l ++ k) d c = recordAll l d c.
Proof. rewrite recordAll_app. destruct (recordAll l d c) as [[[] ?] ?]; done. Qed.

(** The branches of two inner nodes: differences are recorded, and pairs pushed, that
    together are the differences of the nodes. *)
Lemma branches_spec cs cs' bs : forall st d c,
  pairOk (Inner cs, Inner cs') ->
  exists P evs st', foldl (compareBranch sha512Half cs cs') (Done (st, (true, d, c))) bs = Done (st', recordAll evs d c) /\
  ((recordAll evs d c).1.1 = true -> st' = P ++ st) /\
  evs ++ concat (map pairDiff P) ≡ₚ concat (map (branchDiff cs cs') bs) /\ Forall pairOk P /\
  (list_sum (map pairSize P) <= list_sum (map (fun i => optSize (childAt cs i) + optSize (childAt cs' i)) bs))%nat.
Proof.
  induction bs as [|b bs IH]; intros st d c Hok.
  { exists [], [], st. cbn. repeat split; try done. }
  assert (Hwalk : forall n (isFirst : bool) dep p, wfNode type dep p n ->
    (if isFirst then diffList (contents n) ∅ else diffList ∅ (contents n)) ≡ₚ branchDiff cs cs' b ->
    exists P evs st', foldl (compareBranch sha512Half cs cs')
        (mbind_ (walkBranch n None isFirst d c) (fun f => Done (st, f))) bs = Done (st', recordAll evs d c) /\
      ((recordAll evs d c).1.1 = true -> st' = P ++ st) /\
      evs ++ concat (map pairDiff P) ≡ₚ branchDiff cs cs' b ++ concat (map (branchDiff cs cs') bs) /\ Forall pairOk P /\
      (list_sum (map pairSize P) <= list_sum (map (fun i => optSize (childAt cs i) + optSize (childAt cs' i)) bs))%nat).
  { intros n isFirst dep p Hn Hperm. destruct (walkBranch_spec type dep p n None isFirst d c Hn) as (l & -> & Hl). cbn [mbind_].
    rewrite Hperm in Hl. destruct (recordAll l d c) as [[go d'] c'] eqn:Er. destruct go.
    - destruct (IH st d' c' Hok) as (P & evs & st' & E & Hgo & Hp & HP & Hsz). exists P, (l ++ evs), st'.
      rewrite recordAll_app, Er. cbn [andThen]. split; [done|]. split; [done|]. split; [|done].
      rewrite <-app_assoc, Hp, Hl. done.
    - exists [], (l ++ concat (map (branchDiff cs cs') bs)), st.
      rewrite andThen_recordAll, Er by (by rewrite Er). rewrite compareBranch_stop by done.
      split; [done|]. split; [done|]. split; [|split; [constructor|cbn; lia]]. cbn [map concat]. rewrite app_nil_r. by rewrite Hl. }
  pose proof Hok as (dep & p & Hn & Hn' & _). cbn [fst snd] in Hn, Hn'.
  inversion Hn as [|? ? ? Hd Hl Hcs Htwo]; inversion Hn' as [|? ? ? Hd' Hl' Hcs' Htwo']; subst.
  cbn [foldl map concat]. unfold compareBranch at 2. cbn [mbind_ negb].
  change (list_sum (?x :: ?l)) with (x + list_sum l)%nat.
  destruct (Z.eqb_spec (getChildHash sha512Half cs b) (getChildHash sha512Half cs' b)) as [E|Hne].
  - destruct (IH st d c Hok) as (P & evs & st' & -> & Hgo & Hp & HP & Hsz). exists P, evs, st'.
    split; [done|]. split; [done|]. split; [|split; [done|lia]]. rewrite Hp. unfold branchDiff at 2.
    by rewrite (branch_same _ _ _ Hok E), diffList_same.
  - destruct (childAt cs b) as [o|] eqn:Eo, (childAt cs' b) as [t|] eqn:Et.
    + destruct (IH ((o, t) :: st) d c Hok) as (P & evs & st' & -> & Hgo & Hp & HP & Hsz).
      exists (P ++ [(o, t)]), evs, st'. split; [done|]. split; [rewrite <-app_assoc; exact Hgo|]. split.
      * rewrite map_app, concat_app, app_assoc, Hp. cbn [map concat]. rewrite app_nil_r.
        rewrite (Permutation_app_comm). f_equiv. unfold branchDiff, pairDiff. by rewrite Eo, Et.
      * split; [apply Forall_app; split; [done|]; constructor; [by eapply pairOk_child|constructor]|].
        rewrite map_app, list_sum_app. cbn [map]. unfold pairSize at 2. cbn [fst snd optSize].
        unfold list_sum in *. cbn [fold_right]. lia.
    + destruct (Hwalk o true (S dep) (p * 16 + Z.of_nat b)) as (P & evs & st' & E & Hgo & Hp & HP & Hsz); [by apply Hcs| |].
      { unfold branchDiff. by rewrite Eo, Et. }
      exists P, evs, st'. split; [exact E|]. split; [done|]. split; [done|]. split; [done|lia].
    + destruct (Hwalk t false (S dep) (p * 16 + Z.of_nat b)) as (P & evs & st' & E & Hgo & Hp & HP & Hsz); [by apply Hcs'| |].
      { unfold branchDiff. by rewrite Eo, Et. }
      exists P, evs, st'. split; [exact E|]. split; [done|]. split; [done|]. split; [done|lia].
    + exfalso. apply Hne. unfold getChildHash. by rewrite Eo, Et.
Qed.

Lemma contents_leaf t x : contents (Leaf t x) = {[item_key x := x]}.
Proof. done. Qed.

Lemma branch_sizes cs :
  length cs = kBranchFactor ->
  list_sum (map (fun i => optSize (childAt cs i)) (seq 0 kBranchFactor)) = pred (nodeSize (Inner cs)).
Proof.
  intros Hl. cbn [nodeSize pred]. rewrite <-Hl. clear Hl.
  assert (E : forall k, map (fun i => optSize (childAt (k ++ cs) i)) (seq (length k) (length cs)) =
    map (fun c => match c with Some m => nodeSize m | None => O end) cs).
  { induction cs as [|o cs IH]; intros k; [done|]. cbn [length seq map]. f_equal.
    - unfold childAt. rewrite list_lookup_middle by done. by destruct o.
    - specialize (IH (k ++ [o])). rewrite <-app_assoc in IH. cbn [app] in IH.
      rewrite length_app in IH. cbn [length] in IH. by rewrite Nat.add_1_r in IH. }
  by rewrite <-(E []).
Qed.

Lemma list_sum_plus {A} (f g : A -> nat) l :
  list_sum (map (fun i => f i + g i)%nat l) = (list_sum (map f l) + list_sum (map g l))%nat.
Proof. unfold list_sum. induction l as [|x l IH]; cbn [map fold_right]; lia. Qed.

Lemma compareLoop_spec : forall fuel stack d c,
  Forall pairOk stack -> (list_sum (map pairSize stack) <= fuel)%nat ->
  exists evs, compareLoop sha512Half fuel stack d c = Done (recordAll evs d c) /\ evs ≡ₚ concat (map pairDiff stack).
Proof.
  induction fuel as [|fuel IH]; intros stack d c Hok Hf.
  { destruct stack as [|[o t] stack]; [by exists []|]. cbn in Hf. unfold pairSize in Hf. cbn in Hf. pose proof (nodeSize_pos o). lia. }
  destruct stack as [|[o t] stack]; [by exists []|]. apply Forall_cons in Hok as [Hp Hok].
  change (pairSize (o, t) + list_sum (map pairSize stack) <= S fuel)%nat in Hf.
  assert (Hcont : forall l st, Forall pairOk st -> (list_sum (map pairSize st) <= fuel)%nat ->
    exists evs, (let '(go, d', c') := recordAll l d c in
      if go then compareLoop sha512Half fuel st d' c' else Done (recordAll l d c)) = Done (recordAll evs d c) /\
    evs ≡ₚ l ++ concat (map pairDiff st)).
  { intros l st Hst Hsz. destruct (recordAll l d c) as [[go d'] c'] eqn:Er. destruct go.
    - destruct (IH st d' c' Hst Hsz) as (evs & -> & Hev). exists (l ++ evs). rewrite recordAll_app, Er. split; [done|]. by rewrite Hev.
    - exists (l ++ concat (map pairDiff st)). by rewrite andThen_recordAll, Er by (by rewrite Er). }
  pose proof Hp as (dep & p & Hn & Hn' & Hsub & Hk). cbn [fst snd] in *. cbn [map concat].
  assert (Hsz : forall a b, pairSize (a, b) = (nodeSize a + nodeSize b)%nat) by done. rewrite Hsz in Hf.
  destruct o as [to x|cs], t as [tt y|cs'].
  - assert (Hst : (list_sum (map pairSize stack) <= fuel)%nat) by (cbn [nodeSize] in Hf; lia).
    unfold pairDiff at 1. cbn [fst snd]. rewrite !contents_leaf. cbn [compareLoop].
    pose proof (diffList_leaves x y) as Hd. destruct (item_key x =? item_key y).
    + destruct (bool_decide (item_data x = item_data y)); cbn [negb].
      * destruct (Hcont [] stack Hok Hst) as (evs & E & Hev). exists evs. split; [exact E|]. by rewrite Hev, Hd.
      * destruct (Hcont [(item_key x, (Some x, Some y))] stack Hok Hst) as (evs & E & Hev). exists evs.
        split; [|by rewrite Hev, Hd]. rewrite <-E. cbn [recordAll]. by destruct (record _ _ d c) as [[[] ?] ?].
    + destruct (Hcont [(item_key x, (Some x, None)); (item_key y, (None, Some y))] stack Hok Hst) as (evs & E & Hev).
      exists evs. split; [|by rewrite Hev, Hd]. rewrite <-E. cbn [recordAll].
      destruct (record _ _ d c) as [[[] d1] c1]; cbn [negb]; [|done]. by destruct (record _ _ d1 c1) as [[[] ?] ?].
  - destruct (walkBranch_spec type dep p (Inner cs') (Some x) false d c Hn') as (l & E & Hl).
    destruct (Hcont l stack Hok) as (evs & E' & Hev); [pose proof (nodeSize_pos (Inner cs')); cbn [nodeSize] in *; lia|].
    exists evs. cbn [compareLoop]. rewrite E. cbn [mbind_]. split; [exact E'|]. by rewrite Hev, Hl.
  - destruct (walkBranch_spec type dep p (Inner cs) (Some y) true d c Hn) as (l & E & Hl).
    destruct (Hcont l stack Hok) as (evs & E' & Hev); [pose proof (nodeSize_pos (Inner cs)); cbn [nodeSize] in *; lia|].
    exists evs. cbn [compareLoop]. rewrite E. cbn [mbind_]. split; [exact E'|]. by rewrite Hev, Hl.
  - destruct (branches_spec cs cs' (seq 0 kBranchFactor) stack d c Hp) as (P & evs & st' & E & Hgo & Hperm & HP & Hsize).
    rewrite list_sum_plus in Hsize. inversion Hn as [|? ? ? Hd Hl Hcs Htwo]; inversion Hn' as [|? ? ? Hd' Hl' Hcs' Htwo']; subst.
    rewrite !branch_sizes in Hsize by done.
    assert (Hfull : forall rest, evs ++ concat (map pairDiff P) ++ rest ≡ₚ pairDiff (Inner cs, Inner cs') ++ rest).
    { intros rest. rewrite app_assoc, Hperm. unfold pairDiff. cbn [fst snd]. by rewrite (diffList_inner type dep p). }
    cbn [compareLoop]. rewrite E. cbn [mbind_ fst snd]. destruct (recordAll evs d c) as [[go d'] c'] eqn:Er. destruct go.
    + rewrite (Hgo eq_refl). destruct (IH (P ++ stack) d' c') as (evs' & E' & Hev').
      { by apply Forall_app. }
      { rewrite map_app, list_sum_app. pose proof (nodeSize_pos (Inner cs)). pose proof (nodeSize_pos (Inner cs')). lia. }
      exists (evs ++ evs'). rewrite recordAll_app, Er. split; [exact E'|].
      by rewrite Hev', map_app, concat_app, Hfull.
    + exists (evs ++ concat (map pairDiff (P ++ stack))). rewrite andThen_recordAll, Er by (by rewrite Er).
      split; [done|]. by rewrite map_app, concat_app, Hfull.
Qed.
End Compare.

Lemma compare_spec (sha512Half : list Z -> Z) (type : SHAMapNodeType) (n m : Node) (maxCount : Z)
    (Ht : validType type) (Hn : wfRoot type n) (Hm : wfRoot type m)
    (Hkey : type = TnTransactionNm -> keyed sha512Half n /\ keyed sha512Half m)
    (Hnc : noCollision sha512Half (preimages sha512Half n ++ preimages sha512Half m)) (Hc : 0 < maxCount) :
  let D := diffMap (contents n) (contents m) in
  (Z.of_nat (size D) < maxCount -> compare sha512Half n m ∅ maxCount = Done (true, D)) /\
  (maxCount <= Z.of_nat (size D) ->
     exists d, compare sha512Half n m ∅ maxCount = Done (false, d) /\ d ⊆ D /\ Z.of_nat (size d) = maxCount).
Proof.
  intros D. unfold compare. destruct (Z.eqb_spec (nodeHash sha512Half n) (nodeHash sha512Half m)) as [E|_].
  { apply (hash_inj sha512Half type Ht 0 0 n Hn m Hm Hkey Hnc) in E. subst m. unfold D. rewrite diffMap_same, map_size_empty.
    split; [done|lia]. }
  destruct (compareLoop_spec sha512Half type _ Ht Hnc (nodeSize n + nodeSize m) [(n, m)] ∅ maxCount) as (evs & -> & Hev).
  { constructor; [|constructor]. exists O, 0. done. } { cbn. unfold pairSize. cbn. lia. }
  cbn [map concat] in Hev. rewrite app_nil_r in Hev. unfold pairDiff in Hev. cbn [fst snd] in Hev.
  change (diffList (contents n) (contents m)) with (map_to_list D) in Hev.
  assert (Hnd : NoDup evs.*1) by (rewrite Hev; apply NoDup_fst_map_to_list).
  assert (Em : list_to_map evs = D) by (rewrite <-(list_to_map_to_list D); by apply list_to_map_proper).
  assert (El : length evs = size D) by (rewrite Hev; apply length_map_to_list).
  destruct (recordAll_spec evs ∅ maxCount Hnd ltac:(intros; apply lookup_empty) Hc) as [(Hl & ->)|(Hl & d & -> & Hsub & Hsz)];
    rewrite El in *; cbn [mbind_].
  - split; [|lia]. intros _. by rewrite Em, (right_id_L ∅ (∪)).
  - split; [lia|]. intros _. exists d. rewrite Em, (right_id_L ∅ (∪)) in Hsub. rewrite map_size_empty in Hsz.
    split; [done|]. split; [done|lia].
Qed.

(** C12: Comparing two maps finds exactly their differences: when fewer than the number
    asked for, all the keys whose items differ, each with the item of either side; and
    otherwise it says so, after recording exactly that number of true differences.  Equal
    hashes are enough to skip a branch when the digest does not collide on the bytes
    hashed for the two maps. *)
Theorem compare_exact (sha512Half : list Z -> Z) (type : SHAMapNodeType) (n m : Node) (maxCount : Z)
    (Ht : validType type) (Hn : wfRoot type n) (Hm : wfRoot type m)
    (Hkey : type = TnTransactionNm -> keyed sha512Half n /\ keyed sha512Half m)
    (Hnc : noCollision sha512Half (preimages sha512Half n ++ preimages sha512Half m)) (Hc : 0 < maxCount) :
  let D := diffMap (contents n) (contents m) in
  (Z.of_nat (size D) < maxCount -> compare sha512Half n m ∅ maxCount = Done (true, D)) /\
  (maxCount <= Z.of_nat (size D) ->
     exists d, compare sha512Half n m ∅ maxCount = Done (false, d) /\ d ⊆ D /\ Z.of_nat (size d) = maxCount).
Proof. by apply (compare_spec sha512Half type). Qed.

Lemma compare_exact_witness :
  let n := treeOf TnAccountState [itemA; itemB; itemC] in
  let m := treeOf TnAccountState [itemB'; itemC] in
  let D := diffMap (contents n) (contents m) in
  (Z.of_nat (size D) < 10 -> compare sampleDigest n m ∅ 10 = Done (true, D)) /\
  (10 <= Z.of_nat (size D) ->
     exists d, compare sampleDigest n m ∅ 10 = Done (false, d) /\ d ⊆ D /\ Z.of_nat (size d) = 10).
Proof.
  apply (compare_exact sampleDigest TnAccountState); [done|by apply treeOf_sample|by apply treeOf_sample|done| |lia].
  apply checkNoCollision_ok. vm_compute. reflexivity.
Defined.
