(* ===== verification/ShaMapIter.v ===== *)
(** * SHAMap: iteration

    Iterating visits the items in the order of their keys, and the two bounds are the
    neighbours of a key. *)
From S2P Require Import Prelude Digits HashPrefix NodeID ShaMap ShaMapFacts ShaMapSpec.
#[local] Open Scope map_scope.

(** ** Directions *)

(** The items of a node in the order of a direction. *)
Definition dItems (dir : BelowDirection) (n : Node) : list SHAMapItem :=
  match dir with First => items n | Last => rev (items n) end.

Definition dItemsOf (dir : BelowDirection) (cs : list (option Node)) (b : nat) : list SHAMapItem :=
  match childAt cs b with Some c => dItems dir c | None => [] end.

(** The branches beyond one. *)
Definition beyond (dir : BelowDirection) (b : nat) : list nat :=
  match dir with First => seq (S b) (kBranchFactor - S b) | Last => rev (seq 0 b) end.

Definition upTo (dir : BelowDirection) (b : nat) : list nat :=
  match dir with First => seq 0 b | Last => rev (seq (S b) (kBranchFactor - S b)) end.

Lemma scanOrder_split dir b : (b < kBranchFactor)%nat -> scanOrder dir = upTo dir b ++ b :: beyond dir b.
Proof.
  intros Hb. assert (E : seq 0 kBranchFactor = seq 0 b ++ b :: seq (S b) (kBranchFactor - S b)).
  { replace kBranchFactor with (b + S (kBranchFactor - S b))%nat at 1 by lia. rewrite seq_app. done. }
  destruct dir; cbn [scanOrder upTo beyond]; [done|]. rewrite E, rev_app_distr. cbn [rev]. by rewrite <-app_assoc.
Qed.

Lemma scanOrder_nodup dir : NoDup (scanOrder dir).
Proof. destruct dir; cbn [scanOrder]; [apply NoDup_seq|]. rewrite <-Permutation_rev. apply NoDup_seq. Qed.

Lemma NoDup_split {A} (x : A) l1 l2 k1 k2 :
  NoDup (l1 ++ x :: l2) -> l1 ++ x :: l2 = k1 ++ x :: k2 -> l1 = k1 /\ l2 = k2.
Proof.
  revert k1. induction l1 as [|y l1 IH]; intros k1 Hnd E; destruct k1 as [|z k1]; cbn [app] in *.
  - by injection E.
  - injection E as <- E. apply NoDup_cons in Hnd as [Hx _]. destruct Hx. rewrite E. apply elem_of_app. right. left.
  - injection E as -> E. apply NoDup_cons in Hnd as [Hx _]. destruct Hx. apply elem_of_app. right. left.
  - injection E as -> E. apply NoDup_cons in Hnd as [_ Hnd]. by destruct (IH k1 Hnd E) as [-> ->].
Qed.

Lemma firstChild_some cs bs b c :
  firstChild cs bs = Some (b, c) ->
  childAt cs b = Some c /\ exists bs1 bs2, bs = bs1 ++ b :: bs2 /\ Forall (fun b => childAt cs b = None) bs1.
Proof.
  induction bs as [|b' bs IH]; [done|]. cbn [firstChild]. destruct (childAt cs b') as [c'|] eqn:E.
  - intros [= -> ->]. split; [done|]. by exists [], bs.
  - intros H. destruct (IH H) as (Hc & bs1 & bs2 & -> & Hn). split; [done|]. exists (b' :: bs1), bs2. split; [done|]. by constructor.
Qed.

Lemma firstChild_none cs bs : firstChild cs bs = None -> Forall (fun b => childAt cs b = None) bs.
Proof.
  induction bs as [|b bs IH]; [constructor|]. cbn [firstChild]. destruct (childAt cs b) eqn:E; [done|].
  intros H. constructor; [done|]. by apply IH.
Qed.

Definition scanItems (dir : BelowDirection) (cs : list (option Node)) (bs : list nat) : list SHAMapItem :=
  concat (map (dItemsOf dir cs) bs).

Lemma scanItems_empty dir cs bs : Forall (fun b => childAt cs b = None) bs -> scanItems dir cs bs = [].
Proof. unfold scanItems. induction 1 as [|b bs Hb Hbs IH]; [done|]. cbn. unfold dItemsOf. by rewrite Hb. Qed.

Lemma scanItems_app dir cs bs bs' : scanItems dir cs (bs ++ bs') = scanItems dir cs bs ++ scanItems dir cs bs'.
Proof. unfold scanItems. by rewrite map_app, concat_app. Qed.

Lemma dItems_inner dir cs : length cs = kBranchFactor -> dItems dir (Inner cs) = scanItems dir cs (scanOrder dir).
Proof.
  intros Hl. assert (E : items (Inner cs) = scanItems First cs (seq 0 kBranchFactor)).
  { rewrite <-Hl. clear Hl. unfold scanItems. cbn [items].
    assert (H : forall k, map (dItemsOf First (k ++ cs)) (seq (length k) (length cs)) =
      map (fun c => match c with Some m => items m | None => [] end) cs).
    { induction cs as [|o cs IH]; intros k; [done|]. cbn [length seq map]. f_equal.
      - unfold dItemsOf, childAt. rewrite list_lookup_middle by done. by destruct o.
      - specialize (IH (k ++ [o])). rewrite <-app_assoc in IH. cbn [app] in IH.
        rewrite length_app in IH. cbn [length] in IH. by rewrite Nat.add_1_r in IH. }
    by rewrite <-(H []). }
  destruct dir; cbn [dItems scanOrder]; [done|]. rewrite E. unfold scanItems.
  assert (H : forall l, rev (concat (map (dItemsOf First cs) l)) = concat (map (dItemsOf Last cs) (rev l))).
  { induction l as [|b l IH]; [done|]. cbn [map concat rev]. rewrite rev_app_distr, IH, map_app, concat_app. f_equal.
    cbn. rewrite app_nil_r. unfold dItemsOf. by destruct (childAt cs b). }
  apply H.
Qed.

(** ** Paths *)

Lemma createID_prefix d k k' :
  isKey k -> isKey k' -> (d <= 64)%nat -> prefix k d = prefix k' d -> createID d k = createID d k'.
Proof. intros Hk Hk' Hd E. rewrite !createID_eq by done. unfold positionKey. by rewrite E. Qed.

Lemma Zip_rekey k k' st d n d' n' st' type p :
  Zip k st d n d' n' st' -> wfNode type d p n -> isKey k -> isKey k' -> prefix k d' = prefix k' d' ->
  Zip k' st d n d' n' st'.
Proof.
  intros Hz. revert p. induction Hz as [|st d cs c d' n' st' Hc Hz IH]; intros p Hn Hk Hk' E; [constructor|].
  inversion Hn as [|? ? ? Hd Hl Hcs Htwo]; subst.
  assert (Hd' : (S d <= d' <= 64)%nat).
  { assert (H : forall st d n d' n' st', Zip k st d n d' n' st' -> forall p, wfNode type d p n -> (d <= d' <= 64)%nat).
    { clear. induction 1 as [|? ? ? ? ? ? ? Hc Hz IH]; intros p Hn; [inversion Hn; subst; lia|].
      inversion Hn as [|? ? ? Hd Hl Hcs Htwo]; subst. specialize (IH _ (Hcs _ _ Hc)). lia. }
    exact (H _ _ _ _ _ _ Hz _ (Hcs _ _ Hc)). }
  pose proof (proj1 (prefix_split k k' d' ltac:(lia) Hk Hk') E) as Hnib.
  assert (Ep : prefix k d = prefix k' d) by (apply prefix_split; [lia|done|done|]; intros i Hi; apply Hnib; lia).
  apply (ZipDown k' st d cs c); [rewrite <-(Hnib d) by lia; done|].
  rewrite <-(createID_prefix d k k') by (done || lia). by apply (IH _ (Hcs _ _ Hc)).
Qed.

Lemma Zip_trans k st d n d1 n1 st1 d2 n2 st2 :
  Zip k st d n d1 n1 st1 -> Zip k st1 d1 n1 d2 n2 st2 -> Zip k st d n d2 n2 st2.
Proof. induction 1 as [|st d cs c d1 n1 st1 Hc Hz IH]; [done|]. intros H. apply (ZipDown _ _ _ _ c); [done|]. by apply IH. Qed.

Lemma Zip_top k st d n d' n' st' m id rest :
  Zip k st d n d' n' st' -> st' = (m, id) :: rest ->
  (d' = d /\ n' = n /\ st' = st) \/
  (exists d0 cs, d' = S d0 /\ m = Inner cs /\ id = createID d0 k /\
    childAt cs (Z.to_nat (nibble k d0)) = Some n' /\ Zip k st d n d0 (Inner cs) rest).
Proof.
  induction 1 as [|st d cs c d' n' st' Hc Hz IH]; intros E; [by left|]. right.
  destruct (IH E) as [(-> & -> & E')|(d0 & cs0 & H1 & H2 & H3 & H4 & H5)].
  - rewrite E in E'. injection E' as -> -> ->. exists d, cs. do 4 (split; [done|]). constructor.
  - exists d0, cs0. do 4 (split; [done|]). by apply (ZipDown _ _ _ _ c).
Qed.

(** What lies beyond a path, in a direction. *)
Fixpoint rest (dir : BelowDirection) (k : Z) (st : NodePathStack) : list SHAMapItem :=
  match st with
  | (Inner cs, id) :: st => scanItems dir cs (beyond dir (Z.to_nat (nibble k (depth_ id)))) ++ rest dir k st
  | _ => []
  end.

Lemma rest_inner dir k d cs st :
  (d <= 64)%nat ->
  rest dir k ((Inner cs, createID d k) :: st) = scanItems dir cs (beyond dir (Z.to_nat (nibble k d))) ++ rest dir k st.
Proof. intros Hd. cbn [rest]. by rewrite createID_depth. Qed.

(** ** Descending *)

Section Descend.
Context (type : SHAMapNodeType) (dir : BelowDirection).

Lemma elem_of_dItems n x : x ∈ dItems dir n <-> x ∈ items n.
Proof. destruct dir; cbn [dItems]; [done|]. by rewrite <-Permutation_rev. Qed.

Lemma pushChild_key d p cs k b c z st :
  wfNode type d p (Inner cs) -> isKey k -> prefix k d = p -> childAt cs b = Some c -> z ∈ items c ->
  pushChild c b ((Inner cs, createID d k) :: st) = Done ((c, createID (S d) (item_key z)) :: (Inner cs, createID d k) :: st).
Proof.
  intros Hn Hk Hp Hb Hz. pose proof (items_branch _ _ _ _ _ _ _ Hn Hb Hz) as Eb.
  assert (Hin : z ∈ items (Inner cs)) by (apply elem_of_items_inner; by exists b, c).
  destruct (items_prefix _ _ _ _ _ Hn Hin) as [Hzk Hzp]. inversion Hn as [|? ? ? Hd Hl Hc Htwo]; subst.
  unfold pushChild. rewrite (createID_prefix d k (item_key z)) by (done || lia).
  replace b with (Z.to_nat (nibble (item_key z) d)) by lia. by rewrite getChildNodeID_path.
Qed.

(** Where the first child in a direction is. *)
Lemma firstChild_scan cs bs1 bs b c :
  length cs = kBranchFactor -> scanOrder dir = bs1 ++ bs -> firstChild cs bs = Some (b, c) ->
  childAt cs b = Some c /\ scanItems dir cs bs = dItems dir c ++ scanItems dir cs (beyond dir b).
Proof.
  intros Hl E H. destruct (firstChild_some _ _ _ _ H) as (Hb & l1 & l2 & -> & Hn). split; [done|].
  assert (Hb16 : (b < kBranchFactor)%nat) by (rewrite <-Hl; apply childAt_lookup, lookup_lt_Some in Hb; exact Hb).
  pose proof (scanOrder_nodup dir) as Hnd. rewrite app_assoc in E. pose proof (scanOrder_split dir b Hb16) as E2.
  rewrite E in E2, Hnd. destruct (NoDup_split _ _ _ _ _ Hnd E2) as [_ <-].
  rewrite scanItems_app, scanItems_empty by done. cbn [app]. unfold scanItems. cbn [map concat].
  unfold dItemsOf at 1. by rewrite Hb.
Qed.

Lemma belowLoop_spec n : forall d p fuel k st,
  wfNode type d p n -> (exists x, x ∈ items n) -> isKey k -> prefix k d = p -> (64 <= fuel + d)%nat ->
  exists y l d' st', belowLoop fuel ((n, createID d k) :: st) dir =
    Done ((Leaf type y, createID d' (item_key y)) :: st', Some y) /\
  Zip (item_key y) st d n d' (Leaf type y) st' /\
  dItems dir n = y :: l /\ rest dir (item_key y) st' = l ++ rest dir (item_key y) st.
Proof.
  intros d p fuel k st Hn. revert fuel k st. induction Hn as [d p item Hd Hik Hp|d p cs Hd Hl Hc IH Htwo]; intros fuel k st Hex Hk Ek Hf.
  - exists item, [], d, st. rewrite (createID_prefix d k (item_key item)) by (done || lia || congruence).
    split; [by destruct fuel|]. split; [constructor|]. split; [by destruct dir|done].
  - assert (Hn : wfNode type d p (Inner cs)) by by constructor. pose proof (dItems_inner dir cs Hl) as Eit.
    destruct (firstChild cs (scanOrder dir)) as [[b c]|] eqn:Ef.
    + destruct (firstChild_scan cs [] _ b c Hl eq_refl Ef) as [Hb Es].
      destruct (items_nonempty _ _ _ _ (Hc b c Hb) ltac:(lia)) as [z Hz].
      assert (Hzk : isKey (item_key z) /\ prefix (item_key z) (S d) = p * 16 + Z.of_nat b) by by apply (items_prefix _ _ _ _ _ (Hc b c Hb)).
      destruct fuel as [|fuel]; [lia|]. cbn [belowLoop]. rewrite Ef, (pushChild_key d p cs k b c z) by done. cbn [mbind_].
      destruct (IH b c Hb fuel (item_key z) ((Inner cs, createID d k) :: st)) as (y & l & d' & st' & E & Hz' & El & Er);
        [by exists z|apply Hzk|apply Hzk|lia|].
      assert (Hy : y ∈ items c) by (apply elem_of_dItems; rewrite El; left).
      assert (Hyi : y ∈ items (Inner cs)) by (apply elem_of_items_inner; by exists b, c).
      destruct (items_prefix _ _ _ _ _ Hn Hyi) as [Hyk Hyp]. pose proof (items_branch _ _ _ _ _ _ _ Hn Hb Hy) as Eb.
      rewrite (createID_prefix d k (item_key y)) in E, Hz', Er by (done || lia || congruence).
      rewrite rest_inner in Er by lia. rewrite <-Eb, Nat2Z.id in Er.
      exists y, (l ++ scanItems dir cs (beyond dir b)), d', st'.
      split; [by rewrite (createID_prefix d k (item_key y)) by (done || lia || congruence)|].
      split; [apply (ZipDown _ _ _ _ c); [by rewrite <-Eb, Nat2Z.id|done]|].
      split; [by rewrite Eit, Es, El|by rewrite Er, app_assoc].
    + destruct Hex as [x Hx]. apply elem_of_dItems in Hx. rewrite Eit, scanItems_empty in Hx by by apply firstChild_none.
      by apply not_elem_of_nil in Hx.
Qed.

End Descend.

(** ** Ascending *)

Lemma Zip_keyed type root k d n st :
  wfRoot type root -> isKey k -> Zip k [] 0 root d n st -> wfNode type d (prefix k d) n.
Proof. intros Hr Hk Hz. exact (proj1 (Zip_wf _ _ _ _ _ _ _ _ _ Hz Hr Hk (prefix_0 k Hk))). Qed.

Lemma wfNode_depth type d p n : wfNode type d p n -> (d <= 64)%nat.
Proof. inversion 1; lia. Qed.

Section Ascend.
Context (type : SHAMapNodeType) (root : Node) (Hroot : wfRoot type root).

(** The stack below a node reached. *)
Lemma Zip_pop k d n m id st :
  isKey k -> Zip k [] 0 root d n ((m, id) :: st) ->
  exists d0 cs, d = S d0 /\ (d0 < 64)%nat /\ length cs = kBranchFactor /\ m = Inner cs /\ id = createID d0 k /\
    Zip k [] 0 root d0 (Inner cs) st /\ wfNode type d0 (prefix k d0) (Inner cs) /\
    childAt cs (Z.to_nat (nibble k d0)) = Some n.
Proof.
  intros Hk Hz. destruct (Zip_top _ _ _ _ _ _ _ _ _ _ Hz eq_refl) as [(_ & _ & E)|(d0 & cs & E1 & E2 & E3 & E4 & E5)]; [done|].
  pose proof (Zip_keyed _ _ _ _ _ _ Hroot Hk E5) as Hw. exists d0, cs. inversion Hw; subst. done.
Qed.

Lemma rest_rekey dir k k' st : forall d n,
  isKey k -> isKey k' -> Zip k [] 0 root d n st -> prefix k d = prefix k' d -> rest dir k st = rest dir k' st.
Proof.
  induction st as [|[m id] st IH]; intros d n Hk Hk' Hz E; [done|].
  destruct (Zip_pop _ _ _ _ _ _ Hk Hz) as (d0 & cs & -> & Hd & Hl & -> & -> & Hz0 & Hw & Hc).
  pose proof (proj1 (prefix_split k k' (S d0) ltac:(lia) Hk Hk') E) as Hnib.
  assert (E0 : prefix k d0 = prefix k' d0) by (apply prefix_split; [lia|done|done|]; intros i Hi; apply Hnib; lia).
  rewrite rest_inner by lia. rewrite (createID_prefix d0 k k') by (done || lia). rewrite rest_inner by lia.
  rewrite (Hnib d0) by lia. f_equal. by apply (IH _ _ Hk Hk' Hz0).
Qed.

(** What is found beyond a path: the first item there, and the path to it. *)
Definition foundBeyond (dir : BelowDirection) (items : list SHAMapItem) (r : MapResult (NodePathStack * option SHAMapItem)) : Prop :=
  match items with
  | [] => r = Done ([], None)
  | y :: l => exists d st, r = Done ((Leaf type y, createID d (item_key y)) :: st, Some y) /\
      isKey (item_key y) /\ Zip (item_key y) [] 0 root d (Leaf type y) st /\ rest dir (item_key y) st = l
  end.

Lemma descend_spec dir d cs k st b c bs1 bs :
  isKey k -> Zip k [] 0 root d (Inner cs) st -> scanOrder dir = bs1 ++ bs -> firstChild cs bs = Some (b, c) ->
  foundBeyond dir (scanItems dir cs bs ++ rest dir k st)
    (let* stack := pushChild c b ((Inner cs, createID d k) :: st) in
     let* r := belowHelper stack dir in match r.2 with None => MissingNode | Some _ => Done r end).
Proof.
  intros Hk Hz Ebs Ef. pose proof (Zip_keyed _ _ _ _ _ _ Hroot Hk Hz) as Hw.
  inversion Hw as [|? ? ? Hd Hl Hc Htwo]; subst.
  destruct (firstChild_scan dir cs bs1 bs b c Hl Ebs Ef) as [Hb Es].
  destruct (items_nonempty _ _ _ _ (Hc b c Hb) ltac:(lia)) as [z Hzc].
  destruct (items_prefix _ _ _ _ _ (Hc b c Hb) Hzc) as [Hzk Hzp].
  rewrite (pushChild_key type d _ cs k b c z st Hw Hk eq_refl Hb Hzc). cbn [mbind_]. unfold belowHelper.
  destruct (belowLoop_spec type dir c (S d) _ kLeafDepth (item_key z) ((Inner cs, createID d k) :: st) (Hc b c Hb))
    as (y & l & d' & st' & E & Hz' & El & Er); [by exists z|done|done|unfold kLeafDepth; lia|].
  rewrite E. cbn [mbind_ snd]. rewrite Es, El. cbn [app foundBeyond]. exists d', st'. split; [done|].
  assert (Hy : y ∈ items c) by (apply (elem_of_dItems dir); rewrite El; left).
  assert (Hyi : y ∈ items (Inner cs)) by (apply elem_of_items_inner; by exists b, c).
  destruct (items_prefix _ _ _ _ _ Hw Hyi) as [Hyk Hyp]. pose proof (items_branch _ _ _ _ _ _ _ Hw Hb Hy) as Eb.
  rewrite (createID_prefix d k (item_key y)) in Hz', Er by (done || lia). rewrite rest_inner in Er by lia.
  rewrite <-Eb, Nat2Z.id in Er. split; [done|]. split.
  - apply (Zip_trans _ _ _ _ d (Inner cs) st); [by apply (Zip_rekey k _ _ _ _ _ _ _ type 0)|].
    apply (ZipDown _ _ _ _ c); [by rewrite <-Eb, Nat2Z.id|done].
  - rewrite Er, <-(rest_rekey dir k (item_key y) st d (Inner cs)) by done. by rewrite app_assoc.
Qed.

Lemma beyond_scan dir b : (b < kBranchFactor)%nat -> exists bs1, scanOrder dir = bs1 ++ beyond dir b.
Proof. intros Hb. exists (upTo dir b ++ [b]). rewrite <-app_assoc. by apply scanOrder_split. Qed.

Lemma boundLoop_inner dir d cs k st :
  isKey k -> Zip k [] 0 root d (Inner cs) st -> foundBeyond dir (rest dir k st) (boundLoop st k dir) ->
  foundBeyond dir (rest dir k ((Inner cs, createID d k) :: st)) (boundLoop ((Inner cs, createID d k) :: st) k dir).
Proof.
  intros Hk Hz Hst. pose proof (Zip_keyed _ _ _ _ _ _ Hroot Hk Hz) as Hw. inversion Hw as [|? ? ? Hd Hl Hc Htwo]; subst.
  rewrite rest_inner by lia. cbn [boundLoop]. rewrite selectBranch_path by done.
  assert (Hb : (Z.to_nat (nibble k d) < kBranchFactor)%nat) by (pose proof (nibble_range k d); unfold kBranchFactor; lia).
  set (t := Z.to_nat (nibble k d)) in *.
  replace (match dir with First => seq (S t) (kBranchFactor - 1 - t) | Last => rev (seq 0 t) end) with (beyond dir t)
    by (destruct dir; cbn [beyond]; [f_equal; lia|done]).
  destruct (beyond_scan dir t Hb) as [bs1 Ebs]. destruct (firstChild cs (beyond dir t)) as [[b c]|] eqn:Ef.
  - by apply (descend_spec dir d cs k st b c bs1).
  - by rewrite scanItems_empty by by apply firstChild_none.
Qed.

Lemma boundLoop_spec dir k st : forall d n,
  isKey k -> Zip k [] 0 root d n st -> foundBeyond dir (rest dir k st) (boundLoop st k dir).
Proof.
  induction st as [|[m id] st IH]; intros d n Hk Hz; [done|].
  destruct (Zip_pop _ _ _ _ _ _ Hk Hz) as (d0 & cs & -> & Hd & Hl & -> & -> & Hz0 & Hw & Hc).
  apply boundLoop_inner; [done|done|]. by apply (IH d0 (Inner cs)).
Qed.

Lemma nextLoop_bound k st : forall d n,
  isKey k -> Zip k [] 0 root d n st -> nextLoop st k = boundLoop st k First.
Proof.
  induction st as [|[m id] st IH]; intros d n Hk Hz; [done|].
  destruct (Zip_pop _ _ _ _ _ _ Hk Hz) as (d0 & cs & -> & Hd & Hl & -> & -> & Hz0 & Hw & Hc).
  cbn [nextLoop boundLoop]. replace (kBranchFactor - S (selectBranch (createID d0 k) k))%nat
    with (kBranchFactor - 1 - selectBranch (createID d0 k) k)%nat by lia.
  destruct (firstChild cs _) as [[b c]|]; [done|]. by apply (IH d0 (Inner cs)).
Qed.

Lemma iterateFrom_spec fuel : forall x d st id,
  Zip (item_key x) [] 0 root d (Leaf type x) st -> isKey (item_key x) -> (length (rest First (item_key x) st) < fuel)%nat ->
  iterateFrom fuel ((Leaf type x, id) :: st) (Some x) = Done (x :: rest First (item_key x) st).
Proof.
  induction fuel as [|fuel IH]; intros x d st id Hz Hk Hf; [lia|]. cbn [iterateFrom]. unfold peekNextItem. cbn [tail].
  rewrite (nextLoop_bound _ _ _ _ Hk Hz). pose proof (boundLoop_spec First _ _ _ _ Hk Hz) as Hb.
  destruct (rest First (item_key x) st) as [|y l]; cbn [foundBeyond length] in *.
  - rewrite Hb. cbn [mbind_ fst snd]. by destruct fuel.
  - destruct Hb as (d' & st' & E & Hy & Hz' & <-). rewrite E. cbn [mbind_ fst snd].
    rewrite (IH y d') by (done || lia). done.
Qed.

End Ascend.

(** ** Order along a path *)

Definition past (dir : BelowDirection) (k : Z) (x : SHAMapItem) : Prop :=
  match dir with First => k < item_key x | Last => item_key x < k end.
Definition short (dir : BelowDirection) (k : Z) (x : SHAMapItem) : Prop :=
  match dir with First => item_key x < k | Last => k < item_key x end.

#[export] Instance past_dec dir k x : Decision (past dir k x).
Proof. destruct dir; cbn; apply _. Defined.

Lemma scanItems_Forall (P : SHAMapItem -> Prop) dir cs bs :
  (forall b c x, b ∈ bs -> childAt cs b = Some c -> x ∈ items c -> P x) -> Forall P (scanItems dir cs bs).
Proof.
  intros H. apply Forall_forall. intros x Hx. unfold scanItems in Hx. apply list_elem_of_In, in_concat in Hx as (l & Hl & Hx).
  apply in_map_iff in Hl as (b & <- & Hb). unfold dItemsOf in Hx. destruct (childAt cs b) as [c|] eqn:Hc; [|done].
  apply (H b c); [by apply list_elem_of_In|done|]. apply (elem_of_dItems dir). by apply list_elem_of_In.
Qed.

(** What is in a branch before or after the branch of a key is before or after the key. *)
Lemma branch_order type d cs k b c x :
  wfNode type d (prefix k d) (Inner cs) -> isKey k -> childAt cs b = Some c -> x ∈ items c ->
  ((b < Z.to_nat (nibble k d))%nat -> item_key x < k) /\ ((Z.to_nat (nibble k d) < b)%nat -> k < item_key x).
Proof.
  intros Hw Hk Hb Hx. pose proof (items_branch _ _ _ _ _ _ _ Hw Hb Hx) as Eb.
  assert (Hxi : x ∈ items (Inner cs)) by (apply elem_of_items_inner; by exists b, c).
  destruct (items_prefix _ _ _ _ _ Hw Hxi) as [Hxk Hxp]. inversion Hw; subst. pose proof (nibble_range k d).
  split; intros Hlt; apply (prefix_lt _ _ (S d)); try lia; rewrite !prefix_S by lia; lia.
Qed.

Lemma beyond_past type d cs k dir :
  wfNode type d (prefix k d) (Inner cs) -> isKey k ->
  Forall (past dir k) (scanItems dir cs (beyond dir (Z.to_nat (nibble k d)))) /\
  Forall (short dir k) (scanItems dir cs (upTo dir (Z.to_nat (nibble k d)))).
Proof.
  intros Hw Hk. split; apply scanItems_Forall; intros b c x Hb Hc Hx;
    destruct (branch_order _ _ _ _ _ _ _ Hw Hk Hc Hx) as [H1 H2];
    (destruct dir; cbn [beyond upTo past short] in *; [|rewrite <-Permutation_rev in Hb]);
    apply elem_of_seq in Hb; (apply H1 || apply H2); lia.
Qed.

Lemma Zip_order type dir k st d n d' n' st' :
  Zip k st d n d' n' st' -> isKey k -> wfNode type d (prefix k d) n ->
  exists pre post, dItems dir n = pre ++ dItems dir n' ++ post /\ rest dir k st' = post ++ rest dir k st /\
  Forall (short dir k) pre /\ Forall (past dir k) post.
Proof.
  induction 1 as [st d n|st d cs c d' n' st' Hc Hz IH]; intros Hk Hw.
  - exists [], []. by rewrite app_nil_r.
  - pose proof Hw as Hw'. inversion Hw' as [|? ? ? Hd Hl Hcs Htwo]; subst. pose proof (nibble_range k d) as Hr.
    pose proof (Hcs _ _ Hc) as Hcw. rewrite Z2Nat.id, <-prefix_S in Hcw by lia.
    destruct (IH Hk Hcw) as (pre & post & E1 & E2 & H1 & H2).
    destruct (beyond_past _ _ _ _ dir Hw Hk) as [Hp Hs]. rewrite rest_inner in E2 by lia.
    set (t := Z.to_nat (nibble k d)) in *.
    exists (scanItems dir cs (upTo dir t) ++ pre), (post ++ scanItems dir cs (beyond dir t)).
    rewrite dItems_inner, (scanOrder_split dir t), scanItems_app by (done || unfold kBranchFactor; lia).
    split_and!; [|by rewrite E2, app_assoc|by apply Forall_app|by apply Forall_app].
    change (t :: beyond dir t) with ([t] ++ beyond dir t). rewrite scanItems_app.
    replace (scanItems dir cs [t]) with (dItems dir c) by (unfold scanItems; cbn; unfold dItemsOf; by rewrite Hc, app_nil_r).
    rewrite E1, <-!app_assoc. done.
Qed.

Lemma filter_all {A} (P : A -> Prop) `{!forall x, Decision (P x)} l : Forall P l -> filter P l = l.
Proof. induction 1 as [|x l Hx Hl IH]; [done|]. rewrite filter_cons_True by done. by rewrite IH. Qed.

Lemma filter_none {A} (P : A -> Prop) `{!forall x, Decision (P x)} l : Forall (fun x => ~ P x) l -> filter P l = [].
Proof. induction 1 as [|x l Hx Hl IH]; [done|]. by rewrite filter_cons_False. Qed.

Lemma short_not_past dir k l : Forall (short dir k) l -> Forall (fun x => ~ past dir k x) l.
Proof. intros H. apply (Forall_impl _ _ _ H). intros x. destruct dir; cbn; lia. Qed.

Lemma foundBeyond_head type root dir l r :
  foundBeyond type root dir l r -> exists st, r = Done (st, head l).
Proof. destruct l as [|y l]; cbn [foundBeyond head]; [intros ->; by eexists|]. intros (d & st & -> & _). by eexists. Qed.

Lemma boundHelper_spec type root dir k :
  wfRoot type root -> isKey k ->
  exists st, boundHelper root k dir = Done (st, head (filter (past dir k) (dItems dir root))).
Proof.
  intros Hr Hk. destruct (walk_root type root k Hr Hk) as (d & n & st & E & Hz & Hs). unfold boundHelper. rewrite E. cbn [mbind_ fst].
  assert (Hw0 : wfNode type 0 (prefix k 0) root) by by rewrite prefix_0.
  destruct (Zip_order type dir k _ _ _ _ _ _ Hz Hk Hw0) as (pre & post & E1 & E2 & H1 & H2).
  pose proof (Zip_keyed _ _ _ _ _ _ Hr Hk Hz) as Hw. cbn [rest] in E2. rewrite app_nil_r in E2. subst post.
  rewrite E1, !filter_app, (filter_none _ pre), (filter_all _ (rest dir k st)) by (try apply short_not_past; done). cbn [app].
  destruct (foundBeyond_head _ _ _ _ _ (boundLoop_spec type root Hr dir k st d n Hk Hz)) as [st' Eb].
  destruct n as [t item|cs].
  - assert (Ed : dItems dir (Leaf t item) = [item]) by by destruct dir. rewrite Ed.
    assert (t = type) as -> by by inversion Hw.
    cbn [boundLoop]. replace (match dir with First => k <? item_key item | Last => item_key item <? k end)
      with (bool_decide (past dir k item)) by (destruct dir; case_bool_decide as Hp; cbn [past] in Hp; symmetry; (apply Z.ltb_lt || apply Z.ltb_ge); lia).
    case_bool_decide as Hp; [rewrite filter_cons_True by done; by eexists|].
    rewrite filter_cons_False by done. cbn [filter list_filter app]. by exists st'.
  - destruct (foundBeyond_head _ _ _ _ _ (boundLoop_inner type root Hr dir d cs k st Hk Hz (boundLoop_spec type root Hr dir k st d _ Hk Hz))) as [st2 Eb2].
    exists st2. rewrite Eb2. do 3 f_equal. inversion Hw as [|? ? ? Hd Hl Hc Htwo]; subst. rewrite rest_inner by lia. f_equal.
    destruct (beyond_past _ _ _ _ dir Hw Hk) as [Hp Hsh]. cbn [stopsAt] in Hs. pose proof (nibble_range k d) as Hrg.
    set (t := Z.to_nat (nibble k d)) in *. rewrite dItems_inner, (scanOrder_split dir t) by (done || unfold kBranchFactor; lia).
    change (t :: beyond dir t) with ([t] ++ beyond dir t). rewrite !scanItems_app, (scanItems_empty dir cs [t]) by by constructor.
    cbn [app].
    rewrite filter_app, (filter_none _ (scanItems dir cs (upTo dir t))), (filter_all _ (scanItems dir cs (beyond dir t)))
      by (try apply short_not_past; done). done.
Qed.

(** ** The order of iteration *)

(** Iterating from [begin] terminates within the number of items and visits every
    item of the map once, in the increasing order of the keys. *)
Theorem iterate_in_order (type : SHAMapNodeType) (root : Node) (fuel : nat)
    (Hroot : wfRoot type root) (Hfuel : (length (items root) <= fuel)%nat) :
  iterate fuel root = Done (items root) /\ StronglySorted (fun x y => item_key x < item_key y) (items root) /\
  (forall k x, x ∈ items root /\ item_key x = k <-> contents root !! k = Some x).
Proof.
  split; [|split; [exact (items_sorted _ _ _ _ Hroot)|intros k x; symmetry; exact (contents_lookup _ _ _ _ _ _ Hroot)]].
  unfold iterate, peekFirstItem, belowHelper, pushRoot. assert (H0 : isKey 0) by (unfold isKey; lia).
  destruct (items root) as [|x l] eqn:Ei.
  - assert (E : belowLoop kLeafDepth [(root, rootID)] First = Done ([(root, rootID)], None)).
    { inversion Hroot as [|? ? cs Hd Hl Hc Htwo]; subst; [lia|].
      destruct (firstChild cs (scanOrder First)) as [[b c]|] eqn:Ef; [|destruct kLeafDepth; cbn [belowLoop]; by rewrite Ef].
      exfalso.
      destruct (firstChild_some _ _ _ _ Ef) as (Hb & _). destruct (items_nonempty _ _ _ _ (Hc b c Hb) ltac:(lia)) as [z Hz].
      assert (Hzi : z ∈ items (Inner cs)) by (apply elem_of_items_inner; by exists b, c). rewrite Ei in Hzi. by apply not_elem_of_nil in Hzi. }
    rewrite E. cbn [mbind_ fst snd]. by destruct fuel.
  - rewrite <-(createID_root 0 H0).
    destruct (belowLoop_spec type First root 0 0 kLeafDepth 0 [] Hroot) as (y & l' & d' & st' & E & Hz & El & Er);
      [exists x; rewrite Ei; left|done|by apply prefix_0|unfold kLeafDepth; lia|].
    cbn [dItems rest] in El, Er. rewrite Ei in El. injection El as <- <-. rewrite app_nil_r in Er.
    rewrite E. cbn [mbind_ fst snd].
    assert (Hx : x ∈ items root) by (rewrite Ei; left).
    rewrite (iterateFrom_spec type root Hroot fuel x d' st') by (try apply (items_prefix _ _ _ _ _ Hroot Hx); rewrite ?Er; done || (cbn in Hfuel; lia)).
    by rewrite Er.
Qed.

Lemma iterate_in_order_witness :
  let root := treeOf TnAccountState [itemC; itemB; itemA] in
  iterate 3 root = Done (items root) /\ StronglySorted (fun x y => item_key x < item_key y) (items root) /\
  (forall k x, x ∈ items root /\ item_key x = k <-> contents root !! k = Some x).
Proof.
  apply (iterate_in_order TnAccountState); [by apply treeOf_sample|]. apply (Nat.leb_le _ 3). vm_compute. reflexivity.
Defined.

(** [upper_bound] and [lower_bound] find the neighbours of a key, present or not: the
    first item with a greater key and the last item with a smaller one, and nothing when
    there is none. *)
Theorem bounds_are_neighbours (type : SHAMapNodeType) (root : Node) (k : Z) (Hroot : wfRoot type root) (Hk : isKey k) :
  (exists st, upperBound root k = Done (st, head (filter (fun x => k < item_key x) (items root)))) /\
  (exists st, lowerBound root k = Done (st, last (filter (fun x => item_key x < k) (items root)))).
Proof.
  split; [exact (boundHelper_spec type root First k Hroot Hk)|].
  destruct (boundHelper_spec type root Last k Hroot Hk) as [st E]. exists st. unfold lowerBound. rewrite E. do 2 f_equal.
  cbn [dItems]. rewrite rev_alt. change (rev_append (items root) []) with (reverse (items root)).
  rewrite filter_reverse, head_reverse. done.
Qed.

Lemma bounds_are_neighbours_witness :
  let root := treeOf TnAccountState [itemC; itemB; itemA] in
  (exists st, upperBound root (item_key itemB) = Done (st, head (filter (fun x => item_key itemB < item_key x) (items root)))) /\
  (exists st, lowerBound root (item_key itemB) = Done (st, last (filter (fun x => item_key x < item_key itemB) (items root)))).
Proof. apply (bounds_are_neighbours TnAccountState); [by apply treeOf_sample|]. unfold isKey. cbn. lia. Defined.
