(* ===== verification/TxSets.v ===== *)
(** * Transaction sets

    The sets of transactions that consensus works on are SHAMaps ([RCLTxSet]); here they
    are shown to be the finite maps the consensus model uses. *)
From S2P Require Import Prelude Digits HashPrefix NodeID Disputed EngineState ShaMap ShaMapFacts ShaMapSpec ShaMapDelta.
#[local] Open Scope map_scope.

(** ** The operations *)

Module RCLTxSet.
Section TxSet.
Context (sha512Half : list Z -> Z).

(** [MutableTxSet::insert], [MutableTxSet::erase] *)
Definition insert (map : Node) (t : SHAMapItem) : MapResult (bool * Node) := addItem map TnTransactionNm t.
Definition erase (map : Node) (entry : Z) : MapResult (bool * Node) := delItem map entry.

Definition exists_ (map : Node) (entry : Z) : MapResult bool := hasItem map entry.
Definition find (map : Node) (entry : Z) : MapResult (option SHAMapItem) := peekItem map entry.
Definition id (map : Node) : Z := nodeHash sha512Half map.

(** [compare]: whether the comparison was complete is not looked at. *)
Definition compare (map j : Node) : MapResult (gmap Z bool) :=
  let* r := ShaMap.compare sha512Half map j ∅ 65536 in
  Done ((fun v : option SHAMapItem * option SHAMapItem => bool_decide (is_Some v.1)) <$> r.2).
End TxSet.
End RCLTxSet.

(** ** The sets of the consensus model *)

Section Refinement.
(** A name for the contents of a transaction *)
Context (sha512Half : list Z -> Z) (blob : list Z -> Z).

Definition toTx (x : SHAMapItem) : Tx := mkTx (item_key x) (blob (item_data x)).
Definition toTxSet (map : Node) : TxSet := toTx <$> contents map.

(** A tree of transactions: well-formed, each transaction under its own hash. *)
Definition txTree (map : Node) : Prop := wfRoot TnTransactionNm map /\ keyed sha512Half map.

Lemma toTxSet_exists map k : txExists (toTxSet map) k = bool_decide (is_Some (contents map !! k)).
Proof. unfold txExists, toTxSet. rewrite lookup_fmap. apply bool_decide_ext. apply fmap_is_Some. Qed.

Lemma findKey_contents map k :
  wfRoot TnTransactionNm map -> isKey k -> findKey map k = Done ((fun x => (TnTransactionNm, x)) <$> contents map !! k).
Proof.
  intros Hm Hk. destruct (findKey_spec _ map k Hm Hk) as (r & -> & Hs). f_equal.
  destruct (contents map !! k) as [x|] eqn:E; cbn [fmap option_fmap option_map].
  - apply Hs. split; [done|]. by apply (contents_lookup TnTransactionNm 0 0).
  - destruct r as [[t x]|]; [|done]. destruct (proj1 (Hs _) eq_refl) as (_ & Hx & Ex). cbn [snd] in *.
    rewrite (proj2 (contents_lookup TnTransactionNm 0 0 map k x Hm)) in E by done. done.
Qed.

Lemma keyed_sub map map' it :
  keyed sha512Half map -> (forall x, x ∈ items map' -> x = it \/ x ∈ items map) ->
  item_key it = sha512Half (leafPreimage TnTransactionNm it) -> keyed sha512Half map'.
Proof. intros Hk Hs Hit x Hx. destruct (Hs x Hx) as [->|H]; [done|by apply Hk]. Qed.

(** One transaction has one key. *)
Lemma txTree_same n m k x y :
  txTree n -> txTree m -> noCollision sha512Half (preimages sha512Half n ++ preimages sha512Half m) ->
  contents n !! k = Some x -> contents m !! k = Some y -> x = y.
Proof.
  intros [Hn Kn] [Hm Km] [_ Hnc] Hx Hy. apply (contents_lookup _ 0 0 _ _ _ Hn) in Hx as [Hx Ex].
  apply (contents_lookup _ 0 0 _ _ _ Hm) in Hy as [Hy Ey]. 
  apply (leafPreimage_inj TnTransactionNm);
    [done|by apply (items_prefix _ _ _ _ _ Hn)|by apply (items_prefix _ _ _ _ _ Hm)|congruence|].
  apply Hnc; [apply elem_of_app; left; by apply (items_preimages _ _ _ _ _ _ Hn)
    |apply elem_of_app; right; by apply (items_preimages _ _ _ _ _ _ Hm)|].
  rewrite <-(Kn x Hx), <-(Km y Hy). congruence.
Qed.

(** C40: The trees of transactions implement the sets of the consensus model: inserting,
    erasing, testing and looking up do on the tree what the model does on the set, keep
    the tree well-formed and never fail. *)
Theorem txset_operations_refine (map : Node) (t : SHAMapItem) (entry : Z)
    (Hmap : txTree map) (Ht : isKey (item_key t)) (Hhash : item_key t = sha512Half (leafPreimage TnTransactionNm t))
    (Hentry : isKey entry) :
  (exists b map', RCLTxSet.insert map t = Done (b, map') /\ txTree map' /\
     b = negb (txExists (toTxSet map) (item_key t)) /\ toTxSet map' = txInsert (toTxSet map) (toTx t)) /\
  (exists b map', RCLTxSet.erase map entry = Done (b, map') /\ txTree map' /\
     b = txExists (toTxSet map) entry /\ toTxSet map' = txErase (toTxSet map) entry) /\
  RCLTxSet.exists_ map entry = Done (txExists (toTxSet map) entry) /\
  (exists o, RCLTxSet.find map entry = Done o /\ toTx <$> o = toTxSet map !! entry).
Proof.
  destruct Hmap as [Hw Hkeyed]. assert (Hv : validType TnTransactionNm) by done. split_and!.
  - destruct (addGiveItem_spec _ map t Hw Hv Ht) as (b & map' & E & H). exists b, map'. split; [done|].
    unfold txInsert. change (tx_id (toTx t)) with (item_key t). rewrite toTxSet_exists. destruct H as [(-> & -> & x & Hx & Ex)|(-> & Hw' & Hrep & Hno)].
    + rewrite (proj2 (contents_lookup _ 0 0 map (item_key t) x Hw)) by done. done.
    + rewrite (proj2 (contents_none _ 0 0 map (item_key t) Hw)) by done.
      split; [split; [done|]|split; [done|]].
      * apply (keyed_sub map _ t); [done|intros x Hx; apply Hrep in Hx; tauto|done].
      * unfold toTxSet. rewrite (contents_replaced _ 0 0 map map' t) by done. by rewrite fmap_insert.
  - destruct (delItem_spec _ map entry Hw Hv Hentry) as (b & map' & E & H). exists b, map'. split; [done|].
    rewrite toTxSet_exists. unfold txErase, toTxSet. destruct H as [(-> & -> & Hno)|(-> & Hw' & Hrem & x & Hx & Ex)].
    + rewrite (proj2 (contents_none _ 0 0 map entry Hw)) by done. split; [done|]. split; [done|].
      rewrite delete_id; [done|]. rewrite lookup_fmap, (proj2 (contents_none _ 0 0 map entry Hw)) by done. done.
    + rewrite (proj2 (contents_lookup _ 0 0 map entry x Hw)) by done. split; [split; [done|]|split; [done|]].
      * apply (keyed_sub map _ t); [done|intros z Hz; apply Hrem in Hz; tauto|done].
      * rewrite (contents_removed _ 0 0 map map' entry) by done. by rewrite fmap_delete.
  - unfold RCLTxSet.exists_, hasItem. rewrite findKey_contents, toTxSet_exists by done. cbn [mbind_].
    by destruct (contents map !! entry).
  - unfold RCLTxSet.find, peekItem. rewrite findKey_contents by done. cbn [mbind_]. eexists. split; [done|].
    unfold toTxSet. rewrite lookup_fmap. by destruct (contents map !! entry).
Qed.

(** The comparison of two trees and of the two sets. *)
Lemma diff_sides n m :
  txTree n -> txTree m -> noCollision sha512Half (preimages sha512Half n ++ preimages sha512Half m) ->
  (fun v : option SHAMapItem * option SHAMapItem => bool_decide (is_Some v.1)) <$> diffMap (contents n) (contents m) =
  merge (fun x y : option Tx => match x, y with
                      | Some _, None => Some true
                      | None, Some _ => Some false
                      | _, _ => None
                      end) (toTxSet n) (toTxSet m).
Proof.
  intros Hn Hm Hnc. apply map_eq. intros k. rewrite lookup_fmap, lookup_diffMap, lookup_merge. unfold toTxSet, differ.
  rewrite !lookup_fmap. destruct (contents n !! k) as [x|] eqn:Ex, (contents m !! k) as [y|] eqn:Ey; cbn.
  - rewrite (txTree_same n m k x y Hn Hm Hnc Ex Ey). by rewrite decide_True.
  - by rewrite decide_False.
  - by rewrite decide_False.
  - by rewrite decide_True.
Qed.

(** C23: Comparing two trees of transactions gives what comparing the two sets gives in
    the consensus model, when no more than 65536 transactions differ, and no transaction
    differs on both sides; and the identifiers of two trees are equal exactly when they
    hold the same transactions.  The digest does not collide on the bytes hashed. *)
Theorem txset_compare_refines (n m : Node) (Hn : txTree n) (Hm : txTree m)
    (Hnc : noCollision sha512Half (preimages sha512Half n ++ preimages sha512Half m))
    (Hsize : Z.of_nat (size (diffMap (contents n) (contents m))) <= 65536) :
  (exists r, RCLTxSet.compare sha512Half n m = Done r /\ sortedEntries r = txCompare (toTxSet n) (toTxSet m)) /\
  (RCLTxSet.id sha512Half n = RCLTxSet.id sha512Half m <-> contents n = contents m).
Proof.
  assert (Hv : validType TnTransactionNm) by done.
  assert (Hk : TnTransactionNm = TnTransactionNm -> keyed sha512Half n /\ keyed sha512Half m).
  { intros _. split; [apply Hn|apply Hm]. }
  split.
  - destruct (compare_spec sha512Half _ n m 65536 Hv (proj1 Hn) (proj1 Hm) Hk Hnc ltac:(lia)) as [H1 H2].
    set (D := diffMap (contents n) (contents m)) in *.
    assert (E : exists b, ShaMap.compare sha512Half n m ∅ 65536 = Done (b, D)).
    { destruct (Z.lt_ge_cases (Z.of_nat (size D)) 65536) as [Hlt|Hge]; [by exists true; apply H1|].
      destruct (H2 Hge) as (d & E & Hsub & Hd). exists false. rewrite E. do 2 f_equal.
      apply map_subseteq_size_eq; [done|]. lia. }
    destruct E as [b E]. unfold RCLTxSet.compare. rewrite E. cbn [mbind_ snd]. eexists. split; [done|].
    unfold D. rewrite diff_sides by done. unfold txCompare. rewrite take_ge; [done|].
    rewrite (Permutation_length (sortedEntries_perm _)), length_map_to_list, <-(diff_sides n m Hn Hm Hnc), map_size_fmap.
    fold D. lia.
  - unfold RCLTxSet.id. split.
    + intros E. by rewrite (hash_inj sha512Half TnTransactionNm Hv 0 0 n (proj1 Hn) m (proj1 Hm) Hk Hnc E).
    + intros E. f_equal. apply (wfNode_canonical TnTransactionNm 0 0); [apply Hn|apply Hm|].
      by apply (contents_items TnTransactionNm 0 0); [apply Hn|apply Hm|].
Qed.
End Refinement.

(** ** A sample *)

(** Transactions under their hashes. *)
Definition sampleTxn (data : list Z) : SHAMapItem :=
  {| item_key := sampleDigest (prefixBytes TransactionId ++ data); item_data := data |}.

Definition txTreeOf (l : list (list Z)) : Node := treeOf TnTransactionNm (map sampleTxn l).

Lemma treeOf_sub type l : validType type -> Forall (fun x => isKey (item_key x)) l ->
  forall x, x ∈ items (treeOf type l) -> x ∈ l.
Proof.
  intros Ht. unfold treeOf. induction l as [|y l IH] using rev_ind; intros Hl x.
  - cbn [fold_left]. unfold emptyInner. rewrite elem_of_items_inner. intros (b & c & Hc & _). by rewrite childAt_empty in Hc.
  - apply Forall_app in Hl as [Hl Hy]. apply Forall_cons_1 in Hy as [Hy _]. rewrite fold_left_app. cbn [fold_left].
    pose proof (treeOf_wf type l Ht Hl) as Hw. unfold treeOf in Hw. set (root := fold_left _ l emptyInner) in *.
    destruct (addGiveItem_spec type root y Hw Ht Hy) as (b & root' & E & H). rewrite E. cbn [snd]. rewrite elem_of_app.
    destruct H as [(-> & -> & _)|(-> & _ & Hrep & _)]; [intros Hx; left; by apply IH|].
    intros Hx. apply Hrep in Hx as [->|[Hx _]]; [right; left|left; by apply IH].
Qed.

Lemma txTreeOf_tree l : txTree sampleDigest (txTreeOf l).
Proof.
  assert (Hv : validType TnTransactionNm) by done.
  assert (Hl : Forall (fun x => isKey (item_key x)) (map sampleTxn l)).
  { apply Forall_fmap, Forall_forall. intros data _. apply sampleDigest_key. }
  split; [by apply treeOf_wf|]. intros x Hx. apply treeOf_sub in Hx; [|done|done].
  apply list_elem_of_fmap in Hx as (data & -> & _). reflexivity.
Qed.

Lemma txset_operations_refine_witness :
  let map := txTreeOf [[1; 2]; [3]] in let t := sampleTxn [4; 5] in let entry := item_key (sampleTxn [3]) in
  let blob := fun data => fold_right Z.add 0 data in
  (exists b map', RCLTxSet.insert map t = Done (b, map') /\ txTree sampleDigest map' /\
     b = negb (txExists (toTxSet blob map) (item_key t)) /\ toTxSet blob map' = txInsert (toTxSet blob map) (toTx blob t)) /\
  (exists b map', RCLTxSet.erase map entry = Done (b, map') /\ txTree sampleDigest map' /\
     b = txExists (toTxSet blob map) entry /\ toTxSet blob map' = txErase (toTxSet blob map) entry) /\
  RCLTxSet.exists_ map entry = Done (txExists (toTxSet blob map) entry) /\
  (exists o, RCLTxSet.find map entry = Done o /\ toTx blob <$> o = toTxSet blob map !! entry).
Proof.
  apply txset_operations_refine; [apply txTreeOf_tree|apply sampleDigest_key|reflexivity|apply sampleDigest_key].
Defined.

Lemma txset_compare_refines_witness :
  let n := txTreeOf [[1; 2]; [3]] in let m := txTreeOf [[3]; [4; 5]] in let blob := fun data => fold_right Z.add 0 data in
  (exists r, RCLTxSet.compare sampleDigest n m = Done r /\ sortedEntries r = txCompare (toTxSet blob n) (toTxSet blob m)) /\
  (RCLTxSet.id sampleDigest n = RCLTxSet.id sampleDigest m <-> contents n = contents m).
Proof.
  intros n m blob. refine (txset_compare_refines sampleDigest blob n m _ _ _ _); [apply txTreeOf_tree|apply txTreeOf_tree| |].
  - apply checkNoCollision_ok. vm_compute. reflexivity.
  - apply Z.leb_le. vm_compute. reflexivity.
Defined.
