(* ===== verification/ShaMapWire.v ===== *)
(** * SHAMap nodes as bytes

    The formats in which nodes are sent and stored: [serializeForWire],
    [serializeWithPrefix] and [updateHash] of the node classes, and the functions of
    src/libxrpl/shamap/SHAMapTreeNode.cpp and SHAMapInnerNode.cpp that read them.

    A node read from bytes has no children yet: an inner node is the mask of the branches
    in use and the hash of each of them. *)
From S2P Require Import Prelude Digits HashPrefix Serializer SerializerFacts NodeID ShaMap ShaMapFacts.

Definition kWireTypeTransaction : Z := 0.
Definition kWireTypeAccountState : Z := 1.
Definition kWireTypeInner : Z := 2.
Definition kWireTypeCompressedInner : Z := 3.
Definition kWireTypeTransactionWithMeta : Z := 4.

Definition kMinShaMapItemBytes : nat := 12.

Inductive NodeBody :=
| LeafBody (type : SHAMapNodeType) (item : SHAMapItem)
| InnerBody (isBranch : Z) (hashes : list Z).

(** A node with its [hash_] *)
Record StoredNode := { node_body : NodeBody; node_hash : Z }.

(** What is made of bytes: a node, a null pointer, or an exception *)
Inductive WireResult :=
| Made (n : StoredNode)
| NullNode
| WireRuntimeError
| WireOutOfRange
| WireWild.

(** ** Inner nodes *)

Definition hasBranch (isBranch : Z) (i : nat) : bool := Z.testbit isBranch (Z.of_nat i).

(** The branches [iterNonEmptyChildIndexes] visits *)
Definition branchesOf (isBranch : Z) : list nat := List.filter (hasBranch isBranch) (seq 0 kBranchFactor).

(** The hashes [iterChildren] visits *)
Definition childHashes (isBranch : Z) (hashes : list Z) : list Z :=
  map (fun i => if hasBranch isBranch i then default 0 (hashes !! i) else 0) (seq 0 kBranchFactor).

(** [popcnt16(isBranch_)] *)
Definition branchCount (isBranch : Z) : nat := length (branchesOf isBranch).

(** [isBranch_ |= (1u << i)] *)
Definition addBranch (i : nat) (isBranch : Z) : Z := Z.lor isBranch (Z.shiftl 1 (Z.of_nat i)).

Section Formats.
Context (sha512Half : list Z -> Z).

(** [updateHash] *)
Definition updateHash (b : NodeBody) : Z :=
  match b with
  | LeafBody type item => sha512Half (leafPreimage type item)
  | InnerBody isBranch hashes =>
      if isBranch =? 0 then 0 else sha512Half (innerPreimage (childHashes isBranch hashes))
  end.

(** ** Writing *)

Definition serializeForWire (b : NodeBody) (s : Serializer) : Serializer :=
  match b with
  | LeafBody TnTransactionNm item =>
      let s := (addRaw (item_data item) s).2 in
      (add8 kWireTypeTransaction s).2
  | LeafBody TnTransactionMd item =>
      let s := (addRaw (item_data item) s).2 in
      let s := (addBitString (beBytes 32 (item_key item)) s).2 in
      (add8 kWireTypeTransactionWithMeta s).2
  | LeafBody _ item =>
      let s := (addRaw (item_data item) s).2 in
      let s := (addBitString (beBytes 32 (item_key item)) s).2 in
      (add8 kWireTypeAccountState s).2
  | InnerBody isBranch hashes =>
      if (branchCount isBranch <? 12)%nat then
        let s := fold_left (fun s i =>
          let s := (addBitString (beBytes 32 (default 0 (hashes !! i))) s).2 in
          (add8 (Z.of_nat i) s).2) (branchesOf isBranch) s in
        (add8 kWireTypeCompressedInner s).2
      else
        let s := fold_left (fun s h => (addBitString (beBytes 32 h) s).2) (childHashes isBranch hashes) s in
        (add8 kWireTypeInner s).2
  end.

Definition serializeWithPrefix (b : NodeBody) (s : Serializer) : Serializer :=
  match b with
  | LeafBody TnTransactionNm item =>
      let s := (add32 (prefixValue TransactionId) s).2 in
      (addRaw (item_data item) s).2
  | LeafBody TnTransactionMd item =>
      let s := (add32 (prefixValue TxNode) s).2 in
      let s := (addRaw (item_data item) s).2 in
      (addBitString (beBytes 32 (item_key item)) s).2
  | LeafBody _ item =>
      let s := (add32 (prefixValue LeafNode) s).2 in
      let s := (addRaw (item_data item) s).2 in
      (addBitString (beBytes 32 (item_key item)) s).2
  | InnerBody isBranch hashes =>
      let s := (add32 (prefixValue InnerNode) s).2 in
      fold_left (fun s h => (addBitString (beBytes 32 h) s).2) (childHashes isBranch hashes) s
  end.

(** ** Reading *)

(** [Serializer::getBitString] at an offset *)
Definition getBitStringAt (n : nat) (offset : Z) (s : Serializer) : Outcome (option (list Z)) :=
  if u64 offset +64 Z.of_nat n <=? Z.of_nat (length s) then
    if offset <? 0 then Wild else Ret (Some (take n (drop (Z.to_nat offset) s)))
  else Ret None.

(** A node with its hash given or computed *)
Definition makeNode (b : NodeBody) (hash : Z) (hashValid : bool) : WireResult :=
  Made {| node_body := b; node_hash := if hashValid then hash else updateHash b |}.

Definition makeTransaction (data : list Z) (hash : Z) (hashValid : bool) : WireResult :=
  if (length data <? kMinShaMapItemBytes)%nat then WireRuntimeError
  else
    let item := {| item_key := sha512Half (prefixBytes TransactionId ++ data); item_data := data |} in
    makeNode (LeafBody TnTransactionNm item) hash hashValid.

(** The common part of the two kinds of leaf that carry their key: the key and the data *)
Definition takeTag (s : Serializer) (k : list Z -> Serializer -> WireResult) : WireResult :=
  if (length s <? 32)%nat then WireRuntimeError
  else
    match getBitStringAt 32 (i32 (Z.of_nat (length s) - 32)) s with
    | Ret (Some tag) => k tag (chop 32 s).2
    | Ret None => WireOutOfRange
    | _ => WireWild
    end.

Definition makeTransactionWithMeta (data : list Z) (hash : Z) (hashValid : bool) : WireResult :=
  takeTag data (fun tag s =>
    if (length s <? kMinShaMapItemBytes)%nat then WireRuntimeError
    else makeNode (LeafBody TnTransactionMd {| item_key := beValue tag; item_data := s |}) hash hashValid).

Definition makeAccountState (data : list Z) (hash : Z) (hashValid : bool) : WireResult :=
  takeTag data (fun tag s =>
    if beValue tag =? 0 then WireRuntimeError
    else if (length s <? kMinShaMapItemBytes)%nat then WireRuntimeError
    else makeNode (LeafBody TnAccountState {| item_key := beValue tag; item_data := s |}) hash hashValid).

(** The loop of [makeFullInner] over the branches from [i] *)
Fixpoint fullLoop (n i : nat) (isBranch : Z) (hashes : list Z) : Get (Z * list Z) :=
  match n with
  | O => gret (isBranch, hashes)
  | S n =>
      h <- getBitString 32;;
      let hashes := <[i := beValue h]> hashes in
      let isBranch := if beValue h =? 0 then isBranch else addBranch i isBranch in
      fullLoop n (S i) isBranch hashes
  end.

Definition noHashes : list Z := replicate kBranchFactor 0.

Definition makeInner (r : Outcome (Z * list Z)) (hash : Z) (hashValid : bool) : WireResult :=
  match r with
  | Ret (isBranch, hashes) => makeNode (InnerBody isBranch hashes) hash hashValid
  | RuntimeError => WireRuntimeError
  | _ => WireWild
  end.

Definition makeFullInner (data : list Z) (hash : Z) (hashValid : bool) : WireResult :=
  if negb (length data =? kBranchFactor * 32)%nat then WireRuntimeError
  else makeInner (fullLoop kBranchFactor 0 0 noHashes (newIter data)).1 hash hashValid.

(** The loop of [makeCompressedInner], which reads 33 bytes at a time *)
Fixpoint compressedLoop (fuel : nat) (isBranch : Z) (hashes : list Z) (si : SerialIter) : Outcome (Z * list Z) * SerialIter :=
  if empty si then (Ret (isBranch, hashes), si)
  else
    match fuel with
    | O => (Wild, si)
    | S fuel =>
        (hash <- getBitString 32;;
         pos <- get8;;
         if Z.of_nat kBranchFactor <=? pos then glift RuntimeError
         else
           let hashes := <[Z.to_nat pos := beValue hash]> hashes in
           let isBranch := if beValue hash =? 0 then isBranch else addBranch (Z.to_nat pos) isBranch in
           compressedLoop fuel isBranch hashes) si
    end.

Definition makeCompressedInner (data : list Z) : WireResult :=
  if negb (length data mod 33 =? 0)%nat || (33 * kBranchFactor <? length data)%nat then WireRuntimeError
  else makeInner (compressedLoop kBranchFactor 0 noHashes (newIter data)).1 0 false.

Definition makeFromWire (rawNode : list Z) : WireResult :=
  match last rawNode with
  | None => NullNode
  | Some type =>
      let rawNode := take (length rawNode - 1) rawNode in
      if type =? kWireTypeTransaction then makeTransaction rawNode 0 false
      else if type =? kWireTypeAccountState then makeAccountState rawNode 0 false
      else if type =? kWireTypeInner then makeFullInner rawNode 0 false
      else if type =? kWireTypeCompressedInner then makeCompressedInner rawNode
      else if type =? kWireTypeTransactionWithMeta then makeTransactionWithMeta rawNode 0 false
      else WireRuntimeError
  end.

Definition makeFromPrefix (rawNode : list Z) (hash : Z) : WireResult :=
  match rawNode with
  | b0 :: b1 :: b2 :: b3 :: rawNode =>
      let type := u32 (Z.shiftl b0 24) +32 u32 (Z.shiftl b1 16) +32 u32 (Z.shiftl b2 8) +32 b3 in
      if type =? prefixValue TransactionId then makeTransaction rawNode hash true
      else if type =? prefixValue LeafNode then makeAccountState rawNode hash true
      else if type =? prefixValue InnerNode then makeFullInner rawNode hash true
      else if type =? prefixValue TxNode then makeTransactionWithMeta rawNode hash true
      else WireRuntimeError
  | _ => WireRuntimeError
  end.
End Formats.
