(* ===== verification/ShaMapWireSpec.v ===== *)
(** * SHAMap nodes as bytes: the properties

    Each format reads back what was written, the stored format is the string that is
    hashed and has one form, and every input is either rejected or a node with the hash
    of what was read. *)
From S2P Require Import Prelude Digits HashPrefix Serializer SerializerFacts NodeID ShaMap ShaMapFacts ShaMapSpec ShaMapWire.

(** ** The bytes written *)

Lemma addWords_bytes l s : fold_left (fun s h => (addBitString (beBytes 32 h) s).2) l s = s ++ concat (map (beBytes 32) l).
Proof.
  revert s. induction l as [|h l IH]; intros s; cbn [fold_left map concat]; [by rewrite app_nil_r|].
  rewrite IH. cbn [addBitString addRaw snd]. by rewrite <-app_assoc.
Qed.

(** A hash with the branch it is in *)
Definition chunk (e : nat * Z) : list Z := beBytes 32 e.2 ++ [Z.of_nat e.1].

Lemma addChunks_bytes (hashes : list Z) l s :
  fold_left (fun s i => let s := (addBitString (beBytes 32 (default 0 (hashes !! i))) s).2 in (add8 (Z.of_nat i) s).2) l s =
  s ++ concat (map chunk (map (fun i => (i, default 0 (hashes !! i))) l)).
Proof.
  revert s. induction l as [|i l IH]; intros s; cbn [fold_left map concat]; [by rewrite app_nil_r|].
  rewrite IH. cbn [addBitString addRaw add8 snd]. unfold chunk. cbn [fst snd]. by rewrite <-!app_assoc.
Qed.

(** The stored form is what is hashed. *)
Lemma serializeWithPrefix_bytes b s :
  serializeWithPrefix b s = s ++ match b with
    | LeafBody type item => leafPreimage type item
    | InnerBody isBranch hashes => innerPreimage (childHashes isBranch hashes)
    end.
Proof.
  destruct b as [type item|isBranch hashes]; [destruct type|]; cbn [serializeWithPrefix leafPreimage]; rewrite ?addWords_bytes, ?add32_bytes;
    cbn [addBitString addRaw snd]; unfold innerPreimage, prefixBytes; by rewrite <-?app_assoc.
Qed.

(** ** Entries *)

(** Recording hashes one after the other. *)
Definition place (l : list (nat * Z)) (r : Z * list Z) : Z * list Z :=
  fold_left (fun r e => (if e.2 =? 0 then r.1 else addBranch e.1 r.1, <[e.1 := e.2]> r.2)) l r.

Lemma hasBranch_add i j m : hasBranch (addBranch i m) j = hasBranch m j || (i =? j)%nat.
Proof.
  unfold hasBranch, addBranch. rewrite Z.lor_spec. f_equal. rewrite Z.shiftl_mul_pow2, Z.mul_1_l, Z.pow2_bits_eqb by lia.
  destruct (Nat.eqb_spec i j), (Z.eqb_spec (Z.of_nat i) (Z.of_nat j)); lia.
Qed.

Lemma decide_other (i j : nat) l : i <> j -> bool_decide (i ∈ j :: l) = bool_decide (i ∈ l).
Proof. intros Hne. apply bool_decide_ext. rewrite elem_of_cons. tauto. Qed.

Lemma place_spec (f : nat -> Z) l : forall m hs,
  (forall e, e ∈ l -> e.2 = f e.1 /\ (e.1 < length hs)%nat) ->
  length (place l (m, hs)).2 = length hs /\
  (forall i, (place l (m, hs)).2 !! i = if bool_decide (i ∈ l.*1) then Some (f i) else hs !! i) /\
  (forall i, hasBranch (place l (m, hs)).1 i = hasBranch m i || (bool_decide (i ∈ l.*1) && negb (f i =? 0))).
Proof.
  induction l as [|[j h] l IH]; intros m hs Hl.
  { split; [done|]. split; [done|]. intros i. cbn. by rewrite orb_false_r. }
  destruct (Hl (j, h) (list_elem_of_here _ _)) as [Eh Hj]. cbn [fst snd] in Eh, Hj. subst h.
  unfold place in *. cbn [fold_left fst snd].
  destruct (IH (if f j =? 0 then m else addBranch j m) (<[j:=f j]> hs)) as (H1 & H2 & H3).
  { intros e He. rewrite length_insert. apply Hl. by right. }
  rewrite length_insert in H1. split; [done|]. split; intros i; [rewrite H2|rewrite H3]; cbn [fmap list_fmap fst].
  - destruct (decide (i = j)) as [->|Hne].
    + rewrite list_lookup_insert_eq by done. rewrite (bool_decide_true (j ∈ j :: l.*1)) by left. by destruct (bool_decide _).
    + rewrite list_lookup_insert_ne by done. by rewrite decide_other.
  - destruct (decide (i = j)) as [->|Hne].
    + rewrite (bool_decide_true (j ∈ j :: l.*1)) by left. destruct (Z.eqb_spec (f j) 0); cbn [negb andb]; [by rewrite andb_false_r|].
      rewrite hasBranch_add, Nat.eqb_refl, !orb_true_r. done.
    + rewrite decide_other by done. f_equal.
      destruct (f j =? 0); [done|]. rewrite hasBranch_add. destruct (Nat.eqb_spec j i); [congruence|]. by rewrite orb_false_r.
Qed.

(** ** Splitting bytes into words and chunks *)

Lemma words_split n : forall raw, isDigits 256 raw -> length raw = (n * 32)%nat ->
  exists l, length l = n /\ Forall isKey l /\ raw = concat (map (beBytes 32) l).
Proof.
  induction n as [|n IH]; intros raw Hd Hl; [destruct raw; [by exists []|done]|].
  destruct (IH (drop 32 raw)) as (l & El & Hk & E); [by apply Forall_drop|rewrite length_drop; lia|].
  assert (Ht : isDigits 256 (take 32 raw)) by by apply Forall_take.
  assert (Htl : length (take 32 raw) = 32%nat) by (rewrite length_take; lia).
  exists (beValue (take 32 raw) :: l). split; [by cbn; rewrite El|]. split.
  - constructor; [|done]. pose proof (beValue_range _ Ht) as Hr. rewrite Htl in Hr. exact Hr.
  - cbn [map concat]. rewrite <-E. rewrite <-Htl at 1. rewrite beBytes_beValue by done. by rewrite take_drop.
Qed.

Lemma chunks_split n : forall raw, isDigits 256 raw -> length raw = (n * 33)%nat ->
  exists l, length l = n /\ Forall (fun e => isKey e.2 /\ (e.1 < 256)%nat) l /\ raw = concat (map chunk l).
Proof.
  induction n as [|n IH]; intros raw Hd Hl; [destruct raw; [by exists []|done]|].
  destruct (IH (drop 33 raw)) as (l & El & Hk & E); [by apply Forall_drop|rewrite length_drop; lia|].
  destruct (raw !! 32%nat) as [b|] eqn:Eb; [|apply lookup_ge_None in Eb; lia].
  pose proof (Forall_lookup_1 _ _ _ _ Hd Eb) as Hb. cbn in Hb.
  assert (Ht : isDigits 256 (take 32 raw)) by by apply Forall_take.
  assert (Htl : length (take 32 raw) = 32%nat) by (rewrite length_take; lia).
  exists ((Z.to_nat b, beValue (take 32 raw)) :: l). split; [by cbn; rewrite El|]. split.
  - constructor; [|done]. cbn [fst snd]. pose proof (beValue_range _ Ht) as Hr. rewrite Htl in Hr. split; [exact Hr|lia].
  - cbn [map concat]. rewrite <-E. unfold chunk. cbn [fst snd]. rewrite <-Htl at 1. rewrite beBytes_beValue by done.
    rewrite Z2Nat.id, <-app_assoc by lia. cbn [app]. rewrite <-(drop_S _ _ _ Eb). by rewrite take_drop.
Qed.

Lemma beValue_key k : isKey k -> beValue (beBytes 32 k) = k.
Proof. intros Hk. rewrite beValue_beBytes. by apply Z.mod_small. Qed.

(** ** The loops *)

Lemma reads_word k : reads (getBitString 32) (beBytes 32 k) (beBytes 32 k).
Proof. pose proof (reads_readBytes (beBytes 32 k)) as H. rewrite length_beBytes in H. exact H. Qed.

Lemma fullLoop_reads l : forall i m hs, Forall isKey l ->
  reads (fullLoop (length l) i m hs) (concat (map (beBytes 32) l)) (place (zip (seq i (length l)) l) (m, hs)).
Proof.
  induction l as [|k l IH]; intros i m hs Hl; [apply reads_ret|]. apply Forall_cons in Hl as [Hk Hl].
  cbn [length fullLoop map concat seq zip zip_with]. eapply reads_bind; [apply reads_word|].
  rewrite beValue_key by done. apply (IH (S i) _ _ Hl).
Qed.

Definition inRange (l : list (nat * Z)) : bool := forallb (fun e => (e.1 <? kBranchFactor)%nat) l.

Lemma compressedLoop_chunks l : forall fuel m hs it,
  Forall (fun e => isKey e.2 /\ (e.1 < 256)%nat) l -> (length l <= fuel)%nat -> iterOk it -> pending it = concat (map chunk l) ->
  (compressedLoop fuel m hs it).1 = if inRange l then Ret (place l (m, hs)) else RuntimeError.
Proof.
  induction l as [|[i k] l IH]; intros fuel m hs it Hl Hf Hit Hp.
  - destruct (iterOk_pending it Hit) as [Hlen _]. rewrite Hp in Hlen. cbn in Hlen.
    destruct fuel; cbn [compressedLoop]; unfold empty; by rewrite <-Hlen.
  - apply Forall_cons in Hl as [[Hk Hi] Hl]. cbn [fst snd] in Hk, Hi. destruct fuel as [|fuel]; [cbn in Hf; lia|].
    destruct (iterOk_pending it Hit) as [Hlen _].
    assert (He : empty it = false).
    { unfold empty. rewrite <-Hlen, Hp. cbn [map concat]. unfold chunk. rewrite !length_app, length_beBytes. done. }
    cbn [compressedLoop]. rewrite He. cbn [map concat] in Hp. unfold chunk in Hp. cbn [fst snd] in Hp. rewrite <-app_assoc in Hp.
    unfold gbind at 1. rewrite (reads_word k it _ Hit Hp).
    set (it1 := advance (length (beBytes 32 k)) it).
    assert (Hit1 : iterOk it1) by (apply iterOk_advance; [done|]; by eapply reads_room).
    assert (Hp1 : pending it1 = [Z.of_nat i] ++ concat (map chunk l)) by (unfold it1; by rewrite pending_advance, Hp, drop_app_length).
    unfold gbind at 1. rewrite (reads_get8 (Z.of_nat i) ltac:(lia) it1 _ Hit1 Hp1). cbn [inRange forallb fst]. unfold kBranchFactor in *.
    destruct (Nat.ltb_spec i 16) as [Hlt|Hge]; destruct (Z.leb_spec (Z.of_nat 16) (Z.of_nat i)); try lia; [|done].
    cbn [andb]. rewrite beValue_key, Nat2Z.id by done. apply IH; [done|cbn in Hf; lia| |].
    + apply iterOk_advance; [done|]. by eapply reads_room.
    + by rewrite pending_advance, Hp1, drop_app_length.
Qed.

(** ** Masks *)

(** The mask of the branches with a hash. *)
Definition validMask (m : Z) (hs : list Z) : Prop := 0 <= m /\ forall i, hasBranch m i = negb (default 0 (hs !! i) =? 0).

Lemma validMask_unique m m' hs : validMask m hs -> validMask m' hs -> m = m'.
Proof.
  intros [H1 H2] [H1' H2']. apply Z.bits_inj'. intros n Hn. specialize (H2 (Z.to_nat n)). specialize (H2' (Z.to_nat n)).
  unfold hasBranch in *. rewrite Z2Nat.id in H2, H2' by done. congruence.
Qed.

Lemma place_nonneg l : forall r, 0 <= r.1 -> 0 <= (place l r).1.
Proof.
  unfold place. induction l as [|e l IH]; intros r Hr; [done|]. apply IH. cbn [fst]. destruct (e.2 =? 0); [done|].
  unfold addBranch. rewrite Z.lor_nonneg, Z.shiftl_nonneg. lia.
Qed.

Lemma childHashes_valid m hs : validMask m hs -> length hs = kBranchFactor -> childHashes m hs = hs.
Proof.
  intros [_ Hm] Hl. apply list_eq. intros i. unfold childHashes. destruct (Nat.lt_ge_cases i kBranchFactor) as [Hi|Hi].
  - rewrite list_lookup_fmap, lookup_seq_lt by done. cbn [fmap option_fmap option_map]. rewrite Nat.add_0_l, Hm.
    destruct (hs !! i) as [h|] eqn:E; [|apply lookup_ge_None in E; lia].
    change (default 0 (Some h)) with h. destruct (Z.eqb_spec h 0); cbn [negb]; congruence.
  - rewrite (proj2 (lookup_ge_None _ _)); [by rewrite (proj2 (lookup_ge_None _ _)) by lia|]. by rewrite length_map, length_seq.
Qed.

Lemma noHashes_default i : default 0 (noHashes !! i) = 0.
Proof. unfold noHashes. destruct (replicate kBranchFactor 0 !! i) as [x|] eqn:E; [|done]. by apply lookup_replicate in E as [-> _]. Qed.

(** Recording every hash that is not zero gives the hashes. *)
Lemma place_covers hs l :
  length hs = kBranchFactor ->
  (forall e, e ∈ l -> hs !! e.1 = Some e.2) -> (forall i h, hs !! i = Some h -> h <> 0 -> i ∈ l.*1) ->
  exists m, place l (0, noHashes) = (m, hs) /\ validMask m hs.
Proof.
  intros Hlen Hl Hc. destruct (place_spec (fun i => default 0 (hs !! i)) l 0 noHashes) as (H1 & H2 & H3).
  { intros e He. specialize (Hl e He). rewrite Hl. split; [done|]. apply lookup_lt_Some in Hl. unfold noHashes.
    rewrite length_replicate. lia. }
  pose proof (place_nonneg l (0, noHashes) ltac:(cbn; lia)) as H0. destruct (place l (0, noHashes)) as [m hs']. cbn [fst snd] in *.
  exists m. assert (hs' = hs) as ->.
  - apply list_eq. intros i. rewrite H2. destruct (hs !! i) as [h|] eqn:E.
    + case_bool_decide as Hi; [done|]. destruct (decide (h = 0)) as [->|Hnz]; [|destruct Hi; by apply (Hc i h)].
      unfold noHashes. apply lookup_replicate. split; [done|]. apply lookup_lt_Some in E. lia.
    + case_bool_decide as Hi.
      * apply list_elem_of_fmap in Hi as (e & -> & He). specialize (Hl e He). congruence.
      * apply lookup_ge_None. unfold noHashes. rewrite length_replicate. apply lookup_ge_None in E. lia.
  - split; [done|]. split; [done|]. intros i. rewrite H3. unfold hasBranch at 1. rewrite Z.bits_0. cbn [orb].
    case_bool_decide as Hi; [done|]. destruct (hs !! i) as [h|] eqn:E; [|done].
    change (default 0 (Some h)) with h. destruct (Z.eqb_spec h 0); [done|]. destruct Hi. by apply (Hc i h).
Qed.

(** All the hashes in order. *)
Lemma place_full hs : length hs = kBranchFactor ->
  exists m, place (zip (seq 0 kBranchFactor) hs) (0, noHashes) = (m, hs) /\ validMask m hs.
Proof.
  intros Hl. apply place_covers; [done| |].
  - intros e He. apply list_elem_of_lookup in He as [j Hj]. destruct e as [i h]. apply lookup_zip_Some in Hj as [Hj Hh].
    apply lookup_seq in Hj as [-> Hj]. done.
  - intros i h Hi _. rewrite fst_zip by (rewrite length_seq; lia). apply elem_of_seq. apply lookup_lt_Some in Hi. lia.
Qed.

(** The hashes in use, in order. *)
Lemma place_branches m hs : length hs = kBranchFactor -> validMask m hs ->
  place (map (fun i => (i, default 0 (hs !! i))) (branchesOf m)) (0, noHashes) = (m, hs).
Proof.
  intros Hl Hm. destruct (place_covers hs (map (fun i => (i, default 0 (hs !! i))) (branchesOf m)) Hl) as (m' & E & Hm').
  - intros e He. apply list_elem_of_fmap in He as (i & -> & Hi). cbn [fst snd]. unfold branchesOf in Hi.
    apply list_elem_of_In, filter_In in Hi as [Hi _]. apply in_seq in Hi.
    destruct (hs !! i) as [h|] eqn:Eh; [done|]. apply lookup_ge_None in Eh. lia.
  - intros i h Hi Hh. rewrite <-list_fmap_compose. apply list_elem_of_fmap. exists i. split; [done|].
    apply list_elem_of_In, filter_In. split; [apply in_seq; apply lookup_lt_Some in Hi; lia|].
    destruct Hm as [_ ->]. rewrite Hi. change (default 0 (Some h)) with h. by destruct (Z.eqb_spec h 0).
  - rewrite E. by rewrite (validMask_unique m' m hs Hm' Hm).
Qed.

(** ** Chunks for the same branch *)

Definition lastHash (i : nat) (chunks : list (nat * Z)) : Z := default 0 (snd <$> last (filter (fun e => e.1 = i) chunks)).

Lemma lastHash_snoc i l j h : lastHash i (l ++ [(j, h)]) = if decide (j = i) then h else lastHash i l.
Proof.
  unfold lastHash. rewrite filter_app. destruct (decide (j = i)) as [->|Hne].
  - rewrite filter_cons_True, filter_nil, last_snoc by done. done.
  - rewrite filter_cons_False, filter_nil, app_nil_r by done. done.
Qed.

Lemma lastHash_in i l : lastHash i l <> 0 -> (i, lastHash i l) ∈ l.
Proof.
  induction l as [|[j h] l IH] using rev_ind; [done|]. rewrite lastHash_snoc, elem_of_app. destruct (decide (j = i)) as [->|]; [right; left|by left; apply IH].
Qed.

Lemma lastHash_single l : NoDup l.*1 -> forall e, e ∈ l -> lastHash e.1 l = e.2.
Proof.
  induction l as [|[j h] l IH] using rev_ind; intros Hnd e He; [by apply not_elem_of_nil in He|].
  rewrite fmap_app in Hnd. apply NoDup_app in Hnd as (Hnd & Hj & _). rewrite lastHash_snoc. apply elem_of_app in He as [He|He].
  - rewrite decide_False; [by apply IH|]. intros ->. apply (Hj e.1); [by apply list_elem_of_fmap_2|left].
  - apply list_elem_of_singleton in He as ->. by rewrite decide_True.
Qed.

Lemma lastHash_branch l i : NoDup l.*1 -> bool_decide (Exists (fun e => e.1 = i /\ e.2 <> 0) l) = negb (lastHash i l =? 0).
Proof.
  intros Hnd. destruct (Z.eqb_spec (lastHash i l) 0) as [E|Hne]; cbn [negb].
  - apply bool_decide_eq_false. rewrite Exists_exists. intros (e & He & <- & Hn). by rewrite (lastHash_single l Hnd e He) in E.
  - apply bool_decide_eq_true. rewrite Exists_exists. eexists. split; [by apply lastHash_in|done].
Qed.

Lemma place_last l : Forall (fun e => isKey e.2 /\ (e.1 < kBranchFactor)%nat) l -> forall i,
  default 0 ((place l (0, noHashes)).2 !! i) = lastHash i l /\
  hasBranch (place l (0, noHashes)).1 i = bool_decide (Exists (fun e => e.1 = i /\ e.2 <> 0) l).
Proof.
  intros Hl. assert (length (place l (0, noHashes)).2 = kBranchFactor /\ forall i,
    default 0 ((place l (0, noHashes)).2 !! i) = lastHash i l /\
    hasBranch (place l (0, noHashes)).1 i = bool_decide (Exists (fun e => e.1 = i /\ e.2 <> 0) l)) as [_ H]; [|exact H].
  induction l as [|[j h] l IH] using rev_ind.
  { split; [done|]. intros i. split; [apply noHashes_default|]. cbn. unfold hasBranch. by rewrite Z.bits_0. }
  apply Forall_app in Hl as [Hl [[_ Hj] _]%Forall_cons]. cbn in Hj. destruct (IH Hl) as [Hlen Hi]. unfold place in *. rewrite fold_left_app. cbn [fold_left fst snd].
  split; [by rewrite length_insert|]. intros i. rewrite lastHash_snoc. destruct (Hi i) as [E1 E2].
  assert (bool_decide (Exists (fun e => e.1 = i /\ e.2 <> 0) (l ++ [(j, h)])) =
    bool_decide (Exists (fun e => e.1 = i /\ e.2 <> 0) l) || bool_decide (j = i /\ h <> 0)) as ->.
  { rewrite <-bool_decide_or. apply bool_decide_ext. rewrite Exists_app, Exists_cons, Exists_nil. cbn. tauto. }
  rewrite <-E2. split.
  - destruct (decide (j = i)) as [->|Hne]; [by rewrite list_lookup_insert_eq by lia|by rewrite list_lookup_insert_ne].
  - destruct (Z.eqb_spec h 0) as [->|Hh]; [rewrite bool_decide_eq_false_2 by tauto; by rewrite orb_false_r|].
    rewrite hasBranch_add. f_equal. destruct (Nat.eqb_spec j i); symmetry; [by apply bool_decide_eq_true|apply bool_decide_eq_false; tauto].
Qed.

(** ** Making nodes *)

Definition shortEnough (raw : list Z) : Prop := Z.of_nat (length raw) < 2 ^ 31.

Lemma takeTag_spec raw k :
  shortEnough raw ->
  takeTag raw k = if (length raw <? 32)%nat then WireRuntimeError
                  else k (drop (length raw - 32) raw) (take (length raw - 32) raw).
Proof.
  intros Hs. unfold shortEnough in Hs. unfold takeTag. destruct (Nat.ltb_spec (length raw) 32); [done|].
  assert (E : i32 (Z.of_nat (length raw) - 32) = Z.of_nat (length raw) - 32) by (unfold i32; rewrite u32_id by lia; bcase; lia).
  rewrite E. unfold getBitStringAt, chop. rewrite (u64_id (Z.of_nat (length raw) - 32)) by lia.
  rewrite (u64_id (Z.of_nat (length raw) - 32 + Z.of_nat 32)) by lia.
  destruct (Z.leb_spec (Z.of_nat (length raw) - 32 + Z.of_nat 32) (Z.of_nat (length raw))); [|lia].
  destruct (Z.ltb_spec (Z.of_nat (length raw) - 32) 0); [lia|].
  replace (Z.to_nat (Z.of_nat (length raw) - 32)) with (length raw - 32)%nat by lia.
  rewrite (take_ge (drop _ raw)) by (rewrite length_drop; lia).
  destruct (Z.ltb_spec (Z.of_nat (length raw)) (u64 32)) as [Hlt|_]; [change (u64 32) with 32 in Hlt; lia|]. done.
Qed.

(** The bytes of a leaf without what marks its kind. *)
Definition leafBytes (type : SHAMapNodeType) (item : SHAMapItem) : list Z :=
  match type with TnTransactionNm => item_data item | _ => item_data item ++ beBytes 32 (item_key item) end.

Section Made.
Context (sha512Half : list Z -> Z).

Definition makeLeaf (type : SHAMapNodeType) : list Z -> Z -> bool -> WireResult :=
  match type with
  | TnTransactionNm => makeTransaction sha512Half
  | TnTransactionMd => makeTransactionWithMeta sha512Half
  | _ => makeAccountState sha512Half
  end.

(** Nodes as trees hold them: a leaf with enough data and the key its kind requires, or
    sixteen hashes, not all zero, with their mask. *)
Definition validBody (b : NodeBody) : Prop :=
  match b with
  | LeafBody type item =>
      validType type /\ isDigits 256 (item_data item) /\ (kMinShaMapItemBytes <= length (item_data item))%nat /\
      shortEnough (leafBytes type item) /\ isKey (item_key item) /\
      (type = TnAccountState -> item_key item <> 0) /\
      (type = TnTransactionNm -> item_key item = sha512Half (leafPreimage TnTransactionNm item))
  | InnerBody isBranch hashes =>
      length hashes = kBranchFactor /\ Forall isKey hashes /\ validMask isBranch hashes /\ isBranch <> 0
  end.

Lemma takeTag_app data key k :
  shortEnough (data ++ beBytes 32 key) -> takeTag (data ++ beBytes 32 key) k = k (beBytes 32 key) data.
Proof.
  intros Hs. rewrite takeTag_spec by done.
  assert (El : length (data ++ beBytes 32 key) = (length data + 32)%nat) by by rewrite length_app, length_beBytes.
  rewrite El. destruct (Nat.ltb_spec (length data + 32) 32); [lia|].
  replace (length data + 32 - 32)%nat with (length data) by lia. by rewrite drop_app_length, take_app_length.
Qed.

(** Reading the data of a leaf. *)
Lemma makeLeaf_read type item hash hashValid :
  validBody (LeafBody type item) ->
  makeLeaf type (leafBytes type item) hash hashValid = makeNode sha512Half (LeafBody type item) hash hashValid.
Proof.
  intros (Ht & Hd & Hmin & Hmax & Hk & Has & Htx). destruct item as [k data]. cbn [item_key item_data] in *.
  unfold makeLeaf, leafBytes in *. cbn [item_key item_data] in *.
  destruct type; [done|..]; unfold makeTransaction, makeTransactionWithMeta, makeAccountState; rewrite ?takeTag_app, ?beValue_key by done;
    (destruct (Nat.ltb_spec (length data) kMinShaMapItemBytes); [lia|]).
  - rewrite Htx by done. done.
  - done.
  - destruct (Z.eqb_spec k 0); [by destruct Has|]. done.
Qed.

(** What is read as a leaf is a leaf. *)
Lemma makeLeaf_total type raw hash hashValid :
  validType type -> (forall x, isKey (sha512Half x)) -> isDigits 256 raw -> shortEnough raw ->
  makeLeaf type raw hash hashValid = WireRuntimeError \/
  exists item, validBody (LeafBody type item) /\ raw = leafBytes type item.
Proof.
  intros Ht Hsha Hd Hs. destruct type; [done|..].
  { unfold makeLeaf, makeTransaction. destruct (Nat.ltb_spec (length raw) kMinShaMapItemBytes) as [|Hmin]; [by left|]. right.
    exists {| item_key := sha512Half (prefixBytes TransactionId ++ raw); item_data := raw |}. split; [|done].
    split_and!; [done|done|done|done|apply Hsha|done|done]. }
  all: unfold makeLeaf, makeTransactionWithMeta, makeAccountState; rewrite !takeTag_spec by done;
    destruct (Nat.ltb_spec (length raw) 32) as [|H32]; [by left|];
    set (tag := drop _ raw); set (data := take _ raw);
    assert (Htag : isDigits 256 tag) by (by apply Forall_drop);
    assert (Hl : length tag = 32%nat) by (unfold tag; rewrite length_drop; lia);
    pose proof (beValue_range tag Htag) as Hr; rewrite Hl in Hr;
    pose proof (beBytes_beValue tag Htag) as Eb; rewrite Hl in Eb;
    assert (Eraw : raw = data ++ beBytes 32 (beValue tag)) by (unfold data; rewrite Eb; unfold tag; by rewrite take_drop).
  all: try (destruct (Z.eqb_spec (beValue tag) 0) as [|Hz]; [by left|]).
  all: destruct (Nat.ltb_spec (length data) kMinShaMapItemBytes) as [|Hmin]; [by left|]; right;
    exists {| item_key := beValue tag; item_data := data |}; (split; [|done]);
    split_and!; [done|by apply Forall_take|done|unfold leafBytes; cbn [item_key item_data]; by rewrite <-Eraw|exact Hr|done|done].
Qed.

(** Reading sixteen hashes. *)
Lemma makeFullInner_read hs hash hashValid :
  length hs = kBranchFactor -> Forall isKey hs ->
  exists m, validMask m hs /\
  makeFullInner sha512Half (concat (map (beBytes 32) hs)) hash hashValid = makeNode sha512Half (InnerBody m hs) hash hashValid.
Proof.
  intros Hl Hk. destruct (place_full hs Hl) as (m & E & Hm). exists m. split; [done|]. unfold makeFullInner.
  assert (Elen : length (concat (map (beBytes 32) hs)) = (kBranchFactor * 32)%nat).
  { rewrite <-Hl. clear. induction hs as [|h hs IH]; [done|]. cbn [map concat length]. rewrite length_app, length_beBytes, IH. lia. }
  rewrite Elen, Nat.eqb_refl. cbn [negb]. pose proof (fullLoop_reads hs 0 0 noHashes Hk) as Hr. rewrite Hl, E in Hr.
  rewrite (Hr (newIter (concat (map (beBytes 32) hs))) []); [done| |by rewrite pending_new, app_nil_r].
  apply iterOk_new. apply Forall_concat, Forall_fmap, Forall_forall. intros h _. apply beBytes_digits.
Qed.

Lemma makeFullInner_valid m hs hash hashValid :
  validBody (InnerBody m hs) ->
  makeFullInner sha512Half (concat (map (beBytes 32) hs)) hash hashValid = makeNode sha512Half (InnerBody m hs) hash hashValid.
Proof.
  intros (Hl & Hk & Hm & _). destruct (makeFullInner_read hs hash hashValid Hl Hk) as (m' & Hm' & ->).
  by rewrite (validMask_unique m' m hs).
Qed.

(** Reading chunks. *)
Lemma makeCompressedInner_chunks l :
  (length l <= kBranchFactor)%nat -> Forall (fun e => isKey e.2 /\ (e.1 < 256)%nat) l ->
  makeCompressedInner sha512Half (concat (map chunk l)) =
  if inRange l then let r := place l (0, noHashes) in makeNode sha512Half (InnerBody r.1 r.2) 0 false else WireRuntimeError.
Proof.
  intros Hl Hk. unfold makeCompressedInner.
  assert (Elen : length (concat (map chunk l)) = (length l * 33)%nat).
  { clear. induction l as [|e l IH]; [done|]. cbn [map concat length]. unfold chunk at 1. rewrite !length_app, length_beBytes, IH. cbn. lia. }
  rewrite Elen, Nat.Div0.mod_mul, Nat.eqb_refl. cbn [negb orb]. destruct (Nat.ltb_spec (33 * kBranchFactor) (length l * 33)); [lia|].
  rewrite (compressedLoop_chunks l); [by destruct (inRange l), (place l (0, noHashes))|done|done| |apply pending_new].
  apply iterOk_new. apply Forall_concat, Forall_fmap, Forall_forall. intros e He.
  rewrite Forall_forall in Hk. destruct (Hk e He) as [_ Hi]. unfold compose, chunk. apply Forall_app. split; [apply beBytes_digits|]. constructor; [lia|constructor].
Qed.

(** Whatever the bytes, an inner node is read or rejected. *)
Lemma makeFullInner_total raw hash hashValid :
  isDigits 256 raw ->
  makeFullInner sha512Half raw hash hashValid = WireRuntimeError \/
  exists m hs, validMask m hs /\ length hs = kBranchFactor /\ Forall isKey hs /\ raw = concat (map (beBytes 32) hs) /\
    makeFullInner sha512Half raw hash hashValid = makeNode sha512Half (InnerBody m hs) hash hashValid.
Proof.
  intros Hd. destruct (decide (length raw = (kBranchFactor * 32)%nat)) as [El|Hne].
  - right. destruct (words_split kBranchFactor raw Hd El) as (hs & Hl & Hk & ->).
    destruct (makeFullInner_read hs hash hashValid Hl Hk) as (m & Hm & E). by exists m, hs.
  - left. unfold makeFullInner. by destruct (Nat.eqb_spec (length raw) (kBranchFactor * 32)).
Qed.

Lemma makeCompressedInner_total raw :
  isDigits 256 raw ->
  makeCompressedInner sha512Half raw = WireRuntimeError \/
  exists l, (length l <= kBranchFactor)%nat /\ Forall (fun e => isKey e.2 /\ (e.1 < kBranchFactor)%nat) l /\ raw = concat (map chunk l) /\
    let r := place l (0, noHashes) in makeCompressedInner sha512Half raw = makeNode sha512Half (InnerBody r.1 r.2) 0 false.
Proof.
  intros Hd. destruct (decide ((length raw mod 33 = 0)%nat /\ (length raw <= 33 * kBranchFactor)%nat)) as [[Em Hle]|Hne].
  - apply Nat.Div0.mod_divides in Em as [n En].
    destruct (chunks_split n raw Hd ltac:(lia)) as (l & Hl & Hk & ->). rewrite makeCompressedInner_chunks by (done || lia).
    destruct (inRange l) eqn:Ei; [|by left]. right. exists l. split; [lia|]. split; [|done]. apply Forall_forall. intros e He.
    unfold inRange in Ei. rewrite forallb_forall in Ei. specialize (Ei e (proj1 (list_elem_of_In _ _) He)).
    rewrite Forall_forall in Hk. destruct (Hk e He). split; [done|]. by apply Nat.ltb_lt.
  - left. unfold makeCompressedInner. destruct (Nat.eqb_spec (length raw mod 33) 0); [|done]. cbn [negb orb].
    destruct (Nat.ltb_spec (33 * kBranchFactor) (length raw)); [done|]. destruct Hne. split; [done|lia].
Qed.

(** ** Dispatching *)

Lemma makeFromPrefix_prefix p raw hash :
  makeFromPrefix sha512Half (prefixBytes p ++ raw) hash =
  match p with
  | TransactionId => makeLeaf TnTransactionNm raw hash true
  | TxNode => makeLeaf TnTransactionMd raw hash true
  | LeafNode => makeLeaf TnAccountState raw hash true
  | InnerNode => makeFullInner sha512Half raw hash true
  | _ => WireRuntimeError
  end.
Proof. by destruct p. Qed.

Lemma prefix_value b0 b1 b2 b3 p :
  isDigits 256 [b0; b1; b2; b3] ->
  u32 (Z.shiftl b0 24) +32 u32 (Z.shiftl b1 16) +32 u32 (Z.shiftl b2 8) +32 b3 = prefixValue p ->
  [b0; b1; b2; b3] = prefixBytes p.
Proof.
  intros Hd E. unfold prefixBytes. rewrite <-E, <-(beBytes_beValue _ Hd). cbn [length]. f_equal.
  apply Forall_cons in Hd as [H0 Hd]. apply Forall_cons in Hd as [H1 Hd]. apply Forall_cons in Hd as [H2 Hd]. apply Forall_cons in Hd as [H3 _].
  change (beValue [b0; b1; b2; b3]) with (b0 * 2 ^ 24 + (b1 * 2 ^ 16 + (b2 * 2 ^ 8 + (b3 * 1 + 0)))).
  rewrite !Z.shiftl_mul_pow2 by lia. rewrite (u32_id (b0 * _)), (u32_id (b1 * _)), (u32_id (b2 * _)) by lia.
  rewrite (u32_id (b0 * 2 ^ 24 + _)) by lia. rewrite (u32_id (b0 * 2 ^ 24 + _ + _)) by lia. rewrite u32_id by lia. lia.
Qed.

(** Either the bytes are rejected or they begin with one of the four prefixes. *)
Lemma makeFromPrefix_cases raw hash :
  isDigits 256 raw ->
  makeFromPrefix sha512Half raw hash = WireRuntimeError \/
  exists p rest, raw = prefixBytes p ++ rest /\ (p = TransactionId \/ p = TxNode \/ p = LeafNode \/ p = InnerNode).
Proof.
  intros Hd. destruct raw as [|b0 [|b1 [|b2 [|b3 rest]]]]; try (by left).
  assert (Hb : isDigits 256 [b0; b1; b2; b3]) by exact (Forall_take _ 4 _ Hd).
  assert (Hcase : forall p, u32 (Z.shiftl b0 24) +32 u32 (Z.shiftl b1 16) +32 u32 (Z.shiftl b2 8) +32 b3 = prefixValue p ->
    (p = TransactionId \/ p = TxNode \/ p = LeafNode \/ p = InnerNode) ->
    exists p rest', b0 :: b1 :: b2 :: b3 :: rest = prefixBytes p ++ rest' /\ (p = TransactionId \/ p = TxNode \/ p = LeafNode \/ p = InnerNode)).
  { intros p E Hp. exists p, rest. split; [|done]. by rewrite <-(prefix_value b0 b1 b2 b3 p). }
  unfold makeFromPrefix. set (type := u32 _ +32 _ +32 _ +32 b3) in *.
  destruct (Z.eqb_spec type (prefixValue TransactionId)); [right; apply (Hcase TransactionId); tauto|].
  destruct (Z.eqb_spec type (prefixValue LeafNode)); [right; apply (Hcase LeafNode); tauto|].
  destruct (Z.eqb_spec type (prefixValue InnerNode)); [right; apply (Hcase InnerNode); tauto|].
  destruct (Z.eqb_spec type (prefixValue TxNode)); [right; apply (Hcase TxNode); tauto|]. by left.
Qed.

Lemma makeFromWire_snoc raw type :
  makeFromWire sha512Half (raw ++ [type]) =
  if type =? kWireTypeTransaction then makeLeaf TnTransactionNm raw 0 false
  else if type =? kWireTypeAccountState then makeLeaf TnAccountState raw 0 false
  else if type =? kWireTypeInner then makeFullInner sha512Half raw 0 false
  else if type =? kWireTypeCompressedInner then makeCompressedInner sha512Half raw
  else if type =? kWireTypeTransactionWithMeta then makeLeaf TnTransactionMd raw 0 false
  else WireRuntimeError.
Proof.
  unfold makeFromWire. rewrite last_snoc, length_app. cbn [length]. replace (length raw + 1 - 1)%nat with (length raw) by lia.
  by rewrite take_app_length.
Qed.

Lemma serializeForWire_bytes b :
  serializeForWire b [] = match b with
    | LeafBody type item => leafBytes type item ++
        [match type with TnTransactionNm => kWireTypeTransaction | TnTransactionMd => kWireTypeTransactionWithMeta
         | _ => kWireTypeAccountState end]
    | InnerBody m hs =>
        if (branchCount m <? 12)%nat
        then concat (map chunk (map (fun i => (i, default 0 (hs !! i))) (branchesOf m))) ++ [kWireTypeCompressedInner]
        else concat (map (beBytes 32) (childHashes m hs)) ++ [kWireTypeInner]
    end.
Proof.
  destruct b as [type item|m hs]; [by destruct type|]. cbn [serializeForWire].
  destruct (branchCount m <? 12)%nat; [rewrite addChunks_bytes|rewrite addWords_bytes]; done.
Qed.

Lemma branchesOf_valid m hs :
  length hs = kBranchFactor -> Forall isKey hs ->
  let l := map (fun i => (i, default 0 (hs !! i))) (branchesOf m) in
  (length l <= kBranchFactor)%nat /\ inRange l = true /\ Forall (fun e => isKey e.2 /\ (e.1 < 256)%nat) l.
Proof.
  intros Hl Hk l. assert (Hin : forall e, e ∈ l -> isKey e.2 /\ (e.1 < kBranchFactor)%nat).
  { intros e He. apply list_elem_of_fmap in He as (i & -> & Hi). apply list_elem_of_In, filter_In in Hi as [Hi _].
    apply in_seq in Hi. cbn [fst snd]. split; [|lia]. destruct (hs !! i) as [h|] eqn:E; [by apply (Forall_lookup_1 _ _ _ _ Hk E)|].
    unfold isKey. cbn. lia. }
  split; [unfold l; rewrite length_map; unfold branchesOf; rewrite filter_length_le, length_seq; done|]. split.
  - unfold inRange. apply forallb_forall. intros e He. apply Nat.ltb_lt, Hin. by apply list_elem_of_In.
  - apply Forall_forall. intros e He. destruct (Hin e He). unfold kBranchFactor in *. split; [done|lia].
Qed.

Lemma makeFromWire_written b :
  validBody b -> makeFromWire sha512Half (serializeForWire b []) = makeNode sha512Half b 0 false.
Proof.
  intros Hb. rewrite serializeForWire_bytes. destruct b as [type item|m hs].
  - pose proof (makeLeaf_read type item 0 false Hb) as E. rewrite makeFromWire_snoc. destruct Hb as [Ht _]. by destruct type.
  - destruct (branchCount m <? 12)%nat; rewrite makeFromWire_snoc.
    + destruct Hb as (Hl & Hk & Hm & _). destruct (branchesOf_valid m hs Hl Hk) as (H1 & H2 & H3).
      change (makeCompressedInner sha512Half (concat (map chunk (map (fun i => (i, default 0 (hs !! i))) (branchesOf m)))) = 
        makeNode sha512Half (InnerBody m hs) 0 false).
      rewrite makeCompressedInner_chunks by done. rewrite H2, (place_branches m hs Hl Hm). done.
    + rewrite (childHashes_valid m hs) by apply Hb. by apply makeFullInner_valid.
Qed.

Lemma makeFromPrefix_written b hash :
  validBody b -> makeFromPrefix sha512Half (serializeWithPrefix b []) hash = makeNode sha512Half b hash true.
Proof.
  intros Hb. rewrite serializeWithPrefix_bytes. cbn [app]. destruct b as [type item|m hs].
  - pose proof (makeLeaf_read type item hash true Hb) as E. destruct Hb as [Ht _].
    destruct type; [done|..]; unfold leafPreimage; by rewrite makeFromPrefix_prefix.
  - unfold innerPreimage. rewrite makeFromPrefix_prefix, (childHashes_valid m hs) by apply Hb. by apply makeFullInner_valid.
Qed.
(** Every branch with a hash is in use. *)
Definition innerOk (isBranch : Z) (hashes : list Z) : Prop :=
  length hashes = kBranchFactor /\ Forall isKey hashes /\
  (forall i, default 0 (hashes !! i) <> 0 -> hasBranch isBranch i = true).

Lemma place_innerOk l : forall m hs,
  Forall (fun e => isKey e.2 /\ (e.1 < kBranchFactor)%nat) l -> innerOk m hs ->
  innerOk (place l (m, hs)).1 (place l (m, hs)).2.
Proof.
  unfold place. induction l as [|[j h] l IH]; intros m hs Hl Hok; [done|]. apply Forall_cons in Hl as [[Hk Hj] Hl].
  cbn [fold_left fst snd] in *. apply IH; [done|]. destruct Hok as (H1 & H2 & H3). split; [by rewrite length_insert|].
  split; [by apply Forall_insert|]. intros i. destruct (decide (i = j)) as [->|Hne].
  - rewrite list_lookup_insert_eq by lia. change (default 0 (Some h)) with h. intros Hnz. destruct (Z.eqb_spec h 0); [done|].
    by rewrite hasBranch_add, Nat.eqb_refl, orb_true_r.
  - rewrite list_lookup_insert_ne by done. intros Hnz. destruct (h =? 0); [by apply H3|]. rewrite hasBranch_add. by rewrite H3.
Qed.

Lemma innerOk_none : innerOk 0 noHashes.
Proof.
  split; [done|]. split; [|intros i; by rewrite noHashes_default]. apply Forall_replicate. unfold isKey. lia.
Qed.

Lemma validMask_innerOk m hs : length hs = kBranchFactor -> Forall isKey hs -> validMask m hs -> innerOk m hs.
Proof. intros Hl Hk [_ Hm]. split; [done|]. split; [done|]. intros i Hi. rewrite Hm. by destruct (Z.eqb_spec (default 0 (hs !! i)) 0). Qed.

(** What was read, when no branch was given twice: a leaf, or an inner node whose branches in
    use are those with a hash *)
Definition wellRead (b : NodeBody) : Prop :=
  match b with
  | LeafBody _ _ => validBody b
  | InnerBody isBranch hashes => length hashes = kBranchFactor /\ Forall isKey hashes /\ validMask isBranch hashes
  end.

(** What chunks some of which are for the same branch give: the hash of the last one, and the
    branch in use when any of them has a hash *)
Definition overwritten (chunks : list (nat * Z)) (b : NodeBody) : Prop :=
  ~ NoDup chunks.*1 /\ exists isBranch hashes, b = InnerBody isBranch hashes /\ innerOk isBranch hashes /\
    forall i, default 0 (hashes !! i) = lastHash i chunks /\
      hasBranch isBranch i = bool_decide (Exists (fun e => e.1 = i /\ e.2 <> 0) chunks).

Definition wireBody (raw : list Z) (b : NodeBody) : Prop :=
  wellRead b \/
  exists chunks, raw = concat (map chunk chunks) ++ [kWireTypeCompressedInner] /\ (length chunks <= kBranchFactor)%nat /\
    Forall (fun e => isKey e.2 /\ (e.1 < kBranchFactor)%nat) chunks /\ overwritten chunks b.

Lemma wireBody_ok raw b : wireBody raw b ->
  match b with LeafBody _ _ => validBody b | InnerBody isBranch hashes => innerOk isBranch hashes end.
Proof.
  intros [Hb|(chunks & _ & _ & _ & _ & m & hs & -> & Hok & _)]; [|done]. destruct b; [done|]. destruct Hb as (? & ? & ?). by apply validMask_innerOk.
Qed.

Lemma makeLeaf_made type raw hash hashValid :
  (forall x, isKey (sha512Half x)) -> isDigits 256 raw -> shortEnough raw -> validType type ->
  makeLeaf type raw hash hashValid = WireRuntimeError \/ exists item, validBody (LeafBody type item) /\
  makeLeaf type raw hash hashValid = makeNode sha512Half (LeafBody type item) hash hashValid /\ raw = leafBytes type item.
Proof.
  intros Hsha Hraw Hs Ht. destruct (makeLeaf_total type raw hash hashValid Ht Hsha Hraw Hs) as [|(item & Hv & E)]; [by left|].
  right. exists item. split; [done|]. split; [|done]. rewrite E. by apply makeLeaf_read.
Qed.

Lemma makeFromPrefix_total raw hash :
  (forall x, isKey (sha512Half x)) -> isDigits 256 raw -> shortEnough raw ->
  makeFromPrefix sha512Half raw hash = WireRuntimeError \/
  exists b, makeFromPrefix sha512Half raw hash = Made {| node_body := b; node_hash := hash |} /\ wellRead b /\ serializeWithPrefix b [] = raw.
Proof.
  intros Hsha Hraw Hs. destruct (makeFromPrefix_cases raw hash Hraw) as [E|(p & rest & -> & Hp)]; [by left|].
  apply Forall_app in Hraw as [_ Hraw]. unfold shortEnough in Hs. rewrite length_app in Hs. rewrite makeFromPrefix_prefix.
  pose proof (fun type => makeLeaf_made type rest hash true Hsha Hraw ltac:(unfold shortEnough; lia)) as Hleaf.
  destruct Hp as [->|[->|[->| ->]]].
  1-3: match goal with |- context [makeLeaf ?type _ _ _] => destruct (Hleaf type ltac:(done)) as [E|(item & Hv & E & Er)]; [by left|] end;
    right; eexists; (split; [exact E|]); (split; [exact Hv|]); rewrite serializeWithPrefix_bytes; rewrite Er; done.
  destruct (makeFullInner_total rest hash true Hraw) as [E|(m & hs & Hm & Hl & Hk & Er & E)]; [by left|].
  right. eexists. split; [exact E|]. split; [done|]. rewrite serializeWithPrefix_bytes. cbn [app]. rewrite (childHashes_valid m hs), Er by done. done.
Qed.

Lemma makeFromWire_total raw type :
  (forall x, isKey (sha512Half x)) -> isDigits 256 raw -> shortEnough raw ->
  makeFromWire sha512Half (raw ++ [type]) = WireRuntimeError \/
  exists b, makeFromWire sha512Half (raw ++ [type]) = Made {| node_body := b; node_hash := updateHash sha512Half b |} /\ wireBody (raw ++ [type]) b.
Proof.
  intros Hsha Hraw Hs. rewrite makeFromWire_snoc.
  assert (Hleaf : forall t, validType t ->
    makeLeaf t raw 0 false = WireRuntimeError \/
    exists b, makeLeaf t raw 0 false = Made {| node_body := b; node_hash := updateHash sha512Half b |} /\ wireBody (raw ++ [type]) b).
  { intros t Ht. destruct (makeLeaf_made t raw 0 false Hsha Hraw Hs Ht) as [|(item & Hv & E & _)]; [by left|].
    right. exists (LeafBody t item). split; [exact E|by left]. }
  destruct (type =? kWireTypeTransaction); [by apply Hleaf|]. destruct (type =? kWireTypeAccountState); [by apply Hleaf|].
  destruct (type =? kWireTypeInner).
  { destruct (makeFullInner_total raw 0 false Hraw) as [E|(m & hs & Hm & Hl & Hk & Er & E)]; [by left|].
    right. exists (InnerBody m hs). split; [exact E|by left]. }
  destruct (Z.eqb_spec type kWireTypeCompressedInner) as [->|_]; [|destruct (type =? kWireTypeTransactionWithMeta); [by apply Hleaf|by left]].
  destruct (makeCompressedInner_total raw Hraw) as [E|(l & Hlen & Hl & Er & E)]; [by left|].
  right. exists (InnerBody (place l (0, noHashes)).1 (place l (0, noHashes)).2). split; [exact E|].
  pose proof (place_innerOk l 0 noHashes Hl innerOk_none) as Hok. pose proof (place_last l Hl) as Hlast.
  destruct (decide (NoDup l.*1)) as [Hnd|Hnd].
  - left. destruct Hok as (H1 & H2 & _). split; [done|]. split; [done|]. split; [by apply place_nonneg|]. intros i.
    destruct (Hlast i) as [-> ->]. by apply lastHash_branch.
  - right. exists l. split; [by rewrite Er|]. split; [done|]. split; [done|]. split; [done|]. by eexists _, _.
Qed.
End Made.

(** ** The properties *)

(** C27: Nodes survive being sent and being stored: reading back either format gives the
    node, with its hash, whatever kind of leaf it is and whether the inner node is sent
    compressed or in full; and the stored bytes are those the hash of the node is taken of. *)
Theorem node_formats_roundtrip (sha512Half : list Z -> Z) (b : NodeBody) (Hb : validBody sha512Half b) :
  makeFromWire sha512Half (serializeForWire b []) = Made {| node_body := b; node_hash := updateHash sha512Half b |} /\
  (forall hash, makeFromPrefix sha512Half (serializeWithPrefix b []) hash = Made {| node_body := b; node_hash := hash |}) /\
  updateHash sha512Half b = sha512Half (serializeWithPrefix b []).
Proof.
  split; [by apply makeFromWire_written|]. split; [intros hash; by apply makeFromPrefix_written|].
  rewrite serializeWithPrefix_bytes. destruct b as [type item|m hs]; [done|]. destruct Hb as (_ & _ & _ & Hm).
  cbn [updateHash app]. by destruct (Z.eqb_spec m 0).
Qed.

(** C24: Whatever the bytes, fewer than [2 ^ 31] of them, reading them as a stored node either
    throws [runtime_error] or gives a well-formed node that is stored as exactly those
    bytes; reading them as a node from the wire gives nothing for no bytes, throws
    [runtime_error], or gives a node with the hash of what was read.  That is a valid leaf, or
    an inner node in which a branch is in use exactly when it has a hash, except when the
    bytes are a compressed inner node that has two chunks for one branch: then the branch
    has the hash of the last chunk for it, even a zero one, and is in use when any of them has
    a hash.  Nothing is ever read outside the bytes. *)
Theorem node_readers_safe (sha512Half : list Z -> Z) (raw : list Z) (hash : Z)
    (Hsha : forall x, isKey (sha512Half x)) (Hraw : isDigits 256 raw) (Hs : shortEnough raw) :
  (makeFromPrefix sha512Half raw hash = WireRuntimeError \/
   exists b, makeFromPrefix sha512Half raw hash = Made {| node_body := b; node_hash := hash |} /\
     wellRead sha512Half b /\ serializeWithPrefix b [] = raw) /\
  (raw = [] /\ makeFromWire sha512Half raw = NullNode \/ makeFromWire sha512Half raw = WireRuntimeError \/
   exists b, makeFromWire sha512Half raw = Made {| node_body := b; node_hash := updateHash sha512Half b |} /\ wireBody sha512Half raw b).
Proof.
  split; [by apply makeFromPrefix_total|]. destruct raw as [|type rest _] using rev_ind; [by left|]. right.
  apply Forall_app in Hraw as [Hraw _]. unfold shortEnough in Hs. rewrite length_app in Hs.
  apply makeFromWire_total; [done|done|unfold shortEnough; lia].
Qed.

(** A branch in use without a hash can come from the wire: a chunk for the branch and then
    one with a zero hash.  The node is not the one without the branch, and has its hash. *)
Theorem compressed_inner_ambiguous (sha512Half : list Z -> Z) :
  exists hashes hash,
    makeFromWire sha512Half (concat (map chunk [(5%nat, 7); (5%nat, 0); (1%nat, 9)]) ++ [kWireTypeCompressedInner]) =
      Made {| node_body := InnerBody 34 hashes; node_hash := hash |} /\
    makeFromWire sha512Half (concat (map chunk [(1%nat, 9)]) ++ [kWireTypeCompressedInner]) =
      Made {| node_body := InnerBody 2 hashes; node_hash := hash |}.
Proof.
  exists (<[1%nat := 9]> noHashes), (sha512Half (innerPreimage (<[1%nat := 9]> noHashes))).
  assert (Hk : forall l : list (nat * Z), forallb (fun e => (0 <=? e.2) && (e.2 <? 256) && (e.1 <? 256)%nat) l = true ->
    Forall (fun e => isKey e.2 /\ (e.1 < 256)%nat) l).
  { intros l Hl. apply Forall_forall. intros e He. rewrite forallb_forall in Hl. specialize (Hl e (proj1 (list_elem_of_In _ _) He)).
    apply andb_true_iff in Hl as [Hl H3]. apply Nat.ltb_lt in H3. unfold isKey. breflect. lia. }
  split; rewrite makeFromWire_snoc; cbn [kWireTypeCompressedInner];
    [change (makeCompressedInner sha512Half (concat (map chunk [(5%nat, 7); (5%nat, 0); (1%nat, 9)])) = Made {| node_body := InnerBody 34 (<[1%nat:=9]> noHashes); node_hash := sha512Half (innerPreimage (<[1%nat:=9]> noHashes)) |})
    |change (makeCompressedInner sha512Half (concat (map chunk [(1%nat, 9)])) = Made {| node_body := InnerBody 2 (<[1%nat:=9]> noHashes); node_hash := sha512Half (innerPreimage (<[1%nat:=9]> noHashes)) |})];
    (rewrite makeCompressedInner_chunks; [reflexivity|unfold kBranchFactor; cbn [length]; lia|by apply Hk]).
Qed.

Lemma node_formats_roundtrip_witness :
  let b := LeafBody TnAccountState {| item_key := 77; item_data := replicate 12 9 |} in
  makeFromWire sampleDigest (serializeForWire b []) = Made {| node_body := b; node_hash := updateHash sampleDigest b |} /\
  (forall hash, makeFromPrefix sampleDigest (serializeWithPrefix b []) hash = Made {| node_body := b; node_hash := hash |}) /\
  updateHash sampleDigest b = sampleDigest (serializeWithPrefix b []).
Proof.
  apply node_formats_roundtrip. split; [done|]. split; [apply Forall_replicate; lia|]. split; [done|]. split; [done|].
  split; [done|]. split; done.
Defined.

(** A compressed inner node with two chunks for the branch 5 *)
Lemma node_readers_safe_witness :
  let raw := concat (map chunk [(5%nat, 7); (5%nat, 0)]) ++ [kWireTypeCompressedInner] in
  exists b, makeFromWire sampleDigest raw = Made {| node_body := b; node_hash := updateHash sampleDigest b |} /\ wireBody sampleDigest raw b.
Proof.
  intros raw. assert (isDigits 256 raw) as Hraw.
  { apply Forall_forall. intros x Hx. assert (forallb (fun x => (0 <=? x) && (x <? 256)) raw = true) as Hb by (vm_compute; reflexivity).
    rewrite forallb_forall in Hb. apply list_elem_of_In in Hx. specialize (Hb x Hx). breflect. lia. }
  destruct (node_readers_safe sampleDigest raw 5 sampleDigest_key Hraw ltac:(vm_compute; reflexivity)) as [_ [[Hnil _]|[E|Hb]]]; [discriminate Hnil| |exact Hb].
  exfalso. revert E. vm_compute. discriminate.
Defined.
