(* ===== verification/ShaMapProof.v ===== *)
(** * SHAMap: proof paths

    [getProofPath] and [verifyProofPath] of src/libxrpl/shamap/SHAMapSync.cpp: the nodes
    from the leaf of a key up to the root, as they are sent, and the check of such a list
    against the hash of the root. *)
From S2P Require Import Prelude Digits HashPrefix Serializer SerializerFacts NodeID ShaMap ShaMapFacts ShaMapSpec ShaMapWire ShaMapWireSpec.
#[local] Open Scope map_scope.

(** Whether a depth is at or past the deepest an inner node may occupy *)
Definition isLeafDepth (depth : nat) : bool := (kLeafDepth <=? depth)%nat.

Section Proofs.
Context (sha512Half : list Z -> Z).
#[local] Abbreviation hash := (nodeHash sha512Half).

(** A node of a tree as it is written: of the children, the hashes *)
Definition bodyOf (n : Node) : NodeBody :=
  match n with
  | Leaf type item => LeafBody type item
  | Inner cs =>
      InnerBody (fold_left (fun m i => if isEmptyBranch cs i then m else addBranch i m) (seq 0 kBranchFactor) 0)
        (map (fun c => match c with Some m => hash m | None => 0 end) cs)
  end.

Definition getProofPath (root : Node) (key : Z) : MapResult (option (list (list Z))) :=
  let* r := walkTowardsKey root key in
  match r.1 with
  | [] => Done None
  | (Inner _, _) :: _ => Done None
  | (Leaf _ item, _) :: _ =>
      if item_key item =? key then Done (Some (map (fun e => serializeForWire (bodyOf e.1) []) r.1)) else Done None
  end.

(** [getChildHash] *)
Definition bodyChildHash (isBranch : Z) (hashes : list Z) (branch : nat) : Z :=
  if hasBranch isBranch branch then default 0 (hashes !! branch) else 0.

(** The loop of [verifyProofPath] over the nodes from the root, the first of them at [depth];
    an exception ends it with [false]. *)
Fixpoint verifyLoop (key : Z) (pathSize : nat) (hash : Z) (depth : nat) (blobs : list (list Z)) : bool :=
  match blobs with
  | [] => false
  | blob :: blobs =>
      match makeFromWire sha512Half blob with
      | Made node =>
          if negb (updateHash sha512Half (node_body node) =? hash) then false
          else
            match node_body node with
            | InnerBody isBranch hashes =>
                if isLeafDepth depth then false
                else
                  let nodeId := createID depth key in
                  verifyLoop key pathSize (bodyChildHash isBranch hashes (selectBranch nodeId key)) (S depth) blobs
            | LeafBody _ item => if negb (item_key item =? key) then false else (depth + 1 =? pathSize)%nat
            end
      | _ => false
      end
  end.

Definition verifyProofPath (rootHash key : Z) (path : list (list Z)) : bool :=
  if (length path =? 0)%nat || (kLeafDepth + 1 <? length path)%nat then false
  else verifyLoop key (length path) rootHash 0 (rev path).

(** ** Nodes of a tree as bytes *)

(** The items of a tree are ones it can be sent with: enough data, and the key of the
    item's kind. *)
Definition sendable (type : SHAMapNodeType) (item : SHAMapItem) : Prop := validBody sha512Half (LeafBody type item).

Lemma bodyMask cs l m : forall i,
  hasBranch (fold_left (fun m i => if isEmptyBranch cs i then m else addBranch i m) l m) i =
  hasBranch m i || (bool_decide (i ∈ l) && negb (isEmptyBranch cs i)).
Proof.
  revert m. induction l as [|j l IH]; intros m i; cbn [fold_left].
  { rewrite bool_decide_false by apply not_elem_of_nil. by rewrite orb_false_r. }
  rewrite IH. destruct (decide (i = j)) as [->|Hne].
  - rewrite (bool_decide_true (j ∈ j :: l)) by left. destruct (isEmptyBranch cs j); cbn [negb]; [by rewrite andb_false_r|].
    rewrite hasBranch_add, Nat.eqb_refl, !orb_true_r. done.
  - rewrite decide_other by done. destruct (isEmptyBranch cs j); [done|]. rewrite hasBranch_add.
    destruct (Nat.eqb_spec j i); [congruence|]. by rewrite orb_false_r.
Qed.

Lemma bodyMask_nonneg cs l : forall m, 0 <= m -> 0 <= fold_left (fun m i => if isEmptyBranch cs i then m else addBranch i m) l m.
Proof.
  induction l as [|j l IH]; intros m Hm; [done|]. cbn [fold_left]. apply IH. destruct (isEmptyBranch cs j); [done|].
  unfold addBranch. rewrite Z.lor_nonneg, Z.shiftl_nonneg. lia.
Qed.

Lemma noCollision_child cs b c :
  noCollision sha512Half (preimages sha512Half (Inner cs)) -> childAt cs b = Some c ->
  noCollision sha512Half (preimages sha512Half c).
Proof. intros H Hb. eapply noCollision_sub; [exact H|]. intros x Hx. by eapply preimages_child. Qed.

(** The mask and the hashes of an inner node go together. *)
Lemma bodyOf_inner type d p cs :
  wfNode type d p (Inner cs) -> noCollision sha512Half (preimages sha512Half (Inner cs)) ->
  exists m, bodyOf (Inner cs) = InnerBody m (map (branchHash sha512Half) cs) /\ validMask m (map (branchHash sha512Half) cs).
Proof.
  intros Hn Hnc. eexists. split; [done|]. split; [apply bodyMask_nonneg; lia|]. intros i.
  rewrite bodyMask. unfold hasBranch at 1. rewrite Z.bits_0. cbn [orb].
  rewrite <-branchHash_map. unfold isEmptyBranch. destruct (childAt cs i) as [c|] eqn:Ec; cbn [branchHash negb].
  - pose proof (childAt_range _ _ _ _ _ _ Hn Ec) as Hi. rewrite bool_decide_true by (apply elem_of_seq; unfold kBranchFactor; lia).
    inversion Hn as [|? ? ? Hd Hl Hc Htwo]; subst.
    pose proof (hash_nonzero _ _ _ _ _ (Hc i c Ec) ltac:(lia) (noCollision_child _ _ _ Hnc Ec)).
    destruct (Z.eqb_spec (hash c) 0); [lia|done].
  - by rewrite andb_false_r.
Qed.

(** A node of a well-formed tree is written with the hash of the node, and can be read. *)
Lemma bodyOf_valid type d p n :
  wfNode type d p n -> (exists x, x ∈ items n) -> noCollision sha512Half (preimages sha512Half n) ->
  (forall x, x ∈ items n -> sendable type x) ->
  validBody sha512Half (bodyOf n) /\ updateHash sha512Half (bodyOf n) = hash n.
Proof.
  intros Hn [x Hx] Hnc Hs. destruct n as [t item|cs].
  - assert (t = type) as -> by by inversion Hn. split; [|done]. apply Hs. by apply list_elem_of_singleton.
  - destruct (bodyOf_inner _ _ _ _ Hn Hnc) as (m & -> & Hm). inversion Hn as [|? ? ? Hd Hl Hc Htwo]; subst.
    apply elem_of_items_inner in Hx as (b & c & Hb & _).
    assert (Hlen : length (map (branchHash sha512Half) cs) = kBranchFactor) by by rewrite length_map.
    assert (Hm0 : m <> 0).
    { intros ->. destruct Hm as [_ Hm]. specialize (Hm b). unfold hasBranch in Hm. rewrite Z.bits_0, <-branchHash_map, Hb in Hm.
      pose proof (hash_nonzero _ _ _ _ _ (Hc b c Hb) ltac:(lia) (noCollision_child _ _ _ Hnc Hb)) as Hnz. cbn [branchHash] in Hm.
      destruct (Z.eqb_spec (hash c) 0); [lia|done]. }
    split; [split; [done|]; split; [exact (childHashes_range _ _ _ _ _ Hn Hnc)|done]|].
    cbn [updateHash]. destruct (Z.eqb_spec m 0); [done|]. rewrite childHashes_valid by done. cbn [nodeHash].
    rewrite (proj2 (existsb_children cs)) by by exists b, c. done.
Qed.

(** ** Paths are accepted *)

Definition blobOf (e : Node * SHAMapNodeID) : list Z := serializeForWire (bodyOf e.1) [].

Lemma verify_written key size d p n blobs type :
  wfNode type d p n -> (exists x, x ∈ items n) -> noCollision sha512Half (preimages sha512Half n) ->
  (forall x, x ∈ items n -> sendable type x) ->
  verifyLoop key size (hash n) d (serializeForWire (bodyOf n) [] :: blobs) =
  match bodyOf n with
  | InnerBody isBranch hashes =>
      if isLeafDepth d then false
      else verifyLoop key size (bodyChildHash isBranch hashes (selectBranch (createID d key) key)) (S d) blobs
  | LeafBody _ item => if negb (item_key item =? key) then false else (d + 1 =? size)%nat
  end.
Proof.
  intros Hn Hex Hnc Hs. destruct (bodyOf_valid type d p n Hn Hex Hnc Hs) as [Hv Eh]. cbn [verifyLoop].
  rewrite makeFromWire_written by done. cbn [makeNode node_body]. rewrite Eh, Z.eqb_refl. done.
Qed.

Lemma verify_zip type x size st d n d' st' p :
  Zip (item_key x) st d n d' (Leaf type x) st' -> wfNode type d p n -> prefix (item_key x) d = p ->
  noCollision sha512Half (preimages sha512Half n) -> (forall y, y ∈ items n -> sendable type y) ->
  exists blobs, rev (map blobOf ((Leaf type x, createID d' (item_key x)) :: st')) = rev (map blobOf st) ++ blobs /\
  (length blobs + d = d' + 1)%nat /\ verifyLoop (item_key x) size (hash n) d blobs = (d' + 1 =? size)%nat.
Proof.
  intros Hz. revert p. remember (Leaf type x) as leaf eqn:El. revert El.
  induction Hz as [st d n|st d cs c d' n' st' Hc Hz IH]; intros -> p Hn Hp Hnc Hs.
  - exists [serializeForWire (bodyOf (Leaf type x)) []]. split; [done|]. split; [cbn; lia|].
    rewrite (verify_written _ _ _ p (Leaf type x) [] type) by (done || (exists x; by apply list_elem_of_singleton)).
    cbn [bodyOf]. by rewrite Z.eqb_refl.
  - pose proof Hn as Hn'. inversion Hn' as [|? ? ? Hd Hl Hcs Htwo]; subst. pose proof (nibble_range (item_key x) d) as Hr.
    pose proof (Hcs _ _ Hc) as Hcw. rewrite Z2Nat.id, <-prefix_S in Hcw by lia.
    destruct (IH eq_refl _ Hcw eq_refl (noCollision_child _ _ _ Hnc Hc)) as (blobs & E & Hlen & Hv).
    { intros y Hy. apply Hs. apply elem_of_items_inner. by eexists _, c. }
    exists (serializeForWire (bodyOf (Inner cs)) [] :: blobs). split; [|split; [cbn; lia|]].
    + rewrite E. cbn [map rev]. unfold blobOf at 2. cbn [fst]. by rewrite <-app_assoc.
    + assert (Hex : exists y, y ∈ items (Inner cs)).
      { destruct (items_nonempty _ _ _ _ Hcw ltac:(lia)) as [y Hy]. exists y. apply elem_of_items_inner. by eexists _, c. }
      rewrite (verify_written _ _ _ _ _ _ type Hn Hex Hnc Hs).
      destruct (bodyOf_inner _ _ _ _ Hn Hnc) as (m & -> & Hm). unfold isLeafDepth, kLeafDepth. destruct (Nat.leb_spec 64 d); [lia|].
      rewrite selectBranch_path by lia. unfold bodyChildHash. rewrite (proj2 Hm), <-branchHash_map, Hc. cbn [branchHash].
      pose proof (hash_nonzero _ _ _ _ _ Hcw ltac:(lia) (noCollision_child _ _ _ Hnc Hc)).
      destruct (Z.eqb_spec (hash c) 0); [lia|]. exact Hv.
Qed.

(** ** What is accepted is there *)

(** The bytes hashed in checking a path *)
Definition blobPreimages (blob : list Z) : list (list Z) :=
  match makeFromWire sha512Half blob with
  | Made node =>
      match node_body node with
      | LeafBody type item => [leafPreimage type item]
      | InnerBody isBranch hashes => [innerPreimage (childHashes isBranch hashes)]
      end
  | _ => []
  end.

Definition pathPreimages (path : list (list Z)) : list (list Z) := concat (map blobPreimages path).

(** Once the hash to match is zero, no leaf matches. *)
Lemma verifyLoop_zero key size blobs : forall d,
  noCollision sha512Half (pathPreimages blobs) -> verifyLoop key size 0 d blobs = false.
Proof.
  induction blobs as [|blob blobs IH]; intros d Hnc; [done|]. cbn [verifyLoop].
  assert (Hrest : noCollision sha512Half (pathPreimages blobs)) by exact (proj2 (noCollision_app _ _ _ Hnc)).
  pose proof (proj1 (noCollision_app _ _ _ Hnc)) as [Hpos _]. unfold blobPreimages in Hpos.
  destruct (makeFromWire sha512Half blob) as [node| | | |]; try done. destruct (node_body node) as [type item|m hs]; cbn [updateHash].
  - specialize (Hpos _ (list_elem_of_here _ _)). destruct (Z.eqb_spec (sha512Half (leafPreimage type item)) 0); [lia|done].
  - destruct (Z.eqb_spec m 0) as [->|Hm].
    + cbn [negb]. change (0 =? 0) with true. cbn [negb]. destruct (isLeafDepth d); [done|].
      unfold bodyChildHash, hasBranch. rewrite Z.bits_0. by apply IH.
    + specialize (Hpos _ (list_elem_of_here _ _)). destruct (Z.eqb_spec (sha512Half (innerPreimage (childHashes m hs))) 0); [lia|done].
Qed.

Lemma childHashes_branch m hs b : (b < kBranchFactor)%nat -> default 0 (childHashes m hs !! b) = bodyChildHash m hs b.
Proof. intros Hb. unfold childHashes, bodyChildHash. rewrite list_lookup_fmap, lookup_seq_lt by done. done. Qed.

Context (Hsha : forall x, isKey (sha512Half x)).

(** What reading a blob can give. *)
Lemma blob_made blob node :
  isDigits 256 blob -> shortEnough blob -> makeFromWire sha512Half blob = Made node ->
  match node_body node with
  | LeafBody type item => validBody sha512Half (LeafBody type item)
  | InnerBody isBranch hashes => innerOk isBranch hashes
  end.
Proof.
  intros Hd Hs E. destruct blob as [|t raw _] using rev_ind; [done|]. apply Forall_app in Hd as [Hd _].
  unfold shortEnough in Hs. rewrite length_app in Hs.
  destruct (makeFromWire_total sha512Half raw t Hsha Hd ltac:(unfold shortEnough; lia)) as [E'|(b & E' & Hb)]; rewrite E in E'; [done|].
  injection E' as ->. cbn [node_body]. apply wireBody_ok in Hb. by destruct b.
Qed.

(** A leaf hashed like a node of the tree is that node. *)
Lemma leaf_match type d p n t item :
  wfNode type d p n -> validType type -> (type = TnTransactionNm -> keyed sha512Half n) ->
  validBody sha512Half (LeafBody t item) ->
  noCollision sha512Half (preimages sha512Half n ++ [leafPreimage t item]) ->
  sha512Half (leafPreimage t item) = hash n -> n = Leaf type item.
Proof.
  intros Hn Htype Hkey (Ht & _ & _ & _ & Hik & _ & Htx) Hnc E. pose proof Hnc as [Hpos Hinj].
  assert (Hin : leafPreimage t item ∈ preimages sha512Half n ++ [leafPreimage t item]) by (apply elem_of_app; right; left).
  destruct n as [t' item'|cs].
  - assert (t' = type) as -> by by inversion Hn. cbn [nodeHash] in E. assert (Hk' : isKey (item_key item')) by by inversion Hn.
    assert (Ep : leafPreimage t item = leafPreimage type item') by (apply Hinj; [done|apply elem_of_app; left; left|done]).
    assert (t = type) as ->.
    { clear -Ep Ht Htype. destruct t; [done|..]; (destruct type; [done|..]); unfold leafPreimage in Ep; first [reflexivity|apply prefixBytes_app in Ep as [Ep _]; discriminate Ep]. }
    f_equal. symmetry. apply (leafPreimage_inj type); try done. intros ->.
    rewrite (Htx eq_refl), (Hkey eq_refl item') by by apply list_elem_of_singleton. done.
  - exfalso. cbn [nodeHash] in E. specialize (Hpos _ Hin). destruct (existsb _ cs); [|lia].
    apply Hinj in E; [|done|apply elem_of_app; left; left]. destruct t; [done|..]; by apply prefixBytes_app in E as [? _].
Qed.

(** An inner node hashed like a node of the tree has its hashes. *)
Lemma inner_match type d p n m hs :
  wfNode type d p n -> validType type -> innerOk m hs -> m <> 0 ->
  noCollision sha512Half (preimages sha512Half n ++ [innerPreimage (childHashes m hs)]) ->
  sha512Half (innerPreimage (childHashes m hs)) = hash n ->
  exists cs, n = Inner cs /\ forall b, (b < kBranchFactor)%nat -> bodyChildHash m hs b = branchHash sha512Half (childAt cs b).
Proof.
  intros Hn Htype (Hl & Hk & _) Hm Hnc E. pose proof Hnc as [Hpos Hinj].
  assert (Hin : innerPreimage (childHashes m hs) ∈ preimages sha512Half n ++ [innerPreimage (childHashes m hs)]) by (apply elem_of_app; right; left).
  destruct n as [t' item'|cs].
  - exfalso. assert (t' = type) as -> by by inversion Hn. cbn [nodeHash] in E.
    apply Hinj in E; [|done|apply elem_of_app; left; left]. destruct type; [done|..]; by apply prefixBytes_app in E as [? _].
  - exists cs. split; [done|]. cbn [nodeHash] in E. specialize (Hpos _ Hin). destruct (existsb _ cs); [|lia].
    apply Hinj in E; [|done|apply elem_of_app; left; left]. apply app_inv_head, words_inj in E.
    + intros b Hb. rewrite branchHash_map. unfold branchHash at 1. rewrite <-E. by rewrite childHashes_branch.
    + unfold childHashes. rewrite !length_map, length_seq. by inversion Hn.
    + apply Forall_fmap, Forall_forall. intros i _. unfold compose. destruct (hasBranch m i); [|lia].
      destruct (hs !! i) as [h|] eqn:Eh; [exact (Forall_lookup_1 _ _ _ _ Hk Eh)|cbn; lia].
    + exact (childHashes_range _ _ _ _ _ Hn (proj1 (noCollision_app _ _ _ Hnc))).
Qed.

Lemma verifyLoop_sound type key size blobs : forall d p n,
  wfNode type d p n -> validType type -> (type = TnTransactionNm -> keyed sha512Half n) -> isKey key ->
  Forall (fun blob => isDigits 256 blob /\ shortEnough blob) blobs ->
  noCollision sha512Half (preimages sha512Half n ++ pathPreimages blobs) ->
  verifyLoop key size (hash n) d blobs = true -> exists x, x ∈ items n /\ item_key x = key.
Proof.
  induction blobs as [|blob blobs IH]; intros d p n Hn Ht Hkey Hk Hb Hnc; [done|]. apply Forall_cons in Hb as [[Hbd Hbs] Hb].
  cbn [verifyLoop]. destruct (makeFromWire sha512Half blob) as [node| | | |] eqn:Em; try done.
  destruct (Z.eqb_spec (updateHash sha512Half (node_body node)) (hash n)) as [Eh|]; [|done]. cbn [negb].
  pose proof (blob_made blob node Hbd Hbs Em) as Hmade. unfold pathPreimages in Hnc. cbn [map concat] in Hnc.
  unfold blobPreimages at 1 in Hnc. rewrite Em in Hnc. destruct (node_body node) as [t item|m hs]; cbn [updateHash] in Eh.
  - destruct (Z.eqb_spec (item_key item) key) as [Ek|]; [|done]. intros _.
    rewrite (leaf_match type d p n t item Hn Ht Hkey Hmade); [| |done].
    2: { eapply noCollision_sub; [exact Hnc|]. intros z Hz. rewrite app_assoc. apply elem_of_app. by left. }
    exists item. split; [by apply list_elem_of_singleton|done].
  - destruct (isLeafDepth d) eqn:Ed; [done|]. unfold isLeafDepth, kLeafDepth in Ed. apply Nat.leb_gt in Ed.
    assert (Hrest : noCollision sha512Half (pathPreimages blobs)).
    { eapply noCollision_sub; [exact Hnc|]. intros z Hz. apply elem_of_app. right. apply elem_of_app. by right. }
    destruct (Z.eqb_spec m 0) as [->|Hm].
    + unfold bodyChildHash, hasBranch. rewrite Z.bits_0. by rewrite verifyLoop_zero.
    + destruct (inner_match type d p n m hs Hn Ht Hmade Hm) as (cs & -> & Hch); [|done|].
      { eapply noCollision_sub; [exact Hnc|]. intros z Hz. rewrite app_assoc. apply elem_of_app. by left. }
      rewrite Hch by apply selectBranch_range. rewrite selectBranch_path by lia.
      destruct (childAt cs (Z.to_nat (nibble key d))) as [c|] eqn:Ec; cbn [branchHash]; [|by rewrite verifyLoop_zero].
      inversion Hn as [|? ? ? Hd Hl Hcs Htwo]; subst. intros Hv.
      destruct (IH (S d) _ c (Hcs _ _ Ec) Ht) as (x & Hx & Ex); [| | | |exact Hv|].
      * intros Et x Hx. apply (Hkey Et). apply elem_of_items_inner. by eexists _, c.
      * done.
      * done.
      * eapply noCollision_sub; [exact Hnc|]. intros z Hz. apply elem_of_app in Hz as [Hz|Hz]; apply elem_of_app; [left; by eapply preimages_child|].
        right. apply elem_of_app. by right.
      * exists x. split; [|done]. apply elem_of_items_inner. by eexists _, c.
Qed.
End Proofs.

(** ** The properties *)

(** C28: Proof paths are complete: for a key of a well-formed map, whose items can be sent,
    [getProofPath] returns a path that [verifyProofPath] accepts against the root hash;
    for any other key it returns none. *)
Theorem proof_path_complete (sha512Half : list Z -> Z) (type : SHAMapNodeType) (root : Node) (key : Z)
    (Hroot : wfRoot type root) (Hkey : isKey key)
    (Hnc : noCollision sha512Half (preimages sha512Half root)) (Hs : forall x, x ∈ items root -> sendable sha512Half type x) :
  match contents root !! key with
  | Some _ => exists path, getProofPath sha512Half root key = Done (Some path) /\
                verifyProofPath sha512Half (nodeHash sha512Half root) key path = true
  | None => getProofPath sha512Half root key = Done None
  end.
Proof.
  destruct (walk_root type root key Hroot Hkey) as (d & n & st & E & Hz & Hst).
  destruct (Zip_wf _ _ _ _ _ _ _ _ _ Hz Hroot Hkey (prefix_0 key Hkey)) as (Hn & _ & Hit).
  pose proof (stopsAt_items _ _ _ _ Hn Hst) as Hstop. unfold getProofPath. rewrite E. cbn [mbind_ fst].
  change (fun e : Node * SHAMapNodeID => serializeForWire (bodyOf sha512Half e.1) []) with (blobOf sha512Half).
  destruct (contents root !! key) as [x|] eqn:Ec.
  - apply (contents_lookup _ 0 0 _ _ _ Hroot) in Ec as [Hx Ex]. rewrite (Hit x Ex), (Hstop x Ex) in Hx.
    destruct n as [t item|cs]; [|done]. cbn [leafOf] in Hx. injection Hx as -> ->. rewrite Ex, Z.eqb_refl. eexists. split; [done|].
    subst key. destruct (verify_zip sha512Half type x (d + 1) [] 0 root d st 0 Hz Hroot (prefix_0 _ Hkey) Hnc Hs) as (blobs & Eb & Hlen & Hv).
    assert (Hd : (d <= 64)%nat) by (inversion Hn; lia).
    set (path := map (blobOf sha512Half) _) in *. cbn [map rev app] in Eb.
    change (verifyProofPath sha512Half (nodeHash sha512Half root) (item_key x) path = true).
    assert (Hlp : length path = (d + 1)%nat) by (rewrite <-length_rev, Eb; lia).
    unfold verifyProofPath. rewrite Hlp, Eb, Hv. unfold kLeafDepth. destruct (Nat.eqb_spec (d + 1) 0); [lia|].
    destruct (Nat.ltb_spec (64 + 1) (d + 1)); [lia|]. cbn [orb]. by apply Nat.eqb_refl.
  - destruct n as [t item|cs]; [|done]. destruct (Z.eqb_spec (item_key item) key) as [Ek|]; [|done]. exfalso.
    assert (t = type) as -> by by inversion Hn. assert (Hin : item ∈ items root) by (apply (Hit item Ek); by apply list_elem_of_singleton).
    by rewrite (proj2 (contents_lookup type 0 0 root key item Hroot)) in Ec.
Qed.

(** C4: Proof paths are sound: whatever bytes a peer sends, if [verifyProofPath] accepts
    them for a key against the root hash of a well-formed map, the key is in the map, when
    the digest has 256 bits and does not collide on the bytes hashed for the map and for
    the path. *)
Theorem proof_path_sound (sha512Half : list Z -> Z) (type : SHAMapNodeType) (root : Node) (key : Z) (path : list (list Z))
    (Hsha : forall x, isKey (sha512Half x)) (Ht : validType type) (Hroot : wfRoot type root)
    (Hkeyed : type = TnTransactionNm -> keyed sha512Half root) (Hkey : isKey key)
    (Hpath : Forall (fun blob => isDigits 256 blob /\ shortEnough blob) path)
    (Hnc : noCollision sha512Half (preimages sha512Half root ++ pathPreimages sha512Half path))
    (Hv : verifyProofPath sha512Half (nodeHash sha512Half root) key path = true) :
  is_Some (contents root !! key).
Proof.
  unfold verifyProofPath in Hv. destruct (_ || _); [done|].
  destruct (verifyLoop_sound sha512Half Hsha type key (length path) (rev path) 0 0 root Hroot Ht Hkeyed Hkey) as (x & Hx & Ex); [| |done|].
  - by apply Forall_rev.
  - eapply noCollision_sub; [exact Hnc|]. intros z Hz. apply elem_of_app in Hz as [Hz|Hz]; apply elem_of_app; [by left|right].
    unfold pathPreimages in *. rewrite map_rev in Hz. apply list_elem_of_In, in_concat in Hz as (l & Hl & Hz).
    apply list_elem_of_In, in_concat. exists l. split; [by apply in_rev in Hl|done].
  - exists x. by apply (contents_lookup type 0 0).
Qed.

(** ** A sample *)

Definition proofA : SHAMapItem := {| item_key := item_key itemA; item_data := replicate 12 7 |}.
Definition proofB : SHAMapItem := {| item_key := item_key itemC; item_data := replicate 12 8 |}.
Definition proofTree : Node := treeOf TnAccountState [proofA; proofB].

Lemma proofTree_wf : wfRoot TnAccountState proofTree.
Proof. by apply treeOf_sample. Qed.

Lemma proofTree_items : items proofTree = [proofA; proofB].
Proof. vm_compute. reflexivity. Qed.

Lemma proofTree_sendable x : x ∈ items proofTree -> sendable sampleDigest TnAccountState x.
Proof.
  rewrite proofTree_items. rewrite !elem_of_cons, elem_of_nil. intros [->|[->|[]]].
  all: split; [done|]; (split; [apply Forall_replicate; lia|]); (split; [done|]); (split; [done|]); split; [unfold isKey; cbn; lia|];
    split; [intros _; cbn; lia|done].
Qed.

Lemma proof_path_complete_witness :
  match contents proofTree !! item_key proofA with
  | Some _ => exists path, getProofPath sampleDigest proofTree (item_key proofA) = Done (Some path) /\
                verifyProofPath sampleDigest (nodeHash sampleDigest proofTree) (item_key proofA) path = true
  | None => getProofPath sampleDigest proofTree (item_key proofA) = Done None
  end.
Proof.
  refine (proof_path_complete sampleDigest TnAccountState proofTree (item_key proofA) proofTree_wf _ _ proofTree_sendable).
  - unfold isKey. cbn. lia.
  - apply checkNoCollision_ok. vm_compute. reflexivity.
Defined.

(** The path of a key, and its nodes *)
Definition proofPath : list (list Z) :=
  match getProofPath sampleDigest proofTree (item_key proofA) with Done (Some path) => path | _ => [] end.

Definition checkBlob (blob : list Z) : bool :=
  forallb (fun b => (0 <=? b) && (b <? 256)) blob && (Z.of_nat (length blob) <? 2 ^ 31).

Lemma checkBlob_ok blob : checkBlob blob = true -> isDigits 256 blob /\ shortEnough blob.
Proof.
  unfold checkBlob. intros H. apply andb_true_iff in H as [H1 H2]. apply Z.ltb_lt in H2. split; [|done].
  rewrite forallb_forall in H1. apply Forall_forall. intros b Hb. specialize (H1 b (proj1 (list_elem_of_In _ _) Hb)). breflect. lia.
Qed.

Lemma proofPath_blobs : Forall (fun blob => isDigits 256 blob /\ shortEnough blob) proofPath.
Proof.
  assert (E : forallb checkBlob proofPath = true) by (vm_compute; reflexivity). revert E. generalize proofPath. intros l E.
  apply Forall_forall. intros blob Hb. rewrite forallb_forall in E. apply checkBlob_ok, E. by apply list_elem_of_In.
Qed.

Lemma proof_path_sound_witness : is_Some (contents proofTree !! item_key proofA).
Proof.
  refine (proof_path_sound sampleDigest TnAccountState proofTree (item_key proofA) proofPath sampleDigest_key _ proofTree_wf _ _ _ _ _).
  - done.
  - done.
  - unfold isKey. cbn. lia.
  - exact proofPath_blobs.
  - apply checkNoCollision_ok. vm_compute. reflexivity.
  - vm_compute. reflexivity.
Defined.
