(* ===== verification/Number.v ===== *)
(** * Decimal floating point

    [Number] (include/xrpl/basics/Number.h, src/libxrpl/basics/Number.cpp): a sign, an
    unsigned 64-bit mantissa and an exponent.  The thread's rounding mode and mantissa range
    are arguments.  Loops carry fuel; [NumberSpec] shows that the fuel given
    here is never used up.  The [int] exponents stay far from their 32-bit limits and are not
    wrapped; mantissas are kept at the width of the C++ type. *)

From S2P Require Import Prelude.

(** An [std::overflow_error] is a value. *)
Inductive NumResult (A : Type) :=
| Ok (a : A)
| Overflow
| OutOfFuel.
Arguments Ok {A} a.
Arguments Overflow {A}.
Arguments OutOfFuel {A}.

Definition nbind {A B} (x : NumResult A) (k : A -> NumResult B) : NumResult B :=
  match x with Ok a => k a | Overflow => Overflow | OutOfFuel => OutOfFuel end.

Declare Scope number_scope.
Delimit Scope number_scope with number.
Notation "'let!' p := x 'in' k" := (nbind x (fun y => match y with p => k end))
  (at level 10, p pattern, x at level 100, k at level 200) : number_scope.
Open Scope number_scope.

Inductive MantissaScale := Small | LargeLegacy | Large320 | Large330.

Inductive CuspRoundingFix := Disabled | Enabled320 | Enabled330.

Definition fixLevel (f : CuspRoundingFix) : Z :=
  match f with Disabled => 0 | Enabled320 => 1 | Enabled330 => 2 end.

(** [cuspRoundingFix >= Enabled330] *)
Definition is330 (f : CuspRoundingFix) : bool := fixLevel Enabled330 <=? fixLevel f.
Definition isDisabled (f : CuspRoundingFix) : bool := fixLevel f =? 0.

Definition getExponent (scale : MantissaScale) : Z :=
  match scale with Small => 15 | LargeLegacy | Large320 | Large330 => 18 end.

Definition isCuspFixEnabled (scale : MantissaScale) : CuspRoundingFix :=
  match scale with Small | LargeLegacy => Disabled | Large320 => Enabled320 | Large330 => Enabled330 end.

Definition rangeMin (scale : MantissaScale) : Z := 10 ^ getExponent scale.
Definition rangeMax (scale : MantissaScale) : Z := rangeMin scale * 10 - 1.

Record Number := mkNumber { negative_ : bool; mantissa_ : Z; exponent_ : Z }.

Definition kMinExponent : Z := - (32768).
Definition kMaxExponent : Z := 32768.
Definition kMaxRep : Z := 9223372036854775807.
Definition kMaxRepUp : Z := (kMaxRep / 10 + 1) * 10.

Definition kZero : Number := mkNumber false 0 (-2147483648).

Definition numEq (x y : Number) : bool :=
  eqb (negative_ x) (negative_ y) && (mantissa_ x =? mantissa_ y) && (exponent_ x =? exponent_ y).

Definition numLt (l r : Number) : bool :=
  let lneg := negative_ l in
  let rneg := negative_ r in
  if negb (eqb lneg rneg) then lneg
  else if mantissa_ l =? 0 then 0 <? mantissa_ r
  else if mantissa_ r =? 0 then false
  else if exponent_ r <? exponent_ l then lneg
  else if exponent_ l <? exponent_ r then negb lneg
  else if lneg then mantissa_ r <? mantissa_ l
  else mantissa_ l <? mantissa_ r.

Definition numNeg (x : Number) : Number :=
  if mantissa_ x =? 0 then kZero else mkNumber (negb (negative_ x)) (mantissa_ x) (exponent_ x).

Definition signum (x : Number) : Z :=
  if negative_ x then -1 else if negb (mantissa_ x =? 0) then 1 else 0.

Definition isnormal (scale : MantissaScale) (x : Number) : bool :=
  let absM := mantissa_ x in
  numEq x kZero ||
  ((rangeMin scale <=? absM) && (absM <=? rangeMax scale) && ((absM <=? kMaxRep) || (absM mod 10 =? 0)) &&
   (kMinExponent <=? exponent_ x) && (exponent_ x <=? kMaxExponent)).

(** The external view: a signed 63-bit mantissa and its exponent. *)
Definition mantissa (x : Number) : Z :=
  let m := if kMaxRep <? mantissa_ x then mantissa_ x / 10 else mantissa_ x in
  (if negative_ x then -1 else 1) * m.

Definition exponent (x : Number) : Z :=
  if kMaxRep <? mantissa_ x then exponent_ x + 1 else exponent_ x.

Definition one (scale : MantissaScale) : Number := mkNumber false (rangeMin scale) (- getExponent scale).

Definition externalToInternal (m : Z) : Z := if 0 <=? m then m else u64 (- m).

(** ** Mantissa types

    The templates are instantiated at [uint64_t] and at [uint128]; 128-bit division by ten
    is done with shifts. *)

Inductive Width := W64 | W128.

Definition wrapW (w : Width) (x : Z) : Z := x mod 2 ^ (match w with W64 => 64 | W128 => 128 end).

(** [divu10]: the remainder and the quotient. *)
Definition divu10 (u : Z) : Z * Z :=
  let q := wrapW W128 (Z.shiftr u 1 + Z.shiftr u 2) in
  let q := wrapW W128 (q + Z.shiftr q 4) in
  let q := wrapW W128 (q + Z.shiftr q 8) in
  let q := wrapW W128 (q + Z.shiftr q 16) in
  let q := wrapW W128 (q + Z.shiftr q 32) in
  let q := wrapW W128 (q + Z.shiftr q 64) in
  let q := Z.shiftr q 3 in
  let r := u32 (u - wrapW W128 (wrapW W128 (Z.shiftl q 3) + wrapW W128 (Z.shiftl q 1))) in
  let c := Z.shiftr (r +32 6) 4 in
  (r -32 (c * 10), wrapW W128 (q + c)).

(** ** Guard digits *)

Inductive RoundingMode := ToNearest | TowardsZero | Downward | Upward.

Record Guard := mkGuard {
  digits_ : Z;
  xbit_ : bool;
  sbit_ : bool;
  minMantissa : Z;
  maxMantissa : Z;
  cuspRoundingFix : CuspRoundingFix
}.

Definition newGuard (minM maxM : Z) (fix_ : CuspRoundingFix) : Guard := mkGuard 0 false false minM maxM fix_.
Definition rangeGuard (scale : MantissaScale) : Guard :=
  newGuard (rangeMin scale) (rangeMax scale) (isCuspFixEnabled scale).

Definition setNegative (g : Guard) : Guard :=
  mkGuard (digits_ g) (xbit_ g) true (minMantissa g) (maxMantissa g) (cuspRoundingFix g).
Definition setDropped (g : Guard) : Guard :=
  mkGuard (digits_ g) true (sbit_ g) (minMantissa g) (maxMantissa g) (cuspRoundingFix g).

Definition doPush (g : Guard) (d : Z) : Guard :=
  mkGuard (Z.lor (Z.shiftr (digits_ g) 4) (Z.shiftl (Z.land d 0xF) 60))
    (xbit_ g || negb (Z.land (digits_ g) 0xF =? 0))
    (sbit_ g) (minMantissa g) (maxMantissa g) (cuspRoundingFix g).

(** The digit recovered and the guard left. *)
Definition pop (g : Guard) : Z * Guard :=
  (Z.shiftr (Z.land (digits_ g) 0xF000000000000000) 60,
   mkGuard (u64 (Z.shiftl (digits_ g) 4)) (xbit_ g) (sbit_ g) (minMantissa g) (maxMantissa g) (cuspRoundingFix g)).

Definition unrecoverable (g : Guard) : bool := digits_ g =? 0.
Definition guardEmpty (g : Guard) : bool := unrecoverable g && negb (xbit_ g).

Definition doDropDigit (w : Width) (g : Guard) (m e : Z) : Guard * Z * Z :=
  match w with
  | W64 => (doPush g (m mod 10), m / 10, e + 1)
  | W128 => let '(r, q) := divu10 m in (doPush g r, q, e + 1)
  end.

Fixpoint doDropDigitWithTarget (fuel : nat) (w : Width) (g : Guard) (m e target : Z) : NumResult (Guard * Z * Z) :=
  match fuel with
  | O => OutOfFuel
  | S f =>
    if e <? target then
      if (m =? 0) && unrecoverable g then Ok (g, m, target)
      else let '(g, m, e) := doDropDigit w g m e in doDropDigitWithTarget f w g m e target
    else Ok (g, m, e)
  end.

Inductive Round := RExact | RDown | REven | RUp.

Section Mode.
Context (mode : RoundingMode).

Definition round (g : Guard) : Round :=
  if is330 (cuspRoundingFix g) && guardEmpty g then RExact
  else match mode, sbit_ g with
  | TowardsZero, _ => RDown
  | Downward, false | Upward, true => RDown
  | Downward, true | Upward, false => if guardEmpty g then RDown else RUp
  | ToNearest, _ =>
    if 0x5000000000000000 <? digits_ g then RUp
    else if digits_ g <? 0x5000000000000000 then RDown
    else if xbit_ g then RUp
    else REven
  end.

Definition pushOverflow (g : Guard) (m : Z) : Guard :=
  if is330 (cuspRoundingFix g) && (kMaxRep <=? m) && (m <? kMaxRepUp) then
    let spread := kMaxRepUp - kMaxRep in
    let m' :=
      if m mod 10 <? 9 then
        match round g with
        | RUp => m + 1
        | REven => if m =? kMaxRep + spread / 2 then m + 1 else m
        | _ => m
        end
      else m in
    doPush g ((m' - kMaxRep) * 10 / spread)
  else g.

Definition bringIntoRange (w : Width) (g : Guard) (x : Number) : Number :=
  let '(m, e) :=
    if (mantissa_ x <? minMantissa g) && (negb (is330 (cuspRoundingFix g)) || negb (mantissa_ x =? 0))
    then (wrapW w (mantissa_ x * 10), exponent_ x - 1) else (mantissa_ x, exponent_ x) in
  if (e <? kMinExponent) || (is330 (cuspRoundingFix g) && (m =? 0)) then kZero
  else mkNumber (negative_ x) m e.

Definition roundsUp (r : Round) (m : Z) : bool :=
  match r with RUp => true | REven => Z.land m 1 =? 1 | _ => false end.

Definition safeToIncrement (g : Guard) (m : Z) : bool := (m <? maxMantissa g) && (m <? kMaxRep).

(** [bringIntoRange] and the range check that end every rounding. *)
Definition finishRound (w : Width) (g : Guard) (x : Number) : NumResult Number :=
  let x := bringIntoRange w g x in
  if kMaxExponent <? exponent_ x then Overflow else Ok x.

(** The recursive call drops a digit first; one level of recursion is enough. *)
Fixpoint doRoundUp (fuel : nat) (w : Width) (g : Guard) (x : Number) : NumResult Number :=
  match fuel with
  | O => OutOfFuel
  | S f =>
    let '(mkNumber n m e) := x in
    let g := pushOverflow g m in
    let r := round g in
    if roundsUp r m then
      if negb (isDisabled (cuspRoundingFix g)) then
        if safeToIncrement g m then finishRound w g (mkNumber n (wrapW w (m + 1)) e)
        else if is330 (cuspRoundingFix g) && (kMaxRep <? m) && (m <? kMaxRepUp) then
          finishRound w g (mkNumber n kMaxRepUp e)
        else
          let '(g, m, e) := doDropDigit w g m e in doRoundUp f w g (mkNumber n m e)
      else
        let m := wrapW w (m + 1) in
        if (maxMantissa g <? m) || (kMaxRep <? m) then finishRound w g (mkNumber n (m / 10) (e + 1))
        else finishRound w g (mkNumber n m e)
    else if is330 (cuspRoundingFix g) && (kMaxRep <? m) && (m <? kMaxRepUp) then
      finishRound w g (mkNumber n kMaxRep e)
    else finishRound w g (mkNumber n m e)
  end.

Definition doRoundDown (w : Width) (g : Guard) (x : Number) : Number :=
  let '(mkNumber n m e) := x in
  let r := round g in
  if is330 (cuspRoundingFix g) then
    bringIntoRange w g (mkNumber n (match r with RExact => m | _ => wrapW w (m - 1) end) e)
  else if roundsUp r m then
    let m := wrapW w (m - 1) in
    if m <? minMantissa g then bringIntoRange w g (mkNumber n (wrapW w (m * 10)) (e - 1))
    else bringIntoRange w g (mkNumber n m e)
  else bringIntoRange w g (mkNumber n m e).

(** [doRound] on a magnitude held in a signed 64-bit integer. *)
Definition doRound (g : Guard) (drops : Z) : NumResult Z :=
  if roundsUp (round g) drops then
    if kMaxRep <=? drops then Overflow else Ok (if sbit_ g then - (drops + 1) else drops + 1)
  else Ok (if sbit_ g then - drops else drops).

(** ** Normalisation *)

Definition loopFuel : nat := 64.

Fixpoint growLoop (fuel : nat) (w : Width) (minM m e : Z) : NumResult (Z * Z) :=
  match fuel with
  | O => OutOfFuel
  | S f => if (m <? minM) && (kMinExponent <? e) then growLoop f w minM (wrapW w (m * 10)) (e - 1) else Ok (m, e)
  end.

Fixpoint shrinkLoop (fuel : nat) (w : Width) (g : Guard) (m e : Z) : NumResult (Guard * Z * Z) :=
  match fuel with
  | O => OutOfFuel
  | S f =>
    if maxMantissa g <? m then
      if kMaxExponent <=? e then Overflow
      else let '(g, m, e) := doDropDigit w g m e in shrinkLoop f w g m e
    else Ok (g, m, e)
  end.

Definition repLimit (fix_ : CuspRoundingFix) : Z := if is330 fix_ then kMaxRepUp else kMaxRep.

Definition doNormalize (w : Width) (x : Number) (minM maxM : Z) (fix_ : CuspRoundingFix) (dropped : bool)
  : NumResult Number :=
  let '(mkNumber n m e) := x in
  if m =? 0 then Ok kZero
  else
    let! (m, e) := growLoop loopFuel w minM m e in
    let g := newGuard minM maxM fix_ in
    let g := if n then setNegative g else g in
    let g := if dropped then setDropped g else g in
    let! (g, m, e) := shrinkLoop loopFuel w g m e in
    if (e <? kMinExponent) || (m <? minM) then Ok kZero
    else if repLimit fix_ <? m then
      if kMaxExponent <=? e then Overflow
      else let '(g, m, e) := doDropDigit w g m e in doRoundUp 2 w g (mkNumber n m e)
    else doRoundUp 2 w g (mkNumber n m e).

Definition normalize (scale : MantissaScale) (x : Number) : NumResult Number :=
  doNormalize W64 x (rangeMin scale) (rangeMax scale) (isCuspFixEnabled scale) false.

(** [Number{mantissa, exponent}] *)
Definition makeNumber (scale : MantissaScale) (m e : Z) : NumResult Number :=
  normalize scale (mkNumber (m <? 0) (externalToInternal m) e).

(** [normalizeToRange<MinMantissa, MaxMantissa>]: the signed mantissa and the exponent. *)
Definition normalizeToRange (minM maxM : Z) (x : Number) : NumResult (Z * Z) :=
  let! x := doNormalize W64 x minM maxM Disabled false in
  Ok ((if negative_ x then -1 else 1) * mantissa_ x, exponent_ x).

Definition shiftExponent (x : Number) (delta : Z) : NumResult Number :=
  let newExponent := exponent_ x + delta in
  if kMaxExponent <=? newExponent then Overflow
  else if newExponent <? kMinExponent then Ok kZero
  else Ok (mkNumber (negative_ x) (mantissa_ x) newExponent).

(** ** Arithmetic *)

Section Scale.
Context (scale : MantissaScale).

Fixpoint adjustZeros (fuel : nat) (g : Guard) (shrinkM shrinkE expandE : Z) : NumResult (Guard * Z * Z) :=
  match fuel with
  | O => OutOfFuel
  | S f =>
    if (shrinkE <? expandE) && (shrinkM mod 10 =? 0) then
      let '(g, shrinkM, shrinkE) := doDropDigit W128 g shrinkM shrinkE in adjustZeros f g shrinkM shrinkE expandE
    else Ok (g, shrinkM, shrinkE)
  end.

Fixpoint adjustExpand (fuel : nat) (upperLimit expandM expandE shrinkE : Z) : NumResult (Z * Z) :=
  match fuel with
  | O => OutOfFuel
  | S f =>
    if (shrinkE <? expandE) && (kMinExponent <? expandE) && (expandM <? upperLimit) then
      adjustExpand f upperLimit (wrapW W128 (expandM * 10)) (expandE - 1) shrinkE
    else Ok (expandM, expandE)
  end.

(** The lambda [adjust]: the guard, [expandM], [expandE], [shrinkM] and [shrinkE] afterwards. *)
Definition adjust (g : Guard) (upperLimit expandM expandE shrinkM shrinkE : Z)
  : NumResult (Guard * Z * Z * Z * Z) :=
  let! (g, expandM, expandE, shrinkM, shrinkE) :=
    match cuspRoundingFix g with
    | Enabled330 =>
      let! (g, shrinkM, shrinkE) := adjustZeros loopFuel g shrinkM shrinkE expandE in
      let! (expandM, expandE) := adjustExpand loopFuel upperLimit expandM expandE shrinkE in
      Ok (g, expandM, expandE, shrinkM, shrinkE)
    | _ => Ok (g, expandM, expandE, shrinkM, shrinkE)
    end in
  if shrinkE <? expandE then
    let! (g, shrinkM, shrinkE) := doDropDigitWithTarget loopFuel W128 g shrinkM shrinkE expandE in
    Ok (g, expandM, expandE, shrinkM, shrinkE)
  else Ok (g, expandM, expandE, shrinkM, shrinkE).

Fixpoint popLoop330 (fuel : nat) (g : Guard) (upperLimit xm xe : Z) : NumResult (Guard * Z * Z) :=
  match fuel with
  | O => OutOfFuel
  | S f =>
    if (xm <? upperLimit) && negb (guardEmpty g) then
      let '(d, g) := pop g in
      popLoop330 f g upperLimit (wrapW W128 (wrapW W128 (xm * 10) - d)) (xe - 1)
    else Ok (g, xm, xe)
  end.

Fixpoint popLoop (fuel : nat) (g : Guard) (limit xm xe : Z) : NumResult (Guard * Z * Z) :=
  match fuel with
  | O => OutOfFuel
  | S f =>
    if (xm <? minMantissa g) && (wrapW W128 (xm * 10) <=? limit) then
      let '(d, g) := pop g in
      popLoop f g limit (wrapW W128 (wrapW W128 (xm * 10) - d)) (xe - 1)
    else Ok (g, xm, xe)
  end.

(** The mantissas brought to the same exponent, the lower operand's digits in the guard:
    the guard, [xm], [xe], [ym] and [ye]. *)
Definition align (x y : Number) : NumResult (Guard * Z * Z * Z * Z) :=
  let g := rangeGuard scale in
  let upperLimit := wrapW W128 (minMantissa g * 1000) in
  let '(mkNumber xn xm xe) := x in
  let '(mkNumber yn ym ye) := y in
  if xe <? ye then
    let! (g, ym, ye, xm, xe) := adjust (if xn then setNegative g else g) upperLimit ym ye xm xe in
    Ok (g, xm, xe, ym, ye)
  else if ye <? xe then
    let! (g, xm, xe, ym, ye) := adjust (if yn then setNegative g else g) upperLimit xm xe ym ye in
    Ok (g, xm, xe, ym, ye)
  else
    let g := match cuspRoundingFix g with
      | Enabled330 => if ((xm <? ym) && xn) || ((ym <? xm) && yn) then setNegative g else g
      | _ => g
      end in
    Ok (g, xm, xe, ym, ye).

(** The sum of the aligned mantissas, with the guard's digits. *)
Definition sumAligned (g : Guard) (xn yn : bool) (xm xe ym ye : Z) : NumResult (Guard * Number) :=
  let limit := repLimit (cuspRoundingFix g) in
  if eqb xn yn then
    let xm := wrapW W128 (xm + ym) in
    if is330 (cuspRoundingFix g) then Ok (g, mkNumber xn xm xe)
    else
      let '(g, xm, xe) :=
        if (maxMantissa g <? xm) || (limit <? xm) then doDropDigit W128 g xm xe else (g, xm, xe) in
      let! z := doRoundUp 2 W128 g (mkNumber xn xm xe) in
      Ok (g, z)
  else
    let '(mkNumber xn xm xe) := if ym <? xm then mkNumber xn (xm - ym) xe else mkNumber yn (ym - xm) ye in
    let! (g, xm, xe) :=
      if is330 (cuspRoundingFix g)
      then popLoop330 loopFuel g (wrapW W128 (minMantissa g * 1000)) xm xe
      else popLoop loopFuel g limit xm xe in
    Ok (g, doRoundDown W128 g (mkNumber xn xm xe)).

Definition numAdd (x y : Number) : NumResult Number :=
  if numEq y kZero then Ok x
  else if numEq x kZero then Ok y
  else if numEq x (numNeg y) then Ok kZero
  else
    let! (g, xm, xe, ym, ye) := align x y in
    let! (g, z) := sumAligned g (negative_ x) (negative_ y) xm xe ym ye in
    doNormalize W128 z (minMantissa g) (maxMantissa g) (cuspRoundingFix g)
      (match cuspRoundingFix g with Enabled330 => negb (guardEmpty g) | _ => false end).

Definition numSub (x y : Number) : NumResult Number := numAdd x (numNeg y).

Fixpoint mulLoop (fuel : nat) (g : Guard) (m e : Z) : NumResult (Guard * Z * Z) :=
  match fuel with
  | O => OutOfFuel
  | S f =>
    if (maxMantissa g <? m) || (repLimit (cuspRoundingFix g) <? m) then
      let '(g, m, e) := doDropDigit W128 g m e in mulLoop f g m e
    else Ok (g, m, e)
  end.

Definition numMul (x y : Number) : NumResult Number :=
  if numEq x kZero then Ok x
  else if numEq y kZero then Ok y
  else
    let zm := wrapW W128 (mantissa_ x * mantissa_ y) in
    let ze := exponent_ x + exponent_ y in
    let zn := xorb (negative_ x) (negative_ y) in
    let g := rangeGuard scale in
    let g := if zn then setNegative g else g in
    let! (g, zm, ze) := mulLoop loopFuel g zm ze in
    let! z := doRoundUp 2 W64 g (mkNumber zn (wrapW W64 zm) ze) in
    doNormalize W64 z (minMantissa g) (maxMantissa g) (cuspRoundingFix g) false.

(** Division: 17 digits, then five more from the remainder, then the remainder's presence. *)
Definition numDiv (x y : Number) : NumResult Number :=
  if numEq y kZero then Overflow
  else if numEq x kZero then Ok x
  else
    let dm := mantissa_ y in
    let numerator := wrapW W128 (mantissa_ x * 10 ^ 17) in
    let zm := numerator / dm in
    let ze := exponent_ x - exponent_ y - 17 in
    let zp := xorb (negative_ x) (negative_ y) in
    let fix_ := isCuspFixEnabled scale in
    let '(zm, ze, dropped) :=
      match scale with
      | Small => (zm, ze, false)
      | _ =>
        let remainder := numerator mod dm in
        if remainder =? 0 then (zm, ze, false)
        else
          let partialNumerator := wrapW W128 (remainder * 10 ^ 5) in
          let correction := partialNumerator / dm in
          let '(zm, ze) :=
            if correction =? 0 then (zm, ze)
            else (wrapW W128 (wrapW W128 (zm * 10 ^ 5) + correction), ze - 5) in
          (zm, ze, negb (isDisabled fix_) && negb (partialNumerator mod dm =? 0))
      end in
    doNormalize W128 (mkNumber zp zm ze) (rangeMin scale) (rangeMax scale) fix_ dropped.

(** Conversion to a 64-bit integer. *)
Fixpoint scaleUp (fuel : nat) (drops offset : Z) : NumResult Z :=
  match fuel with
  | O => OutOfFuel
  | S f =>
    if 0 <? offset then
      if kMaxRep / 10 <? drops then Overflow else scaleUp f (i64 (drops * 10)) (offset - 1)
    else Ok drops
  end.

Definition toRep (x : Number) : NumResult Z :=
  let drops := mantissa x in
  let offset := exponent x in
  let g := rangeGuard scale in
  if drops =? 0 then Ok drops
  else
    let '(g, drops) := if negative_ x then (setNegative g, - drops) else (g, drops) in
    let! (g, drops, offset) :=
      if offset <? 0 then doDropDigitWithTarget loopFuel W64 g drops offset 0 else Ok (g, drops, offset) in
    let! drops := scaleUp loopFuel drops offset in
    doRound g drops.

Fixpoint truncLoop (fuel : nat) (m e : Z) : NumResult (Z * Z) :=
  match fuel with
  | O => OutOfFuel
  | S f => if (e <? 0) && negb (m =? 0) then truncLoop f (m / 10) (e + 1) else Ok (m, e)
  end.

Definition truncate (x : Number) : NumResult Number :=
  if (0 <=? exponent_ x) || (mantissa_ x =? 0) then Ok x
  else
    let! (m, e) := truncLoop loopFuel (mantissa_ x) (exponent_ x) in
    normalize scale (mkNumber (negative_ x) m e).

(** [power(f, n)] by repeated squaring. *)
Fixpoint powerLoop (fuel : nat) (f : Number) (n : Z) : NumResult Number :=
  match fuel with
  | O => OutOfFuel
  | S k =>
    if n =? 0 then Ok (one scale)
    else if n =? 1 then Ok f
    else
      let! r := powerLoop k f (n / 2) in
      let! r := numMul r r in
      if negb (n mod 2 =? 0) then numMul r f else Ok r
  end.

Definition power (f : Number) (n : Z) : NumResult Number := powerLoop 33 f n.

End Scale.
End Mode.
