(* ===== verification/NumberSpec.v ===== *)
(** * Facts about the guard digits

    Division by ten with shifts is division by ten; the guard's sixteen digits and its sticky
    bit determine the same rounding as the exact fraction dropped from the mantissa. *)
From S2P Require Import Prelude Number.

Lemma wrapW_id w x : 0 <= x < 2 ^ 64 -> wrapW w x = x.
Proof. intros. unfold wrapW. destruct w; apply Z.mod_small; lia. Qed.

Lemma wrap128_id x : 0 <= x < 2 ^ 128 -> wrapW W128 x = x.
Proof. intros. unfold wrapW. by apply Z.mod_small. Qed.

Lemma shiftr_bounds x k : 0 <= k -> 2 ^ k * Z.shiftr x k <= x < 2 ^ k * Z.shiftr x k + 2 ^ k.
Proof.
  intros Hk. rewrite Z.shiftr_div_pow2 by done.
  pose proof (Z.pow_pos_nonneg 2 k). pose proof (Z.div_mod x (2 ^ k)). pose proof (Z.mod_pos_bound x (2 ^ k)). lia.
Qed.

Lemma shiftr_range x k : 0 <= k -> 0 <= x -> 0 <= Z.shiftr x k.
Proof. intros. by apply Z.shiftr_nonneg. Qed.

Ltac shr x k :=
  let H := fresh in
  let b := eval vm_compute in (2 ^ k) in
  pose proof (shiftr_bounds x k ltac:(lia)) as H; change (2 ^ k) with b in H.

(** The quotient approximated by shifts is at most two short. *)
Lemma divu10_quotient u :
  0 <= u < 2 ^ 128 ->
  exists q, 0 <= q /\ 10 * q <= u < 10 * q + 20 /\
    divu10 u = (let r := u - 10 * q in let c := Z.shiftr (r + 6) 4 in (r - c * 10, q + c)).
Proof.
  intros Hu. unfold divu10. cbv zeta. change (2 ^ 128) with 340282366920938463463374607431768211456 in Hu.
  shr u 1. shr u 2.
  rewrite (wrap128_id (Z.shiftr u 1 + Z.shiftr u 2)) by lia. set (q0 := Z.shiftr u 1 + Z.shiftr u 2) in *.
  shr q0 4. rewrite (wrap128_id (q0 + Z.shiftr q0 4)) by lia. set (q1 := q0 + Z.shiftr q0 4) in *.
  shr q1 8. rewrite (wrap128_id (q1 + Z.shiftr q1 8)) by lia. set (q2 := q1 + Z.shiftr q1 8) in *.
  shr q2 16. rewrite (wrap128_id (q2 + Z.shiftr q2 16)) by lia. set (q3 := q2 + Z.shiftr q2 16) in *.
  shr q3 32. rewrite (wrap128_id (q3 + Z.shiftr q3 32)) by lia. set (q4 := q3 + Z.shiftr q3 32) in *.
  shr q4 64. rewrite (wrap128_id (q4 + Z.shiftr q4 64)) by lia. set (q5 := q4 + Z.shiftr q4 64) in *.
  shr q5 3. set (q := Z.shiftr q5 3) in *.
  exists q. assert (0 <= q /\ 10 * q <= u < 10 * q + 20) as Hq by lia. split; [apply Hq|]. split; [apply Hq|].
  rewrite !Z.shiftl_mul_pow2 by lia.
  rewrite (wrap128_id (q * 2 ^ 3)), (wrap128_id (q * 2 ^ 1)), (wrap128_id (q * 2 ^ 3 + q * 2 ^ 1)) by lia.
  replace (u - (q * 2 ^ 3 + q * 2 ^ 1)) with (u - 10 * q) by lia.
  rewrite (u32_id (u - 10 * q)), (u32_id (_ + 6)) by lia. cbv zeta.
  shr (u - 10 * q + 6) 4. rewrite wrap128_id, u32_id by lia. done.
Qed.

Lemma divu10_spec u : 0 <= u < 2 ^ 128 -> divu10 u = (u mod 10, u / 10).
Proof.
  intros Hu. destruct (divu10_quotient u Hu) as (q & Hq & Hr & ->). cbv zeta.
  shr (u - 10 * q + 6) 4. set (c := Z.shiftr _ 4) in *.
  assert (u / 10 = q + c) as E by (symmetry; apply (Z.div_unique _ _ _ (u - 10 * (q + c))); lia).
  rewrite Z.mod_eq, E by lia. f_equal. lia.
Qed.

(** The type [w] holds [m]. *)
Definition fits (w : Width) (m : Z) : Prop :=
  0 <= m < 2 ^ (match w with W64 => 64 | W128 => 128 end).

Lemma fits_div w m : fits w m -> fits w (m / 10).
Proof.
  unfold fits. intros [? ?]. split; [apply Z.div_pos; lia|].
  apply (Z.le_lt_trans _ m); [|done]. apply Z.div_le_upper_bound; lia.
Qed.

Lemma doDropDigit_spec w g m e :
  fits w m -> doDropDigit w g m e = (doPush g (m mod 10), m / 10, e + 1).
Proof. intros Hm. destruct w; [done|]. unfold doDropDigit. by rewrite divu10_spec. Qed.

(** ** What the guard knows of the fraction *)

Inductive Frac := FZero | FLow | FHalf | FHigh.

(** The class of [num / den]. *)
Definition cls (num den : Z) : Frac :=
  if num =? 0 then FZero
  else match (2 * num) ?= den with Lt => FLow | Eq => FHalf | Gt => FHigh end.

Definition pushCls (d : Z) (c : Frac) : Frac :=
  if d <? 5 then (match c with FZero => if d =? 0 then FZero else FLow | _ => FLow end)
  else if d =? 5 then (match c with FZero => FHalf | _ => FHigh end)
  else FHigh.

(** The class of the guard's digits. *)
Definition gcls (g : Guard) : Frac :=
  if guardEmpty g then FZero
  else match digits_ g ?= 0x5000000000000000 with
       | Lt => FLow
       | Eq => if xbit_ g then FHigh else FHalf
       | Gt => FHigh
       end.

Lemma cls_is c num den :
  0 <= num ->
  match c with
  | FZero => num = 0
  | FLow => 0 < num /\ 2 * num < den
  | FHalf => 0 < num /\ 2 * num = den
  | FHigh => 0 < num /\ den < 2 * num
  end -> cls num den = c.
Proof.
  intros Hn Hc. unfold cls. destruct (Z.eqb_spec num 0), (Z.compare_spec (2 * num) den), c; try done; lia.
Qed.

Lemma cls_inv num den :
  0 <= num ->
  match cls num den with
  | FZero => num = 0
  | FLow => 0 < num /\ 2 * num < den
  | FHalf => 0 < num /\ 2 * num = den
  | FHigh => 0 < num /\ den < 2 * num
  end.
Proof.
  intros Hn. unfold cls. destruct (Z.eqb_spec num 0), (Z.compare_spec (2 * num) den); lia.
Qed.

Lemma cls_push num den d :
  0 <= num < den -> 0 <= d < 10 -> cls (d * den + num) (10 * den) = pushCls d (cls num den).
Proof.
  intros Hn Hd. pose proof (cls_inv num den ltac:(lia)) as Hc. unfold pushCls.
  apply cls_is; [nia|].
  destruct (cls num den), (Z.ltb_spec d 5), (Z.eqb_spec d 5), (Z.eqb_spec d 0); try lia; nia.
Qed.

Lemma land_15 x : Z.land x 0xF = x mod 16.
Proof. change 0xF with (Z.ones 4). rewrite Z.land_ones by lia. done. Qed.

Lemma lor_high x d : 0 <= x < 2 ^ 60 -> 0 <= d -> Z.lor x (Z.shiftl d 60) = d * 2 ^ 60 + x.
Proof.
  intros Hx Hd. rewrite Z.shiftl_mul_pow2 by lia. rewrite Z.lor_comm, Z.add_nocarry_lxor, <-Z.lxor_lor; [done|..];
  apply Z.bits_inj'; intros n Hn; rewrite Z.land_spec, Z.bits_0; (destruct (Z.lt_ge_cases n 60);
    [by rewrite Z.mul_pow2_bits_low
    |rewrite (Z.bits_above_log2 x), andb_false_r; [done|lia|]; destruct (Z.eq_dec x 0) as [->|]; [cbn; lia|];
     apply (Z.lt_le_trans _ 60); [apply Z.log2_lt_pow2; lia|lia]]).
Qed.

(** The digits of a guard, whatever its range. *)
Definition wfDigits (g : Guard) : Prop := 0 <= digits_ g < 2 ^ 64.

Lemma doPush_digits g d :
  wfDigits g -> 0 <= d < 10 -> digits_ (doPush g d) = d * 2 ^ 60 + digits_ g / 16.
Proof.
  intros Hg Hd. unfold doPush. cbn [digits_]. rewrite land_15, (Z.mod_small d) by lia.
  rewrite Z.shiftr_div_pow2 by lia. change (2 ^ 4) with 16. apply lor_high; [|lia].
  unfold wfDigits in Hg. split; [apply Z.div_pos; lia|apply Z.div_lt_upper_bound; lia].
Qed.

Lemma doPush_xbit g d : xbit_ (doPush g d) = xbit_ g || negb (digits_ g mod 16 =? 0).
Proof. unfold doPush. cbn [xbit_]. by rewrite land_15. Qed.

Lemma doPush_wf g d : wfDigits g -> 0 <= d < 10 -> wfDigits (doPush g d).
Proof.
  intros Hg Hd. pose proof (doPush_digits g d Hg Hd). unfold wfDigits in *.
  pose proof (Z.div_pos (digits_ g) 16). pose proof (Z.div_lt_upper_bound (digits_ g) 16 (2 ^ 60)). lia.
Qed.

Lemma gcls_is g c :
  wfDigits g ->
  match c with
  | FZero => digits_ g = 0 /\ xbit_ g = false
  | FLow => digits_ g < 0x5000000000000000 /\ (0 < digits_ g \/ xbit_ g = true)
  | FHalf => digits_ g = 0x5000000000000000 /\ xbit_ g = false
  | FHigh => 0x5000000000000000 < digits_ g \/ (digits_ g = 0x5000000000000000 /\ xbit_ g = true)
  end <-> gcls g = c.
Proof.
  intros Hg. unfold gcls, guardEmpty, unrecoverable, wfDigits in *.
  destruct (Z.eqb_spec (digits_ g) 0), (Z.compare_spec (digits_ g) 0x5000000000000000), (xbit_ g), c; cbn;
    split; intros ?; try done; try lia; try (intuition (congruence || lia)).
Qed.

Lemma gcls_push g d : wfDigits g -> 0 <= d < 10 -> gcls (doPush g d) = pushCls d (gcls g).
Proof.
  intros Hg Hd. pose proof (proj2 (gcls_is g (gcls g) Hg) eq_refl) as Hc.
  apply gcls_is; [by apply doPush_wf|]. rewrite doPush_digits, doPush_xbit by done.
  unfold wfDigits in Hg. unfold pushCls.
  pose proof (Z.div_mod (digits_ g) 16). pose proof (Z.mod_pos_bound (digits_ g) 16).
  set (h := digits_ g / 16) in *. set (l := digits_ g mod 16) in *. change (2 ^ 60) with 0x1000000000000000.
  change (2 ^ 64) with 0x10000000000000000 in Hg.
  destruct (gcls g), (Z.ltb_spec d 5), (Z.eqb_spec d 5), (Z.eqb_spec d 0), (xbit_ g), (Z.eqb_spec l 0); cbn [orb negb];
    try lia; try (intuition (congruence || lia)).
Qed.

(** ** Rounding a mantissa

    What [doRoundUp] returns in the range [Large330], in terms of the mantissa and of the
    class of the dropped fraction, and why it is one of the two neighbours of the value. *)

(** The direction of rounding of a magnitude. *)
Inductive Dir := Toward | Away | Nearest.

Definition dirOf (mode : RoundingMode) (n : bool) : Dir :=
  match mode, n with
  | ToNearest, _ => Nearest
  | TowardsZero, _ | Downward, false | Upward, true => Toward
  | Downward, true | Upward, false => Away
  end.

Definition upCls (d : Dir) (c : Frac) (odd : bool) : bool :=
  match c, d with
  | FZero, _ | _, Toward => false
  | _, Away => true
  | FLow, Nearest => false
  | FHalf, Nearest => odd
  | FHigh, Nearest => true
  end.

(** A guard of the range [Large330] with sign [n]. *)
Definition wfG (n : bool) (g : Guard) : Prop :=
  wfDigits g /\ sbit_ g = n /\ minMantissa g = 10 ^ 18 /\ maxMantissa g = 10 ^ 19 - 1 /\
  cuspRoundingFix g = Enabled330.

Lemma wfG_push n g d : wfG n g -> 0 <= d < 10 -> wfG n (doPush g d).
Proof. intros (? & ? & ? & ? & ?) Hd. split; [by apply doPush_wf|done]. Qed.

Lemma kMaxRepUp_eq : kMaxRepUp = 9223372036854775810.
Proof. reflexivity. Qed.

Ltac roundside := first [done | apply wfG_push; [roundside|lia] | rewrite ?kMaxRepUp_eq; unfold kMaxRep; lia].

Lemma land_1_odd m : (Z.land m 1 =? 1) = Z.odd m.
Proof.
  change 1 with (Z.ones 1) at 1. rewrite Z.land_ones, Zmod_odd by lia. by destruct (Z.odd m).
Qed.

Lemma cusp_cases m : kMaxRep <= m < kMaxRepUp -> m = kMaxRep \/ m = kMaxRep + 1 \/ m = kMaxRep + 2.
Proof. rewrite kMaxRepUp_eq. unfold kMaxRep. lia. Qed.

Section Round.
Context (mode : RoundingMode) (n : bool) (w : Width).
Let dir := dirOf mode n.

Lemma roundsUp_cls g m : wfG n g -> roundsUp (round mode g) m = upCls dir (gcls g) (Z.odd m).
Proof.
  intros (Hd & Hs & _ & _ & Hf). pose proof (proj2 (gcls_is g (gcls g) Hd) eq_refl) as Hc.
  unfold round. rewrite Hf, Hs. cbn [is330 fixLevel Z.leb Z.compare Pos.compare Pos.compare_cont andb].
  unfold guardEmpty, unrecoverable.
  destruct (gcls g); destruct (Z.eqb_spec (digits_ g) 0), (Z.ltb_spec 0x5000000000000000 (digits_ g)),
    (Z.ltb_spec (digits_ g) 0x5000000000000000), (xbit_ g) eqn:Hx; try lia; try (intuition congruence);
    unfold dir, dirOf; destruct mode, n; try done; cbn [roundsUp upCls andb negb]; try (exfalso; intuition (congruence || lia));
    apply land_1_odd.
Qed.

Lemma round_cls g m :
  wfG n g -> m < kMaxRepUp ->
  match round mode g with
  | RUp => m + 1
  | REven => if m =? kMaxRep + (kMaxRepUp - kMaxRep) / 2 then m + 1 else m
  | _ => m
  end = (if upCls dir (gcls g) (m =? kMaxRep + 1) then m + 1 else m).
Proof.
  intros (Hd & Hs & _ & _ & Hf) Hm. pose proof (proj2 (gcls_is g (gcls g) Hd) eq_refl) as Hc.
  unfold round. rewrite Hf, Hs. cbn [is330 fixLevel Z.leb Z.compare Pos.compare Pos.compare_cont andb].
  unfold guardEmpty, unrecoverable. change (kMaxRep + (kMaxRepUp - kMaxRep) / 2) with (kMaxRep + 1).
  destruct (gcls g); destruct (Z.eqb_spec (digits_ g) 0), (Z.ltb_spec 0x5000000000000000 (digits_ g)),
    (Z.ltb_spec (digits_ g) 0x5000000000000000), (xbit_ g) eqn:Hx; try lia; try (intuition congruence);
    unfold dir, dirOf; destruct mode, n; try done; cbn [roundsUp upCls andb negb]; try (exfalso; intuition (congruence || lia)).
Qed.

(** The guard before the decision, for a mantissa below the cusp. *)
Lemma pushOverflow_id g m : m < kMaxRep \/ kMaxRepUp <= m -> pushOverflow mode g m = g.
Proof.
  intros Hm. unfold pushOverflow. destruct (Z.leb_spec kMaxRep m), (Z.ltb_spec m kMaxRepUp);
    rewrite ?andb_false_r; try done; lia.
Qed.

Lemma finishRound_big g m e :
  wfG n g -> 10 ^ 18 <= m ->
  finishRound w g (mkNumber n m e) =
    if e <? kMinExponent then Ok kZero else if kMaxExponent <? e then Overflow else Ok (mkNumber n m e).
Proof.
  intros (_ & _ & Hmin & _ & Hf) Hm. unfold finishRound, bringIntoRange. cbn [mantissa_ exponent_ negative_].
  rewrite Hmin, Hf. destruct (Z.ltb_spec m (10 ^ 18)); [lia|]. cbn [andb is330 fixLevel].
  destruct (Z.ltb_spec e kMinExponent); [done|]. destruct (Z.eqb_spec m 0); [lia|]. done.
Qed.

Lemma finishRound_small g m e :
  wfG n g -> 0 < m < 10 ^ 18 ->
  finishRound w g (mkNumber n m e) =
    if e - 1 <? kMinExponent then Ok kZero
    else if kMaxExponent <? e - 1 then Overflow else Ok (mkNumber n (m * 10) (e - 1)).
Proof.
  intros (_ & _ & Hmin & _ & Hf) Hm. unfold finishRound, bringIntoRange. cbn [mantissa_ exponent_ negative_].
  rewrite Hmin, Hf. destruct (Z.ltb_spec m (10 ^ 18)); [|lia]. destruct (Z.eqb_spec m 0); [lia|].
  cbn [andb is330 fixLevel negb orb Z.leb Z.compare Pos.compare Pos.compare_cont].
  rewrite wrapW_id by lia. destruct (Z.ltb_spec (e - 1) kMinExponent); [done|].
  destruct (Z.eqb_spec (m * 10) 0); [lia|]. done.
Qed.

(** Below the cusp the mantissa is rounded to an integer. *)
Lemma doRoundUp_below f g m e :
  wfG n g -> 0 < m < kMaxRep ->
  doRoundUp mode (S f) w g (mkNumber n m e) =
    finishRound w g (mkNumber n (if upCls dir (gcls g) (Z.odd m) then m + 1 else m) e).
Proof.
  intros Hg Hm. pose proof Hg as (_ & _ & _ & Hmax & Hf). cbn [doRoundUp].
  rewrite pushOverflow_id by lia. rewrite roundsUp_cls by done. rewrite Hf. cbn [isDisabled fixLevel Z.eqb negb].
  unfold safeToIncrement. rewrite Hmax. unfold kMaxRep in *.
  destruct (Z.ltb_spec m (10 ^ 19 - 1)); [|lia]. destruct (Z.ltb_spec m 9223372036854775807); [|lia].
  destruct (Z.ltb_spec 9223372036854775807 m); [lia|]. rewrite andb_false_r. cbn [andb].
  rewrite wrapW_id by lia. by destruct (upCls _ _ _).
Qed.

(** A number with a mantissa in the range, or the error the exponent calls for. *)
Definition endRound (m e : Z) : NumResult Number :=
  if e <? kMinExponent then Ok kZero else if kMaxExponent <? e then Overflow else Ok (mkNumber n m e).

(** Between [kMaxRep] and [kMaxRepUp] the two limits are the neighbours. *)
Definition upCusp (c : Frac) (m : Z) : bool :=
  match dir with
  | Toward => false
  | Away => negb ((m =? kMaxRep) && match c with FZero => true | _ => false end)
  | Nearest => (m =? kMaxRep + 2) || ((m =? kMaxRep + 1) && match c with FHalf | FHigh => true | _ => false end)
  end.

Lemma pushOverflow_cusp g m :
  wfG n g -> kMaxRep <= m < kMaxRepUp ->
  pushOverflow mode g m =
    doPush g (if m =? kMaxRep + 2 then 6
              else if m =? kMaxRep + 1 then (if upCls dir (gcls g) true then 6 else 3)
              else if upCls dir (gcls g) false then 3 else 0).
Proof.
  intros Hg Hm. pose proof Hg as (_ & _ & _ & _ & Hf). unfold pushOverflow.
  rewrite (round_cls g m Hg) by lia. rewrite Hf. cbn [is330 fixLevel].
  destruct (Z.leb_spec kMaxRep m); [|lia]. destruct (Z.ltb_spec m kMaxRepUp); [|lia].
  cbn [andb Z.leb Z.compare Pos.compare Pos.compare_cont]. f_equal.
  assert (m = kMaxRep \/ m = kMaxRep + 1 \/ m = kMaxRep + 2) as [-> | [-> | ->]] by (by apply cusp_cases).
  - change (kMaxRep =? kMaxRep + 1) with false. by destruct (upCls dir (gcls g) false).
  - change (kMaxRep + 1 =? kMaxRep + 1) with true. by destruct (upCls dir (gcls g) true).
  - reflexivity.
Qed.

(** One level of [doRoundUp] at or above the cusp. *)
Lemma doRoundUp_above f g m e :
  wfG n (pushOverflow mode g m) -> kMaxRep <= m -> fits w m ->
  doRoundUp mode (S f) w g (mkNumber n m e) =
    let g := pushOverflow mode g m in
    let cusp := (kMaxRep <? m) && (m <? kMaxRepUp) in
    if upCls dir (gcls g) (Z.odd m) then
      if cusp then finishRound w g (mkNumber n kMaxRepUp e)
      else doRoundUp mode f w (doPush g (m mod 10)) (mkNumber n (m / 10) (e + 1))
    else finishRound w g (mkNumber n (if cusp then kMaxRep else m) e).
Proof.
  intros Hg Hm Hw. pose proof Hg as (_ & _ & _ & Hmax & Hf). cbn [doRoundUp]. cbv zeta.
  rewrite roundsUp_cls by done. rewrite Hf. unfold safeToIncrement.
  cbn [isDisabled is330 fixLevel Z.eqb Z.leb Z.compare Pos.compare Pos.compare_cont negb andb].
  destruct (Z.ltb_spec m kMaxRep); [lia|]. rewrite andb_false_r, doDropDigit_spec by done.
  destruct (_ && _); [done|]. by destruct (upCls _ _ _).
Qed.

(** The recursive call of the cusp: a mantissa just below the range. *)
Lemma doRoundUp_dropped f g m e :
  wfG n g -> 0 < m -> m + 1 < 10 ^ 18 ->
  doRoundUp mode (S f) w g (mkNumber n m (e + 1)) =
    endRound ((if upCls dir (gcls g) (Z.odd m) then m + 1 else m) * 10) e.
Proof.
  intros Hg Hm1 Hm2. rewrite doRoundUp_below by (exact Hg || unfold kMaxRep; lia).
  rewrite finishRound_small by (exact Hg || destruct (upCls _ _ _); lia).
  by replace (e + 1 - 1) with e by lia.
Qed.

Lemma doRoundUp_cusp g m e :
  wfG n g -> kMaxRep <= m < kMaxRepUp ->
  doRoundUp mode 2 w g (mkNumber n m e) = endRound (if upCusp (gcls g) m then kMaxRepUp else kMaxRep) e.
Proof.
  intros Hg Hm. assert (fits w m) by (rewrite kMaxRepUp_eq in Hm; unfold kMaxRep in Hm; destruct w; unfold fits; lia).
  pose proof (pushOverflow_cusp g m Hg Hm) as Hp. remember (if m =? _ then _ else _) as d eqn:Ed in Hp.
  assert (0 <= d < 10) as Hd by (rewrite Ed; bcase; lia).
  pose proof (wfG_push _ _ _ Hg Hd) as Hg'. rewrite <-Hp in Hg'.
  rewrite doRoundUp_above by (exact Hg' || exact (proj1 Hm) || done). cbv zeta.
  rewrite (finishRound_big _ kMaxRepUp) by (exact Hg' || rewrite kMaxRepUp_eq; lia).
  rewrite finishRound_big by (exact Hg' || destruct (_ && _); unfold kMaxRep in *; lia).
  assert (gcls (pushOverflow mode g m) = pushCls d (gcls g)) as Ec by (rewrite Hp; apply gcls_push; [apply Hg|done]).
  rewrite Ec. fold (endRound kMaxRepUp e).
  destruct (cusp_cases m Hm) as [-> | [-> | ->]]; unfold upCusp.
  - change (kMaxRep =? kMaxRep + 2) with false in *. change (kMaxRep =? kMaxRep + 1) with false in *.
    rewrite Z.ltb_irrefl, Z.eqb_refl. cbn [andb]. change (kMaxRep mod 10) with 7. change (kMaxRep / 10) with 922337203685477580.
    rewrite doRoundUp_dropped; [|apply wfG_push; [exact Hg'|lia]|done|done].
    rewrite gcls_push; [|apply Hg'|lia]. rewrite Ec, Ed.
    destruct (gcls g), dir; reflexivity.
  - change (kMaxRep + 1 =? kMaxRep + 2) with false in *. change (kMaxRep + 1 =? kMaxRep) with false in *.
    change ((kMaxRep <? kMaxRep + 1) && (kMaxRep + 1 <? kMaxRepUp)) with true.
    rewrite Z.eqb_refl in *. rewrite Ed. destruct (gcls g), dir; reflexivity.
  - change (kMaxRep + 2 =? kMaxRep) with false in *.
    change ((kMaxRep <? kMaxRep + 2) && (kMaxRep + 2 <? kMaxRepUp)) with true.
    rewrite Z.eqb_refl in *. rewrite Ed. destruct (gcls g), dir; reflexivity.
Qed.

(** At [kMaxRepUp] the next number is ten higher. *)
Lemma doRoundUp_limit g e :
  wfG n g ->
  doRoundUp mode 2 w g (mkNumber n kMaxRepUp e) =
    endRound (match gcls g, dir with
              | FZero, _ => kMaxRepUp | _, Away => kMaxRepUp + 10 | _, _ => kMaxRepUp end) e.
Proof.
  intros Hg. pose proof (pushOverflow_id g kMaxRepUp ltac:(lia)) as Hp.
  rewrite doRoundUp_above; [|by rewrite Hp|by rewrite kMaxRepUp_eq; unfold kMaxRep; lia
                            |rewrite kMaxRepUp_eq; destruct w; unfold fits; lia].
  rewrite Hp. cbv zeta. rewrite (Z.ltb_irrefl kMaxRepUp), andb_false_r. change (kMaxRepUp mod 10) with 0.
  change (kMaxRepUp / 10) with 922337203685477581.
  rewrite doRoundUp_dropped; [|apply wfG_push; [exact Hg|lia]|done|done]. rewrite gcls_push; [|apply Hg|lia].
  rewrite finishRound_big by (exact Hg || rewrite kMaxRepUp_eq; lia). change (Z.odd kMaxRepUp) with false.
  destruct (gcls g), dir; reflexivity.
Qed.
End Round.

(** ** Correct rounding

    In the range [Large330] every operation of [Number] returns the exact result rounded to a
    representable number in the mode asked for, zero below the range, and an error above it.
    The value of a number is [svalue] times ten to the power [kMinExponent], so that values
    and neighbours are integers. *)

Definition sgn (n : bool) : Z := if n then -1 else 1.

Definition magnitude (x : Number) : Z := mantissa_ x * 10 ^ (exponent_ x - kMinExponent).
Definition svalue (x : Number) : Z := sgn (negative_ x) * magnitude x.

Definition normal (x : Number) : Prop := isnormal Large330 x = true.

(** The mantissa whose parity breaks ties. *)
Definition tieMantissa (x : Number) : Z :=
  if kMaxRepUp <? mantissa_ x then mantissa_ x / 10 else mantissa_ x.

(** [r] is [P / Q] rounded in mode [mode] among the representable numbers. *)
Definition correctlyRounded (mode : RoundingMode) (P Q : Z) (r : Number) : Prop :=
  match mode with
  | Downward => svalue r * Q <= P /\ forall x, normal x -> svalue x * Q <= P -> svalue x <= svalue r
  | Upward => P <= svalue r * Q /\ forall x, normal x -> P <= svalue x * Q -> svalue r <= svalue x
  | TowardsZero =>
    Z.abs (svalue r) * Q <= Z.abs P /\ 0 <= svalue r * P /\
    forall x, normal x -> Z.abs (svalue x) * Q <= Z.abs P -> Z.abs (svalue x) <= Z.abs (svalue r)
  | ToNearest =>
    forall x, normal x ->
      Z.abs (P - svalue r * Q) <= Z.abs (P - svalue x * Q) /\
      (Z.abs (P - svalue r * Q) = Z.abs (P - svalue x * Q) -> svalue x <> svalue r ->
       Z.even (tieMantissa r) = true)
  end.

(** [v] is [P / Q] rounded to an integer. *)
Definition roundedInteger (mode : RoundingMode) (P Q v : Z) : Prop :=
  match mode with
  | Downward => v * Q <= P < (v + 1) * Q
  | Upward => (v - 1) * Q < P <= v * Q
  | TowardsZero => Z.abs v * Q <= Z.abs P < (Z.abs v + 1) * Q /\ 0 <= v * P
  | ToNearest => Z.abs (2 * (P - v * Q)) <= Q /\ (Z.abs (2 * (P - v * Q)) = Q -> Z.even v = true)
  end.

(** The unit of the largest exponent. *)
Definition topScale : Z := 10 ^ (kMaxExponent - kMinExponent).

(** What an operation with exact result [P / Q] returns: the result rounded; zero, in every
    mode, when it is below the smallest positive number; the error only beyond the range. *)
Definition roundedResult (mode : RoundingMode) (P Q : Z) (res : NumResult Number) : Prop :=
  match res with
  | Ok r =>
    normal r /\
    (10 ^ 18 * Q <= Z.abs P -> correctlyRounded mode P Q r) /\
    (Z.abs P < 10 ^ 18 * Q -> r = kZero)
  | Overflow => kMaxRepUp * topScale * Q <= Z.abs P
  | OutOfFuel => False
  end.

(** The same for a product, which is rounded to whole units of the smallest exponent before
    the range is checked: below the smallest positive number it is that number when the
    rounding reaches it, and otherwise zero. *)
Definition roundedProduct (mode : RoundingMode) (P Q : Z) (res : NumResult Number) : Prop :=
  match res with
  | Ok r =>
    normal r /\
    (10 ^ 18 * Q <= Z.abs P -> correctlyRounded mode P Q r) /\
    (Z.abs P < 10 ^ 18 * Q ->
     exists v, roundedInteger mode P Q v /\ svalue r = if Z.abs v =? 10 ^ 18 then v else 0)
  | Overflow => kMaxRepUp * topScale * Q <= Z.abs P
  | OutOfFuel => False
  end.

(** ** Representable magnitudes *)

Definition gridMant (m : Z) : Prop := 10 ^ 18 <= m < 10 ^ 19 /\ (m <= kMaxRep \/ m mod 10 = 0).

Definition grid (v : Z) : Prop := exists m e, gridMant m /\ 0 <= e /\ v = m * 10 ^ e.

Definition adjacent (lo hi : Z) : Prop := 0 < lo < hi /\ forall v, grid v -> v <= lo \/ hi <= v.

Lemma pow10_pos e : 0 <= e -> 0 < 10 ^ e.
Proof. intros. apply Z.pow_pos_nonneg; lia. Qed.

Lemma pow10_split a b : 0 <= a <= b -> 10 ^ b = 10 ^ (b - a) * 10 ^ a.
Proof. intros. rewrite <-Z.pow_add_r by lia. f_equal. lia. Qed.

Lemma pow10_ten e : 0 < e -> 10 ^ e = 10 * 10 ^ (e - 1).
Proof. intros. replace e with (Z.succ (e - 1)) at 1 by lia. apply Z.pow_succ_r. lia. Qed.

(** Neighbours with a common exponent. *)
Lemma adjacent_intro a b e :
  0 <= e -> 10 ^ 18 <= a -> a < b <= 10 ^ 19 ->
  (forall m, gridMant m -> m <= a \/ b <= m) ->
  adjacent (a * 10 ^ e) (b * 10 ^ e).
Proof.
  intros He Ha Hb Hgap. pose proof (pow10_pos e He). change (10 ^ 18) with 1000000000000000000 in *.
  change (10 ^ 19) with 10000000000000000000 in *. split; [nia|].
  intros v (m & e' & Hm & He' & ->). destruct (Z.lt_trichotomy e' e) as [Hlt|[->|Hgt]].
  - left. rewrite (pow10_split e' e), (pow10_ten (e - e')) by lia.
    pose proof (pow10_pos e' He'). pose proof (pow10_pos (e - e' - 1) ltac:(lia)).
    destruct Hm as [Hm _]. change (10 ^ 19) with 10000000000000000000 in *.
    set (p := 10 ^ (e - e' - 1)) in *. replace (a * (10 * p * 10 ^ e')) with (a * 10 * p * 10 ^ e') by ring.
    apply Z.mul_le_mono_nonneg_r; nia.
  - destruct (Hgap m Hm); nia.
  - right. rewrite (pow10_split e e'), (pow10_ten (e' - e)) by lia.
    pose proof (pow10_pos (e' - e - 1) ltac:(lia)). destruct Hm as [Hm _]. change (10 ^ 18) with 1000000000000000000 in *.
    set (p := 10 ^ (e' - e - 1)) in *. replace (m * (10 * p * 10 ^ e)) with (m * 10 * p * 10 ^ e) by ring.
    apply Z.mul_le_mono_nonneg_r; nia.
Qed.

Lemma adjacent_ones m e : 0 <= e -> 10 ^ 18 <= m < kMaxRep -> adjacent (m * 10 ^ e) ((m + 1) * 10 ^ e).
Proof. intros. unfold kMaxRep in *. apply adjacent_intro; [lia..|]. intros k _. lia. Qed.

Lemma adjacent_cusp e : 0 <= e -> adjacent (kMaxRep * 10 ^ e) (kMaxRepUp * 10 ^ e).
Proof.
  intros. rewrite kMaxRepUp_eq. unfold kMaxRep. apply adjacent_intro; [lia..|]. intros k [Hk Hc]. unfold kMaxRep in *.
  pose proof (Z.div_mod k 10). lia.
Qed.

Lemma adjacent_tens k e :
  0 <= e -> kMaxRepUp <= k * 10 -> k < 10 ^ 18 -> adjacent (k * 10 * 10 ^ e) ((k + 1) * 10 * 10 ^ e).
Proof.
  intros He Hk1 Hk2. rewrite kMaxRepUp_eq in Hk1. apply adjacent_intro; [lia..|]. intros j [Hj Hc]. unfold kMaxRep in *.
  pose proof (Z.div_mod j 10). lia.
Qed.

(** A representable number's magnitude. *)
Lemma normal_cases x : normal x -> x = kZero \/ (gridMant (mantissa_ x) /\ kMinExponent <= exponent_ x <= kMaxExponent).
Proof.
  unfold normal, isnormal, numEq. intros [H|H]%orb_true_iff.
  - left. destruct x as [n m e]. cbn in H. breflect. apply eqb_prop in H. by subst.
  - right. change (rangeMin Large330) with (10 ^ 18) in H. change (rangeMax Large330) with (10 ^ 19 - 1) in H.
    apply andb_true_iff in H as [H ?]. apply andb_true_iff in H as [H ?]. apply andb_true_iff in H as [H Hc].
    breflect. split; [|done]. split; [lia|]. apply orb_true_iff in Hc as [?|?]; breflect; auto.
Qed.

Lemma normal_intro n m e : gridMant m -> kMinExponent <= e <= kMaxExponent -> normal (mkNumber n m e).
Proof.
  intros [Hm Hc] He. unfold normal, isnormal. apply orb_true_iff. right. cbn [mantissa_ exponent_].
  change (rangeMin Large330) with (10 ^ 18). change (rangeMax Large330) with (10 ^ 19 - 1).
  rewrite !andb_true_iff, orb_true_iff, !Z.leb_le, Z.eqb_eq. repeat split; try lia.
Qed.

Lemma svalue_zero : svalue kZero = 0.
Proof. reflexivity. Qed.

Lemma magnitude_grid x : normal x -> magnitude x = 0 \/ grid (magnitude x).
Proof.
  intros [-> | [Hm He]]%normal_cases; [by left|right].
  exists (mantissa_ x), (exponent_ x - kMinExponent). split; [done|]. split; [lia|done].
Qed.

Lemma magnitude_nonneg x : normal x -> 0 <= magnitude x.
Proof.
  intros [-> | [[Hm _] He]]%normal_cases; [by vm_compute|]. unfold magnitude.
  pose proof (pow10_pos (exponent_ x - kMinExponent) ltac:(lia)). lia.
Qed.

Lemma adjacent_normal lo hi x : adjacent lo hi -> normal x -> 0 <= magnitude x /\ (magnitude x <= lo \/ hi <= magnitude x).
Proof.
  intros [Hlo Hadj] Hx. split; [by apply magnitude_nonneg|]. destruct (magnitude_grid x Hx) as [-> | Hg]; [lia|by apply Hadj].
Qed.

(** ** From the neighbours to correct rounding *)

(** The neighbour chosen for [P / Q] between [lo] and [hi]. *)
Definition pick (d : Dir) (P Q lo hi : Z) (tieHi : bool) : Z :=
  if lo * Q =? P then lo
  else match d with
  | Toward => lo
  | Away => hi
  | Nearest =>
    match (2 * P) ?= ((lo + hi) * Q) with Lt => lo | Eq => if tieHi then hi else lo | Gt => hi end
  end.

Lemma pick_correct mode n P Q lo hi tieHi r :
  0 < Q -> adjacent lo hi -> lo * Q <= P < hi * Q ->
  negative_ r = n -> magnitude r = pick (dirOf mode n) P Q lo hi tieHi ->
  (mode = ToNearest -> 2 * P = (lo + hi) * Q -> Z.even (tieMantissa r) = true) ->
  correctlyRounded mode (sgn n * P) Q r.
Proof.
  intros HQ Hadj HP Hn Hr Htie. pose proof Hadj as [Hlo _].
  assert (forall x, normal x ->
    0 <= magnitude x * Q /\
    ((magnitude x = lo /\ magnitude x * Q = lo * Q \/ magnitude x < lo /\ magnitude x * Q < lo * Q) \/
     (magnitude x = hi /\ magnitude x * Q = hi * Q \/ hi < magnitude x /\ hi * Q < magnitude x * Q))) as Hx.
  { intros x Hx. destruct (adjacent_normal lo hi x Hadj Hx) as [? Hc]. split; [nia|].
    destruct (Z.eq_dec (magnitude x) lo) as [-> |]; [auto|]. destruct (Z.eq_dec (magnitude x) hi) as [-> |]; [auto|].
    destruct Hc; [left|right]; right; nia. }
  assert (0 < lo * Q) as Hl by nia. rewrite Z.mul_add_distr_r in Htie.
  set (v := pick _ _ _ _ _ _) in Hr.
  assert (svalue r * Q = sgn n * (v * Q) /\ svalue r = sgn n * v) as [Er1 Er2] by (unfold svalue; rewrite Hn, Hr; lia).
  assert (forall x, svalue x * Q = sgn (negative_ x) * (magnitude x * Q) /\ svalue x = sgn (negative_ x) * magnitude x) as Hs
    by (intros; unfold svalue; lia).
  assert (v = lo /\ v * Q = lo * Q \/ v = hi /\ v * Q = hi * Q) as Hv by (unfold v, pick; repeat case_match; auto).
  unfold correctlyRounded. destruct mode.
  - intros x Hxn. destruct (Hx x Hxn) as [Hx0 Hxc]. destruct (Hs x) as [-> ->]. rewrite Er1, Er2.
    revert Hv. unfold v, pick. cbn [dirOf]. rewrite Z.mul_add_distr_r.
    destruct (Z.eqb_spec (lo * Q) P), (Z.compare_spec (2 * P) (lo * Q + hi * Q)), tieHi, n, (negative_ x);
      cbn [sgn]; intros; (split; [lia|intros; first [lia|apply Htie; [done|lia]]]).
  - assert (v = lo) as -> by (unfold v, pick; cbn [dirOf]; by destruct (_ =? _)).
    rewrite Er2. replace (Z.abs (sgn n * lo)) with lo by (destruct n; cbn [sgn]; lia).
    split; [destruct n; cbn [sgn]; lia|]. split; [destruct n; cbn [sgn]; nia|].
    intros x Hxn. destruct (Hx x Hxn) as [Hx0 Hxc].
    replace (Z.abs (svalue x)) with (magnitude x) by (pose proof (magnitude_nonneg x Hxn); unfold svalue; destruct (negative_ x); cbn [sgn]; lia).
    destruct n; cbn [sgn]; lia.
  - rewrite Er1, Er2. revert Hv. unfold v, pick. split; [|intros x Hxn; destruct (Hx x Hxn) as [Hx0 Hxc]; destruct (Hs x) as [-> ->]; revert Hxc Hx0; pose proof (magnitude_nonneg x Hxn); destruct (negative_ x)];
      destruct n, (Z.eqb_spec (lo * Q) P); cbn [dirOf sgn]; lia.
  - rewrite Er1, Er2. revert Hv. unfold v, pick. split; [|intros x Hxn; destruct (Hx x Hxn) as [Hx0 Hxc]; destruct (Hs x) as [-> ->]; revert Hxc Hx0; pose proof (magnitude_nonneg x Hxn); destruct (negative_ x)];
      destruct n, (Z.eqb_spec (lo * Q) P); cbn [dirOf sgn]; lia.
Qed.

Lemma abs_sgn n P : 0 <= P -> Z.abs (sgn n * P) = P.
Proof. destruct n; cbn [sgn]; lia. Qed.

(** The end of a rounding whose neighbours are known. *)
Lemma endRound_result mode n P Q lo hi tieHi m e :
  0 < Q -> adjacent lo hi -> lo * Q <= P < hi * Q -> 10 ^ 18 <= lo ->
  gridMant m -> kMinExponent <= e -> m * 10 ^ (e - kMinExponent) = pick (dirOf mode n) P Q lo hi tieHi ->
  (mode = ToNearest -> 2 * P = (lo + hi) * Q -> Z.even (tieMantissa (mkNumber n m e)) = true) ->
  (kMaxExponent < e -> kMaxRepUp * topScale <= lo) ->
  roundedResult mode (sgn n * P) Q (endRound n m e).
Proof.
  intros HQ Hadj HP Hlo Hm He Hr Htie Hov. unfold endRound.
  destruct (Z.ltb_spec e kMinExponent); [lia|]. assert (10 ^ 18 * Q <= lo * Q) by (apply Z.mul_le_mono_nonneg_r; lia).
  destruct (Z.ltb_spec kMaxExponent e) as [Hgt|]; unfold roundedResult; rewrite abs_sgn by lia.
  - specialize (Hov Hgt). apply (Z.le_trans _ (lo * Q)); [|lia]. apply Z.mul_le_mono_nonneg_r; lia.
  - split; [by apply normal_intro|]. split; [intros _|lia]. by eapply pick_correct.
Qed.

Lemma pick_scale d P Q lo hi t s : 0 < s -> pick d (P * s) Q (lo * s) (hi * s) t = pick d P Q lo hi t * s.
Proof.
  intros Hs. unfold pick. replace (lo * s * Q =? P * s) with (lo * Q =? P).
  2: { destruct (Z.eqb_spec (lo * Q) P), (Z.eqb_spec (lo * s * Q) (P * s)); try done; nia. }
  replace (2 * (P * s) ?= (lo * s + hi * s) * Q) with (2 * P ?= (lo + hi) * Q).
  2: { destruct (Z.compare_spec (2 * P) ((lo + hi) * Q)), (Z.compare_spec (2 * (P * s)) ((lo * s + hi * s) * Q)); try done; nia. }
  by repeat case_match.
Qed.

(** The neighbours are consecutive multiples of the unit. *)
Lemma pick_unit d m num den s odd :
  0 < s -> 0 <= num < den ->
  pick d ((m * den + num) * s) den (m * s) ((m + 1) * s) odd = (if upCls d (cls num den) odd then m + 1 else m) * s.
Proof.
  intros Hs Hn. pose proof (cls_inv num den ltac:(lia)) as Hc. unfold pick.
  destruct (Z.eqb_spec (m * s * den) ((m * den + num) * s)), (Z.compare_spec (2 * ((m * den + num) * s)) ((m * s + (m + 1) * s) * den));
  destruct (cls num den), d, odd; cbn [upCls]; try done; exfalso; nia.
Qed.

Lemma scale_between a b V Q s : 0 < s -> a * Q <= V < b * Q -> a * s * Q <= V * s < b * s * Q.
Proof. intros. nia. Qed.

Lemma unit_between m num den s :
  0 < s -> 0 <= num < den -> m * s * den <= (m * den + num) * s < (m + 1) * s * den.
Proof. intros. nia. Qed.

(** A tie between consecutive multiples is broken towards the even one. *)
Lemma tie_even m num den s :
  0 < s -> 0 <= num < den -> 2 * ((m * den + num) * s) = (m * s + (m + 1) * s) * den ->
  Z.even (if upCls Nearest (cls num den) (Z.odd m) then m + 1 else m) = true.
Proof.
  intros Hs Hn Ht. rewrite (cls_is FHalf) by nia. cbn [upCls]. destruct (Z.odd m) eqn:Ho.
  - by rewrite Z.even_add, <-Z.negb_odd, Ho.
  - by rewrite <-Z.negb_odd, Ho.
Qed.

Section Core.
Context (mode : RoundingMode) (n : bool) (w : Width) (g : Guard) (num den : Z).
Hypothesis Hg : wfG n g.
Hypothesis Hnum : 0 <= num < den.
Hypothesis Hcls : gcls g = cls num den.

Abbreviation exact m e := ((m * den + num) * 10 ^ (e - kMinExponent)).

Lemma pow_exp e : kMinExponent <= e -> 0 < 10 ^ (e - kMinExponent).
Proof. intros. apply pow10_pos. lia. Qed.

(** Above the largest exponent. *)
Lemma exp_overflow a e k :
  kMaxExponent + k <= e -> 0 <= k -> kMaxRepUp <= a * 10 ^ k -> 0 <= a ->
  kMaxRepUp * topScale <= a * 10 ^ (e - kMinExponent).
Proof.
  intros He Hk Ha Ha'. unfold topScale. rewrite (pow10_split (kMaxExponent - kMinExponent) (e - kMinExponent)) by (unfold kMaxExponent, kMinExponent in *; lia).
  rewrite Z.mul_assoc. apply Z.mul_le_mono_nonneg_r; [apply Z.pow_nonneg; lia|].
  apply (Z.le_trans _ (a * 10 ^ k)); [done|]. apply Z.mul_le_mono_nonneg_l; [done|]. apply Z.pow_le_mono_r; lia.
Qed.

Lemma core_ones e m :
  kMinExponent <= e -> 10 ^ 18 <= m < kMaxRep ->
  roundedResult mode (sgn n * exact m e) den (doRoundUp mode 2 w g (mkNumber n m e)).
Proof.
  intros He Hm. rewrite doRoundUp_below by (done || lia). rewrite Hcls. set (m' := if upCls _ _ _ then _ else _).
  assert (m' = m \/ m' = m + 1) as Hm' by (unfold m'; destruct (upCls _ _ _); auto).
  rewrite finishRound_big by (done || lia). pose proof (pow_exp e He) as Hs. unfold kMaxRep in *.
  apply (endRound_result mode n _ _ (m * 10 ^ (e - kMinExponent)) ((m + 1) * 10 ^ (e - kMinExponent)) (Z.odd m)).
  - lia.
  - apply adjacent_ones; unfold kMaxRep; lia.
  - by apply unit_between.
  - nia.
  - unfold gridMant, kMaxRep. lia.
  - done.
  - by rewrite pick_unit.
  - intros -> Ht. apply tie_even in Ht; [|done..]. unfold tieMantissa. cbn [mantissa_]. rewrite kMaxRepUp_eq.
    destruct (Z.ltb_spec 9223372036854775810 m'); [lia|]. exact Ht.
  - intros Hgt. apply (exp_overflow _ _ 1); [lia|lia| |lia]. rewrite kMaxRepUp_eq. lia.
Qed.

Lemma pick_cusp m s :
  0 < s -> kMaxRep <= m < kMaxRepUp ->
  pick (dirOf mode n) ((m * den + num) * s) den (kMaxRep * s) (kMaxRepUp * s) true =
    (if upCusp mode n (cls num den) m then kMaxRepUp else kMaxRep) * s.
Proof.
  intros Hs Hm. rewrite pick_scale by done. f_equal. pose proof (cls_inv num den ltac:(lia)) as Hc.
  unfold pick, upCusp. rewrite kMaxRepUp_eq.
  destruct (cusp_cases m Hm) as [-> | [-> | ->]].
  - rewrite Z.eqb_refl. change (kMaxRep =? kMaxRep + 2) with false. change (kMaxRep =? kMaxRep + 1) with false. unfold kMaxRep.
    destruct (Z.eqb_spec (9223372036854775807 * den) (9223372036854775807 * den + num)),
      (Z.compare_spec (2 * (9223372036854775807 * den + num)) ((9223372036854775807 + 9223372036854775810) * den)),
      (cls num den), (dirOf mode n); cbn [orb andb negb]; try done; exfalso; lia.
  - rewrite Z.eqb_refl. change (kMaxRep + 1 =? kMaxRep + 2) with false. change (kMaxRep + 1 =? kMaxRep) with false.
    change (kMaxRep + 1) with 9223372036854775808. unfold kMaxRep.
    destruct (Z.eqb_spec (9223372036854775807 * den) (9223372036854775808 * den + num)),
      (Z.compare_spec (2 * (9223372036854775808 * den + num)) ((9223372036854775807 + 9223372036854775810) * den)),
      (cls num den), (dirOf mode n); cbn [orb andb negb]; try done; exfalso; lia.
  - rewrite Z.eqb_refl. change (kMaxRep + 2 =? kMaxRep) with false.
    change (kMaxRep + 2) with 9223372036854775809. unfold kMaxRep.
    destruct (Z.eqb_spec (9223372036854775807 * den) (9223372036854775809 * den + num)),
      (Z.compare_spec (2 * (9223372036854775809 * den + num)) ((9223372036854775807 + 9223372036854775810) * den)),
      (cls num den), (dirOf mode n); cbn [orb andb negb]; try done; exfalso; lia.
Qed.

Lemma core_cusp e m :
  kMinExponent <= e -> kMaxRep <= m < kMaxRepUp ->
  roundedResult mode (sgn n * exact m e) den (doRoundUp mode 2 w g (mkNumber n m e)).
Proof.
  intros He Hm. rewrite doRoundUp_cusp by done. rewrite Hcls. pose proof (pow_exp e He) as Hs.
  apply (endRound_result mode n _ _ (kMaxRep * 10 ^ (e - kMinExponent)) (kMaxRepUp * 10 ^ (e - kMinExponent)) true).
  - lia.
  - apply adjacent_cusp. lia.
  - apply scale_between; [done|]. set (a := kMaxRep) in *. set (b := kMaxRepUp) in *. nia.
  - unfold kMaxRep. lia.
  - unfold gridMant. rewrite kMaxRepUp_eq. unfold kMaxRep. destruct (upCusp _ _ _ _); [split; [lia|by right]|lia].
  - done.
  - by rewrite pick_cusp.
  - intros -> Ht. assert (upCusp ToNearest n (cls num den) m = true) as ->.
    { destruct (upCusp _ _ _ _) eqn:E; [done|]. revert E. unfold upCusp. cbn [dirOf].
      rewrite kMaxRepUp_eq in Ht. destruct (cusp_cases m Hm) as [-> | [-> | ->]]; unfold kMaxRep in Ht; [exfalso; nia| |by rewrite Z.eqb_refl].
      rewrite (cls_is FHalf) by nia. by rewrite Z.eqb_refl, orb_true_r. }
    reflexivity.
  - intros Hgt. apply (exp_overflow _ _ 1); rewrite ?kMaxRepUp_eq; unfold kMaxRep; lia.
Qed.

Lemma core_limit e :
  kMinExponent <= e -> roundedResult mode (sgn n * exact kMaxRepUp e) den (doRoundUp mode 2 w g (mkNumber n kMaxRepUp e)).
Proof.
  intros He. rewrite doRoundUp_limit by done. rewrite Hcls. pose proof (pow_exp e He) as Hs.
  pose proof (cls_inv num den ltac:(lia)) as Hc. set (m' := match cls num den with FZero => _ | _ => _ end).
  assert (m' = kMaxRepUp \/ m' = kMaxRepUp + 10) as Hm'
    by (unfold m'; destruct (cls num den), (dirOf mode n); auto).
  apply (endRound_result mode n _ _ (kMaxRepUp * 10 ^ (e - kMinExponent)) ((kMaxRepUp + 10) * 10 ^ (e - kMinExponent)) false).
  - lia.
  - apply (adjacent_tens 922337203685477581); [lia|done|done].
  - nia.
  - rewrite kMaxRepUp_eq. lia.
  - unfold gridMant. rewrite kMaxRepUp_eq in *. destruct Hm' as [-> | ->]; (split; [lia|by right]).
  - done.
  - unfold pick, m'. set (s := 10 ^ _) in *.
    destruct (Z.eqb_spec (kMaxRepUp * s * den) ((kMaxRepUp * den + num) * s));
    destruct (Z.compare_spec (2 * ((kMaxRepUp * den + num) * s)) ((kMaxRepUp * s + (kMaxRepUp + 10) * s) * den));
    destruct (cls num den), (dirOf mode n); try done; exfalso; nia.
  - intros _ Ht. exfalso. nia.
  - intros Hgt. apply (exp_overflow _ _ 1); rewrite ?kMaxRepUp_eq; lia.
Qed.

(** The mantissa of a value whose last digit was dropped. *)
Lemma finishRound_tens e m :
  922337203685477581 <= m <= 10 ^ 18 ->
  exists m' e', finishRound w g (mkNumber n m e) = endRound n m' e' /\ gridMant m' /\
    (m < 10 ^ 18 -> m' = m * 10 /\ e' = e - 1) /\ (m = 10 ^ 18 -> m' = m /\ e' = e).
Proof.
  intros Hm. unfold gridMant. destruct (Z.eq_dec m (10 ^ 18)) as [-> |].
  - exists (10 ^ 18), e. rewrite finishRound_big by (done || lia). unfold kMaxRep. repeat split; lia.
  - exists (m * 10), (e - 1). rewrite finishRound_small by (done || lia). split; [done|].
    split; [split; [lia|right; apply Z.mod_mul; lia]|]. lia.
Qed.

Lemma core_tens e m :
  kMinExponent < e -> 922337203685477581 <= m < 10 ^ 18 ->
  roundedResult mode (sgn n * exact m e) den (doRoundUp mode 2 w g (mkNumber n m e)).
Proof.
  intros He Hm. rewrite doRoundUp_below by (done || unfold kMaxRep; lia). rewrite Hcls. set (m0 := if upCls _ _ _ then _ else _).
  assert (m0 = m \/ m0 = m + 1) as Hm0 by (unfold m0; destruct (upCls _ _ _); auto).
  destruct (finishRound_tens e m0 ltac:(lia)) as (m' & e' & -> & Hgr & Hlt & Heq).
  pose proof (pow_exp e ltac:(lia)) as Hs. pose proof (pow_exp (e - 1) ltac:(lia)) as Hs'.
  assert (10 ^ (e - kMinExponent) = 10 * 10 ^ (e - 1 - kMinExponent)) as Es
    by (rewrite pow10_ten by lia; do 2 f_equal; lia).
  assert (m' * 10 ^ (e' - kMinExponent) = m0 * 10 ^ (e - kMinExponent)) as Ev.
  { destruct (Z.eq_dec m0 (10 ^ 18)) as [E|]; [by destruct (Heq E) as [-> ->]|].
    destruct (Hlt ltac:(lia)) as [-> ->]. rewrite Es. lia. }
  apply (endRound_result mode n _ _ (m * 10 ^ (e - kMinExponent)) ((m + 1) * 10 ^ (e - kMinExponent)) (Z.odd m)).
  - lia.
  - rewrite Es, !Z.mul_assoc. apply adjacent_tens; rewrite ?kMaxRepUp_eq; lia.
  - by apply unit_between.
  - rewrite Es. nia.
  - done.
  - destruct (Z.eq_dec m0 (10 ^ 18)) as [E|]; [destruct (Heq E)|destruct (Hlt ltac:(lia))]; lia.
  - rewrite Ev. by rewrite pick_unit.
  - intros -> Ht. apply tie_even in Ht; [|done..]. change (Z.even m0 = true) in Ht. unfold tieMantissa. cbn [mantissa_].
    destruct (Z.eq_dec m0 (10 ^ 18)) as [E|]; [destruct (Heq E) as [-> _]; rewrite E; reflexivity|].
    destruct (Hlt ltac:(lia)) as [-> _]. rewrite Z.div_mul by lia. destruct (_ <? _); [done|]. by rewrite Z.even_mul, Ht.
  - intros Hgt. destruct (Z.eq_dec m0 (10 ^ 18)) as [E|]; [destruct (Heq E)|destruct (Hlt ltac:(lia))];
      apply (exp_overflow _ _ 1); rewrite ?kMaxRepUp_eq; lia.
Qed.

(** A mantissa within the limit, with what was dropped from it. *)
Lemma core_result e m :
  kMinExponent <= e -> 922337203685477581 <= m <= kMaxRepUp -> 10 ^ 18 <= m \/ kMinExponent < e ->
  roundedResult mode (sgn n * exact m e) den (doRoundUp mode 2 w g (mkNumber n m e)).
Proof.
  intros He [Hm1 Hm2] Hlow. destruct (Z.eq_dec m kMaxRepUp) as [-> |]; [by apply core_limit|].
  destruct (Z.le_gt_cases kMaxRep m); [apply core_cusp; lia|].
  destruct (Z.le_gt_cases (10 ^ 18) m); [apply core_ones; lia|].
  apply core_tens; lia.
Qed.
End Core.
