(* ===== verification/NumberNorm.v ===== *)
(** * Normalisation rounds correctly

    The digits dropped by the loops of [doNormalize] stay in the guard, so that what it
    returns is the value it was given, correctly rounded. *)
From S2P Require Import Prelude Number NumberSpec.

(** ** Scaling *)

(** [P / Q] is [p / q] times ten to the power [e], in the units of [svalue]. *)
Definition scaled (P Q p q e : Z) : Prop :=
  exists A B, 0 <= A /\ 0 <= B /\ B - A = e - kMinExponent /\ P * (q * 10 ^ A) = Q * (p * 10 ^ B).

Lemma scaled_down P Q p q e k : 0 <= k -> scaled P Q p q e -> scaled P Q (p * 10 ^ k) q (e - k).
Proof.
  intros Hk (A & B & HA & HB & HE & H). exists (A + k), B. repeat split; [lia..|].
  rewrite Z.pow_add_r by lia. nia.
Qed.

Lemma scaled_up P Q p q e k : 0 <= k -> scaled P Q p q e -> scaled P Q p (q * 10 ^ k) (e + k).
Proof.
  intros Hk (A & B & HA & HB & HE & H). exists A, (B + k). repeat split; [lia..|].
  rewrite Z.pow_add_r by lia. nia.
Qed.

Lemma scaled_eq P Q p q e :
  kMinExponent <= e -> scaled P Q p q e -> P * q = Q * (p * 10 ^ (e - kMinExponent)).
Proof.
  intros He (A & B & HA & HB & HE & H). pose proof (pow10_pos A HA).
  replace B with (e - kMinExponent + A) in H by lia. rewrite Z.pow_add_r in H by lia.
  apply (Z.mul_cancel_r _ _ (10 ^ A)); [lia|]. lia.
Qed.

Lemma scaled_ge P Q p q e M :
  0 < q -> 0 < Q -> kMinExponent <= e -> scaled P Q p q e -> M * q <= p -> M * 10 ^ (e - kMinExponent) * Q <= P.
Proof.
  intros Hq HQ He H%scaled_eq HM; [|done]. pose proof (pow10_pos (e - kMinExponent) ltac:(lia)).
  apply (Z.mul_le_mono_pos_r _ _ q); [done|]. rewrite H. set (s := 10 ^ _) in *.
  replace (M * s * Q * q) with (Q * s * (M * q)) by ring. replace (Q * (p * s)) with (Q * s * p) by ring.
  apply Z.mul_le_mono_nonneg_l; nia.
Qed.

Lemma scaled_lt P Q p q e M :
  0 < q -> 0 < Q -> kMinExponent <= e -> scaled P Q p q e -> p < M * q -> P < M * 10 ^ (e - kMinExponent) * Q.
Proof.
  intros Hq HQ He H%scaled_eq HM; [|done]. pose proof (pow10_pos (e - kMinExponent) ltac:(lia)).
  apply (Z.mul_lt_mono_pos_r q); [done|]. rewrite H. set (s := 10 ^ _) in *.
  replace (M * s * Q * q) with (Q * s * (M * q)) by ring. replace (Q * (p * s)) with (Q * s * p) by ring.
  apply Z.mul_lt_mono_pos_l; nia.
Qed.

(** Below the least exponent. *)
Lemma scaled_tiny P Q p q e M :
  0 < q -> 0 < Q -> 0 <= M -> e < kMinExponent -> scaled P Q p q e -> p < M * 10 * q -> P < M * Q.
Proof.
  intros Hq HQ H0 He H HM. apply (scaled_up _ _ _ _ _ (kMinExponent - e)) in H; [|lia].
  replace (e + (kMinExponent - e)) with kMinExponent in H by lia.
  rewrite (pow10_ten (kMinExponent - e)) in H by lia. pose proof (pow10_pos (kMinExponent - e - 1) ltac:(lia)).
  apply (scaled_lt _ _ _ _ _ M) in H; [rewrite Z.sub_diag in H; lia|nia|done|lia|].
  set (t := 10 ^ _) in *. replace (M * (q * (10 * t))) with (M * 10 * q * t) by ring. nia.
Qed.

(** The result depends on the ratio only. *)
Lemma roundedResult_scale mode P Q P' Q' res :
  0 < Q -> 0 < Q' -> P' * Q = P * Q' -> roundedResult mode P Q res -> roundedResult mode P' Q' res.
Proof.
  intros HQ HQ' HE. assert (Z.abs P' * Q = Z.abs P * Q') as HA by nia.
  assert (forall a, a * Q <= P <-> a * Q' <= P') as Hle by (intros; nia).
  assert (forall a, P <= a * Q <-> P' <= a * Q') as Hge by (intros; nia).
  assert (forall a, a * Q <= Z.abs P <-> a * Q' <= Z.abs P') as Hale by (intros; nia).
  assert (forall a, Z.abs (P - a * Q) * Q' = Z.abs (P' - a * Q') * Q) as Hd.
  { intros a. rewrite <-(Z.abs_eq Q'), <-(Z.abs_eq Q), <-!Z.abs_mul by lia. f_equal. rewrite (Z.abs_eq Q), (Z.abs_eq Q') by lia. nia. }
  assert (forall a b, Z.abs (P - a * Q) <= Z.abs (P - b * Q) <-> Z.abs (P' - a * Q') <= Z.abs (P' - b * Q')) as Hdle.
  { intros a b. pose proof (Hd a). pose proof (Hd b). nia. }
  destruct res as [r| |]; cbn [roundedResult]; [|rewrite <-Hale; done|done].
  intros (Hn & Hc & Hu). split; [done|]. split.
  - intros H%Hale. specialize (Hc H). unfold correctlyRounded in *. destruct mode.
    + intros x Hx. destruct (Hc x Hx) as [H1 H2]. split; [by apply Hdle|]. intros H3. apply H2.
      apply Z.le_antisymm; apply Hdle; lia.
    + destruct Hc as (H1 & H2 & H3). split; [by apply Hale|]. split; [nia|]. intros x Hx Hy. apply H3; [done|]. by apply Hale.
    + destruct Hc as (H1 & H3). split; [by apply Hle|]. intros x Hx Hy. apply H3; [done|]. by apply Hle.
    + destruct Hc as (H1 & H3). split; [by apply Hge|]. intros x Hx Hy. apply H3; [done|]. by apply Hge.
  - intros H. apply Hu. nia.
Qed.

(** ** Rounding to an integer *)

Lemma even_sgn n v : Z.even (sgn n * v) = Z.even v.
Proof. destruct n; cbn [sgn]; rewrite ?Z.even_mul; done. Qed.

Lemma roundedInteger_unit mode n m num den :
  0 <= num < den -> 0 <= m ->
  roundedInteger mode (sgn n * (m * den + num)) den
    (sgn n * (if upCls (dirOf mode n) (cls num den) (Z.odd m) then m + 1 else m)).
Proof.
  intros Hn Hm. pose proof (cls_inv num den ltac:(lia)) as Hc. unfold roundedInteger. destruct mode.
  - rewrite even_sgn. set (up := upCls _ _ _).
    replace (2 * (sgn n * (m * den + num) - sgn n * (if up then m + 1 else m) * den))
      with (sgn n * (2 * (num - (if up then den else 0)))) by (destruct up; ring).
    rewrite Z.abs_mul. replace (Z.abs (sgn n)) with 1 by (destruct n; done). unfold up. cbn [dirOf]. destruct (cls num den); cbn [upCls];
      (split; [|intros He]); try lia; destruct (Z.odd m) eqn:Ho;
      rewrite ?Z.even_add, <-?Z.negb_odd, ?Ho; try lia; done.
  - assert (upCls (dirOf TowardsZero n) (cls num den) (Z.odd m) = false) as -> by (destruct n, (cls num den); done).
    rewrite !abs_sgn by nia. destruct n; cbn [sgn]; split; nia.
  - destruct n, (cls num den); cbn [dirOf upCls sgn]; nia.
  - destruct n, (cls num den); cbn [dirOf upCls sgn]; nia.
Qed.

Lemma roundedInteger_scale mode P Q P' Q' v :
  0 < Q -> 0 < Q' -> P' * Q = P * Q' -> roundedInteger mode P Q v -> roundedInteger mode P' Q' v.
Proof.
  intros HQ HQ' HE. assert (Z.abs P' * Q = Z.abs P * Q') as HA by nia.
  assert (Z.abs (2 * (P' - v * Q')) * Q = Z.abs (2 * (P - v * Q)) * Q') as HD.
  { rewrite <-(Z.abs_eq Q') at 2 by lia. rewrite <-(Z.abs_eq Q) at 1 by lia. rewrite <-!Z.abs_mul. f_equal. nia. }
  unfold roundedInteger. destruct mode; intros [H1 H2]; split; try nia. intros H. apply H2. nia.
Qed.

(** ** Dropping digits *)

Lemma gcls_empty g : guardEmpty g = true <-> gcls g = FZero.
Proof. unfold gcls. destruct (guardEmpty g); [done|]. split; [done|]. by repeat case_match. Qed.

Lemma pushCls_zero d c c' : (c = FZero <-> c' = FZero) -> pushCls d c = pushCls d c'.
Proof.
  intros H. unfold pushCls. destruct (_ <? _); [|destruct (_ =? _)]; destruct c, c'; try done; exfalso; intuition congruence.
Qed.

Lemma cls_zero num den : cls num den = FZero <-> num = 0.
Proof. unfold cls. destruct (Z.eqb_spec num 0); [done|]. split; [|done]. by case_match. Qed.

(** The mantissa is the integer part of [p / q], and the guard knows whether anything was
    dropped ([weak]), or how it compares with one half ([strong]). *)
Definition weak (n : bool) (g : Guard) (m p q : Z) : Prop :=
  wfG n g /\ m = p / q /\ (gcls g = FZero <-> p mod q = 0).

Definition strong (n : bool) (g : Guard) (m p q : Z) : Prop :=
  wfG n g /\ m = p / q /\ gcls g = cls (p mod q) q.

Lemma strong_weak n g m p q : strong n g m p q -> weak n g m p q.
Proof. intros (Hg & Hm & Hc). repeat split; [apply Hg..|done| |]; rewrite Hc; apply cls_zero. Qed.

Lemma weak_drop n g m p q :
  0 < q -> weak n g m p q -> strong n (doPush g (m mod 10)) (m / 10) p (q * 10).
Proof.
  intros Hq (Hg & Hm & Hc). pose proof (Z.mod_pos_bound m 10 ltac:(lia)). split; [by apply wfG_push|].
  split; [rewrite Hm; apply Z.div_div; lia|]. rewrite gcls_push by (done || apply Hg).
  rewrite Z.rem_mul_r by lia. rewrite <-Hm. replace (p mod q + q * (m mod 10)) with ((m mod 10) * q + p mod q) by lia.
  replace (q * 10) with (10 * q) by lia. pose proof (Z.mod_pos_bound p q Hq).
  rewrite cls_push by lia. apply pushCls_zero. by rewrite Hc, cls_zero.
Qed.

Lemma pow10_succ_r q k : 0 <= k -> q * 10 ^ k * 10 = q * 10 ^ (k + 1).
Proof. intros. rewrite Z.pow_add_r by lia. lia. Qed.

Lemma topScale_pos : 0 < topScale.
Proof. apply Z.pow_pos_nonneg; [lia|]. unfold kMaxExponent, kMinExponent. lia. Qed.

Section Norm.
Context (mode : RoundingMode) (n : bool) (P Q : Z).
Hypothesis HQ : 0 < Q.

Abbreviation result := (roundedResult mode (sgn n * P) Q).

Lemma rounded_end w g m e p q :
  0 < q -> 0 <= P -> scaled P Q p q e -> strong n g m p q ->
  kMinExponent <= e -> 922337203685477581 <= m <= kMaxRepUp -> 10 ^ 18 <= m \/ kMinExponent < e ->
  result (doRoundUp mode 2 w g (mkNumber n m e)).
Proof.
  intros Hq HP Hs (Hg & Hm & Hc) He Hr Hlow. pose proof (Z.mod_pos_bound p q Hq).
  assert (m * q + p mod q = p) as Ep by (pose proof (Z.div_mod p q); lia).
  pose proof (core_result mode n w g (p mod q) q Hg H Hc e m He Hr Hlow) as HR. rewrite Ep in HR.
  eapply roundedResult_scale; [| |  |exact HR]; [done|done|]. apply scaled_eq in Hs; [|done].
  destruct n; cbn [sgn]; nia.
Qed.

Lemma rounded_zero : 0 <= P < 10 ^ 18 * Q -> result (Ok kZero).
Proof. intros HP. unfold roundedResult. rewrite abs_sgn by lia. split; [reflexivity|]. split; [lia|done]. Qed.

Lemma rounded_overflow p q e :
  0 < q -> scaled P Q p q e -> kMaxExponent <= e -> kMaxRepUp * q <= p -> result (Overflow).
Proof.
  intros Hq Hs He Hp. unfold roundedResult. pose proof topScale_pos.
  pose proof (scaled_ge P Q p q e kMaxRepUp Hq HQ ltac:(unfold kMinExponent, kMaxExponent in *; lia) Hs Hp) as H1.
  assert (kMaxRepUp * topScale * Q <= kMaxRepUp * 10 ^ (e - kMinExponent) * Q) as H2.
  { apply Z.mul_le_mono_nonneg_r; [lia|]. apply Z.mul_le_mono_nonneg_l; [rewrite kMaxRepUp_eq; lia|].
    unfold topScale. apply Z.pow_le_mono_r; lia. }
  rewrite abs_sgn; [lia|]. rewrite kMaxRepUp_eq in *. nia.
Qed.

Lemma shrinkLoop_S f w g m e :
  shrinkLoop (S f) w g m e =
    if maxMantissa g <? m then
      if kMaxExponent <=? e then Overflow
      else let '(g, m, e) := doDropDigit w g m e in shrinkLoop f w g m e
    else Ok (g, m, e).
Proof. reflexivity. Qed.

Lemma growLoop_S f w minM m e :
  growLoop (S f) w minM m e =
    if (m <? minM) && (kMinExponent <? e) then growLoop f w minM (wrapW w (m * 10)) (e - 1) else Ok (m, e).
Proof. reflexivity. Qed.

(** The shrinking loop keeps the integer part and knows what it dropped. *)
Lemma shrinkLoop_spec w f : forall g m e p q,
  0 < q -> 0 <= m -> weak n g m p q -> fits w m -> m < 10 ^ (19 + Z.of_nat f) -> scaled P Q p q e ->
  match shrinkLoop (S f) w g m e with
  | Ok (g', m', e') =>
    exists q', 0 < q' /\ scaled P Q p q' e' /\ m' < 10 ^ 19 /\ fits w m' /\
      (m < 10 ^ 19 -> g' = g /\ m' = m /\ e' = e /\ q' = q) /\ (10 ^ 19 <= m -> strong n g' m' p q' /\ 10 ^ 18 <= m')
  | Overflow => result Overflow
  | OutOfFuel => False
  end.
Proof.
  induction f as [|f IH]; intros g m e p q Hq H0 Hw Hfit Hm Hs; pose proof Hw as ((_ & _ & _ & Hmax & _) & Hm' & _);
    rewrite shrinkLoop_S, Hmax; destruct (Z.ltb_spec (10 ^ 19 - 1) m) as [Hgt|Hle].
  2,4: exists q; split_and!; try done; try lia; intros; exfalso; lia.
  - rewrite Z.add_0_r in Hm. lia.
  - destruct (Z.leb_spec kMaxExponent e).
    { eapply rounded_overflow; [exact Hq|exact Hs|done|]. rewrite kMaxRepUp_eq. pose proof (Z.mul_div_le p q Hq). nia. }
    rewrite doDropDigit_spec by done. pose proof (weak_drop _ _ _ _ _ Hq Hw) as Hw'.
    assert (m / 10 < 10 ^ (19 + Z.of_nat f)) as Hlt.
    { apply Z.div_lt_upper_bound; [lia|]. rewrite <-Z.pow_succ_r by lia. by replace (Z.succ _) with (19 + Z.of_nat (S f)) by lia. }
    assert (10 ^ 18 <= m / 10) by (apply Z.div_le_lower_bound; lia).
    pose proof (IH _ (m / 10) (e + 1) p (q * 10) ltac:(lia) ltac:(lia) (strong_weak _ _ _ _ _ Hw') (fits_div _ _ Hfit) Hlt
      (scaled_up _ _ _ _ _ 1 ltac:(lia) Hs)) as HI.
    set (r := shrinkLoop _ _ _ _ _) in *. clearbody r. destruct r as [[[g' m''] e']| |]; [|done|done].
    destruct HI as (q' & ? & ? & ? & ? & Hle & Hge). exists q'. split_and!; try done; try lia. intros _. split.
    + destruct (Z.lt_ge_cases (m / 10) (10 ^ 19)) as [Hc|Hc]; [destruct (Hle Hc) as (-> & -> & _ & ->); exact Hw'|by apply Hge].
    + destruct (Z.lt_ge_cases (m / 10) (10 ^ 19)) as [Hc|Hc]; [destruct (Hle Hc) as (_ & -> & _); done|by apply Hge].
Qed.

Lemma growLoop_spec w f : forall m e,
  0 < m -> fits w m -> 10 ^ 18 <= m * 10 ^ Z.of_nat f ->
  exists k, growLoop (S f) w (10 ^ 18) m e = Ok (m * 10 ^ k, e - k) /\ 0 <= k /\ fits w (m * 10 ^ k) /\
    (0 < k -> m * 10 ^ k < 10 ^ 19) /\ (10 ^ 18 <= m * 10 ^ k \/ e - k <= kMinExponent).
Proof.
  assert (forall m e, fits w m -> 10 ^ 18 <= m \/ e <= kMinExponent ->
    exists k, @Ok (Z * Z) (m, e) = Ok (m * 10 ^ k, e - k) /\ 0 <= k /\ fits w (m * 10 ^ k) /\
      (0 < k -> m * 10 ^ k < 10 ^ 19) /\ (10 ^ 18 <= m * 10 ^ k \/ e - k <= kMinExponent)) as Hstop.
  { intros m e Hfit Hm. exists 0. rewrite Z.pow_0_r, Z.mul_1_r, Z.sub_0_r. split_and!; [done|lia|done|lia|done]. }
  induction f as [|f IH]; intros m e Hm Hfit Hf; rewrite growLoop_S;
    (destruct (Z.ltb_spec m (10 ^ 18)) as [Hlt|]; [|apply Hstop; [done|lia]]).
  - change (10 ^ Z.of_nat 0) with 1 in Hf. lia.
  - destruct (Z.ltb_spec kMinExponent e); [|apply Hstop; [done|lia]].
    cbn [andb]. rewrite wrapW_id by lia.
    destruct (IH (m * 10) (e - 1)) as (k & -> & Hk & Hkf & Hk1 & Hk2); [lia|destruct w; unfold fits; lia| |].
    { replace (Z.of_nat (S f)) with (Z.succ (Z.of_nat f)) in Hf by lia. rewrite Z.pow_succ_r in Hf by lia. lia. }
    assert (m * 10 ^ (k + 1) = m * 10 * 10 ^ k) as E by (rewrite Z.pow_add_r by lia; lia).
    exists (k + 1). rewrite E. replace (e - 1 - k) with (e - (k + 1)) in * by lia. split_and!; [done|lia|done| |done].
    intros _. destruct (Z.eq_dec k 0) as [-> |]; [|apply Hk1; lia]. lia.
Qed.

Lemma nbind_ok {A B} (x : NumResult A) (a : A) (k : A -> NumResult B) : x = Ok a -> nbind x k = k a.
Proof. intros ->. done. Qed.

(** The guard [doNormalize] starts with. *)
Definition startGuard (dropped : bool) : Guard :=
  let g := newGuard (10 ^ 18) (10 ^ 19 - 1) Enabled330 in
  let g := if n then setNegative g else g in
  if dropped then setDropped g else g.

Lemma startGuard_wf dropped : wfG n (startGuard dropped) /\ gcls (startGuard dropped) = if dropped then FLow else FZero.
Proof. unfold wfG, wfDigits, startGuard. destruct n, dropped; (split; [split_and!; first [reflexivity|cbn; lia]|reflexivity]). Qed.

(** After the loops: underflow, overflow or rounding. *)
Lemma normalize_end w g m e p q :
  0 < q -> 0 <= P -> scaled P Q p q e -> m < 10 ^ 19 -> fits w m ->
  (10 ^ 18 <= m \/ e <= kMinExponent) -> strong n g m p q ->
  result (if (e <? kMinExponent) || (m <? 10 ^ 18) then Ok kZero
          else if repLimit Enabled330 <? m then
            if kMaxExponent <=? e then Overflow
            else let '(g, m, e) := doDropDigit w g m e in doRoundUp mode 2 w g (mkNumber n m e)
          else doRoundUp mode 2 w g (mkNumber n m e)).
Proof.
  intros Hq HP Hs Hm Hfit Hlow Hst. pose proof Hst as (Hg & Hmp & _). change (repLimit Enabled330) with kMaxRepUp.
  assert (p < (m + 1) * q /\ m * q <= p) as [Hp1 Hp2]
    by (pose proof (Z.mul_div_le p q Hq); pose proof (Z.mul_succ_div_gt p q Hq); nia).
  destruct (Z.ltb_spec e kMinExponent) as [He|He].
  { apply rounded_zero. split; [done|]. eapply (scaled_tiny P Q p q e); [done|done|lia|done|done|nia]. }
  destruct (Z.ltb_spec m (10 ^ 18)) as [Hm18|Hm18].
  { apply rounded_zero. split; [done|]. assert (e = kMinExponent) as -> by lia.
    pose proof (scaled_lt P Q p q kMinExponent (m + 1) Hq HQ ltac:(lia) Hs Hp1) as Hlt. rewrite Z.sub_diag, Z.pow_0_r, Z.mul_1_r in Hlt. nia. }
  cbn [orb]. destruct (Z.ltb_spec kMaxRepUp m) as [Hgt|Hle].
  - destruct (Z.leb_spec kMaxExponent e).
    { eapply rounded_overflow; [exact Hq|exact Hs|done|]. rewrite kMaxRepUp_eq in *. nia. }
    rewrite doDropDigit_spec by done. eapply (rounded_end _ _ _ _ p (q * 10)).
    + lia.
    + done.
    + apply (scaled_up _ _ _ _ _ 1); [lia|done].
    + by apply weak_drop, strong_weak.
    + lia.
    + rewrite kMaxRepUp_eq in *. split; [apply Z.div_le_lower_bound; lia|apply Z.div_le_upper_bound; lia].
    + lia.
  - eapply rounded_end; [exact Hq|done|exact Hs|exact Hst|done|lia|lia].
Qed.

(** [doNormalize] of a value whose integer part is the mantissa.  A dropped remainder either
    is followed by dropped digits or is small. *)
Lemma doNormalize_result w m e dropped p q :
  0 < q -> 0 <= P -> 0 < m -> fits w m -> m = p / q -> scaled P Q p q e ->
  (dropped = true <-> p mod q <> 0) ->
  (dropped = true -> 10 ^ 19 <= m \/ (10 ^ 16 <= m /\ p mod q * 10 ^ 5 < q)) ->
  result (doNormalize mode w (mkNumber n m e) (10 ^ 18) (10 ^ 19 - 1) Enabled330 dropped).
Proof.
  intros Hq HP Hm Hfit Hmp Hs Hdrop Hsmall. unfold doNormalize. destruct (Z.eqb_spec m 0); [lia|].
  destruct (growLoop_spec w 63 m e Hm Hfit) as (k & Ek & Hk & Hkf & Hk1 & Hk2); [change (10 ^ Z.of_nat 63) with (10 ^ 63); lia|].
  change loopFuel with 64%nat. rewrite (nbind_ok _ _ _ Ek). cbv beta iota. fold (startGuard dropped).
  destruct (startGuard_wf dropped) as [Hg Hc]. pose proof (Z.mod_pos_bound p q Hq) as Hr. pose proof (Z.div_mod p q ltac:(lia)) as Hdm.
  pose proof (pow10_pos k Hk) as Hkp.
  assert (if dropped then 0 < p mod q else p mod q = 0) as Hz.
  { destruct dropped; [pose proof (proj1 Hdrop eq_refl); lia|]. destruct (Z.eq_dec (p mod q) 0) as [|Hne]; [done|].
    discriminate (proj2 Hdrop Hne). }
  clear Hdrop.
  assert (p mod q * 10 ^ k < q /\ (m * 10 ^ k < 10 ^ 19 -> 2 * (p mod q * 10 ^ k) < q)) as [Hr1 Hr2].
  { destruct dropped; [|rewrite Hz; lia].
    destruct (Hsmall eq_refl) as [Hbig|[Hbig Ht]].
    - assert (k = 0) as -> by (destruct (Z.eq_dec k 0); [done|]; specialize (Hk1 ltac:(lia)); nia). rewrite Z.pow_0_r. nia.
    - destruct (Z.eq_dec k 0) as [-> |]; [rewrite Z.pow_0_r; nia|]. specialize (Hk1 ltac:(lia)).
      assert (10 ^ k < 10 ^ 3) by nia. nia. }
  assert (p * 10 ^ k = q * (m * 10 ^ k) + p mod q * 10 ^ k) as Hpk by nia.
  assert (m * 10 ^ k = p * 10 ^ k / q) as Hdiv by (apply (Z.div_unique_pos _ _ _ (p mod q * 10 ^ k)); nia).
  assert (p * 10 ^ k mod q = p mod q * 10 ^ k) as Hmod by (symmetry; apply (Z.mod_unique_pos _ _ (m * 10 ^ k)); nia).
  assert (weak n (startGuard dropped) (m * 10 ^ k) (p * 10 ^ k) q) as Hw.
  { split; [done|]. split; [done|]. rewrite Hmod, Hc. destruct dropped; [|rewrite Hz; done]. split; [done|nia]. }
  assert (m * 10 ^ k < 10 ^ 19 -> strong n (startGuard dropped) (m * 10 ^ k) (p * 10 ^ k) q) as Hst.
  { intros Hlt. split; [done|]. split; [done|]. rewrite Hmod, Hc. symmetry. specialize (Hr2 Hlt).
    apply cls_is; [nia|]. destruct dropped; [nia|]. rewrite Hz. lia. }
  pose proof (scaled_down _ _ _ _ _ k Hk Hs) as Hs'.
  pose proof (shrinkLoop_spec w 63 (startGuard dropped) (m * 10 ^ k) (e - k) (p * 10 ^ k) q Hq ltac:(nia) Hw Hkf) as HL.
  change (19 + Z.of_nat 63) with 82 in HL. specialize (HL ltac:(destruct w; unfold fits in Hkf; lia) Hs').
  destruct (shrinkLoop 64 w (startGuard dropped) (m * 10 ^ k) (e - k)) as [[[g' m'] e']| |]; cbn [nbind]; [|done|done].
  destruct HL as (q' & Hq' & Hs2 & Hm' & Hfit' & Hsame & Hbig).
  eapply normalize_end; [exact Hq'|done|exact Hs2|done|done| |].
  - destruct (Z.lt_ge_cases (m * 10 ^ k) (10 ^ 19)) as [Hlt|Hge]; [|left; by apply Hbig].
    destruct (Hsame Hlt) as (_ & -> & -> & _). lia.
  - destruct (Z.lt_ge_cases (m * 10 ^ k) (10 ^ 19)) as [Hlt|Hge]; [|by apply Hbig].
    destruct (Hsame Hlt) as (-> & -> & -> & ->). by apply Hst.
Qed.
End Norm.

(** ** The operations round correctly

    Multiplication, division, addition, subtraction, construction from a mantissa and an
    exponent, and conversion to an integer. *)

(** The unit of [svalue]. *)
Definition unitScale : Z := 10 ^ (- kMinExponent).

Lemma unitScale_pos : 0 < unitScale.
Proof. apply Z.pow_pos_nonneg; [lia|]. unfold kMinExponent. lia. Qed.

Lemma topScale_eq : 10 ^ (kMaxExponent - kMinExponent) = topScale.
Proof. unfold topScale. reflexivity. Qed.

Lemma unitScale_eq : 10 ^ (- kMinExponent) = unitScale.
Proof. unfold unitScale. reflexivity. Qed.

Lemma normal_zero : normal kZero.
Proof. reflexivity. Qed.

(** A result above a representable number was above it before rounding. *)
Lemma rounded_above mode P Q r m e :
  0 < Q -> correctlyRounded mode P Q r -> gridMant m -> kMinExponent <= e <= kMaxExponent ->
  m * 10 ^ (e - kMinExponent) < Z.abs (svalue r) -> m * 10 ^ (e - kMinExponent) * Q <= Z.abs P.
Proof.
  intros HQ Hr Hm He Hlt.
  pose proof (normal_intro false m e Hm He) as Hp. pose proof (normal_intro true m e Hm He) as Hn.
  set (U := m * 10 ^ (e - kMinExponent)) in *.
  assert (svalue (mkNumber false m e) = U) as Ep by (unfold svalue, magnitude; cbn [sgn negative_ mantissa_ exponent_]; fold U; lia).
  assert (svalue (mkNumber true m e) = - U) as En by (unfold svalue, magnitude; cbn [sgn negative_ mantissa_ exponent_]; fold U; lia).
  destruct (Z.le_gt_cases (U * Q) (Z.abs P)) as [|Hc]; [done|exfalso].
  assert (U < svalue r /\ U * Q < svalue r * Q \/ svalue r < - U /\ svalue r * Q < - U * Q) as Hs by nia.
  unfold correctlyRounded in Hr. destruct mode.
  - destruct Hs as [[? ?]|[? ?]]; [destruct (Hr _ Hp) as [H1 _]; rewrite Ep in H1|destruct (Hr _ Hn) as [H1 _]; rewrite En in H1]; lia.
  - destruct Hr as (H1 & _). nia.
  - destruct Hr as (H1 & H2). specialize (H2 _ Hn). rewrite En in H2. lia.
  - destruct Hr as (H1 & H2). specialize (H2 _ Hp). rewrite Ep in H2. lia.
Qed.

(** Normalising a representable number. *)
Lemma renormalize mode w x :
  normal x -> (mantissa_ x <= kMaxRepUp \/ exponent_ x < kMaxExponent) ->
  doNormalize mode w x (10 ^ 18) (10 ^ 19 - 1) Enabled330 false = Ok x.
Proof.
  intros [-> | [[Hm Hc] He]]%normal_cases Hlim; [reflexivity|]. destruct x as [n m e]. cbn [mantissa_ exponent_] in *.
  unfold doNormalize. destruct (Z.eqb_spec m 0); [lia|].
  change loopFuel with 64%nat. rewrite growLoop_S. destruct (Z.ltb_spec m (10 ^ 18)); [lia|]. cbn [andb nbind].
  fold (startGuard n false). destruct (startGuard_wf n false) as [Hg Hcl]. pose proof Hg as (_ & _ & _ & Hmax & _).
  rewrite shrinkLoop_S, Hmax. destruct (Z.ltb_spec (10 ^ 19 - 1) m); [lia|]. cbn [nbind].
  destruct (Z.ltb_spec e kMinExponent); [lia|]. destruct (Z.ltb_spec m (10 ^ 18)); [lia|]. cbn [orb].
  change (repLimit Enabled330) with kMaxRepUp.
  assert (forall m', endRound n m' e = Ok (mkNumber n m' e)) as Hend
    by (intros; unfold endRound; destruct (Z.ltb_spec e kMinExponent); [lia|]; destruct (Z.ltb_spec kMaxExponent e); [lia|done]).
  destruct (Z.ltb_spec kMaxRepUp m) as [Hgt|Hle].
  - destruct (Z.leb_spec kMaxExponent e); [lia|].
    rewrite doDropDigit_spec by (destruct w; unfold fits; lia).
    assert (m mod 10 = 0) as Hz by (destruct Hc; [rewrite kMaxRepUp_eq in Hgt; unfold kMaxRep in *; lia|done]).
    pose proof (Z.div_mod m 10 ltac:(lia)) as Hdm. rewrite Hz in *.
    rewrite doRoundUp_below; [|apply wfG_push; [done|lia]|rewrite kMaxRepUp_eq in *; unfold kMaxRep; lia].
    rewrite gcls_push, Hcl by (apply Hg || lia). cbn [upCls pushCls Z.ltb Z.compare Z.eqb].
    rewrite finishRound_small; [|apply wfG_push; [done|lia]|rewrite kMaxRepUp_eq in *; lia].
    replace (e + 1 - 1) with e by lia. replace (m / 10 * 10) with m by lia. exact (Hend m).
  - destruct (Z.eq_dec m kMaxRepUp) as [-> |].
    { rewrite doRoundUp_limit by done. rewrite Hcl. apply Hend. }
    destruct (Z.le_gt_cases kMaxRep m) as [Hge|Hlt].
    + assert (m = kMaxRep) as ->.
      { destruct (cusp_cases m ltac:(lia)) as [-> | [-> | ->]]; [done|exfalso..]; destruct Hc as [Hc|Hc]; unfold kMaxRep in Hc; (lia || done). }
      rewrite doRoundUp_cusp by (done || lia). rewrite Hcl. unfold upCusp. rewrite Z.eqb_refl.
      change (kMaxRep =? kMaxRep + 2) with false. change (kMaxRep =? kMaxRep + 1) with false. cbn [andb orb negb].
      destruct (dirOf mode n); apply Hend.
    + rewrite doRoundUp_below by (done || lia). rewrite Hcl. cbn [upCls]. rewrite finishRound_big by (done || lia). apply Hend.
Qed.

Lemma renormalize_over mode w x :
  kMaxRepUp < mantissa_ x < 10 ^ 19 -> kMaxExponent <= exponent_ x ->
  doNormalize mode w x (10 ^ 18) (10 ^ 19 - 1) Enabled330 false = Overflow.
Proof.
  intros Hm He. destruct x as [n m e]. cbn [mantissa_ exponent_] in *. rewrite kMaxRepUp_eq in Hm.
  unfold doNormalize. destruct (Z.eqb_spec m 0); [lia|].
  change loopFuel with 64%nat. rewrite growLoop_S. destruct (Z.ltb_spec m (10 ^ 18)); [lia|]. cbn [andb nbind].
  fold (startGuard n false). destruct (startGuard_wf n false) as [(_ & _ & _ & Hmax & _) _].
  rewrite shrinkLoop_S, Hmax. destruct (Z.ltb_spec (10 ^ 19 - 1) m); [lia|]. cbn [nbind].
  unfold kMaxExponent in He. destruct (Z.ltb_spec e kMinExponent); [unfold kMinExponent in *; lia|].
  destruct (Z.ltb_spec m (10 ^ 18)); [lia|]. cbn [orb].
  change (repLimit Enabled330) with 9223372036854775810. destruct (Z.ltb_spec 9223372036854775810 m); [|lia].
  unfold kMaxExponent. destruct (Z.leb_spec 32768 e); [done|lia].
Qed.

Section Mul.
Context (mode : RoundingMode) (n : bool) (P Q : Z).
Hypothesis HQ : 0 < Q.

Lemma mulLoop_spec f : forall g m e p q,
  0 < q -> 0 <= m -> weak n g m p q -> fits W128 m -> m < 10 ^ (18 + Z.of_nat f) -> scaled P Q p q e ->
  exists g' m' e' q', mulLoop (S f) g m e = Ok (g', m', e') /\ 0 < q' /\ scaled P Q p q' e' /\ m' <= kMaxRepUp /\
    (m <= kMaxRepUp -> g' = g /\ m' = m /\ e' = e /\ q' = q) /\
    (kMaxRepUp < m -> strong n g' m' p q' /\ 922337203685477581 <= m').
Proof.
  induction f as [|f IH]; intros g m e p q Hq H0 Hw Hfit Hm Hs; pose proof Hw as ((_ & _ & _ & Hmax & Hfix) & Hm' & _);
    unfold mulLoop; fold mulLoop; rewrite Hmax, Hfix; change (repLimit Enabled330) with kMaxRepUp;
    (replace ((10 ^ 19 - 1 <? m) || (kMaxRepUp <? m)) with (kMaxRepUp <? m)
      by (rewrite kMaxRepUp_eq; destruct (Z.ltb_spec (10 ^ 19 - 1) m), (Z.ltb_spec 9223372036854775810 m); try done; lia));
    destruct (Z.ltb_spec kMaxRepUp m) as [Hgt|Hle].
  2,4: exists g, m, e, q; split_and!; [reflexivity|exact Hq|exact Hs|exact Hle|intros _; split_and!; reflexivity|intros; exfalso; lia].
  - rewrite Z.add_0_r, kMaxRepUp_eq in *. lia.
  - rewrite doDropDigit_spec by done. pose proof (weak_drop _ _ _ _ _ Hq Hw) as Hw'.
    assert (m / 10 < 10 ^ (18 + Z.of_nat f)) as Hlt.
    { apply Z.div_lt_upper_bound; [lia|]. rewrite <-Z.pow_succ_r by lia. by replace (Z.succ _) with (18 + Z.of_nat (S f)) by lia. }
    assert (922337203685477581 <= m / 10) by (rewrite kMaxRepUp_eq in *; apply Z.div_le_lower_bound; lia).
    destruct (IH _ (m / 10) (e + 1) p (q * 10) ltac:(lia) ltac:(lia) (strong_weak _ _ _ _ _ Hw') (fits_div _ _ Hfit) Hlt
      (scaled_up _ _ _ _ _ 1 ltac:(lia) Hs)) as (g' & m'' & e' & q' & Heq & Hq' & Hs' & Hm'' & Hsame & Hbig).
    exists g', m'', e', q'. split_and!; [exact Heq|exact Hq'|exact Hs'|exact Hm''|intros; exfalso; lia|]. intros _. split.
    + destruct (Z.le_gt_cases (m / 10) kMaxRepUp) as [Hc|Hc]; [destruct (Hsame Hc) as (-> & -> & _ & ->); exact Hw'|by apply Hbig].
    + destruct (Z.le_gt_cases (m / 10) kMaxRepUp) as [Hc|Hc]; [destruct (Hsame Hc) as (_ & -> & _); done|by apply Hbig].
Qed.

(** Far below the range the rounding gives zero. *)
Lemma doRoundUp_tiny w g m e :
  wfG n g -> 922337203685477581 <= m <= kMaxRepUp -> e < kMinExponent ->
  doRoundUp mode 2 w g (mkNumber n m e) = Ok kZero.
Proof.
  intros Hg Hm He. assert (forall m', endRound n m' e = Ok kZero) as Hend
    by (intros; unfold endRound; destruct (Z.ltb_spec e kMinExponent); [done|lia]).
  destruct (Z.eq_dec m kMaxRepUp) as [-> |]; [by rewrite doRoundUp_limit, Hend|].
  destruct (Z.le_gt_cases kMaxRep m); [rewrite doRoundUp_cusp by (done || lia); by rewrite Hend|].
  rewrite doRoundUp_below by (done || lia). set (m0 := if upCls _ _ _ then _ else _).
  assert (m0 = m \/ m0 = m + 1) as Hm0 by (unfold m0; destruct (upCls _ _ _); auto).
  destruct (Z.le_gt_cases (10 ^ 18) m0); [rewrite finishRound_big by done; apply Hend|].
  rewrite finishRound_small by (done || lia). destruct (Z.ltb_spec (e - 1) kMinExponent); [done|lia].
Qed.

(** A value below the range, rounded to a whole number of units. *)
Lemma product_small r m num den :
  0 <= num < den -> 0 <= m -> P * den = Q * (m * den + num) -> m < 10 ^ 18 -> normal r ->
  (let m0 := if upCls (dirOf mode n) (cls num den) (Z.odd m) then m + 1 else m in
   svalue r = if m0 =? 10 ^ 18 then sgn n * m0 else 0) ->
  roundedProduct mode (sgn n * P) Q (Ok r).
Proof.
  intros Hn Hm HP Hlt Hr Hv. cbn [roundedProduct].
  assert (m * den + num < 10 ^ 18 * den) by nia.
  assert (0 <= P < 10 ^ 18 * Q) by (split;
    [apply (Z.mul_le_mono_pos_r 0 P den); [lia|rewrite HP; apply Z.mul_nonneg_nonneg; nia]|apply (Z.mul_lt_mono_pos_r den); [lia|]; rewrite HP;
     replace (10 ^ 18 * Q * den) with (Q * (10 ^ 18 * den)) by ring; by apply Z.mul_lt_mono_pos_l]).
  rewrite abs_sgn by lia. split; [done|]. split; [lia|]. intros _.
  pose proof (roundedInteger_unit mode n m num den Hn Hm) as Hi. set (m0 := if upCls _ _ _ then _ else _) in *.
  assert (0 <= m0) by (unfold m0; destruct (upCls _ _ _); lia).
  exists (sgn n * m0). split.
  - apply (roundedInteger_scale mode (sgn n * (m * den + num)) den); [lia|done|destruct n; cbn [sgn]; nia|done].
  - cbv zeta in Hv. rewrite Hv, abs_sgn by done. done.
Qed.

Lemma product_big r :
  10 ^ 18 * Q <= P -> roundedResult mode (sgn n * P) Q r -> roundedProduct mode (sgn n * P) Q r.
Proof.
  intros HP. assert (0 <= P) by lia. destruct r as [r| |]; cbn [roundedResult roundedProduct]; [|done|done].
  rewrite abs_sgn by done. intros (H1 & H2 & _). split; [done|]. split; [done|lia].
Qed.

(** One place below the range. *)
Lemma doRoundUp_edge w g m num den :
  wfG n g -> 0 <= num < den -> gcls g = cls num den -> 922337203685477581 <= m < 10 ^ 18 ->
  let m0 := if upCls (dirOf mode n) (cls num den) (Z.odd m) then m + 1 else m in
  doRoundUp mode 2 w g (mkNumber n m kMinExponent) =
    Ok (if m0 =? 10 ^ 18 then mkNumber n (10 ^ 18) kMinExponent else kZero).
Proof.
  intros Hg Hn Hc Hm m0. rewrite doRoundUp_below by (done || unfold kMaxRep; lia). rewrite Hc. fold m0.
  assert (m0 = m \/ m0 = m + 1) as Hm0 by (unfold m0; destruct (upCls _ _ _); auto).
  destruct (Z.eqb_spec m0 (10 ^ 18)) as [-> |].
  - rewrite finishRound_big by (done || lia). unfold endRound. by rewrite Z.ltb_irrefl.
  - rewrite finishRound_small by (done || lia). by destruct (Z.ltb_spec (kMinExponent - 1) kMinExponent); [|lia].
Qed.

Lemma renormalize_rounded g m e p q :
  0 < q -> 0 <= P -> scaled P Q p q e -> strong n g m p q -> 922337203685477581 <= m <= kMaxRepUp ->
  kMinExponent <= e -> 10 ^ 18 <= m \/ kMinExponent < e ->
  roundedResult mode (sgn n * P) Q
    (let! z := doRoundUp mode 2 W64 g (mkNumber n m e) in
     doNormalize mode W64 z (10 ^ 18) (10 ^ 19 - 1) Enabled330 false).
Proof.
  intros Hq HP Hs Hst Hm He Hlow.
  pose proof (rounded_end mode n P Q HQ W64 g m e p q Hq HP Hs Hst He Hm Hlow) as HR.
  destruct (doRoundUp mode 2 W64 g (mkNumber n m e)) as [z| |]; cbn [nbind]; [|done|done].
  pose proof HR as (Hz & HR1 & HR2).
  assert ((mantissa_ z <= kMaxRepUp \/ exponent_ z < kMaxExponent) \/ (kMaxRepUp < mantissa_ z /\ kMaxExponent <= exponent_ z)) as [Hc|[Hc1 Hc2]] by lia.
  { by rewrite renormalize. }
  apply normal_cases in Hz as [-> | [[Hzm _] Hze]]; [exfalso; rewrite kMaxRepUp_eq in Hc1; cbn in Hc1; lia|].
  rewrite renormalize_over by lia. assert (exponent_ z = kMaxExponent) as Ee by lia.
  assert (kMaxRepUp * topScale < Z.abs (svalue z)) as Habs.
  { unfold svalue, magnitude. rewrite Ee, topScale_eq. pose proof topScale_pos. rewrite abs_sgn by nia. nia. }
  cbn [roundedResult]. destruct (Z.le_gt_cases (10 ^ 18 * Q) (Z.abs (sgn n * P))) as [Hbig|Hsmall].
  - rewrite <-topScale_eq in *. apply (rounded_above mode _ _ z kMaxRepUp kMaxExponent); [done|by apply HR1| |split; [|lia]|exact Habs].
    2: { unfold kMinExponent, kMaxExponent. lia. }
    unfold gridMant. rewrite kMaxRepUp_eq. split; [lia|by right].
  - exfalso. pose proof topScale_pos. rewrite kMaxRepUp_eq in Habs. rewrite (HR2 Hsmall), svalue_zero in Habs. lia.
Qed.

(** Rounding and normalising again. *)
Lemma round_renormalize g m e p q :
  0 < q -> 0 <= P -> scaled P Q p q e -> strong n g m p q -> 922337203685477581 <= m <= kMaxRepUp ->
  roundedProduct mode (sgn n * P) Q
    (let! z := doRoundUp mode 2 W64 g (mkNumber n m e) in
     doNormalize mode W64 z (10 ^ 18) (10 ^ 19 - 1) Enabled330 false).
Proof.
  intros Hq HP Hs Hst Hm. pose proof Hst as (Hg & Hmp & Hc). pose proof (Z.mod_pos_bound p q Hq) as Hr.
  assert (Ep : m * q + p mod q = p) by (pose proof (Z.div_mod p q); lia).
  destruct (Z.lt_ge_cases e kMinExponent) as [He|He].
  { rewrite doRoundUp_tiny by done. cbn [nbind]. rewrite renormalize by (done || left; done).
    pose proof (Z.mod_pos_bound P Q HQ). pose proof (Z.div_mod P Q ltac:(lia)).
    assert (P < 922337203685477582 * Q).
    { eapply (scaled_tiny P Q p q e); [exact Hq|done|lia|exact He|exact Hs|].
      rewrite kMaxRepUp_eq in Hm. assert (p < (m + 1) * q) by lia.
      apply (Z.lt_le_trans _ ((m + 1) * q)); [done|]. apply Z.mul_le_mono_nonneg_r; lia. }
    assert (0 <= P / Q < 922337203685477582) by (split; [apply Z.div_pos; lia|apply Z.div_lt_upper_bound; lia]).
    apply (product_small kZero (P / Q) (P mod Q) Q); [done|lia|nia|lia|done|].
    cbv zeta. set (m0 := if upCls _ _ _ then _ else _).
    assert (m0 < 10 ^ 18) by (unfold m0; destruct (upCls _ _ _); lia).
    by destruct (Z.eqb_spec m0 (10 ^ 18)); [lia|]. }
  destruct (Z.eq_dec e kMinExponent) as [-> |Hne]; [destruct (Z.lt_ge_cases m (10 ^ 18)) as [Hlt|Hge]|].
  { rewrite (doRoundUp_edge W64 g m (p mod q) q) by (done || lia). cbn [nbind].
    set (m0 := if upCls _ _ _ then _ else _).
    assert (Hz : normal (if m0 =? 10 ^ 18 then mkNumber n (10 ^ 18) kMinExponent else kZero)).
    { destruct (_ =? _); [|done]. apply normal_intro; [unfold gridMant, kMaxRep; lia|done]. }
    rewrite renormalize; [|done|destruct (_ =? _); left; rewrite kMaxRepUp_eq; cbn; lia].
    apply scaled_eq in Hs; [|done]. rewrite Z.sub_diag, Z.pow_0_r, Z.mul_1_r in Hs.
    apply (product_small _ m (p mod q) q); [done|lia|by rewrite Ep|done|done|]. fold m0.
    clearbody m0. cbv zeta. destruct (Z.eqb_spec m0 (10 ^ 18)) as [E|]; [|done].
    rewrite E. unfold svalue, magnitude. cbn [negative_ mantissa_ exponent_]. by rewrite Z.sub_diag, Z.pow_0_r, Z.mul_1_r. }
  all: apply product_big.
  - pose proof (scaled_ge P Q p q _ m Hq HQ He Hs ltac:(lia)) as Hbig. revert Hbig. rewrite Z.sub_diag, Z.pow_0_r. nia.
  - apply (renormalize_rounded g m kMinExponent p q); try done. by left.
  - pose proof (scaled_ge P Q p q _ m Hq HQ He Hs ltac:(lia)) as Hbig. revert Hbig. rewrite (pow10_ten (e - kMinExponent)) by lia.
    pose proof (pow10_pos (e - kMinExponent - 1) ltac:(lia)). intros Hbig.
    eapply Z.le_trans; [|exact Hbig]. apply Z.mul_le_mono_nonneg_r; nia.
  - apply (renormalize_rounded g m e p q); try done. right. lia.
Qed.
End Mul.

(** ** Multiplication *)

Lemma sgn_xor a b : sgn (xorb a b) = sgn a * sgn b.
Proof. by destruct a, b. Qed.

Lemma normal_nonzero x : normal x -> x <> kZero -> gridMant (mantissa_ x) /\ kMinExponent <= exponent_ x <= kMaxExponent.
Proof. intros [-> | ?]%normal_cases ?; [done|done]. Qed.

Lemma numEq_spec x y : reflect (x = y) (numEq x y).
Proof.
  destruct x as [n m e], y as [n' m' e']. unfold numEq. cbn [negative_ mantissa_ exponent_].
  destruct (eqb_spec n n'), (Z.eqb_spec m m'), (Z.eqb_spec e e'); cbn [andb]; constructor; congruence.
Qed.

Lemma roundedZero mode Q : 0 < Q -> roundedResult mode 0 Q (Ok kZero).
Proof. intros. exact (rounded_zero mode false 0 Q ltac:(lia)). Qed.

Lemma productZero mode Q : 0 < Q -> roundedProduct mode 0 Q (Ok kZero).
Proof.
  intros HQ. cbn [roundedProduct]. split; [done|]. split; [cbn; lia|]. intros _. exists 0. split; [|done].
  unfold roundedInteger. destruct mode; cbn; lia.
Qed.

Lemma magnitude_scaled x : magnitude x = mantissa_ x * 10 ^ (exponent_ x - kMinExponent).
Proof. done. Qed.

Lemma numMul_rounded mode x y :
  normal x -> normal y -> roundedProduct mode (svalue x * svalue y) unitScale (numMul mode Large330 x y).
Proof.
  intros Hx Hy. unfold numMul. destruct (numEq_spec x kZero) as [-> |Hx0]; [apply productZero, unitScale_pos|].
  destruct (numEq_spec y kZero) as [-> |Hy0]; [rewrite svalue_zero, Z.mul_0_r; apply productZero, unitScale_pos|].
  apply normal_nonzero in Hx as [[Hxm _] Hxe], Hy as [[Hym _] Hye]; [|done..]. set (n := xorb (negative_ x) (negative_ y)).
  rewrite wrap128_id by nia.
  assert (svalue x * svalue y = sgn n * (magnitude x * magnitude y)) as -> by (unfold svalue, n; rewrite sgn_xor; ring).
  set (p := mantissa_ x * mantissa_ y). set (e := exponent_ x + exponent_ y).
  assert (scaled (magnitude x * magnitude y) unitScale p 1 e) as Hs.
  { exists (- kMinExponent), (e - 2 * kMinExponent). unfold e. split_and!; [unfold kMinExponent; lia|lia|lia|].
    unfold magnitude, p. rewrite unitScale_eq. replace (exponent_ x + exponent_ y - 2 * kMinExponent)
      with ((exponent_ x - kMinExponent) + (exponent_ y - kMinExponent)) by lia. rewrite Z.pow_add_r by lia. generalize unitScale (10 ^ (exponent_ x - kMinExponent)) (10 ^ (exponent_ y - kMinExponent)).
    intros. ring. }
  assert (weak n (startGuard n false) p p 1) as Hw.
  { destruct (startGuard_wf n false) as [Hg Hc]. split; [done|]. rewrite Z.div_1_r, Z.mod_1_r, Hc. done. }
  destruct (mulLoop_spec n (magnitude x * magnitude y) unitScale 63 (startGuard n false) p e p 1) as
    (g & m & e' & q & Hl & Hq & Hs' & Hm & _ & Hbig);
    [lia|unfold p; nia|exact Hw|unfold p, fits; nia|change (18 + Z.of_nat 63) with 81; unfold p; nia|exact Hs|].
  change (if n then _ else _) with (startGuard n false). change loopFuel with 64%nat.
  rewrite (nbind_ok _ _ _ Hl). cbv beta iota. destruct Hbig as [Hst Hm']; [rewrite kMaxRepUp_eq; unfold p; nia|].
  pose proof Hst as ((_ & _ & Hmin & Hmax & Hfix) & _). rewrite Hmin, Hmax, Hfix.
  rewrite wrapW_id by (rewrite kMaxRepUp_eq in Hm; lia).
  eapply round_renormalize; [apply unitScale_pos|exact Hq| |exact Hs'|exact Hst|done].
  unfold magnitude. pose proof (pow10_pos (exponent_ x - kMinExponent) ltac:(lia)).
  pose proof (pow10_pos (exponent_ y - kMinExponent) ltac:(lia)). nia.
Qed.

(** ** Division *)

Lemma scaled_quotient x y :
  kMinExponent <= exponent_ x -> kMinExponent <= exponent_ y ->
  scaled (magnitude x * unitScale) (magnitude y) (mantissa_ x * 10 ^ 17) (mantissa_ y) (exponent_ x - exponent_ y - 17).
Proof.
  intros Hx Hy. exists (exponent_ y - kMinExponent + 17), (exponent_ x - kMinExponent + - kMinExponent).
  split_and!; [lia|unfold kMinExponent in *; lia|lia|].
  rewrite (Z.pow_add_r _ (exponent_ y - kMinExponent)) by lia.
  rewrite (Z.pow_add_r _ (exponent_ x - kMinExponent)) by (unfold kMinExponent in *; lia).
  rewrite unitScale_eq. unfold magnitude.
  generalize unitScale (10 ^ (exponent_ x - kMinExponent)) (10 ^ (exponent_ y - kMinExponent)). intros. ring.
Qed.

(** The quotient and the remainder flag passed to [doNormalize]. *)
Lemma quotient_digits N d :
  10 ^ 35 <= N < 10 ^ 36 -> 10 ^ 18 <= d < 10 ^ 19 ->
  let r := N mod d in
  let c := r * 10 ^ 5 / d in
  let dropped := negb (r * 10 ^ 5 mod d =? 0) in
  let '(m, k) := if c =? 0 then (N / d, 0) else (N / d * 10 ^ 5 + c, 5) in
  r <> 0 ->
  0 < m < 2 ^ 128 /\ m = N * 10 ^ k / d /\ (dropped = true <-> N * 10 ^ k mod d <> 0) /\
  (dropped = true -> 10 ^ 19 <= m \/ (10 ^ 16 <= m /\ N * 10 ^ k mod d * 10 ^ 5 < d)).
Proof.
  intros HN Hd. cbv zeta. set (r := N mod d). pose proof (Z.mod_pos_bound N d ltac:(lia)) as Hr. fold r in Hr.
  pose proof (Z.div_mod N d ltac:(lia)) as HE. fold r in HE.
  assert (10 ^ 16 <= N / d < 10 ^ 18) as Hq.
  { split; [apply Z.div_le_lower_bound; lia|apply Z.div_lt_upper_bound; lia]. }
  pose proof (Z.div_mod (r * 10 ^ 5) d ltac:(lia)) as Hc. pose proof (Z.mod_pos_bound (r * 10 ^ 5) d ltac:(lia)) as Hc'.
  assert (0 <= r * 10 ^ 5 / d < 10 ^ 5) as Hcr by (split; [apply Z.div_pos; lia|apply Z.div_lt_upper_bound; lia]).
  destruct (Z.eqb_spec (r * 10 ^ 5 / d) 0) as [Ez|Ez]; intros Hr0.
  - change (10 ^ 0) with 1. rewrite Z.mul_1_r. fold r.
    assert (r * 10 ^ 5 mod d = r * 10 ^ 5) as -> by lia.
    destruct (Z.eqb_spec (r * 10 ^ 5) 0); [lia|]. cbn [negb]. split_and!; [lia|lia|done|done|right; split; lia].
  - assert (N * 10 ^ 5 = d * (N / d * 10 ^ 5 + r * 10 ^ 5 / d) + r * 10 ^ 5 mod d) as HE5 by lia.
    assert (N * 10 ^ 5 / d = N / d * 10 ^ 5 + r * 10 ^ 5 / d) as Hdiv
      by (symmetry; apply (Z.div_unique_pos _ _ _ (r * 10 ^ 5 mod d)); lia).
    assert (N * 10 ^ 5 mod d = r * 10 ^ 5 mod d) as Hmod
      by (symmetry; apply (Z.mod_unique_pos _ _ (N / d * 10 ^ 5 + r * 10 ^ 5 / d)); lia).
    rewrite Hmod. split_and!; [lia|lia|done| |left; lia].
    destruct (Z.eqb_spec (r * 10 ^ 5 mod d) 0); cbn [negb]; done.
Qed.

Lemma numDiv_rounded mode x y :
  normal x -> normal y -> y <> kZero ->
  roundedResult mode (svalue x * sgn (negative_ y) * unitScale) (magnitude y) (numDiv mode Large330 x y).
Proof.
  intros Hx Hy Hy0. unfold numDiv. destruct (numEq_spec y kZero) as [Ey|_]; [contradiction|].
  apply normal_nonzero in Hy as [[Hym _] Hye]; [|done].
  pose proof (pow10_pos (exponent_ y - kMinExponent) ltac:(lia)) as Hyp. pose proof unitScale_pos as Hu.
  assert (0 < magnitude y) as HQ by (unfold magnitude; nia).
  destruct (numEq_spec x kZero) as [-> |Hx0]; [by apply roundedZero|].
  apply normal_nonzero in Hx as [[Hxm _] Hxe]; [|done]. set (n := xorb (negative_ x) (negative_ y)).
  rewrite wrap128_id by lia.
  assert (svalue x * sgn (negative_ y) * unitScale = sgn n * (magnitude x * unitScale)) as ->.
  { unfold svalue, n. rewrite sgn_xor. generalize unitScale. intros. ring. }
  pose proof (scaled_quotient x y ltac:(lia) ltac:(lia)) as Hs. set (N := mantissa_ x * 10 ^ 17) in *.
  set (e := exponent_ x - exponent_ y - 17) in *. set (d := mantissa_ y) in *.
  pose proof (pow10_pos (exponent_ x - kMinExponent) ltac:(lia)) as Hxp.
  assert (0 <= magnitude x * unitScale) as HP by (apply Z.mul_nonneg_nonneg; [unfold magnitude; nia|lia]).
  assert (10 ^ 35 <= N < 10 ^ 36) as HN by (unfold N; lia).
  change (rangeMin Large330) with (10 ^ 18). change (rangeMax Large330) with (10 ^ 19 - 1).
  change (isCuspFixEnabled Large330) with Enabled330. cbn [isDisabled fixLevel Z.eqb negb andb].
  destruct (Z.eqb_spec (N mod d) 0) as [Hr|Hr].
  - apply (doNormalize_result mode n _ _ HQ _ _ _ _ N d); [lia|exact HP| | |reflexivity|exact Hs|by rewrite Hr|discriminate].
    + apply Z.div_str_pos. lia.
    + split; [apply Z.div_pos; lia|apply Z.div_lt_upper_bound; lia].
  - pose proof (quotient_digits N d HN Hym) as HD. cbv zeta in HD. pose proof (Z.mod_pos_bound N d ltac:(lia)).
    rewrite (wrap128_id (N mod d * 10 ^ 5)) by lia.
    assert (0 <= N / d < 10 ^ 18) by (split; [apply Z.div_pos; lia|apply Z.div_lt_upper_bound; lia]).
    assert (0 <= N mod d * 10 ^ 5 / d < 10 ^ 5) by (split; [apply Z.div_pos; lia|apply Z.div_lt_upper_bound; lia]).
    rewrite (wrap128_id (N / d * 10 ^ 5)) by lia. rewrite wrap128_id by lia.
    destruct (_ / d =? 0).
    + destruct (HD Hr) as (Hm1 & Hm2 & Hm3 & Hm4). rewrite Z.pow_0_r, Z.mul_1_r in *.
      apply (doNormalize_result mode n _ _ HQ _ _ _ _ N d); [lia|exact HP|lia|split; lia|done|exact Hs|exact Hm3|exact Hm4].
    + destruct (HD Hr) as (Hm1 & Hm2 & Hm3 & Hm4).
      apply (doNormalize_result mode n _ _ HQ _ _ _ _ (N * 10 ^ 5) d);
        [lia|exact HP|lia|split; lia|exact Hm2| |exact Hm3|exact Hm4].
      apply (scaled_down _ _ _ _ _ 5); [lia|exact Hs].
Qed.
