(* ===== verification/NumberAdd.v ===== *)
(** * Addition rounds correctly

    The exponents are aligned by expanding one mantissa and shrinking the other; digits that
    leave the guard come back when a difference needs them. *)

From S2P Require Import Prelude Number NumberSpec NumberNorm.

(** ** Recovering a digit *)

Lemma pop_push g d :
  wfDigits g -> 0 <= d < 10 ->
  fst (pop (doPush g d)) = d /\ digits_ (snd (pop (doPush g d))) = digits_ g / 16 * 16.
Proof.
  intros Hg Hd. unfold pop. cbn [fst snd digits_]. rewrite doPush_digits by done.
  unfold wfDigits in Hg. pose proof (Z.div_pos (digits_ g) 16). pose proof (Z.div_lt_upper_bound (digits_ g) 16 (2 ^ 60)).
  set (h := digits_ g / 16) in *. change 0xF000000000000000 with (Z.shiftl (Z.ones 4) 60). split.
  - rewrite Z.shiftr_land, Z.shiftr_shiftl_l by lia. change (60 - 60) with 0. rewrite Z.shiftl_0_r, Z.land_ones by lia.
    rewrite Z.shiftr_div_pow2 by lia. rewrite (Z.add_comm (d * _)), Z.div_add, (Z.div_small h) by lia. rewrite Z.mod_small; lia.
  - rewrite Z.shiftl_mul_pow2 by lia. unfold u64. change (2 ^ 4) with 16.
    replace ((d * 2 ^ 60 + h) * 16) with (h * 16 + d * 2 ^ 64) by lia.
    rewrite Z.mod_add by lia. apply Z.mod_small. lia.
Qed.

Lemma pop_wf n g : wfG n g -> wfG n (snd (pop g)).
Proof. intros (? & ? & ? & ? & ?). unfold pop. split_and!; try done; cbn [snd digits_]; apply u64_range. Qed.

(** [g] remembers the last digit of [p / (10 * q)] it was given. *)
Definition popInv (n : bool) (g : Guard) (p q : Z) : Prop :=
  strong n g (p / (q * 10)) p (q * 10) /\
  fst (pop g) = (p / q) mod 10 /\ weak n (snd (pop g)) (p / q) p q.

Lemma push_popInv n g p q : 0 < q -> weak n g (p / q) p q -> popInv n (doPush g ((p / q) mod 10)) p q.
Proof.
  intros Hq Hw. pose proof Hw as (Hg & _ & Hc). pose proof (Z.mod_pos_bound (p / q) 10 ltac:(lia)) as Hd.
  split; [rewrite <-Z.div_div by lia; by apply weak_drop|].
  destruct (pop_push g ((p / q) mod 10) (proj1 Hg) Hd) as [H1 H2]. split; [exact H1|].
  split; [apply pop_wf, wfG_push; done|]. split; [done|]. rewrite <-Hc, <-!gcls_empty.
  unfold guardEmpty, unrecoverable. rewrite H2. change (xbit_ (snd (pop (doPush g ((p / q) mod 10)))))
    with (xbit_ (doPush g ((p / q) mod 10))). rewrite doPush_xbit.
  pose proof (Z.div_mod (digits_ g) 16 ltac:(lia)). pose proof (Z.mod_pos_bound (digits_ g) 16 ltac:(lia)).
  destruct Hg as [Hg _]. unfold wfDigits in Hg.
  destruct (Z.eqb_spec (digits_ g / 16 * 16) 0), (Z.eqb_spec (digits_ g) 0), (Z.eqb_spec (digits_ g mod 16) 0), (xbit_ g);
    cbn [andb orb negb]; try done; lia.
Qed.

(** Zeros beyond a mantissa that is used up. *)
Lemma popInv_idle n g p q :
  0 < q -> weak n g 0 p q -> digits_ g = 0 -> popInv n g p q.
Proof.
  intros Hq (Hg & Hm & Hc) Hd.
  assert (0 <= p < q) as Hp by (pose proof (Z.div_mod p q ltac:(lia)); pose proof (Z.mod_pos_bound p q Hq); lia).
  assert (fst (pop g) = 0 /\ digits_ (snd (pop g)) = 0) as [H1 H2] by (unfold pop; cbn [fst snd digits_]; by rewrite Hd).
  assert (gcls (snd (pop g)) = FZero <-> gcls g = FZero) as He.
  { rewrite <-!gcls_empty. unfold guardEmpty, unrecoverable. by rewrite H2, Hd. }
  assert (gcls g = FZero \/ gcls g = FLow) as Hlow
    by (unfold gcls; rewrite Hd; destruct (guardEmpty g); [by left|by right]).
  split; [split; [done|]; split; [done|]; rewrite Z.mod_small by lia; rewrite Z.mod_small in Hc by lia;
    destruct Hlow as [E|E]; rewrite E; symmetry; apply cls_is; try lia;
    [by apply Hc|assert (p <> 0) by (intros Hz; apply Hc in Hz; congruence); lia]|].
  rewrite <-Hm. split; [done|]. split; [by apply pop_wf|]. split; [done|]. by rewrite He.
Qed.

Lemma popInv_zero_later n g p q k :
  0 < q -> 0 <= k -> weak n g 0 p q -> digits_ g = 0 -> popInv n g p (q * 10 ^ k).
Proof.
  intros Hq Hk (Hg & Hm & Hc) Hd. pose proof (pow10_pos k Hk).
  assert (0 <= p < q) as Hp by (pose proof (Z.div_mod p q ltac:(lia)); pose proof (Z.mod_pos_bound p q Hq); lia).
  apply popInv_idle; [nia| |done]. split; [done|]. split; [by rewrite Z.div_small by nia|].
  rewrite Hc, !Z.mod_small by nia. done.
Qed.

(** ** Shrinking to a target exponent *)

Lemma targetLoop_S f w g m e target :
  doDropDigitWithTarget (S f) w g m e target =
    if e <? target then
      if (m =? 0) && unrecoverable g then Ok (g, m, target)
      else let '(g, m, e) := doDropDigit w g m e in doDropDigitWithTarget f w g m e target
    else Ok (g, m, e).
Proof. reflexivity. Qed.

(** Steps left: the digits of the mantissa, then those of the guard. *)
Definition stepsLeft (f : nat) (g : Guard) (m : Z) : Prop :=
  exists a b : nat, m < 10 ^ Z.of_nat a /\ digits_ g < 16 ^ Z.of_nat b /\ (b <= 16)%nat /\
    ((a + 16 <= f)%nat \/ (a = 0%nat /\ (b <= f)%nat)).

Lemma stepsLeft_drop f g m :
  wfDigits g -> 0 <= m -> stepsLeft (S f) g m -> (m <> 0 \/ digits_ g <> 0) -> stepsLeft f (doPush g (m mod 10)) (m / 10).
Proof.
  intros Hg Hm (a & b & Ha & Hb & Hb16 & Hf) Hne. pose proof (Z.mod_pos_bound m 10 ltac:(lia)) as Hd.
  pose proof (doPush_digits g _ Hg Hd) as Hpd. unfold stepsLeft. rewrite Hpd. unfold wfDigits in Hg.
  pose proof (Z.div_pos (digits_ g) 16 ltac:(lia) ltac:(lia)). pose proof (Z.div_lt_upper_bound (digits_ g) 16 (2 ^ 60) ltac:(lia) ltac:(lia)).
  destruct a as [|a].
  - assert (m = 0) as -> by (change (10 ^ Z.of_nat 0) with 1 in Ha; lia). destruct b as [|b].
    { change (16 ^ Z.of_nat 0) with 1 in Hb. lia. }
    exists 0%nat, b. rewrite Z.mod_0_l, Z.div_0_l by lia. split; [done|]. split; [|split; [lia|right; lia]].
    rewrite Z.mul_0_l, Z.add_0_l. apply Z.div_lt_upper_bound; [lia|].
    rewrite <-Z.pow_succ_r by lia. by replace (Z.succ (Z.of_nat b)) with (Z.of_nat (S b)) by lia.
  - exists a, 16%nat. split; [|split; [change (16 ^ Z.of_nat 16) with (2 ^ 64); lia|split; [lia|]]].
    + apply Z.div_lt_upper_bound; [lia|]. rewrite <-Z.pow_succ_r by lia. by replace (Z.succ (Z.of_nat a)) with (Z.of_nat (S a)) by lia.
    + lia.
Qed.

Lemma dropTarget_spec n w f : forall g m e p q target,
  0 < q -> 0 <= m -> fits w m -> weak n g m p q -> e < target -> stepsLeft f g m ->
  exists g', doDropDigitWithTarget (S f) w g m e target = Ok (g', p / (q * 10 ^ (target - e)), target) /\
    popInv n g' p (q * 10 ^ (target - e - 1)).
Proof.
  induction f as [|f IH]; intros g m e p q target Hq Hm Hfit Hw He Hst; rewrite targetLoop_S;
    (destruct (Z.ltb_spec e target); [|lia]); pose proof Hw as (Hg & Hmp & _);
    pose proof (pow10_pos (target - e) ltac:(lia)) as Hpp.
  all: destruct (Z.eqb_spec m 0) as [Em|Em]; [destruct (Z.eqb_spec (digits_ g) 0) as [Ed|Ed]|];
    unfold unrecoverable; [rewrite Ed|rewrite (proj2 (Z.eqb_neq _ _) Ed)|]; cbn [andb Z.eqb].
  1,4: exists g; rewrite Em in *; split; [|apply popInv_zero_later; [done|lia|done|done]];
    rewrite Z.div_small; [done|]; pose proof (Z.div_mod p q ltac:(lia)); pose proof (Z.mod_pos_bound p q Hq); nia.
  1,2: exfalso; destruct Hst as (a & b & Ha & Hb & ? & [?|[-> ?]]); [lia|]; change (10 ^ Z.of_nat 0) with 1 in Ha;
    assert (b = 0%nat) as -> by lia; change (16 ^ Z.of_nat 0) with 1 in Hb; destruct Hg as [Hg _]; unfold wfDigits in Hg; lia.
  1,2: assert (m <> 0 \/ digits_ g <> 0) as Hne by lia; rewrite doDropDigit_spec by done;
    pose proof (weak_drop _ _ _ _ _ Hq Hw) as Hw'; pose proof (stepsLeft_drop f g m (proj1 Hg) Hm Hst Hne) as Hst';
    pose proof (Z.div_pos m 10 Hm ltac:(lia)) as Hm'.
  all: destruct (Z.eq_dec (e + 1) target) as [<-|Hlt].
  1,3: exists (doPush g (m mod 10)); rewrite targetLoop_S, Z.ltb_irrefl; replace (e + 1 - e) with 1 by lia;
    rewrite Z.sub_diag, Z.pow_0_r, Z.pow_1_r, Z.mul_1_r, Hmp, Z.div_div by lia; split; [done|];
    apply push_popInv; [done|by rewrite <-Hmp].
  all: destruct (IH (doPush g (m mod 10)) (m / 10) (e + 1) p (q * 10) target ltac:(lia) Hm' (fits_div _ _ Hfit)
      (strong_weak _ _ _ _ _ Hw') ltac:(lia) Hst') as (g' & Hl & Hp); exists g'; rewrite Hl;
    replace (q * 10 * 10 ^ (target - (e + 1))) with (q * 10 ^ (target - e)) in *
      by (rewrite (pow10_ten (target - e)) by lia; replace (target - (e + 1)) with (target - e - 1) by lia; ring);
    replace (q * 10 * 10 ^ (target - (e + 1) - 1)) with (q * 10 ^ (target - e - 1)) in *
      by (rewrite (pow10_ten (target - e - 1)) by lia; replace (target - (e + 1) - 1) with (target - e - 1 - 1) by lia; ring);
    done.
Qed.

(** ** Alignment *)

Lemma zerosLoop_S f g m e E :
  adjustZeros (S f) g m e E =
    if (e <? E) && (m mod 10 =? 0) then
      let '(g, m, e) := doDropDigit W128 g m e in adjustZeros f g m e E
    else Ok (g, m, e).
Proof. reflexivity. Qed.

Lemma expandLoop_S f limit m E e :
  adjustExpand (S f) limit m E e =
    if (e <? E) && (kMinExponent <? E) && (m <? limit) then adjustExpand f limit (wrapW W128 (m * 10)) (E - 1) e
    else Ok (m, E).
Proof. reflexivity. Qed.

(** Trailing zeros leave the guard as it was. *)
Lemma adjustZeros_spec n f : forall g m e E p q,
  0 < q -> 0 < m < 10 ^ Z.of_nat f -> fits W128 m -> e <= E -> weak n g m p q -> gcls g = FZero -> digits_ g = 0 ->
  exists g' j, adjustZeros (S f) g m e E = Ok (g', m / 10 ^ j, e + j) /\ 0 <= j /\ e + j <= E /\
    weak n g' (m / 10 ^ j) p (q * 10 ^ j) /\ gcls g' = FZero /\ digits_ g' = 0 /\ 0 < m / 10 ^ j.
Proof.
  induction f as [|f IH]; intros g m e E p q Hq Hm Hfit He Hw Hc Hd; rewrite zerosLoop_S.
  { change (10 ^ Z.of_nat 0) with 1 in Hm. lia. }
  destruct ((e <? E) && (m mod 10 =? 0)) eqn:Hb.
  2: { exists g, 0. rewrite Z.pow_0_r, Z.div_1_r, Z.add_0_r, Z.mul_1_r. split_and!; try done; lia. }
  breflect. rewrite doDropDigit_spec by done. pose proof Hw as (Hg & Hmp & _). rename H0 into Hz.
  pose proof (strong_weak _ _ _ _ _ (weak_drop _ _ _ _ _ Hq Hw)) as Hw'. rewrite Hz in *.
  pose proof (Z.div_mod m 10 ltac:(lia)) as Hdm.
  destruct (IH (doPush g 0) (m / 10) (e + 1) E p (q * 10)) as (g' & j & -> & Hj & Hje & Hwj & Hcj & Hdj & Hpos).
  - lia.
  - replace (Z.of_nat (S f)) with (Z.succ (Z.of_nat f)) in Hm by lia. rewrite Z.pow_succ_r in Hm by lia. lia.
  - by apply fits_div.
  - lia.
  - done.
  - by rewrite gcls_push, Hc by (apply Hg || lia).
  - rewrite doPush_digits, Hd by (apply Hg || lia). done.
  - assert (m / 10 / 10 ^ j = m / 10 ^ (j + 1)) as E1.
    { pose proof (pow10_pos j Hj). rewrite Z.div_div by lia. rewrite Z.pow_add_r, Z.pow_1_r by lia. f_equal. lia. }
    assert (q * 10 * 10 ^ j = q * 10 ^ (j + 1)) as E2 by (rewrite Z.pow_add_r by lia; lia).
    exists g', (j + 1). rewrite <-E1, <-E2. replace (e + (j + 1)) with (e + 1 + j) by lia. split_and!; try done; lia.
Qed.

Lemma adjustExpand_spec f : forall m E e,
  0 < m < 10 ^ 22 -> kMinExponent <= e <= E -> 10 ^ 21 <= m * 10 ^ Z.of_nat f ->
  exists a, adjustExpand (S f) (10 ^ 21) m E e = Ok (m * 10 ^ a, E - a) /\ 0 <= a /\ e <= E - a /\
    m * 10 ^ a < 10 ^ 22 /\ (E - a = e \/ 10 ^ 21 <= m * 10 ^ a).
Proof.
  induction f as [|f IH]; intros m E e Hm He Hf; rewrite expandLoop_S.
  { exists 0. change (10 ^ Z.of_nat 0) with 1 in Hf. destruct (Z.ltb_spec m (10 ^ 21)); [lia|].
    rewrite andb_false_r, Z.pow_0_r, Z.mul_1_r, Z.sub_0_r. split_and!; try done; lia. }
  destruct ((e <? E) && (kMinExponent <? E) && (m <? 10 ^ 21)) eqn:Hb.
  - breflect. rewrite wrap128_id by lia.
    destruct (IH (m * 10) (E - 1) e) as (a & -> & Ha & Hae & Hlt & Hend); [lia|lia| |].
    { replace (Z.of_nat (S f)) with (Z.succ (Z.of_nat f)) in Hf by lia. rewrite Z.pow_succ_r in Hf by lia. lia. }
    assert (m * 10 * 10 ^ a = m * 10 ^ (a + 1)) as E1 by (rewrite Z.pow_add_r by lia; lia).
    exists (a + 1). rewrite <-E1. replace (E - (a + 1)) with (E - 1 - a) by lia. split_and!; try done; lia.
  - exists 0. rewrite Z.pow_0_r, Z.mul_1_r, Z.sub_0_r. split_and!; try done; lia.
Qed.

(** The aligned operands: [hm] times the power, [lm] shrunk by [k] digits. *)
Record Aligned (n : bool) (g : Guard) (hM hE lM lE hm lm e : Z) : Prop := {
  al_k : 0 <= e - lE;
  al_a : 0 <= hE - e;
  al_h : hm = hM * 10 ^ (hE - e);
  al_h22 : hm < 10 ^ 22;
  al_l : lm = lM / 10 ^ (e - lE);
  al_g : weak n g lm lM (10 ^ (e - lE));
  al_pop : gcls g <> FZero -> 10 ^ 21 <= hm /\ lE < e /\ popInv n g lM (10 ^ (e - lE - 1))
}.

Lemma adjust_spec n g hM hE lM lE :
  wfG n g -> gcls g = FZero -> digits_ g = 0 -> 10 ^ 18 <= hM < 10 ^ 19 -> 10 ^ 18 <= lM < 10 ^ 19 ->
  kMinExponent <= lE < hE ->
  exists g' hm lm e, adjust g (10 ^ 21) hM hE lM lE = Ok (g', hm, e, lm, e) /\ Aligned n g' hM hE lM lE hm lm e.
Proof.
  intros Hg Hc Hd HhM HlM HE. unfold adjust. pose proof Hg as (_ & _ & _ & _ & ->). change loopFuel with 64%nat.
  destruct (adjustZeros_spec n 63 g lM lE hE lM 1) as (g1 & j & -> & Hj & Hje & Hw1 & Hc1 & Hd1 & Hpos1).
  - lia.
  - change (10 ^ Z.of_nat 63) with (10 ^ 63). lia.
  - split; lia.
  - lia.
  - split; [done|]. rewrite Z.div_1_r, Z.mod_1_r. done.
  - done.
  - done.
  - cbn [nbind]. rewrite Z.mul_1_l in Hw1.
    destruct (adjustExpand_spec 63 hM hE (lE + j)) as (a & -> & Ha & Hae & Hlt & Hend);
      [lia|lia|change (10 ^ Z.of_nat 63) with (10 ^ 63); lia|].
    cbn [nbind]. destruct (Z.ltb_spec (lE + j) (hE - a)) as [Hgt|Hle].
    + pose proof (pow10_pos j Hj) as Hjp. destruct (dropTarget_spec n W128 63 g1 (lM / 10 ^ j) (lE + j) lM (10 ^ j) (hE - a)) as (g2 & -> & Hp2).
      * done.
      * lia.
      * split; [lia|]. apply Z.div_lt_upper_bound; [lia|]. nia.
      * done.
      * done.
      * exists 19%nat, 0%nat. rewrite Hd1. change (10 ^ Z.of_nat 19) with (10 ^ 19).
        split; [apply Z.div_lt_upper_bound; nia|]. split; [done|]. split; lia.
      * cbn [nbind]. replace (10 ^ j * 10 ^ (hE - a - (lE + j))) with (10 ^ (hE - a - lE))
          by (rewrite <-Z.pow_add_r by lia; f_equal; lia).
        replace (10 ^ j * 10 ^ (hE - a - (lE + j) - 1)) with (10 ^ (hE - a - lE - 1)) in Hp2
          by (rewrite <-Z.pow_add_r by lia; f_equal; lia).
        exists g2, (hM * 10 ^ a), (lM / 10 ^ (hE - a - lE)), (hE - a). split; [done|].
        assert (10 ^ (hE - a - lE - 1) * 10 = 10 ^ (hE - a - lE)) as E10
          by (rewrite (pow10_ten (hE - a - lE)) by lia; ring).
        pose proof Hp2 as (Hw2%strong_weak & _). rewrite E10 in Hw2.
        constructor; [lia|lia|f_equal; f_equal; lia|done|done|done|]. intros _. split_and!; [lia|lia|done].
    + assert (lE + j = hE - a) as Ej by lia. assert (j = hE - a - lE) as Ej' by lia.
      exists g1, (hM * 10 ^ a), (lM / 10 ^ j), (hE - a). rewrite Ej. split; [done|].
      constructor; [lia|lia|f_equal; f_equal; lia|done|by rewrite Ej'|by rewrite <-Ej'|]. intros Hne. contradiction.
Qed.

(** ** Sums and differences *)

Section Sum.
Context (mode : RoundingMode) (hn ng : bool) (g : Guard) (hM hE lM lE hm lm e : Z).
Hypothesis Hal : Aligned ng g hM hE lM lE hm lm e.
Hypothesis HhM : 10 ^ 18 <= hM < 10 ^ 19.
Hypothesis HlM : 10 ^ 18 <= lM < 10 ^ 19.
Hypothesis HE : kMinExponent <= lE <= hE.

Abbreviation at10 m e := (m * 10 ^ (e - kMinExponent)).

Lemma aligned_low : 0 <= lm < 10 ^ 19.
Proof.
  destruct Hal. pose proof (pow10_pos (e - lE) ltac:(lia)). subst lm.
  split; [apply Z.div_pos; lia|apply Z.div_lt_upper_bound; nia].
Qed.

(** The exact sum or difference, at the exponent [e1] between the operands' own. *)
Lemma scaled_sum s e1 :
  lE <= e1 <= hE -> s = 1 \/ s = -1 ->
  scaled (at10 hM hE + s * at10 lM lE) 1 (hM * 10 ^ (hE - e1) * 10 ^ (e1 - lE) + s * lM) (10 ^ (e1 - lE)) e1.
Proof.
  intros He1 Hs. exists 0, (e1 - kMinExponent). split_and!; [lia|lia|lia|]. rewrite Z.pow_0_r, Z.mul_1_r, Z.mul_1_l.
  rewrite (pow10_split (e1 - kMinExponent) (hE - kMinExponent)) by lia.
  replace (hE - kMinExponent - (e1 - kMinExponent)) with (hE - e1) by lia.
  rewrite (pow10_split (lE - kMinExponent) (e1 - kMinExponent)) by lia.
  replace (e1 - kMinExponent - (lE - kMinExponent)) with (e1 - lE) by lia.
  generalize (10 ^ (hE - e1)) (10 ^ (e1 - lE)) (10 ^ (lE - kMinExponent)). intros. ring.
Qed.

Lemma sum_result :
  roundedResult mode (sgn hn * (at10 hM hE + at10 lM lE)) 1
    (doNormalize mode W128 (mkNumber hn (hm + lm) e) (10 ^ 18) (10 ^ 19 - 1) Enabled330 (negb (guardEmpty g))).
Proof.
  pose proof aligned_low as Hlm. destruct Hal as [Hk Ha Hh Hh22 Hl Hg Hpop].
  pose proof (pow10_pos (e - lE) Hk) as Hkp. pose proof (pow10_pos (hE - e) Ha).
  pose proof (scaled_sum 1 e ltac:(lia) ltac:(lia)) as Hs. rewrite !Z.mul_1_l, <-Hh in Hs.
  assert (0 < 10 ^ (hE - kMinExponent) /\ 0 < 10 ^ (lE - kMinExponent)) by (split; apply pow10_pos; lia).
  pose proof (Z.div_mod lM (10 ^ (e - lE)) ltac:(lia)) as Hdm. rewrite <-Hl in Hdm.
  assert ((hm * 10 ^ (e - lE) + lM) mod 10 ^ (e - lE) = lM mod 10 ^ (e - lE)) as Hmod
    by (rewrite Z.add_comm, Z.mod_add by lia; done).
  apply (doNormalize_result mode hn _ 1 ltac:(lia) _ _ _ _ (hm * 10 ^ (e - lE) + lM) (10 ^ (e - lE)));
    [done|nia|nia|split; lia| |exact Hs| |].
  - rewrite Z.div_add_l, <-Hl by lia. done.
  - rewrite Hmod. destruct Hg as (_ & _ & Hc). rewrite <-Hc, <-gcls_empty. destruct (guardEmpty g); cbn [negb]; split; (done || congruence).
  - intros Hne. left. destruct Hpop as [Hbig _]; [|lia]. rewrite <-gcls_empty. by destruct (guardEmpty g).
Qed.

Lemma popLoop_S f g0 limit xm xe :
  popLoop330 (S f) g0 limit xm xe =
    if (xm <? limit) && negb (guardEmpty g0) then
      let '(d, g0) := pop g0 in
      popLoop330 f g0 limit (wrapW W128 (wrapW W128 (xm * 10) - d)) (xe - 1)
    else Ok (g0, xm, xe).
Proof. reflexivity. Qed.

(** After the digits are recovered. *)
Lemma pop_spec f :
  gcls g <> FZero ->
  exists g1 e1 lm1, popLoop330 (S (S f)) g (10 ^ 21) (hm - lm) e = Ok (g1, hM * 10 ^ (hE - e1) - lm1, e1) /\
    lE <= e1 <= hE /\ weak ng g1 lm1 lM (10 ^ (e1 - lE)) /\
    10 ^ 20 <= hM * 10 ^ (hE - e1) - lm1 < 10 ^ 23.
Proof.
  intros Hne. pose proof aligned_low as Hlm. destruct Hal as [Hk Ha Hh Hh22 Hl Hg Hpop].
  destruct (Hpop Hne) as (Hh21 & Hlt & (_ & Hd & Hw1)). rewrite popLoop_S.
  destruct (Z.ltb_spec (hm - lm) (10 ^ 21)) as [Hsm|Hbig]; cbn [andb].
  2: { exists g, e, lm. rewrite <-Hh. split_and!; [done|lia|lia|done|lia|lia]. }
  assert (guardEmpty g = false) as -> by (destruct (guardEmpty g) eqn:E; [|done]; apply gcls_empty in E; contradiction).
  cbn [negb]. set (pg := pop g) in *. clearbody pg. destruct pg as [d g1]. cbn [fst snd] in *.
  pose proof (Z.mod_pos_bound (lM / 10 ^ (e - lE - 1)) 10 ltac:(lia)) as Hdb. rewrite <-Hd in Hdb.
  rewrite (wrap128_id ((hm - lm) * 10)), wrap128_id by lia.
  pose proof (pow10_pos (e - lE - 1) ltac:(lia)) as Hkp.
  assert (lM / 10 ^ (e - lE - 1) = lm * 10 + d) as Hlm1.
  { rewrite Hl, (pow10_ten (e - lE)) by lia. replace (10 * 10 ^ (e - lE - 1)) with (10 ^ (e - lE - 1) * 10) by lia.
    rewrite <-Z.div_div by lia. pose proof (Z.div_mod (lM / 10 ^ (e - lE - 1)) 10 ltac:(lia)). lia. }
  assert (hM * 10 ^ (hE - (e - 1)) = hm * 10) as Hh1.
  { replace (hE - (e - 1)) with (hE - e + 1) by lia. rewrite Z.pow_add_r, Hh by lia. lia. }
  rewrite popLoop_S. destruct (Z.ltb_spec ((hm - lm) * 10 - d) (10 ^ 21)); [lia|]. cbn [andb].
  exists g1, (e - 1), (lm * 10 + d). rewrite Hh1, <-Hlm1. replace (e - 1 - lE) with (e - lE - 1) by lia.
  split_and!; [do 3 f_equal; lia|lia|lia|done|lia|lia].
Qed.

Lemma bringIntoRange_id g0 n m e0 :
  wfG ng g0 -> 10 ^ 18 <= m -> kMinExponent <= e0 -> bringIntoRange W128 g0 (mkNumber n m e0) = mkNumber n m e0.
Proof.
  intros (_ & _ & Hmin & _ & Hfix) Hm He. unfold bringIntoRange. cbn [mantissa_ exponent_ negative_]. rewrite Hmin, Hfix.
  destruct (Z.ltb_spec m (10 ^ 18)); [lia|]. cbn [andb].
  destruct (Z.ltb_spec e0 kMinExponent); [lia|]. destruct (Z.eqb_spec m 0); [lia|]. done.
Qed.

Lemma doRoundDown_330 g0 n m e0 :
  wfG ng g0 -> 0 < m < 2 ^ 128 ->
  doRoundDown mode W128 g0 (mkNumber n m e0) =
    bringIntoRange W128 g0 (mkNumber n (if guardEmpty g0 then m else m - 1) e0).
Proof.
  intros (_ & _ & _ & _ & Hfix) Hm. unfold doRoundDown, round. rewrite Hfix.
  cbn [is330 fixLevel Z.leb Z.compare Pos.compare Pos.compare_cont andb]. destruct (guardEmpty g0); [done|].
  rewrite wrap128_id by lia. by repeat case_match.
Qed.

(** What is normalised after a subtraction. *)
Definition difference : NumResult Number :=
  let! (g1, m, e1) := popLoop330 loopFuel g (10 ^ 21) (hm - lm) e in
  doNormalize mode W128 (doRoundDown mode W128 g1 (mkNumber hn m e1)) (10 ^ 18) (10 ^ 19 - 1) Enabled330 (negb (guardEmpty g1)).

Lemma difference_inexact :
  gcls g <> FZero -> roundedResult mode (sgn hn * (at10 hM hE - at10 lM lE)) 1 difference.
Proof.
  intros Hne. unfold difference. change loopFuel with 64%nat.
  destruct (pop_spec 62 Hne) as (g1 & e1 & lm1 & -> & He1 & Hw & HD). cbn [nbind].
  pose proof Hw as (Hg1 & Hlm1 & Hc). set (h1 := hM * 10 ^ (hE - e1)) in *. set (q := 10 ^ (e1 - lE)) in *.
  assert (0 < q) as Hq by (apply pow10_pos; lia). rewrite doRoundDown_330 by (done || lia).
  rewrite bringIntoRange_id by (done || destruct (guardEmpty g1); lia).
  pose proof (scaled_sum (-1) e1 He1 ltac:(lia)) as Hs. fold h1 q in Hs.
  replace (at10 hM hE + -1 * at10 lM lE) with (at10 hM hE - at10 lM lE) in Hs by lia.
  replace (h1 * q + -1 * lM) with (h1 * q - lM) in Hs by lia.
  pose proof (Z.div_mod lM q ltac:(lia)) as Hdm. pose proof (Z.mod_pos_bound lM q Hq) as Hmb. rewrite <-Hlm1 in Hdm.
  assert (guardEmpty g1 = true /\ lM mod q = 0 \/ guardEmpty g1 = false /\ lM mod q <> 0) as Hcase.
  { rewrite <-gcls_empty in Hc. destruct (guardEmpty g1); [left; split; [done|by apply Hc]|right; split; [done|]].
    intros Hz. by apply Hc in Hz. }
  assert (0 <= at10 hM hE - at10 lM lE) as HP.
  { apply (Z.mul_le_mono_pos_r _ _ q); [done|]. apply scaled_eq in Hs; [|lia].
    rewrite Hs. pose proof (pow10_pos (e1 - kMinExponent) ltac:(lia)) as Hp.
    assert ((lm1 + 1) * q <= h1 * q) by (apply Z.mul_le_mono_nonneg_r; lia).
    pose proof (Z.mul_nonneg_nonneg (h1 * q - lM) _ ltac:(lia) (Z.lt_le_incl _ _ Hp)). lia. }
  destruct Hcase as [[-> Hz]|[-> Hz]].
  - apply (doNormalize_result mode hn _ 1 ltac:(lia) _ _ _ _ (h1 * q - lM) q); [done|done|lia|split; lia| |exact Hs| |done].
    + apply (Z.div_unique_pos _ _ _ 0); nia.
    + cbn [negb]. split; [done|]. intros Hn. exfalso. apply Hn. symmetry. apply (Z.mod_unique_pos _ _ (h1 - lm1)); nia.
  - apply (doNormalize_result mode hn _ 1 ltac:(lia) _ _ _ _ (h1 * q - lM) q); [done|done|lia|split; lia| |exact Hs| |left; lia].
    + apply (Z.div_unique_pos _ _ _ (q - lM mod q)); nia.
    + cbn [negb]. split; [intros _|done]. rewrite <-(Z.mod_unique_pos (h1 * q - lM) q (h1 - lm1 - 1) (q - lM mod q)); nia.
Qed.

Lemma difference_exact :
  gcls g = FZero -> lm < hm -> roundedResult mode (sgn hn * (at10 hM hE - at10 lM lE)) 1 difference.
Proof.
  intros Hc Hlt. unfold difference. change loopFuel with 64%nat. rewrite popLoop_S.
  assert (guardEmpty g = true) as He by (by apply gcls_empty). rewrite He. cbn [negb]. rewrite andb_false_r. cbn [nbind].
  pose proof aligned_low as Hlm. destruct Hal as [Hk Ha Hh Hh22 Hl (Hg & _ & Hcm) _].
  rewrite doRoundDown_330, He by (done || lia). set (D := hm - lm) in *.
  assert (scaled (at10 hM hE - at10 lM lE) 1 D 1 e) as Hs.
  { pose proof (scaled_sum (-1) e ltac:(lia) ltac:(lia)) as Hs. rewrite <-Hh in Hs.
    replace (at10 hM hE + -1 * at10 lM lE) with (at10 hM hE - at10 lM lE) in Hs by lia.
    pose proof (pow10_pos (e - lE) Hk). pose proof (Z.div_mod lM (10 ^ (e - lE)) ltac:(lia)) as Hdm.
    rewrite (proj1 Hcm Hc), <-Hl in Hdm. apply scaled_eq in Hs; [|lia].
    exists 0, (e - kMinExponent). split_and!; [lia|lia|lia|]. rewrite Z.pow_0_r.
    apply (Z.mul_cancel_r _ _ (10 ^ (e - lE))); [lia|]. unfold D. nia. }
  assert (0 <= at10 hM hE - at10 lM lE) as HP.
  { apply scaled_eq in Hs; [|lia]. pose proof (pow10_pos (e - kMinExponent) ltac:(lia)). nia. }
  destruct (Z.le_gt_cases (10 ^ 18) D) as [Hbig|Hsmall].
  { rewrite bringIntoRange_id by (done || lia).
    apply (doNormalize_result mode hn _ 1 ltac:(lia) _ _ _ _ D 1); [done|done|lia|split; lia|by rewrite Z.div_1_r|exact Hs| |done].
    rewrite Z.mod_1_r. done. }
  unfold bringIntoRange. cbn [mantissa_ exponent_ negative_]. pose proof Hg as (_ & _ & -> & _ & ->).
  destruct (Z.ltb_spec D (10 ^ 18)); [|lia]. destruct (Z.eqb_spec D 0); [lia|].
  cbn [is330 fixLevel Z.leb Z.compare Pos.compare Pos.compare_cont andb negb orb]. rewrite wrap128_id by lia.
  destruct (Z.eqb_spec (D * 10) 0); [lia|]. rewrite orb_false_r.
  destruct (Z.ltb_spec (e - 1) kMinExponent).
  - apply rounded_zero. split; [done|]. assert (e = kMinExponent) as Ee by lia.
    apply scaled_eq in Hs; [|lia]. rewrite Ee, Z.sub_diag, Z.pow_0_r in Hs. lia.
  - apply (doNormalize_result mode hn _ 1 ltac:(lia) _ _ _ _ (D * 10) 1);
      [done|done|lia|split; lia|by rewrite Z.div_1_r| |by rewrite Z.mod_1_r|done].
    exact (scaled_down _ _ _ _ _ 1 ltac:(lia) Hs).
Qed.
End Sum.

Lemma popLoop_wf n f : forall g limit xm xe g1 m1 e1,
  wfG n g -> popLoop330 f g limit xm xe = Ok (g1, m1, e1) -> wfG n g1.
Proof.
  induction f as [|f IH]; intros g limit xm xe g1 m1 e1 Hg; [done|]. rewrite popLoop_S.
  destruct (_ && _); [|by intros [= <- _ _]]. pose proof (pop_wf n g Hg) as Hp. destruct (pop g) as [d g']. apply IH, Hp.
Qed.

(** The operands in the order of their magnitudes. *)
Lemma add_aligned mode n g xn yn xm ym e hn hm lm :
  wfG n g -> 0 <= lm -> hm < 10 ^ 22 -> lm < 10 ^ 22 -> (xn <> yn -> lm < hm) ->
  (xn = hn /\ xm = hm /\ ym = lm) \/ (yn = hn /\ ym = hm /\ xm = lm) -> 0 <= hm ->
  (let! (g, z) := sumAligned mode g xn yn xm e ym e in
   doNormalize mode W128 z (minMantissa g) (maxMantissa g) (cuspRoundingFix g)
     (match cuspRoundingFix g with Enabled330 => negb (guardEmpty g) | _ => false end)) =
  if eqb xn yn
  then doNormalize mode W128 (mkNumber hn (hm + lm) e) (10 ^ 18) (10 ^ 19 - 1) Enabled330 (negb (guardEmpty g))
  else difference mode hn g hm lm e.
Proof.
  intros Hg Hl Hh22 Hl22 Hlt Hroles Hh0. pose proof Hg as (_ & _ & Hmin & Hmax & Hfix). unfold sumAligned.
  destruct (eqb_spec xn yn) as [->|Hne].
  - rewrite Hfix. cbn [is330 fixLevel Z.leb Z.compare Pos.compare Pos.compare_cont nbind]. rewrite Hmin, Hmax, Hfix.
    destruct Hroles as [(-> & -> & ->)|(-> & -> & ->)]; rewrite wrap128_id by lia; [done|]. by rewrite (Z.add_comm lm).
  - specialize (Hlt Hne). assert ((if ym <? xm then mkNumber xn (xm - ym) e else mkNumber yn (ym - xm) e) = mkNumber hn (hm - lm) e) as ->.
    { destruct Hroles as [(-> & -> & ->)|(-> & -> & ->)]; destruct (Z.ltb_spec lm hm), (Z.ltb_spec hm lm); try lia; done. }
    rewrite Hfix, Hmin. cbn [is330 fixLevel Z.leb Z.compare Pos.compare Pos.compare_cont].
    change (wrapW W128 (10 ^ 18 * 1000)) with (10 ^ 21). unfold difference.
    destruct (popLoop330 loopFuel g (10 ^ 21) (hm - lm) e) as [[[g1 m1] e1]| |] eqn:Hp; cbn [nbind]; [|done|done].
    apply (popLoop_wf n) in Hp; [|done]. pose proof Hp as (_ & _ & Hmin1 & Hmax1 & Hfix1). by rewrite Hmin1, Hmax1, Hfix1.
Qed.

Lemma aligned_less n g hM hE lM lE hm lm e :
  Aligned n g hM hE lM lE hm lm e -> 10 ^ 18 <= hM -> lM < 10 ^ 19 -> lE < hE -> lm < hm.
Proof.
  intros [Hk Ha -> _ -> _ _] Hh Hl Hlt. apply Z.div_lt_upper_bound; [apply pow10_pos; lia|].
  rewrite Z.mul_comm, <-Z.mul_assoc, <-Z.pow_add_r by lia. replace (hE - e + (e - lE)) with (hE - lE) by lia.
  rewrite pow10_ten by lia. pose proof (pow10_pos (hE - lE - 1) ltac:(lia)). nia.
Qed.

(** The result of aligned operands of which [h] is the greater. *)
Lemma aligned_result mode n g h l xn yn hm lm e :
  gridMant (mantissa_ h) -> gridMant (mantissa_ l) -> kMinExponent <= exponent_ l <= exponent_ h ->
  Aligned n g (mantissa_ h) (exponent_ h) (mantissa_ l) (exponent_ l) hm lm e -> (xn <> yn -> lm < hm) ->
  eqb xn yn = eqb (negative_ h) (negative_ l) ->
  roundedResult mode (svalue h + svalue l) 1
    (if eqb xn yn
     then doNormalize mode W128 (mkNumber (negative_ h) (hm + lm) e) (10 ^ 18) (10 ^ 19 - 1) Enabled330 (negb (guardEmpty g))
     else difference mode (negative_ h) g hm lm e).
Proof.
  intros [Hh _] [Hl _] HE Hal Hlt Hsame. destruct (eqb_spec xn yn) as [->|Hne].
  - replace (svalue h + svalue l) with (sgn (negative_ h) * (magnitude h + magnitude l)).
    + by eapply sum_result.
    + symmetry in Hsame. apply eqb_prop in Hsame. unfold svalue. rewrite Hsame. ring.
  - replace (svalue h + svalue l) with (sgn (negative_ h) * (magnitude h - magnitude l)).
    + destruct (gcls g) eqn:Hc; [eapply difference_exact; eauto|eapply difference_inexact; eauto; by rewrite Hc..].
    + unfold svalue. destruct (negative_ h), (negative_ l); try done; cbn [sgn]; lia.
Qed.

Lemma rounded_exact mode x : normal x -> roundedResult mode (svalue x) 1 (Ok x).
Proof.
  intros Hx. split; [done|]. assert (x = kZero \/ 10 ^ 18 <= Z.abs (svalue x)) as Hbig.
  { destruct (normal_cases x Hx) as [-> | [[Hm _] He]]; [by left|right]. unfold svalue, magnitude.
    pose proof (pow10_pos (exponent_ x - kMinExponent) ltac:(lia)). rewrite abs_sgn by nia. nia. }
  split; [intros _|intros Hs; destruct Hbig; [done|lia]]. rewrite <-(Z.mul_1_r (svalue x)) at 1.
  unfold correctlyRounded. destruct mode; rewrite ?Z.mul_1_r, ?Z.sub_diag.
  - intros y Hy. rewrite Z.mul_1_r. split; [lia|]. intros. lia.
  - split; [lia|]. split; [nia|]. intros y Hy. lia.
  - split; [lia|]. intros y Hy. lia.
  - split; [lia|]. intros y Hy. lia.
Qed.

(** The guard addition starts with. *)
Lemma addGuard n :
  wfG n (if n then setNegative (rangeGuard Large330) else rangeGuard Large330) /\
  gcls (if n then setNegative (rangeGuard Large330) else rangeGuard Large330) = FZero /\
  digits_ (if n then setNegative (rangeGuard Large330) else rangeGuard Large330) = 0.
Proof. unfold wfG, wfDigits. destruct n; (split; [|split; reflexivity]); (split_and!; first [reflexivity|cbn; lia]). Qed.

Lemma alignedEqual n g M E M' :
  wfG n g -> gcls g = FZero -> M < 10 ^ 19 -> Aligned n g M E M' E M M' E.
Proof.
  intros Hg Hc HM. constructor; rewrite ?Z.sub_diag, ?Z.pow_0_r, ?Z.div_1_r; try lia; [|done].
  split; [done|]. rewrite Z.div_1_r, Z.mod_1_r. done.
Qed.

Lemma numNeg_normal x : normal x -> normal (numNeg x).
Proof.
  intros [-> | [Hm He]]%normal_cases; [done|]. unfold numNeg. destruct (_ =? _); [done|]. by apply normal_intro.
Qed.

Lemma numNeg_svalue x : normal x -> svalue (numNeg x) = - svalue x.
Proof.
  intros [-> | [[Hm _] He]]%normal_cases; [done|]. unfold numNeg. destruct (Z.eqb_spec (mantissa_ x) 0); [lia|].
  unfold svalue, magnitude. cbn [negative_ mantissa_ exponent_]. destruct (negative_ x); cbn [negb sgn]; lia.
Qed.

Lemma add_roles mode n g x y h l xm ym hm lm e :
  gridMant (mantissa_ h) -> gridMant (mantissa_ l) -> kMinExponent <= exponent_ l <= exponent_ h ->
  Aligned n g (mantissa_ h) (exponent_ h) (mantissa_ l) (exponent_ l) hm lm e ->
  (negative_ h <> negative_ l -> lm < hm) ->
  (x = h /\ y = l /\ xm = hm /\ ym = lm) \/ (x = l /\ y = h /\ xm = lm /\ ym = hm) ->
  roundedResult mode (svalue x + svalue y) 1
    (let! (g, z) := sumAligned mode g (negative_ x) (negative_ y) xm e ym e in
     doNormalize mode W128 z (minMantissa g) (maxMantissa g) (cuspRoundingFix g)
       (match cuspRoundingFix g with Enabled330 => negb (guardEmpty g) | _ => false end)).
Proof.
  intros Hh Hl HE Hal Hlt Hroles. pose proof Hal as [_ Ha Hhm H22 _ (Hg & _) _].
  pose proof (aligned_low _ _ _ _ _ _ _ _ _ Hal (proj1 Hl)) as Hl0.
  assert (0 <= hm) by (rewrite Hhm; pose proof (pow10_pos _ Ha); destruct Hh; nia).
  rewrite (add_aligned mode n g _ _ xm ym e (negative_ h) hm lm Hg).
  - replace (svalue x + svalue y) with (svalue h + svalue l)
      by (destruct Hroles as [(-> & -> & _)|(-> & -> & _)]; lia).
    eapply aligned_result; [done|done|done|exact Hal| |]; destruct Hroles as [(-> & -> & _)|(-> & -> & _)]; try done.
    + intros Hne. apply Hlt. congruence.
    + by destruct (negative_ h), (negative_ l).
  - lia.
  - done.
  - lia.
  - intros Hne. apply Hlt. destruct Hroles as [(-> & -> & _)|(-> & -> & _)]; congruence.
  - destruct Hroles as [(-> & -> & -> & ->)|(-> & -> & -> & ->)]; auto.
  - done.
Qed.

Lemma numAdd_rounded mode x y :
  normal x -> normal y -> roundedResult mode (svalue x + svalue y) 1 (numAdd mode Large330 x y).
Proof.
  intros Hx Hy. unfold numAdd. destruct (numEq_spec y kZero) as [-> |Hy0].
  { rewrite svalue_zero, Z.add_0_r. by apply rounded_exact. }
  destruct (numEq_spec x kZero) as [-> |Hx0]; [rewrite svalue_zero, Z.add_0_l; by apply rounded_exact|].
  destruct (numEq_spec x (numNeg y)) as [-> |Hxy].
  { rewrite numNeg_svalue, Z.add_opp_diag_l by done. apply roundedZero. lia. }
  apply normal_nonzero in Hx as [Hxm Hxe], Hy as [Hym Hye]; [|done..].
  destruct (addGuard (negative_ x)) as (Hgx & Hcx & Hdx). destruct (addGuard (negative_ y)) as (Hgy & Hcy & Hdy).
  pose proof Hxm as [Hxr _]. pose proof Hym as [Hyr _].
  unfold align. destruct x as [xn xm xe], y as [yn ym ye]. cbn [negative_ mantissa_ exponent_] in *.
  change (wrapW W128 (minMantissa (rangeGuard Large330) * 1000)) with (10 ^ 21).
  destruct (Z.ltb_spec xe ye) as [Hlt|Hge]; [|destruct (Z.ltb_spec ye xe) as [Hlt|Hge']].
  - destruct (adjust_spec xn _ ym ye xm xe Hgx Hcx Hdx Hyr Hxr ltac:(lia)) as (g & hm & lm & e & -> & Hal). cbn [nbind].
    pose proof (aligned_less _ _ _ _ _ _ _ _ _ Hal ltac:(lia) ltac:(lia) Hlt) as Hless.
    eapply (add_roles mode xn g (mkNumber xn xm xe) (mkNumber yn ym ye) (mkNumber yn ym ye) (mkNumber xn xm xe) lm hm hm lm e);
      cbn [negative_ mantissa_ exponent_]; auto. lia.
  - destruct (adjust_spec yn _ xm xe ym ye Hgy Hcy Hdy Hxr Hyr ltac:(lia)) as (g & hm & lm & e & -> & Hal). cbn [nbind].
    pose proof (aligned_less _ _ _ _ _ _ _ _ _ Hal ltac:(lia) ltac:(lia) Hlt) as Hless.
    eapply (add_roles mode yn g (mkNumber xn xm xe) (mkNumber yn ym ye) (mkNumber xn xm xe) (mkNumber yn ym ye) hm lm hm lm e);
      cbn [negative_ mantissa_ exponent_]; auto. lia.
  - assert (xe = ye) as -> by lia. cbn [nbind].
    assert (forall b : bool, exists n, let g := (if b then setNegative (rangeGuard Large330) else rangeGuard Large330) in wfG n g /\ gcls g = FZero) as Hgb
      by (intros b; exists b; destruct (addGuard b) as (? & ? & _); done).
    change (cuspRoundingFix (rangeGuard Large330)) with Enabled330. cbv iota.
    set (b := (xm <? ym) && xn || (ym <? xm) && yn). destruct (Hgb b) as (n & Hg & Hc). cbv zeta in Hg, Hc.
    set (g := if b then _ else _) in *. clearbody g.
    destruct (Z.le_gt_cases ym xm) as [Hle|Hgt].
    + eapply (add_roles mode n g (mkNumber xn xm ye) (mkNumber yn ym ye) (mkNumber xn xm ye) (mkNumber yn ym ye) xm ym xm ym ye);
        cbn [negative_ mantissa_ exponent_]; auto; [lia|apply alignedEqual; [done|done|lia]|].
      intros Hne. assert (xm <> ym); [|lia]. intros ->. apply Hxy. unfold numNeg. cbn [negative_ mantissa_ exponent_].
      destruct (Z.eqb_spec ym 0); [lia|]. f_equal. by destruct xn, yn.
    + eapply (add_roles mode n g (mkNumber xn xm ye) (mkNumber yn ym ye) (mkNumber yn ym ye) (mkNumber xn xm ye) xm ym ym xm ye);
        cbn [negative_ mantissa_ exponent_]; auto; [lia|apply alignedEqual; [done|done|lia]].
Qed.

Lemma numSub_rounded mode x y :
  normal x -> normal y -> roundedResult mode (svalue x - svalue y) 1 (numSub mode Large330 x y).
Proof.
  intros Hx Hy. unfold numSub. replace (svalue x - svalue y) with (svalue x + svalue (numNeg y))
    by (rewrite numNeg_svalue by done; lia). apply numAdd_rounded; [done|by apply numNeg_normal].
Qed.
