(* ===== verification/NumberClaims.v ===== *)
(** * What [Number] promises

    Correct rounding of the arithmetic, of construction and of conversion to integers, the
    order of the values, and the equivalence of the shift-based division by ten. *)

From S2P Require Import Prelude Number NumberSpec NumberNorm NumberAdd.

(** ** Order *)

Lemma normal_inj m e m' e' :
  10 ^ 18 <= m < 10 ^ 19 -> 10 ^ 18 <= m' < 10 ^ 19 -> kMinExponent <= e -> kMinExponent <= e' ->
  e < e' -> m * 10 ^ (e - kMinExponent) < m' * 10 ^ (e' - kMinExponent).
Proof.
  intros Hm Hm' He He' Hlt. rewrite (pow10_split (e - kMinExponent) (e' - kMinExponent)) by lia.
  replace (e' - kMinExponent - (e - kMinExponent)) with (e' - e) by lia. rewrite (pow10_ten (e' - e)) by lia.
  pose proof (pow10_pos (e - kMinExponent) ltac:(lia)) as H1. pose proof (pow10_pos (e' - e - 1) ltac:(lia)) as H2.
  set (a := 10 ^ (e - kMinExponent)) in *. set (b := 10 ^ (e' - e - 1)) in *.
  replace (m' * (10 * b * a)) with (m' * 10 * b * a) by ring. apply Z.mul_lt_mono_pos_r; nia.
Qed.

Lemma numLt_spec x y : normal x -> normal y -> numLt x y = (svalue x <? svalue y).
Proof.
  intros Hx Hy. destruct (normal_cases x Hx) as [-> | [[Hxm _] Hxe]], (normal_cases y Hy) as [-> | [[Hym _] Hye]].
  - reflexivity.
  - destruct y as [n m e]. unfold svalue, magnitude. cbn [negative_ mantissa_ exponent_] in *.
    pose proof (pow10_pos (e - kMinExponent) ltac:(lia)). unfold numLt. cbn [negative_ mantissa_ exponent_ kZero].
    rewrite Z.mul_0_l, Z.mul_0_r. destruct n; cbn [eqb negb sgn Z.eqb]; symmetry; [apply Z.ltb_ge; nia|].
    destruct (Z.ltb_spec 0 m); [apply Z.ltb_lt; nia|lia].
  - destruct x as [n m e]. unfold svalue, magnitude. cbn [negative_ mantissa_ exponent_] in *.
    pose proof (pow10_pos (e - kMinExponent) ltac:(lia)). unfold numLt. cbn [negative_ mantissa_ exponent_ kZero].
    rewrite Z.mul_0_l, Z.mul_0_r. destruct n; cbn [eqb negb sgn Z.eqb]; symmetry; [apply Z.ltb_lt; nia|].
    destruct (Z.eqb_spec m 0); [lia|]. apply Z.ltb_ge; nia.
  - destruct x as [n m e], y as [n' m' e']. unfold svalue, magnitude. cbn [negative_ mantissa_ exponent_] in *.
    pose proof (pow10_pos (e - kMinExponent) ltac:(lia)). pose proof (pow10_pos (e' - kMinExponent) ltac:(lia)).
    unfold numLt. cbn [negative_ mantissa_ exponent_].
    destruct (Z.eqb_spec m 0); [lia|]. destruct (Z.eqb_spec m' 0); [lia|].
    destruct n, n'; cbn [eqb negb sgn]; symmetry; try (apply Z.ltb_lt; nia); try (apply Z.ltb_ge; nia);
      (destruct (Z.ltb_spec e' e) as [Hlt|Hge];
        [pose proof (normal_inj m' e' m e ltac:(lia) ltac:(lia) ltac:(lia) ltac:(lia) Hlt)
        |destruct (Z.ltb_spec e e') as [Hlt|Hge'];
          [pose proof (normal_inj m e m' e' ltac:(lia) ltac:(lia) ltac:(lia) ltac:(lia) Hlt)
          |assert (e = e') as -> by lia; destruct (Z.ltb_spec m' m), (Z.ltb_spec m m')]]);
      (apply Z.ltb_lt || apply Z.ltb_ge); nia.
Qed.

Lemma svalue_inj x y : normal x -> normal y -> svalue x = svalue y -> x = y.
Proof.
  intros Hx Hy E. pose proof (numLt_spec x y Hx Hy) as H1. pose proof (numLt_spec y x Hy Hx) as H2.
  rewrite E, Z.ltb_irrefl in H1, H2. revert H1 H2. unfold numLt.
  destruct (normal_cases x Hx) as [-> | [[Hxm _] Hxe]], (normal_cases y Hy) as [-> | [[Hym _] Hye]].
  - done.
  - destruct y as [n m e]. cbn [negative_ mantissa_ exponent_ kZero] in *. destruct n; cbn [eqb negb Z.eqb]; [done|].
    destruct (Z.ltb_spec 0 m); [done|lia].
  - destruct x as [n m e]. cbn [negative_ mantissa_ exponent_ kZero] in *. destruct n; cbn [eqb negb Z.eqb]; [done|].
    intros _. destruct (Z.ltb_spec 0 m); [done|lia].
  - destruct x as [n m e], y as [n' m' e']. cbn [negative_ mantissa_ exponent_] in *.
    destruct (Z.eqb_spec m 0); [lia|]. destruct (Z.eqb_spec m' 0); [lia|].
    destruct n, n'; cbn [eqb negb]; try done;
      destruct (Z.ltb_spec e' e), (Z.ltb_spec e e'); try done; try lia;
      destruct (Z.ltb_spec m' m), (Z.ltb_spec m m'); try done; intros _ _; f_equal; lia.
Qed.

(** ** Construction *)

Lemma makeNumber_rounded mode m e :
  - 2 ^ 63 <= m < 2 ^ 63 ->
  roundedResult mode (m * 10 ^ Z.max (e - kMinExponent) 0) (10 ^ Z.max (kMinExponent - e) 0) (makeNumber mode Large330 m e).
Proof.
  intros Hm. unfold makeNumber, normalize, externalToInternal.
  change (rangeMin Large330) with (10 ^ 18). change (rangeMax Large330) with (10 ^ 19 - 1).
  change (isCuspFixEnabled Large330) with Enabled330.
  set (A := Z.max (kMinExponent - e) 0). set (B := Z.max (e - kMinExponent) 0).
  assert (0 < 10 ^ A /\ 0 < 10 ^ B) as [HA HB] by (split; apply pow10_pos; lia).
  assert ((if 0 <=? m then m else u64 (- m)) = Z.abs m) as ->.
  { destruct (Z.leb_spec 0 m); [lia|]. rewrite u64_id; lia. }
  destruct (Z.eq_dec m 0) as [-> |Hne]; [rewrite Z.mul_0_l; by apply roundedZero|].
  replace (m * 10 ^ B) with (sgn (m <? 0) * (Z.abs m * 10 ^ B)) by (destruct (Z.ltb_spec m 0); cbn [sgn]; nia).
  apply (doNormalize_result mode _ _ _ HA _ _ _ _ (Z.abs m) 1);
    [lia|nia|lia|split; lia|by rewrite Z.div_1_r| |by rewrite Z.mod_1_r|done].
  exists A, B. split_and!; [lia|lia|lia|ring].
Qed.

(** ** Conversion to an integer *)

Lemma scaleUp_S f drops offset :
  scaleUp (S f) drops offset =
    if 0 <? offset then
      if kMaxRep / 10 <? drops then Overflow else scaleUp f (i64 (drops * 10)) (offset - 1)
    else Ok drops.
Proof. reflexivity. Qed.

Lemma scaleUp_spec f : forall d offset,
  0 < d <= kMaxRep -> 0 <= offset -> kMaxRep < d * 10 ^ Z.of_nat f ->
  match scaleUp (S f) d offset with
  | Ok v => v = d * 10 ^ offset /\ v <= kMaxRep
  | Overflow => kMaxRep < d * 10 ^ offset
  | OutOfFuel => False
  end.
Proof.
  induction f as [|f IH]; intros d o Hd Ho Hf; [change (10 ^ Z.of_nat 0) with 1 in Hf; lia|]. rewrite scaleUp_S.
  destruct (Z.ltb_spec 0 o) as [Hpos|]; [|assert (o = 0) as -> by lia; rewrite Z.pow_0_r; lia].
  change (kMaxRep / 10) with 922337203685477580. rewrite (pow10_ten o) by lia. pose proof (pow10_pos (o - 1) ltac:(lia)).
  destruct (Z.ltb_spec 922337203685477580 d).
  - unfold kMaxRep. nia.
  - rewrite i64_id by lia. specialize (IH (d * 10) (o - 1)).
    replace (d * (10 * 10 ^ (o - 1))) with (d * 10 * 10 ^ (o - 1)) by ring. apply IH; [unfold kMaxRep; lia|lia|].
    replace (Z.of_nat (S f)) with (Z.succ (Z.of_nat f)) in Hf by lia. rewrite Z.pow_succ_r in Hf by lia. lia.
Qed.

(** The external mantissa and exponent have the number's value. *)
Lemma external_view x :
  normal x -> x <> kZero ->
  exists m, 0 < m <= kMaxRep /\ mantissa x = sgn (negative_ x) * m /\ kMinExponent <= exponent x /\
    m * 10 ^ (exponent x - kMinExponent) = magnitude x.
Proof.
  intros Hx Hx0. destruct (normal_nonzero x Hx Hx0) as [[Hm Hc] He]. unfold mantissa, exponent, magnitude.
  destruct (Z.ltb_spec kMaxRep (mantissa_ x)) as [Hgt|Hle].
  - assert (mantissa_ x mod 10 = 0) as Hz by (destruct Hc; [lia|done]). pose proof (Z.div_mod (mantissa_ x) 10 ltac:(lia)) as Hdm.
    exists (mantissa_ x / 10). split; [unfold kMaxRep in *; lia|]. split; [done|]. split; [lia|].
    replace (exponent_ x + 1 - kMinExponent) with (exponent_ x - kMinExponent + 1) by lia. rewrite Z.pow_add_r by lia. nia.
  - exists (mantissa_ x). split; [lia|]. split; [done|]. split; [lia|done].
Qed.

Lemma doRound_strong mode n g m p q :
  0 < q -> 0 <= p -> strong n g m p q -> m < kMaxRep ->
  exists v, doRound mode g m = Ok v /\ roundedInteger mode (sgn n * p) q v /\ Z.abs v <= kMaxRep.
Proof.
  intros Hq Hp (Hg & Hm & Hc) Hlt. pose proof (Z.div_mod p q ltac:(lia)) as Hdm. pose proof (Z.mod_pos_bound p q Hq) as Hr.
  assert (0 <= m) by (rewrite Hm; apply Z.div_pos; lia).
  exists (sgn n * (if upCls (dirOf mode n) (cls (p mod q) q) (Z.odd m) then m + 1 else m)).
  unfold doRound. rewrite (roundsUp_cls mode n g m Hg), Hc. destruct Hg as (_ & -> & _).
  destruct (Z.leb_spec kMaxRep m); [lia|]. split; [|split].
  - destruct (upCls _ _ _), n; cbn [sgn]; f_equal; lia.
  - replace p with (m * q + p mod q) at 1 by (rewrite Hm; lia). by apply roundedInteger_unit.
  - rewrite abs_sgn; destruct (upCls _ _ _); lia.
Qed.

Lemma doRound_exact mode n g m :
  wfG n g -> gcls g = FZero -> doRound mode g m = Ok (sgn n * m).
Proof.
  intros Hg Hc. unfold doRound. rewrite (roundsUp_cls mode n g m Hg), Hc. destruct Hg as (_ & -> & _).
  destruct n; cbn [upCls sgn]; f_equal; lia.
Qed.

Lemma roundedInteger_exact mode v Q : 0 < Q -> roundedInteger mode (v * Q) Q v.
Proof.
  intros HQ. unfold roundedInteger. destruct mode; [| |nia..].
  - replace (2 * (v * Q - v * Q)) with 0 by ring. cbn. lia.
  - rewrite Z.abs_mul, (Z.abs_eq Q) by lia. nia.
Qed.

Definition representable (mode : RoundingMode) (x : Number) (res : NumResult Z) : Prop :=
  match res with
  | Ok v => roundedInteger mode (svalue x) unitScale v /\ Z.abs v <= kMaxRep
  | Overflow => kMaxRep * unitScale < Z.abs (svalue x)
  | OutOfFuel => False
  end.

Lemma toRep_fraction mode n g m e :
  wfG n g -> gcls g = FZero -> digits_ g = 0 -> 0 < m <= kMaxRep -> e < 0 ->
  exists v, (let! (g, drops, offset) := doDropDigitWithTarget loopFuel W64 g m e 0 in
             let! drops := scaleUp loopFuel drops offset in doRound mode g drops) = Ok v /\
    roundedInteger mode (sgn n * m) (10 ^ (- e)) v /\ Z.abs v <= kMaxRep.
Proof.
  intros Hg Hc Hd Hm He.
  destruct (dropTarget_spec n W64 63 g m e m 1 0 ltac:(lia)) as (g' & Eg & Hst & _);
    [lia|unfold fits; unfold kMaxRep in Hm; cbn; lia| |lia| |].
  { split; [done|]. split; [by rewrite Z.div_1_r|]. by rewrite Z.mod_1_r. }
  { exists 19%nat, 0%nat. rewrite Hd. unfold kMaxRep in Hm. cbn. lia. }
  change loopFuel with 64%nat. rewrite (nbind_ok _ _ _ Eg). cbv beta iota. rewrite scaleUp_S. cbn [Z.ltb Z.compare nbind].
  replace (0 - e) with (- e) in * by lia.
  replace (1 * 10 ^ (- e - 1) * 10) with (10 ^ (- e)) in Hst by (rewrite (pow10_ten (- e)) by lia; ring).
  rewrite Z.mul_1_l. pose proof (pow10_pos (- e) ltac:(lia)).
  apply (doRound_strong mode n g' _ m); [done|lia|done|].
  pose proof (pow10_pos (- e - 1) ltac:(lia)). pose proof (pow10_ten (- e) ltac:(lia)).
  apply Z.div_lt_upper_bound; [lia|]. unfold kMaxRep in *. nia.
Qed.

Lemma magnitude_integer m e x :
  kMinExponent <= e -> m * 10 ^ (e - kMinExponent) = magnitude x -> 0 <= e -> magnitude x = m * 10 ^ e * unitScale.
Proof.
  intros He Hx H0. rewrite <-Hx, <-unitScale_eq. replace (e - kMinExponent) with (e + - kMinExponent) by lia.
  rewrite Z.pow_add_r by (unfold kMinExponent; lia). generalize (10 ^ (- kMinExponent)). intros; ring.
Qed.

Lemma toRep_representable mode x : normal x -> representable mode x (toRep mode Large330 x).
Proof.
  intros Hx. unfold toRep. destruct (numEq_spec x kZero) as [-> |Hx0].
  { cbn [mantissa kZero]. split; [|done]. rewrite svalue_zero. apply (roundedInteger_exact mode 0), unitScale_pos. }
  destruct (external_view x Hx Hx0) as (m & Hm & Em & He & Hv). rewrite Em. set (n := negative_ x) in *.
  destruct (Z.eqb_spec (sgn n * m) 0); [destruct n; cbn [sgn] in *; lia|].
  assert ((if n then (setNegative (rangeGuard Large330), - (sgn n * m)) else (rangeGuard Large330, sgn n * m)) =
          (if n then setNegative (rangeGuard Large330) else rangeGuard Large330, m)) as ->.
  { destruct n; cbn [sgn]; f_equal; lia. }
  destruct (addGuard n) as (Hg & Hc & Hd). set (g := if n then _ else _) in *. cbv beta iota.
  assert (svalue x = sgn n * magnitude x) as Hs by done. pose proof unitScale_pos as HU.
  destruct (Z.ltb_spec (exponent x) 0) as [Hneg|Hpos].
  - destruct (toRep_fraction mode n g m (exponent x) Hg Hc Hd Hm Hneg) as (v & -> & Hr & Hb). split; [|done].
    revert Hr. apply roundedInteger_scale; [apply pow10_pos; lia|done|]. rewrite Hs, <-Hv, <-unitScale_eq.
    replace (- kMinExponent) with ((exponent x - kMinExponent) + - exponent x) by lia. rewrite Z.pow_add_r by lia.
    generalize (10 ^ (exponent x - kMinExponent)) (10 ^ (- exponent x)). intros; ring.
  - cbn [nbind]. pose proof (magnitude_integer m _ x He Hv Hpos) as Hmag.
    pose proof (scaleUp_spec 63 m (exponent x) Hm Hpos) as Hsc. change loopFuel with 64%nat.
    destruct (scaleUp 64 m (exponent x)) as [d| |] eqn:Es; cbn [nbind]; [|cbn|].
    + destruct Hsc as [-> Hle]; [unfold kMaxRep; cbn; lia|]. rewrite (doRound_exact mode n g _ Hg Hc). cbn. split.
      * rewrite Hs, Hmag, Z.mul_assoc. by apply roundedInteger_exact.
      * rewrite abs_sgn; [done|]. pose proof (pow10_pos (exponent x) Hpos). nia.
    + specialize (Hsc ltac:(unfold kMaxRep; cbn; lia)). rewrite Hs, abs_sgn, Hmag; [by apply Z.mul_lt_mono_pos_r|].
      rewrite Hmag. unfold kMaxRep in Hsc. generalize unitScale, (m * 10 ^ exponent x), Hsc, HU. clear. intros; nia.
    + apply Hsc. unfold kMaxRep. cbn. lia.
Qed.

(** ** Integer part and powers *)

(** A representable value is its own rounding. *)
Lemma rounded_representable mode y r :
  normal y -> Z.abs (svalue y) < kMaxRepUp * topScale -> roundedResult mode (svalue y) 1 r ->
  exists x, r = Ok x /\ normal x /\ svalue x = svalue y.
Proof.
  intros Hy Htop. destruct r as [x| |]; cbn [roundedResult]; [|lia|done]. intros (Hx & Hbig & Hsmall).
  exists x. split_and!; [done..|]. destruct (Z.lt_ge_cases (Z.abs (svalue y)) (10 ^ 18 * 1)) as [Hlt|Hge].
  - assert (svalue y = 0) as E0.
    { destruct (normal_cases y Hy) as [-> |[Hm He]]; [apply svalue_zero|]. exfalso. revert Hlt. unfold svalue.
      pose proof (pow10_pos (exponent_ y - kMinExponent) ltac:(lia)). destruct Hm as [Hm _].
      rewrite abs_sgn; unfold magnitude; nia. }
    rewrite (Hsmall Hlt), svalue_zero. lia.
  - specialize (Hbig Hge). unfold correctlyRounded in Hbig. destruct mode.
    + destruct (Hbig y Hy) as [H _]. lia.
    + destruct Hbig as (H1 & H2 & H3). specialize (H3 y Hy ltac:(lia)). nia.
    + destruct Hbig as (H1 & H2). specialize (H2 y Hy ltac:(lia)). lia.
    + destruct Hbig as (H1 & H2). specialize (H2 y Hy ltac:(lia)). lia.
Qed.

Lemma truncLoop_S f m e :
  truncLoop (S f) m e = if (e <? 0) && negb (m =? 0) then truncLoop f (m / 10) (e + 1) else Ok (m, e).
Proof. reflexivity. Qed.

Lemma truncLoop_spec f : forall m e,
  0 <= m < 10 ^ Z.of_nat f -> e <= 0 ->
  exists k, truncLoop (S f) m e = Ok (m / 10 ^ k, e + k) /\ 0 <= k <= - e /\ (e + k = 0 \/ m / 10 ^ k = 0).
Proof.
  induction f as [|f IH]; intros m e Hm He; rewrite truncLoop_S.
  - change (10 ^ Z.of_nat 0) with 1 in Hm. assert (m = 0) as -> by lia. rewrite andb_false_r.
    exists 0. rewrite Z.pow_0_r, Z.add_0_r. split; [done|]. split; [lia|by right].
  - destruct (Z.ltb_spec e 0), (Z.eqb_spec m 0); cbn [andb negb];
      [exists 0; subst; rewrite Z.pow_0_r, Z.add_0_r, Z.div_1_r; split; [done|lia]| |
       exists 0; rewrite Z.pow_0_r, Z.add_0_r, Z.div_1_r; split; [done|lia]..].
    replace (Z.of_nat (S f)) with (Z.succ (Z.of_nat f)) in Hm by lia. rewrite Z.pow_succ_r in Hm by lia.
    destruct (IH (m / 10) (e + 1)) as (k & Ek & Hk & Hend).
    + split; [apply Z.div_pos; lia|apply Z.div_lt_upper_bound; lia].
    + lia.
    + exists (k + 1). rewrite Ek. pose proof (pow10_pos k ltac:(lia)).
      rewrite Z.pow_add_r, Z.pow_1_r, Z.mul_comm, <-Z.div_div in * by lia.
      split; [do 2 f_equal; lia|]. split; [lia|]. destruct Hend; [left; lia|by right].
Qed.

(** The integers below [10 ^ 18] are representable. *)
Lemma integer_normal n m :
  0 < m < 10 ^ 18 -> exists y, normal y /\ svalue y = sgn n * (m * unitScale) /\ exponent_ y <= 0.
Proof.
  intros Hm. destruct (growLoop_spec W64 18 m 0) as (k & Ek & Hk & Hfit & Hlt & Hge).
  - lia.
  - unfold fits. cbn. lia.
  - change (Z.of_nat 18) with 18. nia.
  - assert (0 < k) by (destruct (Z.eq_dec k 0) as [-> |]; [rewrite Z.pow_0_r, Z.mul_1_r in Hge; unfold kMinExponent in *; lia|lia]).
    specialize (Hlt ltac:(lia)). assert (k < 19) as Hk19.
    { destruct (Z.lt_ge_cases k 19); [done|]. pose proof (Z.pow_le_mono_r 10 19 k ltac:(lia) ltac:(lia)). nia. }
    exists (mkNumber n (m * 10 ^ k) (- k)). split; [apply normal_intro|].
    + split; [unfold kMinExponent in Hge; lia|]. right. rewrite (pow10_ten k) by lia.
      replace (m * (10 * 10 ^ (k - 1))) with (m * 10 ^ (k - 1) * 10) by ring. apply Z.mod_mul. lia.
    + unfold kMinExponent, kMaxExponent. lia.
    + split; [|cbn; lia]. unfold svalue, magnitude. cbn [negative_ mantissa_ exponent_]. f_equal.
      rewrite <-unitScale_eq. replace (- kMinExponent) with (k + (- k - kMinExponent)) by lia.
      rewrite Z.pow_add_r by (unfold kMinExponent; lia). generalize (10 ^ (- k - kMinExponent)). intros; ring.
Qed.

Lemma small_below_top v : Z.abs v < 10 ^ 18 * unitScale -> Z.abs v < kMaxRepUp * topScale.
Proof.
  intros Hv. rewrite <-topScale_eq. rewrite <-unitScale_eq in Hv.
  assert (10 ^ (- kMinExponent) <= 10 ^ (kMaxExponent - kMinExponent)) as Hle
    by (apply Z.pow_le_mono_r; unfold kMaxExponent, kMinExponent; lia).
  revert Hv Hle. rewrite kMaxRepUp_eq. generalize (10 ^ (- kMinExponent)) (10 ^ (kMaxExponent - kMinExponent)). intros; lia.
Qed.

Lemma truncated_value x k :
  normal x -> exponent_ x < 0 -> 0 <= k <= - exponent_ x -> exponent_ x + k = 0 \/ mantissa_ x / 10 ^ k = 0 ->
  magnitude x / unitScale = mantissa_ x / 10 ^ k.
Proof.
  intros Hx Hneg Hk Hend.
  assert (magnitude x / unitScale = mantissa_ x / 10 ^ (- exponent_ x)) as ->.
  { pose proof unitScale_pos. pose proof (pow10_pos (- exponent_ x) ltac:(lia)). unfold magnitude.
    destruct (normal_cases x Hx) as [E |[Hm He]]; [rewrite E at 1 3; cbn [kZero mantissa_]; rewrite Z.mul_0_l, !Z.div_0_l by lia; reflexivity|].
    rewrite <-unitScale_eq.
    replace (- kMinExponent) with (- exponent_ x + (exponent_ x - kMinExponent)) by lia. rewrite Z.pow_add_r by lia.
    apply Z.div_mul_cancel_r; apply Z.pow_nonzero; lia. }
  destruct Hend as [|Hz]; [by replace (- exponent_ x) with k by lia|]. rewrite Hz.
  replace (- exponent_ x) with (k + (- exponent_ x - k)) by lia. rewrite Z.pow_add_r by lia.
  rewrite <-Z.div_div, Hz, Z.div_0_l by (try apply Z.pow_nonzero; try apply pow10_pos; lia). done.
Qed.

Lemma truncate_spec mode x :
  normal x -> exists r, truncate mode Large330 x = Ok r /\ normal r /\
    svalue r = sgn (negative_ x) * (magnitude x / unitScale * unitScale).
Proof.
  intros Hx. pose proof unitScale_pos as HU. unfold truncate. destruct (normal_cases x Hx) as [-> |[Hm He]].
  { exists kZero. split_and!; [done..|]. rewrite svalue_zero. unfold magnitude. cbn [kZero mantissa_].
    by rewrite Z.mul_0_l, Z.mul_0_r. }
  destruct (Z.leb_spec 0 (exponent_ x)) as [Hpos|Hneg]; cbn [orb].
  { exists x. split_and!; [done..|]. unfold svalue. f_equal.
    rewrite (magnitude_integer (mantissa_ x) (exponent_ x) x), Z.div_mul by (done || lia). done. }
  destruct (Z.eqb_spec (mantissa_ x) 0); [destruct Hm; lia|].
  destruct (truncLoop_spec 63 (mantissa_ x) (exponent_ x)) as (k & Ek & Hk & Hend);
    [destruct Hm; change (10 ^ Z.of_nat 63) with (10 ^ 63); lia|lia|].
  change loopFuel with 64%nat. rewrite (nbind_ok _ _ _ Ek). cbv beta iota.
  rewrite (truncated_value x k Hx Hneg Hk Hend). set (q := mantissa_ x / 10 ^ k) in *.
  destruct (Z.eq_dec q 0) as [-> |Hq0]; [exists kZero; split_and!; [done..|]; by rewrite svalue_zero, Z.mul_0_l, Z.mul_0_r|].
  assert (exponent_ x + k = 0) as E0 by (destruct Hend; lia). rewrite E0.
  assert (0 < q < 10 ^ 18) as Hq.
  { pose proof (pow10_pos (k - 1) ltac:(lia)). pose proof (pow10_ten k ltac:(lia)). destruct Hm.
    assert (0 <= q) by (apply Z.div_pos; lia). split; [lia|apply Z.div_lt_upper_bound; [lia|nia]]. }
  destruct (integer_normal (negative_ x) q Hq) as (y & Hy & Ey & Hey). rewrite <-Ey.
  apply (rounded_representable mode); [done|apply small_below_top; rewrite Ey, abs_sgn; nia|]. rewrite Ey.
  unfold normalize. change (rangeMin Large330) with (10 ^ 18). change (rangeMax Large330) with (10 ^ 19 - 1).
  change (isCuspFixEnabled Large330) with Enabled330.
  apply (doNormalize_result mode _ _ _ Z.lt_0_1 _ _ _ _ q 1);
    [lia|nia|lia|unfold fits; cbn; lia|by rewrite Z.div_1_r| |by rewrite Z.mod_1_r|done].
  exists 0, (- kMinExponent). rewrite unitScale_eq, Z.pow_0_r. split_and!; [lia|unfold kMinExponent; lia|lia|]. generalize unitScale. intros; ring.
Qed.

Lemma powerLoop_total mode f : forall k n,
  normal f -> 0 <= n < 2 ^ Z.of_nat k ->
  match powerLoop mode Large330 (S k) f n with Ok r => normal r | Overflow => True | OutOfFuel => False end.
Proof.
  assert (forall x y, normal x -> normal y ->
    match numMul mode Large330 x y with Ok r => normal r | Overflow => True | OutOfFuel => False end) as Hmul.
  { intros x y Hx Hy. pose proof (numMul_rounded mode x y Hx Hy) as H.
    destruct (numMul mode Large330 x y); [apply H|done|done]. }
  intros k. induction k as [|k IH]; intros n Hf Hn.
  - change (2 ^ Z.of_nat 0) with 1 in Hn. assert (n = 0) as -> by lia. done.
  - replace (Z.of_nat (S k)) with (Z.succ (Z.of_nat k)) in Hn by lia. rewrite Z.pow_succ_r in Hn by lia.
    specialize (IH (n / 2) Hf ltac:(split; [apply Z.div_pos; lia|apply Z.div_lt_upper_bound; lia])).
    remember (S k) as k'. cbn [powerLoop]. destruct (n =? 0); [done|]. destruct (n =? 1); [done|].
    destruct (powerLoop mode Large330 k' f (n / 2)) as [r| |]; cbn [nbind]; [|done|done].
    specialize (Hmul r r IH IH) as Hr. destruct (numMul mode Large330 r r) as [r2| |]; cbn [nbind]; [|done|done].
    destruct (negb (n mod 2 =? 0)); [by apply Hmul|done].
Qed.

(** ** The promises *)

(** C6: in the scale [Large330] (with the amendments that fix the rounding active) and in each
    of the four rounding modes, addition, subtraction, multiplication and division of
    [Number] whose exact result is at least the smallest positive number return it correctly
    rounded to a representable number: no other representable number is nearer (or, in a
    directed mode, no other is tighter on the required side), ties go to the even mantissa,
    and the overflow error is raised only beyond the range.  A smaller result is zero in
    every mode; only a product, rounded to whole units of the smallest exponent first, is
    the smallest number when that rounding reaches it.  Division by zero is the error.  No
    loop runs out of fuel. *)
Theorem arithmetic_rounded (mode : RoundingMode) (x y : Number) (Hx : normal x) (Hy : normal y) :
  roundedResult mode (svalue x + svalue y) 1 (numAdd mode Large330 x y) /\
  roundedResult mode (svalue x - svalue y) 1 (numSub mode Large330 x y) /\
  roundedProduct mode (svalue x * svalue y) unitScale (numMul mode Large330 x y) /\
  (y <> kZero ->
   roundedResult mode (svalue x * sgn (negative_ y) * unitScale) (magnitude y) (numDiv mode Large330 x y)) /\
  numDiv mode Large330 x kZero = Overflow.
Proof.
  split_and!; [by apply numAdd_rounded|by apply numSub_rounded|by apply numMul_rounded|
    intros; by apply numDiv_rounded|reflexivity].
Qed.

Lemma arithmetic_rounded_witness :
  let x := mkNumber true 9223372036854775810 (-3) in
  let y := mkNumber false 3000000000000000000 7 in
  roundedResult Upward (svalue x + svalue y) 1 (numAdd Upward Large330 x y) /\
  numDiv ToNearest Large330 x y = Ok (mkNumber true 3074457345618258603 (-28)).
Proof.
  split; [|vm_compute; reflexivity].
  exact (proj1 (arithmetic_rounded Upward (mkNumber true 9223372036854775810 (-3)) (mkNumber false 3000000000000000000 7) eq_refl eq_refl)).
Defined.

(** The comparison operators of [Number] decide the order and the equality of the values:
    [operator<] is less-than of the values, and [operator==], which compares the
    representations, holds exactly of numbers of equal value. *)
Theorem number_order (x y : Number) (Hx : normal x) (Hy : normal y) :
  numLt x y = (svalue x <? svalue y) /\ (numEq x y = true <-> svalue x = svalue y).
Proof.
  split; [by apply numLt_spec|]. destruct (numEq_spec x y) as [-> |Hne]; [done|].
  split; [done|]. intros H. exfalso. by apply Hne, svalue_inj.
Qed.

Lemma number_order_witness :
  numEq (mkNumber true (10 ^ 18) (-18)) (mkNumber true (10 ^ 18) (-17)) = false /\
  (numEq (one Large330) (one Large330) = true <-> svalue (one Large330) = svalue (one Large330)).
Proof. split; [reflexivity|exact (proj2 (number_order (one Large330) (one Large330) eq_refl eq_refl))]. Defined.

(** C34: integers and [Number] convert both ways, in the scale [Large330] and in each of the
    four rounding modes: a number built from any 64-bit mantissa and exponent is that value
    correctly rounded, or zero when it is below the smallest positive number, with the
    overflow error only beyond the range; the conversion to a 64-bit integer returns the
    value rounded to an integer in the current mode, and raises the error only when the
    value exceeds [2 ^ 63 - 1]; [truncate] returns the integer part. *)
Theorem number_conversions (mode : RoundingMode) (m e : Z) (x : Number)
    (Hm : - 2 ^ 63 <= m < 2 ^ 63) (Hx : normal x) :
  roundedResult mode (m * 10 ^ Z.max (e - kMinExponent) 0) (10 ^ Z.max (kMinExponent - e) 0)
    (makeNumber mode Large330 m e) /\
  match toRep mode Large330 x with
  | Ok v => roundedInteger mode (svalue x) unitScale v /\ Z.abs v <= kMaxRep
  | Overflow => kMaxRep * unitScale < Z.abs (svalue x)
  | OutOfFuel => False
  end /\
  exists r, truncate mode Large330 x = Ok r /\ normal r /\
    svalue r = sgn (negative_ x) * (magnitude x / unitScale * unitScale).
Proof.
  split_and!; [by apply makeNumber_rounded|exact (toRep_representable mode x Hx)|by apply truncate_spec].
Qed.

Lemma number_conversions_witness :
  let x := mkNumber true 2500000000000000000 (-18) in
  (exists r, truncate ToNearest Large330 x = Ok r /\ normal r /\
    svalue r = sgn (negative_ x) * (magnitude x / unitScale * unitScale)) /\
  toRep ToNearest Large330 x = Ok (-2).
Proof.
  intros x. split; [|vm_compute; reflexivity].
  assert (- 2 ^ 63 <= - 2 ^ 63 < 2 ^ 63) as Hm by lia. assert (normal x) as Hx by reflexivity.
  destruct (number_conversions ToNearest (- 2 ^ 63) 0 x Hm Hx) as [_ [_ H]]. exact H.
Defined.

(** [divu10], the division of a 128-bit integer by ten with shifts and additions, computes
    the quotient and the remainder. *)
Theorem divu10_is_division (u : Z) (Hu : 0 <= u < 2 ^ 128) : divu10 u = (u mod 10, u / 10).
Proof. by apply divu10_spec. Qed.

Lemma divu10_is_division_witness : divu10 (2 ^ 128 - 1) = ((2 ^ 128 - 1) mod 10, (2 ^ 128 - 1) / 10).
Proof. apply divu10_is_division. lia. Defined.

(** Powers by repeated squaring end for every 32-bit exponent. *)
Theorem power_total (mode : RoundingMode) (f : Number) (n : Z) :
  normal f -> 0 <= n < 2 ^ 32 -> match power mode Large330 f n with Ok r => normal r | Overflow => True | OutOfFuel => False end.
Proof. intros Hf Hn. exact (powerLoop_total mode f 32 n Hf Hn). Qed.

(** The sum of [Number::max()] and one, rounded upward, is a number above [Number::max()], and
    its external exponent is above [kMaxExponent]. *)
Theorem sum_above_max :
  exists r, numAdd Upward Large330 (mkNumber false kMaxRep kMaxExponent) (one Large330) = Ok r /\
    numLt (mkNumber false kMaxRep kMaxExponent) r = true /\ exponent r = kMaxExponent + 1.
Proof. eexists. split; [vm_compute; reflexivity|]. split; reflexivity. Qed.
