(* ===== verification/SField.v ===== *)
(** * Fields

    The identifiers of the fields of serialized objects: [SField] of
    include/xrpl/protocol/SField.h and src/libxrpl/protocol/SField.cpp, with the table of
    include/xrpl/protocol/detail/sfields.macro.  The maps from codes and from names to
    fields are searches of the table; the JSON name of a field is its name. *)
From Stdlib Require Import String.
From S2P Require Import Prelude.

(** ** Types *)

Definition STI_UNKNOWN : Z := (-2).
Definition STI_NOTPRESENT : Z := 0.
Definition STI_UINT16 : Z := 1.
Definition STI_UINT32 : Z := 2.
Definition STI_UINT64 : Z := 3.
Definition STI_UINT128 : Z := 4.
Definition STI_UINT256 : Z := 5.
Definition STI_AMOUNT : Z := 6.
Definition STI_VL : Z := 7.
Definition STI_ACCOUNT : Z := 8.
Definition STI_NUMBER : Z := 9.
Definition STI_INT32 : Z := 10.
Definition STI_INT64 : Z := 11.
Definition STI_OBJECT : Z := 14.
Definition STI_ARRAY : Z := 15.
Definition STI_UINT8 : Z := 16.
Definition STI_UINT160 : Z := 17.
Definition STI_PATHSET : Z := 18.
Definition STI_VECTOR256 : Z := 19.
Definition STI_UINT96 : Z := 20.
Definition STI_UINT192 : Z := 21.
Definition STI_UINT384 : Z := 22.
Definition STI_UINT512 : Z := 23.
Definition STI_ISSUE : Z := 24.
Definition STI_CURRENCY : Z := 26.
Definition STI_TRANSACTION : Z := 10001.
Definition STI_LEDGERENTRY : Z := 10002.
Definition STI_VALIDATION : Z := 10003.
Definition STI_METADATA : Z := 10004.

Definition fieldCode (id index : Z) : Z := Z.lor (Z.shiftl id 16) index.

Definition kSmdNever : Z := 0x00.
Definition kSmdChangeOrig : Z := 0x01.
Definition kSmdChangeNew : Z := 0x02.
Definition kSmdDeleteFinal : Z := 0x04.
Definition kSmdCreate : Z := 0x08.
Definition kSmdAlways : Z := 0x10.
Definition kSmdBaseTen : Z := 0x20.
Definition kSmdPseudoAccount : Z := 0x40.
Definition kSmdNeedsAsset : Z := 0x80.
Definition kSmdDefault : Z := Z.lor (Z.lor (Z.lor kSmdChangeOrig kSmdChangeNew) kSmdDeleteFinal) kSmdCreate.

Record SField := mkSField {
  fieldCodeMem : Z;
  fieldType : Z;
  fieldValue : Z;
  fieldName : string;
  fieldMeta : Z;
  signingField : bool
}.

(** The two constructors. *)
Definition newField (tid fv : Z) (fn : string) (meta : Z) (signing : bool) : SField :=
  mkSField (fieldCode tid fv) tid fv fn meta signing.
Definition newSpecialField (fc : Z) (fn : string) : SField := mkSField fc STI_UNKNOWN 0 fn kSmdNever true.

Definition isInvalid (f : SField) : bool := fieldCodeMem f =? -1.
Definition isUseful (f : SField) : bool := 0 <? fieldCodeMem f.
Definition isBinary (f : SField) : bool := fieldValue f <? 256.
Definition isDiscardable (f : SField) : bool := 256 <? fieldValue f.
Definition shouldMeta (f : SField) (c : Z) : bool := negb (Z.land (fieldMeta f) c =? 0).
Definition shouldInclude (f : SField) (withSigningField : bool) : bool :=
  (fieldValue f <? 256) && (withSigningField || signingField f).
Definition fieldEq (f g : SField) : bool := fieldCodeMem f =? fieldCodeMem g.
Definition fieldCompare (f1 f2 : SField) : Z :=
  if (fieldCodeMem f1 <=? 0) || (fieldCodeMem f2 <=? 0) then 0
  else if fieldCodeMem f1 <? fieldCodeMem f2 then -1
  else if fieldCodeMem f2 <? fieldCodeMem f1 then 1
  else 0.

(** ** The table *)

Definition sfInvalid : SField := newSpecialField (-1) EmptyString.
Definition sfGeneric : SField := newSpecialField 0 "Generic".
Definition kSfHash : SField := newField STI_UINT256 257 "hash" kSmdDefault true.
Definition kSfIndex : SField := newField STI_UINT256 258 "index" kSmdDefault true.
Definition sfLedgerEntry : SField := newField STI_LEDGERENTRY 257 "LedgerEntry" kSmdDefault true.
Definition sfTransaction : SField := newField STI_TRANSACTION 257 "Transaction" kSmdDefault true.
Definition sfValidation : SField := newField STI_VALIDATION 257 "Validation" kSmdDefault true.
Definition sfMetadata : SField := newField STI_METADATA 257 "Metadata" kSmdDefault true.
Definition sfCloseResolution : SField := newField STI_UINT8 1 "CloseResolution" kSmdDefault true.
Definition sfMethod : SField := newField STI_UINT8 2 "Method" kSmdDefault true.
Definition sfTransactionResult : SField := newField STI_UINT8 3 "TransactionResult" kSmdDefault true.
Definition sfScale : SField := newField STI_UINT8 4 "Scale" kSmdDefault true.
Definition sfAssetScale : SField := newField STI_UINT8 5 "AssetScale" kSmdDefault true.
Definition sfLEVersion : SField := newField STI_UINT8 6 "LEVersion" kSmdDefault true.
Definition sfTickSize : SField := newField STI_UINT8 16 "TickSize" kSmdDefault true.
Definition sfUNLModifyDisabling : SField := newField STI_UINT8 17 "UNLModifyDisabling" kSmdDefault true.
Definition sfWithdrawalPolicy : SField := newField STI_UINT8 20 "WithdrawalPolicy" kSmdDefault true.
Definition sfContractResult : SField := newField STI_UINT8 21 "ContractResult" kSmdDefault true.
Definition sfVaultKind : SField := newField STI_UINT8 22 "VaultKind" kSmdDefault true.
Definition sfLedgerEntryType : SField := newField STI_UINT16 1 "LedgerEntryType" kSmdNever true.
Definition sfTransactionType : SField := newField STI_UINT16 2 "TransactionType" kSmdDefault true.
Definition sfSignerWeight : SField := newField STI_UINT16 3 "SignerWeight" kSmdDefault true.
Definition sfTransferFee : SField := newField STI_UINT16 4 "TransferFee" kSmdDefault true.
Definition sfTradingFee : SField := newField STI_UINT16 5 "TradingFee" kSmdDefault true.
Definition sfDiscountedFee : SField := newField STI_UINT16 6 "DiscountedFee" kSmdDefault true.
Definition sfVersion : SField := newField STI_UINT16 16 "Version" kSmdDefault true.
Definition sfLedgerFixType : SField := newField STI_UINT16 21 "LedgerFixType" kSmdDefault true.
Definition sfManagementFeeRate : SField := newField STI_UINT16 22 "ManagementFeeRate" kSmdDefault true.
Definition sfNetworkID : SField := newField STI_UINT32 1 "NetworkID" kSmdDefault true.
Definition sfFlags : SField := newField STI_UINT32 2 "Flags" kSmdDefault true.
Definition sfSourceTag : SField := newField STI_UINT32 3 "SourceTag" kSmdDefault true.
Definition sfSequence : SField := newField STI_UINT32 4 "Sequence" kSmdDefault true.
Definition sfPreviousTxnLgrSeq : SField := newField STI_UINT32 5 "PreviousTxnLgrSeq" kSmdDeleteFinal true.
Definition sfLedgerSequence : SField := newField STI_UINT32 6 "LedgerSequence" kSmdDefault true.
Definition sfCloseTime : SField := newField STI_UINT32 7 "CloseTime" kSmdDefault true.
Definition sfParentCloseTime : SField := newField STI_UINT32 8 "ParentCloseTime" kSmdDefault true.
Definition sfSigningTime : SField := newField STI_UINT32 9 "SigningTime" kSmdDefault true.
Definition sfExpiration : SField := newField STI_UINT32 10 "Expiration" kSmdDefault true.
Definition sfTransferRate : SField := newField STI_UINT32 11 "TransferRate" kSmdDefault true.
Definition sfWalletSize : SField := newField STI_UINT32 12 "WalletSize" kSmdDefault true.
Definition sfOwnerCount : SField := newField STI_UINT32 13 "OwnerCount" kSmdDefault true.
Definition sfDestinationTag : SField := newField STI_UINT32 14 "DestinationTag" kSmdDefault true.
Definition sfLastUpdateTime : SField := newField STI_UINT32 15 "LastUpdateTime" kSmdDefault true.
Definition sfHighQualityIn : SField := newField STI_UINT32 16 "HighQualityIn" kSmdDefault true.
Definition sfHighQualityOut : SField := newField STI_UINT32 17 "HighQualityOut" kSmdDefault true.
Definition sfLowQualityIn : SField := newField STI_UINT32 18 "LowQualityIn" kSmdDefault true.
Definition sfLowQualityOut : SField := newField STI_UINT32 19 "LowQualityOut" kSmdDefault true.
Definition sfQualityIn : SField := newField STI_UINT32 20 "QualityIn" kSmdDefault true.
Definition sfQualityOut : SField := newField STI_UINT32 21 "QualityOut" kSmdDefault true.
Definition sfStampEscrow : SField := newField STI_UINT32 22 "StampEscrow" kSmdDefault true.
Definition sfBondAmount : SField := newField STI_UINT32 23 "BondAmount" kSmdDefault true.
Definition sfLoadFee : SField := newField STI_UINT32 24 "LoadFee" kSmdDefault true.
Definition sfOfferSequence : SField := newField STI_UINT32 25 "OfferSequence" kSmdDefault true.
Definition sfFirstLedgerSequence : SField := newField STI_UINT32 26 "FirstLedgerSequence" kSmdDefault true.
Definition sfLastLedgerSequence : SField := newField STI_UINT32 27 "LastLedgerSequence" kSmdDefault true.
Definition sfTransactionIndex : SField := newField STI_UINT32 28 "TransactionIndex" kSmdDefault true.
Definition sfOperationLimit : SField := newField STI_UINT32 29 "OperationLimit" kSmdDefault true.
Definition sfReferenceFeeUnits : SField := newField STI_UINT32 30 "ReferenceFeeUnits" kSmdDefault true.
Definition sfReserveBase : SField := newField STI_UINT32 31 "ReserveBase" kSmdDefault true.
Definition sfReserveIncrement : SField := newField STI_UINT32 32 "ReserveIncrement" kSmdDefault true.
Definition sfSetFlag : SField := newField STI_UINT32 33 "SetFlag" kSmdDefault true.
Definition sfClearFlag : SField := newField STI_UINT32 34 "ClearFlag" kSmdDefault true.
Definition sfSignerQuorum : SField := newField STI_UINT32 35 "SignerQuorum" kSmdDefault true.
Definition sfCancelAfter : SField := newField STI_UINT32 36 "CancelAfter" kSmdDefault true.
Definition sfFinishAfter : SField := newField STI_UINT32 37 "FinishAfter" kSmdDefault true.
Definition sfSignerListID : SField := newField STI_UINT32 38 "SignerListID" kSmdDefault true.
Definition sfSettleDelay : SField := newField STI_UINT32 39 "SettleDelay" kSmdDefault true.
Definition sfTicketCount : SField := newField STI_UINT32 40 "TicketCount" kSmdDefault true.
Definition sfTicketSequence : SField := newField STI_UINT32 41 "TicketSequence" kSmdDefault true.
Definition sfNFTokenTaxon : SField := newField STI_UINT32 42 "NFTokenTaxon" kSmdDefault true.
Definition sfMintedNFTokens : SField := newField STI_UINT32 43 "MintedNFTokens" kSmdDefault true.
Definition sfBurnedNFTokens : SField := newField STI_UINT32 44 "BurnedNFTokens" kSmdDefault true.
Definition sfVoteWeight : SField := newField STI_UINT32 48 "VoteWeight" kSmdDefault true.
Definition sfFirstNFTokenSequence : SField := newField STI_UINT32 50 "FirstNFTokenSequence" kSmdDefault true.
Definition sfOracleDocumentID : SField := newField STI_UINT32 51 "OracleDocumentID" kSmdDefault true.
Definition sfPermissionValue : SField := newField STI_UINT32 52 "PermissionValue" kSmdDefault true.
Definition sfImmutableFlags : SField := newField STI_UINT32 53 "ImmutableFlags" kSmdDefault true.
Definition sfStartDate : SField := newField STI_UINT32 54 "StartDate" kSmdDefault true.
Definition sfPaymentInterval : SField := newField STI_UINT32 55 "PaymentInterval" kSmdDefault true.
Definition sfGracePeriod : SField := newField STI_UINT32 56 "GracePeriod" kSmdDefault true.
Definition sfPreviousPaymentDueDate : SField := newField STI_UINT32 57 "PreviousPaymentDueDate" kSmdDefault true.
Definition sfNextPaymentDueDate : SField := newField STI_UINT32 58 "NextPaymentDueDate" kSmdDefault true.
Definition sfPaymentRemaining : SField := newField STI_UINT32 59 "PaymentRemaining" kSmdDefault true.
Definition sfPaymentTotal : SField := newField STI_UINT32 60 "PaymentTotal" kSmdDefault true.
Definition sfLoanSequence : SField := newField STI_UINT32 61 "LoanSequence" kSmdDefault true.
Definition sfCoverRateMinimum : SField := newField STI_UINT32 62 "CoverRateMinimum" kSmdDefault true.
Definition sfCoverRateLiquidation : SField := newField STI_UINT32 63 "CoverRateLiquidation" kSmdDefault true.
Definition sfOverpaymentFee : SField := newField STI_UINT32 64 "OverpaymentFee" kSmdDefault true.
Definition sfInterestRate : SField := newField STI_UINT32 65 "InterestRate" kSmdDefault true.
Definition sfLateInterestRate : SField := newField STI_UINT32 66 "LateInterestRate" kSmdDefault true.
Definition sfCloseInterestRate : SField := newField STI_UINT32 67 "CloseInterestRate" kSmdDefault true.
Definition sfOverpaymentInterestRate : SField := newField STI_UINT32 68 "OverpaymentInterestRate" kSmdDefault true.
Definition sfConfidentialBalanceVersion : SField := newField STI_UINT32 69 "ConfidentialBalanceVersion" kSmdDefault true.
Definition sfSponsoredOwnerCount : SField := newField STI_UINT32 70 "SponsoredOwnerCount" kSmdDefault true.
Definition sfSponsoringOwnerCount : SField := newField STI_UINT32 71 "SponsoringOwnerCount" kSmdDefault true.
Definition sfSponsoringAccountCount : SField := newField STI_UINT32 72 "SponsoringAccountCount" kSmdDefault true.
Definition sfRemainingOwnerCount : SField := newField STI_UINT32 73 "RemainingOwnerCount" kSmdDefault true.
Definition sfSponsorFlags : SField := newField STI_UINT32 74 "SponsorFlags" kSmdDefault true.
Definition sfSubscriptionDate : SField := newField STI_UINT32 75 "SubscriptionDate" kSmdDefault true.
Definition sfRedemptionDate : SField := newField STI_UINT32 76 "RedemptionDate" kSmdDefault true.
Definition sfIssuerKeyEpoch : SField := newField STI_UINT32 77 "IssuerKeyEpoch" kSmdDefault true.
Definition sfAuditorKeyEpoch : SField := newField STI_UINT32 78 "AuditorKeyEpoch" kSmdDefault true.
Definition sfIssuerKeyMirrorEpoch : SField := newField STI_UINT32 79 "IssuerKeyMirrorEpoch" kSmdDefault true.
Definition sfAuditorKeyMirrorEpoch : SField := newField STI_UINT32 80 "AuditorKeyMirrorEpoch" kSmdDefault true.
Definition sfGasLimit : SField := newField STI_UINT32 81 "GasLimit" kSmdDefault true.
Definition sfBytecodeSizeLimit : SField := newField STI_UINT32 82 "BytecodeSizeLimit" kSmdDefault true.
Definition sfGasPrice : SField := newField STI_UINT32 83 "GasPrice" kSmdDefault true.
Definition sfGas : SField := newField STI_UINT32 84 "Gas" kSmdDefault true.
Definition sfGasUsed : SField := newField STI_UINT32 85 "GasUsed" kSmdDefault true.
Definition sfIndexNext : SField := newField STI_UINT64 1 "IndexNext" kSmdDefault true.
Definition sfIndexPrevious : SField := newField STI_UINT64 2 "IndexPrevious" kSmdDefault true.
Definition sfBookNode : SField := newField STI_UINT64 3 "BookNode" kSmdDefault true.
Definition sfOwnerNode : SField := newField STI_UINT64 4 "OwnerNode" kSmdDefault true.
Definition sfBaseFee : SField := newField STI_UINT64 5 "BaseFee" kSmdDefault true.
Definition sfExchangeRate : SField := newField STI_UINT64 6 "ExchangeRate" kSmdDefault true.
Definition sfLowNode : SField := newField STI_UINT64 7 "LowNode" kSmdDefault true.
Definition sfHighNode : SField := newField STI_UINT64 8 "HighNode" kSmdDefault true.
Definition sfDestinationNode : SField := newField STI_UINT64 9 "DestinationNode" kSmdDefault true.
Definition sfCookie : SField := newField STI_UINT64 10 "Cookie" kSmdDefault true.
Definition sfServerVersion : SField := newField STI_UINT64 11 "ServerVersion" kSmdDefault true.
Definition sfNFTokenOfferNode : SField := newField STI_UINT64 12 "NFTokenOfferNode" kSmdDefault true.
Definition sfEmitBurden : SField := newField STI_UINT64 13 "EmitBurden" kSmdDefault true.
Definition sfReferenceCount : SField := newField STI_UINT64 19 "ReferenceCount" kSmdDefault true.
Definition sfAssetPrice : SField := newField STI_UINT64 23 "AssetPrice" kSmdDefault true.
Definition sfMaximumAmount : SField := newField STI_UINT64 24 "MaximumAmount" (Z.lor kSmdBaseTen kSmdDefault) true.
Definition sfOutstandingAmount : SField := newField STI_UINT64 25 "OutstandingAmount" (Z.lor kSmdBaseTen kSmdDefault) true.
Definition sfMPTAmount : SField := newField STI_UINT64 26 "MPTAmount" (Z.lor kSmdBaseTen kSmdDefault) true.
Definition sfIssuerNode : SField := newField STI_UINT64 27 "IssuerNode" kSmdDefault true.
Definition sfSubjectNode : SField := newField STI_UINT64 28 "SubjectNode" kSmdDefault true.
Definition sfLockedAmount : SField := newField STI_UINT64 29 "LockedAmount" (Z.lor kSmdBaseTen kSmdDefault) true.
Definition sfVaultNode : SField := newField STI_UINT64 30 "VaultNode" kSmdDefault true.
Definition sfLoanBrokerNode : SField := newField STI_UINT64 31 "LoanBrokerNode" kSmdDefault true.
Definition sfConfidentialOutstandingAmount : SField := newField STI_UINT64 32 "ConfidentialOutstandingAmount" (Z.lor kSmdBaseTen kSmdDefault) true.
Definition sfSponseeNode : SField := newField STI_UINT64 33 "SponseeNode" kSmdDefault true.
Definition sfEmailHash : SField := newField STI_UINT128 1 "EmailHash" kSmdDefault true.
Definition sfTakerPaysCurrency : SField := newField STI_UINT160 1 "TakerPaysCurrency" kSmdDefault true.
Definition sfTakerPaysIssuer : SField := newField STI_UINT160 2 "TakerPaysIssuer" kSmdDefault true.
Definition sfTakerGetsCurrency : SField := newField STI_UINT160 3 "TakerGetsCurrency" kSmdDefault true.
Definition sfTakerGetsIssuer : SField := newField STI_UINT160 4 "TakerGetsIssuer" kSmdDefault true.
Definition sfMPTokenIssuanceID : SField := newField STI_UINT192 1 "MPTokenIssuanceID" kSmdDefault true.
Definition sfShareMPTID : SField := newField STI_UINT192 2 "ShareMPTID" kSmdDefault true.
Definition sfTakerPaysMPT : SField := newField STI_UINT192 3 "TakerPaysMPT" kSmdDefault true.
Definition sfTakerGetsMPT : SField := newField STI_UINT192 4 "TakerGetsMPT" kSmdDefault true.
Definition sfLedgerHash : SField := newField STI_UINT256 1 "LedgerHash" kSmdDefault true.
Definition sfParentHash : SField := newField STI_UINT256 2 "ParentHash" kSmdDefault true.
Definition sfTransactionHash : SField := newField STI_UINT256 3 "TransactionHash" kSmdDefault true.
Definition sfAccountHash : SField := newField STI_UINT256 4 "AccountHash" kSmdDefault true.
Definition sfPreviousTxnID : SField := newField STI_UINT256 5 "PreviousTxnID" kSmdDeleteFinal true.
Definition sfLedgerIndex : SField := newField STI_UINT256 6 "LedgerIndex" kSmdDefault true.
Definition sfWalletLocator : SField := newField STI_UINT256 7 "WalletLocator" kSmdDefault true.
Definition sfRootIndex : SField := newField STI_UINT256 8 "RootIndex" kSmdAlways true.
Definition sfAccountTxnID : SField := newField STI_UINT256 9 "AccountTxnID" kSmdDefault true.
Definition sfNFTokenID : SField := newField STI_UINT256 10 "NFTokenID" kSmdDefault true.
Definition sfEmitParentTxnID : SField := newField STI_UINT256 11 "EmitParentTxnID" kSmdDefault true.
Definition sfEmitNonce : SField := newField STI_UINT256 12 "EmitNonce" kSmdDefault true.
Definition sfEmitHookHash : SField := newField STI_UINT256 13 "EmitHookHash" kSmdDefault true.
Definition sfAMMID : SField := newField STI_UINT256 14 "AMMID" (Z.lor kSmdPseudoAccount kSmdDefault) true.
Definition sfBookDirectory : SField := newField STI_UINT256 16 "BookDirectory" kSmdDefault true.
Definition sfInvoiceID : SField := newField STI_UINT256 17 "InvoiceID" kSmdDefault true.
Definition sfNickname : SField := newField STI_UINT256 18 "Nickname" kSmdDefault true.
Definition sfAmendment : SField := newField STI_UINT256 19 "Amendment" kSmdDefault true.
Definition sfDigest : SField := newField STI_UINT256 21 "Digest" kSmdDefault true.
Definition sfChannel : SField := newField STI_UINT256 22 "Channel" kSmdDefault true.
Definition sfConsensusHash : SField := newField STI_UINT256 23 "ConsensusHash" kSmdDefault true.
Definition sfCheckID : SField := newField STI_UINT256 24 "CheckID" kSmdDefault true.
Definition sfValidatedHash : SField := newField STI_UINT256 25 "ValidatedHash" kSmdDefault true.
Definition sfPreviousPageMin : SField := newField STI_UINT256 26 "PreviousPageMin" kSmdDefault true.
Definition sfNextPageMin : SField := newField STI_UINT256 27 "NextPageMin" kSmdDefault true.
Definition sfNFTokenBuyOffer : SField := newField STI_UINT256 28 "NFTokenBuyOffer" kSmdDefault true.
Definition sfNFTokenSellOffer : SField := newField STI_UINT256 29 "NFTokenSellOffer" kSmdDefault true.
Definition sfDomainID : SField := newField STI_UINT256 34 "DomainID" kSmdDefault true.
Definition sfVaultID : SField := newField STI_UINT256 35 "VaultID" (Z.lor kSmdPseudoAccount kSmdDefault) true.
Definition sfParentBatchID : SField := newField STI_UINT256 36 "ParentBatchID" kSmdDefault true.
Definition sfLoanBrokerID : SField := newField STI_UINT256 37 "LoanBrokerID" (Z.lor kSmdPseudoAccount kSmdDefault) true.
Definition sfLoanID : SField := newField STI_UINT256 38 "LoanID" kSmdDefault true.
Definition sfReferenceHolding : SField := newField STI_UINT256 39 "ReferenceHolding" kSmdDefault true.
Definition sfBlindingFactor : SField := newField STI_UINT256 40 "BlindingFactor" kSmdDefault true.
Definition sfObjectID : SField := newField STI_UINT256 41 "ObjectID" kSmdDefault true.
Definition sfProposalID : SField := newField STI_UINT256 42 "ProposalID" kSmdDefault true.
Definition sfNumber : SField := newField STI_NUMBER 1 "Number" kSmdDefault true.
Definition sfAssetsAvailable : SField := newField STI_NUMBER 2 "AssetsAvailable" (Z.lor kSmdNeedsAsset kSmdDefault) true.
Definition sfAssetsMaximum : SField := newField STI_NUMBER 3 "AssetsMaximum" (Z.lor kSmdNeedsAsset kSmdDefault) true.
Definition sfAssetsTotal : SField := newField STI_NUMBER 4 "AssetsTotal" (Z.lor kSmdNeedsAsset kSmdDefault) true.
Definition sfLossUnrealized : SField := newField STI_NUMBER 5 "LossUnrealized" (Z.lor kSmdNeedsAsset kSmdDefault) true.
Definition sfDebtTotal : SField := newField STI_NUMBER 6 "DebtTotal" (Z.lor kSmdNeedsAsset kSmdDefault) true.
Definition sfDebtMaximum : SField := newField STI_NUMBER 7 "DebtMaximum" (Z.lor kSmdNeedsAsset kSmdDefault) true.
Definition sfCoverAvailable : SField := newField STI_NUMBER 8 "CoverAvailable" (Z.lor kSmdNeedsAsset kSmdDefault) true.
Definition sfLoanOriginationFee : SField := newField STI_NUMBER 9 "LoanOriginationFee" kSmdDefault true.
Definition sfLoanServiceFee : SField := newField STI_NUMBER 10 "LoanServiceFee" kSmdDefault true.
Definition sfLatePaymentFee : SField := newField STI_NUMBER 11 "LatePaymentFee" kSmdDefault true.
Definition sfClosePaymentFee : SField := newField STI_NUMBER 12 "ClosePaymentFee" kSmdDefault true.
Definition sfPrincipalOutstanding : SField := newField STI_NUMBER 13 "PrincipalOutstanding" (Z.lor kSmdNeedsAsset kSmdDefault) true.
Definition sfPrincipalRequested : SField := newField STI_NUMBER 14 "PrincipalRequested" kSmdDefault true.
Definition sfTotalValueOutstanding : SField := newField STI_NUMBER 15 "TotalValueOutstanding" (Z.lor kSmdNeedsAsset kSmdDefault) true.
Definition sfPeriodicPayment : SField := newField STI_NUMBER 16 "PeriodicPayment" kSmdDefault true.
Definition sfManagementFeeOutstanding : SField := newField STI_NUMBER 17 "ManagementFeeOutstanding" (Z.lor kSmdNeedsAsset kSmdDefault) true.
Definition sfYieldUnrealized : SField := newField STI_NUMBER 18 "YieldUnrealized" (Z.lor kSmdNeedsAsset kSmdDefault) true.
Definition sfAssetsDeployed : SField := newField STI_NUMBER 19 "AssetsDeployed" (Z.lor kSmdNeedsAsset kSmdDefault) true.
Definition sfLoanScale : SField := newField STI_INT32 1 "LoanScale" kSmdDefault true.
Definition sfRemainingOwnerCountDelta : SField := newField STI_INT32 2 "RemainingOwnerCountDelta" kSmdDefault true.
Definition sfVMReturnCode : SField := newField STI_INT32 3 "VMReturnCode" kSmdDefault true.
Definition sfAmount : SField := newField STI_AMOUNT 1 "Amount" kSmdDefault true.
Definition sfBalance : SField := newField STI_AMOUNT 2 "Balance" kSmdDefault true.
Definition sfLimitAmount : SField := newField STI_AMOUNT 3 "LimitAmount" kSmdDefault true.
Definition sfTakerPays : SField := newField STI_AMOUNT 4 "TakerPays" kSmdDefault true.
Definition sfTakerGets : SField := newField STI_AMOUNT 5 "TakerGets" kSmdDefault true.
Definition sfLowLimit : SField := newField STI_AMOUNT 6 "LowLimit" kSmdDefault true.
Definition sfHighLimit : SField := newField STI_AMOUNT 7 "HighLimit" kSmdDefault true.
Definition sfFee : SField := newField STI_AMOUNT 8 "Fee" kSmdDefault true.
Definition sfSendMax : SField := newField STI_AMOUNT 9 "SendMax" kSmdDefault true.
Definition sfDeliverMin : SField := newField STI_AMOUNT 10 "DeliverMin" kSmdDefault true.
Definition sfAmount2 : SField := newField STI_AMOUNT 11 "Amount2" kSmdDefault true.
Definition sfBidMin : SField := newField STI_AMOUNT 12 "BidMin" kSmdDefault true.
Definition sfBidMax : SField := newField STI_AMOUNT 13 "BidMax" kSmdDefault true.
Definition sfMinimumOffer : SField := newField STI_AMOUNT 16 "MinimumOffer" kSmdDefault true.
Definition sfRippleEscrow : SField := newField STI_AMOUNT 17 "RippleEscrow" kSmdDefault true.
Definition sfDeliveredAmount : SField := newField STI_AMOUNT 18 "DeliveredAmount" kSmdDefault true.
Definition sfNFTokenBrokerFee : SField := newField STI_AMOUNT 19 "NFTokenBrokerFee" kSmdDefault true.
Definition sfBaseFeeDrops : SField := newField STI_AMOUNT 22 "BaseFeeDrops" kSmdDefault true.
Definition sfReserveBaseDrops : SField := newField STI_AMOUNT 23 "ReserveBaseDrops" kSmdDefault true.
Definition sfReserveIncrementDrops : SField := newField STI_AMOUNT 24 "ReserveIncrementDrops" kSmdDefault true.
Definition sfLPTokenOut : SField := newField STI_AMOUNT 25 "LPTokenOut" kSmdDefault true.
Definition sfLPTokenIn : SField := newField STI_AMOUNT 26 "LPTokenIn" kSmdDefault true.
Definition sfEPrice : SField := newField STI_AMOUNT 27 "EPrice" kSmdDefault true.
Definition sfPrice : SField := newField STI_AMOUNT 28 "Price" kSmdDefault true.
Definition sfLPTokenBalance : SField := newField STI_AMOUNT 31 "LPTokenBalance" kSmdDefault true.
Definition sfFeeAmount : SField := newField STI_AMOUNT 32 "FeeAmount" kSmdDefault true.
Definition sfMaxFee : SField := newField STI_AMOUNT 33 "MaxFee" kSmdDefault true.
Definition sfFeeAmountDelta : SField := newField STI_AMOUNT 34 "FeeAmountDelta" kSmdDefault true.
Definition sfPublicKey : SField := newField STI_VL 1 "PublicKey" kSmdDefault true.
Definition sfMessageKey : SField := newField STI_VL 2 "MessageKey" kSmdDefault true.
Definition sfSigningPubKey : SField := newField STI_VL 3 "SigningPubKey" kSmdDefault true.
Definition sfTxnSignature : SField := newField STI_VL 4 "TxnSignature" kSmdDefault false.
Definition sfURI : SField := newField STI_VL 5 "URI" kSmdDefault true.
Definition sfSignature : SField := newField STI_VL 6 "Signature" kSmdDefault false.
Definition sfDomain : SField := newField STI_VL 7 "Domain" kSmdDefault true.
Definition sfFundCode : SField := newField STI_VL 8 "FundCode" kSmdDefault true.
Definition sfRemoveCode : SField := newField STI_VL 9 "RemoveCode" kSmdDefault true.
Definition sfExpireCode : SField := newField STI_VL 10 "ExpireCode" kSmdDefault true.
Definition sfCreateCode : SField := newField STI_VL 11 "CreateCode" kSmdDefault true.
Definition sfMemoType : SField := newField STI_VL 12 "MemoType" kSmdDefault true.
Definition sfMemoData : SField := newField STI_VL 13 "MemoData" kSmdDefault true.
Definition sfMemoFormat : SField := newField STI_VL 14 "MemoFormat" kSmdDefault true.
Definition sfFulfillment : SField := newField STI_VL 16 "Fulfillment" kSmdDefault true.
Definition sfCondition : SField := newField STI_VL 17 "Condition" kSmdDefault true.
Definition sfMasterSignature : SField := newField STI_VL 18 "MasterSignature" kSmdDefault false.
Definition sfUNLModifyValidator : SField := newField STI_VL 19 "UNLModifyValidator" kSmdDefault true.
Definition sfValidatorToDisable : SField := newField STI_VL 20 "ValidatorToDisable" kSmdDefault true.
Definition sfValidatorToReEnable : SField := newField STI_VL 21 "ValidatorToReEnable" kSmdDefault true.
Definition sfDIDDocument : SField := newField STI_VL 26 "DIDDocument" kSmdDefault true.
Definition sfData : SField := newField STI_VL 27 "Data" kSmdDefault true.
Definition sfAssetClass : SField := newField STI_VL 28 "AssetClass" kSmdDefault true.
Definition sfProvider : SField := newField STI_VL 29 "Provider" kSmdDefault true.
Definition sfMPTokenMetadata : SField := newField STI_VL 30 "MPTokenMetadata" kSmdDefault true.
Definition sfCredentialType : SField := newField STI_VL 31 "CredentialType" kSmdDefault true.
Definition sfConfidentialBalanceInbox : SField := newField STI_VL 32 "ConfidentialBalanceInbox" kSmdDefault true.
Definition sfConfidentialBalanceSpending : SField := newField STI_VL 33 "ConfidentialBalanceSpending" kSmdDefault true.
Definition sfIssuerEncryptedBalance : SField := newField STI_VL 34 "IssuerEncryptedBalance" kSmdDefault true.
Definition sfIssuerEncryptionKey : SField := newField STI_VL 35 "IssuerEncryptionKey" kSmdDefault true.
Definition sfHolderEncryptionKey : SField := newField STI_VL 36 "HolderEncryptionKey" kSmdDefault true.
Definition sfZKProof : SField := newField STI_VL 37 "ZKProof" kSmdDefault true.
Definition sfHolderEncryptedAmount : SField := newField STI_VL 38 "HolderEncryptedAmount" kSmdDefault true.
Definition sfIssuerEncryptedAmount : SField := newField STI_VL 39 "IssuerEncryptedAmount" kSmdDefault true.
Definition sfSenderEncryptedAmount : SField := newField STI_VL 40 "SenderEncryptedAmount" kSmdDefault true.
Definition sfDestinationEncryptedAmount : SField := newField STI_VL 41 "DestinationEncryptedAmount" kSmdDefault true.
Definition sfAuditorEncryptedBalance : SField := newField STI_VL 42 "AuditorEncryptedBalance" kSmdDefault true.
Definition sfAuditorEncryptedAmount : SField := newField STI_VL 43 "AuditorEncryptedAmount" kSmdDefault true.
Definition sfAuditorEncryptionKey : SField := newField STI_VL 44 "AuditorEncryptionKey" kSmdDefault true.
Definition sfAmountCommitment : SField := newField STI_VL 45 "AmountCommitment" kSmdDefault true.
Definition sfBalanceCommitment : SField := newField STI_VL 46 "BalanceCommitment" kSmdDefault true.
Definition sfBytecode : SField := newField STI_VL 47 "Bytecode" kSmdDefault true.
Definition sfRecoveryKey : SField := newField STI_VL 48 "RecoveryKey" kSmdDefault true.
Definition sfInitialIssuerEncryptionKey : SField := newField STI_VL 49 "InitialIssuerEncryptionKey" kSmdDefault true.
Definition sfIssuerMirrorEncryptionKey : SField := newField STI_VL 50 "IssuerMirrorEncryptionKey" kSmdDefault true.
Definition sfAccount : SField := newField STI_ACCOUNT 1 "Account" kSmdDefault true.
Definition sfOwner : SField := newField STI_ACCOUNT 2 "Owner" kSmdDefault true.
Definition sfDestination : SField := newField STI_ACCOUNT 3 "Destination" kSmdDefault true.
Definition sfIssuer : SField := newField STI_ACCOUNT 4 "Issuer" kSmdDefault true.
Definition sfAuthorize : SField := newField STI_ACCOUNT 5 "Authorize" kSmdDefault true.
Definition sfUnauthorize : SField := newField STI_ACCOUNT 6 "Unauthorize" kSmdDefault true.
Definition sfRegularKey : SField := newField STI_ACCOUNT 8 "RegularKey" kSmdDefault true.
Definition sfNFTokenMinter : SField := newField STI_ACCOUNT 9 "NFTokenMinter" kSmdDefault true.
Definition sfEmitCallback : SField := newField STI_ACCOUNT 10 "EmitCallback" kSmdDefault true.
Definition sfHolder : SField := newField STI_ACCOUNT 11 "Holder" kSmdDefault true.
Definition sfDelegate : SField := newField STI_ACCOUNT 12 "Delegate" kSmdDefault true.
Definition sfSubject : SField := newField STI_ACCOUNT 24 "Subject" kSmdDefault true.
Definition sfBorrower : SField := newField STI_ACCOUNT 25 "Borrower" kSmdDefault true.
Definition sfCounterparty : SField := newField STI_ACCOUNT 26 "Counterparty" kSmdDefault true.
Definition sfSponsor : SField := newField STI_ACCOUNT 27 "Sponsor" kSmdDefault true.
Definition sfHighSponsor : SField := newField STI_ACCOUNT 28 "HighSponsor" kSmdDefault true.
Definition sfLowSponsor : SField := newField STI_ACCOUNT 29 "LowSponsor" kSmdDefault true.
Definition sfCounterpartySponsor : SField := newField STI_ACCOUNT 30 "CounterpartySponsor" kSmdDefault true.
Definition sfSponsee : SField := newField STI_ACCOUNT 31 "Sponsee" kSmdDefault true.
Definition sfSigningFor : SField := newField STI_ACCOUNT 32 "SigningFor" kSmdDefault true.
Definition sfIndexes : SField := newField STI_VECTOR256 1 "Indexes" kSmdNever true.
Definition sfHashes : SField := newField STI_VECTOR256 2 "Hashes" kSmdDefault true.
Definition sfAmendments : SField := newField STI_VECTOR256 3 "Amendments" kSmdDefault true.
Definition sfNFTokenOffers : SField := newField STI_VECTOR256 4 "NFTokenOffers" kSmdDefault true.
Definition sfCredentialIDs : SField := newField STI_VECTOR256 5 "CredentialIDs" kSmdDefault true.
Definition sfPaths : SField := newField STI_PATHSET 1 "Paths" kSmdDefault true.
Definition sfBaseAsset : SField := newField STI_CURRENCY 1 "BaseAsset" kSmdDefault true.
Definition sfQuoteAsset : SField := newField STI_CURRENCY 2 "QuoteAsset" kSmdDefault true.
Definition sfAsset : SField := newField STI_ISSUE 3 "Asset" kSmdDefault true.
Definition sfAsset2 : SField := newField STI_ISSUE 4 "Asset2" kSmdDefault true.
Definition sfTransactionMetaData : SField := newField STI_OBJECT 2 "TransactionMetaData" kSmdDefault true.
Definition sfCreatedNode : SField := newField STI_OBJECT 3 "CreatedNode" kSmdDefault true.
Definition sfDeletedNode : SField := newField STI_OBJECT 4 "DeletedNode" kSmdDefault true.
Definition sfModifiedNode : SField := newField STI_OBJECT 5 "ModifiedNode" kSmdDefault true.
Definition sfPreviousFields : SField := newField STI_OBJECT 6 "PreviousFields" kSmdDefault true.
Definition sfFinalFields : SField := newField STI_OBJECT 7 "FinalFields" kSmdDefault true.
Definition sfNewFields : SField := newField STI_OBJECT 8 "NewFields" kSmdDefault true.
Definition sfTemplateEntry : SField := newField STI_OBJECT 9 "TemplateEntry" kSmdDefault true.
Definition sfMemo : SField := newField STI_OBJECT 10 "Memo" kSmdDefault true.
Definition sfSignerEntry : SField := newField STI_OBJECT 11 "SignerEntry" kSmdDefault true.
Definition sfNFToken : SField := newField STI_OBJECT 12 "NFToken" kSmdDefault true.
Definition sfEmitDetails : SField := newField STI_OBJECT 13 "EmitDetails" kSmdDefault true.
Definition sfPermission : SField := newField STI_OBJECT 15 "Permission" kSmdDefault true.
Definition sfSigner : SField := newField STI_OBJECT 16 "Signer" kSmdDefault true.
Definition sfMajority : SField := newField STI_OBJECT 18 "Majority" kSmdDefault true.
Definition sfDisabledValidator : SField := newField STI_OBJECT 19 "DisabledValidator" kSmdDefault true.
Definition sfVoteEntry : SField := newField STI_OBJECT 25 "VoteEntry" kSmdDefault true.
Definition sfAuctionSlot : SField := newField STI_OBJECT 26 "AuctionSlot" kSmdDefault true.
Definition sfAuthAccount : SField := newField STI_OBJECT 27 "AuthAccount" kSmdDefault true.
Definition sfPriceData : SField := newField STI_OBJECT 32 "PriceData" kSmdDefault true.
Definition sfCredential : SField := newField STI_OBJECT 33 "Credential" kSmdDefault true.
Definition sfRawTransaction : SField := newField STI_OBJECT 34 "RawTransaction" kSmdDefault true.
Definition sfBatchSigner : SField := newField STI_OBJECT 35 "BatchSigner" kSmdDefault true.
Definition sfBook : SField := newField STI_OBJECT 36 "Book" kSmdDefault true.
Definition sfCounterpartySignature : SField := newField STI_OBJECT 37 "CounterpartySignature" kSmdDefault false.
Definition sfSponsorSignature : SField := newField STI_OBJECT 38 "SponsorSignature" kSmdDefault false.
Definition sfProposedTransaction : SField := newField STI_OBJECT 39 "ProposedTransaction" kSmdDefault true.
Definition sfSigners : SField := newField STI_ARRAY 3 "Signers" kSmdDefault false.
Definition sfSignerEntries : SField := newField STI_ARRAY 4 "SignerEntries" kSmdDefault true.
Definition sfTemplate : SField := newField STI_ARRAY 5 "Template" kSmdDefault true.
Definition sfNecessary : SField := newField STI_ARRAY 6 "Necessary" kSmdDefault true.
Definition sfSufficient : SField := newField STI_ARRAY 7 "Sufficient" kSmdDefault true.
Definition sfAffectedNodes : SField := newField STI_ARRAY 8 "AffectedNodes" kSmdDefault true.
Definition sfMemos : SField := newField STI_ARRAY 9 "Memos" kSmdDefault true.
Definition sfNFTokens : SField := newField STI_ARRAY 10 "NFTokens" kSmdDefault true.
Definition sfVoteSlots : SField := newField STI_ARRAY 12 "VoteSlots" kSmdDefault true.
Definition sfAdditionalBooks : SField := newField STI_ARRAY 13 "AdditionalBooks" kSmdDefault true.
Definition sfMajorities : SField := newField STI_ARRAY 16 "Majorities" kSmdDefault true.
Definition sfDisabledValidators : SField := newField STI_ARRAY 17 "DisabledValidators" kSmdDefault true.
Definition sfPriceDataSeries : SField := newField STI_ARRAY 24 "PriceDataSeries" kSmdDefault true.
Definition sfAuthAccounts : SField := newField STI_ARRAY 25 "AuthAccounts" kSmdDefault true.
Definition sfAuthorizeCredentials : SField := newField STI_ARRAY 26 "AuthorizeCredentials" kSmdDefault true.
Definition sfUnauthorizeCredentials : SField := newField STI_ARRAY 27 "UnauthorizeCredentials" kSmdDefault true.
Definition sfAcceptedCredentials : SField := newField STI_ARRAY 28 "AcceptedCredentials" kSmdDefault true.
Definition sfPermissions : SField := newField STI_ARRAY 29 "Permissions" kSmdDefault true.
Definition sfRawTransactions : SField := newField STI_ARRAY 30 "RawTransactions" kSmdDefault true.
Definition sfBatchSigners : SField := newField STI_ARRAY 31 "BatchSigners" kSmdDefault false.

(** All fields, in the order in which they are constructed. *)
Definition sfields : list SField := [
  sfInvalid; sfGeneric; kSfHash; kSfIndex;
  sfLedgerEntry; sfTransaction; sfValidation; sfMetadata; sfCloseResolution; sfMethod; sfTransactionResult;
  sfScale; sfAssetScale; sfLEVersion; sfTickSize; sfUNLModifyDisabling; sfWithdrawalPolicy; sfContractResult;
  sfVaultKind; sfLedgerEntryType; sfTransactionType; sfSignerWeight; sfTransferFee; sfTradingFee;
  sfDiscountedFee; sfVersion; sfLedgerFixType; sfManagementFeeRate; sfNetworkID; sfFlags; sfSourceTag;
  sfSequence; sfPreviousTxnLgrSeq; sfLedgerSequence; sfCloseTime; sfParentCloseTime; sfSigningTime;
  sfExpiration; sfTransferRate; sfWalletSize; sfOwnerCount; sfDestinationTag; sfLastUpdateTime;
  sfHighQualityIn; sfHighQualityOut; sfLowQualityIn; sfLowQualityOut; sfQualityIn; sfQualityOut;
  sfStampEscrow; sfBondAmount; sfLoadFee; sfOfferSequence; sfFirstLedgerSequence; sfLastLedgerSequence;
  sfTransactionIndex; sfOperationLimit; sfReferenceFeeUnits; sfReserveBase; sfReserveIncrement; sfSetFlag;
  sfClearFlag; sfSignerQuorum; sfCancelAfter; sfFinishAfter; sfSignerListID; sfSettleDelay; sfTicketCount;
  sfTicketSequence; sfNFTokenTaxon; sfMintedNFTokens; sfBurnedNFTokens; sfVoteWeight; sfFirstNFTokenSequence;
  sfOracleDocumentID; sfPermissionValue; sfImmutableFlags; sfStartDate; sfPaymentInterval; sfGracePeriod;
  sfPreviousPaymentDueDate; sfNextPaymentDueDate; sfPaymentRemaining; sfPaymentTotal; sfLoanSequence;
  sfCoverRateMinimum; sfCoverRateLiquidation; sfOverpaymentFee; sfInterestRate; sfLateInterestRate;
  sfCloseInterestRate; sfOverpaymentInterestRate; sfConfidentialBalanceVersion; sfSponsoredOwnerCount;
  sfSponsoringOwnerCount; sfSponsoringAccountCount; sfRemainingOwnerCount; sfSponsorFlags;
  sfSubscriptionDate; sfRedemptionDate; sfIssuerKeyEpoch; sfAuditorKeyEpoch; sfIssuerKeyMirrorEpoch;
  sfAuditorKeyMirrorEpoch; sfGasLimit; sfBytecodeSizeLimit; sfGasPrice; sfGas; sfGasUsed; sfIndexNext;
  sfIndexPrevious; sfBookNode; sfOwnerNode; sfBaseFee; sfExchangeRate; sfLowNode; sfHighNode;
  sfDestinationNode; sfCookie; sfServerVersion; sfNFTokenOfferNode; sfEmitBurden; sfReferenceCount;
  sfAssetPrice; sfMaximumAmount; sfOutstandingAmount; sfMPTAmount; sfIssuerNode; sfSubjectNode;
  sfLockedAmount; sfVaultNode; sfLoanBrokerNode; sfConfidentialOutstandingAmount; sfSponseeNode; sfEmailHash;
  sfTakerPaysCurrency; sfTakerPaysIssuer; sfTakerGetsCurrency; sfTakerGetsIssuer; sfMPTokenIssuanceID;
  sfShareMPTID; sfTakerPaysMPT; sfTakerGetsMPT; sfLedgerHash; sfParentHash; sfTransactionHash; sfAccountHash;
  sfPreviousTxnID; sfLedgerIndex; sfWalletLocator; sfRootIndex; sfAccountTxnID; sfNFTokenID;
  sfEmitParentTxnID; sfEmitNonce; sfEmitHookHash; sfAMMID; sfBookDirectory; sfInvoiceID; sfNickname;
  sfAmendment; sfDigest; sfChannel; sfConsensusHash; sfCheckID; sfValidatedHash; sfPreviousPageMin;
  sfNextPageMin; sfNFTokenBuyOffer; sfNFTokenSellOffer; sfDomainID; sfVaultID; sfParentBatchID;
  sfLoanBrokerID; sfLoanID; sfReferenceHolding; sfBlindingFactor; sfObjectID; sfProposalID; sfNumber;
  sfAssetsAvailable; sfAssetsMaximum; sfAssetsTotal; sfLossUnrealized; sfDebtTotal; sfDebtMaximum;
  sfCoverAvailable; sfLoanOriginationFee; sfLoanServiceFee; sfLatePaymentFee; sfClosePaymentFee;
  sfPrincipalOutstanding; sfPrincipalRequested; sfTotalValueOutstanding; sfPeriodicPayment;
  sfManagementFeeOutstanding; sfYieldUnrealized; sfAssetsDeployed; sfLoanScale; sfRemainingOwnerCountDelta;
  sfVMReturnCode; sfAmount; sfBalance; sfLimitAmount; sfTakerPays; sfTakerGets; sfLowLimit; sfHighLimit;
  sfFee; sfSendMax; sfDeliverMin; sfAmount2; sfBidMin; sfBidMax; sfMinimumOffer; sfRippleEscrow;
  sfDeliveredAmount; sfNFTokenBrokerFee; sfBaseFeeDrops; sfReserveBaseDrops; sfReserveIncrementDrops;
  sfLPTokenOut; sfLPTokenIn; sfEPrice; sfPrice; sfLPTokenBalance; sfFeeAmount; sfMaxFee; sfFeeAmountDelta;
  sfPublicKey; sfMessageKey; sfSigningPubKey; sfTxnSignature; sfURI; sfSignature; sfDomain; sfFundCode;
  sfRemoveCode; sfExpireCode; sfCreateCode; sfMemoType; sfMemoData; sfMemoFormat; sfFulfillment; sfCondition;
  sfMasterSignature; sfUNLModifyValidator; sfValidatorToDisable; sfValidatorToReEnable; sfDIDDocument;
  sfData; sfAssetClass; sfProvider; sfMPTokenMetadata; sfCredentialType; sfConfidentialBalanceInbox;
  sfConfidentialBalanceSpending; sfIssuerEncryptedBalance; sfIssuerEncryptionKey; sfHolderEncryptionKey;
  sfZKProof; sfHolderEncryptedAmount; sfIssuerEncryptedAmount; sfSenderEncryptedAmount;
  sfDestinationEncryptedAmount; sfAuditorEncryptedBalance; sfAuditorEncryptedAmount; sfAuditorEncryptionKey;
  sfAmountCommitment; sfBalanceCommitment; sfBytecode; sfRecoveryKey; sfInitialIssuerEncryptionKey;
  sfIssuerMirrorEncryptionKey; sfAccount; sfOwner; sfDestination; sfIssuer; sfAuthorize; sfUnauthorize;
  sfRegularKey; sfNFTokenMinter; sfEmitCallback; sfHolder; sfDelegate; sfSubject; sfBorrower; sfCounterparty;
  sfSponsor; sfHighSponsor; sfLowSponsor; sfCounterpartySponsor; sfSponsee; sfSigningFor; sfIndexes;
  sfHashes; sfAmendments; sfNFTokenOffers; sfCredentialIDs; sfPaths; sfBaseAsset; sfQuoteAsset; sfAsset;
  sfAsset2; sfTransactionMetaData; sfCreatedNode; sfDeletedNode; sfModifiedNode; sfPreviousFields;
  sfFinalFields; sfNewFields; sfTemplateEntry; sfMemo; sfSignerEntry; sfNFToken; sfEmitDetails; sfPermission;
  sfSigner; sfMajority; sfDisabledValidator; sfVoteEntry; sfAuctionSlot; sfAuthAccount; sfPriceData;
  sfCredential; sfRawTransaction; sfBatchSigner; sfBook; sfCounterpartySignature; sfSponsorSignature;
  sfProposedTransaction; sfSigners; sfSignerEntries; sfTemplate; sfNecessary; sfSufficient; sfAffectedNodes;
  sfMemos; sfNFTokens; sfVoteSlots; sfAdditionalBooks; sfMajorities; sfDisabledValidators; sfPriceDataSeries;
  sfAuthAccounts; sfAuthorizeCredentials; sfUnauthorizeCredentials; sfAcceptedCredentials; sfPermissions;
  sfRawTransactions; sfBatchSigners
].

Definition getField (code : Z) : SField := default sfInvalid (List.find (fun f => fieldCodeMem f =? code) sfields).
Definition getFieldByName (name : string) : SField :=
  default sfInvalid (List.find (fun f => String.eqb (fieldName f) name) sfields).
