(* ===== verification/Formats.v ===== *)
(** * Templates of serialized objects

    [SOElement] and [SOTemplate] of include/xrpl/protocol/SOTemplate.h and
    src/libxrpl/protocol/SOTemplate.cpp, and [KnownFormats] of
    include/xrpl/protocol/KnownFormats.h.  A template is the list of its elements; the table
    of indices, which is by the number of the field, is a search by its code. *)
From Stdlib Require Import String.
From S2P Require Import Prelude Serializer SField.

Inductive SOEStyle := SoeInvalid | SoeRequired | SoeOptional | SoeDefault.

Inductive SOETxMPTIssue := SoeMptNone | SoeMptSupported | SoeMptNotSupported.

#[export] Instance soeStyle_eq_dec : EqDecision SOEStyle.
Proof. solve_decision. Defined.

Record SOElement := mkElement { el_sField : SField; el_style : SOEStyle; el_supportMPT : SOETxMPTIssue }.

(** The constructor of two arguments; fields of amounts and issues do not support MPT unless
    it is said. *)
Definition soe (f : SField) (style : SOEStyle) : SOElement :=
  mkElement f style
    (if (fieldType f =? STI_AMOUNT) || (fieldType f =? STI_ISSUE) then SoeMptNotSupported else SoeMptNone).

Definition SOTemplate : Type := list SOElement.

(** [getIndex]; [None] is -1. *)
Fixpoint getIndex (t : SOTemplate) (f : SField) : option nat :=
  match t with
  | [] => None
  | e :: t => if fieldEq (el_sField e) f then Some 0%nat else S <$> getIndex t f
  end.

(** [style] reads outside the elements when the field is not in the template. *)
Definition style (t : SOTemplate) (f : SField) : Outcome SOEStyle :=
  match getIndex t f with
  | Some i => match t !! i with Some e => Ret (el_style e) | None => Wild end
  | None => Wild
  end.

(** The constructors of [SOElement] and [SOTemplate] throw on a field that is not useful and
    on a field given twice. *)
Fixpoint indexElements (seen : SOTemplate) (rest : list SOElement) : Outcome SOTemplate :=
  match rest with
  | [] => Ret seen
  | e :: rest =>
    if negb (isUseful (el_sField e)) then RuntimeError
    else match getIndex seen (el_sField e) with
         | Some _ => RuntimeError
         | None => indexElements (seen ++ [e]) rest
         end
  end.

Definition makeTemplate (uniqueFields commonFields : list SOElement) : Outcome SOTemplate :=
  indexElements [] (uniqueFields ++ commonFields).

(** ** Known formats *)

Record Format := mkFormat { fmt_type : Z; fmt_name : string; fmt_fields : list SOElement }.

(** [add] fails on a type that is already there; the new format is found first. *)
Fixpoint addFormats (common : list SOElement) (known : list (Z * SOTemplate)) (l : list Format)
  : Outcome (list (Z * SOTemplate)) :=
  match l with
  | [] => Ret known
  | f :: l =>
    if existsb (fun x => x.1 =? fmt_type f) known then LogicError
    else match makeTemplate (fmt_fields f) common with
         | Ret t => addFormats common ((fmt_type f, t) :: known) l
         | RuntimeError => RuntimeError
         | OverflowError => OverflowError
         | DomainError => DomainError
         | LogicError => LogicError
         | Wild => Wild
         end
  end.

Definition findByType (known : list (Z * SOTemplate)) (type : Z) : option SOTemplate :=
  snd <$> List.find (fun x => x.1 =? type) known.

(** ** Formats of ledger entries, transactions and inner objects

    The tables of include/xrpl/protocol/detail/ledger_entries.macro,
    include/xrpl/protocol/detail/transactions.macro (the fields; not the settings) and
    src/libxrpl/protocol/InnerObjectFormats.cpp, with the common fields of
    src/libxrpl/protocol/LedgerFormats.cpp and src/libxrpl/protocol/TxFormats.cpp. *)

(** ** Ledger entries *)

Definition ltANY : Z := 0.
Definition ltCHILD : Z := 0x1CD2.

Definition ledgerCommonFields : list SOElement := [
  soe sfLedgerIndex SoeOptional; soe sfLedgerEntryType SoeRequired; soe sfFlags SoeRequired;
  soe sfSponsor SoeOptional
].

Definition ltNFTOKEN_OFFER : Z := 0x0037.
Definition format_NFTokenOffer : Format := mkFormat ltNFTOKEN_OFFER "NFTokenOffer" [
  soe sfOwner SoeRequired; soe sfNFTokenID SoeRequired; soe sfAmount SoeRequired;
  soe sfOwnerNode SoeRequired; soe sfNFTokenOfferNode SoeRequired; soe sfDestination SoeOptional;
  soe sfExpiration SoeOptional; soe sfPreviousTxnID SoeRequired; soe sfPreviousTxnLgrSeq SoeRequired
].

Definition ltCHECK : Z := 0x0043.
Definition format_Check : Format := mkFormat ltCHECK "Check" [
  soe sfAccount SoeRequired; soe sfDestination SoeRequired; soe sfSendMax SoeRequired;
  soe sfSequence SoeRequired; soe sfOwnerNode SoeRequired; soe sfDestinationNode SoeRequired;
  soe sfExpiration SoeOptional; soe sfInvoiceID SoeOptional; soe sfSourceTag SoeOptional;
  soe sfDestinationTag SoeOptional; soe sfPreviousTxnID SoeRequired; soe sfPreviousTxnLgrSeq SoeRequired
].

Definition ltDID : Z := 0x0049.
Definition format_DID : Format := mkFormat ltDID "DID" [
  soe sfAccount SoeRequired; soe sfDIDDocument SoeOptional; soe sfURI SoeOptional; soe sfData SoeOptional;
  soe sfOwnerNode SoeRequired; soe sfPreviousTxnID SoeRequired; soe sfPreviousTxnLgrSeq SoeRequired
].

Definition ltNEGATIVE_UNL : Z := 0x004e.
Definition format_NegativeUNL : Format := mkFormat ltNEGATIVE_UNL "NegativeUNL" [
  soe sfDisabledValidators SoeOptional; soe sfValidatorToDisable SoeOptional;
  soe sfValidatorToReEnable SoeOptional; soe sfPreviousTxnID SoeOptional;
  soe sfPreviousTxnLgrSeq SoeOptional
].

Definition ltNFTOKEN_PAGE : Z := 0x0050.
Definition format_NFTokenPage : Format := mkFormat ltNFTOKEN_PAGE "NFTokenPage" [
  soe sfPreviousPageMin SoeOptional; soe sfNextPageMin SoeOptional; soe sfNFTokens SoeRequired;
  soe sfPreviousTxnID SoeRequired; soe sfPreviousTxnLgrSeq SoeRequired
].

Definition ltSIGNER_LIST : Z := 0x0053.
Definition format_SignerList : Format := mkFormat ltSIGNER_LIST "SignerList" [
  soe sfOwner SoeOptional; soe sfOwnerNode SoeRequired; soe sfSignerQuorum SoeRequired;
  soe sfSignerEntries SoeRequired; soe sfSignerListID SoeRequired; soe sfPreviousTxnID SoeRequired;
  soe sfPreviousTxnLgrSeq SoeRequired
].

Definition ltTICKET : Z := 0x0054.
Definition format_Ticket : Format := mkFormat ltTICKET "Ticket" [
  soe sfAccount SoeRequired; soe sfOwnerNode SoeRequired; soe sfTicketSequence SoeRequired;
  soe sfPreviousTxnID SoeRequired; soe sfPreviousTxnLgrSeq SoeRequired
].

Definition ltACCOUNT_ROOT : Z := 0x0061.
Definition format_AccountRoot : Format := mkFormat ltACCOUNT_ROOT "AccountRoot" [
  soe sfAccount SoeRequired; soe sfSequence SoeRequired; soe sfBalance SoeRequired;
  soe sfOwnerCount SoeRequired; soe sfPreviousTxnID SoeRequired; soe sfPreviousTxnLgrSeq SoeRequired;
  soe sfAccountTxnID SoeOptional; soe sfRegularKey SoeOptional; soe sfEmailHash SoeOptional;
  soe sfWalletLocator SoeOptional; soe sfWalletSize SoeOptional; soe sfMessageKey SoeOptional;
  soe sfTransferRate SoeOptional; soe sfDomain SoeOptional; soe sfTickSize SoeOptional;
  soe sfTicketCount SoeOptional; soe sfNFTokenMinter SoeOptional; soe sfMintedNFTokens SoeDefault;
  soe sfBurnedNFTokens SoeDefault; soe sfFirstNFTokenSequence SoeOptional;
  soe sfSponsoredOwnerCount SoeDefault; soe sfSponsoringOwnerCount SoeDefault;
  soe sfSponsoringAccountCount SoeDefault; soe sfAMMID SoeOptional; soe sfVaultID SoeOptional;
  soe sfLoanBrokerID SoeOptional
].

Definition ltDIR_NODE : Z := 0x0064.
Definition format_DirectoryNode : Format := mkFormat ltDIR_NODE "DirectoryNode" [
  soe sfOwner SoeOptional; soe sfTakerPaysCurrency SoeOptional; soe sfTakerPaysIssuer SoeOptional;
  soe sfTakerPaysMPT SoeOptional; soe sfTakerGetsCurrency SoeOptional; soe sfTakerGetsIssuer SoeOptional;
  soe sfTakerGetsMPT SoeOptional; soe sfExchangeRate SoeOptional; soe sfIndexes SoeRequired;
  soe sfRootIndex SoeRequired; soe sfIndexNext SoeOptional; soe sfIndexPrevious SoeOptional;
  soe sfNFTokenID SoeOptional; soe sfPreviousTxnID SoeOptional; soe sfPreviousTxnLgrSeq SoeOptional;
  soe sfDomainID SoeOptional
].

Definition ltAMENDMENTS : Z := 0x0066.
Definition format_Amendments : Format := mkFormat ltAMENDMENTS "Amendments" [
  soe sfAmendments SoeOptional; soe sfMajorities SoeOptional; soe sfPreviousTxnID SoeOptional;
  soe sfPreviousTxnLgrSeq SoeOptional
].

Definition ltLEDGER_HASHES : Z := 0x0068.
Definition format_LedgerHashes : Format := mkFormat ltLEDGER_HASHES "LedgerHashes" [
  soe sfFirstLedgerSequence SoeOptional; soe sfLastLedgerSequence SoeOptional; soe sfHashes SoeRequired
].

Definition ltOFFER : Z := 0x006f.
Definition format_Offer : Format := mkFormat ltOFFER "Offer" [
  soe sfAccount SoeRequired; soe sfSequence SoeRequired; soe sfTakerPays SoeRequired;
  soe sfTakerGets SoeRequired; soe sfBookDirectory SoeRequired; soe sfBookNode SoeRequired;
  soe sfOwnerNode SoeRequired; soe sfPreviousTxnID SoeRequired; soe sfPreviousTxnLgrSeq SoeRequired;
  soe sfExpiration SoeOptional; soe sfDomainID SoeOptional; soe sfAdditionalBooks SoeOptional
].

Definition ltDEPOSIT_PREAUTH : Z := 0x0070.
Definition format_DepositPreauth : Format := mkFormat ltDEPOSIT_PREAUTH "DepositPreauth" [
  soe sfAccount SoeRequired; soe sfAuthorize SoeOptional; soe sfOwnerNode SoeRequired;
  soe sfPreviousTxnID SoeRequired; soe sfPreviousTxnLgrSeq SoeRequired;
  soe sfAuthorizeCredentials SoeOptional
].

Definition ltRIPPLE_STATE : Z := 0x0072.
Definition format_RippleState : Format := mkFormat ltRIPPLE_STATE "RippleState" [
  soe sfBalance SoeRequired; soe sfLowLimit SoeRequired; soe sfHighLimit SoeRequired;
  soe sfPreviousTxnID SoeRequired; soe sfPreviousTxnLgrSeq SoeRequired; soe sfLowNode SoeOptional;
  soe sfLowQualityIn SoeOptional; soe sfLowQualityOut SoeOptional; soe sfHighNode SoeOptional;
  soe sfHighQualityIn SoeOptional; soe sfHighQualityOut SoeOptional; soe sfHighSponsor SoeOptional;
  soe sfLowSponsor SoeOptional
].

Definition ltFEE_SETTINGS : Z := 0x0073.
Definition format_FeeSettings : Format := mkFormat ltFEE_SETTINGS "FeeSettings" [
  soe sfBaseFee SoeOptional; soe sfReferenceFeeUnits SoeOptional; soe sfReserveBase SoeOptional;
  soe sfReserveIncrement SoeOptional; soe sfBaseFeeDrops SoeOptional; soe sfReserveBaseDrops SoeOptional;
  soe sfReserveIncrementDrops SoeOptional; soe sfGasLimit SoeOptional; soe sfBytecodeSizeLimit SoeOptional;
  soe sfGasPrice SoeOptional; soe sfPreviousTxnID SoeOptional; soe sfPreviousTxnLgrSeq SoeOptional
].

Definition ltESCROW : Z := 0x0075.
Definition format_Escrow : Format := mkFormat ltESCROW "Escrow" [
  soe sfAccount SoeRequired; soe sfSequence SoeOptional; soe sfDestination SoeRequired;
  soe sfAmount SoeRequired; soe sfCondition SoeOptional; soe sfCancelAfter SoeOptional;
  soe sfFinishAfter SoeOptional; soe sfBytecode SoeOptional; soe sfData SoeOptional;
  soe sfSourceTag SoeOptional; soe sfDestinationTag SoeOptional; soe sfOwnerNode SoeRequired;
  soe sfPreviousTxnID SoeRequired; soe sfPreviousTxnLgrSeq SoeRequired; soe sfDestinationNode SoeOptional;
  soe sfTransferRate SoeOptional; soe sfIssuerNode SoeOptional
].

Definition ltPAYCHAN : Z := 0x0078.
Definition format_PayChannel : Format := mkFormat ltPAYCHAN "PayChannel" [
  soe sfAccount SoeRequired; soe sfDestination SoeRequired; soe sfSequence SoeOptional;
  soe sfAmount SoeRequired; soe sfBalance SoeRequired; soe sfPublicKey SoeRequired;
  soe sfSettleDelay SoeRequired; soe sfExpiration SoeOptional; soe sfCancelAfter SoeOptional;
  soe sfSourceTag SoeOptional; soe sfDestinationTag SoeOptional; soe sfOwnerNode SoeRequired;
  soe sfPreviousTxnID SoeRequired; soe sfPreviousTxnLgrSeq SoeRequired; soe sfDestinationNode SoeOptional
].

Definition ltAMM : Z := 0x0079.
Definition format_AMM : Format := mkFormat ltAMM "AMM" [
  soe sfAccount SoeRequired; soe sfTradingFee SoeDefault; soe sfVoteSlots SoeOptional;
  soe sfAuctionSlot SoeOptional; soe sfLPTokenBalance SoeRequired; soe sfAsset SoeRequired;
  soe sfAsset2 SoeRequired; soe sfOwnerNode SoeRequired; soe sfPreviousTxnID SoeOptional;
  soe sfPreviousTxnLgrSeq SoeOptional
].

Definition ltMPTOKEN_ISSUANCE : Z := 0x007e.
Definition format_MPTokenIssuance : Format := mkFormat ltMPTOKEN_ISSUANCE "MPTokenIssuance" [
  soe sfIssuer SoeRequired; soe sfSequence SoeRequired; soe sfTransferFee SoeDefault;
  soe sfOwnerNode SoeRequired; soe sfAssetScale SoeDefault; soe sfMaximumAmount SoeOptional;
  soe sfOutstandingAmount SoeRequired; soe sfLockedAmount SoeOptional; soe sfMPTokenMetadata SoeOptional;
  soe sfPreviousTxnID SoeRequired; soe sfPreviousTxnLgrSeq SoeRequired; soe sfDomainID SoeOptional;
  soe sfImmutableFlags SoeDefault; soe sfReferenceHolding SoeOptional;
  soe sfIssuerEncryptionKey SoeOptional; soe sfAuditorEncryptionKey SoeOptional;
  soe sfIssuerKeyEpoch SoeOptional; soe sfAuditorKeyEpoch SoeOptional;
  soe sfInitialIssuerEncryptionKey SoeOptional; soe sfConfidentialOutstandingAmount SoeDefault
].

Definition ltMPTOKEN : Z := 0x007f.
Definition format_MPToken : Format := mkFormat ltMPTOKEN "MPToken" [
  soe sfAccount SoeRequired; soe sfMPTokenIssuanceID SoeRequired; soe sfMPTAmount SoeDefault;
  soe sfLockedAmount SoeOptional; soe sfOwnerNode SoeRequired; soe sfPreviousTxnID SoeRequired;
  soe sfPreviousTxnLgrSeq SoeRequired; soe sfConfidentialBalanceInbox SoeOptional;
  soe sfConfidentialBalanceSpending SoeOptional; soe sfConfidentialBalanceVersion SoeDefault;
  soe sfIssuerEncryptedBalance SoeOptional; soe sfAuditorEncryptedBalance SoeOptional;
  soe sfIssuerKeyMirrorEpoch SoeOptional; soe sfAuditorKeyMirrorEpoch SoeOptional;
  soe sfIssuerMirrorEncryptionKey SoeOptional; soe sfHolderEncryptionKey SoeOptional;
  soe sfRecoveryKey SoeOptional
].

Definition ltORACLE : Z := 0x0080.
Definition format_Oracle : Format := mkFormat ltORACLE "Oracle" [
  soe sfOwner SoeRequired; soe sfOracleDocumentID SoeOptional; soe sfProvider SoeRequired;
  soe sfPriceDataSeries SoeRequired; soe sfAssetClass SoeRequired; soe sfLastUpdateTime SoeRequired;
  soe sfURI SoeOptional; soe sfOwnerNode SoeRequired; soe sfPreviousTxnID SoeRequired;
  soe sfPreviousTxnLgrSeq SoeRequired
].

Definition ltCREDENTIAL : Z := 0x0081.
Definition format_Credential : Format := mkFormat ltCREDENTIAL "Credential" [
  soe sfSubject SoeRequired; soe sfIssuer SoeRequired; soe sfCredentialType SoeRequired;
  soe sfExpiration SoeOptional; soe sfURI SoeOptional; soe sfIssuerNode SoeRequired;
  soe sfSubjectNode SoeOptional; soe sfPreviousTxnID SoeRequired; soe sfPreviousTxnLgrSeq SoeRequired
].

Definition ltPERMISSIONED_DOMAIN : Z := 0x0082.
Definition format_PermissionedDomain : Format := mkFormat ltPERMISSIONED_DOMAIN "PermissionedDomain" [
  soe sfOwner SoeRequired; soe sfSequence SoeRequired; soe sfAcceptedCredentials SoeRequired;
  soe sfOwnerNode SoeRequired; soe sfPreviousTxnID SoeRequired; soe sfPreviousTxnLgrSeq SoeRequired
].

Definition ltDELEGATE : Z := 0x0083.
Definition format_Delegate : Format := mkFormat ltDELEGATE "Delegate" [
  soe sfAccount SoeRequired; soe sfAuthorize SoeRequired; soe sfPermissions SoeRequired;
  soe sfOwnerNode SoeRequired; soe sfDestinationNode SoeOptional; soe sfPreviousTxnID SoeRequired;
  soe sfPreviousTxnLgrSeq SoeRequired
].

Definition ltVAULT : Z := 0x0084.
Definition format_Vault : Format := mkFormat ltVAULT "Vault" [
  soe sfPreviousTxnID SoeRequired; soe sfPreviousTxnLgrSeq SoeRequired; soe sfSequence SoeRequired;
  soe sfOwnerNode SoeRequired; soe sfOwner SoeRequired; soe sfAccount SoeRequired; soe sfData SoeOptional;
  soe sfAsset SoeRequired; soe sfAssetsTotal SoeDefault; soe sfAssetsAvailable SoeDefault;
  soe sfAssetsMaximum SoeDefault; soe sfLossUnrealized SoeDefault; soe sfYieldUnrealized SoeDefault;
  soe sfAssetsDeployed SoeDefault; soe sfShareMPTID SoeRequired; soe sfWithdrawalPolicy SoeRequired;
  soe sfScale SoeDefault; soe sfLEVersion SoeDefault; soe sfVaultKind SoeDefault;
  soe sfSubscriptionDate SoeOptional; soe sfRedemptionDate SoeOptional
].

Definition ltLOAN_BROKER : Z := 0x0088.
Definition format_LoanBroker : Format := mkFormat ltLOAN_BROKER "LoanBroker" [
  soe sfPreviousTxnID SoeRequired; soe sfPreviousTxnLgrSeq SoeRequired; soe sfSequence SoeRequired;
  soe sfOwnerNode SoeRequired; soe sfVaultNode SoeRequired; soe sfVaultID SoeRequired;
  soe sfAccount SoeRequired; soe sfOwner SoeRequired; soe sfLoanSequence SoeRequired;
  soe sfData SoeDefault; soe sfManagementFeeRate SoeDefault; soe sfOwnerCount SoeDefault;
  soe sfDebtTotal SoeDefault; soe sfDebtMaximum SoeDefault; soe sfCoverAvailable SoeDefault;
  soe sfCoverRateMinimum SoeDefault; soe sfCoverRateLiquidation SoeDefault; soe sfDomainID SoeOptional
].

Definition ltLOAN : Z := 0x0089.
Definition format_Loan : Format := mkFormat ltLOAN "Loan" [
  soe sfPreviousTxnID SoeRequired; soe sfPreviousTxnLgrSeq SoeRequired; soe sfOwnerNode SoeRequired;
  soe sfLoanBrokerNode SoeRequired; soe sfLoanBrokerID SoeRequired; soe sfLoanSequence SoeRequired;
  soe sfBorrower SoeRequired; soe sfLoanOriginationFee SoeDefault; soe sfLoanServiceFee SoeDefault;
  soe sfLatePaymentFee SoeDefault; soe sfClosePaymentFee SoeDefault; soe sfOverpaymentFee SoeDefault;
  soe sfInterestRate SoeDefault; soe sfLateInterestRate SoeDefault; soe sfCloseInterestRate SoeDefault;
  soe sfOverpaymentInterestRate SoeDefault; soe sfStartDate SoeRequired; soe sfPaymentInterval SoeRequired;
  soe sfGracePeriod SoeDefault; soe sfPreviousPaymentDueDate SoeDefault;
  soe sfNextPaymentDueDate SoeDefault; soe sfPaymentRemaining SoeDefault;
  soe sfPeriodicPayment SoeRequired; soe sfPrincipalOutstanding SoeDefault;
  soe sfTotalValueOutstanding SoeDefault; soe sfManagementFeeOutstanding SoeDefault;
  soe sfLoanScale SoeDefault
].

Definition ltSPONSORSHIP : Z := 0x0090.
Definition format_Sponsorship : Format := mkFormat ltSPONSORSHIP "Sponsorship" [
  soe sfPreviousTxnID SoeRequired; soe sfPreviousTxnLgrSeq SoeRequired; soe sfOwner SoeRequired;
  soe sfSponsee SoeRequired; soe sfFeeAmount SoeOptional; soe sfMaxFee SoeOptional;
  soe sfRemainingOwnerCount SoeDefault; soe sfOwnerNode SoeRequired; soe sfSponseeNode SoeRequired
].

Definition ltTRANSACTION_PROPOSAL : Z := 0x0091.
Definition format_TransactionProposal : Format := mkFormat ltTRANSACTION_PROPOSAL "TransactionProposal" [
  soe sfPreviousTxnID SoeRequired; soe sfPreviousTxnLgrSeq SoeRequired; soe sfOwner SoeRequired;
  soe sfProposedTransaction SoeRequired; soe sfExpiration SoeRequired; soe sfOwnerNode SoeRequired
].

Definition ledgerFormats : list Format := [
  format_NFTokenOffer; format_Check; format_DID; format_NegativeUNL; format_NFTokenPage; format_SignerList;
  format_Ticket; format_AccountRoot; format_DirectoryNode; format_Amendments; format_LedgerHashes;
  format_Offer; format_DepositPreauth; format_RippleState; format_FeeSettings; format_Escrow;
  format_PayChannel; format_AMM; format_MPTokenIssuance; format_MPToken; format_Oracle; format_Credential;
  format_PermissionedDomain; format_Delegate; format_Vault; format_LoanBroker; format_Loan;
  format_Sponsorship; format_TransactionProposal
].

(** ** Transactions *)

Definition txCommonFields : list SOElement := [
  soe sfTransactionType SoeRequired; soe sfFlags SoeOptional; soe sfSourceTag SoeOptional; soe sfAccount SoeRequired;
  soe sfSequence SoeRequired; soe sfPreviousTxnID SoeOptional; soe sfLastLedgerSequence SoeOptional;
  soe sfAccountTxnID SoeOptional; soe sfFee SoeRequired; soe sfOperationLimit SoeOptional; soe sfMemos SoeOptional;
  soe sfSigningPubKey SoeRequired; soe sfTicketSequence SoeOptional; soe sfTxnSignature SoeOptional;
  soe sfSigners SoeOptional; soe sfNetworkID SoeOptional; soe sfDelegate SoeOptional; soe sfSponsor SoeOptional;
  soe sfSponsorFlags SoeOptional; soe sfSponsorSignature SoeOptional
].

Definition ttPAYMENT : Z := 0.
Definition format_txPayment : Format := mkFormat ttPAYMENT "Payment" [
  soe sfDestination SoeRequired; mkElement sfAmount SoeRequired SoeMptSupported;
  mkElement sfSendMax SoeOptional SoeMptSupported; soe sfPaths SoeDefault; soe sfInvoiceID SoeOptional;
  soe sfDestinationTag SoeOptional; mkElement sfDeliverMin SoeOptional SoeMptSupported;
  soe sfCredentialIDs SoeOptional; soe sfDomainID SoeOptional
].

Definition ttESCROW_CREATE : Z := 1.
Definition format_txEscrowCreate : Format := mkFormat ttESCROW_CREATE "EscrowCreate" [
  soe sfDestination SoeRequired; soe sfDestinationTag SoeOptional;
  mkElement sfAmount SoeRequired SoeMptSupported; soe sfCondition SoeOptional;
  soe sfCancelAfter SoeOptional; soe sfFinishAfter SoeOptional; soe sfBytecode SoeOptional;
  soe sfData SoeOptional
].

Definition ttESCROW_FINISH : Z := 2.
Definition format_txEscrowFinish : Format := mkFormat ttESCROW_FINISH "EscrowFinish" [
  soe sfOwner SoeRequired; soe sfOfferSequence SoeRequired; soe sfFulfillment SoeOptional;
  soe sfCondition SoeOptional; soe sfCredentialIDs SoeOptional; soe sfGas SoeOptional
].

Definition ttACCOUNT_SET : Z := 3.
Definition format_txAccountSet : Format := mkFormat ttACCOUNT_SET "AccountSet" [
  soe sfEmailHash SoeOptional; soe sfWalletLocator SoeOptional; soe sfWalletSize SoeOptional;
  soe sfMessageKey SoeOptional; soe sfDomain SoeOptional; soe sfTransferRate SoeOptional;
  soe sfSetFlag SoeOptional; soe sfClearFlag SoeOptional; soe sfTickSize SoeOptional;
  soe sfNFTokenMinter SoeOptional
].

Definition ttESCROW_CANCEL : Z := 4.
Definition format_txEscrowCancel : Format := mkFormat ttESCROW_CANCEL "EscrowCancel" [
  soe sfOwner SoeRequired; soe sfOfferSequence SoeRequired
].

Definition ttREGULAR_KEY_SET : Z := 5.
Definition format_txSetRegularKey : Format := mkFormat ttREGULAR_KEY_SET "SetRegularKey" [
  soe sfRegularKey SoeOptional
].

Definition ttOFFER_CREATE : Z := 7.
Definition format_txOfferCreate : Format := mkFormat ttOFFER_CREATE "OfferCreate" [
  mkElement sfTakerPays SoeRequired SoeMptSupported; mkElement sfTakerGets SoeRequired SoeMptSupported;
  soe sfExpiration SoeOptional; soe sfOfferSequence SoeOptional; soe sfDomainID SoeOptional
].

Definition ttOFFER_CANCEL : Z := 8.
Definition format_txOfferCancel : Format := mkFormat ttOFFER_CANCEL "OfferCancel" [
  soe sfOfferSequence SoeRequired
].

Definition ttTICKET_CREATE : Z := 10.
Definition format_txTicketCreate : Format := mkFormat ttTICKET_CREATE "TicketCreate" [
  soe sfTicketCount SoeRequired
].

Definition ttSIGNER_LIST_SET : Z := 12.
Definition format_txSignerListSet : Format := mkFormat ttSIGNER_LIST_SET "SignerListSet" [
  soe sfSignerQuorum SoeRequired; soe sfSignerEntries SoeOptional
].

Definition ttPAYCHAN_CREATE : Z := 13.
Definition format_txPaymentChannelCreate : Format := mkFormat ttPAYCHAN_CREATE "PaymentChannelCreate" [
  soe sfDestination SoeRequired; soe sfAmount SoeRequired; soe sfSettleDelay SoeRequired;
  soe sfPublicKey SoeRequired; soe sfCancelAfter SoeOptional; soe sfDestinationTag SoeOptional
].

Definition ttPAYCHAN_FUND : Z := 14.
Definition format_txPaymentChannelFund : Format := mkFormat ttPAYCHAN_FUND "PaymentChannelFund" [
  soe sfChannel SoeRequired; soe sfAmount SoeRequired; soe sfExpiration SoeOptional
].

Definition ttPAYCHAN_CLAIM : Z := 15.
Definition format_txPaymentChannelClaim : Format := mkFormat ttPAYCHAN_CLAIM "PaymentChannelClaim" [
  soe sfChannel SoeRequired; soe sfAmount SoeOptional; soe sfBalance SoeOptional;
  soe sfSignature SoeOptional; soe sfPublicKey SoeOptional; soe sfCredentialIDs SoeOptional
].

Definition ttCHECK_CREATE : Z := 16.
Definition format_txCheckCreate : Format := mkFormat ttCHECK_CREATE "CheckCreate" [
  soe sfDestination SoeRequired; mkElement sfSendMax SoeRequired SoeMptSupported;
  soe sfExpiration SoeOptional; soe sfDestinationTag SoeOptional; soe sfInvoiceID SoeOptional
].

Definition ttCHECK_CASH : Z := 17.
Definition format_txCheckCash : Format := mkFormat ttCHECK_CASH "CheckCash" [
  soe sfCheckID SoeRequired; mkElement sfAmount SoeOptional SoeMptSupported;
  mkElement sfDeliverMin SoeOptional SoeMptSupported
].

Definition ttCHECK_CANCEL : Z := 18.
Definition format_txCheckCancel : Format := mkFormat ttCHECK_CANCEL "CheckCancel" [
  soe sfCheckID SoeRequired
].

Definition ttDEPOSIT_PREAUTH : Z := 19.
Definition format_txDepositPreauth : Format := mkFormat ttDEPOSIT_PREAUTH "DepositPreauth" [
  soe sfAuthorize SoeOptional; soe sfUnauthorize SoeOptional; soe sfAuthorizeCredentials SoeOptional;
  soe sfUnauthorizeCredentials SoeOptional
].

Definition ttTRUST_SET : Z := 20.
Definition format_txTrustSet : Format := mkFormat ttTRUST_SET "TrustSet" [
  soe sfLimitAmount SoeOptional; soe sfQualityIn SoeOptional; soe sfQualityOut SoeOptional
].

Definition ttACCOUNT_DELETE : Z := 21.
Definition format_txAccountDelete : Format := mkFormat ttACCOUNT_DELETE "AccountDelete" [
  soe sfDestination SoeRequired; soe sfDestinationTag SoeOptional; soe sfCredentialIDs SoeOptional
].

Definition ttNFTOKEN_MINT : Z := 25.
Definition format_txNFTokenMint : Format := mkFormat ttNFTOKEN_MINT "NFTokenMint" [
  soe sfNFTokenTaxon SoeRequired; soe sfTransferFee SoeOptional; soe sfIssuer SoeOptional;
  soe sfURI SoeOptional; soe sfAmount SoeOptional; soe sfDestination SoeOptional;
  soe sfExpiration SoeOptional
].

Definition ttNFTOKEN_BURN : Z := 26.
Definition format_txNFTokenBurn : Format := mkFormat ttNFTOKEN_BURN "NFTokenBurn" [
  soe sfNFTokenID SoeRequired; soe sfOwner SoeOptional
].

Definition ttNFTOKEN_CREATE_OFFER : Z := 27.
Definition format_txNFTokenCreateOffer : Format := mkFormat ttNFTOKEN_CREATE_OFFER "NFTokenCreateOffer" [
  soe sfNFTokenID SoeRequired; soe sfAmount SoeRequired; soe sfDestination SoeOptional;
  soe sfOwner SoeOptional; soe sfExpiration SoeOptional
].

Definition ttNFTOKEN_CANCEL_OFFER : Z := 28.
Definition format_txNFTokenCancelOffer : Format := mkFormat ttNFTOKEN_CANCEL_OFFER "NFTokenCancelOffer" [
  soe sfNFTokenOffers SoeRequired
].

Definition ttNFTOKEN_ACCEPT_OFFER : Z := 29.
Definition format_txNFTokenAcceptOffer : Format := mkFormat ttNFTOKEN_ACCEPT_OFFER "NFTokenAcceptOffer" [
  soe sfNFTokenBuyOffer SoeOptional; soe sfNFTokenSellOffer SoeOptional; soe sfNFTokenBrokerFee SoeOptional
].

Definition ttCLAWBACK : Z := 30.
Definition format_txClawback : Format := mkFormat ttCLAWBACK "Clawback" [
  mkElement sfAmount SoeRequired SoeMptSupported; soe sfHolder SoeOptional
].

Definition ttAMM_CLAWBACK : Z := 31.
Definition format_txAMMClawback : Format := mkFormat ttAMM_CLAWBACK "AMMClawback" [
  soe sfHolder SoeRequired; mkElement sfAsset SoeRequired SoeMptSupported;
  mkElement sfAsset2 SoeRequired SoeMptSupported; mkElement sfAmount SoeOptional SoeMptSupported
].

Definition ttAMM_CREATE : Z := 35.
Definition format_txAMMCreate : Format := mkFormat ttAMM_CREATE "AMMCreate" [
  mkElement sfAmount SoeRequired SoeMptSupported; mkElement sfAmount2 SoeRequired SoeMptSupported;
  soe sfTradingFee SoeRequired
].

Definition ttAMM_DEPOSIT : Z := 36.
Definition format_txAMMDeposit : Format := mkFormat ttAMM_DEPOSIT "AMMDeposit" [
  mkElement sfAsset SoeRequired SoeMptSupported; mkElement sfAsset2 SoeRequired SoeMptSupported;
  mkElement sfAmount SoeOptional SoeMptSupported; mkElement sfAmount2 SoeOptional SoeMptSupported;
  soe sfEPrice SoeOptional; soe sfLPTokenOut SoeOptional; soe sfTradingFee SoeOptional
].

Definition ttAMM_WITHDRAW : Z := 37.
Definition format_txAMMWithdraw : Format := mkFormat ttAMM_WITHDRAW "AMMWithdraw" [
  mkElement sfAsset SoeRequired SoeMptSupported; mkElement sfAsset2 SoeRequired SoeMptSupported;
  mkElement sfAmount SoeOptional SoeMptSupported; mkElement sfAmount2 SoeOptional SoeMptSupported;
  soe sfEPrice SoeOptional; soe sfLPTokenIn SoeOptional
].

Definition ttAMM_VOTE : Z := 38.
Definition format_txAMMVote : Format := mkFormat ttAMM_VOTE "AMMVote" [
  mkElement sfAsset SoeRequired SoeMptSupported; mkElement sfAsset2 SoeRequired SoeMptSupported;
  soe sfTradingFee SoeRequired
].

Definition ttAMM_BID : Z := 39.
Definition format_txAMMBid : Format := mkFormat ttAMM_BID "AMMBid" [
  mkElement sfAsset SoeRequired SoeMptSupported; mkElement sfAsset2 SoeRequired SoeMptSupported;
  soe sfBidMin SoeOptional; soe sfBidMax SoeOptional; soe sfAuthAccounts SoeOptional
].

Definition ttAMM_DELETE : Z := 40.
Definition format_txAMMDelete : Format := mkFormat ttAMM_DELETE "AMMDelete" [
  mkElement sfAsset SoeRequired SoeMptSupported; mkElement sfAsset2 SoeRequired SoeMptSupported
].

Definition ttDID_SET : Z := 49.
Definition format_txDIDSet : Format := mkFormat ttDID_SET "DIDSet" [
  soe sfDIDDocument SoeOptional; soe sfURI SoeOptional; soe sfData SoeOptional
].

Definition ttDID_DELETE : Z := 50.
Definition format_txDIDDelete : Format := mkFormat ttDID_DELETE "DIDDelete" [].

Definition ttORACLE_SET : Z := 51.
Definition format_txOracleSet : Format := mkFormat ttORACLE_SET "OracleSet" [
  soe sfOracleDocumentID SoeRequired; soe sfProvider SoeOptional; soe sfURI SoeOptional;
  soe sfAssetClass SoeOptional; soe sfLastUpdateTime SoeRequired; soe sfPriceDataSeries SoeRequired
].

Definition ttORACLE_DELETE : Z := 52.
Definition format_txOracleDelete : Format := mkFormat ttORACLE_DELETE "OracleDelete" [
  soe sfOracleDocumentID SoeRequired
].

Definition ttLEDGER_STATE_FIX : Z := 53.
Definition format_txLedgerStateFix : Format := mkFormat ttLEDGER_STATE_FIX "LedgerStateFix" [
  soe sfLedgerFixType SoeRequired; soe sfOwner SoeOptional; soe sfBookDirectory SoeOptional
].

Definition ttMPTOKEN_ISSUANCE_CREATE : Z := 54.
Definition format_txMPTokenIssuanceCreate : Format := mkFormat ttMPTOKEN_ISSUANCE_CREATE "MPTokenIssuanceCreate" [
  soe sfAssetScale SoeOptional; soe sfTransferFee SoeOptional; soe sfMaximumAmount SoeOptional;
  soe sfMPTokenMetadata SoeOptional; soe sfDomainID SoeOptional; soe sfImmutableFlags SoeOptional
].

Definition ttMPTOKEN_ISSUANCE_DESTROY : Z := 55.
Definition format_txMPTokenIssuanceDestroy : Format := mkFormat ttMPTOKEN_ISSUANCE_DESTROY "MPTokenIssuanceDestroy" [
  soe sfMPTokenIssuanceID SoeRequired
].

Definition ttMPTOKEN_ISSUANCE_SET : Z := 56.
Definition format_txMPTokenIssuanceSet : Format := mkFormat ttMPTOKEN_ISSUANCE_SET "MPTokenIssuanceSet" [
  soe sfMPTokenIssuanceID SoeRequired; soe sfHolder SoeOptional; soe sfDomainID SoeOptional;
  soe sfMPTokenMetadata SoeOptional; soe sfTransferFee SoeOptional; soe sfImmutableFlags SoeOptional;
  soe sfIssuerEncryptionKey SoeOptional; soe sfAuditorEncryptionKey SoeOptional
].

Definition ttMPTOKEN_AUTHORIZE : Z := 57.
Definition format_txMPTokenAuthorize : Format := mkFormat ttMPTOKEN_AUTHORIZE "MPTokenAuthorize" [
  soe sfMPTokenIssuanceID SoeRequired; soe sfHolder SoeOptional
].

Definition ttCREDENTIAL_CREATE : Z := 58.
Definition format_txCredentialCreate : Format := mkFormat ttCREDENTIAL_CREATE "CredentialCreate" [
  soe sfSubject SoeRequired; soe sfCredentialType SoeRequired; soe sfExpiration SoeOptional;
  soe sfURI SoeOptional
].

Definition ttCREDENTIAL_ACCEPT : Z := 59.
Definition format_txCredentialAccept : Format := mkFormat ttCREDENTIAL_ACCEPT "CredentialAccept" [
  soe sfIssuer SoeRequired; soe sfCredentialType SoeRequired
].

Definition ttCREDENTIAL_DELETE : Z := 60.
Definition format_txCredentialDelete : Format := mkFormat ttCREDENTIAL_DELETE "CredentialDelete" [
  soe sfSubject SoeOptional; soe sfIssuer SoeOptional; soe sfCredentialType SoeRequired
].

Definition ttNFTOKEN_MODIFY : Z := 61.
Definition format_txNFTokenModify : Format := mkFormat ttNFTOKEN_MODIFY "NFTokenModify" [
  soe sfNFTokenID SoeRequired; soe sfOwner SoeOptional; soe sfURI SoeOptional
].

Definition ttPERMISSIONED_DOMAIN_SET : Z := 62.
Definition format_txPermissionedDomainSet : Format := mkFormat ttPERMISSIONED_DOMAIN_SET "PermissionedDomainSet" [
  soe sfDomainID SoeOptional; soe sfAcceptedCredentials SoeRequired
].

Definition ttPERMISSIONED_DOMAIN_DELETE : Z := 63.
Definition format_txPermissionedDomainDelete : Format := mkFormat ttPERMISSIONED_DOMAIN_DELETE "PermissionedDomainDelete" [
  soe sfDomainID SoeRequired
].

Definition ttDELEGATE_SET : Z := 64.
Definition format_txDelegateSet : Format := mkFormat ttDELEGATE_SET "DelegateSet" [
  soe sfAuthorize SoeRequired; soe sfPermissions SoeRequired
].

Definition ttVAULT_CREATE : Z := 65.
Definition format_txVaultCreate : Format := mkFormat ttVAULT_CREATE "VaultCreate" [
  mkElement sfAsset SoeRequired SoeMptSupported; soe sfAssetsMaximum SoeOptional;
  soe sfMPTokenMetadata SoeOptional; soe sfDomainID SoeOptional; soe sfWithdrawalPolicy SoeOptional;
  soe sfData SoeOptional; soe sfScale SoeOptional; soe sfVaultKind SoeOptional;
  soe sfSubscriptionDate SoeOptional; soe sfRedemptionDate SoeOptional
].

Definition ttVAULT_SET : Z := 66.
Definition format_txVaultSet : Format := mkFormat ttVAULT_SET "VaultSet" [
  soe sfVaultID SoeRequired; soe sfAssetsMaximum SoeOptional; soe sfDomainID SoeOptional;
  soe sfData SoeOptional
].

Definition ttVAULT_DELETE : Z := 67.
Definition format_txVaultDelete : Format := mkFormat ttVAULT_DELETE "VaultDelete" [
  soe sfVaultID SoeRequired; soe sfMemoData SoeOptional
].

Definition ttVAULT_DEPOSIT : Z := 68.
Definition format_txVaultDeposit : Format := mkFormat ttVAULT_DEPOSIT "VaultDeposit" [
  soe sfVaultID SoeRequired; mkElement sfAmount SoeRequired SoeMptSupported
].

Definition ttVAULT_WITHDRAW : Z := 69.
Definition format_txVaultWithdraw : Format := mkFormat ttVAULT_WITHDRAW "VaultWithdraw" [
  soe sfVaultID SoeRequired; mkElement sfAmount SoeRequired SoeMptSupported; soe sfDestination SoeOptional;
  soe sfDestinationTag SoeOptional; soe sfCredentialIDs SoeOptional
].

Definition ttVAULT_CLAWBACK : Z := 70.
Definition format_txVaultClawback : Format := mkFormat ttVAULT_CLAWBACK "VaultClawback" [
  soe sfVaultID SoeRequired; soe sfHolder SoeRequired; mkElement sfAmount SoeOptional SoeMptSupported
].

Definition ttBATCH : Z := 71.
Definition format_txBatch : Format := mkFormat ttBATCH "Batch" [
  soe sfRawTransactions SoeRequired; soe sfBatchSigners SoeOptional
].

Definition ttLOAN_BROKER_SET : Z := 74.
Definition format_txLoanBrokerSet : Format := mkFormat ttLOAN_BROKER_SET "LoanBrokerSet" [
  soe sfVaultID SoeRequired; soe sfLoanBrokerID SoeOptional; soe sfData SoeOptional;
  soe sfManagementFeeRate SoeOptional; soe sfDebtMaximum SoeOptional; soe sfCoverRateMinimum SoeOptional;
  soe sfCoverRateLiquidation SoeOptional; soe sfDomainID SoeOptional
].

Definition ttLOAN_BROKER_DELETE : Z := 75.
Definition format_txLoanBrokerDelete : Format := mkFormat ttLOAN_BROKER_DELETE "LoanBrokerDelete" [
  soe sfLoanBrokerID SoeRequired
].

Definition ttLOAN_BROKER_COVER_DEPOSIT : Z := 76.
Definition format_txLoanBrokerCoverDeposit : Format := mkFormat ttLOAN_BROKER_COVER_DEPOSIT "LoanBrokerCoverDeposit" [
  soe sfLoanBrokerID SoeRequired; mkElement sfAmount SoeRequired SoeMptSupported
].

Definition ttLOAN_BROKER_COVER_WITHDRAW : Z := 77.
Definition format_txLoanBrokerCoverWithdraw : Format := mkFormat ttLOAN_BROKER_COVER_WITHDRAW "LoanBrokerCoverWithdraw" [
  soe sfLoanBrokerID SoeRequired; mkElement sfAmount SoeRequired SoeMptSupported;
  soe sfDestination SoeOptional; soe sfDestinationTag SoeOptional; soe sfCredentialIDs SoeOptional
].

Definition ttLOAN_BROKER_COVER_CLAWBACK : Z := 78.
Definition format_txLoanBrokerCoverClawback : Format := mkFormat ttLOAN_BROKER_COVER_CLAWBACK "LoanBrokerCoverClawback" [
  soe sfLoanBrokerID SoeOptional; mkElement sfAmount SoeOptional SoeMptSupported
].

Definition ttLOAN_SET : Z := 80.
Definition format_txLoanSet : Format := mkFormat ttLOAN_SET "LoanSet" [
  soe sfLoanBrokerID SoeRequired; soe sfData SoeOptional; soe sfCounterparty SoeOptional;
  soe sfCounterpartySignature SoeOptional; soe sfLoanOriginationFee SoeOptional;
  soe sfLoanServiceFee SoeOptional; soe sfLatePaymentFee SoeOptional; soe sfClosePaymentFee SoeOptional;
  soe sfOverpaymentFee SoeOptional; soe sfInterestRate SoeOptional; soe sfLateInterestRate SoeOptional;
  soe sfCloseInterestRate SoeOptional; soe sfOverpaymentInterestRate SoeOptional;
  soe sfPrincipalRequested SoeRequired; soe sfPaymentTotal SoeOptional; soe sfPaymentInterval SoeOptional;
  soe sfGracePeriod SoeOptional
].

Definition ttLOAN_DELETE : Z := 81.
Definition format_txLoanDelete : Format := mkFormat ttLOAN_DELETE "LoanDelete" [
  soe sfLoanID SoeRequired
].

Definition ttLOAN_MANAGE : Z := 82.
Definition format_txLoanManage : Format := mkFormat ttLOAN_MANAGE "LoanManage" [
  soe sfLoanID SoeRequired
].

Definition ttLOAN_PAY : Z := 84.
Definition format_txLoanPay : Format := mkFormat ttLOAN_PAY "LoanPay" [
  soe sfLoanID SoeRequired; mkElement sfAmount SoeRequired SoeMptSupported
].

Definition ttCONFIDENTIAL_MPT_CONVERT : Z := 85.
Definition format_txConfidentialMPTConvert : Format := mkFormat ttCONFIDENTIAL_MPT_CONVERT "ConfidentialMPTConvert" [
  soe sfMPTokenIssuanceID SoeRequired; soe sfMPTAmount SoeRequired; soe sfHolderEncryptionKey SoeOptional;
  soe sfHolderEncryptedAmount SoeRequired; soe sfIssuerEncryptedAmount SoeRequired;
  soe sfAuditorEncryptedAmount SoeOptional; soe sfBlindingFactor SoeRequired; soe sfZKProof SoeOptional
].

Definition ttCONFIDENTIAL_MPT_MERGE_INBOX : Z := 86.
Definition format_txConfidentialMPTMergeInbox : Format := mkFormat ttCONFIDENTIAL_MPT_MERGE_INBOX "ConfidentialMPTMergeInbox" [
  soe sfMPTokenIssuanceID SoeRequired
].

Definition ttCONFIDENTIAL_MPT_CONVERT_BACK : Z := 87.
Definition format_txConfidentialMPTConvertBack : Format := mkFormat ttCONFIDENTIAL_MPT_CONVERT_BACK "ConfidentialMPTConvertBack" [
  soe sfMPTokenIssuanceID SoeRequired; soe sfMPTAmount SoeRequired;
  soe sfHolderEncryptedAmount SoeRequired; soe sfIssuerEncryptedAmount SoeRequired;
  soe sfAuditorEncryptedAmount SoeOptional; soe sfBlindingFactor SoeRequired; soe sfZKProof SoeRequired;
  soe sfBalanceCommitment SoeRequired
].

Definition ttCONFIDENTIAL_MPT_SEND : Z := 88.
Definition format_txConfidentialMPTSend : Format := mkFormat ttCONFIDENTIAL_MPT_SEND "ConfidentialMPTSend" [
  soe sfMPTokenIssuanceID SoeRequired; soe sfDestination SoeRequired; soe sfDestinationTag SoeOptional;
  soe sfSenderEncryptedAmount SoeRequired; soe sfDestinationEncryptedAmount SoeRequired;
  soe sfIssuerEncryptedAmount SoeRequired; soe sfAuditorEncryptedAmount SoeOptional;
  soe sfZKProof SoeRequired; soe sfAmountCommitment SoeRequired; soe sfBalanceCommitment SoeRequired;
  soe sfCredentialIDs SoeOptional
].

Definition ttCONFIDENTIAL_MPT_CLAWBACK : Z := 89.
Definition format_txConfidentialMPTClawback : Format := mkFormat ttCONFIDENTIAL_MPT_CLAWBACK "ConfidentialMPTClawback" [
  soe sfMPTokenIssuanceID SoeRequired; soe sfHolder SoeRequired; soe sfMPTAmount SoeRequired;
  soe sfZKProof SoeRequired
].

Definition ttSPONSORSHIP_TRANSFER : Z := 90.
Definition format_txSponsorshipTransfer : Format := mkFormat ttSPONSORSHIP_TRANSFER "SponsorshipTransfer" [
  soe sfObjectID SoeOptional; soe sfSponsee SoeOptional
].

Definition ttSPONSORSHIP_SET : Z := 91.
Definition format_txSponsorshipSet : Format := mkFormat ttSPONSORSHIP_SET "SponsorshipSet" [
  soe sfCounterpartySponsor SoeOptional; soe sfSponsee SoeOptional; soe sfFeeAmountDelta SoeOptional;
  soe sfMaxFee SoeOptional; soe sfRemainingOwnerCountDelta SoeOptional
].

Definition ttCONFIDENTIAL_MPT_MIRROR_UPDATE : Z := 92.
Definition format_txConfidentialMPTMirrorUpdate : Format := mkFormat ttCONFIDENTIAL_MPT_MIRROR_UPDATE "ConfidentialMPTMirrorUpdate" [
  soe sfMPTokenIssuanceID SoeRequired; soe sfHolder SoeOptional; soe sfIssuerEncryptedAmount SoeOptional;
  soe sfAuditorEncryptedAmount SoeOptional; soe sfZKProof SoeRequired
].

Definition ttCONFIDENTIAL_MPT_HOLDER_KEY_UPDATE : Z := 93.
Definition format_txConfidentialMPTHolderKeyUpdate : Format := mkFormat ttCONFIDENTIAL_MPT_HOLDER_KEY_UPDATE "ConfidentialMPTHolderKeyUpdate" [
  soe sfMPTokenIssuanceID SoeRequired; soe sfHolderEncryptionKey SoeOptional;
  soe sfConfidentialBalanceSpending SoeOptional; soe sfConfidentialBalanceInbox SoeOptional;
  soe sfZKProof SoeOptional
].

Definition ttTRANSACTION_PROPOSAL_CREATE : Z := 95.
Definition format_txTransactionProposalCreate : Format := mkFormat ttTRANSACTION_PROPOSAL_CREATE "TransactionProposalCreate" [
  soe sfProposedTransaction SoeRequired; soe sfExpiration SoeRequired
].

Definition ttTRANSACTION_PROPOSAL_CANCEL : Z := 94.
Definition format_txTransactionProposalCancel : Format := mkFormat ttTRANSACTION_PROPOSAL_CANCEL "TransactionProposalCancel" [
  soe sfProposalID SoeRequired
].

Definition ttAMENDMENT : Z := 100.
Definition format_txEnableAmendment : Format := mkFormat ttAMENDMENT "EnableAmendment" [
  soe sfLedgerSequence SoeRequired; soe sfAmendment SoeRequired
].

Definition ttFEE : Z := 101.
Definition format_txSetFee : Format := mkFormat ttFEE "SetFee" [
  soe sfLedgerSequence SoeOptional; soe sfBaseFee SoeOptional; soe sfReferenceFeeUnits SoeOptional;
  soe sfReserveBase SoeOptional; soe sfReserveIncrement SoeOptional; soe sfBaseFeeDrops SoeOptional;
  soe sfReserveBaseDrops SoeOptional; soe sfReserveIncrementDrops SoeOptional; soe sfGasLimit SoeOptional;
  soe sfBytecodeSizeLimit SoeOptional; soe sfGasPrice SoeOptional
].

Definition ttUNL_MODIFY : Z := 102.
Definition format_txUNLModify : Format := mkFormat ttUNL_MODIFY "UNLModify" [
  soe sfUNLModifyDisabling SoeRequired; soe sfLedgerSequence SoeRequired;
  soe sfUNLModifyValidator SoeRequired
].

Definition txFormats : list Format := [
  format_txPayment; format_txEscrowCreate; format_txEscrowFinish; format_txAccountSet;
  format_txEscrowCancel; format_txSetRegularKey; format_txOfferCreate; format_txOfferCancel;
  format_txTicketCreate; format_txSignerListSet; format_txPaymentChannelCreate;
  format_txPaymentChannelFund; format_txPaymentChannelClaim; format_txCheckCreate; format_txCheckCash;
  format_txCheckCancel; format_txDepositPreauth; format_txTrustSet; format_txAccountDelete;
  format_txNFTokenMint; format_txNFTokenBurn; format_txNFTokenCreateOffer; format_txNFTokenCancelOffer;
  format_txNFTokenAcceptOffer; format_txClawback; format_txAMMClawback; format_txAMMCreate;
  format_txAMMDeposit; format_txAMMWithdraw; format_txAMMVote; format_txAMMBid; format_txAMMDelete;
  format_txDIDSet; format_txDIDDelete; format_txOracleSet; format_txOracleDelete; format_txLedgerStateFix;
  format_txMPTokenIssuanceCreate; format_txMPTokenIssuanceDestroy; format_txMPTokenIssuanceSet;
  format_txMPTokenAuthorize; format_txCredentialCreate; format_txCredentialAccept;
  format_txCredentialDelete; format_txNFTokenModify; format_txPermissionedDomainSet;
  format_txPermissionedDomainDelete; format_txDelegateSet; format_txVaultCreate; format_txVaultSet;
  format_txVaultDelete; format_txVaultDeposit; format_txVaultWithdraw; format_txVaultClawback;
  format_txBatch; format_txLoanBrokerSet; format_txLoanBrokerDelete; format_txLoanBrokerCoverDeposit;
  format_txLoanBrokerCoverWithdraw; format_txLoanBrokerCoverClawback; format_txLoanSet;
  format_txLoanDelete; format_txLoanManage; format_txLoanPay; format_txConfidentialMPTConvert;
  format_txConfidentialMPTMergeInbox; format_txConfidentialMPTConvertBack; format_txConfidentialMPTSend;
  format_txConfidentialMPTClawback; format_txSponsorshipTransfer; format_txSponsorshipSet;
  format_txConfidentialMPTMirrorUpdate; format_txConfidentialMPTHolderKeyUpdate;
  format_txTransactionProposalCreate; format_txTransactionProposalCancel; format_txEnableAmendment;
  format_txSetFee; format_txUNLModify
].

(** ** Inner objects *)

Definition format_innerSignerEntry : Format := mkFormat (fieldCodeMem sfSignerEntry) "SignerEntry" [
  soe sfAccount SoeRequired; soe sfSignerWeight SoeRequired; soe sfWalletLocator SoeOptional
].

Definition format_innerSigner : Format := mkFormat (fieldCodeMem sfSigner) "Signer" [
  soe sfAccount SoeRequired; soe sfSigningPubKey SoeRequired; soe sfTxnSignature SoeRequired
].

Definition format_innerMajority : Format := mkFormat (fieldCodeMem sfMajority) "Majority" [
  soe sfAmendment SoeRequired; soe sfCloseTime SoeRequired
].

Definition format_innerDisabledValidator : Format := mkFormat (fieldCodeMem sfDisabledValidator) "DisabledValidator" [
  soe sfPublicKey SoeRequired; soe sfFirstLedgerSequence SoeRequired
].

Definition format_innerNFToken : Format := mkFormat (fieldCodeMem sfNFToken) "NFToken" [
  soe sfNFTokenID SoeRequired; soe sfURI SoeOptional
].

Definition format_innerVoteEntry : Format := mkFormat (fieldCodeMem sfVoteEntry) "VoteEntry" [
  soe sfAccount SoeRequired; soe sfTradingFee SoeDefault; soe sfVoteWeight SoeRequired
].

Definition format_innerAuctionSlot : Format := mkFormat (fieldCodeMem sfAuctionSlot) "AuctionSlot" [
  soe sfAccount SoeRequired; soe sfExpiration SoeRequired; soe sfDiscountedFee SoeDefault;
  soe sfPrice SoeRequired; soe sfAuthAccounts SoeOptional
].

Definition format_innerAuthAccount : Format := mkFormat (fieldCodeMem sfAuthAccount) "AuthAccount" [
  soe sfAccount SoeRequired
].

Definition format_innerPriceData : Format := mkFormat (fieldCodeMem sfPriceData) "PriceData" [
  soe sfBaseAsset SoeRequired; soe sfQuoteAsset SoeRequired; soe sfAssetPrice SoeOptional;
  soe sfScale SoeDefault
].

Definition format_innerCredential : Format := mkFormat (fieldCodeMem sfCredential) "Credential" [
  soe sfIssuer SoeRequired; soe sfCredentialType SoeRequired
].

Definition format_innerPermission : Format := mkFormat (fieldCodeMem sfPermission) "Permission" [
  soe sfPermissionValue SoeRequired
].

Definition format_innerBatchSigner : Format := mkFormat (fieldCodeMem sfBatchSigner) "BatchSigner" [
  soe sfAccount SoeRequired; soe sfSigningPubKey SoeOptional; soe sfTxnSignature SoeOptional;
  soe sfSigners SoeOptional
].

Definition format_innerBook : Format := mkFormat (fieldCodeMem sfBook) "Book" [
  soe sfBookDirectory SoeRequired; soe sfBookNode SoeRequired
].

Definition format_innerCounterpartySignature : Format := mkFormat (fieldCodeMem sfCounterpartySignature) "CounterpartySignature" [
  soe sfSigningPubKey SoeOptional; soe sfTxnSignature SoeOptional; soe sfSigners SoeOptional
].

Definition format_innerSponsorSignature : Format := mkFormat (fieldCodeMem sfSponsorSignature) "SponsorSignature" [
  soe sfSigningPubKey SoeOptional; soe sfTxnSignature SoeOptional; soe sfSigners SoeOptional
].

Definition innerFormats : list Format := [
  format_innerSignerEntry; format_innerSigner; format_innerMajority; format_innerDisabledValidator;
  format_innerNFToken; format_innerVoteEntry; format_innerAuctionSlot; format_innerAuthAccount;
  format_innerPriceData; format_innerCredential; format_innerPermission; format_innerBatchSigner;
  format_innerBook; format_innerCounterpartySignature; format_innerSponsorSignature
].

(** ** The known formats *)

Definition knownFormats (common : list SOElement) (l : list Format) : list (Z * SOTemplate) :=
  match addFormats common [] l with Ret known => known | _ => [] end.

Definition LedgerFormats : list (Z * SOTemplate) := Eval vm_compute in knownFormats ledgerCommonFields ledgerFormats.
Definition TxFormats : list (Z * SOTemplate) := Eval vm_compute in knownFormats txCommonFields txFormats.
Definition InnerObjectFormats : list (Z * SOTemplate) := Eval vm_compute in knownFormats [] innerFormats.

Definition findSOTemplateBySField (f : SField) : option SOTemplate := findByType InnerObjectFormats (fieldCodeMem f).
