(* ===== verification/Amounts.v ===== *)
(** * Assets and amounts

    [Issue], [MPTIssue] and [Asset] of include/xrpl/protocol, and the amounts [XRPAmount],
    [MPTAmount], [IOUAmount] and [STAmount] of include/xrpl/protocol and
    src/libxrpl/protocol, on the numbers of Number.v.

    An account, a currency and an issuance identifier are integers of 160 and 192 bits.  The
    rounding mode and the mantissa scale of the thread are arguments of the section, and so is
    whether the amendment fixCleanup3_5_0 is enabled.  An exception is an [Outcome]. *)
From S2P Require Import Prelude Serializer Number.

Definition obind {A B} (m : Outcome A) (k : A -> Outcome B) : Outcome B :=
  match m with
  | Ret a => k a
  | RuntimeError => RuntimeError | OverflowError => OverflowError
  | DomainError => DomainError | LogicError => LogicError | Wild => Wild
  end.

Notation "'let?' p := x 'in' k" := (obind x (fun p => k)) (at level 200, p pattern, right associativity).

Definition numOutcome {A} (r : NumResult A) : Outcome A :=
  match r with Ok a => Ret a | Overflow => OverflowError | OutOfFuel => Wild end.

(** ** Assets *)

Record Issue := mkIssue { currency : Z; account : Z }.

Definition isXRP (x : Z) : bool := x =? 0.

Definition xrpIssue : Issue := mkIssue 0 0.
Definition noAccount : Z := 1.
Definition noCurrency : Z := 1.
Definition noIssue : Issue := mkIssue noCurrency noAccount.

Definition issueEq (l r : Issue) : bool :=
  (currency l =? currency r) && (isXRP (currency l) || (account l =? account r)).

Definition issueNative (i : Issue) : bool := issueEq i xrpIssue.

Definition isConsistent (i : Issue) : bool := eqb (isXRP (currency i)) (isXRP (account i)).

(** The 192-bit identifier of an issuance is the sequence followed by the account. *)
Definition mptIssuer (id : Z) : Z := id mod 2 ^ 160.
Definition makeMptID (sequence account : Z) : Z := sequence * 2 ^ 160 + account.

Inductive Asset := AIssue (i : Issue) | AMPT (id : Z).

Definition native (a : Asset) : bool := match a with AIssue i => issueNative i | AMPT _ => false end.
Definition integral (a : Asset) : bool := match a with AIssue i => issueNative i | AMPT _ => true end.
Definition holdsMPT (a : Asset) : bool := match a with AIssue _ => false | AMPT _ => true end.
Definition getIssuer (a : Asset) : Z := match a with AIssue i => account i | AMPT id => mptIssuer id end.

Definition assetEq (l r : Asset) : bool :=
  match l, r with
  | AIssue i, AIssue j => issueEq i j
  | AMPT i, AMPT j => i =? j
  | _, _ => false
  end.

(** ** Integers with overflow *)

Definition checkedAdd (a b : Z) : option Z :=
  if ((0 <? b) && (2 ^ 63 - 1 - b <? a)) || ((b <? 0) && (a <? - 2 ^ 63 - b)) then None else Some (a + b).
Definition checkedSub (a b : Z) : option Z :=
  if ((0 <? b) && (a <? - 2 ^ 63 + b)) || ((b <? 0) && (2 ^ 63 - 1 + b <? a)) then None else Some (a - b).

(** ** Amounts *)

Record IOUAmount := mkIOU { iou_mantissa : Z; iou_exponent : Z }.

Definition iouZero : IOUAmount := mkIOU 0 (-100).

Record STAmount := mkAmount { asset_ : Asset; value_ : Z; offset_ : Z; isNegative_ : bool }.

Definition kMinOffset : Z := -96.
Definition kMaxOffset : Z := 80.
Definition kMinValue : Z := 1000000000000000.
Definition kMaxValue : Z := kMinValue * 10 - 1.
Definition kMaxNativeN : Z := 100000000000000000.
Definition kIssuedCurrency : Z := 0x8000000000000000.
Definition kPositive : Z := 0x4000000000000000.
Definition kMpToken : Z := 0x2000000000000000.
Definition kValueMask : Z := u64 (Z.lnot (Z.lor kPositive kMpToken)).
Definition kMaxMpTokenAmount : Z := 0x7FFFFFFFFFFFFFFF.

Definition amtSignum (a : STAmount) : Z := if value_ a =? 0 then 0 else if isNegative_ a then -1 else 1.

Definition areComparable (v1 v2 : STAmount) : bool :=
  match asset_ v1, asset_ v2 with
  | AIssue i1, AIssue i2 => eqb (native (asset_ v1)) (native (asset_ v2)) && (currency i1 =? currency i2)
  | AMPT i1, AMPT i2 => i1 =? i2
  | _, _ => false
  end.

Section Arithmetic.
Context (mode : RoundingMode) (scale : MantissaScale) (fixCleanup : bool).

Definition iouOfNumber (x : Number) : Outcome IOUAmount :=
  let? (m, e) := numOutcome (normalizeToRange mode kMinValue kMaxValue x) in
  if kMaxOffset <? e then OverflowError
  else if e <? kMinOffset then Ret iouZero
  else Ret (mkIOU m e).

(** [IOUAmount(mantissa, exponent)] *)
Definition makeIOU (m e : Z) : Outcome IOUAmount :=
  if m =? 0 then Ret iouZero
  else let? v := numOutcome (makeNumber mode scale m e) in iouOfNumber v.

Definition iouNumber (a : IOUAmount) : Outcome Number :=
  numOutcome (makeNumber mode scale (iou_mantissa a) (iou_exponent a)).

Definition iouAdd (a b : IOUAmount) : Outcome IOUAmount :=
  if iou_mantissa b =? 0 then Ret a
  else if iou_mantissa a =? 0 then Ret b
  else
    let? x := iouNumber a in
    let? y := iouNumber b in
    let? z := numOutcome (numAdd mode scale x y) in
    iouOfNumber z.

(** [XRPAmount] and [MPTAmount] add alike; without the amendment an overflow is undefined. *)
Definition intAmountAdd (a b : Z) : Outcome Z :=
  match checkedAdd a b with
  | Some c => Ret c
  | None => if fixCleanup then OverflowError else Wild
  end.

Definition signedValue (a : STAmount) : Z := let v := i64 (value_ a) in if isNegative_ a then i64 (- v) else v.

Definition xrp (a : STAmount) : Outcome Z := if native (asset_ a) then Ret (signedValue a) else LogicError.
Definition mpt (a : STAmount) : Outcome Z := if holdsMPT (asset_ a) then Ret (signedValue a) else LogicError.
Definition iou (a : STAmount) : Outcome IOUAmount :=
  if integral (asset_ a) then LogicError else makeIOU (signedValue a) (offset_ a).

(** [operator=(IOUAmount)] *)
Definition assignIOU (a : STAmount) (i : IOUAmount) : STAmount :=
  let neg := iou_mantissa i <? 0 in
  mkAmount (asset_ a) (u64 (if neg then - iou_mantissa i else iou_mantissa i)) (iou_exponent i) neg.

Definition canonicalize (a : STAmount) : Outcome STAmount :=
  if integral (asset_ a) then
    if (value_ a =? 0) || (offset_ a <=? -20) then Ret (mkAmount (asset_ a) 0 0 false)
    else if native (asset_ a) && (17 <? offset_ a) then RuntimeError
    else if holdsMPT (asset_ a) && (18 <? offset_ a) then RuntimeError
    else
      let? v := numOutcome (toRep mode scale (mkNumber (isNegative_ a) (value_ a) (offset_ a))) in
      let neg := v <? 0 in
      let value := u64 (if neg then - v else v) in
      if native (asset_ a) && (kMaxNativeN <? value) then RuntimeError
      else if negb (native (asset_ a)) && (kMaxMpTokenAmount <? value) then RuntimeError
      else Ret (mkAmount (asset_ a) value 0 neg)
  else
    let? i := iou a in
    Ret (assignIOU a i).

(** [STAmount(asset, mantissa, exponent, negative)] *)
Definition makeAmount (asset : Asset) (mantissa exponent : Z) (negative : bool) : Outcome STAmount :=
  canonicalize (mkAmount asset mantissa exponent negative).

(** [STAmount(name, asset, mantissa, exponent, negative)], which checks the mantissa first. *)
Definition makeNamedAmount (asset : Asset) (mantissa exponent : Z) (negative : bool) : Outcome STAmount :=
  match scale with
  | Small => canonicalize (mkAmount asset mantissa exponent negative)
  | _ =>
    if integral asset && (2 ^ 63 - 1 <? mantissa) then OverflowError
    else canonicalize (mkAmount asset mantissa exponent negative)
  end.

(** [set(int64)] *)
Definition setSigned (asset : Asset) (v e : Z) : STAmount :=
  if v <? 0 then mkAmount asset (u64 (- v)) e true else mkAmount asset v e false.

Definition amtNeg (a : STAmount) : STAmount :=
  if value_ a =? 0 then a else mkAmount (asset_ a) (value_ a) (offset_ a) (negb (isNegative_ a)).

Definition amtAdd (v1 v2 : STAmount) : Outcome STAmount :=
  if negb (areComparable v1 v2) then RuntimeError
  else if amtSignum v2 =? 0 then Ret v1
  else if amtSignum v1 =? 0 then makeNamedAmount (asset_ v1) (value_ v2) (offset_ v2) (isNegative_ v2)
  else if native (asset_ v1) then
    let? x := xrp v1 in
    let? y := xrp v2 in
    let? z := intAmountAdd x y in
    Ret (setSigned (AIssue xrpIssue) z 0)
  else if holdsMPT (asset_ v1) then
    let? x := mpt v1 in
    let? y := mpt v2 in
    let? z := intAmountAdd x y in
    canonicalize (setSigned (asset_ v1) z 0)
  else
    let? x := iou v1 in
    let? y := iou v2 in
    let? z := iouAdd x y in
    Ret (assignIOU v1 z).

Definition amtSub (v1 v2 : STAmount) : Outcome STAmount := amtAdd v1 (amtNeg v2).

Definition amtEq (l r : STAmount) : bool :=
  areComparable l r && eqb (isNegative_ l) (isNegative_ r) && (offset_ l =? offset_ r) && (value_ l =? value_ r).

Definition amtLt (l r : STAmount) : Outcome bool :=
  if negb (areComparable l r) then RuntimeError
  else if negb (eqb (isNegative_ l) (isNegative_ r)) then Ret (isNegative_ l)
  else if value_ l =? 0 then (if isNegative_ r then Ret false else Ret (negb (value_ r =? 0)))
  else if value_ r =? 0 then Ret false
  else if offset_ r <? offset_ l then Ret (isNegative_ l)
  else if offset_ l <? offset_ r then Ret (negb (isNegative_ l))
  else if value_ r <? value_ l then Ret (isNegative_ l)
  else if value_ l <? value_ r then Ret (negb (isNegative_ l))
  else Ret false.

Definition isLegalNet (a : STAmount) : bool := negb (native (asset_ a)) || (value_ a <=? kMaxNativeN).
Definition isLegalMPT (a : STAmount) : bool :=
  negb (holdsMPT (asset_ a)) || (negb (isNegative_ a) && (offset_ a =? 0) && (value_ a <=? kMaxMpTokenAmount)).

(** [operator Number] *)
Definition amtNumber (a : STAmount) : Outcome Number :=
  match asset_ a with
  | AIssue i =>
    if issueNative i then let? v := xrp a in numOutcome (makeNumber mode scale v 0)
    else let? v := iou a in iouNumber v
  | AMPT _ => let? v := mpt a in numOutcome (makeNumber mode scale v 0)
  end.

(** [fromNumber] *)
Definition amtFromNumber (asset : Asset) (number : Number) : Outcome STAmount :=
  let negative := mantissa number <? 0 in
  let working := if negative then numNeg number else number in
  if integral asset then
    let? v := numOutcome (toRep mode scale working) in
    makeAmount asset (u64 v) 0 negative
  else
    let? (m, e) := numOutcome (normalizeToRange mode kMinValue kMaxValue working) in
    makeAmount asset m e negative.

End Arithmetic.
