(* ===== verification/STTypes.v ===== *)
(** * Serialized values

    The values of fields other than objects and arrays, and how they are written and read:
    STInteger, STBitString, STBlob, STAccount, STAmount, STNumber, STVector256, STPathSet,
    STIssue and STCurrency of include/xrpl/protocol and src/libxrpl/protocol.

    Hashes, accounts and currencies are integers; the cached hash of a path element and its
    flag isOffer_, which follow from the other members, are left out. *)
From S2P Require Import Prelude Digits Serializer SField Number Amounts.

Inductive PathAsset := PCurrency (c : Z) | PMPT (id : Z).

Record STPathElement := mkPathElement { pe_type : Z; pe_account : Z; pe_asset : PathAsset; pe_issuer : Z }.

Definition TypeNone : Z := 0x00.
Definition TypeAccount : Z := 0x01.
Definition TypeCurrency : Z := 0x10.
Definition TypeIssuer : Z := 0x20.
Definition TypeMpt : Z := 0x40.
Definition TypeBoundary : Z := 0xFF.
Definition TypeAll : Z := Z.lor (Z.lor (Z.lor TypeAccount TypeCurrency) TypeIssuer) TypeMpt.

Definition hasBit (x b : Z) : bool := negb (Z.land x b =? 0).

Definition pathAssetIsXRP (a : PathAsset) : bool := match a with PCurrency c => isXRP c | PMPT _ => false end.

(** [STPathElement(account, asset, issuer, forceAsset)] *)
Definition makePathElement (account : Z) (asset : PathAsset) (issuer : Z) (forceAsset : bool) : STPathElement :=
  let t := if isXRP account then TypeNone else TypeAccount in
  let t := if forceAsset || negb (pathAssetIsXRP asset)
           then Z.lor t (match asset with PCurrency _ => TypeCurrency | PMPT _ => TypeMpt end) else t in
  let t := if isXRP issuer then t else Z.lor t TypeIssuer in
  mkPathElement t account asset issuer.

Inductive Leaf :=
| LUInt8 (v : Z)
| LUInt16 (v : Z)
| LUInt32 (v : Z)
| LUInt64 (v : Z)
| LInt32 (v : Z)
| LUInt128 (v : Z)
| LUInt160 (v : Z)
| LUInt192 (v : Z)
| LUInt256 (v : Z)
| LAmount (a : STAmount)
| LNumber (x : Number)
| LBlob (b : list Z)
| LAccount (isDefault : bool) (id : Z)
| LVector256 (v : list Z)
| LPathSet (l : list (list STPathElement))
| LIssue (a : Asset)
| LCurrency (c : Z).

(** [getSType] *)
Definition leafSType (v : Leaf) : Z :=
  match v with
  | LUInt8 _ => STI_UINT8 | LUInt16 _ => STI_UINT16 | LUInt32 _ => STI_UINT32 | LUInt64 _ => STI_UINT64
  | LInt32 _ => STI_INT32 | LUInt128 _ => STI_UINT128 | LUInt160 _ => STI_UINT160 | LUInt192 _ => STI_UINT192
  | LUInt256 _ => STI_UINT256 | LAmount _ => STI_AMOUNT | LNumber _ => STI_NUMBER | LBlob _ => STI_VL
  | LAccount _ _ => STI_ACCOUNT | LVector256 _ => STI_VECTOR256 | LPathSet _ => STI_PATHSET | LIssue _ => STI_ISSUE
  | LCurrency _ => STI_CURRENCY
  end.

Definition leafIsDefault (v : Leaf) : bool :=
  match v with
  | LUInt8 v | LUInt16 v | LUInt32 v | LUInt64 v | LInt32 v
  | LUInt128 v | LUInt160 v | LUInt192 v | LUInt256 v => v =? 0
  | LAmount a => (value_ a =? 0) && native (asset_ a)
  | LNumber x => numEq x kZero
  | LBlob b => match b with [] => true | _ => false end
  | LAccount d _ => d
  | LVector256 v => match v with [] => true | _ => false end
  | LPathSet l => match l with [] => true | _ => false end
  | LIssue a => match a with AIssue i => issueEq i xrpIssue | AMPT _ => false end
  | LCurrency c => isXRP c
  end.

(** The default object of a type; [None] is the exception of an unknown type. *)
Definition defaultLeaf (type : Z) : option Leaf :=
  if type =? STI_UINT8 then Some (LUInt8 0)
  else if type =? STI_UINT16 then Some (LUInt16 0)
  else if type =? STI_UINT32 then Some (LUInt32 0)
  else if type =? STI_UINT64 then Some (LUInt64 0)
  else if type =? STI_AMOUNT then Some (LAmount (mkAmount (AIssue xrpIssue) 0 0 false))
  else if type =? STI_NUMBER then Some (LNumber kZero)
  else if type =? STI_UINT128 then Some (LUInt128 0)
  else if type =? STI_UINT160 then Some (LUInt160 0)
  else if type =? STI_UINT192 then Some (LUInt192 0)
  else if type =? STI_UINT256 then Some (LUInt256 0)
  else if type =? STI_INT32 then Some (LInt32 0)
  else if type =? STI_VECTOR256 then Some (LVector256 [])
  else if type =? STI_VL then Some (LBlob [])
  else if type =? STI_ACCOUNT then Some (LAccount true 0)
  else if type =? STI_PATHSET then Some (LPathSet [])
  else if type =? STI_ISSUE then Some (LIssue (AIssue xrpIssue))
  else if type =? STI_CURRENCY then Some (LCurrency 0)
  else None.

(** ** Equivalence *)

Definition pathAssetEq (a b : PathAsset) : bool :=
  match a, b with PCurrency c, PCurrency d => c =? d | PMPT i, PMPT j => i =? j | _, _ => false end.

Definition pathElementEq (e f : STPathElement) : bool :=
  (Z.land (pe_type e) TypeAccount =? Z.land (pe_type f) TypeAccount) && (pe_account e =? pe_account f) &&
  pathAssetEq (pe_asset e) (pe_asset f) && (pe_issuer e =? pe_issuer f).

Fixpoint listEq {A} (eq : A -> A -> bool) (l k : list A) : bool :=
  match l, k with
  | [], [] => true
  | x :: l, y :: k => eq x y && listEq eq l k
  | _, _ => false
  end.

Definition leafEquivalent (u v : Leaf) : bool :=
  match u, v with
  | LUInt8 a, LUInt8 b | LUInt16 a, LUInt16 b | LUInt32 a, LUInt32 b | LUInt64 a, LUInt64 b
  | LInt32 a, LInt32 b | LUInt128 a, LUInt128 b | LUInt160 a, LUInt160 b | LUInt192 a, LUInt192 b
  | LUInt256 a, LUInt256 b | LCurrency a, LCurrency b => a =? b
  | LAmount a, LAmount b => amtEq a b
  | LNumber a, LNumber b => numEq a b
  | LBlob a, LBlob b | LVector256 a, LVector256 b => listEq Z.eqb a b
  | LAccount d a, LAccount e b => eqb d e && (a =? b)
  | LPathSet a, LPathSet b => listEq (listEq pathElementEq) a b
  | LIssue a, LIssue b => assetEq a b
  | _, _ => false
  end.

(** ** Writing *)

Definition addBits (n : nat) (v : Z) (s : Serializer) : Serializer := (addBitString (beBytes n v) s).2.

Definition addAmount (a : STAmount) (s : Serializer) : Serializer :=
  match asset_ a with
  | AMPT id =>
    let b := Z.shiftr kMpToken 56 in
    let b := if isNegative_ a then b else Z.lor b (Z.shiftr kPositive 56) in
    addBits 24 id (add64 (value_ a) (add8 b s).2).2
  | AIssue i =>
    if issueNative i then
      (add64 (if isNegative_ a then value_ a else Z.lor (value_ a) kPositive) s).2
    else
      let w :=
        if amtSignum a =? 0 then kIssuedCurrency
        else if isNegative_ a then Z.lor (value_ a) (u64 (Z.shiftl (u64 (offset_ a + 512 + 97)) 54))
        else Z.lor (value_ a) (u64 (Z.shiftl (u64 (offset_ a + 512 + 256 + 97)) 54)) in
      addBits 20 (account i) (addBits 20 (currency i) (add64 w s).2)
  end.

(** The rounding to the asset in [add] comes after the mantissa and the exponent are taken. *)
Definition addNumber (x : Number) (s : Serializer) : Serializer :=
  (add32 (exponent x) (add64 (mantissa x) s).2).2.

Definition addPathElement (e : STPathElement) (s : Serializer) : Outcome Serializer :=
  let s := (add8 (u8 (pe_type e)) s).2 in
  let s := if hasBit (pe_type e) TypeAccount then addBits 20 (pe_account e) s else s in
  let? s := if hasBit (pe_type e) TypeMpt
            then match pe_asset e with PMPT id => Ret (addBits 24 id s) | PCurrency _ => RuntimeError end else Ret s in
  let? s := if hasBit (pe_type e) TypeCurrency
            then match pe_asset e with PCurrency c => Ret (addBits 20 c s) | PMPT _ => RuntimeError end else Ret s in
  Ret (if hasBit (pe_type e) TypeIssuer then addBits 20 (pe_issuer e) s else s).

Fixpoint addPath (p : list STPathElement) (s : Serializer) : Outcome Serializer :=
  match p with
  | [] => Ret s
  | e :: p => let? s := addPathElement e s in addPath p s
  end.

Fixpoint addPaths (first : bool) (l : list (list STPathElement)) (s : Serializer) : Outcome Serializer :=
  match l with
  | [] => Ret (add8 TypeNone s).2
  | p :: l =>
    let s := if first then s else (add8 TypeBoundary s).2 in
    let? s := addPath p s in
    addPaths false l s
  end.

(** The four bytes of the sequence are in reverse order. *)
Definition reverse32 (x : Z) : Z := beValue (rev (beBytes 4 x)).

Definition addIssue (a : Asset) (s : Serializer) : Serializer :=
  match a with
  | AIssue i =>
    let s := addBits 20 (currency i) s in
    if isXRP (currency i) then s else addBits 20 (account i) s
  | AMPT id =>
    (add32 (reverse32 (id / 2 ^ 160)) (addBits 20 noAccount (addBits 20 (mptIssuer id) s))).2
  end.

Definition addVLOnly (b : list Z) (s : Serializer) : Outcome Serializer := let? r := addVL b s in Ret r.2.

Definition addLeaf (v : Leaf) (s : Serializer) : Outcome Serializer :=
  match v with
  | LUInt8 v => Ret (add8 v s).2
  | LUInt16 v => Ret (add16 v s).2
  | LUInt32 v | LInt32 v => Ret (add32 v s).2
  | LUInt64 v => Ret (add64 v s).2
  | LUInt128 v => Ret (addBits 16 v s)
  | LUInt160 v => Ret (addBits 20 v s)
  | LUInt192 v => Ret (addBits 24 v s)
  | LUInt256 v => Ret (addBits 32 v s)
  | LAmount a => Ret (addAmount a s)
  | LNumber x => Ret (addNumber x s)
  | LBlob b => addVLOnly b s
  | LAccount d id => addVLOnly (if d then [] else beBytes 20 id) s
  | LVector256 v => addVLOnly (concat (beBytes 32 <$> v)) s
  | LPathSet l => addPaths true l s
  | LIssue a => Ret (addIssue a s)
  | LCurrency c => Ret (addBits 20 c s)
  end.

(** ** Reading *)

Definition getBits (n : nat) : Get Z := t <- getBitString n;; gret (beValue t).

Section Reading.
Context (mode : RoundingMode) (scale : MantissaScale).

Definition getAmount : Get STAmount :=
  value <- get64;;
  if Z.land value kIssuedCurrency =? 0 then
    if hasBit value kMpToken then
      b <- get8;;
      id <- getBits 24;;
      gret (mkAmount (AMPT id) (Z.lor (u64 (Z.shiftl value 8)) b) 0 (Z.land value kPositive =? 0))
    else if hasBit value kPositive then gret (mkAmount (AIssue xrpIssue) (Z.land value kValueMask) 0 false)
    else if value =? 0 then glift RuntimeError
    else gret (mkAmount (AIssue xrpIssue) (Z.land value kValueMask) 0 true)
  else
    currency <- getBits 20;;
    if isXRP currency then glift RuntimeError
    else
      account <- getBits 20;;
      if isXRP account then glift RuntimeError
      else
        let offset := Z.shiftr value 54 in
        let value := Z.land value (u64 (Z.lnot (Z.shiftl 1023 54))) in
        let asset := AIssue (mkIssue currency account) in
        if negb (value =? 0) then
          let neg := Z.land offset 256 =? 0 in
          let offset := Z.land offset 255 - 97 in
          if (value <? kMinValue) || (kMaxValue <? value) || (offset <? kMinOffset) || (kMaxOffset <? offset)
          then glift RuntimeError
          else glift (canonicalize mode scale (mkAmount asset value offset neg))
        else if negb (offset =? 512) then glift RuntimeError
        else glift (canonicalize mode scale (mkAmount asset 0 0 false)).

Definition getNumber : Get Number :=
  m <- geti64;; e <- geti32;; glift (numOutcome (makeNumber mode scale m e)).

Definition getAccount : Get Leaf :=
  v <- getVLBuffer;;
  match v with
  | [] => gret (LAccount true 0)
  | _ => if negb (length v =? 20)%nat then glift RuntimeError else gret (LAccount false (beValue v))
  end.

Fixpoint chunks (n : nat) (v : list Z) : list Z :=
  match n with O => [] | S n => beValue (take 32 v) :: chunks n (drop 32 v) end.

Definition getVector256 : Get (list Z) :=
  n <- getVLDataLength;;
  v <- getSlice (Z.to_nat n);;
  if negb (length v mod 32 =? 0)%nat then glift RuntimeError else gret (chunks (length v / 32) v).

Definition getPathElement (iType : Z) : Get STPathElement :=
  account <- (if hasBit iType TypeAccount then getBits 20 else gret 0);;
  if hasBit iType TypeCurrency && hasBit iType TypeMpt then glift RuntimeError
  else
    asset <- (if hasBit iType TypeCurrency then c <- getBits 20;; gret (PCurrency c) else gret (PCurrency 0));;
    asset <- (if hasBit iType TypeMpt then id <- getBits 24;; gret (PMPT id) else gret asset);;
    issuer <- (if hasBit iType TypeIssuer then getBits 20 else gret 0);;
    gret (makePathElement account asset issuer (hasBit iType TypeCurrency || hasBit iType TypeMpt)).

(** The loop of the constructor of [STPathSet]; each round reads at least a byte, and running
    out of fuel is [Wild]. *)
Fixpoint getPaths (fuel : nat) (path : list STPathElement) (value : list (list STPathElement))
  : Get (list (list STPathElement)) :=
  match fuel with
  | O => glift Wild
  | S f =>
    iType <- get8;;
    if (iType =? TypeNone) || (iType =? TypeBoundary) then
      match path with
      | [] => glift RuntimeError
      | _ => if iType =? TypeNone then gret (value ++ [path]) else getPaths f [] (value ++ [path])
      end
    else if negb (Z.land iType (Z.lnot TypeAll) =? 0) then glift RuntimeError
    else e <- getPathElement iType;; getPaths f (path ++ [e]) value
  end.

Definition getPathSet : Get (list (list STPathElement)) := fun it => getPaths (S (remain_ it)) [] [] it.

Definition getIssue : Get Asset :=
  currencyOrAccount <- getBits 20;;
  if isXRP currencyOrAccount then gret (AIssue xrpIssue)
  else
    account <- getBits 20;;
    if noAccount =? account then
      sequence <- get32;; gret (AMPT (makeMptID (reverse32 sequence) currencyOrAccount))
    else
      let issue := mkIssue currencyOrAccount account in
      if negb (isConsistent issue) then glift RuntimeError else gret (AIssue issue).

(** [constructST] for the types other than objects and arrays *)
Definition getLeaf (type : Z) : Get Leaf :=
  if type =? STI_UINT8 then v <- get8;; gret (LUInt8 v)
  else if type =? STI_UINT16 then v <- get16;; gret (LUInt16 v)
  else if type =? STI_UINT32 then v <- get32;; gret (LUInt32 v)
  else if type =? STI_UINT64 then v <- get64;; gret (LUInt64 v)
  else if type =? STI_AMOUNT then v <- getAmount;; gret (LAmount v)
  else if type =? STI_NUMBER then v <- getNumber;; gret (LNumber v)
  else if type =? STI_UINT128 then v <- getBits 16;; gret (LUInt128 v)
  else if type =? STI_UINT160 then v <- getBits 20;; gret (LUInt160 v)
  else if type =? STI_UINT192 then v <- getBits 24;; gret (LUInt192 v)
  else if type =? STI_UINT256 then v <- getBits 32;; gret (LUInt256 v)
  else if type =? STI_INT32 then v <- get32;; gret (LInt32 (i32 v))
  else if type =? STI_VECTOR256 then v <- getVector256;; gret (LVector256 v)
  else if type =? STI_VL then v <- getVLBuffer;; gret (LBlob v)
  else if type =? STI_ACCOUNT then getAccount
  else if type =? STI_PATHSET then v <- getPathSet;; gret (LPathSet v)
  else if type =? STI_ISSUE then v <- getIssue;; gret (LIssue v)
  else if type =? STI_CURRENCY then v <- getBits 20;; gret (LCurrency v)
  else glift RuntimeError.

End Reading.
