(* ===== verification/STObject.v ===== *)
(** * Serialized objects

    [STBase], [STVar], [STObject] and [STArray] of include/xrpl/protocol and
    src/libxrpl/protocol: objects of fields with or without a template, their fields, their
    serialization sorted by field code, and the parser with its limit on the depth.

    A slot of an object is a field with its value; the elements of an array are objects.  The
    pointer to the template is the template.  Running out of fuel is [Wild]. *)
From S2P Require Import Prelude Serializer SField Formats Number Amounts STTypes.

#[local] Unset Elimination Schemes.
Inductive STBase :=
| STNotPresent (f : SField)
| STLeaf (f : SField) (v : Leaf)
| STObj (f : SField) (type : option SOTemplate) (v : list STBase)
| STArr (f : SField) (v : list STBase).

#[local] Set Elimination Schemes.

Definition getFName (b : STBase) : SField :=
  match b with STNotPresent f | STLeaf f _ | STObj f _ _ | STArr f _ => f end.

Definition getSType (b : STBase) : Z :=
  match b with
  | STNotPresent _ => STI_NOTPRESENT
  | STLeaf _ v => leafSType v
  | STObj _ _ _ => STI_OBJECT
  | STArr _ _ => STI_ARRAY
  end.

Definition isPresent (b : STBase) : bool := match b with STNotPresent _ => false | _ => true end.

Definition isDefault (b : STBase) : bool :=
  match b with
  | STNotPresent _ => true
  | STLeaf _ v => leafIsDefault v
  | STObj _ _ v | STArr _ v => match v with [] => true | _ => false end
  end.

(** [STVar(gDefaultObject, name)] *)
Definition defaultVar (f : SField) : Outcome STBase :=
  if fieldType f =? STI_OBJECT then Ret (STObj f None [])
  else if fieldType f =? STI_ARRAY then Ret (STArr f [])
  else match defaultLeaf (fieldType f) with Some v => Ret (STLeaf f v) | None => RuntimeError end.

(** ** Sorting *)

Section Sort.
Context {A : Type} (key : A -> STBase).

Definition codeOf (x : A) : Z := fieldCodeMem (getFName (key x)).

Fixpoint insertField (x : A) (l : list A) : list A :=
  match l with
  | [] => [x]
  | y :: l' => if codeOf y <? codeOf x then y :: insertField x l' else x :: l
  end.

Fixpoint sortFields (l : list A) : list A :=
  match l with [] => [] | x :: l => insertField x (sortFields l) end.

Definition included (withSigning : bool) (x : A) : bool :=
  isPresent (key x) && shouldInclude (getFName (key x)) withSigning.

Definition sortedFields (withSigning : bool) (l : list A) : list A :=
  sortFields (List.filter (included withSigning) l).
End Sort.

Definition getSortedFields (withSigning : bool) (v : list STBase) : list STBase :=
  sortedFields (fun b => b) withSigning v.

(** Two neighbours with the same field. *)
Fixpoint adjacentDup (l : list STBase) : bool :=
  match l with
  | [] => false
  | x :: l => match l with [] => false | y :: _ => fieldEq (getFName x) (getFName y) || adjacentDup l end
  end.

(** ** Writing *)

Fixpoint runWriters (l : list (Serializer -> Outcome Serializer)) (s : Serializer) : Outcome Serializer :=
  match l with
  | [] => Ret s
  | w :: l => let? s := w s in runWriters l s
  end.

Definition addFieldName (f : SField) (s : Serializer) : Serializer := (addFieldID (fieldType f) (fieldValue f) s).2.

(** One field of an object: its identifier, its value, and the end marker of an object or an
    array. *)
Definition addField (x : STBase * (Serializer -> Outcome Serializer)) (s : Serializer) : Outcome Serializer :=
  let? s := x.2 (addFieldName (getFName x.1) s) in
  if (getSType x.1 =? STI_ARRAY) || (getSType x.1 =? STI_OBJECT) then Ret (addFieldID (getSType x.1) 1 s).2 else Ret s.

Definition addElement (x : STBase * (Serializer -> Outcome Serializer)) (s : Serializer) : Outcome Serializer :=
  let? s := x.2 (addFieldName (getFName x.1) s) in
  Ret (addFieldID STI_OBJECT 1 s).2.

(** [add] *)
Fixpoint addBase (b : STBase) : Serializer -> Outcome Serializer :=
  match b with
  | STNotPresent _ => fun s => Ret s
  | STLeaf _ v => addLeaf v
  | STObj _ _ v => runWriters (addField <$> sortedFields fst true (List.map (fun c => (c, addBase c)) v))
  | STArr _ v => runWriters (addElement <$> List.map (fun c => (c, addBase c)) v)
  end.

Definition addObject (withSigning : bool) (v : list STBase) (s : Serializer) : Outcome Serializer :=
  runWriters (addField <$> sortedFields fst withSigning (List.map (fun c => (c, addBase c)) v)) s.

(** ** Templates *)

(** The first slot of a field, and the slots without it. *)
Fixpoint takeField (f : SField) (v : list STBase) : option (STBase * list STBase) :=
  match v with
  | [] => None
  | b :: v =>
    if fieldEq (getFName b) f then Some (b, v)
    else match takeField f v with Some (c, r) => Some (c, b :: r) | None => None end
  end.

Fixpoint applyElements (t : SOTemplate) (v : list STBase) : Outcome (list STBase * list STBase) :=
  match t with
  | [] => Ret ([], v)
  | e :: t =>
    match takeField (el_sField e) v with
    | Some (b, v) =>
      if bool_decide (el_style e = SoeDefault) && isDefault b then RuntimeError
      else let? (w, r) := applyElements t v in Ret (b :: w, r)
    | None =>
      if bool_decide (el_style e = SoeRequired) then RuntimeError
      else let? (w, r) := applyElements t v in Ret (STNotPresent (el_sField e) :: w, r)
    end
  end.

Definition applyTemplate (t : SOTemplate) (v : list STBase) : Outcome (list STBase) :=
  let? (w, r) := applyElements t v in
  if forallb (fun b => isDiscardable (getFName b)) r then Ret w else RuntimeError.

Definition applyTemplateFromSField (f : SField) (b : STBase) : Outcome STBase :=
  match b with
  | STObj g t v =>
    match findSOTemplateBySField f with
    | Some tmpl => let? w := applyTemplate tmpl v in Ret (STObj g (Some tmpl) w)
    | None => Ret b
    end
  | _ => Ret b
  end.

(** [set(SOTemplate)] *)
Fixpoint setTemplate (t : SOTemplate) : Outcome (list STBase) :=
  match t with
  | [] => Ret []
  | e :: t =>
    let? b := if bool_decide (el_style e = SoeRequired) then defaultVar (el_sField e)
              else Ret (STNotPresent (el_sField e)) in
    let? v := setTemplate t in
    Ret (b :: v)
  end.

(** ** Reading *)

Section Reading.
Context (mode : RoundingMode) (scale : MantissaScale).

Definition dupCheck (r : list STBase * bool) : Get (list STBase * bool) :=
  if adjacentDup (getSortedFields true r.1) then glift RuntimeError else gret r.

(** [setFields] is the loop of [set], [getVar] the constructor of [STVar] and [getArray] the
    loop of the constructor of [STArray].  Each call reads a byte or lowers the depth left. *)
Fixpoint setFields (fuel : nat) (depth : Z) (canonicalOrder : bool) (prev : option Z) (v : list STBase)
  : Get (list STBase * bool) :=
  match fuel with
  | O => glift Wild
  | S fuel => fun it =>
    if empty it then gret (v, false) it
    else
      (id <- getFieldID;;
       let '(type, field) := id in
       if (type =? STI_OBJECT) && (field =? 1) then gret (v, true)
       else if (type =? STI_ARRAY) && (field =? 1) then glift RuntimeError
       else
         let fn := getField (fieldCode type field) in
         if isInvalid fn then glift RuntimeError
         else if canonicalOrder && match prev with Some p => fieldCodeMem fn <=? p | None => false end
         then glift RuntimeError
         else
           b <- getVar fuel fn (depth + 1);;
           b <- glift (applyTemplateFromSField fn b);;
           setFields fuel depth canonicalOrder (Some (fieldCodeMem fn)) (v ++ [b])) it
  end
with getVar (fuel : nat) (fn : SField) (depth : Z) : Get STBase :=
  match fuel with
  | O => glift Wild
  | S fuel =>
    if 10 <? depth then glift RuntimeError
    else if fieldType fn =? STI_OBJECT then
      r <- setFields fuel depth false None [];;
      r <- dupCheck r;;
      gret (STObj fn None r.1)
    else if fieldType fn =? STI_ARRAY then
      v <- getArray fuel depth [];;
      gret (STArr fn v)
    else v <- getLeaf mode scale (fieldType fn);; gret (STLeaf fn v)
  end
with getArray (fuel : nat) (depth : Z) (v : list STBase) : Get (list STBase) :=
  match fuel with
  | O => glift Wild
  | S fuel => fun it =>
    if empty it then gret v it
    else
      (id <- getFieldID;;
       let '(type, field) := id in
       if (type =? STI_ARRAY) && (field =? 1) then gret v
       else if (type =? STI_OBJECT) && (field =? 1) then glift RuntimeError
       else
         let fn := getField (fieldCode type field) in
         if isInvalid fn then glift RuntimeError
         else if negb (fieldType fn =? STI_OBJECT) then glift RuntimeError
         else
           b <- getVar fuel fn (depth + 1);;
           b <- glift (applyTemplateFromSField fn b);;
           getArray fuel depth (v ++ [b])) it
  end.

Definition parseFuel (it : SerialIter) : nat := 2 * remain_ it + 2.

(** [set(sit, depth, requireCanonicalOrder)]: the fields, and whether the end marker was met *)
Definition setObject (canonicalOrder : bool) : Get (list STBase * bool) := fun it =>
  (r <- setFields (parseFuel it) 0 canonicalOrder None [];; dupCheck r) it.

(** [STObject(type, sit, name, requireCanonicalOrder)] *)
Definition makeObject (t : SOTemplate) (canonicalOrder : bool) : Get (list STBase) :=
  r <- setObject canonicalOrder;; glift (applyTemplate t r.1).

End Reading.
