(* ===== verification/AmountFacts.v ===== *)
(** * Canonical amounts

    The invariant of [STAmount] and how the operations keep it: canonicalizing a canonical
    amount changes nothing, comparison is that of the values, and what sums of XRP and MPT
    give: the exact sum, an error, or for one sum another amount. *)
From S2P Require Import Prelude Serializer Number NumberSpec NumberNorm NumberAdd.
From S2P Require Import NumberClaims Amounts.

Definition wfIssue (i : Issue) : Prop := 0 < currency i < 2 ^ 160 /\ 0 < account i < 2 ^ 160.

(** The amounts the code works with. *)
Definition canonicalAmount (a : STAmount) : Prop :=
  match asset_ a with
  | AMPT id => 0 <= id < 2 ^ 192 /\ 0 <= value_ a <= kMaxMpTokenAmount /\ offset_ a = 0 /\ (isNegative_ a = true -> 0 < value_ a)
  | AIssue i =>
    (i = xrpIssue /\ 0 <= value_ a <= kMaxNativeN /\ offset_ a = 0 /\ (isNegative_ a = true -> 0 < value_ a)) \/
    (wfIssue i /\
     ((value_ a = 0 /\ offset_ a = -100 /\ isNegative_ a = false) \/
      (kMinValue <= value_ a <= kMaxValue /\ kMinOffset <= offset_ a <= kMaxOffset)))
  end.

Lemma below_top y : normal y -> exponent_ y < kMaxExponent -> Z.abs (svalue y) < kMaxRepUp * topScale.
Proof.
  intros Hy He. rewrite <-topScale_eq. unfold svalue.
  destruct (normal_cases y Hy) as [-> |[[Hm _] He']].
  { unfold magnitude. cbn [kZero mantissa_]. rewrite Z.mul_0_l, Z.mul_0_r. cbn [Z.abs]. rewrite kMaxRepUp_eq, topScale_eq.
    pose proof topScale_pos. lia. }
  pose proof (pow10_pos (exponent_ y - kMinExponent) ltac:(lia)) as Hp.
  rewrite abs_sgn by (unfold magnitude; nia). unfold magnitude.
  assert (10 ^ (exponent_ y - kMinExponent) * 10 <= 10 ^ (kMaxExponent - kMinExponent)) as Hle.
  { rewrite (Z.mul_comm _ 10), <-Z.pow_succ_r by lia. apply Z.pow_le_mono_r; lia. }
  revert Hp Hle. rewrite kMaxRepUp_eq. generalize (10 ^ (exponent_ y - kMinExponent)) (10 ^ (kMaxExponent - kMinExponent)). intros; nia.
Qed.

(** A representable number is read back from its external view. *)
Lemma makeNumber_exact mode y m e :
  normal y -> exponent_ y < kMaxExponent -> - 2 ^ 63 <= m < 2 ^ 63 -> kMinExponent <= e ->
  svalue y = m * 10 ^ (e - kMinExponent) -> makeNumber mode Large330 m e = Ok y.
Proof.
  intros Hy Htop Hm He Ey. pose proof (makeNumber_rounded mode m e Hm) as Hr.
  rewrite (Z.max_l (e - kMinExponent)), (Z.max_r (kMinExponent - e)) in Hr by lia. rewrite Z.pow_0_r, <-Ey in Hr.
  destruct (rounded_representable mode y _ Hy (below_top y Hy Htop) Hr) as (x & E & Hx & Hxy).
  rewrite E. f_equal. by apply svalue_inj.
Qed.

Lemma iou_number mode n v off :
  kMinValue <= v <= kMaxValue -> kMinOffset <= off <= kMaxOffset ->
  makeNumber mode Large330 (sgn n * v) off = Ok (mkNumber n (v * 1000) (off - 3)).
Proof.
  unfold kMaxValue, kMinValue, kMinOffset, kMaxOffset. intros Hv Ho. apply makeNumber_exact.
  - apply normal_intro; [|unfold kMinExponent, kMaxExponent; lia]. split; [lia|]. right.
    replace (v * 1000) with (v * 100 * 10) by ring. apply Z.mod_mul. lia.
  - cbn. unfold kMaxExponent. lia.
  - destruct n; cbn [sgn]; lia.
  - unfold kMinExponent. lia.
  - unfold svalue, magnitude. cbn [negative_ mantissa_ exponent_].
    replace (off - kMinExponent) with (3 + (off - 3 - kMinExponent)) by lia.
    rewrite (Z.pow_add_r 10 3) by (unfold kMinExponent; lia). change (10 ^ 3) with 1000.
    generalize (10 ^ (off - 3 - kMinExponent)). intros; ring.
Qed.

(** Three zeros are dropped. *)
Lemma iou_range mode n v off :
  kMinValue <= v <= kMaxValue -> kMinOffset <= off <= kMaxOffset ->
  normalizeToRange mode kMinValue kMaxValue (mkNumber n (v * 1000) (off - 3)) = Ok (sgn n * v, off).
Proof.
  unfold kMaxValue, kMinOffset, kMaxOffset. intros Hv Ho. unfold normalizeToRange, doNormalize.
  unfold kMinValue in *. destruct (Z.eqb_spec (v * 1000) 0); [lia|]. change loopFuel with 64%nat.
  rewrite growLoop_S. destruct (Z.ltb_spec (v * 1000) 1000000000000000); [lia|]. cbn [andb nbind].
  set (M := 1000000000000000 * 10 - 1). set (g := if n then _ else _).
  assert (g = mkGuard 0 false n 1000000000000000 M Disabled) as -> by (destruct n; done).
  assert (forall f k e, M < k * 10 -> e < kMaxExponent ->
    shrinkLoop (S f) W64 (mkGuard 0 false n 1000000000000000 M Disabled) (k * 10) e =
    shrinkLoop f W64 (mkGuard 0 false n 1000000000000000 M Disabled) k (e + 1)) as Hdrop.
  { intros f k e Hk He. rewrite shrinkLoop_S. cbn [maxMantissa]. destruct (Z.ltb_spec M (k * 10)); [|lia].
    destruct (Z.leb_spec kMaxExponent e); [lia|]. cbn [doDropDigit]. rewrite Z.mod_mul, Z.div_mul by lia. done. }
  unfold kMaxExponent in Hdrop. replace (v * 1000) with (v * 100 * 10) by ring. rewrite Hdrop by (unfold M; lia).
  replace (v * 100) with (v * 10 * 10) by ring. rewrite !Hdrop by (unfold M; lia). rewrite shrinkLoop_S. cbn [maxMantissa].
  destruct (Z.ltb_spec M v); [unfold M in *; lia|]. cbn [nbind]. replace (off - 3 + 1 + 1 + 1) with off by lia.
  destruct (Z.ltb_spec off kMinExponent); [unfold kMinExponent in *; lia|].
  destruct (Z.ltb_spec v 1000000000000000); [lia|]. cbn [orb].
  destruct (Z.ltb_spec (repLimit Disabled) v); [change (repLimit Disabled) with kMaxRep in *; unfold kMaxRep, M in *; lia|].
  cbn [doRoundUp pushOverflow is330 cuspRoundingFix fixLevel Z.leb Z.compare andb].
  assert (round mode (mkGuard 0 false n 1000000000000000 M Disabled) = RDown) as -> by (destruct mode, n; done).
  cbn [roundsUp]. unfold finishRound, bringIntoRange. cbn [mantissa_ exponent_ minMantissa negative_].
  destruct (Z.ltb_spec v 1000000000000000); [lia|]. cbn [andb].
  destruct (Z.ltb_spec off kMinExponent); [unfold kMinExponent in *; lia|]. cbn [orb is330 cuspRoundingFix fixLevel Z.leb Z.compare andb].
  cbn [exponent_]. destruct (Z.ltb_spec kMaxExponent off); [unfold kMaxExponent in *; lia|]. done.
Qed.

Lemma makeIOU_canonical mode n v off :
  kMinValue <= v <= kMaxValue -> kMinOffset <= off <= kMaxOffset ->
  makeIOU mode Large330 (sgn n * v) off = Ret (mkIOU (sgn n * v) off).
Proof.
  intros Hv Ho. unfold makeIOU. destruct (Z.eqb_spec (sgn n * v) 0); [unfold kMinValue in *; destruct n; cbn [sgn] in *; lia|].
  rewrite iou_number by done. cbn [numOutcome obind]. unfold iouOfNumber. rewrite iou_range by done. cbn [numOutcome obind].
  unfold kMinOffset, kMaxOffset in *. bcase; first [lia|done].
Qed.

Lemma wfIssue_native i : wfIssue i -> issueNative i = false.
Proof.
  intros [Hc _]. unfold issueNative, issueEq, isXRP. cbn [xrpIssue currency account].
  destruct (Z.eqb_spec (currency i) 0); [lia|done].
Qed.

Lemma signedValue_small a :
  0 <= value_ a < 2 ^ 63 -> signedValue a = sgn (isNegative_ a) * value_ a.
Proof.
  intros H. unfold signedValue. rewrite (i64_id (value_ a)) by lia. destruct (isNegative_ a); cbn [sgn]; [|lia].
  rewrite i64_id by lia. lia.
Qed.

(** Canonicalizing a canonical issued amount changes nothing, whatever the rounding mode; a
    zero gets the exponent of zero. *)
Lemma canonicalize_issued mode i v off n :
  issueNative i = false -> kMinValue <= v <= kMaxValue -> kMinOffset <= off <= kMaxOffset ->
  canonicalize mode Large330 (mkAmount (AIssue i) v off n) = Ret (mkAmount (AIssue i) v off n).
Proof.
  intros Hi Hv Ho. unfold canonicalize, iou. cbn [asset_ integral]. rewrite Hi.
  unfold kMinValue, kMaxValue in Hv. rewrite signedValue_small by (cbn; unfold kMinValue in *; lia). cbn [value_ isNegative_ offset_].
  rewrite makeIOU_canonical by done. cbn [obind]. unfold assignIOU. cbn [iou_mantissa iou_exponent asset_].
  unfold kMinValue in *. do 2 f_equal; destruct n; cbn [sgn]; bcase; try lia; try done; rewrite u64_id; lia.
Qed.

Lemma canonicalize_zero mode i off n :
  issueNative i = false -> canonicalize mode Large330 (mkAmount (AIssue i) 0 off n) = Ret (mkAmount (AIssue i) 0 (-100) false).
Proof.
  intros Hi. unfold canonicalize, iou. cbn [asset_ integral]. rewrite Hi.
  rewrite signedValue_small by (cbn; lia). cbn [value_]. rewrite Z.mul_0_r. done.
Qed.

(** ** Order *)

(** The value, as a multiple of ten to the power -100. *)
Definition amountValue (a : STAmount) : Z := sgn (isNegative_ a) * (value_ a * 10 ^ (offset_ a + 100)).

Lemma scaled_less v w e f :
  kMinValue <= v <= kMaxValue -> kMinValue <= w <= kMaxValue -> 0 <= e -> e < f -> v * 10 ^ e < w * 10 ^ f.
Proof.
  unfold kMaxValue, kMinValue. intros Hv Hw He Hef. rewrite (pow10_split e f) by lia. rewrite (pow10_ten (f - e)) by lia.
  pose proof (pow10_pos e He). pose proof (pow10_pos (f - e - 1) ltac:(lia)).
  set (x := 10 ^ e) in *. set (y := 10 ^ (f - e - 1)) in *. replace (w * (10 * y * x)) with (w * 10 * y * x) by ring. apply Z.mul_lt_mono_pos_r; nia.
Qed.

Definition amountRange (a : STAmount) : Prop :=
  (isNegative_ a = true -> 0 < value_ a) /\ 0 <= value_ a /\ -100 <= offset_ a.

Lemma canonical_range a : canonicalAmount a -> amountRange a.
Proof.
  unfold canonicalAmount, amountRange, kMinValue, kMaxValue, kMinOffset, kMaxOffset. unfold kMinValue. destruct (asset_ a) as [i|id].
  - intros [(_ & Hv & Ho & Hn)|(_ & [(Hv & Ho & Hn)|[Hv Ho]])]; split_and!; try done; try lia. by rewrite Hn.
  - intros (_ & Hv & Ho & Hn). split_and!; try done; lia.
Qed.

(** Comparable canonical amounts have one exponent, or mantissas of sixteen digits. *)
Lemma comparable_scales a b :
  canonicalAmount a -> canonicalAmount b -> areComparable a b = true -> 0 < value_ a -> 0 < value_ b ->
  offset_ a = offset_ b \/ (kMinValue <= value_ a <= kMaxValue /\ kMinValue <= value_ b <= kMaxValue).
Proof.
  unfold canonicalAmount, areComparable. intros Ha Hb Hc Hva Hvb.
  destruct (asset_ a) as [i|id] eqn:Ea, (asset_ b) as [j|jd] eqn:Eb; try done.
  - apply andb_true_iff in Hc as [Hn Hcur]. destruct Ha as [(-> & _ & Ho & _)|(Hi & Ha)], Hb as [(-> & _ & Ho' & _)|(Hj & Hb)].
    + left. lia.
    + exfalso. cbn [native] in Hn. by rewrite (wfIssue_native j Hj) in Hn.
    + exfalso. cbn [native] in Hn. by rewrite (wfIssue_native i Hi) in Hn.
    + destruct Ha as [(? & _)|[? _]], Hb as [(? & _)|[? _]]; lia.
  - left. lia.
Qed.

Lemma amountValue_sign a : amountRange a -> (isNegative_ a = true -> amountValue a < 0) /\ (isNegative_ a = false -> 0 <= amountValue a) /\ (value_ a = 0 <-> amountValue a = 0).
Proof.
  intros (Hn & Hv & Ho). unfold amountValue. pose proof (pow10_pos (offset_ a + 100) ltac:(lia)).
  destruct (isNegative_ a); cbn [sgn]; [specialize (Hn eq_refl)|clear Hn]; (split; [intros; first [done|nia]|split; [intros; first [done|nia]|split; intros; nia]]).
Qed.

Lemma magnitudes_lt a b :
  canonicalAmount a -> canonicalAmount b -> areComparable a b = true -> 0 < value_ a -> 0 < value_ b ->
  (value_ a * 10 ^ (offset_ a + 100) <? value_ b * 10 ^ (offset_ b + 100)) =
  ((offset_ a <? offset_ b) || ((offset_ a =? offset_ b) && (value_ a <? value_ b))).
Proof.
  intros Ha Hb Hc Hva Hvb. destruct (canonical_range a Ha) as (_ & _ & Hoa), (canonical_range b Hb) as (_ & _ & Hob).
  pose proof (pow10_pos (offset_ a + 100) ltac:(lia)) as Hpa. pose proof (pow10_pos (offset_ b + 100) ltac:(lia)) as Hpb.
  destruct (comparable_scales a b Ha Hb Hc Hva Hvb) as [E|[Wa Wb]].
  - rewrite E in *. rewrite Z.ltb_irrefl, Z.eqb_refl. cbn [orb andb]. destruct (Z.ltb_spec (value_ a) (value_ b)); [apply Z.ltb_lt|apply Z.ltb_ge]; nia.
  - destruct (Z.ltb_spec (offset_ a) (offset_ b)) as [Hlt|Hge]; cbn [orb].
    + apply Z.ltb_lt, scaled_less; (done || lia).
    + destruct (Z.eqb_spec (offset_ a) (offset_ b)) as [E|Hne]; cbn [andb].
      * rewrite E. destruct (Z.ltb_spec (value_ a) (value_ b)); [apply Z.ltb_lt|apply Z.ltb_ge]; rewrite ?E in *; nia.
      * apply Z.ltb_ge, Z.lt_le_incl, scaled_less; (done || lia).
Qed.

Lemma comparable_sym a b : areComparable a b = areComparable b a.
Proof.
  unfold areComparable. destruct (asset_ a) as [i|i], (asset_ b) as [j|j]; try done; [|apply Z.eqb_sym].
  rewrite (Z.eqb_sym (currency i)). by destruct (native (AIssue i)), (native (AIssue j)).
Qed.

Lemma amtLt_value a b :
  canonicalAmount a -> canonicalAmount b -> areComparable a b = true -> amtLt a b = Ret (amountValue a <? amountValue b).
Proof.
  intros Ha Hb Hc. pose proof (canonical_range a Ha) as Ra. pose proof (canonical_range b Hb) as Rb.
  pose proof (amountValue_sign a Ra) as (Na & Pa & Za). pose proof (amountValue_sign b Rb) as (Nb & Pb & Zb).
  unfold amtLt. rewrite Hc. cbn [negb]. destruct (isNegative_ a) eqn:Ea, (isNegative_ b) eqn:Eb; cbn [eqb negb].
  2: { f_equal. symmetry. apply Z.ltb_lt. specialize (Na eq_refl). specialize (Pb eq_refl). lia. }
  2: { f_equal. symmetry. apply Z.ltb_ge. specialize (Pa eq_refl). specialize (Nb eq_refl). lia. }
  all: destruct (Z.eqb_spec (value_ a) 0) as [E|Hva]; [rewrite (proj1 Za E)|];
    [|destruct (Z.eqb_spec (value_ b) 0) as [E'|Hvb]; [rewrite (proj1 Zb E')|]].
  1: specialize (Na eq_refl); destruct Ra as (Ra & _); specialize (Ra Ea); lia.
  1: destruct Rb as (Rb & _); specialize (Rb Eb); lia.
  2: { destruct (Z.eqb_spec (value_ b) 0) as [E'|Hvb]; [by rewrite (proj1 Zb E')|]. cbn [negb]. f_equal. symmetry.
       apply Z.ltb_lt. assert (amountValue b <> 0) by (intros H; apply Hvb, Zb, H). specialize (Pb eq_refl). lia. }
  2: { f_equal. symmetry. apply Z.ltb_ge. by apply Pa. }
  all: assert (0 < value_ a /\ 0 < value_ b) as [Va Vb] by (destruct Ra as (_ & ? & _), Rb as (_ & ? & _); lia).
  all: unfold amountValue; rewrite Ea, Eb; cbn [sgn]; rewrite ?Z.mul_1_l; cbn [negb].
  1: replace (-1 * (value_ a * 10 ^ (offset_ a + 100)) <? -1 * (value_ b * 10 ^ (offset_ b + 100)))
    with (value_ b * 10 ^ (offset_ b + 100) <? value_ a * 10 ^ (offset_ a + 100))
    by (apply eq_bool_prop_intro; rewrite !Is_true_true, !Z.ltb_lt; lia).
  1: rewrite magnitudes_lt by (done || by rewrite comparable_sym).
  2: rewrite magnitudes_lt by done.
  all: destruct (Z.ltb_spec (offset_ b) (offset_ a)), (Z.ltb_spec (offset_ a) (offset_ b)), (Z.ltb_spec (value_ b) (value_ a)),
    (Z.ltb_spec (value_ a) (value_ b)), (Z.eqb_spec (offset_ a) (offset_ b)), (Z.eqb_spec (offset_ b) (offset_ a)); try lia; try done.
Qed.

Lemma zero_offset a : canonicalAmount a -> value_ a = 0 -> offset_ a = if integral (asset_ a) then 0 else -100.
Proof.
  unfold canonicalAmount. destruct (asset_ a) as [i|id]; cbn [integral]; [|by intros (_ & _ & ? & _)].
  intros [(-> & _ & -> & _)|(Hi & H)] Hv; [done|]. rewrite wfIssue_native by done.
  unfold kMinValue in H. destruct H as [(_ & ? & _)|[? _]]; [done|lia].
Qed.

Lemma comparable_integral a b : areComparable a b = true -> integral (asset_ a) = integral (asset_ b).
Proof.
  unfold areComparable. destruct (asset_ a) as [i|i], (asset_ b) as [j|j]; cbn [integral native]; try done.
  intros [H%eqb_prop _]%andb_true_iff. done.
Qed.

Lemma amtEq_value a b :
  canonicalAmount a -> canonicalAmount b ->
  amtEq a b = true <-> areComparable a b = true /\ amountValue a = amountValue b.
Proof.
  intros Ha Hb. unfold amtEq. destruct (areComparable a b) eqn:Hc; cbn [andb]; [|by split; [|intros [? _]]].
  split.
  - rewrite !andb_true_iff, !Z.eqb_eq. intros [[Hn Ho] Hv]. split; [done|]. apply eqb_prop in Hn.
    unfold amountValue. by rewrite Hn, Ho, Hv.
  - intros [_ E]. pose proof (amtLt_value a b Ha Hb Hc) as H1.
    pose proof (amtLt_value b a Hb Ha ltac:(by rewrite comparable_sym)) as H2. rewrite E, Z.ltb_irrefl in H1, H2.
    revert H1 H2. unfold amtLt. rewrite (comparable_sym b a), Hc. cbn [negb].
    pose proof (canonical_range a Ha) as (Na & Va & _). pose proof (canonical_range b Hb) as (Nb & Vb & _).
    destruct (isNegative_ a) eqn:Ea, (isNegative_ b) eqn:Eb; cbn [eqb negb]; try done.
    + specialize (Na eq_refl). specialize (Nb eq_refl). destruct (Z.eqb_spec (value_ a) 0), (Z.eqb_spec (value_ b) 0); try lia.
      destruct (Z.ltb_spec (offset_ b) (offset_ a)), (Z.ltb_spec (offset_ a) (offset_ b)); try lia; try done.
      destruct (Z.ltb_spec (value_ b) (value_ a)), (Z.ltb_spec (value_ a) (value_ b)); try lia; try done; intros _ _; by rewrite (proj2 (Z.eqb_eq (offset_ a) (offset_ b))), (proj2 (Z.eqb_eq (value_ a) (value_ b))) by lia.
    + destruct (Z.eqb_spec (value_ a) 0) as [E1|], (Z.eqb_spec (value_ b) 0) as [E2|]; cbn [negb]; try done.
      * intros _ _. rewrite E1, E2. rewrite andb_true_r. apply Z.eqb_eq.
        rewrite (zero_offset a Ha E1), (zero_offset b Hb E2). by rewrite (comparable_integral a b Hc).
      * destruct (Z.ltb_spec (offset_ b) (offset_ a)), (Z.ltb_spec (offset_ a) (offset_ b)); try lia; try done.
        destruct (Z.ltb_spec (value_ b) (value_ a)), (Z.ltb_spec (value_ a) (value_ b)); try lia; try done; intros _ _; by rewrite (proj2 (Z.eqb_eq (offset_ a) (offset_ b))), (proj2 (Z.eqb_eq (value_ a) (value_ b))) by lia.
Qed.

(** ** Sums of integral amounts *)

(** Nothing has been dropped: no rounding, in any scale. *)
Lemma doRound_nothing mode scale (n : bool) m :
  doRound mode (if n then setNegative (rangeGuard scale) else rangeGuard scale) m = Ok (sgn n * m).
Proof.
  unfold doRound. assert (roundsUp (round mode (if n then setNegative (rangeGuard scale) else rangeGuard scale)) m = false) as ->
    by (destruct mode, scale, n; reflexivity).
  destruct n; cbn [sbit_ setNegative sgn]; [f_equal; lia|]. change (sbit_ (rangeGuard scale)) with false. cbv iota. f_equal. lia.
Qed.

Lemma toRep_integer mode scale (n : bool) v :
  0 < v <= kMaxRep -> toRep mode scale (mkNumber n v 0) = Ok (sgn n * v).
Proof.
  intros Hv. unfold toRep, mantissa, exponent. cbn [negative_ mantissa_ exponent_].
  destruct (Z.ltb_spec kMaxRep v); [lia|]. destruct (Z.eqb_spec ((if n then -1 else 1) * v) 0); [destruct n; lia|].
  assert ((if n then (setNegative (rangeGuard scale), - ((if n then -1 else 1) * v)) else (rangeGuard scale, (if n then -1 else 1) * v)) =
          (if n then setNegative (rangeGuard scale) else rangeGuard scale, v)) as -> by (destruct n; f_equal; lia).
  cbv beta iota. cbn [Z.ltb Z.compare nbind]. change loopFuel with 64%nat. rewrite scaleUp_S. cbn [Z.ltb Z.compare nbind].
  apply doRound_nothing.
Qed.

Definition integralLimit (a : Asset) : Z := if native a then kMaxNativeN else kMaxMpTokenAmount.

Lemma canonicalize_integral mode scale a v n :
  integral a = true -> 0 <= v <= integralLimit a -> (n = true -> 0 < v) ->
  canonicalize mode scale (mkAmount a v 0 n) = Ret (mkAmount a v 0 n).
Proof.
  intros Ha Hv Hn. unfold canonicalize. cbn [asset_ value_ offset_ isNegative_]. rewrite Ha.
  destruct (Z.eqb_spec v 0) as [-> |Hne]; cbn [orb]; [destruct n; [specialize (Hn eq_refl); lia|done]|].
  change (0 <=? -20) with false. change (17 <? 0) with false. change (18 <? 0) with false. rewrite !andb_false_r.
  assert (v <= kMaxRep /\ integralLimit a <= kMaxMpTokenAmount) as [Hr Hl].
  { revert Hv. unfold integralLimit, kMaxMpTokenAmount, kMaxNativeN, kMaxRep. destruct (native a); lia. }
  rewrite toRep_integer by lia. cbn [numOutcome obind].
  assert (u64 (if sgn n * v <? 0 then - (sgn n * v) else sgn n * v) = v) as ->.
  { unfold kMaxRep in Hr. destruct n; cbn [sgn]; bcase; try lia; rewrite u64_id; lia. }
  assert ((sgn n * v <? 0) = n) as -> by (destruct n; cbn [sgn]; [apply Z.ltb_lt|apply Z.ltb_ge]; lia).
  unfold integralLimit in Hv. destruct (native a); cbn [negb andb]; [|destruct (Z.ltb_spec kMaxMpTokenAmount v); [lia|done]].
  destruct (Z.ltb_spec kMaxNativeN v); [lia|done].
Qed.

Lemma integral_canonical a :
  canonicalAmount a -> integral (asset_ a) = true ->
  0 <= value_ a <= integralLimit (asset_ a) /\ offset_ a = 0 /\ (isNegative_ a = true -> 0 < value_ a).
Proof.
  unfold canonicalAmount, integralLimit. destruct (asset_ a) as [i|id]; cbn [integral native]; [|tauto].
  intros [(-> & ? & ? & ?)|(Hi & _)] Hn; [done|]. by rewrite wfIssue_native in Hn.
Qed.

Lemma native_canonical a : canonicalAmount a -> native (asset_ a) = true -> asset_ a = AIssue xrpIssue.
Proof.
  unfold canonicalAmount. destruct (asset_ a) as [i|id]; cbn [native]; [|done].
  intros [(-> & _)|(Hi & _)] Hn; [done|]. by rewrite wfIssue_native in Hn.
Qed.

Lemma comparable_native a b : areComparable a b = true -> native (asset_ a) = native (asset_ b).
Proof.
  unfold areComparable. destruct (asset_ a) as [i|i], (asset_ b) as [j|j]; cbn [native]; try done.
  by intros [H%eqb_prop _]%andb_true_iff.
Qed.

(** The signed number of drops or tokens. *)
Definition units (a : STAmount) : Z := sgn (isNegative_ a) * value_ a.

Lemma units_value a : offset_ a = 0 -> amountValue a = units a * 10 ^ 100.
Proof. intros H. unfold amountValue, units. rewrite H. change (10 ^ (0 + 100)) with (10 ^ 100). generalize (10 ^ 100). intros; ring. Qed.

Lemma setSigned_units a z :
  - 2 ^ 63 < z < 2 ^ 63 ->
  setSigned a z 0 = mkAmount a (Z.abs z) 0 (z <? 0) /\ units (setSigned a z 0) = z.
Proof.
  intros Hz. unfold units, setSigned. destruct (Z.ltb_spec z 0); cbn [isNegative_ value_ sgn]; rewrite ?u64_id by lia.
  - split; [f_equal|]; lia.
  - split; [f_equal|]; lia.
Qed.

Lemma checkedAdd_spec a b :
  - 2 ^ 63 <= a < 2 ^ 63 -> - 2 ^ 63 <= b < 2 ^ 63 ->
  checkedAdd a b = if (- 2 ^ 63 <=? a + b) && (a + b <? 2 ^ 63) then Some (a + b) else None.
Proof.
  intros Ha Hb. unfold checkedAdd.
  destruct (Z.ltb_spec 0 b), (Z.ltb_spec b 0), (Z.ltb_spec (2 ^ 63 - 1 - b) a), (Z.ltb_spec a (- 2 ^ 63 - b)),
    (Z.leb_spec (- 2 ^ 63) (a + b)), (Z.ltb_spec (a + b) (2 ^ 63)); cbn [andb orb]; try done; exfalso; lia.
Qed.

Lemma canonical_units a :
  canonicalAmount a -> integral (asset_ a) = true ->
  0 <= value_ a < 2 ^ 63 /\ signedValue a = units a /\ - 2 ^ 63 < units a < 2 ^ 63 /\
  (native (asset_ a) = true -> - 2 ^ 62 < units a < 2 ^ 62).
Proof.
  intros Ha Hi. destruct (integral_canonical a Ha Hi) as (V & _ & _). unfold integralLimit, kMaxMpTokenAmount, kMaxNativeN in V.
  assert (0 <= value_ a < 2 ^ 63) as Hv by (destruct (native (asset_ a)); lia).
  split; [done|]. rewrite signedValue_small by done. unfold units.
  split; [done|]. split; [destruct (isNegative_ a); cbn [sgn]; lia|]. intros Hn. rewrite Hn in V. destruct (isNegative_ a); cbn [sgn]; lia.
Qed.

(** The outcome of a sum of two integral amounts, with the value [s]: exact within the
    range; minus 2 to the 63 is accepted as another amount; beyond, the error of the
    amendment, and undefined without it. *)
Definition integralSum (fixCleanup : bool) (a : STAmount) (s : Z) (r : Outcome STAmount) : Prop :=
  if (- 2 ^ 63 <? s) && (s <? 2 ^ 63) then
    exists c, r = Ret c /\ asset_ c = asset_ a /\ offset_ c = 0 /\ units c = s /\ value_ c = Z.abs s
  else if s =? - 2 ^ 63 then r = Ret (mkAmount (asset_ a) 9223372036854775800 0 true)
  else r = if fixCleanup then OverflowError else Wild.

Lemma integralSum_in fix_ a s c r :
  - 2 ^ 63 < s < 2 ^ 63 -> r = Ret c -> asset_ c = asset_ a -> offset_ c = 0 -> 0 <= value_ c -> units c = s ->
  integralSum fix_ a s r.
Proof.
  intros Hs -> Ha Ho Hv Hu. unfold integralSum. destruct (Z.ltb_spec (- 2 ^ 63) s), (Z.ltb_spec s (2 ^ 63)); try lia. cbn [andb].
  exists c. split_and!; try done. subst s. unfold units. destruct (isNegative_ c); cbn [sgn] in *; lia.
Qed.

Lemma intAdd_sum fix_ a x y (k : Z -> Outcome STAmount) :
  - 2 ^ 63 < x < 2 ^ 63 -> - 2 ^ 63 < y < 2 ^ 63 ->
  (- 2 ^ 63 < x + y < 2 ^ 63 -> k (x + y) = Ret (setSigned (asset_ a) (x + y) 0)) ->
  (x + y = - 2 ^ 63 -> k (x + y) = Ret (mkAmount (asset_ a) 9223372036854775800 0 true)) ->
  integralSum fix_ a (x + y) (obind (intAmountAdd fix_ x y) k).
Proof.
  intros Hx Hy Hk Hlow. unfold intAmountAdd. rewrite checkedAdd_spec by lia.
  destruct (Z.eq_dec (x + y) (- 2 ^ 63)) as [E|Hne].
  { specialize (Hlow E). rewrite E in *. exact Hlow. }
  destruct (Z.leb_spec (- 2 ^ 63) (x + y)), (Z.ltb_spec (x + y) (2 ^ 63)); cbn [andb].
  1: { destruct (setSigned_units (asset_ a) (x + y) ltac:(lia)) as [E Eu].
       apply (integralSum_in _ a _ (setSigned (asset_ a) (x + y) 0)); [lia|apply Hk; lia| | | |done]; rewrite E; cbn; (done || lia). }
  all: unfold integralSum; destruct (Z.ltb_spec (- 2 ^ 63) (x + y)), (Z.ltb_spec (x + y) (2 ^ 63)); try lia; cbn [andb];
    (destruct (Z.eqb_spec (x + y) (- 2 ^ 63)); [lia|]); by destruct fix_.
Qed.

Lemma amtSignum_zero a : (amtSignum a =? 0) = (value_ a =? 0).
Proof. unfold amtSignum. destruct (Z.eqb_spec (value_ a) 0), (isNegative_ a); done. Qed.

Lemma units_nonzero a : value_ a = 0 <-> units a = 0.
Proof. unfold units. destruct (isNegative_ a); cbn [sgn]; lia. Qed.

Lemma comparable_limit a b : areComparable a b = true -> integralLimit (asset_ a) = integralLimit (asset_ b).
Proof. intros Hc. unfold integralLimit. by rewrite (comparable_native a b Hc). Qed.

Lemma canonicalize_lowest mode scale a :
  holdsMPT a = true ->
  canonicalize mode scale (setSigned a (- 2 ^ 63) 0) = Ret (mkAmount a 9223372036854775800 0 true).
Proof. destruct a as [i|id]; [done|]. intros _. destruct mode, scale; vm_compute; reflexivity. Qed.

Lemma amtAdd_integral mode scale fix_ a b :
  canonicalAmount a -> canonicalAmount b -> areComparable a b = true -> integral (asset_ a) = true ->
  integralSum fix_ a (units a + units b) (amtAdd mode scale fix_ a b).
Proof.
  intros Ha Hb Hc Hi. pose proof (comparable_integral a b Hc) as Hib. rewrite Hi in Hib. symmetry in Hib.
  destruct (integral_canonical a Ha Hi) as (Va & Oa & Na), (integral_canonical b Hb Hib) as (Vb & Ob & Nb).
  destruct (canonical_units a Ha Hi) as (Wa & Sa & Ua & Xa), (canonical_units b Hb Hib) as (Wb & Sb & Ub & Xb).
  unfold amtAdd. rewrite Hc, !amtSignum_zero. cbn [negb].
  destruct (Z.eqb_spec (value_ b) 0) as [Eb|Hb0].
  { pose proof (proj1 (units_nonzero b) Eb). apply (integralSum_in _ a _ a); try done; lia. }
  destruct (Z.eqb_spec (value_ a) 0) as [Ea|Ha0].
  { rewrite (proj1 (units_nonzero a) Ea). 
    assert (makeNamedAmount mode scale (asset_ a) (value_ b) (offset_ b) (isNegative_ b) =
      canonicalize mode scale (mkAmount (asset_ a) (value_ b) (offset_ b) (isNegative_ b))) as ->.
    { unfold makeNamedAmount. rewrite Hi. destruct (Z.ltb_spec (2 ^ 63 - 1) (value_ b)); [lia|]. by destruct scale. }
    rewrite Ob, canonicalize_integral; [|done|by rewrite (comparable_limit a b Hc)|done].
    eapply integralSum_in; [lia|done|done|done|cbn; lia|done]. }
  unfold xrp, mpt. rewrite <-(comparable_native a b Hc). destruct (native (asset_ a)) eqn:En.
  - cbn [obind]. rewrite Sa, Sb. specialize (Xa eq_refl). rewrite <-(comparable_native a b Hc), En in Xb. specialize (Xb eq_refl).
    apply intAdd_sum; [done|done| |lia]. intros _. by rewrite (native_canonical a Ha En).
  - assert (holdsMPT (asset_ a) = true /\ holdsMPT (asset_ b) = true) as [Ma Mb].
    { revert Hc Hi En. unfold areComparable. destruct (asset_ a), (asset_ b); cbn; try done. by intros _ ->. }
    rewrite Ma, Mb. cbn [obind]. rewrite Sa, Sb. apply intAdd_sum; [done|done| |].
    2: { intros ->. by apply canonicalize_lowest. }
    intros Hs.
    destruct (setSigned_units (asset_ a) (units a + units b) Hs) as [-> _]. apply canonicalize_integral; [done| |rewrite Z.ltb_lt; lia].
    unfold integralLimit. rewrite En. unfold kMaxMpTokenAmount. lia.
Qed.

(** C18: Amounts of comparable assets in canonical form: the C++ operators compare the
    values the amounts stand for, and two amounts are equal when their values are.  The sum
    of two amounts of XRP or of one MPT, in every rounding mode and scale of [Number], is
    exact when it is within plus or minus 2 to the 63 minus 1; for minus 2 to the 63, which
    two MPT amounts can reach, it is -9223372036854775800; beyond, it raises the overflow
    error, and is undefined without the amendment that checks for it. *)
Theorem amount_operators mode scale fixCleanup a b :
  canonicalAmount a -> canonicalAmount b -> areComparable a b = true ->
  amtLt a b = Ret (amountValue a <? amountValue b) /\
  (amtEq a b = true <-> amountValue a = amountValue b) /\
  (integral (asset_ a) = true ->
   integralSum fixCleanup a (units a + units b) (amtAdd mode scale fixCleanup a b)).
Proof.
  intros Ha Hb Hc. split; [by apply amtLt_value|]. split; [|by apply amtAdd_integral].
  rewrite amtEq_value by done. tauto.
Qed.

Lemma amount_operators_witness :
  let a := mkAmount (AMPT 5) 9223372036854775807 0 false in let b := mkAmount (AMPT 5) 1 0 true in
  amtLt a b = Ret false /\ integralSum true a (9223372036854775807 + (-1)) (amtAdd TowardsZero Large330 true a b).
Proof.
  intros a b. assert (canonicalAmount a /\ canonicalAmount b) as [Ha Hb] by (unfold canonicalAmount, kMaxMpTokenAmount; cbn; lia).
  destruct (amount_operators TowardsZero Large330 true a b Ha Hb eq_refl) as (Hl & _ & Hs). split; [rewrite Hl; reflexivity|exact (Hs eq_refl)].
Defined.

(** Minus 2 to the 63 is accepted and becomes another amount: [canonicalize] works on a [Number] it builds unchecked, and [Number::mantissa] drops the
    last digit of a magnitude above 2 to the 63 minus 1. *)
Example mpt_sum_changes :
  amtAdd ToNearest Large330 true (mkAmount (AMPT 5) 9223372036854775807 0 true) (mkAmount (AMPT 5) 1 0 true) =
  Ret (mkAmount (AMPT 5) 9223372036854775800 0 true).
Proof. vm_compute. reflexivity. Qed.
