(* ===== verification/STTypesFacts.v ===== *)
(** * Serialized values: what is written is read back

    The bytes of each kind of value, and the proofs that the writers append them and the
    readers take them back. *)
From S2P Require Import Prelude Digits Serializer SerializerFacts SerializerSpec SField Number NumberSpec NumberClaims.
From S2P Require Import Amounts AmountFacts STTypes.

(** ** Integers and strings *)

Lemma reads_get16 v : 0 <= v < 2 ^ 16 -> reads get16 (beBytes 2 v) v.
Proof.
  intros Hv. apply reads_value. rewrite get16_value by (apply beBytes_digits || apply length_beBytes).
  rewrite beValue_beBytes. by apply Z.mod_small.
Qed.

Lemma reads_u32 v : 0 <= v < 2 ^ 32 -> reads get32 (beBytes 4 v) v.
Proof.
  intros Hv. apply reads_value. rewrite get32_value by (apply beBytes_digits || apply length_beBytes).
  rewrite beValue_beBytes. by apply Z.mod_small.
Qed.

Lemma reads_u64 v : 0 <= v < 2 ^ 64 -> reads get64 (beBytes 8 v) v.
Proof.
  intros Hv. apply reads_value. rewrite get64_value by (apply beBytes_digits || apply length_beBytes).
  rewrite beValue_beBytes. by apply Z.mod_small.
Qed.

Lemma reads_geti32 v : - 2 ^ 31 <= v < 2 ^ 31 -> reads geti32 (beBytes 4 v) v.
Proof.
  intros Hv. apply reads_value. rewrite beValue_beBytes. rewrite <-(i32_small v Hv) at 2.
  unfold i32, u32. change (8 * Z.of_nat 4) with 32. by rewrite Z.mod_mod.
Qed.

Lemma reads_geti64 v : - 2 ^ 63 <= v < 2 ^ 63 -> reads geti64 (beBytes 8 v) v.
Proof.
  intros Hv. apply reads_value. rewrite beValue_beBytes. rewrite <-(i64_id v Hv) at 2.
  unfold i64, u64. change (8 * Z.of_nat 8) with 64. by rewrite Z.mod_mod.
Qed.

Lemma reads_getBits n v : 0 <= v < 2 ^ (8 * Z.of_nat n) -> reads (getBits n) (beBytes n v) v.
Proof. intros Hv. apply reads_value. rewrite beValue_beBytes. by apply Z.mod_small. Qed.

(** A variable-size string with its length. *)
Definition vlBytes (v : list Z) : list Z := lengthHeader (Z.of_nat (length v)) ++ v.

Definition shortString (v : list Z) : Prop := isDigits 256 v /\ Z.of_nat (length v) <= kMaxValueOfLengthFor3ByteHeader.

Lemma reads_VLBuffer v : shortString v -> reads getVLBuffer (vlBytes v) v.
Proof. intros [Hd Hl]. eapply reads_bind; [apply reads_length; lia|]. by apply reads_raw. Qed.

Lemma addVLOnly_bytes v s : shortString v -> addVLOnly v s = Ret (s ++ vlBytes v).
Proof. intros Hv. unfold addVLOnly. change (addVL v s) with (put (Variable_ v) s). by rewrite put_bytes. Qed.

Lemma addBits_bytes n v s : addBits n v s = s ++ beBytes n v.
Proof. done. Qed.

(** ** Amounts *)

(** The amounts that have an encoding of their own. *)
Definition wireAmount (a : STAmount) : Prop :=
  match asset_ a with
  | AMPT id => 0 <= id < 2 ^ 192 /\ 0 <= value_ a < 2 ^ 64 /\ offset_ a = 0
  | AIssue i =>
    (i = xrpIssue /\ 0 <= value_ a < 2 ^ 61 /\ offset_ a = 0 /\ (isNegative_ a = true -> 0 < value_ a)) \/
    (wfIssue i /\
     ((value_ a = 0 /\ offset_ a = -100 /\ isNegative_ a = false) \/
      (kMinValue <= value_ a <= kMaxValue /\ kMinOffset <= offset_ a <= kMaxOffset)))
  end.

Lemma canonical_wire a : canonicalAmount a -> wireAmount a.
Proof.
  unfold canonicalAmount, wireAmount, kMaxNativeN, kMaxMpTokenAmount. destruct (asset_ a) as [i|id]; [|lia].
  intros [(-> & ? & ? & ?)|?]; [left; split_and!; try done; lia|by right].
Qed.

(** The word of an issued amount: the top bit, the sign, the exponent and the mantissa. *)
Definition issuedWord (a : STAmount) : Z :=
  if value_ a =? 0 then 2 ^ 63
  else 2 ^ 63 + (if isNegative_ a then 0 else 2 ^ 62) + (offset_ a + 97) * 2 ^ 54 + value_ a.

Definition nativeWord (a : STAmount) : Z := (if isNegative_ a then 0 else 2 ^ 62) + value_ a.

Definition amountBytes (a : STAmount) : list Z :=
  match asset_ a with
  | AMPT id => [if isNegative_ a then 0x20 else 0x60] ++ beBytes 8 (value_ a) ++ beBytes 24 id
  | AIssue i =>
    if issueNative i then beBytes 8 (nativeWord a)
    else beBytes 8 (issuedWord a) ++ beBytes 20 (currency i) ++ beBytes 20 (account i)
  end.

Lemma lor_flag_high v k b : 0 <= k -> 0 <= v < 2 ^ k -> Z.lor v (b * 2 ^ k) = b * 2 ^ k + v.
Proof. intros Hk Hv. rewrite Z.lor_comm, <-(Z.shiftl_mul_pow2 b k) by done. rewrite lor_shift by done. by rewrite Z.shiftl_mul_pow2. Qed.

Lemma addAmount_bytes a s : wireAmount a -> addAmount a s = s ++ amountBytes a.
Proof.
  unfold wireAmount, addAmount, amountBytes. destruct (asset_ a) as [i|id].
  - intros [(-> & Hv & Ho & Hn)|(Hi & Hv)].
    + change (issueNative xrpIssue) with true. cbv iota. rewrite add64_bytes. cbn [snd]. unfold nativeWord.
      destruct (isNegative_ a); [done|]. change kPositive with (1 * 2 ^ 62). by rewrite lor_flag_high by lia.
    + rewrite wfIssue_native by done. rewrite add64_bytes, !addBits_bytes. cbn [snd]. rewrite <-!app_assoc. do 3 f_equal.
      rewrite amtSignum_zero. unfold issuedWord. destruct (Z.eqb_spec (value_ a) 0); [done|].
      destruct Hv as [(? & _)|[Hv Ho]]; [done|]. unfold kMinValue, kMaxValue, kMinOffset, kMaxOffset in *. unfold kMinValue in *.
      destruct (isNegative_ a); rewrite (u64_id (_ + 97)) by lia; rewrite Z.shiftl_mul_pow2 by lia;
        rewrite u64_id by lia; rewrite lor_flag_high by lia; lia.
  - intros (Hid & Hv & Ho). rewrite add64_bytes, addBits_bytes. cbn [snd add8]. rewrite <-!app_assoc.
    by destruct (isNegative_ a).
Qed.

(** Testing a flag is looking at a binary digit. *)
Lemma land_pow2 x k : 0 <= k -> Z.land x (2 ^ k) = if Z.odd (x / 2 ^ k) then 2 ^ k else 0.
Proof.
  intros Hk. rewrite <-(Z.shiftr_div_pow2 x k), <-Z.testbit_odd by done. apply Z.bits_inj'. intros n Hn.
  rewrite Z.land_spec, Z.pow2_bits_eqb by done. destruct (Z.eqb_spec k n) as [<-|Hne].
  - rewrite andb_true_r. destruct (Z.testbit x k); [by rewrite Z.pow2_bits_true|by rewrite Z.bits_0].
  - rewrite andb_false_r. destruct (Z.testbit x k); [by rewrite Z.pow2_bits_false|by rewrite Z.bits_0].
Qed.

Lemma land_flag x k b : 0 <= k -> x / 2 ^ k = b -> Z.land x (2 ^ k) = if Z.odd b then 2 ^ k else 0.
Proof. intros Hk <-. by apply land_pow2. Qed.

Lemma land_mask x : 0 <= x < 2 ^ 63 -> Z.land x kValueMask = x mod 2 ^ 61.
Proof.
  intros Hx. change kValueMask with (Z.lor (2 ^ 63) (Z.ones 61)). rewrite Z.land_lor_distr_r.
  rewrite (land_flag x 63 0), Z.land_ones by (lia || (apply Z.div_small; lia)). by cbn [Z.odd Z.lor].
Qed.

(** The flag byte and the eight bytes of the value, read as eight bytes and one. *)
Lemma mpt_bytes f v :
  0 <= f < 256 -> 0 <= v < 2 ^ 64 -> [f] ++ beBytes 8 v = beBytes 8 (f * 2 ^ 56 + v / 2 ^ 8) ++ [v mod 2 ^ 8].
Proof.
  intros Hf Hv. pose proof (Z.div_mod v (2 ^ 8) ltac:(lia)) as Hd. pose proof (Z.mod_pos_bound v (2 ^ 8) ltac:(lia)).
  apply (valBE_inj 256); [lia| | |by rewrite !length_app, !length_beBytes|].
  - apply Forall_app. split; [by constructor|apply beBytes_digits].
  - apply Forall_app. split; [apply beBytes_digits|constructor; [lia|constructor]].
  - rewrite !valBE_app, <-!beValue_valBE, !beValue_beBytes, length_beBytes. cbn [beValue length Z.of_nat].
    change (8 * 8) with 64. rewrite !Z.mod_small by lia. lia.
Qed.

Lemma reads_bind_nil {A B} (m : Get A) (k : A -> Get B) bytes a c :
  reads m [] a -> reads (k a) bytes c -> reads (gbind m k) bytes c.
Proof. apply (reads_bind m k []). Qed.

Lemma reads_then_eq {A B} (m : Get A) (f : A -> B) bytes a b :
  reads m bytes a -> f a = b -> reads (gbind m (fun x => gret (f x))) bytes b.
Proof. intros H <-. by apply reads_then. Qed.

Section Reading.
Context (mode : RoundingMode).

Lemma reads_mpt a id :
  asset_ a = AMPT id -> wireAmount a -> reads (getAmount mode Large330) (amountBytes a) a.
Proof.
  intros Ea Hw. unfold wireAmount in Hw. rewrite Ea in Hw. destruct Hw as (Hid & Hv & Ho).
  unfold amountBytes. rewrite Ea. set (f := if isNegative_ a then 0x20 else 0x60).
  pose proof (Z.div_mod (value_ a) (2 ^ 8) ltac:(lia)) as Hd. pose proof (Z.mod_pos_bound (value_ a) (2 ^ 8) ltac:(lia)).
  assert (0 <= value_ a / 2 ^ 8 < 2 ^ 56) as Hq by (split; [apply Z.div_pos; lia|apply Z.div_lt_upper_bound; lia]).
  rewrite app_assoc, mpt_bytes, <-app_assoc; [|unfold f; destruct (isNegative_ a); lia|done].
  set (q := value_ a / 2 ^ 8) in *. set (w := f * 2 ^ 56 + q).
  assert (f = if isNegative_ a then 32 else 96) as Hf by done.
  assert (0 <= w < 2 ^ 63) as Hw by (unfold w; destruct (isNegative_ a); lia).
  assert (w / 2 ^ 61 = if isNegative_ a then 1 else 3) as H61
    by (symmetry; unfold w; apply (Z.div_unique _ _ _ q); destruct (isNegative_ a); lia).
  assert (w / 2 ^ 62 = if isNegative_ a then 0 else 1) as H62
    by (symmetry; unfold w; apply (Z.div_unique _ _ _ (if isNegative_ a then 2 ^ 61 + q else 2 ^ 61 + q)); destruct (isNegative_ a); lia).
  unfold getAmount. eapply reads_bind; [apply reads_u64; lia|].
  change kIssuedCurrency with (2 ^ 63). rewrite (land_flag w 63 0) by (lia || (apply Z.div_small; lia)). cbn [Z.odd Z.eqb].
  unfold hasBit. change kMpToken with (2 ^ 61). rewrite (land_flag w 61 _ ltac:(lia) H61).
  replace (Z.odd (if isNegative_ a then 1 else 3)) with true by (by destruct (isNegative_ a)).
  change (negb (2 ^ 61 =? 0)) with true. cbv iota.
  eapply reads_bind; [by apply reads_get8|]. eapply reads_then_eq; [apply reads_getBits; lia|].
  change kPositive with (2 ^ 62). rewrite (land_flag w 62 _ ltac:(lia) H62).
  assert (u64 (Z.shiftl w 8) = Z.shiftl q 8) as ->.
  { rewrite !Z.shiftl_mul_pow2 by lia. unfold u64. symmetry. apply (Z.mod_unique _ _ f); unfold w; lia. }
  rewrite lor_shift by lia. replace (q * 2 ^ 8 + value_ a mod 2 ^ 8) with (value_ a) by lia.
  destruct a as [x v o n]. cbn [asset_ value_ offset_ isNegative_] in *. subst x o. by destruct n.
Qed.

Lemma reads_native a :
  asset_ a = AIssue xrpIssue -> 0 <= value_ a < 2 ^ 61 -> offset_ a = 0 -> (isNegative_ a = true -> 0 < value_ a) ->
  reads (getAmount mode Large330) (beBytes 8 (nativeWord a)) a.
Proof.
  intros Ea Hv Ho Hn. set (w := nativeWord a).
  assert (w = (if isNegative_ a then 0 else 2 ^ 62) + value_ a) as Ew by done.
  assert (0 <= w < 2 ^ 63) as Hw by (destruct (isNegative_ a); lia).
  assert (w / 2 ^ 61 = if isNegative_ a then 0 else 2) as H61
    by (symmetry; apply (Z.div_unique _ _ _ (value_ a)); destruct (isNegative_ a); lia).
  assert (w / 2 ^ 62 = if isNegative_ a then 0 else 1) as H62
    by (symmetry; apply (Z.div_unique _ _ _ (value_ a)); destruct (isNegative_ a); lia).
  assert (w mod 2 ^ 61 = value_ a) as Hm
    by (symmetry; apply (Z.mod_unique _ _ (if isNegative_ a then 0 else 2)); destruct (isNegative_ a); lia).
  unfold getAmount. rewrite <-(app_nil_r (beBytes 8 w)). eapply reads_bind; [apply reads_u64; lia|].
  change kIssuedCurrency with (2 ^ 63). rewrite (land_flag w 63 0) by (lia || (apply Z.div_small; lia)). cbn [Z.odd Z.eqb].
  unfold hasBit. change kMpToken with (2 ^ 61). change kPositive with (2 ^ 62).
  rewrite (land_flag w 61 _ ltac:(lia) H61), (land_flag w 62 _ ltac:(lia) H62), land_mask, Hm by lia.
  destruct a as [x v o n]. cbn [asset_ value_ offset_ isNegative_] in *. subst x o.
  destruct n; cbn [Z.odd Z.even Z.eqb negb]; [|apply reads_ret].
  specialize (Hn eq_refl). destruct (Z.eqb_spec w 0); [lia|]. apply reads_ret.
Qed.

Lemma reads_issued a i :
  asset_ a = AIssue i -> wfIssue i ->
  (value_ a = 0 /\ offset_ a = -100 /\ isNegative_ a = false) \/
  (kMinValue <= value_ a <= kMaxValue /\ kMinOffset <= offset_ a <= kMaxOffset) ->
  reads (getAmount mode Large330) (beBytes 8 (issuedWord a) ++ beBytes 20 (currency i) ++ beBytes 20 (account i)) a.
Proof.
  intros Ea Hi Ha. set (w := issuedWord a).
  set (h := if value_ a =? 0 then 512 else 512 + (if isNegative_ a then 0 else 256) + (offset_ a + 97)).
  assert (w = h * 2 ^ 54 + value_ a /\ 512 <= h < 1024 /\ 0 <= value_ a < 2 ^ 54) as (Ew & Hh & Hv).
  { unfold w, issuedWord, h. unfold kMinValue, kMaxValue, kMinOffset, kMaxOffset in Ha. unfold kMinValue in Ha.
    destruct (Z.eqb_spec (value_ a) 0), (isNegative_ a); lia. }
  assert (w / 2 ^ 54 = h) as H54 by (symmetry; apply (Z.div_unique _ _ _ (value_ a)); lia).
  assert (w mod 2 ^ 54 = value_ a) as Hm by (symmetry; apply (Z.mod_unique _ _ h); lia).
  assert (w / 2 ^ 63 = 1) as H63 by (symmetry; apply (Z.div_unique _ _ _ (w - 2 ^ 63)); lia).
  unfold getAmount. eapply reads_bind; [apply reads_u64; lia|].
  change kIssuedCurrency with (2 ^ 63). rewrite (land_flag w 63 _ ltac:(lia) H63). change (Z.odd 1) with true.
  cbv iota. change (2 ^ 63 =? 0) with false. cbv iota. destruct Hi as [Hc Hac].
  eapply reads_bind; [apply reads_getBits; lia|]. unfold isXRP. destruct (Z.eqb_spec (currency i) 0); [lia|].
  rewrite <-(app_nil_r (beBytes 20 (account i))).
  eapply reads_bind; [apply reads_getBits; lia|]. destruct (Z.eqb_spec (account i) 0); [lia|].
  change (u64 (Z.lnot (Z.shiftl 1023 54))) with (Z.ones 54). rewrite Z.land_ones, Hm, Z.shiftr_div_pow2, H54 by lia.
  assert (wfIssue i) as Hi by done. destruct i as [c ac]. cbn [currency account] in *.
  destruct a as [x v o neg]. cbn [asset_ value_ offset_ isNegative_] in *. subst x.
  destruct (Z.eqb_spec v 0) as [-> |Hne]; cbn [negb].
  - subst h. cbn [Z.eqb Pos.eqb negb]. rewrite canonicalize_zero by (by apply wfIssue_native).
    destruct Ha as [(_ & -> & ->)|[Hr _]]; [apply reads_lift|unfold kMinValue in Hr; lia].
  - destruct Ha as [(? & _)|[Hr Ho]]; [done|].
    assert (Z.land h 256 = if neg then 0 else 256) as ->.
    { change 256 with (2 ^ 8) at 1. rewrite (land_flag h 8 (if neg then 2 else 3)); [by destruct neg|lia|].
      unfold kMinOffset, kMaxOffset in Ho. subst h. symmetry. apply (Z.div_unique _ _ _ (o + 97)); destruct neg; lia. }
    assert (Z.land h 255 = o + 97) as ->.
    { change 255 with (Z.ones 8). rewrite Z.land_ones by lia. unfold kMinOffset, kMaxOffset in Ho. subst h. symmetry.
      apply (Z.mod_unique _ _ (if neg then 2 else 3)); destruct neg; lia. }
    replace (o + 97 - 97) with o by lia.
    destruct (Z.ltb_spec v kMinValue), (Z.ltb_spec kMaxValue v), (Z.ltb_spec o kMinOffset), (Z.ltb_spec kMaxOffset o); try lia.
    cbn [orb]. assert (((if neg then 0 else 256) =? 0) = neg) as -> by (by destruct neg).
    rewrite canonicalize_issued; [|by apply wfIssue_native|done|done]. apply reads_lift.
Qed.

Lemma reads_amount a : wireAmount a -> reads (getAmount mode Large330) (amountBytes a) a.
Proof.
  intros Hw. destruct (asset_ a) as [i|id] eqn:Ea; [|by apply (reads_mpt a id)].
  unfold amountBytes. unfold wireAmount in Hw. rewrite Ea in *. destruct Hw as [(-> & Hv & Ho & Hn)|(Hi & Hv)].
  - by apply reads_native.
  - rewrite wfIssue_native by done. by apply reads_issued.
Qed.

(** ** Numbers *)

Definition wireNumber (x : Number) : Prop := normal x /\ (x = kZero \/ exponent_ x < kMaxExponent).

Definition numberBytes (x : Number) : list Z := beBytes 8 (mantissa x) ++ beBytes 4 (exponent x).

Lemma addNumber_bytes x s : addNumber x s = s ++ numberBytes x.
Proof. unfold addNumber, numberBytes. rewrite add64_bytes, add32_bytes. cbn [snd]. by rewrite app_assoc. Qed.

Lemma reads_number x : wireNumber x -> reads (getNumber mode Large330) (numberBytes x) x.
Proof.
  intros [Hx He]. unfold getNumber, numberBytes. destruct (normal_cases x Hx) as [-> |[[Hg _] _]].
  { change (mantissa kZero) with 0. change (exponent kZero) with (-2147483648).
    eapply reads_bind; [apply reads_geti64; lia|]. rewrite <-(app_nil_r (beBytes 4 _)).
    eapply reads_bind; [apply reads_geti32; lia|]. apply reads_lift. }
  assert (x <> kZero) as Hx0 by (intros ->; cbn in Hg; lia).
  destruct He as [? |He]; [done|]. destruct (external_view x Hx Hx0) as (m & Hm & Em & Hmin & Ev). unfold kMaxRep in Hm.
  assert (exponent x <= exponent_ x + 1) by (unfold exponent; destruct (kMaxRep <? mantissa_ x); lia).
  unfold kMaxExponent, kMinExponent in He, Hmin.
  eapply reads_bind; [apply reads_geti64; rewrite Em; destruct (negative_ x); cbn [sgn]; lia|].
  rewrite <-(app_nil_r (beBytes 4 _)). eapply reads_bind; [apply reads_geti32; lia|].
  rewrite (makeNumber_exact mode x); [apply reads_lift|done..| | |].
  - rewrite Em. destruct (negative_ x); cbn [sgn]; lia.
  - done.
  - unfold svalue. rewrite <-Ev, Em. generalize (10 ^ (exponent x - kMinExponent)). intros; ring.
Qed.
End Reading.

(** ** Accounts and vectors *)

Definition accountBytes (d : bool) (id : Z) : list Z := vlBytes (if d then [] else beBytes 20 id).

Lemma short_bits n v : (n <= 1000)%nat -> shortString (beBytes n v).
Proof. intros Hn. split; [apply beBytes_digits|]. rewrite length_beBytes. constants. lia. Qed.

Lemma reads_account d id : 0 <= id < 2 ^ 160 -> (d = true -> id = 0) -> reads getAccount (accountBytes d id) (LAccount d id).
Proof.
  intros Hid Hd. unfold getAccount, accountBytes. rewrite <-(app_nil_r (vlBytes _)). destruct d.
  - rewrite (Hd eq_refl). eapply reads_bind; [apply reads_VLBuffer; split; [constructor|constants; cbn; lia]|apply reads_ret].
  - eapply reads_bind; [apply reads_VLBuffer, short_bits; lia|]. cbv beta.
    replace (beValue (beBytes 20 id)) with id by (rewrite beValue_beBytes; symmetry; by apply Z.mod_small).
    pose proof (length_beBytes 20 id) as Hl. destruct (beBytes 20 id) as [|b t]; [done|]. rewrite Hl. apply reads_ret.
Qed.

Definition vectorBytes (v : list Z) : list Z := concat (beBytes 32 <$> v).

Lemma length_vectorBytes v : length (vectorBytes v) = (32 * length v)%nat.
Proof. unfold vectorBytes. induction v as [|x v IH]; [done|]. cbn [fmap list_fmap concat length]. rewrite length_app, length_beBytes, IH. lia. Qed.

Lemma vectorBytes_digits v : isDigits 256 (vectorBytes v).
Proof. unfold vectorBytes. induction v as [|x v IH]; [constructor|]. apply Forall_app. split; [apply beBytes_digits|done]. Qed.

Lemma chunks_vectorBytes v : Forall (fun x => 0 <= x < 2 ^ 256) v -> chunks (length v) (vectorBytes v) = v.
Proof.
  unfold vectorBytes. induction 1 as [|x v Hx Hv IH]; [done|]. cbn [fmap list_fmap concat length chunks].
  rewrite take_app_length', drop_app_length' by (by rewrite length_beBytes). f_equal; [|done].
  rewrite beValue_beBytes. by apply Z.mod_small.
Qed.

Definition wireVector (v : list Z) : Prop :=
  Forall (fun x => 0 <= x < 2 ^ 256) v /\ 32 * Z.of_nat (length v) <= kMaxValueOfLengthFor3ByteHeader.

Lemma wireVector_short v : wireVector v -> shortString (vectorBytes v).
Proof. intros [_ Hl]. split; [apply vectorBytes_digits|]. rewrite length_vectorBytes. lia. Qed.

Lemma reads_vector v : wireVector v -> reads getVector256 (vlBytes (vectorBytes v)) v.
Proof.
  intros Hv. destruct (wireVector_short v Hv) as [_ Hl]. unfold getVector256, vlBytes.
  eapply reads_bind; [apply reads_length; lia|]. rewrite Nat2Z.id. rewrite <-(app_nil_r (vectorBytes v)) at 2.
  eapply reads_bind; [apply reads_readBytes|]. cbv beta. rewrite length_vectorBytes.
  rewrite Nat.mul_comm, Nat.Div0.mod_mul, Nat.div_mul by lia. cbn [Nat.eqb negb].
  rewrite chunks_vectorBytes by apply Hv. apply reads_ret.
Qed.

(** ** Path sets *)

Definition bitBytes (b : bool) (n : nat) (v : Z) : list Z := if b then beBytes n v else [].

Definition assetBytes (t : Z) (a : PathAsset) : list Z :=
  match a with
  | PCurrency c => bitBytes (hasBit t TypeCurrency) 20 c
  | PMPT id => bitBytes (hasBit t TypeMpt) 24 id
  end.

Definition memberBytes (e : STPathElement) : list Z :=
  bitBytes (hasBit (pe_type e) TypeAccount) 20 (pe_account e) ++ assetBytes (pe_type e) (pe_asset e) ++
  bitBytes (hasBit (pe_type e) TypeIssuer) 20 (pe_issuer e).

Definition elementBytes (e : STPathElement) : list Z := [pe_type e] ++ memberBytes e.

(** Elements as the constructor makes them, with something in them. *)
Definition wireElement (e : STPathElement) : Prop :=
  0 <= pe_account e < 2 ^ 160 /\ 0 <= pe_issuer e < 2 ^ 160 /\
  match pe_asset e with PCurrency c => 0 <= c < 2 ^ 160 | PMPT id => 0 <= id < 2 ^ 192 end /\
  pe_type e <> TypeNone /\
  e = makePathElement (pe_account e) (pe_asset e) (pe_issuer e) (hasBit (pe_type e) (Z.lor TypeCurrency TypeMpt)).

(** The bits of the type follow from the members. *)
Lemma wireElement_bits e :
  wireElement e ->
  0 < pe_type e < TypeBoundary /\ Z.land (pe_type e) (Z.lnot TypeAll) = 0 /\
  hasBit (pe_type e) TypeAccount = negb (isXRP (pe_account e)) /\
  hasBit (pe_type e) TypeIssuer = negb (isXRP (pe_issuer e)) /\
  hasBit (pe_type e) (Z.lor TypeCurrency TypeMpt) = hasBit (pe_type e) TypeCurrency || hasBit (pe_type e) TypeMpt /\
  match pe_asset e with
  | PCurrency c => hasBit (pe_type e) TypeMpt = false /\ (hasBit (pe_type e) TypeCurrency = false -> c = 0)
  | PMPT _ => hasBit (pe_type e) TypeMpt = true /\ hasBit (pe_type e) TypeCurrency = false
  end.
Proof.
  destruct e as [t ac a iss]. intros (_ & _ & _ & Hne & E).
  cbn [pe_type pe_account pe_asset pe_issuer] in *. unfold makePathElement in E. injection E as E.
  remember (hasBit t (Z.lor TypeCurrency TypeMpt)) as f eqn:Ef. revert Hne Ef.
  destruct a as [c|id]; cbn [pathAssetIsXRP] in E;
    [assert (isXRP c = true -> c = 0) as Hc by (unfold isXRP; lia); destruct (isXRP c); [rewrite (Hc eq_refl)|]|];
    destruct (isXRP ac), (isXRP iss), f; cbn in E; subst t; intros Hne Ef; try done; cbn; split_and!; done || lia.
Qed.

Lemma reads_optional (b : bool) n v : 0 <= v < 2 ^ (8 * Z.of_nat n) -> (b = false -> v = 0) ->
  reads (if b then getBits n else gret 0) (bitBytes b n v) v.
Proof. intros Hv Hb. destruct b; [by apply reads_getBits|]. rewrite (Hb eq_refl). apply reads_ret. Qed.

Lemma reads_element e : wireElement e -> reads (getPathElement (pe_type e)) (memberBytes e) e.
Proof.
  intros He. destruct (wireElement_bits e He) as (_ & _ & Bac & Bis & Bf & Ba). destruct He as (Hac & His & Has & _ & Ee).
  rewrite Bf in Ee. unfold getPathElement, memberBytes. unfold isXRP in Bac, Bis.
  eapply reads_bind; [apply reads_optional; [lia|]; rewrite Bac; lia|].
  rewrite <-(app_nil_r (bitBytes (hasBit _ TypeIssuer) _ _)). unfold assetBytes.
  destruct (pe_asset e) as [c|id] eqn:Ea; destruct Ba as [Bm Bc].
  - rewrite Bm, andb_false_r in *. destruct (hasBit (pe_type e) TypeCurrency) eqn:Hc; cbn [bitBytes].
    + eapply reads_bind; [apply reads_then, reads_getBits; lia|]. eapply reads_bind_nil; [apply reads_ret|].
      eapply reads_bind; [apply reads_optional; [lia|]; rewrite Bis; lia|]. rewrite Ee. apply reads_ret.
    + rewrite app_nil_l. eapply reads_bind_nil; [apply reads_ret|]. eapply reads_bind_nil; [apply reads_ret|].
      eapply reads_bind; [apply reads_optional; [lia|]; rewrite Bis; lia|]. rewrite Ee, (Bc eq_refl). apply reads_ret.
  - rewrite Bm, Bc in *. cbn [andb orb]. eapply reads_bind_nil; [apply reads_ret|]. cbn [bitBytes].
    eapply reads_bind; [apply reads_then, reads_getBits; lia|].
    eapply reads_bind; [apply reads_optional; [lia|]; rewrite Bis; lia|]. rewrite Ee. apply reads_ret.
Qed.

Lemma addPathElement_bytes e s : wireElement e -> addPathElement e s = Ret (s ++ elementBytes e).
Proof.
  intros He. destruct (wireElement_bits e He) as (Ht & _ & _ & _ & _ & Ba). unfold TypeBoundary in Ht.
  unfold addPathElement, elementBytes, memberBytes. rewrite u8_id by lia. cbn [add8 snd].
  assert (forall b n v l, (if b : bool then addBits n v l else l) = l ++ bitBytes b n v) as Hif
    by (intros [] n v l; cbn [bitBytes]; [done|by rewrite app_nil_r]).
  rewrite !Hif. unfold assetBytes. destruct (pe_asset e) as [c|id]; destruct Ba as [Bm Bc]; rewrite Bm.
  - cbn [obind]. destruct (hasBit (pe_type e) TypeCurrency); cbn [obind bitBytes]; rewrite Hif, ?addBits_bytes, <-!app_assoc; done.
  - rewrite Bc. cbn [obind bitBytes]. rewrite Hif, addBits_bytes, <-!app_assoc. done.
Qed.

Definition pathBytes (p : list STPathElement) : list Z := concat (elementBytes <$> p).

Fixpoint restBytes (l : list (list STPathElement)) : list Z :=
  match l with [] => [TypeNone] | p :: l => [TypeBoundary] ++ pathBytes p ++ restBytes l end.

Definition pathSetBytes (l : list (list STPathElement)) : list Z :=
  match l with [] => [TypeNone] | p :: l => pathBytes p ++ restBytes l end.

Definition wirePath (p : list STPathElement) : Prop := p <> [] /\ Forall wireElement p.

Lemma addPath_bytes p s : Forall wireElement p -> addPath p s = Ret (s ++ pathBytes p).
Proof.
  intros Hp. revert s. unfold pathBytes. induction Hp as [|e p He Hp IH]; intros s; cbn [addPath fmap list_fmap concat]; [by rewrite app_nil_r|].
  rewrite addPathElement_bytes by done. cbn [obind]. by rewrite IH, <-app_assoc.
Qed.

Lemma addPaths_rest l s : Forall wirePath l -> addPaths false l s = Ret (s ++ restBytes l).
Proof.
  intros Hl. revert s. induction Hl as [|p l [_ Hp] Hl IH]; intros s; cbn [addPaths restBytes]; [done|].
  rewrite addPath_bytes by done. cbn [obind add8 snd]. by rewrite IH, <-!app_assoc.
Qed.

Lemma addPaths_bytes l s : Forall wirePath l -> addPaths true l s = Ret (s ++ pathSetBytes l).
Proof.
  intros Hl. destruct Hl as [|p l [_ Hp] Hl]; [done|]. cbn [addPaths pathSetBytes].
  rewrite addPath_bytes by done. cbn [obind]. by rewrite addPaths_rest, <-app_assoc.
Qed.

(** The rounds of the reader's loop. *)
Fixpoint restRounds (l : list (list STPathElement)) : nat :=
  match l with [] => 1 | p :: l => S (length p + restRounds l) end.

Lemma reads_path p path value fuel bytes r :
  Forall wireElement p -> reads (getPaths fuel (path ++ p) value) bytes r ->
  reads (getPaths (length p + fuel) path value) (pathBytes p ++ bytes) r.
Proof.
  intros Hp. revert path. unfold pathBytes. induction Hp as [|e p He Hp IH]; intros path Hr; cbn [fmap list_fmap concat length Nat.add].
  { by rewrite app_nil_r in Hr. }
  cbn [getPaths]. destruct (wireElement_bits e He) as (Ht & Hall & _). unfold TypeBoundary in Ht.
  unfold elementBytes. rewrite <-!app_assoc. eapply reads_bind; [apply reads_get8; lia|]. unfold TypeNone, TypeBoundary.
  destruct (Z.eqb_spec (pe_type e) 0); [lia|]. destruct (Z.eqb_spec (pe_type e) 255); [lia|]. rewrite Hall. cbn [orb Z.eqb negb].
  eapply reads_bind; [by apply reads_element|]. apply IH. by rewrite <-app_assoc.
Qed.

Lemma reads_rest l path value k :
  Forall wirePath l -> path <> [] -> reads (getPaths (restRounds l + k) path value) (restBytes l) (value ++ path :: l).
Proof.
  intros Hl. revert path value. induction Hl as [|p l [Hne Hp] Hl IH]; intros path value Hpath; cbn [restRounds restBytes Nat.add getPaths].
  - rewrite <-(app_nil_r [TypeNone]). eapply reads_bind; [by apply reads_get8|]. cbn [orb].
    destruct path; [done|]. apply reads_ret.
  - eapply reads_bind; [by apply reads_get8|]. cbn [orb]. destruct path as [|e path]; [done|]. change (TypeBoundary =? TypeNone) with false. cbv iota.
    change (TypeBoundary =? TypeBoundary) with true. cbn [orb]. rewrite <-Nat.add_assoc. apply reads_path; [done|].
    replace (value ++ (e :: path) :: p :: l) with ((value ++ [e :: path]) ++ p :: l) by (by rewrite <-app_assoc). by apply IH.
Qed.

Lemma pathBytes_length p : (length p <= length (pathBytes p))%nat.
Proof. unfold pathBytes. induction p as [|e p IH]; cbn [fmap list_fmap concat length elementBytes app]; [lia|]. rewrite length_app. lia. Qed.

Lemma restBytes_length l : (restRounds l <= length (restBytes l))%nat.
Proof.
  induction l as [|p l IH]; cbn [restRounds restBytes app length]; [lia|]. rewrite length_app. pose proof (pathBytes_length p). lia.
Qed.

Lemma reads_pathSet l : Forall wirePath l -> l <> [] -> reads getPathSet (pathSetBytes l) l.
Proof.
  intros Hl Hne it rest Hit E. destruct Hl as [|p l [Hp0 Hp] Hl]; [done|]. cbn [pathSetBytes] in *.
  pose proof (reads_room _ _ _ Hit E) as Hroom. rewrite length_app in Hroom.
  pose proof (pathBytes_length p). pose proof (restBytes_length l). unfold getPathSet.
  replace (S (remain_ it)) with (length p + (restRounds l + (S (remain_ it) - length p - restRounds l)))%nat by lia.
  by apply (reads_path p [] [] _ (restBytes l) (p :: l) Hp (reads_rest l p [] _ Hl Hp0)) with (rest := rest).
Qed.

(** ** Assets *)

Definition wireIssue (a : Asset) : Prop :=
  match a with
  | AIssue i => i = xrpIssue \/ (wfIssue i /\ account i <> noAccount)
  | AMPT id => 0 <= id < 2 ^ 192 /\ mptIssuer id <> 0
  end.

Definition issueBytes (a : Asset) : list Z :=
  match a with
  | AIssue i => beBytes 20 (currency i) ++ (if isXRP (currency i) then [] else beBytes 20 (account i))
  | AMPT id => beBytes 20 (mptIssuer id) ++ beBytes 20 noAccount ++ beBytes 4 (reverse32 (id / 2 ^ 160))
  end.

Lemma reverse32_range x : 0 <= reverse32 x < 2 ^ 32.
Proof.
  unfold reverse32. pose proof (beValue_range (rev (beBytes 4 x)) ltac:(apply isDigits_rev, beBytes_digits)) as H.
  by rewrite length_rev, length_beBytes in H.
Qed.

Lemma reverse32_involutive x : 0 <= x < 2 ^ 32 -> reverse32 (reverse32 x) = x.
Proof.
  intros Hx. unfold reverse32. rewrite <-(length_beBytes 4 x) at 1. rewrite <-(length_rev (beBytes 4 x)).
  rewrite beBytes_beValue by (apply isDigits_rev, beBytes_digits). rewrite rev_involutive, beValue_beBytes. by apply Z.mod_small.
Qed.

Lemma addIssue_bytes a s : addIssue a s = s ++ issueBytes a.
Proof.
  unfold addIssue, issueBytes. destruct a as [i|id].
  - rewrite !addBits_bytes. destruct (isXRP (currency i)); [by rewrite app_nil_r|by rewrite <-app_assoc].
  - rewrite add32_bytes, !addBits_bytes. cbn [snd]. by rewrite <-!app_assoc.
Qed.

Lemma reads_issue a : wireIssue a -> reads getIssue (issueBytes a) a.
Proof.
  unfold wireIssue, issueBytes, getIssue. destruct a as [i|id].
  - intros [-> |[[Hc Ha] Hna]].
    + eapply reads_bind; [apply reads_getBits; cbn; lia|apply reads_ret].
    + unfold isXRP. destruct (Z.eqb_spec (currency i) 0) as [? |Hc0]; [lia|].
      eapply reads_bind; [apply reads_getBits; lia|]. cbv beta. destruct (Z.eqb_spec (currency i) 0) as [? |_]; [lia|].
      rewrite <-(app_nil_r (beBytes 20 (account i))). eapply reads_bind; [apply reads_getBits; lia|].
      destruct (Z.eqb_spec noAccount (account i)); [done|]. unfold isConsistent, isXRP. cbn [currency account].
      destruct (Z.eqb_spec (currency i) 0), (Z.eqb_spec (account i) 0); try lia. destruct i. apply reads_ret.
  - intros [Hid Hm]. pose proof (Z.div_mod id (2 ^ 160) ltac:(lia)) as Hd. unfold mptIssuer in *.
    pose proof (Z.mod_pos_bound id (2 ^ 160) ltac:(lia)) as Hr.
    assert (0 <= id / 2 ^ 160 < 2 ^ 32) as Hq by (split; [apply Z.div_pos; lia|apply Z.div_lt_upper_bound; lia]).
    eapply reads_bind; [apply reads_getBits; lia|]. unfold isXRP. destruct (Z.eqb_spec (id mod 2 ^ 160) 0); [done|].
    eapply reads_bind; [apply reads_getBits; unfold noAccount; lia|]. rewrite Z.eqb_refl.
    eapply reads_then_eq; [apply reads_u32, reverse32_range|]. rewrite reverse32_involutive by done.
    unfold makeMptID. f_equal. lia.
Qed.

(** ** Values *)

Definition leafBytes (v : Leaf) : list Z :=
  match v with
  | LUInt8 v => [v]
  | LUInt16 v => beBytes 2 v
  | LUInt32 v | LInt32 v => beBytes 4 v
  | LUInt64 v => beBytes 8 v
  | LUInt128 v => beBytes 16 v
  | LUInt160 v => beBytes 20 v
  | LUInt192 v => beBytes 24 v
  | LUInt256 v => beBytes 32 v
  | LAmount a => amountBytes a
  | LNumber x => numberBytes x
  | LBlob b => vlBytes b
  | LAccount d id => accountBytes d id
  | LVector256 v => vlBytes (vectorBytes v)
  | LPathSet l => pathSetBytes l
  | LIssue a => issueBytes a
  | LCurrency c => beBytes 20 c
  end.

(** The values with an encoding of their own. *)
Definition wireLeaf (v : Leaf) : Prop :=
  match v with
  | LUInt8 v => 0 <= v < 2 ^ 8
  | LUInt16 v => 0 <= v < 2 ^ 16
  | LUInt32 v => 0 <= v < 2 ^ 32
  | LInt32 v => - 2 ^ 31 <= v < 2 ^ 31
  | LUInt64 v => 0 <= v < 2 ^ 64
  | LUInt128 v => 0 <= v < 2 ^ 128
  | LUInt160 v | LCurrency v => 0 <= v < 2 ^ 160
  | LUInt192 v => 0 <= v < 2 ^ 192
  | LUInt256 v => 0 <= v < 2 ^ 256
  | LAmount a => wireAmount a
  | LNumber x => wireNumber x
  | LBlob b => shortString b
  | LAccount d id => 0 <= id < 2 ^ 160 /\ (d = true -> id = 0)
  | LVector256 v => wireVector v
  | LPathSet l => Forall wirePath l /\ l <> []
  | LIssue a => wireIssue a
  end.

Lemma addLeaf_bytes v s : wireLeaf v -> addLeaf v s = Ret (s ++ leafBytes v).
Proof.
  destruct v; cbn [wireLeaf addLeaf leafBytes]; intros Hv; rewrite ?add16_bytes, ?add32_bytes, ?add64_bytes; try done.
  - by rewrite addAmount_bytes.
  - by rewrite addNumber_bytes.
  - by apply addVLOnly_bytes.
  - apply addVLOnly_bytes. destruct isDefault; [split; [constructor|constants; cbn; lia]|apply short_bits; lia].
  - by apply addVLOnly_bytes, wireVector_short.
  - by apply addPaths_bytes, Hv.
  - by rewrite addIssue_bytes.
Qed.

Lemma reads_int32 v : - 2 ^ 31 <= v < 2 ^ 31 -> reads (v <- get32;; gret (LInt32 (i32 v))) (beBytes 4 v) (LInt32 v).
Proof.
  intros Hv. rewrite (beBytes_mod 4 v (u32 v)) by (unfold u32; change (8 * Z.of_nat 4) with 32; by rewrite Z.mod_mod).
  eapply reads_then_eq; [apply reads_u32, u32_range|]. f_equal. rewrite <-(i32_small v Hv) at 2. unfold i32.
  replace (u32 (u32 v)) with (u32 v); [done|]. unfold u32. by rewrite Z.mod_mod.
Qed.

Lemma reads_leaf mode v : wireLeaf v -> reads (getLeaf mode Large330 (leafSType v)) (leafBytes v) v.
Proof.
  destruct v; cbn [wireLeaf leafBytes]; intros Hv; cbv [leafSType]; unfold getLeaf.
  - by apply reads_then, reads_get8.
  - by apply reads_then, reads_get16.
  - by apply reads_then, reads_u32.
  - by apply reads_then, reads_u64.
  - by apply reads_int32.
  - by apply reads_then, reads_getBits.
  - by apply reads_then, reads_getBits.
  - by apply reads_then, reads_getBits.
  - by apply reads_then, reads_getBits.
  - by apply reads_then, reads_amount.
  - by apply reads_then, reads_number.
  - by apply reads_then, reads_VLBuffer.
  - by apply reads_account; apply Hv.
  - by apply reads_then, reads_vector.
  - by apply reads_then, reads_pathSet; apply Hv.
  - by apply reads_then, reads_issue.
  - by apply reads_then, reads_getBits.
Qed.

Lemma vlBytes_digits v : shortString v -> isDigits 256 (vlBytes v).
Proof. apply (itemBytes_digits (Variable_ v)). Qed.

Lemma elementBytes_digits e : wireElement e -> isDigits 256 (elementBytes e).
Proof.
  intros He. destruct (wireElement_bits e He) as (Ht & _). unfold TypeBoundary in Ht. unfold elementBytes, memberBytes, assetBytes.
  assert (forall b n v, isDigits 256 (bitBytes b n v)) as Hb by (intros [] n v; [apply beBytes_digits|constructor]).
  repeat (apply Forall_app; split); [repeat constructor; lia|apply Hb|destruct (pe_asset e); apply Hb|apply Hb].
Qed.

Lemma pathBytes_digits p : Forall wireElement p -> isDigits 256 (pathBytes p).
Proof. unfold pathBytes. induction 1; cbn [fmap list_fmap concat]; [constructor|]. apply Forall_app. split; [by apply elementBytes_digits|done]. Qed.

Lemma pathSetBytes_digits l : Forall wirePath l -> isDigits 256 (pathSetBytes l).
Proof.
  assert (forall l, Forall wirePath l -> isDigits 256 (restBytes l)) as Hr.
  { induction 1 as [|p k [_ Hp] Hk IH]; cbn [restBytes]; [by repeat constructor|].
    apply Forall_app. split; [by repeat constructor|]. apply Forall_app. split; [by apply pathBytes_digits|done]. }
  destruct 1 as [|p k [_ Hp] Hk]; cbn [pathSetBytes]; [by repeat constructor|].
  apply Forall_app. split; [by apply pathBytes_digits|by apply Hr].
Qed.

Lemma leafBytes_digits v : wireLeaf v -> isDigits 256 (leafBytes v).
Proof.
  destruct v; cbn [wireLeaf leafBytes]; intros Hv; try apply beBytes_digits.
  - apply Forall_cons. split; [done|constructor].
  - unfold amountBytes. destruct (asset_ a) as [i|id]; [destruct (issueNative i); [apply beBytes_digits|]|];
      repeat (apply Forall_app; split); try apply beBytes_digits. destruct (isNegative_ a); by repeat constructor.
  - apply Forall_app. split; apply beBytes_digits.
  - by apply vlBytes_digits.
  - apply vlBytes_digits. destruct isDefault; [split; [constructor|constants; cbn; lia]|apply short_bits; lia].
  - by apply vlBytes_digits, wireVector_short.
  - by apply pathSetBytes_digits, Hv.
  - unfold issueBytes. destruct a as [i|id]; repeat (apply Forall_app; split); try apply beBytes_digits.
    destruct (isXRP (currency i)); [constructor|apply beBytes_digits].
Qed.
