(* ===== verification/Parsing.v ===== *)
(** * Readers: what they consume and what they return

    [parses n P m it]: run on the iterator [it], the reader [m] reads inside the buffer, leaves
    the iterator consistent, consumes at least [n] bytes when it returns, and returns a value
    with [P]; when it throws it has not moved back.  The readers of values satisfy it for the
    values of their type. *)
From S2P Require Import Prelude Digits Serializer SerializerFacts SerializerSpec SField Number NumberSpec NumberClaims.
From S2P Require Import Amounts AmountFacts STTypes STTypesFacts.

Definition moved (n : nat) (it it' : SerialIter) : Prop :=
  iterOk it' /\ si_data it' = si_data it /\ (remain_ it' + n <= remain_ it)%nat.

Definition parses {A} (n : nat) (P : A -> Prop) (m : Get A) (it : SerialIter) : Prop :=
  match m it with
  | (Ret a, it') => moved n it it' /\ P a
  | (Wild, _) => False
  | (_, it') => moved 0 it it'
  end.

Lemma moved_refl it : iterOk it -> moved 0 it it.
Proof. intros. split_and!; [done|done|lia]. Qed.

Lemma moved_trans n m it it' it'' : moved n it it' -> moved m it' it'' -> moved (n + m) it it''.
Proof. intros (? & ? & ?) (? & ? & ?). split_and!; [done|congruence|lia]. Qed.

Lemma moved_le n m it it' : (m <= n)%nat -> moved n it it' -> moved m it it'.
Proof. intros ? (? & ? & ?). split_and!; [done|done|lia]. Qed.

Lemma parses_bind {A B} n m k P Q (f : Get A) (g : A -> Get B) it :
  parses n P f it -> (forall a it', moved n it it' -> P a -> parses m Q (g a) it') -> (k <= n + m)%nat ->
  parses k Q (gbind f g) it.
Proof.
  unfold parses, gbind. intros Hf Hg Hk. destruct (f it) as [[a| | | | |] it']; try done. destruct Hf as [Hm Ha].
  specialize (Hg a it' Hm Ha). destruct (g a it') as [[b| | | | |] it'']; try done;
    try (by apply (moved_le (n + 0)), (moved_trans n 0 it it'); [lia| |]).
  destruct Hg as [Hm' Hb]. split; [|done]. by apply (moved_le (n + m)), (moved_trans n m it it').
Qed.

Lemma parses_weaken {A} n m (P Q : A -> Prop) f it :
  parses n P f it -> (m <= n)%nat -> (forall a, P a -> Q a) -> parses m Q f it.
Proof.
  unfold parses. intros Hf Hn HP. destruct (f it) as [[a| | | | |] it']; try done.
  destruct Hf as [Hm Ha]. split; [by apply (moved_le n)|by apply HP].
Qed.

Lemma parses_ret {A} (P : A -> Prop) a it : iterOk it -> P a -> parses 0 P (gret a) it.
Proof. intros Hit Ha. split; [by apply moved_refl|done]. Qed.

Lemma parses_lift {A} (P : A -> Prop) o it :
  iterOk it -> o <> Wild -> (forall a, o = Ret a -> P a) -> parses 0 P (glift o) it.
Proof. intros Hit Ho HP. unfold parses, glift. destruct o; try done; try by apply moved_refl. split; [by apply moved_refl|by apply HP]. Qed.

Lemma parses_error {A} n (P : A -> Prop) (o : Outcome A) it :
  iterOk it -> match o with Ret _ | Wild => False | _ => True end -> parses n P (glift o) it.
Proof. intros Hit Ho. unfold parses, glift. destruct o; try done; by apply moved_refl. Qed.

(** A last step that only maps the value. *)
Lemma parses_then {A B} n (P : A -> Prop) (Q : B -> Prop) (m : Get A) (f : A -> B) it :
  parses n P m it -> (forall a, P a -> Q (f a)) -> parses n Q (x <- m;; gret (f x)) it.
Proof.
  intros Hm HP. eapply parses_bind; [exact Hm| |rewrite Nat.add_0_r; reflexivity].
  intros a it' Hmv Ha. apply parses_ret; [apply Hmv|by apply HP].
Qed.

Lemma parses_map {A B} n k (P : A -> Prop) (Q : B -> Prop) (m : Get A) (f : A -> B) it :
  parses n P m it -> (k <= n)%nat -> (forall a, P a -> Q (f a)) -> parses k Q (x <- m;; gret (f x)) it.
Proof. intros Hm Hk HP. eapply parses_weaken; [by eapply parses_then|done|done]. Qed.

Lemma parses_readBytes n it :
  iterOk it -> parses n (fun t => length t = n /\ isDigits 256 t) (readBytes n) it.
Proof.
  intros Hit. destruct (iterOk_pending it Hit) as [Hl Hd]. unfold parses. rewrite readBytes_ok by done.
  destruct (Nat.ltb_spec (remain_ it) n); [by apply moved_refl|].
  split; [split_and!; [by apply iterOk_advance|done|cbn; lia]|]. split; [rewrite length_take; lia|by apply Forall_take].
Qed.

Lemma parses_get8 it : iterOk it -> parses 1 (fun b => 0 <= b < 2 ^ 8) get8 it.
Proof.
  intros Hit. apply (parses_then 1 _ _ _ _ _ (parses_readBytes 1 it Hit)). intros t [Hl Ht].
  destruct t as [|b [|]]; try done. by apply Forall_cons in Ht as [Hb _].
Qed.

Lemma digits_range n t : length t = n -> isDigits 256 t -> 0 <= beValue t < 2 ^ (8 * Z.of_nat n).
Proof. intros <- Ht. by apply beValue_range. Qed.

Lemma parses_get16 it : iterOk it -> parses 2 (fun b => 0 <= b < 2 ^ 16) get16 it.
Proof.
  intros Hit. apply (parses_then 2 _ _ _ _ _ (parses_readBytes 2 it Hit)). intros t [Hl Ht].
  rewrite get16_value by done. by apply (digits_range 2).
Qed.

Lemma parses_get32 it : iterOk it -> parses 4 (fun b => 0 <= b < 2 ^ 32) get32 it.
Proof.
  intros Hit. apply (parses_then 4 _ _ _ _ _ (parses_readBytes 4 it Hit)). intros t [Hl Ht].
  rewrite get32_value by done. by apply (digits_range 4).
Qed.

Lemma parses_get64 it : iterOk it -> parses 8 (fun b => 0 <= b < 2 ^ 64) get64 it.
Proof.
  intros Hit. apply (parses_then 8 _ _ _ _ _ (parses_readBytes 8 it Hit)). intros t [Hl Ht].
  rewrite get64_value by done. by apply (digits_range 8).
Qed.

Lemma parses_getBits n it : iterOk it -> parses n (fun v => 0 <= v < 2 ^ (8 * Z.of_nat n)) (getBits n) it.
Proof.
  intros Hit. apply (parses_then n _ _ _ _ _ (parses_readBytes n it Hit)). intros t [Hl Ht]. by apply digits_range.
Qed.

Lemma decodeVLLength3_range a b c n :
  0 <= a < 2 ^ 8 -> 0 <= b < 2 ^ 8 -> 0 <= c < 2 ^ 8 -> decodeVLLength3 a b c = Ret n ->
  0 <= n <= kMaxValueOfLengthFor3ByteHeader.
Proof.
  intros Ha Hb Hc. unfold decodeVLLength3. constants. cbv zeta. destruct (Z.ltb_spec a (240 + 1)); [done|].
  destruct (Z.ltb_spec 254 a); [done|]. bcase; [done|]. intros [= <-]. lia.
Qed.

Lemma parses_length it : iterOk it -> parses 1 (fun n => 0 <= n <= kMaxValueOfLengthFor3ByteHeader) getVLDataLength it.
Proof.
  intros Hit. unfold getVLDataLength. eapply (parses_bind 1 0); [by apply parses_get8| |lia]. intros a it1 M1 Ha. cbv beta in Ha.
  eapply (parses_bind 0 0 _ (fun _ => True)); [apply parses_lift; [apply M1|unfold decodeLengthLength; by bcase|done]| |lia].
  intros l it2 M2 _. destruct (Z.eqb_spec l 1) as [_|_]; [|destruct (Z.eqb_spec l 2) as [_|_]].
  - apply parses_lift; [apply M2|unfold decodeVLLength1; by bcase|]. intros n. unfold decodeVLLength1. constants.
    bcase; [done|]. intros [= <-]. lia.
  - eapply (parses_bind 1 0); [apply parses_get8, M2| |lia]. intros b it3 M3 Hb. cbv beta in Hb.
    apply parses_lift; [apply M3|unfold decodeVLLength2; by bcase|]. intros n. unfold decodeVLLength2. constants.
    bcase; try done. intros [= <-]. lia.
  - eapply (parses_bind 1 0); [apply parses_get8, M2| |lia]. intros b it3 M3 Hb. cbv beta in Hb.
    eapply (parses_bind 1 0); [apply parses_get8, M3| |lia]. intros c it4 M4 Hc. cbv beta in Hc.
    apply parses_lift; [apply M4|unfold decodeVLLength3; by bcase|]. intros n. by apply decodeVLLength3_range.
Qed.

Lemma parses_raw n it :
  iterOk it -> 0 <= n < 2 ^ 64 -> parses 0 (fun v => Z.of_nat (length v) = n /\ isDigits 256 v) (getRawHelper n) it.
Proof.
  intros Hit Hn. unfold parses, getRawHelper. rewrite u64_id by done.
  destruct (Z.ltb_spec (Z.of_nat (remain_ it)) n); [by apply moved_refl|].
  destruct (Z.eqb_spec n 0) as [-> |Hne]; cbn [negb]; [split; [by apply moved_refl|by repeat constructor]|].
  eapply (parses_weaken _ 0 _ _ (readBytes (Z.to_nat n)) it (parses_readBytes _ it Hit)); [lia|]. intros v [E Hv]. split; [lia|done].
Qed.

Lemma parses_VLBuffer it : iterOk it -> parses 1 shortString getVLBuffer it.
Proof.
  intros Hit. unfold getVLBuffer. eapply (parses_bind 1 0); [by apply parses_length| |lia]. intros n it1 M1 Hn. cbv beta in Hn.
  eapply parses_weaken; [apply parses_raw; [apply M1|constants; lia]|lia|]. intros v [Hl Hv]. split; [done|lia].
Qed.

(** ** Field identifiers *)

Lemma parses_uncommon v it :
  iterOk it -> 0 <= v < 16 ->
  parses 0 (fun x => 0 < x < 256)
    (if v =? 0 then gbind get8 (fun t => if t <? 16 then glift RuntimeError else gret t) else gret v) it.
Proof.
  intros Hit Hv. destruct (Z.eqb_spec v 0) as [-> |Hne]; [|apply parses_ret; [done|lia]].
  eapply (parses_bind 1 0); [by apply parses_get8| |lia]. intros t it1 M1 Ht. cbv beta in Ht.
  destruct (Z.ltb_spec t 16); [by apply parses_error; [apply M1|]|apply parses_ret; [apply M1|lia]].
Qed.

Lemma parses_fieldID it : iterOk it -> parses 1 (fun tn => validField tn.1 tn.2) getFieldID it.
Proof.
  intros Hit. unfold getFieldID. eapply (parses_bind 1 0); [by apply parses_get8| |lia]. intros a it1 M1 Ha. cbv beta zeta in *.
  destruct (nibbles_split a Ha) as (_ & Hs & Hl).
  eapply (parses_bind 0 0); [apply parses_uncommon; [apply M1|done]| |lia]. intros t it2 M2 Ht.
  eapply (parses_bind 0 0); [apply parses_uncommon; [apply M2|done]| |lia]. intros n it3 M3 Hn.
  by apply parses_ret; [apply M3|].
Qed.

(** ** Values *)

Section Values.
Context (mode : RoundingMode).

Lemma mpt_value_range w b : 0 <= b < 2 ^ 8 -> 0 <= Z.lor (u64 (Z.shiftl w 8)) b < 2 ^ 64.
Proof.
  intros Hb. assert (u64 (Z.shiftl w 8) = Z.shiftl (w mod 2 ^ 56) 8) as ->.
  { rewrite !Z.shiftl_mul_pow2 by lia. unfold u64. change (2 ^ 64) with (2 ^ 56 * 2 ^ 8). by rewrite Z.mul_mod_distr_r. }
  rewrite lor_shift by lia. pose proof (Z.mod_pos_bound w (2 ^ 56) ltac:(lia)). lia.
Qed.

Lemma flag_test w k : 0 <= k -> (Z.land w (2 ^ k) =? 0) = negb (Z.odd (w / 2 ^ k)).
Proof.
  intros Hk. rewrite land_pow2 by done. destruct (Z.odd (w / 2 ^ k)); [|done].
  apply Z.eqb_neq. pose proof (Z.pow_pos_nonneg 2 k ltac:(lia) Hk). lia.
Qed.

Lemma high_bit w : 0 <= w < 2 ^ 64 -> Z.odd (w / 2 ^ 63) = false -> w < 2 ^ 63.
Proof.
  intros Hw Ho. destruct (Z.lt_ge_cases w (2 ^ 63)); [done|].
  assert (w / 2 ^ 63 = 1) as E by (symmetry; apply (Z.div_unique _ _ _ (w - 2 ^ 63)); lia). by rewrite E in Ho.
Qed.

Lemma negative_native w :
  0 <= w < 2 ^ 63 -> Z.odd (w / 2 ^ 61) = false -> Z.odd (w / 2 ^ 62) = false -> w mod 2 ^ 61 = w.
Proof.
  intros Hw H1 H2. apply Z.mod_small. destruct (Z.lt_ge_cases w (2 ^ 62)) as [Hlt|Hge].
  - destruct (Z.lt_ge_cases w (2 ^ 61)); [lia|].
    assert (w / 2 ^ 61 = 1) as E by (symmetry; apply (Z.div_unique _ _ _ (w - 2 ^ 61)); lia). by rewrite E in H1.
  - assert (w / 2 ^ 62 = 1) as E by (symmetry; apply (Z.div_unique _ _ _ (w - 2 ^ 62)); lia). by rewrite E in H2.
Qed.

Lemma parses_amount it : iterOk it -> parses 8 wireAmount (getAmount mode Large330) it.
Proof.
  intros Hit. unfold getAmount. eapply (parses_bind 8 0); [by apply parses_get64| |lia]. intros w it1 M1 Hw. cbv beta in Hw.
  change kIssuedCurrency with (2 ^ 63). change kMpToken with (2 ^ 61). change kPositive with (2 ^ 62). unfold hasBit.
  rewrite !flag_test by lia. destruct (Z.odd (w / 2 ^ 63)) eqn:H63; cbn [negb].
  - eapply (parses_bind 20 0); [apply parses_getBits, M1| |lia]. intros c it2 M2 Hc. cbv beta in Hc.
    unfold isXRP. destruct (Z.eqb_spec c 0); [by apply parses_error; [apply M2|]|].
    eapply (parses_bind 20 0); [apply parses_getBits, M2| |lia]. intros ac it3 M3 Hac. cbv beta in Hac.
    destruct (Z.eqb_spec ac 0); [by apply parses_error; [apply M3|]|].
    assert (wfIssue (mkIssue c ac)) as Hi by (split; cbn; lia).
    assert (issueNative (mkIssue c ac) = false) as Hn by (by apply wfIssue_native). cbv zeta.
    set (v := Z.land w _). set (o := Z.land (Z.shiftr w 54) 255 - 97). clearbody v o. destruct (Z.eqb_spec v 0) as [E|Hv0]; cbn [negb].
    + destruct (negb (Z.shiftr w 54 =? 512)); [by apply parses_error; [apply M3|]|]. rewrite canonicalize_zero by done.
      apply (parses_ret wireAmount); [apply M3|]. right. split; [done|]. by left.
    + destruct (Z.ltb_spec v kMinValue), (Z.ltb_spec kMaxValue v), (Z.ltb_spec o kMinOffset), (Z.ltb_spec kMaxOffset o);
        cbn [orb]; try (by apply parses_error; [apply M3|]). rewrite canonicalize_issued by done.
      apply (parses_ret wireAmount); [apply M3|]. right. split; [done|]. right. split; split; assumption.
  - apply high_bit in H63; [|done]. destruct (Z.odd (w / 2 ^ 61)) eqn:H61; cbn [negb].
    + eapply (parses_bind 1 0); [apply parses_get8, M1| |lia]. intros b it2 M2 Hb. cbv beta in Hb.
      eapply parses_map; [apply parses_getBits, M2|lia|]. intros id Hid. split; [exact Hid|]. split; [by apply mpt_value_range|done].
    + rewrite land_mask by lia. pose proof (Z.mod_pos_bound w (2 ^ 61) ltac:(lia)).
      destruct (Z.odd (w / 2 ^ 62)) eqn:H62; cbn [negb]; [apply parses_ret; [apply M1|by left]|].
      destruct (Z.eqb_spec w 0); [by apply parses_error; [apply M1|]|].
      apply parses_ret; [apply M1|]. left. rewrite negative_native in * by (done || lia). cbn. split_and!; done || lia.
Qed.

Lemma parses_i32 it : iterOk it -> parses 4 (fun v => - 2 ^ 31 <= v < 2 ^ 31) geti32 it.
Proof. intros Hit. apply (parses_then 4 _ _ _ _ _ (parses_readBytes 4 it Hit)). intros t _. apply i32_range. Qed.

Lemma parses_i64 it : iterOk it -> parses 8 (fun v => - 2 ^ 63 <= v < 2 ^ 63) geti64 it.
Proof. intros Hit. apply (parses_then 8 _ _ _ _ _ (parses_readBytes 8 it Hit)). intros t _. apply i64_range. Qed.

Lemma parses_number it : iterOk it -> parses 12 normal (getNumber mode Large330) it.
Proof.
  intros Hit. unfold getNumber. eapply (parses_bind 8 4); [by apply parses_i64| |lia]. intros m it1 M1 Hm. cbv beta in Hm.
  eapply (parses_bind 4 0); [apply parses_i32, M1| |lia]. intros e it2 M2 He.
  pose proof (makeNumber_rounded mode m e Hm) as Hr. unfold roundedResult in Hr.
  destruct (makeNumber mode Large330 m e) as [x| |]; [|by apply parses_error; [apply M2|]|done].
  apply (parses_ret normal); [apply M2|apply Hr].
Qed.
End Values.

Definition leafHas (P : Leaf -> Prop) (type : Z) (v : Leaf) : Prop := leafSType v = type /\ P v.

Lemma parses_account it : iterOk it -> parses 1 (leafHas wireLeaf STI_ACCOUNT) getAccount it.
Proof.
  intros Hit. unfold getAccount. eapply (parses_bind 1 0); [by apply parses_VLBuffer| |lia]. intros v it1 M1 [Hd _].
  destruct v as [|b v]; [apply parses_ret; [apply M1|]; split; [done|]; cbn; lia|].
  destruct (Nat.eqb_spec (length (b :: v)) 20) as [Hl|]; cbn [negb]; [|by apply parses_error; [apply M1|]].
  apply parses_ret; [apply M1|]. split; [done|]. split; [|done]. by apply (digits_range 20).
Qed.

Lemma chunks_range n v : (32 * n <= length v)%nat -> isDigits 256 v -> Forall (fun x => 0 <= x < 2 ^ 256) (chunks n v) /\ length (chunks n v) = n.
Proof.
  revert v. induction n as [|n IH]; intros v Hl Hv; cbn [chunks length]; [by split|].
  destruct (IH (drop 32 v)) as [H1 H2]; [rewrite length_drop; lia|by apply Forall_drop|].
  split; [|by rewrite H2]. constructor; [|done]. apply (digits_range 32); [rewrite length_take; lia|by apply Forall_take].
Qed.

Lemma parses_vector it : iterOk it -> parses 1 wireVector getVector256 it.
Proof.
  intros Hit. unfold getVector256. eapply (parses_bind 1 0); [by apply parses_length| |lia]. intros n it1 M1 Hn. cbv beta in Hn.
  eapply (parses_bind 0 0); [eapply parses_weaken; [apply parses_readBytes, M1|lia|intros a Ha; exact Ha]| |lia].
  intros v it2 M2 [Hl Hv]. destruct (Nat.eqb_spec (length v mod 32) 0) as [E|]; cbn [negb]; [|by apply parses_error; [apply M2|]].
  pose proof (Nat.div_mod_eq (length v) 32). destruct (chunks_range (length v / 32) v) as [H1 H2]; [lia|done|].
  apply parses_ret; [apply M2|]. split; [done|]. rewrite H2. lia.
Qed.

(** ** Path sets *)

(** Elements as the reader makes them: there may be nothing in them. *)
Definition madeElement (e : STPathElement) : Prop :=
  0 <= pe_account e < 2 ^ 160 /\ 0 <= pe_issuer e < 2 ^ 160 /\
  match pe_asset e with PCurrency c => 0 <= c < 2 ^ 160 | PMPT id => 0 <= id < 2 ^ 192 end /\
  e = makePathElement (pe_account e) (pe_asset e) (pe_issuer e) (hasBit (pe_type e) (Z.lor TypeCurrency TypeMpt)).

Lemma made_wire e : madeElement e -> pe_type e <> TypeNone -> wireElement e.
Proof. intros (H1 & H2 & H3 & H4) Hne. exact (conj H1 (conj H2 (conj H3 (conj Hne H4)))). Qed.

Lemma parses_optional (b : bool) n it :
  iterOk it -> parses 0 (fun v => 0 <= v < 2 ^ (8 * Z.of_nat n)) (if b then getBits n else gret 0) it.
Proof.
  intros Hit. destruct b; [eapply parses_weaken; [by apply parses_getBits|lia|done]|].
  apply parses_ret; [done|]. pose proof (Z.pow_pos_nonneg 2 (8 * Z.of_nat n)). lia.
Qed.

Lemma forced_bit ac a iss (f : bool) :
  (f = false -> a = PCurrency 0) -> hasBit (pe_type (makePathElement ac a iss f)) (Z.lor TypeCurrency TypeMpt) = f.
Proof.
  intros Hf. unfold makePathElement. cbn [pe_type]. destruct f; cbn [orb].
  - destruct (isXRP ac), (isXRP iss), a; done.
  - rewrite (Hf eq_refl). destruct (isXRP ac), (isXRP iss); done.
Qed.

Lemma parses_element t it : iterOk it -> parses 0 madeElement (getPathElement t) it.
Proof.
  intros Hit. unfold getPathElement. eapply (parses_bind 0 0); [by apply parses_optional| |lia]. intros ac it1 M1 Hac. cbv beta in Hac.
  destruct (hasBit t TypeCurrency && hasBit t TypeMpt); [by apply parses_error; [apply M1|]|].
  set (Pa := fun (f : bool) a => (f = false -> a = PCurrency 0) /\
    match a with PCurrency c => 0 <= c < 2 ^ 160 | PMPT id => 0 <= id < 2 ^ 192 end).
  eapply (parses_bind 0 0 _ (Pa (hasBit t TypeCurrency))); [| |lia].
  { destruct (hasBit t TypeCurrency); [|apply parses_ret; [apply M1|done]].
    eapply parses_map; [apply parses_getBits, M1|lia|]. intros c Hc. split; [done|exact Hc]. }
  intros a it2 M2 [Ha1 Ha2]. eapply (parses_bind 0 0 _ (Pa (hasBit t TypeCurrency || hasBit t TypeMpt))); [| |lia].
  { destruct (hasBit t TypeMpt); [|apply parses_ret; [apply M2|by rewrite orb_false_r]].
    eapply parses_map; [apply parses_getBits, M2|lia|]. intros id Hid. split; [by rewrite orb_true_r|exact Hid]. }
  intros b it3 M3 [Hb1 Hb2]. eapply (parses_bind 0 0); [by apply parses_optional; apply M3| |lia]. intros iss it4 M4 His.
  apply parses_ret; [apply M4|]. split; [exact Hac|]. split; [exact His|]. split; [exact Hb2|]. by rewrite forced_bit.
Qed.

Definition madePath (p : list STPathElement) : Prop := p <> [] /\ Forall madeElement p.

Lemma parses_paths fuel path value it :
  iterOk it -> (remain_ it < fuel)%nat -> Forall madeElement path -> Forall madePath value ->
  parses 1 (fun l => Forall madePath l /\ l <> []) (getPaths fuel path value) it.
Proof.
  revert path value it. induction fuel as [|fuel IH]; intros path value it Hit Hf Hp Hv; [lia|]. cbn [getPaths].
  eapply (parses_bind 1 0); [by apply parses_get8| |lia]. intros t it1 M1 Ht.
  assert (forall path value, Forall madeElement path -> Forall madePath value ->
    parses 0 (fun l => Forall madePath l /\ l <> []) (getPaths fuel path value) it1) as Hnext.
  { intros p v Hp' Hv'. eapply parses_weaken; [apply IH; [apply M1|destruct M1 as (_ & _ & ?); lia|done|done]|lia|done]. }
  destruct ((t =? TypeNone) || (t =? TypeBoundary)).
  - destruct path as [|e path]; [by apply parses_error; [apply M1|]|].
    assert (Forall madePath (value ++ [e :: path])) as Hv' by (apply Forall_app; split; [done|]; constructor; [split; [done|done]|constructor]).
    destruct (t =? TypeNone); [|by apply Hnext]. apply parses_ret; [apply M1|]. split; [done|]. by destruct value.
  - destruct (negb (Z.land t (Z.lnot TypeAll) =? 0)); [by apply parses_error; [apply M1|]|].
    eapply (parses_bind 0 0); [apply parses_element, M1| |lia]. intros e it2 M2 He.
    eapply parses_weaken; [apply IH; [apply M2|destruct M1 as (_ & _ & ?), M2 as (_ & _ & ?); lia| |done]|lia|done].
    apply Forall_app. split; [done|]. by constructor.
Qed.

Lemma parses_pathSet it : iterOk it -> parses 1 (fun l => Forall madePath l /\ l <> []) getPathSet it.
Proof. intros Hit. unfold parses, getPathSet. apply (parses_paths (S (remain_ it)) [] [] it); by try lia. Qed.

Lemma parses_issue it : iterOk it -> parses 20 wireIssue getIssue it.
Proof.
  intros Hit. unfold getIssue. eapply (parses_bind 20 0); [by apply parses_getBits| |lia]. intros c it1 M1 Hc. cbv beta in Hc.
  unfold isXRP. destruct (Z.eqb_spec c 0) as [? |Hc0]; [apply parses_ret; [apply M1|by left]|].
  eapply (parses_bind 20 0); [apply parses_getBits, M1| |lia]. intros ac it2 M2 Hac. cbv beta in Hac.
  destruct (Z.eqb_spec noAccount ac) as [E|Hne].
  - eapply parses_map; [apply parses_get32, M2|lia|]. intros sq Hsq. cbv beta in Hsq. pose proof (reverse32_range sq).
    change (8 * Z.of_nat 20) with 160 in *. unfold wireIssue, makeMptID, mptIssuer.
    split; [lia|]. rewrite Z.add_comm, Z.mod_add, Z.mod_small by lia. done.
  - destruct (isConsistent (mkIssue c ac)) eqn:Hi; cbn [negb]; [|by apply parses_error; [apply M2|]].
    apply parses_ret; [apply M2|]. right. revert Hi. unfold isConsistent, isXRP. cbn [currency account].
    change (8 * Z.of_nat 20) with 160 in *. destruct (Z.eqb_spec c 0); [done|].
    destruct (Z.eqb_spec ac 0); [done|]. intros _. split; [split; cbn [currency account]; lia|done].
Qed.

(** What the readers return. *)
Definition parsedLeaf (v : Leaf) : Prop :=
  match v with
  | LNumber x => normal x
  | LPathSet l => Forall madePath l /\ l <> []
  | _ => wireLeaf v
  end.

Lemma parses_leaf mode type it : iterOk it -> parses 1 (leafHas parsedLeaf type) (getLeaf mode Large330 type) it.
Proof.
  intros Hit. unfold getLeaf.
  repeat match goal with |- parses _ _ (if ?a =? ?b then _ else _) _ => destruct (Z.eqb_spec a b) as [-> |_] end.
  - eapply parses_map; [by apply parses_get8|lia|]. intros v Hv. by split.
  - eapply parses_map; [by apply parses_get16|lia|]. intros v Hv. by split.
  - eapply parses_map; [by apply parses_get32|lia|]. intros v Hv. by split.
  - eapply parses_map; [by apply parses_get64|lia|]. intros v Hv. by split.
  - eapply parses_map; [by apply parses_amount|lia|]. intros v Hv. by split.
  - eapply parses_map; [by apply parses_number|lia|]. intros v Hv. by split.
  - eapply parses_map; [by apply parses_getBits|lia|]. intros v Hv. by split.
  - eapply parses_map; [by apply parses_getBits|lia|]. intros v Hv. by split.
  - eapply parses_map; [by apply parses_getBits|lia|]. intros v Hv. by split.
  - eapply parses_map; [by apply parses_getBits|lia|]. intros v Hv. by split.
  - eapply parses_map; [by apply parses_get32|lia|]. intros v Hv. split; [done|apply i32_range].
  - eapply parses_map; [by apply parses_vector|lia|]. intros v Hv. by split.
  - eapply parses_map; [by apply parses_VLBuffer|lia|]. intros v Hv. by split.
  - eapply parses_weaken; [by apply parses_account|lia|]. intros v [E Hv]. split; [done|]. by destruct v.
  - eapply parses_map; [by apply parses_pathSet|lia|]. intros v Hv. by split.
  - eapply parses_map; [by apply parses_issue|lia|]. intros v Hv. by split.
  - eapply parses_map; [by apply parses_getBits|lia|]. intros v Hv. by split.
  - by apply parses_error.
Qed.
