(* ===== verification/STObjectFacts.v ===== *)
(** * Serialized objects: what is written is read back

    The well-formed objects, their bytes, and the proof that the parser takes an object back
    from its bytes, with the fields of free inner objects in the order of their codes. *)
From S2P Require Import Prelude Digits Serializer SerializerFacts SerializerSpec SField Formats Number NumberSpec.
From S2P Require Import Amounts STTypes STTypesFacts STObject.

(** ** Induction *)

Lemma STBase_induction (P : STBase -> Prop) :
  (forall f, P (STNotPresent f)) -> (forall f v, P (STLeaf f v)) ->
  (forall f t v, Forall P v -> P (STObj f t v)) -> (forall f v, Forall P v -> P (STArr f v)) -> forall b, P b.
Proof.
  intros Hn Hl Ho Ha. fix IH 1. intros [f|f v|f t v|f v]; [apply Hn|apply Hl|apply Ho|apply Ha];
    (induction v as [|c v IHv]; constructor; [apply IH|exact IHv]).
Qed.

(** ** Sorting *)

Definition code (b : STBase) : Z := fieldCodeMem (getFName b).

Definition codes (l : list STBase) : list Z := code <$> l.

Definition ascending : list STBase -> Prop := StronglySorted (fun a b => code a < code b).

Section Mapped.
Context {A B : Type} (f : A -> B) (key : A -> STBase) (key' : B -> STBase) (Hkey : forall x, code (key' (f x)) = code (key x)).

Lemma insertField_map x l : insertField key' (f x) (List.map f l) = List.map f (insertField key x l).
Proof.
  induction l as [|y l IH]; [done|]. cbn [List.map insertField]. unfold codeOf. fold (code (key' (f y))) (code (key' (f x))).
  rewrite !Hkey. fold (code (key x)) (code (key y)). destruct (code (key y) <? code (key x)); [|done]. cbn [List.map]. by rewrite IH.
Qed.

Lemma sortFields_map l : sortFields key' (List.map f l) = List.map f (sortFields key l).
Proof. induction l as [|x l IH]; [done|]. cbn [List.map sortFields]. by rewrite IH, insertField_map. Qed.

Lemma sortedFields_map w l :
  (forall x, included key' w (f x) = included key w x) -> sortedFields key' w (List.map f l) = List.map f (sortedFields key w l).
Proof.
  intros Hi. unfold sortedFields. rewrite <-sortFields_map. f_equal. induction l as [|x l IH]; [done|].
  cbn [List.map List.filter]. rewrite Hi, IH. by destruct (included key w x).
Qed.
End Mapped.

Lemma insertField_perm x l : insertField (fun b => b) x l ≡ₚ x :: l.
Proof.
  induction l as [|y l IH]; [done|]. cbn [insertField]. destruct (_ <? _); [|done]. rewrite IH. apply Permutation_swap.
Qed.

Lemma sortFields_perm l : sortFields (fun b => b) l ≡ₚ l.
Proof. induction l as [|x l IH]; [done|]. cbn [sortFields]. by rewrite insertField_perm, IH. Qed.

Lemma insertField_ascending x l :
  ascending l -> Forall (fun y => code y <> code x) l -> ascending (insertField (fun b => b) x l).
Proof.
  induction 1 as [|y l Hl IH Hy]; intros Hne; [repeat constructor|]. cbn [insertField]. unfold codeOf. fold (code y) (code x).
  apply Forall_cons in Hne as [Hyx Hne]. destruct (Z.ltb_spec (code y) (code x)) as [Hlt|Hge].
  - constructor; [by apply IH|]. rewrite insertField_perm. by constructor.
  - constructor; [by constructor|]. constructor; [lia|]. eapply Forall_impl; [exact Hy|]. cbn. lia.
Qed.

Lemma sortFields_ascending l : NoDup (codes l) -> ascending (sortFields (fun b => b) l).
Proof.
  unfold codes. induction l as [|x l IH]; cbn [fmap list_fmap sortFields]; [constructor|].
  intros [Hx Hl]%NoDup_cons. apply insertField_ascending; [by apply IH|]. rewrite sortFields_perm.
  apply Forall_forall. intros y Hy E. apply Hx. rewrite <-E. by apply list_elem_of_fmap_2.
Qed.

Lemma sortFields_id l : ascending l -> sortFields (fun b => b) l = l.
Proof.
  induction 1 as [|x l Hl IH Hx]; [done|]. cbn [sortFields]. rewrite IH. destruct Hx as [|y l' Hy]; [done|].
  cbn [insertField]. unfold codeOf. fold (code x) (code y). destruct (Z.ltb_spec (code y) (code x)); [lia|done].
Qed.

Definition inc (b : STBase) : bool := isPresent b && shouldInclude (getFName b) true.

Lemma filter_keeps_all l : Forall (fun b => inc b = true) l -> List.filter (included (fun b => b) true) l = l.
Proof. induction 1 as [|x l Hx Hl IH]; [done|]. cbn [List.filter]. unfold included, inc in *. by rewrite Hx, IH. Qed.

Lemma sorted_perm l : Forall (fun b => inc b = true) l -> getSortedFields true l ≡ₚ l.
Proof. intros Hl. unfold getSortedFields, sortedFields. by rewrite filter_keeps_all, sortFields_perm. Qed.

Lemma sorted_id l : Forall (fun b => inc b = true) l -> ascending l -> getSortedFields true l = l.
Proof. intros Hl Ha. unfold getSortedFields, sortedFields. by rewrite filter_keeps_all, sortFields_id. Qed.

Lemma adjacentDup_ascending l : ascending l -> adjacentDup l = false.
Proof.
  induction 1 as [|x l Hl IH Hx]; [done|]. cbn [adjacentDup]. destruct Hx as [|y l' Hy]; [done|].
  unfold fieldEq. fold (code x) (code y). destruct (Z.eqb_spec (code x) (code y)); [lia|]. by rewrite IH.
Qed.

Lemma NoDup_filter_codes (p : STBase -> bool) l : NoDup (codes l) -> NoDup (codes (List.filter p l)).
Proof.
  unfold codes. induction l as [|x l IH]; cbn [fmap list_fmap List.filter]; [done|]. intros [Hx Hl]%NoDup_cons.
  destruct (p x); [|by apply IH]. cbn [fmap list_fmap]. constructor; [|by apply IH]. intros Hin. apply Hx.
  apply list_elem_of_fmap in Hin as (y & E & Hy). rewrite E. apply list_elem_of_fmap_2.
  apply list_elem_of_In, filter_In in Hy as [Hy _]. by apply list_elem_of_In.
Qed.

Lemma sorted_spec v : NoDup (codes v) -> ascending (getSortedFields true v) /\ getSortedFields true v ≡ₚ List.filter inc v.
Proof.
  intros Hv. unfold getSortedFields, sortedFields. split; [|apply sortFields_perm].
  by apply sortFields_ascending, NoDup_filter_codes.
Qed.

(** ** Well-formed objects *)

(** A field the parser knows. *)
Definition known (f : SField) : Prop :=
  validField (fieldType f) (fieldValue f) /\ getField (fieldCode (fieldType f) (fieldValue f)) = f /\ isInvalid f = false /\
  fieldCodeMem f = fieldCode (fieldType f) (fieldValue f).

Definition slotFits (e : SOElement) (b : STBase) : Prop :=
  getFName b = el_sField e /\ (isPresent b = false -> el_style e <> SoeRequired) /\
  (isPresent b = true -> el_style e = SoeDefault -> isDefault b = false).

(** The slots are those of the template, in its order. *)
Definition fits : SOTemplate -> list STBase -> Prop := Forall2 slotFits.

Definition templateCodes (t : SOTemplate) : list Z := (fun e => fieldCodeMem (el_sField e)) <$> t.

(** An inner object or array is not the field that ends one. *)
Definition container (f : SField) (type : Z) : Prop := known f /\ fieldType f = type /\ fieldValue f <> 1.

(** The values [L] allows, in fields of their type, with the nesting and the templates the
    parser imposes; the first argument is the depth. *)
Inductive wfWith (L : Leaf -> Prop) : Z -> STBase -> Prop :=
| wf_leaf d f v : d <= 10 -> known f -> leafSType v = fieldType f -> L v -> wfWith L d (STLeaf f v)
| wf_free d f v :
    d <= 10 -> container f STI_OBJECT -> findSOTemplateBySField f = None ->
    Forall (wfWith L (d + 1)) v -> NoDup (codes v) -> wfWith L d (STObj f None v)
| wf_templated d f t v :
    d <= 10 -> container f STI_OBJECT -> findSOTemplateBySField f = Some t ->
    Forall (fun b => isPresent b = true -> wfWith L (d + 1) b) v -> fits t v -> wfWith L d (STObj f (Some t) v)
| wf_array d f v :
    d <= 10 -> container f STI_ARRAY -> Forall (wfWith L (d + 1)) v -> Forall (fun b => getSType b = STI_OBJECT) v ->
    wfWith L d (STArr f v).

Abbreviation wfBase := (wfWith wireLeaf).

(** The form an object has after a trip: the fields of free objects are sorted. *)
Fixpoint settle (b : STBase) : STBase :=
  match b with
  | STObj f t v =>
    STObj f t (match findSOTemplateBySField f with
               | Some _ => List.map settle v
               | None => getSortedFields true (List.map settle v)
               end)
  | STArr f v => STArr f (List.map settle v)
  | _ => b
  end.

(** *** Bytes *)

Definition endMarker (b : STBase) : list Z :=
  if (getSType b =? STI_ARRAY) || (getSType b =? STI_OBJECT) then fieldBytes (getSType b) 1 else [].

Definition frame (x : STBase * list Z) : list Z :=
  fieldBytes (fieldType (getFName x.1)) (fieldValue (getFName x.1)) ++ x.2 ++ endMarker x.1.

Fixpoint baseBytes (b : STBase) : list Z :=
  match b with
  | STNotPresent _ => []
  | STLeaf _ v => leafBytes v
  | STObj _ _ v => concat (List.map frame (sortedFields fst true (List.map (fun c => (c, baseBytes c)) v)))
  | STArr _ v => concat (List.map frame (List.map (fun c => (c, baseBytes c)) v))
  end.

Definition framed (b : STBase) : list Z := frame (b, baseBytes b).

Definition fieldsBytes (v : list STBase) : list Z := concat (List.map framed (getSortedFields true v)).

Lemma pairs_sorted {C} (g : STBase -> C) w v :
  sortedFields fst w (List.map (fun c => (c, g c)) v) = List.map (fun c => (c, g c)) (getSortedFields w v).
Proof. unfold getSortedFields. by apply sortedFields_map. Qed.

Lemma objectBytes f t v : baseBytes (STObj f t v) = fieldsBytes v.
Proof. cbn [baseBytes]. rewrite pairs_sorted. unfold fieldsBytes. f_equal. by rewrite map_map. Qed.

Lemma arrayBytes f v : baseBytes (STArr f v) = concat (List.map framed v).
Proof. cbn [baseBytes]. f_equal. by rewrite map_map. Qed.

(** *** Facts *)

Lemma wf_present {L} d b : wfWith L d b -> isPresent b = true.
Proof. by destruct 1. Qed.

Lemma wf_known {L} d b : wfWith L d b -> known (getFName b) /\ d <= 10.
Proof. destruct 1 as [| ? ? ? ? [] | ? ? ? ? ? [] | ? ? ? ? []]; done. Qed.

Lemma known_include f : known f -> shouldInclude f true = true.
Proof. intros [[_ Hv] _]. unfold shouldInclude. rewrite orb_true_l, andb_true_r. apply Z.ltb_lt. lia. Qed.

Lemma wf_inc {L} d b : wfWith L d b -> inc b = true.
Proof. intros Hb. unfold inc. rewrite (wf_present d b Hb), known_include; [done|apply (wf_known d b Hb)]. Qed.

Lemma settle_name b : getFName (settle b) = getFName b.
Proof. by destruct b. Qed.

Lemma settle_present b : isPresent (settle b) = isPresent b.
Proof. by destruct b. Qed.

Lemma settle_type b : getSType (settle b) = getSType b.
Proof. by destruct b. Qed.

Lemma settle_code b : code (settle b) = code b.
Proof. unfold code. by rewrite settle_name. Qed.

Lemma settle_inc b : inc (settle b) = inc b.
Proof. unfold inc. by rewrite settle_present, settle_name. Qed.

Lemma settle_codes v : codes (List.map settle v) = codes v.
Proof. unfold codes. induction v as [|b v IH]; [done|]. cbn [List.map fmap list_fmap]. by rewrite settle_code, IH. Qed.

Lemma settle_sorted v : getSortedFields true (List.map settle v) = List.map settle (getSortedFields true v).
Proof. unfold getSortedFields. apply sortedFields_map; [apply settle_code|]. intros b. apply (settle_inc b). Qed.

Lemma settle_default d b : wfBase d b -> isDefault (settle b) = isDefault b.
Proof.
  destruct 1 as [| d f v _ _ Ht Hv _ | d f t v _ _ Ht _ _ | d f v]; cbn [settle isDefault]; rewrite ?Ht; [done| |by destruct v..].
  rewrite settle_sorted. assert (getSortedFields true v ≡ₚ v) as Hp by (apply sorted_perm; eapply Forall_impl; [exact Hv|apply wf_inc]).
  destruct v as [|c v]; [done|]. destruct (getSortedFields true (c :: v)); [|done]. by apply Permutation_nil_cons in Hp.
Qed.

Lemma settle_fits d t v :
  Forall (fun b => isPresent b = true -> wfBase d b) v -> fits t v -> fits t (List.map settle v).
Proof.
  intros Hv Hf. revert Hv. induction Hf as [|e b t v (Hn & Hr & Hd) Hf IH]; intros Hv; cbn [List.map]; [constructor|].
  apply Forall_cons in Hv as [Hb Hv]. constructor; [|by apply IH]. unfold slotFits. rewrite settle_name, settle_present.
  split_and!; [done|done|]. intros Hp Hs. rewrite (settle_default d) by (by apply Hb). by apply Hd.
Qed.

(** ** Writing *)

Lemma addFieldName_bytes f s : addFieldName f s = s ++ fieldBytes (fieldType f) (fieldValue f).
Proof. unfold addFieldName. by rewrite addFieldID_bytes. Qed.

Lemma addField_bytes b w s :
  (forall s, w s = Ret (s ++ baseBytes b)) -> addField (b, w) s = Ret (s ++ framed b).
Proof.
  intros Hw. unfold addField, framed, frame, endMarker. cbn [fst snd]. rewrite Hw. cbn [obind]. rewrite addFieldName_bytes.
  destruct (_ || _); rewrite ?addFieldID_bytes; cbn [snd]; by rewrite <-!app_assoc, ?app_nil_r.
Qed.

Lemma addElement_bytes b w s :
  getSType b = STI_OBJECT -> (forall s, w s = Ret (s ++ baseBytes b)) -> addElement (b, w) s = Ret (s ++ framed b).
Proof.
  intros Ht Hw. rewrite <-(addField_bytes b w s Hw). unfold addElement, addField. cbn [fst snd]. by rewrite Ht.
Qed.

Lemma runWriters_bytes {A} (f : A -> Serializer -> Outcome Serializer) (g : A -> list Z) l s :
  Forall (fun x => forall s, f x s = Ret (s ++ g x)) l -> runWriters (List.map f l) s = Ret (s ++ concat (List.map g l)).
Proof.
  intros Hl. revert s. induction Hl as [|x l Hx Hl IH]; intros s; cbn [List.map runWriters concat]; [by rewrite app_nil_r|].
  rewrite Hx. cbn [obind]. by rewrite IH, <-app_assoc.
Qed.

Lemma sorted_subset w v b : b ∈ getSortedFields w v -> b ∈ v /\ isPresent b = true.
Proof.
  unfold getSortedFields, sortedFields. rewrite sortFields_perm. intros H. apply list_elem_of_In, filter_In in H as [H1 H2].
  split; [by apply list_elem_of_In|]. unfold included in H2. by apply andb_true_iff in H2 as [? _].
Qed.

Lemma addObject_bytes v s :
  Forall (fun b => isPresent b = true -> forall s, addBase b s = Ret (s ++ baseBytes b)) v ->
  addObject true v s = Ret (s ++ fieldsBytes v).
Proof.
  intros Hv. unfold addObject. rewrite pairs_sorted. change (addField <$> ?l) with (List.map addField l). rewrite map_map. unfold fieldsBytes.
  apply runWriters_bytes. apply Forall_forall. intros b [Hb Hp]%sorted_subset. intros s'. apply addField_bytes.
  rewrite Forall_forall in Hv. by apply Hv.
Qed.

Lemma addBase_bytes b : forall d, wfBase d b -> forall s, addBase b s = Ret (s ++ baseBytes b).
Proof.
  induction b as [f|f v|f t v IH|f v IH] using STBase_induction; intros d Hb s; inversion Hb; subst; clear Hb.
  - cbn [addBase baseBytes]. by apply addLeaf_bytes.
  - rewrite objectBytes. apply addObject_bytes. rewrite !Forall_forall in *. intros c Hc Hp. by apply (IH c Hc (d + 1)); auto.
  - rewrite objectBytes. apply addObject_bytes. rewrite !Forall_forall in *. intros c Hc Hp. by apply (IH c Hc (d + 1)); auto.
  - rewrite arrayBytes. cbn [addBase]. change (addElement <$> ?l) with (List.map addElement l). rewrite map_map.
    apply runWriters_bytes. rewrite !Forall_forall in *. intros c Hc s'.
    apply addElement_bytes; [by auto|]. by apply (IH c Hc (d + 1)); auto.
Qed.

(** ** Templates *)

Lemma takeField_none f l : Forall (fun b => code b <> fieldCodeMem f) l -> takeField f l = None.
Proof.
  induction 1 as [|b l Hb Hl IH]; [done|]. cbn [takeField]. unfold fieldEq. fold (code b).
  destruct (Z.eqb_spec (code b) (fieldCodeMem f)); [done|]. by rewrite IH.
Qed.

Lemma takeField_some b l :
  NoDup (codes l) -> b ∈ l -> exists l', takeField (getFName b) l = Some (b, l') /\ l ≡ₚ b :: l'.
Proof.
  unfold codes. induction l as [|c l IH]; cbn [fmap list_fmap]; [by intros _ ?%not_elem_of_nil|]. intros [Hc Hl]%NoDup_cons Hb. cbn [takeField].
  unfold fieldEq. fold (code c) (code b). destruct (Z.eqb_spec (code c) (code b)) as [E|Hne].
  - apply elem_of_cons in Hb as [-> |Hb]; [by exists l|]. exfalso. apply Hc. rewrite E. by apply list_elem_of_fmap_2.
  - apply elem_of_cons in Hb as [-> |Hb]; [done|]. destruct (IH Hl Hb) as (l' & -> & Hp). exists (c :: l').
    split; [done|]. rewrite Hp. apply Permutation_swap.
Qed.

Lemma fits_codes t v : fits t v -> codes v = templateCodes t.
Proof.
  unfold codes, templateCodes. induction 1 as [|e b t v (Hn & _) Hf IH]; [done|]. cbn [fmap list_fmap]. unfold code at 1. by rewrite Hn, IH.
Qed.

(** Matching the present fields, in any order, with the template gives the slots back. *)
Lemma applyElements_fits t v : forall l,
  fits t v -> NoDup (templateCodes t) -> l ≡ₚ List.filter isPresent v -> applyElements t l = Ret (v, []).
Proof.
  intros l Hf. revert l. induction Hf as [|e b t v (Hn & Hr & Hd) Hf IH]; intros l Hdup Hl; cbn [applyElements List.filter] in *.
  { by apply Permutation_nil_r in Hl as ->. }
  assert (NoDup (code b :: codes v)) as Hc.
  { unfold templateCodes in Hdup. cbn [fmap list_fmap] in Hdup. rewrite (fits_codes t v Hf). unfold code. by rewrite Hn. }
  assert (NoDup (templateCodes t)) as Ht by (by apply NoDup_cons in Hdup as [_ ?]). rewrite <-Hn.
  destruct (isPresent b) eqn:Hp.
  - assert (NoDup (codes l)) as Hcl.
    { unfold codes. rewrite Hl. apply (NoDup_filter_codes isPresent (b :: v)) in Hc. cbn [List.filter] in Hc. by rewrite Hp in Hc. }
    destruct (takeField_some b l Hcl) as (l' & -> & Hl'); [rewrite Hl; by left|].
    destruct (bool_decide_reflect (el_style e = SoeDefault)) as [E|_]; cbn [andb].
    + rewrite (Hd eq_refl E). rewrite (IH l'); [done|done|]. apply (Permutation_cons_inv (a := b)). by rewrite <-Hl', Hl.
    + rewrite (IH l'); [done|done|]. apply (Permutation_cons_inv (a := b)). by rewrite <-Hl', Hl.
  - rewrite takeField_none.
    + rewrite bool_decide_eq_false_2 by (by apply Hr). rewrite (IH l) by done. cbn [obind]. by destruct b.
    + rewrite Hl. apply Forall_forall. intros c Hin%list_elem_of_In. apply filter_In in Hin as [Hin _].
      apply NoDup_cons in Hc as [Hc _]. intros E. apply Hc. fold (code b) in E. rewrite <-E. apply list_elem_of_fmap_2. by apply list_elem_of_In.
Qed.

Lemma applyTemplate_fits t v l :
  fits t v -> NoDup (templateCodes t) -> l ≡ₚ List.filter isPresent v -> applyTemplate t l = Ret v.
Proof. intros Hf Ht Hl. unfold applyTemplate. by rewrite (applyElements_fits t v). Qed.

Lemma getIndex_none t f : getIndex t f = None -> fieldCodeMem f ∉ templateCodes t.
Proof.
  unfold templateCodes. induction t as [|e t IH]; cbn [getIndex fmap list_fmap]; [intros _; apply not_elem_of_nil|].
  unfold fieldEq. destruct (Z.eqb_spec (fieldCodeMem (el_sField e)) (fieldCodeMem f)) as [? |Hne]; [done|].
  intros Hn. apply not_elem_of_cons. split; [done|]. apply IH. by destruct (getIndex t f).
Qed.

(** The constructor of a template rejects a field given twice. *)
Lemma indexElements_NoDup rest : forall seen t,
  indexElements seen rest = Ret t -> NoDup (templateCodes seen) -> NoDup (templateCodes t) /\ t = seen ++ rest.
Proof.
  induction rest as [|e rest IH]; intros seen t; cbn [indexElements]; [intros [= <-]; by rewrite app_nil_r|].
  destruct (isUseful (el_sField e)); cbn [negb]; [|done]. destruct (getIndex seen (el_sField e)) eqn:E; [done|].
  intros Ht Hs. destruct (IH _ _ Ht) as [H1 H2].
  - unfold templateCodes. rewrite fmap_app. apply NoDup_app. split; [done|]. split; [|repeat constructor; apply not_elem_of_nil].
    intros c Hc Hc'. apply list_elem_of_singleton in Hc' as ->. by apply (getIndex_none seen (el_sField e)).
  - split; [done|]. by rewrite H2, <-app_assoc.
Qed.

Lemma addFormats_NoDup common l : forall known known',
  addFormats common known l = Ret known' -> Forall (fun x => NoDup (templateCodes x.2)) known ->
  Forall (fun x => NoDup (templateCodes x.2)) known'.
Proof.
  induction l as [|f l IH]; intros kn kn'; cbn [addFormats]; [by intros [= <-]|]. destruct (existsb _ kn); [done|].
  unfold makeTemplate. destruct (indexElements [] (fmt_fields f ++ common)) as [t| | | | |] eqn:E; try done.
  intros Ha Hk. apply (IH _ _ Ha). constructor; [|done]. apply (indexElements_NoDup _ _ _ E). constructor.
Qed.

Lemma findByType_in kn ty t : findByType kn ty = Some t -> exists x, x ∈ kn /\ x.2 = t.
Proof.
  unfold findByType. destruct (List.find _ kn) as [x|] eqn:E; [|done]. intros [= <-]. exists x. split; [|done].
  apply list_elem_of_In. by apply (find_some _ _ E).
Qed.

Lemma inner_formats : addFormats [] [] innerFormats = Ret InnerObjectFormats.
Proof. vm_compute. reflexivity. Qed.

Lemma inner_NoDup f t : findSOTemplateBySField f = Some t -> NoDup (templateCodes t).
Proof.
  intros (x & Hx & <-)%findByType_in. pose proof (addFormats_NoDup _ _ _ _ inner_formats ltac:(constructor)) as H.
  rewrite Forall_forall in H. by apply H.
Qed.

(** ** Reading *)

(** The fuel a value takes. *)
Fixpoint need (b : STBase) : nat :=
  match b with
  | STNotPresent _ => 0
  | STLeaf _ _ => 1
  | STObj _ _ v | STArr _ v => S (S (sum_list (List.map (fun c => if isPresent c then S (need c) else 0%nat) v)))
  end.

Definition weight (c : STBase) : nat := if isPresent c then S (need c) else 0%nat.

Definition needs (l : list STBase) : nat := S (sum_list (List.map weight l)).

Lemma needs_cons d b l : wfBase d b -> needs (b :: l) = (S (need b) + needs l)%nat.
Proof. intros Hb. unfold needs, weight. cbn. rewrite (wf_present d b Hb). lia. Qed.

(** The value before the template of its field is applied. *)
Definition bare (b : STBase) : STBase :=
  match b with
  | STObj f _ v => STObj f None (getSortedFields true (List.map settle v))
  | STArr f v => STArr f (List.map settle v)
  | _ => b
  end.

Lemma filter_settle v : List.filter isPresent (List.map settle v) = List.map settle (List.filter isPresent v).
Proof.
  induction v as [|b v IH]; [done|]. cbn [List.map List.filter]. rewrite settle_present, IH. by destruct (isPresent b).
Qed.

Lemma filter_inc d v :
  Forall (fun b => isPresent b = true -> wfBase d b) v -> List.filter inc v = List.filter isPresent v.
Proof.
  induction 1 as [|b v Hb Hv IH]; [done|]. cbn [List.filter]. rewrite IH. unfold inc at 1. destruct (isPresent b); [|done].
  by rewrite known_include by (exact (proj1 (wf_known d b (Hb eq_refl)))).
Qed.

(** Applying the template to the fields read gives the slots. *)
Lemma applyTemplate_settled d t v :
  Forall (fun b => isPresent b = true -> wfBase d b) v -> fits t v -> NoDup (templateCodes t) ->
  applyTemplate t (getSortedFields true (List.map settle v)) = Ret (List.map settle v).
Proof.
  intros Hv Hf Ht. apply applyTemplate_fits; [by eapply settle_fits|done|]. rewrite settle_sorted, filter_settle.
  destruct (sorted_spec v) as [_ Hp]; [by rewrite (fits_codes t v Hf)|]. by rewrite Hp, (filter_inc d).
Qed.

Lemma bare_settle d b : wfBase d b -> applyTemplateFromSField (getFName b) (bare b) = Ret (settle b).
Proof.
  destruct 1 as [| d f v _ _ Ht Hv _ | d f t v _ _ Ht Hv Hf | d f v]; [done| | |done]; cbn [bare settle getFName applyTemplateFromSField]; rewrite Ht; [done|].
  rewrite (applyTemplate_settled (d + 1)); [done|done|done|by apply (inner_NoDup f)].
Qed.

Section Loops.
Context (mode : RoundingMode).
#[local] Notation fieldsLoop := (setFields mode Large330).
#[local] Notation varReader := (getVar mode Large330).
#[local] Notation arrayLoop := (getArray mode Large330).

Definition readable (d : Z) (b : STBase) : Prop :=
  wfBase d b /\ forall fuel, (need b <= fuel)%nat -> reads (varReader fuel (getFName b) d) (baseBytes b ++ endMarker b) (bare b).

Lemma reads_run {A B} (m : Get A) (k : A -> Get B) bytes a it rest :
  reads m bytes a -> iterOk it -> pending it = bytes ++ rest -> gbind m k it = k a (advance (length bytes) it).
Proof. intros Hm Hit E. unfold gbind. by rewrite (Hm it rest Hit E). Qed.

Lemma step_iter bytes rest it :
  iterOk it -> pending it = bytes ++ rest -> iterOk (advance (length bytes) it) /\ pending (advance (length bytes) it) = rest.
Proof.
  intros Hit E. pose proof (reads_room _ _ _ Hit E). split; [by apply iterOk_advance|].
  by rewrite pending_advance, E, drop_app_length.
Qed.

Lemma fieldBytes_nonempty f : known f -> fieldBytes (fieldType f) (fieldValue f) <> [].
Proof. intros [Hv _]. destruct (fieldBytes_cases _ _ Hv) as [(_ & _ & ->)|[(_ & _ & ->)|[(_ & _ & ->)|(_ & _ & ->)]]]; done. Qed.

Lemma pending_nonempty it bytes rest : iterOk it -> pending it = bytes ++ rest -> bytes <> [] -> empty it = false.
Proof.
  intros Hit E Hne. pose proof (reads_room _ _ _ Hit E). unfold empty. destruct bytes; [done|]. cbn [length] in *.
  destruct (Nat.eqb_spec (remain_ it) 0); [lia|done].
Qed.

(** Reading one framed value in place. *)
Lemma framed_run {B} fuel d b (k : STBase -> Get B) it rest :
  readable d b -> (need b <= fuel)%nat -> iterOk it -> pending it = baseBytes b ++ endMarker b ++ rest ->
  (x <- varReader fuel (getFName b) d;; x <- glift (applyTemplateFromSField (getFName b) x);; k x) it =
  k (settle b) (advance (length (baseBytes b ++ endMarker b)) it).
Proof.
  intros [Hw Hr] Hf Hit E. rewrite app_assoc in E. rewrite (reads_run _ _ _ _ it rest (Hr fuel Hf) Hit E).
  unfold gbind, glift. by rewrite (bare_settle d).
Qed.

Lemma leafSType_simple v : leafSType v <> STI_OBJECT /\ leafSType v <> STI_ARRAY.
Proof. by destruct v. Qed.

(** A well-formed value's field is not an end marker. *)
Lemma wf_notEnd d b type :
  wfBase d b -> type = STI_OBJECT \/ type = STI_ARRAY ->
  (fieldType (getFName b) =? type) && (fieldValue (getFName b) =? 1) = false.
Proof.
  intros Hb Ht. apply andb_false_iff.
  destruct Hb as [d f v _ _ E _ | d f v _ (_ & _ & Hv) _ _ _ | d f t v _ (_ & _ & Hv) _ _ _ | d f v _ (_ & _ & Hv)]; cbn [getFName].
  - left. apply Z.eqb_neq. rewrite <-E. pose proof (leafSType_simple v). destruct Ht as [-> | ->]; tauto.
  - right. by apply Z.eqb_neq.
  - right. by apply Z.eqb_neq.
  - right. by apply Z.eqb_neq.
Qed.

Lemma fields_step fuel d c prev acc b it rest :
  readable (d + 1) b -> (need b <= fuel)%nat -> iterOk it -> pending it = framed b ++ rest ->
  (c = true -> match prev with Some p => p < code b | None => True end) ->
  fieldsLoop (S fuel) d c prev acc it =
  fieldsLoop fuel d c (Some (code b)) (acc ++ [settle b]) (advance (length (framed b)) it).
Proof.
  intros Hb Hf Hit E Hc. destruct (wf_known _ _ (proj1 Hb)) as [Hk _]. pose proof Hk as (Hv & Hg & Hi & _).
  unfold framed, frame in E |- *. cbn [fst snd] in E |- *. rewrite <-!app_assoc in E. cbn [setFields].
  rewrite (pending_nonempty it _ _ Hit E (fieldBytes_nonempty _ Hk)).
  rewrite (reads_run _ _ _ _ it _ (reads_fieldID _ _ Hv) Hit E). cbv iota.
  destruct (step_iter _ _ it Hit E) as [Hit' E'].
  rewrite (wf_notEnd (d + 1) b STI_OBJECT) by (tauto || apply Hb). rewrite (wf_notEnd (d + 1) b STI_ARRAY) by (tauto || apply Hb).
  cbv zeta. rewrite Hg, Hi. fold (code b).
  assert (c && match prev with Some p => code b <=? p | None => false end = false) as ->.
  { destruct c; [|done]. specialize (Hc eq_refl). destruct prev; [|done]. apply Z.leb_gt. lia. }
  rewrite (framed_run fuel (d + 1) b _ _ rest Hb Hf Hit' E'). by rewrite advance_add, <-length_app.
Qed.

(** The order [requireCanonicalOrder] asks for. *)
Definition ordered (prev : option Z) (l : list STBase) : Prop :=
  ascending l /\ match prev with Some p => Forall (fun b => p < code b) l | None => True end.

Lemma ordered_cons prev b l : ordered prev (b :: l) ->
  (match prev with Some p => p < code b | None => True end) /\ ordered (Some (code b)) l.
Proof.
  intros [Ha Hp]. inversion Ha as [|? ? Hl Hb]; subst. split; [|split; [done|exact Hb]].
  destruct prev; [by apply Forall_cons in Hp as [? _]|done].
Qed.

Lemma fields_run d c l : forall fuel prev acc it rest,
  Forall (readable (d + 1)) l -> (needs l <= fuel)%nat -> iterOk it -> pending it = concat (List.map framed l) ++ rest ->
  (c = true -> ordered prev l) ->
  exists fuel' prev',
    fieldsLoop fuel d c prev acc it =
    fieldsLoop (S fuel') d c prev' (acc ++ List.map settle l) (advance (length (concat (List.map framed l))) it).
Proof.
  induction l as [|b l IH]; intros fuel prev acc it rest Hl Hf Hit E Hc; cbn [List.map concat] in *.
  - exists (pred fuel), prev. unfold needs in Hf. cbn in Hf. rewrite app_nil_r. replace (S (pred fuel)) with fuel by lia.
    f_equal. destruct it. unfold advance. cbn. f_equal; lia.
  - apply Forall_cons in Hl as [Hb Hl]. rewrite (needs_cons _ b l (proj1 Hb)) in Hf.
    destruct fuel as [|fuel]; [lia|]. rewrite <-app_assoc in E. assert (need b <= fuel /\ needs l <= fuel)%nat as [Hf1 Hf2] by lia.
    rewrite (fields_step fuel d c prev acc b it (concat (List.map framed l) ++ rest) Hb Hf1 Hit E).
    2: { intros Ec. by apply (ordered_cons prev b l), Hc. }
    destruct (step_iter _ _ it Hit E) as [Hit' E'].
    destruct (IH fuel (Some (code b)) (acc ++ [settle b]) _ rest Hl Hf2 Hit' E') as (f' & p' & ->).
    { intros Ec. by apply (ordered_cons prev b l), Hc. }
    exists f', p'. by rewrite <-app_assoc, advance_add, length_app.
Qed.

(** The two ways an object ends. *)
Lemma fields_marker fuel d c prev acc it rest :
  iterOk it -> pending it = fieldBytes STI_OBJECT 1 ++ rest ->
  fieldsLoop (S fuel) d c prev acc it = (Ret (acc, true), advance (length (fieldBytes STI_OBJECT 1)) it).
Proof.
  intros Hit E. cbn [setFields]. rewrite (pending_nonempty it _ _ Hit E ltac:(done)).
  rewrite (reads_run _ _ _ _ it _ (reads_fieldID STI_OBJECT 1 ltac:(split; done)) Hit E). done.
Qed.

Lemma fields_empty fuel d c prev acc it :
  iterOk it -> pending it = [] -> fieldsLoop (S fuel) d c prev acc it = (Ret (acc, false), it).
Proof.
  intros Hit E. cbn [setFields]. destruct (iterOk_pending it Hit) as [Hl _]. rewrite E in Hl. unfold empty. by rewrite <-Hl.
Qed.

Lemma array_step fuel d acc b it rest :
  readable (d + 1) b -> getSType b = STI_OBJECT -> (need b <= fuel)%nat -> iterOk it -> pending it = framed b ++ rest ->
  arrayLoop (S fuel) d acc it = arrayLoop fuel d (acc ++ [settle b]) (advance (length (framed b)) it).
Proof.
  intros Hb Ho Hf Hit E. destruct (wf_known _ _ (proj1 Hb)) as [Hk _]. pose proof Hk as (Hv & Hg & Hi & _).
  unfold framed, frame in E |- *. cbn [fst snd] in E |- *. rewrite <-!app_assoc in E. cbn [getArray].
  rewrite (pending_nonempty it _ _ Hit E (fieldBytes_nonempty _ Hk)).
  rewrite (reads_run _ _ _ _ it _ (reads_fieldID _ _ Hv) Hit E). cbv iota.
  destruct (step_iter _ _ it Hit E) as [Hit' E'].
  rewrite (wf_notEnd (d + 1) b STI_OBJECT) by (tauto || apply Hb). rewrite (wf_notEnd (d + 1) b STI_ARRAY) by (tauto || apply Hb).
  cbv zeta. rewrite Hg, Hi.
  assert ((fieldType (getFName b) =? STI_OBJECT) = true) as ->.
  { apply Z.eqb_eq. destruct Hb as [Hb _]. destruct Hb as [d' f v _ _ _ _ | d' f v _ (_ & Ht & _) | d' f t v _ (_ & Ht & _) | d' f v _ (_ & Ht & _)]; try done.
    cbn in Ho. by destruct (leafSType_simple v). }
  cbn [negb]. rewrite (framed_run fuel (d + 1) b _ _ rest Hb Hf Hit' E'). by rewrite advance_add, <-length_app.
Qed.

Lemma array_run d l : forall fuel acc it rest,
  Forall (readable (d + 1)) l -> Forall (fun b => getSType b = STI_OBJECT) l -> (needs l <= fuel)%nat -> iterOk it ->
  pending it = concat (List.map framed l) ++ fieldBytes STI_ARRAY 1 ++ rest ->
  arrayLoop fuel d acc it =
  (Ret (acc ++ List.map settle l), advance (length (concat (List.map framed l) ++ fieldBytes STI_ARRAY 1)) it).
Proof.
  induction l as [|b l IH]; intros fuel acc it rest Hl Ho Hf Hit E; cbn [List.map concat] in *.
  - unfold needs in Hf. cbn in Hf. destruct fuel as [|fuel]; [lia|]. cbn [getArray]. cbn [app] in E |- *.
    rewrite (pending_nonempty it _ _ Hit E ltac:(done)). rewrite app_nil_r.
    rewrite (reads_run _ _ _ _ it _ (reads_fieldID STI_ARRAY 1 ltac:(split; done)) Hit E). done.
  - apply Forall_cons in Hl as [Hb Hl]. apply Forall_cons in Ho as [Hob Ho].
    rewrite (needs_cons _ b l (proj1 Hb)) in Hf. destruct fuel as [|fuel]; [lia|]. rewrite <-app_assoc in E.
    assert (need b <= fuel /\ needs l <= fuel)%nat as [Hf1 Hf2] by lia.
    rewrite (array_step fuel d acc b it _ Hb Hob Hf1 Hit E). destruct (step_iter _ _ it Hit E) as [Hit' E'].
    rewrite (IH fuel (acc ++ [settle b]) _ rest Hl Ho Hf2 Hit' E').
    by rewrite <-(app_assoc acc), advance_add, <-length_app, <-(app_assoc (framed b)).
Qed.

Lemma getVar_S fuel fn d :
  varReader (S fuel) fn d =
    if 10 <? d then glift RuntimeError
    else if fieldType fn =? STI_OBJECT then
      r <- fieldsLoop fuel d false None [];;
      r <- dupCheck r;;
      gret (STObj fn None r.1)
    else if fieldType fn =? STI_ARRAY then
      v <- arrayLoop fuel d [];;
      gret (STArr fn v)
    else v <- getLeaf mode Large330 (fieldType fn);; gret (STLeaf fn v).
Proof. done. Qed.

Lemma readable_leaf d f v : wfBase d (STLeaf f v) -> readable d (STLeaf f v).
Proof.
  intros Hb. split; [done|]. intros [|fuel] Hf; cbn [need] in Hf; [lia|]. inversion Hb as [? ? ? Hd Hk Ht Hv| | |]; subst.
  unfold endMarker. cbn [getSType baseBytes getFName bare getVar]. pose proof (leafSType_simple v) as [H1 H2].
  rewrite (proj2 (Z.eqb_neq _ _) H1), (proj2 (Z.eqb_neq _ _) H2). cbn [orb]. rewrite app_nil_r.
  rewrite <-Ht, (proj2 (Z.eqb_neq _ _) H1), (proj2 (Z.eqb_neq _ _) H2). destruct (Z.ltb_spec 10 d); [lia|].
  by apply reads_then, reads_leaf.
Qed.

Lemma sorted_NoDup v : NoDup (codes v) -> NoDup (codes (getSortedFields true v)).
Proof. intros Hv. destruct (sorted_spec v Hv) as [_ Hp]. unfold codes. rewrite Hp. by apply NoDup_filter_codes. Qed.

Lemma dupCheck_ok v flag : NoDup (codes v) -> dupCheck (v, flag) = gret (v, flag).
Proof. intros Hv. unfold dupCheck. cbn [fst]. by rewrite adjacentDup_ascending by (by apply sorted_spec). Qed.

(** The fields of an inner object, read and checked. *)
Lemma reads_inner fuel d v :
  Forall (fun b => isPresent b = true -> readable (d + 1) b) v -> NoDup (codes v) ->
  (needs (getSortedFields true v) <= fuel)%nat ->
  reads (r <- fieldsLoop fuel d false None [];; dupCheck r) (fieldsBytes v ++ fieldBytes STI_OBJECT 1)
    (getSortedFields true (List.map settle v), true).
Proof.
  intros Hv Hdup Hf it rest Hit E. rewrite <-app_assoc in E.
  assert (Forall (readable (d + 1)) (getSortedFields true v)) as Hl.
  { apply Forall_forall. intros b [Hb Hp]%sorted_subset. rewrite Forall_forall in Hv. by apply Hv. }
  unfold fieldsBytes in *.
  destruct (fields_run d false _ fuel None [] it _ Hl Hf Hit E ltac:(done)) as (f' & p' & Er). unfold gbind. rewrite Er. clear Er.
  destruct (step_iter _ _ it Hit E) as [Hit' E']. rewrite (fields_marker f' d false p' _ _ rest Hit' E').
  rewrite advance_add, <-length_app, settle_sorted. cbn [app].
  rewrite dupCheck_ok by (rewrite settle_codes; by apply sorted_NoDup). done.
Qed.

Lemma sum_list_perm (l k : list nat) : l ≡ₚ k -> sum_list l = sum_list k.
Proof. induction 1; cbn; lia. Qed.

Lemma needs_filter v : (needs (List.filter inc v) <= needs v)%nat.
Proof. unfold needs. induction v as [|b v IH]; [done|]. cbn [List.filter]. destruct (inc b); cbn in *; lia. Qed.

Lemma needs_sorted v : NoDup (codes v) -> (needs (getSortedFields true v) <= needs v)%nat.
Proof.
  intros Hv. destruct (sorted_spec v Hv) as [_ Hp]. etransitivity; [|apply needs_filter]. unfold needs.
  rewrite (sum_list_perm _ (List.map weight (List.filter inc v))); [done|]. by apply Permutation_map.
Qed.

Lemma readable_object d f t v :
  wfBase d (STObj f t v) -> NoDup (codes v) -> Forall (fun b => isPresent b = true -> readable (d + 1) b) v ->
  readable d (STObj f t v).
Proof.
  intros Hb Hdup Hv. split; [done|]. intros [|fuel] Hf; cbn [need] in Hf; [lia|].
  destruct (wf_known _ _ Hb) as [_ Hd]. assert (fieldType f = STI_OBJECT) as Ht by (inversion Hb as [|? ? ? ? (_ & ? & _)|? ? ? ? ? (_ & ? & _)|]; done).
  rewrite objectBytes. rewrite getVar_S. cbn [getFName bare]. destruct (Z.ltb_spec 10 d); [lia|]. rewrite Ht, Z.eqb_refl.
  unfold endMarker. cbn [getSType]. change ((STI_OBJECT =? STI_ARRAY) || (STI_OBJECT =? STI_OBJECT)) with true. cbv iota.
  intros it rest Hit E. pose proof (reads_inner fuel d v Hv Hdup) as Hr.
  specialize (Hr ltac:(etransitivity; [by apply needs_sorted|unfold needs, weight; lia]) it rest Hit E).
  unfold gbind in Hr |- *. destruct (fieldsLoop fuel d false None [] it) as [[r| | | | |] it'] eqn:Es; try discriminate Hr.
  cbv beta in Hr |- *. by rewrite Hr.
Qed.

Lemma readable_array d f v : wfBase d (STArr f v) -> Forall (readable (d + 1)) v -> readable d (STArr f v).
Proof.
  intros Hb Hv. split; [done|]. intros [|fuel] Hf; cbn [need] in Hf; [lia|].
  inversion Hb as [| | |? ? ? Hd (_ & Ht & _) _ Ho]; subst. rewrite arrayBytes. rewrite getVar_S. cbn [getFName bare].
  destruct (Z.ltb_spec 10 d); [lia|]. rewrite Ht. change (STI_ARRAY =? STI_OBJECT) with false. rewrite Z.eqb_refl. cbv iota.
  unfold endMarker. cbn [getSType]. change ((STI_ARRAY =? STI_ARRAY) || _) with true. cbv iota.
  apply reads_then. intros it rest Hit E. rewrite <-app_assoc in E. rewrite (array_run d v fuel [] it rest); try done.
  unfold needs, weight. lia.
Qed.

Lemma wf_readable b : forall d, wfBase d b -> readable d b.
Proof.
  induction b as [f|f v|f t v IH|f v IH] using STBase_induction; intros d Hb; pose proof Hb as Hb'; inversion Hb as [|? ? ? ? ? ? Hv|? ? ? ? ? ? Ht Hv Hf|? ? ? ? ? Hv]; subst.
  - by apply readable_leaf.
  - apply readable_object; [done|done|]. rewrite !Forall_forall in *. intros c Hc _. by apply IH, Hv.
  - apply readable_object; [done|by rewrite (fits_codes _ v Hf); apply (inner_NoDup f)|].
    rewrite !Forall_forall in *. intros c Hc Hp. apply IH; [done|]. by apply Hv.
  - apply readable_array; [done|]. rewrite !Forall_forall in *. intros c Hc. by apply IH, Hv.
Qed.
End Loops.

(** *** Fuel and bytes *)

Lemma weights_sorted d v :
  Forall (fun b => isPresent b = true -> wfBase d b) v -> NoDup (codes v) ->
  sum_list (List.map weight v) = sum_list (List.map weight (getSortedFields true v)).
Proof.
  intros Hv Hd. destruct (sorted_spec v Hd) as [_ Hp]. rewrite (sum_list_perm (List.map weight (getSortedFields true v))
    (List.map weight (List.filter inc v))) by (by apply Permutation_map).
  rewrite (filter_inc d v Hv). clear. induction v as [|b v IH]; [done|]. cbn [List.filter List.map]. unfold weight at 1.
  destruct (isPresent b) eqn:E; cbn; rewrite ?IH; [unfold weight at 2; by rewrite E|done].
Qed.

Lemma weights_bytes l :
  Forall (fun b => (weight b <= 2 * length (framed b))%nat) l ->
  (sum_list (List.map weight l) <= 2 * length (concat (List.map framed l)))%nat.
Proof.
  induction 1 as [|b l Hb Hl IH]; cbn [List.map concat]; [done|]. rewrite length_app.
  change (sum_list (weight b :: List.map weight l)) with (weight b + sum_list (List.map weight l))%nat. lia.
Qed.

Lemma framed_length d b : wfBase d b -> (1 + length (baseBytes b) + length (endMarker b) <= length (framed b))%nat.
Proof.
  intros [Hk _]%wf_known. pose proof (fieldBytes_nonempty _ Hk). unfold framed, frame. cbn [fst snd]. rewrite !length_app.
  destruct (fieldBytes _ _); [done|]. cbn [length]. lia.
Qed.

Lemma weight_bytes b : forall d, wfBase d b -> (weight b <= 2 * length (framed b))%nat.
Proof.
  induction b as [f|f v|f t v IH|f v IH] using STBase_induction; intros d Hb; pose proof (framed_length d _ Hb) as Hl;
    unfold weight; rewrite (wf_present d _ Hb); [inversion Hb|cbn [need]; lia| |].
  - assert (Forall (fun c => isPresent c = true -> wfBase (d + 1) c) v /\ NoDup (codes v)) as [Hv Hd].
    { inversion Hb as [|? ? ? ? ? ? Hv Hd|? ? ? ? ? ? Ht Hv Hf|]; subst; [split; [|done]; by eapply Forall_impl; [exact Hv|]|].
      split; [done|]. rewrite (fits_codes _ v Hf). by apply (inner_NoDup f). }
    rewrite objectBytes in Hl. unfold fieldsBytes in Hl. cbn [need]. change (fun c => if isPresent c then S (need c) else 0%nat) with weight.
    rewrite (weights_sorted (d + 1) v Hv Hd).
    pose proof (weights_bytes (getSortedFields true v)) as Hw. change (length (endMarker (STObj f t v))) with 1%nat in Hl.
    enough (Forall (fun b => (weight b <= 2 * length (framed b))%nat) (getSortedFields true v)) as Hall by (specialize (Hw Hall); lia).
    apply Forall_forall. intros c [Hc Hp]%sorted_subset. rewrite !Forall_forall in *. apply (IH c Hc (d + 1)). by apply Hv.
  - inversion Hb as [| | |? ? ? ? _ Hv]; subst. rewrite arrayBytes in Hl. cbn [need].
    change (fun c => if isPresent c then S (need c) else 0%nat) with weight.
    pose proof (weights_bytes v) as Hw. change (length (endMarker (STArr f v))) with 1%nat in Hl.
    enough (Forall (fun b => (weight b <= 2 * length (framed b))%nat) v) as Hall by (specialize (Hw Hall); lia).
    rewrite !Forall_forall in *. intros c Hc. apply (IH c Hc (d + 1)). by apply Hv.
Qed.

(** *** The whole object *)

Lemma framed_digits : forall b d, wfBase d b -> isDigits 256 (framed b).
Proof.
  assert (forall d b, wfBase d b -> isDigits 256 (baseBytes b) -> isDigits 256 (framed b)) as Hframe.
  { intros d b [(Hv & _) _]%wf_known Hb. unfold framed, frame. cbn [fst snd]. repeat (apply Forall_app; split); [|done|].
    - by apply (itemBytes_digits (Field _ _)).
    - unfold endMarker. destruct (_ || _) eqn:E; [|constructor].
      destruct b as [f|f v|f t v|f v]; cbn [getSType] in *; [done| |by apply (itemBytes_digits (Field STI_OBJECT 1))|by apply (itemBytes_digits (Field STI_ARRAY 1))].
      destruct (leafSType_simple v). apply orb_true_iff in E as [E%Z.eqb_eq|E%Z.eqb_eq]; congruence. }
  assert (forall l, Forall (fun b => isDigits 256 (framed b)) l -> isDigits 256 (concat (List.map framed l))) as Hcat.
  { induction 1; cbn; [constructor|]. by apply Forall_app. }
  intros b. induction b as [f|f v|f t v IH|f v IH] using STBase_induction; intros d Hb; apply (Hframe d _ Hb).
  - inversion Hb.
  - inversion Hb; subst. by apply leafBytes_digits.
  - rewrite objectBytes. apply Hcat, Forall_forall. intros c [Hc Hp]%sorted_subset. rewrite Forall_forall in IH. apply (IH c Hc (d + 1)).
    inversion Hb as [|? ? ? ? ? ? Hv|? ? ? ? ? ? ? Hv|]; subst; rewrite Forall_forall in Hv; by apply Hv.
  - rewrite arrayBytes. apply Hcat. inversion Hb as [| | |? ? ? ? ? Hv]; subst. rewrite !Forall_forall in *.
    intros c Hc. by apply (IH c Hc (d + 1)), Hv.
Qed.

Section Whole.
Context (mode : RoundingMode) (t : SOTemplate) (v : list STBase).
Context (Hv : Forall (fun b => isPresent b = true -> wfBase 1 b) v) (Hf : fits t v) (Ht : NoDup (templateCodes t)).

#[local] Lemma whole_NoDup : NoDup (codes v).
Proof. by rewrite (fits_codes t v Hf). Qed.

#[local] Lemma whole_sorted : Forall (wfBase 1) (getSortedFields true v).
Proof. apply Forall_forall. intros b [Hb Hp]%sorted_subset. rewrite Forall_forall in Hv. by apply Hv. Qed.

Lemma whole_digits : isDigits 256 (fieldsBytes v).
Proof.
  unfold fieldsBytes. induction whole_sorted as [|b l Hb Hl IH]; cbn; [constructor|]. apply Forall_app. split; [by apply (framed_digits b 1)|done].
Qed.

Lemma whole_written : addObject true v [] = Ret (fieldsBytes v).
Proof. rewrite addObject_bytes; [done|]. eapply Forall_impl; [exact Hv|]. intros b Hb Hp. apply (addBase_bytes b 1). by apply Hb. Qed.

(** The fields come back sorted. *)
Lemma whole_set c :
  setObject mode Large330 c (newIter (fieldsBytes v)) =
    (Ret (getSortedFields true (List.map settle v), false), advance (length (fieldsBytes v)) (newIter (fieldsBytes v))).
Proof.
  set (it := newIter (fieldsBytes v)). assert (iterOk it) as Hit by (apply iterOk_new, whole_digits).
  assert (pending it = concat (List.map framed (getSortedFields true v)) ++ []) as E by (by rewrite app_nil_r).
  assert (needs (getSortedFields true v) <= parseFuel it)%nat as Hn.
  { unfold needs, parseFuel. subst it. cbn [remain_ newIter]. unfold fieldsBytes.
    pose proof (weights_bytes (getSortedFields true v)) as Hw. enough (sum_list (List.map weight (getSortedFields true v)) <= 2 * length (concat (List.map framed (getSortedFields true v))))%nat by lia.
    apply Hw. eapply Forall_impl; [exact whole_sorted|]. intros b. apply weight_bytes. }
  destruct (sorted_spec v whole_NoDup) as [Ha _].
  assert (Forall (readable mode 1) (getSortedFields true v)) as Hr
    by (eapply Forall_impl; [exact whole_sorted|]; intros b; apply wf_readable).
  destruct (fields_run mode 0 c (getSortedFields true v) (parseFuel it) None [] it [] Hr Hn Hit E ltac:(done)) as (f' & p' & Er).
  destruct (step_iter _ _ it Hit E) as [Hit' E'].
  unfold setObject, gbind. rewrite Er, fields_empty by done. cbn [app].
  rewrite dupCheck_ok by (rewrite settle_codes; apply sorted_NoDup, whole_NoDup). unfold gret. by rewrite <-settle_sorted.
Qed.

Lemma whole_read c :
  makeObject mode Large330 t c (newIter (fieldsBytes v)) =
    (Ret (List.map settle v), advance (length (fieldsBytes v)) (newIter (fieldsBytes v))).
Proof. unfold makeObject, gbind. rewrite whole_set. unfold glift. cbn [fst]. by rewrite (applyTemplate_settled 1). Qed.
End Whole.

(** *** Settled objects *)

Lemma framed_settle b : baseBytes (settle b) = baseBytes b -> framed (settle b) = framed b.
Proof. intros E. unfold framed, frame, endMarker. cbn [fst snd]. by rewrite settle_name, settle_type, E. Qed.

Lemma settled_fields v :
  Forall (fun b => isPresent b = true -> baseBytes (settle b) = baseBytes b) v ->
  fieldsBytes (List.map settle v) = fieldsBytes v.
Proof.
  intros Hv. unfold fieldsBytes. rewrite settle_sorted, map_map. f_equal. apply map_ext_in. intros b Hb%list_elem_of_In.
  apply sorted_subset in Hb as [Hb Hp]. rewrite Forall_forall in Hv. by apply framed_settle, Hv.
Qed.

Lemma sorted_twice v :
  NoDup (codes v) -> getSortedFields true (getSortedFields true v) = getSortedFields true v.
Proof.
  intros Hd. destruct (sorted_spec v Hd) as [Ha Hp]. apply sorted_id; [|done]. rewrite Hp. apply Forall_forall.
  intros b Hb%list_elem_of_In. by apply filter_In in Hb as [_ ?].
Qed.

(** Sorting the fields does not change the bytes. *)
Lemma settle_bytes b : forall d, wfBase d b -> baseBytes (settle b) = baseBytes b.
Proof.
  induction b as [f|f v|f t v IH|f v IH] using STBase_induction; intros d Hb; [done|done| |].
  - cbn [settle]. rewrite !objectBytes. inversion Hb as [|? ? ? ? ? Ht Hv Hd|? ? ? ? ? ? Ht Hv Hf|]; subst; rewrite Ht.
    + assert (forall w, NoDup (codes w) -> fieldsBytes (getSortedFields true w) = fieldsBytes w) as ->.
      { intros w Hw. unfold fieldsBytes. by rewrite sorted_twice. }
      * apply settled_fields. rewrite !Forall_forall in *. intros c Hc _. by apply (IH c Hc (d + 1)), Hv.
      * by rewrite settle_codes.
    + apply settled_fields. rewrite !Forall_forall in *. intros c Hc Hp. by apply (IH c Hc (d + 1)), Hv.
  - cbn [settle]. rewrite !arrayBytes, map_map. f_equal. inversion Hb as [| | |? ? ? ? ? Hv]; subst. apply map_ext_in.
    intros c Hc%list_elem_of_In. rewrite !Forall_forall in *. by apply framed_settle, (IH c Hc (d + 1)), Hv.
Qed.

Lemma settle_wf b : forall d, wfBase d b -> wfBase d (settle b).
Proof.
  induction b as [f|f v|f t v IH|f v IH] using STBase_induction; intros d Hb; [done|done| |].
  - cbn [settle]. inversion Hb as [|? ? ? Hd Hc Ht Hv Hn|? ? ? ? Hd Hc Ht Hv Hf|]; subst; rewrite Ht.
    + apply wf_free; [done|done|done| |apply sorted_NoDup; by rewrite settle_codes]. apply Forall_forall. intros c [Hin _]%sorted_subset.
      apply list_elem_of_In, in_map_iff in Hin as (c' & <- & Hin%list_elem_of_In). rewrite !Forall_forall in *. by apply IH, Hv.
    + apply wf_templated; [done|done|done| |by eapply settle_fits]. apply Forall_forall. intros c Hin Hp.
      apply list_elem_of_In, in_map_iff in Hin as (c' & <- & Hin%list_elem_of_In). rewrite settle_present in Hp.
      rewrite !Forall_forall in *. by apply IH, Hv.
  - cbn [settle]. inversion Hb as [| | |? ? ? Hd Hc Hv Ho]; subst. apply wf_array; [done|done| |]; apply Forall_forall; intros c Hin;
      apply list_elem_of_In, in_map_iff in Hin as (c' & <- & Hin%list_elem_of_In); rewrite !Forall_forall in *; [by apply IH, Hv|].
    rewrite settle_type. by apply Ho.
Qed.
