(* ===== verification/STObjectSpec.v ===== *)
(** * Serialized objects: the properties

    The parser of objects returns or throws on every input, what it returns is a well-formed
    object of its template, and objects make the trip through their bytes. *)
From S2P Require Import Prelude Digits Serializer SerializerFacts SerializerSpec SField Formats Number NumberSpec.
From S2P Require Import Amounts STTypes STTypesFacts Parsing STObject STObjectFacts.

(** ** The table of fields *)

Definition rowOk (f : SField) : bool :=
  (fieldCodeMem f <=? 0) ||
  ((fieldCodeMem f =? fieldCode (fieldType f) (fieldValue f)) && (0 <? fieldType f) && (0 <? fieldValue f) && (fieldValue f <? 65536)).

Lemma sfields_ok : forallb rowOk sfields = true.
Proof. vm_compute. reflexivity. Qed.

Lemma fieldCode_sum t n : 0 <= n < 65536 -> fieldCode t n = t * 65536 + n.
Proof. intros Hn. unfold fieldCode. by rewrite lor_shift by lia. Qed.

Lemma getField_in c : isInvalid (getField c) = false -> getField c ∈ sfields /\ fieldCodeMem (getField c) = c.
Proof.
  unfold getField. destruct (List.find _ sfields) as [f|] eqn:E; [|done]. intros _. cbn. apply find_some in E as [Hin Hc].
  split; [by apply list_elem_of_In|lia].
Qed.

Lemma getField_known t n :
  validField t n -> isInvalid (getField (fieldCode t n)) = false ->
  known (getField (fieldCode t n)) /\ fieldType (getField (fieldCode t n)) = t /\ fieldValue (getField (fieldCode t n)) = n.
Proof.
  intros Hv Hi. destruct (getField_in _ Hi) as [Hin Hc]. set (f := getField (fieldCode t n)) in *.
  assert (rowOk f = true) as Hrow by (pose proof sfields_ok as H; rewrite forallb_forall in H; by apply H, list_elem_of_In).
  unfold rowOk in Hrow. rewrite Hc in Hrow. destruct Hv as [Ht Hn]. rewrite (fieldCode_sum t n) in Hrow by lia.
  destruct (Z.leb_spec (t * 65536 + n) 0); [lia|]. cbn [orb] in Hrow. rewrite !andb_true_iff, Z.eqb_eq, !Z.ltb_lt in Hrow.
  destruct Hrow as [[[E H1] H2] H3]. rewrite fieldCode_sum in E by lia.
  assert (fieldType f = t /\ fieldValue f = n) as [Et En] by lia.
  split; [|done]. unfold known. rewrite Et, En. by split_and!.
Qed.

(** ** Duplicates *)

Lemma insertField_sorted x l :
  StronglySorted (fun a b => code a <= code b) l -> StronglySorted (fun a b => code a <= code b) (insertField (fun b => b) x l).
Proof.
  induction 1 as [|y l Hl IH Hy]; [repeat constructor|]. cbn [insertField]. unfold codeOf. fold (code y) (code x).
  destruct (Z.ltb_spec (code y) (code x)).
  - constructor; [done|]. rewrite insertField_perm. constructor; [lia|done].
  - constructor; [by constructor|]. constructor; [lia|]. eapply Forall_impl; [exact Hy|]. cbn. lia.
Qed.

Lemma sortFields_sorted l : StronglySorted (fun a b => code a <= code b) (sortFields (fun b => b) l).
Proof. induction l as [|x l IH]; cbn [sortFields]; [constructor|]. by apply insertField_sorted. Qed.

Lemma adjacentDup_strict l :
  StronglySorted (fun a b => code a <= code b) l -> adjacentDup l = false -> ascending l.
Proof.
  induction 1 as [|x l Hl IH Hx]; [constructor|]. cbn [adjacentDup]. destruct l as [|y l]; [repeat constructor|].
  intros [Hne Hd]%orb_false_iff. specialize (IH Hd). constructor; [done|]. unfold fieldEq in Hne. fold (code x) (code y) in Hne.
  apply Forall_cons in Hx as [Hxy _]. inversion IH as [|? ? _ Hy]; subst. constructor; [lia|]. eapply Forall_impl; [exact Hy|]. cbn. lia.
Qed.

Lemma ascending_NoDup l : ascending l -> NoDup (codes l).
Proof.
  induction 1 as [|x l Hl IH Hx]; [constructor|]. unfold codes. cbn [fmap list_fmap]. constructor; [|done].
  intros (y & E & Hy)%list_elem_of_fmap. rewrite Forall_forall in Hx. specialize (Hx y Hy). lia.
Qed.

Lemma dupCheck_NoDup v : Forall (fun b => inc b = true) v -> adjacentDup (getSortedFields true v) = false -> NoDup (codes v).
Proof.
  intros Hv Hd. unfold codes. rewrite <-(sorted_perm v Hv). apply ascending_NoDup, adjacentDup_strict; [|done].
  unfold getSortedFields, sortedFields. rewrite (filter_keeps_all v Hv). apply sortFields_sorted.
Qed.

(** ** Templates *)

#[export] Instance sfield_eq_dec : EqDecision SField.
Proof. solve_decision. Defined.

(** The fields of the elements are those of the table. *)
Definition tableTemplate (t : SOTemplate) : Prop :=
  Forall (fun e => getField (fieldCodeMem (el_sField e)) = el_sField e) t.

Lemma takeField_sound f v b r : takeField f v = Some (b, r) -> b ∈ v /\ code b = fieldCodeMem f /\ (forall c, c ∈ r -> c ∈ v).
Proof.
  revert r. induction v as [|x v IH]; intros r; cbn [takeField]; [done|]. unfold fieldEq. fold (code x).
  destruct (Z.eqb_spec (code x) (fieldCodeMem f)) as [E|_].
  - intros [= -> ->]. split; [by left|]. split; [done|]. intros c Hc. by right.
  - destruct (takeField f v) as [[y w]|]; [|done]. intros [= -> <-]. destruct (IH w eq_refl) as (H1 & H2 & H3).
    split; [by right|]. split; [done|]. intros c [-> |Hc]%elem_of_cons; [by left|]. right. by apply H3.
Qed.

Lemma applyElements_sound (P : STBase -> Prop) t : forall v,
  tableTemplate t -> Forall P v -> Forall (fun b => isPresent b = true /\ known (getFName b)) v ->
  match applyElements t v with
  | Ret (w, r) => fits t w /\ Forall (fun b => isPresent b = true -> P b) w
  | Wild => False
  | _ => True
  end.
Proof.
  induction t as [|e t IH]; intros v Ht HP Hk; cbn [applyElements]; [split; constructor|].
  apply Forall_cons in Ht as [He Ht]. destruct (takeField (el_sField e) v) as [[b r]|] eqn:E.
  - apply takeField_sound in E as (Hb & Hc & Hr). destruct (_ && _) eqn:Hd; [done|].
    assert (Forall P r /\ Forall (fun b => isPresent b = true /\ known (getFName b)) r) as [HP' Hk'].
    { rewrite !Forall_forall in *. split; intros c Hin; [by apply HP, Hr|by apply Hk, Hr]. }
    specialize (IH r Ht HP' Hk'). destruct (applyElements t r) as [[w q]| | | | |]; try done. cbn [obind]. destruct IH as [Hf Hw].
    rewrite !Forall_forall in HP, Hk. destruct (Hk b Hb) as [Hp (_ & Hg & _ & Hcode)]. split; [|by constructor; [intros _; apply HP|]].
    constructor; [|done]. split; [|split; [by rewrite Hp|]].
    + rewrite <-He, <-Hc. unfold code. by rewrite Hcode.
    + intros _ Hs. rewrite bool_decide_eq_true_2 in Hd by done. done.
  - destruct (bool_decide_reflect (el_style e = SoeRequired)) as [? |Hn]; [done|].
    specialize (IH v Ht HP Hk). destruct (applyElements t v) as [[w q]| | | | |]; try done. cbn [obind]. destruct IH as [Hf Hw].
    by split; constructor.
Qed.

Lemma applyTemplate_sound (P : STBase -> Prop) t v :
  tableTemplate t -> Forall P v -> Forall (fun b => isPresent b = true /\ known (getFName b)) v ->
  match applyTemplate t v with
  | Ret w => fits t w /\ Forall (fun b => isPresent b = true -> P b) w
  | Wild => False
  | _ => True
  end.
Proof.
  intros Ht HP Hk. pose proof (applyElements_sound P t v Ht HP Hk) as H. unfold applyTemplate.
  destruct (applyElements t v) as [[w r]| | | | |]; try done. cbn [obind]. by destruct (forallb _ r).
Qed.

Lemma inner_table : forallb (fun x => bool_decide (tableTemplate x.2)) InnerObjectFormats = true.
Proof. vm_compute. reflexivity. Qed.

Lemma inner_tableTemplate f t : findSOTemplateBySField f = Some t -> tableTemplate t.
Proof.
  intros (x & Hx & <-)%findByType_in. pose proof inner_table as H. rewrite forallb_forall in H.
  apply (bool_decide_eq_true_1 _), H. by apply list_elem_of_In.
Qed.

(** ** The parser on any input *)

Section Parser.
Context (mode : RoundingMode).
#[local] Abbreviation fieldsLoop := (setFields mode Large330).
#[local] Abbreviation varReader := (getVar mode Large330).
#[local] Abbreviation arrayLoop := (getArray mode Large330).
#[local] Abbreviation wfP := (wfWith parsedLeaf).

Definition notMarker (f : SField) : Prop := fieldType f = STI_OBJECT \/ fieldType f = STI_ARRAY -> fieldValue f <> 1.

(** What applying the template of the field to a value read gives. *)
Definition templated (d : Z) (fn : SField) (b : STBase) : Prop :=
  match applyTemplateFromSField fn b with
  | Ret b' => wfP d b' /\ (fieldType fn = STI_OBJECT -> getSType b' = STI_OBJECT)
  | Wild => False
  | _ => True
  end.

Lemma wfP_members d v : Forall (wfP d) v -> Forall (fun b => isPresent b = true /\ known (getFName b)) v.
Proof. intros Hv. eapply Forall_impl; [exact Hv|]. intros b Hb. split; [by apply (wf_present d b Hb)|apply (wf_known d b Hb)]. Qed.

Lemma templated_object d fn v :
  d <= 10 -> container fn STI_OBJECT -> Forall (wfP (d + 1)) v -> NoDup (codes v) -> templated d fn (STObj fn None v).
Proof.
  intros Hd Hc Hv Hn. unfold templated. cbn [applyTemplateFromSField].
  destruct (findSOTemplateBySField fn) as [t|] eqn:Ht; [|split; [by apply wf_free|done]].
  pose proof (applyTemplate_sound (wfP (d + 1)) t v (inner_tableTemplate fn t Ht) Hv (wfP_members _ _ Hv)) as H.
  destruct (applyTemplate t v) as [w| | | | |]; try done. cbn [obind]. split; [|done]. by apply wf_templated; try apply H.
Qed.

Lemma parses_dupCheck d r it :
  iterOk it -> Forall (wfP d) r.1 -> parses 0 (fun r => Forall (wfP d) r.1 /\ NoDup (codes r.1)) (dupCheck r) it.
Proof.
  intros Hit Hr. unfold dupCheck. destruct (adjacentDup (getSortedFields true r.1)) eqn:E; [by apply parses_error|].
  apply parses_ret; [done|]. split; [done|]. apply dupCheck_NoDup; [|done]. eapply Forall_impl; [exact Hr|]. intros b. apply wf_inc.
Qed.

(** One round of the loop over fields or elements, after the identifier. *)
Lemma parses_member {B} n d fn (Q : B -> Prop) (var : Get STBase) (k : STBase -> Get B) it :
  parses 0 (templated d fn) var it ->
  (forall b it', moved 0 it it' -> wfP d b /\ (fieldType fn = STI_OBJECT -> getSType b = STI_OBJECT) -> parses n Q (k b) it') ->
  parses n Q (b <- var;; b <- glift (applyTemplateFromSField fn b);; k b) it.
Proof.
  intros Hv Hk. eapply (parses_bind 0 n); [exact Hv| |lia]. intros b it1 M1 Hb. unfold templated in Hb.
  destruct (applyTemplateFromSField fn b) as [b'| | | | |]; try (apply parses_error; [apply M1|done]).
  by apply Hk.
Qed.

Definition LoopsOk (fuel : nat) : Prop :=
  (forall d c prev v it, iterOk it -> (2 * remain_ it + 2 <= fuel)%nat -> Forall (wfP (d + 1)) v ->
     parses 0 (fun r => Forall (wfP (d + 1)) r.1) (fieldsLoop fuel d c prev v) it) /\
  (forall d fn it, iterOk it -> (2 * remain_ it + 3 <= fuel)%nat -> known fn -> notMarker fn ->
     parses 0 (templated d fn) (varReader fuel fn d) it) /\
  (forall d v it, iterOk it -> (2 * remain_ it + 2 <= fuel)%nat -> Forall (wfP (d + 1)) v ->
     Forall (fun b => getSType b = STI_OBJECT) v ->
     parses 0 (fun w => Forall (wfP (d + 1)) w /\ Forall (fun b => getSType b = STI_OBJECT) w) (arrayLoop fuel d v) it).

Lemma moved_step n it it' fuel : moved n it it' -> (2 * remain_ it + 2 <= S fuel)%nat -> (1 <= n)%nat ->
  iterOk it' /\ (2 * remain_ it' + 3 <= fuel)%nat.
Proof. intros (H1 & _ & H2) Hf Hn. split; [done|lia]. Qed.

Definition fieldRound (fuel : nat) (d : Z) (c : bool) (prev : option Z) (v : list STBase) : Get (list STBase * bool) :=
  id <- getFieldID;;
  let '(type, field) := id in
  if (type =? STI_OBJECT) && (field =? 1) then gret (v, true)
  else if (type =? STI_ARRAY) && (field =? 1) then glift RuntimeError
  else
    let fn := getField (fieldCode type field) in
    if isInvalid fn then glift RuntimeError
    else if c && match prev with Some p => fieldCodeMem fn <=? p | None => false end
    then glift RuntimeError
    else
      b <- varReader fuel fn (d + 1);;
      b <- glift (applyTemplateFromSField fn b);;
      fieldsLoop fuel d c (Some (fieldCodeMem fn)) (v ++ [b]).

Lemma setFields_S fuel d c prev v it :
  fieldsLoop (S fuel) d c prev v it = if empty it then gret (v, false) it else fieldRound fuel d c prev v it.
Proof. done. Qed.

Definition elementRound (fuel : nat) (d : Z) (v : list STBase) : Get (list STBase) :=
  id <- getFieldID;;
  let '(type, field) := id in
  if (type =? STI_ARRAY) && (field =? 1) then gret v
  else if (type =? STI_OBJECT) && (field =? 1) then glift RuntimeError
  else
    let fn := getField (fieldCode type field) in
    if isInvalid fn then glift RuntimeError
    else if negb (fieldType fn =? STI_OBJECT) then glift RuntimeError
    else
      b <- varReader fuel fn (d + 1);;
      b <- glift (applyTemplateFromSField fn b);;
      arrayLoop fuel d (v ++ [b]).

Lemma getArray_S fuel d v it :
  arrayLoop (S fuel) d v it = if empty it then gret v it else elementRound fuel d v it.
Proof. done. Qed.

Lemma marker_free type field fn :
  fieldType fn = type -> fieldValue fn = field -> (type =? STI_OBJECT) && (field =? 1) = false ->
  (type =? STI_ARRAY) && (field =? 1) = false -> notMarker fn.
Proof.
  intros <- <- H1 H2 Ht E. rewrite E in *. destruct Ht as [Ht|Ht]; rewrite Ht in *; done.
Qed.

Lemma fields_round fuel d c prev v it :
  LoopsOk fuel -> iterOk it -> (2 * remain_ it + 2 <= S fuel)%nat -> Forall (wfP (d + 1)) v ->
  parses 0 (fun r => Forall (wfP (d + 1)) r.1) (fieldsLoop (S fuel) d c prev v) it.
Proof.
  intros (IHf & IHv & _) Hit Hf Hv. unfold parses. rewrite setFields_S. destruct (empty it); [split; [by apply moved_refl|done]|].
  change (parses 0 (fun r => Forall (wfP (d + 1)) r.1) (fieldRound fuel d c prev v) it). unfold fieldRound.
  eapply (parses_bind 1 0); [by apply parses_fieldID| |lia]. intros [type field] it1 M1 Hid. cbn [fst snd] in Hid.
  destruct (moved_step _ _ _ _ M1 Hf ltac:(lia)) as [Hit1 Hf1].
  destruct ((type =? STI_OBJECT) && (field =? 1)) eqn:E1; [by apply parses_ret|].
  destruct ((type =? STI_ARRAY) && (field =? 1)) eqn:E2; [by apply parses_error|]. cbv zeta.
  destruct (isInvalid (getField (fieldCode type field))) eqn:Hi; [by apply parses_error|].
  destruct (getField_known type field Hid Hi) as (Hk & Et & En). destruct (c && _); [by apply parses_error|].
  eapply parses_member; [apply (IHv (d + 1)); [done|lia|done|by apply (marker_free type field)]|].
  intros b it2 M2 [Hb _]. apply IHf; [apply M2|destruct M2 as (_ & _ & ?); lia|]. apply Forall_app. by repeat constructor.
Qed.

Lemma array_round fuel d v it :
  LoopsOk fuel -> iterOk it -> (2 * remain_ it + 2 <= S fuel)%nat -> Forall (wfP (d + 1)) v ->
  Forall (fun b => getSType b = STI_OBJECT) v ->
  parses 0 (fun w => Forall (wfP (d + 1)) w /\ Forall (fun b => getSType b = STI_OBJECT) w) (arrayLoop (S fuel) d v) it.
Proof.
  intros (_ & IHv & IHa) Hit Hf Hv Ho. unfold parses. rewrite getArray_S. destruct (empty it); [split; [by apply moved_refl|done]|].
  change (parses 0 (fun w => Forall (wfP (d + 1)) w /\ Forall (fun b => getSType b = STI_OBJECT) w) (elementRound fuel d v) it).
  unfold elementRound.
  eapply (parses_bind 1 0); [by apply parses_fieldID| |lia]. intros [type field] it1 M1 Hid. cbn [fst snd] in Hid.
  destruct (moved_step _ _ _ _ M1 Hf ltac:(lia)) as [Hit1 Hf1].
  destruct ((type =? STI_ARRAY) && (field =? 1)) eqn:E2; [by apply parses_ret|].
  destruct ((type =? STI_OBJECT) && (field =? 1)) eqn:E1; [by apply parses_error|]. cbv zeta.
  destruct (isInvalid (getField (fieldCode type field))) eqn:Hi; [by apply parses_error|].
  destruct (getField_known type field Hid Hi) as (Hk & Et & En).
  destruct (Z.eqb_spec (fieldType (getField (fieldCode type field))) STI_OBJECT) as [Eo|_]; cbn [negb]; [|by apply parses_error].
  eapply parses_member; [apply (IHv (d + 1)); [done|lia|done|by apply (marker_free type field)]|].
  intros b it2 M2 [Hb Hob]. specialize (Hob Eo). apply IHa; [apply M2|destruct M2 as (_ & _ & ?); lia| |]; apply Forall_app; by repeat constructor.
Qed.

Lemma var_round fuel d fn it :
  LoopsOk fuel -> iterOk it -> (2 * remain_ it + 3 <= S fuel)%nat -> known fn -> notMarker fn ->
  parses 0 (templated d fn) (varReader (S fuel) fn d) it.
Proof.
  intros (IHf & _ & IHa) Hit Hf Hk Hm. rewrite getVar_S. destruct (Z.ltb_spec 10 d) as [? |Hd]; [by apply parses_error|].
  destruct (Z.eqb_spec (fieldType fn) STI_OBJECT) as [Eo|Hno].
  { eapply (parses_bind 0 0); [apply (IHf d false None []); [done|lia|constructor]| |lia]. intros r it1 M1 Hr.
    eapply (parses_bind 0 0); [apply parses_dupCheck; [apply M1|exact Hr]| |lia]. intros r' it2 M2 [Hr' Hn].
    apply parses_ret; [apply M2|]. apply templated_object; try done. split_and!; try done. by apply Hm; left. }
  destruct (Z.eqb_spec (fieldType fn) STI_ARRAY) as [Ea|Hna].
  { eapply parses_then; [apply (IHa d []); [done|lia|constructor|constructor]|]. intros w [Hw Ho].
    split; [|done]. apply wf_array; try done. split_and!; try done. by apply Hm; right. }
  eapply parses_map; [by apply parses_leaf|lia|]. intros v [Et Hv]. split; [by apply wf_leaf|done].
Qed.

Lemma parse_loops fuel : LoopsOk fuel.
Proof.
  induction fuel as [|fuel IH]; [split_and!; intros; lia|]. split_and!; intros.
  - by apply fields_round.
  - by apply var_round.
  - by apply array_round.
Qed.

(** The constructor of an object with a template. *)
Lemma parses_makeObject t c it :
  iterOk it -> tableTemplate t ->
  parses 0 (fun v => fits t v /\ Forall (fun b => isPresent b = true -> wfP 1 b) v) (makeObject mode Large330 t c) it.
Proof.
  intros Hit Ht. unfold makeObject.
  eapply (parses_bind 0 0 _ (fun r => Forall (wfP 1) r.1 /\ NoDup (codes r.1))); [| |lia].
  - unfold parses, setObject. change (parses 0 (fun r => Forall (wfP 1) r.1 /\ NoDup (codes r.1))
      (r <- fieldsLoop (parseFuel it) 0 c None [];; dupCheck r) it).
    destruct (parse_loops (parseFuel it)) as (Hf & _). eapply (parses_bind 0 0); [apply (Hf 0); [done|unfold parseFuel; lia|constructor]| |lia].
    intros r it1 M1 Hr. by apply parses_dupCheck; [apply M1|].
  - intros r it1 M1 [Hr _]. pose proof (applyTemplate_sound (wfP 1) t r.1 Ht Hr (wfP_members _ _ Hr)) as H.
    apply parses_lift; [apply M1|by intros E; rewrite E in H|]. intros w E. by rewrite E in H.
Qed.
End Parser.

(** ** Objects read, written again *)

Fixpoint leavesAll (r : Leaf -> bool) (b : STBase) : bool :=
  match b with
  | STNotPresent _ => true
  | STLeaf _ v => r v
  | STObj _ _ v | STArr _ v => forallb (leavesAll r) v
  end.

(** The two kinds of value the parser returns that do not read back from their bytes: path
    elements with nothing in them, and numbers of the largest exponent. *)
Definition regularLeaf (v : Leaf) : bool :=
  match v with
  | LNumber x => numEq x kZero || (exponent_ x <? kMaxExponent)
  | LPathSet l => forallb (forallb (fun e => negb (pe_type e =? TypeNone))) l
  | _ => true
  end.

Lemma regular_wire v : parsedLeaf v -> regularLeaf v = true -> wireLeaf v.
Proof.
  destruct v; try done; cbn [parsedLeaf regularLeaf wireLeaf].
  - intros Hx Hr. split; [done|]. apply orb_true_iff in Hr as [Hz|He%Z.ltb_lt]; [left|by right].
    destruct x as [n m e]. unfold numEq in Hz. cbn in Hz. rewrite !andb_true_iff, !Z.eqb_eq in Hz. destruct Hz as [[Hn ->] ->]. by destruct n.
  - intros [Hl Hne] Hr. split; [|done]. rewrite forallb_forall in Hr. rewrite Forall_forall in *. intros p Hp. destruct (Hl p Hp) as [Hp0 He].
    split; [done|]. apply list_elem_of_In in Hp. specialize (Hr p Hp). rewrite forallb_forall in Hr. rewrite Forall_forall in *.
    intros e Hin. apply made_wire; [by apply He|]. apply list_elem_of_In in Hin. specialize (Hr e Hin). apply negb_true_iff, Z.eqb_neq in Hr. done.
Qed.

Lemma wf_mono (L L' : Leaf -> Prop) (r : Leaf -> bool) :
  (forall v, L v -> r v = true -> L' v) -> forall b d, wfWith L d b -> leavesAll r b = true -> wfWith L' d b.
Proof.
  intros HL b. induction b as [f|f v|f t v IH|f v IH] using STBase_induction; intros d Hb Hr; inversion Hb; subst; cbn [leavesAll] in Hr;
    try (rewrite forallb_forall in Hr; assert (forall c, c ∈ v -> leavesAll r c = true) as Hr' by (intros c Hc; by apply Hr, list_elem_of_In));
    rewrite ?Forall_forall in *.
  - apply wf_leaf; auto.
  - apply wf_free; auto. apply Forall_forall. auto.
  - apply wf_templated; auto. apply Forall_forall. auto.
  - apply wf_array; auto; apply Forall_forall; auto.
Qed.

(** C8: Any object the constructors and setters can produce within the limits of the format makes
    the trip: writing it succeeds, parsing the bytes with its template (also when canonical
    order is required) returns the object, with the fields of free inner objects sorted, and
    uses all the bytes, and the object read is written as the same bytes. *)
Theorem object_roundtrip (mode : RoundingMode) (t : SOTemplate) (canonicalOrder : bool) (v : list STBase)
    (Hv : Forall (fun b => isPresent b = true -> wfBase 1 b) v) (Hf : fits t v) (Ht : NoDup (templateCodes t)) :
  exists bytes it', addObject true v [] = Ret bytes /\
    makeObject mode Large330 t canonicalOrder (newIter bytes) = (Ret (List.map settle v), it') /\ empty it' = true /\
    addObject true (List.map settle v) [] = Ret bytes.
Proof.
  exists (fieldsBytes v). eexists. split; [by apply whole_written|]. split; [by apply whole_read|]. split.
  { unfold empty. cbn. by rewrite Nat.sub_diag. }
  rewrite <-(settled_fields v).
  - apply (whole_written (List.map settle v)). apply Forall_forall. intros b Hb Hp.
    apply list_elem_of_In, in_map_iff in Hb as (c & <- & Hc%list_elem_of_In). rewrite settle_present in Hp. rewrite Forall_forall in Hv.
    by apply settle_wf, Hv.
  - eapply Forall_impl; [exact Hv|]. intros b Hb Hp. apply (settle_bytes b 1). by apply Hb.
Qed.

(** C9: The parser of objects on any input: it returns or throws and never reads outside the
    buffer; what it returns has the slots of the template, with values of the types of their
    fields, no field twice and nesting of at most ten; and if no value is one of the two
    exceptional kinds, the object is written and read back. *)
Theorem parser_sound (mode : RoundingMode) (t : SOTemplate) (canonicalOrder : bool) (data : list Z)
    (Hd : isDigits 256 data) (Htab : tableTemplate t) (Ht : NoDup (templateCodes t)) :
  match makeObject mode Large330 t canonicalOrder (newIter data) with
  | (Ret v, _) =>
    fits t v /\ Forall (fun b => isPresent b = true -> wfWith parsedLeaf 1 b) v /\
    (forallb (leavesAll regularLeaf) v = true ->
     exists bytes it', addObject true v [] = Ret bytes /\
       makeObject mode Large330 t true (newIter bytes) = (Ret (List.map settle v), it'))
  | (Wild, _) => False
  | _ => True
  end.
Proof.
  pose proof (parses_makeObject mode t canonicalOrder (newIter data) (iterOk_new data Hd) Htab) as H. unfold parses in H.
  destruct (makeObject mode Large330 t canonicalOrder (newIter data)) as [[v| | | | |] it']; try done.
  destruct H as [_ [Hf Hv]]. split; [done|]. split; [done|]. intros Hr. exists (fieldsBytes v). eexists.
  assert (Forall (fun b => isPresent b = true -> wfBase 1 b) v) as Hw.
  { rewrite forallb_forall in Hr. rewrite Forall_forall in *. intros b Hb Hp.
    apply (wf_mono parsedLeaf wireLeaf regularLeaf regular_wire); [by apply Hv|]. by apply Hr, list_elem_of_In. }
  split; [by apply whole_written|by apply whole_read].
Qed.

(** ** The formats *)

Lemma defaultVar_slot f b : defaultVar f = Ret b -> getFName b = f /\ isPresent b = true.
Proof.
  unfold defaultVar. destruct (fieldType f =? STI_OBJECT); [by intros [= <-]|]. destruct (fieldType f =? STI_ARRAY); [by intros [= <-]|].
  destruct (defaultLeaf (fieldType f)); [by intros [= <-]|done].
Qed.

Definition constructible (f : SField) : bool := match defaultVar f with Ret _ => true | _ => false end.

Lemma setTemplate_fits t :
  forallb (fun e => constructible (el_sField e)) t = true -> exists v, setTemplate t = Ret v /\ fits t v.
Proof.
  induction t as [|e t IH]; cbn [forallb setTemplate]; [by exists []; split; [|constructor]|].
  intros [He Ht]%andb_true_iff. destruct (IH Ht) as (v & -> & Hv).
  destruct (bool_decide_reflect (el_style e = SoeRequired)) as [Er|Hn].
  - unfold constructible in He. destruct (defaultVar (el_sField e)) as [b| | | | |] eqn:Eb; try done.
    destruct (defaultVar_slot _ _ Eb) as [En Ep]. exists (b :: v). split; [done|]. constructor; [|done].
    split; [done|]. split; [by rewrite Ep|]. by rewrite Er.
  - exists (STNotPresent (el_sField e) :: v). split; [done|]. by constructor.
Qed.

Definition formatOk (x : Z * SOTemplate) : bool :=
  forallb (fun e => bool_decide (getField (fieldCodeMem (el_sField e)) = el_sField e) && constructible (el_sField e)) x.2.

Lemma formats_ok : forallb formatOk (LedgerFormats ++ TxFormats ++ InnerObjectFormats) = true.
Proof. vm_compute. reflexivity. Qed.

Lemma ledger_formats : addFormats ledgerCommonFields [] ledgerFormats = Ret LedgerFormats.
Proof. vm_compute. reflexivity. Qed.

Lemma tx_formats : addFormats txCommonFields [] txFormats = Ret TxFormats.
Proof. vm_compute. reflexivity. Qed.

(** The formats of ledger entries, of transactions and of inner objects are built without an
    error (no type and no field of a template twice); the fields of every template are fields
    of the table, none twice; and a new object can be made with each, which has its slots. *)
Theorem formats_sound :
  addFormats ledgerCommonFields [] ledgerFormats = Ret LedgerFormats /\
  addFormats txCommonFields [] txFormats = Ret TxFormats /\
  addFormats [] [] innerFormats = Ret InnerObjectFormats /\
  forall x, x ∈ LedgerFormats ++ TxFormats ++ InnerObjectFormats ->
    NoDup (templateCodes x.2) /\ tableTemplate x.2 /\ exists v, setTemplate x.2 = Ret v /\ fits x.2 v.
Proof.
  split; [apply ledger_formats|]. split; [apply tx_formats|]. split; [apply inner_formats|]. intros x Hx.
  split.
  { assert (forall l k kn, addFormats l [] k = Ret kn -> x ∈ kn -> NoDup (templateCodes x.2)) as Hn.
    { intros l k kn E Hin. pose proof (addFormats_NoDup l k [] kn E ltac:(constructor)) as H. rewrite Forall_forall in H. by apply H. }
    apply elem_of_app in Hx as [Hx|[Hx|Hx]%elem_of_app]; [by apply (Hn _ _ _ ledger_formats)|by apply (Hn _ _ _ tx_formats)|by apply (Hn _ _ _ inner_formats)]. }
  assert (formatOk x = true) as Hok by (pose proof formats_ok as H; rewrite forallb_forall in H; by apply H, list_elem_of_In).
  unfold formatOk in Hok. rewrite forallb_forall in Hok. split.
  - apply Forall_forall. intros e He%list_elem_of_In. specialize (Hok e He). apply andb_true_iff in Hok as [Hok _]. by apply (bool_decide_eq_true_1 _).
  - apply setTemplate_fits. rewrite forallb_forall. intros e He. specialize (Hok e He). by apply andb_true_iff in Hok as [_ ?].
Qed.

(** *** Witnesses *)

Definition sampleTemplate : SOTemplate := [soe sfFlags SoeRequired; soe sfAmount SoeOptional; soe sfMemos SoeOptional].

(** A memo whose fields are not in the order of their codes. *)
Definition sampleObject : list STBase :=
  [STLeaf sfFlags (LUInt32 7); STNotPresent sfAmount;
   STArr sfMemos [STObj sfMemo None [STLeaf sfMemoData (LBlob [9]); STLeaf sfMemoType (LBlob [1; 2])]]].

Lemma known_check f :
  (0 <? fieldType f) && (fieldType f <? 256) && (0 <? fieldValue f) && (fieldValue f <? 256) &&
  bool_decide (getField (fieldCode (fieldType f) (fieldValue f)) = f) && negb (isInvalid f) &&
  (fieldCodeMem f =? fieldCode (fieldType f) (fieldValue f)) = true -> known f.
Proof.
  rewrite !andb_true_iff, !Z.ltb_lt, Z.eqb_eq, negb_true_iff, bool_decide_eq_true. intros [[[[[[? ?] ?] ?] ?] ?] ?].
  unfold known, validField. by split_and!.
Qed.

Lemma sampleObject_wf : Forall (fun b => isPresent b = true -> wfBase 1 b) sampleObject.
Proof.
  repeat apply Forall_cons_2; [intros _| |intros _; apply wf_array; [lia|..]|constructor].
  - apply wf_leaf; [lia|apply known_check; vm_compute; reflexivity|done|cbn; lia].
  - done.
  - split; [apply known_check; vm_compute; reflexivity|by split].
  - apply Forall_singleton, wf_free; [lia|split; [apply known_check; vm_compute; reflexivity|by split]|vm_compute; reflexivity| |].
    + repeat apply Forall_cons_2; [| |constructor]; (apply wf_leaf; [lia|apply known_check; vm_compute; reflexivity|done|]);
        (split; [apply (bool_decide_eq_true_1 _); vm_compute; reflexivity|constants; cbn; lia]).
    + apply (bool_decide_eq_true_1 _). vm_compute. reflexivity.
  - by apply Forall_singleton.
Qed.

Lemma sampleObject_fits : fits sampleTemplate sampleObject.
Proof. by repeat constructor. Qed.

Lemma object_roundtrip_witness :
  exists bytes it', addObject true sampleObject [] = Ret bytes /\
    makeObject ToNearest Large330 sampleTemplate true (newIter bytes) = (Ret (List.map settle sampleObject), it') /\
    empty it' = true /\ addObject true (List.map settle sampleObject) [] = Ret bytes.
Proof.
  assert (NoDup (templateCodes sampleTemplate)) as Ht by (apply (bool_decide_eq_true_1 _); vm_compute; reflexivity).
  exact (object_roundtrip ToNearest sampleTemplate true sampleObject sampleObject_wf sampleObject_fits Ht).
Defined.

(** Flags 7, with the four bytes of the value. *)
Lemma parser_sound_witness :
  exists v, (makeObject ToNearest Large330 sampleTemplate true (newIter [0x22; 0; 0; 0; 7])).1 = Ret v /\ fits sampleTemplate v.
Proof.
  assert (isDigits 256 [0x22; 0; 0; 0; 7]) as Hd by (apply (bool_decide_eq_true_1 _); vm_compute; reflexivity).
  assert (NoDup (templateCodes sampleTemplate)) as Ht by (apply (bool_decide_eq_true_1 _); vm_compute; reflexivity).
  assert (tableTemplate sampleTemplate) as Htab by (apply (bool_decide_eq_true_1 _); vm_compute; reflexivity).
  pose proof (parser_sound ToNearest sampleTemplate true [0x22; 0; 0; 0; 7] Hd Htab Ht) as H.
  destruct (makeObject ToNearest Large330 sampleTemplate true (newIter [0x22; 0; 0; 0; 7])) as [[v| | | | |] it'] eqn:E;
    try (vm_compute in E; discriminate E).
  exists v. split; [reflexivity|exact (proj1 H)].
Defined.
