(* ===== verification/STAccess.v ===== *)
(** * Fields of objects, and ledger entries

    The accessors of [STObject] (include/xrpl/protocol/STObject.h and
    src/libxrpl/protocol/STObject.cpp), its proxies, and [STLedgerEntry]
    (src/libxrpl/protocol/STLedgerEntry.cpp).

    A pointer to a slot is its index; using one outside the slots, and using a null pointer,
    is [Wild].  The value of a field is the value of the slot; the default value of a type is
    the value of its default object. *)
From S2P Require Import Prelude Serializer SField Formats Number Amounts STTypes STObject.

Record STObject := mkObject { type_ : option SOTemplate; v_ : list STBase }.

Definition isFree (o : STObject) : bool := match type_ o with None => true | Some _ => false end.

Definition withFields (o : STObject) (v : list STBase) : STObject := mkObject (type_ o) v.

Fixpoint slotIndex (f : SField) (v : list STBase) : option nat :=
  match v with
  | [] => None
  | b :: v => if fieldEq (getFName b) f then Some 0%nat else S <$> slotIndex f v
  end.

(** [getFieldIndex]; [None] is -1. *)
Definition getFieldIndex (o : STObject) (f : SField) : option nat :=
  match type_ o with Some t => getIndex t f | None => slotIndex f (v_ o) end.

Definition slotAt (o : STObject) (i : nat) : Outcome STBase :=
  match v_ o !! i with Some b => Ret b | None => Wild end.

(** [peekAtPField]; [None] is the null pointer. *)
Definition peekAtPField (o : STObject) (f : SField) : Outcome (option STBase) :=
  match getFieldIndex o f with
  | None => Ret None
  | Some i => let? b := slotAt o i in Ret (Some b)
  end.

Definition emplaceBack (o : STObject) (b : STBase) : STObject * nat := (withFields o (v_ o ++ [b]), length (v_ o)).

(** [getPField] *)
Definition getPField (o : STObject) (f : SField) (createOkay : bool) : Outcome (STObject * option nat) :=
  match getFieldIndex o f with
  | Some i => Ret (o, Some i)
  | None =>
    if createOkay && isFree o then let? b := defaultVar f in let '(o, i) := emplaceBack o b in Ret (o, Some i)
    else Ret (o, None)
  end.

Definition isFieldPresent (o : STObject) (f : SField) : Outcome bool :=
  let? b := peekAtPField o f in
  Ret match b with Some b => isPresent b | None => false end.

Definition setSlot (o : STObject) (i : nat) (b : STBase) : STObject := withFields o (<[i := b]> (v_ o)).

(** [makeFieldPresent]; on a free object without the field the new slot is an absent one. *)
Definition makeFieldPresent (o : STObject) (f : SField) : Outcome (STObject * nat) :=
  match getFieldIndex o f with
  | None => if negb (isFree o) then RuntimeError else Ret (emplaceBack o (STNotPresent f))
  | Some i =>
    let? b := slotAt o i in
    if isPresent b then Ret (o, i)
    else let? d := defaultVar (getFName b) in Ret (setSlot o i d, i)
  end.

Definition makeFieldAbsent (o : STObject) (f : SField) : Outcome STObject :=
  match getFieldIndex o f with
  | None => RuntimeError
  | Some i =>
    let? b := slotAt o i in
    if isPresent b then Ret (setSlot o i (STNotPresent (getFName b))) else Ret o
  end.

Definition delField (o : STObject) (f : SField) : bool * STObject :=
  match getFieldIndex o f with
  | None => (false, o)
  | Some i => (true, withFields o (delete i (v_ o)))
  end.

Definition getStyle (o : STObject) (f : SField) : Outcome SOEStyle :=
  match type_ o with Some t => style t f | None => Ret SoeInvalid end.

(** [dynamic_cast] to the class of a type *)
Definition castLeaf (type : Z) (b : STBase) : option Leaf :=
  match b with STLeaf _ v => if leafSType v =? type then Some v else None | _ => None end.

Definition emptyLeaf (type : Z) : Outcome Leaf := match defaultLeaf type with Some v => Ret v | None => RuntimeError end.

(** [getFieldByValue] and [getFieldByConstRef], for the class of a type *)
Definition getFieldLeaf (type : Z) (o : STObject) (f : SField) : Outcome Leaf :=
  let? b := peekAtPField o f in
  match b with
  | None => RuntimeError
  | Some b =>
    if negb (isPresent b) then emptyLeaf type
    else match castLeaf type b with Some v => Ret v | None => RuntimeError end
  end.

(** [setFieldUsingSetValue] and [setFieldUsingAssignment], for the class of the value *)
Definition setFieldLeaf (o : STObject) (f : SField) (v : Leaf) : Outcome STObject :=
  let? (o, i) := getPField o f true in
  match i with
  | None => RuntimeError
  | Some i =>
    let? b := slotAt o i in
    let? (o, i) := if isPresent b then Ret (o, i) else makeFieldPresent o f in
    let? b := slotAt o i in
    match castLeaf (leafSType v) b with
    | Some _ => Ret (setSlot o i (STLeaf (getFName b) v))
    | None => RuntimeError
    end
  end.

(** [set(STBase)] *)
Definition setBase (o : STObject) (b : STBase) : Outcome STObject :=
  match getFieldIndex o (getFName b) with
  | Some i => match v_ o !! i with Some _ => Ret (setSlot o i b) | None => Wild end
  | None => if negb (isFree o) then RuntimeError else Ret (withFields o (v_ o ++ [b]))
  end.

(** ** Flags *)

Definition getFlags (o : STObject) : Outcome Z :=
  let? b := peekAtPField o sfFlags in
  Ret match b with Some (STLeaf _ (LUInt32 v)) => v | _ => 0 end.

Definition isFlag (o : STObject) (f : Z) : Outcome bool := let? v := getFlags o in Ret (Z.land v f =? f).

Definition updateFlags (o : STObject) (i : option nat) (g : Z -> Z) : Outcome (bool * STObject) :=
  match i with
  | None => Ret (false, o)
  | Some i =>
    let? b := slotAt o i in
    match b with STLeaf f (LUInt32 v) => Ret (true, setSlot o i (STLeaf f (LUInt32 (g v)))) | _ => Ret (false, o) end
  end.

Definition setFlag (o : STObject) (f : Z) : Outcome (bool * STObject) :=
  let? (o, i) := getPField o sfFlags true in updateFlags o i (fun v => Z.lor v f).

Definition clearFlag (o : STObject) (f : Z) : Outcome (bool * STObject) :=
  let? (o, i) := getPField o sfFlags false in updateFlags o i (fun v => Z.land v (u32 (Z.lnot f))).

(** ** Proxies

    A proxy holds the object, the field and the style of the field in the template. *)

(** [u == value_type{}], the comparison of the values.  The default amount is no XRP, and a
    negative zero is not equal to it. *)
Definition valueIsDefault (v : Leaf) : bool :=
  match v with
  | LAccount _ id => id =? 0
  | LAmount a => amtEq a (mkAmount (AIssue xrpIssue) 0 0 false)
  | _ => leafIsDefault v
  end.

(** The constructor of [Proxy] *)
Definition proxyStyle (o : STObject) (f : SField) : Outcome SOEStyle :=
  match type_ o with
  | Some t =>
    let? b := peekAtPField o f in
    match b with None => RuntimeError | Some _ => style t f end
  | None => Ret SoeInvalid
  end.

Definition proxyFind (type : Z) (o : STObject) (f : SField) : Outcome (option Leaf) :=
  let? b := peekAtPField o f in
  Ret match b with Some b => castLeaf type b | None => None end.

(** [Proxy::value] *)
Definition proxyValue (type : Z) (o : STObject) (f : SField) : Outcome Leaf :=
  let? s := proxyStyle o f in
  let? t := proxyFind type o f in
  match t with
  | Some v => Ret v
  | None => if bool_decide (s = SoeDefault) then emptyLeaf type else RuntimeError
  end.

(** [Proxy::assign] *)
Definition proxyAssign (o : STObject) (f : SField) (v : Leaf) : Outcome STObject :=
  let? s := proxyStyle o f in
  if bool_decide (s = SoeDefault) && valueIsDefault v then makeFieldAbsent o f
  else
    let? (o, i) :=
      if bool_decide (s = SoeInvalid) then getPField o f true
      else let? (o, i) := makeFieldPresent o f in Ret (o, Some i) in
    match i with
    | None => Wild
    | Some i =>
      let? b := slotAt o i in
      match castLeaf (leafSType v) b with
      | Some _ => Ret (setSlot o i (STLeaf (getFName b) v))
      | None => Wild
      end
    end.

(** [OptionalProxy::engaged] *)
Definition proxyEngaged (type : Z) (o : STObject) (f : SField) : Outcome bool :=
  let? s := proxyStyle o f in
  let? t := proxyFind type o f in
  Ret (bool_decide (s = SoeDefault) || match t with Some _ => true | None => false end).

(** [OptionalProxy::disengage] *)
Definition proxyDisengage (o : STObject) (f : SField) : Outcome STObject :=
  let? s := proxyStyle o f in
  if bool_decide (s = SoeRequired) || bool_decide (s = SoeDefault) then RuntimeError
  else if bool_decide (s = SoeInvalid) then Ret (delField o f).2
  else makeFieldAbsent o f.

Definition proxyOptional (type : Z) (o : STObject) (f : SField) : Outcome (option Leaf) :=
  let? e := proxyEngaged type o f in
  if e then let? v := proxyValue type o f in Ret (Some v) else Ret None.

(** The assignments of [OptionalProxy] *)
Definition proxyAssignOptional (o : STObject) (f : SField) (v : option Leaf) : Outcome STObject :=
  match v with Some v => proxyAssign o f v | None => proxyDisengage o f end.

(** ** Ledger entries *)

Record STLedgerEntry := mkSLE { key_ : Z; sleType : Z; sleObject : STObject }.

Definition withObject (e : STLedgerEntry) (o : STObject) : STLedgerEntry := mkSLE (key_ e) (sleType e) o.

(** [STLedgerEntry(Keylet)] *)
Definition newSLE (key type : Z) : Outcome STLedgerEntry :=
  match findByType LedgerFormats type with
  | None => RuntimeError
  | Some t =>
    let? v := setTemplate t in
    let? o := setFieldLeaf (mkObject (Some t) v) sfLedgerEntryType (LUInt16 type) in
    Ret (mkSLE key type o)
  end.

Definition getFieldU16 (o : STObject) (f : SField) : Outcome Z :=
  let? v := getFieldLeaf STI_UINT16 o f in Ret match v with LUInt16 x => x | _ => 0 end.
Definition getFieldU32 (o : STObject) (f : SField) : Outcome Z :=
  let? v := getFieldLeaf STI_UINT32 o f in Ret match v with LUInt32 x => x | _ => 0 end.
Definition getFieldU64 (o : STObject) (f : SField) : Outcome Z :=
  let? v := getFieldLeaf STI_UINT64 o f in Ret match v with LUInt64 x => x | _ => 0 end.
Definition getFieldH256 (o : STObject) (f : SField) : Outcome Z :=
  let? v := getFieldLeaf STI_UINT256 o f in Ret match v with LUInt256 x => x | _ => 0 end.
Definition getFieldV256 (o : STObject) (f : SField) : Outcome (list Z) :=
  let? v := getFieldLeaf STI_VECTOR256 o f in Ret match v with LVector256 x => x | _ => [] end.

(** [setSLEType], for the fields of an object of any shape *)
Definition setSLEType (key : Z) (o : STObject) : Outcome STLedgerEntry :=
  let? t := getFieldU16 o sfLedgerEntryType in
  match findByType LedgerFormats t with
  | None => RuntimeError
  | Some tmpl => let? v := applyTemplate tmpl (v_ o) in Ret (mkSLE key t (mkObject (Some tmpl) v))
  end.

(** [STLedgerEntry(SerialIter, index)] *)
Definition parseSLE (mode : RoundingMode) (scale : MantissaScale) (key : Z) : Get STLedgerEntry :=
  r <- setObject mode scale false;;
  glift (setSLEType key (mkObject None r.1)).

Definition isThreadedType (fixPreviousTxnID : bool) (e : STLedgerEntry) : bool :=
  let excludePrevTxnID :=
    negb fixPreviousTxnID &&
    existsb (Z.eqb (sleType e)) [ltDIR_NODE; ltAMENDMENTS; ltFEE_SETTINGS; ltNEGATIVE_UNL; ltAMM] in
  negb excludePrevTxnID && match getFieldIndex (sleObject e) sfPreviousTxnID with Some _ => true | None => false end.

(** [thread]: the new entry with the previous transaction and ledger, or [None] when the
    transaction is threaded already. *)
Definition thread (e : STLedgerEntry) (txID ledgerSeq : Z) : Outcome (option (STLedgerEntry * (Z * Z))) :=
  let? old := getFieldH256 (sleObject e) sfPreviousTxnID in
  if old =? txID then Ret None
  else
    let? prevLedgerID := getFieldU32 (sleObject e) sfPreviousTxnLgrSeq in
    let? o := setFieldLeaf (sleObject e) sfPreviousTxnID (LUInt256 txID) in
    let? o := setFieldLeaf o sfPreviousTxnLgrSeq (LUInt32 ledgerSeq) in
    Ret (Some (withObject e o, (old, prevLedgerID))).
