(* ===== verification/STAccessFacts.v ===== *)
(** * Fields of objects: the properties

    Setting a field and getting it back, what the proxies keep, and the trip of a ledger entry
    through its bytes. *)
From S2P Require Import Prelude Digits Serializer SerializerFacts SerializerSpec SField Formats Number NumberSpec.
From S2P Require Import Amounts STTypes STTypesFacts Parsing STObject STObjectFacts STObjectSpec STAccess.

(** ** Well-formed objects *)

Definition typedSlot (b : STBase) : Prop :=
  match b with
  | STNotPresent _ => True
  | STLeaf f v => leafSType v = fieldType f
  | STObj f _ _ => fieldType f = STI_OBJECT
  | STArr f _ => fieldType f = STI_ARRAY
  end.

Definition tableField (f : SField) : Prop := getField (fieldCodeMem f) = f.

Definition slotOk (b : STBase) : Prop := tableField (getFName b) /\ typedSlot b.

(** No field twice, fields of the table with values of their types, and the slots of the
    template when there is one. *)
Definition wfObject (o : STObject) : Prop :=
  NoDup (codes (v_ o)) /\ match type_ o with Some t => codes (v_ o) = templateCodes t | None => True end /\
  Forall slotOk (v_ o).

Lemma tableField_eq f g : tableField f -> tableField g -> fieldCodeMem f = fieldCodeMem g -> f = g.
Proof. unfold tableField. intros Hf Hg E. by rewrite <-Hf, <-Hg, E. Qed.

Lemma getIndex_codes t f v : codes v = templateCodes t -> getIndex t f = slotIndex f v.
Proof.
  unfold codes, templateCodes. revert t. induction v as [|b v IH]; intros [|e t]; cbn [fmap list_fmap getIndex slotIndex]; try done.
  unfold code at 1. intros [= E Ev]. unfold fieldEq. rewrite E. by rewrite (IH t Ev).
Qed.

Lemma getFieldIndex_slot o f : wfObject o -> getFieldIndex o f = slotIndex f (v_ o).
Proof. intros (_ & Ht & _). unfold getFieldIndex. destruct (type_ o) as [t|]; [|done]. by apply getIndex_codes. Qed.

Lemma slotIndex_spec f v :
  match slotIndex f v with
  | Some i => exists b, v !! i = Some b /\ code b = fieldCodeMem f
  | None => fieldCodeMem f ∉ codes v
  end.
Proof.
  unfold codes. induction v as [|b v IH]; cbn [slotIndex fmap list_fmap]; [apply not_elem_of_nil|].
  unfold fieldEq. fold (code b). destruct (Z.eqb_spec (code b) (fieldCodeMem f)) as [E|Hne]; [by exists b|].
  destruct (slotIndex f v) as [i|]; [done|]. apply not_elem_of_cons. split; [done|]. exact IH.
Qed.

Lemma slotIndex_codes f v w : codes v = codes w -> slotIndex f v = slotIndex f w.
Proof.
  unfold codes. revert w. induction v as [|b v IH]; intros [|c w]; cbn [fmap list_fmap slotIndex]; try done.
  intros [= E Ev]. unfold fieldEq. fold (code b) (code c). by rewrite E, (IH w Ev).
Qed.

Lemma slotIndex_NoDup f v i b : NoDup (codes v) -> v !! i = Some b -> code b = fieldCodeMem f -> slotIndex f v = Some i.
Proof.
  intros Hd Hi Hc. pose proof (slotIndex_spec f v) as H. destruct (slotIndex f v) as [j|].
  - destruct H as (c & Hj & Ec). f_equal. apply (NoDup_lookup (codes v) j i (fieldCodeMem f)); [done|..]; unfold codes; rewrite list_lookup_fmap.
    + by rewrite Hj, <-Ec.
    + by rewrite Hi, <-Hc.
  - exfalso. apply H. rewrite <-Hc. unfold codes. apply list_elem_of_fmap_2. by eapply list_elem_of_lookup_2.
Qed.

(** The slot of a field. *)
Definition slotOf (f : SField) (v : list STBase) : option STBase := i ← slotIndex f v; v !! i.

Lemma peek_slot o f : wfObject o -> peekAtPField o f = Ret (slotOf f (v_ o)).
Proof.
  intros Hw. unfold peekAtPField, slotOf, slotAt. rewrite getFieldIndex_slot by done. pose proof (slotIndex_spec f (v_ o)) as H.
  destruct (slotIndex f (v_ o)) as [i|]; [|done]. destruct H as (b & Hb & _). cbn. by rewrite Hb.
Qed.

Lemma codes_insert v i b c : v !! i = Some b -> code c = code b -> codes (<[i := c]> v) = codes v.
Proof. intros Hi Hc. unfold codes. rewrite list_fmap_insert, Hc. apply list_insert_id. by rewrite list_lookup_fmap, Hi. Qed.

Lemma wfObject_setSlot o i b c :
  wfObject o -> v_ o !! i = Some b -> getFName c = getFName b -> typedSlot c -> wfObject (setSlot o i c).
Proof.
  intros (Hd & Ht & Hs) Hi Hn Hc. assert (code c = code b) as Ec by (unfold code; by rewrite Hn).
  unfold wfObject, setSlot, withFields. cbn [type_ v_]. rewrite (codes_insert _ _ b) by done. split_and!; [done|done|].
  apply Forall_insert; [done|]. rewrite Forall_lookup in Hs. destruct (Hs i b Hi) as [Hf _]. split; [by rewrite Hn|done].
Qed.

Lemma slotOf_insert f g v i b c :
  NoDup (codes v) -> slotIndex f v = Some i -> v !! i = Some b -> code c = code b ->
  slotOf g (<[i := c]> v) = if fieldCodeMem g =? fieldCodeMem f then Some c else slotOf g v.
Proof.
  intros Hd Hf Hi Hc. unfold slotOf. rewrite (slotIndex_codes g _ v) by (by apply codes_insert with b).
  pose proof (slotIndex_spec f v) as Sf. rewrite Hf in Sf. destruct Sf as (b' & Hb' & Ef). rewrite Hi in Hb'. injection Hb' as <-.
  pose proof (slotIndex_spec g v) as Sg. destruct (Z.eqb_spec (fieldCodeMem g) (fieldCodeMem f)) as [E|Hne].
  - assert (slotIndex g v = Some i) as -> by (apply (slotIndex_NoDup g v i b); [done|done|by rewrite E]).
    cbn. apply list_lookup_insert_eq. by eapply lookup_lt_Some.
  - destruct (slotIndex g v) as [j|]; [|done]. cbn. destruct Sg as (d & Hj & Eg). apply list_lookup_insert_ne.
    intros ->. rewrite Hi in Hj. injection Hj as <-. congruence.
Qed.

(** One slot has changed. *)
Definition updated (o o' : STObject) (f : SField) (c : STBase) : Prop :=
  type_ o' = type_ o /\ wfObject o' /\
  forall g, slotOf g (v_ o') = if fieldCodeMem g =? fieldCodeMem f then Some c else slotOf g (v_ o).

Lemma updated_setSlot o i b c f :
  wfObject o -> slotIndex f (v_ o) = Some i -> v_ o !! i = Some b -> getFName c = getFName b -> typedSlot c ->
  updated o (setSlot o i c) f c.
Proof.
  intros Hw Hf Hi Hn Hc. split; [done|]. split; [by eapply wfObject_setSlot|]. intros g.
  apply (slotOf_insert f g _ i b); [apply Hw|done|done|]. unfold code. by rewrite Hn.
Qed.

Lemma slotOf_snoc g v c :
  code c ∉ codes v -> slotOf g (v ++ [c]) = if fieldCodeMem g =? code c then Some c else slotOf g v.
Proof.
  unfold slotOf, codes. induction v as [|b v IH]; cbn [fmap list_fmap slotIndex app]; intros Hc.
  - unfold fieldEq. fold (code c). rewrite Z.eqb_sym. by destruct (fieldCodeMem g =? code c).
  - apply not_elem_of_cons in Hc as [Hcb Hc]. specialize (IH Hc). unfold fieldEq. fold (code b).
    destruct (Z.eqb_spec (code b) (fieldCodeMem g)) as [E|Hne].
    + destruct (Z.eqb_spec (fieldCodeMem g) (code c)); [congruence|done].
    + destruct (slotIndex g (v ++ [c])), (slotIndex g v); cbn in *; done.
Qed.

Lemma updated_snoc o c f :
  wfObject o -> isFree o = true -> slotIndex f (v_ o) = None -> getFName c = f -> tableField f -> typedSlot c ->
  updated o (withFields o (v_ o ++ [c])) f c.
Proof.
  intros (Hd & Ht & Hs) Hfree Hi Hn Hf Hc. pose proof (slotIndex_spec f (v_ o)) as Hnot. rewrite Hi in Hnot.
  assert (code c = fieldCodeMem f) as Ec by (unfold code; by rewrite Hn).
  split; [done|]. split.
  - unfold wfObject, withFields. cbn [type_ v_]. unfold isFree in Hfree. destruct (type_ o); [done|]. split_and!; [|done|].
    + unfold codes. rewrite fmap_app. apply NoDup_app. split; [done|]. split; [|repeat constructor; apply not_elem_of_nil].
      intros x Hx Hx'. apply list_elem_of_singleton in Hx' as ->. by rewrite Ec in Hx.
    + apply Forall_app. split; [done|]. constructor; [|constructor]. split; [by rewrite Hn|done].
  - intros g. cbn [v_ withFields]. rewrite slotOf_snoc by (by rewrite Ec). by rewrite Ec.
Qed.

(** *** Setting a value *)

Lemma defaultLeaf_typed v : exists d, defaultLeaf (leafSType v) = Some d /\ leafSType d = leafSType v.
Proof. destruct v; eexists; split; reflexivity. Qed.

Lemma defaultVar_leaf f v : leafSType v = fieldType f -> exists d, defaultVar f = Ret (STLeaf f d) /\ leafSType d = leafSType v.
Proof.
  intros E. destruct (defaultLeaf_typed v) as (d & Ed & Et). exists d. split; [|done]. unfold defaultVar. rewrite <-E, Ed.
  destruct (leafSType_simple v) as [H1 H2]. by rewrite (proj2 (Z.eqb_neq _ _) H1), (proj2 (Z.eqb_neq _ _) H2).
Qed.

(** A present slot of a field of a value's type holds a value of the type. *)
Lemma slot_leaf b v :
  typedSlot b -> isPresent b = true -> leafSType v = fieldType (getFName b) -> castLeaf (leafSType v) b <> None.
Proof.
  destruct (leafSType_simple v) as [H1 H2]. destruct b as [f|f w|f t w|f w]; cbn; intros Hb Hp E; try done; try congruence.
  rewrite Hb, E, Z.eqb_refl. done.
Qed.

Lemma castLeaf_some type b : castLeaf type b <> None -> exists w, castLeaf type b = Some w.
Proof. destruct (castLeaf type b) as [w|]; [by exists w|done]. Qed.

Lemma slotAt_setSlot o i b c : v_ o !! i = Some b -> slotAt (setSlot o i c) i = Ret c.
Proof. intros Hi. unfold slotAt. cbn [setSlot withFields v_]. by rewrite list_lookup_insert_eq by (by eapply lookup_lt_Some). Qed.

Lemma setSlot_twice o i c d : setSlot (setSlot o i c) i d = setSlot o i d.
Proof. unfold setSlot, withFields. cbn [type_ v_]. by rewrite list_insert_insert_eq. Qed.

Lemma slotAt_snoc o b : slotAt (withFields o (v_ o ++ [b])) (length (v_ o)) = Ret b.
Proof. unfold slotAt. cbn [v_ withFields]. by rewrite lookup_app_r, Nat.sub_diag by done. Qed.

Section Setting.
Context (o : STObject) (f : SField) (v : Leaf).
Context (Hw : wfObject o) (Hf : tableField f) (Hv : leafSType v = fieldType f).

Lemma slot_name i b : slotIndex f (v_ o) = Some i -> v_ o !! i = Some b -> getFName b = f /\ typedSlot b.
Proof.
  intros Hi Hb. pose proof (slotIndex_spec f (v_ o)) as H. rewrite Hi in H. destruct H as (b' & Hb' & Ec). rewrite Hb in Hb'. injection Hb' as <-.
  destruct Hw as (_ & _ & Hs). rewrite Forall_lookup in Hs. destruct (Hs i b Hb) as [Ht Hty]. split; [|done]. by apply tableField_eq.
Qed.

Lemma slot_at i : slotIndex f (v_ o) = Some i -> exists b, v_ o !! i = Some b /\ slotAt o i = Ret b /\ getFName b = f /\ typedSlot b.
Proof.
  intros Hi. pose proof (slotIndex_spec f (v_ o)) as H. rewrite Hi in H. destruct H as (b & Hb & _). exists b.
  split; [done|]. split; [unfold slotAt; by rewrite Hb|]. by apply (slot_name i).
Qed.

(** Making the field present and writing a value of its type. *)
Lemma present_and_set i :
  slotIndex f (v_ o) = Some i ->
  exists o1 b1, makeFieldPresent o f = Ret (o1, i) /\ slotAt o1 i = Ret b1 /\ getFName b1 = f /\
    castLeaf (leafSType v) b1 <> None /\ setSlot o1 i (STLeaf f v) = setSlot o i (STLeaf f v).
Proof.
  intros Hi. destruct (slot_at i Hi) as (b & Hb & Ha & Hn & Ht). unfold makeFieldPresent. rewrite getFieldIndex_slot, Hi, Ha by done. cbn [obind].
  destruct (isPresent b) eqn:Hp.
  - exists o, b. split_and!; try done. apply slot_leaf; [done|done|by rewrite Hn].
  - rewrite Hn. destruct (defaultVar_leaf f v Hv) as (d & -> & Ed). cbn [obind]. exists (setSlot o i (STLeaf f d)), (STLeaf f d).
    split_and!; [done|by apply slotAt_setSlot with b|done| |apply setSlot_twice]. cbn. by rewrite Ed, Z.eqb_refl.
Qed.

Lemma updated_leaf i : slotIndex f (v_ o) = Some i -> updated o (setSlot o i (STLeaf f v)) f (STLeaf f v).
Proof. intros Hi. destruct (slot_at i Hi) as (b & Hb & _ & Hn & _). by eapply updated_setSlot. Qed.

Lemma setFieldLeaf_existing i : slotIndex f (v_ o) = Some i -> setFieldLeaf o f v = Ret (setSlot o i (STLeaf f v)).
Proof.
  intros Hi. unfold setFieldLeaf, getPField. rewrite getFieldIndex_slot, Hi by done. destruct (slot_at i Hi) as (b & Hb & Ha & Hn & Ht).
  cbn [obind]. rewrite Ha. cbn [obind].
  destruct (present_and_set i Hi) as (o1 & b1 & E1 & E2 & E3 & E4 & E5). destruct (isPresent b) eqn:Hp; cbn [obind].
  - rewrite Ha. cbn [obind]. destruct (castLeaf_some _ _ (slot_leaf b v Ht Hp ltac:(by rewrite Hn))) as (w & ->). by rewrite Hn.
  - rewrite E1. cbn [obind]. rewrite E2. cbn [obind]. destruct (castLeaf_some _ _ E4) as (w & ->). by rewrite E3, E5.
Qed.

Lemma setFieldLeaf_spec :
  if isFree o || match slotOf f (v_ o) with Some _ => true | None => false end
  then exists o', setFieldLeaf o f v = Ret o' /\ updated o o' f (STLeaf f v)
  else setFieldLeaf o f v = RuntimeError.
Proof.
  unfold slotOf. destruct (slotIndex f (v_ o)) as [i|] eqn:Hi.
  - destruct (slot_at i Hi) as (b & Hb & _). cbn [mbind option_bind]. rewrite Hb, orb_true_r.
    exists (setSlot o i (STLeaf f v)). split; [by apply setFieldLeaf_existing|by apply updated_leaf].
  - cbn [mbind option_bind]. rewrite orb_false_r. unfold setFieldLeaf, getPField. rewrite getFieldIndex_slot, Hi by done. cbn [andb]. destruct (isFree o) eqn:Hfree; [|done].
    destruct (defaultVar_leaf f v Hv) as (d & -> & Ed). cbn [obind emplaceBack]. exists (withFields o (v_ o ++ [STLeaf f v])).
    split; [|by apply updated_snoc]. rewrite slotAt_snoc. cbn [obind isPresent]. rewrite slotAt_snoc. cbn [obind castLeaf getFName].
    rewrite Ed, Z.eqb_refl. unfold setSlot, withFields. cbn [type_ v_]. by rewrite insert_app_r_alt, Nat.sub_diag by done.
Qed.
End Setting.

Lemma getFieldLeaf_value o f v :
  wfObject o -> slotOf f (v_ o) = Some (STLeaf f v) -> getFieldLeaf (leafSType v) o f = Ret v.
Proof. intros Hw Hs. unfold getFieldLeaf. rewrite peek_slot, Hs by done. cbn. by rewrite Z.eqb_refl. Qed.

(** C32: Setting a field of an object to a value of its type succeeds when the object is free or
    its template has the field, and throws otherwise; then getting it returns the value, every
    other field is as before, and the object is still well-formed. *)
Theorem field_set_get (o : STObject) (f : SField) (v : Leaf)
    (Hw : wfObject o) (Hf : tableField f) (Hv : leafSType v = fieldType f) :
  match setFieldLeaf o f v with
  | Ret o' =>
    getFieldLeaf (fieldType f) o' f = Ret v /\ type_ o' = type_ o /\ wfObject o' /\
    forall g, fieldCodeMem g <> fieldCodeMem f -> peekAtPField o' g = peekAtPField o g
  | RuntimeError => isFree o = false /\ slotOf f (v_ o) = None
  | _ => False
  end.
Proof.
  pose proof (setFieldLeaf_spec o f v Hw Hf Hv) as H. destruct (isFree o) eqn:Hfree, (slotOf f (v_ o)) as [b|] eqn:Hs; cbn [orb] in H;
    try (destruct H as (o' & -> & Ht & Hw' & Hu); rewrite <-Hv; split_and!; [|done|done|];
      [apply getFieldLeaf_value; [done|]; by rewrite Hu, Z.eqb_refl|];
      intros g Hg; rewrite !peek_slot by done; by rewrite Hu, (proj2 (Z.eqb_neq _ _) Hg)).
  by rewrite H.
Qed.

Definition sampleFree : STObject := mkObject None [STLeaf sfSequence (LUInt32 3)].

Lemma field_set_get_witness :
  exists o', setFieldLeaf sampleFree sfFlags (LUInt32 5) = Ret o' /\ getFieldLeaf STI_UINT32 o' sfFlags = Ret (LUInt32 5) /\
    peekAtPField o' sfSequence = peekAtPField sampleFree sfSequence.
Proof.
  assert (wfObject sampleFree) as Hw.
  { split; [apply (bool_decide_eq_true_1 _); vm_compute; reflexivity|]. split; [exact I|].
    constructor; [|constructor]. split; [vm_compute; reflexivity|reflexivity]. }
  assert (tableField sfFlags) as Hf by (vm_compute; reflexivity).
  pose proof (field_set_get sampleFree sfFlags (LUInt32 5) Hw Hf eq_refl) as H.
  destruct (setFieldLeaf sampleFree sfFlags (LUInt32 5)) as [o'| | | | |] eqn:E; try (vm_compute in E; discriminate E).
  exists o'. destruct H as (H1 & _ & _ & H2). split; [reflexivity|]. split; [exact H1|]. apply H2. vm_compute. discriminate.
Defined.

(** ** Proxies *)

Lemma fits_insert t v i e c : fits t v -> t !! i = Some e -> slotFits e c -> fits t (<[i := c]> v).
Proof.
  intros Hf. revert i. induction Hf as [|e' b t v Hb Hf IH]; intros i Hi Hc; [done|]. destruct i as [|i]; cbn in *.
  - injection Hi as <-. by constructor.
  - constructor; [done|]. by apply IH.
Qed.

Lemma getIndex_lookup t f i : getIndex t f = Some i -> exists e, t !! i = Some e /\ fieldCodeMem (el_sField e) = fieldCodeMem f.
Proof.
  revert i. induction t as [|e t IH]; intros i; cbn [getIndex]; [done|]. unfold fieldEq.
  destruct (Z.eqb_spec (fieldCodeMem (el_sField e)) (fieldCodeMem f)); [intros [= <-]; by exists e|].
  destruct (getIndex t f) as [j|]; [|done]. intros [= <-]. by apply IH.
Qed.

Lemma style_index t f i e : getIndex t f = Some i -> t !! i = Some e -> style t f = Ret (el_style e).
Proof. intros Hi He. unfold style. rewrite Hi. unfold SOTemplate in *. by rewrite He. Qed.

(** The operations of the proxies on fields; an account assigned is not the default one. *)
Inductive ProxyOp := OpAssign (f : SField) (v : Leaf) | OpDisengage (f : SField).

Definition runProxy (op : ProxyOp) (o : STObject) : Outcome STObject :=
  match op with OpAssign f v => proxyAssign o f v | OpDisengage f => proxyDisengage o f end.

(** An operation that throws leaves the object as it was. *)
Definition runProxies (ops : list ProxyOp) (o : STObject) : STObject :=
  foldl (fun o op => match runProxy op o with Ret o' => o' | _ => o end) o ops.

(** What is assigned: a value of the type of the field; an account that is set, and an amount
    whose zero of XRP is not negative and has the exponent 0. *)
Definition assignable (op : ProxyOp) : Prop :=
  match op with
  | OpAssign f v => tableField f /\ leafSType v = fieldType f /\
      match v with
      | LAccount d _ => d = false
      | LAmount a => value_ a = 0 -> native (asset_ a) = true -> offset_ a = 0 /\ isNegative_ a = false
      | _ => True
      end
  | OpDisengage f => tableField f
  end.

Lemma assigned_default f v : assignable (OpAssign f v) -> valueIsDefault v = false -> leafIsDefault v = false.
Proof.
  intros (_ & _ & Hv) Hd. destruct v as [| | | | | | | | |a| | |d id| | | |]; try exact Hd; [|by subst]. cbn [leafIsDefault valueIsDefault] in *.
  destruct (Z.eqb_spec (value_ a) 0) as [E|]; [|done]. destruct (native (asset_ a)) eqn:En; [|done]. destruct (Hv E eq_refl) as [Ho Hn].
  exfalso. revert Hd. unfold amtEq, areComparable. rewrite Ho, Hn, E. cbn [asset_ offset_ value_ isNegative_]. rewrite En.
  destruct (asset_ a) as [i|id]; [|done]. cbn [native] in En |- *. revert En. unfold issueNative, issueEq.
  intros En. repeat (apply andb_true_iff in En as [En ?]). by rewrite En.
Qed.

Section Proxies.
Context (t : SOTemplate) (o : STObject).
Context (Hty : type_ o = Some t) (Hw : wfObject o) (Hfit : fits t (v_ o)) (Hst : Forall (fun e => el_style e <> SoeInvalid) t).

Definition kept (r : Outcome STObject) : Prop :=
  match r with
  | Ret o' => type_ o' = Some t /\ wfObject o' /\ fits t (v_ o')
  | RuntimeError => True
  | _ => False
  end.

Lemma kept_slot f i e b c :
  slotIndex f (v_ o) = Some i -> t !! i = Some e -> v_ o !! i = Some b -> getFName c = getFName b -> typedSlot c -> slotFits e c ->
  kept (Ret (setSlot o i c)).
Proof.
  intros Hi He Hb Hn Hc Hs. split; [done|]. split; [by eapply wfObject_setSlot|]. by eapply fits_insert.
Qed.

(** The element and the slot of a field of the template. *)
Lemma template_slot f i :
  tableField f -> slotIndex f (v_ o) = Some i ->
  exists e b, t !! i = Some e /\ v_ o !! i = Some b /\ slotAt o i = Ret b /\ getFName b = f /\ el_sField e = f /\ typedSlot b /\
    style t f = Ret (el_style e).
Proof.
  intros Hf Hi. destruct (slot_at o f Hw Hf i Hi) as (b & Hb & Ha & Hn & Ht).
  destruct (Forall2_lookup_r _ _ _ _ _ Hfit Hb) as (e & He & (Hne & _)). exists e, b. split_and!; try done; [by rewrite <-Hne|].
  apply (style_index t f i e); [|done]. by rewrite (getIndex_codes t f (v_ o)) by (by apply fits_codes).
Qed.

Lemma proxyStyle_slot f :
  tableField f ->
  proxyStyle o f = match slotIndex f (v_ o) with Some i => style t f | None => RuntimeError end.
Proof.
  intros Hf. unfold proxyStyle. rewrite Hty, peek_slot by done. unfold slotOf. cbn [obind].
  destruct (slotIndex f (v_ o)) as [i|] eqn:Hi; [|done]. destruct (slot_at o f Hw Hf i Hi) as (b & Hb & _). cbn. by rewrite Hb.
Qed.

Lemma absent_kept f i e :
  tableField f -> slotIndex f (v_ o) = Some i -> t !! i = Some e -> el_style e <> SoeRequired -> kept (makeFieldAbsent o f).
Proof.
  intros Hf Hi He Hs. destruct (template_slot f i Hf Hi) as (e' & b & He' & Hb & Ha & Hn & Hef & _). rewrite He in He'. injection He' as <-.
  unfold makeFieldAbsent. rewrite getFieldIndex_slot, Hi, Ha by done. cbn [obind]. destruct (isPresent b); [|done].
  rewrite Hn. by apply (kept_slot f i e b).
Qed.

Lemma assign_kept f v : assignable (OpAssign f v) -> kept (proxyAssign o f v).
Proof.
  intros Hass. pose proof Hass as (Hf & Hv & _). unfold proxyAssign. rewrite proxyStyle_slot by done.
  destruct (slotIndex f (v_ o)) as [i|] eqn:Hi; [|done].
  destruct (template_slot f i Hf Hi) as (e & b & He & Hb & Ha & Hn & Hef & Ht & ->). cbn [obind].
  destruct (bool_decide (el_style e = SoeDefault) && valueIsDefault v) eqn:Hd.
  { apply andb_true_iff in Hd as [Hd%bool_decide_eq_true _]. apply (absent_kept f i e); try done. by rewrite Hd. }
  assert (slotFits e (STLeaf f v)) as Hfits.
  { split; [done|]. split; [done|]. intros _ Hs. rewrite bool_decide_eq_true_2 in Hd by done. cbn [andb] in Hd. cbn [isDefault].
    by apply (assigned_default f v). }
  assert (kept (Ret (setSlot o i (STLeaf f v)))) as Hkept by (apply (kept_slot f i e b); done).
  rewrite Forall_lookup in Hst. rewrite bool_decide_eq_false_2 by (by apply (Hst i)).
  destruct (present_and_set o f v Hw Hf Hv i Hi) as (o1 & b1 & -> & Eb & En & Ec & Es). cbn [obind]. rewrite Eb. cbn [obind].
  destruct (castLeaf_some _ _ Ec) as (w & ->). by rewrite En, Es.
Qed.

Lemma disengage_kept f : tableField f -> kept (proxyDisengage o f).
Proof.
  intros Hf. unfold proxyDisengage. rewrite proxyStyle_slot by done. destruct (slotIndex f (v_ o)) as [i|] eqn:Hi; [|done].
  destruct (template_slot f i Hf Hi) as (e & b & He & Hb & Ha & Hn & Hef & Ht & ->). cbn [obind].
  destruct (bool_decide_reflect (el_style e = SoeRequired)) as [_|Hr]; cbn [orb]; [done|].
  destruct (bool_decide (el_style e = SoeDefault)); cbn [orb]; [done|].
  rewrite Forall_lookup in Hst. rewrite bool_decide_eq_false_2 by (by apply (Hst i)). by apply (absent_kept f i e).
Qed.
End Proxies.

(** C20: Whatever values are assigned through the proxies of an object with a template, and
    whatever optional field is removed, the object keeps the slots of its template: required
    fields present, and no field of default style present with its default value, which the
    parser would refuse.  No operation uses a null pointer.  The accounts assigned are set and
    the zeros of XRP assigned are canonical: a negative zero, which the reader of amounts refuses, is not
    equal to the default amount and would be stored. *)
Theorem proxies_keep_format (t : SOTemplate) (o : STObject) (ops : list ProxyOp)
    (Hty : type_ o = Some t) (Hw : wfObject o) (Hfit : fits t (v_ o)) (Hst : Forall (fun e => el_style e <> SoeInvalid) t)
    (Hops : Forall assignable ops) :
  let o' := runProxies ops o in
  type_ o' = Some t /\ wfObject o' /\ fits t (v_ o') /\ Forall (fun op => runProxy op o' <> Wild) ops.
Proof.
  assert (forall op o, type_ o = Some t -> wfObject o -> fits t (v_ o) -> assignable op -> kept t (runProxy op o)) as Hkept.
  { intros [f v|f] o1 H1 H2 H3 Ha; [by apply assign_kept|by apply disengage_kept]. }
  assert (type_ (runProxies ops o) = Some t /\ wfObject (runProxies ops o) /\ fits t (v_ (runProxies ops o))) as (H1 & H2 & H3).
  { unfold runProxies. revert o Hty Hw Hfit. induction Hops as [|op ops Ha Hops IH]; intros o Hty Hw Hfit; cbn [foldl]; [done|].
    specialize (Hkept op o Hty Hw Hfit Ha). destruct (runProxy op o) as [o'| | | | |]; try done; [|by apply IH].
    destruct Hkept as (? & ? & ?). by apply IH. }
  cbv zeta. split_and!; try done. eapply Forall_impl; [exact Hops|]. intros op Ha E. specialize (Hkept op _ H1 H2 H3 Ha). by rewrite E in Hkept.
Qed.

Definition sampleProxied : SOTemplate := [soe sfFlags SoeDefault; soe sfSequence SoeRequired; soe sfExpiration SoeOptional].

Lemma proxies_keep_format_witness :
  let o := mkObject (Some sampleProxied) [STNotPresent sfFlags; STLeaf sfSequence (LUInt32 1); STNotPresent sfExpiration] in
  let ops := [OpAssign sfFlags (LUInt32 4); OpAssign sfExpiration (LUInt32 0); OpAssign sfFlags (LUInt32 0); OpDisengage sfSequence] in
  v_ (runProxies ops o) = [STNotPresent sfFlags; STLeaf sfSequence (LUInt32 1); STLeaf sfExpiration (LUInt32 0)] /\
  fits sampleProxied (v_ (runProxies ops o)).
Proof.
  intros o ops. split; [vm_compute; reflexivity|].
  assert (wfObject o) as Hw.
  { split; [apply (bool_decide_eq_true_1 _); vm_compute; reflexivity|]. split; [vm_compute; reflexivity|].
    repeat apply Forall_cons_2; [..|constructor]; (split; [vm_compute; reflexivity|first [exact I|reflexivity]]). }
  assert (fits sampleProxied (v_ o)) as Hfit by (repeat constructor; discriminate).
  assert (Forall (fun e => el_style e <> SoeInvalid) sampleProxied) as Hst by (repeat constructor; discriminate).
  assert (Forall assignable ops) as Hops.
  { repeat apply Forall_cons_2; [..|constructor]; cbn [assignable]; try (split; [vm_compute; reflexivity|split; [reflexivity|exact I]]).
    vm_compute. reflexivity. }
  exact (proj1 (proj2 (proj2 (proxies_keep_format sampleProxied o ops eq_refl Hw Hfit Hst Hops)))).
Defined.

(** ** Ledger entries *)

(** An entry as the code holds it: the slots of its type's template, with its type. *)
Definition wfEntry (e : STLedgerEntry) (t : SOTemplate) : Prop :=
  findByType LedgerFormats (sleType e) = Some t /\ type_ (sleObject e) = Some t /\ fits t (v_ (sleObject e)) /\
  slotOf sfLedgerEntryType (v_ (sleObject e)) = Some (STLeaf sfLedgerEntryType (LUInt16 (sleType e))).

Lemma ledger_template ty t : findByType LedgerFormats ty = Some t -> NoDup (templateCodes t) /\ tableTemplate t.
Proof.
  intros (x & Hx & <-)%findByType_in. split.
  - pose proof (addFormats_NoDup _ _ _ _ ledger_formats ltac:(constructor)) as H. rewrite Forall_forall in H. by apply H.
  - pose proof formats_ok as H. rewrite forallb_forall in H. assert (formatOk x = true) as Hok.
    { apply H, list_elem_of_In, elem_of_app. by left. }
    unfold formatOk in Hok. rewrite forallb_forall in Hok. apply Forall_forall. intros e He%list_elem_of_In.
    specialize (Hok e He). apply andb_true_iff in Hok as [Hok _]. by apply (bool_decide_eq_true_1 _).
Qed.

Lemma slotOf_in f v b : slotOf f v = Some b -> b ∈ v /\ code b = fieldCodeMem f.
Proof.
  unfold slotOf. pose proof (slotIndex_spec f v) as H. destruct (slotIndex f v) as [i|]; [|done]. cbn. intros Hb.
  destruct H as (c & Hc & E). rewrite Hb in Hc. injection Hc as <-. split; [by eapply list_elem_of_lookup_2|done].
Qed.

Lemma slotOf_elem f v b : NoDup (codes v) -> b ∈ v -> code b = fieldCodeMem f -> slotOf f v = Some b.
Proof.
  intros Hd Hb Hc. apply list_elem_of_lookup in Hb as [i Hi]. unfold slotOf. by rewrite (slotIndex_NoDup f v i b).
Qed.

Lemma u16_slot v ty f :
  NoDup (codes v) -> STLeaf f (LUInt16 ty) ∈ v -> getFieldU16 (mkObject None v) f = Ret ty.
Proof.
  intros Hd Hin. unfold getFieldU16, getFieldLeaf, peekAtPField, getFieldIndex, slotAt. cbn [type_ v_].
  pose proof (slotOf_elem f v _ Hd Hin eq_refl) as Hs. unfold slotOf in Hs. destruct (slotIndex f v) as [i|]; [|done]. cbn in Hs. by rewrite Hs.
Qed.

Lemma entry_read_back mode (e : STLedgerEntry) (t : SOTemplate) :
  wfEntry e t -> Forall (fun b => isPresent b = true -> wfBase 1 b) (v_ (sleObject e)) ->
  exists bytes it', addObject true (v_ (sleObject e)) [] = Ret bytes /\
    parseSLE mode Large330 (key_ e) (newIter bytes) =
      (Ret (mkSLE (key_ e) (sleType e) (mkObject (Some t) (List.map settle (v_ (sleObject e))))), it').
Proof.
  intros He Hv. destruct He as (Ht & Hty & Hfit & Hs). destruct (ledger_template _ _ Ht) as [Hd _]. set (v := v_ (sleObject e)) in *.
  exists (fieldsBytes v). eexists. split; [by apply whole_written|]. unfold parseSLE, gbind.
  rewrite (whole_set mode t v Hv Hfit Hd false). cbn [fst]. unfold glift, setSLEType. cbn [v_].
  assert (NoDup (codes v)) as Hnd by (by rewrite (fits_codes t v Hfit)).
  rewrite (u16_slot _ (sleType e)).
  - cbn [obind]. rewrite Ht. by rewrite (applyTemplate_settled 1).
  - apply sorted_NoDup. by rewrite settle_codes.
  - apply slotOf_in in Hs as [Hs _]. rewrite settle_sorted. destruct (sorted_spec v Hnd) as [_ Hp].
    apply list_elem_of_In, in_map_iff. exists (STLeaf sfLedgerEntryType (LUInt16 (sleType e))). split; [done|].
    apply list_elem_of_In. rewrite Hp. apply list_elem_of_In, filter_In. split; [by apply list_elem_of_In|done].
Qed.

(** C25: A ledger entry within the limits of the format, written to bytes and read back, is the
    same entry, with the fields of free inner objects sorted.  The limits are those of
    [wfEntry] and [wfBase]: the entry has the slots of its type's template, with no field of
    default style present with its default value; nesting is at most ten deep; each inner
    object whose field has a template carries it; strings have at most 918744 bytes; path sets
    and paths are not empty; amounts are canonical; and a number has the largest exponent only
    if it is zero. *)
Theorem entry_roundtrip (mode : RoundingMode) (e : STLedgerEntry) (t : SOTemplate)
    (He : wfEntry e t) (Hv : Forall (fun b => isPresent b = true -> wfBase 1 b) (v_ (sleObject e))) :
  exists bytes it', addObject true (v_ (sleObject e)) [] = Ret bytes /\
    parseSLE mode Large330 (key_ e) (newIter bytes) =
      (Ret (mkSLE (key_ e) (sleType e) (mkObject (Some t) (List.map settle (v_ (sleObject e))))), it').
Proof. by apply entry_read_back. Qed.

Definition sampleEntry : Outcome STLedgerEntry := newSLE 77 ltAMENDMENTS.

Lemma entry_roundtrip_witness :
  exists e bytes it', sampleEntry = Ret e /\ addObject true (v_ (sleObject e)) [] = Ret bytes /\
    parseSLE ToNearest Large330 77 (newIter bytes) = (Ret e, it').
Proof.
  destruct sampleEntry as [e| | | | |] eqn:E; vm_compute in E; try discriminate E. injection E as E.
  assert (exists t, findByType LedgerFormats ltAMENDMENTS = Some t /\ type_ (sleObject e) = Some t /\ fits t (v_ (sleObject e))) as (t & Ht & Hty & Hf).
  { subst e. eexists. split; [vm_compute; reflexivity|]. split; [reflexivity|]. cbn [v_ sleObject].
    unfold fits. repeat (constructor; [split; [reflexivity|split; intros; discriminate]|]). constructor. }
  assert (wfEntry e t) as He.
  { split; [subst e; exact Ht|]. split; [exact Hty|]. split; [exact Hf|]. subst e. vm_compute. reflexivity. }
  assert (Forall (fun b => isPresent b = true -> wfBase 1 b) (v_ (sleObject e))) as Hv.
  { subst e. cbn [v_ sleObject]. repeat apply Forall_cons_2; [..|constructor]; intros Hp; try discriminate Hp;
      (apply wf_leaf; [lia|apply known_check; vm_compute; reflexivity|reflexivity|cbn; lia]). }
  destruct (entry_roundtrip ToNearest e t He Hv) as (bytes & it' & E1 & E2). exists e, bytes, it'.
  split; [reflexivity|]. split; [exact E1|]. assert (key_ e = 77) as Ek by (subst e; reflexivity).
  rewrite Ek in E2. rewrite E2. subst e. cbn in Hty. injection Hty as <-. reflexivity.
Defined.

(** *** New entries *)

Lemma defaultVar_typed f b : defaultVar f = Ret b -> typedSlot b.
Proof.
  unfold defaultVar. destruct (Z.eqb_spec (fieldType f) STI_OBJECT); [by intros [= <-]|].
  destruct (Z.eqb_spec (fieldType f) STI_ARRAY); [by intros [= <-]|].
  destruct (defaultLeaf (fieldType f)) as [v|] eqn:E; [|done]. intros [= <-]. cbn. unfold defaultLeaf in E.
  repeat match type of E with (if ?a =? ?b then _ else _) = _ => destruct (Z.eqb_spec a b) as [Ety|_] end; try discriminate E;
    injection E as <-; by rewrite Ety.
Qed.

Lemma setTemplate_slots t v : setTemplate t = Ret v -> tableTemplate t -> Forall slotOk v.
Proof.
  revert v. induction t as [|e t IH]; intros v; cbn [setTemplate]; [by intros [= <-]|]. intros E Ht. apply Forall_cons in Ht as [He Ht].
  destruct (bool_decide (el_style e = SoeRequired)).
  - destruct (defaultVar (el_sField e)) as [b| | | | |] eqn:Eb; try done. cbn [obind] in E.
    destruct (setTemplate t) as [w| | | | |]; try done. injection E as <-. constructor; [|by apply IH].
    destruct (defaultVar_slot _ _ Eb) as [Hn _]. split; [by rewrite Hn|by apply defaultVar_typed in Eb].
  - cbn [obind] in E. destruct (setTemplate t) as [w| | | | |]; try done. injection E as <-. constructor; [done|by apply IH].
Qed.

Lemma ledger_types :
  forallb (fun x => existsb (fun e => (fieldCodeMem (el_sField e) =? fieldCodeMem sfLedgerEntryType) &&
    bool_decide (el_style e = SoeRequired)) x.2) LedgerFormats = true.
Proof. vm_compute. reflexivity. Qed.

Lemma sfLedgerEntryType_table : tableField sfLedgerEntryType.
Proof. vm_compute. reflexivity. Qed.

(** The element of the type in the template of an entry. *)
Lemma ledger_type_slot ty t v :
  findByType LedgerFormats ty = Some t -> fits t v -> NoDup (codes v) ->
  exists i e b, slotIndex sfLedgerEntryType v = Some i /\ t !! i = Some e /\ v !! i = Some b /\ el_style e = SoeRequired /\
    el_sField e = sfLedgerEntryType.
Proof.
  intros Hty Hf Hd. destruct (ledger_template _ _ Hty) as [_ Htab]. apply findByType_in in Hty as (x & Hx & <-).
  pose proof ledger_types as H. rewrite forallb_forall in H. specialize (H x ltac:(by apply list_elem_of_In)).
  apply existsb_exists in H as (e & He & [Hc Hs]%andb_true_iff). apply Z.eqb_eq in Hc. apply bool_decide_eq_true in Hs.
  apply list_elem_of_In, list_elem_of_lookup in He as [i Hi]. destruct (Forall2_lookup_l _ _ _ _ _ Hf Hi) as (b & Hb & (Hn & _)).
  exists i, e, b. split; [|split; [done|]; split; [done|]; split; [done|]].
  - apply (slotIndex_NoDup _ _ _ b); [done|done|]. unfold code. by rewrite Hn.
  - apply tableField_eq; [|apply sfLedgerEntryType_table|done]. unfold tableTemplate in Htab. rewrite Forall_lookup in Htab. by apply (Htab i).
Qed.

(** For every type of the ledger formats a new entry is made: it has the slots of its
    template, every required field with its default value, and its type. *)
Theorem entry_constructed (key ty : Z) (t : SOTemplate) (Hty : findByType LedgerFormats ty = Some t) :
  exists e, newSLE key ty = Ret e /\ key_ e = key /\ sleType e = ty /\ wfEntry e t /\ wfObject (sleObject e).
Proof.
  destruct (ledger_template _ _ Hty) as [Hd Htab].
  assert (exists v, setTemplate t = Ret v /\ fits t v) as (v & Ev & Hf).
  { apply setTemplate_fits. pose proof Hty as (x & Hx & <-)%findByType_in. pose proof formats_ok as H. rewrite forallb_forall in H.
    assert (formatOk x = true) as Hok by (apply H, list_elem_of_In, elem_of_app; by left).
    unfold formatOk in Hok. rewrite forallb_forall in *. intros e He. specialize (Hok e He). by apply andb_true_iff in Hok as [_ ?]. }
  set (o := mkObject (Some t) v). assert (wfObject o) as Hw.
  { unfold wfObject. cbn [type_ v_ o]. rewrite (fits_codes t v Hf). split_and!; [done|done|by eapply setTemplate_slots]. }
  destruct (ledger_type_slot ty t v Hty Hf ltac:(apply Hw)) as (i & e & b & Hi & He & Hb & Hs & Hn).
  unfold newSLE. rewrite Hty, Ev. cbn [obind].
  pose proof (setFieldLeaf_existing o sfLedgerEntryType (LUInt16 ty) Hw sfLedgerEntryType_table eq_refl i Hi) as Eset.
  pose proof (updated_leaf o sfLedgerEntryType (LUInt16 ty) Hw sfLedgerEntryType_table eq_refl i Hi) as (Ht' & Hw' & Hu).
  change (mkObject (Some t) v) with o. rewrite Eset. cbn [obind].
  eexists. split; [done|]. cbn [key_ sleType sleObject]. split; [done|]. split; [done|]. split; [|done].
  split; [done|]. split; [done|]. cbn [sleObject sleType]. split; [|by rewrite Hu, Z.eqb_refl].
  apply (fits_insert t v i e); [done|done|]. split; [by rewrite Hn|]. split; [done|]. by rewrite Hs.
Qed.

Lemma entry_constructed_witness : exists e, newSLE 9 ltTICKET = Ret e /\ sleType e = ltTICKET.
Proof.
  destruct (findByType LedgerFormats ltTICKET) as [t|] eqn:E; [|vm_compute in E; discriminate E].
  destruct (entry_constructed 9 ltTICKET t E) as (e & H1 & _ & H2 & _). exists e. split; [exact H1|exact H2].
Defined.

(** ** Exceptional values *)

(** A path element with the account bit and account zero is read as an element of type zero;
    it is written as the end marker, and what is written is refused. *)
Example null_path_element :
  let l := [[mkPathElement 0 0 (PCurrency 0) 0]] in
  (getPathSet (newIter ([TypeAccount] ++ replicate 20 0 ++ [TypeNone]))).1 = Ret l /\
  addPaths true l [] = Ret [0; 0] /\ (getPathSet (newIter [0; 0])).1 = RuntimeError.
Proof. vm_compute. split_and!; reflexivity. Qed.

(** [makeFieldPresent] on a free object without the field leaves the field absent. *)
Example free_field_stays_absent :
  exists o i, makeFieldPresent (mkObject None []) sfFlags = Ret (o, i) /\ isFieldPresent o sfFlags = Ret false.
Proof. eexists _, _. split; reflexivity. Qed.
