(* ===== verification/Views.v ===== *)
(** * Ledger views: the interfaces

    [Keylet] (src/libxrpl/protocol/Keylet.cpp) and the interfaces [ReadView] and [RawView] of
    include/xrpl/ledger as classes, with what every layer of a stack of views promises: a view
    stands for a finite map from keys to ledger entries. *)
From S2P Require Import Prelude Serializer SField Formats NodeID STObject STAccess.

Abbreviation SLE := STLedgerEntry.

Record Keylet := mkKeylet { kl_type : Z; kl_key : Z }.

Definition keyletCheck (k : Keylet) (sle : SLE) : bool :=
  if kl_type k =? ltANY then true
  else if kl_type k =? ltCHILD then negb (sleType sle =? ltDIR_NODE)
  else (sleType sle =? kl_type k) && (key_ sle =? kl_key k).

Definition unchecked (key : Z) : Keylet := mkKeylet ltANY key.

Class ReadView (V : Type) := {
  viewExists : V -> Keylet -> Outcome bool;
  viewRead : V -> Keylet -> Outcome (option SLE);
  viewSucc : V -> Z -> option Z -> Outcome (option Z);
}.

Class RawView (V : Type) := {
  rawErase : V -> SLE -> Outcome V;
  rawInsert : V -> SLE -> Outcome V;
  rawReplace : V -> SLE -> Outcome V;
  rawDestroyXRP : V -> Z -> Outcome V;
}.

(** [TxsRawView]: the bytes of a transaction and of its metadata, which an open ledger has not *)
Class TxsRawView (V : Type) := { rawTxInsert : V -> Z -> list Z -> option (list Z) -> Outcome V }.

(** ** What the layers promise *)

Definition checked (k : Keylet) (e : SLE) : option SLE := if keyletCheck k e then Some e else None.

(** [r] is the first key of [m] after [key], and before [last] when there is a [last]. *)
Definition isSucc (m : gmap Z SLE) (key : Z) (last r : option Z) : Prop :=
  match r with
  | Some n =>
    key < n /\ is_Some (m !! n) /\ (forall l, last = Some l -> n < l) /\ forall x, key < x -> is_Some (m !! x) -> n <= x
  | None => forall x, key < x -> is_Some (m !! x) -> exists l, last = Some l /\ l <= x
  end.

Definition keyed_ (m : gmap Z SLE) : Prop := map_Forall (fun k e => key_ e = k /\ isKey k /\ k <> 0) m.

Class ReadLaws (V : Type) `{ReadView V} := {
  viewOk : V -> Prop;
  viewMap : V -> gmap Z SLE;
  view_keyed v : viewOk v -> keyed_ (viewMap v);
  view_read v k : viewOk v -> isKey (kl_key k) -> viewRead v k = Ret (viewMap v !! kl_key k ≫= checked k);
  view_exists v k : viewOk v -> isKey (kl_key k) -> exists b, viewExists v k = Ret b /\
    (b = true -> is_Some (viewMap v !! kl_key k)) /\ (is_Some (viewMap v !! kl_key k ≫= checked k) -> b = true);
  view_succ v key last : viewOk v -> isKey key -> exists r, viewSucc v key last = Ret r /\ isSucc (viewMap v) key last r;
}.

(** [storable]: the entries a layer can hold; the fee destroyed is in the range of amounts. *)
Class RawLaws (V : Type) `{ReadLaws V, !RawView V} := {
  storable : SLE -> Prop;
  raw_erase v e : viewOk v -> is_Some (viewMap v !! key_ e) ->
    exists v', rawErase v e = Ret v' /\ viewOk v' /\ viewMap v' = delete (key_ e) (viewMap v);
  raw_insert v e : viewOk v -> isKey (key_ e) -> key_ e <> 0 -> viewMap v !! key_ e = None -> storable e ->
    exists v', rawInsert v e = Ret v' /\ viewOk v' /\ viewMap v' = <[key_ e := e]> (viewMap v);
  raw_replace v e : viewOk v -> is_Some (viewMap v !! key_ e) -> storable e ->
    exists v', rawReplace v e = Ret v' /\ viewOk v' /\ viewMap v' = <[key_ e := e]> (viewMap v);
  raw_destroy v fee v' : viewOk v -> rawDestroyXRP v fee = Ret v' -> viewOk v' /\ viewMap v' = viewMap v;
}.

(** ** Successors *)

Lemma isSucc_unique m key last r s : isSucc m key last r -> isSucc m key last s -> r = s.
Proof.
  destruct r as [r|], s as [s|]; cbn; intros Hr Hs; try done.
  - destruct Hr as (? & ? & _ & Hr), Hs as (? & ? & _ & Hs). f_equal. specialize (Hr s). specialize (Hs r). naive_solver lia.
  - destruct Hr as (H1 & H2 & H3 & _). destruct (Hs r H1 H2) as (l & Hl & ?). specialize (H3 l Hl). lia.
  - destruct Hs as (H1 & H2 & H3 & _). destruct (Hr s H1 H2) as (l & Hl & ?). specialize (H3 l Hl). lia.
Qed.
