(* ===== verification/StateTables.v ===== *)
(** * Ledger views: tables of changes

    [RawStateTable] and [OpenView], [ApplyStateTable], [ApplyViewBase] and [Sandbox] of
    src/libxrpl/ledger and include/xrpl/ledger: changes to ledger entries kept over a base view,
    read through, and applied to the base.

    An entry that a client holds by a pointer and changes in place is a cell of the heap of
    its view; the tables of an [ApplyStateTable] hold the numbers of cells, and [erase] and
    [update] compare them as the code compares pointers.  Entries handed to another view by
    [apply] are copied: the code does not change them afterwards.  A null pointer that is used
    is [Wild]. *)
From S2P Require Import Prelude Serializer SField Number Amounts NodeID STObject STAccess Views.

(** ** Looking for the next key *)

Section Succ.
Context {V : Type} `{ReadView V} {I : Type} (erased : I -> bool).

(** The loop that looks for a successor in the base that is not erased; each round leaves an
    erased key behind. *)
Fixpoint baseSucc (fuel : nat) (base : V) (items : gmap Z I) (next : Z) (last : option Z) : Outcome (option Z) :=
  match fuel with
  | O => Wild
  | S fuel =>
    let? next := viewSucc base next last in
    match next with
    | None => Ret None
    | Some n =>
      match items !! n with
      | Some item => if erased item then baseSucc fuel base items n last else Ret (Some n)
      | None => Ret (Some n)
      end
    end
  end.

Fixpoint ownSucc (l : list (Z * I)) : option Z :=
  match l with
  | [] => None
  | (k, item) :: l => if erased item then ownSucc l else Some k
  end.

Definition upperBoundOf (items : gmap Z I) (key : Z) : list (Z * I) :=
  List.filter (fun p => key <? p.1) (sortedEntries items).

Definition tableSucc (base : V) (items : gmap Z I) (key : Z) (last : option Z) : Outcome (option Z) :=
  let? next := baseSucc (S (stdpp.base.size items)) base items key last in
  let next :=
    match ownSucc (upperBoundOf items key) with
    | Some k => match next with Some n => if k <? n then Some k else next | None => Some k end
    | None => next
    end in
  Ret (match last, next with Some l, Some n => if l <=? n then None else next | _, _ => next end).
End Succ.

(** ** RawStateTable *)

Module RawStateTable.
Inductive Action := Erase | Insert | Replace.

Record SleAction := mkSleAction { action : Action; sle : SLE }.

Record RawStateTable := mkTable { items_ : gmap Z SleAction; dropsDestroyed_ : Z }.

Definition empty : RawStateTable := mkTable ∅ 0.

Definition withItems (t : RawStateTable) (m : gmap Z SleAction) : RawStateTable := mkTable m (dropsDestroyed_ t).

Definition isErase (item : SleAction) : bool := match action item with Erase => true | _ => false end.

Definition applyItem {V} `{RawView V} (to : V) (p : Z * SleAction) : Outcome V :=
  match action p.2 with
  | Erase => rawErase to (sle p.2)
  | Insert => rawInsert to (sle p.2)
  | Replace => rawReplace to (sle p.2)
  end.

Fixpoint applyItems {V} `{RawView V} (l : list (Z * SleAction)) (to : V) : Outcome V :=
  match l with
  | [] => Ret to
  | p :: l => let? to := applyItem to p in applyItems l to
  end.

Definition apply {V} `{RawView V} (t : RawStateTable) (to : V) : Outcome V :=
  let? to := rawDestroyXRP to (dropsDestroyed_ t) in
  applyItems (sortedEntries (items_ t)) to.

Section Reading.
Context {V : Type} `{ReadView V}.

Definition exists_ (t : RawStateTable) (base : V) (k : Keylet) : Outcome bool :=
  match items_ t !! kl_key k with
  | None => viewExists base k
  | Some item =>
    match action item with
    | Erase => Ret false
    | _ => if negb (keyletCheck k (sle item)) then Ret false else Ret true
    end
  end.

Definition succ (t : RawStateTable) (base : V) (key : Z) (last : option Z) : Outcome (option Z) :=
  tableSucc isErase base (items_ t) key last.

Definition read (t : RawStateTable) (base : V) (k : Keylet) : Outcome (option SLE) :=
  match items_ t !! kl_key k with
  | None => viewRead base k
  | Some item =>
    match action item with
    | Erase => Ret None
    | _ => if negb (keyletCheck k (sle item)) then Ret None else Ret (Some (sle item))
    end
  end.
End Reading.

Definition erase (t : RawStateTable) (e : SLE) : Outcome RawStateTable :=
  match items_ t !! key_ e with
  | None => Ret (withItems t (<[key_ e := mkSleAction Erase e]> (items_ t)))
  | Some item =>
    match action item with
    | Erase => LogicError
    | Insert => Ret (withItems t (delete (key_ e) (items_ t)))
    | Replace => Ret (withItems t (<[key_ e := mkSleAction Erase e]> (items_ t)))
    end
  end.

Definition insert (t : RawStateTable) (e : SLE) : Outcome RawStateTable :=
  match items_ t !! key_ e with
  | None => Ret (withItems t (<[key_ e := mkSleAction Insert e]> (items_ t)))
  | Some item =>
    match action item with
    | Erase => Ret (withItems t (<[key_ e := mkSleAction Replace e]> (items_ t)))
    | Insert => LogicError
    | Replace => LogicError
    end
  end.

Definition replace (t : RawStateTable) (e : SLE) : Outcome RawStateTable :=
  match items_ t !! key_ e with
  | None => Ret (withItems t (<[key_ e := mkSleAction Replace e]> (items_ t)))
  | Some item =>
    match action item with
    | Erase => LogicError
    | a => Ret (withItems t (<[key_ e := mkSleAction a e]> (items_ t)))
    end
  end.

Definition destroyXRP (fixCleanup : bool) (t : RawStateTable) (fee : Z) : Outcome RawStateTable :=
  let? d := intAmountAdd fixCleanup (dropsDestroyed_ t) fee in
  Ret (mkTable (items_ t) d).

(** *** The iterator over the entries

    What is left of the items and of the entries of the base; [sle1_] and [sle0_] are the
    first of each. *)

Record SlesIter := mkIter { iter1_ : list (Z * SleAction); iter0_ : list SLE }.

Definition sle1_ (i : SlesIter) : option SLE := match iter1_ i with [] => None | p :: _ => Some (sle p.2) end.
Definition sle0_ (i : SlesIter) : option SLE := match iter0_ i with [] => None | e :: _ => Some e end.

Fixpoint skip (l1 : list (Z * SleAction)) (l0 : list SLE) : Outcome SlesIter :=
  match l1 with
  | [] => Ret (mkIter [] l0)
  | p :: r1 =>
    if isErase p.2 then
      match l0 with
      | [] => Wild
      | e :: r0 =>
        if key_ e =? key_ (sle p.2) then match r0 with [] => Ret (mkIter r1 r0) | _ => skip r1 r0 end
        else Ret (mkIter l1 l0)
      end
    else Ret (mkIter l1 l0)
  end.

Definition newIter (l1 : list (Z * SleAction)) (l0 : list SLE) : Outcome SlesIter :=
  match l1 with [] => Ret (mkIter l1 l0) | _ => skip l1 l0 end.

Definition increment (i : SlesIter) : Outcome SlesIter :=
  match sle1_ i, sle0_ i with
  | Some _, None => Ret (mkIter (tail (iter1_ i)) (iter0_ i))
  | None, Some _ => Ret (mkIter (iter1_ i) (tail (iter0_ i)))
  | None, None => Wild
  | Some e1, Some e0 =>
    if key_ e1 =? key_ e0 then skip (tail (iter1_ i)) (tail (iter0_ i))
    else if key_ e1 <? key_ e0 then skip (tail (iter1_ i)) (iter0_ i)
    else skip (iter1_ i) (tail (iter0_ i))
  end.

Definition dereference (i : SlesIter) : option SLE :=
  match sle1_ i, sle0_ i with
  | None, _ => sle0_ i
  | _, None => sle1_ i
  | Some e1, Some e0 => if key_ e1 <=? key_ e0 then Some e1 else Some e0
  end.

(** The entries from an iterator to the end. *)
Fixpoint iterate (fuel : nat) (i : SlesIter) : Outcome (list SLE) :=
  match iter1_ i, iter0_ i with
  | [], [] => Ret []
  | _, _ =>
    match fuel with
    | O => Wild
    | S fuel =>
      match dereference i with
      | None => Wild
      | Some e => let? i := increment i in let? l := iterate fuel i in Ret (e :: l)
      end
    end
  end.

Definition slesBegin (t : RawStateTable) (base : list SLE) : Outcome SlesIter := newIter (sortedEntries (items_ t)) base.

Definition slesUpperBound (t : RawStateTable) (base : list SLE) (key : Z) : Outcome SlesIter :=
  newIter (upperBoundOf (items_ t) key) (List.filter (fun e => key <? key_ e) base).
End RawStateTable.

(** ** OpenView *)

Record OpenView (V : Type) := mkOpenView {
  ov_base : V;
  ov_items : RawStateTable.RawStateTable;
  ov_txs : gmap Z (list Z * option (list Z));
  ov_open : bool;
  ov_baseTxCount : Z;
}.
Arguments mkOpenView {V}.
Arguments ov_base {V}.
Arguments ov_items {V}.
Arguments ov_txs {V}.
Arguments ov_open {V}.
Arguments ov_baseTxCount {V}.

Module OpenView.
Section View.
Context {V : Type} `{ReadView V} (fixCleanup : bool).

Definition withItems (v : OpenView V) (t : RawStateTable.RawStateTable) : OpenView V :=
  mkOpenView (ov_base v) t (ov_txs v) (ov_open v) (ov_baseTxCount v).

Definition rawErase (v : OpenView V) (e : SLE) : Outcome (OpenView V) :=
  let? t := RawStateTable.erase (ov_items v) e in Ret (withItems v t).
Definition rawInsert (v : OpenView V) (e : SLE) : Outcome (OpenView V) :=
  let? t := RawStateTable.insert (ov_items v) e in Ret (withItems v t).
Definition rawReplace (v : OpenView V) (e : SLE) : Outcome (OpenView V) :=
  let? t := RawStateTable.replace (ov_items v) e in Ret (withItems v t).
Definition rawDestroyXRP (v : OpenView V) (fee : Z) : Outcome (OpenView V) :=
  let? t := RawStateTable.destroyXRP fixCleanup (ov_items v) fee in Ret (withItems v t).

Definition rawTxInsert (v : OpenView V) (key : Z) (txn : list Z) (metaData : option (list Z)) : Outcome (OpenView V) :=
  match ov_txs v !! key with
  | Some _ => LogicError
  | None => Ret (mkOpenView (ov_base v) (ov_items v) (<[key := (txn, metaData)]> (ov_txs v)) (ov_open v) (ov_baseTxCount v))
  end.

Fixpoint applyTxs {W} `{TxsRawView W} (txs : list (Z * (list Z * option (list Z)))) (to : W) : Outcome W :=
  match txs with
  | [] => Ret to
  | (key, (txn, metaData)) :: txs => let? to := Views.rawTxInsert to key txn metaData in applyTxs txs to
  end.

Definition apply {W} `{RawView W, TxsRawView W} (v : OpenView V) (to : W) : Outcome W :=
  let? to := RawStateTable.apply (ov_items v) to in
  applyTxs (sortedEntries (ov_txs v)) to.

(** The copy constructor does not name [baseTxCount_], which is then 0. *)
Definition copy (v : OpenView V) : OpenView V := mkOpenView (ov_base v) (ov_items v) (ov_txs v) (ov_open v) 0.

Definition txExists (v : OpenView V) (key : Z) : bool := bool_decide (is_Some (ov_txs v !! key)).
Definition txCount (v : OpenView V) : Z := u64 (ov_baseTxCount v + Z.of_nat (stdpp.base.size (ov_txs v))).
End View.
End OpenView.

#[export] Instance OpenView_read {V} `{ReadView V} : ReadView (OpenView V) := {
  viewExists v k := RawStateTable.exists_ (ov_items v) (ov_base v) k;
  viewRead v k := RawStateTable.read (ov_items v) (ov_base v) k;
  viewSucc v key last := RawStateTable.succ (ov_items v) (ov_base v) key last;
}.

Definition OpenView_raw {V} (fixCleanup : bool) : RawView (OpenView V) := {|
  Views.rawErase := OpenView.rawErase;
  Views.rawInsert := OpenView.rawInsert;
  Views.rawReplace := OpenView.rawReplace;
  Views.rawDestroyXRP := OpenView.rawDestroyXRP fixCleanup;
|}.

#[export] Instance OpenView_txs {V} : TxsRawView (OpenView V) := {| Views.rawTxInsert := OpenView.rawTxInsert |}.

(** [OpenView(batch_view, base)]: an open view over an open view *)
Definition batchView {V} (base : OpenView V) : OpenView (OpenView V) :=
  mkOpenView base RawStateTable.empty ∅ (ov_open base) (OpenView.txCount base).

(** ** ApplyStateTable *)

Record Heap := mkHeap { cells_ : gmap nat SLE; fresh_ : nat }.

Definition emptyHeap : Heap := mkHeap ∅ 0.

(** [make_shared] *)
Definition alloc (h : Heap) (e : SLE) : nat * Heap := (fresh_ h, mkHeap (<[fresh_ h := e]> (cells_ h)) (S (fresh_ h))).

Definition deref (h : Heap) (p : nat) : Outcome SLE := match cells_ h !! p with Some e => Ret e | None => Wild end.

Module ApplyStateTable.
Inductive Action := Cache | Erase | Insert | Modify.

Record ApplyStateTable := mkTable { items_ : gmap Z (Action * nat); dropsDestroyed_ : Z }.

Definition empty : ApplyStateTable := mkTable ∅ 0.

Definition withItems (t : ApplyStateTable) (m : gmap Z (Action * nat)) : ApplyStateTable := mkTable m (dropsDestroyed_ t).

Definition isErase (item : Action * nat) : bool := match item.1 with Erase => true | _ => false end.

Definition applyItem {W} `{RawView W} (h : Heap) (to : W) (p : Z * (Action * nat)) : Outcome W :=
  match p.2.1 with
  | Cache => Ret to
  | Erase => let? e := deref h p.2.2 in rawErase to e
  | Insert => let? e := deref h p.2.2 in rawInsert to e
  | Modify => let? e := deref h p.2.2 in rawReplace to e
  end.

Fixpoint applyItems {W} `{RawView W} (h : Heap) (l : list (Z * (Action * nat))) (to : W) : Outcome W :=
  match l with
  | [] => Ret to
  | p :: l => let? to := applyItem h to p in applyItems h l to
  end.

Definition apply {W} `{RawView W} (t : ApplyStateTable) (h : Heap) (to : W) : Outcome W :=
  let? to := rawDestroyXRP to (dropsDestroyed_ t) in
  applyItems h (sortedEntries (items_ t)) to.

Definition changes (item : Action * nat) : bool := match item.1 with Cache => false | _ => true end.

Definition size (t : ApplyStateTable) : Z :=
  Z.of_nat (length (List.filter (fun p => changes p.2) (sortedEntries (items_ t)))).

Section Table.
Context {V : Type} `{ReadView V}.

(** [visit]: the arguments of the calls of [func] *)
Fixpoint visitItems (h : Heap) (to : V) (l : list (Z * (Action * nat)))
  : Outcome (list (Z * bool * option SLE * SLE)) :=
  match l with
  | [] => Ret []
  | (key, (a, p)) :: l =>
    match a with
    | Cache => visitItems h to l
    | _ =>
      let? before := match a with Insert => Ret None | _ => viewRead to (unchecked key) end in
      let? after := deref h p in
      let? r := visitItems h to l in
      Ret ((key, match a with Erase => true | _ => false end, before, after) :: r)
    end
  end.

Definition visit (t : ApplyStateTable) (h : Heap) (to : V) : Outcome (list (Z * bool * option SLE * SLE)) :=
  visitItems h to (sortedEntries (items_ t)).

Definition exists_ (t : ApplyStateTable) (h : Heap) (base : V) (k : Keylet) : Outcome bool :=
  match items_ t !! kl_key k with
  | None => viewExists base k
  | Some (Erase, _) => Ret false
  | Some (_, p) => let? e := deref h p in Ret (keyletCheck k e)
  end.

Definition succ (t : ApplyStateTable) (base : V) (key : Z) (last : option Z) : Outcome (option Z) :=
  tableSucc isErase base (items_ t) key last.

Definition read (t : ApplyStateTable) (h : Heap) (base : V) (k : Keylet) : Outcome (option SLE) :=
  match items_ t !! kl_key k with
  | None => viewRead base k
  | Some (Erase, _) => Ret None
  | Some (_, p) => let? e := deref h p in if negb (keyletCheck k e) then Ret None else Ret (Some e)
  end.

Definition peek (t : ApplyStateTable) (h : Heap) (base : V) (k : Keylet) : Outcome (option nat * ApplyStateTable * Heap) :=
  match items_ t !! kl_key k with
  | None =>
    let? e := viewRead base k in
    match e with
    | None => Ret (None, t, h)
    | Some e => let '(p, h) := alloc h e in Ret (Some p, withItems t (<[key_ e := (Cache, p)]> (items_ t)), h)
    end
  | Some (Erase, _) => Ret (None, t, h)
  | Some (_, p) => let? e := deref h p in if negb (keyletCheck k e) then Ret (None, t, h) else Ret (Some p, t, h)
  end.
End Table.

Definition erase (t : ApplyStateTable) (h : Heap) (p : nat) : Outcome ApplyStateTable :=
  let? e := deref h p in
  match items_ t !! key_ e with
  | None => LogicError
  | Some (a, q) =>
    if negb (q =? p)%nat then LogicError
    else
      match a with
      | Erase => LogicError
      | Insert => Ret (withItems t (delete (key_ e) (items_ t)))
      | Cache | Modify => Ret (withItems t (<[key_ e := (Erase, q)]> (items_ t)))
      end
  end.

Definition rawErase (t : ApplyStateTable) (h : Heap) (p : nat) : Outcome ApplyStateTable :=
  let? e := deref h p in
  match items_ t !! key_ e with
  | None => Ret (withItems t (<[key_ e := (Erase, p)]> (items_ t)))
  | Some (a, _) =>
    match a with
    | Erase => LogicError
    | Insert => Ret (withItems t (delete (key_ e) (items_ t)))
    | Cache | Modify => Ret (withItems t (<[key_ e := (Erase, p)]> (items_ t)))
    end
  end.

Definition insert (t : ApplyStateTable) (h : Heap) (p : nat) : Outcome ApplyStateTable :=
  let? e := deref h p in
  match items_ t !! key_ e with
  | None => Ret (withItems t (<[key_ e := (Insert, p)]> (items_ t)))
  | Some (a, _) =>
    match a with
    | Cache | Insert | Modify => LogicError
    | Erase => Ret (withItems t (<[key_ e := (Modify, p)]> (items_ t)))
    end
  end.

Definition replace (t : ApplyStateTable) (h : Heap) (p : nat) : Outcome ApplyStateTable :=
  let? e := deref h p in
  match items_ t !! key_ e with
  | None => Ret (withItems t (<[key_ e := (Modify, p)]> (items_ t)))
  | Some (a, _) =>
    match a with
    | Erase => LogicError
    | Cache => Ret (withItems t (<[key_ e := (Modify, p)]> (items_ t)))
    | Insert | Modify => Ret (withItems t (<[key_ e := (a, p)]> (items_ t)))
    end
  end.

Definition update (t : ApplyStateTable) (h : Heap) (p : nat) : Outcome ApplyStateTable :=
  let? e := deref h p in
  match items_ t !! key_ e with
  | None => LogicError
  | Some (a, q) =>
    if negb (q =? p)%nat then LogicError
    else
      match a with
      | Erase => LogicError
      | Cache => Ret (withItems t (<[key_ e := (Modify, q)]> (items_ t)))
      | Insert | Modify => Ret t
      end
  end.

Definition destroyXRP (fixCleanup : bool) (t : ApplyStateTable) (fee : Z) : Outcome ApplyStateTable :=
  let? d := intAmountAdd fixCleanup (dropsDestroyed_ t) fee in
  Ret (mkTable (items_ t) d).
End ApplyStateTable.

(** ** ApplyViewBase and Sandbox *)

Record ApplyView (V : Type) := mkApplyView { av_base : V; av_items : ApplyStateTable.ApplyStateTable; av_heap : Heap }.
Arguments mkApplyView {V}.
Arguments av_base {V}.
Arguments av_items {V}.
Arguments av_heap {V}.

Module ApplyViewBase.
Section View.
Context {V : Type} `{ReadView V} (fixCleanup : bool).

Definition newView (base : V) : ApplyView V := mkApplyView base ApplyStateTable.empty emptyHeap.

Definition peek (v : ApplyView V) (k : Keylet) : Outcome (option nat * ApplyView V) :=
  let? (p, t, h) := ApplyStateTable.peek (av_items v) (av_heap v) (av_base v) k in
  Ret (p, mkApplyView (av_base v) t h).

(** The members that change the table; the client made the entry, or has it from [peek]. *)
Definition onTable (f : ApplyStateTable.ApplyStateTable -> Heap -> nat -> Outcome ApplyStateTable.ApplyStateTable)
    (v : ApplyView V) (p : nat) : Outcome (ApplyView V) :=
  let? t := f (av_items v) (av_heap v) p in Ret (mkApplyView (av_base v) t (av_heap v)).

Definition erase : ApplyView V -> nat -> Outcome (ApplyView V) := onTable ApplyStateTable.erase.
Definition insert : ApplyView V -> nat -> Outcome (ApplyView V) := onTable ApplyStateTable.insert.
Definition update : ApplyView V -> nat -> Outcome (ApplyView V) := onTable ApplyStateTable.update.

(** A client makes a new entry, or changes one it holds. *)
Definition make (v : ApplyView V) (e : SLE) : nat * ApplyView V :=
  let '(p, h) := alloc (av_heap v) e in (p, mkApplyView (av_base v) (av_items v) h).
Definition assign (v : ApplyView V) (p : nat) (e : SLE) : ApplyView V :=
  mkApplyView (av_base v) (av_items v) (mkHeap (<[p := e]> (cells_ (av_heap v))) (fresh_ (av_heap v))).

(** The members of [RawView], for an entry handed over. *)
Definition onRaw (f : ApplyStateTable.ApplyStateTable -> Heap -> nat -> Outcome ApplyStateTable.ApplyStateTable)
    (v : ApplyView V) (e : SLE) : Outcome (ApplyView V) :=
  let '(p, v) := make v e in onTable f v p.

Definition rawErase : ApplyView V -> SLE -> Outcome (ApplyView V) := onRaw ApplyStateTable.rawErase.
Definition rawInsert : ApplyView V -> SLE -> Outcome (ApplyView V) := onRaw ApplyStateTable.insert.
Definition rawReplace : ApplyView V -> SLE -> Outcome (ApplyView V) := onRaw ApplyStateTable.replace.
Definition rawDestroyXRP (v : ApplyView V) (fee : Z) : Outcome (ApplyView V) :=
  let? t := ApplyStateTable.destroyXRP fixCleanup (av_items v) fee in Ret (mkApplyView (av_base v) t (av_heap v)).
End View.
End ApplyViewBase.

#[export] Instance ApplyView_read {V} `{ReadView V} : ReadView (ApplyView V) := {
  viewExists v k := ApplyStateTable.exists_ (av_items v) (av_heap v) (av_base v) k;
  viewRead v k := ApplyStateTable.read (av_items v) (av_heap v) (av_base v) k;
  viewSucc v key last := ApplyStateTable.succ (av_items v) (av_base v) key last;
}.

Definition ApplyView_raw {V} (fixCleanup : bool) : RawView (ApplyView V) := {|
  Views.rawErase := ApplyViewBase.rawErase;
  Views.rawInsert := ApplyViewBase.rawInsert;
  Views.rawReplace := ApplyViewBase.rawReplace;
  Views.rawDestroyXRP := ApplyViewBase.rawDestroyXRP fixCleanup;
|}.

(** [Sandbox::apply] *)
Definition sandboxApply {V W} `{RawView W} (v : ApplyView V) (to : W) : Outcome W :=
  ApplyStateTable.apply (av_items v) (av_heap v) to.
