(* ===== verification/StateTablesFacts.v ===== *)
(** * Ledger views: tables as layers

    A table over a base view stands for the map of the base with the changes put over it.
    Lookups, successors and the iterator of the tables against that map, and what applying a
    table does to any view that keeps the laws of [RawLaws]. *)
From S2P Require Import Prelude Serializer SField Number Amounts NodeID STObject STAccess Views StateTables.
Import RawStateTable.

(** ** Layers *)

Section Overlay.
Context {I : Type} (val : I -> option SLE).

Definition overlay (items : gmap Z I) (m : gmap Z SLE) : gmap Z SLE :=
  merge (fun i e => match i with Some i => val i | None => e end) items m.

Lemma lookup_overlay items m k : overlay items m !! k = match items !! k with Some i => val i | None => m !! k end.
Proof. unfold overlay. rewrite lookup_merge. by destruct (items !! k), (m !! k). Qed.

Lemma overlay_empty m : overlay ∅ m = m.
Proof. apply map_eq. intros k. by rewrite lookup_overlay, lookup_empty. Qed.

Lemma overlay_insert items m k i :
  overlay (<[k := i]> items) m = match val i with Some e => <[k := e]> (overlay items m) | None => delete k (overlay items m) end.
Proof.
  apply map_eq. intros j. rewrite lookup_overlay. destruct (decide (j = k)) as [->|Hj].
  - rewrite lookup_insert_eq. destruct (val i); by rewrite ?lookup_insert_eq, ?lookup_delete_eq.
  - rewrite lookup_insert_ne by done. destruct (val i); rewrite ?lookup_insert_ne, ?lookup_delete_ne, lookup_overlay by done; done.
Qed.

Lemma overlay_delete items m k : overlay (delete k items) m = match m !! k with Some e => <[k := e]> (overlay items m) | None => delete k (overlay items m) end.
Proof.
  apply map_eq. intros j. rewrite lookup_overlay. destruct (decide (j = k)) as [->|Hj].
  - rewrite lookup_delete_eq. destruct (m !! k) eqn:E; by rewrite ?lookup_insert_eq, ?lookup_delete_eq.
  - rewrite lookup_delete_ne by done. destruct (m !! k); rewrite ?lookup_insert_ne, ?lookup_delete_ne, lookup_overlay by done; done.
Qed.
End Overlay.

(** ** Successors *)

Section SuccFacts.
Context {V : Type} `{ReadLaws V} {I : Type} (erased : I -> bool) (val : I -> option SLE).
Context (erased_val : forall i, erased i = true <-> val i = None).

Definition alive (items : gmap Z I) (k : Z) : Prop := forall i, items !! k = Some i -> erased i = false.

(** A successor in the base among the keys that are not erased *)
Definition isBaseSucc (items : gmap Z I) (m : gmap Z SLE) (key : Z) (last r : option Z) : Prop :=
  match r with
  | Some n => key < n /\ is_Some (m !! n) /\ alive items n /\ (forall l, last = Some l -> n < l) /\
              forall x, key < x -> is_Some (m !! x) -> alive items x -> n <= x
  | None => forall x, key < x -> is_Some (m !! x) -> alive items x -> exists l, last = Some l /\ l <= x
  end.

Definition after (items : gmap Z I) (key : Z) : gmap Z I := filter (fun p => key < p.1) items.

Lemma after_decreases items key n i :
  key < n -> items !! n = Some i -> (stdpp.base.size (after items n) < stdpp.base.size (after items key))%nat.
Proof.
  intros Hlt Hi. apply map_subset_size. split.
  - intros k. destruct (after items n !! k) as [j|] eqn:E; [|by destruct (after items key !! k)].
    unfold after in *. rewrite map_lookup_filter_Some in E. cbn in E. assert (filter (fun p => key < p.1) items !! k = Some j) as ->; [|done].
    rewrite map_lookup_filter_Some. cbn. intuition lia.
  - intros Hs. specialize (Hs n). assert (after items key !! n = Some i) as E by (unfold after; rewrite map_lookup_filter_Some; done).
    assert (after items n !! n = None) as E'. { unfold after. rewrite map_lookup_filter_None. right. intros ? _. cbn. lia. }
    rewrite E, E' in Hs. done.
Qed.

Lemma baseSucc_spec fuel base items key last :
  viewOk base -> isKey key -> (stdpp.base.size (after items key) < fuel)%nat ->
  exists r, baseSucc erased fuel base items key last = Ret r /\ isBaseSucc items (viewMap base) key last r.
Proof.
  intros Hok. revert key. induction fuel as [|fuel IH]; intros key Hk Hf; [lia|]. cbn [baseSucc].
  destruct (view_succ base key last Hok Hk) as (r & -> & Hr). cbn [obind]. destruct r as [n|].
  2: { exists None. split; [done|]. cbn in *. intros x Hx Hm _. by apply Hr. }
  cbn in Hr. destruct Hr as (Hlt & Hn & Hl & Hmin).
  destruct (items !! n) as [i|] eqn:Hi.
  2: { exists (Some n). split; [done|]. cbn. split_and!; try done; [intros i Hi'; congruence|]. intros x ?? _. by apply Hmin. }
  destruct (erased i) eqn:He.
  2: { exists (Some n). split; [done|]. cbn. split_and!; try done; [intros j Hj; congruence|]. intros x ?? _. by apply Hmin. }
  assert (isKey n) as Hkn. { destruct Hn as [e Hn]. by apply (view_keyed base Hok) in Hn as (_ & ? & _). }
  destruct (IH n Hkn) as (r & -> & Hr). { pose proof (after_decreases items key n i Hlt Hi). lia. }
  exists r. split; [done|]. assert (forall x, key < x -> is_Some (viewMap base !! x) -> alive items x -> n < x) as Hskip.
  { intros x Hx Hm Ha. specialize (Hmin x Hx Hm). destruct (decide (x = n)) as [->|]; [|lia]. specialize (Ha i Hi). congruence. }
  destruct r as [s|]; cbn in *.
  - destruct Hr as (? & ? & ? & ? & Hs). split_and!; try done; [lia|]. intros x Hx Hm Ha. apply Hs; auto.
  - intros x Hx Hm Ha. apply Hr; auto.
Qed.

Lemma ownSucc_spec l : StronglySorted keyLe l ->
  match ownSucc erased l with
  | Some k => exists i, (k, i) ∈ l /\ erased i = false /\ forall x j, (x, j) ∈ l -> erased j = false -> k <= x
  | None => forall x j, (x, j) ∈ l -> erased j = true
  end.
Proof.
  induction 1 as [|[k i] l Hs IH Hle]; cbn [ownSucc]; [intros x j Hx; by apply elem_of_nil in Hx|].
  destruct (erased i) eqn:He.
  - destruct (ownSucc erased l) as [n|].
    + destruct IH as (j & Hin & Hj & Hmin). exists j. split; [by right|]. split; [done|]. intros x y [[= -> ->]|Hx]%elem_of_cons Hy; [congruence|eauto].
    + intros x j [[= -> ->]|Hx]%elem_of_cons; [done|eauto].
  - exists i. split; [by left|]. split; [done|]. intros x j [[= -> ->]|Hx]%elem_of_cons _; [lia|].
    rewrite Forall_forall in Hle. by specialize (Hle _ Hx).
Qed.

Lemma StronglySorted_filter_ {A} (R : A -> A -> Prop) (f : A -> bool) l : StronglySorted R l -> StronglySorted R (List.filter f l).
Proof.
  induction 1 as [|x l Hs IH Hx]; cbn; [constructor|]. destruct (f x); [|done]. constructor; [done|].
  rewrite Forall_forall in *. intros y Hy. apply Hx. apply list_elem_of_In in Hy. apply filter_In in Hy as [Hy _]. by apply list_elem_of_In.
Qed.

Lemma elem_of_upperBoundOf (items : gmap Z I) key k i : (k, i) ∈ upperBoundOf items key <-> key < k /\ items !! k = Some i.
Proof.
  unfold upperBoundOf. rewrite list_elem_of_In, filter_In, <-list_elem_of_In, elem_of_sortedEntries. cbn. rewrite Z.ltb_lt. tauto.
Qed.

Lemma upperBoundOf_sorted (items : gmap Z I) key : StronglySorted keyLe (upperBoundOf items key).
Proof. apply StronglySorted_filter_, sortedEntries_sorted. Qed.

Definition isOwnSucc (items : gmap Z I) (key : Z) (r : option Z) : Prop :=
  match r with
  | Some k => key < k /\ (exists i, items !! k = Some i /\ erased i = false) /\
              forall x j, key < x -> items !! x = Some j -> erased j = false -> k <= x
  | None => forall x j, key < x -> items !! x = Some j -> erased j = true
  end.

Lemma ownSucc_items items key : isOwnSucc items key (ownSucc erased (upperBoundOf items key)).
Proof.
  pose proof (ownSucc_spec _ (upperBoundOf_sorted items key)) as Hs. unfold isOwnSucc. destruct (ownSucc erased _) as [k|].
  - destruct Hs as (i & [Hk Hi]%elem_of_upperBoundOf & He & Hmin). split; [done|]. split; [eauto|]. intros x j Hx Hj. apply Hmin.
    by apply elem_of_upperBoundOf.
  - intros x j Hx Hj. apply (Hs x j). by apply elem_of_upperBoundOf.
Qed.

Lemma overlay_some items m x :
  is_Some (overlay val items m !! x) <->
  (exists i, items !! x = Some i /\ erased i = false) \/ (items !! x = None /\ is_Some (m !! x)).
Proof.
  rewrite lookup_overlay. destruct (items !! x) as [i|] eqn:E.
  - transitivity (erased i = false).
    + rewrite <-not_true_iff_false, erased_val. symmetry. apply not_eq_None_Some.
    + split; [eauto|]. intros [(j & [= <-] & Hj)|[? _]]; done.
  - split; [by right|]. by intros [(j & ? & _)|[_ ?]].
Qed.

Lemma tableSucc_spec base items key last :
  viewOk base -> isKey key ->
  exists r, tableSucc erased base items key last = Ret r /\ isSucc (overlay val items (viewMap base)) key last r.
Proof.
  intros Hok Hk. unfold tableSucc.
  destruct (baseSucc_spec (S (stdpp.base.size items)) base items key last Hok Hk) as (b & -> & Hb).
  { assert (after items key ⊆ items) as Hs%map_subseteq_size by apply map_filter_subseteq. lia. }
  cbn [obind]. eexists. split; [done|]. pose proof (ownSucc_items items key) as Ho. set (m := viewMap base) in *.
  assert (forall x, is_Some (overlay val items m !! x) -> (exists i, items !! x = Some i /\ erased i = false) \/ (is_Some (m !! x) /\ alive items x)) as Hcase.
  { intros x [?|[E ?]]%overlay_some; [by left|right]. split; [done|]. intros i Hi. congruence. }
  assert (forall x, is_Some (m !! x) -> alive items x -> is_Some (overlay val items m !! x)) as Hbase.
  { intros x Hx Ha. apply overlay_some. destruct (items !! x) as [i|] eqn:E; [left; eauto|by right]. }
  assert (forall x i, items !! x = Some i -> erased i = false -> is_Some (overlay val items m !! x)) as Hown by (intros x i ??; apply overlay_some; eauto).
  set (o := ownSucc erased (upperBoundOf items key)) in *. clearbody o. clear Hok.
  set (n := match o with Some k => match b with Some n => if k <? n then Some k else b | None => Some k end | None => b end).
  assert (match n with
          | Some s => key < s /\ is_Some (overlay val items m !! s) /\ forall x, key < x -> is_Some (overlay val items m !! x) -> s <= x \/ exists l, last = Some l /\ l <= x
          | None => forall x, key < x -> is_Some (overlay val items m !! x) -> exists l, last = Some l /\ l <= x
          end) as Hn.
  { unfold n. clear n. destruct o as [k|], b as [n|]; cbn in Ho, Hb; [destruct (Z.ltb_spec k n)| | |].
    - destruct Ho as (G1 & (i & G2 & G3) & G4), Hb as (G5 & G6 & G7 & G8 & G9). split; [done|]. split; [eauto|].
      intros x Hx [(j & Hj & He)|[Hm Ha]]%Hcase; left; [eauto|]. specialize (G9 x Hx Hm Ha). lia.
    - destruct Ho as (G1 & (i & G2 & G3) & G4), Hb as (G5 & G6 & G7 & G8 & G9). split; [done|]. split; [eauto|].
      intros x Hx [(j & Hj & He)|[Hm Ha]]%Hcase; left; [|eauto]. specialize (G4 x j Hx Hj He). lia.
    - destruct Ho as (G1 & (i & G2 & G3) & G4). split; [done|]. split; [eauto|]. intros x Hx [(j & Hj & He)|[Hm Ha]]%Hcase; [left; eauto|right; eauto].
    - destruct Hb as (G5 & G6 & G7 & G8 & G9). split; [done|]. split; [eauto|]. intros x Hx [(j & Hj & He)|[Hm Ha]]%Hcase; [|left; eauto].
      specialize (Ho x j Hx Hj). congruence.
    - intros x Hx [(j & Hj & He)|[Hm Ha]]%Hcase; [|eauto]. specialize (Ho x j Hx Hj). congruence. }
  assert (forall s, n = Some s -> forall l, last = Some l -> s < l \/ forall x, key < x -> is_Some (overlay val items m !! x) -> l <= x) as Hlast.
  { intros s Es l El. rewrite Es in Hn. destruct Hn as (_ & _ & Hn). destruct (Z.lt_ge_cases s l); [by left|right]. intros x Hx Hm.
    destruct (Hn x Hx Hm) as [?|(l' & El' & ?)]; [lia|]. assert (l' = l) as -> by congruence. lia. }
  clearbody n. destruct n as [s|].
  - destruct Hn as (G1 & G2 & G3). destruct last as [l|]; cbn.
    + destruct (Z.leb_spec l s); cbn.
      * intros x Hx Hm. exists l. split; [done|]. destruct (Hlast s eq_refl l eq_refl) as [?|Hl]; [lia|]. by apply Hl.
      * split; [done|]. split; [done|]. split; [by intros ? [= <-]|]. intros x Hx Hm. destruct (G3 x Hx Hm) as [?|(l' & [= <-] & ?)]; lia.
    + split; [done|]. split; [done|]. split; [done|]. intros x Hx Hm. destruct (G3 x Hx Hm) as [?|(l' & ? & ?)]; [done|congruence].
  - destruct last; cbn; exact Hn.
Qed.
End SuccFacts.

(** ** Applying changes *)

Inductive Change := Keep | Del (e : SLE) | Ins (e : SLE) | Rep (e : SLE).

Section Changes.
Context {W : Type} `{RawLaws W}.

Definition runChange (to : W) (c : Change) : Outcome W :=
  match c with
  | Keep => Ret to
  | Del e => rawErase to e
  | Ins e => rawInsert to e
  | Rep e => rawReplace to e
  end.

Fixpoint runChanges (l : list (Z * Change)) (to : W) : Outcome W :=
  match l with
  | [] => Ret to
  | p :: l => let? to := runChange to p.2 in runChanges l to
  end.

Definition changeOk (m : gmap Z SLE) (k : Z) (c : Change) : Prop :=
  match c with
  | Keep => True
  | Del e => key_ e = k /\ is_Some (m !! k)
  | Ins e => key_ e = k /\ isKey k /\ k <> 0 /\ m !! k = None /\ storable e
  | Rep e => key_ e = k /\ is_Some (m !! k) /\ storable e
  end.

Definition changed (c : Change) (old : option SLE) : option SLE :=
  match c with Keep => old | Del _ => None | Ins e | Rep e => Some e end.

Lemma runChange_spec to k c :
  viewOk to -> changeOk (viewMap to) k c ->
  exists to', runChange to c = Ret to' /\ viewOk to' /\
    viewMap to' !! k = changed c (viewMap to !! k) /\ forall j, j <> k -> viewMap to' !! j = viewMap to !! j.
Proof.
  intros Hok Hc. destruct c as [|e|e|e]; cbn in *.
  - by exists to.
  - destruct Hc as (<- & Hm). destruct (raw_erase to e Hok Hm) as (to' & -> & Hok' & Em). exists to'.
    rewrite Em, lookup_delete_eq. split_and!; try done. intros j Hj. by rewrite lookup_delete_ne.
  - destruct Hc as (<- & Hk & Hz & Hm & Hs). destruct (raw_insert to e Hok Hk Hz Hm Hs) as (to' & -> & Hok' & Em). exists to'.
    rewrite Em, lookup_insert_eq. split_and!; try done. intros j Hj. by rewrite lookup_insert_ne.
  - destruct Hc as (<- & Hm & Hs). destruct (raw_replace to e Hok Hm Hs) as (to' & -> & Hok' & Em). exists to'.
    rewrite Em, lookup_insert_eq. split_and!; try done. intros j Hj. by rewrite lookup_insert_ne.
Qed.

Lemma changeOk_lookup m m' k c : m !! k = m' !! k -> changeOk m k c -> changeOk m' k c.
Proof. intros E. destruct c; cbn; rewrite ?E; done. Qed.

Lemma runChanges_spec l : forall to, viewOk to -> NoDup l.*1 -> (forall k c, (k, c) ∈ l -> changeOk (viewMap to) k c) ->
  exists to', runChanges l to = Ret to' /\ viewOk to' /\
    (forall k c, (k, c) ∈ l -> viewMap to' !! k = changed c (viewMap to !! k)) /\
    (forall k, k ∉ l.*1 -> viewMap to' !! k = viewMap to !! k).
Proof.
  induction l as [|[k c] l IH]; intros to Hok Hnd Hc; cbn [runChanges fmap list_fmap].
  { exists to. split_and!; try done. intros k c Hk. by apply elem_of_nil in Hk. }
  cbn [fmap list_fmap fst] in Hnd. apply NoDup_cons in Hnd as [Hnin Hnd].
  destruct (runChange_spec to k c Hok (Hc k c (list_elem_of_here _ _))) as (to1 & E1 & Hok1 & Hk1 & Ho1). cbn [snd]. rewrite E1. cbn [obind].
  assert (forall j d, (j, d) ∈ l -> j <> k) as Hne.
  { intros j d Hj ->. apply Hnin. by apply (list_elem_of_fmap_2 fst) in Hj. }
  destruct (IH to1 Hok1 Hnd) as (to2 & -> & Hok2 & Hin2 & Hout2).
  { intros j d Hj. eapply changeOk_lookup; [symmetry; eapply Ho1, Hne, Hj|]. apply Hc. by right. }
  exists to2. split_and!; try done.
  - intros j d [[= -> ->]|Hj]%elem_of_cons; [by rewrite Hout2|]. rewrite (Hin2 j d Hj). by rewrite Ho1 by (by eapply Hne).
  - intros j [Hj1 Hj2]%not_elem_of_cons. rewrite Hout2 by done. by apply Ho1.
Qed.

(** The changes of the items of a table *)
Lemma runChanges_items {I} (items : gmap Z I) (change : I -> Change) to :
  viewOk to -> map_Forall (fun k i => changeOk (viewMap to) k (change i)) items ->
  exists to', runChanges (prod_map id change <$> sortedEntries items) to = Ret to' /\ viewOk to' /\
    forall k, viewMap to' !! k = match items !! k with Some i => changed (change i) (viewMap to !! k) | None => viewMap to !! k end.
Proof.
  intros Hok Hi. assert ((prod_map id change <$> sortedEntries items).*1 = (sortedEntries items).*1) as Ef.
  { rewrite <-list_fmap_compose. by apply list_fmap_ext. }
  assert (forall k c, (k, c) ∈ prod_map id change <$> sortedEntries items <-> exists i, items !! k = Some i /\ c = change i) as Hin.
  { intros k c. rewrite list_elem_of_fmap. split.
    - intros ([j i] & [= -> ->] & Hj%elem_of_sortedEntries). eauto.
    - intros (i & Hi' & ->). exists (k, i). split; [done|]. by apply elem_of_sortedEntries. }
  destruct (runChanges_spec (prod_map id change <$> sortedEntries items) to Hok) as (to' & E & Hok' & H1' & H2').
  { rewrite Ef, sortedEntries_perm. apply NoDup_fst_map_to_list. }
  { intros k c (i & Hk & ->)%Hin. by apply Hi. }
  exists to'. split; [done|]. split; [done|]. intros k. destruct (items !! k) as [i|] eqn:E'.
  - apply H1', Hin. eauto.
  - apply H2'. rewrite Ef. intros ([j i] & -> & Hj%elem_of_sortedEntries)%list_elem_of_fmap. cbn in E'. congruence.
Qed.
End Changes.

(** ** Open views

    [RawStateTable] as a layer: an open view keeps the laws of the interfaces over any base that
    keeps them, its iterator visits the entries of the layered map in order, and applying it to
    a view that stands for the map of its base gives that view the layered map. *)

Definition rawVal (i : SleAction) : option SLE := match action i with Erase => None | _ => Some (sle i) end.

Lemma rawVal_erased i : isErase i = true <-> rawVal i = None.
Proof. unfold isErase, rawVal. by destruct (action i). Qed.

(** Over a base that stands for [m]: erased and replaced entries are in the base, inserted ones
    are not, and what is written keeps [P]. *)
Definition rawItemOk (P : SLE -> Prop) (m : gmap Z SLE) (k : Z) (i : SleAction) : Prop :=
  key_ (sle i) = k /\ isKey k /\ k <> 0 /\
  match action i with
  | Erase => is_Some (m !! k)
  | Insert => m !! k = None /\ P (sle i)
  | Replace => is_Some (m !! k) /\ P (sle i)
  end.

Definition rawOk (P : SLE -> Prop) (m : gmap Z SLE) (t : RawStateTable) : Prop := map_Forall (rawItemOk P m) (items_ t).

Definition rawMap (t : RawStateTable) (m : gmap Z SLE) : gmap Z SLE := overlay rawVal (items_ t) m.

Section Laws.
Context {V : Type} `{ReadLaws V} (P : SLE -> Prop).

Lemma rawMap_keyed t m : keyed_ m -> rawOk P m t -> keyed_ (rawMap t m).
Proof.
  intros Hm Ht k e. unfold rawMap. rewrite lookup_overlay. destruct (items_ t !! k) as [i|] eqn:Hi; [|by apply Hm].
  apply Ht in Hi as (Hk & Hkey & Hz & _). unfold rawVal. destruct (action i); intros [= <-]; done.
Qed.

Lemma rawMap_insert t m k i :
  rawMap (withItems t (<[k := i]> (items_ t))) m = match rawVal i with Some e => <[k := e]> (rawMap t m) | None => delete k (rawMap t m) end.
Proof. apply overlay_insert. Qed.

Lemma read_rawMap t base k :
  viewOk base -> isKey (kl_key k) -> read t base k = Ret (rawMap t (viewMap base) !! kl_key k ≫= checked k).
Proof.
  intros Hok Hk. unfold read, rawMap. rewrite lookup_overlay. destruct (items_ t !! kl_key k) as [i|]; [|by apply view_read].
  unfold rawVal, checked. destruct (action i); cbn; try done; by destruct (keyletCheck k (sle i)).
Qed.

Lemma exists_rawMap t base k :
  viewOk base -> isKey (kl_key k) -> exists b, exists_ t base k = Ret b /\
    (b = true -> is_Some (rawMap t (viewMap base) !! kl_key k)) /\ (is_Some (rawMap t (viewMap base) !! kl_key k ≫= checked k) -> b = true).
Proof.
  intros Hok Hk. unfold exists_, rawMap. rewrite !lookup_overlay. destruct (items_ t !! kl_key k) as [i|]; [|by apply view_exists].
  unfold rawVal, checked. destruct (action i); cbn.
  - exists false. split_and!; [done|done|]. by intros [? ?].
  - destruct (keyletCheck k (sle i)); cbn; eexists; (split; [done|]); split; try done; by intros [? ?].
  - destruct (keyletCheck k (sle i)); cbn; eexists; (split; [done|]); split; try done; by intros [? ?].
Qed.

#[refine] Definition OpenView_laws : ReadLaws (OpenView V) := {|
  viewOk v := viewOk (ov_base v) /\ rawOk P (viewMap (ov_base v)) (ov_items v);
  viewMap v := rawMap (ov_items v) (viewMap (ov_base v));
|}.
Proof.
  - intros v [Hok Ht]. apply rawMap_keyed; [by apply view_keyed|done].
  - intros v k [Hok _]. by apply read_rawMap.
  - intros v k [Hok _]. by apply exists_rawMap.
  - intros v key last [Hok _] Hk. apply (tableSucc_spec isErase rawVal rawVal_erased); done.
Defined.

(** *** The changes keep the table in order *)

Lemma erase_rawOk t m e :
  rawOk P m t -> keyed_ m -> is_Some (rawMap t m !! key_ e) ->
  exists t', erase t e = Ret t' /\ rawOk P m t' /\ rawMap t' m = delete (key_ e) (rawMap t m).
Proof.
  intros Ht Hm. unfold rawMap at 1. rewrite lookup_overlay. unfold erase. destruct (items_ t !! key_ e) as [i|] eqn:Hi.
  - pose proof (Ht _ _ Hi) as (Hk & Hkey & Hz & Ha). unfold rawVal. destruct (action i) eqn:Ea; intros [x Hx]; [done| |]; eexists; (split; [done|]).
    + split; [by apply map_Forall_delete|]. unfold rawMap, withItems. cbn [items_]. rewrite overlay_delete. by destruct Ha as [-> _].
    + split; [|apply rawMap_insert]. apply map_Forall_insert_2; [|done]. split_and!; try done. apply Ha.
  - intros Hb. eexists. split; [done|]. split; [|apply rawMap_insert]. apply map_Forall_insert_2; [|done].
    destruct Hb as [x Hx]. pose proof (Hm _ _ Hx) as (_ & ? & ?). split_and!; [done..|by exists x].
Qed.

Lemma insert_rawOk t m e :
  rawOk P m t -> isKey (key_ e) -> key_ e <> 0 -> rawMap t m !! key_ e = None -> P e ->
  exists t', insert t e = Ret t' /\ rawOk P m t' /\ rawMap t' m = <[key_ e := e]> (rawMap t m).
Proof.
  intros Ht Hkey Hz. unfold rawMap at 1. rewrite lookup_overlay. unfold insert. destruct (items_ t !! key_ e) as [i|] eqn:Hi.
  - pose proof (Ht _ _ Hi) as (Hk & _ & _ & Ha). unfold rawVal. destruct (action i) eqn:Ea; intros Hn HP; try done. eexists. split; [done|].
    split; [|apply rawMap_insert]. apply map_Forall_insert_2; [|done]. split_and!; done.
  - intros Hn HP. eexists. split; [done|]. split; [|apply rawMap_insert]. apply map_Forall_insert_2; [|done]. split_and!; done.
Qed.

Lemma replace_rawOk t m e :
  rawOk P m t -> keyed_ m -> is_Some (rawMap t m !! key_ e) -> P e ->
  exists t', replace t e = Ret t' /\ rawOk P m t' /\ rawMap t' m = <[key_ e := e]> (rawMap t m).
Proof.
  intros Ht Hm. unfold rawMap at 1. rewrite lookup_overlay. unfold replace. destruct (items_ t !! key_ e) as [i|] eqn:Hi.
  - pose proof (Ht _ _ Hi) as (Hk & Hkey & Hz & Ha). unfold rawVal. destruct (action i) eqn:Ea; intros Hs HP.
    { by destruct Hs. }
    all: eexists; (split; [done|]); (split; [|apply rawMap_insert]); apply map_Forall_insert_2; [|done]; split_and!; try done; (split; [apply Ha|done]).
  - intros [x Hx] HP. eexists. split; [done|]. split; [|apply rawMap_insert]. apply map_Forall_insert_2; [|done].
    pose proof (Hm _ _ Hx) as (_ & ? & ?). split_and!; [done..|]. split; [by exists x|done].
Qed.

#[refine] Definition OpenView_rawLaws (fixCleanup : bool) : @RawLaws (OpenView V) _ OpenView_laws (OpenView_raw fixCleanup) :=
  @Build_RawLaws _ _ OpenView_laws (OpenView_raw fixCleanup) P _ _ _ _.
Proof.
  - intros v e [Hok Ht] Hs. destruct (erase_rawOk _ _ e Ht (view_keyed _ Hok) Hs) as (t' & E & ? & ?).
    cbn. unfold OpenView.rawErase. rewrite E. by eexists.
  - intros v e [Hok Ht] Hk Hz Hs HP. destruct (insert_rawOk _ _ e Ht Hk Hz Hs HP) as (t' & E & ? & ?).
    cbn. unfold OpenView.rawInsert. rewrite E. by eexists.
  - intros v e [Hok Ht] Hs HP. destruct (replace_rawOk _ _ e Ht (view_keyed _ Hok) Hs HP) as (t' & E & ? & ?).
    cbn. unfold OpenView.rawReplace. rewrite E. by eexists.
  - intros v fee v' [Hok Ht]. cbn. unfold OpenView.rawDestroyXRP, destroyXRP. destruct (intAmountAdd _ _ _); try done. by intros [= <-].
Defined.
End Laws.

(** *** Applying *)

Definition rawChange (i : SleAction) : Change :=
  match action i with Erase => Del (sle i) | Insert => Ins (sle i) | Replace => Rep (sle i) end.

Lemma applyItems_changes {W} `{RawLaws W} l (to : W) : applyItems l to = runChanges (prod_map id rawChange <$> l) to.
Proof.
  revert to. induction l as [|[k i] l IH]; intros to; cbn; [done|]. unfold applyItem, rawChange. cbn.
  destruct (action i); cbn;
    [destruct (rawErase to (sle i))|destruct (rawInsert to (sle i))|destruct (rawReplace to (sle i))]; cbn; auto.
Qed.

Lemma raw_applies {W} `{RawLaws W} (t : RawStateTable) (to to1 : W) :
  viewOk to -> rawOk storable (viewMap to) t -> rawDestroyXRP to (dropsDestroyed_ t) = Ret to1 ->
  exists to', apply t to = Ret to' /\ viewOk to' /\ viewMap to' = rawMap t (viewMap to).
Proof.
  intros Hok Ht Hd. unfold apply. rewrite Hd. cbn [obind]. destruct (raw_destroy to _ to1 Hok Hd) as [Hok1 E1].
  destruct (runChanges_items (items_ t) rawChange to1 Hok1) as (to' & E & Hok' & Hm).
  { rewrite E1. intros k i Hi. apply Ht in Hi as (Hk & Hkey & Hz & Ha). unfold rawChange. destruct (action i); cbn; naive_solver. }
  exists to'. rewrite applyItems_changes, E. split; [done|]. split; [done|]. apply map_eq. intros k. rewrite Hm, E1. unfold rawMap.
  rewrite lookup_overlay. destruct (items_ t !! k) as [i|]; [|done]. unfold rawChange, rawVal. by destruct (action i).
Qed.

(** ** The iterator *)

Section Iterator.

Abbreviation keys0 l := (key_ <$> (l : list SLE)).

(** The lists left: in order, and erased and replaced entries are still to come in the base. *)
Definition iterOk (l1 : list (Z * SleAction)) (l0 : list SLE) : Prop :=
  StronglySorted Z.lt l1.*1 /\ StronglySorted Z.lt (keys0 l0) /\
  forall k i, (k, i) ∈ l1 -> key_ (sle i) = k /\ match action i with Insert => k ∉ keys0 l0 | _ => k ∈ keys0 l0 end.

Definition ready (l1 : list (Z * SleAction)) (l0 : list SLE) : Prop :=
  match l1, l0 with p :: _, e :: _ => isErase p.2 = true -> key_ e <> p.1 | _, _ => True end.

Definition inLayers (l1 : list (Z * SleAction)) (l0 : list SLE) (x : SLE) : Prop :=
  (exists k i, (k, i) ∈ l1 /\ isErase i = false /\ x = sle i) \/ (x ∈ l0 /\ key_ x ∉ l1.*1).

Lemma sorted_head x l y : StronglySorted Z.lt (x :: l) -> y ∈ l -> x < y.
Proof. intros [_ Hx]%StronglySorted_inv Hy. rewrite Forall_forall in Hx. by apply Hx. Qed.

Lemma sorted_tail x l : StronglySorted Z.lt (x :: l) -> StronglySorted Z.lt l.
Proof. by intros [? _]%StronglySorted_inv. Qed.

Lemma key_in {A} (k : Z) (i : A) (l : list (Z * A)) : (k, i) ∈ l -> k ∈ l.*1.
Proof. intros Hk. by apply (list_elem_of_fmap_2 fst) in Hk. Qed.

Lemma StronglySorted_fmap_inv_ {A B} (f : A -> B) (R : B -> B -> Prop) l :
  StronglySorted R (f <$> l) -> StronglySorted (fun x y => R (f x) (f y)) l.
Proof.
  induction l as [|x l IH]; cbn; [constructor|]. intros [Hs Hx]%StronglySorted_inv. constructor; [by apply IH|]. rewrite Forall_fmap in Hx. exact Hx.
Qed.

Lemma sorted_nodup l : StronglySorted Z.lt l -> NoDup l.
Proof.
  induction l as [|x l IH]; intros Hs; constructor; [|by eapply IH, sorted_tail]. intros Hx. pose proof (sorted_head x l x Hs Hx). lia.
Qed.

Lemma sorted_filter_keys {A} (f : Z * A -> bool) (l : list (Z * A)) : StronglySorted Z.lt l.*1 -> StronglySorted Z.lt (List.filter f l).*1.
Proof.
  induction l as [|p l IH]; intros Hs; cbn; [constructor|]. cbn in Hs. destruct (f p); [|by eapply IH, sorted_tail]. cbn. constructor; [by eapply IH, sorted_tail|].
  apply Forall_forall. intros x (q & -> & Hq)%list_elem_of_fmap. apply list_elem_of_In, filter_In in Hq as [Hq%list_elem_of_In _].
  eapply sorted_head; [done|]. destruct q. by eapply key_in.
Qed.

Lemma sortedEntries_strict {A} (m : gmap Z A) : StronglySorted Z.lt (sortedEntries m).*1.
Proof.
  assert (NoDup (sortedEntries m).*1) as Hnd by (rewrite sortedEntries_perm; apply NoDup_fst_map_to_list).
  pose proof (sortedEntries_sorted m) as Hs. induction Hs as [|[k x] l Hs IH Hle]; cbn in *; constructor; apply NoDup_cons in Hnd as [Hn Hnd]; [by apply IH|].
  rewrite Forall_forall in Hle. apply Forall_forall. intros j ([j' y] & -> & Hj)%list_elem_of_fmap. specialize (Hle _ Hj). unfold keyLe in Hle. cbn in *.
  assert (k <> j') by (intros ->; apply Hn; by eapply key_in). lia.
Qed.

Lemma key0_in (e : SLE) l : e ∈ l -> key_ e ∈ keys0 l.
Proof. apply list_elem_of_fmap_2. Qed.

(** Both heads have the same key. *)
Lemma iterOk_both p r1 e r0 : iterOk (p :: r1) (e :: r0) -> p.1 = key_ e -> iterOk r1 r0.
Proof.
  destruct p as [k i]. intros (H1 & H0 & Hi) E. cbn in *. split; [by eapply sorted_tail|]. split; [by eapply sorted_tail|].
  intros j c Hj. destruct (Hi j c ltac:(by right)) as [Hk Hc]. split; [done|]. assert (k < j) by (eapply sorted_head; [done|by eapply key_in]).
  destruct (action c); rewrite ?not_elem_of_cons, ?elem_of_cons in Hc; intuition lia.
Qed.

Lemma iterOk_left p r1 l0 : iterOk (p :: r1) l0 -> iterOk r1 l0.
Proof. intros (H1 & H0 & Hi). split; [by eapply sorted_tail|]. split; [done|]. intros j c Hj. apply Hi. by right. Qed.

Lemma iterOk_right l1 e r0 : iterOk l1 (e :: r0) -> (forall k, k ∈ l1.*1 -> key_ e < k) -> iterOk l1 r0.
Proof.
  intros (H1 & H0 & Hi) Hlt. cbn in *. split; [done|]. split; [by eapply sorted_tail|]. intros j c Hj. destruct (Hi j c Hj) as [Hk Hc].
  specialize (Hlt j (key_in _ _ _ Hj)). split; [done|]. destruct (action c); rewrite ?not_elem_of_cons, ?elem_of_cons in Hc; intuition lia.
Qed.

Lemma skip_spec l1 : forall l0, iterOk l1 l0 ->
  exists i, skip l1 l0 = Ret i /\ iterOk (iter1_ i) (iter0_ i) /\ ready (iter1_ i) (iter0_ i) /\
    (forall x, inLayers (iter1_ i) (iter0_ i) x <-> inLayers l1 l0 x) /\
    (length (iter1_ i) + length (iter0_ i) <= length l1 + length l0)%nat.
Proof.
  induction l1 as [|p r1 IH]; intros l0 Hok; cbn [skip]; [by eexists|].
  destruct (isErase p.2) eqn:He; [|eexists; split; [done|]; split_and!; cbn; try done; destruct l0; [done|congruence]].
  destruct l0 as [|e r0].
  { destruct Hok as (_ & _ & Hi). destruct p as [k i]. destruct (Hi k i (list_elem_of_here _ _)) as [_ Hc]. cbn in He. unfold isErase in He.
    destruct (action i); try done. by apply elem_of_nil in Hc. }
  assert (key_ (sle p.2) = p.1) as Ek. { destruct p as [k i]. apply Hok. left. }
  rewrite Ek. destruct (Z.eqb_spec (key_ e) p.1) as [E|E]; [|eexists; split; [done|]; split_and!; cbn; done].
  pose proof (iterOk_both _ _ _ _ Hok (eq_sym E)) as Hok'.
  assert (forall x, inLayers r1 r0 x <-> inLayers (p :: r1) (e :: r0) x) as Hin.
  { destruct Hok as (Hs1 & Hs0 & _). intros x. unfold inLayers. destruct p as [k i]. cbn in *. subst k.
    setoid_rewrite (@elem_of_cons (Z * SleAction)). setoid_rewrite (@elem_of_cons SLE). setoid_rewrite not_elem_of_cons. split.
    - intros [(k & j & Hj & ? & ->)|[Hx Hn]]; [left; eauto 6|right]. assert (key_ e < key_ x) by (eapply sorted_head; [done|by apply key0_in]). intuition lia.
    - intros [(k & j & [[= -> ->]|Hj] & ? & ->)|[[->|Hx] [Hn ?]]]; [congruence|left; eauto|done|by right]. }
  destruct r0 as [|e' r0].
  - eexists. split; [done|]. cbn [iter1_ iter0_]. split_and!; [done|by destruct r1|done|cbn; lia].
  - destruct (IH _ Hok') as (i & -> & ? & ? & Hx & Hl). exists i. split_and!; try done; [|cbn in *; lia]. intros x. by rewrite Hx.
Qed.

(** One step: the first entry is the least, and the others are those after the step. *)
Lemma step_spec i :
  iterOk (iter1_ i) (iter0_ i) -> ready (iter1_ i) (iter0_ i) -> iter1_ i <> [] \/ iter0_ i <> [] ->
  exists e i', dereference i = Some e /\ increment i = Ret i' /\ iterOk (iter1_ i') (iter0_ i') /\ ready (iter1_ i') (iter0_ i') /\
    (length (iter1_ i') + length (iter0_ i') < length (iter1_ i) + length (iter0_ i))%nat /\
    (forall x, inLayers (iter1_ i) (iter0_ i) x <-> x = e \/ inLayers (iter1_ i') (iter0_ i') x) /\
    (forall x, inLayers (iter1_ i') (iter0_ i') x -> key_ e < key_ x).
Proof.
  destruct i as [[|[k it] r1] [|e r0]]; cbn [iter1_ iter0_]; intros Hok Hr Hne; [by destruct Hne| | |]; unfold dereference, increment; cbn.
  - exists e. eexists. split; [done|]. split; [done|]. cbn. destruct Hok as (_ & Hs & _). split_and!; [|done|lia| |].
    + split; [constructor|]. split; [by eapply sorted_tail|]. intros ?? []%elem_of_nil.
    + intros x. unfold inLayers. setoid_rewrite elem_of_cons. split; [|].
      * intros [(? & ? & []%elem_of_nil & _)|[[->|?] ?]]; [by left|right; by right].
      * intros [->|[(? & ? & []%elem_of_nil & _)|[? ?]]]; right; (split; [by auto|apply not_elem_of_nil]).
    + intros x [(? & ? & []%elem_of_nil & _)|[Hx _]]. eapply sorted_head; [done|by apply key0_in].
  - destruct Hok as (Hs1 & _ & Hi). pose proof (Hi k it (list_elem_of_here _ _)) as [Hk Ha].
    assert (isErase it = false) as He. { unfold isErase. destruct (action it); try done. by apply elem_of_nil in Ha. }
    exists (sle it). eexists. split; [done|]. split; [done|]. cbn. split_and!; [|by destruct r1|lia| |].
    + split; [by eapply sorted_tail|]. split; [constructor|]. intros ???. apply Hi. by right.
    + intros x. unfold inLayers. setoid_rewrite elem_of_cons. split.
      * intros [(j & c & [[= -> ->]|?] & ? & ->)|[[]%elem_of_nil ?]]; [by left|right; left; eauto].
      * intros [->|[(j & c & ? & ? & ->)|[[]%elem_of_nil ?]]]; left; eauto 6.
    + intros x [(j & c & Hj & _ & ->)|[[]%elem_of_nil _]]. destruct (Hi j c ltac:(by right)) as [-> _]. rewrite Hk. eapply sorted_head; [done|by eapply key_in].
  - pose proof Hok as (Hs1 & Hs0 & Hi). pose proof (Hi k it (list_elem_of_here _ _)) as [Hk Ha]. cbn in Hr. rewrite Hk in *.
    assert (forall j c, (j, c) ∈ r1 -> k < key_ (sle c)) as Hlt1.
    { intros j c Hj. destruct (Hi j c ltac:(by right)) as [-> _]. eapply sorted_head; [done|by eapply key_in]. }
    assert (forall x, x ∈ r0 -> key_ e < key_ x) as Hlt0 by (intros x Hx; eapply sorted_head; [done|by apply key0_in]).
    destruct (Z.eqb_spec k (key_ e)) as [E|E]; [|destruct (Z.ltb_spec k (key_ e)) as [E'|E']].
    + destruct (skip_spec r1 r0 (iterOk_both _ _ _ _ Hok E)) as (i' & Ei & Hok' & Hr' & Hx & Hl). exists (sle it), i'.
      rewrite (proj2 (Z.leb_le _ _)) by lia. assert (isErase it = false) as He by (destruct (isErase it) eqn:F; [by destruct (Hr eq_refl)|done]).
      split_and!; try done; [cbn; lia| |].
      * intros x. rewrite Hx. unfold inLayers. cbn. setoid_rewrite (@elem_of_cons (Z * SleAction)). try setoid_rewrite (@elem_of_cons SLE). setoid_rewrite not_elem_of_cons. split.
        -- intros [(j & c & [[= -> ->]|?] & ? & ->)|[[->|?] [? ?]]]; [by left|right; left; eauto|done|right; by right].
        -- intros [->|[(j & c & ? & ? & ->)|[? ?]]]; [left; eauto 6|left; eauto 6|right]. specialize (Hlt0 x). intuition lia.
      * intros x [(j & c & Hj & _ & ->)|[Hj _]]%Hx; [rewrite Hk; eauto|]. specialize (Hlt0 x Hj). lia.
    + assert (action it = Insert) as Hins.
      { destruct (action it) eqn:F; try done; cbn in Ha; apply elem_of_cons in Ha as [->|Ha]; try lia;
          pose proof (sorted_head _ _ _ Hs0 Ha); cbn in *; lia. }
      destruct (skip_spec r1 (e :: r0) (iterOk_left _ _ _ Hok)) as (i' & Ei & Hok' & Hr' & Hx & Hl). exists (sle it), i'.
      rewrite (proj2 (Z.leb_le _ _)) by lia. assert (isErase it = false) as He by (unfold isErase; by rewrite Hins).
      split_and!; try done; [cbn in *; lia| |].
      * intros x. rewrite Hx. unfold inLayers. cbn. setoid_rewrite (@elem_of_cons (Z * SleAction)). try setoid_rewrite (@elem_of_cons SLE). setoid_rewrite not_elem_of_cons. split.
        -- intros [(j & c & [[= -> ->]|?] & ? & ->)|[? [? ?]]]; [by left|right; left; eauto|right; by right].
        -- intros [->|[(j & c & ? & ? & ->)|[Hx' ?]]]; [left; eauto 6|left; eauto 6|right]. split; [done|]. split; [|done].
           destruct Hx' as [->|Hx']; [lia|]. specialize (Hlt0 x Hx'). lia.
      * intros x [(j & c & Hj & _ & ->)|[[->|Hj]%elem_of_cons _]]%Hx; [rewrite Hk; eauto|lia|]. specialize (Hlt0 x Hj). lia.
    + assert (forall j, j ∈ ((k, it) :: r1).*1 -> key_ e < j) as Hlt.
      { cbn. intros j [->|Hj]%elem_of_cons; [lia|]. pose proof (sorted_head _ _ _ Hs1 Hj). cbn in *. lia. }
      destruct (skip_spec ((k, it) :: r1) r0 (iterOk_right _ _ _ Hok Hlt)) as (i' & Ei & Hok' & Hr' & Hx & Hl). exists e, i'. cbn in Ei. rewrite Hk in Ei.
      rewrite (proj2 (Z.leb_gt _ _)) by lia. split_and!; try done; [cbn in *; lia| |].
      * intros x. rewrite Hx. unfold inLayers. setoid_rewrite (elem_of_cons r0). split.
        -- intros [?|[[->|?] ?]]; [right; by left|by left|right; by right].
        -- intros [->|[?|[? ?]]]; [right|by left|right; by auto]. split; [by left|]. intros Hin%Hlt. lia.
      * intros x [(j & c & Hj & _ & ->)|[Hj _]]%Hx; [|by apply Hlt0]. destruct (Hi j c Hj) as [-> _]. by apply Hlt, (key_in j c).
Qed.

Lemma iterate_spec fuel i :
  iterOk (iter1_ i) (iter0_ i) -> ready (iter1_ i) (iter0_ i) -> (length (iter1_ i) + length (iter0_ i) <= fuel)%nat ->
  exists l, iterate fuel i = Ret l /\ StronglySorted Z.lt (keys0 l) /\ forall x, x ∈ l <-> inLayers (iter1_ i) (iter0_ i) x.
Proof.
  revert i. induction fuel as [|fuel IH]; intros i Hok Hr Hf.
  - destruct i as [[|p l1] [|e l0]]; cbn in *; try lia. exists []. split; [done|]. split; [constructor|]. intros x. split; [by intros []%elem_of_nil|].
    intros [(? & ? & []%elem_of_nil & _)|[[]%elem_of_nil _]].
  - destruct (decide (iter1_ i <> [] \/ iter0_ i <> [])) as [Hne|Hemp].
    + destruct (step_spec i Hok Hr Hne) as (e & i' & Ed & Ei & Hok' & Hr' & Hl & Hin & Hlt).
      destruct (IH i' Hok' Hr' ltac:(lia)) as (l & El & Hs & Hl'). exists (e :: l). split.
      { cbn [iterate]. rewrite Ed, Ei. cbn [obind]. rewrite El. cbn [obind]. destruct i as [[|p l1] [|e' l0]]; cbn in *; try done; by destruct Hne. }
      split; [cbn; constructor; [done|]|]; [|intros x; by rewrite elem_of_cons, Hl', Hin].
      apply Forall_fmap, Forall_forall. intros x Hx. cbn. by apply Hlt, Hl'.
    + assert (iter1_ i = [] /\ iter0_ i = []) as [E1 E0] by (destruct (iter1_ i), (iter0_ i); naive_solver).
      exists []. cbn [iterate]. rewrite E1, E0. split; [done|]. split; [constructor|]. intros x. split; [by intros []%elem_of_nil|].
      intros [(? & ? & []%elem_of_nil & _)|[[]%elem_of_nil _]].
Qed.

Lemma sorted_unique (l l' : list SLE) :
  StronglySorted Z.lt (keys0 l) -> StronglySorted Z.lt (keys0 l') -> (forall x, x ∈ l <-> x ∈ l') -> l = l'.
Proof.
  intros Hl Hl' Hin. apply (StronglySorted_unique_strong (fun x y => key_ x < key_ y)); [intros; lia|by apply StronglySorted_fmap_inv_ in Hl|by apply StronglySorted_fmap_inv_ in Hl'|].
  apply NoDup_Permutation; [..|done]; eapply (NoDup_fmap_1 key_), sorted_nodup; done.
Qed.
End Iterator.

(** The entries of a view in the order of their keys, as the iterator of the base gives them. *)
Definition slesOf (m : gmap Z SLE) : list SLE := (sortedEntries m).*2.

Lemma slesOf_keys m : keyed_ m -> key_ <$> slesOf m = (sortedEntries m).*1.
Proof.
  intros Hm. unfold slesOf. rewrite <-list_fmap_compose. apply list_fmap_ext. intros i [k e] Hi%list_elem_of_lookup_2. cbn.
  apply elem_of_sortedEntries in Hi. by apply Hm in Hi as [-> _].
Qed.

Lemma elem_of_slesOf m e : keyed_ m -> e ∈ slesOf m <-> m !! key_ e = Some e.
Proof.
  intros Hm. unfold slesOf. rewrite list_elem_of_fmap. split.
  - intros ([k x] & -> & Hx%elem_of_sortedEntries). cbn. pose proof (Hm _ _ Hx) as [-> _]. done.
  - intros He. exists (key_ e, e). split; [done|]. by apply elem_of_sortedEntries.
Qed.

Lemma filter_slesOf m key : keyed_ m -> List.filter (fun e => key <? key_ e) (slesOf m) = (upperBoundOf m key).*2.
Proof.
  intros Hm. unfold slesOf, upperBoundOf. assert (forall p, p ∈ sortedEntries m -> key_ p.2 = p.1) as Hp.
  { intros [k e] Hp%elem_of_sortedEntries. cbn. by apply Hm in Hp as [? _]. }
  induction (sortedEntries m) as [|p l IH]; cbn; [done|]. rewrite (Hp p) by left. rewrite IH by (intros q Hq; apply Hp; by right). by destruct (key <? p.1).
Qed.

Lemma upper_iterOk P m t key : keyed_ m -> rawOk P m t ->
  iterOk (upperBoundOf (items_ t) key) (List.filter (fun e => key <? key_ e) (slesOf m)) /\
  forall x, inLayers (upperBoundOf (items_ t) key) (List.filter (fun e => key <? key_ e) (slesOf m)) x <-> key < key_ x /\ rawMap t m !! key_ x = Some x.
Proof.
  intros Hm Ht. assert (forall x, x ∈ List.filter (fun e => key <? key_ e) (slesOf m) <-> key < key_ x /\ m !! key_ x = Some x) as Hf.
  { intros x. rewrite list_elem_of_In, filter_In, <-list_elem_of_In, elem_of_slesOf, Z.ltb_lt by done. tauto. }
  assert (forall k, k ∈ key_ <$> List.filter (fun e => key <? key_ e) (slesOf m) <-> key < k /\ is_Some (m !! k)) as Hkf.
  { intros k. rewrite list_elem_of_fmap. split.
    - intros (x & -> & [Hk Hx]%Hf). eauto.
    - intros [Hk [x Hx]]. exists x. pose proof (Hm _ _ Hx) as [E _]. rewrite Hf. by subst. }
  split; [split; [apply sorted_filter_keys, sortedEntries_strict|]; split|].
  - rewrite filter_slesOf by done. assert (key_ <$> (upperBoundOf m key).*2 = (upperBoundOf m key).*1) as ->; [|apply sorted_filter_keys, sortedEntries_strict].
    rewrite <-list_fmap_compose. apply list_fmap_ext. intros i [k e] [_ Hi]%list_elem_of_lookup_2%elem_of_upperBoundOf. cbn. by apply Hm in Hi as [-> _].
  - intros k i [Hk Hi]%elem_of_upperBoundOf. pose proof (Ht _ _ Hi) as (E & _ & _ & Ha). split; [done|]. destruct (action i); rewrite Hkf; [done| |split; [done|apply Ha]].
    destruct Ha as [-> _]. by intros [_ [? ?]].
  - intros x. unfold inLayers. rewrite Hf. unfold rawMap. rewrite lookup_overlay. split.
    + intros [(k & i & [Hk Hi]%elem_of_upperBoundOf & He & ->)|[[Hk Hx] Hn]].
      * pose proof (Ht _ _ Hi) as (E & _). rewrite E. split; [done|]. rewrite Hi. unfold isErase in He. unfold rawVal. by destruct (action i).
      * split; [done|]. destruct (items_ t !! key_ x) as [i|] eqn:Hi; [|done]. destruct Hn. eapply key_in, elem_of_upperBoundOf. done.
    + intros [Hk Hx]. destruct (items_ t !! key_ x) as [i|] eqn:Hi.
      * left. exists (key_ x), i. rewrite elem_of_upperBoundOf. split; [done|]. unfold rawVal in Hx. unfold isErase. by destruct (action i); simplify_eq.
      * right. split; [done|]. intros ([k i] & Ek & [_ Hi']%elem_of_upperBoundOf)%list_elem_of_fmap. cbn in Ek. congruence.
Qed.

(** Iterating from [upper_bound] visits the entries after the key in order. *)
Lemma iterates_upper P m t key : keyed_ m -> rawOk P m t ->
  exists i l, slesUpperBound t (slesOf m) key = Ret i /\ iterate (stdpp.base.size (items_ t) + stdpp.base.size m) i = Ret l /\
    l = List.filter (fun e => key <? key_ e) (slesOf (rawMap t m)).
Proof.
  intros Hm Ht. destruct (upper_iterOk P m t key Hm Ht) as [Hok Hin].
  assert (exists i, slesUpperBound t (slesOf m) key = Ret i /\ iterOk (iter1_ i) (iter0_ i) /\ ready (iter1_ i) (iter0_ i) /\
    (forall x, inLayers (iter1_ i) (iter0_ i) x <-> key < key_ x /\ rawMap t m !! key_ x = Some x) /\
    (length (iter1_ i) + length (iter0_ i) <= stdpp.base.size (items_ t) + stdpp.base.size m)%nat) as (i & Ei & Hoki & Hr & Hx & Hl).
  { unfold slesUpperBound, newIter. assert (length (upperBoundOf (items_ t) key) <= stdpp.base.size (items_ t))%nat as H1.
    { unfold upperBoundOf. etransitivity; [apply filter_length_le|]. by rewrite sortedEntries_perm, length_map_to_list. }
    assert (length (List.filter (fun e => (key <? key_ e)%Z) (slesOf m)) <= stdpp.base.size m)%nat as H2.
    { etransitivity; [apply filter_length_le|]. unfold slesOf. by rewrite length_fmap, sortedEntries_perm, length_map_to_list. }
    destruct (upperBoundOf (items_ t) key) as [|p l] eqn:E; [eexists; split_and!; [done|done|done|done|cbn; lia]|]. rewrite <-E in *.
    destruct (skip_spec _ _ Hok) as (i & -> & ? & ? & Hx & ?). exists i. split_and!; try done; [|lia]. intros x. by rewrite Hx. }
  destruct (iterate_spec _ i Hoki Hr Hl) as (l & El & Hs & Hl'). exists i, l. split; [done|]. split; [done|].
  pose proof (rawMap_keyed P t m Hm Ht) as Hk. apply sorted_unique; [done| |].
  - rewrite filter_slesOf by done. assert (key_ <$> (upperBoundOf (rawMap t m) key).*2 = (upperBoundOf (rawMap t m) key).*1) as ->.
    { rewrite <-list_fmap_compose. apply list_fmap_ext. intros j [k e] [_ Hj]%list_elem_of_lookup_2%elem_of_upperBoundOf. cbn. by apply Hk in Hj as [-> _]. }
    apply sorted_filter_keys, sortedEntries_strict.
  - intros x. rewrite Hl', Hx, list_elem_of_In, filter_In, <-list_elem_of_In, elem_of_slesOf, Z.ltb_lt by done. tauto.
Qed.

Lemma upperBoundOf_all {A} (m : gmap Z A) : map_Forall (fun k _ => 0 <= k) m -> upperBoundOf m (-1) = sortedEntries m.
Proof.
  intros Hm. unfold upperBoundOf. assert (forall p, p ∈ sortedEntries m -> 0 <= p.1) as Hp.
  { intros [k x] Hp%elem_of_sortedEntries. by apply Hm in Hp. }
  induction (sortedEntries m) as [|p l IH]; cbn; [done|]. pose proof (Hp p ltac:(left)). rewrite (proj2 (Z.ltb_lt _ _)) by lia.
  f_equal. apply IH. intros q Hq. apply Hp. by right.
Qed.

Lemma slesOf_all m : keyed_ m -> List.filter (fun e => -1 <? key_ e) (slesOf m) = slesOf m.
Proof.
  intros Hm. rewrite filter_slesOf by done. rewrite upperBoundOf_all; [done|]. intros k e He. apply Hm in He as (_ & Hk & _). apply Hk.
Qed.

(** Iterating from [begin] visits all the entries in order. *)
Lemma iterates_all P m t : keyed_ m -> rawOk P m t ->
  exists i, slesBegin t (slesOf m) = Ret i /\ iterate (stdpp.base.size (items_ t) + stdpp.base.size m) i = Ret (slesOf (rawMap t m)).
Proof.
  intros Hm Ht. destruct (iterates_upper P m t (-1) Hm Ht) as (i & l & Ei & El & ->). exists i. split.
  - rewrite <-Ei. unfold slesUpperBound, slesBegin. rewrite slesOf_all by done. rewrite upperBoundOf_all; [done|].
    intros k x Hx. apply Ht in Hx as (_ & Hk & _). apply Hk.
  - rewrite El, slesOf_all; [done|]. by apply (rawMap_keyed P).
Qed.
