(* ===== verification/ApplyViewFacts.v ===== *)
(** * Views that transactions change

    [ApplyStateTable] as a layer.  The entries of the table are cells of a heap that clients
    hold and change; at rest every cached entry is still the one of the base. *)
From S2P Require Import Prelude Serializer SField Number Amounts NodeID STObject STAccess Views StateTables StateTablesFacts.
Import ApplyStateTable.

Definition applyVal (h : Heap) (i : Action * nat) : option SLE := match i.1 with Erase => None | _ => cells_ h !! i.2 end.

Definition applyItemOk (P : SLE -> Prop) (m : gmap Z SLE) (h : Heap) (k : Z) (i : Action * nat) : Prop :=
  exists e, cells_ h !! i.2 = Some e /\ key_ e = k /\ isKey k /\ k <> 0 /\
    match i.1 with
    | Cache => m !! k = Some e
    | Erase => is_Some (m !! k)
    | Insert => m !! k = None /\ P e
    | Modify => is_Some (m !! k) /\ P e
    end.

Definition heapOk (h : Heap) : Prop := map_Forall (fun p _ => (p < fresh_ h)%nat) (cells_ h).

Definition applyOk (P : SLE -> Prop) (m : gmap Z SLE) (t : ApplyStateTable) (h : Heap) : Prop :=
  map_Forall (applyItemOk P m h) (items_ t) /\ heapOk h.

Definition applyMap (t : ApplyStateTable) (h : Heap) (m : gmap Z SLE) : gmap Z SLE := overlay (applyVal h) (items_ t) m.

Lemma deref_cell h p e : cells_ h !! p = Some e -> deref h p = Ret e.
Proof. unfold deref. by intros ->. Qed.

Section Table.
Context (P : SLE -> Prop) (m : gmap Z SLE).

Lemma applyMap_keyed t h : keyed_ m -> applyOk P m t h -> keyed_ (applyMap t h m).
Proof.
  intros Hm [Ht _] k e. unfold applyMap. rewrite lookup_overlay. destruct (items_ t !! k) as [i|] eqn:Hi; [|by apply Hm].
  apply Ht in Hi as (x & Hx & Hk & Hkey & Hz & _). unfold applyVal. destruct i as [[] p]; cbn in *; intros He; simplify_eq; done.
Qed.

Lemma applyMap_insert t h k i :
  applyMap (withItems t (<[k := i]> (items_ t))) h m =
  match applyVal h i with Some e => <[k := e]> (applyMap t h m) | None => delete k (applyMap t h m) end.
Proof. apply overlay_insert. Qed.

(** What the map has for an item, by its action *)
Lemma applyMap_item t h k a p :
  applyOk P m t h -> items_ t !! k = Some (a, p) ->
  exists e, cells_ h !! p = Some e /\ key_ e = k /\ applyMap t h m !! k = match a with Erase => None | _ => Some e end.
Proof.
  intros [Ht _] Hi. unfold applyMap. rewrite lookup_overlay, Hi. apply Ht in Hi as (e & He & Hk & _). cbn in *. exists e.
  split; [done|]. split; [done|]. unfold applyVal. by destruct a.
Qed.

(** Growing the heap leaves the table alone. *)
Lemma alloc_grows h e q x : heapOk h -> cells_ h !! q = Some x -> cells_ (alloc h e).2 !! q = Some x.
Proof. intros Hh Hq. cbn. rewrite lookup_insert_ne; [done|]. apply Hh in Hq. lia. Qed.

Lemma alloc_heapOk h e : heapOk h -> heapOk (alloc h e).2.
Proof.
  intros Hh. unfold heapOk. cbn. apply map_Forall_insert_2; [lia|]. intros p x Hp%Hh. lia.
Qed.

Lemma alloc_ok t h e : applyOk P m t h -> applyOk P m t (alloc h e).2 /\ applyMap t (alloc h e).2 m = applyMap t h m.
Proof.
  intros [Ht Hh]. split; [split; [|by apply alloc_heapOk]|].
  - intros k i Hi. apply Ht in Hi as (x & Hx & Hr). exists x. split; [by apply alloc_grows|done].
  - apply map_eq. intros k. unfold applyMap. rewrite !lookup_overlay. destruct (items_ t !! k) as [i|] eqn:Hi; [|done].
    apply Ht in Hi as (x & Hx & _). unfold applyVal. destruct i as [[] p]; cbn [fst snd] in *; try done;
      rewrite (alloc_grows h e p x Hh Hx); done.
Qed.

Lemma applyOk_insert t h k i : applyOk P m t h -> applyItemOk P m h k i -> applyOk P m (withItems t (<[k := i]> (items_ t))) h.
Proof. intros [Ht Hh] Hi. split; [|done]. by apply map_Forall_insert_2. Qed.

Lemma applyOk_delete t h k : applyOk P m t h -> applyOk P m (withItems t (delete k (items_ t))) h.
Proof. intros [Ht Hh]. split; [|done]. by apply map_Forall_delete. Qed.

(** *** The members *)

Lemma erase_spec t h p e : applyOk P m t h -> cells_ h !! p = Some e ->
  match items_ t !! key_ e with
  | Some (Erase, _) | None => erase t h p = LogicError
  | Some (_, q) =>
    if decide (q = p) then exists t', erase t h p = Ret t' /\ applyOk P m t' h /\ applyMap t' h m = delete (key_ e) (applyMap t h m)
    else erase t h p = LogicError
  end.
Proof.
  intros Hok He. unfold erase. rewrite (deref_cell _ _ _ He). cbn [obind]. destruct (items_ t !! key_ e) as [[a q]|] eqn:Hi; [|done].
  pose proof (proj1 Hok _ _ Hi) as (x & Hx & Hk & Hkey & Hz & Ha). cbn [fst snd] in *.
  destruct (decide (q = p)) as [->|Hq]; [|destruct (Nat.eqb_spec q p); [done|by destruct a]]. rewrite Nat.eqb_refl. cbn [negb].
  assert (forall a', is_Some (m !! key_ e) -> a' = Erase -> exists t', @Ret ApplyStateTable (withItems t (<[key_ e := (a', p)]> (items_ t))) = Ret t' /\
    applyOk P m t' h /\ applyMap t' h m = delete (key_ e) (applyMap t h m)) as Hdel.
  { intros a' Hm ->. eexists. split; [done|]. split; [|by rewrite applyMap_insert]. apply applyOk_insert; [done|]. exists x. by split_and!. }
  destruct a; [apply Hdel; [by eexists|done]|done| |apply Hdel; [apply Ha|done]].
  eexists. split; [done|]. split; [by apply applyOk_delete|]. unfold applyMap, withItems. cbn [items_]. rewrite overlay_delete. by destruct Ha as [-> _].
Qed.

Lemma rawErase_spec t h p e :
  applyOk P m t h -> keyed_ m -> cells_ h !! p = Some e -> is_Some (applyMap t h m !! key_ e) ->
  exists t', rawErase t h p = Ret t' /\ applyOk P m t' h /\ applyMap t' h m = delete (key_ e) (applyMap t h m).
Proof.
  intros Hok Hm He Hs. unfold rawErase. rewrite (deref_cell _ _ _ He). cbn [obind].
  assert (isKey (key_ e) /\ key_ e <> 0) as [Hkey Hz]. { destruct Hs as [x Hx]. apply (applyMap_keyed t h Hm Hok) in Hx as (_ & ? & ?). done. }
  assert (is_Some (m !! key_ e) -> exists t', @Ret ApplyStateTable (withItems t (<[key_ e := (Erase, p)]> (items_ t))) = Ret t' /\
    applyOk P m t' h /\ applyMap t' h m = delete (key_ e) (applyMap t h m)) as Hdel.
  { intros Hb. eexists. split; [done|]. split; [|by rewrite applyMap_insert]. apply applyOk_insert; [done|]. exists e. by split_and!. }
  destruct (items_ t !! key_ e) as [[a q]|] eqn:Hi.
  - pose proof (proj1 Hok _ _ Hi) as (x & Hx & _ & _ & _ & Ha). destruct (applyMap_item t h _ a q Hok Hi) as (y & _ & _ & Ey). rewrite Ey in Hs.
    cbn [fst snd] in *. destruct a; [apply Hdel; by eexists|by destruct Hs| |apply Hdel, Ha].
    eexists. split; [done|]. split; [by apply applyOk_delete|]. unfold applyMap, withItems. cbn [items_]. rewrite overlay_delete. by destruct Ha as [-> _].
  - apply Hdel. unfold applyMap in Hs. by rewrite lookup_overlay, Hi in Hs.
Qed.

Lemma insert_spec t h p e :
  applyOk P m t h -> cells_ h !! p = Some e -> isKey (key_ e) -> key_ e <> 0 -> P e -> applyMap t h m !! key_ e = None ->
  exists t', insert t h p = Ret t' /\ applyOk P m t' h /\ applyMap t' h m = <[key_ e := e]> (applyMap t h m).
Proof.
  intros Hok He Hkey Hz HP Hn. unfold insert. rewrite (deref_cell _ _ _ He). cbn [obind]. destruct (items_ t !! key_ e) as [[a q]|] eqn:Hi.
  - destruct (applyMap_item t h _ a q Hok Hi) as (y & _ & _ & Ey). rewrite Ey in Hn. destruct a; try done.
    pose proof (proj1 Hok _ _ Hi) as (x & Hx & _ & _ & _ & Ha). eexists. split; [done|].
    split; [apply applyOk_insert; [done|]; exists e; by split_and!|]. rewrite applyMap_insert. unfold applyVal. cbn. by rewrite He.
  - unfold applyMap in Hn. rewrite lookup_overlay, Hi in Hn. eexists. split; [done|].
    split; [apply applyOk_insert; [done|]; exists e; by split_and!|]. rewrite applyMap_insert. unfold applyVal. cbn. by rewrite He.
Qed.

Lemma replace_spec t h p e :
  applyOk P m t h -> keyed_ m -> cells_ h !! p = Some e -> P e -> is_Some (applyMap t h m !! key_ e) ->
  exists t', replace t h p = Ret t' /\ applyOk P m t' h /\ applyMap t' h m = <[key_ e := e]> (applyMap t h m).
Proof.
  intros Hok Hm He HP Hs. unfold replace. rewrite (deref_cell _ _ _ He). cbn [obind].
  assert (isKey (key_ e) /\ key_ e <> 0) as [Hkey Hz]. { destruct Hs as [x Hx]. apply (applyMap_keyed t h Hm Hok) in Hx as (_ & ? & ?). done. }
  assert (forall a, applyItemOk P m h (key_ e) (a, p) -> a <> Erase -> exists t', @Ret ApplyStateTable (withItems t (<[key_ e := (a, p)]> (items_ t))) = Ret t' /\
    applyOk P m t' h /\ applyMap t' h m = <[key_ e := e]> (applyMap t h m)) as Hput.
  { intros a Ha Hna. eexists. split; [done|]. split; [by apply applyOk_insert|]. rewrite applyMap_insert. unfold applyVal. cbn. rewrite He. by destruct a. }
  destruct (items_ t !! key_ e) as [[a q]|] eqn:Hi.
  - pose proof (proj1 Hok _ _ Hi) as (x & Hx & _ & _ & _ & Ha). destruct (applyMap_item t h _ a q Hok Hi) as (y & _ & _ & Ey). rewrite Ey in Hs.
    cbn [fst snd] in *. destruct a; [| by destruct Hs| |]; (apply Hput; [|done]); exists e; split_and!; try done; split; try done; first [apply Ha|by eexists].
  - apply Hput; [|done]. exists e. split_and!; try done. split; [|done]. unfold applyMap in Hs. by rewrite lookup_overlay, Hi in Hs.
Qed.

(** A client changes an entry it holds and says so. *)
Lemma change_spec t h p a e e' :
  applyOk P m t h -> items_ t !! key_ e = Some (a, p) -> a <> Erase -> cells_ h !! p = Some e -> key_ e' = key_ e -> P e' ->
  let h' := mkHeap (<[p := e']> (cells_ h)) (fresh_ h) in
  exists t', update t h' p = Ret t' /\ applyOk P m t' h' /\ applyMap t' h' m = <[key_ e := e']> (applyMap t h m).
Proof.
  intros [Ht Hh] Hi Ha He Hk HP h'. assert (cells_ h' !! p = Some e') as He' by apply lookup_insert_eq.
  pose proof (Ht _ _ Hi) as (x & Hx & _ & Hkey & Hz & Hm). cbn [fst snd] in *. simplify_eq.
  assert (heapOk h') as Hh'. { apply map_Forall_insert_2; [by apply Hh in He|done]. }
  assert (forall j i, j <> key_ e -> items_ t !! j = Some i -> cells_ h' !! i.2 = cells_ h !! i.2) as Hother.
  { intros j i Hj Hji. cbn. apply lookup_insert_ne. intros E. apply Ht in Hji as (y & Hy & Hyk & _). rewrite <-E in Hy. congruence. }
  assert (forall b, b <> Erase -> (b = a \/ (a = Cache /\ b = Modify)) -> (b = Cache -> False) ->
    let t' := withItems t (<[key_ e := (b, p)]> (items_ t)) in applyOk P m t' h' /\ applyMap t' h' m = <[key_ e := e']> (applyMap t h m)) as Hput.
  { intros b Hb Hab Hnc t'. split; [split; [|done]|].
    - intros j i Hj. cbn in Hj. destruct (decide (j = key_ e)) as [->|Hne].
      + rewrite lookup_insert_eq in Hj. injection Hj as <-. exists e'. split_and!; try done. cbn [fst].
        destruct b, a; try done; try (split; [|done]); try (by apply Hm); try (by destruct (Hnc eq_refl)); naive_solver.
      + rewrite lookup_insert_ne in Hj by done. pose proof (Ht _ _ Hj) as (y & Hy & Hr). exists y. by rewrite (Hother j).
    - apply map_eq. intros j. unfold applyMap. rewrite lookup_overlay. cbn [t' withItems items_]. destruct (decide (j = key_ e)) as [->|Hne].
      + rewrite !lookup_insert_eq. unfold applyVal. cbn [fst snd]. rewrite He'. by destruct b.
      + rewrite !lookup_insert_ne, lookup_overlay by done. destruct (items_ t !! j) as [i|] eqn:Hj; [|done]. unfold applyVal. by rewrite (Hother j i). }
  unfold update. rewrite (deref_cell _ _ _ He'). cbn [obind]. rewrite Hk, Hi, Nat.eqb_refl. cbn [negb].
  destruct a; [|done| |]; (eexists; split; [done|]).
  - apply Hput; try done. by right.
  - assert (withItems t (<[key_ e := (Insert, p)]> (items_ t)) = t) as Et by (destruct t; unfold withItems; cbn in *; by rewrite insert_id).
    pose proof (Hput Insert ltac:(done) ltac:(by left) ltac:(done)) as Hp. cbv zeta in Hp. by rewrite Et in Hp.
  - assert (withItems t (<[key_ e := (Modify, p)]> (items_ t)) = t) as Et by (destruct t; unfold withItems; cbn in *; by rewrite insert_id).
    pose proof (Hput Modify ltac:(done) ltac:(by left) ltac:(done)) as Hp. cbv zeta in Hp. by rewrite Et in Hp.
Qed.
End Table.

(** ** The view *)

Section View.
Context {V : Type} `{ReadLaws V} (P : SLE -> Prop).

Lemma read_applyMap t h base k :
  viewOk base -> applyOk P (viewMap base) t h -> isKey (kl_key k) ->
  read t h base k = Ret (applyMap t h (viewMap base) !! kl_key k ≫= checked k).
Proof.
  intros Hok Ht Hk. unfold read. destruct (items_ t !! kl_key k) as [[a p]|] eqn:Hi.
  - destruct (applyMap_item P _ t h _ a p Ht Hi) as (e & He & _ & ->). unfold checked.
    destruct a; cbn; try done; rewrite (deref_cell _ _ _ He); cbn; by destruct (keyletCheck k e).
  - unfold applyMap. rewrite lookup_overlay, Hi. by apply view_read.
Qed.

Lemma exists_applyMap t h base k :
  viewOk base -> applyOk P (viewMap base) t h -> isKey (kl_key k) -> exists b, exists_ t h base k = Ret b /\
    (b = true -> is_Some (applyMap t h (viewMap base) !! kl_key k)) /\ (is_Some (applyMap t h (viewMap base) !! kl_key k ≫= checked k) -> b = true).
Proof.
  intros Hok Ht Hk. unfold exists_. destruct (items_ t !! kl_key k) as [[a p]|] eqn:Hi.
  - destruct (applyMap_item P _ t h _ a p Ht Hi) as (e & He & _ & ->). unfold checked.
    destruct a; cbn; try (rewrite (deref_cell _ _ _ He); cbn; exists (keyletCheck k e); split; [done|]; split; [by eexists|];
      by destruct (keyletCheck k e); [|intros [? ?]]).
    exists false. split; [done|]. split; [done|]. by intros [? ?].
  - unfold applyMap. rewrite !lookup_overlay, Hi. by apply view_exists.
Qed.

Lemma applyVal_erased m t h i : applyOk P m t h -> (exists k, items_ t !! k = Some i) -> isErase i = true <-> applyVal h i = None.
Proof.
  intros [Ht _] [k Hi]. apply Ht in Hi as (e & He & _). unfold isErase, applyVal. by destruct i as [[] p]; cbn in *; rewrite ?He.
Qed.

(** The table with its entries, for the lemmas on successors *)
Definition resolved (h : Heap) (i : Action * nat) : option SLE := if isErase i then None else Some (default (mkSLE 0 0 (mkObject None [])) (cells_ h !! i.2)).

Lemma resolved_map m t h : applyOk P m t h -> overlay (resolved h) (items_ t) m = applyMap t h m.
Proof.
  intros [Ht _]. apply map_eq. intros k. unfold applyMap. rewrite !lookup_overlay. destruct (items_ t !! k) as [i|] eqn:Hi; [|done].
  apply Ht in Hi as (e & He & _). unfold resolved, applyVal, isErase. by destruct i as [[] p]; cbn in *; rewrite ?He.
Qed.

#[refine] Definition ApplyView_laws : ReadLaws (ApplyView V) := {|
  viewOk v := viewOk (av_base v) /\ applyOk P (viewMap (av_base v)) (av_items v) (av_heap v);
  viewMap v := applyMap (av_items v) (av_heap v) (viewMap (av_base v));
|}.
Proof.
  - intros v [Hok Ht]. by apply (applyMap_keyed P); [apply view_keyed|].
  - intros v k [Hok Ht]. by apply read_applyMap.
  - intros v k [Hok Ht]. by apply exists_applyMap.
  - intros v key last [Hok Ht] Hk. rewrite <-(resolved_map _ _ _ Ht). apply (tableSucc_spec isErase (resolved (av_heap v))); [|done|done].
    intros i. unfold resolved. by destruct (isErase i).
Defined.

#[refine] Definition ApplyView_rawLaws (fixCleanup : bool) : @RawLaws (ApplyView V) _ ApplyView_laws (ApplyView_raw fixCleanup) :=
  @Build_RawLaws _ _ ApplyView_laws (ApplyView_raw fixCleanup) P _ _ _ _.
Proof.
  - intros v e [Hok Ht] Hs. cbn in Hs. destruct (alloc_ok P _ _ _ e Ht) as [Ht' Em]. rewrite <-Em in Hs.
    destruct (rawErase_spec P _ _ _ (fresh_ (av_heap v)) e Ht' (view_keyed _ Hok) (lookup_insert_eq _ _ _) Hs) as (t' & E & Hok' & Em').
    eexists. cbn. unfold ApplyViewBase.rawErase, ApplyViewBase.onRaw, ApplyViewBase.onTable. cbn in *. rewrite E. cbn. split; [done|]. split; [done|]. rewrite Em in Em'. exact Em'.
  - intros v e [Hok Ht] Hk Hz Hs HP. cbn in Hs. destruct (alloc_ok P _ _ _ e Ht) as [Ht' Em]. rewrite <-Em in Hs.
    destruct (insert_spec P _ _ _ (fresh_ (av_heap v)) e Ht' (lookup_insert_eq _ _ _) Hk Hz HP Hs) as (t' & E & Hok' & Em').
    eexists. cbn. unfold ApplyViewBase.rawInsert, ApplyViewBase.onRaw, ApplyViewBase.onTable. cbn in *. rewrite E. cbn. split; [done|]. split; [done|]. rewrite Em in Em'. exact Em'.
  - intros v e [Hok Ht] Hs HP. cbn in Hs. destruct (alloc_ok P _ _ _ e Ht) as [Ht' Em]. rewrite <-Em in Hs.
    destruct (replace_spec P _ _ _ (fresh_ (av_heap v)) e Ht' (view_keyed _ Hok) (lookup_insert_eq _ _ _) HP Hs) as (t' & E & Hok' & Em').
    eexists. cbn. unfold ApplyViewBase.rawReplace, ApplyViewBase.onRaw, ApplyViewBase.onTable. cbn in *. rewrite E. cbn. split; [done|]. split; [done|]. rewrite Em in Em'. exact Em'.
  - intros v fee v' [Hok Ht]. cbn. unfold ApplyViewBase.rawDestroyXRP, destroyXRP. destruct (intAmountAdd _ _ _); try done. by intros [= <-].
Defined.

(** *** What clients do *)

Lemma peek_spec v k : @viewOk _ _ ApplyView_laws v -> isKey (kl_key k) ->
  exists p v', ApplyViewBase.peek v k = Ret (p, v') /\ @viewOk _ _ ApplyView_laws v' /\ av_base v' = av_base v /\
    @viewMap _ _ ApplyView_laws v' = @viewMap _ _ ApplyView_laws v /\
    match p with
    | None => @viewMap _ _ ApplyView_laws v !! kl_key k ≫= checked k = None
    | Some p => exists e a, cells_ (av_heap v') !! p = Some e /\ items_ (av_items v') !! kl_key k = Some (a, p) /\ a <> Erase /\
        key_ e = kl_key k /\ @viewMap _ _ ApplyView_laws v !! kl_key k ≫= checked k = Some e
    end.
Proof.
  intros [Hok Ht] Hk. unfold ApplyViewBase.peek, peek. cbn [viewMap ApplyView_laws].
  destruct (items_ (av_items v) !! kl_key k) as [[a p]|] eqn:Hi.
  - destruct (applyMap_item P _ _ _ _ a p Ht Hi) as (e & He & Hke & Em). destruct v as [b t h]. cbn [av_base av_items av_heap] in *. rewrite Em.
    assert (a = Erase \/ a <> Erase) as [->|Hne] by (destruct a; auto); [by exists None; eexists|].
    assert (match a with Erase => None | _ => Some e end = Some e) as -> by (by destruct a).
    assert (forall A (x y : Outcome A), match a with Erase => x | _ => y end = y) as Hmatch by (by destruct a).
    exists (if keyletCheck k e then Some p else None). exists (mkApplyView b t h).
    split; [destruct a; try done; rewrite (deref_cell _ _ _ He); cbn; by destruct (keyletCheck k e)|].
    split; [done|]. split; [done|]. split; [done|]. unfold checked. cbn. destruct (keyletCheck k e); [|done]. exists e, a. by split_and!.
  - rewrite (view_read _ _ Hok Hk). cbn [obind]. assert (applyMap (av_items v) (av_heap v) (viewMap (av_base v)) !! kl_key k = viewMap (av_base v) !! kl_key k) as ->.
    { unfold applyMap. by rewrite lookup_overlay, Hi. }
    destruct (viewMap (av_base v) !! kl_key k) as [e|] eqn:He; cbn [mbind option_bind]; [|destruct v; cbn; by exists None; eexists].
    destruct (view_keyed _ Hok _ _ He) as (Hke & _ & Hz). unfold checked. destruct (keyletCheck k e) eqn:Hc; [|destruct v; cbn; by exists None; eexists].
    cbn [alloc]. destruct (alloc_ok P _ _ _ e Ht) as [Ht' Em]. exists (Some (fresh_ (av_heap v))). eexists. split; [done|]. cbn [av_base av_items av_heap].
    assert (cells_ (alloc (av_heap v) e).2 !! fresh_ (av_heap v) = Some e) as Hcell by apply lookup_insert_eq. rewrite Hke.
    split; [split; [done|]; apply applyOk_insert; [done|]; exists e; by split_and!|]. split; [done|]. split.
    + change (mkHeap (<[fresh_ (av_heap v) := e]> (cells_ (av_heap v))) (S (fresh_ (av_heap v)))) with (alloc (av_heap v) e).2.
      rewrite applyMap_insert. unfold applyVal. cbn [fst snd]. rewrite Hcell, Em. apply insert_id. unfold applyMap. by rewrite lookup_overlay, Hi.
    + exists e, Cache. split; [apply lookup_insert_eq|]. split; [apply lookup_insert_eq|]. by split_and!.
Qed.
End View.
