(* ===== verification/ViewSpec.v ===== *)
(** * Ledger views: the properties

    What clients of a sandbox do, what it does to the entries they see, and what the base gets
    when the sandbox is applied; the same for open views. *)
From S2P Require Import Prelude Serializer SField Number Amounts NodeID STObject STAccess Views StateTables StateTablesFacts ApplyViewFacts.

(** ** Clients *)

(** Looking at an entry, adding a new one, changing one in place with [update], and erasing one,
    as transactors do. *)
Inductive ViewOp :=
| VPeek (k : Keylet)
| VAdd (e : SLE)
| VChange (k : Keylet) (f : SLE -> SLE)
| VRemove (k : Keylet).

Definition runViewOp {V} `{ReadView V} (op : ViewOp) (v : ApplyView V) : Outcome (ApplyView V) :=
  match op with
  | VPeek k => let? (_, v) := ApplyViewBase.peek v k in Ret v
  | VAdd e => let '(p, v) := ApplyViewBase.make v e in ApplyViewBase.insert v p
  | VChange k f =>
    let? (p, v) := ApplyViewBase.peek v k in
    match p with
    | None => Ret v
    | Some p => let? e := deref (av_heap v) p in ApplyViewBase.update (ApplyViewBase.assign v p (f e)) p
    end
  | VRemove k =>
    let? (p, v) := ApplyViewBase.peek v k in
    match p with None => Ret v | Some p => ApplyViewBase.erase v p end
  end.

Fixpoint runViewOps {V} `{ReadView V} (ops : list ViewOp) (v : ApplyView V) : Outcome (ApplyView V) :=
  match ops with
  | [] => Ret v
  | op :: ops => let? v := runViewOp op v in runViewOps ops v
  end.

(** The same on a finite map *)
Definition mapOp (op : ViewOp) (m : gmap Z SLE) : gmap Z SLE :=
  match op with
  | VPeek _ => m
  | VAdd e => <[key_ e := e]> m
  | VChange k f => match m !! kl_key k ≫= checked k with Some e => <[kl_key k := f e]> m | None => m end
  | VRemove k => match m !! kl_key k ≫= checked k with Some _ => delete (kl_key k) m | None => m end
  end.

Definition mapOps (ops : list ViewOp) (m : gmap Z SLE) : gmap Z SLE := foldl (fun m op => mapOp op m) m ops.

(** New entries have new keys, and a change keeps the key. *)
Definition opOk (P : SLE -> Prop) (m : gmap Z SLE) (op : ViewOp) : Prop :=
  match op with
  | VPeek k | VRemove k => isKey (kl_key k)
  | VAdd e => isKey (key_ e) /\ key_ e <> 0 /\ m !! key_ e = None /\ P e
  | VChange k f => isKey (kl_key k) /\ forall e, m !! kl_key k ≫= checked k = Some e -> key_ (f e) = key_ e /\ P (f e)
  end.

Fixpoint opsOk (P : SLE -> Prop) (m : gmap Z SLE) (ops : list ViewOp) : Prop :=
  match ops with
  | [] => True
  | op :: ops => opOk P m op /\ opsOk P (mapOp op m) ops
  end.

Section Sandbox.
Context {V : Type} `{ReadLaws V} (P : SLE -> Prop).

Abbreviation avOk := (viewOk (ReadLaws := ApplyView_laws P)).
Abbreviation avMap := (viewMap (ReadLaws := ApplyView_laws P)).
Abbreviation drops v := (ApplyStateTable.dropsDestroyed_ (av_items v)).

(** The members that change entries leave the drops alone. *)
Lemma table_drops f t h p t' :
  f = ApplyStateTable.erase \/ f = ApplyStateTable.insert \/ f = ApplyStateTable.update -> f t h p = Ret t' ->
  ApplyStateTable.dropsDestroyed_ t' = ApplyStateTable.dropsDestroyed_ t.
Proof.
  intros Hf. destruct Hf as [->|[->| ->]]; unfold ApplyStateTable.erase, ApplyStateTable.insert, ApplyStateTable.update;
    (destruct (deref h p) as [e| | | | |]; cbn [obind]; try done); (destruct (ApplyStateTable.items_ t !! key_ e) as [[[] q]|]; try done);
    try (destruct (q =? p)%nat; cbn [negb]; try done); by intros [= <-].
Qed.

Lemma peek_drops (v : ApplyView V) k p v' : ApplyViewBase.peek v k = Ret (p, v') -> drops v' = drops v.
Proof.
  unfold ApplyViewBase.peek, ApplyStateTable.peek. destruct (ApplyStateTable.items_ (av_items v) !! kl_key k) as [[a q]|].
  - destruct a; cbn; try (by intros [= _ <-]); (destruct (deref (av_heap v) q) as [e| | | | |]; cbn; try done); destruct (keyletCheck k e); cbn; by intros [= _ <-].
  - destruct (viewRead (av_base v) k) as [[e|]| | | | |]; cbn; try done; by intros [= _ <-].
Qed.

Lemma runViewOp_spec op (v : ApplyView V) :
  avOk v -> opOk P (avMap v) op ->
  exists v', runViewOp op v = Ret v' /\ avOk v' /\ av_base v' = av_base v /\ drops v' = drops v /\ avMap v' = mapOp op (avMap v).
Proof.
  intros Hok Hop. destruct op as [k|e|k f|k]; cbn [runViewOp mapOp] in *.
  - destruct (peek_spec P v k Hok Hop) as (p & v' & E & Hok' & Hb & Em & _). rewrite E. exists v'. split_and!; try done. by eapply peek_drops.
  - destruct Hok as [Hok Ht]. destruct Hop as (Hk & Hz & Hn & HP). destruct (alloc_ok P _ _ _ e Ht) as [Ht' Em]. cbn in Hn. rewrite <-Em in Hn.
    destruct (insert_spec P _ _ _ (fresh_ (av_heap v)) e Ht' (lookup_insert_eq _ _ _) Hk Hz HP Hn) as (t' & E & Hok' & Em').
    cbn in *. unfold ApplyViewBase.insert, ApplyViewBase.onTable. cbn [av_items av_heap av_base] in *. rewrite E. eexists. split; [done|]. split; [done|].
    split; [done|]. split; [cbn; eapply table_drops; [|done]; by auto|]. rewrite Em in Em'. exact Em'.
  - destruct Hop as [Hk Hf]. destruct (peek_spec P v k Hok Hk) as (p & v1 & E & Hok1 & Hb & Em & Hp). rewrite E. cbn [obind].
    pose proof (peek_drops _ _ _ _ E) as Hd. destruct p as [p|]; [|exists v1; rewrite Hp; by split_and!].
    destruct Hp as (e & a & He & Hi & Ha & Hke & Hm). rewrite Hm. rewrite (deref_cell _ _ _ He). cbn [obind]. destruct (Hf e Hm) as [Hkf HP].
    destruct Hok1 as [Hokb Ht1]. rewrite <-Hke in Hi.
    destruct (change_spec P _ _ _ p a e (f e) Ht1 Hi Ha He Hkf HP) as (t' & E' & Hok' & Em').
    unfold ApplyViewBase.update, ApplyViewBase.onTable, ApplyViewBase.assign. cbn [av_items av_heap av_base]. rewrite E'. eexists. split; [done|].
    split; [split; [done|exact Hok']|]. split; [done|]. split; [cbn; rewrite <-Hd; eapply table_drops; [|done]; by auto|]. rewrite Hke in Em'. rewrite <-Em. exact Em'.
  - destruct (peek_spec P v k Hok Hop) as (p & v1 & E & Hok1 & Hb & Em & Hp). rewrite E. cbn [obind].
    pose proof (peek_drops _ _ _ _ E) as Hd. destruct p as [p|]; [|exists v1; rewrite Hp; by split_and!].
    destruct Hp as (e & a & He & Hi & Ha & Hke & Hm). rewrite Hm. destruct Hok1 as [Hokb Ht1]. pose proof (erase_spec P _ _ _ p e Ht1 He) as Her.
    rewrite Hke, Hi in Her. unfold ApplyViewBase.erase, ApplyViewBase.onTable.
    assert (exists t', ApplyStateTable.erase (av_items v1) (av_heap v1) p = Ret t' /\ applyOk P (viewMap (av_base v1)) t' (av_heap v1) /\
      applyMap t' (av_heap v1) (viewMap (av_base v1)) = delete (kl_key k) (applyMap (av_items v1) (av_heap v1) (viewMap (av_base v1)))) as (t' & E' & Hok' & Em').
    { destruct a; try done; destruct (decide (p = p)); done. }
    rewrite E'. eexists. split; [done|]. split; [done|]. split; [done|]. split; [cbn; rewrite <-Hd; eapply table_drops; [|done]; by auto|]. rewrite <-Em. exact Em'.
Qed.

Lemma runViewOps_spec ops : forall v : ApplyView V, avOk v -> opsOk P (avMap v) ops ->
  exists v', runViewOps ops v = Ret v' /\ avOk v' /\ av_base v' = av_base v /\ drops v' = drops v /\ avMap v' = mapOps ops (avMap v).
Proof.
  induction ops as [|op ops IH]; intros v Hok Hops; cbn [runViewOps]; [by exists v|]. destruct Hops as [Hop Hops].
  destruct (runViewOp_spec op v Hok Hop) as (v1 & -> & Hok1 & Hb1 & Hd1 & Em1). cbn [obind]. rewrite <-Em1 in Hops.
  destruct (IH v1 Hok1 Hops) as (v2 & E & Hok2 & Hb2 & Hd2 & Em2). exists v2. unfold mapOps. cbn [foldl]. rewrite <-Em1. split_and!; congruence || done.
Qed.

Lemma newView_ok base : viewOk base -> avOk (ApplyViewBase.newView base) /\ avMap (ApplyViewBase.newView base) = viewMap base.
Proof. intros Hok. split; [split; [done|]; split; [apply map_Forall_empty|apply map_Forall_empty]|]. apply overlay_empty. Qed.
End Sandbox.

(** ** Applying a sandbox *)

Definition applyChange (h : Heap) (i : ApplyStateTable.Action * nat) : Change :=
  match cells_ h !! i.2 with
  | None => Keep
  | Some e => match i.1 with ApplyStateTable.Cache => Keep | ApplyStateTable.Erase => Del e | ApplyStateTable.Insert => Ins e | ApplyStateTable.Modify => Rep e end
  end.

Lemma applyItems_run {W} `{RawLaws W} (h : Heap) l (to : W) : Forall (fun p => is_Some (cells_ h !! p.2.2)) l ->
  ApplyStateTable.applyItems h l to = runChanges (prod_map id (applyChange h) <$> l) to.
Proof.
  intros Hl. revert to. induction Hl as [|[k [a p]] l [e He] Hl IH]; intros to; cbn; [done|]. unfold ApplyStateTable.applyItem, applyChange. cbn in *. rewrite He.
  destruct a; rewrite ?(deref_cell _ _ _ He); cbn; [apply IH|destruct (rawErase to e)|destruct (rawInsert to e)|destruct (rawReplace to e)]; cbn; auto.
Qed.

Lemma table_applies {W} `{RawLaws W} (t : ApplyStateTable.ApplyStateTable) (h : Heap) (to to1 : W) :
  viewOk to -> applyOk storable (viewMap to) t h -> rawDestroyXRP to (ApplyStateTable.dropsDestroyed_ t) = Ret to1 ->
  exists to', ApplyStateTable.apply t h to = Ret to' /\ viewOk to' /\ viewMap to' = applyMap t h (viewMap to).
Proof.
  intros Hok [Ht Hh] Hd. unfold ApplyStateTable.apply. rewrite Hd. cbn [obind]. destruct (raw_destroy to _ to1 Hok Hd) as [Hok1 E1].
  destruct (runChanges_items (ApplyStateTable.items_ t) (applyChange h) to1 Hok1) as (to' & E & Hok' & Hm).
  { rewrite E1. intros k [a p] Hi. apply Ht in Hi as (e & He & Hk & Hkey & Hz & Ha). unfold applyChange. cbn in *. rewrite He. destruct a; cbn; naive_solver. }
  exists to'. rewrite applyItems_run, E.
  2: { apply Forall_forall. intros [k i] Hi%elem_of_sortedEntries. apply Ht in Hi as (e & He & _). by exists e. }
  split; [done|]. split; [done|]. apply map_eq. intros k. rewrite Hm, E1. unfold applyMap. rewrite lookup_overlay.
  destruct (ApplyStateTable.items_ t !! k) as [[a p]|] eqn:Hi; [|done]. apply Ht in Hi as (e & He & _ & _ & _ & Ha). unfold applyChange, applyVal. cbn in *. rewrite He.
  destruct a; cbn; done.
Qed.
