(* ===== verification/LedgerView.v ===== *)
(** * Ledgers as views

    [Ledger] of src/libxrpl/ledger/Ledger.cpp: the header and the two trees, the state tree read
    and changed through the interfaces of views, with every entry in its serialized form.  A
    missing node is [RuntimeError]; the program ends at a [logicError], which is [LogicError]. *)
From S2P Require Import Prelude Serializer SField Number Amounts NodeID STObject STAccess Timing LedgerHeader.
From S2P Require Import ShaMap ShaMapFacts ShaMapSpec ShaMapIter Views.

Abbreviation LogicError := Serializer.LogicError.

Record Ledger := mkLedger { header_ : LedgerHeader; txMap_ : Node; stateMap_ : Node }.

Module Ledger.
Definition withState (l : Ledger) (root : Node) : Ledger := mkLedger (header_ l) (txMap_ l) root.

Definition lift {A} (r : MapResult A) : Outcome A :=
  match r with
  | Done a => Ret a
  | ShaMap.LogicError => LogicError
  | MissingNode => RuntimeError
  | Null => Wild
  end.

Section Members.
Context (sha512Half : list Z -> Z) (mode : RoundingMode) (scale : MantissaScale) (fixCleanup : bool).

(** [SLE(SerialIter{item->slice()}, item->key())] *)
Definition makeSLE (item : SHAMapItem) : Outcome SLE := (parseSLE mode scale (item_key item) (newIter (item_data item))).1.

Definition exists_ (l : Ledger) (k : Keylet) : Outcome bool := lift (hasItem (stateMap_ l) (kl_key k)).

Definition succ (l : Ledger) (key : Z) (last : option Z) : Outcome (option Z) :=
  let? (_, item) := lift (upperBound (stateMap_ l) key) in
  match item with
  | None => Ret None
  | Some item => Ret (match last with Some la => if la <=? item_key item then None else Some (item_key item) | None => Some (item_key item) end)
  end.

Definition read (l : Ledger) (k : Keylet) : Outcome (option SLE) :=
  if kl_key k =? 0 then Ret None
  else
    let? item := lift (peekItem (stateMap_ l) (kl_key k)) in
    match item with
    | None => Ret None
    | Some item => let? sle := makeSLE item in if negb (keyletCheck k sle) then Ret None else Ret (Some sle)
    end.

Definition rawErase (l : Ledger) (e : SLE) : Outcome Ledger :=
  let? (done_, root) := lift (delItem (stateMap_ l) (key_ e)) in
  if negb done_ then LogicError else Ret (withState l root).

Definition rawInsert (l : Ledger) (e : SLE) : Outcome Ledger :=
  let? ss := addObject true (v_ (sleObject e)) [] in
  let? (done_, root) := lift (addGiveItem (stateMap_ l) TnAccountState {| item_key := key_ e; item_data := ss |}) in
  if negb done_ then LogicError else Ret (withState l root).

Definition rawReplace (l : Ledger) (e : SLE) : Outcome Ledger :=
  let? ss := addObject true (v_ (sleObject e)) [] in
  let? (done_, root) := lift (updateGiveItem sha512Half (stateMap_ l) TnAccountState {| item_key := key_ e; item_data := ss |}) in
  if negb done_ then LogicError else Ret (withState l root).

Definition withDrops (h : LedgerHeader) (d : Z) : LedgerHeader :=
  {| h_seq := h_seq h; h_parentCloseTime := h_parentCloseTime h; h_hash := h_hash h; h_txHash := h_txHash h;
     h_accountHash := h_accountHash h; h_parentHash := h_parentHash h; h_drops := d; h_validated := h_validated h;
     h_accepted := h_accepted h; h_closeFlags := h_closeFlags h; h_closeTimeResolution := h_closeTimeResolution h;
     h_closeTime := h_closeTime h |}.

Definition rawDestroyXRP (l : Ledger) (fee : Z) : Outcome Ledger :=
  match checkedSub (h_drops (header_ l)) fee with
  | Some d => Ret (mkLedger (withDrops (header_ l) d) (txMap_ l) (stateMap_ l))
  | None => if fixCleanup then OverflowError else Wild
  end.

Definition txExists (l : Ledger) (key : Z) : Outcome bool := lift (hasItem (txMap_ l) key).

(** The item of a transaction with its metadata *)
Definition txData (txn metaData : list Z) : Outcome (list Z) :=
  let? (_, s) := addVL txn [] in
  let? (_, s) := addVL metaData s in
  Ret s.

Definition rawTxInsert (l : Ledger) (key : Z) (txn : list Z) (metaData : option (list Z)) : Outcome Ledger :=
  let? metaData := match metaData with Some b => Ret b | None => Wild end in
  let? s := txData txn metaData in
  let? (done_, root) := lift (addGiveItem (txMap_ l) TnTransactionMd {| item_key := key; item_data := s |}) in
  if negb done_ then LogicError else Ret (mkLedger (header_ l) root (stateMap_ l)).
End Members.

(** [Ledger(prevLedger, closeTime)]: the ledger that follows *)
Definition nextLedger (prev : Ledger) (closeTime : Z) : Ledger :=
  let p := header_ prev in
  let seq := u32 (h_seq p + 1) in
  let resolution := getNextLedgerTimeResolution (h_closeTimeResolution p) (Z.land (h_closeFlags p) 1 =? 0) seq in
  mkLedger
    {| h_seq := seq; h_parentCloseTime := h_closeTime p; h_hash := beBytes 32 (beValue (h_hash p) + 1);
       h_txHash := zeroHash; h_accountHash := zeroHash; h_parentHash := h_hash p; h_drops := h_drops p;
       h_validated := false; h_accepted := false; h_closeFlags := 0; h_closeTimeResolution := resolution;
       h_closeTime := if h_closeTime p =? 0 then roundCloseTime closeTime resolution else u32 (h_closeTime p + resolution) |}
    emptyInner (stateMap_ prev).
End Ledger.

#[export] Instance Ledger_txs : TxsRawView Ledger := {| Views.rawTxInsert := Ledger.rawTxInsert |}.

Section Instances.
Context (sha512Half : list Z -> Z) (mode : RoundingMode) (scale : MantissaScale) (fixCleanup : bool).

Definition Ledger_read : ReadView Ledger := {|
  viewExists := Ledger.exists_;
  viewRead := Ledger.read mode scale;
  viewSucc := Ledger.succ;
|}.

Definition Ledger_raw : RawView Ledger := {|
  Views.rawErase := Ledger.rawErase;
  Views.rawInsert := Ledger.rawInsert;
  Views.rawReplace := Ledger.rawReplace sha512Half;
  Views.rawDestroyXRP := Ledger.rawDestroyXRP fixCleanup;
|}.
End Instances.
