(* ===== verification/LedgerViewFacts.v ===== *)
(** * Ledgers as views: the laws

    A ledger whose state tree is well-formed and whose items are ledger entries keeps the laws of
    the interfaces: it stands for the map of the entries its items are read as.  Sandboxes over
    open views over a ledger then come down to its tree. *)
From S2P Require Import Prelude Digits Serializer SField Formats Number Amounts NodeID STTypesFacts STObject STObjectFacts STAccess STAccessFacts Timing LedgerHeader.
From S2P Require Import ShaMap ShaMapFacts ShaMapSpec ShaMapIter Views StateTables StateTablesFacts ApplyViewFacts ViewSpec LedgerView.

Section Laws.
Context (sha512Half : list Z -> Z) (mode : RoundingMode) (scale : MantissaScale) (fixCleanup : bool).
(** The items that are ever in the tree: the digest does not collide on their leaves. *)
Context (universe : list SHAMapItem) (differ : leavesDiffer sha512Half TnAccountState universe).

Abbreviation makeSLE := (Ledger.makeSLE mode scale).

Definition entryOf (x : SHAMapItem) : option SLE := match makeSLE x with Ret e => Some e | _ => None end.

Definition ledgerMap (l : Ledger) : gmap Z SLE := omap entryOf (contents (stateMap_ l)).

Definition ledgerOk (l : Ledger) : Prop :=
  wfRoot TnAccountState (stateMap_ l) /\
  forall x, x ∈ items (stateMap_ l) -> x ∈ universe /\ item_key x <> 0 /\ exists e, makeSLE x = Ret e.

(** An entry that is written and read back as it is *)
Definition ledgerStorable (e : SLE) : Prop :=
  exists bytes, addObject true (v_ (sleObject e)) [] = Ret bytes /\
    let item := {| item_key := key_ e; item_data := bytes |} in makeSLE item = Ret e /\ item ∈ universe.

Lemma makeSLE_key x e : makeSLE x = Ret e -> key_ e = item_key x.
Proof.
  unfold Ledger.makeSLE, parseSLE, gbind. destruct (setObject mode scale false (newIter (item_data x))) as [[r| | | | |] it]; try done.
  unfold glift, setSLEType. cbn [fst]. destruct (getFieldU16 _ _) as [ty| | | | |]; cbn [obind]; try done.
  destruct (findByType LedgerFormats ty) as [t|]; try done. destruct (applyTemplate _ _); cbn [obind]; try done. by intros [= <-].
Qed.

Lemma ledger_lookup l k : ledgerOk l ->
  match contents (stateMap_ l) !! k with
  | Some x => item_key x = k /\ k <> 0 /\ isKey k /\ exists e, makeSLE x = Ret e /\ ledgerMap l !! k = Some e
  | None => ledgerMap l !! k = None
  end.
Proof.
  intros [Hr Hx]. unfold ledgerMap. rewrite lookup_omap. destruct (contents (stateMap_ l) !! k) as [x|] eqn:E; [|done].
  apply (contents_lookup TnAccountState 0 0) in E as [Hin <-]; [|done]. destruct (Hx x Hin) as (_ & Hz & e & He). split; [done|]. split; [done|].
  split; [by apply (items_prefix _ _ _ _ _ Hr)|]. exists e. cbn. unfold entryOf. by rewrite He.
Qed.

Lemma ledger_keyed l : ledgerOk l -> keyed_ (ledgerMap l).
Proof.
  intros Hok k e He. pose proof (ledger_lookup l k Hok) as Hl. destruct (contents (stateMap_ l) !! k) as [x|]; [|congruence].
  destruct Hl as (Hk & Hz & Hkey & e' & Hm & E). assert (e' = e) as -> by congruence. apply makeSLE_key in Hm. split_and!; congruence || done.
Qed.

Lemma peek_contents l k : ledgerOk l -> isKey k -> peekItem (stateMap_ l) k = Done (contents (stateMap_ l) !! k).
Proof.
  intros [Hr _] Hk. destruct (findKey_spec TnAccountState (stateMap_ l) k Hr Hk) as (r & E & Hs). unfold peekItem. rewrite E. cbn [mbind_]. f_equal.
  destruct r as [[t x]|]; cbn [option_map]; symmetry.
  - destruct (proj1 (Hs _) eq_refl) as (_ & Hx & Ex). by apply (contents_lookup TnAccountState 0 0).
  - apply (contents_none TnAccountState 0 0); [done|]. intros (x & Hx & Ex). assert (None = Some (TnAccountState, x)) by (by apply Hs). done.
Qed.

Lemma has_contents l k : ledgerOk l -> isKey k -> hasItem (stateMap_ l) k = Done (bool_decide (is_Some (contents (stateMap_ l) !! k))).
Proof.
  intros Hok Hk. pose proof (peek_contents l k Hok Hk) as E. unfold peekItem in E. unfold hasItem.
  destruct (findKey (stateMap_ l) k) as [r| | |]; cbn in *; try done. injection E as <-. f_equal. by destruct r.
Qed.

Lemma upper_contents l key : ledgerOk l -> isKey key ->
  exists st x, upperBound (stateMap_ l) key = Done (st, x) /\
    match x with
    | Some x => key < item_key x /\ contents (stateMap_ l) !! item_key x = Some x /\
                forall k, key < k -> is_Some (contents (stateMap_ l) !! k) -> item_key x <= k
    | None => forall k, key < k -> contents (stateMap_ l) !! k = None
    end.
Proof.
  intros [Hr _] Hk. destruct (boundHelper_spec TnAccountState (stateMap_ l) First key Hr Hk) as [st E]. exists st. eexists. split; [exact E|].
  cbn [dItems]. pose proof (items_sorted _ _ _ _ Hr) as Hs.
  assert (forall k x, contents (stateMap_ l) !! k = Some x <-> x ∈ items (stateMap_ l) /\ item_key x = k) as Hc by (intros; by apply (contents_lookup TnAccountState 0 0)).
  clear E Hr. revert Hs Hc. generalize (contents (stateMap_ l)). generalize (items (stateMap_ l)). clear. intros its m Hs Hc.
  assert (forall k x, m !! k = Some x -> key < k -> x ∈ filter (past First key) its) as Hin.
  { intros k x [Hx <-]%Hc Hlt. apply list_elem_of_filter. done. }
  assert (StronglySorted keyLt (filter (past First key) its)) as Hs'.
  { clear Hc Hin. induction Hs as [|x l Hs IH Hx]; [constructor|]. rewrite filter_cons. case_decide; [|done]. constructor; [done|].
    rewrite Forall_forall in *. intros y [_ Hy]%list_elem_of_filter. by apply Hx. }
  assert (forall x, x ∈ filter (past First key) its -> key < item_key x /\ x ∈ its) as Hp by (intros x [? ?]%list_elem_of_filter; done).
  destruct (filter (past First key) its) as [|x r]; cbn [head].
  - intros k Hlt. destruct (m !! k) as [x|] eqn:E; [|done]. by apply Hin, elem_of_nil in E.
  - destruct (Hp x ltac:(left)) as [Hlt Hx]. split; [done|]. split; [by apply Hc|]. intros k Hk [y Hy]. pose proof (proj1 (Hc _ _) Hy) as [_ <-].
    apply Hin in Hy; [|done]. apply elem_of_cons in Hy as [->|Hy]; [lia|]. apply StronglySorted_inv in Hs' as [_ Hs']. rewrite Forall_forall in Hs'.
    specialize (Hs' y Hy). unfold keyLt in Hs'. lia.
Qed.

#[refine] Definition Ledger_laws : @ReadLaws Ledger (Ledger_read mode scale) := {|
  viewOk := ledgerOk;
  viewMap := ledgerMap;
|}.
Proof.
  - apply ledger_keyed.
  - intros l k Hok Hk. cbn. unfold Ledger.read. pose proof (ledger_lookup l (kl_key k) Hok) as Hl. rewrite (peek_contents l _ Hok Hk). cbn.
    destruct (Z.eqb_spec (kl_key k) 0) as [E|E].
    + destruct (contents (stateMap_ l) !! kl_key k) as [x|]; [by destruct Hl as (_ & ? & _)|]. by rewrite Hl.
    + destruct (contents (stateMap_ l) !! kl_key k) as [x|]; [|by rewrite Hl]. destruct Hl as (_ & _ & _ & e & -> & ->). cbn. unfold checked. by destruct (keyletCheck k e).
  - intros l k Hok Hk. cbn. unfold Ledger.exists_. rewrite (has_contents l _ Hok Hk). cbn. eexists. split; [done|]. pose proof (ledger_lookup l (kl_key k) Hok) as Hl.
    destruct (contents (stateMap_ l) !! kl_key k) as [x|]; [destruct Hl as (_ & _ & _ & e & _ & ->); by split|]. rewrite Hl. split; [done|]. by intros [? ?].
  - intros l key last Hok Hk. cbn. unfold Ledger.succ. destruct (upper_contents l key Hok Hk) as (st & x & -> & Hx). cbn.
    assert (forall k, is_Some (ledgerMap l !! k) <-> is_Some (contents (stateMap_ l) !! k)) as Hsome.
    { intros k. pose proof (ledger_lookup l k Hok) as Hl. destruct (contents (stateMap_ l) !! k) as [y|]; [destruct Hl as (_ & _ & _ & e & _ & ->); by split|]. by rewrite Hl. }
    destruct x as [x|]; eexists; (split; [done|]).
    + destruct Hx as (H1 & H2 & H3). assert (is_Some (ledgerMap l !! item_key x)) as H4 by (apply Hsome; by eexists).
      destruct last as [la|]; [destruct (Z.leb_spec la (item_key x))|]; cbn.
      * intros k Hlt Hk'%Hsome. exists la. split; [done|]. specialize (H3 k Hlt Hk'). lia.
      * split; [done|]. split; [done|]. split; [by intros ? [= <-]|]. intros k Hlt Hk'%Hsome. by apply H3.
      * split; [done|]. split; [done|]. split; [done|]. intros k Hlt Hk'%Hsome. by apply H3.
    + cbn. intros k Hlt Hk'%Hsome. rewrite (Hx k Hlt) in Hk'. by destruct Hk'.
Defined.

Lemma ledger_op l op : ledgerOk l -> isKey (opKey op) ->
  (forall x, x ∈ opItems op -> x ∈ universe /\ item_key x <> 0 /\ exists e, makeSLE x = Ret e) ->
  exists a root, runOp sha512Half TnAccountState (stateMap_ l) op = Done (a, root) /\
    specOp (contents (stateMap_ l)) op = (a, contents root) /\ ledgerOk (Ledger.withState l root).
Proof.
  intros [Hr Hx] Hk Hop. destruct (runOp_refines sha512Half TnAccountState (stateMap_ l) op) as (a & root & E & Hr' & Es); try done.
  { intros x y Hx' Hy'. apply differ; [apply elem_of_app in Hx' as [Hx'|Hx']|apply elem_of_app in Hy' as [Hy'|Hy']]; first [by apply Hx|by apply Hop]. }
  exists a, root. split; [done|]. split; [done|]. split; [done|]. intros x Hin.
  apply (specOp_items TnAccountState _ _ _ _ Hr Hr' Es) in Hin. apply elem_of_app in Hin as [Hin|Hin]; auto.
Qed.

Lemma ledgerMap_put l root x e : makeSLE x = Ret e -> contents root = <[item_key x := x]> (contents (stateMap_ l)) ->
  ledgerMap (Ledger.withState l root) = <[item_key x := e]> (ledgerMap l).
Proof. intros He E. unfold ledgerMap. cbn [stateMap_ Ledger.withState]. rewrite E. apply omap_insert_Some. unfold entryOf. by rewrite He. Qed.

Lemma ledger_isSome l k : ledgerOk l -> is_Some (ledgerMap l !! k) -> is_Some (contents (stateMap_ l) !! k) /\ isKey k /\ k <> 0.
Proof.
  intros Hok Hs. pose proof (ledger_lookup l k Hok) as Hl. destruct (contents (stateMap_ l) !! k) as [x|]; [|rewrite Hl in Hs; by destruct Hs].
  split; [by eexists|]. by destruct Hl as (_ & ? & ? & _).
Qed.

#[refine] Definition Ledger_rawLaws : @RawLaws Ledger (Ledger_read mode scale) Ledger_laws (Ledger_raw sha512Half fixCleanup) :=
  @Build_RawLaws Ledger (Ledger_read mode scale) Ledger_laws (Ledger_raw sha512Half fixCleanup) ledgerStorable _ _ _ _.
Proof.
  - intros l e Hok Hs. destruct (ledger_isSome l _ Hok Hs) as ([x Hx] & Hk & _). cbn. unfold Ledger.rawErase.
    destruct (ledger_op l (OpDelete (key_ e)) Hok Hk) as (a & root & E & Es & Hok'); [intros y []%elem_of_nil|].
    cbn in E, Es. rewrite Hx in Es. destruct (delItem (stateMap_ l) (key_ e)) as [[d r]| | |]; cbn in E; try done.
    injection E as <- <-. injection Es as <- Ec. cbn. eexists. split; [done|]. split; [done|].
    unfold ledgerMap. cbn [stateMap_ Ledger.withState]. rewrite <-Ec. apply omap_delete.
  - intros l e Hok Hk Hz Hs (bytes & Eb & Em & Hu). cbn. unfold Ledger.rawInsert. rewrite Eb. cbn [obind].
    destruct (ledger_op l (OpAdd {| item_key := key_ e; item_data := bytes |}) Hok Hk) as (a & root & E & Es & Hok').
    { intros y ->%list_elem_of_singleton. by eauto. }
    pose proof (ledger_lookup l (key_ e) Hok) as Hl. cbn in E, Es. destruct (contents (stateMap_ l) !! key_ e) as [x|]; [destruct Hl as (_ & _ & _ & ? & _ & ?); cbn in Hs; congruence|].
    unfold addItem in E. destruct (addGiveItem _ _ _) as [[d r]| | |]; cbn in E; try done.
    injection E as <- <-. injection Es as <- Ec. cbn. eexists. split; [done|]. split; [done|]. by apply (ledgerMap_put _ _ {| item_key := key_ e; item_data := bytes |}).
  - intros l e Hok Hs (bytes & Eb & Em & Hu). destruct (ledger_isSome l _ Hok Hs) as ([x Hx] & Hk & Hz). cbn. unfold Ledger.rawReplace. rewrite Eb. cbn [obind].
    destruct (ledger_op l (OpUpdate {| item_key := key_ e; item_data := bytes |}) Hok Hk) as (a & root & E & Es & Hok').
    { intros y ->%list_elem_of_singleton. by eauto. }
    cbn in E, Es. rewrite Hx in Es. destruct (updateGiveItem _ _ _ _) as [[d r]| | |]; cbn in E; try done.
    injection E as <- <-. injection Es as <- Ec. cbn. eexists. split; [done|]. split; [done|]. by apply (ledgerMap_put _ _ {| item_key := key_ e; item_data := bytes |}).
  - intros l fee l' Hok. cbn. unfold Ledger.rawDestroyXRP. destruct (checkedSub _ _); [|by destruct fixCleanup]. by intros [= <-].
Defined.
End Laws.
