(* ===== verification/ViewClaims.v ===== *)
(** * Ledger views: the theorems

    Sandboxes, open views, and the stack of both over a ledger. *)
From S2P Require Import Prelude Digits Serializer SField Number Amounts NodeID STObject STAccess STAccessFacts LedgerHeader.
From S2P Require Import ShaMap ShaMapFacts ShaMapSpec Views StateTables StateTablesFacts ApplyViewFacts ViewSpec LedgerView LedgerViewFacts.

(** C5: A sandbox over any view, whatever its clients look at, add, change in place and erase: no
    call fails, the base stays as it is, lookups and successors through the sandbox answer for
    the map with the changes, and applying it to any view that stands for the map of the base
    succeeds and gives that view exactly the map with the changes. *)
Theorem sandbox_commits {V W : Type} `{ReadLaws V} `{RawLaws W} (base : V) (to to1 : W) (ops : list ViewOp)
    (Hbase : viewOk base) (Hto : viewOk to) (Hsame : viewMap to = viewMap base) (Hops : opsOk storable (viewMap base) ops)
    (Hdrops : rawDestroyXRP to 0 = Ret to1) :
  let m := mapOps ops (viewMap base) in
  exists v to', runViewOps ops (ApplyViewBase.newView base) = Ret v /\ av_base v = base /\
    (forall k, isKey (kl_key k) -> viewRead v k = Ret (m !! kl_key k ≫= checked k)) /\
    (forall key last, isKey key -> exists r, viewSucc v key last = Ret r /\ isSucc m key last r) /\
    sandboxApply v to = Ret to' /\ viewOk to' /\ viewMap to' = m.
Proof.
  intros m. destruct (newView_ok storable base Hbase) as [Hok0 Em0]. rewrite <-Em0 in Hops.
  destruct (runViewOps_spec storable ops _ Hok0 Hops) as (v & E & Hok & Hb & Hd & Em). cbn [av_base ApplyViewBase.newView] in Hb. rewrite Em0 in Em.
  change (ApplyStateTable.dropsDestroyed_ (av_items (ApplyViewBase.newView base))) with 0 in Hd.
  assert (applyOk storable (viewMap to) (av_items v) (av_heap v)) as Ht. { destruct Hok as [_ Hok]. by rewrite Hsame, <-Hb. }
  destruct (table_applies (av_items v) (av_heap v) to to1 Hto Ht ltac:(by rewrite Hd)) as (to' & Eto & Hok' & Em').
  exists v, to'. split; [done|]. split; [done|]. split; [|split].
  - intros k Hk. rewrite (view_read (ReadLaws := ApplyView_laws storable) v k Hok Hk). by rewrite Em.
  - intros key last Hk. destruct (view_succ (ReadLaws := ApplyView_laws storable) v key last Hok Hk) as (r & Er & Hr). exists r.
    rewrite Em in Hr. by split.
  - split; [done|]. split; [done|]. rewrite Em', Hsame, <-Hb. exact Em.
Qed.

(** ** Open views *)

(** A sequence of raw changes, each allowed where it is made *)
Fixpoint changesOk (P : SLE -> Prop) (l : list Change) (m : gmap Z SLE) : Prop :=
  match l with
  | [] => True
  | c :: l =>
    match c with
    | Keep => changesOk P l m
    | Del e => is_Some (m !! key_ e) /\ changesOk P l (delete (key_ e) m)
    | Ins e => isKey (key_ e) /\ key_ e <> 0 /\ m !! key_ e = None /\ P e /\ changesOk P l (<[key_ e := e]> m)
    | Rep e => is_Some (m !! key_ e) /\ P e /\ changesOk P l (<[key_ e := e]> m)
    end
  end.

Definition changeMap (m : gmap Z SLE) (c : Change) : gmap Z SLE :=
  match c with Keep => m | Del e => delete (key_ e) m | Ins e | Rep e => <[key_ e := e]> m end.

Fixpoint runRaw {W : Type} `{RawView W} (l : list Change) (w : W) : Outcome W :=
  match l with
  | [] => Ret w
  | Keep :: l => runRaw l w
  | Del e :: l => let? w := rawErase w e in runRaw l w
  | Ins e :: l => let? w := rawInsert w e in runRaw l w
  | Rep e :: l => let? w := rawReplace w e in runRaw l w
  end.

Lemma runRaw_spec {W : Type} `{RawLaws W} l : forall w, viewOk w -> changesOk storable l (viewMap w) ->
  exists w', runRaw l w = Ret w' /\ viewOk w' /\ viewMap w' = foldl changeMap (viewMap w) l.
Proof.
  induction l as [|c l IH]; intros w Hok Hl; [by exists w|]. destruct c as [|e|e|e]; cbn in *.
  - by apply IH.
  - destruct Hl as [Hs Hl]. destruct (raw_erase w e Hok Hs) as (w1 & -> & Hok1 & E1). rewrite <-E1 in *. by apply IH.
  - destruct Hl as (Hk & Hz & Hn & Hs & Hl). destruct (raw_insert w e Hok Hk Hz Hn Hs) as (w1 & -> & Hok1 & E1). rewrite <-E1 in *. by apply IH.
  - destruct Hl as (Hm & Hs & Hl). destruct (raw_replace w e Hok Hm Hs) as (w1 & -> & Hok1 & E1). rewrite <-E1 in *. by apply IH.
Qed.

Definition openView {V} (base : V) : OpenView V := mkOpenView base RawStateTable.empty ∅ true 0.

Lemma openView_ok {V} `{ReadLaws V} P (base : V) : viewOk base ->
  viewOk (ReadLaws := OpenView_laws P) (openView base) /\ viewMap (ReadLaws := OpenView_laws P) (openView base) = viewMap base.
Proof. intros Hok. split; [split; [done|apply map_Forall_empty]|]. apply overlay_empty. Qed.

Lemma obind_Ret {A B} (x : Outcome A) (f : A -> Outcome B) r : obind x f = Ret r -> exists a, x = Ret a /\ f a = Ret r.
Proof. destruct x; try done. intros H. eauto. Qed.

(** A part of a view that the changes of entries leave as it is *)
Definition kept {W A : Type} `{RawView W} (f : W -> A) : Prop :=
  forall w e w', rawErase w e = Ret w' \/ rawInsert w e = Ret w' \/ rawReplace w e = Ret w' -> f w' = f w.

Ltac kept_by IH Hf := intros (? & Hw & Hr)%obind_Ret; apply IH in Hr; rewrite Hr; eapply Hf; eauto.

Lemma runRaw_kept {W A} `{RawView W} (f : W -> A) l : kept f -> forall w w', runRaw l w = Ret w' -> f w' = f w.
Proof. intros Hf. induction l as [|c l IH]; intros w w'; cbn; [by intros [= ->]|]. destruct c; [apply IH|kept_by IH Hf..]. Qed.

Lemma rawItems_kept {W A} `{RawView W} (f : W -> A) l : kept f -> forall w w', RawStateTable.applyItems l w = Ret w' -> f w' = f w.
Proof.
  intros Hf. induction l as [|[k i] l IH]; intros w w'; cbn; [by intros [= ->]|]. unfold RawStateTable.applyItem. cbn [snd].
  destruct (RawStateTable.action i); kept_by IH Hf.
Qed.

Lemma applyItems_kept {W A} `{RawView W} (f : W -> A) h l : kept f -> forall w w', ApplyStateTable.applyItems h l w = Ret w' -> f w' = f w.
Proof.
  intros Hf. induction l as [|[k [a p]] l IH]; intros w w'; cbn; [by intros [= ->]|]. unfold ApplyStateTable.applyItem. cbn.
  destruct a; [apply IH|..]; (destruct (deref h p); cbn; [|done..]); kept_by IH Hf.
Qed.

Lemma openView_kept {V} fix_ : kept (H := OpenView_raw fix_) (fun v : OpenView V => (RawStateTable.dropsDestroyed_ (ov_items v), ov_base v, ov_txs v)).
Proof.
  intros v e w; cbn; unfold OpenView.rawErase, OpenView.rawInsert, OpenView.rawReplace, RawStateTable.erase, RawStateTable.insert, RawStateTable.replace.
  destruct (RawStateTable.items_ (ov_items v) !! key_ e) as [i|]; [destruct (RawStateTable.action i)|]; cbn; intros [|[|]]; simplify_eq; done.
Qed.

(** C15: An open view over any base, after any sequence of erasures, insertions and replacements of
    entries that are there or not as they must be: lookups and successors answer for the map
    with the changes, the iterator visits its entries once each in the order of their keys, and
    applying the open view to a view that stands for the map of the base succeeds and gives it
    the map with the changes. *)
Theorem open_view_layers {V W : Type} `{ReadLaws V} `{RawLaws W} (fixCleanup : bool) (base : V) (to to1 : W) (l : list Change)
    (Hbase : viewOk base) (Hto : viewOk to) (Hsame : viewMap to = viewMap base) (Hl : changesOk storable l (viewMap base))
    (Hdrops : rawDestroyXRP to 0 = Ret to1) :
  let m := foldl changeMap (viewMap base) l in
  exists v to', runRaw (W := OpenView V) (H := OpenView_raw fixCleanup) l (openView base) = Ret v /\
    (forall k, isKey (kl_key k) -> viewRead v k = Ret (m !! kl_key k ≫= checked k)) /\
    (forall key last, isKey key -> exists r, viewSucc v key last = Ret r /\ isSucc m key last r) /\
    (exists i, RawStateTable.slesBegin (ov_items v) (slesOf (viewMap base)) = Ret i /\
       RawStateTable.iterate (stdpp.base.size (RawStateTable.items_ (ov_items v)) + stdpp.base.size (viewMap base)) i = Ret (slesOf m)) /\
    RawStateTable.apply (ov_items v) to = Ret to' /\ viewOk to' /\ viewMap to' = m.
Proof.
  intros m. destruct (openView_ok storable base Hbase) as [Hok0 Em0]. rewrite <-Em0 in Hl.
  destruct (runRaw_spec (H1 := OpenView_rawLaws storable fixCleanup) l (openView base) Hok0 Hl) as (v & E & Hok & Em). rewrite Em0 in Em.
  pose proof (runRaw_kept _ _ (openView_kept fixCleanup) _ _ E) as [= Hd Hb _]. cbn in Hd, Hb. pose proof Hok as [_ Ht]. rewrite Hb in Ht. cbn [viewMap OpenView_laws] in Em. rewrite Hb in Em.
  destruct (raw_applies (ov_items v) to to1 Hto ltac:(by rewrite Hsame) ltac:(by rewrite Hd)) as (to' & Eto & Hok' & Em').
  exists v, to'. split; [exact E|]. split; [|split; [|split]].
  - intros k Hk. rewrite (view_read (ReadLaws := OpenView_laws storable) v k Hok Hk). cbn [viewMap OpenView_laws]. by rewrite Hb, Em.
  - intros key last Hk. destruct (view_succ (ReadLaws := OpenView_laws storable) v key last Hok Hk) as (r & Er & Hr). exists r.
    cbn [viewMap OpenView_laws] in Hr. rewrite Hb, Em in Hr. by split.
  - destruct (iterates_all storable (viewMap base) (ov_items v) (view_keyed _ Hbase) Ht) as (i & Ei & El). exists i. by rewrite Em in El.
  - split; [done|]. split; [done|]. by rewrite Em', Hsame.
Qed.

(** ** The stack over a ledger *)

Lemma ledger_kept sha512Half fix_ : kept (H := Ledger_raw sha512Half fix_) (fun l => (header_ l, txMap_ l)).
Proof.
  intros l e l'; cbn; unfold Ledger.rawErase, Ledger.rawInsert, Ledger.rawReplace.
  intros [Hr|[Hr|Hr]]; repeat (apply obind_Ret in Hr as (? & _ & Hr)); repeat case_match; simplify_eq; done.
Qed.

Lemma drops_add fix_ fee : 0 <= fee < 2 ^ 63 -> intAmountAdd fix_ 0 fee = Ret fee.
Proof.
  intros Hf. unfold intAmountAdd, checkedAdd.
  repeat match goal with |- context [?a <? ?b] => destruct (Z.ltb_spec a b) end; cbn; (lia || done).
Qed.

Lemma drops_sub d fee : 0 <= fee -> fee <= d -> d < 2 ^ 63 -> checkedSub d fee = Some (d - fee).
Proof. intros ???. unfold checkedSub. repeat match goal with |- context [?a <? ?b] => destruct (Z.ltb_spec a b) end; cbn; (lia || done). Qed.

(** The sandbox hands its drops on. *)
Lemma openView_applied {V} fix_ t h (base : V) (o : OpenView V) :
  ApplyStateTable.apply (H := OpenView_raw fix_) t h (openView base) = Ret o -> 0 <= ApplyStateTable.dropsDestroyed_ t < 2 ^ 63 ->
  RawStateTable.dropsDestroyed_ (ov_items o) = ApplyStateTable.dropsDestroyed_ t /\ ov_base o = base /\ ov_txs o = ∅.
Proof.
  intros Ho Hd. unfold ApplyStateTable.apply in Ho. cbn in Ho. unfold OpenView.rawDestroyXRP, RawStateTable.destroyXRP in Ho. cbn in Ho.
  rewrite drops_add in Ho by done. pose proof (applyItems_kept _ _ _ (openView_kept fix_) _ _ Ho) as [= Hdo Hbo Hto]. by split_and!.
Qed.

(** An open view over a ledger is applied to it. *)
Lemma ledger_applied sha512Half mode scale fix_ universe (Hdiffer : leavesDiffer sha512Half TnAccountState universe) (l : Ledger) (o : OpenView Ledger) :
  let fee := RawStateTable.dropsDestroyed_ (ov_items o) in
  let LL := Ledger_laws mode scale universe in
  ov_base o = l -> viewOk (ReadLaws := OpenView_laws (H0 := LL) (ledgerStorable mode scale universe)) o ->
  0 <= fee -> fee <= h_drops (header_ l) -> h_drops (header_ l) < 2 ^ 63 ->
  exists l', RawStateTable.apply (H := Ledger_raw sha512Half fix_) (ov_items o) l = Ret l' /\ ledgerOk mode scale universe l' /\
    ledgerMap mode scale l' = viewMap (ReadLaws := OpenView_laws (H0 := LL) (ledgerStorable mode scale universe)) o /\
    header_ l' = Ledger.withDrops (header_ l) (h_drops (header_ l) - fee) /\ txMap_ l' = txMap_ l.
Proof.
  intros fee LL Hb [Hl Ht] G1 G2 G3. rewrite Hb in Hl, Ht.
  pose (LR := Ledger_rawLaws sha512Half mode scale fix_ universe Hdiffer).
  assert (Ledger.rawDestroyXRP fix_ l fee = Ret (mkLedger (Ledger.withDrops (header_ l) (h_drops (header_ l) - fee)) (txMap_ l) (stateMap_ l))) as E1.
  { unfold Ledger.rawDestroyXRP. by rewrite drops_sub. }
  destruct (raw_applies (H1 := LR) (ov_items o) l _ Hl Ht E1) as (l' & El & Hl' & Em). exists l'.
  split; [exact El|]. split; [exact Hl'|]. split; [rewrite <-Hb in Em; exact Em|].
  unfold RawStateTable.apply in El. change (rawDestroyXRP l _) with (Ledger.rawDestroyXRP fix_ l fee) in El. rewrite E1 in El.
  pose proof (rawItems_kept _ _ (ledger_kept sha512Half fix_) _ _ El) as [= -> ->]. done.
Qed.

(** One transaction is written to the tree of transactions. *)
Lemma ledger_tx l key txn metaData data :
  wfRoot TnTransactionMd (txMap_ l) -> isKey key -> contents (txMap_ l) !! key = None -> Ledger.txData txn metaData = Ret data ->
  exists root, Ledger.rawTxInsert l key txn (Some metaData) = Ret (mkLedger (header_ l) root (stateMap_ l)) /\
    wfRoot TnTransactionMd root /\ contents root = <[key := {| item_key := key; item_data := data |}]> (contents (txMap_ l)).
Proof.
  intros Hr Hk Hn Hd. set (x := {| item_key := key; item_data := data |}).
  destruct (addGiveItem_spec TnTransactionMd (txMap_ l) x Hr) as (b & root & E & H); [done..|].
  destruct H as [(-> & -> & y & Hy & Ey)|(-> & Hw & Hrep & _)].
  { apply (contents_none TnTransactionMd 0 0 _ _ Hr) in Hn. destruct Hn. by exists y. }
  exists root. split; [|split; [done|by apply (contents_replaced TnTransactionMd 0 0 _ _ x)]].
  unfold Ledger.rawTxInsert. cbn [obind]. rewrite Hd. cbn [obind]. fold x. by rewrite E.
Qed.

Lemma sortedEntries_singleton {A} k (x : A) : sortedEntries {[k := x]} = [(k, x)].
Proof. apply Permutation_singleton_r. rewrite sortedEntries_perm, map_to_list_singleton. done. Qed.

Section Stack.
Context (sha512Half : list Z -> Z) (mode : RoundingMode) (scale : MantissaScale) (fixCleanup : bool) (universe : list SHAMapItem).

#[local] Instance ledgerReads : ReadView Ledger := Ledger_read mode scale.
#[local] Instance ledgerWrites : RawView Ledger := Ledger_raw sha512Half fixCleanup.
#[local] Instance openWrites : RawView (OpenView Ledger) := OpenView_raw fixCleanup.

(** C3: A transaction on a ledger: what is done in a sandbox over an open view over a ledger, and the
    fee that is destroyed there, applied to the open view and then to the ledger, never fails:
    the state tree stays well-formed and has exactly the entries the changes ask for, each the
    one its bytes in the tree are read as, the drops of the ledger go down by the fee, and the
    tree of transactions gets the transaction with its metadata, when the digest does not
    collide on the leaves used. *)
Theorem ledger_stack_commits (l : Ledger) (ops : list ViewOp) (fee key : Z) (txn metaData data : list Z)
    (Hdiffer : leavesDiffer sha512Half TnAccountState universe) (Hl : ledgerOk mode scale universe l)
    (Hops : opsOk (ledgerStorable mode scale universe) (ledgerMap mode scale l) ops) (Hfee : 0 <= fee <= h_drops (header_ l))
    (Hdrops : h_drops (header_ l) < 2 ^ 63) (Htxs : wfRoot TnTransactionMd (txMap_ l)) (Hkey : isKey key)
    (Hnew : contents (txMap_ l) !! key = None) (Hdata : Ledger.txData txn metaData = Ret data) :
  exists v w o o' l', runViewOps ops (ApplyViewBase.newView (openView l)) = Ret v /\
    ApplyViewBase.rawDestroyXRP fixCleanup v fee = Ret w /\ sandboxApply w (openView l) = Ret o /\
    rawTxInsert o key txn (Some metaData) = Ret o' /\ OpenView.apply o' l = Ret l' /\ ledgerOk mode scale universe l' /\
    ledgerMap mode scale l' = mapOps ops (ledgerMap mode scale l) /\ h_drops (header_ l') = h_drops (header_ l) - fee /\
    wfRoot TnTransactionMd (txMap_ l') /\ contents (txMap_ l') = <[key := {| item_key := key; item_data := data |}]> (contents (txMap_ l)).
Proof.
  pose (P := ledgerStorable mode scale universe).
  pose (LL := Ledger_laws mode scale universe).
  pose (LR := Ledger_rawLaws sha512Half mode scale fixCleanup universe Hdiffer).
  destruct (openView_ok (H0 := LL) P l Hl) as [Hok0 Em0].
  pose (OL := OpenView_laws (H0 := LL) P). pose (OR := OpenView_rawLaws (H0 := LL) P fixCleanup).
  destruct (newView_ok (H0 := OL) P (openView l) Hok0) as [Hok1 Em1].
  pose proof (eq_trans Em1 Em0) as Em. change (viewMap l) with (ledgerMap mode scale l) in Em.
  destruct (runViewOps_spec (H0 := OL) P ops _ Hok1 ltac:(rewrite Em; exact Hops)) as (v & Ev & Hokv & Hbv & Hdv & Emv). rewrite Em in Emv.
  assert (ApplyViewBase.rawDestroyXRP fixCleanup v fee =
    Ret (mkApplyView (av_base v) (ApplyStateTable.mkTable (ApplyStateTable.items_ (av_items v)) fee) (av_heap v))) as Ew.
  { unfold ApplyViewBase.rawDestroyXRP, ApplyStateTable.destroyXRP. rewrite Hdv. cbn. by rewrite drops_add by lia. }
  set (w := mkApplyView _ _ _) in Ew.
  destruct (raw_destroy (RawLaws := ApplyView_rawLaws (H0 := OL) P fixCleanup) v fee w Hokv Ew) as [Hokw Emw].
  destruct (table_applies (H1 := OR) (av_items w) (av_heap w) (openView l) (OpenView.withItems (openView l) (RawStateTable.mkTable ∅ fee)))
    as (o & Eo & Hoko & Emo); [exact Hok0| |cbn; unfold OpenView.rawDestroyXRP, RawStateTable.destroyXRP; cbn; by rewrite drops_add by lia|].
  { destruct Hokw as [_ Hokw]. cbn in Hbv. cbn [av_base w] in Hokw. by rewrite Hbv in Hokw. }
  destruct (openView_applied _ _ _ _ _ Eo ltac:(cbn; lia)) as (Hdo & Hbo & Hto). cbn in Hdo, Hbo.
  destruct (ledger_applied sha512Half mode scale fixCleanup universe Hdiffer l o) as (l1 & El & Hl1 & Eml & Hd' & Et1); [done|exact Hoko|lia..|].
  destruct (ledger_tx l1 key txn metaData data) as (root & Er & Hroot & Ec); [by rewrite ?Et1..|]. rewrite Et1 in Ec.
  eexists v, w, o, _, _. split; [done|]. split; [done|]. split; [exact Eo|]. split.
  { cbn. unfold OpenView.rawTxInsert. by rewrite Hto, lookup_empty. }
  split.
  { unfold OpenView.apply. cbn [ov_items ov_txs]. change (RawStateTable.apply (ov_items o) l) with (RawStateTable.apply (H := Ledger_raw sha512Half fixCleanup) (ov_items o) l).
    rewrite El. cbn [obind]. rewrite ?Hto, insert_empty, sortedEntries_singleton. cbn [OpenView.applyTxs]. cbn [Views.rawTxInsert Ledger_txs]. by rewrite Er. }
  split; [exact Hl1|]. split; [|split; [cbn; rewrite Hd'; cbn; lia|by split]].
  change (ledgerMap mode scale l1 = mapOps ops (ledgerMap mode scale l)).
  rewrite Eml. etransitivity; [exact Emo|]. rewrite <-Emv, <-Emw. unfold viewMap. cbn. by rewrite Hbv.
Qed.
End Stack.

(** ** Witnesses: an entry added, looked at, erased and added again *)

Definition sampleBytes : list Z :=
  match sampleEntry with Ret e => match addObject true (v_ (sleObject e)) [] with Ret bytes => bytes | _ => [] end | _ => [] end.

Definition sampleUniverse : list SHAMapItem := [{| item_key := 77; item_data := sampleBytes |}].

Definition sampleLedger : Ledger := mkLedger sampleHeader emptyInner emptyInner.

Definition sampleOps (e : SLE) : list ViewOp := [VAdd e; VPeek (unchecked 77); VRemove (unchecked 77); VAdd e].

Lemma sample_storable : exists e, sampleEntry = Ret e /\ key_ e = 77 /\ ledgerStorable ToNearest Large330 sampleUniverse e.
Proof.
  destruct sampleEntry as [e| | | | |] eqn:E; try (vm_compute in E; discriminate E). exists e. split; [done|].
  vm_compute in E. injection E as <-. split; [done|]. exists sampleBytes. split; [vm_compute; reflexivity|]. cbv zeta. split; [vm_compute; reflexivity|].
  by apply list_elem_of_singleton.
Qed.

Lemma sample_differ : leavesDiffer sampleDigest TnAccountState sampleUniverse.
Proof. intros x y ->%list_elem_of_singleton ->%list_elem_of_singleton. done. Qed.

Lemma sample_ok : ledgerOk ToNearest Large330 sampleUniverse sampleLedger /\ ledgerMap ToNearest Large330 sampleLedger = ∅.
Proof. split; [|done]. split; [apply wfRoot_empty|]. intros x Hx. by apply elem_of_nil in Hx. Qed.

Lemma sample_opsOk e : key_ e = 77 -> ledgerStorable ToNearest Large330 sampleUniverse e ->
  opsOk (ledgerStorable ToNearest Large330 sampleUniverse) ∅ (sampleOps e).
Proof.
  intros Hk Hs. assert (isKey 77) by (split; lia). unfold sampleOps. cbn [opsOk opOk mapOp kl_key unchecked]. rewrite Hk.
  repeat split; done.
Qed.

Lemma sample_mapOps e : key_ e = 77 -> mapOps (sampleOps e) ∅ = {[77 := e]}.
Proof. intros Hk. unfold mapOps, sampleOps. cbn [foldl mapOp kl_key unchecked]. rewrite Hk. done. Qed.

Lemma sample_destroy : Ledger.rawDestroyXRP true sampleLedger 0 = Ret sampleLedger.
Proof. done. Qed.

Lemma sandbox_commits_witness :
  exists e v to', sampleEntry = Ret e /\ runViewOps (H := Ledger_read ToNearest Large330) (sampleOps e) (ApplyViewBase.newView sampleLedger) = Ret v /\
    sandboxApply (H := Ledger_raw sampleDigest true) v sampleLedger = Ret to' /\ ledgerMap ToNearest Large330 to' = {[77 := e]}.
Proof.
  destruct sample_storable as (e & Ee & Hk & Hs). destruct sample_ok as [Hok Em].
  destruct (sandbox_commits (H0 := Ledger_laws ToNearest Large330 sampleUniverse)
    (H3 := Ledger_rawLaws sampleDigest ToNearest Large330 true sampleUniverse sample_differ)
    sampleLedger sampleLedger sampleLedger (sampleOps e) Hok Hok eq_refl (sample_opsOk e Hk Hs) sample_destroy)
    as (v & to' & Ev & _ & _ & _ & Eto & _ & Et).
  exists e, v, to'. split; [done|]. split; [done|]. split; [done|]. rewrite <-(sample_mapOps e Hk). exact Et.
Defined.

Lemma open_view_layers_witness :
  exists e v to', sampleEntry = Ret e /\ runRaw (H := OpenView_raw true) [Ins e; Del e; Ins e] (openView sampleLedger) = Ret v /\
    RawStateTable.apply (H := Ledger_raw sampleDigest true) (ov_items v) sampleLedger = Ret to' /\ ledgerMap ToNearest Large330 to' = {[77 := e]}.
Proof.
  destruct sample_storable as (e & Ee & Hk & Hs). destruct sample_ok as [Hok Em].
  assert (changesOk (ledgerStorable ToNearest Large330 sampleUniverse) [Ins e; Del e; Ins e] ∅) as Hl by (cbn; rewrite Hk; repeat split; eauto; done).
  destruct (open_view_layers (H0 := Ledger_laws ToNearest Large330 sampleUniverse)
    (H3 := Ledger_rawLaws sampleDigest ToNearest Large330 true sampleUniverse sample_differ)
    true sampleLedger sampleLedger sampleLedger [Ins e; Del e; Ins e] Hok Hok eq_refl Hl sample_destroy)
    as (v & to' & Ev & _ & _ & _ & Eto & _ & Et).
  exists e, v, to'. split; [done|]. split; [done|]. split; [done|]. etransitivity; [exact Et|]. cbn [foldl changeMap]. rewrite Hk. done.
Defined.

Lemma ledger_stack_commits_witness :
  exists e v w o o' l', sampleEntry = Ret e /\
    runViewOps (H := OpenView_read (H := Ledger_read ToNearest Large330)) (sampleOps e) (ApplyViewBase.newView (openView sampleLedger)) = Ret v /\
    ApplyViewBase.rawDestroyXRP true v 10 = Ret w /\ sandboxApply (H := OpenView_raw true) w (openView sampleLedger) = Ret o /\
    rawTxInsert o 5 [1; 2; 3] (Some [4]) = Ret o' /\ OpenView.apply (H0 := Ledger_raw sampleDigest true) o' sampleLedger = Ret l' /\
    ledgerMap ToNearest Large330 l' = {[77 := e]} /\ contents (txMap_ l') = {[5 := {| item_key := 5; item_data := [3; 1; 2; 3; 1; 4] |}]} /\ h_drops (header_ l') = 99999999999989.
Proof.
  destruct sample_storable as (e & Ee & Hk & Hs). destruct sample_ok as [Hok Em].
  destruct (ledger_stack_commits sampleDigest ToNearest Large330 true sampleUniverse sampleLedger (sampleOps e) 10 5 [1; 2; 3] [4] [3; 1; 2; 3; 1; 4]
    sample_differ Hok (sample_opsOk e Hk Hs) ltac:(cbn; lia) ltac:(cbn; lia) (wfRoot_empty _) ltac:(split; lia) eq_refl eq_refl)
    as (v & w & o & o' & l' & Ev & Ew & Eo & Eo' & El & _ & Et & Ed & _ & Ec).
  exists e, v, w, o, o', l'. rewrite <-(sample_mapOps e Hk). split_and!; done.
Defined.

(** A copy of a batch view does not count the transactions of the view below it. *)
Lemma copy_forgets_count {V} (v : OpenView V) :
  OpenView.txCount (OpenView.copy (batchView v)) = 0 /\ OpenView.txCount (batchView v) = OpenView.txCount v.
Proof. split; [done|]. unfold OpenView.txCount at 1. cbn. unfold OpenView.txCount, u64. rewrite Z.add_0_r. by rewrite Z.mod_mod. Qed.
