(* ===== verification/Directory.v ===== *)
(** * Directories

    The directory members of [ApplyView] (src/libxrpl/ledger/ApplyView.cpp) and the functions
    that read directories (src/libxrpl/ledger/helpers/DirectoryHelpers.cpp).

    A directory is a list of keys in pages, which are ledger entries linked in both
    directions.  A pointer to an entry is a cell of the heap of the view; setting fields of
    an entry and then calling [update] is [modify].  [describe] is an argument, and
    [dirDelete] returns the keys for which its callback is called. *)
From S2P Require Import Prelude Digits Serializer SField Formats Number Amounts STTypes NodeID STObject STAccess Views StateTables.

(** The state and error monad of the members *)
Definition ViewM (V A : Type) : Type := ApplyView V -> Outcome (A * ApplyView V).
Definition vret {V A} (a : A) : ViewM V A := fun v => Ret (a, v).
Definition vbind {V A B} (m : ViewM V A) (k : A -> ViewM V B) : ViewM V B := fun v => let? (a, v) := m v in k a v.
Definition vthrow {V A} (o : Outcome A) : ViewM V A := fun v => let? a := o in Ret (a, v).

Declare Scope view_scope.
Delimit Scope view_scope with view.
Notation "'let~' p := m 'in' k" := (vbind m (fun p => k)) (at level 10, p pattern, m at level 200, k at level 200) : view_scope.
Notation "m ;~ k" := (vbind m (fun _ => k)) (at level 199, right associativity) : view_scope.
Open Scope view_scope.

Definition kDirNodeMaxEntries : Z := 32.
Definition kDirNodeMaxPages : Z := 262144.

(** The name space of directory pages is the character d. *)
Definition dirNodeSpace : Z := 100.

Section Keylets.
Context (sha512Half : list Z -> Z).

Definition indexHash (space : Z) (args : list Z) : Z := sha512Half (beBytes 2 space ++ args).

(** [keylet::page] *)
Definition keyletPage (directory : Keylet) (index : Z) : Keylet :=
  if index =? 0 then mkKeylet ltDIR_NODE (kl_key directory)
  else mkKeylet ltDIR_NODE (indexHash dirNodeSpace (beBytes 32 (kl_key directory) ++ beBytes 8 index)).
End Keylets.

(** Setters of the fields of an entry *)
Definition setLeaf (f : SField) (v : Leaf) (e : SLE) : Outcome SLE :=
  let? o := setFieldLeaf (sleObject e) f v in Ret (withObject e o).
Definition setU64 (f : SField) (x : Z) : SLE -> Outcome SLE := setLeaf f (LUInt64 x).
Definition setV256 (f : SField) (l : list Z) : SLE -> Outcome SLE := setLeaf f (LVector256 l).
Definition setH256 (f : SField) (x : Z) : SLE -> Outcome SLE := setLeaf f (LUInt256 x).

(** [std::ranges::sort], and the position [lower_bound] finds in a sorted list: the elements
    before it and from it on *)
Definition sortKeys (l : list Z) : list Z := merge_sort Z.le l.

Fixpoint lowerBound (key : Z) (l : list Z) : list Z * list Z :=
  match l with
  | [] => ([], [])
  | x :: l => if x <? key then let '(a, b) := lowerBound key l in (x :: a, b) else ([], x :: l)
  end.

(** The first occurrence is erased. *)
Fixpoint eraseFirst (key : Z) (l : list Z) : list Z :=
  match l with
  | [] => []
  | x :: l => if x =? key then l else x :: eraseFirst key l
  end.

Section Members.
Context {V : Type} `{ReadView V} (sha512Half : list Z -> Z) (fixDirectoryLimit : bool) (describe : SLE -> Outcome SLE).

Abbreviation M := (ViewM V).
Abbreviation page_ := (keyletPage sha512Half).

Definition peek (k : Keylet) : M (option nat) := fun v => ApplyViewBase.peek v k.
Definition entry (p : nat) : M SLE := fun v => let? e := deref (av_heap v) p in Ret (e, v).
Definition modify (p : nat) (f : SLE -> Outcome SLE) : M unit := fun v =>
  let? e := deref (av_heap v) p in
  let? e := f e in
  let? v := ApplyViewBase.update (ApplyViewBase.assign v p e) p in
  Ret (tt, v).
Definition insertNew (e : SLE) : M unit := fun v =>
  let '(p, v) := ApplyViewBase.make v e in
  let? v := ApplyViewBase.insert v p in Ret (tt, v).
Definition eraseCell (p : nat) : M unit := fun v => let? v := ApplyViewBase.erase v p in Ret (tt, v).

Definition u64Of (f : SField) (p : nat) : M Z := let~ e := entry p in vthrow (getFieldU64 (sleObject e) f).
Definition v256Of (f : SField) (p : nat) : M (list Z) := let~ e := entry p in vthrow (getFieldV256 (sleObject e) f).

(** [peek] where the code throws [logic_error] when there is no entry *)
Definition peekLinked (k : Keylet) : M nat :=
  let~ p := peek k in
  match p with Some p => vret p | None => vthrow LogicError end.

(** [directory::createRoot] *)
Definition createRoot (directory : Keylet) (key : Z) : M (option Z) :=
  let~ e := vthrow (
    let? e := newSLE (kl_key directory) (kl_type directory) in
    let? e := setH256 sfRootIndex (kl_key directory) e in
    let? e := describe e in
    setV256 sfIndexes [key] e) in
  insertNew e ;~
  vret (Some 0).

(** [directory::findPreviousPage] *)
Definition findPreviousPage (directory : Keylet) (start : nat) : M (Z * nat * list Z) :=
  let~ page := u64Of sfIndexPrevious start in
  let~ node := (if page =? 0 then vret start else peekLinked (page_ directory page)) in
  let~ indexes := v256Of sfIndexes node in
  vret (page, node, indexes).

(** [directory::insertKey], the new indexes *)
Definition insertIndex (preserveOrder : bool) (indexes : list Z) (key : Z) : Outcome (list Z) :=
  if preserveOrder then
    if existsb (Z.eqb key) indexes then LogicError else Ret (indexes ++ [key])
  else
    let '(before, after) := lowerBound key (sortKeys indexes) in
    if (match after with x :: _ => key =? x | [] => false end) then LogicError else Ret (before ++ key :: after).

Definition insertKey (node : nat) (page : Z) (preserveOrder : bool) (indexes : list Z) (key : Z) : M (option Z) :=
  let~ indexes := vthrow (insertIndex preserveOrder indexes key) in
  modify node (setV256 sfIndexes indexes) ;~
  vret (Some page).

(** [directory::insertPage]; [next] is the root. *)
Definition insertPage (page : Z) (node next : nat) (key : Z) (directory : Keylet) : M (option Z) :=
  let page := u64 (page + 1) in
  if page =? 0 then vret None
  else if negb fixDirectoryLimit && (kDirNodeMaxPages <=? page) then vret None
  else
    modify node (setU64 sfIndexNext page) ;~
    modify next (setU64 sfIndexPrevious page) ;~
    let~ e := vthrow (
      let? e := newSLE (kl_key (page_ directory page)) ltDIR_NODE in
      let? e := setH256 sfRootIndex (kl_key directory) e in
      let? e := setV256 sfIndexes [key] e in
      let? e := if page =? 1 then Ret e else setU64 sfIndexPrevious (page - 1) e in
      describe e) in
    insertNew e ;~
    vret (Some page).

Definition dirAdd (preserveOrder : bool) (directory : Keylet) (key : Z) : M (option Z) :=
  let~ root := peek directory in
  match root with
  | None => createRoot directory key
  | Some root =>
    let~ (page, node, indexes) := findPreviousPage directory root in
    if Z.of_nat (length indexes) <? kDirNodeMaxEntries then insertKey node page preserveOrder indexes key
    else insertPage page node root key directory
  end.

Definition dirAppend (directory key : Keylet) : M (option Z) :=
  if negb (kl_type key =? ltOFFER) then vret None else dirAdd true directory (kl_key key).

Definition dirInsert (directory : Keylet) (key : Z) : M (option Z) := dirAdd false directory key.

(** The links of the root must both lead to the root or both away from it. *)
Definition checkLinks (nextPage prevPage : Z) : M unit :=
  if (nextPage =? 0) && negb (prevPage =? 0) then vthrow LogicError
  else if (prevPage =? 0) && negb (nextPage =? 0) then vthrow LogicError
  else vret tt.

(** Both links of the root are set to the root. *)
Definition closeRoot (e : SLE) : Outcome SLE := let? e := setU64 sfIndexNext 0 e in setU64 sfIndexPrevious 0 e.

Definition emptyDirDelete (directory : Keylet) : M bool :=
  let~ node := peek directory in
  match node with
  | None => vret false
  | Some node =>
    let~ e := entry node in
    let~ root := (if kl_type directory =? ltDIR_NODE then vthrow (getFieldH256 (sleObject e) sfRootIndex) else vret 0) in
    if negb (kl_type directory =? ltDIR_NODE) || negb (root =? kl_key directory) then vret false
    else
      let~ indexes := v256Of sfIndexes node in
      if negb (bool_decide (indexes = [])) then vret false
      else
        let~ prevPage := u64Of sfIndexPrevious node in
        let~ nextPage := u64Of sfIndexNext node in
        checkLinks nextPage prevPage ;~
        if (nextPage =? prevPage) && negb (nextPage =? 0) then
          let~ last := peekLinked (page_ directory nextPage) in
          let~ lastIndexes := v256Of sfIndexes last in
          if negb (bool_decide (lastIndexes = [])) then vret false
          else
            modify node closeRoot ;~
            eraseCell last ;~
            eraseCell node ;~
            vret true
        else
          (if (nextPage =? 0) && (prevPage =? 0) then eraseCell node else vret tt) ;~
          vret true
  end.

(** [dirRemove], from where the root is found empty *)
Definition emptyRoot (directory : Keylet) (node : nat) (prevPage nextPage : Z) (keepRoot : bool) : M bool :=
  checkLinks nextPage prevPage ;~
  let~ (prevPage, nextPage) := (if (nextPage =? prevPage) && negb (nextPage =? 0) then
       let~ last := peekLinked (page_ directory nextPage) in
       let~ lastIndexes := v256Of sfIndexes last in
       if bool_decide (lastIndexes = []) then
         modify node closeRoot ;~
         eraseCell last ;~
         vret (0, 0)
       else vret (prevPage, nextPage)
     else vret (prevPage, nextPage)) in
  if keepRoot then vret true
  else
    (if (nextPage =? 0) && (prevPage =? 0) then eraseCell node else vret tt) ;~
    vret true.

(** [dirRemove], from where a page that is not the root is found empty *)
Definition unlinkPage (directory : Keylet) (page : Z) (node : nat) (prevPage nextPage : Z) (keepRoot : bool) : M bool :=
  if nextPage =? page then vthrow LogicError
  else if prevPage =? page then vthrow LogicError
  else
    let~ prev := peekLinked (page_ directory prevPage) in
    modify prev (setU64 sfIndexNext nextPage) ;~
    let~ next := peekLinked (page_ directory nextPage) in
    modify next (setU64 sfIndexPrevious prevPage) ;~
    eraseCell node ;~
    let~ last := (if nextPage =? 0 then vret false
             else
               let~ nextNext := u64Of sfIndexNext next in
               if nextNext =? 0 then
                 let~ nextIndexes := v256Of sfIndexes next in
                 vret (bool_decide (nextIndexes = []))
               else vret false) in
    let~ nextPage := (if last then
         eraseCell next ;~
         modify prev (setU64 sfIndexNext 0) ;~
         let~ root := peekLinked (page_ directory 0) in
         modify root (setU64 sfIndexPrevious prevPage) ;~
         vret 0
       else vret nextPage) in
    (if negb keepRoot && (nextPage =? 0) && (prevPage =? 0) then
       let~ indexes := v256Of sfIndexes prev in
       if bool_decide (indexes = []) then eraseCell prev else vret tt
     else vret tt) ;~
    vret true.

Definition dirRemove (directory : Keylet) (page key : Z) (keepRoot : bool) : M bool :=
  let~ node := peek (page_ directory page) in
  match node with
  | None => vret false
  | Some node =>
    let~ entries := v256Of sfIndexes node in
    if negb (existsb (Z.eqb key) entries) then vret false
    else
      let entries := eraseFirst key entries in
      modify node (setV256 sfIndexes entries) ;~
      if negb (bool_decide (entries = [])) then vret true
      else
        let~ prevPage := u64Of sfIndexPrevious node in
        let~ nextPage := u64Of sfIndexNext node in
        if page =? 0 then emptyRoot directory node prevPage nextPage keepRoot
        else unlinkPage directory page node prevPage nextPage keepRoot
  end.

(** The loop of [dirDelete], from page [pi] on; the fuel bounds the pages. *)
Fixpoint dirDeleteLoop (fuel : nat) (directory : Keylet) (pi : Z) : M (bool * list Z) :=
  match fuel with
  | O => vthrow Wild
  | S fuel =>
    let~ page := peek (page_ directory pi) in
    match page with
    | None => vret (false, [])
    | Some page =>
      let~ items := v256Of sfIndexes page in
      let~ e := entry page in
      let~ next := vthrow (proxyOptional STI_UINT64 (sleObject e) sfIndexNext) in
      eraseCell page ;~
      match next with
      | Some (LUInt64 next) => let~ r := dirDeleteLoop fuel directory next in vret (r.1, items ++ r.2)
      | _ => vret (true, items)
      end
    end
  end.

Definition dirDelete (fuel : nat) (directory : Keylet) : M (bool * list Z) := dirDeleteLoop fuel directory 0.
End Members.

(** ** Reading directories *)

Section Readers.
Context {V : Type} `{ReadView V} (sha512Half : list Z -> Z).

Abbreviation page_ := (keyletPage sha512Half).

(** The state of [cdirFirst] and [cdirNext]: the page and the index of the next entry *)
Record Cursor := mkCursor { cu_page : option SLE; cu_index : nat }.

(** [internalDirNext]: [None] when it returns false; the fuel bounds the pages. *)
Fixpoint dirNext (fuel : nat) (view : V) (root : Keylet) (c : Cursor) : Outcome (option Z * Cursor) :=
  match fuel with
  | O => Wild
  | S fuel =>
    match cu_page c with
    | None => Wild
    | Some page =>
      let? indexes := getFieldV256 (sleObject page) sfIndexes in
      match indexes !! cu_index c with
      | Some entry => Ret (Some entry, mkCursor (Some page) (S (cu_index c)))
      | None =>
        let? next := getFieldU64 (sleObject page) sfIndexNext in
        if next =? 0 then Ret (None, c)
        else
          let? page := viewRead view (page_ root next) in
          match page with
          | None => Ret (None, mkCursor None (cu_index c))
          | Some page => dirNext fuel view root (mkCursor (Some page) 0)
          end
      end
    end
  end.

Definition dirFirst (fuel : nat) (view : V) (root : Keylet) : Outcome (option Z * Cursor) :=
  let? page := viewRead view (page_ root 0) in
  match page with
  | None => Ret (None, mkCursor None 0)
  | Some page => dirNext fuel view root (mkCursor (Some page) 0)
  end.

(** [forEachItem]: the keys of the entries its function gets *)
Fixpoint forEachItem (fuel : nat) (view : V) (root : Keylet) (pos : Keylet) : Outcome (list Z) :=
  match fuel with
  | O => Wild
  | S fuel =>
    let? sle := viewRead view pos in
    match sle with
    | None => Ret []
    | Some sle =>
      let? items := getFieldV256 (sleObject sle) sfIndexes in
      let? next := getFieldU64 (sleObject sle) sfIndexNext in
      if next =? 0 then Ret items
      else let? rest := forEachItem fuel view root (page_ root next) in Ret (items ++ rest)
    end
  end.

Definition dirIsEmpty (view : V) (k : Keylet) : Outcome bool :=
  let? sleNode := viewRead view k in
  match sleNode with
  | None => Ret true
  | Some sle =>
    let? items := getFieldV256 (sleObject sle) sfIndexes in
    if negb (bool_decide (items = [])) then Ret false
    else let? next := getFieldU64 (sleObject sle) sfIndexNext in Ret (next =? 0)
  end.
End Readers.

(** [describeOwnerDir]: the function it returns *)
Definition describeOwnerDir (account : Z) (e : SLE) : Outcome SLE :=
  let? o := proxyAssign (sleObject e) sfOwner (LAccount false account) in Ret (withObject e o).
