(* ===== verification/DirectoryFacts.v ===== *)
(** * Directories: the linked pages

    The pages of a directory as a cyclic list linked in both directions, and what changing
    links does to the list. *)
From S2P Require Import Prelude Serializer Digits SerializerFacts SField Formats Number Amounts STTypes NodeID STObject STObjectFacts STObjectSpec.
From S2P Require Import STAccess STAccessFacts Views StateTables StateTablesFacts ApplyViewFacts ViewSpec Directory.

Record Page := mkPage { pNext : option Z; pPrev : option Z; pKeys : list Z; pRoot : Z }.

Definition nextOf (pg : Page) : Z := default 0 (pNext pg).
Definition prevOf (pg : Page) : Z := default 0 (pPrev pg).

Definition setNext (x : Z) (pg : Page) : Page := mkPage (Some x) (pPrev pg) (pKeys pg) (pRoot pg).
Definition setPrev (x : Z) (pg : Page) : Page := mkPage (pNext pg) (Some x) (pKeys pg) (pRoot pg).
Definition setKeys (l : list Z) (pg : Page) : Page := mkPage (pNext pg) (pPrev pg) l (pRoot pg).

(** The neighbours in a list *)
Fixpoint pairs {A} (l : list A) : list (A * A) :=
  match l with
  | a :: (b :: _) as l' => (a, b) :: pairs l'
  | _ => []
  end.

Lemma pairs_app {A} (l1 l2 : list A) a : pairs (l1 ++ a :: l2) = pairs (l1 ++ [a]) ++ pairs (a :: l2).
Proof. induction l1 as [|b [|c l1] IH]; [done|done|]. cbn [app pairs] in *. by rewrite IH. Qed.

Lemma pairs_snoc {A} (l : list A) a b : pairs (l ++ [a; b]) = pairs (l ++ [a]) ++ [(a, b)].
Proof. exact (pairs_app l [b] a). Qed.

Lemma pairs_fst {A} (l : list A) z : (pairs (l ++ [z])).*1 = l.
Proof. induction l as [|a [|b l] IH]; [done|done|]. cbn [app pairs fmap list_fmap] in *. by rewrite IH. Qed.

Lemma pairs_snd {A} (l : list A) a : (pairs (a :: l)).*2 = l.
Proof. revert a. induction l as [|b l IH]; intros a; [done|]. change (b :: (pairs (b :: l)).*2 = b :: l). by rewrite IH. Qed.

Abbreviation Pages := (list (Z * list Z)).

(** The pages of a directory, from the root on: their numbers increase, and the last page
    and the root are neighbours. *)
Definition linked (g : gmap Z Page) (l : Pages) : Prop :=
  StronglySorted Z.lt l.*1 /\ Forall (fun n => n < 2 ^ 64) l.*1 /\ match l with [] => True | (n, _) :: _ => n = 0 end /\
  (forall n, is_Some (g !! n) <-> n ∈ l.*1) /\
  (forall n ks, (n, ks) ∈ l -> pKeys <$> g !! n = Some ks) /\
  (forall a b, (a, b) ∈ pairs (l.*1 ++ [0]) -> nextOf <$> g !! a = Some b /\ prevOf <$> g !! b = Some a).

Definition lastPage (l : Pages) : Z := List.last l.*1 0.
Definition firstPage (l : Pages) : Z := List.hd 0 l.*1.

(** ** Sorted numbers *)

Lemma strongly_app {A} (R : A -> A -> Prop) l1 l2 :
  StronglySorted R (l1 ++ l2) <-> StronglySorted R l1 /\ StronglySorted R l2 /\ (forall a b, a ∈ l1 -> b ∈ l2 -> R a b).
Proof.
  induction l1 as [|x l1 IH]; cbn.
  - split; [intros H; split_and!; [constructor|done|by intros ? ? ?%not_elem_of_nil]|tauto].
  - split.
    + intros [H1 H2]%StronglySorted_inv. apply IH in H1 as (H1 & H3 & H4). rewrite Forall_app in H2. destruct H2 as [H2 H5].
      split; [by constructor|]. split; [done|]. rewrite Forall_forall in H5. intros a b [->|Ha]%elem_of_cons Hb; auto.
    + intros ([H1 H2]%StronglySorted_inv & H3 & H4). constructor.
      * apply IH. split; [done|]. split; [done|]. intros a b Ha. apply H4. by right.
      * apply Forall_app. split; [done|]. apply Forall_forall. intros b Hb. apply H4; [left|done].
Qed.

Lemma strongly_NoDup l : StronglySorted Z.lt l -> NoDup l.
Proof.
  induction 1 as [|x l Hs IH Hx]; constructor; [|done]. intros Hin. rewrite Forall_forall in Hx. specialize (Hx x Hin). lia.
Qed.

Lemma linked_NoDup g l : linked g l -> NoDup l.*1.
Proof. intros (Hs & _). by apply strongly_NoDup. Qed.

(** The numbers with the root at the end instead of the front have no duplicates either. *)
Lemma linked_NoDup_snd g l : linked g l -> NoDup (pairs (l.*1 ++ [0])).*2.
Proof.
  intros Hl. pose proof (linked_NoDup _ _ Hl) as Hd. destruct Hl as (_ & _ & H0 & _). destruct l as [|[n ks] l]; [constructor|]. subst n.
  cbn [fmap list_fmap fst app] in *. rewrite pairs_snd. apply NoDup_cons in Hd as [Hn Hd]. apply NoDup_app. split; [done|]. split.
  - intros x Hx ->%list_elem_of_singleton. done.
  - apply NoDup_singleton.
Qed.

Lemma linked_NoDup_fst g l : linked g l -> NoDup (pairs (l.*1 ++ [0])).*1.
Proof. intros Hl. rewrite pairs_fst. by apply (linked_NoDup g). Qed.

(** ** Changes that leave links alone *)

Lemma next_setPrev (g : gmap Z Page) k x a : nextOf <$> alter (setPrev x) k g !! a = nextOf <$> g !! a.
Proof. destruct (decide (k = a)) as [->|Hne]; [rewrite lookup_alter_eq|by rewrite lookup_alter_ne]. by destruct (g !! a). Qed.
Lemma prev_setNext (g : gmap Z Page) k x a : prevOf <$> alter (setNext x) k g !! a = prevOf <$> g !! a.
Proof. destruct (decide (k = a)) as [->|Hne]; [rewrite lookup_alter_eq|by rewrite lookup_alter_ne]. by destruct (g !! a). Qed.
Lemma keys_setPrev (g : gmap Z Page) k x a : pKeys <$> alter (setPrev x) k g !! a = pKeys <$> g !! a.
Proof. destruct (decide (k = a)) as [->|Hne]; [rewrite lookup_alter_eq|by rewrite lookup_alter_ne]. by destruct (g !! a). Qed.
Lemma keys_setNext (g : gmap Z Page) k x a : pKeys <$> alter (setNext x) k g !! a = pKeys <$> g !! a.
Proof. destruct (decide (k = a)) as [->|Hne]; [rewrite lookup_alter_eq|by rewrite lookup_alter_ne]. by destruct (g !! a). Qed.
Lemma next_setKeys (g : gmap Z Page) k x a : nextOf <$> alter (setKeys x) k g !! a = nextOf <$> g !! a.
Proof. destruct (decide (k = a)) as [->|Hne]; [rewrite lookup_alter_eq|by rewrite lookup_alter_ne]. by destruct (g !! a). Qed.
Lemma prev_setKeys (g : gmap Z Page) k x a : prevOf <$> alter (setKeys x) k g !! a = prevOf <$> g !! a.
Proof. destruct (decide (k = a)) as [->|Hne]; [rewrite lookup_alter_eq|by rewrite lookup_alter_ne]. by destruct (g !! a). Qed.
Lemma next_setNext (g : gmap Z Page) k x : is_Some (g !! k) -> nextOf <$> alter (setNext x) k g !! k = Some x.
Proof. intros [pg E]. by rewrite lookup_alter_eq, E. Qed.
Lemma prev_setPrev (g : gmap Z Page) k x : is_Some (g !! k) -> prevOf <$> alter (setPrev x) k g !! k = Some x.
Proof. intros [pg E]. by rewrite lookup_alter_eq, E. Qed.
Lemma alter_isSome {A} (f : A -> A) (g : gmap Z A) k n : is_Some (alter f k g !! n) <-> is_Some (g !! n).
Proof. destruct (decide (k = n)) as [->|Hne]; [rewrite lookup_alter_eq|by rewrite lookup_alter_ne]. by rewrite fmap_is_Some. Qed.

Lemma alter_twice {A} (f h : A -> A) (g : gmap Z A) k : alter f k (alter h k g) = alter (fun x => f (h x)) k g.
Proof.
  apply map_eq. intros n. destruct (decide (k = n)) as [->|Hne]; [rewrite !lookup_alter_eq; by destruct (g !! n)|by rewrite !lookup_alter_ne].
Qed.

Lemma alter_delete_comm {A} (f : A -> A) (g : gmap Z A) k n : k <> n -> alter f k (delete n g) = delete n (alter f k g).
Proof.
  intros Hkn. apply map_eq. intros j. destruct (decide (j = n)) as [->|Hj]; [by rewrite lookup_alter_ne, !lookup_delete_eq|].
  rewrite lookup_delete_ne by done. destruct (decide (k = j)) as [->|Hk]; [by rewrite !lookup_alter_eq, lookup_delete_ne|].
  by rewrite !lookup_alter_ne, lookup_delete_ne.
Qed.

(** ** Changes of the list *)

Lemma linked_setKeys g l1 n ks ks' l2 :
  linked g (l1 ++ (n, ks) :: l2) -> linked (alter (setKeys ks') n g) (l1 ++ (n, ks') :: l2).
Proof.
  intros Hl. pose proof (linked_NoDup _ _ Hl) as Hd. destruct Hl as (Hs & Hf & H0 & Hdom & Hk & Hp).
  unfold linked. rewrite !fmap_app, !fmap_cons in *. cbn [fst] in *. split; [done|]. split; [done|]. split; [by destruct l1 as [|[] ?]|]. split; [intros a; rewrite alter_isSome; apply Hdom|]. split.
  - apply NoDup_app in Hd as (_ & Hd1 & [Hd2 _]%NoDup_cons). intros a ka Ha. destruct (decide (a = n)) as [->|Hne].
    + assert ((n, ka) = (n, ks')) as [= ->].
      { apply elem_of_app in Ha as [Ha|[Ha|Ha]%elem_of_cons]; [|done|]; exfalso; apply (list_elem_of_fmap_2 fst) in Ha; cbn [fst] in Ha.
        - apply (Hd1 n Ha). left.
        - exact (Hd2 Ha). }
      assert (is_Some (g !! n)) as [pg Eg] by (apply Hdom, elem_of_app; right; left). by rewrite lookup_alter_eq, Eg.
    + rewrite lookup_alter_ne by done. apply Hk. apply elem_of_app in Ha as [Ha|[Ha|Ha]%elem_of_cons]; [..|simplify_eq|]; apply elem_of_app; [by left|by right; right].
  - intros a b Hab. rewrite next_setKeys, prev_setKeys. by apply Hp.
Qed.

(** A pair of neighbours that is not one of two given ones *)
Lemma pairs_unique {A B} (p1 p2 : list (A * B)) q a b :
  NoDup (p1 ++ q ++ p2).*1 -> NoDup (p1 ++ q ++ p2).*2 -> (a, b) ∈ p1 ++ p2 -> a ∉ q.*1 /\ b ∉ q.*2.
Proof.
  rewrite !fmap_app. intros (_ & Ha1 & (_ & Ha2 & _)%NoDup_app)%NoDup_app (_ & Hb1 & (_ & Hb2 & _)%NoDup_app)%NoDup_app [H|H]%elem_of_app;
    pose proof (list_elem_of_fmap_2 fst _ _ H) as H1; pose proof (list_elem_of_fmap_2 snd _ _ H) as H2; cbn in H1, H2.
  - split; intros Hq; [apply (Ha1 a H1)|apply (Hb1 b H2)]; apply elem_of_app; by left.
  - split; intros Hq; [by apply (Ha2 a Hq)|by apply (Hb2 b Hq)].
Qed.

Lemma snoc_lastPage (l : Pages) : l <> [] -> exists l', l.*1 = l' ++ [lastPage l].
Proof. intros Hl. exists (removelast l.*1). apply app_removelast_last. by destruct l. Qed.

Lemma firstPage_cycle (l : Pages) : exists l', l.*1 ++ [0] = firstPage l :: l'.
Proof. unfold firstPage. destruct l as [|[n ks] l]; cbn; eauto. Qed.

Lemma linked_unlink g l1 n ks l2 :
  l1 <> [] -> linked g (l1 ++ (n, ks) :: l2) ->
  linked (delete n (alter (setPrev (lastPage l1)) (firstPage l2) (alter (setNext (firstPage l2)) (lastPage l1) g))) (l1 ++ l2).
Proof.
  intros Hne Hl. pose proof (linked_NoDup_fst _ _ Hl) as Hd1. pose proof (linked_NoDup_snd _ _ Hl) as Hd2. pose proof (linked_NoDup _ _ Hl) as Hd.
  destruct (snoc_lastPage l1 Hne) as [a1 E1]. destruct (firstPage_cycle l2) as [a2 E2]. set (pv := lastPage l1) in *. set (nx := firstPage l2) in *.
  destruct Hl as (Hs & Hf & H0 & Hdom & Hk & Hp).
  assert (pairs ((l1 ++ (n, ks) :: l2).*1 ++ [0]) = pairs (a1 ++ [pv]) ++ [(pv, n); (n, nx)] ++ pairs (nx :: a2)) as Epairs.
  { rewrite fmap_app, fmap_cons. cbn [fst]. rewrite E1, <-!app_assoc. cbn [app]. rewrite E2, pairs_app. done. }
  assert (pairs ((l1 ++ l2).*1 ++ [0]) = pairs (a1 ++ [pv]) ++ [(pv, nx)] ++ pairs (nx :: a2)) as Enew.
  { rewrite fmap_app, E1, <-!app_assoc. cbn [app]. rewrite E2, pairs_app. done. }
  rewrite Epairs in Hp, Hd1, Hd2. rewrite fmap_app, fmap_cons in Hs, Hf, Hdom, Hd. cbn [fst] in *.
  apply strongly_app in Hs as (Hs1 & [Hs2 _]%StronglySorted_inv & Hs3). apply Forall_app in Hf as (Hf1 & [_ Hf2]%Forall_cons).
  apply NoDup_app in Hd as (_ & Hn1 & [Hn2 _]%NoDup_cons).
  assert (pv ∈ l1.*1) as Hpv by (rewrite E1; apply elem_of_app; right; left).
  assert (n <> pv) as Hnpv by (intros ->; apply (Hn1 _ Hpv); left).
  assert (forall a, a ∈ l1.*1 \/ a ∈ l2.*1 -> a <> n) as Hnn. { intros a [Ha|Ha] ->; [apply (Hn1 _ Ha); left|done]. }
  split; [rewrite fmap_app; apply strongly_app; split; [done|]; split; [done|]; intros a b Ha Hb; apply Hs3; [done|by right]|].
  split; [rewrite fmap_app; by apply Forall_app|]. split; [by destruct l1 as [|[] ?]|]. split; [|split].
  - intros a. rewrite fmap_app, elem_of_app. destruct (decide (a = n)) as [->|Hne'].
    + rewrite lookup_delete_eq. split; [by intros [? ?]|]. intros Ha. by apply Hnn in Ha.
    + rewrite lookup_delete_ne, !alter_isSome, Hdom, elem_of_app, elem_of_cons by done. naive_solver.
  - intros a ka Ha. assert (a <> n) as Ha'. { apply Hnn. apply (list_elem_of_fmap_2 fst) in Ha. rewrite fmap_app in Ha. by apply elem_of_app in Ha. }
    rewrite lookup_delete_ne, keys_setPrev, keys_setNext by done. apply Hk. apply elem_of_app in Ha as [Ha|Ha]; apply elem_of_app; [by left|right; by right].
  - assert (n <> nx) as Hnx.
    { intros E. rewrite !fmap_app in Hd2. cbn in Hd2. apply NoDup_app in Hd2 as (_ & _ & [Hd2 _]%NoDup_cons). apply Hd2. rewrite E. left. }
    rewrite Enew. intros a b Hab. apply elem_of_app in Hab as [Hab|[[= -> ->]|Hab]%elem_of_cons].
    2: { rewrite !lookup_delete_ne by done. rewrite next_setPrev, next_setNext by (apply Hdom, elem_of_app; by left).
         split; [done|]. apply prev_setPrev. rewrite alter_isSome. destruct (Hp n nx) as [_ Hq]; [apply elem_of_app; right; right; left|].
         destruct (g !! nx); [by eexists|done]. }
    all: assert ((a, b) ∈ pairs (a1 ++ [pv]) ++ pairs (nx :: a2)) as Hab' by (apply elem_of_app; by auto);
      destruct (pairs_unique _ _ _ _ _ Hd1 Hd2 Hab') as [Ha Hb]; cbn in Ha, Hb; apply not_elem_of_cons in Ha as [Ha1 Ha2%not_elem_of_cons];
      apply not_elem_of_cons in Hb as [Hb1 Hb2%not_elem_of_cons]; destruct Ha2 as [Ha2 _], Hb2 as [Hb2 _];
      rewrite !lookup_delete_ne, next_setPrev, lookup_alter_ne, (lookup_alter_ne _ _ _ b), prev_setNext by done;
      apply Hp, elem_of_app; apply elem_of_app in Hab' as [?|?]; [by left|right; right; by right].
Qed.

Lemma linked_append g l n ks pg :
  l <> [] -> linked g l -> lastPage l < n < 2 ^ 64 -> nextOf pg = 0 -> prevOf pg = lastPage l -> pKeys pg = ks ->
  linked (<[n := pg]> (alter (setPrev n) 0 (alter (setNext n) (lastPage l) g))) (l ++ [(n, ks)]).
Proof.
  intros Hne Hl Hn Hnext Hprev Hkeys. pose proof (linked_NoDup_fst _ _ Hl) as Hd1. pose proof (linked_NoDup_snd _ _ Hl) as Hd2.
  destruct (snoc_lastPage l Hne) as [a1 E1]. set (z := lastPage l) in *. destruct Hl as (Hs & Hf & H0 & Hdom & Hk & Hp).
  assert (forall a, a ∈ l.*1 -> a <= z) as Hz.
  { intros a. rewrite E1 in Hs |- *. apply strongly_app in Hs as (_ & _ & Hs). intros [Ha| ->%list_elem_of_singleton]%elem_of_app; [|lia].
    specialize (Hs a z Ha ltac:(left)). lia. }
  assert (z ∈ l.*1) as Hzl by (rewrite E1; apply elem_of_app; right; left).
  assert (0 ∈ l.*1) as H0l by (destruct l as [|[] ?]; [done|]; subst; left).
  rewrite E1, <-app_assoc in Hp, Hd1, Hd2. cbn [app] in Hp, Hd1, Hd2. rewrite pairs_snoc in Hp, Hd1, Hd2.
  assert (g !! n = None) as Hgn. { apply eq_None_not_Some. rewrite Hdom. intros Hin%Hz. lia. }
  pose proof (Hz 0 H0l) as Hz0. split; [|split; [|split; [by destruct l as [|[] ?]|split; [|split]]]].
  - rewrite fmap_app. apply strongly_app. split; [done|]. split; [repeat constructor|]. intros a b Ha%Hz ->%list_elem_of_singleton. cbn. lia.
  - rewrite fmap_app. apply Forall_app. split; [done|]. constructor; [cbn; lia|constructor].
  - intros a. rewrite fmap_app, elem_of_app. cbn. rewrite list_elem_of_singleton. destruct (decide (a = n)) as [->|Hna].
    + rewrite lookup_insert_eq. split; [by right|by eexists].
    + rewrite lookup_insert_ne, !alter_isSome, Hdom by done. naive_solver.
  - intros a ka [Ha|Ha]%elem_of_app.
    + assert (n <> a) by (apply (list_elem_of_fmap_2 fst) in Ha; apply Hz in Ha; cbn in Ha; lia).
      rewrite lookup_insert_ne, keys_setPrev, keys_setNext by done. by apply Hk.
    + apply list_elem_of_singleton in Ha as [= -> ->]. rewrite lookup_insert_eq. cbn. by rewrite Hkeys.
  - rewrite fmap_app, E1, <-!app_assoc. cbn [app fmap list_fmap fst]. change (a1 ++ [z; n; 0]) with (a1 ++ z :: [n; 0]). rewrite pairs_app. cbn [pairs].
    intros a b [Hab|[[= -> ->]|[[= -> ->]|[]%not_elem_of_nil]%elem_of_cons]%elem_of_cons]%elem_of_app.
    + destruct (pairs_unique _ [] [(z, 0)] a b ltac:(by rewrite app_nil_r) ltac:(by rewrite app_nil_r) ltac:(by rewrite app_nil_r)) as [Ha Hb].
      cbn in Ha, Hb. rewrite list_elem_of_singleton in Ha, Hb. destruct (Hp a b) as [Hp1 Hp2]; [apply elem_of_app; by left|].
      assert (a <> n /\ b <> n) as [Han Hbn]. { split; intros ->; rewrite Hgn in *; done. }
      rewrite !lookup_insert_ne, next_setPrev, lookup_alter_ne, (lookup_alter_ne _ _ _ b), prev_setNext by done. done.
    + rewrite lookup_insert_ne, next_setPrev, next_setNext by (lia || by apply Hdom). rewrite lookup_insert_eq. cbn. by rewrite Hprev.
    + rewrite lookup_insert_eq, lookup_insert_ne by lia. cbn. rewrite Hnext. split; [done|]. apply prev_setPrev. rewrite alter_isSome. by apply Hdom.
Qed.

(** ** Looking up *)

Lemma linked_lookup g l n ks : linked g l -> (n, ks) ∈ l -> exists pg, g !! n = Some pg /\ pKeys pg = ks.
Proof. intros (_ & _ & _ & _ & Hk & _) Hin. specialize (Hk n ks Hin). destruct (g !! n) as [pg|]; [|done]. injection Hk as Hk. by exists pg. Qed.

Lemma linked_absent g l n : linked g l -> n ∉ l.*1 -> g !! n = None.
Proof. intros (_ & _ & _ & Hdom & _) Hn. apply eq_None_not_Some. by rewrite Hdom. Qed.

Lemma linked_root g l : linked g l -> l <> [] -> exists ks l', l = (0, ks) :: l'.
Proof. intros (_ & _ & H0 & _) Hne. destruct l as [|[n ks] l']; [done|]. subst n. eauto. Qed.

Lemma linked_pos g l n ks l' : linked g l -> l = (n, ks) :: l' -> Forall (fun k => 0 < k < 2 ^ 64) l'.*1.
Proof.
  intros (Hs & Hf & H0 & _) ->. subst n. cbn in *. apply StronglySorted_inv in Hs as [_ Hs]. apply Forall_cons in Hf as [_ Hf].
  rewrite Forall_forall in *. intros k Hk. split; [by apply Hs|by apply Hf].
Qed.

Lemma linked_page g l n : linked g l -> n ∈ l.*1 -> 0 <= n < 2 ^ 64.
Proof.
  intros Hl Hn. destruct l as [|[k ks] l']; [by apply not_elem_of_nil in Hn|]. pose proof (linked_pos _ _ _ _ _ Hl eq_refl) as Hp.
  destruct Hl as (_ & _ & -> & _). apply elem_of_cons in Hn as [->|Hn]; [cbn; lia|]. rewrite Forall_forall in Hp. specialize (Hp n Hn). lia.
Qed.

Lemma linked_next g l1 n ks l2 pg : linked g (l1 ++ (n, ks) :: l2) -> g !! n = Some pg -> nextOf pg = firstPage l2.
Proof.
  intros (_ & _ & _ & _ & _ & Hp) Hg. destruct (firstPage_cycle l2) as [a E]. destruct (Hp n (firstPage l2)) as [Hn _].
  - rewrite fmap_app, fmap_cons, <-app_assoc. cbn [app fst]. rewrite E, pairs_app. apply elem_of_app. right. left.
  - rewrite Hg in Hn. by injection Hn.
Qed.

Lemma linked_prev g l1 n ks l2 pg : l1 <> [] -> linked g (l1 ++ (n, ks) :: l2) -> g !! n = Some pg -> prevOf pg = lastPage l1.
Proof.
  intros Hne (_ & _ & _ & _ & _ & Hp) Hg. destruct (snoc_lastPage l1 Hne) as [a E]. destruct (Hp (lastPage l1) n) as [_ Hn].
  - rewrite fmap_app, fmap_cons, E, <-!app_assoc. cbn [app fst]. rewrite pairs_app. apply elem_of_app. right. left.
  - rewrite Hg in Hn. by injection Hn.
Qed.

Lemma linked_prev_root g l pg : l <> [] -> linked g l -> g !! 0 = Some pg -> prevOf pg = lastPage l.
Proof.
  intros Hne (_ & _ & _ & _ & _ & Hp) Hg. destruct (snoc_lastPage l Hne) as [a E]. destruct (Hp (lastPage l) 0) as [_ Hn].
  - rewrite E, <-app_assoc. cbn [app]. rewrite pairs_snoc. apply elem_of_app. right. left.
  - rewrite Hg in Hn. by injection Hn.
Qed.

Lemma lastPage_snoc (l : Pages) n ks : lastPage (l ++ [(n, ks)]) = n.
Proof. unfold lastPage. rewrite fmap_app. apply last_last. Qed.

Lemma lastPage_in (l : Pages) : l <> [] -> lastPage l ∈ l.*1.
Proof. intros [a E]%snoc_lastPage. rewrite E. apply elem_of_app. right. left. Qed.

(** The next page of a page is the root only for the last page. *)
Lemma firstPage_zero g l1 l2 : l1 <> [] -> linked g (l1 ++ l2) -> firstPage l2 = 0 <-> l2 = [].
Proof.
  intros Hne Hl. split; [|by intros ->]. destruct l1 as [|[n ks] l1]; [done|]. cbn in Hl. pose proof (linked_pos _ _ _ _ _ Hl eq_refl) as Hp.
  destruct l2 as [|[k ks'] l2]; [done|]. unfold firstPage. cbn. intros ->. rewrite fmap_app in Hp. apply Forall_app in Hp as [_ Hp].
  apply Forall_cons in Hp as [Hp _]. cbn in Hp. lia.
Qed.

Lemma lastPage_zero g l : linked g l -> l <> [] -> lastPage l = 0 <-> exists ks, l = [(0, ks)].
Proof.
  intros Hl Hne. split.
  - destruct (linked_root _ _ Hl Hne) as (ks & l' & ->). pose proof (linked_pos _ _ _ _ _ Hl eq_refl) as Hp. destruct l' as [|x l'] using rev_ind; [eauto|].
    destruct x as [n ks']. intros E. change ((0, ks) :: l' ++ [(n, ks')]) with (((0, ks) :: l') ++ [(n, ks')]) in E. rewrite lastPage_snoc in E. subst n. rewrite fmap_app in Hp. apply Forall_app in Hp as [_ Hp].
    apply Forall_cons in Hp as [Hp _]. cbn in Hp. lia.
  - by intros [ks ->].
Qed.

(** ** The root *)

Lemma linked_single g pg ks : linked g [] -> nextOf pg = 0 -> prevOf pg = 0 -> pKeys pg = ks -> linked (<[0 := pg]> g) [(0, ks)].
Proof.
  intros Hl Hn Hp Hk. split; [repeat constructor|]. split; [repeat constructor; cbn; lia|]. split; [done|]. split; [|split].
  - intros n. cbn. rewrite list_elem_of_singleton. destruct (decide (n = 0)) as [->|Hne]; [rewrite lookup_insert_eq; split; [done|by eexists]|].
    rewrite lookup_insert_ne, (linked_absent _ _ _ Hl) by (try done; apply not_elem_of_nil). split; [by intros [? ?]|done].
  - intros n ks' [= -> ->]%list_elem_of_singleton. rewrite lookup_insert_eq. cbn. by rewrite Hk.
  - cbn. intros a b [= -> ->]%list_elem_of_singleton. rewrite lookup_insert_eq. cbn. by rewrite Hn, Hp.
Qed.

Lemma linked_gone g ks : linked g [(0, ks)] -> linked (delete 0 g) [].
Proof.
  intros (_ & _ & _ & Hdom & _). split; [constructor|]. split; [constructor|]. split; [done|]. split; [|split].
  - intros n. split; [|by intros ?%not_elem_of_nil]. destruct (decide (n = 0)) as [->|Hne]; [rewrite lookup_delete_eq; by intros [? ?]|].
    rewrite lookup_delete_ne, Hdom by done. cbn. by rewrite list_elem_of_singleton.
  - intros n ks' []%not_elem_of_nil.
  - intros a b []%not_elem_of_nil.
Qed.

(** With two or more pages after the root the page after it is not the last one. *)
Lemma lastPage_past g ks n ms x l : linked g ((0, ks) :: (n, ms) :: x :: l) -> n <> lastPage ((0, ks) :: (n, ms) :: x :: l).
Proof.
  intros (Hs & _). apply StronglySorted_inv in Hs as [[_ Hs]%StronglySorted_inv _]. rewrite Forall_forall in Hs.
  specialize (Hs (lastPage (x :: l)) (lastPage_in (x :: l) ltac:(done))). unfold lastPage in *. cbn in *. lia.
Qed.

(** ** Directories: the members step by step

    What setting and getting the fields of a page does, and what each access to the view
    does to the pages of a directory. *)

(** ** Entries that are pages *)

Definition dirTemplate : SOTemplate := default [] (findByType LedgerFormats ltDIR_NODE).

Definition dirEntry (e : SLE) : Prop := sleType e = ltDIR_NODE /\ type_ (sleObject e) = Some dirTemplate /\ wfObject (sleObject e).

(** The value of a field, when it is present *)
Definition leafAt (f : SField) (e : SLE) : option Leaf :=
  match slotOf f (v_ (sleObject e)) with Some (STLeaf _ v) => Some v | _ => None end.

Definition u64At (f : SField) (e : SLE) : option Z := match leafAt f e with Some (LUInt64 x) => Some x | _ => None end.
Definition v256At (f : SField) (e : SLE) : list Z := match leafAt f e with Some (LVector256 l) => l | _ => [] end.
Definition h256At (f : SField) (e : SLE) : Z := match leafAt f e with Some (LUInt256 x) => x | _ => 0 end.

Definition pageOf (e : SLE) : Page := mkPage (u64At sfIndexNext e) (u64At sfIndexPrevious e) (v256At sfIndexes e) (h256At sfRootIndex e).

(** The fields of the template that are used here *)
Definition dirField (f : SField) : Prop :=
  tableField f /\ (exists i, getIndex dirTemplate f = Some i) /\ fieldType f <> STI_OBJECT /\ fieldType f <> STI_ARRAY.

Lemma dirFields : dirField sfIndexNext /\ dirField sfIndexPrevious /\ dirField sfIndexes /\ dirField sfRootIndex /\ dirField sfOwner.
Proof. repeat split; try (vm_compute; reflexivity); try (eexists; vm_compute; reflexivity); vm_compute; discriminate. Qed.

Lemma dir_slot e f : dirEntry e -> dirField f ->
  exists b, slotOf f (v_ (sleObject e)) = Some b /\
    (b = STNotPresent f \/ exists v, b = STLeaf f v /\ leafSType v = fieldType f).
Proof.
  intros (_ & Ht & Hw) (Hf & [i Hi] & Ho & Ha). assert (slotIndex f (v_ (sleObject e)) = Some i) as Hs.
  { rewrite <-(getFieldIndex_slot _ _ Hw). unfold getFieldIndex. by rewrite Ht. }
  destruct (slot_at _ f Hw Hf i Hs) as (b & Hb & _ & Hn & Hty). exists b. unfold slotOf. rewrite Hs. split; [exact Hb|].
  destruct b as [g|g v|g t v|g v]; cbn in Hn, Hty; subst g; [by left|right; by exists v|done|done].
Qed.

Lemma getFieldLeaf_dir e f : dirEntry e -> dirField f ->
  getFieldLeaf (fieldType f) (sleObject e) f = match leafAt f e with Some v => Ret v | None => emptyLeaf (fieldType f) end.
Proof.
  intros He Hf. destruct (dir_slot e f He Hf) as (b & Hb & Hv). unfold getFieldLeaf, leafAt. rewrite peek_slot, Hb by apply He. cbn [obind].
  destruct Hv as [->|(v & -> & Hv)]; [done|]. cbn. by rewrite Hv, Z.eqb_refl.
Qed.

Lemma leafAt_typed e f v : dirEntry e -> dirField f -> leafAt f e = Some v -> leafSType v = fieldType f.
Proof.
  intros He Hf. destruct (dir_slot e f He Hf) as (b & Hb & Hv). unfold leafAt. rewrite Hb.
  destruct Hv as [->|(w & -> & Hv)]; [done|]. by intros [= <-].
Qed.

Lemma getU64_dir e f : dirEntry e -> dirField f -> fieldType f = STI_UINT64 -> getFieldU64 (sleObject e) f = Ret (default 0 (u64At f e)).
Proof.
  intros He Hf Ht. unfold getFieldU64. rewrite <-Ht, (getFieldLeaf_dir e f He Hf), Ht. unfold u64At. destruct (leafAt f e) as [v|] eqn:Ev; [|done].
  apply (leafAt_typed _ _ _ He Hf) in Ev. rewrite Ht in Ev. destruct v; done.
Qed.

Lemma getV256_dir e f : dirEntry e -> dirField f -> fieldType f = STI_VECTOR256 -> getFieldV256 (sleObject e) f = Ret (v256At f e).
Proof.
  intros He Hf Ht. unfold getFieldV256. rewrite <-Ht, (getFieldLeaf_dir e f He Hf), Ht. unfold v256At. destruct (leafAt f e) as [v|] eqn:Ev; [|done].
  apply (leafAt_typed _ _ _ He Hf) in Ev. rewrite Ht in Ev. destruct v; done.
Qed.

Lemma getH256_dir e f : dirEntry e -> dirField f -> fieldType f = STI_UINT256 -> getFieldH256 (sleObject e) f = Ret (h256At f e).
Proof.
  intros He Hf Ht. unfold getFieldH256. rewrite <-Ht, (getFieldLeaf_dir e f He Hf), Ht. unfold h256At. destruct (leafAt f e) as [v|] eqn:Ev; [|done].
  apply (leafAt_typed _ _ _ He Hf) in Ev. rewrite Ht in Ev. destruct v; done.
Qed.

(** One field is set. *)
Lemma setLeaf_dir e f v : dirEntry e -> dirField f -> leafSType v = fieldType f ->
  exists e', setLeaf f v e = Ret e' /\ dirEntry e' /\ key_ e' = key_ e /\
    forall g, leafAt g e' = if fieldCodeMem g =? fieldCodeMem f then Some v else leafAt g e.
Proof.
  intros He Hf Hv. pose proof He as (Hty & Ht & Hw). destruct (dir_slot e f He Hf) as (b & Hb & _).
  pose proof (setFieldLeaf_spec (sleObject e) f v Hw ltac:(apply Hf) Hv) as H. rewrite Hb, orb_true_r in H. destruct H as (o' & E & Et & Hw' & Hu).
  exists (withObject e o'). unfold setLeaf. rewrite E. cbn [obind]. split; [done|]. split; [split; [done|]; cbn; by rewrite Et|]. split; [done|].
  intros g. unfold leafAt. cbn [sleObject withObject]. rewrite Hu. by destruct (fieldCodeMem g =? fieldCodeMem f).
Qed.

(** ** Changes of a page *)

(** [f] changes an entry that is a page as [pf] says. *)
Definition changesPage (f : SLE -> Outcome SLE) (pf : Page -> Page) : Prop :=
  forall e, dirEntry e -> exists e', f e = Ret e' /\ dirEntry e' /\ key_ e' = key_ e /\ pageOf e' = pf (pageOf e).

Ltac set_page Hf v :=
  intros e He; destruct (setLeaf_dir e _ v He Hf eq_refl) as (e' & E & He' & Hk & Hl); exists e';
  split; [exact E|]; split; [done|]; split; [done|]; unfold pageOf, u64At, v256At, h256At; rewrite !Hl; reflexivity.

Lemma changes_next x : changesPage (setU64 sfIndexNext x) (setNext x).
Proof. destruct dirFields as (Hf & _). set_page Hf (LUInt64 x). Qed.
Lemma changes_prev x : changesPage (setU64 sfIndexPrevious x) (setPrev x).
Proof. destruct dirFields as (_ & Hf & _). set_page Hf (LUInt64 x). Qed.
Lemma changes_keys l : changesPage (setV256 sfIndexes l) (setKeys l).
Proof. destruct dirFields as (_ & _ & Hf & _). set_page Hf (LVector256 l). Qed.
Lemma changes_root x : changesPage (setH256 sfRootIndex x) (fun pg => mkPage (pNext pg) (pPrev pg) (pKeys pg) x).
Proof. destruct dirFields as (_ & _ & _ & Hf & _). set_page Hf (LUInt256 x). Qed.

Lemma changes_bind f g pf pg : changesPage f pf -> changesPage g pg -> changesPage (fun e => let? e := f e in g e) (fun p => pg (pf p)).
Proof.
  intros Hf Hg e He. destruct (Hf e He) as (e1 & -> & He1 & Hk1 & Hp1). destruct (Hg e1 He1) as (e2 & E & He2 & Hk2 & Hp2). exists e2.
  cbn [obind]. split; [done|]. split; [done|]. split; congruence.
Qed.

Lemma changes_close : changesPage closeRoot (fun p => setPrev 0 (setNext 0 p)).
Proof. apply (changes_bind _ _ _ _ (changes_next 0) (changes_prev 0)). Qed.

Lemma changes_id : changesPage Ret id.
Proof. intros e He. by exists e. Qed.

(** A new page *)
Lemma new_page k : exists e, newSLE k ltDIR_NODE = Ret e /\ dirEntry e /\ key_ e = k /\ pageOf e = mkPage None None [] 0.
Proof.
  destruct (findByType LedgerFormats ltDIR_NODE) as [t|] eqn:Et; [|vm_compute in Et; discriminate Et].
  destruct (entry_constructed k ltDIR_NODE t Et) as (e & E & Hk & Hty & (_ & Ht & _) & Hw). exists e. split; [done|].
  split; [split; [done|]; split; [|done]; unfold dirTemplate; by rewrite Et|]. split; [done|].
  assert (forall k', newSLE k' ltDIR_NODE = let? e := newSLE 0 ltDIR_NODE in Ret (mkSLE k' ltDIR_NODE (sleObject e))) as Hnew.
  { intros k'. unfold newSLE. rewrite Et. destruct (setTemplate t); cbn [obind]; try done. by destruct (setFieldLeaf _ _ _). }
  rewrite Hnew in E. destruct (newSLE 0 ltDIR_NODE) as [e0| | | | |] eqn:E0; try discriminate E. injection E as <-.
  vm_compute in E0. injection E0 as <-. vm_compute. reflexivity.
Qed.

(** What owner directories are described with *)
Lemma changes_owner account : changesPage (describeOwnerDir account) id.
Proof.
  intros e He. pose proof He as (Hty & Ht & Hw). destruct dirFields as (_ & _ & _ & _ & Hf). pose proof Hf as (Htab & [i Hi] & _).
  assert (slotIndex sfOwner (v_ (sleObject e)) = Some i) as Hs. { rewrite <-(getFieldIndex_slot _ _ Hw). unfold getFieldIndex. by rewrite Ht. }
  set (x := LAccount false account). destruct (present_and_set (sleObject e) sfOwner x Hw Htab eq_refl i Hs) as (o1 & b1 & E1 & E2 & E3 & E4 & E5).
  destruct (updated_leaf (sleObject e) sfOwner x Hw Htab eq_refl i Hs) as (Et' & Hw' & Hu).
  destruct (dir_slot e sfOwner He Hf) as (b & Hb & _).
  assert (proxyStyle (sleObject e) sfOwner = Ret SoeOptional) as Es. { unfold proxyStyle. rewrite Ht, peek_slot, Hb by done. cbn [obind]. vm_compute. reflexivity. }
  exists (withObject e (setSlot (sleObject e) i (STLeaf sfOwner x))). unfold describeOwnerDir, proxyAssign. fold x. rewrite Es. cbn [obind].
  rewrite bool_decide_eq_false_2 by done. cbn [andb]. rewrite bool_decide_eq_false_2 by done. rewrite E1. cbn [obind]. rewrite E2. cbn [obind].
  destruct (castLeaf_some _ _ E4) as (w & ->). cbn [obind]. rewrite E3, E5. split; [done|]. split; [split; [done|]; cbn; by rewrite ?Et'|]. split; [done|].
  unfold id, pageOf, u64At, v256At, h256At, leafAt. cbn [sleObject withObject]. rewrite !Hu. reflexivity.
Qed.

(** ** Pointers that stay *)

Definition live (t : ApplyStateTable.ApplyStateTable) (k : Z) (p : nat) : Prop :=
  exists a, ApplyStateTable.items_ t !! k = Some (a, p) /\ a <> ApplyStateTable.Erase.

Lemma update_live t h p t' k q : ApplyStateTable.update t h p = Ret t' -> live t k q -> live t' k q.
Proof.
  unfold ApplyStateTable.update. destruct (deref h p) as [e| | | | |]; cbn [obind]; try done.
  destruct (ApplyStateTable.items_ t !! key_ e) as [[a r]|] eqn:Hi; [|done]. destruct (negb (r =? p)%nat); [done|].
  intros E (b & Hb & Hne). destruct a; try done; injection E as <-; try (by exists b).
  destruct (decide (key_ e = k)) as [<-|Hk]; [|exists b; cbn; by rewrite lookup_insert_ne].
  rewrite Hi in Hb. injection Hb as <- <-. exists ApplyStateTable.Modify. cbn. by rewrite lookup_insert_eq.
Qed.

Lemma insert_live t h p t' k q : ApplyStateTable.insert t h p = Ret t' -> live t k q -> live t' k q.
Proof.
  unfold ApplyStateTable.insert. destruct (deref h p) as [e| | | | |]; cbn [obind]; try done. intros E (b & Hb & Hne).
  assert (key_ e <> k) as Hk.
  { intros <-. rewrite Hb in E. by destruct b. }
  destruct (ApplyStateTable.items_ t !! key_ e) as [[[] r]|] eqn:Hi; try done; injection E as <-; exists b; cbn; by rewrite lookup_insert_ne.
Qed.

Lemma erase_live t h p t' e k q : ApplyStateTable.erase t h p = Ret t' -> deref h p = Ret e -> key_ e <> k -> live t k q -> live t' k q.
Proof.
  unfold ApplyStateTable.erase. intros E He Hk (b & Hb & Hne). rewrite He in E. cbn [obind] in E.
  destruct (ApplyStateTable.items_ t !! key_ e) as [[a r]|] eqn:Hi; [|done]. destruct (negb (r =? p)%nat); [done|].
  destruct a; try done; injection E as <-; exists b; cbn; first [by rewrite lookup_insert_ne|by rewrite lookup_delete_ne].
Qed.

Lemma peek_live {V} `{ReadLaws V} (v v' : ApplyView V) r k j q :
  viewOk (av_base v) -> isKey (kl_key k) -> ApplyViewBase.peek v k = Ret (r, v') -> live (av_items v) j q -> live (av_items v') j q.
Proof.
  intros Hok Hk. unfold ApplyViewBase.peek, ApplyStateTable.peek. destruct (ApplyStateTable.items_ (av_items v) !! kl_key k) as [[a p]|] eqn:Hi.
  - destruct a; cbn [obind]; try (by intros [= _ <-]); destruct (deref (av_heap v) p) as [e| | | | |]; cbn [obind]; try done;
      destruct (negb (keyletCheck k e)); cbn; by intros [= _ <-].
  - rewrite (view_read _ _ Hok Hk). cbn [obind]. destruct (viewMap (av_base v) !! kl_key k) as [e|] eqn:He; cbn; [|by intros [= _ <-]].
    destruct (view_keyed _ Hok _ _ He) as (Hke & _). unfold checked. destruct (keyletCheck k e); cbn; intros [= _ <-]; [|done].
    intros (b & Hb & Hne). exists b. cbn. rewrite lookup_insert_ne; [done|]. intros E. rewrite Hke in E. congruence.
Qed.

(** ** Directories in a view *)

Section Steps.
Context {V : Type} `{ReadLaws V} (sha512Half : list Z -> Z) (d : Keylet).

Abbreviation avOk := (viewOk (ReadLaws := ApplyView_laws (fun _ : SLE => True))).
Abbreviation avMap := (viewMap (ReadLaws := ApplyView_laws (fun _ : SLE => True))).
Abbreviation M := (ViewM V).

Definition isPage (n : Z) : Prop := 0 <= n < 2 ^ 64.
Definition pageKey (n : Z) : Z := kl_key (keyletPage sha512Half d n).

(** The keys of the pages of the directory are keys of entries, and differ. *)
Definition pagesDiffer : Prop :=
  kl_type d = ltDIR_NODE /\ (forall n, isPage n -> isKey (pageKey n) /\ pageKey n <> 0) /\
  (forall i j, isPage i -> isPage j -> pageKey i = pageKey j -> i = j).

Context (Hd : pagesDiffer).

(** The pages of the directory in a map of entries *)
Definition shows (m : gmap Z SLE) (g : gmap Z Page) : Prop :=
  (forall n, is_Some (g !! n) -> isPage n) /\
  forall n, isPage n ->
    match g !! n with
    | Some pg => exists e, m !! pageKey n = Some e /\ dirEntry e /\ pageOf e = pg
    | None => m !! pageKey n = None
    end.

(** The entries that are not pages of the directory *)
Definition sameElsewhere (m m' : gmap Z SLE) : Prop := forall k, (forall n, isPage n -> k <> pageKey n) -> m' !! k = m !! k.

(** A view over [base] in which the directory has the pages [g] and everything else is as in [m0] *)
Definition inDir (base : V) (m0 : gmap Z SLE) (v : ApplyView V) (g : gmap Z Page) : Prop :=
  avOk v /\ av_base v = base /\ shows (avMap v) g /\ sameElsewhere m0 (avMap v).

(** The pointer to the entry of a page *)
Definition pointer (v : ApplyView V) (n : Z) (p : nat) : Prop := live (av_items v) (pageKey n) p.

Definition pointersKept (v v' : ApplyView V) : Prop := forall n p, pointer v n p -> pointer v' n p.

Lemma shows_insert m g n e : shows m g -> isPage n -> dirEntry e -> shows (<[pageKey n := e]> m) (<[n := pageOf e]> g).
Proof.
  intros [Hdom Hs] Hn He. split.
  - intros k. destruct (decide (n = k)) as [->|Hne]; [done|]. rewrite lookup_insert_ne by done. apply Hdom.
  - intros k Hk. destruct (decide (n = k)) as [->|Hne].
    + rewrite !lookup_insert_eq. by exists e.
    + rewrite !lookup_insert_ne; [by apply Hs|intros E; by apply Hd in E|done].
Qed.

Lemma shows_delete m g n : shows m g -> isPage n -> shows (delete (pageKey n) m) (delete n g).
Proof.
  intros [Hdom Hs] Hn. split.
  - intros k. destruct (decide (n = k)) as [->|Hne]; [done|]. rewrite lookup_delete_ne by done. apply Hdom.
  - intros k Hk. destruct (decide (n = k)) as [->|Hne].
    + by rewrite !lookup_delete_eq.
    + rewrite !lookup_delete_ne; [by apply Hs|intros E; by apply Hd in E|done].
Qed.

Lemma same_insert m0 m n e : sameElsewhere m0 m -> isPage n -> sameElsewhere m0 (<[pageKey n := e]> m).
Proof. intros Hs Hn k Hk. rewrite lookup_insert_ne; [by apply Hs|]. intros E. by apply (Hk n). Qed.
Lemma same_delete m0 m n : sameElsewhere m0 m -> isPage n -> sameElsewhere m0 (delete (pageKey n) m).
Proof. intros Hs Hn k Hk. rewrite lookup_delete_ne; [by apply Hs|]. intros E. by apply (Hk n). Qed.

Context (base : V) (m0 : gmap Z SLE).
Abbreviation inD := (inDir base m0).

(** Where a pointer leads *)
Lemma pointer_cell v g n p pg : inD v g -> isPage n -> pointer v n p -> g !! n = Some pg ->
  exists a e, ApplyStateTable.items_ (av_items v) !! key_ e = Some (a, p) /\ a <> ApplyStateTable.Erase /\ key_ e = pageKey n /\
    cells_ (av_heap v) !! p = Some e /\ dirEntry e /\ pageOf e = pg.
Proof.
  intros ([Hok Ht] & _ & [_ Hs] & _) Hn (a & Hi & Ha) Hg. specialize (Hs n Hn). rewrite Hg in Hs. destruct Hs as (e & Hm & He & Hp).
  destruct (applyMap_item _ _ _ _ _ _ _ Ht Hi) as (e' & Hc & Hk & Em). cbn in Hm.
  assert (match a with ApplyStateTable.Erase => None | _ => Some e' end = Some e') as Ea by (by destruct a).
  rewrite Ea in Em. rewrite Em in Hm. injection Hm as <-. exists a, e'. rewrite Hk. by split_and!.
Qed.

(** *** The accesses *)

Lemma peek_step v g n : inD v g -> isPage n ->
  exists r v', peek (keyletPage sha512Half d n) v = Ret (r, v') /\ inD v' g /\ pointersKept v v' /\
    match g !! n with Some _ => exists p, r = Some p /\ pointer v' n p | None => r = None end.
Proof.
  intros Hin Hn. pose proof Hin as (Hok & Hb & Hs & Hm). destruct (proj1 (proj2 Hd) n Hn) as [Hk _].
  destruct (peek_spec (fun _ => True) v (keyletPage sha512Half d n) Hok Hk) as (r & v' & E & Hok' & Hb' & Em & Hr).
  exists r, v'. split; [exact E|]. split; [split; [done|]; split; [congruence|]; by rewrite Em|].
  split; [intros j q; by apply (peek_live v v' r _ _ _ (proj1 Hok) Hk E)|]. destruct Hs as [_ Hs]. specialize (Hs n Hn).
  unfold pageKey in Hs. destruct (g !! n) as [pg|].
  - destruct Hs as (e & He & (Hty & _) & _). rewrite He in Hr. cbn [mbind option_bind] in Hr. unfold checked in Hr.
    assert (keyletCheck (keyletPage sha512Half d n) e = true) as Hc.
    { destruct (view_keyed (ReadLaws := ApplyView_laws (fun _ => True)) v Hok _ _ He) as [Hke _]. unfold keyletCheck. rewrite Hty, Hke.
      assert (kl_type (keyletPage sha512Half d n) = ltDIR_NODE) as -> by (unfold keyletPage; by destruct (n =? 0)). by rewrite !Z.eqb_refl. }
    rewrite Hc in Hr. destruct r as [p|]; [|done]. exists p. split; [done|]. destruct Hr as (e' & a & _ & Hi & Ha & _). by exists a.
  - rewrite Hs in Hr. destruct r as [p|]; [|done]. by destruct Hr as (? & ? & _ & _ & _ & _ & ?).
Qed.

Lemma entry_step v g n p pg : inD v g -> isPage n -> pointer v n p -> g !! n = Some pg ->
  exists e, entry p v = Ret (e, v) /\ dirEntry e /\ pageOf e = pg.
Proof.
  intros Hin Hn Hp Hg. destruct (pointer_cell v g n p pg Hin Hn Hp Hg) as (a & e & _ & _ & _ & Hc & He & Epg).
  exists e. unfold entry. by rewrite (deref_cell _ _ _ Hc).
Qed.

Lemma next_step v g n p pg : inD v g -> isPage n -> pointer v n p -> g !! n = Some pg -> u64Of sfIndexNext p v = Ret (nextOf pg, v).
Proof.
  intros Hin Hn Hp Hg. destruct (entry_step v g n p pg Hin Hn Hp Hg) as (e & E & He & <-). unfold u64Of, vbind. rewrite E. cbn [obind].
  unfold vthrow. rewrite getU64_dir; [done|done|apply dirFields|done].
Qed.

Lemma prev_step v g n p pg : inD v g -> isPage n -> pointer v n p -> g !! n = Some pg -> u64Of sfIndexPrevious p v = Ret (prevOf pg, v).
Proof.
  intros Hin Hn Hp Hg. destruct (entry_step v g n p pg Hin Hn Hp Hg) as (e & E & He & <-). unfold u64Of, vbind. rewrite E. cbn [obind].
  unfold vthrow. rewrite getU64_dir; [done|done|apply dirFields|done].
Qed.

Lemma keys_step v g n p pg : inD v g -> isPage n -> pointer v n p -> g !! n = Some pg -> v256Of sfIndexes p v = Ret (pKeys pg, v).
Proof.
  intros Hin Hn Hp Hg. destruct (entry_step v g n p pg Hin Hn Hp Hg) as (e & E & He & <-). unfold v256Of, vbind. rewrite E. cbn [obind].
  unfold vthrow. rewrite getV256_dir; [done|done|apply dirFields|done].
Qed.

Lemma modify_step v g n p f pf : inD v g -> isPage n -> pointer v n p -> is_Some (g !! n) -> changesPage f pf ->
  exists v', modify p f v = Ret (tt, v') /\ inD v' (alter pf n g) /\ pointersKept v v'.
Proof.
  intros Hin Hn Hp [pg Hg] Hf. destruct (pointer_cell v g n p pg Hin Hn Hp Hg) as (a & e & Hi & Ha & Hk & Hc & He & Epg).
  destruct Hin as ([Hok Ht] & Hb & Hs & Hm). destruct (Hf e He) as (e' & Ef & He' & Hk' & Ep').
  destruct (change_spec (fun _ => True) _ _ _ p a e e' Ht Hi Ha Hc Hk' I) as (t' & Eu & Ht' & Em').
  unfold modify. rewrite (deref_cell _ _ _ Hc). cbn [obind]. rewrite Ef. cbn [obind].
  unfold ApplyViewBase.update, ApplyViewBase.onTable, ApplyViewBase.assign. cbn [av_items av_heap av_base]. rewrite Eu. cbn [obind].
  eexists. split; [done|]. split; [|intros j q; cbn; by apply (update_live _ _ _ _ _ _ Eu)].
  split; [split; [done|exact Ht']|]. split; [done|]. cbn [viewMap ApplyView_laws av_items av_heap av_base]. rewrite Em', Hk.
  split; [|by apply same_insert]. assert (alter pf n g = <[n := pageOf e']> g) as ->.
  { apply map_eq. intros j. destruct (decide (n = j)) as [<-|Hne]; [rewrite lookup_alter_eq, Hg, lookup_insert_eq; cbn; congruence|].
    by rewrite lookup_alter_ne, lookup_insert_ne. }
  by apply shows_insert.
Qed.

Lemma erase_step v g n p : inD v g -> isPage n -> pointer v n p -> is_Some (g !! n) ->
  exists v', eraseCell p v = Ret (tt, v') /\ inD v' (delete n g) /\ (forall j q, isPage j -> j <> n -> pointer v j q -> pointer v' j q).
Proof.
  intros Hin Hn Hp [pg Hg]. destruct (pointer_cell v g n p pg Hin Hn Hp Hg) as (a & e & Hi & Ha & Hk & Hc & He & Epg).
  destruct Hin as ([Hok Ht] & Hb & Hs & Hm). pose proof (ApplyViewFacts.erase_spec (fun _ => True) _ _ _ p e Ht Hc) as Her. rewrite Hi in Her.
  assert (exists t', ApplyStateTable.erase (av_items v) (av_heap v) p = Ret t' /\ applyOk (fun _ => True) (viewMap (av_base v)) t' (av_heap v) /\
    applyMap t' (av_heap v) (viewMap (av_base v)) = delete (key_ e) (avMap v)) as (t' & Ee & Ht' & Em').
  { destruct a; try done; destruct (decide (p = p)); done. }
  unfold eraseCell, ApplyViewBase.erase, ApplyViewBase.onTable. rewrite Ee. cbn [obind]. eexists. split; [done|]. split.
  - split; [done|]. split; [done|]. cbn [viewMap ApplyView_laws av_items av_heap av_base]. rewrite Em', Hk. split; [by apply shows_delete|by apply same_delete].
  - intros j q Hj Hne. cbn. apply (erase_live _ _ _ _ e _ _ Ee (deref_cell _ _ _ Hc)). rewrite Hk. intros E. apply Hne. symmetry. by apply Hd in E.
Qed.

Lemma insert_step v g n e : inD v g -> isPage n -> g !! n = None -> dirEntry e -> key_ e = pageKey n ->
  exists v', insertNew e v = Ret (tt, v') /\ inD v' (<[n := pageOf e]> g) /\ pointersKept v v'.
Proof.
  intros ([Hok Ht] & Hb & Hs & Hm) Hn Hg He Hk. destruct (proj1 (proj2 Hd) n Hn) as [Hkey Hz]. destruct (alloc_ok (fun _ => True) _ _ _ e Ht) as [Ht' Em].
  pose proof (proj2 Hs n Hn) as Hnone. rewrite Hg in Hnone. cbn in Hnone. rewrite <-Em, <-Hk in Hnone. rewrite <-Hk in Hkey, Hz.
  destruct (ApplyViewFacts.insert_spec (fun _ => True) _ _ _ (fresh_ (av_heap v)) e Ht' (lookup_insert_eq _ _ _) Hkey Hz I Hnone) as (t' & Ei & Hok' & Em').
  unfold insertNew, ApplyViewBase.make. cbn [alloc] in *. unfold ApplyViewBase.insert, ApplyViewBase.onTable. cbn [av_items av_heap av_base].
  cbn in Ei. rewrite Ei. cbn [obind]. eexists. split; [done|]. split; [|intros j q; cbn; by apply (insert_live _ _ _ _ _ _ Ei)].
  split; [split; [done|exact Hok']|]. split; [done|]. cbn [viewMap ApplyView_laws av_items av_heap av_base]. cbn in Em'. rewrite Em'.
  cbn in Em. rewrite Em, Hk. split; [by apply shows_insert|by apply same_insert].
Qed.
End Steps.
