(* ===== verification/DirectorySpec.v ===== *)
(** * Directories: adding and removing keys

    [dirAdd] and [dirRemove] against a list of pages, each a number with its keys. *)
From S2P Require Import Prelude Digits Serializer SerializerFacts SField Formats Number Amounts STTypes NodeID STObject STObjectFacts STObjectSpec.
From S2P Require Import STAccess STAccessFacts Views StateTables StateTablesFacts ApplyViewFacts ViewSpec Directory DirectoryFacts.

(** ** The specification *)

Definition specAdd (fixDirectoryLimit preserveOrder : bool) (key : Z) (l : Pages) : Outcome (option Z * Pages) :=
  match last l with
  | None => Ret (Some 0, [(0, [key])])
  | Some (n, ks) =>
    if Z.of_nat (length ks) <? kDirNodeMaxEntries then
      let? ks' := insertIndex preserveOrder ks key in Ret (Some n, removelast l ++ [(n, ks')])
    else
      let m := u64 (n + 1) in
      if (m =? 0) || (negb fixDirectoryLimit && (kDirNodeMaxPages <=? m)) then Ret (None, l)
      else Ret (Some m, l ++ [(m, [key])])
  end.

(** The pages before and after a page, and its keys *)
Fixpoint splitPage (n : Z) (l : Pages) : option (Pages * list Z * Pages) :=
  match l with
  | [] => None
  | (k, ks) :: l =>
    if k =? n then Some ([], ks, l)
    else match splitPage n l with Some (l1, ks', l2) => Some ((k, ks) :: l1, ks', l2) | None => None end
  end.

(** A last page that is empty goes with the page before it. *)
Definition dropEmptyLast (l : Pages) : Pages := match l with [(_, [])] => [] | _ => l end.

Definition dropRoot (keepRoot : bool) (l : Pages) : Pages := match l with [(_, [])] => if keepRoot then l else [] | _ => l end.

Definition specRemove (page key : Z) (keepRoot : bool) (l : Pages) : bool * Pages :=
  match splitPage page l with
  | None => (false, l)
  | Some (l1, ks, l2) =>
    if negb (existsb (Z.eqb key) ks) then (false, l)
    else
      match eraseFirst key ks with
      | [] => (true, dropRoot keepRoot (l1 ++ (if page =? 0 then [(0, [])] else []) ++ dropEmptyLast l2))
      | ks' => (true, l1 ++ (page, ks') :: l2)
      end
  end.

Lemma splitPage_spec n l :
  match splitPage n l with Some (l1, ks, l2) => l = l1 ++ (n, ks) :: l2 | None => n ∉ l.*1 end.
Proof.
  induction l as [|[k ks] l IH]; cbn; [apply not_elem_of_nil|]. destruct (Z.eqb_spec k n) as [->|Hne]; [done|].
  destruct (splitPage n l) as [[[l1 ks'] l2]|]; cbn; [by rewrite IH|]. apply not_elem_of_cons. split; [done|exact IH].
Qed.

Lemma last_removelast {A} (l : list A) x : last l = Some x -> l = removelast l ++ [x].
Proof. intros E. apply last_Some in E as [l' ->]. by rewrite removelast_last. Qed.

(** ** The members *)

Lemma vbind_step {V A B} (m : ViewM V A) (k : A -> ViewM V B) v a v' : m v = Ret (a, v') -> vbind m k v = k a v'.
Proof. unfold vbind. by intros ->. Qed.

Lemma vbind_throw {V A B} (a : A) (k : A -> ViewM V B) v : vbind (vthrow (Ret a)) k v = k a v.
Proof. done. Qed.

Section Spec.
Context {V : Type} `{ReadLaws V} (sha512Half : list Z -> Z) (fixDirectoryLimit : bool) (describe : SLE -> Outcome SLE).
Context (d : Keylet) (Hd : pagesDiffer sha512Half d) (Hdescribe : changesPage describe id) (base : V) (m0 : gmap Z SLE).

Abbreviation inD := (inDir sha512Half d base m0).
Abbreviation ptr := (pointer sha512Half d).
Abbreviation page_ := (keyletPage sha512Half d).

Lemma root_keylet : page_ 0 = d.
Proof. destruct Hd as [Ht _]. unfold keyletPage. cbn. rewrite <-Ht. by destruct d. Qed.

Lemma page_zero : isPage 0.
Proof. unfold isPage. lia. Qed.

(** [peek] for a page that is there *)
Lemma peekLinked_step v g n pg : inD v g -> isPage n -> g !! n = Some pg ->
  exists p v', peekLinked (page_ n) v = Ret (p, v') /\ inD v' g /\ pointersKept sha512Half d v v' /\ ptr v' n p.
Proof.
  intros Hin Hn Hg. destruct (peek_step sha512Half d Hd base m0 v g n Hin Hn) as (r & v' & E & Hin' & Hk & Hr). rewrite Hg in Hr.
  destruct Hr as (p & -> & Hp). exists p, v'. unfold peekLinked. rewrite (vbind_step _ _ _ _ _ E). by split_and!.
Qed.

Lemma createRoot_spec v g key : inD v g -> linked g [] ->
  exists v' g', createRoot describe d key v = Ret (Some 0, v') /\ inD v' g' /\ linked g' [(0, [key])].
Proof.
  intros Hin Hl. pose proof Hd as (Ht & _). destruct (new_page (kl_key d)) as (e0 & E0 & He0 & Hk0 & Ep0).
  destruct (changes_root (kl_key d) e0 He0) as (e1 & E1 & He1 & Hk1 & Ep1). destruct (Hdescribe e1 He1) as (e2 & E2 & He2 & Hk2 & Ep2).
  destruct (changes_keys [key] e2 He2) as (e3 & E3 & He3 & Hk3 & Ep3).
  unfold createRoot. rewrite Ht, E0. cbn [obind]. rewrite E1. cbn [obind]. rewrite E2. cbn [obind]. rewrite E3, vbind_throw.
  destruct (insert_step sha512Half d Hd base m0 v g 0 e3 Hin page_zero) as (v' & Ei & Hin' & _).
  { apply (linked_absent _ _ _ Hl). apply not_elem_of_nil. }
  { done. }
  { unfold pageKey. rewrite root_keylet. congruence. }
  rewrite (vbind_step _ _ _ _ _ Ei). eexists _, _. split; [done|]. split; [exact Hin'|]. rewrite Ep3, Ep2, Ep1, Ep0. by apply linked_single.
Qed.

Lemma new_entry m n key : m = n + 1 ->
  exists e, (let? e := newSLE (kl_key (page_ m)) ltDIR_NODE in
    let? e := setH256 sfRootIndex (kl_key d) e in
    let? e := setV256 sfIndexes [key] e in
    let? e := if m =? 1 then Ret e else setU64 sfIndexPrevious (m - 1) e in
    describe e) = Ret e /\ dirEntry e /\ key_ e = pageKey sha512Half d m /\ nextOf (pageOf e) = 0 /\ prevOf (pageOf e) = n /\ pKeys (pageOf e) = [key].
Proof.
  intros Hm. destruct (new_page (kl_key (page_ m))) as (e0 & E0 & He0 & Hk0 & Ep0).
  destruct (changes_root (kl_key d) e0 He0) as (e1 & E1 & He1 & Hk1 & Ep1). destruct (changes_keys [key] e1 He1) as (e2 & E2 & He2 & Hk2 & Ep2).
  assert (exists e3, (if m =? 1 then Ret e2 else setU64 sfIndexPrevious (m - 1) e2) = Ret e3 /\ dirEntry e3 /\ key_ e3 = key_ e2 /\
    pNext (pageOf e3) = None /\ prevOf (pageOf e3) = n /\ pKeys (pageOf e3) = [key]) as (e3 & E3 & He3 & Hk3 & Hn3 & Hp3 & Hks3).
  { destruct (Z.eqb_spec m 1) as [->|Hne].
    - exists e2. rewrite Ep2, Ep1, Ep0. cbn. split_and!; try done. lia.
    - destruct (changes_prev (m - 1) e2 He2) as (e3 & E3 & He3 & Hk3 & Ep3). exists e3. rewrite Ep3, Ep2, Ep1, Ep0. cbn. split_and!; try done. unfold prevOf. cbn. lia. }
  destruct (Hdescribe e3 He3) as (e4 & E4 & He4 & Hk4 & Ep4). exists e4. rewrite E0. cbn [obind]. rewrite E1. cbn [obind]. rewrite E2. cbn [obind].
  rewrite E3. cbn [obind]. split; [done|]. split; [done|]. split; [unfold pageKey; congruence|]. rewrite Ep4. unfold id, nextOf. by rewrite Hn3.
Qed.

Lemma insertPage_spec v g l n ks p r key : inD v g -> linked g (l ++ [(n, ks)]) -> ptr v n p -> ptr v 0 r ->
  let m := u64 (n + 1) in
  if (m =? 0) || (negb fixDirectoryLimit && (kDirNodeMaxPages <=? m)) then insertPage sha512Half fixDirectoryLimit describe n p r key d v = Ret (None, v)
  else exists v' g', insertPage sha512Half fixDirectoryLimit describe n p r key d v = Ret (Some m, v') /\ inD v' g' /\ linked g' (l ++ [(n, ks)] ++ [(m, [key])]).
Proof.
  intros Hin Hl Hp Hr m. unfold insertPage. fold m. destruct (Z.eqb_spec m 0) as [|Hm]; [done|]. cbn [orb].
  destruct (negb fixDirectoryLimit && (kDirNodeMaxPages <=? m)); [done|].
  assert (n ∈ (l ++ [(n, ks)]).*1) as Hnl by (rewrite fmap_app; apply elem_of_app; right; left).
  pose proof (linked_page _ _ _ Hl Hnl) as Hn. assert (m = n + 1) as Em. { unfold m, u64 in *. destruct (decide (n = 2 ^ 64 - 1)) as [->|]; [done|]. apply Z.mod_small. lia. }
  assert (0 ∈ (l ++ [(n, ks)]).*1) as H0l. { destruct (linked_root _ _ Hl) as (k0 & l' & ->); [by destruct l|]. left. }
  assert (m < 2 ^ 64) as Hm64. { unfold m, u64. apply Z.mod_pos_bound. lia. }
  destruct (modify_step sha512Half d Hd base m0 v g n p _ _ Hin Hn Hp ltac:(by apply Hl) (changes_next m)) as (v1 & E1 & Hin1 & Hk1).
  rewrite (vbind_step _ _ _ _ _ E1).
  destruct (modify_step sha512Half d Hd base m0 v1 _ 0 r _ _ Hin1 page_zero (Hk1 _ _ Hr) ltac:(rewrite alter_isSome; by apply Hl) (changes_prev m)) as (v2 & E2 & Hin2 & _).
  rewrite (vbind_step _ _ _ _ _ E2). destruct (new_entry m n key Em) as (e & Ee & He & Hk & Epn & Epp & Epk). rewrite Ee, vbind_throw.
  destruct (insert_step sha512Half d Hd base m0 v2 _ m e Hin2 ltac:(unfold isPage; lia)) as (v3 & E3 & Hin3 & _); [|done|done|].
  { apply eq_None_not_Some. rewrite !alter_isSome. destruct Hl as (Hs & _ & _ & Hdom & _). rewrite Hdom, fmap_app. rewrite fmap_app in Hs.
    apply strongly_app in Hs as (_ & _ & Hs). intros [Hi| ->%list_elem_of_singleton]%elem_of_app; [|cbn in Em; lia].
    specialize (Hs m n Hi ltac:(left)). lia. }
  rewrite (vbind_step _ _ _ _ _ E3). eexists _, _. split; [done|]. split; [exact Hin3|]. rewrite app_assoc.
  pose proof (linked_append g (l ++ [(n, ks)]) m [key] (pageOf e)) as Ha. rewrite lastPage_snoc in Ha. apply Ha; try done; [by destruct l|lia].
Qed.

Lemma insertKey_spec v g l n ks p preserveOrder key : inD v g -> linked g (l ++ [(n, ks)]) -> ptr v n p ->
  match insertIndex preserveOrder ks key with
  | Ret ks' => exists v' g', insertKey p n preserveOrder ks key v = Ret (Some n, v') /\ inD v' g' /\ linked g' (l ++ [(n, ks')])
  | _ => insertKey p n preserveOrder ks key v = LogicError
  end.
Proof.
  intros Hin Hl Hp. unfold insertKey.
  assert (n ∈ (l ++ [(n, ks)]).*1) as Hnl by (rewrite fmap_app; apply elem_of_app; right; left).
  assert (insertIndex preserveOrder ks key = LogicError \/ exists ks', insertIndex preserveOrder ks key = Ret ks') as [->|[ks' ->]]; [|done|].
  { unfold insertIndex. destruct preserveOrder; [destruct (existsb _ _); eauto|]. destruct (lowerBound key (sortKeys ks)) as [x y].
    destruct (match y with [] => false | z :: _ => key =? z end); eauto. }
  rewrite vbind_throw. destruct (modify_step sha512Half d Hd base m0 v g n p _ _ Hin (linked_page _ _ _ Hl Hnl) Hp ltac:(by apply Hl) (changes_keys ks')) as (v1 & E1 & Hin1 & _).
  rewrite (vbind_step _ _ _ _ _ E1). eexists _, _. split; [done|]. split; [exact Hin1|]. by apply (linked_setKeys g l n ks ks' []).
Qed.

Lemma dirAdd_spec v g l preserveOrder key : inD v g -> linked g l ->
  match specAdd fixDirectoryLimit preserveOrder key l with
  | Ret (r, l') => exists v' g', dirAdd sha512Half fixDirectoryLimit describe preserveOrder d key v = Ret (r, v') /\ inD v' g' /\ linked g' l'
  | _ => dirAdd sha512Half fixDirectoryLimit describe preserveOrder d key v = LogicError
  end.
Proof.
  intros Hin Hl. unfold dirAdd, specAdd. destruct (peek_step sha512Half d Hd base m0 v g 0 Hin page_zero) as (r & v1 & E1 & Hin1 & _ & Hr).
  rewrite root_keylet in E1. rewrite (vbind_step _ _ _ _ _ E1). destruct (last l) as [[n ks]|] eqn:Elast.
  2: { apply last_None in Elast as ->. rewrite (linked_absent _ _ _ Hl) in Hr by apply not_elem_of_nil. subst r. by apply createRoot_spec with g. }
  apply last_removelast in Elast. set (l0 := removelast l) in *. rewrite Elast in Hl |- *. assert (l0 ++ [(n, ks)] <> []) as Hne by (by destruct l0).
  destruct (linked_root _ _ Hl Hne) as (k0 & l' & El). destruct (linked_lookup _ _ 0 k0 Hl ltac:(rewrite El; left)) as (rpg & Hrg & _).
  rewrite Hrg in Hr. destruct Hr as (rp & -> & Hrp).
  assert (exists p v2, findPreviousPage sha512Half d rp v1 = Ret (n, p, ks, v2) /\ inD v2 g /\ ptr v2 n p /\ ptr v2 0 rp) as (p & v2 & E2 & Hin2 & Hp2 & Hr2).
  { unfold findPreviousPage. rewrite (vbind_step _ _ _ _ _ (prev_step sha512Half d base m0 v1 g 0 rp rpg Hin1 page_zero Hrp Hrg)).
    rewrite (linked_prev_root _ _ _ Hne Hl Hrg), lastPage_snoc.
    assert (n ∈ (l0 ++ [(n, ks)]).*1) as Hnl by (rewrite fmap_app; apply elem_of_app; right; left). pose proof (linked_page _ _ _ Hl Hnl) as Hn.
    destruct (linked_lookup _ _ n ks Hl ltac:(apply elem_of_app; right; left)) as (pg & Hg & Hks). destruct (Z.eqb_spec n 0) as [->|Hnz].
    - exists rp, v1. rewrite (vbind_step _ _ _ _ _ (eq_refl : vret rp v1 = Ret (rp, v1))).
      rewrite (vbind_step _ _ _ _ _ (keys_step sha512Half d base m0 v1 g 0 rp pg Hin1 page_zero Hrp Hg)). unfold vret. rewrite Hks. by split_and!.
    - destruct (peekLinked_step v1 g n pg Hin1 Hn Hg) as (p & v2 & E2 & Hin2 & Hk2 & Hp2). exists p, v2. rewrite (vbind_step _ _ _ _ _ E2).
      rewrite (vbind_step _ _ _ _ _ (keys_step sha512Half d base m0 v2 g n p pg Hin2 Hn Hp2 Hg)). unfold vret. rewrite Hks. split_and!; try done. by apply Hk2. }
  rewrite (vbind_step _ _ _ _ _ E2). destruct (Z.of_nat (length ks) <? kDirNodeMaxEntries).
  - pose proof (insertKey_spec v2 g l0 n ks p preserveOrder key Hin2 Hl Hp2) as Hi. by destruct (insertIndex preserveOrder ks key).
  - pose proof (insertPage_spec v2 g l0 n ks p rp key Hin2 Hl Hp2 Hr2) as Hi. cbv zeta in Hi. rewrite <-app_assoc.
    destruct ((u64 (n + 1) =? 0) || (negb fixDirectoryLimit && (kDirNodeMaxPages <=? u64 (n + 1)))); [|done]. exists v2, g. by split_and!.
Qed.

(** *** Removing *)

Lemma checkLinks_ok nextPage prevPage (v : ApplyView V) : (nextPage = 0 <-> prevPage = 0) -> checkLinks nextPage prevPage v = Ret (tt, v).
Proof.
  intros Hz. unfold checkLinks. destruct (Z.eqb_spec nextPage 0), (Z.eqb_spec prevPage 0); cbn; try done; exfalso; tauto.
Qed.

(** The root has lost its last key. *)
Lemma emptyRoot_spec v g l2 p pg keepRoot : inD v g -> linked g ((0, []) :: l2) -> ptr v 0 p -> g !! 0 = Some pg ->
  exists v' g', emptyRoot sha512Half d p (prevOf pg) (nextOf pg) keepRoot v = Ret (true, v') /\ inD v' g' /\
    linked g' (dropRoot keepRoot ((0, []) :: dropEmptyLast l2)).
Proof.
  intros Hin Hl Hp Hg. assert (forall (x : Z * list Z) l, x :: l <> []) as Hcons by done.
  rewrite (linked_prev_root _ _ _ (Hcons _ _) Hl Hg). rewrite (linked_next g [] 0 [] l2 pg Hl Hg).
  pose proof (firstPage_zero g [(0, [])] l2 (Hcons _ _) Hl) as Hfz. pose proof (lastPage_zero _ _ Hl (Hcons _ _)) as Hlz.
  assert (forall v g, inD v g -> ptr v 0 p -> linked g [(0, [])] -> exists v' g',
    (if keepRoot then vret true else (if (0 =? 0) && (0 =? 0) then eraseCell p else vret tt) ;~ vret true) v = Ret (true, v') /\
    inD v' g' /\ linked g' (dropRoot keepRoot [(0, [])])) as Hfinish.
  { intros w h Hinw Hpw Hlw. destruct keepRoot; [exists w, h; split; [done|]; split; [done|]; exact Hlw|].
    destruct (erase_step sha512Half d Hd base m0 w h 0 p Hinw page_zero Hpw ltac:(apply Hlw; left)) as (w' & E & Hinw' & _).
    cbn [andb Z.eqb]. rewrite (vbind_step _ _ _ _ _ E). eexists _, _. split; [done|]. split; [done|]. by apply (linked_gone h []). }
  unfold emptyRoot. rewrite (vbind_step _ _ _ _ _ (checkLinks_ok (firstPage l2) (lastPage ((0, []) :: l2)) v ltac:(rewrite Hfz, Hlz; split; [by intros ->; eauto|intros [? [= _ ->]]; done]))).
  destruct l2 as [|[n ks] l2].
  { exact (Hfinish v g Hin Hp Hl). }
  pose proof (linked_pos _ _ _ _ _ Hl eq_refl) as Hpos. rewrite fmap_cons in Hpos. apply Forall_cons in Hpos as [Hpn _]. cbn [fst] in Hpn.
  change (firstPage ((n, ks) :: l2)) with n in *. destruct (Z.eqb_spec n 0) as [|Hn0]; [lia|]. cbn [negb]. rewrite andb_true_r.
  assert (forall w, inD w g -> exists v' g', (if keepRoot then vret true else
    (if (n =? 0) && (lastPage ((0, []) :: (n, ks) :: l2) =? 0) then eraseCell p else vret tt) ;~ vret true) w = Ret (true, v') /\
    inD v' g' /\ linked g' ((0, []) :: (n, ks) :: l2)) as Hstay.
  { intros w Hinw. exists w, g. rewrite (proj2 (Z.eqb_neq n 0) Hn0). split; [by destruct keepRoot|by split]. }
  destruct l2 as [|x l2].
  - change (lastPage [(0, []); (n, ks)]) with n in *. rewrite Z.eqb_refl.
    destruct (linked_lookup _ _ n ks Hl ltac:(right; left)) as (npg & Hng & Hnk). assert (isPage n) as Hn by (unfold isPage; lia).
    destruct (peekLinked_step v g n npg Hin Hn Hng) as (q & v1 & E1 & Hin1 & Hk1 & Hq1).
    pose proof (keys_step sha512Half d base m0 v1 g n q npg Hin1 Hn Hq1 Hng) as Ek. rewrite Hnk in Ek. destruct (decide (ks = [])) as [->|Hks].
    + destruct (modify_step sha512Half d Hd base m0 v1 g 0 p _ _ Hin1 page_zero (Hk1 _ _ Hp) ltac:(by eexists) changes_close) as (v2 & E2 & Hin2 & Hk2).
      destruct (erase_step sha512Half d Hd base m0 v2 _ n q Hin2 Hn (Hk2 _ _ Hq1) ltac:(rewrite alter_isSome; by eexists)) as (v3 & E3 & Hin3 & Hk3).
      erewrite vbind_step.
      2: { rewrite (vbind_step _ _ _ _ _ E1), (vbind_step _ _ _ _ _ Ek). cbn [bool_decide decide_rel]. rewrite bool_decide_eq_true_2 by done.
           rewrite (vbind_step _ _ _ _ _ E2), (vbind_step _ _ _ _ _ E3). reflexivity. }
      apply (Hfinish v3 _ Hin3); [apply Hk3; [apply page_zero|lia|]; by apply Hk2, Hk1|].
      pose proof (linked_unlink g [(0, [])] n [] [] (Hcons _ _) Hl) as Hu. cbn in Hu.
      by rewrite alter_twice in Hu.
    + erewrite vbind_step.
      2: { rewrite (vbind_step _ _ _ _ _ E1), (vbind_step _ _ _ _ _ Ek). rewrite bool_decide_eq_false_2 by done. reflexivity. }
      destruct ks as [|k ks]; [done|]. exact (Hstay v1 Hin1).
  - pose proof (lastPage_past g [] n ks x l2 Hl) as Hne.
    rewrite (proj2 (Z.eqb_neq _ _) Hne). erewrite vbind_step by reflexivity. destruct ks as [|k ks]; exact (Hstay v Hin).
Qed.

(** A page that is not the root is taken out of the list. *)
Lemma unlink_steps v g l1 n l2 p : inD v g -> l1 <> [] -> linked g (l1 ++ (n, []) :: l2) -> ptr v n p ->
  let pv := lastPage l1 in let nx := firstPage l2 in
  exists q r v1 v2 v3 v4 v5 g5,
    peekLinked (page_ pv) v = Ret (q, v1) /\ modify q (setU64 sfIndexNext nx) v1 = Ret (tt, v2) /\
    peekLinked (page_ nx) v2 = Ret (r, v3) /\ modify r (setU64 sfIndexPrevious pv) v3 = Ret (tt, v4) /\
    eraseCell p v4 = Ret (tt, v5) /\ inD v5 g5 /\ linked g5 (l1 ++ l2) /\ ptr v5 pv q /\ ptr v5 nx r /\ n <> pv /\ n <> nx.
Proof.
  intros Hin Hne Hl Hp pv nx. pose proof (linked_NoDup _ _ Hl) as Hnd. rewrite fmap_app, fmap_cons in Hnd. cbn [fst] in Hnd.
  apply NoDup_app in Hnd as (_ & Hn1 & [Hn2 _]%NoDup_cons).
  assert (pv ∈ l1.*1) as Hpv by (by apply lastPage_in). assert (n <> pv) as Hnpv by (intros ->; apply (Hn1 _ Hpv); left).
  assert (0 ∈ l1.*1) as H0l. { destruct l1 as [|[k ks] l1]; [done|]. destruct Hl as (_ & _ & -> & _). left. }
  assert (nx ∈ (l1 ++ l2).*1) as Hnx. { rewrite fmap_app. apply elem_of_app. unfold nx, firstPage. destruct l2 as [|[k ks] l2]; [by left|]. right. left. }
  assert (n <> nx) as Hnnx. { intros <-. rewrite fmap_app in Hnx. apply elem_of_app in Hnx as [Hx|Hx]; [apply (Hn1 _ Hx); left|done]. }
  assert (forall j, j ∈ (l1 ++ l2).*1 -> j ∈ (l1 ++ (n, []) :: l2).*1) as Hsub.
  { intros j. rewrite !fmap_app, fmap_cons, !elem_of_app, elem_of_cons. tauto. }
  assert (pv ∈ (l1 ++ (n, []) :: l2).*1) as Hpv' by (rewrite fmap_app; apply elem_of_app; by left).
  assert (n ∈ (l1 ++ (n, []) :: l2).*1) as Hn' by (rewrite fmap_app; apply elem_of_app; right; left).
  assert (isPage pv) as Pp by apply (linked_page _ _ _ Hl Hpv'). assert (isPage nx) as Pn by apply (linked_page _ _ _ Hl (Hsub _ Hnx)).
  assert (isPage n) as Pself by apply (linked_page _ _ _ Hl Hn').
  assert (is_Some (g !! pv)) as [ppg Hgp] by (by apply Hl). assert (is_Some (g !! nx)) as Hgn by (by apply Hl, Hsub).
  destruct (peekLinked_step v g pv ppg Hin Pp Hgp) as (q & v1 & E1 & Hin1 & Hk1 & Hq1).
  destruct (modify_step sha512Half d Hd base m0 v1 g pv q _ _ Hin1 Pp Hq1 ltac:(by eexists) (changes_next nx)) as (v2 & E2 & Hin2 & Hk2).
  rewrite <-(alter_isSome (setNext nx) g pv) in Hgn. destruct Hgn as [npg Hgn].
  destruct (peekLinked_step v2 _ nx npg Hin2 Pn Hgn) as (r & v3 & E3 & Hin3 & Hk3 & Hr3).
  destruct (modify_step sha512Half d Hd base m0 v3 _ nx r _ _ Hin3 Pn Hr3 ltac:(by eexists) (changes_prev pv)) as (v4 & E4 & Hin4 & Hk4).
  destruct (erase_step sha512Half d Hd base m0 v4 _ n p Hin4 Pself) as (v5 & E5 & Hin5 & Hk5).
  { by apply Hk4, Hk3, Hk2, Hk1. }
  { rewrite !alter_isSome. by apply Hl. }
  exists q, r, v1, v2, v3, v4, v5. eexists. do 5 (split; [done|]). split; [exact Hin5|]. split; [by apply (linked_unlink g l1 n [] l2)|].
  split; [apply Hk5; [done|done|]; by apply Hk4, Hk3, Hk2|]. split; [apply Hk5; [done|done|]; by apply Hk4|]. done.
Qed.

(** What is left may be an empty root only. *)
Lemma finish_root v g l q keepRoot nextPage prevPage : inD v g -> linked g l -> l <> [] -> ptr v prevPage q -> prevPage ∈ l.*1 ->
  ((nextPage = 0 /\ prevPage = 0) <-> exists ks, l = [(0, ks)]) ->
  exists v' g', ((if negb keepRoot && (nextPage =? 0) && (prevPage =? 0) then
       let~ indexes := v256Of sfIndexes q in
       if bool_decide (indexes = []) then eraseCell q else vret tt
     else vret tt) ;~ vret true) v = Ret (true, v') /\ inD v' g' /\ linked g' (dropRoot keepRoot l).
Proof.
  intros Hin Hl Hne Hq Hp Hz. destruct keepRoot; cbn [negb andb].
  { exists v, g. split; [done|]. split; [done|]. unfold dropRoot. destruct l as [|[? [|]] [|]]; done. }
  destruct (Z.eqb_spec nextPage 0) as [En|Hn], (Z.eqb_spec prevPage 0) as [Ep|Hp0]; cbn [andb].
  1: { subst. destruct (proj1 Hz ltac:(done)) as [ks ->]. destruct (linked_lookup _ _ 0 ks Hl ltac:(left)) as (pg & Hg & Hks).
       pose proof (keys_step sha512Half d base m0 v g 0 q pg Hin page_zero Hq Hg) as Ek. rewrite Hks in Ek. destruct ks as [|k ks].
       - destruct (erase_step sha512Half d Hd base m0 v g 0 q Hin page_zero Hq ltac:(by eexists)) as (v' & E & Hin' & _).
         erewrite vbind_step; [|rewrite (vbind_step _ _ _ _ _ Ek); exact E]. eexists _, _. split; [done|]. split; [exact Hin'|]. by apply (linked_gone g []).
       - erewrite vbind_step; [|rewrite (vbind_step _ _ _ _ _ Ek); reflexivity]. by exists v, g. }
  all: exists v, g; split; [done|]; split; [done|]; unfold dropRoot; destruct l as [|[k [|]] [|]]; try done;
    destruct (linked_root _ _ Hl Hne) as (ks & l' & [= -> <- <-]); destruct (proj2 Hz ltac:(by eexists)); lia.
Qed.

(** The next page goes as well when it is the last one and empty. *)
Lemma unlink_last v g l1 l2 q r : inD v g -> l1 <> [] -> linked g (l1 ++ l2) -> ptr v (lastPage l1) q -> ptr v (firstPage l2) r ->
  exists last v1 nx v2 g2,
    (if firstPage l2 =? 0 then vret false
     else
       let~ nextNext := u64Of sfIndexNext r in
       if nextNext =? 0 then
         let~ nextIndexes := v256Of sfIndexes r in
         vret (bool_decide (nextIndexes = []))
       else vret false) v = Ret (last, v1) /\
    (if last then
       eraseCell r ;~
       modify q (setU64 sfIndexNext 0) ;~
       let~ root := peekLinked (page_ 0) in
       modify root (setU64 sfIndexPrevious (lastPage l1)) ;~
       vret 0
     else vret (firstPage l2)) v1 = Ret (nx, v2) /\
    inD v2 g2 /\ linked g2 (l1 ++ dropEmptyLast l2) /\ ptr v2 (lastPage l1) q /\ nx = firstPage (dropEmptyLast l2).
Proof.
  intros Hin Hne Hl Hq Hr. pose proof (firstPage_zero g l1 l2 Hne Hl) as Hfz. destruct l2 as [|[n ks] l2].
  { exists false, v, 0, v, g. do 2 (split; [done|]). by split_and!. }
  change (firstPage ((n, ks) :: l2)) with n in *. destruct (Z.eqb_spec n 0) as [|Hn0]; [exfalso; by apply Hfz in e|].
  assert (n ∈ (l1 ++ (n, ks) :: l2).*1) as Hnl by (rewrite fmap_app; apply elem_of_app; right; left).
  assert (lastPage l1 ∈ (l1 ++ (n, ks) :: l2).*1) as Hpl by (rewrite fmap_app; apply elem_of_app; left; by apply lastPage_in).
  assert (isPage n) as Pn by apply (linked_page _ _ _ Hl Hnl). assert (isPage (lastPage l1)) as Pp by apply (linked_page _ _ _ Hl Hpl).
  destruct (linked_lookup _ _ n ks Hl ltac:(apply elem_of_app; right; left)) as (npg & Hng & Hnk).
  pose proof (next_step sha512Half d base m0 v g n r npg Hin Pn Hr Hng) as Enx. rewrite (linked_next g l1 n ks l2 npg Hl Hng) in Enx.
  pose proof (keys_step sha512Half d base m0 v g n r npg Hin Pn Hr Hng) as Ek. rewrite Hnk in Ek.
  rewrite (vbind_step _ _ _ _ _ Enx). assert (firstPage l2 = 0 <-> l2 = []) as Hz2.
  { apply (firstPage_zero g (l1 ++ [(n, ks)]) l2); [by destruct l1|by rewrite <-app_assoc]. }
  destruct (Z.eqb_spec (firstPage l2) 0) as [Hl2|Hl2].
  2: { exists false, v, n, v, g. split; [done|]. split; [done|]. split; [done|]. destruct l2 as [|x l2]; [by destruct Hl2; apply Hz2|].
       by destruct ks. }
  apply Hz2 in Hl2 as ->. rewrite (vbind_step _ _ _ _ _ Ek). destruct ks as [|k ks]; cbn [dropEmptyLast].
  2: { exists false, v, n, v, g. split; [done|]. by split_and!. }
  assert (n <> lastPage l1) as Hnp.
  { pose proof (linked_NoDup _ _ Hl) as Hnd. rewrite fmap_app in Hnd. apply NoDup_app in Hnd as (_ & Hnd & _). intros ->.
    apply (Hnd _ (lastPage_in l1 Hne)). left. }
  destruct (erase_step sha512Half d Hd base m0 v g n r Hin Pn Hr ltac:(by eexists)) as (v1 & E1 & Hin1 & Hk1).
  destruct (modify_step sha512Half d Hd base m0 v1 _ _ q _ _ Hin1 Pp (Hk1 _ _ Pp ltac:(done) Hq) ltac:(rewrite lookup_delete_ne by done; by apply Hl) (changes_next 0))
    as (v2 & E2 & Hin2 & Hk2).
  assert (0 ∈ (l1 ++ [(n, [])]).*1) as Hzero. { destruct (linked_root _ _ Hl) as (? & ? & ->); [by destruct l1|left]. }
  assert (is_Some (alter (setNext 0) (lastPage l1) (delete n g) !! 0)) as [rpg Hrg].
  { rewrite alter_isSome, lookup_delete_ne by done. by apply Hl. }
  destruct (peekLinked_step v2 _ 0 rpg Hin2 page_zero Hrg) as (t & v3 & E3 & Hin3 & Hk3 & Ht3).
  destruct (modify_step sha512Half d Hd base m0 v3 _ 0 t _ _ Hin3 page_zero Ht3 ltac:(by eexists) (changes_prev (lastPage l1))) as (v4 & E4 & Hin4 & Hk4).
  exists true, v, 0, v4. eexists. split; [done|]. split.
  { rewrite (vbind_step _ _ _ _ _ E1), (vbind_step _ _ _ _ _ E2), (vbind_step _ _ _ _ _ E3), (vbind_step _ _ _ _ _ E4). done. }
  split; [exact Hin4|]. split; [|split; [apply Hk4, Hk3, Hk2, Hk1; done|done]].
  rewrite (alter_delete_comm (setNext 0)), (alter_delete_comm (setPrev _)) by done. by apply (linked_unlink g l1 n [] []).
Qed.

Lemma unlinkPage_spec v g l1 n l2 p pg keepRoot : inD v g -> l1 <> [] -> linked g (l1 ++ (n, []) :: l2) -> ptr v n p -> g !! n = Some pg ->
  exists v' g', unlinkPage sha512Half d n p (prevOf pg) (nextOf pg) keepRoot v = Ret (true, v') /\ inD v' g' /\
    linked g' (dropRoot keepRoot (l1 ++ dropEmptyLast l2)).
Proof.
  intros Hin Hne Hl Hp Hg. rewrite (linked_next g l1 n [] l2 pg Hl Hg), (linked_prev g l1 n [] l2 pg Hne Hl Hg).
  destruct (unlink_steps v g l1 n l2 p Hin Hne Hl Hp) as (q & r & v1 & v2 & v3 & v4 & v5 & g5 & E1 & E2 & E3 & E4 & E5 & Hin5 & Hl5 & Hq & Hr & Hn1 & Hn2).
  destruct (unlink_last v5 g5 l1 l2 q r Hin5 Hne Hl5 Hq Hr) as (b & v6 & nx & v7 & g7 & E6 & E7 & Hin7 & Hl7 & Hq7 & Enx).
  unfold unlinkPage. rewrite (proj2 (Z.eqb_neq _ _) (not_eq_sym Hn2)), (proj2 (Z.eqb_neq _ _) (not_eq_sym Hn1)).
  rewrite (vbind_step _ _ _ _ _ E1), (vbind_step _ _ _ _ _ E2), (vbind_step _ _ _ _ _ E3), (vbind_step _ _ _ _ _ E4), (vbind_step _ _ _ _ _ E5).
  rewrite (vbind_step _ _ _ _ _ E6), (vbind_step _ _ _ _ _ E7). apply (finish_root v7 g7); try done; [by destruct l1| |].
  { rewrite fmap_app. apply elem_of_app. left. by apply lastPage_in. }
  rewrite Enx, (firstPage_zero g7 l1 _ Hne Hl7). split.
  - intros [E Hz]. rewrite E, app_nil_r in Hl7 |- *. by apply (lastPage_zero _ _ Hl7 Hne).
  - intros [ks E]. destruct l1 as [|x [|]]; [done| |done]. cbn in E. injection E as -> E. by rewrite E.
Qed.

Lemma dirRemove_spec v g l page key keepRoot : inD v g -> linked g l -> isPage page ->
  exists v' g', dirRemove sha512Half d page key keepRoot v = Ret ((specRemove page key keepRoot l).1, v') /\ inD v' g' /\
    linked g' (specRemove page key keepRoot l).2.
Proof.
  intros Hin Hl Hpage. unfold dirRemove, specRemove. destruct (peek_step sha512Half d Hd base m0 v g page Hin Hpage) as (r & v1 & E1 & Hin1 & Hk1 & Hr).
  rewrite (vbind_step _ _ _ _ _ E1). pose proof (splitPage_spec page l) as Hsp. destruct (splitPage page l) as [[[l1 ks] l2]|].
  2: { rewrite (linked_absent _ _ _ Hl Hsp) in Hr. subst r. by exists v1, g. }
  subst l. destruct (linked_lookup _ _ page ks Hl ltac:(apply elem_of_app; right; left)) as (pg & Hg & Hks). rewrite Hg in Hr. destruct Hr as (p & -> & Hp).
  pose proof (keys_step sha512Half d base m0 v1 g page p pg Hin1 Hpage Hp Hg) as Ek. rewrite Hks in Ek. rewrite (vbind_step _ _ _ _ _ Ek).
  destruct (negb (existsb (Z.eqb key) ks)); [by exists v1, g|]. generalize (eraseFirst key ks). intros ks'.
  destruct (modify_step sha512Half d Hd base m0 v1 g page p _ _ Hin1 Hpage Hp ltac:(by eexists) (changes_keys ks')) as (v2 & E2 & Hin2 & Hk2).
  rewrite (vbind_step _ _ _ _ _ E2). pose proof (linked_setKeys g l1 page ks ks' l2 Hl) as Hl2. destruct ks' as [|k ks'].
  2: { eexists _, _. split; [done|]. split; [exact Hin2|exact Hl2]. }
  rewrite bool_decide_eq_true_2 by done. cbn [negb]. set (g2 := alter (setKeys []) page g) in *.
  assert (g2 !! page = Some (setKeys [] pg)) as Hg2 by (unfold g2; by rewrite lookup_alter_eq, Hg).
  pose proof (prev_step sha512Half d base m0 v2 g2 page p _ Hin2 Hpage (Hk2 _ _ Hp) Hg2) as Epv.
  pose proof (next_step sha512Half d base m0 v2 g2 page p _ Hin2 Hpage (Hk2 _ _ Hp) Hg2) as Enx.
  rewrite (vbind_step _ _ _ _ _ Epv), (vbind_step _ _ _ _ _ Enx). destruct (Z.eqb_spec page 0) as [->|Hnz].
  - assert (l1 = []) as ->.
    { destruct l1 as [|[k ks0] l1]; [done|]. pose proof (linked_pos _ _ k ks0 (l1 ++ (0, []) :: l2) Hl2 eq_refl) as Hpos. rewrite fmap_app in Hpos.
      apply Forall_app in Hpos as [_ Hpos]. apply Forall_cons in Hpos as [Hpos _]. cbn in Hpos. lia. }
    apply (emptyRoot_spec v2 g2 l2 p); try done. by apply Hk2.
  - assert (l1 <> []) as Hne. { intros ->. destruct Hl as (_ & _ & -> & _). done. }
    apply (unlinkPage_spec v2 g2); try done. by apply Hk2.
Qed.
End Spec.
