(* ===== verification/DirectoryClaims.v ===== *)
(** * Directories: the theorems

    A directory is a collection of pairs of a page and a key; reading it visits all its keys;
    deleting it leaves no page. *)
From S2P Require Import LedgerHeader ShaMap ShaMapFacts ShaMapSpec LedgerView LedgerViewFacts ViewClaims.
From S2P Require Import Prelude Digits Serializer SerializerFacts SField Formats Number Amounts STTypes NodeID STObject STObjectFacts STObjectSpec.
From S2P Require Import STAccess STAccessFacts Views StateTables StateTablesFacts ApplyViewFacts ViewSpec Directory DirectoryFacts DirectorySpec.

(** ** Lists of keys *)

Lemma existsb_in key ks : existsb (Z.eqb key) ks = true <-> key ∈ ks.
Proof. rewrite existsb_exists. setoid_rewrite Z.eqb_eq. rewrite list_elem_of_In. naive_solver. Qed.

Lemma eraseFirst_perm key ks : key ∈ ks -> ks ≡ₚ key :: eraseFirst key ks.
Proof.
  induction ks as [|x ks IH]; cbn; [by intros ?%not_elem_of_nil|]. destruct (Z.eqb_spec x key) as [->|Hne]; [done|].
  intros [->|Hin]%elem_of_cons; [done|]. rewrite (IH Hin) at 1. apply Permutation_swap.
Qed.

Lemma lowerBound_app key l : (lowerBound key l).1 ++ (lowerBound key l).2 = l.
Proof. induction l as [|x l IH]; cbn; [done|]. destruct (x <? key); [|done]. destruct (lowerBound key l) as [a b]. cbn in *. by rewrite IH. Qed.

Lemma insertIndex_perm preserveOrder ks key ks' : insertIndex preserveOrder ks key = Ret ks' -> ks' ≡ₚ key :: ks.
Proof.
  unfold insertIndex. destruct preserveOrder.
  - destruct (existsb (Z.eqb key) ks); [done|]. intros [= <-]. by rewrite Permutation_app_comm.
  - pose proof (lowerBound_app key (sortKeys ks)) as E. destruct (lowerBound key (sortKeys ks)) as [a b]. cbn in E.
    destruct (match b with [] => false | x :: _ => key =? x end); [done|]. intros [= <-]. rewrite <-Permutation_middle, E. unfold sortKeys. by rewrite merge_sort_Permutation.
Qed.

Lemma insertIndex_fresh preserveOrder ks key : key ∉ ks -> exists ks', insertIndex preserveOrder ks key = Ret ks'.
Proof.
  intros Hk. unfold insertIndex. destruct preserveOrder.
  - destruct (existsb (Z.eqb key) ks) eqn:E; [|eauto]. by apply existsb_in in E.
  - pose proof (lowerBound_app key (sortKeys ks)) as E. destruct (lowerBound key (sortKeys ks)) as [a b]. cbn in E.
    destruct b as [|x b]; [eauto|]. destruct (Z.eqb_spec key x) as [->|]; [|eauto]. destruct Hk.
    rewrite <-(merge_sort_Permutation Z.le ks). unfold sortKeys in E. rewrite <-E. apply elem_of_app. right. left.
Qed.

Lemma lowerBound_below key l : Forall (fun x => x < key) (lowerBound key l).1 /\
  match (lowerBound key l).2 with [] => True | x :: _ => key <= x end.
Proof.
  induction l as [|x l IH]; cbn; [by split|]. destruct (Z.ltb_spec x key) as [Hlt|Hge]; cbn; [|by split].
  destruct (lowerBound key l) as [a b]. cbn in *. destruct IH. split; [by constructor|done].
Qed.

Lemma insertIndex_double preserveOrder ks key : key ∈ ks -> insertIndex preserveOrder ks key = LogicError.
Proof.
  intros Hk. unfold insertIndex. destruct preserveOrder; [by rewrite (proj2 (existsb_in key ks) Hk)|].
  pose proof (lowerBound_app key (sortKeys ks)) as E. destruct (lowerBound_below key (sortKeys ks)) as [Hlt Hge].
  assert (StronglySorted Z.le (sortKeys ks)) as Hs by (unfold sortKeys; apply (StronglySorted_merge_sort Z.le)).
  assert (key ∈ sortKeys ks) as Hin by (unfold sortKeys; by rewrite merge_sort_Permutation).
  destruct (lowerBound key (sortKeys ks)) as [a b]. cbn in *. rewrite <-E in Hs, Hin. apply elem_of_app in Hin as [Hin|Hin].
  { rewrite Forall_forall in Hlt. specialize (Hlt key Hin). lia. }
  destruct b as [|x b]; [by apply not_elem_of_nil in Hin|]. apply strongly_app in Hs as (_ & [_ Hs]%StronglySorted_inv & _).
  rewrite Forall_forall in Hs. apply elem_of_cons in Hin as [->|Hin]; [by rewrite Z.eqb_refl|]. specialize (Hs key Hin).
  by rewrite (proj2 (Z.eqb_eq key x)) by lia.
Qed.

(** ** The entries of a directory *)

Definition entriesOf (l : Pages) : list (Z * Z) := concat ((fun p : Z * list Z => (fun k => (p.1, k)) <$> p.2) <$> l).

Lemma entriesOf_app l1 l2 : entriesOf (l1 ++ l2) = entriesOf l1 ++ entriesOf l2.
Proof. unfold entriesOf. by rewrite fmap_app, concat_app. Qed.

Lemma entriesOf_page n ks : entriesOf [(n, ks)] = (fun k => (n, k)) <$> ks.
Proof. unfold entriesOf. cbn. apply app_nil_r. Qed.

Lemma elem_of_entries l n k : (n, k) ∈ entriesOf l <-> exists ks, (n, ks) ∈ l /\ k ∈ ks.
Proof.
  induction l as [|[m ks] l IH].
  - split; [by intros ?%not_elem_of_nil|by intros (ks & ?%not_elem_of_nil & _)].
  - change ((m, ks) :: l) with ([(m, ks)] ++ l). rewrite entriesOf_app, elem_of_app, IH, entriesOf_page, list_elem_of_fmap. split.
    + intros [(k' & [= -> ->] & Hk)|(ks' & Hin & Hk)]; [exists ks; split; [left|done]|exists ks'; split; [by right|done]].
    + intros (ks' & [[= -> ->]|Hin]%elem_of_cons & Hk); [left; eauto|right; eauto].
Qed.

Lemma entriesOf_dropEmptyLast l : entriesOf (dropEmptyLast l) = entriesOf l.
Proof. by destruct l as [|[n [|]] [|]]. Qed.
Lemma entriesOf_dropRoot keepRoot l : entriesOf (dropRoot keepRoot l) = entriesOf l.
Proof. by destruct l as [|[n [|]] [|]], keepRoot. Qed.

(** Pages have at most 32 keys, and only the root may be empty. *)
Definition shaped (l : Pages) : Prop :=
  Forall (fun p => Z.of_nat (length p.2) <= kDirNodeMaxEntries) l /\ Forall (fun p => p.2 <> []) (tail l).

Lemma shaped_tail l1 l2 : l1 <> [] -> shaped (l1 ++ l2) -> Forall (fun p => p.2 <> []) l2.
Proof. intros Hne [_ H]. destruct l1 as [|x l1]; [done|]. cbn in H. by apply Forall_app in H as [_ ?]. Qed.

Lemma entries_page g l1 n ks l2 k : linked g (l1 ++ (n, ks) :: l2) -> (n, k) ∈ entriesOf (l1 ++ (n, ks) :: l2) <-> k ∈ ks.
Proof.
  intros Hl%linked_NoDup. rewrite fmap_app, fmap_cons in Hl. apply NoDup_app in Hl as (_ & Hn1 & [Hn2 _]%NoDup_cons). cbn in *. rewrite elem_of_entries. split.
  - intros (ks' & [Hin|[[= ->]|Hin]%elem_of_cons]%elem_of_app & Hk); [|done|]; exfalso; apply (list_elem_of_fmap_2 fst) in Hin; cbn in Hin.
    + apply (Hn1 _ Hin). left.
    + done.
  - intros Hk. exists ks. split; [apply elem_of_app; right; left|done].
Qed.

(** The collection: where the next key goes, when there is a page for it *)
Definition Entries := gset (Z * Z).
Definition pageEntries (n : Z) (s : Entries) : Entries := filter (fun e => e.1 = n) s.
Definition highestPage (s : Entries) : Z := set_fold (fun e m => Z.max e.1 m) 0 s.

Definition addTo (fixDirectoryLimit : bool) (key : Z) (s : Entries) : Outcome (option Z) :=
  let n := highestPage s in
  if Z.of_nat (base.size (pageEntries n s)) <? kDirNodeMaxEntries then
    if decide ((n, key) ∈ s) then LogicError else Ret (Some n)
  else if (u64 (n + 1) =? 0) || (negb fixDirectoryLimit && (kDirNodeMaxPages <=? u64 (n + 1))) then Ret None
  else Ret (Some (u64 (n + 1))).

Lemma highestPage_spec s : (forall e, e ∈ s -> e.1 <= highestPage s) /\ 0 <= highestPage s /\ (highestPage s = 0 \/ exists k, (highestPage s, k) ∈ s).
Proof.
  unfold highestPage. apply (set_fold_ind_L (fun m (X : Entries) => (forall e, e ∈ X -> e.1 <= m) /\ 0 <= m /\ (m = 0 \/ exists k, (m, k) ∈ X))).
  { split; [by intros e ?%not_elem_of_empty|]. split; [done|by left]. }
  intros [n k] X m Hn (Hle & H0 & Hex). cbn. split; [|split; [lia|]].
  - intros e [->%elem_of_singleton|He]%elem_of_union; cbn; [lia|]. specialize (Hle e He). lia.
  - destruct (Z.max_spec n m) as [[_ ->]|[_ ->]]; [|right; exists k; set_solver].
    destruct Hex as [->|[k' Hk']]; [by left|]. right. exists k'. set_solver.
Qed.

(** [l] has the entries [s], once each. *)
Definition holds (l : Pages) (s : Entries) : Prop := entriesOf l ≡ₚ elements s.

Lemma holds_in l s n k : holds l s -> (n, k) ∈ s <-> (n, k) ∈ entriesOf l.
Proof. intros Hh. by rewrite Hh, elem_of_elements. Qed.

Lemma holds_add l l' s n k : holds l s -> (n, k) ∉ s -> entriesOf l' ≡ₚ (n, k) :: entriesOf l -> holds l' ({[(n, k)]} ∪ s).
Proof. unfold holds. intros Hh Hn ->. rewrite elements_union_singleton by done. by rewrite Hh. Qed.

Lemma holds_remove l l' s n k : holds l s -> entriesOf l ≡ₚ (n, k) :: entriesOf l' -> holds l' (s ∖ {[(n, k)]}).
Proof.
  unfold holds. intros Hh Hp. assert ((n, k) ∈ s) as Hin by (rewrite <-elem_of_elements, <-Hh, Hp; left).
  rewrite Hp in Hh. rewrite (union_difference_singleton_L (n, k) s Hin), elements_union_singleton in Hh by set_solver. by apply Permutation_cons_inv in Hh.
Qed.

Lemma holds_page g l0 n ks l2 s : linked g (l0 ++ (n, ks) :: l2) -> holds (l0 ++ (n, ks) :: l2) s -> NoDup ks -> base.size (pageEntries n s) = length ks.
Proof.
  intros Hl Hh Hnd. assert (pageEntries n s = list_to_set ((fun k => (n, k)) <$> ks)) as ->.
  { apply set_eq. intros [m k]. unfold pageEntries. rewrite elem_of_filter, elem_of_list_to_set, list_elem_of_fmap. cbn. split.
    - intros [-> Hin]. exists k. split; [done|]. by apply (entries_page g l0 n ks l2), (holds_in _ s).
    - intros (k' & [= -> ->] & Hk). split; [done|]. by apply (holds_in _ s _ _ Hh), (entries_page g). }
  rewrite size_list_to_set by (apply NoDup_fmap_2; [congruence|done]). apply length_fmap.
Qed.

Lemma holds_keys l0 n ks l2 s : holds (l0 ++ (n, ks) :: l2) s -> NoDup ks.
Proof.
  intros Hh. pose proof (NoDup_elements s) as Hnd. unfold holds in Hh. rewrite <-Hh in Hnd. change ((n, ks) :: l2) with ([(n, ks)] ++ l2) in Hnd.
  rewrite !entriesOf_app, entriesOf_page in Hnd. apply NoDup_app in Hnd as (_ & _ & (Hnd & _ & _)%NoDup_app). by apply NoDup_fmap_1 in Hnd.
Qed.

(** The last page has the highest number. *)
Lemma holds_last g l n ks s : linked g (l ++ [(n, ks)]) -> shaped (l ++ [(n, ks)]) -> holds (l ++ [(n, ks)]) s -> highestPage s = n.
Proof.
  intros Hl Hs Hh. destruct (highestPage_spec s) as (Hle & H0 & Hex).
  assert (forall m k, (m, k) ∈ s -> m <= n) as Hmax.
  { intros m k Hin%(holds_in _ _ _ _ Hh). apply elem_of_entries in Hin as (ks' & Hin & _). apply (list_elem_of_fmap_2 fst) in Hin. cbn in Hin.
    destruct Hl as (Hsort & _). rewrite fmap_app in Hsort, Hin. apply strongly_app in Hsort as (_ & _ & Hsort).
    apply elem_of_app in Hin as [Hin|Hin%list_elem_of_singleton]; [|cbn in Hin; lia]. specialize (Hsort m n Hin ltac:(left)). lia. }
  destruct l as [|x l].
  - destruct Hl as (_ & _ & -> & _). destruct Hex as [|[k Hk]]; [done|]. specialize (Hmax _ _ Hk). lia.
  - apply (shaped_tail (x :: l) [(n, ks)]) in Hs; [|done]. apply Forall_cons in Hs as [Hs _]. cbn in Hs. destruct ks as [|k ks]; [by destruct Hs|].
    assert ((n, k) ∈ s) as Hin. { apply (holds_in _ _ _ _ Hh), (entries_page g (x :: l) n (k :: ks) [] k Hl). left. }
    specialize (Hle _ Hin). cbn in Hle. destruct Hex as [E|[k' Hk']]; [|specialize (Hmax _ _ Hk'); lia].
    rewrite E in *. pose proof (linked_page _ _ n Hl ltac:(rewrite fmap_app; apply elem_of_app; right; left)). lia.
Qed.

Lemma specAdd_result g lim po key l s : linked g l -> shaped l -> holds l s ->
  match addTo lim key s with
  | Ret r => exists l', specAdd lim po key l = Ret (r, l') /\ shaped l' /\
      match r with Some n => (n, key) ∉ s /\ entriesOf l' ≡ₚ (n, key) :: entriesOf l | None => l' = l end
  | _ => specAdd lim po key l = LogicError
  end.
Proof.
  intros Hl Hs Hh. unfold specAdd. destruct (last l) as [[n ks]|] eqn:El.
  2: { apply last_None in El as ->. unfold holds in Hh. cbn in Hh. apply Permutation_nil_l, symmetry, elements_empty_inv in Hh. apply leibniz_equiv in Hh as ->.
       eexists. split; [done|]. split; [|split; [set_solver|done]]. split; [|constructor]. apply Forall_singleton. cbn. unfold kDirNodeMaxEntries. lia. }
  apply last_removelast in El. set (l0 := removelast l) in *. rewrite El in Hl, Hs, Hh |- *. pose proof Hs as [Hs1 Hs2]. apply Forall_app in Hs1 as [Hs0 [Hsn _]%Forall_cons]. cbn in Hsn.
  unfold addTo. rewrite (holds_last g l0 n ks s Hl Hs Hh), (holds_page g l0 n ks [] s Hl Hh (holds_keys _ _ _ _ _ Hh)).
  pose proof (holds_in _ _ n key Hh) as Hkey. rewrite (entries_page g l0 n ks [] key Hl) in Hkey.
  destruct (Z.ltb_spec (Z.of_nat (length ks)) kDirNodeMaxEntries) as [Hlt|Hge].
  - destruct (decide ((n, key) ∈ s)) as [Hin|Hin]; [by rewrite (insertIndex_double po ks key) by tauto|].
    destruct (insertIndex_fresh po ks key) as [ks' E]; [tauto|]. rewrite E. cbn [obind]. apply insertIndex_perm in E. eexists. split; [done|]. split; [split|].
    + apply Forall_app. split; [done|]. apply Forall_singleton. cbn [snd]. rewrite E. cbn [length]. lia.
    + destruct l0 as [|x l0']; [constructor|]. cbn in Hs2 |- *. apply Forall_app in Hs2 as [? _]. apply Forall_app. split; [done|].
      constructor; [|constructor]. cbn. intros ->. by apply Permutation_nil_cons in E.
    + split; [done|]. rewrite !entriesOf_app, !entriesOf_page, E, fmap_cons. by rewrite Permutation_middle.
  - destruct ((u64 (n + 1) =? 0) || (negb lim && (kDirNodeMaxPages <=? u64 (n + 1)))) eqn:Efull; eexists; (split; [done|]); [done|]. split; [split|split].
    + apply Forall_app. split; [by destruct Hs|]. constructor; [cbn; unfold kDirNodeMaxEntries; lia|constructor].
    + destruct l0 as [|x l0']; cbn in *; [repeat constructor; done|]. rewrite <-app_assoc. rewrite Forall_app in Hs2 |- *. split; [apply Hs2|].
      cbn. constructor; [by destruct Hs2 as [_ [? _]%Forall_cons]|]. constructor; [done|constructor].
    + intros Hin. destruct (highestPage_spec s) as (Hle & _). specialize (Hle _ Hin). rewrite (holds_last g l0 n ks s Hl Hs Hh) in Hle. cbn in Hle.
      apply orb_false_iff in Efull as [Hz%Z.eqb_neq _]. pose proof (linked_page _ _ n Hl ltac:(rewrite fmap_app; apply elem_of_app; right; left)) as Hn.
      unfold u64 in *. destruct (Z.eq_dec (n + 1) (2 ^ 64)) as [E1|]; [rewrite E1 in Hz; done|]. rewrite Z.mod_small in Hle by lia. lia.
    + rewrite entriesOf_app, entriesOf_page. cbn. by rewrite Permutation_app_comm.
Qed.

Lemma shaped_split l1 n ks ks' l2 : shaped (l1 ++ (n, ks) :: l2) -> (length ks' <= length ks)%nat -> ks' <> [] \/ l1 = [] -> shaped (l1 ++ (n, ks') :: l2).
Proof.
  intros [Hs1 Hs2] Hlen Hne. rewrite Forall_app, Forall_cons in Hs1. cbn in Hs1. split.
  - apply Forall_app. split; [apply Hs1|]. constructor; [cbn; lia|apply Hs1].
  - destruct l1 as [|x l1]; cbn in *; [done|]. rewrite Forall_app, Forall_cons in *. naive_solver.
Qed.

Lemma shaped_unlink l1 n ks l2 : l1 <> [] -> shaped (l1 ++ (n, ks) :: l2) -> shaped (l1 ++ l2).
Proof.
  intros Hne [Hs1 Hs2]. rewrite Forall_app, Forall_cons in Hs1. split; [apply Forall_app; tauto|].
  destruct l1 as [|x l1]; [done|]. cbn in *. rewrite Forall_app, Forall_cons in Hs2. apply Forall_app. tauto.
Qed.

Lemma shaped_dropRoot keepRoot l : shaped l -> shaped (dropRoot keepRoot l).
Proof. intros Hs. destruct l as [|[n [|]] [|]], keepRoot; try done; split; constructor. Qed.

Lemma shaped_dropEmptyLast l1 l2 : shaped (l1 ++ l2) -> shaped (l1 ++ dropEmptyLast l2).
Proof.
  intros [Hs1 Hs2]. destruct l2 as [|[n [|]] [|]]; try done. cbn [dropEmptyLast]. rewrite app_nil_r. apply Forall_app in Hs1 as [Hs1 _]. split; [done|].
  destruct l1 as [|x l1]; [constructor|]. cbn in *. by apply Forall_app in Hs2 as [? _].
Qed.

Lemma specRemove_entries g page key keepRoot l : linked g l -> shaped l ->
  let r := specRemove page key keepRoot l in
  shaped r.2 /\ (r.1 = true <-> (page, key) ∈ entriesOf l) /\
  if r.1 then entriesOf l ≡ₚ (page, key) :: entriesOf r.2 else r.2 = l.
Proof.
  intros Hl Hs. unfold specRemove. pose proof (splitPage_spec page l) as Hsp. destruct (splitPage page l) as [[[l1 ks] l2]|].
  2: { cbn. split; [done|]. split; [|done]. split; [done|]. intros (ks & Hin & _)%elem_of_entries. destruct Hsp. by apply (list_elem_of_fmap_2 fst) in Hin. }
  subst l. pose proof (entries_page g l1 page ks l2 key Hl) as Hin. destruct (existsb (Z.eqb key) ks) eqn:Ek; cbn [negb].
  2: { cbn. split; [done|]. split; [|done]. split; [done|]. intros Hk%Hin%existsb_in. congruence. }
  apply existsb_in in Ek. pose proof (eraseFirst_perm key ks Ek) as Hperm. assert (length (eraseFirst key ks) <= length ks)%nat as Hlen by (rewrite Hperm at 2; cbn; lia).
  assert (entriesOf (l1 ++ (page, ks) :: l2) ≡ₚ (page, key) :: entriesOf l1 ++ ((fun k => (page, k)) <$> eraseFirst key ks) ++ entriesOf l2) as He.
  { change ((page, ks) :: l2) with ([(page, ks)] ++ l2). rewrite !entriesOf_app, entriesOf_page. rewrite Hperm at 1. cbn. by rewrite <-Permutation_middle. }
  destruct (eraseFirst key ks) as [|k ks'] eqn:Ee; cbn [fst snd].
  - split; [apply shaped_dropRoot|split; [rewrite Hin; by split|]].
    + destruct (Z.eqb_spec page 0) as [->|Hnz].
      * assert (l1 = []) as ->.
        { destruct l1 as [|[k ks0] l1]; [done|]. pose proof (linked_pos _ _ k ks0 (l1 ++ (0, ks) :: l2) Hl eq_refl) as Hpos. rewrite fmap_app in Hpos.
          apply Forall_app in Hpos as [_ Hpos]. apply Forall_cons in Hpos as [Hpos _]. cbn in Hpos. lia. }
        cbn [app] in *. apply (shaped_dropEmptyLast [(0, [])] l2). apply (shaped_split [] 0 ks); [done|cbn; lia|by right].
      * cbn [app]. apply shaped_dropEmptyLast. apply (shaped_unlink l1 page ks l2); [|done]. intros ->. destruct Hl as (_ & _ & -> & _). done.
    + rewrite He, entriesOf_dropRoot, !entriesOf_app, entriesOf_dropEmptyLast. by destruct (page =? 0).
  - split; [by apply (shaped_split l1 page ks); [..|left]|]. split; [rewrite Hin; by split|].
    change ((page, k :: ks') :: l2) with ([(page, k :: ks')] ++ l2). by rewrite He, !entriesOf_app, entriesOf_page.
Qed.

(** ** Sequences of operations *)

Inductive DirOp := DAdd (preserveOrder : bool) (key : Z) | DRemove (page key : Z) (keepRoot : bool).
Inductive DirAnswer := Added (page : option Z) | Removed (found : bool).

Section Running.
Context {V : Type} `{ReadView V} (sha512Half : list Z -> Z) (fixDirectoryLimit : bool) (describe : SLE -> Outcome SLE) (d : Keylet).

Definition runDirOp (op : DirOp) : ViewM V DirAnswer :=
  match op with
  | DAdd preserveOrder key => let~ r := dirAdd sha512Half fixDirectoryLimit describe preserveOrder d key in vret (Added r)
  | DRemove page key keepRoot => let~ r := dirRemove sha512Half d page key keepRoot in vret (Removed r)
  end.

Fixpoint runDirOps (ops : list DirOp) : ViewM V (list DirAnswer) :=
  match ops with
  | [] => vret []
  | op :: ops => let~ a := runDirOp op in let~ l := runDirOps ops in vret (a :: l)
  end.
End Running.

(** The same operations on the collection: a key goes to the highest page while that has less
    than 32 keys, and to the next page after that; an entry is removed exactly when it is there. *)
Fixpoint specRun (fixDirectoryLimit : bool) (ops : list DirOp) (s : Entries) : Outcome (list DirAnswer * Entries) :=
  match ops with
  | [] => Ret ([], s)
  | DAdd _ key :: ops =>
    let? r := addTo fixDirectoryLimit key s in
    let? (answers, s') := specRun fixDirectoryLimit ops (match r with Some n => {[(n, key)]} ∪ s | None => s end) in
    Ret (Added r :: answers, s')
  | DRemove page key _ :: ops =>
    let? (answers, s') := specRun fixDirectoryLimit ops (s ∖ {[(page, key)]}) in
    Ret (Removed (bool_decide ((page, key) ∈ s)) :: answers, s')
  end.

Definition opPage (op : DirOp) : Prop := match op with DRemove page _ _ => isPage page | _ => True end.

Lemma addTo_fails lim key s : match addTo lim key s with Ret _ | LogicError => True | _ => False end.
Proof. unfold addTo. repeat case_match; done. Qed.

Section Refinement.
Context {V : Type} `{ReadLaws V} (sha512Half : list Z -> Z) (fixDirectoryLimit : bool) (describe : SLE -> Outcome SLE) (d : Keylet).
Context (Hd : pagesDiffer sha512Half d) (Hdescribe : changesPage describe id) (base : V) (m0 : gmap Z SLE).

Abbreviation inD := (inDir sha512Half d base m0).
Abbreviation run := (runDirOps sha512Half fixDirectoryLimit describe d).

(** What running [ops] from [v] gives, when the collection is [s] *)
Definition ran (ops : list DirOp) (s : Entries) (v : ApplyView V) : Prop :=
  match specRun fixDirectoryLimit ops s with
  | Ret (answers, s') => exists v' g l, run ops v = Ret (answers, v') /\ inD v' g /\ linked g l /\ shaped l /\ holds l s'
  | _ => run ops v = LogicError
  end.

Lemma ran_add po key ops v g l s : inD v g -> linked g l -> shaped l -> holds l s ->
  (forall v g l s, inD v g -> linked g l -> shaped l -> holds l s -> ran ops s v) -> ran (DAdd po key :: ops) s v.
Proof.
  intros Hin Hl Hs Hh IH. unfold ran. cbn [specRun runDirOps]. pose proof (specAdd_result g fixDirectoryLimit po key l s Hl Hs Hh) as Hadd.
  pose proof (dirAdd_spec sha512Half fixDirectoryLimit describe d Hd Hdescribe base m0 v g l po key Hin Hl) as Ha.
  pose proof (addTo_fails fixDirectoryLimit key s) as Hf. destruct (addTo fixDirectoryLimit key s) as [r| | | | |]; try done; cbn [obind].
  2: { rewrite Hadd in Ha. unfold vbind. cbn [runDirOp]. unfold vbind. by rewrite Ha. }
  destruct Hadd as (l1 & E & Hs1 & Hr). rewrite E in Ha. destruct Ha as (v1 & g1 & E1 & Hin1 & Hl1).
  assert (holds l1 (match r with Some n => {[(n, key)]} ∪ s | None => s end)) as Hh1.
  { destruct r as [n|]; [destruct Hr as [Hn Hr]; by apply (holds_add l)|by subst]. }
  specialize (IH v1 g1 l1 _ Hin1 Hl1 Hs1 Hh1). unfold ran in IH. erewrite vbind_step; [|cbn [runDirOp]; rewrite (vbind_step _ _ _ _ _ E1); reflexivity].
  destruct (specRun _ _ _) as [[answers s']| | | | |]; cbn [obind]; try (unfold vbind; by rewrite IH).
  destruct IH as (v2 & g2 & l2 & E2 & IH). exists v2, g2, l2. split; [by rewrite (vbind_step _ _ _ _ _ E2)|exact IH].
Qed.

Lemma ran_remove page key kr ops v g l s : inD v g -> linked g l -> shaped l -> holds l s -> isPage page ->
  (forall v g l s, inD v g -> linked g l -> shaped l -> holds l s -> ran ops s v) -> ran (DRemove page key kr :: ops) s v.
Proof.
  intros Hin Hl Hs Hh Hpage IH. unfold ran. cbn [specRun runDirOps]. destruct (specRemove_entries g page key kr l Hl Hs) as (Hs1 & Hfound & Hr).
  destruct (dirRemove_spec sha512Half d Hd base m0 v g l page key kr Hin Hl Hpage) as (v1 & g1 & E1 & Hin1 & Hl1).
  erewrite vbind_step; [|cbn [runDirOp]; rewrite (vbind_step _ _ _ _ _ E1); reflexivity].
  destruct (specRemove page key kr l) as [b l1]. cbn [fst snd] in *. rewrite <-(holds_in _ _ _ _ Hh) in Hfound.
  assert (holds l1 (s ∖ {[(page, key)]})) as Hh1.
  { destruct b; [by apply (holds_remove l)|]. subst l1. assert ((page, key) ∉ s) as Hn by (intros Hc%Hfound; done).
    by rewrite (difference_disjoint_L s) by set_solver. }
  assert (bool_decide ((page, key) ∈ s) = b) as ->.
  { destruct b; [apply bool_decide_true; tauto|apply bool_decide_false; intros Hc%Hfound; done]. }
  specialize (IH v1 g1 l1 _ Hin1 Hl1 Hs1 Hh1). unfold ran in IH. destruct (specRun _ _ _) as [[answers s']| | | | |]; cbn [obind]; try (unfold vbind; by rewrite IH).
  destruct IH as (v2 & g2 & l2 & E2 & IH). exists v2, g2, l2. split; [by rewrite (vbind_step _ _ _ _ _ E2)|exact IH].
Qed.

Lemma runDirOps_spec ops : Forall opPage ops -> forall v g l s, inD v g -> linked g l -> shaped l -> holds l s -> ran ops s v.
Proof.
  induction 1 as [|op ops Hop _ IH]; intros v g l s Hin Hl Hs Hh; [by exists v, g, l|].
  destruct op as [po key|page key kr]; [by apply (ran_add _ _ _ _ g l)|by apply (ran_remove _ _ _ _ _ g l)].
Qed.
End Refinement.

(** C7: Any sequence of additions to a new directory and removals from it does what it does to a
    set of pairs of a page and a key.  A key is added to the highest page while that has fewer
    than 32 keys, with the logic error when that page already has it; to the next page when
    it is full; and not at all exactly when the number of the next page wraps to 0 or, without
    the amendment [fixDirectoryLimit], is 262144 or more.  A pair is removed exactly when it is
    there.  The pages are always linked both ways, with increasing numbers, at most 32 keys
    each and none empty but the root, and hold the set.  No other entry of the view changes. *)
Theorem directory_refines {V : Type} `{ReadLaws V} (sha512Half : list Z -> Z) (fixDirectoryLimit : bool) (describe : SLE -> Outcome SLE)
    (d : Keylet) (v : ApplyView V) (ops : list DirOp)
    (Hd : pagesDiffer sha512Half d) (Hdescribe : changesPage describe id) (Hv : viewOk (ReadLaws := ApplyView_laws (fun _ => True)) v)
    (Hnew : forall n, isPage n -> viewMap (ReadLaws := ApplyView_laws (fun _ => True)) v !! pageKey sha512Half d n = None)
    (Hops : Forall opPage ops) :
  let map := viewMap (ReadLaws := ApplyView_laws (fun _ => True)) in
  match specRun fixDirectoryLimit ops ∅ with
  | Ret (answers, s) => exists v' g l, runDirOps sha512Half fixDirectoryLimit describe d ops v = Ret (answers, v') /\
      viewOk (ReadLaws := ApplyView_laws (fun _ => True)) v' /\ av_base v' = av_base v /\ sameElsewhere sha512Half d (map v) (map v') /\
      shows sha512Half d (map v') g /\ linked g l /\ shaped l /\ entriesOf l ≡ₚ elements s
  | _ => runDirOps sha512Half fixDirectoryLimit describe d ops v = LogicError
  end.
Proof.
  intros m.
  assert (inDir sha512Half d (av_base v) (m v) v ∅) as Hin.
  { split; [done|]. split; [done|]. split; [|by intros k _]. split; [by intros n [? ?]|]. intros n Hn. rewrite lookup_empty. by apply Hnew. }
  assert (linked ∅ []) as Hl.
  { split; [constructor|]. split; [constructor|]. split; [done|]. split; [intros n; split; [by intros [? ?]|by intros ?%not_elem_of_nil]|].
    split; [by intros n ks ?%not_elem_of_nil|by intros a b ?%not_elem_of_nil]. }
  pose proof (runDirOps_spec sha512Half fixDirectoryLimit describe d Hd Hdescribe (av_base v) (m v) ops Hops v ∅ [] ∅ Hin Hl ltac:(split; constructor)
    ltac:(unfold holds; by rewrite elements_empty)) as Hrun. unfold ran in Hrun. destruct (specRun fixDirectoryLimit ops ∅) as [[answers s]| | | | |]; try done.
  destruct Hrun as (v' & g & l & E & (Hok & Hb & Hsh & Hsame) & Hl' & Hs' & Hh). exists v', g, l. by split_and!.
Qed.

(** ** Reading *)

(** The loop of a client: [cdirFirst], then [cdirNext] until it returns false *)
Fixpoint dirWalk {V : Type} `{ReadView V} (sha512Half : list Z -> Z) (fuel : nat) (view : V) (d : Keylet) (steps : nat)
    (r : Outcome (option Z * Cursor)) : Outcome (list Z) :=
  match steps with
  | O => Wild
  | S steps =>
    let? (k, c) := r in
    match k with
    | None => Ret []
    | Some k => let? rest := dirWalk sha512Half fuel view d steps (dirNext sha512Half fuel view d c) in Ret (k :: rest)
    end
  end.

Section Reading.
Context {V : Type} `{ReadLaws V} (sha512Half : list Z -> Z) (d : Keylet) (view : V) (g : gmap Z Page) (l : Pages).
Context (Hd : pagesDiffer sha512Half d) (Hview : viewOk view) (Hg : shows sha512Half d (viewMap view) g) (Hl : linked g l).

Abbreviation page_ := (keyletPage sha512Half d).

Lemma read_page n : isPage n ->
  match g !! n with
  | Some pg => exists e, viewRead view (page_ n) = Ret (Some e) /\ dirEntry e /\ pageOf e = pg
  | None => viewRead view (page_ n) = Ret None
  end.
Proof.
  intros Hn. destruct (proj1 (proj2 Hd) n Hn) as [Hk _]. rewrite (view_read view (page_ n) Hview Hk). pose proof (proj2 Hg n Hn) as Hs. unfold pageKey in Hs.
  destruct (g !! n) as [pg|]; [|by rewrite Hs]. destruct Hs as (e & He & Hde & Hp). rewrite He. exists e. split; [|done]. cbn. unfold checked, keyletCheck.
  destruct (view_keyed view Hview _ _ He) as [-> _]. destruct Hde as [-> _].
  assert (kl_type (page_ n) = ltDIR_NODE) as -> by (unfold keyletPage; by destruct (n =? 0)). by rewrite !Z.eqb_refl.
Qed.

Lemma page_keys e : dirEntry e -> getFieldV256 (sleObject e) sfIndexes = Ret (pKeys (pageOf e)).
Proof. intros He. apply getV256_dir; [done|apply dirFields|done]. Qed.
Lemma page_next e : dirEntry e -> getFieldU64 (sleObject e) sfIndexNext = Ret (nextOf (pageOf e)).
Proof. intros He. apply getU64_dir; [done|apply dirFields|done]. Qed.

(** The page [n] of the list with the pages [l2] after it *)
Lemma read_at l1 n ks l2 : l = l1 ++ (n, ks) :: l2 ->
  exists e, viewRead view (page_ n) = Ret (Some e) /\ dirEntry e /\ pKeys (pageOf e) = ks /\ nextOf (pageOf e) = firstPage l2 /\ (firstPage l2 = 0 <-> l2 = []).
Proof.
  intros E. pose proof Hl as Hl'. rewrite E in Hl'. assert (n ∈ (l1 ++ (n, ks) :: l2).*1) as Hn by (rewrite fmap_app; apply elem_of_app; right; left).
  pose proof (read_page n (linked_page _ _ _ Hl' Hn)) as Hr. destruct (linked_lookup _ _ n ks Hl' ltac:(apply elem_of_app; right; left)) as (pg & Hpg & Hks).
  rewrite Hpg in Hr. destruct Hr as (e & Ee & He & Hp). exists e. rewrite Hp. split; [done|]. split; [done|]. split; [done|].
  split; [exact (linked_next g l1 n ks l2 pg Hl' Hpg)|]. apply (firstPage_zero g (l1 ++ [(n, ks)]) l2); [by destruct l1|by rewrite <-app_assoc].
Qed.

Lemma forEachItem_from l2 : forall l1 n ks fuel, l = l1 ++ (n, ks) :: l2 -> (length l2 < fuel)%nat ->
  forEachItem sha512Half fuel view d (page_ n) = Ret (ks ++ concat l2.*2).
Proof.
  induction l2 as [|[m ms] l2 IH]; intros l1 n ks fuel E Hf; (destruct fuel as [|fuel]; [cbn in Hf; lia|]);
    destruct (read_at _ _ _ _ E) as (e & Ee & He & Hk & Hn & Hz); cbn [forEachItem]; rewrite Ee; cbn [obind]; rewrite (page_keys e He); cbn [obind];
    rewrite (page_next e He); cbn [obind]; rewrite Hk, Hn.
  - cbn. by rewrite app_nil_r.
  - destruct (Z.eqb_spec (firstPage ((m, ms) :: l2)) 0) as [E0|_]; [by apply Hz in E0|]. change (firstPage ((m, ms) :: l2)) with m.
    rewrite (IH (l1 ++ [(n, ks)]) m ms fuel); [done|by rewrite <-app_assoc|cbn in Hf; lia].
Qed.

(** The keys a cursor has before it *)
Definition ahead (c : Cursor) (keys : list Z) : Prop :=
  exists l1 n ks l2 e, l = l1 ++ (n, ks) :: l2 /\ cu_page c = Some e /\ dirEntry e /\ pKeys (pageOf e) = ks /\ nextOf (pageOf e) = firstPage l2 /\
    keys = drop (cu_index c) ks ++ concat l2.*2.

Lemma dirNext_step c keys fuel : ahead c keys -> (length l <= fuel)%nat ->
  match keys with
  | [] => exists c', dirNext sha512Half fuel view d c = Ret (None, c')
  | k :: keys => exists c', dirNext sha512Half fuel view d c = Ret (Some k, c') /\ ahead c' keys
  end.
Proof.
  intros (l1 & n & ks & l2 & e & E & Hc & He & Hk & Hn & Ek) Hf. assert (length l2 < fuel)%nat as Hf2 by (rewrite E, length_app in Hf; cbn in Hf; lia). clear Hf.
  revert c l1 n ks e fuel E Hc He Hk Hn Ek Hf2. induction l2 as [|[m ms] l2 IH]; intros c l1 n ks e fuel E Hc He Hk Hn Ek Hf;
    (destruct fuel as [|fuel]; [cbn in Hf; lia|]); cbn [dirNext]; rewrite Hc, (page_keys e He); cbn [obind]; rewrite Hk;
    destruct (ks !! cu_index c) as [k|] eqn:Ei.
  - rewrite (drop_S _ _ _ Ei) in Ek. subst keys. cbn [app]. eexists. split; [done|]. exists l1, n, ks, [], e. by split_and!.
  - rewrite drop_ge in Ek by (by apply lookup_ge_None). subst keys. cbn [app concat fmap list_fmap]. rewrite (page_next e He). cbn [obind]. rewrite Hn. cbn. eauto.
  - rewrite (drop_S _ _ _ Ei) in Ek. subst keys. cbn [app]. eexists. split; [done|]. exists l1, n, ks, ((m, ms) :: l2), e. by split_and!.
  - rewrite drop_ge in Ek by (by apply lookup_ge_None). rewrite (page_next e He). cbn [obind]. rewrite Hn.
    destruct (read_at _ _ _ _ E) as (_ & _ & _ & _ & _ & Hz). destruct (Z.eqb_spec (firstPage ((m, ms) :: l2)) 0) as [E0|_]; [by apply Hz in E0|].
    assert (l = (l1 ++ [(n, ks)]) ++ (m, ms) :: l2) as E' by (by rewrite <-app_assoc). destruct (read_at _ _ _ _ E') as (e' & Ee' & He' & Hk' & Hn' & _).
    change (firstPage ((m, ms) :: l2)) with m. rewrite Ee'. cbn [obind].
    apply (IH _ (l1 ++ [(n, ks)]) m ms e'); try done. cbn in Hf. lia.
Qed.

Lemma dirWalk_ahead fuel steps : forall c keys, ahead c keys -> (length l <= fuel)%nat -> (length keys < steps)%nat ->
  dirWalk sha512Half fuel view d steps (dirNext sha512Half fuel view d c) = Ret keys.
Proof.
  induction steps as [|steps IH]; intros c keys Hc Hf Hs; [lia|]. cbn [dirWalk]. pose proof (dirNext_step c keys fuel Hc Hf) as Hn. destruct keys as [|k keys].
  - destruct Hn as (c' & ->). done.
  - destruct Hn as (c' & -> & Hc'). cbn [obind]. rewrite (IH c' keys Hc' Hf); [done|cbn in Hs; lia].
Qed.
End Reading.

(** C22: Reading a directory whose pages are linked, through any view: [forEachItem] and the loop
    with [cdirFirst] and [cdirNext] visit all its keys, page by page, and end; and when only
    the root may be an empty page, [dirIsEmpty] says whether there are keys. *)
Theorem directory_reads {V : Type} `{ReadLaws V} (sha512Half : list Z -> Z) (d : Keylet) (view : V) (g : gmap Z Page) (l : Pages)
    (Hd : pagesDiffer sha512Half d) (Hview : viewOk view) (Hg : shows sha512Half d (viewMap view) g) (Hl : linked g l) (Hs : shaped l) :
  let keys := concat l.*2 in
  forEachItem sha512Half (S (length l)) view d d = Ret keys /\
  dirWalk sha512Half (S (length l)) view d (S (length keys)) (dirFirst sha512Half (S (length l)) view d) = Ret keys /\
  dirIsEmpty view d = Ret (bool_decide (keys = [])).
Proof.
  intros keys. pose proof (root_keylet sha512Half d Hd) as Ed. destruct l as [|[n ks] l2] eqn:El.
  { pose proof (read_page sha512Half d view g Hd Hview Hg 0 page_zero) as Hr. rewrite (linked_absent _ _ _ Hl) in Hr by apply not_elem_of_nil.
    unfold dirIsEmpty, dirFirst. rewrite Hr. rewrite Ed in Hr. split; [cbn [forEachItem]; by rewrite Hr|]. split; [done|]. by rewrite Hr. }
  assert (n = 0) as ->. { by destruct Hl as (_ & _ & -> & _). }
  destruct (read_at sha512Half d view g ((0, ks) :: l2) Hd Hview Hg Hl [] 0 ks l2 eq_refl) as (e & Ee & He & Hk & Hn & Hz).
  split; [|split].
  - rewrite <-Ed at 2. by apply (forEachItem_from sha512Half d view g ((0, ks) :: l2) Hd Hview Hg Hl l2 [] 0 ks); [|cbn; lia].
  - unfold dirFirst. rewrite Ee. apply (dirWalk_ahead sha512Half d view g ((0, ks) :: l2) Hd Hview Hg Hl); [|lia|lia].
    exists [], 0, ks, l2, e. by split_and!.
  - unfold dirIsEmpty. rewrite Ed in Ee. rewrite Ee. cbn [obind]. rewrite (page_keys e He). cbn [obind]. rewrite Hk. unfold keys. cbn [fmap list_fmap snd concat].
    destruct ks as [|k ks]; [|done]. rewrite bool_decide_eq_true_2 by done. cbn [negb app]. rewrite (page_next e He). cbn [obind]. rewrite Hn. f_equal.
    destruct l2 as [|[m ms] l2]; [done|]. destruct (Z.eqb_spec (firstPage ((m, ms) :: l2)) 0) as [E0|_]; [by apply Hz in E0|].
    rewrite bool_decide_eq_false_2; [done|]. cbn. destruct Hs as [_ Hs]. cbn in Hs. apply Forall_cons in Hs as [Hms _]. cbn in Hms. by destruct ms.
Qed.

(** ** Deleting *)

Section Deleting.
Context {V : Type} `{ReadLaws V} (sha512Half : list Z -> Z) (d : Keylet) (Hd : pagesDiffer sha512Half d) (base : V) (m0 : gmap Z SLE).

Abbreviation inD := (inDir sha512Half d base m0).
Abbreviation page_ := (keyletPage sha512Half d).

(** The pages that are left, which lead from one to the next; the last one of them is the last
    of the directory. *)
Fixpoint chained (g : gmap Z Page) (l : Pages) : Prop :=
  match l with
  | [] => True
  | (n, ks) :: l => isPage n /\ n ∉ l.*1 /\ (exists pg, g !! n = Some pg /\ pKeys pg = ks /\ nextOf pg = firstPage l) /\ (firstPage l = 0 <-> l = []) /\ chained g l
  end.

Lemma chained_delete g n l : n ∉ l.*1 -> chained g l -> chained (delete n g) l.
Proof.
  induction l as [|[m ms] l IH]; [done|]. rewrite fmap_cons. intros [Hne Hn]%not_elem_of_cons (Hm & Hml & (pg & Hg & Hpg) & Hz & Hc). cbn in Hne.
  split; [done|]. split; [done|]. split; [exists pg; by rewrite lookup_delete_ne|]. split; [done|]. by apply IH.
Qed.

Lemma linked_chained g l1 l2 : linked g (l1 ++ l2) -> chained g l2.
Proof.
  revert l1. induction l2 as [|[n ks] l2 IH]; intros l1 Hl; [done|]. pose proof (linked_NoDup _ _ Hl) as Hnd. rewrite fmap_app, fmap_cons in Hnd.
  apply NoDup_app in Hnd as (_ & _ & [Hn _]%NoDup_cons). split; [|split; [done|split; [|split]]].
  - apply (linked_page _ _ _ Hl). rewrite fmap_app. apply elem_of_app. right. left.
  - destruct (linked_lookup _ _ n ks Hl ltac:(apply elem_of_app; right; left)) as (pg & Hg & Hk). exists pg. split; [done|]. split; [done|].
    exact (linked_next g l1 n ks l2 pg Hl Hg).
  - apply (firstPage_zero g (l1 ++ [(n, ks)]) l2); [by destruct l1|by rewrite <-app_assoc].
  - apply (IH (l1 ++ [(n, ks)])). by rewrite <-app_assoc.
Qed.

(** Whether the last page has no link at all *)
Definition openEnd (g : gmap Z Page) (l : Pages) : bool := match g !! lastPage l ≫= pNext with Some _ => false | None => true end.

Lemma optional_next e : dirEntry e -> proxyOptional STI_UINT64 (sleObject e) sfIndexNext = Ret (LUInt64 <$> pNext (pageOf e)).
Proof.
  intros He. destruct (dirFields) as (Hf & _). destruct (dir_slot e sfIndexNext He Hf) as (b & Hb & Hv). pose proof He as (_ & Ht & Hw).
  assert (proxyStyle (sleObject e) sfIndexNext = Ret SoeOptional) as Es.
  { unfold proxyStyle. rewrite Ht, peek_slot, Hb by done. cbn [obind]. vm_compute. reflexivity. }
  assert (proxyFind STI_UINT64 (sleObject e) sfIndexNext = Ret (LUInt64 <$> pNext (pageOf e))) as Ef.
  { unfold proxyFind. rewrite peek_slot, Hb by done. cbn [obind]. unfold pageOf, u64At, leafAt. cbn [pNext]. rewrite Hb.
    destruct Hv as [->|(v & -> & Hv)]; [done|]. change (fieldType sfIndexNext) with STI_UINT64 in Hv. destruct v; done. }
  unfold proxyOptional, proxyEngaged, proxyValue. rewrite Es, Ef. cbn [obind]. rewrite bool_decide_eq_false_2 by done. cbn [orb].
  destruct (pNext (pageOf e)); done.
Qed.

(** One round of the loop *)
Lemma delete_round v g n pg fuel : inD v g -> isPage n -> g !! n = Some pg ->
  exists v1, inD v1 (delete n g) /\ dirDeleteLoop sha512Half (S fuel) d n v =
    match pNext pg with
    | Some next => (let~ r := dirDeleteLoop sha512Half fuel d next in vret (r.1, pKeys pg ++ r.2)) v1
    | None => Ret ((true, pKeys pg), v1)
    end.
Proof.
  intros Hin Hn Hg. destruct (peek_step sha512Half d Hd base m0 v g n Hin Hn) as (r & v0 & E0 & Hin0 & _ & Hr). rewrite Hg in Hr. destruct Hr as (p & -> & Hp).
  destruct (entry_step sha512Half d base m0 v0 g n p pg Hin0 Hn Hp Hg) as (e & Ee & He & Hpg).
  destruct (erase_step sha512Half d Hd base m0 v0 g n p Hin0 Hn Hp ltac:(by eexists)) as (v1 & E1 & Hin1 & _).
  exists v1. split; [done|]. cbn [dirDeleteLoop]. rewrite (vbind_step _ _ _ _ _ E0).
  rewrite (vbind_step _ _ _ _ _ (keys_step sha512Half d base m0 v0 g n p pg Hin0 Hn Hp Hg)), (vbind_step _ _ _ _ _ Ee).
  rewrite (optional_next e He), Hpg, vbind_throw, (vbind_step _ _ _ _ _ E1). by destruct (pNext pg).
Qed.

Lemma dirDeleteLoop_spec l : forall v g n ks fuel, inD v g -> chained g ((n, ks) :: l) -> (forall j, is_Some (g !! j) <-> j ∈ ((n, ks) :: l).*1) ->
  (n <> 0 -> g !! 0 = None) -> (S (length l) < fuel)%nat ->
  exists v' g', dirDeleteLoop sha512Half fuel d n v = Ret ((openEnd g ((n, ks) :: l), ks ++ concat l.*2), v') /\ inD v' g' /\ linked g' [].
Proof.
  induction l as [|[m ms] l IH]; intros v g n ks fuel Hin (Hn & Hnl & (pg & Hg & Hk & Hnx) & Hz & Hc) Hdom Hroot Hf; (destruct fuel as [|fuel]; [lia|]);
    destruct (delete_round v g n pg fuel Hin Hn Hg) as (v1 & Hin1 & ->); rewrite Hk.
  - assert (linked (delete n g) []) as Hgone.
    { split; [constructor|]. split; [constructor|]. split; [done|]. split; [|split; [by intros ? ? ?%not_elem_of_nil|by intros ? ? ?%not_elem_of_nil]].
      intros j. split; [|by intros ?%not_elem_of_nil]. destruct (decide (j = n)) as [->|Hne]; [rewrite lookup_delete_eq; by intros [? ?]|].
      rewrite lookup_delete_ne, Hdom by done. cbn. by rewrite list_elem_of_singleton. }
    unfold openEnd, lastPage. cbn [fmap list_fmap List.last fst concat]. rewrite Hg. cbn [mbind option_bind]. unfold nextOf in Hnx. cbn in Hnx.
    destruct (pNext pg) as [x|]; cbn in Hnx; [subst x|exists v1, (delete n g); rewrite app_nil_r; split; [reflexivity|by split]].
    destruct fuel as [|fuel]; [cbn in Hf; lia|]. destruct (peek_step sha512Half d Hd base m0 v1 _ 0 Hin1 page_zero) as (r & v2 & E2 & Hin2 & _ & Hr).
    assert (delete n g !! 0 = None) as E0. { apply (linked_absent _ _ _ Hgone), not_elem_of_nil. }
    rewrite E0 in Hr. subst r. exists v2, (delete n g). split; [|done]. erewrite vbind_step; [|cbn [dirDeleteLoop]; rewrite (vbind_step _ _ _ _ _ E2); reflexivity]. reflexivity.
  - assert (pNext pg = Some m) as ->.
    { unfold nextOf in Hnx. change (firstPage ((m, ms) :: l)) with m in *. destruct (pNext pg) as [x|]; cbn in Hnx; [by subst|]. pose proof (proj1 Hz (eq_sym Hnx)). done. }
    rewrite fmap_cons in Hnl. cbn [fst] in Hnl. pose proof Hnl as [Hnm Hnl']%not_elem_of_cons.
    destruct (IH v1 (delete n g) m ms fuel Hin1) as (v2 & g2 & E2 & Hin2 & Hl2).
    + by apply (chained_delete g n ((m, ms) :: l)).
    + intros j. destruct (decide (j = n)) as [->|Hne].
      * rewrite lookup_delete_eq. split; [by intros [? ?]|]. by intros Hj.
      * rewrite lookup_delete_ne, Hdom, fmap_cons by done. cbn [fst]. rewrite elem_of_cons. naive_solver.
    + intros _. destruct (decide (n = 0)) as [->|Hn0]; [by rewrite lookup_delete_eq|]. rewrite lookup_delete_ne by done. by apply Hroot.
    + cbn in Hf. lia.
    + exists v2, g2. rewrite (vbind_step _ _ _ _ _ E2). split; [|done]. unfold vret. cbn [fst snd concat fmap list_fmap].
      assert (openEnd (delete n g) ((m, ms) :: l) = openEnd g ((n, ks) :: (m, ms) :: l)) as ->; [|done].
      unfold openEnd. assert (lastPage ((n, ks) :: (m, ms) :: l) = lastPage ((m, ms) :: l)) as -> by done. rewrite lookup_delete_ne; [done|].
      intros ->. apply Hnl. apply (lastPage_in ((m, ms) :: l)). done.
Qed.

(** What [emptyDirDelete] answers and leaves: with an empty root and two or more other pages it
    answers true and deletes nothing. *)
Definition specEmptyDelete (l : Pages) : bool * Pages :=
  match l with
  | [] => (false, [])
  | (_, _ :: _) :: _ => (false, l)
  | [(_, [])] => (true, [])
  | [(_, []); (_, [])] => (true, [])
  | [(_, []); (_, _ :: _)] => (false, l)
  | (_, []) :: _ :: _ :: _ => (true, l)
  end.

Lemma emptyDirDelete_spec v g l : inD v g -> linked g l -> (forall pg, g !! 0 = Some pg -> pRoot pg = kl_key d) ->
  exists v' g', emptyDirDelete sha512Half d v = Ret ((specEmptyDelete l).1, v') /\ inD v' g' /\ linked g' (specEmptyDelete l).2.
Proof.
  intros Hin Hl Hroot. pose proof (root_keylet sha512Half d Hd) as Ed. unfold emptyDirDelete.
  destruct (peek_step sha512Half d Hd base m0 v g 0 Hin page_zero) as (r & v1 & E1 & Hin1 & _ & Hr). rewrite Ed in E1. rewrite (vbind_step _ _ _ _ _ E1).
  destruct l as [|[n ks] l2]. { rewrite (linked_absent _ _ _ Hl) in Hr by apply not_elem_of_nil. subst r. by exists v1, g. }
  assert (n = 0) as ->. { by destruct Hl as (_ & _ & -> & _). }
  destruct (linked_lookup _ _ 0 ks Hl ltac:(left)) as (pg & Hg & Hk). rewrite Hg in Hr. destruct Hr as (p & -> & Hp).
  destruct (entry_step sha512Half d base m0 v1 g 0 p pg Hin1 page_zero Hp Hg) as (e & Ee & He & Hpg). rewrite (vbind_step _ _ _ _ _ Ee).
  pose proof Hd as (Ht & _). rewrite Ht, Z.eqb_refl. erewrite vbind_step.
  2: { unfold vthrow. rewrite (getH256_dir e sfRootIndex He); [reflexivity|apply dirFields|done]. }
  change (h256At sfRootIndex e) with (pRoot (pageOf e)). rewrite Hpg, (Hroot pg Hg), Z.eqb_refl. cbn [negb orb].
  rewrite (vbind_step _ _ _ _ _ (keys_step sha512Half d base m0 v1 g 0 p pg Hin1 page_zero Hp Hg)), Hk. destruct ks as [|k ks]; [|by exists v1, g].
  rewrite bool_decide_eq_true_2 by done. cbn [negb].
  rewrite (vbind_step _ _ _ _ _ (prev_step sha512Half d base m0 v1 g 0 p pg Hin1 page_zero Hp Hg)).
  rewrite (vbind_step _ _ _ _ _ (next_step sha512Half d base m0 v1 g 0 p pg Hin1 page_zero Hp Hg)).
  assert (forall (x : Z * list Z) l, x :: l <> []) as Hcons by done.
  rewrite (linked_prev_root _ _ _ (Hcons _ _) Hl Hg), (linked_next g [] 0 [] l2 pg Hl Hg).
  pose proof (firstPage_zero g [(0, [])] l2 (Hcons _ _) Hl) as Hfz. pose proof (lastPage_zero _ _ Hl (Hcons _ _)) as Hlz.
  rewrite (vbind_step _ _ _ _ _ (checkLinks_ok (firstPage l2) (lastPage ((0, []) :: l2)) v1 ltac:(rewrite Hfz, Hlz; split; [by intros ->; eauto|intros [? [= _ ->]]; done]))).
  destruct l2 as [|[n ms] l2].
  { destruct (erase_step sha512Half d Hd base m0 v1 g 0 p Hin1 page_zero Hp ltac:(by eexists)) as (v2 & E2 & Hin2 & _).
    change (firstPage []) with 0. change (lastPage [(0, [])]) with 0. cbn [Z.eqb andb negb]. erewrite vbind_step; [|exact E2].
    eexists _, _. split; [reflexivity|]. split; [exact Hin2|]. by apply (linked_gone g []). }
  change (firstPage ((n, ms) :: l2)) with n in *. destruct (Z.eqb_spec n 0) as [|Hn0]; [by apply Hfz in e0|]. cbn [negb]. rewrite andb_true_r.
  destruct l2 as [|x l2].
  - change (lastPage [(0, []); (n, ms)]) with n. rewrite Z.eqb_refl. destruct (linked_lookup _ _ n ms Hl ltac:(right; left)) as (npg & Hng & Hnk).
    assert (isPage n) as Hn by (apply (linked_page _ _ n Hl); right; left).
    destruct (peekLinked_step sha512Half d Hd base m0 v1 g n npg Hin1 Hn Hng) as (q & v2 & E2 & Hin2 & Hk2 & Hq2). rewrite (vbind_step _ _ _ _ _ E2).
    rewrite (vbind_step _ _ _ _ _ (keys_step sha512Half d base m0 v2 g n q npg Hin2 Hn Hq2 Hng)), Hnk. destruct ms as [|k ms]; [|by exists v2, g].
    rewrite bool_decide_eq_true_2 by done. cbn [negb].
    destruct (modify_step sha512Half d Hd base m0 v2 g 0 p _ _ Hin2 page_zero (Hk2 _ _ Hp) ltac:(by eexists) changes_close) as (v3 & E3 & Hin3 & Hk3).
    destruct (erase_step sha512Half d Hd base m0 v3 _ n q Hin3 Hn (Hk3 _ _ Hq2) ltac:(rewrite alter_isSome; by eexists)) as (v4 & E4 & Hin4 & Hk4).
    pose proof (linked_unlink g [(0, [])] n [] [] (Hcons _ _) Hl) as Hu. cbn in Hu. rewrite alter_twice in Hu.
    destruct (erase_step sha512Half d Hd base m0 v4 _ 0 p Hin4 page_zero) as (v5 & E5 & Hin5 & _).
    { apply Hk4; [apply page_zero|done|]. by apply Hk3, Hk2. }
    { apply Hu. left. }
    rewrite (vbind_step _ _ _ _ _ E3), (vbind_step _ _ _ _ _ E4), (vbind_step _ _ _ _ _ E5). eexists _, _. split; [reflexivity|]. split; [exact Hin5|].
    by apply (linked_gone _ []).
  - pose proof (lastPage_past g [] n ms x l2 Hl) as Hne.
    rewrite (proj2 (Z.eqb_neq _ _) Hne). cbn [andb]. erewrite vbind_step by reflexivity. exists v1, g. by destruct ms.
Qed.
End Deleting.

(** C26: Deleting a directory whose pages are linked.  [dirDelete] calls back for all its keys, page
    by page, and leaves no page; but it answers false when the last page has a link to the root
    instead of none.  [emptyDirDelete] deletes a directory without keys that has at most two
    pages, refuses one with keys in the root or in its single other page, and answers true
    without deleting anything when the root is empty and there are more pages.  No other entry
    of the view changes. *)
Theorem directory_deletes {V : Type} `{ReadLaws V} (sha512Half : list Z -> Z) (d : Keylet) (v : ApplyView V) (g : gmap Z Page) (l : Pages)
    (Hd : pagesDiffer sha512Half d) (Hv : viewOk (ReadLaws := ApplyView_laws (fun _ => True)) v)
    (Hg : shows sha512Half d (viewMap (ReadLaws := ApplyView_laws (fun _ => True)) v) g) (Hl : linked g l) (Hne : l <> [])
    (Hroot : forall pg, g !! 0 = Some pg -> pRoot pg = kl_key d) :
  let map := viewMap (ReadLaws := ApplyView_laws (fun _ => True)) in
  let ok := viewOk (ReadLaws := ApplyView_laws (fun _ => True)) in
  (exists v', dirDelete sha512Half (S (S (length l))) d v = Ret ((openEnd g l, concat l.*2), v') /\ ok v' /\
     (forall n, isPage n -> map v' !! pageKey sha512Half d n = None) /\ sameElsewhere sha512Half d (map v) (map v')) /\
  (exists v' g', emptyDirDelete sha512Half d v = Ret ((specEmptyDelete l).1, v') /\ ok v' /\
     shows sha512Half d (map v') g' /\ linked g' (specEmptyDelete l).2 /\ sameElsewhere sha512Half d (map v) (map v')).
Proof.
  intros m ok. assert (inDir sha512Half d (av_base v) (m v) v g) as Hin by (split; [done|]; split; [done|]; split; [done|by intros k _]). split.
  - destruct (linked_root _ _ Hl Hne) as (ks & l2 & ->). destruct (dirDeleteLoop_spec sha512Half d Hd (av_base v) (m v) l2 v g 0 ks (S (S (S (length l2)))) Hin)
      as (v' & g' & E & (Hok & _ & Hs & Hsame) & Hgone); [by apply (linked_chained g [])|apply Hl|done|lia|].
    exists v'. split; [exact E|]. split; [done|]. split; [|done]. intros n Hn. pose proof (proj2 Hs n Hn) as Hk.
    by rewrite (linked_absent _ _ n Hgone (not_elem_of_nil n)) in Hk.
  - destruct (emptyDirDelete_spec sha512Half d Hd (av_base v) (m v) v g l Hin Hl Hroot) as (v' & g' & E & (Hok & _ & Hs & Hsame) & Hl').
    exists v', g'. by split_and!.
Qed.

(** ** Witnesses *)

(** A hash under which the pages of a directory have different keys *)
Definition sampleHash (bytes : list Z) : Z := 2 ^ 200 + beValue (drop 34 bytes).
Definition sampleDir : Keylet := mkKeylet ltDIR_NODE 7.

Lemma sample_pageKey n : isPage n -> pageKey sampleHash sampleDir n = if n =? 0 then 7 else 2 ^ 200 + n.
Proof.
  intros Hn. unfold pageKey, keyletPage. destruct (n =? 0); [done|]. cbn [kl_key]. unfold indexHash, sampleHash. f_equal.
  rewrite app_assoc, drop_app_length'; [|by rewrite length_app, !length_beBytes]. rewrite beValue_beBytes. apply Z.mod_small. unfold isPage in Hn. lia.
Qed.

Lemma sample_pagesDiffer : pagesDiffer sampleHash sampleDir.
Proof.
  split; [done|]. split.
  - intros n Hn. rewrite (sample_pageKey n Hn). unfold isPage in Hn. unfold isKey. destruct (n =? 0); lia.
  - intros i j Hi Hj. rewrite (sample_pageKey i Hi), (sample_pageKey j Hj). unfold isPage in *. destruct (Z.eqb_spec i 0), (Z.eqb_spec j 0); lia.
Qed.

#[local] Instance sampleReads : ReadView Ledger := Ledger_read ToNearest Large330.
#[local] Instance sampleLaws : ReadLaws Ledger := Ledger_laws ToNearest Large330 sampleUniverse.

Definition sampleView : ApplyView Ledger := ApplyViewBase.newView sampleLedger.

Lemma sampleView_ok : viewOk (ReadLaws := ApplyView_laws (fun _ => True)) sampleView /\ viewMap (ReadLaws := ApplyView_laws (fun _ => True)) sampleView = ∅.
Proof.
  destruct sample_ok as [Hok Em]. destruct (newView_ok (H0 := sampleLaws) (fun _ => True) sampleLedger Hok) as [H1 H2]. split; [exact H1|]. etransitivity; [exact H2|exact Em].
Qed.

(** Thirty-three keys; the removals of a key of the first page, of one that is not there and of the key of the second page *)
Definition sampleDirOps : list DirOp :=
  ((fun i => DAdd (Nat.odd i) (100 - Z.of_nat i)) <$> seq 0 33) ++ [DRemove 0 100 false; DRemove 1 100 false; DRemove 1 68 false].

Definition sampleAnswers : list DirAnswer := ((fun _ => Added (Some 0)) <$> seq 0 32) ++ [Added (Some 1); Removed true; Removed false; Removed true].

Lemma sampleDirOps_spec : exists s, specRun true sampleDirOps ∅ = Ret (sampleAnswers, s) /\ length (elements s) = 31%nat.
Proof. eexists. split; vm_compute; reflexivity. Qed.
Lemma sampleTwice_spec : specRun true [DAdd false 11; DAdd false 11] ∅ = LogicError.
Proof. vm_compute. reflexivity. Qed.
Lemma sampleDirOps_pages : Forall opPage sampleDirOps.
Proof. apply Forall_app. split; [by apply Forall_fmap, Forall_true|]. repeat constructor; cbn; lia. Qed.

Lemma directory_refines_witness :
  exists v' g l, runDirOps sampleHash true (describeOwnerDir 5) sampleDir sampleDirOps sampleView = Ret (sampleAnswers, v') /\
    linked g l /\ length (entriesOf l) = 31%nat /\
    runDirOps sampleHash true (describeOwnerDir 5) sampleDir [DAdd false 11; DAdd false 11] sampleView = LogicError.
Proof.
  destruct sampleView_ok as [Hok Em]. destruct sampleDirOps_spec as (s & Es & Hlen).
  pose proof (directory_refines sampleHash true (describeOwnerDir 5) sampleDir sampleView [DAdd false 11; DAdd false 11] sample_pagesDiffer (changes_owner 5) Hok
    ltac:(intros n _; by rewrite Em) ltac:(repeat constructor)) as Htwice. rewrite sampleTwice_spec in Htwice.
  pose proof (directory_refines sampleHash true (describeOwnerDir 5) sampleDir sampleView sampleDirOps sample_pagesDiffer (changes_owner 5) Hok
    ltac:(intros n _; by rewrite Em) sampleDirOps_pages) as Hrun. rewrite Es in Hrun.
  destruct Hrun as (v' & g & l & E & _ & _ & _ & _ & Hl & _ & Hp).
  exists v', g, l. split; [exact E|]. split; [exact Hl|]. split; [rewrite Hp; exact Hlen|exact Htwice].
Defined.

(** A directory with one key *)
Lemma sample_directory :
  exists v e, viewOk (ReadLaws := ApplyView_laws (fun _ => True)) v /\ pRoot (pageOf e) = 7 /\
    shows sampleHash sampleDir (viewMap (ReadLaws := ApplyView_laws (fun _ => True)) v) {[0 := pageOf e]} /\ linked {[0 := pageOf e]} [(0, [11])] /\
    av_base v = sampleLedger.
Proof.
  destruct sampleView_ok as [Hok Em]. destruct (new_page 7) as (e0 & E0 & He0 & Hk0 & Ep0).
  destruct (changes_root 7 e0 He0) as (e1 & E1 & He1 & Hk1 & Ep1). destruct (changes_keys [11] e1 He1) as (e & E2 & He & Hk2 & Ep2).
  assert (inDir sampleHash sampleDir sampleLedger ∅ sampleView ∅) as Hin.
  { split; [done|]. split; [done|]. rewrite Em. split; [|by intros k _]. split; [by intros n [? ?]|]. intros n Hn. by rewrite !lookup_empty. }
  destruct (insert_step sampleHash sampleDir sample_pagesDiffer sampleLedger ∅ sampleView ∅ 0 e Hin page_zero eq_refl He) as (v & Ei & (Hok' & Hb & Hs & _) & _).
  { rewrite (sample_pageKey 0 page_zero). cbn. congruence. }
  exists v, e. rewrite insert_empty in Hs. split; [done|]. split; [by rewrite Ep2, Ep1|]. split; [done|]. split; [|done]. rewrite Ep2, Ep1, Ep0.
  rewrite <-insert_empty. apply linked_single; [|done..]. split; [constructor|]. split; [constructor|]. split; [done|].
  split; [intros n; split; [by intros [? ?]|by intros ?%not_elem_of_nil]|]. split; [by intros n ks ?%not_elem_of_nil|by intros a b ?%not_elem_of_nil].
Qed.

Lemma directory_reads_witness :
  exists v : ApplyView Ledger, forEachItem sampleHash 2 v sampleDir sampleDir = Ret [11] /\ dirIsEmpty v sampleDir = Ret false.
Proof.
  destruct sample_directory as (v & e & Hok & _ & Hs & Hl & _).
  destruct (directory_reads (H0 := ApplyView_laws (fun _ => True)) sampleHash sampleDir v _ [(0, [11])] sample_pagesDiffer Hok Hs Hl
    ltac:(split; [apply Forall_singleton; cbn; unfold kDirNodeMaxEntries; lia|constructor])) as (E1 & _ & E2).
  exists v. split; [exact E1|exact E2].
Defined.

Lemma directory_deletes_witness :
  exists (v v' v2 : ApplyView Ledger) b, dirDelete sampleHash 3 sampleDir v = Ret ((b, [11]), v') /\
    emptyDirDelete sampleHash sampleDir v = Ret (false, v2).
Proof.
  destruct sample_directory as (v & e & Hok & Hr & Hs & Hl & _).
  destruct (directory_deletes sampleHash sampleDir v _ [(0, [11])] sample_pagesDiffer Hok Hs Hl ltac:(done)) as [(v' & E1 & _) (v2 & g' & E2 & _)].
  { intros pg Hpg. rewrite lookup_singleton_eq in Hpg. injection Hpg as <-. exact Hr. }
  exists v, v', v2. eexists. split; [exact E1|exact E2].
Defined.
