(* ===== verification/LedgerBuild.v ===== *)
(** * Building ledgers

    The members of [Ledger] (src/libxrpl/ledger/Ledger.cpp) that follow the history of ledgers:
    the skip list, the negative UNL, and acceptance; [hashOfSeq] (src/libxrpl/ledger/View.cpp)
    and [buildLedgerImpl] (src/xrpld/app/ledger/detail/BuildLedger.cpp).

    A hash is the list of its bytes in a header and an integer in an entry.  What applies the
    transactions is an argument, and so is whether the trees are valid, a state of trees that
    are being acquired. *)
From S2P Require Import Prelude Digits HashPrefix Serializer SField Formats Number Amounts STTypes NodeID STObject STAccess Timing LedgerHeader.
From S2P Require Import ShaMap Views StateTables Directory LedgerView.

(** ** Keys *)

(** The name spaces are the characters s and N. *)
Definition skipListSpace : Z := 115.
Definition negativeUnlSpace : Z := 78.

Section Keylets.
Context (sha512Half : list Z -> Z).

(** [keylet::skip] of no ledger and of a ledger *)
Definition keyletSkip : Keylet := mkKeylet ltLEDGER_HASHES (indexHash sha512Half skipListSpace []).
Definition keyletSkipOf (ledger : Z) : Keylet :=
  mkKeylet ltLEDGER_HASHES (indexHash sha512Half skipListSpace (beBytes 4 (Z.shiftr ledger 16))).
Definition keyletNegativeUNL : Keylet := mkKeylet ltNEGATIVE_UNL (indexHash sha512Half negativeUnlSpace []).
End Keylets.

(** ** Fields that hold bytes and arrays *)

Definition getFieldVL (o : STObject) (f : SField) : Outcome (list Z) :=
  let? v := getFieldLeaf STI_VL o f in Ret match v with LBlob b => b | _ => [] end.

Definition getFieldArray (o : STObject) (f : SField) : Outcome (list STBase) :=
  let? b := peekAtPField o f in
  match b with
  | None => RuntimeError
  | Some (STNotPresent _) => Ret []
  | Some (STArr _ v) => Ret v
  | Some _ => RuntimeError
  end.

Definition setFieldArray (o : STObject) (f : SField) (v : list STBase) : Outcome STObject :=
  let? (o, i) := getPField o f true in
  match i with
  | None => RuntimeError
  | Some i =>
    let? b := slotAt o i in
    let? (o, i) := if isPresent b then Ret (o, i) else makeFieldPresent o f in
    let? b := slotAt o i in
    match b with
    | STArr g _ => Ret (setSlot o i (STArr g v))
    | _ => RuntimeError
    end
  end.

(** The object an element of an array is *)
Definition innerObject (b : STBase) : Outcome STObject := match b with STObj _ t v => Ret (mkObject t v) | _ => Wild end.

Definition changeInner (f : STObject -> Outcome STObject) (b : STBase) : Outcome STBase :=
  match b with STObj g t v => let? o := f (mkObject t v) in Ret (STObj g (type_ o) (v_ o)) | _ => Wild end.

(** [makeInnerObject]; [rules]: those of the current transaction, of which only
    [fixInnerObjTemplate2] counts *)
Definition makeInnerObject (rules : option bool) (name : SField) : Outcome STBase :=
  let isAMMObj := fieldEq name sfAuctionSlot || fieldEq name sfVoteEntry in
  if match rules with None => true | Some enabled => isAMMObj || enabled end then
    match findSOTemplateBySField name with
    | Some t => let? v := setTemplate t in Ret (STObj name (Some t) v)
    | None => Ret (STObj name None [])
    end
  else Ret (STObj name None []).

(** [publicKeyType], as whether there is one *)
Definition isPublicKey (slice : list Z) : bool :=
  (length slice =? 33)%nat && match slice with b :: _ => (b =? 0xED) || (b =? 2) || (b =? 3) | [] => false end.

Definition kFlagLedgerInterval : Z := 256.
Definition isFlagLedger (seq : Z) : bool := seq mod kFlagLedgerInterval =? 0.

(** ** Ledgers *)

Definition headerHash (sha512Half : list Z -> Z) (bytes : list Z) : list Z := beBytes 32 (sha512Half bytes).

Section Members.
Context (sha512Half : list Z -> Z) (mode : RoundingMode) (scale : MantissaScale).

Abbreviation makeSLE := (Ledger.makeSLE mode scale).

Definition peekSLE (l : Ledger) (k : Keylet) : Outcome (option SLE) :=
  let? value := Ledger.lift (peekItem (stateMap_ l) (kl_key k)) in
  match value with
  | None => Ret None
  | Some item => let? sle := makeSLE item in if negb (keyletCheck k sle) then Ret None else Ret (Some sle)
  end.

(** One of the two records of [updateSkipList]: the record of the past 256 ledgers drops its
    first hash when it is full. *)
Definition pushHash (l : Ledger) (k : Keylet) (bounded : bool) (prevIndex : Z) : Outcome Ledger :=
  let? old := peekSLE l k in
  let? (sle, hashes, created) := match old with
    | None => let? sle := newSLE (kl_key k) (kl_type k) in Ret (sle, [], true)
    | Some sle => let? hashes := getFieldV256 (sleObject sle) sfHashes in Ret (sle, hashes, false)
    end in
  let hashes := if bounded && (length hashes =? 256)%nat then tail hashes else hashes in
  let hashes := hashes ++ [beValue (h_parentHash (header_ l))] in
  let? sle := setV256 sfHashes hashes sle in
  let? sle := setLeaf sfLastLedgerSequence (LUInt32 prevIndex) sle in
  if created : bool then Ledger.rawInsert l sle else Ledger.rawReplace sha512Half l sle.

Definition updateSkipList (l : Ledger) : Outcome Ledger :=
  let seq := h_seq (header_ l) in
  if seq =? 0 then Ret l
  else
    let prevIndex := u32 (seq - 1) in
    let? l := if Z.land prevIndex 0xff =? 0 then pushHash l (keyletSkipOf sha512Half prevIndex) false prevIndex else Ret l in
    pushHash l (keyletSkip sha512Half) true prevIndex.

(** The entry of the negative UNL, as [NegativeUNLEntryR] finds it *)
Definition negativeUNLEntry (l : Ledger) : Outcome (option SLE) := Ledger.read mode scale l (keyletNegativeUNL sha512Half).

(** The loop of [negativeUNL]; the set is the list of the keys put into it. *)
Fixpoint disabledKeys (nUnlData : list STBase) : Outcome (list (list Z)) :=
  match nUnlData with
  | [] => Ret []
  | n :: rest =>
    let? o := innerObject n in
    let? present := isFieldPresent o sfPublicKey in
    if present : bool then
      let? d := getFieldVL o sfPublicKey in
      let? keys := disabledKeys rest in
      Ret (if isPublicKey d then d :: keys else keys)
    else disabledKeys rest
  end.

Definition negativeUNL (l : Ledger) : Outcome (list (list Z)) :=
  let? sle := negativeUNLEntry l in
  match sle with
  | None => Ret []
  | Some sle =>
    let? present := isFieldPresent (sleObject sle) sfDisabledValidators in
    if present : bool then let? nUnlData := getFieldArray (sleObject sle) sfDisabledValidators in disabledKeys nUnlData
    else Ret []
  end.

(** [validatorToDisable] and [validatorToReEnable] *)
Definition validatorTo (f : SField) (l : Ledger) : Outcome (option (list Z)) :=
  let? sle := negativeUNLEntry l in
  match sle with
  | None => Ret None
  | Some sle =>
    let? present := isFieldPresent (sleObject sle) f in
    if present : bool then let? d := getFieldVL (sleObject sle) f in Ret (if isPublicKey d then Some d else None)
    else Ret None
  end.

Definition validatorToDisable : Ledger -> Outcome (option (list Z)) := validatorTo sfValidatorToDisable.
Definition validatorToReEnable : Ledger -> Outcome (option (list Z)) := validatorTo sfValidatorToReEnable.

(** The loop of [updateNegativeUNL]: the validators that stay *)
Fixpoint stillDisabled (hasToReEnable : bool) (sle : SLE) (oldNUnl : list STBase) : Outcome (list STBase) :=
  match oldNUnl with
  | [] => Ret []
  | v :: rest =>
    let? o := innerObject v in
    let? present := if hasToReEnable then isFieldPresent o sfPublicKey else Ret false in
    let? drop_ := if present : bool then
        let? a := getFieldVL o sfPublicKey in
        let? b := getFieldVL (sleObject sle) sfValidatorToReEnable in
        Ret (bool_decide (a = b))
      else Ret false in
    let? kept := stillDisabled hasToReEnable sle rest in
    Ret (if drop_ : bool then kept else v :: kept)
  end.

(** The inner object for the validator that gets disabled *)
Definition disabledValidator (rules : option bool) (key : list Z) (seq : Z) : Outcome STBase :=
  let? b := makeInnerObject rules sfDisabledValidator in
  let? b := changeInner (fun o => setFieldLeaf o sfPublicKey (LBlob key)) b in
  changeInner (fun o => setFieldLeaf o sfFirstLedgerSequence (LUInt32 seq)) b.

Definition updateNegativeUNL (rules : option bool) (l : Ledger) : Outcome Ledger :=
  let? sle := peekSLE l (keyletNegativeUNL sha512Half) in
  match sle with
  | None => Ret l
  | Some sle =>
    let? hasToDisable := isFieldPresent (sleObject sle) sfValidatorToDisable in
    let? hasToReEnable := isFieldPresent (sleObject sle) sfValidatorToReEnable in
    if negb hasToDisable && negb hasToReEnable then Ret l
    else
      let? present := isFieldPresent (sleObject sle) sfDisabledValidators in
      let? newNUnl := if present : bool then
          let? oldNUnl := getFieldArray (sleObject sle) sfDisabledValidators in stillDisabled hasToReEnable sle oldNUnl
        else Ret [] in
      let? newNUnl := if hasToDisable : bool then
          let? key := getFieldVL (sleObject sle) sfValidatorToDisable in
          let? b := disabledValidator rules key (h_seq (header_ l)) in
          Ret (newNUnl ++ [b])
        else Ret newNUnl in
      if negb (bool_decide (newNUnl = [])) then
        let? o := setFieldArray (sleObject sle) sfDisabledValidators newNUnl in
        let? o := if hasToReEnable : bool then makeFieldAbsent o sfValidatorToReEnable else Ret o in
        let? o := if hasToDisable : bool then makeFieldAbsent o sfValidatorToDisable else Ret o in
        Ledger.rawReplace sha512Half l (withObject sle o)
      else Ledger.rawErase l sle
  end.

(** ** Acceptance *)

Definition withHashes (h : LedgerHeader) (hash txHash accountHash : list Z) : LedgerHeader :=
  {| h_seq := h_seq h; h_parentCloseTime := h_parentCloseTime h; h_hash := hash; h_txHash := txHash;
     h_accountHash := accountHash; h_parentHash := h_parentHash h; h_drops := h_drops h; h_validated := h_validated h;
     h_accepted := h_accepted h; h_closeFlags := h_closeFlags h; h_closeTimeResolution := h_closeTimeResolution h;
     h_closeTime := h_closeTime h |}.

Definition withClose (h : LedgerHeader) (closeTime resolution flags : Z) : LedgerHeader :=
  {| h_seq := h_seq h; h_parentCloseTime := h_parentCloseTime h; h_hash := h_hash h; h_txHash := h_txHash h;
     h_accountHash := h_accountHash h; h_parentHash := h_parentHash h; h_drops := h_drops h; h_validated := h_validated h;
     h_accepted := h_accepted h; h_closeFlags := flags; h_closeTimeResolution := resolution; h_closeTime := closeTime |}.

Definition withHeader (l : Ledger) (h : LedgerHeader) : Ledger := mkLedger h (txMap_ l) (stateMap_ l).

(** The hash of a tree, as it is in a header *)
Definition mapHash (root : Node) : list Z := beBytes 32 (nodeHash sha512Half root).

(** [setImmutable]: the answer and the ledger *)
Definition setImmutable (valid immutable rehash : bool) (l : Ledger) : bool * Ledger :=
  if negb valid then (false, l)
  else
    let deriveMapHashes := negb immutable && rehash in
    let h := header_ l in
    let h := if deriveMapHashes then withHashes h (h_hash h) (mapHash (txMap_ l)) (mapHash (stateMap_ l)) else h in
    let h := if rehash then withHashes h (calculateLedgerHash (headerHash sha512Half) h) (h_txHash h) (h_accountHash h) else h in
    (true, withHeader l h).

Definition setAccepted (valid : bool) (closeTime closeResolution : Z) (correctCloseTime : bool) (l : Ledger) : bool * Ledger :=
  setImmutable valid false true
    (withHeader l (withClose (header_ l) closeTime closeResolution (if correctCloseTime then 0 else kSLcfNoConsensusTime))).

Definition isSensible (l : Ledger) : bool :=
  let h := header_ l in
  negb (bool_decide (h_hash h = zeroHash)) && negb (bool_decide (h_accountHash h = zeroHash)) &&
  bool_decide (h_accountHash h = mapHash (stateMap_ l)) && bool_decide (h_txHash h = mapHash (txMap_ l)).

(** [OpenView(base)] on a ledger, which is never open *)
Definition accumulate (l : Ledger) : OpenView Ledger := mkOpenView l RawStateTable.empty ∅ false 0.

Definition buildLedgerImpl (fixCleanup valid : bool) (rules : option bool) (parent : Ledger) (closeTime : Z)
    (closeTimeCorrect : bool) (closeResolution : Z) (applyTxs : OpenView Ledger -> Ledger -> Outcome (OpenView Ledger)) : Outcome Ledger :=
  let built := Ledger.nextLedger parent closeTime in
  let? built := if isFlagLedger (h_seq (header_ built)) then updateNegativeUNL rules built else Ret built in
  let? accum := applyTxs (accumulate built) built in
  let? built := OpenView.apply (H0 := Ledger_raw sha512Half fixCleanup) accum built in
  let? built := updateSkipList built in
  let '(accepted, built) := setAccepted valid closeTime closeResolution closeTimeCorrect built in
  if accepted then Ret built else LogicError.
End Members.

(** ** The history of a view *)

Section History.
Context {V : Type} `{ReadView V} (sha512Half : list Z -> Z).

(** [LedgerHashesEntry::hashAt] *)
Definition hashAt (sle : SLE) (diff : Z) : Outcome (option Z) :=
  let? vec := getFieldV256 (sleObject sle) sfHashes in
  let size := Z.of_nat (length vec) in
  if diff <? size then
    match vec !! Z.to_nat (size - diff - 1) with Some h => Ret (Some h) | None => Wild end
  else Ret None.

(** [hashOfSeq]; [diff - 1] of the least integer is undefined. *)
Definition hashOfSeq (ledger : V) (info : LedgerHeader) (seq : Z) : Outcome (option Z) :=
  if h_seq info <? seq then Ret None
  else if seq =? h_seq info then Ret (Some (beValue (h_hash info)))
  else if seq =? u32 (h_seq info - 1) then Ret (Some (beValue (h_parentHash info)))
  else
    let diff := i32 (u32 (h_seq info - seq)) in
    let? near := if diff <=? 256 then
        let? hashIndex := viewRead ledger (keyletSkip sha512Half) in
        match hashIndex with
        | Some sle => if diff =? - 2 ^ 31 then Wild else hashAt sle (u64 (diff - 1))
        | None => Ret None
        end
      else Ret None in
    match near with
    | Some hash => Ret (Some hash)
    | None =>
      if negb (Z.land seq 0xff =? 0) then Ret None
      else
        let? hashIndex := viewRead ledger (keyletSkipOf sha512Half seq) in
        match hashIndex with
        | Some sle =>
          let? lastSeq := getFieldU32 (sleObject sle) sfLastLedgerSequence in
          hashAt sle (Z.shiftr (u32 (lastSeq - seq)) 8)
        | None => Ret None
        end
    end.
End History.
