(* ===== verification/LedgerEntries.v ===== *)
(** * The entries of the ledger's own records

    The entries of the skip list and of the negative UNL as the code makes them: what their
    fields are, what setting them gives, and that they survive being written to the state tree
    and read back. *)
From S2P Require Import Prelude Digits Serializer SerializerFacts SField Formats Number Amounts STTypes NodeID STTypesFacts STObject STObjectFacts STObjectSpec.
From S2P Require Import STAccess STAccessFacts Timing LedgerHeader ShaMap ShaMapFacts ShaMapSpec Views StateTables Directory LedgerView LedgerViewFacts LedgerBuild.

(** The item an entry is written to *)
Definition itemOf (e : SLE) : SHAMapItem :=
  {| item_key := key_ e; item_data := match addObject true (v_ (sleObject e)) [] with Ret b => b | _ => [] end |}.

(** An entry that reads back as it is *)
Definition readsBack (mode : RoundingMode) (e : SLE) : Prop :=
  exists bytes, addObject true (v_ (sleObject e)) [] = Ret bytes /\
    Ledger.makeSLE mode Large330 {| item_key := key_ e; item_data := bytes |} = Ret e.

Lemma readsBack_storable mode universe e : readsBack mode e -> itemOf e ∈ universe -> ledgerStorable mode Large330 universe e.
Proof. intros (bytes & E & Em) Hu. exists bytes. split; [done|]. cbv zeta. split; [done|]. unfold itemOf in Hu. by rewrite E in Hu. Qed.

Lemma wf_readsBack mode e t : wfEntry e t -> Forall (fun b => isPresent b = true -> wfBase 1 b) (v_ (sleObject e)) ->
  List.map settle (v_ (sleObject e)) = v_ (sleObject e) -> readsBack mode e.
Proof.
  intros He Hv Hs. destruct (entry_read_back mode e t He Hv) as (bytes & it' & E & Ep). exists bytes. split; [done|].
  unfold Ledger.makeSLE. cbn [item_key item_data]. rewrite Ep. cbn [fst]. rewrite Hs. destruct e as [k ty [t' v]]. destruct He as (_ & Ht & _).
  cbn in *. by rewrite Ht.
Qed.

(** A field that may be absent *)
Definition slot (f : SField) (v : option STTypes.Leaf) : STBase := match v with Some v => STLeaf f v | None => STNotPresent f end.

Lemma slot_wf f v : known f -> (forall x, v = Some x -> leafSType x = fieldType f /\ wireLeaf x) ->
  isPresent (slot f v) = true -> wfBase 1 (slot f v).
Proof. intros Hf Hv. destruct v as [x|]; [|done]. intros _. destruct (Hv x eq_refl). by apply wf_leaf. Qed.

Lemma slot_fits e f v : el_sField e = f -> el_style e = SoeOptional -> slotFits e (slot f v).
Proof. intros Hf Hs. destruct v; split_and!; cbn; congruence. Qed.

Lemma slot_settle f v : settle (slot f v) = slot f v.
Proof. by destruct v. Qed.

Ltac is_known := apply known_check; vm_compute; reflexivity.
Ltac slots_fit := unfold fits; repeat (constructor; [first [by apply slot_fits|split; [reflexivity|split; intros; discriminate]]|]); constructor.

(** ** The skip list *)

Definition hashesTemplate : SOTemplate := Eval vm_compute in default [] (findByType LedgerFormats ltLEDGER_HASHES).

Definition hashesEntry (key : Z) (first : option Z) (hashes : list Z) (last : option Z) : SLE :=
  mkSLE key ltLEDGER_HASHES (mkObject (Some hashesTemplate)
    [slot sfFirstLedgerSequence (LUInt32 <$> first); slot sfLastLedgerSequence (LUInt32 <$> last); STLeaf sfHashes (LVector256 hashes);
     STNotPresent sfLedgerIndex; STLeaf sfLedgerEntryType (LUInt16 ltLEDGER_HASHES); STLeaf sfFlags (LUInt32 0); STNotPresent sfSponsor]).

Lemma hashes_new key : newSLE key ltLEDGER_HASHES = Ret (hashesEntry key None [] None).
Proof. vm_compute. reflexivity. Qed.

Lemma hashes_get key first hashes last : getFieldV256 (sleObject (hashesEntry key first hashes last)) sfHashes = Ret hashes.
Proof. by destruct first, last. Qed.

Lemma hashes_last key first hashes last : getFieldU32 (sleObject (hashesEntry key first hashes last)) sfLastLedgerSequence = Ret (default 0 last).
Proof. by destruct first, last. Qed.

Lemma hashes_set key first hashes last l : setV256 sfHashes l (hashesEntry key first hashes last) = Ret (hashesEntry key first l last).
Proof. destruct first, last; reflexivity. Qed.

Lemma hashes_setLast key first hashes last n :
  setLeaf sfLastLedgerSequence (LUInt32 n) (hashesEntry key first hashes last) = Ret (hashesEntry key first hashes (Some n)).
Proof. destruct first, last; reflexivity. Qed.

Lemma hashes_readsBack mode key first hashes last : (forall n, first = Some n \/ last = Some n -> 0 <= n < 2 ^ 32) ->
  wireVector hashes -> readsBack mode (hashesEntry key first hashes last).
Proof.
  intros Hn Hh. assert (findByType LedgerFormats ltLEDGER_HASHES = Some hashesTemplate) as Ht by (vm_compute; reflexivity).
  assert (forall o x, LUInt32 <$> o = Some x -> (forall n, o = Some n -> 0 <= n < 2 ^ 32) -> leafSType x = STI_UINT32 /\ wireLeaf x) as Ho.
  { intros [n|]; [|done]. intros ? [= <-] Hr. split; [done|]. by apply Hr. }
  apply (wf_readsBack mode _ hashesTemplate).
  - split; [exact Ht|]. split; [done|]. split; [|by destruct first, last].
    cbn [v_ sleObject hashesEntry]. slots_fit.
  - cbn [v_ sleObject hashesEntry]. repeat apply Forall_cons_2; [..|constructor].
    + apply slot_wf; [is_known|]. intros x Hx. apply (Ho _ _ Hx). intros n ->. apply Hn. by left.
    + apply slot_wf; [is_known|]. intros x Hx. apply (Ho _ _ Hx). intros n ->. apply Hn. by right.
    + intros _. apply wf_leaf; [lia|is_known|done|done].
    + done.
    + intros _. apply wf_leaf; [lia|is_known|done|by split].
    + intros _. apply wf_leaf; [lia|is_known|done|by split].
    + done.
  - cbn [v_ sleObject hashesEntry List.map]. by rewrite !slot_settle.
Qed.

(** ** The negative UNL *)

Definition disabledTemplate : SOTemplate := Eval vm_compute in default [] (findSOTemplateBySField sfDisabledValidator).
Definition unlTemplate : SOTemplate := Eval vm_compute in default [] (findByType LedgerFormats ltNEGATIVE_UNL).

(** The validators on the list with the ledger since when, the two of the next change, and the
    transaction that last changed the entry *)
Record NegUNL := mkNegUNL {
  nu_disabled : list (list Z * Z); nu_toDisable : option (list Z); nu_toReEnable : option (list Z); nu_txn : option Z; nu_lgr : option Z
}.

Definition noUNL : NegUNL := mkNegUNL [] None None None None.

Definition disabledEntry (x : list Z * Z) : STBase :=
  STObj sfDisabledValidator (Some disabledTemplate) [STLeaf sfPublicKey (LBlob x.1); STLeaf sfFirstLedgerSequence (LUInt32 x.2)].

Definition disabledSlot (l : list (list Z * Z)) : STBase :=
  match l with [] => STNotPresent sfDisabledValidators | _ => STArr sfDisabledValidators (disabledEntry <$> l) end.

Definition unlEntry (key : Z) (u : NegUNL) : SLE :=
  mkSLE key ltNEGATIVE_UNL (mkObject (Some unlTemplate)
    [disabledSlot (nu_disabled u); slot sfValidatorToDisable (LBlob <$> nu_toDisable u); slot sfValidatorToReEnable (LBlob <$> nu_toReEnable u);
     slot sfPreviousTxnID (LUInt256 <$> nu_txn u); slot sfPreviousTxnLgrSeq (LUInt32 <$> nu_lgr u);
     STNotPresent sfLedgerIndex; STLeaf sfLedgerEntryType (LUInt16 ltNEGATIVE_UNL); STLeaf sfFlags (LUInt32 0); STNotPresent sfSponsor]).

Lemma unl_new key : newSLE key ltNEGATIVE_UNL = Ret (unlEntry key noUNL).
Proof. vm_compute. reflexivity. Qed.

Lemma disabled_made rules key seq : rules <> Some false -> disabledValidator rules key seq = Ret (disabledEntry (key, seq)).
Proof. destruct rules as [[]|]; [|done|]; intros _; vm_compute; reflexivity. Qed.

Ltac unl_cases u := destruct u as [[|? ?] [?|] [?|] [?|] [?|]]; reflexivity.

Lemma unl_hasDisabled key u : isFieldPresent (sleObject (unlEntry key u)) sfDisabledValidators = Ret (negb (bool_decide (nu_disabled u = []))).
Proof. unl_cases u. Qed.
Lemma unl_hasToDisable key u : isFieldPresent (sleObject (unlEntry key u)) sfValidatorToDisable = Ret (bool_decide (is_Some (nu_toDisable u))).
Proof. unl_cases u. Qed.
Lemma unl_hasToReEnable key u : isFieldPresent (sleObject (unlEntry key u)) sfValidatorToReEnable = Ret (bool_decide (is_Some (nu_toReEnable u))).
Proof. unl_cases u. Qed.
Lemma unl_toDisable key u : getFieldVL (sleObject (unlEntry key u)) sfValidatorToDisable = Ret (default [] (nu_toDisable u)).
Proof. unl_cases u. Qed.
Lemma unl_toReEnable key u : getFieldVL (sleObject (unlEntry key u)) sfValidatorToReEnable = Ret (default [] (nu_toReEnable u)).
Proof. unl_cases u. Qed.
Lemma unl_disabled key u : getFieldArray (sleObject (unlEntry key u)) sfDisabledValidators = Ret (disabledEntry <$> nu_disabled u).
Proof. unl_cases u. Qed.

Definition withDisabled (u : NegUNL) (l : list (list Z * Z)) : NegUNL := mkNegUNL l (nu_toDisable u) (nu_toReEnable u) (nu_txn u) (nu_lgr u).
Definition withToDisable (u : NegUNL) (k : option (list Z)) : NegUNL := mkNegUNL (nu_disabled u) k (nu_toReEnable u) (nu_txn u) (nu_lgr u).
Definition withToReEnable (u : NegUNL) (k : option (list Z)) : NegUNL := mkNegUNL (nu_disabled u) (nu_toDisable u) k (nu_txn u) (nu_lgr u).

Lemma unl_setDisabled key u l : l <> [] ->
  setFieldArray (sleObject (unlEntry key u)) sfDisabledValidators (disabledEntry <$> l) = Ret (sleObject (unlEntry key (withDisabled u l))).
Proof. destruct l as [|x l]; [done|]. intros _. unl_cases u. Qed.
Lemma unl_dropToDisable key u :
  makeFieldAbsent (sleObject (unlEntry key u)) sfValidatorToDisable = Ret (sleObject (unlEntry key (withToDisable u None))).
Proof. unl_cases u. Qed.
Lemma unl_dropToReEnable key u :
  makeFieldAbsent (sleObject (unlEntry key u)) sfValidatorToReEnable = Ret (sleObject (unlEntry key (withToReEnable u None))).
Proof. unl_cases u. Qed.
Lemma unl_setToDisable key u k :
  setFieldLeaf (sleObject (unlEntry key u)) sfValidatorToDisable (LBlob k) = Ret (sleObject (unlEntry key (withToDisable u (Some k)))).
Proof. unl_cases u. Qed.
Lemma unl_setToReEnable key u k :
  setFieldLeaf (sleObject (unlEntry key u)) sfValidatorToReEnable (LBlob k) = Ret (sleObject (unlEntry key (withToReEnable u (Some k)))).
Proof. unl_cases u. Qed.

Lemma disabled_keys l : disabledKeys (disabledEntry <$> l) = Ret (filter (fun k => isPublicKey k = true) l.*1).
Proof.
  induction l as [|[k n] l IH]; [done|]. rewrite !fmap_cons, filter_cons. cbn [disabledKeys innerObject disabledEntry obind fst].
  change (isFieldPresent _ sfPublicKey) with (Ret true). cbn [obind]. change (getFieldVL _ sfPublicKey) with (Ret k). cbn [obind]. rewrite IH. cbn [obind].
  by destruct (isPublicKey k).
Qed.

(** What stays of the list *)
Definition staysDisabled (toReEnable : option (list Z)) (l : list (list Z * Z)) : list (list Z * Z) := filter (fun x => Some x.1 <> toReEnable) l.

Lemma still_disabled key u l :
  stillDisabled (bool_decide (is_Some (nu_toReEnable u))) (unlEntry key u) (disabledEntry <$> l) = Ret (disabledEntry <$> staysDisabled (nu_toReEnable u) l).
Proof.
  induction l as [|[k n] l IH]; [done|]. rewrite fmap_cons. cbn [stillDisabled innerObject disabledEntry obind]. unfold staysDisabled in *. rewrite filter_cons.
  destruct (nu_toReEnable u) as [r|] eqn:Er.
  - rewrite bool_decide_eq_true_2 in * by done. change (isFieldPresent _ sfPublicKey) with (Ret true). cbn [obind].
    change (getFieldVL (mkObject _ _) sfPublicKey) with (Ret k). cbn [obind]. rewrite unl_toReEnable, Er. cbn [obind default from_option]. rewrite IH. cbn [obind fst].
    destruct (decide (k = r)) as [->|Hk]; [rewrite bool_decide_eq_true_2, decide_False by naive_solver|rewrite bool_decide_eq_false_2, decide_True by naive_solver]; done.
  - rewrite bool_decide_eq_false_2 in * by (by intros []). cbn [obind]. rewrite IH. cbn [obind fst]. by rewrite decide_True.
Qed.

(** Well-formed: the values fit their fields. *)
Definition unlOk (u : NegUNL) : Prop :=
  Forall (fun x => shortString x.1 /\ 0 <= x.2 < 2 ^ 32) (nu_disabled u) /\
  (forall k, nu_toDisable u = Some k \/ nu_toReEnable u = Some k -> shortString k) /\
  (forall x, nu_txn u = Some x -> 0 <= x < 2 ^ 256) /\ (forall x, nu_lgr u = Some x -> 0 <= x < 2 ^ 32).

Lemma disabled_settle l : settle (disabledSlot l) = disabledSlot l.
Proof. destruct l as [|x l]; [done|]. cbn [disabledSlot settle]. f_equal. rewrite <-(map_id (disabledEntry <$> _)) at 2. apply map_ext_in. intros b Hb. apply list_elem_of_In, list_elem_of_fmap in Hb as (y & -> & _). reflexivity. Qed.

Lemma disabled_wf x : shortString x.1 -> 0 <= x.2 < 2 ^ 32 -> wfBase 2 (disabledEntry x).
Proof.
  intros Hk Hn. apply wf_templated; [lia|split; [is_known|by split]|vm_compute; reflexivity|..].
  - repeat apply Forall_cons_2; [..|constructor]; intros _; (apply wf_leaf; [lia|is_known|done|done]).
  - slots_fit.
Qed.

Lemma unl_readsBack mode key u : unlOk u -> readsBack mode (unlEntry key u).
Proof.
  intros (Hd & Hk & Htx & Hl). assert (findByType LedgerFormats ltNEGATIVE_UNL = Some unlTemplate) as Ht by (vm_compute; reflexivity).
  apply (wf_readsBack mode _ unlTemplate).
  - split; [exact Ht|]. split; [done|]. split; [|by unl_cases u].
    cbn [v_ sleObject unlEntry]. constructor; [destruct (nu_disabled u); split; [reflexivity|split; intros; discriminate|reflexivity|split; intros; discriminate]|slots_fit].
  - cbn [v_ sleObject unlEntry]. repeat apply Forall_cons_2; [..|constructor].
    + destruct (nu_disabled u) as [|x l] eqn:El; [done|]. intros _. apply wf_array; [lia|split; [is_known|by split]|..].
      * apply Forall_fmap. eapply Forall_impl; [exact Hd|]. intros y [Hy1 Hy2]. by apply disabled_wf.
      * apply Forall_fmap, Forall_forall. done.
    + apply slot_wf; [is_known|]. destruct (nu_toDisable u) as [k|]; [|done]. intros ? [= <-]. split; [done|]. apply Hk. by left.
    + apply slot_wf; [is_known|]. destruct (nu_toReEnable u) as [k|]; [|done]. intros ? [= <-]. split; [done|]. apply Hk. by right.
    + apply slot_wf; [is_known|]. destruct (nu_txn u) as [k|]; [|done]. intros ? [= <-]. split; [done|]. by apply Htx.
    + apply slot_wf; [is_known|]. destruct (nu_lgr u) as [k|]; [|done]. intros ? [= <-]. split; [done|]. by apply Hl.
    + done.
    + intros _. apply wf_leaf; [lia|is_known|done|by split].
    + intros _. apply wf_leaf; [lia|is_known|done|by split].
    + done.
  - cbn [v_ sleObject unlEntry List.map]. by rewrite !slot_settle, disabled_settle.
Qed.
