(* ===== verification/LedgerBuildFacts.v ===== *)
(** * Building ledgers: the steps

    What [updateSkipList] and [updateNegativeUNL] do to the entries of a ledger. *)
From S2P Require Import Prelude Digits Serializer SField Formats Number Amounts STTypes NodeID STTypesFacts STObject STAccess Timing LedgerHeader.
From S2P Require Import ShaMap ShaMapFacts ShaMapSpec Views StateTables StateTablesFacts ApplyViewFacts ViewSpec Directory LedgerView LedgerViewFacts ViewClaims LedgerBuild LedgerEntries.

(** ** Records *)

(** A record of the skip list, and the negative UNL, where there is one *)
Record SkipRecord := mkSkip { sk_first : option Z; sk_hashes : list Z; sk_last : Z }.

Definition skipEntry (key : Z) (r : SkipRecord) : SLE := hashesEntry key (sk_first r) (sk_hashes r) (Some (sk_last r)).

Definition skipAt (m : gmap Z SLE) (k : Keylet) (r : option SkipRecord) : Prop := m !! kl_key k = skipEntry (kl_key k) <$> r.
Definition unlAt (m : gmap Z SLE) (k : Keylet) (u : option NegUNL) : Prop := m !! kl_key k = unlEntry (kl_key k) <$> u.

(** A hash is added to a record. *)
Definition pushRecord (bounded : bool) (h last : Z) (r : option SkipRecord) : SkipRecord :=
  let hashes := match r with Some r => sk_hashes r | None => [] end in
  mkSkip (r ≫= sk_first) ((if bounded && (length hashes =? 256)%nat then tail hashes else hashes) ++ [h]) last.

(** The changes of a flag ledger; [None] when the entry is erased *)
Definition unlStep (seq : Z) (u : NegUNL) : option NegUNL :=
  match nu_toDisable u, nu_toReEnable u with
  | None, None => Some u
  | d, r =>
    let l := staysDisabled r (nu_disabled u) ++ match d with Some k => [(k, seq)] | None => [] end in
    if bool_decide (l = []) then None else Some (mkNegUNL l None None (nu_txn u) (nu_lgr u))
  end.

Definition skipOk (r : SkipRecord) : Prop :=
  (forall n, sk_first r = Some n -> 0 <= n < 2 ^ 32) /\ 0 <= sk_last r < 2 ^ 32 /\ wireVector (sk_hashes r).

Section Steps.
Context (sha512Half : list Z -> Z) (mode : RoundingMode) (fixCleanup : bool).
Context (universe : list SHAMapItem) (differ : leavesDiffer sha512Half TnAccountState universe).

Abbreviation ok := (ledgerOk mode Large330 universe).
Abbreviation map := (ledgerMap mode Large330).

Lemma peek_map l k : ok l -> isKey (kl_key k) -> peekSLE mode Large330 l k = Ret (map l !! kl_key k ≫= checked k).
Proof.
  intros Hok Hk. unfold peekSLE. pose proof (ledger_lookup mode Large330 universe l (kl_key k) Hok) as Hl.
  rewrite (peek_contents mode Large330 universe l _ Hok Hk). cbn [Ledger.lift obind].
  destruct (contents (stateMap_ l) !! kl_key k) as [x|]; [|by rewrite Hl].
  destruct Hl as (_ & _ & _ & e & -> & ->). cbn. unfold checked. by destruct (keyletCheck k e).
Qed.

(** One entry is written, or erased. *)
Lemma write_entry l (e : SLE) : ok l -> isKey (key_ e) -> key_ e <> 0 -> readsBack mode e -> itemOf e ∈ universe ->
  exists l', (if bool_decide (map l !! key_ e = None) then Ledger.rawInsert l e else Ledger.rawReplace sha512Half l e) = Ret l' /\
    ok l' /\ map l' = <[key_ e := e]> (map l) /\ header_ l' = header_ l /\ txMap_ l' = txMap_ l.
Proof.
  intros Hok Hk Hz Hr Hu. pose proof (readsBack_storable _ _ _ Hr Hu) as Hs. pose (LR := Ledger_rawLaws sha512Half mode Large330 fixCleanup universe differ).
  destruct (map l !! key_ e) as [x|] eqn:E.
  - rewrite bool_decide_eq_false_2 by done. destruct (raw_replace (RawLaws := LR) l e Hok ltac:(by exists x) Hs) as (l' & E' & Hok' & Em).
    exists l'. split; [done|]. split; [done|]. split; [done|].
    pose proof (ledger_kept sha512Half fixCleanup l e l' ltac:(right; right; exact E')) as [= ? ?]. done.
  - rewrite bool_decide_eq_true_2 by done. destruct (raw_insert (RawLaws := LR) l e Hok Hk Hz E Hs) as (l' & E' & Hok' & Em).
    exists l'. split; [done|]. split; [done|]. split; [done|].
    pose proof (ledger_kept sha512Half fixCleanup l e l' ltac:(right; left; exact E')) as [= ? ?]. done.
Qed.

Lemma erase_entry l (e : SLE) : ok l -> is_Some (map l !! key_ e) ->
  exists l', Ledger.rawErase l e = Ret l' /\ ok l' /\ map l' = delete (key_ e) (map l) /\ header_ l' = header_ l /\ txMap_ l' = txMap_ l.
Proof.
  intros Hok Hs. pose (LR := Ledger_rawLaws sha512Half mode Large330 fixCleanup universe differ).
  destruct (raw_erase (RawLaws := LR) l e Hok Hs) as (l' & E' & Hok' & Em). exists l'. split; [done|]. split; [done|]. split; [done|].
  pose proof (ledger_kept sha512Half fixCleanup l e l' ltac:(left; exact E')) as [= ? ?]. done.
Qed.

Lemma checked_typed (k : Keylet) (e : SLE) : kl_type k <> ltANY -> kl_type k <> ltCHILD -> sleType e = kl_type k -> key_ e = kl_key k -> checked k e = Some e.
Proof.
  intros H1 H2 H3 H4. unfold checked, keyletCheck. rewrite H3, H4, !Z.eqb_refl. apply Z.eqb_neq in H1 as ->. by apply Z.eqb_neq in H2 as ->.
Qed.

(** ** The skip list *)

Lemma pushHash_spec l k bounded prev r :
  let h := beValue (h_parentHash (header_ l)) in
  let r' := pushRecord bounded h prev r in
  kl_type k = ltLEDGER_HASHES -> isKey (kl_key k) -> kl_key k <> 0 -> ok l -> skipAt (map l) k r -> skipOk r' -> itemOf (skipEntry (kl_key k) r') ∈ universe ->
  exists l', pushHash sha512Half mode Large330 l k bounded prev = Ret l' /\ ok l' /\ map l' = <[kl_key k := skipEntry (kl_key k) r']> (map l) /\
    header_ l' = header_ l /\ txMap_ l' = txMap_ l.
Proof.
  intros h r' Ht Hk Hz Hok Hat (Hf & Hl & Hv) Hu. unfold pushHash. rewrite (peek_map l k Hok Hk). unfold skipAt in Hat. rewrite Hat.
  assert (readsBack mode (skipEntry (kl_key k) r')) as Hr.
  { apply hashes_readsBack; [|done]. intros n [Hn|[= <-]]; [by apply Hf|done]. }
  destruct (write_entry l (skipEntry (kl_key k) r') Hok Hk Hz Hr Hu) as (l' & E & H). exists l'. split; [|exact H]. change (key_ (skipEntry (kl_key k) r')) with (kl_key k) in E.
  rewrite Hat in E. destruct r as [r|]; cbn [fmap option_fmap option_map mbind option_bind].
  - rewrite bool_decide_eq_false_2 in E by done. rewrite checked_typed by (done || by rewrite Ht). unfold skipEntry. cbn [obind]. rewrite hashes_get. cbn [obind]. rewrite hashes_set. cbn [obind]. by rewrite hashes_setLast.
  - rewrite bool_decide_eq_true_2 in E by done. cbn [obind]. rewrite Ht, hashes_new. cbn [obind]. rewrite hashes_set. cbn [obind]. by rewrite hashes_setLast.
Qed.
(** The records that [updateSkipList] writes *)
Definition flagRecord (l : Ledger) (r : option SkipRecord) : option SkipRecord :=
  let prev := h_seq (header_ l) - 1 in
  if prev mod 256 =? 0 then Some (pushRecord false (beValue (h_parentHash (header_ l))) prev r) else r.
Definition nearRecord (l : Ledger) (r : option SkipRecord) : SkipRecord :=
  pushRecord true (beValue (h_parentHash (header_ l))) (h_seq (header_ l) - 1) r.

Abbreviation nearKey := (keyletSkip sha512Half).
Abbreviation flagKey := (keyletSkipOf sha512Half).

(** A record that is written is in the universe. *)
Definition recordIn (k : Keylet) (r : SkipRecord) : Prop := skipOk r /\ itemOf (skipEntry (kl_key k) r) ∈ universe.

Lemma land_255 x : Z.land x 0xff = x mod 256.
Proof. change 0xff with (Z.ones 8). by rewrite Z.land_ones. Qed.

Lemma updateSkipList_spec l near far :
  let prev := h_seq (header_ l) - 1 in
  0 < h_seq (header_ l) < 2 ^ 32 -> ok l -> isKey (kl_key nearKey) -> kl_key nearKey <> 0 ->
  isKey (kl_key (flagKey prev)) -> kl_key (flagKey prev) <> 0 -> kl_key (flagKey prev) <> kl_key nearKey ->
  skipAt (map l) nearKey near -> skipAt (map l) (flagKey prev) far ->
  recordIn nearKey (nearRecord l near) -> (prev mod 256 = 0 -> forall r, flagRecord l far = Some r -> recordIn (flagKey prev) r) ->
  exists l', updateSkipList sha512Half mode Large330 l = Ret l' /\ ok l' /\ header_ l' = header_ l /\ txMap_ l' = txMap_ l /\
    map l' = <[kl_key nearKey := skipEntry (kl_key nearKey) (nearRecord l near)]>
      (if prev mod 256 =? 0 then partial_alter (fun _ => skipEntry (kl_key (flagKey prev)) <$> flagRecord l far) (kl_key (flagKey prev)) (map l) else map l).
Proof.
  intros prev Hseq Hok Hk1 Hz1 Hk2 Hz2 Hne Hnear Hfar [Hn Hnu] Hf. unfold updateSkipList. destruct (Z.eqb_spec (h_seq (header_ l)) 0); [lia|].
  fold prev. rewrite (u32_id prev), land_255 by lia.
  assert (exists l1, (if prev mod 256 =? 0 then pushHash sha512Half mode Large330 l (flagKey prev) false prev else Ret l) = Ret l1 /\ ok l1 /\
    map l1 = (if prev mod 256 =? 0 then partial_alter (fun _ => skipEntry (kl_key (flagKey prev)) <$> flagRecord l far) (kl_key (flagKey prev)) (map l) else map l) /\
    header_ l1 = header_ l /\ txMap_ l1 = txMap_ l) as (l1 & E1 & Hok1 & Em1 & Hh1 & Ht1).
  { unfold flagRecord in *. fold prev in Hf. fold prev. destruct (Z.eqb_spec (prev mod 256) 0) as [E|E]; [|by exists l]. destruct (Hf E _ eq_refl) as [Hs Hu].
    destruct (pushHash_spec l (flagKey prev) false prev far eq_refl Hk2 Hz2 Hok Hfar Hs Hu) as (l1 & E1 & H1 & H2 & H3). exists l1. by split_and!; try apply H3. }
  rewrite E1. cbn [obind]. assert (skipAt (map l1) nearKey near) as Hnear1.
  { unfold skipAt. rewrite Em1. destruct (prev mod 256 =? 0); [|done]. by rewrite lookup_partial_alter_ne. }
  destruct (pushHash_spec l1 nearKey true prev near) as (l2 & E2 & Hok2 & Em2 & Hh2 & Ht2); rewrite ?Hh1; try done.
  exists l2. split; [done|]. split; [done|]. split; [congruence|]. split; [congruence|]. rewrite Em2, Em1, Hh1. done.
Qed.

(** ** The negative UNL *)

Abbreviation unlKey := (keyletNegativeUNL sha512Half).

(** The list of the next flag ledger *)
Definition unlList (seq : Z) (u : NegUNL) : list (list Z * Z) :=
  staysDisabled (nu_toReEnable u) (nu_disabled u) ++ match nu_toDisable u with Some k => [(k, seq)] | None => [] end.

Lemma unl_stays key u :
  (if negb (bool_decide (nu_disabled u = [])) then
     let? oldNUnl := getFieldArray (sleObject (unlEntry key u)) sfDisabledValidators in
     stillDisabled (bool_decide (is_Some (nu_toReEnable u))) (unlEntry key u) oldNUnl
   else Ret []) = Ret (disabledEntry <$> staysDisabled (nu_toReEnable u) (nu_disabled u)).
Proof. rewrite unl_disabled. cbn [obind]. rewrite still_disabled. by destruct (nu_disabled u). Qed.

Lemma unl_added key u rules seq stays : rules <> Some false ->
  (if bool_decide (is_Some (nu_toDisable u)) then
     let? k := getFieldVL (sleObject (unlEntry key u)) sfValidatorToDisable in
     let? b := disabledValidator rules k seq in Ret ((disabledEntry <$> stays) ++ [b])
   else Ret (disabledEntry <$> stays)) =
  Ret (disabledEntry <$> (stays ++ match nu_toDisable u with Some k => [(k, seq)] | None => [] end)).
Proof. intros Hr. rewrite unl_toDisable. cbn [obind]. rewrite disabled_made by done. destruct (nu_toDisable u); cbn; by rewrite fmap_app, ?app_nil_r. Qed.

Lemma unl_cleared key u l : l <> [] ->
  (let? o := setFieldArray (sleObject (unlEntry key u)) sfDisabledValidators (disabledEntry <$> l) in
   let? o := if bool_decide (is_Some (nu_toReEnable u)) then makeFieldAbsent o sfValidatorToReEnable else Ret o in
   if bool_decide (is_Some (nu_toDisable u)) then makeFieldAbsent o sfValidatorToDisable else Ret o) =
  Ret (sleObject (unlEntry key (mkNegUNL l None None (nu_txn u) (nu_lgr u)))).
Proof.
  intros Hl. rewrite unl_setDisabled by done. cbn [obind]. rewrite unl_dropToReEnable.
  destruct u as [d [td|] [tr|] ? ?]; cbn [nu_toDisable nu_toReEnable]; rewrite ?unl_dropToDisable; cbn [bool_decide obind]; by rewrite ?unl_dropToDisable.
Qed.

Lemma unlStep_list seq u : bool_decide (is_Some (nu_toDisable u)) || bool_decide (is_Some (nu_toReEnable u)) = true ->
  unlStep seq u = if bool_decide (unlList seq u = []) then None else Some (mkNegUNL (unlList seq u) None None (nu_txn u) (nu_lgr u)).
Proof. unfold unlStep, unlList. by destruct (nu_toDisable u), (nu_toReEnable u). Qed.

Lemma unlStep_idle seq u : bool_decide (is_Some (nu_toDisable u)) || bool_decide (is_Some (nu_toReEnable u)) = false -> unlStep seq u = Some u.
Proof. unfold unlStep. by destruct (nu_toDisable u), (nu_toReEnable u). Qed.

Lemma obind_assoc {A B C} (x : Outcome A) (f : A -> Outcome B) (g : B -> Outcome C) : obind (obind x f) g = obind x (fun a => obind (f a) g).
Proof. by destruct x. Qed.

Lemma updateNegativeUNL_spec rules l u :
  rules <> Some false -> ok l -> isKey (kl_key unlKey) -> kl_key unlKey <> 0 -> 0 <= h_seq (header_ l) < 2 ^ 32 -> unlAt (map l) unlKey u ->
  (forall x y, u = Some x -> unlStep (h_seq (header_ l)) x = Some y -> y <> x -> unlOk y /\ itemOf (unlEntry (kl_key unlKey) y) ∈ universe) ->
  exists l', updateNegativeUNL sha512Half mode Large330 rules l = Ret l' /\ ok l' /\ header_ l' = header_ l /\ txMap_ l' = txMap_ l /\
    map l' = partial_alter (fun _ => unlEntry (kl_key unlKey) <$> (u ≫= unlStep (h_seq (header_ l)))) (kl_key unlKey) (map l).
Proof.
  intros Hrules Hok Hk Hz Hseq Hat Hin. unfold updateNegativeUNL. rewrite (peek_map l unlKey Hok Hk). unfold unlAt in Hat. rewrite Hat.
  assert (forall v, map l !! kl_key unlKey = v -> map l = partial_alter (fun _ => v) (kl_key unlKey) (map l)) as Hsame.
  { intros v <-. symmetry. apply partial_alter_self. }
  destruct u as [u|]; cbn [fmap option_fmap option_map mbind option_bind obind]; [|exists l; auto 10].
  rewrite checked_typed by done. cbn [obind]. rewrite unl_hasToDisable, unl_hasToReEnable. cbn [obind].
  destruct (bool_decide (is_Some (nu_toDisable u)) || bool_decide (is_Some (nu_toReEnable u))) eqn:Eany; rewrite <-negb_orb, Eany; cbn [negb].
  2:{ exists l. split_and!; try done. apply Hsame. by rewrite Hat, (unlStep_idle _ _ Eany). }
  pose proof (unlStep_list (h_seq (header_ l)) u Eany) as Estep. rewrite unl_hasDisabled. cbn [obind]. rewrite unl_stays. cbn [obind].
  rewrite unl_added by done. cbn [obind]. change (staysDisabled _ _ ++ _) with (unlList (h_seq (header_ l)) u).
  destruct (unlList (h_seq (header_ l)) u) as [|x ys] eqn:Ex.
  - cbn. rewrite Estep. destruct (erase_entry l (unlEntry (kl_key unlKey) u) Hok) as (l' & E & H1 & H2 & H3 & H4); [unfold unlEntry; cbn [key_]; by rewrite Hat|]. by exists l'.
  - rewrite (bool_decide_eq_false_2 (disabledEntry <$> x :: ys = [])) by done. cbn [negb]. rewrite <-!obind_assoc. rewrite bool_decide_eq_false_2 in Estep by done.
    pose proof (unl_cleared (kl_key unlKey) u (x :: ys) ltac:(done)) as Ec. rewrite <-obind_assoc in Ec. rewrite Ec. cbn [obind]. rewrite Estep.
    set (u2 := mkNegUNL (x :: ys) None None (nu_txn u) (nu_lgr u)) in *.
    destruct (Hin u u2 eq_refl Estep) as [Hu Hit]. { intros E. rewrite <-E in Eany. done. }
    destruct (write_entry l (unlEntry (kl_key unlKey) u2) Hok Hk Hz (unl_readsBack mode _ _ Hu) Hit) as (l' & E & H1 & H2 & H3 & H4).
    cbn [key_ unlEntry] in E. rewrite Hat, bool_decide_eq_false_2 in E by done. exists l'. by split_and!.
Qed.
(** ** Transactions *)

(** The item of a transaction in the tree *)
Definition txItem (key : Z) (x : list Z * option (list Z)) : SHAMapItem :=
  {| item_key := key; item_data := match x.2 with Some meta => match Ledger.txData x.1 meta with Ret d => d | _ => [] end | None => [] end |}.

Definition txOk (key : Z) (x : list Z * option (list Z)) : Prop :=
  isKey key /\ exists meta data, x.2 = Some meta /\ Ledger.txData x.1 meta = Ret data.

Lemma applyTxs_spec txs : forall l, NoDup txs.*1 -> Forall (fun p => txOk p.1 p.2 /\ contents (txMap_ l) !! p.1 = None) txs -> wfRoot TnTransactionMd (txMap_ l) ->
  exists l', OpenView.applyTxs txs l = Ret l' /\ header_ l' = header_ l /\ stateMap_ l' = stateMap_ l /\ wfRoot TnTransactionMd (txMap_ l') /\
    contents (txMap_ l') = list_to_map ((fun p => (p.1, txItem p.1 p.2)) <$> txs) ∪ contents (txMap_ l).
Proof.
  induction txs as [|[k [txn meta]] txs IH]; intros l Hd Htx Hw; [exists l; split_and!; try done; symmetry; apply map_empty_union|].
  apply NoDup_cons in Hd as [Hk Hd]. apply Forall_cons in Htx as [([Hkey (m & d & Hm & Ed)] & Hn) Htx]. cbn in Hm, Hn, Hkey. subst meta.
  destruct (ledger_tx l k txn m d Hw Hkey Hn Ed) as (root & E & Hw' & Ec). cbn [OpenView.applyTxs]. change (rawTxInsert l k txn (Some m)) with (Ledger.rawTxInsert l k txn (Some m)).
  rewrite E. cbn [obind]. destruct (IH (mkLedger (header_ l) root (stateMap_ l)) Hd) as (l' & E' & H1 & H2 & H3 & H4).
  - apply Forall_forall. intros p Hp. rewrite Forall_forall in Htx. destruct (Htx p Hp) as [Ho Hno]. split; [done|]. cbn [txMap_]. rewrite Ec.
    rewrite lookup_insert_ne; [done|]. intros ->. apply Hk. cbn [fst]. by apply list_elem_of_fmap_2.
  - done.
  - exists l'. split_and!; try done. rewrite H4. cbn [txMap_ fmap list_fmap list_to_map fst]. rewrite Ec. unfold txItem at 2. cbn [fst snd]. cbn [fst snd] in Ed. rewrite Ed.
    rewrite list_to_map_cons, <-insert_union_l. symmetry. apply insert_union_r. apply not_elem_of_list_to_map_1. rewrite <-list_fmap_compose. done.
Qed.
(** ** Building *)

Abbreviation openLaws := (OpenView_laws (H0 := Ledger_laws mode Large330 universe) (ledgerStorable mode Large330 universe)).

(** The effect of the transactions of a ledger: the entries after them, the drops destroyed and
    the transactions with their metadata *)
Record Effect := mkEffect { ef_map : gmap Z SLE; ef_fee : Z; ef_txs : gmap Z (list Z * option (list Z)) }.

(** On a ledger with this header and these entries the transactions leave an open view with the effect. *)
Definition hasEffect (applyTxs : OpenView Ledger -> Ledger -> Outcome (OpenView Ledger)) (h : LedgerHeader) (m : gmap Z SLE) (ef : Effect) : Prop :=
  forall b, ok b -> header_ b = h -> map b = m ->
  exists o, applyTxs (accumulate b) b = Ret o /\ ov_base o = b /\ viewOk (ReadLaws := openLaws) o /\ viewMap (ReadLaws := openLaws) o = ef_map ef /\
    RawStateTable.dropsDestroyed_ (ov_items o) = ef_fee ef /\ ov_txs o = ef_txs ef.

Definition txContents (txs : gmap Z (list Z * option (list Z))) : gmap Z SHAMapItem := map_imap (fun k x => Some (txItem k x)) txs.

Lemma sortedEntries_NoDup {A} (m : gmap Z A) : NoDup (sortedEntries m).*1.
Proof. rewrite sortedEntries_perm. apply NoDup_fst_map_to_list. Qed.

Lemma txContents_list txs : (list_to_map ((fun p => (p.1, txItem p.1 p.2)) <$> sortedEntries txs) : gmap Z SHAMapItem) = txContents txs.
Proof.
  apply map_eq. intros k. unfold txContents. rewrite map_lookup_imap. destruct (txs !! k) as [x|] eqn:E; cbn.
  - apply elem_of_list_to_map_1.
    + rewrite <-list_fmap_compose. apply (sortedEntries_NoDup txs).
    + apply list_elem_of_fmap. exists (k, x). split; [done|]. rewrite sortedEntries_perm. by apply elem_of_map_to_list.
  - apply not_elem_of_list_to_map_1. rewrite <-list_fmap_compose. intros ([k' x] & -> & Hin)%list_elem_of_fmap.
    rewrite sortedEntries_perm in Hin. apply elem_of_map_to_list in Hin. cbn in *. congruence.
Qed.

(** An open view over a ledger with a new tree of transactions is applied to it. *)
Lemma accum_applied b o ef : ov_base o = b -> viewOk (ReadLaws := openLaws) o -> viewMap (ReadLaws := openLaws) o = ef_map ef ->
  RawStateTable.dropsDestroyed_ (ov_items o) = ef_fee ef -> ov_txs o = ef_txs ef -> txMap_ b = emptyInner ->
  0 <= ef_fee ef <= h_drops (header_ b) -> h_drops (header_ b) < 2 ^ 63 -> map_Forall txOk (ef_txs ef) ->
  exists b', OpenView.apply (H0 := Ledger_raw sha512Half fixCleanup) o b = Ret b' /\ ok b' /\ map b' = ef_map ef /\
    header_ b' = Ledger.withDrops (header_ b) (h_drops (header_ b) - ef_fee ef) /\
    wfRoot TnTransactionMd (txMap_ b') /\ contents (txMap_ b') = txContents (ef_txs ef).
Proof.
  intros Hb Hok Hm Hd Htx Ht Hfee Hdrops Htxs. unfold OpenView.apply.
  destruct (ledger_applied sha512Half mode Large330 fixCleanup universe differ b o Hb Hok) as (b1 & E1 & Hok1 & Em1 & Hh1 & Ht1); [lia..|].
  rewrite E1, Htx. cbn [obind]. destruct (applyTxs_spec (sortedEntries (ef_txs ef)) b1) as (b2 & E2 & Hh2 & Hs2 & Hw2 & Hc2).
  - apply sortedEntries_NoDup.
  - apply Forall_forall. intros [k x] Hin. rewrite sortedEntries_perm in Hin. apply elem_of_map_to_list in Hin. split; [by apply (Htxs k x)|].
    rewrite Ht1, Ht. done.
  - rewrite Ht1, Ht. apply wfRoot_empty.
  - exists b2. split; [exact E2|]. split; [unfold ledgerOk; by rewrite Hs2|]. split; [unfold ledgerMap; rewrite Hs2; by rewrite <-Hm, <-Em1|].
    split; [by rewrite Hh2, Hh1, Hd|]. split; [done|]. rewrite Hc2, Ht1, Ht, txContents_list. change (contents emptyInner) with (∅ : gmap Z SHAMapItem). apply map_union_empty.
Qed.
(** The digest gives different keys to the entries of the ledger's own records. *)
Definition historyKeys : Prop :=
  (forall s, 0 <= s < 2 ^ 32 -> isKey (kl_key (flagKey s)) /\ kl_key (flagKey s) <> 0 /\
     kl_key (flagKey s) <> kl_key nearKey /\ kl_key (flagKey s) <> kl_key unlKey) /\
  (forall s t, 0 <= s < 2 ^ 32 -> 0 <= t < 2 ^ 32 -> kl_key (flagKey s) = kl_key (flagKey t) -> Z.shiftr s 16 = Z.shiftr t 16) /\
  isKey (kl_key nearKey) /\ kl_key nearKey <> 0 /\ kl_key nearKey <> kl_key unlKey /\ isKey (kl_key unlKey) /\ kl_key unlKey <> 0.

(** The entries after the negative UNL has been updated *)
Definition unlMap (seq : Z) (u : option NegUNL) (m : gmap Z SLE) : gmap Z SLE :=
  if isFlagLedger seq then partial_alter (fun _ => unlEntry (kl_key unlKey) <$> (u ≫= unlStep seq)) (kl_key unlKey) m else m.

(** The entries after the skip list has been updated in the ledger after [parent] *)
Definition skipMap (parent : Ledger) (near far : option SkipRecord) (m : gmap Z SLE) : gmap Z SLE :=
  let prev := h_seq (header_ parent) in
  let h := beValue (h_hash (header_ parent)) in
  let m := if prev mod 256 =? 0 then <[kl_key (flagKey prev) := skipEntry (kl_key (flagKey prev)) (pushRecord false h prev far)]> m else m in
  <[kl_key nearKey := skipEntry (kl_key nearKey) (pushRecord true h prev near)]> m.

(** What building a ledger on [parent] relies on *)
Record buildable (rules : option bool) (parent : Ledger) (closeTime : Z) (applyTxs : OpenView Ledger -> Ledger -> Outcome (OpenView Ledger))
    (ef : Effect) (u : option NegUNL) (near far : option SkipRecord) : Prop := {
  bl_rules : rules <> Some false;
  bl_parent : ok parent;
  bl_seq : 0 <= h_seq (header_ parent) < 2 ^ 32 - 1;
  bl_drops : 0 <= ef_fee ef <= h_drops (header_ parent) /\ h_drops (header_ parent) < 2 ^ 63;
  bl_unl : unlAt (map parent) unlKey u;
  bl_unlItem : forall x y, u = Some x -> unlStep (h_seq (header_ parent) + 1) x = Some y -> y <> x -> unlOk y /\ itemOf (unlEntry (kl_key unlKey) y) ∈ universe;
  bl_effect : hasEffect applyTxs (header_ (Ledger.nextLedger parent closeTime)) (unlMap (h_seq (header_ parent) + 1) u (map parent)) ef;
  bl_txs : map_Forall txOk (ef_txs ef);
  bl_near : skipAt (ef_map ef) nearKey near;
  bl_far : skipAt (ef_map ef) (flagKey (h_seq (header_ parent))) far;
  bl_nearItem : recordIn nearKey (pushRecord true (beValue (h_hash (header_ parent))) (h_seq (header_ parent)) near);
  bl_farItem : h_seq (header_ parent) mod 256 = 0 ->
    recordIn (flagKey (h_seq (header_ parent))) (pushRecord false (beValue (h_hash (header_ parent))) (h_seq (header_ parent)) far);
}.

Lemma build_spec rules parent closeTime correct resolution applyTxs ef u near far :
  historyKeys -> buildable rules parent closeTime applyTxs ef u near far ->
  exists l, let h := header_ (Ledger.nextLedger parent closeTime) in
    (forall valid, buildLedgerImpl sha512Half mode Large330 fixCleanup valid rules parent closeTime correct resolution applyTxs =
       let r := setAccepted sha512Half valid closeTime resolution correct l in if r.1 then Ret r.2 else LogicError) /\
    header_ l = Ledger.withDrops h (h_drops h - ef_fee ef) /\ ok l /\ map l = skipMap parent near far (ef_map ef) /\
    wfRoot TnTransactionMd (txMap_ l) /\ contents (txMap_ l) = txContents (ef_txs ef).
Proof.
  intros (Hflag & _ & Hk1 & Hz1 & Hne & Hk2 & Hz2) []. set (b0 := Ledger.nextLedger parent closeTime) in *.
  assert (h_seq (header_ b0) = h_seq (header_ parent) + 1) as Es by (cbn; apply u32_id; lia).
  assert (exists b1, (if isFlagLedger (h_seq (header_ b0)) then updateNegativeUNL sha512Half mode Large330 rules b0 else Ret b0) = Ret b1 /\
    ok b1 /\ header_ b1 = header_ b0 /\ txMap_ b1 = emptyInner /\ map b1 = unlMap (h_seq (header_ parent) + 1) u (map parent)) as (b1 & E1 & Hok1 & Hh1 & Ht1 & Em1).
  { unfold unlMap. rewrite Es. destruct (isFlagLedger (h_seq (header_ parent) + 1)); [|by exists b0].
    destruct (updateNegativeUNL_spec rules b0 u) as (b1 & E & H1 & H2 & H3 & H4); rewrite ?Es; try done; [lia|]. rewrite Es in H4. by exists b1. }
  destruct (bl_effect0 b1 Hok1 Hh1 Em1) as (o & Eo & Hob & Hook & Hom & Hod & Hotx).
  destruct (accum_applied b1 o ef) as (b2 & E2 & Hok2 & Em2 & Hh2 & Hw2 & Hc2); rewrite ?Hh1; try done; [apply bl_drops0..|].
  assert (h_seq (header_ b2) = h_seq (header_ parent) + 1) as Es2 by (by rewrite Hh2, Hh1).
  assert (h_parentHash (header_ b2) = h_hash (header_ parent)) as Ep2 by (by rewrite Hh2, Hh1).
  destruct (updateSkipList_spec b2 near far) as (b3 & E3 & Hok3 & Hh3 & Ht3 & Em3); unfold nearRecord, flagRecord in *; rewrite ?Es2, ?Ep2 in *;
    replace (h_seq (header_ parent) + 1 - 1) with (h_seq (header_ parent)) in * by lia; rewrite ?Em2; try done; try (apply Hflag; lia); [lia|..].
  { intros E r. rewrite E. intros [= <-]. by apply bl_farItem0. }
  exists b3. cbv zeta. split; [|split; [by rewrite Hh3, Hh2, Hh1|]].
  { intros valid. unfold buildLedgerImpl. fold b0. rewrite E1. cbn [obind]. rewrite Eo. cbn [obind]. rewrite E2. cbn [obind]. rewrite E3. cbn [obind].
    by destruct (setAccepted _ _ _ _ _ _). }
  split; [done|]. split; [|split; congruence]. rewrite Em3, Em2. unfold skipMap. by destruct (h_seq (header_ parent) mod 256 =? 0).
Qed.
End Steps.
