(* ===== verification/LedgerClaims.v ===== *)
(** * Building ledgers: the theorems

    Chains of ledgers built on one another, and what their skip lists know of them. *)
From S2P Require Import Prelude Digits Serializer SerializerSpec SField Formats Number Amounts STTypes NodeID STTypesFacts STObject STAccess Timing HashPrefix LedgerHeader.
From S2P Require Import ShaMap ShaMapFacts ShaMapSpec Views StateTables StateTablesFacts ApplyViewFacts ViewSpec Directory LedgerView LedgerViewFacts.
From S2P Require Import ViewClaims LedgerBuild LedgerEntries LedgerBuildFacts.

Abbreviation seqOf l := (h_seq (header_ l)).
Abbreviation hashOf l := (beValue (h_hash (header_ l))).

(** ** Descending ledgers *)

(** The sequence numbers go down by one from [q]. *)
Definition descends (q : Z) (ls : list Ledger) : Prop := forall i l, ls !! i = Some l -> seqOf l = q - Z.of_nat i.

Lemma descends_cons q l ls : descends q (l :: ls) <-> seqOf l = q /\ descends (q - 1) ls.
Proof.
  split.
  - intros H. split; [rewrite (H 0%nat l eq_refl); lia|]. intros i x Hx. rewrite (H (S i) x Hx). lia.
  - intros [E H] [|i] x Hx; [injection Hx as <-; lia|]. rewrite (H i x Hx). lia.
Qed.

Lemma descends_find q ls l : descends q ls -> l ∈ ls -> ls !! Z.to_nat (q - seqOf l) = Some l.
Proof. intros H [i Hi]%list_elem_of_lookup. rewrite (H i l Hi). by replace (Z.to_nat _) with i by lia. Qed.

(** The ledgers of a block of 65536 whose number is a multiple of 256 *)
Definition isFlagOf (b : Z) (l : Ledger) : Prop := seqOf l mod 256 = 0 /\ Z.shiftr (seqOf l) 16 = b.
#[export] Instance isFlagOf_dec b l : Decision (isFlagOf b l).
Proof. unfold isFlagOf. apply _. Defined.

Definition flagLedgers (b : Z) (ls : list Ledger) : list Ledger := filter (isFlagOf b) ls.

Lemma flag_between s t u : s <= t <= u -> Z.shiftr s 16 = Z.shiftr u 16 -> Z.shiftr t 16 = Z.shiftr s 16.
Proof.
  rewrite !Z.shiftr_div_pow2 by lia. change (2 ^ 16) with 65536. intros ? E.
  pose proof (Z.div_le_mono s t 65536 ltac:(lia) ltac:(lia)). pose proof (Z.div_le_mono t u 65536 ltac:(lia) ltac:(lia)). lia.
Qed.

(** The first flag ledger of a block is the last one. *)
Lemma flag_head b ls : forall q j w v, descends q ls -> head (flagLedgers b ls) = Some w -> ls !! j = Some v -> isFlagOf b v -> seqOf v <= seqOf w.
Proof.
  induction ls as [|a ls IH]; intros q j w v Hd Hw Hv Hf; [done|]. apply descends_cons in Hd as [Ha Hd]. unfold flagLedgers in *. rewrite filter_cons in Hw.
  destruct (decide (isFlagOf b a)).
  - injection Hw as <-. destruct j as [|j]; [injection Hv as <-; lia|]. cbn in Hv. rewrite (Hd j v Hv). lia.
  - destruct j as [|j]; [injection Hv as <-; done|]. by apply (IH (q - 1) j).
Qed.

(** One flag ledger of a block is 256 after the one before. *)
Lemma flag_steps b ls : forall q k x, descends q ls -> flagLedgers b ls !! k = Some x ->
  exists y, head (flagLedgers b ls) = Some y /\ seqOf x = seqOf y - 256 * Z.of_nat k.
Proof.
  induction ls as [|l ls IH]; intros q k x Hd Hx; [done|]. apply descends_cons in Hd as [Hq Hd]. unfold flagLedgers in *. rewrite filter_cons in *.
  destruct (decide (isFlagOf b l)) as [Hl|Hl]; [|by apply (IH (q - 1))]. exists l. split; [done|]. destruct k as [|k]; [injection Hx as <-; lia|].
  cbn in Hx. destruct (IH (q - 1) k x Hd Hx) as (y & Hy & E). rewrite E. clear E x Hx.
  assert (y ∈ ls /\ isFlagOf b y) as [Hin [Hy1 Hy2]].
  { apply head_Some in Hy as [r Hr]. assert (y ∈ filter (isFlagOf b) ls) as [? ?]%list_elem_of_filter by (rewrite Hr; left). done. }
  destruct Hl as [Hl1 Hl2]. apply list_elem_of_lookup in Hin as [i Hi]. pose proof (Hd i y Hi) as Ey.
  assert (seqOf y <= seqOf l - 256) as Hle.
  { pose proof (Z.div_mod (seqOf y) 256 ltac:(lia)). pose proof (Z.div_mod (seqOf l) 256 ltac:(lia)). lia. }
  destruct (decide (seqOf y = seqOf l - 256)) as [|Hne]; [lia|]. exfalso.
  destruct (lookup_lt_is_Some_2 ls 255) as [z Hz]; [apply lookup_lt_Some in Hi; lia|]. pose proof (Hd _ _ Hz) as Ez.
  assert (isFlagOf b z) as Hflag.
  { split; [rewrite Ez; replace (q - 1 - Z.of_nat 255) with (seqOf l + (-1) * 256) by lia; by rewrite Z_mod_plus_full|].
    rewrite <-Hy2. apply (flag_between _ _ (seqOf l)); [lia|congruence]. }
  pose proof (flag_head b ls (q - 1) 255 y z Hd Hy Hz Hflag). lia.
Qed.

(** ** The records of a chain *)

(** The record that holds these hashes, if there are any *)
Definition recordOf (hashes : list Z) (last : Z) : option SkipRecord :=
  match hashes with [] => None | _ => Some (mkSkip None hashes last) end.

Definition nearHashes (past : list Ledger) : list Z := reverse (take 256 ((fun l => hashOf l) <$> past)).
Definition farHashes (b : Z) (past : list Ledger) : list Z := reverse ((fun l => hashOf l) <$> flagLedgers b past).
Definition lastSeq (ls : list Ledger) : Z := match ls with l :: _ => seqOf l | [] => 0 end.

Definition nearOf (past : list Ledger) : option SkipRecord := recordOf (nearHashes past) (lastSeq past).
Definition farOf (b : Z) (past : list Ledger) : option SkipRecord := recordOf (farHashes b past) (lastSeq (flagLedgers b past)).

Lemma reverse_nil {A} (l : list A) : reverse l = [] -> l = [].
Proof. intros H. apply (f_equal reverse) in H. by rewrite reverse_involutive in H. Qed.

Lemma recordOf_snoc l h last : recordOf (l ++ [h]) last = Some (mkSkip None (l ++ [h]) last).
Proof. by destruct l. Qed.

Lemma push_first bounded h last l q : sk_first (pushRecord bounded h last (recordOf l q)) = None.
Proof. by destruct l. Qed.

Lemma push_near l past : Some (pushRecord true (hashOf l) (seqOf l) (nearOf past)) = nearOf (l :: past).
Proof.
  unfold nearOf, nearHashes. rewrite fmap_cons. cbn [take]. rewrite reverse_cons, recordOf_snoc. cbn [lastSeq]. f_equal.
  set (hs := (fun l => hashOf l) <$> past). unfold pushRecord. f_equal; [by destruct (reverse (take 256 hs))|]. f_equal.
  replace (match recordOf (reverse (take 256 hs)) (lastSeq past) with Some r => sk_hashes r | None => [] end) with (reverse (take 256 hs)) by (by destruct (reverse (take 256 hs))).
  rewrite length_reverse, length_take. cbn [andb]. destruct (Nat.eqb_spec (256 `min` length hs) 256) as [E|E].
  - destruct (lookup_lt_is_Some_2 hs 255) as [x Hx]; [lia|]. by rewrite (take_S_r hs 255 x Hx), reverse_snoc.
  - by rewrite !take_ge by lia.
Qed.

Lemma push_far l past : seqOf l mod 256 = 0 ->
  Some (pushRecord false (hashOf l) (seqOf l) (farOf (Z.shiftr (seqOf l) 16) past)) = farOf (Z.shiftr (seqOf l) 16) (l :: past).
Proof.
  intros Hm. unfold farOf, farHashes, flagLedgers. rewrite filter_cons, decide_True by done. rewrite fmap_cons, reverse_cons, recordOf_snoc. cbn [lastSeq]. f_equal.
  set (hs := (fun l => hashOf l) <$> _). unfold pushRecord. f_equal; [by destruct (reverse hs)|]. cbn [andb]. f_equal. by destruct (reverse hs).
Qed.

Lemma skip_other l past b : ~ isFlagOf b l -> farOf b (l :: past) = farOf b past.
Proof. intros H. unfold farOf, farHashes, flagLedgers. by rewrite filter_cons, decide_False. Qed.

(** ** Acceptance *)

Lemma accepted_as sha512Half closeTime resolution (correct : bool) l : exists l', setAccepted sha512Half true closeTime resolution correct l = (true, l') /\
  stateMap_ l' = stateMap_ l /\ txMap_ l' = txMap_ l /\ seqOf l' = seqOf l /\ h_parentHash (header_ l') = h_parentHash (header_ l) /\
  h_parentCloseTime (header_ l') = h_parentCloseTime (header_ l) /\ h_drops (header_ l') = h_drops (header_ l) /\
  h_closeTime (header_ l') = closeTime /\ h_closeTimeResolution (header_ l') = resolution /\ getCloseAgree (header_ l') = correct /\
  h_txHash (header_ l') = mapHash sha512Half (txMap_ l') /\ h_accountHash (header_ l') = mapHash sha512Half (stateMap_ l') /\
  h_hash (header_ l') = calculateLedgerHash (headerHash sha512Half) (header_ l').
Proof. eexists. split; [reflexivity|]. do 11 (split; [first [reflexivity|by destruct correct]|]). reflexivity. Qed.

Lemma accepted_not sha512Half closeTime resolution (correct : bool) l : (setAccepted sha512Half false closeTime resolution correct l).1 = false.
Proof. done. Qed.

#[local] Opaque setAccepted.

(** ** Chains *)

Section Chains.
Context (sha512Half : list Z -> Z) (mode : RoundingMode) (fixCleanup : bool) (universe : list SHAMapItem).

Abbreviation ok := (ledgerOk mode Large330 universe).
Abbreviation map := (ledgerMap mode Large330).
Abbreviation nearKey := (keyletSkip sha512Half).
Abbreviation flagKey := (keyletSkipOf sha512Half).

(** The transactions leave the skip list alone. *)
Definition keepsRecords (m m' : gmap Z SLE) : Prop :=
  m' !! kl_key nearKey = m !! kl_key nearKey /\ forall s, 0 <= s < 2 ^ 32 -> m' !! kl_key (flagKey s) = m !! kl_key (flagKey s).

(** Ledgers built on one another, the newest first; the oldest has no skip list. *)
Inductive chain : list Ledger -> Prop :=
| chain_start l :
    ok l -> 0 <= seqOf l < 2 ^ 32 -> skipAt (map l) nearKey None -> (forall s, 0 <= s < 2 ^ 32 -> skipAt (map l) (flagKey s) None) -> chain [l]
| chain_built rules parent past closeTime correct resolution applyTxs ef u near far built :
    chain (parent :: past) -> buildable sha512Half mode universe rules parent closeTime applyTxs ef u near far ->
    keepsRecords (map parent) (ef_map ef) ->
    buildLedgerImpl sha512Half mode Large330 fixCleanup true rules parent closeTime correct resolution applyTxs = Ret built ->
    chain (built :: parent :: past).

Definition parentHashes (ls : list Ledger) : Prop :=
  forall i l p, ls !! i = Some l -> ls !! S i = Some p -> h_parentHash (header_ l) = h_hash (header_ p).

Record knows (l : Ledger) (past : list Ledger) : Prop := {
  kn_ok : ok l;
  kn_seq : 0 <= seqOf l < 2 ^ 32;
  kn_descends : descends (seqOf l) (l :: past);
  kn_parents : parentHashes (l :: past);
  kn_near : skipAt (map l) nearKey (nearOf past);
  kn_far : forall s, 0 <= s < 2 ^ 32 -> skipAt (map l) (flagKey s) (farOf (Z.shiftr s 16) past);
}.

Lemma skipAt_eq m m' k r r' : skipAt m k r -> skipAt m' k r' -> m !! kl_key k = m' !! kl_key k -> r = r'.
Proof.
  unfold skipAt. intros -> -> E. destruct r as [[f h q]|], r' as [[f' h' q']|]; try done. injection E. intros -> -> E'. f_equal. f_equal.
  clear E. destruct f, f'; cbn in E'; congruence.
Qed.

Lemma flagKey_block s t : Z.shiftr s 16 = Z.shiftr t 16 -> flagKey s = flagKey t.
Proof. unfold keyletSkipOf. by intros ->. Qed.

Lemma skipMap_knows parent past m near far :
  historyKeys sha512Half -> knows parent past -> keepsRecords (map parent) m ->
  skipAt m nearKey near -> skipAt m (flagKey (seqOf parent)) far ->
  skipAt (skipMap sha512Half parent near far m) nearKey (nearOf (parent :: past)) /\
  forall s, 0 <= s < 2 ^ 32 -> skipAt (skipMap sha512Half parent near far m) (flagKey s) (farOf (Z.shiftr s 16) (parent :: past)).
Proof.
  intros (Hf & Hinj & _) [] [Hk1 Hk2] Hnear Hfar.
  pose proof (skipAt_eq _ _ _ _ _ Hnear kn_near0 Hk1) as ->. pose proof (skipAt_eq _ _ _ _ _ Hfar (kn_far0 _ kn_seq0) (Hk2 _ kn_seq0)) as ->.
  unfold skipMap, skipAt. split; [by rewrite lookup_insert_eq, <-push_near|]. intros s Hs.
  rewrite lookup_insert_ne by (destruct (Hf s Hs) as (_ & _ & ? & _); congruence).
  destruct (Z.eqb_spec (seqOf parent mod 256) 0) as [E|E].
  - destruct (decide (Z.shiftr s 16 = Z.shiftr (seqOf parent) 16)) as [Eb|Eb].
    + rewrite (flagKey_block _ _ Eb), Eb, lookup_insert_eq, <-push_far by done. done.
    + rewrite lookup_insert_ne by (intros Ek; apply Eb; symmetry; by apply Hinj). rewrite skip_other by (intros [_ ?]; congruence).
      rewrite Hk2 by done. by apply kn_far0.
  - rewrite skip_other by (by intros [? _]). rewrite Hk2 by done. by apply kn_far0.
Qed.

Lemma chain_knows (differ : leavesDiffer sha512Half TnAccountState universe) (keys : historyKeys sha512Half) ls :
  chain ls -> exists l past, ls = l :: past /\ knows l past.
Proof.
  induction 1 as [l Hok Hseq Hn Hf|rules parent past closeTime correct resolution applyTxs ef u near far built _ IH Hb Hk E].
  { exists l, []. split; [done|]. split; try done. intros [|i] x Hx; [injection Hx as <-; lia|done]. }
  destruct IH as (? & ? & [= <- <-] & Hkn). exists built, (parent :: past). split; [done|].
  destruct (build_spec sha512Half mode fixCleanup universe differ rules parent closeTime correct resolution applyTxs ef u near far keys Hb)
    as (l & Eb & Hh & Hok & Em & _). rewrite (Eb true) in E.
  destruct (accepted_as sha512Half closeTime resolution correct l) as (l' & El & Hs' & _ & Es & Ep & _). rewrite El in E. cbv zeta in E. injection E as <-.
  destruct (skipMap_knows parent past (ef_map ef) near far keys Hkn Hk (bl_near _ _ _ _ _ _ _ _ _ _ _ Hb) (bl_far _ _ _ _ _ _ _ _ _ _ _ Hb)) as [Hn Hf].
  assert (map l' = map l) as Em' by (unfold ledgerMap; by rewrite Hs'). rewrite <-Em, <-Em' in Hn, Hf. pose proof (bl_seq _ _ _ _ _ _ _ _ _ _ _ Hb) as Hseq.
  assert (seqOf l' = seqOf parent + 1) as Es'. { rewrite Es, Hh. change (u32 (seqOf parent + 1) = seqOf parent + 1). apply u32_id. lia. }
  assert (h_parentHash (header_ l') = h_hash (header_ parent)) as Ep' by (rewrite Ep, Hh; reflexivity).
  split; [unfold ledgerOk; by rewrite Hs'|lia|..|exact Hn|exact Hf].
  - apply descends_cons. split; [done|]. rewrite Es'. replace (seqOf parent + 1 - 1) with (seqOf parent) by lia. apply Hkn.
  - intros [|i] x p Hx Hp; [injection Hx as <-; injection Hp as <-; exact Ep'|]. by apply (kn_parents _ _ Hkn i).
Qed.

(** *** Looking up hashes *)

Lemma hashAt_reverse k f xs q d : 0 <= d -> hashAt (hashesEntry k f (reverse xs) q) d = Ret (xs !! Z.to_nat d).
Proof.
  intros Hd. unfold hashAt. rewrite hashes_get. cbn [obind]. rewrite length_reverse. destruct (Z.ltb_spec d (Z.of_nat (length xs))) as [Hlt|Hge].
  - rewrite reverse_lookup by lia. replace (length xs - S (Z.to_nat (Z.of_nat (length xs) - d - 1)))%nat with (Z.to_nat d) by lia.
    destruct (lookup_lt_is_Some_2 xs (Z.to_nat d)) as [x ->]; [lia|done].
  - by rewrite lookup_ge_None_2 by lia.
Qed.

Lemma read_record l k r : ok l -> isKey (kl_key k) -> kl_type k = ltLEDGER_HASHES -> skipAt (map l) k r ->
  viewRead (ReadView := Ledger_read mode Large330) l k = Ret (skipEntry (kl_key k) <$> r).
Proof.
  intros Hok Hk Ht Hat. rewrite (view_read (ReadLaws := Ledger_laws mode Large330 universe) l k Hok Hk).
  change (viewMap (ReadLaws := Ledger_laws mode Large330 universe) l) with (map l). unfold skipAt in Hat. rewrite Hat. destruct r; [|done]. cbn.
  by rewrite checked_typed by (done || by rewrite Ht).
Qed.

(** What the record of the past 256 ledgers, and that of a block, know *)
Lemma near_known l past d : knows l past -> isKey (kl_key nearKey) -> 0 < d <= 256 ->
  (let? hashIndex := viewRead (ReadView := Ledger_read mode Large330) l nearKey in
   match hashIndex with Some sle => hashAt sle (d - 1) | None => Ret None end) = Ret ((fun a => hashOf a) <$> past !! Z.to_nat (d - 1)).
Proof.
  intros [] Hk Hd. rewrite (read_record l nearKey _ kn_ok0 Hk eq_refl kn_near0). cbn [obind]. unfold nearOf, recordOf, nearHashes.
  assert (take 256 ((fun a => hashOf a) <$> past) !! Z.to_nat (d - 1) = (fun a => hashOf a) <$> past !! Z.to_nat (d - 1)) as <-.
  { rewrite lookup_take_lt by lia. by rewrite list_lookup_fmap. }
  set (xs := take 256 _). pose proof (hashAt_reverse (kl_key nearKey) None xs (Some (lastSeq past)) (d - 1) ltac:(lia)) as E.
  destruct (reverse xs) eqn:Er; [apply reverse_nil in Er; by rewrite Er|exact E].
Qed.

(** The flag ledgers of a block, looked up from the last one on *)
Lemma flag_lookup q past s w : descends (q - 1) past -> 0 <= s < q -> s mod 256 = 0 -> head (flagLedgers (Z.shiftr s 16) past) = Some w ->
  s <= seqOf w < q /\ flagLedgers (Z.shiftr s 16) past !! Z.to_nat (Z.shiftr (seqOf w - s) 8) = past !! Z.to_nat (q - s - 1).
Proof.
  intros Hd Hs Hm Hw. set (F := flagLedgers (Z.shiftr s 16) past) in *.
  assert (w ∈ past /\ isFlagOf (Z.shiftr s 16) w) as [Hwin [Hw1 _]].
  { apply head_Some in Hw as [r Hr]. assert (w ∈ F) as [? ?]%list_elem_of_filter by (rewrite Hr; left). done. }
  apply list_elem_of_lookup in Hwin as [i Hi]. pose proof (Hd i w Hi) as Ew.
  assert (seqOf w - s = 256 * Z.shiftr (seqOf w - s) 8) as Ek.
  { rewrite Z.shiftr_div_pow2 by lia. change (2 ^ 8) with 256. apply Z.div_exact; [lia|]. rewrite Zminus_mod, Hw1, Hm. done. }
  destruct (past !! Z.to_nat (q - s - 1)) as [a|] eqn:Ea.
  - pose proof (Hd _ _ Ea) as Es. assert (isFlagOf (Z.shiftr s 16) a) as Hfa by (unfold isFlagOf; by replace (seqOf a) with s by lia).
    pose proof (flag_head _ _ _ _ _ _ Hd Hw Ea Hfa) as Hle. split; [lia|].
    assert (a ∈ F) as [j Hj]%list_elem_of_lookup by (apply list_elem_of_filter; split; [done|by eapply list_elem_of_lookup_2]).
    destruct (flag_steps _ _ _ _ _ Hd Hj) as (y & Hy & E). fold F in Hy. assert (y = w) as -> by congruence. by replace (Z.to_nat _) with j by lia.
  - apply lookup_ge_None in Ea. apply lookup_lt_Some in Hi. split; [lia|]. destruct (F !! _) as [x|] eqn:Ex; [|done]. exfalso.
    destruct (flag_steps _ _ _ _ _ Hd Ex) as (y & Hy & E). fold F in Hy. assert (y = w) as -> by congruence.
    assert (x ∈ F) as [_ [j Hj]%list_elem_of_lookup]%list_elem_of_filter by (by eapply list_elem_of_lookup_2).
    pose proof (Hd j x Hj). apply lookup_lt_Some in Hj. lia.
Qed.

Lemma far_known l past s : knows l past -> historyKeys sha512Half -> 0 <= s < seqOf l -> s mod 256 = 0 ->
  (let? hashIndex := viewRead (ReadView := Ledger_read mode Large330) l (flagKey s) in
   match hashIndex with
   | Some sle => let? last := getFieldU32 (sleObject sle) sfLastLedgerSequence in hashAt sle (Z.shiftr (u32 (last - s)) 8)
   | None => Ret None
   end) = Ret ((fun a => hashOf a) <$> past !! Z.to_nat (seqOf l - s - 1)).
Proof.
  intros [] (Hf & _) Hs Hm. apply descends_cons in kn_descends0 as [_ Hd]. destruct (Hf s ltac:(lia)) as (Hk & _).
  rewrite (read_record l (flagKey s) _ kn_ok0 Hk eq_refl (kn_far0 s ltac:(lia))). cbn [obind]. unfold farOf, farHashes.
  destruct (flagLedgers (Z.shiftr s 16) past) as [|w F] eqn:EF.
  - cbn. destruct (past !! Z.to_nat (seqOf l - s - 1)) as [a|] eqn:Ea; [|done]. exfalso. pose proof (Hd _ _ Ea) as Es.
    assert (a ∈ flagLedgers (Z.shiftr s 16) past) as Ha.
    { apply list_elem_of_filter. split; [unfold isFlagOf; by replace (seqOf a) with s by lia|by eapply list_elem_of_lookup_2]. }
    rewrite EF in Ha. by apply elem_of_nil in Ha.
  - destruct (flag_lookup (seqOf l) past s w Hd Hs Hm ltac:(by rewrite EF)) as [Hw E]. rewrite EF in E. rewrite <-E, <-list_lookup_fmap.
    rewrite fmap_cons, reverse_cons, recordOf_snoc, <-reverse_cons. cbn [fmap option_fmap option_map lastSeq]. unfold skipEntry. cbn [sk_first sk_hashes sk_last].
    rewrite hashes_last. cbn [obind default from_option id]. rewrite u32_id by lia. apply hashAt_reverse. apply Z.shiftr_nonneg. lia.
Qed.

(** C14: The skip list finds the hashes of the past.  In a chain of ledgers built on one another,
    from one that has no skip list yet, [hashOfSeq] on the newest ledger gives the hash of the
    ledger with the number asked for when that is one of the last 256 or a multiple of 256 that
    is in the chain, the parent the header names for the one before, and otherwise nothing; and
    every ledger names its parent in the chain.  The numbers are below [2 ^ 31], the digest
    gives the skip lists of different blocks different keys and does not collide on the leaves
    of the entries, and the transactions leave the skip lists alone. *)
Theorem hashOfSeq_finds_ancestors (l : Ledger) (past : list Ledger) (seq : Z) (differ : leavesDiffer sha512Half TnAccountState universe)
    (keys : historyKeys sha512Half) (Hchain : chain (l :: past)) (Hl : seqOf l < 2 ^ 31) (Hseq : 0 <= seq < 2 ^ 32) :
  let d := seqOf l - seq in
  hashOfSeq (H := Ledger_read mode Large330) sha512Half l (header_ l) seq =
    Ret (if d =? 1 then Some (beValue (h_parentHash (header_ l)))
         else if (0 <=? d) && ((d <=? 256) || (seq mod 256 =? 0)) then (fun a => hashOf a) <$> (l :: past) !! Z.to_nat d else None) /\
  parentHashes (l :: past).
Proof.
  intros d. destruct (chain_knows differ keys _ Hchain) as (? & ? & [= <- <-] & Hkn). split; [|apply Hkn]. pose proof (kn_seq _ _ Hkn) as Hs0.
  unfold hashOfSeq. destruct (Z.ltb_spec (seqOf l) seq); [rewrite (proj2 (Z.eqb_neq d 1)), (proj2 (Z.leb_gt 0 d)) by lia; done|].
  destruct (Z.eqb_spec seq (seqOf l)) as [->|Hne]; [unfold d; by rewrite Z.sub_diag|]. rewrite u32_id by lia.
  destruct (Z.eqb_spec seq (seqOf l - 1)) as [->|Hne1]; [by rewrite (proj2 (Z.eqb_eq d 1)) by lia|].
  rewrite (proj2 (Z.eqb_neq d 1)), (proj2 (Z.leb_le 0 d)) by lia. cbn [andb]. fold d. rewrite (u32_id d), (i32_small d) by lia.
  replace ((l :: past) !! Z.to_nat d) with (past !! Z.to_nat (d - 1)) by (by replace (Z.to_nat d) with (S (Z.to_nat (d - 1))) by lia).
  assert (seq mod 256 = 0 -> (let? hashIndex := viewRead (ReadView := Ledger_read mode Large330) l (flagKey seq) in
     match hashIndex with
     | Some sle => let? last := getFieldU32 (sleObject sle) sfLastLedgerSequence in hashAt sle (Z.shiftr (u32 (last - seq)) 8)
     | None => Ret None
     end) = Ret ((fun a => hashOf a) <$> past !! Z.to_nat (d - 1))) as Hfar.
  { intros Hm. by apply far_known; [|..|lia|]. }
  rewrite land_255. destruct (Z.leb_spec d 256) as [Hd|Hd]; cbn [orb obind].
  - pose proof (near_known l past d Hkn ltac:(apply keys) ltac:(lia)) as En.
    rewrite (proj2 (Z.eqb_neq d (- 2 ^ 31))), u64_id by lia. change (viewRead l nearKey) with (viewRead (ReadView := Ledger_read mode Large330) l nearKey).
    rewrite En. cbn [obind]. destruct (past !! Z.to_nat (d - 1)) as [a|] eqn:Ea; cbn [fmap option_fmap option_map]; [done|].
    destruct (Z.eqb_spec (seq mod 256) 0) as [Hm|Hm]; [|done]. cbn [negb]. by rewrite Hfar.
  - destruct (Z.eqb_spec (seq mod 256) 0) as [Hm|Hm]; [|done]. cbn [negb]. by rewrite Hfar.
Qed.
End Chains.

(** ** Ledgers and their hashes *)

Section Sealed.
Context (sha512Half : list Z -> Z).

(** The hashes in the header are those of the trees and of the header. *)
Definition sealed (l : Ledger) : Prop :=
  h_txHash (header_ l) = mapHash sha512Half (txMap_ l) /\ h_accountHash (header_ l) = mapHash sha512Half (stateMap_ l) /\
  h_hash (header_ l) = calculateLedgerHash (headerHash sha512Half) (header_ l).

Lemma sealed_sensible l : sealed l -> h_hash (header_ l) <> zeroHash -> h_accountHash (header_ l) <> zeroHash -> isSensible sha512Half l = true.
Proof.
  intros (Ht & Ha & _) Hh Hz. unfold isSensible. rewrite (bool_decide_eq_false_2 _ Hh), (bool_decide_eq_false_2 _ Hz). cbn [negb andb].
  by rewrite !bool_decide_eq_true_2.
Qed.

(** The strings hashed for a ledger *)
Definition hashedStrings (l : Ledger) : list (list Z) :=
  addHeader (header_ l) false (prefixBytes LedgerMaster) :: preimages sha512Half (stateMap_ l) ++ preimages sha512Half (txMap_ l).

Lemma root_range type n : wfRoot type n -> noCollision sha512Half (preimages sha512Half n) -> 0 <= nodeHash sha512Half n < 2 ^ 256.
Proof.
  intros Hn [Hnz _]. destruct n as [t x|cs]; cbn [nodeHash preimages] in *; [specialize (Hnz (leafPreimage t x) ltac:(left)); lia|].
  destruct (existsb _ cs); [|lia]. match goal with |- 0 <= sha512Half ?x < _ => specialize (Hnz x ltac:(left)) end. lia.
Qed.

Lemma mapHash_inj type n m : type <> TnInner -> type <> TnTransactionNm -> wfRoot type n -> wfRoot type m ->
  noCollision sha512Half (preimages sha512Half n ++ preimages sha512Half m) -> mapHash sha512Half n = mapHash sha512Half m -> n = m.
Proof.
  intros Ht Hty Hn Hm Hnc E. destruct (noCollision_app _ _ _ Hnc) as [H1 H2].
  apply (beBytes32_inj _ _ (root_range _ _ Hn H1) (root_range _ _ Hm H2)) in E. by apply (hash_inj sha512Half type Ht 0 0 n Hn m).
Qed.

(** The hash of a ledger identifies it.  Two ledgers whose headers carry the hashes of their
    trees and of themselves, and that have the same hash, have the same header as it is sent,
    the same state tree and the same tree of transactions, when the digest does not collide on
    the strings hashed for the two. *)
Theorem ledger_hash_identifies (l l' : Ledger) (Hl : sealed l) (Hl' : sealed l') (Hh : validHeader (header_ l)) (Hh' : validHeader (header_ l'))
    (Hs : wfRoot TnAccountState (stateMap_ l)) (Hs' : wfRoot TnAccountState (stateMap_ l')) (Ht : wfRoot TnTransactionMd (txMap_ l))
    (Ht' : wfRoot TnTransactionMd (txMap_ l')) (Hnc : noCollision sha512Half (hashedStrings l ++ hashedStrings l'))
    (E : h_hash (header_ l) = h_hash (header_ l')) :
  sentHeader (header_ l) true = sentHeader (header_ l') true /\ stateMap_ l = stateMap_ l' /\ txMap_ l = txMap_ l'.
Proof.
  destruct Hl as (Htx & Hac & Hha), Hl' as (Htx' & Hac' & Hha').
  assert (forall x, x ∈ hashedStrings l ++ hashedStrings l' -> 0 < sha512Half x < 2 ^ 256) as Hrange by apply Hnc.
  assert (sentHeader (header_ l) false = sentHeader (header_ l') false) as Esent.
  { apply (ledger_hash_commits (headerHash sha512Half) (header_ l) (header_ l') Hh Hh'); [|congruence]. unfold headerHash. intros Eb.
    apply beBytes32_inj in Eb.
    - by apply (noCollision_heads _ _ _ _ _ Hnc).
    - assert (0 < sha512Half (addHeader (header_ l) false (prefixBytes LedgerMaster)) < 2 ^ 256); [|unfold isKey; lia]. apply Hrange, elem_of_app. left. left.
    - assert (0 < sha512Half (addHeader (header_ l') false (prefixBytes LedgerMaster)) < 2 ^ 256); [|unfold isKey; lia]. apply Hrange, elem_of_app. right. left. }
  assert (h_accountHash (header_ l) = h_accountHash (header_ l') /\ h_txHash (header_ l) = h_txHash (header_ l')) as [Ea Et].
  { split; [exact (f_equal h_accountHash Esent)|exact (f_equal h_txHash Esent)]. }
  split; [|split].
  - unfold sentHeader in *. injection Esent as -> -> -> -> -> -> -> -> ->. by rewrite E.
  - apply (mapHash_inj TnAccountState); try done; [|congruence]. eapply noCollision_sub; [exact Hnc|]. unfold hashedStrings.
    intros x [Hx|Hx]%elem_of_app; apply elem_of_app; [left|right]; right; apply elem_of_app; by left.
  - apply (mapHash_inj TnTransactionMd); try done; [|congruence]. eapply noCollision_sub; [exact Hnc|]. unfold hashedStrings.
    intros x [Hx|Hx]%elem_of_app; apply elem_of_app; [left|right]; right; apply elem_of_app; by right.
Qed.
End Sealed.

(** Building a ledger on a parent never fails when the transactions leave an open view of the
    parent's entries with some effect: at a flag ledger the negative UNL is updated before them,
    the skip list after them.  The ledger built has exactly the entries of that, the
    transactions with their metadata, a header that follows the parent's with the drops
    destroyed taken off, and the hashes of its trees and of its header; with trees that are not
    valid the program ends. *)
Theorem ledger_built (sha512Half : list Z -> Z) (mode : RoundingMode) (fixCleanup : bool) (universe : list SHAMapItem) (rules : option bool)
    (parent : Ledger) (closeTime resolution : Z) (correct : bool) (applyTxs : OpenView Ledger -> Ledger -> Outcome (OpenView Ledger))
    (ef : Effect) (u : option NegUNL) (near far : option SkipRecord)
    (differ : leavesDiffer sha512Half TnAccountState universe) (keys : historyKeys sha512Half)
    (Hb : buildable sha512Half mode universe rules parent closeTime applyTxs ef u near far) :
  let build valid := buildLedgerImpl sha512Half mode Large330 fixCleanup valid rules parent closeTime correct resolution applyTxs in
  build false = LogicError /\
  exists built, build true = Ret built /\ ledgerOk mode Large330 universe built /\
    ledgerMap mode Large330 built = skipMap sha512Half parent near far (ef_map ef) /\
    wfRoot TnTransactionMd (txMap_ built) /\ contents (txMap_ built) = txContents (ef_txs ef) /\ sealed sha512Half built /\
    let h := header_ built in
    let p := header_ parent in
    h_seq h = h_seq p + 1 /\ h_parentHash h = h_hash p /\ h_parentCloseTime h = h_closeTime p /\ h_drops h = h_drops p - ef_fee ef /\
    h_closeTime h = closeTime /\ h_closeTimeResolution h = resolution /\ getCloseAgree h = correct.
Proof.
  intros build. destruct (build_spec sha512Half mode fixCleanup universe differ rules parent closeTime correct resolution applyTxs ef u near far keys Hb)
    as (l & Eb & Hh & Hok & Em & Hw & Hc). unfold build. rewrite !Eb. split; [cbv zeta; by rewrite accepted_not|].
  destruct (accepted_as sha512Half closeTime resolution correct l) as (l' & -> & Hs & Ht & Es & Ep & Ept & Ed & Ect & Er & Eg & H1 & H2 & H3).
  exists l'. split; [done|]. split; [unfold ledgerOk; by rewrite Hs|]. split; [unfold ledgerMap; by rewrite Hs|]. rewrite Ht. split; [done|]. split; [done|].
  rewrite Ht in H1. split; [split_and!; try done; by rewrite Ht|]. pose proof (bl_seq _ _ _ _ _ _ _ _ _ _ _ Hb). cbv zeta. rewrite Es, Ep, Ept, Ed, Hh.
  split_and!; try done. change (u32 (seqOf parent + 1) = seqOf parent + 1). apply u32_id. lia.
Qed.

(** ** Witnesses: two ledgers after a start *)

Definition historyDigest (bytes : list Z) : Z :=
  if (length bytes <=? 6)%nat then 2 ^ 250 * Z.of_nat (length bytes) + beValue bytes else ShaMapSpec.sampleDigest bytes.

Definition sampleStart : Ledger :=
  mkLedger {| h_seq := 256; h_parentCloseTime := 100; h_hash := replicate 32 9; h_txHash := zeroHash; h_accountHash := zeroHash;
    h_parentHash := replicate 32 3; h_drops := 1000; h_validated := true; h_accepted := true; h_closeFlags := 0; h_closeTimeResolution := 30;
    h_closeTime := 120 |} emptyInner emptyInner.

(** A transaction that destroys a fee; no transaction *)
Definition sampleApply (o : OpenView Ledger) (_ : Ledger) : Outcome (OpenView Ledger) :=
  let? o := OpenView.rawDestroyXRP true o 10 in OpenView.rawTxInsert o 5 [1; 2; 3] (Some [4]).
Definition noApply (o : OpenView Ledger) (_ : Ledger) : Outcome (OpenView Ledger) := Ret o.

Definition sampleBuild (parent : Ledger) (closeTime : Z) (applyTxs : OpenView Ledger -> Ledger -> Outcome (OpenView Ledger)) : Ledger :=
  match buildLedgerImpl historyDigest ToNearest Large330 true true None parent closeTime true 30 applyTxs with Ret b => b | _ => sampleStart end.

Definition sampleBuilt : Ledger := sampleBuild sampleStart 500 sampleApply.
Definition sampleNext : Ledger := sampleBuild sampleBuilt 510 noApply.

Definition sampleNear1 : SkipRecord := pushRecord true (hashOf sampleStart) 256 None.
Definition sampleFar1 : SkipRecord := pushRecord false (hashOf sampleStart) 256 None.
Definition sampleNear2 : SkipRecord := pushRecord true (hashOf sampleBuilt) 257 (Some sampleNear1).

Definition historyUniverse : list SHAMapItem :=
  [itemOf (skipEntry (kl_key (keyletSkip historyDigest)) sampleNear1); itemOf (skipEntry (kl_key (keyletSkipOf historyDigest 256)) sampleFar1);
   itemOf (skipEntry (kl_key (keyletSkip historyDigest)) sampleNear2)].

Lemma history_differ : leavesDiffer historyDigest TnAccountState historyUniverse.
Proof. apply leavesDiffer_check. vm_compute. reflexivity. Qed.

Lemma history_keys : historyKeys historyDigest.
Proof.
  assert (forall s, 0 <= s < 2 ^ 32 -> 0 <= Z.shiftr s 16 < 2 ^ 16 /\ kl_key (keyletSkipOf historyDigest s) = 2 ^ 250 * 6 + (115 * 2 ^ 32 + Z.shiftr s 16)) as Hs.
  { intros s Hs. assert (0 <= Z.shiftr s 16 < 2 ^ 16) as Hr.
    { rewrite Z.shiftr_div_pow2 by lia. split; [apply Z.div_pos; lia|apply Z.div_lt_upper_bound; lia]. }
    split; [done|]. unfold keyletSkipOf, indexHash, historyDigest. cbn [kl_key]. rewrite length_app, !length_beBytes. cbn [Nat.add Nat.leb].
    change (beBytes 2 skipListSpace ++ beBytes 4 (Z.shiftr s 16)) with (0 :: 115 :: beBytes 4 (Z.shiftr s 16)). set (X := beBytes 4 (Z.shiftr s 16)).
    assert (beValue X = Z.shiftr s 16) as EX by (unfold X; rewrite beValue_beBytes; apply Z.mod_small; change (8 * Z.of_nat 4) with 32; lia).
    assert (length X = 4%nat) as EL by apply length_beBytes. cbn [beValue]. rewrite EX, EL. change (Z.of_nat 6) with 6. change (8 * Z.of_nat 4) with 32. lia. }
  assert (kl_key (keyletSkip historyDigest) = 2 ^ 250 * 2 + 115) as En by reflexivity.
  assert (kl_key (keyletNegativeUNL historyDigest) = 2 ^ 250 * 2 + 78) as Eu by reflexivity.
  unfold historyKeys, isKey. rewrite En, Eu. split; [|split; [|lia]].
  - intros s Hr. destruct (Hs s Hr) as [? ->]. lia.
  - intros s t Hr Hr'. destruct (Hs s Hr) as [? ->], (Hs t Hr') as [? ->]. lia.
Qed.

Abbreviation sampleOk := (ledgerOk ToNearest Large330 historyUniverse).
Abbreviation sampleMap := (ledgerMap ToNearest Large330).

Lemma accumulate_ok b : sampleOk b -> viewOk (ReadLaws := OpenView_laws (H0 := Ledger_laws ToNearest Large330 historyUniverse) (ledgerStorable ToNearest Large330 historyUniverse)) (accumulate b) /\
  viewMap (ReadLaws := OpenView_laws (H0 := Ledger_laws ToNearest Large330 historyUniverse) (ledgerStorable ToNearest Large330 historyUniverse)) (accumulate b) = sampleMap b.
Proof. intros Hok. split; [split; [done|apply map_Forall_empty]|]. apply overlay_empty. Qed.

Definition sampleTxs : gmap Z (list Z * option (list Z)) := {[5 := ([1; 2; 3], Some [4])]}.

Lemma sampleApply_effect h m : hasEffect ToNearest historyUniverse sampleApply h m (mkEffect m 10 sampleTxs).
Proof.
  intros b Hok Hh Hm. destruct (accumulate_ok b Hok) as [H1 H2]. eexists. split; [reflexivity|]. split; [done|]. split; [exact H1|]. split; [|done]. by rewrite <-Hm.
Qed.

Lemma noApply_effect h m : hasEffect ToNearest historyUniverse noApply h m (mkEffect m 0 ∅).
Proof.
  intros b Hok Hh Hm. destruct (accumulate_ok b Hok) as [H1 H2]. eexists. split; [reflexivity|]. split; [done|]. split; [exact H1|]. split; [|done]. by rewrite <-Hm.
Qed.

Lemma start_ok : sampleOk sampleStart /\ sampleMap sampleStart = ∅.
Proof. split; [|done]. split; [apply wfRoot_empty|]. intros x Hx. by apply elem_of_nil in Hx. Qed.


Lemma record_ok hashes last : Forall (fun x => 0 <= x < 2 ^ 256) hashes -> (length hashes <= 256)%nat -> 0 <= last < 2 ^ 32 -> skipOk (mkSkip None hashes last).
Proof. intros Hh Hlen Hl. split; [done|]. split; [done|]. split; [done|]. cbn [sk_hashes]. unfold kMaxValueOfLengthFor3ByteHeader. lia. Qed.

Definition isHash (x : Z) : bool := (0 <=? x) && (x <? 2 ^ 256).
Lemma isHash_range x : isHash x = true -> 0 <= x < 2 ^ 256.
Proof. unfold isHash. rewrite andb_true_iff, Z.leb_le, Z.ltb_lt. done. Qed.

Lemma start_hash : 0 <= hashOf sampleStart < 2 ^ 256.
Proof. apply isHash_range. vm_compute. reflexivity. Qed.
Lemma built_hash : 0 <= hashOf sampleBuilt < 2 ^ 256.
Proof. apply isHash_range. vm_compute. reflexivity. Qed.

Lemma near1_in : recordIn historyUniverse (keyletSkip historyDigest) sampleNear1.
Proof. split; [apply record_ok; [apply Forall_singleton, start_hash|cbn; lia|lia]|left]. Qed.
Lemma far1_in : recordIn historyUniverse (keyletSkipOf historyDigest 256) sampleFar1.
Proof. split; [apply record_ok; [apply Forall_singleton, start_hash|cbn; lia|lia]|right; left]. Qed.
Lemma near2_in : recordIn historyUniverse (keyletSkip historyDigest) sampleNear2.
Proof.
  split; [apply record_ok; [repeat apply Forall_cons_2; [apply start_hash|apply built_hash|constructor]|cbn; lia|lia]|right; right; left].
Qed.

#[local] Opaque keyletSkip keyletSkipOf keyletNegativeUNL sampleNear1 sampleFar1 sampleNear2 sampleApply noApply.

Lemma sample_buildable : buildable historyDigest ToNearest historyUniverse None sampleStart 500 sampleApply (mkEffect ∅ 10 sampleTxs) None None None.
Proof.
  destruct start_ok as [Hok Em]. constructor.
  - done.
  - exact Hok.
  - cbn. lia.
  - cbn. lia.
  - unfold unlAt. rewrite Em. apply lookup_empty.
  - discriminate.
  - assert (isFlagLedger (seqOf sampleStart + 1) = false) as E by (vm_compute; reflexivity).
    unfold unlMap. rewrite E, Em. apply sampleApply_effect.
  - apply map_Forall_singleton. split; [unfold isKey; lia|]. by eexists _, _.
  - apply lookup_empty.
  - apply lookup_empty.
  - exact near1_in.
  - intros _. exact far1_in.
Qed.

Lemma sample_built :
  buildLedgerImpl historyDigest ToNearest Large330 true true None sampleStart 500 true 30 sampleApply = Ret sampleBuilt /\
  sampleOk sampleBuilt /\ sampleMap sampleBuilt = skipMap historyDigest sampleStart None None ∅ /\ seqOf sampleBuilt = 257 /\ h_drops (header_ sampleBuilt) = 990.
Proof.
  destruct (ledger_built historyDigest ToNearest true historyUniverse None sampleStart 500 30 true sampleApply _ _ _ _ history_differ history_keys sample_buildable)
    as (_ & b & Eb & Hok & Em & _ & _ & _ & Eseq & _ & _ & Ed & _).
  assert (sampleBuilt = b) as E by (unfold sampleBuilt, sampleBuild; rewrite Eb; reflexivity). rewrite E. split; [exact Eb|]. split; [exact Hok|]. split; [exact Em|]. split; [exact Eseq|exact Ed].
Qed.

Lemma sample_next : buildable historyDigest ToNearest historyUniverse None sampleBuilt 510 noApply (mkEffect (sampleMap sampleBuilt) 0 ∅) None (Some sampleNear1) (Some sampleFar1).
Proof.
  destruct sample_built as (_ & Hok & Em & Es & Ed). pose proof history_keys as (Hflag & Hblock & _ & _ & Hne & _).
  destruct (Hflag 256 ltac:(lia)) as (_ & _ & Hfn & Hfu).
  assert (sampleMap sampleBuilt = <[kl_key (keyletSkip historyDigest) := skipEntry (kl_key (keyletSkip historyDigest)) sampleNear1]>
    (<[kl_key (keyletSkipOf historyDigest 256) := skipEntry (kl_key (keyletSkipOf historyDigest 256)) sampleFar1]> ∅)) as Em' by exact Em.
  constructor; rewrite ?Es, ?Ed; cbn [ef_map ef_fee ef_txs].
  - done.
  - exact Hok.
  - lia.
  - lia.
  - unfold unlAt. rewrite Em'. rewrite !lookup_insert_ne by congruence. apply lookup_empty.
  - discriminate.
  - assert (isFlagLedger (257 + 1) = false) as E by (vm_compute; reflexivity). unfold unlMap. rewrite E. apply noApply_effect.
  - apply map_Forall_empty.
  - unfold skipAt. rewrite Em'. apply lookup_insert_eq.
  - unfold skipAt. rewrite Em'. change (keyletSkipOf historyDigest 257) with (keyletSkipOf historyDigest 256). rewrite lookup_insert_ne by congruence. apply lookup_insert_eq.
  - exact near2_in.
  - done.
Qed.

Lemma keeps_same m : keepsRecords historyDigest m m.
Proof. by split. Qed.

Lemma sample_chain : exists l, chain historyDigest ToNearest true historyUniverse [l; sampleBuilt; sampleStart] /\ seqOf l = 258.
Proof.
  destruct start_ok as [Hok0 Em0], sample_built as (Eb & Hok & Em & Es & Ed).
  destruct (ledger_built historyDigest ToNearest true historyUniverse None sampleBuilt 510 30 true noApply _ _ _ _ history_differ history_keys sample_next)
    as (_ & l & El & _ & _ & _ & _ & _ & Eseq & _). exists l. split; [|rewrite Eseq, Es; reflexivity].
  assert (keepsRecords historyDigest (sampleMap sampleStart) ∅) as Hk by (rewrite Em0; apply keeps_same).
  assert (chain historyDigest ToNearest true historyUniverse [sampleStart]) as H0.
  { apply chain_start; [exact Hok0|cbn; lia|unfold skipAt; rewrite Em0; apply lookup_empty|intros s _; unfold skipAt; rewrite Em0; apply lookup_empty]. }
  pose proof (chain_built _ _ _ _ _ _ _ _ _ _ _ _ _ _ _ _ H0 sample_buildable Hk Eb) as H1.
  exact (chain_built _ _ _ _ _ _ _ _ _ _ _ _ _ _ _ _ H1 sample_next (keeps_same _) El).
Qed.

Lemma hashOfSeq_finds_ancestors_witness : exists l,
  hashOfSeq (H := Ledger_read ToNearest Large330) historyDigest l (header_ l) 256 = Ret (Some (hashOf sampleStart)) /\
  hashOfSeq (H := Ledger_read ToNearest Large330) historyDigest l (header_ l) 255 = Ret None.
Proof.
  destruct sample_chain as (l & Hc & Es). exists l.
  destruct (hashOfSeq_finds_ancestors historyDigest ToNearest true historyUniverse l _ 256 history_differ history_keys Hc ltac:(rewrite Es; lia) ltac:(lia)) as [E1 _].
  destruct (hashOfSeq_finds_ancestors historyDigest ToNearest true historyUniverse l _ 255 history_differ history_keys Hc ltac:(rewrite Es; lia) ltac:(lia)) as [E2 _].
  rewrite Es in E1, E2. split; [exact E1|exact E2].
Defined.
